(* ===== verification/_CoqProject ===== *)
-Q . S2P
Prelude.v
Net.v
IpRangeSet.v
IpFilter.v
DomainMatcher.v
HostIndex.v
RoutingRules.v
KcpSegment.v
KcpEngine.v
KcpLink.v
KcpMask.v
Hysteria.v
Transport.v
Framing.v
WebSocket.v
Grpc.v
Vision.v
Shadowsocks.v
RecordBuffer.v
SsStream.v
IpText.v
Utf8.v
Duplex.v
Socks.v
Vless.v
Mux.v
FakeDns.v
OutboundGraph.v
Selection.v
Router.v
HappyEyeballs.v
Fragment.v
Trojan.v
TlsHello.v
Sniffing.v
QuicSniffing.v
QuicClient.v
DnsOutbound.v
DnsMessage.v
DnsLookup.v
NameServers.v
DnsCache.v
HttpMessage.v
HttpText.v
HttpFields.v
HttpRequest.v
HttpTarget.v
HttpBodies.v
HttpRelay.v
HttpReply.v
