(* ===== verification/Prelude.v ===== *)
(** * A verification library for xray-rust

    xray-rust routes network connections: inbounds accept them, a router
    chooses an outbound for each by ordered rules, and the outbounds speak proxy
    protocols to servers. This library models the parts of the program that
    decide and encode, as executable functions, and proves what they promise.

    ** The program and its models

    - [Prelude] (this file): Rust's [Result] with a third outcome [Panic] for
      failed indexing, [unwrap] and assertions; bytes, big-endian integers,
      slices and stream reads, UTF-8 and ASCII case folding; the tactics and
      the [len] rewrite database.
    - [Net]: addresses, networks and targets of [xray-routing/src/lib.rs].
    - [IpRangeSet]: [xray-routing/src/ip_range_set.rs]. CIDR blocks become
      inclusive ranges, which are sorted, merged in place and searched by
      [partition_point].
    - [IpFilter]: [xray-routing/src/ip_filter.rs], the DNS answer filter.
    - [DomainMatcher]: [domain_matcher.rs] and [domain_matcher_set.rs] of
      [xray-routing]: the linear matchers and the compiled set. The [regex] and
      [aho_corasick] crates are the classes [RegexEngine] and [KeywordEngine].
    - [HostIndex]: [domain_host_index.rs], the static host table.
    - [RoutingRules]: the rules of [xray-config/src/model.rs] and their
      evaluation in [xray-core-rs/src/outbound/routing.rs]. The DNS resolver is
      the class [DnsResolver], with a state of its own so that lookups can be
      counted.
    - [OutboundGraph], [Selection], [Router]: [xray-core-rs/src/outbound.rs].
      The immutable graph with its tag index, proxy chains and cycle search;
      the mutable selection overlay with overrides, health windows and the four
      balancer strategies; the router with its replaceable policy, the DNS
      prefilter and loopback following.
    - [FakeDns]: [xray-core-rs/src/fake_dns.rs], the fake-IP pool.
    - [Vless], [Mux]: [xray-proxy/src/vless/wire.rs], [vless/udp.rs] and
      [mux.rs]: request headers, XUDP packets and Mux.Cool frames.
    - [KcpSegment], [KcpEngine]: [xray-transport/src/kcp/segment.rs] and
      [engine.rs], the mKCP segments and the connection engine: send and
      receive windows, acknowledgements, pings, the state machine of a closing
      connection. [KcpLink] joins two engines by a network that may lose,
      repeat and reorder datagrams. [KcpMask] is [kcp/mask.rs], the masks that
      datagrams are wrapped in, with the noise of [udp_noise.rs]; AES-GCM and
      SHA-256 are the class [MaskCipher].
    - [Hysteria]: [xray-proxy/src/hysteria/wire.rs] and [reassembly.rs], the
      TCP and UDP messages, fragmentation and the reassembler.
    - [Vision]: [xray-proxy/src/vless/vision.rs] and [vision_stream.rs], the
      padded blocks of XTLS Vision, the filter that watches for TLS records and
      the stream with its polls. [Transport] states the contract of [AsyncRead]
      and [AsyncWrite] as the class [AsyncIo] with its laws, of which a scripted
      transport is an instance; [VisionStreamIo] extends it as in the code.
    - [WebSocket]: [xray-transport/src/stream/websocket_frame.rs] and the framed
      stream of [stream/websocket.rs]; [Grpc]: [stream/grpc/framing.rs]. Both
      decoders implement the interface [FrameFormat] of [Framing], whose lemmas
      say that the frames of a stream do not depend on how it was cut.
    - [Shadowsocks]: [xray-proxy/src/shadowsocks/address.rs] and
      [shadowsocks2022/] ([mod.rs], [udp.rs], [crypto.rs]) with [aead.rs]: keys,
      addresses, UDP sessions with their replay window, and the nonces of a
      record stream. Ciphers and hashes are the class [Ciphers], and what the
      sessions need of them the class [CiphersLaws]. [RecordBuffer] is
      [record_buffer.rs], shown to be a queue of the transport's bytes, and
      [SsStream] the TCP stream of [shadowsocks2022/stream.rs] on top of both.
    - [Socks]: [xray-proxy/src/inbound/socks.rs], [outbound/socks.rs] and the
      connection handlers of [xray-core-rs/src/socks.rs] up to where a
      connection is handed on, with the replies to the client, which depend on
      whether the connection is sniffed and what becomes of its dial. [Duplex] turns such a handshake into a tree of
      reads and writes, runs it alone against any peer or with another one
      under every interleaving, and shows that a lock-step dialogue has only
      one outcome. [IpText] has the text functions of the standard library that
      addresses are parsed with.
    - [HappyEyeballs]: [xray-transport/src/happy_eyeballs.rs] with
      [connect_tcp_stream] of [lib.rs]: the order of the candidate addresses,
      the race of connection attempts as a machine driven by timers and
      completions, and the dual-stack dialer, whose awaits are a monad of
      functions on the clock.
    - [Fragment]: [xray-transport/src/fragment.rs]: how a first TLS record is
      cut, and the stream that sends the pieces with their delays.
    - [Trojan]: [xray-proxy/src/trojan/mod.rs] and the UDP session of
      [xray-core-rs/src/outbound/trojan.rs], whose reader is another instance
      of [FrameFormat] and whose suspended sends can be dropped midway.

    - [Sniffing]: [xray-core-rs/src/sniffing.rs], the TCP sniffers and what a
      sniffed name makes of a target; [TlsHello] has its ClientHello reader,
      [QuicSniffing] its QUIC decoder with the CRYPTO assembler and the UDP
      sniffer. [Utf8] says what the text functions they use do to the
      characters of a text. [QuicClient] is the other side: a client's Initial
      packets under header protection, with HKDF, AES and AES-GCM as the class
      [QuicCrypto] and the contract [QuicClient].
    - [DnsOutbound]: [xray-core-rs/src/dns_outbound.rs] with its settings in
      [xray-config/src/model.rs]: reading a DNS query with its compressed
      names, records and EDNS options, the ordered rules and their compiled
      form, and the answers that need no resolver.
    - The DNS client of [xray-transport/src/dns.rs] in four files.
      [DnsMessage]: queries with their EDNS options, and responses with
      compressed names, their records and alias chains. [DnsLookup]: lookups
      with their time to live, the address families, and the trait
      [DnsResolver], whose contract is the class [ResolverLaws]; the system
      resolver and the one that narrows lookups to the system's routes are
      instances of it. [NameServers]: the configured resolver with the policies
      of its name servers, the plan of servers for a name, one server with its
      retries and aliases, the servers one after another or at once, static
      hosts, the fallback and the timeouts; it is an instance of [ResolverLaws]
      for every fallback that is one. An async operation is a function of the
      instant it starts at, and the exchange of a message, the fallback, the
      route probe and the random numbers are the class [DnsWorld]. [DnsCache]:
      the cache over any resolver with [ResolverLaws], as a transition system
      of the tasks that share it.
    - The HTTP inbound. [HttpMessage]: [xray-proxy/src/inbound/http_message.rs]
      and [http.rs] with the two directions of [exchange] in
      [xray-core-rs/src/http_forward.rs]: request and response heads, header
      fields, how a body is delimited, targets and authorities, accounts, the
      heads that are sent on and the copying of bodies. [HttpText] and
      [HttpFields] have the lemmas on their texts, numbers and fields,
      [HttpBodies] a reference decoder of bodies, [HttpRequest] and [HttpReply]
      what is sent in each direction, [HttpTarget] what a target in absolute
      form says and what stands for it in a forwarded request, and [HttpRelay]
      what a server reads of it. IDNA and base64 are the classes [Idna] and [Base64].

    State is passed explicitly. Methods behind a lock or on atomics are single
    steps on the value they hold; [Selection.overlay_step],
    [Router.router_step] and those of [KcpEngine], [KcpLink] and [DnsCache] are
    the step relations, and properties of running systems are stated for every state
    reachable from the initial one.
    Integers are [Z] with their widths written out where the code wraps,
    saturates or checks. Strings are byte lists.

    ** What the theorems show

    - Equivalence of optimised structures with their plain meaning: range
      index and CIDR union, compiled and linear domain matchers, routing under
      each domain strategy and a reference that says when the one lookup is
      made, DNS prefilter and no filter (without loopbacks).
    - Functional behaviour on every branch: routing, balancer choice, health
      statistics, address filters, host lookup, policy replacement.
    - Invariants of reachable states: the indexes of the fake-IP pool, the
      selection overlay, the router and its filters, the mKCP connection and
      the fragment reassembler, which neither panic nor exceed their bounds.
    - Transport promises: what one mKCP end reads is a prefix of what the other
      wrote, whatever the network does; an idle connection terminates; a peer
      unwraps every datagram from its masks;
      Hysteria fragments reassemble in any order; what a Vision stream
      delivers is a prefix of what its peer accepted, however reads and writes
      are cut; a WebSocket server assembles exactly the writes the stream
      accepted, and the WebSocket and gRPC decoders read a stream however it
      is cut; a Shadowsocks server reads the request and exactly the bytes the
      stream accepted, and reads of any response deliver the plaintext of its
      records and nothing else.
    - Handshakes: the SOCKS client and server end every handshake in the one
      outcome their settings and the dial call for, whatever the interleaving,
      with sniffing as without, and a server
      with passwords hands on only connections that sent one.
    - Security of Shadowsocks 2022 sessions, from the contract of the ciphers:
      no datagram is accepted twice, no nonce is used twice, the window of 128
      words is the set of packets it let through, and what a server sends is
      accepted.
    - Dialing: a race ends after at most twice as many events as it has
      candidates, with the first connection or the last error; the dual-stack
      dialer answers within its timeout, and connects when a candidate does.
    - Sniffing: the TCP sniffers are asked in order, never panic, and make only
      usable targets that the settings allow; what is decided stays decided
      except for HTTP; requests and ClientHellos are read as a client writes
      them; a QUIC flow is named by its hello however it is cut into frames,
      packets and datagrams, and no datagram upsets the sniffer.
    - DNS outbound: no message upsets the reader, only a query that loses
      nothing is hijacked, the compiled rules decide as the settings say, and a
      client's query is read back whole.
    - DNS client: a response is read only as an answer to its query, and what a
      server answers is read back whole; the plan of servers is the reference
      plan; asking the servers at once gives what their order calls for,
      whatever the order in which they answer; a lookup keeps to the families
      and the time it is given. In every interleaving of the tasks over the
      cache one lookup is in flight for each key, no waiter is left behind, and
      nothing is served past its time.
    - HTTP inbound: whatever a client sends, a server reads what is forwarded as
      that one request, with the path and query of its target, its authority as
      the [Host], the same body and nothing behind it; every header of the
      request and of the response is accounted for. A client reads a response
      so, and its connection is not kept when only the end of it ends the body;
      the exception is a head of a status from 100 to 199 that is not seen as
      informational, which the theorem says is misread.
    - A fragmented ClientHello is the same handshake bytes for the server, and
      what follows is passed on unchanged.
    - Trojan datagrams stay whole in both directions; after a partial frame
      nothing more is written.
    - Round trips of the wire formats, and that their readers neither panic nor
      fail to terminate on any input.
    - Negative results: a Vision frame after the first is delivered only if it
      does not begin with the bytes of the user id
      ([Vision.vision_user_id_collision]), no response for a name of 32 labels
      or more is accepted ([DnsMessage.dns_long_name_unanswered]), an HTTP
      header whose name ends in a space is forwarded as it came
      ([HttpRelay.http_spaced_names_pass]), and a datagram can make an mKCP mask
      other than AES panic inside an AES mask
      ([KcpMask.kcp_unmask_safe_inside_out]). With loopbacks the DNS prefilter
      can miss a DNS outbound: [Router.dns_prefilter_misses_loopback] is an
      example.

    ** Fuel and bounds

    [partition_point] runs with the slice's length, of which it uses the
    logarithm. The walk of the cycle search has one step more than there are
    nodes, since each step marks a node; [OutboundGraph.walk_spec] shows that
    it never runs out. The scan for a free fake address runs once over the
    pool. The XUDP reader has one turn per remaining byte, and a frame takes at
    least two. Loopbacks are followed eight times, as in the code. The mKCP
    segment reader has one turn per byte of the datagram, draining the receive
    window one turn per slot of it, and splitting into chunks one per byte. A
    Vision or WebSocket read has a turn for each byte that is buffered and two
    for each that the transport still holds, and draining the output one per
    pending byte. A gRPC message has one turn per byte, and a field takes at
    least one. A SOCKS 4 string ends after 256 bytes at the latest. Filling the
    record buffer has one turn per missing byte, and a Shadowsocks read the
    sixteen turns of the code. Interleaving has one turn per candidate;
    planning and draining a fragmented record the 4096 and 64 turns of the
    code; writing a Trojan frame one turn per byte and receiving one per unread
    byte. The sniffers' loops over names, extensions, frames, acknowledged
    ranges and packets have one turn per byte, and each turn takes at least
    one; running out counts as a panic, which is shown not to happen. A DNS
    name of a query has 256 turns: the code allows 128 pointers, 255 bytes hold
    at most 127 labels, and one turn ends it. The DNS client's names and alias
    chains have the 32, 8 and 9 turns of the code, and the race of its servers
    one turn for each server and for each answer. The lines of an HTTP head, the
    chunks of a body and its trailer have one turn per byte, and each takes at
    least one; a printed number has 64 digits at most. The limit of a line is
    an argument of the readers, 8192 in the code: what is sent on may have a
    longer request line or header line than what was read, so the theorems are
    about receivers whose limit is above the length of all that was sent.

    ** What is not modelled

    Sockets, TLS, ciphers and the tokio runtime, whose timers are taken to fire
    exactly when due; JSON parsing; the
    vendored libraries; compiling a node of the outbound graph into a dialer;
    the TUN stack and the DNS server for it; the sockets that carry DNS messages;
    the loops of the inbound listeners; VMess and Shadowsocks before 2022;
    the task that drives an mKCP engine; FFI, CLI and benchmarks. Memory orderings of the atomics are
    not modelled: each method is taken as one step. *)
From Stdlib Require Export ZArith Lia.
From Stdlib Require Import Strings.Byte Strings.String.
From stdpp Require Export base list gmap sorting numbers.

#[export] Set Warnings "-clear-no-such-hyp".

Declare Scope rust_scope.
Delimit Scope rust_scope with rust.
Open Scope rust_scope.
Open Scope Z_scope.

(** ** Results *)

(** [Result<A, E>] with the third outcome Rust code can have: a panic (an
    index out of range, an [unwrap] of nothing, a failed assertion). *)
Inductive res (E A : Type) :=
| Ok (a : A)
| Err (e : E)
| Panic.
Arguments Ok {E A} a.
Arguments Err {E A} e.
Arguments Panic {E A}.

(** Outcomes that cannot fail other than by a panic. *)
Abbreviation total := (res Empty_set).

Definition res_bind {E A B} (m : res E A) (k : A -> res E B) : res E B :=
  match m with Ok a => k a | Err e => Err e | Panic => Panic end.

Definition res_map_err {E F A} (f : E -> F) (m : res E A) : res F A :=
  match m with Ok a => Ok a | Err e => Err (f e) | Panic => Panic end.

(** [opt.ok_or(e)] *)
Definition ok_or {E A} (o : option A) (e : E) : res E A :=
  match o with Some a => Ok a | None => Err e end.

(** [opt.unwrap()] *)
Definition unwrap {E A} (o : option A) : res E A :=
  match o with Some a => Ok a | None => Panic end.

Definition is_ok {E A} (m : res E A) : bool :=
  match m with Ok _ => true | _ => false end.

Notation "'let?' x := m 'in' k" := (res_bind m (fun x => k))
  (at level 10, x pattern, m at level 100, k at level 200,
   format "'[v' 'let?'  x  :=  m  'in' '/' k ']'") : rust_scope.

(** ** Bytes and big-endian integers *)

#[export] Instance byte_eq_dec : EqDecision byte := Byte.byte_eq_dec.

#[export] Instance byte_countable : Countable byte :=
  inj_countable Byte.to_N Byte.of_N Byte.of_to_N.

(** [u8] as an integer. *)
Definition u8 (b : byte) : Z := Z.of_N (Byte.to_N b).

(** [z as u8]. *)
Definition to_u8 (z : Z) : byte :=
  match Byte.of_N (Z.to_N (z mod 256)) with Some b => b | None => x00 end.

(** [a ^ b] *)
Definition xor_byte (a b : byte) : byte := to_u8 (Z.lxor (u8 a) (u8 b)).

(** [z.to_be_bytes()] of an [8 * n]-bit integer. *)
Fixpoint be_bytes (n : nat) (z : Z) : list byte :=
  match n with
  | O => []
  | S k => to_u8 (z / 256 ^ Z.of_nat k) :: be_bytes k z
  end.

(** [from_be_bytes]. *)
Definition from_be (l : list byte) : Z :=
  fold_left (fun acc b => acc * 256 + u8 b) l 0.

(** [v.len()] as an integer. *)
Definition len {A} (l : list A) : Z := Z.of_nat (length l).

(** [l[i]]: panics out of range. *)
Definition index {E A} (l : list A) (i : Z) : res E A :=
  if i <? 0 then Panic else unwrap (l !! Z.to_nat i).

(** [&l[a..b]]: panics unless [a <= b <= l.len()]. *)
Definition slice {E A} (l : list A) (a b : Z) : res E (list A) :=
  if (0 <=? a) && (a <=? b) && (b <=? len l)
  then Ok (take (Z.to_nat (b - a)) (drop (Z.to_nat a) l))
  else Panic.

(** [&l[a..]]. *)
Definition slice_from {E A} (l : list A) (a : Z) : res E (list A) :=
  slice l a (len l).

(** [l.get(a..b)]. *)
Definition get_range {A} (l : list A) (a b : Z) : option (list A) :=
  if (0 <=? a) && (a <=? b) && (b <=? len l)
  then Some (take (Z.to_nat (b - a)) (drop (Z.to_nat a) l))
  else None.

(** Machine widths. *)
Definition u16_max : Z := 65535.
Definition u32_max : Z := 4294967295.
Definition u64_max : Z := 18446744073709551615.
(** [usize] on the 64-bit targets the program is built for. *)
Definition usize_max : Z := u64_max.
Definition wrap32 (z : Z) : Z := z mod 4294967296.
Definition wrapping_sub32 (a b : Z) : Z := wrap32 (a - b).
Definition wrapping_add32 (a b : Z) : Z := wrap32 (a + b).
Definition wrapping_mul32 (a b : Z) : Z := wrap32 (a * b).

Definition in_u8 (z : Z) : Prop := 0 <= z < 256.
Definition in_u16 (z : Z) : Prop := 0 <= z < 65536.
Definition in_u32 (z : Z) : Prop := 0 <= z < 4294967296.
Definition in_u64 (z : Z) : Prop := 0 <= z < 18446744073709551616.
Definition in_u128 (z : Z) : Prop :=
  0 <= z < 340282366920938463463374607431768211456.

(** [l.windows(n)] for [n > 0]. *)
Fixpoint windows {A} (n : nat) (l : list A) : list (list A) :=
  match l with
  | [] => []
  | _ :: r => if (n <=? length l)%nat then take n l :: windows n r else []
  end.

(** [v.chunks(n)], the last chunk possibly shorter. *)
Fixpoint chunks_fuel {A} (fuel : nat) (n : nat) (l : list A) : list (list A) :=
  match fuel with
  | O => []
  | S f => match l with
           | [] => []
           | _ => take n l :: chunks_fuel f n (drop n l)
           end
  end.
Definition chunks {A} (n : nat) (l : list A) : list (list A) :=
  chunks_fuel (length l) n l.

(** ** Text: a Rust [str] is its UTF-8 bytes *)

Abbreviation str := (list byte).

Export String.StringSyntax.

Definition str_of (s : string) : str := list_byte_of_string s.
Arguments str_of s%_string_scope.

Definition is_cont (b : byte) : bool := (0x80 <=? u8 b) && (u8 b <=? 0xBF).

(** The code points of a byte string, as [str::from_utf8] accepts it
    (Unicode table 3-7) and [str::chars] yields them. *)
Fixpoint utf8_chars (l : list byte) : option (list Z) :=
  match l with
  | [] => Some []
  | b0 :: r0 =>
    let z0 := u8 b0 in
    if z0 <? 0x80 then cons z0 <$> utf8_chars r0
    else match r0 with
    | [] => None
    | b1 :: r1 =>
      let z1 := u8 b1 in
      if (0xC2 <=? z0) && (z0 <=? 0xDF) then
        if is_cont b1
        then cons ((z0 - 0xC0) * 64 + (z1 - 0x80)) <$> utf8_chars r1
        else None
      else match r1 with
      | [] => None
      | b2 :: r2 =>
        let z2 := u8 b2 in
        if (0xE0 <=? z0) && (z0 <=? 0xEF) then
          if ((if z0 =? 0xE0 then 0xA0 else 0x80) <=? z1) &&
             (z1 <=? (if z0 =? 0xED then 0x9F else 0xBF)) && is_cont b2
          then cons ((z0 - 0xE0) * 4096 + (z1 - 0x80) * 64 + (z2 - 0x80))
                 <$> utf8_chars r2
          else None
        else match r2 with
        | [] => None
        | b3 :: r3 =>
          if (0xF0 <=? z0) && (z0 <=? 0xF4) &&
             ((if z0 =? 0xF0 then 0x90 else 0x80) <=? z1) &&
             (z1 <=? (if z0 =? 0xF4 then 0x8F else 0xBF)) &&
             is_cont b2 && is_cont b3
          then cons ((z0 - 0xF0) * 262144 + (z1 - 0x80) * 4096
                     + (z2 - 0x80) * 64 + (u8 b3 - 0x80)) <$> utf8_chars r3
          else None
        end
      end
    end
  end.

(** [str::from_utf8(bytes)]. *)
Definition from_utf8 (l : list byte) : option str :=
  match utf8_chars l with Some _ => Some l | None => None end.

Definition is_utf8 (l : list byte) : bool :=
  match utf8_chars l with Some _ => true | None => false end.

(** [s.chars()] *)
Definition chars (s : str) : list Z := default [] (utf8_chars s).

(** [char::is_control]: general category Cc. *)
Definition is_control (c : Z) : bool :=
  (c <=? 0x1F) || ((0x7F <=? c) && (c <=? 0x9F)).

(** [char::is_whitespace]: the White_Space property. *)
Definition is_whitespace (c : Z) : bool :=
  ((0x09 <=? c) && (c <=? 0x0D)) || (c =? 0x20) || (c =? 0x85) || (c =? 0xA0)
  || (c =? 0x1680) || ((0x2000 <=? c) && (c <=? 0x200A)) || (c =? 0x2028)
  || (c =? 0x2029) || (c =? 0x202F) || (c =? 0x205F) || (c =? 0x3000).

Definition is_ascii_uppercase (b : byte) : bool :=
  (0x41 <=? u8 b) && (u8 b <=? 0x5A).

(** [u8::to_ascii_lowercase]. *)
Definition ascii_lower (b : byte) : byte :=
  if is_ascii_uppercase b then to_u8 (u8 b + 32) else b.

Definition to_ascii_lowercase (s : str) : str := map ascii_lower s.

(** [a.eq_ignore_ascii_case(b)]. *)
Definition eq_ignore_ascii_case (a b : str) : bool :=
  bool_decide (to_ascii_lowercase a = to_ascii_lowercase b).

Definition dot : byte := "."%byte.

(** [s.trim_end_matches('.')]. *)
Fixpoint drop_dots (l : list byte) : list byte :=
  match l with
  | b :: r => if bool_decide (b = dot) then drop_dots r else l
  | [] => []
  end.
Definition trim_end_dots (s : str) : str := reverse (drop_dots (reverse s)).

(** [bytes.split(|&byte| byte == c)] *)
Fixpoint split_on (c : byte) (l : list byte) : list (list byte) :=
  match l with
  | [] => [[]]
  | b :: r =>
    if bool_decide (b = c) then [] :: split_on c r
    else match split_on c r with p :: ps => (b :: p) :: ps | [] => [[b]] end
  end.

(** No byte is [c]. *)
Definition without (c : byte) (s : str) : Prop := Forall (fun b => b <> c) s.

(** ** Automation *)

Create HintDb rust.
Create Rewrite HintDb len.

(** Turns boolean comparisons in the context and the goal into propositions. *)
Ltac unbool :=
  repeat match goal with
  | H : _ && _ = true |- _ => apply andb_true_iff in H; destruct H
  | H : _ || _ = false |- _ => apply orb_false_iff in H; destruct H
  | H : negb _ = true |- _ => apply negb_true_iff in H
  | H : negb _ = false |- _ => apply negb_false_iff in H
  | H : (_ <? _) = true |- _ => apply Z.ltb_lt in H
  | H : (_ <? _) = false |- _ => apply Z.ltb_ge in H
  | H : (_ <=? _) = true |- _ => apply Z.leb_le in H
  | H : (_ <=? _) = false |- _ => apply Z.leb_gt in H
  | H : (_ =? _) = true |- _ => apply Z.eqb_eq in H
  | H : (_ =? _) = false |- _ => apply Z.eqb_neq in H
  | H : bool_decide _ = true |- _ => apply bool_decide_eq_true_1 in H
  | H : bool_decide _ = false |- _ => apply bool_decide_eq_false_1 in H
  end.

(** Proves a decidable closed proposition by evaluating its decision. *)
Ltac by_decision := apply (bool_decide_unpack _); vm_compute; exact I.

(** Case analysis on the first boolean test of the goal. *)
Ltac case_if :=
  match goal with
  | |- context [if ?b then _ else _] => destruct b eqn:?
  end.

(** The same in a hypothesis. *)
Ltac case_if_in H :=
  match type of H with
  | context [if ?b then _ else _] => destruct b eqn:?
  end.

(** Decides the comparison guard of an [if] by arithmetic. *)
Tactic Notation "guard_true" "by" tactic3(tac) :=
  match goal with
  | |- context [if ?b then _ else _] =>
    let H := fresh in assert (b = true) as H by tac; rewrite H; clear H
  end.
Tactic Notation "guard_false" "by" tactic3(tac) :=
  match goal with
  | |- context [if ?b then _ else _] =>
    let H := fresh in assert (b = false) as H by tac; rewrite H; clear H
  end.

(** ** Results *)

Lemma res_bind_Ok {E A B} (a : A) (k : A -> res E B) : res_bind (Ok a) k = k a.
Proof. done. Qed.

(** Unlike [injection], leaves the payloads unreduced. *)
Lemma Ok_inj {E A} (a b : A) : @Ok E A a = Ok b -> a = b.
Proof. congruence. Qed.

Lemma res_bind_ok_inv {E A B} (m : res E A) (k : A -> res E B) b :
  res_bind m k = Ok b -> exists a, m = Ok a /\ k a = Ok b.
Proof. destruct m; simpl; intros H; [eauto | done | done]. Qed.

Lemma is_ok_exists {E A} (m : res E A) : is_ok m = true -> exists a, m = Ok a.
Proof. destruct m; [eauto | done | done]. Qed.

(** A bind panics only where one of its parts does. *)
Lemma res_bind_no_panic {E A B} (m : res E A) (k : A -> res E B) :
  m <> Panic -> (forall a, m = Ok a -> k a <> Panic) -> res_bind m k <> Panic.
Proof. destruct m; simpl; naive_solver. Qed.

Lemma ok_or_no_panic {E A} (o : option A) (e : E) : ok_or o e <> Panic.
Proof. by destruct o. Qed.
#[export] Hint Resolve ok_or_no_panic : rust.

(** ** Bytes *)

Lemma u8_range b : 0 <= u8 b < 256.
Proof.
  unfold u8. pose proof (Byte.to_N_bounded b). lia.
Qed.

Lemma u8_to_u8 z : u8 (to_u8 z) = z mod 256.
Proof.
  unfold to_u8, u8. pose proof (Z.mod_pos_bound z 256 eq_refl).
  destruct (Byte.of_N (Z.to_N (z mod 256))) as [b|] eqn:E.
  - apply Byte.to_of_N in E. rewrite E. lia.
  - apply Byte.of_N_None_iff in E. lia.
Qed.

Lemma u8_inj a b : u8 a = u8 b -> a = b.
Proof.
  unfold u8. intros H%N2Z.inj.
  pose proof (Byte.of_to_N a). pose proof (Byte.of_to_N b). congruence.
Qed.

Lemma to_u8_u8 b : to_u8 (u8 b) = b.
Proof.
  apply u8_inj. rewrite u8_to_u8. apply Z.mod_small, u8_range.
Qed.

Lemma u8_to_u8_small z : 0 <= z < 256 -> u8 (to_u8 z) = z.
Proof. intros. rewrite u8_to_u8. by apply Z.mod_small. Qed.

Lemma lxor_mod a b k : 0 <= k -> Z.lxor (a mod 2 ^ k) (b mod 2 ^ k) = Z.lxor a b mod 2 ^ k.
Proof.
  intros Hk. apply Z.bits_inj'. intros n Hn. rewrite Z.lxor_spec.
  destruct (decide (n < k)).
  - by rewrite !Z.mod_pow2_bits_low, Z.lxor_spec by lia.
  - by rewrite !Z.mod_pow2_bits_high by lia.
Qed.

Lemma u8_xor a b : u8 (xor_byte a b) = Z.lxor (u8 a) (u8 b).
Proof.
  unfold xor_byte. rewrite u8_to_u8. change 256 with (2 ^ 8). rewrite <- lxor_mod by lia.
  change (2 ^ 8) with 256. by rewrite !Z.mod_small by apply u8_range.
Qed.

Lemma xor_xor a b : xor_byte (xor_byte a b) b = a.
Proof.
  apply u8_inj. rewrite !u8_xor, Z.lxor_assoc, Z.lxor_nilpotent, Z.lxor_0_r. done.
Qed.

(** ** Big-endian integers *)

(** Bits that do not meet add up. *)
Lemma lor_disjoint_add a b k :
  0 <= k -> 0 <= a < 2 ^ k -> Z.lor a (Z.shiftl b k) = a + b * 2 ^ k.
Proof.
  intros Hk Ha. rewrite Z.shiftl_mul_pow2 by lia.
  assert (Z.land a (b * 2 ^ k) = 0) as Hdis.
  { apply Z.bits_inj'. intros n Hn. rewrite Z.land_spec, Z.bits_0.
    destruct (decide (n < k)); [rewrite (Z.mul_pow2_bits_low b) by lia; apply andb_false_r|].
    rewrite <- (Z.mod_small a (2 ^ k)) by lia. by rewrite Z.mod_pow2_bits_high by lia. }
  by rewrite <- Z.lxor_lor, <- Z.add_nocarry_lxor.
Qed.

Lemma length_be_bytes n z : length (be_bytes n z) = n.
Proof. induction n; simpl; congruence. Qed.

Lemma from_be_acc l acc :
  fold_left (fun acc b => acc * 256 + u8 b) l acc
  = acc * 256 ^ len l + from_be l.
Proof.
  unfold from_be. revert acc. induction l as [|b l IH]; intros acc.
  - unfold len; simpl. lia.
  - simpl. rewrite IH, (IH (0 * 256 + u8 b)). unfold len; simpl.
    rewrite Nat2Z.inj_succ, Z.pow_succ_r by lia. ring.
Qed.

Lemma from_be_cons b l : from_be (b :: l) = u8 b * 256 ^ len l + from_be l.
Proof. unfold from_be at 1. simpl. apply from_be_acc. Qed.

Lemma from_be_range l : 0 <= from_be l < 256 ^ len l.
Proof.
  induction l as [|b l IH]; [done|].
  rewrite from_be_cons. unfold len in *; simpl.
  rewrite Nat2Z.inj_succ, Z.pow_succ_r by lia.
  pose proof (u8_range b). nia.
Qed.

Lemma from_be_bytes n z : from_be (be_bytes n z) = z mod 256 ^ Z.of_nat n.
Proof.
  induction n as [|n IH]; simpl be_bytes.
  { change (256 ^ Z.of_nat 0) with 1. by rewrite Z.mod_1_r. }
  rewrite from_be_cons, IH, u8_to_u8. unfold len. rewrite length_be_bytes.
  rewrite Nat2Z.inj_succ, Z.pow_succ_r by lia.
  assert (0 < 256 ^ Z.of_nat n) by (apply Z.pow_pos_nonneg; lia).
  rewrite (Z.mul_comm 256), Z.rem_mul_r by lia. ring.
Qed.

Lemma from_be_bytes_small n z :
  0 <= z < 256 ^ Z.of_nat n -> from_be (be_bytes n z) = z.
Proof. intros. rewrite from_be_bytes. by apply Z.mod_small. Qed.

Lemma from_be_inj l1 l2 :
  length l1 = length l2 -> from_be l1 = from_be l2 -> l1 = l2.
Proof.
  revert l2. induction l1 as [|a l1 IH]; intros [|b l2] Hl E; try done.
  simplify_eq/=. rewrite !from_be_cons in E. unfold len in E. rewrite Hl in E.
  pose proof (from_be_range l1) as R1. pose proof (from_be_range l2) as R2.
  unfold len in R1, R2. rewrite Hl in R1.
  assert (u8 a = u8 b) as Hab by nia.
  apply u8_inj in Hab as ->. f_equal. apply IH; [done | lia].
Qed.

Lemma be_bytes_from_be l n : length l = n -> be_bytes n (from_be l) = l.
Proof.
  intros <-. apply from_be_inj; [apply length_be_bytes|].
  rewrite from_be_bytes. apply Z.mod_small. apply from_be_range.
Qed.

(** ** Lengths *)

Lemma len_nonneg {A} (l : list A) : 0 <= len l.
Proof. unfold len. lia. Qed.

Lemma len_app {A} (l k : list A) : len (l ++ k) = len l + len k.
Proof. unfold len. rewrite length_app. lia. Qed.

Lemma len_cons {A} (x : A) l : len (x :: l) = 1 + len l.
Proof. unfold len. simpl. lia. Qed.

Lemma len_be_bytes n z : len (be_bytes n z) = Z.of_nat n.
Proof. unfold len. by rewrite length_be_bytes. Qed.

Lemma len_nil {A} : len (@nil A) = 0.
Proof. done. Qed.

Lemma len_zero {A} (l : list A) : len l = 0 -> l = [].
Proof. destruct l; [done | unfold len; simpl; lia]. Qed.

#[export] Hint Rewrite @len_app @len_cons @len_be_bytes @len_nil : len.

(** Evaluates the literal lengths [Z.of_nat n]. *)
Ltac nat_literals :=
  repeat match goal with
  | |- context [Z.of_nat ?n] =>
    let z := eval vm_compute in (Z.of_nat n) in
    match z with
    | Z0 => change (Z.of_nat n) with z
    | Zpos _ => change (Z.of_nat n) with z
    end
  end.

Ltac len_simpl := autorewrite with len; nat_literals.
Ltac len_lia := autorewrite with len in *; unfold len in *; simpl in *; lia.

(** ** Variable-length integers of QUIC *)

Lemma varint_fold l acc :
  0 <= acc ->
  fold_left (fun value b => Z.lor (Z.shiftl value 8) (u8 b)) l acc
  = acc * 256 ^ len l + from_be l.
Proof.
  intros Hacc. rewrite <- from_be_acc. revert acc Hacc.
  induction l as [|b l IH]; intros acc Hacc; [done|]. simpl. pose proof (u8_range b).
  rewrite Z.lor_comm, lor_disjoint_add by lia. rewrite IH by lia. f_equal. lia.
Qed.

(** A number with a tag in the two upper bits of its first byte. *)
Lemma tagged_bytes tag v k :
  0 <= tag < 4 -> 0 <= v < 64 * 256 ^ Z.of_nat k ->
  exists b rest, be_bytes (S k) (v + tag * 64 * 256 ^ Z.of_nat k) = b :: rest
    /\ len rest = Z.of_nat k /\ u8 b / 64 = tag
    /\ from_be (b :: rest) - tag * 64 * 256 ^ Z.of_nat k = v.
Proof.
  intros Ht Hv. set (w := v + tag * 64 * 256 ^ Z.of_nat k).
  assert (0 < 256 ^ Z.of_nat k) as Hpos by (apply Z.pow_pos_nonneg; lia).
  pose proof (from_be_bytes_small (S k) w) as Hw.
  rewrite Nat2Z.inj_succ, Z.pow_succ_r in Hw by lia. specialize (Hw ltac:(unfold w; nia)).
  exists (to_u8 (w / 256 ^ Z.of_nat k)), (be_bytes k w). cbn [be_bytes] in *.
  set (b := to_u8 (w / 256 ^ Z.of_nat k)) in *.
  pose proof (from_be_range (be_bytes k w)) as Hr. rewrite len_be_bytes in Hr.
  split_and!; [done | apply len_be_bytes | | rewrite Hw; unfold w; lia].
  rewrite from_be_cons, len_be_bytes in Hw. pose proof (u8_range b).
  symmetry. apply Z.div_unique with (u8 b - tag * 64); [|lia]. left. unfold w in *. nia.
Qed.

(** ** Slices and indexing *)

Lemma slice_ok {E A} (l : list A) a b r :
  @slice E A l a b = Ok r ->
  0 <= a <= b /\ b <= len l /\ r = take (Z.to_nat (b - a)) (drop (Z.to_nat a) l).
Proof. unfold slice. case_if; [|done]. unbool. naive_solver. Qed.

(** Slicing out a middle part given the parts around it. *)
Lemma slice_app3 {E A} (x y z : list A) a b :
  len x = a -> b = a + len y -> @slice E A (x ++ y ++ z) a b = Ok y.
Proof.
  intros Ha ->. unfold slice. pose proof (len_nonneg x). pose proof (len_nonneg y).
  pose proof (len_nonneg z). guard_true by (rewrite !len_app; lia).
  replace (Z.to_nat a) with (length x) by (unfold len in *; lia).
  rewrite drop_app_length.
  replace (Z.to_nat (a + len y - a)) with (length y) by (unfold len; lia).
  by rewrite take_app_length.
Qed.

Lemma slice_eq {E A} (x y z l : list A) a b :
  l = x ++ y ++ z -> len x = a -> b = a + len y -> @slice E A l a b = Ok y.
Proof. intros ->. apply slice_app3. Qed.

Lemma get_range_eq {A} (x y z l : list A) a b :
  l = x ++ y ++ z -> len x = a -> b = a + len y -> get_range l a b = Some y.
Proof.
  intros Hl Hx Hb. pose proof (@slice_eq unit A x y z l a b Hl Hx Hb) as H.
  unfold slice in H. unfold get_range. case_if_in H; [|done]. by apply Ok_inj in H as ->.
Qed.

Lemma get_range_some {A} (l r : list A) a b :
  get_range l a b = Some r -> 0 <= a <= b /\ b <= len l /\ len r = b - a.
Proof.
  unfold get_range. case_if; [|done]. intros [= <-]. unbool. unfold len in *.
  rewrite length_take, length_drop. lia.
Qed.

Lemma slice_from_eq {E A} (x y l : list A) n :
  l = x ++ y -> len x = n -> @slice_from E A l n = Ok y.
Proof.
  intros -> Hn. unfold slice_from. apply (slice_eq x y []); rewrite ?app_nil_r; try done.
  rewrite len_app. lia.
Qed.

Lemma slice_no_panic {E A} (l : list A) a b :
  0 <= a <= b -> b <= len l -> @slice E A l a b <> Panic.
Proof. intros. unfold slice. by guard_true by lia. Qed.

Lemma slice_from_ok {E A} (l : list A) n :
  0 <= n <= len l -> @slice_from E A l n = Ok (drop (Z.to_nat n) l).
Proof.
  intros Hn. apply (slice_from_eq (take (Z.to_nat n) l)); [by rewrite take_drop|].
  unfold len in *. rewrite length_take. lia.
Qed.

Lemma slice_from_no_panic {E A} (l : list A) n : 0 <= n <= len l -> @slice_from E A l n <> Panic.
Proof. intros. apply slice_no_panic; lia. Qed.

Lemma index_no_panic {E A} (l : list A) i :
  0 <= i < len l -> @index E A l i <> Panic.
Proof.
  intros Hi. unfold index. guard_false by lia.
  destruct (lookup_lt_is_Some_2 l (Z.to_nat i)) as [x ->]; [unfold len in *; lia | done].
Qed.

Lemma index_app_len {E A} (l k : list A) (x : A) i :
  len l = i -> @index E A (l ++ x :: k) i = Ok x.
Proof.
  intros Hi. unfold index. pose proof (len_nonneg l). guard_false by lia.
  rewrite list_lookup_middle; [done | unfold len in *; lia].
Qed.

Lemma index_app_l {E A} (l k : list A) i : i < len l -> @index E A (l ++ k) i = index l i.
Proof.
  intros Hi. unfold index. case_if; [done|]. unbool. unfold len in Hi.
  by rewrite lookup_app_l by lia.
Qed.

Lemma index_app_r {E A} (l k : list A) i : 0 <= i -> @index E A (l ++ k) (len l + i) = index k i.
Proof.
  intros Hi. pose proof (len_nonneg l). unfold index.
  rewrite (proj2 (Z.ltb_ge (len l + i) 0)), (proj2 (Z.ltb_ge i 0)) by lia. unfold len.
  rewrite lookup_app_r by lia. do 2 f_equal. lia.
Qed.

Lemma index_some {E A} (l : list A) i : 0 <= i < len l -> exists x, @index E A l i = Ok x.
Proof.
  intros Hi. unfold index. guard_false by lia. unfold len in Hi.
  destruct (lookup_lt_is_Some_2 l (Z.to_nat i)) as [x ->]; [lia|]. by exists x.
Qed.

Lemma slice_len {E A} (l r : list A) a b : @slice E A l a b = Ok r -> len r = b - a.
Proof.
  intros (? & ? & ->)%slice_ok. unfold len in *.
  rewrite length_take, length_drop. lia.
Qed.

Lemma from_utf8_ok d : is_utf8 d = true -> from_utf8 d = Some d.
Proof. unfold is_utf8, from_utf8. by destruct (utf8_chars d). Qed.

Lemma slice_app_l {E A} (l k : list A) a b :
  0 <= a <= b -> b <= len l -> @slice E A (l ++ k) a b = slice l a b.
Proof.
  intros Ha Hb. unfold slice. pose proof (len_nonneg k).
  guard_true by (rewrite len_app; lia). guard_true by lia. f_equal. unfold len in Hb.
  rewrite drop_app_le by lia. rewrite take_app_le; [done|rewrite length_drop; lia].
Qed.

Lemma slice_some {E A} (l : list A) a b :
  0 <= a <= b -> b <= len l -> exists r, @slice E A l a b = Ok r.
Proof. intros. unfold slice. guard_true by lia. by eexists. Qed.

(** Chunks concatenate to the list; each is non-empty and at most [n] long, and there are
    [div_ceil(len, n)] of them. *)
Lemma chunks_fuel_spec {A} fuel n (l : list A) :
  (0 < n)%nat -> (length l <= fuel)%nat ->
  concat (chunks_fuel fuel n l) = l
  /\ Forall (fun c => c <> [] /\ (length c <= n)%nat) (chunks_fuel fuel n l).
Proof.
  intros Hn. revert l. induction fuel as [|fuel IH]; intros l Hl; simpl.
  - by destruct l; [|simpl in *; lia].
  - destruct l as [|x l]; [done|].
    destruct (IH (drop n (x :: l))) as [Hc Hf]; [rewrite length_drop; simpl in *; lia|].
    cbn [concat]. rewrite Hc, take_drop. split; [done|]. constructor; [|done].
    split; [destruct n; [lia | done] | rewrite length_take; lia].
Qed.

Lemma chunks_spec {A} n (l : list A) :
  (0 < n)%nat ->
  concat (chunks n l) = l /\ Forall (fun c => c <> [] /\ (length c <= n)%nat) (chunks n l).
Proof. intros Hn. by apply chunks_fuel_spec. Qed.

Lemma div_ceil_step a b : 0 < b -> (a + b + b - 1) / b = 1 + (a + b - 1) / b.
Proof. intros. replace (a + b + b - 1) with (a + b - 1 + 1 * b) by lia. rewrite Z.div_add by lia. lia. Qed.

Lemma len_chunks_fuel {A} fuel n (l : list A) :
  (0 < n)%nat -> (length l <= fuel)%nat ->
  len (chunks_fuel fuel n l) = (len l + Z.of_nat n - 1) / Z.of_nat n.
Proof.
  intros Hn. revert l. induction fuel as [|fuel IH]; intros l Hl.
  { destruct l; [|simpl in *; lia]. change (0 = (0 + Z.of_nat n - 1) / Z.of_nat n).
    rewrite Z.div_small; lia. }
  destruct l as [|x l]; cbn [chunks_fuel].
  { change (0 = (0 + Z.of_nat n - 1) / Z.of_nat n). rewrite Z.div_small; lia. }
  rewrite len_cons, IH by (rewrite length_drop; simpl in *; lia).
  unfold len. rewrite length_drop. destruct (decide (n <= length (x :: l))%nat) as [Hle|Hgt].
  - rewrite <- div_ceil_step by lia. f_equal. lia.
  - replace (length (x :: l) - n)%nat with 0%nat by lia. rewrite (Z.div_small (0 + _ - 1)) by lia.
    apply Z.div_unique with (Z.of_nat (length (x :: l)) - 1); simpl in *; lia.
Qed.

Lemma len_chunks {A} n (l : list A) :
  (0 < n)%nat -> len (chunks n l) = (len l + Z.of_nat n - 1) / Z.of_nat n.
Proof. intros. by apply len_chunks_fuel. Qed.

Lemma Forall_In {A} (P : A -> Prop) l x : Forall P l -> In x l -> P x.
Proof. intros Hf. by apply List.Forall_forall. Qed.

(** ** ASCII case *)

Lemma ascii_lower_idem b : ascii_lower (ascii_lower b) = ascii_lower b.
Proof. by destruct b. Qed.

Lemma ascii_lower_dot b : ascii_lower b = dot <-> b = dot.
Proof. split; [by destruct b | by intros ->]. Qed.

Lemma ascii_lower_id b : is_ascii_uppercase b = false -> ascii_lower b = b.
Proof. unfold ascii_lower. by intros ->. Qed.

Lemma lower_idem s : to_ascii_lowercase (to_ascii_lowercase s) = to_ascii_lowercase s.
Proof.
  unfold to_ascii_lowercase. rewrite map_map. apply map_ext. apply ascii_lower_idem.
Qed.

Lemma lower_app s t :
  to_ascii_lowercase (s ++ t) = to_ascii_lowercase s ++ to_ascii_lowercase t.
Proof. apply map_app. Qed.

Lemma length_lower s : length (to_ascii_lowercase s) = length s.
Proof. apply length_map. Qed.

Lemma lower_id s : existsb is_ascii_uppercase s = false -> to_ascii_lowercase s = s.
Proof.
  induction s as [|b s IH]; simpl; [done|]. intros [Hb Hs]%orb_false_iff.
  by rewrite ascii_lower_id, IH.
Qed.

Lemma drop_dots_lower l : drop_dots (to_ascii_lowercase l) = to_ascii_lowercase (drop_dots l).
Proof.
  induction l as [|b l IH]; [done|]. simpl.
  rewrite (bool_decide_ext _ (b = dot)) by apply ascii_lower_dot. by case_if.
Qed.

Lemma drop_dots_idem l : drop_dots (drop_dots l) = drop_dots l.
Proof.
  induction l as [|b l IH]; [done|]. simpl. destruct (bool_decide (b = dot)) eqn:E; [done|].
  simpl. by rewrite E.
Qed.

Lemma trim_lower s : trim_end_dots (to_ascii_lowercase s) = to_ascii_lowercase (trim_end_dots s).
Proof.
  unfold trim_end_dots.
  assert (forall l, reverse (to_ascii_lowercase l) = to_ascii_lowercase (reverse l)) as Hr
    by (intros l; symmetry; apply (fmap_reverse ascii_lower)).
  by rewrite Hr, drop_dots_lower, Hr.
Qed.

Lemma trim_idem s : trim_end_dots (trim_end_dots s) = trim_end_dots s.
Proof. unfold trim_end_dots. by rewrite reverse_involutive, drop_dots_idem. Qed.

Lemma eq_ignore_ascii_case_spec a b :
  eq_ignore_ascii_case a b = true <-> to_ascii_lowercase a = to_ascii_lowercase b.
Proof. apply bool_decide_eq_true. Qed.

#[export] Hint Rewrite lower_idem lower_app length_lower : len.

(** ** Splitting *)

Lemma split_on_without c s : without c s -> split_on c s = [s].
Proof.
  induction 1 as [|b s Hb _ IH]; [done|]. simpl. rewrite bool_decide_eq_false_2 by done. by rewrite IH.
Qed.

Lemma split_on_app c s t : without c s -> split_on c (s ++ c :: t) = s :: split_on c t.
Proof.
  induction 1 as [|b s Hb _ IH]; simpl; [by rewrite bool_decide_eq_true_2|].
  rewrite bool_decide_eq_false_2 by done. by rewrite IH.
Qed.

(** ** Readers *)

(** The kinds of [io::Error] the modelled code makes; message texts are left
    out. *)
Inductive IoError := UnexpectedEof | InvalidData.

(** [AsyncReadExt::read_exact] and [read_u16] on a stream that ends after the
    given bytes. *)
Definition read_exact (n : Z) (r : list byte) : res IoError (list byte * list byte) :=
  if len r <? n then Err UnexpectedEof
  else Ok (take (Z.to_nat n) r, drop (Z.to_nat n) r).

Definition read_u16 (r : list byte) : res IoError (Z * list byte) :=
  let? (b, r) := read_exact 2 r in Ok (from_be b, r).

Lemma read_exact_app n x r : len x = n -> read_exact n (x ++ r) = Ok (x, r).
Proof.
  intros <-. unfold read_exact. guard_false by (rewrite len_app; pose proof (len_nonneg r); lia).
  replace (Z.to_nat (len x)) with (length x) by (unfold len; lia).
  by rewrite take_app_length, drop_app_length.
Qed.

Lemma read_exact_eq x r n l : l = x ++ r -> len x = n -> read_exact n l = Ok (x, r).
Proof. intros ->. apply read_exact_app. Qed.

Lemma read_u16_app z r : in_u16 z -> read_u16 (be_bytes 2 z ++ r) = Ok (z, r).
Proof.
  intros Hz. unfold read_u16. rewrite read_exact_app by by len_simpl. cbn [res_bind].
  by rewrite from_be_bytes_small.
Qed.

Lemma read_exact_ok n r x r' : read_exact n r = Ok (x, r') -> 0 <= n -> r = x ++ r' /\ len x = n.
Proof.
  unfold read_exact. case_if; [done|]. unbool. intros [= <- <-] Hn.
  split; [by rewrite take_drop|]. unfold len in *. rewrite length_take. lia.
Qed.

Lemma read_exact_no_panic n r : read_exact n r <> Panic.
Proof. unfold read_exact. by case_if. Qed.

Lemma read_u16_ok r z r' :
  read_u16 r = Ok (z, r') -> exists b, r = b ++ r' /\ len b = 2 /\ z = from_be b /\ in_u16 z.
Proof.
  unfold read_u16. intros ([b r1] & Hb & Heq)%res_bind_ok_inv. simplify_eq.
  apply read_exact_ok in Hb as [-> Hl]; [|lia]. exists b. repeat split; try done.
  - apply from_be_range.
  - pose proof (from_be_range b) as R. rewrite Hl in R. change (256 ^ 2) with 65536 in R. lia.
Qed.

Lemma read_u16_no_panic r : read_u16 r <> Panic.
Proof. apply res_bind_no_panic; [apply read_exact_no_panic | by intros [? ?] _]. Qed.
#[export] Hint Resolve read_exact_no_panic read_u16_no_panic : rust.

(** Evaluates indexing at a literal position of an explicit list. *)
Ltac index_simpl :=
  repeat match goal with
  | |- context [@index ?E ?A ?l ?i] =>
    let n := eval vm_compute in (Z.to_nat i) in
    let r := eval simpl in (l !! n) in
    match r with Some ?x => change (@index E A l i) with (@Ok E A x); cbn [res_bind] end
  end.

(** Simplification stops at the primitives the lemmas above are about. *)
#[global] Arguments to_u8 : simpl never.
#[global] Arguments u8 : simpl never.
#[global] Arguments from_be : simpl never.
#[global] Arguments len : simpl never.
#[global] Arguments index : simpl never.
#[global] Arguments slice : simpl never.
#[global] Arguments slice_from : simpl never.
#[global] Arguments read_exact : simpl never.
#[global] Arguments read_u16 : simpl never.
