(* ===== verification/Net.v ===== *)
(** Addresses, targets and sessions: the shared vocabulary of
    [crates/xray-routing/src/lib.rs], with the address operations of the
    standard library it uses. *)
From Stdlib Require Import Strings.Byte.
From S2P Require Import Prelude.

(** [std::net::IpAddr]: an IPv4 address is its [u32], an IPv6 address its
    [u128]. *)
Inductive IpAddr :=
| V4 (ip : Z)
| V6 (ip : Z).

Inductive Network := Tcp | Udp.

Inductive TargetAddr :=
| Ip (ip : IpAddr)
| Domain (name : str).

Record Target := mkTarget {
  addr : TargetAddr;
  port : Z;
  network : Network
}.

(** [std::net::SocketAddr], less the flow label and scope of IPv6, which the code only copies. *)
Record SocketAddr := mkSocketAddr { sa_ip : IpAddr; sa_port : Z }.

Record Session := mkSession {
  inbound_tag : str;
  target : Target
}.

Inductive RoutingError := NoOutbound.

Record StaticRouter := mkStaticRouter { default_outbound : str }.

Definition pick_outbound (r : StaticRouter) (_ : Session) : res RoutingError str :=
  if bool_decide (default_outbound r = []) then Err NoOutbound
  else Ok (default_outbound r).

(** [Ipv4Addr::new], [Ipv6Addr::new]. *)
Definition ipv4 (a b c d : Z) : Z := ((a * 256 + b) * 256 + c) * 256 + d.
Definition ipv6 (s0 s1 s2 s3 s4 s5 s6 s7 : Z) : Z :=
  fold_left (fun acc s => acc * 65536 + s) [s0; s1; s2; s3; s4; s5; s6; s7] 0.

(** [Ipv4Addr::octets] and [Ipv6Addr::octets], and back. *)
Definition octets4 (ip : Z) : list byte := be_bytes 4 ip.
Definition octets6 (ip : Z) : list byte := be_bytes 16 ip.

(** [Ipv6Addr::to_ipv4_mapped]: [::ffff:a.b.c.d]. *)
Definition to_ipv4_mapped (ip : Z) : option Z :=
  if ip / 4294967296 =? 0xffff then Some (ip mod 4294967296) else None.

#[export] Instance IpAddr_eq_dec : EqDecision IpAddr.
Proof. solve_decision. Defined.
#[export] Instance SocketAddr_eq_dec : EqDecision SocketAddr.
Proof. solve_decision. Defined.
#[export] Instance Network_eq_dec : EqDecision Network.
Proof. solve_decision. Defined.
#[export] Instance TargetAddr_eq_dec : EqDecision TargetAddr.
Proof. solve_decision. Defined.
#[export] Instance Target_eq_dec : EqDecision Target.
Proof. solve_decision. Defined.

Definition canonicalize_socket_addr (a : SocketAddr) : SocketAddr :=
  match sa_ip a with
  | V4 _ => a
  | V6 ip => match to_ipv4_mapped ip with
             | Some v4 => mkSocketAddr (V4 v4) (sa_port a)
             | None => a
             end
  end.

(** What the Rust types guarantee of their values. *)
Definition wf_ip (ip : IpAddr) : Prop :=
  match ip with V4 z => in_u32 z | V6 z => in_u128 z end.

Definition wf_addr (a : TargetAddr) : Prop :=
  match a with Ip ip => wf_ip ip | Domain d => is_utf8 d = true end.

Definition wf_target (t : Target) : Prop := wf_addr (addr t) /\ in_u16 (port t).

#[export] Instance wf_ip_dec ip : Decision (wf_ip ip).
Proof. destruct ip; unfold wf_ip, in_u32, in_u128; apply _. Defined.
#[export] Instance wf_target_dec t : Decision (wf_target t).
Proof.
  destruct t as [[ip|d] p n]; unfold wf_target, wf_addr, in_u16; simpl; apply _.
Defined.

Lemma octets4_inv ip : in_u32 ip -> from_be (octets4 ip) = ip.
Proof. intros. by apply from_be_bytes_small. Qed.

Lemma octets6_inv ip : in_u128 ip -> from_be (octets6 ip) = ip.
Proof. intros. by apply from_be_bytes_small. Qed.

Lemma from_be_u32 l : length l = 4%nat -> in_u32 (from_be l).
Proof. intros H. pose proof (from_be_range l) as R. unfold len in R. by rewrite H in R. Qed.

Lemma from_be_u128 l : length l = 16%nat -> in_u128 (from_be l).
Proof. intros H. pose proof (from_be_range l) as R. unfold len in R. by rewrite H in R. Qed.

Lemma from_be_u16 l : length l = 2%nat -> in_u16 (from_be l).
Proof. intros H. pose proof (from_be_range l) as R. unfold len in R. by rewrite H in R. Qed.
