(* ===== verification/IpRangeSet.v ===== *)
(** [crates/xray-routing/src/ip_range_set.rs]: CIDR blocks, their ranges, the
    sorted merged range index and the positive/inverse matcher set. *)
From S2P Require Import Prelude Net.

Definition canonicalize_ip (address : IpAddr) : IpAddr :=
  match address with
  | V6 a => match to_ipv4_mapped a with Some m => V4 m | None => V6 a end
  | V4 _ => address
  end.

Definition family_width (address : IpAddr) : Z :=
  match address with V4 _ => 32 | V6 _ => 128 end.

Record InvalidCidrPrefix := mkInvalidCidrPrefix {
  err_address : IpAddr;
  err_prefix_len : Z;
  max_prefix : Z
}.

Record Cidr := mkCidr { cidr_network : IpAddr; prefix_len : Z }.

Definition Cidr_new (network : IpAddr) (prefix : Z) : res InvalidCidrPrefix Cidr :=
  let network := canonicalize_ip network in
  let max := family_width network in
  if max <? prefix then Err (mkInvalidCidrPrefix network prefix max)
  else Ok (mkCidr network prefix).

Definition Cidr_new_const (network : IpAddr) (prefix : Z) : res InvalidCidrPrefix Cidr :=
  match Cidr_new network prefix with Ok c => Ok c | _ => Panic end.

Definition Cidr_host (address : IpAddr) : Cidr :=
  let a := canonicalize_ip address in mkCidr a (family_width a).

(** The trait [AddressBits]; [u32] and [u128] name its two implementors. *)
Inductive u32 : Set := .
Inductive u128 : Set := .

Class AddressBits (T : Set) := { WIDTH : Z; width_pos : 0 < WIDTH }.
Arguments WIDTH T {_}.
Arguments width_pos T {_}.

#[export, refine] Instance u32_bits : AddressBits u32 := { WIDTH := 32 }.
Proof. done. Defined.
#[export, refine] Instance u128_bits : AddressBits u128 := { WIDTH := 128 }.
Proof. done. Defined.

Definition addr_max (T : Set) `{AddressBits T} : Z := 2 ^ WIDTH T - 1.

(** [MAX << (WIDTH - prefix_len)], bits shifted out are lost. *)
Definition prefix_mask (T : Set) `{AddressBits T} (prefix : Z) : Z :=
  if prefix =? 0 then 0
  else Z.land (Z.shiftl (addr_max T) (WIDTH T - prefix)) (addr_max T).

Definition saturating_successor (T : Set) `{AddressBits T} (z : Z) : Z :=
  Z.min (z + 1) (addr_max T).

Record InclusiveRange := mkRange { start : Z; end_ : Z }.

Definition from_prefix (T : Set) `{AddressBits T} (network prefix : Z) : InclusiveRange :=
  let mask := prefix_mask T prefix in
  let s := Z.land network mask in
  mkRange s (Z.lor s (Z.lxor mask (addr_max T))).

Definition range_contains (r : InclusiveRange) (a : Z) : bool :=
  (start r <=? a) && (a <=? end_ r).

Definition Cidr_contains (c : Cidr) (address : IpAddr) : bool :=
  match cidr_network c, canonicalize_ip address with
  | V4 n, V4 a => range_contains (from_prefix u32 n (prefix_len c)) a
  | V6 n, V6 a => range_contains (from_prefix u128 n (prefix_len c)) a
  | _, _ => false
  end.

(** The sort key [(range.start, range.end)]. *)
Definition range_le (r s : InclusiveRange) : Prop :=
  start r < start s \/ (start r = start s /\ end_ r <= end_ s).

#[export] Instance range_le_dec : RelDecision range_le.
Proof. intros r s. unfold range_le. apply _. Defined.

(** One iteration of the in-place loop of [merge_ranges]: [write] is the
    number of ranges kept so far at the front of the vector. *)
Definition merge_step (T : Set) `{AddressBits T} (st : list InclusiveRange * nat) (read : nat)
  : list InclusiveRange * nat :=
  let '(ranges, write) := st in
  match ranges !! read with
  | None => st
  | Some current =>
    match (if decide (write = 0%nat) then None else ranges !! (write - 1)%nat) with
    | Some prev =>
      if start current <=? saturating_successor T (end_ prev)
      then (<[(write - 1)%nat := mkRange (start prev) (Z.max (end_ prev) (end_ current))]>
              ranges, write)
      else (<[write := current]> ranges, S write)
    | None => (<[write := current]> ranges, S write)
    end
  end.

Definition merge_ranges (T : Set) `{AddressBits T} (ranges : list InclusiveRange)
  : list InclusiveRange :=
  let sorted := merge_sort range_le ranges in
  let '(out, write) :=
    fold_left (merge_step T) (seq 0 (length sorted)) (sorted, 0%nat) in
  take write out.

(** [slice::partition_point], a binary search. *)
Fixpoint partition_loop {A} (fuel : nat) (P : A -> bool) (l : list A)
  (left right : nat) : nat :=
  match fuel with
  | O => left
  | S f =>
    if (left <? right)%nat then
      let mid := (left + (right - left) / 2)%nat in
      match l !! mid with
      | Some x => if P x then partition_loop f P l (S mid) right
                  else partition_loop f P l left mid
      | None => left
      end
    else left
  end.
Definition partition_point {A} (P : A -> bool) (l : list A) : nat :=
  partition_loop (length l) P l 0 (length l).

Definition ranges_contain (ranges : list InclusiveRange) (a : Z) : bool :=
  match ranges with
  | [range] => range_contains range a
  | _ =>
    let insertion := partition_point (fun r => start r <=? a) ranges in
    match insertion with
    | O => false
    | S i => match ranges !! i with Some r => a <=? end_ r | None => false end
    end
  end.

Record IpRangeSet := mkIpRangeSet {
  ipv4_ranges : list InclusiveRange;
  ipv6_ranges : list InclusiveRange
}.

Definition rs_is_empty (s : IpRangeSet) : bool :=
  bool_decide (ipv4_ranges s = []) && bool_decide (ipv6_ranges s = []).

Definition range_count (s : IpRangeSet) : nat :=
  (length (ipv4_ranges s) + length (ipv6_ranges s))%nat.

Definition rs_lookup (s : IpRangeSet) (address : IpAddr) : option bool :=
  match canonicalize_ip address with
  | V4 a => if bool_decide (ipv4_ranges s = []) then None
            else Some (ranges_contain (ipv4_ranges s) a)
  | V6 a => if bool_decide (ipv6_ranges s = []) then None
            else Some (ranges_contain (ipv6_ranges s) a)
  end.

Definition rs_contains (s : IpRangeSet) (address : IpAddr) : bool :=
  match canonicalize_ip address with
  | V4 a => ranges_contain (ipv4_ranges s) a
  | V6 a => ranges_contain (ipv6_ranges s) a
  end.

Record IpRangeSetBuilder := mkRsBuilder {
  b_ipv4 : list InclusiveRange;
  b_ipv6 : list InclusiveRange
}.

Definition rsb_default : IpRangeSetBuilder := mkRsBuilder [] [].

Definition rsb_insert_cidr (b : IpRangeSetBuilder) (c : Cidr) : IpRangeSetBuilder :=
  match cidr_network c with
  | V4 n => mkRsBuilder (b_ipv4 b ++ [from_prefix u32 n (prefix_len c)]) (b_ipv6 b)
  | V6 n => mkRsBuilder (b_ipv4 b) (b_ipv6 b ++ [from_prefix u128 n (prefix_len c)])
  end.

Definition rsb_insert_ip (b : IpRangeSetBuilder) (address : IpAddr) : IpRangeSetBuilder :=
  rsb_insert_cidr b (Cidr_host address).

(** The table of [PRIVATE_NETWORKS] as written, each entry through
    [Cidr::new_const]. *)
Definition private_table : list (IpAddr * Z) :=
  [ (V4 (ipv4 0 0 0 0), 8); (V4 (ipv4 10 0 0 0), 8); (V4 (ipv4 100 64 0 0), 10);
    (V4 (ipv4 127 0 0 0), 8); (V4 (ipv4 169 254 0 0), 16); (V4 (ipv4 172 16 0 0), 12);
    (V4 (ipv4 192 0 0 0), 24); (V4 (ipv4 192 0 2 0), 24); (V4 (ipv4 192 88 99 0), 24);
    (V4 (ipv4 192 168 0 0), 16); (V4 (ipv4 198 18 0 0), 15);
    (V4 (ipv4 198 51 100 0), 24); (V4 (ipv4 203 0 113 0), 24);
    (V4 (ipv4 224 0 0 0), 3);
    (V6 0, 127); (V6 (ipv6 0xfc00 0 0 0 0 0 0 0), 7);
    (V6 (ipv6 0xfe80 0 0 0 0 0 0 0), 10); (V6 (ipv6 0xff00 0 0 0 0 0 0 0), 8) ].

Definition PRIVATE_NETWORKS : list Cidr :=
  omap (fun '(a, p) => match Cidr_new_const a p with Ok c => Some c | _ => None end)
    private_table.

Definition rsb_insert_private_networks (b : IpRangeSetBuilder) : IpRangeSetBuilder :=
  fold_left rsb_insert_cidr PRIVATE_NETWORKS b.

Definition rsb_build (b : IpRangeSetBuilder) : IpRangeSet :=
  mkIpRangeSet (merge_ranges u32 (b_ipv4 b)) (merge_ranges u128 (b_ipv6 b)).

Record IpMatcherSet := mkIpMatcherSet { positive : IpRangeSet; inverse : IpRangeSet }.

Definition ms_is_empty (m : IpMatcherSet) : bool :=
  rs_is_empty (positive m) && rs_is_empty (inverse m).

Definition ms_range_count (m : IpMatcherSet) : nat :=
  (range_count (positive m) + range_count (inverse m))%nat.

Definition ms_matches (m : IpMatcherSet) (address : IpAddr) : bool :=
  rs_contains (positive m) address
  || (negb (rs_is_empty (inverse m))
      && bool_decide (rs_lookup (inverse m) address = Some false)).

Record IpMatcherSetBuilder := mkMsBuilder {
  b_positive : IpRangeSetBuilder;
  b_inverse : IpRangeSetBuilder;
  b_matcher_count : nat
}.

Definition msb_default : IpMatcherSetBuilder := mkMsBuilder rsb_default rsb_default 0.

(** [self.ranges(inverted)] with the update its caller makes through it. *)
Definition msb_update (b : IpMatcherSetBuilder) (inverted : bool)
  (f : IpRangeSetBuilder -> IpRangeSetBuilder) : IpMatcherSetBuilder :=
  if inverted
  then mkMsBuilder (b_positive b) (f (b_inverse b)) (S (b_matcher_count b))
  else mkMsBuilder (f (b_positive b)) (b_inverse b) (S (b_matcher_count b)).

Definition msb_insert_cidr (b : IpMatcherSetBuilder) (c : Cidr) (inverted : bool)
  : IpMatcherSetBuilder :=
  msb_update b inverted (fun r => rsb_insert_cidr r c).

Definition msb_insert_ip (b : IpMatcherSetBuilder) (address : IpAddr) (inverted : bool)
  : IpMatcherSetBuilder :=
  msb_insert_cidr b (Cidr_host address) inverted.

Definition msb_insert_private_networks (b : IpMatcherSetBuilder) (inverted : bool)
  : IpMatcherSetBuilder :=
  msb_update b inverted rsb_insert_private_networks.

Definition msb_build (b : IpMatcherSetBuilder) : IpMatcherSet :=
  mkIpMatcherSet (rsb_build (b_positive b)) (rsb_build (b_inverse b)).

#[export] Instance InclusiveRange_eq_dec : EqDecision InclusiveRange.
Proof. solve_decision. Defined.

(** ** Prefix ranges *)

Lemma land_shifted_ones n k : 0 <= k -> Z.land (n * 2 ^ k) (Z.ones k) = 0.
Proof.
  intros Hk. rewrite <- Z.shiftl_mul_pow2 by lia. apply Z.bits_inj'. intros i Hi.
  rewrite Z.land_spec, Z.bits_0, Z.testbit_ones_nonneg by lia.
  destruct (Z.ltb_spec i k); [|by rewrite andb_false_r].
  by rewrite Z.shiftl_spec_low.
Qed.

Section Prefix.
Context (T : Set) `{AddressBits T}.

Lemma prefix_mask_eq p :
  0 <= p <= WIDTH T -> prefix_mask T p = 2 ^ WIDTH T - 2 ^ (WIDTH T - p).
Proof.
  intros Hp. pose proof (width_pos T). unfold prefix_mask, addr_max.
  case_if; unbool; [subst; rewrite Z.sub_0_r; lia|].
  rewrite Z.shiftl_mul_pow2 by lia.
  replace (2 ^ WIDTH T - 1) with (Z.ones (WIDTH T)) at 2 by (rewrite Z.ones_equiv; lia).
  rewrite Z.land_ones by lia.
  assert (2 ^ WIDTH T = 2 ^ (WIDTH T - p) * 2 ^ p) as E.
  { rewrite <- Z.pow_add_r by lia. f_equal. lia. }
  assert (0 < 2 ^ (WIDTH T - p)) by (apply Z.pow_pos_nonneg; lia).
  assert (0 < 2 ^ p) by (apply Z.pow_pos_nonneg; lia).
  symmetry. apply Z.mod_unique with (2 ^ (WIDTH T - p) - 1); [left; nia | ring].
Qed.

Lemma prefix_mask_lnot p :
  0 <= p <= WIDTH T ->
  Z.lxor (prefix_mask T p) (addr_max T) = Z.ones (WIDTH T - p).
Proof.
  intros Hp. pose proof (width_pos T).
  rewrite prefix_mask_eq by done.
  assert (2 ^ WIDTH T - 2 ^ (WIDTH T - p)
          = Z.ldiff (Z.ones (WIDTH T)) (Z.ones (WIDTH T - p))) as ->.
  { rewrite <- Z.sub_nocarry_ldiff.
    - rewrite !Z.ones_equiv. lia.
    - apply Z.bits_inj'. intros n Hn. rewrite Z.ldiff_spec, Z.bits_0.
      rewrite !Z.testbit_ones_nonneg by lia. lia. }
  unfold addr_max. replace (2 ^ WIDTH T - 1) with (Z.ones (WIDTH T))
    by (rewrite Z.ones_equiv; lia).
  apply Z.bits_inj'. intros n Hn.
  rewrite Z.lxor_spec, Z.ldiff_spec, !Z.testbit_ones_nonneg by lia.
  destruct (Z.ltb_spec n (WIDTH T)), (Z.ltb_spec n (WIDTH T - p)); done || lia.
Qed.

Lemma from_prefix_eq n p :
  0 <= p <= WIDTH T -> 0 <= n < 2 ^ WIDTH T ->
  let k := 2 ^ (WIDTH T - p) in
  from_prefix T n p = mkRange (n / k * k) (n / k * k + k - 1).
Proof.
  intros Hp Hn k. pose proof (width_pos T).
  assert (Hk : 0 < k) by (apply Z.pow_pos_nonneg; lia).
  assert (Hand : Z.land n (prefix_mask T p) = n / k * k).
  { assert (prefix_mask T p = Z.lxor (Z.ones (WIDTH T - p)) (Z.ones (WIDTH T))) as ->.
    { rewrite <- (prefix_mask_lnot p) by done. unfold addr_max.
      replace (2 ^ WIDTH T - 1) with (Z.ones (WIDTH T)) by (rewrite Z.ones_equiv; lia).
      by rewrite Z.lxor_assoc, Z.lxor_nilpotent, Z.lxor_0_r. }
    unfold k. rewrite <- Z.shiftl_mul_pow2, <- Z.shiftr_div_pow2 by lia.
    rewrite <- Z.ldiff_ones_r by lia.
    apply Z.bits_inj'. intros i Hi.
    rewrite Z.land_spec, Z.lxor_spec, Z.ldiff_spec, !Z.testbit_ones_nonneg by lia.
    destruct (Z.ltb_spec i (WIDTH T)).
    - by destruct (i <? WIDTH T - p).
    - assert (Z.testbit n i = false) as ->; [|done].
      destruct (Z.eq_dec n 0) as [->|]; [apply Z.bits_0|].
      apply Z.bits_above_log2; [lia|]. apply Z.log2_lt_pow2; [lia|].
      eapply Z.lt_le_trans; [apply Hn|]. apply Z.pow_le_mono_r; lia. }
  unfold from_prefix. rewrite Hand. f_equal.
  rewrite prefix_mask_lnot by done.
  rewrite <- Z.lxor_lor, <- Z.add_nocarry_lxor.
  - rewrite Z.ones_equiv. unfold k. lia.
  - apply land_shifted_ones; lia.
  - apply land_shifted_ones; lia.
Qed.

(** A prefix range holds the addresses that agree with the network on the
    first [p] bits. *)
Lemma from_prefix_contains n p a :
  0 <= p <= WIDTH T -> 0 <= n < 2 ^ WIDTH T ->
  range_contains (from_prefix T n p) a = true <->
  a / 2 ^ (WIDTH T - p) = n / 2 ^ (WIDTH T - p).
Proof.
  intros Hp Hn. rewrite from_prefix_eq by done. unfold range_contains. simpl.
  set (k := 2 ^ (WIDTH T - p)). assert (Hk : 0 < k) by (apply Z.pow_pos_nonneg; lia).
  rewrite andb_true_iff, !Z.leb_le. split.
  - intros. symmetry. apply Z.div_unique with (a - n / k * k); lia.
  - intros E. pose proof (Z.mod_pos_bound a k Hk). pose proof (Z.div_mod a k ltac:(lia)).
    rewrite E in *. lia.
Qed.

Definition wf_range (r : InclusiveRange) : Prop :=
  0 <= start r <= end_ r /\ end_ r <= addr_max T.

Lemma from_prefix_wf n p :
  0 <= p <= WIDTH T -> 0 <= n < 2 ^ WIDTH T -> wf_range (from_prefix T n p).
Proof.
  intros Hp Hn. rewrite from_prefix_eq by done. unfold wf_range, addr_max; simpl.
  set (k := 2 ^ (WIDTH T - p)). assert (Hk : 0 < k) by (apply Z.pow_pos_nonneg; lia).
  assert (E : 2 ^ WIDTH T = k * 2 ^ p).
  { unfold k. rewrite <- Z.pow_add_r by lia. f_equal. lia. }
  assert (0 <= n / k) by (apply Z.div_pos; lia).
  assert (n / k < 2 ^ p) by (apply Z.div_lt_upper_bound; lia). nia.
Qed.
End Prefix.

(** ** Merging *)

(** The addresses a list of ranges holds. *)
Definition covers (l : list InclusiveRange) (a : Z) : Prop :=
  exists r, In r l /\ start r <= a <= end_ r.

(** In increasing order, with a gap of at least one address between two
    neighbours. *)
Fixpoint separated (l : list InclusiveRange) : Prop :=
  match l with
  | [] => True
  | r :: l' => start r <= end_ r /\ Forall (fun s => end_ r + 1 < start s) l' /\ separated l'
  end.

Lemma covers_nil a : ~ covers [] a.
Proof. intros (r & [] & _). Qed.

Lemma covers_cons r l a : covers (r :: l) a <-> start r <= a <= end_ r \/ covers l a.
Proof. unfold covers. simpl. firstorder congruence. Qed.

Lemma covers_app l k a : covers (l ++ k) a <-> covers l a \/ covers k a.
Proof. unfold covers. setoid_rewrite in_app_iff. firstorder. Qed.

Lemma covers_perm l k a : l ≡ₚ k -> covers l a <-> covers k a.
Proof.
  intros E. unfold covers. split; intros (r & Hr & ?); exists r; split; try done.
  - by apply (Permutation_in r E).
  - by apply (Permutation_in r (Permutation_sym E)).
Qed.

Lemma separated_singleton r : start r <= end_ r -> separated [r].
Proof. simpl. auto. Qed.

Lemma separated_app l k :
  separated (l ++ k) <->
  separated l /\ separated k /\
  Forall (fun r => Forall (fun s => end_ r + 1 < start s) k) l.
Proof.
  induction l as [|r l IH]; simpl.
  - split; [by intros ?; repeat split | by intros (? & ? & ?)].
  - rewrite IH, Forall_app, Forall_cons_iff. tauto.
Qed.

#[export] Instance range_le_trans : Transitive range_le.
Proof. intros r s t. unfold range_le. lia. Qed.
#[export] Instance range_le_total : Total range_le.
Proof. intros r s. unfold range_le. lia. Qed.

Section Merge.
Context (T : Set) `{AddressBits T}.

(** One loop iteration as a function of the kept ranges, newest first. *)
Definition push (acc : list InclusiveRange) (r : InclusiveRange) : list InclusiveRange :=
  match acc with
  | p :: t =>
    if start r <=? saturating_successor T (end_ p)
    then mkRange (start p) (Z.max (end_ p) (end_ r)) :: t
    else r :: acc
  | [] => [r]
  end.

(** The in-place loop computes [push] in the front of the vector and leaves
    the unread part alone. *)
Definition loop_inv (sorted : list InclusiveRange) (read : nat)
  (st : list InclusiveRange * nat) : Prop :=
  let acc := fold_left push (take read sorted) [] in
  take (snd st) (fst st) = reverse acc /\ length acc = snd st /\
  (snd st <= read)%nat /\ drop read (fst st) = drop read sorted /\
  length (fst st) = length sorted.

Lemma merge_step_inv sorted read st :
  (read < length sorted)%nat ->
  loop_inv sorted read st -> loop_inv sorted (S read) (merge_step T st read).
Proof.
  destruct st as [v w]. unfold loop_inv. simpl. intros Hr (Ht & Hlen & Hw & Hd & Hl).
  destruct (lookup_lt_is_Some_2 sorted read Hr) as [cur Hcur].
  assert (Hv : v !! read = Some cur).
  { replace read with (read + 0)%nat by lia. rewrite <- lookup_drop, Hd, lookup_drop.
    by replace (read + 0)%nat with read by lia. }
  rewrite Hv. erewrite take_S_r by done. rewrite fold_left_app. simpl.
  set (acc := fold_left push (take read sorted) []) in *.
  assert (Hdrop : drop (S read) v = drop (S read) sorted).
  { replace (S read) with (read + 1)%nat by lia. by rewrite <- !drop_drop, Hd. }
  assert (Hpush : forall n x, (n <= read)%nat ->
            drop (S read) (<[n := x]> v) = drop (S read) sorted).
  { intros n x Hn. by rewrite drop_insert_lt by lia. }
  assert (Hnew : take (S w) (<[w := cur]> v) = reverse (cur :: acc)).
  { rewrite (take_S_r _ _ cur) by (apply list_lookup_insert_eq; lia).
    rewrite take_insert_ge by lia. by rewrite Ht, reverse_cons. }
  destruct acc as [|p t] eqn:Eacc; simpl in *.
  { subst w. simpl in *. rewrite length_insert.
    repeat split; auto with lia. }
  destruct (decide (w = 0%nat)) as [->|Hw0]; [lia|].
  assert (Hp : v !! (w - 1)%nat = Some p).
  { rewrite <- (lookup_take_lt v w) by lia. rewrite Ht, reverse_cons.
    rewrite lookup_app_r; rewrite length_reverse; [|lia].
    by replace (w - 1 - length t)%nat with 0%nat by lia. }
  rewrite Hp. case_if; simpl; rewrite length_insert; repeat split; auto with lia.
  replace w with (S (w - 1)) at 1 by lia.
  rewrite (take_S_r _ _ (mkRange (start p) (Z.max (end_ p) (end_ cur))))
    by (apply list_lookup_insert_eq; lia).
  rewrite take_insert_ge by lia. rewrite reverse_cons. f_equal.
  replace (w - 1)%nat with (Nat.min (w - 1) w) by lia.
  rewrite <- take_take, Ht, reverse_cons.
  rewrite take_app_le by (rewrite length_reverse; lia).
  apply take_ge. rewrite length_reverse. lia.
Qed.

Lemma merge_ranges_push l :
  merge_ranges T l = reverse (fold_left push (merge_sort range_le l) []).
Proof.
  unfold merge_ranges. set (sorted := merge_sort range_le l).
  assert (G : forall n, (n <= length sorted)%nat ->
    loop_inv sorted n (fold_left (merge_step T) (seq 0 n) (sorted, 0%nat))).
  { induction n as [|n IH]; intros Hn.
    - unfold loop_inv. simpl. by repeat split.
    - rewrite seq_S, fold_left_app. simpl. apply merge_step_inv; [lia|]. apply IH. lia. }
  specialize (G (length sorted) ltac:(lia)).
  destruct (fold_left _ _ _) as [out w]. destruct G as (Ht & _). simpl in Ht.
  by rewrite firstn_all in Ht.
Qed.

(** What holds of the kept ranges while sorted ranges are pushed. *)
Definition acc_ok (acc : list InclusiveRange) (bound : Z) : Prop :=
  separated (reverse acc) /\ Forall (wf_range T) acc /\
  Forall (fun r => start r <= bound) acc.

Lemma push_ok acc bound r :
  acc_ok acc bound -> wf_range T r -> bound <= start r ->
  acc_ok (push acc r) (start r) /\
  (forall a, covers (push acc r) a <-> covers acc a \/ start r <= a <= end_ r).
Proof.
  unfold acc_ok. intros (Hsep & Hwf & Hb) [Hr1 Hr2] Hle.
  destruct acc as [|p t]; simpl.
  { split; [repeat split; repeat constructor; done || lia|].
    intros a. rewrite covers_cons. pose proof (covers_nil a). tauto. }
  apply Forall_cons_iff in Hwf as [[Hp1 Hp2] Hwt]. apply Forall_cons_iff in Hb as [Hpb Htb].
  rewrite reverse_cons in Hsep. apply separated_app in Hsep as (St & [Sp _] & Spt).
  assert (Hgap : Forall (fun q => end_ q + 1 < start p) t).
  { apply Forall_reverse. eapply Forall_impl; [|exact Spt]. simpl.
    intros q Hq. by apply Forall_cons_iff in Hq as [? _]. }
  assert (Hmono : Forall (fun q => start q <= start r) t).
  { eapply Forall_impl; [|exact Htb]. simpl. lia. }
  case_if; unbool; unfold saturating_successor in *.
  - split.
    + rewrite reverse_cons. split; [|split].
      * apply separated_app. split; [done|]. split; [apply separated_singleton; simpl; lia|].
        eapply Forall_impl; [|exact Spt]. simpl. intros q Hq.
        apply Forall_cons_iff in Hq as [? _]. repeat constructor. done.
      * constructor; [unfold wf_range; simpl; lia | done].
      * constructor; [simpl; lia | done].
    + intros a. rewrite !covers_cons. simpl. split; [|lia || intuition lia].
      intros [?|?]; [|tauto]. destruct (Z.le_gt_cases a (end_ p)); [left; left; lia|].
      right. lia.
  - split.
    + rewrite !reverse_cons. split; [|split].
      * apply separated_app. split; [|split; [apply separated_singleton; lia|]].
        { apply separated_app. by repeat split. }
        apply Forall_app. split; [|repeat constructor; lia].
        apply Forall_reverse. eapply Forall_impl; [|exact Hgap]. simpl.
        intros q Hq. repeat constructor. lia.
      * constructor; [by split | constructor; [by split | done]].
      * constructor; [lia | constructor; [lia | done]].
    + intros a. rewrite !covers_cons. tauto.
Qed.

Lemma push_all_ok l acc bound :
  acc_ok acc bound -> Forall (wf_range T) l -> StronglySorted range_le l ->
  Forall (fun r => bound <= start r) l ->
  separated (reverse (fold_left push l acc)) /\
  Forall (wf_range T) (fold_left push l acc) /\
  (forall a, covers (fold_left push l acc) a <-> covers acc a \/ covers l a).
Proof.
  revert acc bound. induction l as [|r l IH]; intros acc bound Hacc Hwf Hs Hb; simpl.
  - destruct Hacc as (? & ? & _). repeat split; try done.
    + by left.
    + intros [?|?%covers_nil]; done.
  - apply Forall_cons_iff in Hwf as [Hr Hwf]. apply Forall_cons_iff in Hb as [Hbr _].
    apply StronglySorted_inv in Hs as [Hs Hall].
    destruct (push_ok acc bound r Hacc Hr Hbr) as [Hacc' Hcov].
    destruct (IH (push acc r) (start r) Hacc' Hwf Hs) as (? & ? & Hc).
    { eapply Forall_impl; [|exact Hall]. unfold range_le. simpl. lia. }
    repeat split; try done; intros; rewrite ?Hc, ?Hcov, covers_cons in *; tauto.
Qed.

(** The merged vector is in normal form and holds the same addresses. *)
Lemma merge_ranges_ok l :
  Forall (wf_range T) l ->
  separated (merge_ranges T l) /\ Forall (wf_range T) (merge_ranges T l) /\
  (forall a, covers (merge_ranges T l) a <-> covers l a).
Proof.
  intros Hwf. rewrite merge_ranges_push.
  pose proof (merge_sort_Permutation range_le l) as Hp.
  destruct (push_all_ok (merge_sort range_le l) [] 0) as (Hs & Hw & Hc).
  - by repeat constructor.
  - by rewrite Hp.
  - apply (StronglySorted_merge_sort range_le).
  - rewrite Hp. eapply Forall_impl; [|exact Hwf]. unfold wf_range. lia.
  - split; [done|]. split; [by apply Forall_reverse|]. intros a.
    rewrite (covers_perm (reverse _) _ a (reverse_Permutation _)), Hc.
    rewrite (covers_perm _ _ a Hp). pose proof (covers_nil a). tauto.
Qed.

Lemma length_push_all l acc :
  (length (fold_left push l acc) <= length acc + length l)%nat.
Proof.
  revert acc. induction l as [|r l IH]; intros acc; simpl; [lia|].
  etrans; [apply IH|]. destruct acc; simpl; [|case_if; simpl]; lia.
Qed.

Lemma length_merge_ranges l : (length (merge_ranges T l) <= length l)%nat.
Proof.
  rewrite merge_ranges_push, length_reverse. etrans; [apply length_push_all|].
  by rewrite (Permutation_length (merge_sort_Permutation range_le l)).
Qed.
End Merge.

(** Normal forms are unique: separated lists that hold the same addresses are
    equal. *)
Lemma separated_covers_lower r l a :
  separated (r :: l) -> covers l a -> end_ r + 1 < a.
Proof.
  intros (_ & Hf & _) (s & Hs & ?). apply (Forall_In _ _ s) in Hf; simpl in *; [lia | done].
Qed.

Lemma separated_unique l k :
  separated l -> separated k -> (forall a, covers l a <-> covers k a) -> l = k.
Proof.
  revert k. induction l as [|r l IH]; intros [|s k] Hl Hk E; [done| | |].
  - destruct Hk as (? & _). exfalso. apply (covers_nil (start s)), E, covers_cons. lia.
  - destruct Hl as (? & _). exfalso. apply (covers_nil (start r)), E, covers_cons. lia.
  - pose proof (separated_covers_lower r l) as Lr. pose proof (separated_covers_lower s k) as Ls.
    assert (Ce : forall a, start r <= a <= end_ r \/ covers l a <->
                           start s <= a <= end_ s \/ covers k a).
    { intros a. rewrite <- !covers_cons. apply E. }
    assert (Hr : start r <= end_ r) by apply Hl. assert (Hs : start s <= end_ s) by apply Hk.
    assert (start r = start s) as Est.
    { destruct (proj1 (Ce (start r))) as [|C]; [lia| |]; 
      destruct (proj2 (Ce (start s))) as [|C']; try lia;
      try specialize (Ls _ Hk C); try specialize (Lr _ Hl C'); lia. }
    assert (end_ r = end_ s) as Een.
    { destruct (Z.lt_trichotomy (end_ r) (end_ s)) as [C|[C|C]]; [exfalso|done|exfalso].
      - destruct (proj2 (Ce (end_ r + 1))) as [|C']; [lia|lia|]. specialize (Lr _ Hl C'). lia.
      - destruct (proj1 (Ce (end_ s + 1))) as [|C']; [lia|lia|]. specialize (Ls _ Hk C'). lia. }
    assert (r = s) as -> by (destruct r, s; simpl in *; congruence).
    f_equal. apply IH; [apply Hl | apply Hk|]. intros a. specialize (Ce a). split; intros C.
    + specialize (Lr _ Hl C). destruct (proj1 Ce) as [|]; [by right | lia | done].
    + specialize (Ls _ Hk C). destruct (proj2 Ce) as [|]; [by right | lia | done].
Qed.

(** ** Binary search *)

Section PartitionPoint.
Context {A : Type} (P : A -> bool) (l : list A).

Lemma partition_loop_spec fuel left right k :
  (left <= k <= right)%nat -> (right <= length l)%nat -> (right - left <= fuel)%nat ->
  (forall i x, l !! i = Some x -> P x = (i <? k)%nat) ->
  partition_loop fuel P l left right = k.
Proof.
  revert left right. induction fuel as [|f IH]; intros left right Hk Hr Hf Hp;
    cbn [partition_loop]; [lia|].
  destruct (Nat.ltb_spec left right); [|lia].
  pose proof (Nat.div_lt (right - left) 2 ltac:(lia) ltac:(lia)).
  set (mid := (left + (right - left) / 2)%nat) in *.
  destruct (lookup_lt_is_Some_2 l mid) as [x Hx]; [lia|].
  rewrite Hx, (Hp _ _ Hx). destruct (Nat.ltb_spec mid k); apply IH; done || lia.
Qed.

(** On a slice whose elements satisfying [P] come first, the search returns
    their number. *)
Lemma partition_point_spec k :
  (k <= length l)%nat -> (forall i x, l !! i = Some x -> P x = (i <? k)%nat) ->
  partition_point P l = k.
Proof. intros. apply partition_loop_spec; done || lia. Qed.
End PartitionPoint.

Lemma partition_point_app {A} (P : A -> bool) l1 l2 :
  Forall (fun x => P x = true) l1 -> Forall (fun x => P x = false) l2 ->
  partition_point P (l1 ++ l2) = length l1.
Proof.
  intros H1 H2. apply partition_point_spec; [rewrite length_app; lia|].
  intros i x Hx. apply lookup_app_Some in Hx as [Hx|[Hi Hx]].
  - pose proof (lookup_lt_Some _ _ _ Hx). rewrite (Forall_lookup_1 _ _ _ _ H1 Hx). symmetry. apply Nat.ltb_lt. lia.
  - rewrite (Forall_lookup_1 _ _ _ _ H2 Hx). symmetry. apply Nat.ltb_ge. lia.
Qed.

(** The number of ranges that start at or before [a]. *)
Lemma separated_split l a :
  separated l ->
  exists l1 l2, l = l1 ++ l2 /\ Forall (fun r => start r <= a) l1 /\
    Forall (fun r => a < start r) l2.
Proof.
  induction l as [|r l IH]; intros Hs; [by exists [], []|].
  destruct (Z.le_gt_cases (start r) a) as [Hr|Hr].
  - destruct IH as (l1 & l2 & -> & H1 & H2); [apply Hs|].
    exists (r :: l1), l2. repeat split; [by constructor | done].
  - exists [], (r :: l). repeat split; [done|]. constructor; [done|].
    destruct Hs as (? & Hf & _). eapply Forall_impl; [|exact Hf]. simpl. lia.
Qed.

(** The binary search finds the split. *)
Lemma partition_split l a :
  separated l ->
  exists l1 l2, l = l1 ++ l2 /\ Forall (fun r => start r <= a) l1 /\
    Forall (fun r => a < start r) l2 /\
    partition_point (fun r => start r <=? a) l = length l1.
Proof.
  intros Hs. destruct (separated_split l a Hs) as (l1 & l2 & -> & H1 & H2).
  exists l1, l2. split_and!; [done..|].
  apply partition_point_app; (eapply Forall_impl; [|eassumption]); simpl; lia.
Qed.

Lemma partition_before l a i r :
  separated l -> partition_point (fun r => start r <=? a) l = S i -> l !! i = Some r ->
  start r <= a.
Proof.
  intros Hs. destruct (partition_split l a Hs) as (l1 & l2 & -> & H1 & _ & ->).
  intros Hi Hr. rewrite lookup_app_l in Hr by lia. exact (Forall_lookup_1 _ _ _ _ H1 Hr).
Qed.

(** Binary search for the last range that starts at or before [a]. *)
Lemma partition_covers l a :
  separated l ->
  (match partition_point (fun r => start r <=? a) l with
   | O => false
   | S i => match l !! i with Some r => a <=? end_ r | None => false end
   end) = true <-> covers l a.
Proof.
  intros Hs. destruct (partition_split l a Hs) as (l1 & l2 & -> & H1 & H2 & ->).
  destruct l1 as [|r l1 _] using rev_ind; simpl.
  - split; [done|]. intros (s & Hin & ?). apply (Forall_In _ _ s H2) in Hin. simpl in Hin. lia.
  - rewrite length_app, Nat.add_1_r. rewrite <- app_assoc. simpl.
    rewrite list_lookup_middle by done. rewrite Z.leb_le.
    apply Forall_app in H1 as [_ H1]. apply Forall_inv in H1. simpl in H1.
    rewrite <- app_assoc in Hs. apply separated_app in Hs as (_ & Hr & Hb). split.
    + intros. exists r. split; [apply in_app_iff; right; by left | lia].
    + intros (s & [Hin|[<-|Hin]]%in_app_iff & ?); [|lia|].
      * apply (Forall_In _ _ s) in Hb; [|done].
        apply Forall_cons_iff in Hb as [? _]. simpl in *. destruct Hr as [? _]. lia.
      * apply (Forall_In _ _ s H2) in Hin. simpl in Hin. lia.
Qed.

Lemma ranges_contain_covers l a :
  separated l -> ranges_contain l a = true <-> covers l a.
Proof.
  intros Hs. pose proof (partition_covers l a Hs) as G.
  destruct l as [|r [|s l]]; try exact G.
  simpl. unfold range_contains. rewrite andb_true_iff, !Z.leb_le, covers_cons.
  pose proof (covers_nil a). tauto.
Qed.

(** ** Range sets *)

(** What [Cidr::new] and [Cidr::host] establish, with the bounds of the Rust
    types. *)
Definition wf_cidr (c : Cidr) : Prop :=
  wf_ip (cidr_network c) /\ canonicalize_ip (cidr_network c) = cidr_network c /\
  0 <= prefix_len c <= family_width (cidr_network c).

#[export] Instance wf_cidr_dec c : Decision (wf_cidr c).
Proof. unfold wf_cidr. apply _. Defined.

Definition same_family (c : Cidr) (a : IpAddr) : bool :=
  match cidr_network c, canonicalize_ip a with
  | V4 _, V4 _ | V6 _, V6 _ => true
  | _, _ => false
  end.

(** A builder filled with [cidrs] in order. *)
Definition insert_cidrs (cidrs : list Cidr) (b : IpRangeSetBuilder) : IpRangeSetBuilder :=
  fold_left rsb_insert_cidr cidrs b.

Definition ranges4 (cidrs : list Cidr) : list InclusiveRange :=
  omap (fun c => match cidr_network c with
                 | V4 n => Some (from_prefix u32 n (prefix_len c)) | V6 _ => None end) cidrs.
Definition ranges6 (cidrs : list Cidr) : list InclusiveRange :=
  omap (fun c => match cidr_network c with
                 | V6 n => Some (from_prefix u128 n (prefix_len c)) | V4 _ => None end) cidrs.

Lemma insert_cidrs_eq cidrs b :
  insert_cidrs cidrs b
  = mkRsBuilder (b_ipv4 b ++ ranges4 cidrs) (b_ipv6 b ++ ranges6 cidrs).
Proof.
  revert b. induction cidrs as [|c l IH]; intros [b4 b6]; simpl.
  - by rewrite !app_nil_r.
  - unfold insert_cidrs in *. rewrite IH. unfold rsb_insert_cidr.
    destruct (cidr_network c); simpl; by rewrite <- ?app_assoc.
Qed.

Lemma wf_cidr_range4 cidrs : Forall wf_cidr cidrs -> Forall (wf_range u32) (ranges4 cidrs).
Proof.
  induction 1 as [|c l (Hn & _ & Hp) _ IH]; simpl; [done|].
  destruct (cidr_network c); [|done]. constructor; [|done].
  by apply from_prefix_wf.
Qed.

Lemma wf_cidr_range6 cidrs : Forall wf_cidr cidrs -> Forall (wf_range u128) (ranges6 cidrs).
Proof.
  induction 1 as [|c l (Hn & _ & Hp) _ IH]; simpl; [done|].
  destruct (cidr_network c); [done|]. constructor; [|done].
  by apply from_prefix_wf.
Qed.

Lemma covers_ranges4 cidrs a z :
  canonicalize_ip a = V4 z ->
  covers (ranges4 cidrs) z <-> existsb (fun c => Cidr_contains c a) cidrs = true.
Proof.
  intros Ha. induction cidrs as [|c l IH]; simpl.
  - split; [by intros ?%covers_nil | done].
  - rewrite orb_true_iff, <- IH. unfold Cidr_contains. rewrite Ha.
    destruct (cidr_network c); [|naive_solver].
    rewrite covers_cons. unfold range_contains. by rewrite andb_true_iff, !Z.leb_le.
Qed.

Lemma covers_ranges6 cidrs a z :
  canonicalize_ip a = V6 z ->
  covers (ranges6 cidrs) z <-> existsb (fun c => Cidr_contains c a) cidrs = true.
Proof.
  intros Ha. induction cidrs as [|c l IH]; simpl.
  - split; [by intros ?%covers_nil | done].
  - rewrite orb_true_iff, <- IH. unfold Cidr_contains. rewrite Ha.
    destruct (cidr_network c); [naive_solver|].
    rewrite covers_cons. unfold range_contains. by rewrite andb_true_iff, !Z.leb_le.
Qed.

Lemma merge_ranges_nil (T : Set) `{AddressBits T} l :
  Forall (wf_range T) l -> merge_ranges T l = [] <-> l = [].
Proof.
  intros Hwf. destruct (merge_ranges_ok T l Hwf) as (_ & _ & Hc). split.
  - intros E. destruct l as [|r l]; [done|]. exfalso.
    apply Forall_inv in Hwf as [? _].
    apply (covers_nil (start r)). rewrite <- E, Hc, covers_cons. lia.
  - intros ->. done.
Qed.

Lemma ranges4_nil cidrs a z :
  canonicalize_ip a = V4 z ->
  ranges4 cidrs = [] <-> existsb (fun c => same_family c a) cidrs = false.
Proof.
  intros Ha. induction cidrs as [|c l IH]; simpl; [done|].
  unfold same_family at 1. rewrite Ha. by destruct (cidr_network c).
Qed.

Lemma ranges6_nil cidrs a z :
  canonicalize_ip a = V6 z ->
  ranges6 cidrs = [] <-> existsb (fun c => same_family c a) cidrs = false.
Proof.
  intros Ha. induction cidrs as [|c l IH]; simpl; [done|].
  unfold same_family at 1. rewrite Ha. by destruct (cidr_network c).
Qed.

Definition build_cidrs (cidrs : list Cidr) : IpRangeSet :=
  rsb_build (insert_cidrs cidrs rsb_default).

Lemma build_cidrs_eq cidrs :
  build_cidrs cidrs
  = mkIpRangeSet (merge_ranges u32 (ranges4 cidrs)) (merge_ranges u128 (ranges6 cidrs)).
Proof. unfold build_cidrs. by rewrite insert_cidrs_eq. Qed.

Lemma rs_contains_build_eq cidrs a :
  Forall wf_cidr cidrs ->
  rs_contains (build_cidrs cidrs) a = existsb (fun c => Cidr_contains c a) cidrs.
Proof.
  intros Hwf. rewrite build_cidrs_eq. unfold rs_contains.
  apply wf_cidr_range4 in Hwf as H4. apply wf_cidr_range6 in Hwf as H6.
  destruct (merge_ranges_ok u32 _ H4) as (S4 & _ & C4).
  destruct (merge_ranges_ok u128 _ H6) as (S6 & _ & C6).
  destruct (canonicalize_ip a) as [z|z] eqn:Ha; simpl; apply eq_bool_prop_intro;
    rewrite !Is_true_true, ranges_contain_covers by done.
  - by rewrite C4, (covers_ranges4 _ _ _ Ha).
  - by rewrite C6, (covers_ranges6 _ _ _ Ha).
Qed.

Lemma rs_lookup_build_eq cidrs a :
  Forall wf_cidr cidrs ->
  rs_lookup (build_cidrs cidrs) a
  = if existsb (fun c => same_family c a) cidrs
    then Some (existsb (fun c => Cidr_contains c a) cidrs) else None.
Proof.
  intros Hwf. pose proof (rs_contains_build_eq cidrs a Hwf) as Hc.
  rewrite build_cidrs_eq in *. unfold rs_lookup, rs_contains in *.
  apply wf_cidr_range4 in Hwf as H4. apply wf_cidr_range6 in Hwf as H6.
  destruct (canonicalize_ip a) as [z|z] eqn:Ha; simpl in *; rewrite Hc.
  - pose proof (merge_ranges_nil u32 _ H4) as N. rewrite (ranges4_nil _ _ _ Ha) in N.
    destruct (existsb (fun c => same_family c a) cidrs); case_bool_decide; naive_solver.
  - pose proof (merge_ranges_nil u128 _ H6) as N. rewrite (ranges6_nil _ _ _ Ha) in N.
    destruct (existsb (fun c => same_family c a) cidrs); case_bool_decide; naive_solver.
Qed.

Lemma same_family_contains c a : same_family c a = false -> Cidr_contains c a = false.
Proof.
  unfold same_family, Cidr_contains. by destruct (cidr_network c), (canonicalize_ip a).
Qed.

(** A matcher builder filled with [(cidr, inverted)] entries in order. *)
Definition insert_entries (entries : list (Cidr * bool)) (b : IpMatcherSetBuilder)
  : IpMatcherSetBuilder :=
  fold_left (fun b '(c, inverted) => msb_insert_cidr b c inverted) entries b.

Definition entries_of (inverted : bool) (entries : list (Cidr * bool)) : list Cidr :=
  omap (fun '(c, i) => if eqb i inverted then Some c else None) entries.

Lemma insert_entries_eq entries b :
  insert_entries entries b
  = mkMsBuilder (insert_cidrs (entries_of false entries) (b_positive b))
      (insert_cidrs (entries_of true entries) (b_inverse b))
      (b_matcher_count b + length entries).
Proof.
  revert b. induction entries as [|[c [|]] l IH]; intros [p i n]; simpl.
  - by rewrite Nat.add_0_r.
  - unfold insert_entries in *. rewrite IH. simpl. f_equal. lia.
  - unfold insert_entries in *. rewrite IH. simpl. f_equal. lia.
Qed.

Lemma entries_of_wf inverted entries :
  Forall (fun e => wf_cidr (fst e)) entries -> Forall wf_cidr (entries_of inverted entries).
Proof.
  induction 1 as [|[c i] l Hc _ IH]; simpl; [done|].
  destruct (eqb i inverted); [by constructor | done].
Qed.

Lemma rs_is_empty_lookup s a : rs_is_empty s = true -> rs_lookup s a = None.
Proof.
  unfold rs_is_empty, rs_lookup. intros ?. unbool.
  destruct (canonicalize_ip a); case_bool_decide; done.
Qed.

Lemma cidr_new_wf network prefix c :
  wf_ip network -> 0 <= prefix -> Cidr_new network prefix = Ok c -> wf_cidr c.
Proof.
  unfold Cidr_new. intros Hn Hp. case_if; [done|]. intros [= <-]. unbool.
  unfold wf_cidr; simpl. split; [|split; [|lia]].
  - destruct network as [z|z]; [done|]. simpl. unfold to_ipv4_mapped. case_if; [|done].
    simpl. unfold in_u32. apply Z.mod_pos_bound. lia.
  - destruct network as [z|z]; [done|]. simpl. destruct (to_ipv4_mapped z) eqn:E; [done|].
    simpl. by rewrite E.
Qed.

(** ** Properties *)

(** C6: the optimised index is the reference matcher. A set built by inserting
    any valid CIDR blocks in any order (sorting, merging overlapping and
    adjacent ranges in place, then answering by binary search) contains exactly
    the addresses that [Cidr::contains] accepts for one of the blocks. *)
Theorem rs_contains_build cidrs a
  (Hwf : Forall wf_cidr cidrs) :
  rs_contains (rsb_build (fold_left rsb_insert_cidr cidrs rsb_default)) a
  = existsb (fun c => Cidr_contains c a) cidrs.
Proof. by apply rs_contains_build_eq. Qed.

Lemma rs_contains_build_witness :
  rs_contains (rsb_build (fold_left rsb_insert_cidr
    [mkCidr (V4 (ipv4 192 0 2 0)) 25; mkCidr (V4 (ipv4 192 0 2 128)) 25] rsb_default))
    (V6 (ipv6 0 0 0 0 0 0xffff 0xC000 0x02FF)) = true.
Proof.
  rewrite rs_contains_build; [by vm_compute | by_decision].
Defined.

(** merging computes a normal form. Two vectors of well-formed ranges merge
    to the same vector exactly when they hold the same addresses, so the derived
    equality of two compiled families is equality of the address sets, whatever
    order, overlap or duplication the blocks were inserted with. *)
Theorem merge_ranges_canonical (T : Set) `{AddressBits T} l k
  (Hl : Forall (wf_range T) l) (Hk : Forall (wf_range T) k) :
  merge_ranges T l = merge_ranges T k <->
  (forall a, existsb (fun r => range_contains r a) l = existsb (fun r => range_contains r a) k).
Proof.
  assert (Hc : forall m a, existsb (fun r => range_contains r a) m = true <-> covers m a).
  { intros m a. rewrite existsb_exists. unfold covers, range_contains.
    by setoid_rewrite andb_true_iff; setoid_rewrite Z.leb_le. }
  destruct (merge_ranges_ok T l Hl) as (Sl & _ & Cl).
  destruct (merge_ranges_ok T k Hk) as (Sk & _ & Ck). split.
  - intros E a. apply eq_bool_prop_intro. by rewrite !Is_true_true, !Hc, <- Cl, <- Ck, E.
  - intros E. apply separated_unique; [done..|]. intros a.
    by rewrite Cl, Ck, <- !Hc, E.
Qed.

Lemma merge_ranges_canonical_witness :
  merge_ranges u32 [mkRange 5 9; mkRange 0 4] = merge_ranges u32 [mkRange 0 9].
Proof.
  apply merge_ranges_canonical.
  - repeat constructor; vm_compute; congruence.
  - repeat constructor; vm_compute; congruence.
  - intros a. simpl. unfold range_contains; simpl. lia.
Defined.

(** [IpMatcherSet::matches] over any inserted blocks is "some positive block
    contains the address, or some inverse block has the address's family and no
    inverse block contains it": a family without inverse blocks never matches
    by inversion, and an IPv4-mapped IPv6 address counts as IPv4. *)
Theorem ms_matches_build entries a
  (Hwf : Forall (fun e => wf_cidr (fst e)) entries) :
  ms_matches (msb_build (fold_left (fun b '(c, i) => msb_insert_cidr b c i) entries msb_default)) a
  = existsb (fun c => Cidr_contains c a) (entries_of false entries)
    || (existsb (fun c => same_family c a) (entries_of true entries)
        && negb (existsb (fun c => Cidr_contains c a) (entries_of true entries))).
Proof.
  change (fold_left _ entries msb_default) with (insert_entries entries msb_default).
  rewrite insert_entries_eq. unfold msb_build, ms_matches. simpl.
  fold (build_cidrs (entries_of false entries)) (build_cidrs (entries_of true entries)).
  rewrite rs_contains_build_eq by by apply entries_of_wf. f_equal.
  pose proof (rs_lookup_build_eq (entries_of true entries) a) as E.
  rewrite E by by apply entries_of_wf.
  pose proof (rs_is_empty_lookup (build_cidrs (entries_of true entries)) a) as N.
  rewrite E in N by by apply entries_of_wf.
  destruct (existsb (fun c => same_family c a) _); simpl; [|by rewrite andb_false_r].
  destruct (rs_is_empty _); simpl; [by specialize (N eq_refl)|].
  by destruct (existsb _ _).
Qed.

Lemma ms_matches_build_witness :
  ms_matches (msb_build (fold_left (fun b '(c, i) => msb_insert_cidr b c i)
    [(mkCidr (V4 (ipv4 10 0 0 0)) 8, true)] msb_default)) (V4 (ipv4 8 8 8 8)) = true.
Proof.
  rewrite ms_matches_build; [by vm_compute | by_decision].
Defined.

(** [Cidr::new] accepts exactly the prefixes that fit the canonical family,
    and an accepted block contains an address exactly when the two agree on the
    first [prefix_len] bits of the canonical address. *)
Theorem cidr_new_spec network prefix a
  (Hn : wf_ip network) (Hp : 0 <= prefix) :
  match Cidr_new network prefix with
  | Ok c => prefix <= family_width (canonicalize_ip network) /\
      (Cidr_contains c a = true <->
       match canonicalize_ip network, canonicalize_ip a with
       | V4 n, V4 z => z / 2 ^ (32 - prefix) = n / 2 ^ (32 - prefix)
       | V6 n, V6 z => z / 2 ^ (128 - prefix) = n / 2 ^ (128 - prefix)
       | _, _ => False
       end)
  | Err e => family_width (canonicalize_ip network) < prefix /\
      e = mkInvalidCidrPrefix (canonicalize_ip network) prefix
            (family_width (canonicalize_ip network))
  | Panic => False
  end.
Proof.
  destruct (Cidr_new network prefix) as [c|e|] eqn:E.
  - pose proof (cidr_new_wf _ _ _ Hn Hp E) as (Wn & _ & Wp).
    unfold Cidr_new in E. case_if_in E; [done|]. injection E as <-. unbool. simpl in *.
    split; [lia|]. unfold Cidr_contains. simpl.
    destruct (canonicalize_ip network), (canonicalize_ip a); try done.
    + by rewrite from_prefix_contains.
    + by rewrite from_prefix_contains.
  - unfold Cidr_new in E. case_if_in E; [|done]. unbool. split; [lia | congruence].
  - unfold Cidr_new in E. by case_if_in E.
Qed.

Lemma cidr_new_spec_witness :
  exists c, Cidr_new (V4 (ipv4 172 16 0 0)) 12 = Ok c /\
    Cidr_contains c (V4 (ipv4 172 31 255 255)) = true.
Proof.
  pose proof (cidr_new_spec (V4 (ipv4 172 16 0 0)) 12 (V4 (ipv4 172 31 255 255))
    ltac:(vm_compute; intuition congruence) ltac:(lia)) as S.
  destruct (Cidr_new (V4 (ipv4 172 16 0 0)) 12) as [c|e|] eqn:E; [|done..].
  exists c. split; [done|]. apply S. by vm_compute.
Defined.

(** The built-in private table: no entry is an invalid prefix (the constants
    never panic), all eighteen blocks are kept apart by merging, and the set
    built from it contains exactly the addresses of the eighteen blocks. *)
Theorem private_networks_set a :
  Forall (fun '(ip, p) => Cidr_new_const ip p <> Panic) private_table /\
  range_count (rsb_build (rsb_insert_private_networks rsb_default)) = 18%nat /\
  rs_contains (rsb_build (rsb_insert_private_networks rsb_default)) a
  = existsb (fun c => Cidr_contains c a) PRIVATE_NETWORKS.
Proof.
  split; [|split].
  - apply List.Forall_forall. intros [ip p] Hin.
    repeat destruct Hin as [[= <- <-]|Hin]; try done.
  - by vm_compute.
  - apply rs_contains_build_eq. by_decision.
Qed.
