(* ===== verification/IpFilter.v ===== *)
(** [crates/xray-routing/src/ip_filter.rs]: the [expectedIPs]/[unexpectedIPs]
    response filter. *)
From S2P Require Import Prelude Net IpRangeSet.

Record DnsIpFilter := mkDnsIpFilter {
  custom : IpMatcherSet;
  geoip : IpMatcherSet;
  soft : bool;
  matcher_count : nat
}.

Definition filter_is_empty (f : DnsIpFilter) : bool :=
  ms_is_empty (custom f) && ms_is_empty (geoip f).

Definition compiled_range_count (f : DnsIpFilter) : nat :=
  (ms_range_count (custom f) + ms_range_count (geoip f))%nat.

Definition filter_matches (f : DnsIpFilter) (a : IpAddr) : bool :=
  ms_matches (custom f) a || ms_matches (geoip f) a.

(** The result is the new [addresses] vector and the returned flag. *)
Definition retain_preferred (f : DnsIpFilter) (addresses : list IpAddr)
  (keep_matches : bool) : list IpAddr * bool :=
  if filter_is_empty f then (addresses, true)
  else
    let preferred a := eqb (filter_matches f a) keep_matches in
    if soft f && negb (existsb preferred addresses) then (addresses, true)
    else
      let kept := List.filter preferred addresses in
      (kept, negb (bool_decide (kept = []))).

Definition apply_expected (f : DnsIpFilter) (addresses : list IpAddr) :=
  retain_preferred f addresses true.

Definition apply_unexpected (f : DnsIpFilter) (addresses : list IpAddr) :=
  retain_preferred f addresses false.

Record DnsIpFilterBuilder := mkFilterBuilder {
  fb_custom : IpMatcherSetBuilder;
  fb_geoip : IpMatcherSetBuilder;
  fb_soft : bool
}.

Definition fb_default : DnsIpFilterBuilder := mkFilterBuilder msb_default msb_default false.

(** [builder.custom()] and [builder.geoip()] with the update made through the
    returned reference. *)
Definition fb_update_custom (b : DnsIpFilterBuilder)
  (f : IpMatcherSetBuilder -> IpMatcherSetBuilder) : DnsIpFilterBuilder :=
  mkFilterBuilder (f (fb_custom b)) (fb_geoip b) (fb_soft b).
Definition fb_update_geoip (b : DnsIpFilterBuilder)
  (f : IpMatcherSetBuilder -> IpMatcherSetBuilder) : DnsIpFilterBuilder :=
  mkFilterBuilder (fb_custom b) (f (fb_geoip b)) (fb_soft b).

Definition fb_set_soft (b : DnsIpFilterBuilder) (s : bool) : DnsIpFilterBuilder :=
  mkFilterBuilder (fb_custom b) (fb_geoip b) s.

Definition fb_build (b : DnsIpFilterBuilder) : DnsIpFilter :=
  mkDnsIpFilter (msb_build (fb_custom b)) (msb_build (fb_geoip b)) (fb_soft b)
    (b_matcher_count (fb_custom b) + b_matcher_count (fb_geoip b)).

Lemma filter_nil_existsb {A} (P : A -> bool) l :
  List.filter P l = [] <-> existsb P l = false.
Proof. induction l as [|x l IH]; simpl; [done|]. by destruct (P x). Qed.

(** what the filter promises its caller, on every branch. It never invents
    or reorders addresses; when it reports failure the filter is hard and
    rejected every candidate, and the vector is empty; when it reports success
    on a non-empty answer the answer stays non-empty, and it is either untouched
    (an empty filter, or a soft one with no preferred address) or consists of
    exactly the preferred addresses in their original order. *)
Theorem retain_preferred_spec f addresses keep :
  let preferred a := eqb (filter_matches f a) keep in
  let '(kept, ok) := retain_preferred f addresses keep in
  (kept = addresses \/ kept = List.filter preferred addresses) /\
  (ok = false -> filter_is_empty f = false /\ kept = [] /\
     existsb preferred addresses = false /\ (soft f = false)) /\
  (ok = true -> addresses <> [] -> kept <> []) /\
  (filter_is_empty f = false -> existsb preferred addresses = true ->
     ok = true /\ kept = List.filter preferred addresses) /\
  (filter_is_empty f = false -> soft f = false ->
     existsb preferred addresses = false -> ok = false).
Proof.
  intros preferred. unfold retain_preferred. fold preferred.
  destruct (filter_is_empty f) eqn:E; [naive_solver|].
  pose proof (filter_nil_existsb preferred addresses) as N.
  destruct (existsb preferred addresses) eqn:X; rewrite ?andb_false_r; simpl.
  - assert (List.filter preferred addresses <> []) by (rewrite N; done).
    rewrite bool_decide_eq_false_2 by done. naive_solver.
  - rewrite andb_true_r. rewrite (proj2 N eq_refl).
    destruct (soft f) eqn:S; simpl; naive_solver.
Qed.
