(* ===== verification/DomainMatcher.v ===== *)
(** [crates/xray-routing/src/domain_matcher.rs] and
    [domain_matcher_set.rs]: domain rules, the linear reference matcher and the
    compiled matcher set. The [regex] and [aho_corasick] crates are
    parameters. *)
From Stdlib Require Import Strings.Byte.
From S2P Require Import Prelude.

(** The [regex] crate: compiling a pattern, its source text, and the search. *)
Class RegexEngine := {
  Regex : Type;
  regex_new : str -> res str Regex;
  regex_as_str : Regex -> str;
  regex_is_match : Regex -> str -> bool
}.

(** The [aho_corasick] crate: building an automaton may exceed its limits. *)
Class KeywordEngine := {
  Automaton : Type;
  BuildError : Type;
  automaton_build : list str -> res BuildError Automaton;
  automaton_is_match : Automaton -> str -> bool
}.

(** [domain_bytes[b..]] for every [b] just past a ['.'], from the right, as
    [rmatch_indices('.')] visits them. *)
Fixpoint tails_after_dot (l : list byte) : list (list byte) :=
  match l with
  | [] => []
  | b :: r => if bool_decide (b = dot) then r :: tails_after_dot r else tails_after_dot r
  end.
Definition suffixes_from_right (l : list byte) : list (list byte) :=
  reverse (tails_after_dot l).

Definition contains_ignore_ascii_case (haystack needle : str) : bool :=
  if bool_decide (needle = []) then true
  else existsb (fun window => eq_ignore_ascii_case window needle)
         (windows (length needle) haystack).

Definition domain_matches_suffix (domain suffix : str) : bool :=
  if eq_ignore_ascii_case domain suffix then true
  else if (length domain <=? length suffix)%nat then false
  else
    let boundary_index := (length domain - length suffix - 1)%nat in
    bool_decide (domain !! boundary_index = Some dot)
    && eq_ignore_ascii_case (drop (S boundary_index) domain) suffix.

Inductive DomainNameMode := Routing | Dns.

Definition mode_pattern (mode : DomainNameMode) (pattern : str) : str :=
  match mode with Routing => pattern | Dns => trim_end_dots pattern end.

(** [lowercase_ascii] and the same test in [RegexMatcher::matches]: borrow when
    nothing changes. *)
Definition lowercase_ascii (value : str) : str :=
  if existsb is_ascii_uppercase value then to_ascii_lowercase value else value.

Definition LINEAR_MATCHER_LIMIT : nat := 8.

Section Matchers.
Context `{RegexEngine}.

Record DomainRegexError := mkRegexError { err_pattern : str; err_message : str }.

Record RegexMatcher := mkRegexMatcher { regex : Regex }.

Definition RegexMatcher_new (pattern : str) : res DomainRegexError RegexMatcher :=
  let? r := res_map_err (mkRegexError pattern) (regex_new pattern) in
  Ok (mkRegexMatcher r).

Definition rm_pattern (m : RegexMatcher) : str := regex_as_str (regex m).

Definition rm_is_match (m : RegexMatcher) (text : str) : bool :=
  regex_is_match (regex m) text.

Definition rm_matches (m : RegexMatcher) (domain : str) : bool :=
  regex_is_match (regex m) (lowercase_ascii domain).

(** [PartialEq for RegexMatcher] compares patterns. *)
Definition rm_eqb (a b : RegexMatcher) : bool := bool_decide (rm_pattern a = rm_pattern b).

Inductive DomainMatcher :=
| Keyword (keyword : str)
| Full (name : str)
| Suffix (suffix : str)
| RegexRule (matcher : RegexMatcher).

(** [DomainMatcher::matches], the linear reference implementation. *)
Definition dm_matches (m : DomainMatcher) (domain : str) : bool :=
  match m with
  | Keyword keyword => contains_ignore_ascii_case domain keyword
  | Full expected => eq_ignore_ascii_case domain expected
  | Suffix suffix => domain_matches_suffix domain suffix
  | RegexRule matcher => rm_matches matcher domain
  end.

(** The derived [PartialEq]. *)
Definition dm_eqb (a b : DomainMatcher) : bool :=
  match a, b with
  | Keyword x, Keyword y | Full x, Full y | Suffix x, Suffix y => bool_decide (x = y)
  | RegexRule x, RegexRule y => rm_eqb x y
  | _, _ => false
  end.

Definition normalize_linear_matcher (m : DomainMatcher) (mode : DomainNameMode)
  : DomainMatcher :=
  match m with
  | Keyword keyword => Keyword (to_ascii_lowercase keyword)
  | Full domain => Full (to_ascii_lowercase (mode_pattern mode domain))
  | Suffix suffix => Suffix (to_ascii_lowercase (mode_pattern mode suffix))
  | RegexRule matcher => RegexRule matcher
  end.

Definition matcher_pattern_bytes (m : DomainMatcher) : nat :=
  match m with
  | Keyword p | Full p | Suffix p => length p
  | RegexRule m => length (rm_pattern m)
  end.

Record DomainMatcherSetBuilder := mkDmsBuilder {
  bl_linear : option (list DomainMatcher);
  bl_full : gset str;
  bl_suffix : gset str;
  bl_keywords : list str;
  bl_regex : list Regex;
  bl_matcher_count : nat
}.

Definition dmsb_default : DomainMatcherSetBuilder := mkDmsBuilder (Some []) ∅ ∅ [] [] 0.

(** The update of [linear] at the head of [DomainMatcherSetBuilder::insert]. *)
Definition insert_linear (b : DomainMatcherSetBuilder) (m : DomainMatcher)
  (mode : DomainNameMode) : option (list DomainMatcher) :=
  match bl_linear b with
  | Some linear =>
    if (bl_matcher_count b <? LINEAR_MATCHER_LIMIT)%nat then
      let m := normalize_linear_matcher m mode in
      if existsb (fun known => dm_eqb known m) linear then Some linear
      else Some (linear ++ [m])
    else None
  | None => None
  end.

Definition dmsb_insert (b : DomainMatcherSetBuilder) (m : DomainMatcher)
  (mode : DomainNameMode) : DomainMatcherSetBuilder :=
  let linear := insert_linear b m mode in
  let count := S (bl_matcher_count b) in
  match m with
  | Keyword keyword =>
    mkDmsBuilder linear (bl_full b) (bl_suffix b)
      (bl_keywords b ++ [to_ascii_lowercase keyword]) (bl_regex b) count
  | Full domain =>
    mkDmsBuilder linear ({[to_ascii_lowercase (mode_pattern mode domain)]} ∪ bl_full b)
      (bl_suffix b) (bl_keywords b) (bl_regex b) count
  | Suffix suffix =>
    mkDmsBuilder linear (bl_full b)
      ({[to_ascii_lowercase (mode_pattern mode suffix)]} ∪ bl_suffix b)
      (bl_keywords b) (bl_regex b) count
  | RegexRule matcher =>
    mkDmsBuilder linear (bl_full b) (bl_suffix b) (bl_keywords b)
      (bl_regex b ++ [regex matcher]) count
  end.

Context `{KeywordEngine}.

Record DomainMatcherSetInner := mkDmsInner {
  in_linear : option (list DomainMatcher);
  in_full : gset str;
  in_suffix : gset str;
  in_keywords : list str;
  in_keyword_automaton : option Automaton;
  in_regex : list Regex
}.

Record DomainMatcherSet := mkDms {
  inner : option DomainMatcherSetInner;
  dms_matcher_count : nat
}.

Definition dmsb_build (b : DomainMatcherSetBuilder) : res BuildError DomainMatcherSet :=
  if (bl_matcher_count b =? 0)%nat then Ok (mkDms None 0)
  else
    let? inner :=
      match bl_linear b with
      | Some linear => Ok (mkDmsInner (Some linear) ∅ ∅ [] None [])
      | None =>
        let? keyword_automaton :=
          (if bool_decide (bl_keywords b = []) then Ok None
           else let? a := automaton_build (bl_keywords b) in Ok (Some a)) in
        Ok (mkDmsInner None (bl_full b) (bl_suffix b) (bl_keywords b)
              keyword_automaton (bl_regex b))
      end in
    Ok (mkDms (Some inner) (bl_matcher_count b)).

Definition compile (matchers : list DomainMatcher) (mode : DomainNameMode)
  : res BuildError DomainMatcherSet :=
  dmsb_build (fold_left (fun b m => dmsb_insert b m mode) matchers dmsb_default).

Definition matches_suffix (i : DomainMatcherSetInner) (domain : str) : bool :=
  negb (bool_decide (in_suffix i = ∅))
  && (bool_decide (domain ∈ in_suffix i)
      || existsb (fun tail => bool_decide (tail ∈ in_suffix i)) (suffixes_from_right domain)).

Definition matches_keyword (i : DomainMatcherSetInner) (domain : str) : bool :=
  match in_keyword_automaton i with
  | Some a => automaton_is_match a domain
  | None => false
  end.

Definition matches_regex (i : DomainMatcherSetInner) (domain : str) : bool :=
  existsb (fun r => regex_is_match r domain) (in_regex i).

Definition dms_matches (s : DomainMatcherSet) (domain : str) : bool :=
  match inner s with
  | None => false
  | Some i =>
    match in_linear i with
    | Some matchers => existsb (fun m => dm_matches m domain) matchers
    | None =>
      let domain := lowercase_ascii domain in
      bool_decide (domain ∈ in_full i) || matches_suffix i domain
      || matches_keyword i domain || matches_regex i domain
    end
  end.

Definition dms_is_empty (s : DomainMatcherSet) : bool := (dms_matcher_count s =? 0)%nat.

Definition sum_lengths {A} (f : A -> nat) (l : list A) : nat := sum_list_with f l.

Definition inner_pattern_bytes (i : DomainMatcherSetInner) : nat :=
  match in_linear i with
  | Some matchers => sum_lengths matcher_pattern_bytes matchers
  | None =>
    (sum_lengths length (elements (in_full i)) + sum_lengths length (elements (in_suffix i))
     + sum_lengths length (in_keywords i)
     + sum_lengths (fun r => length (regex_as_str r)) (in_regex i))%nat
  end.

Definition pattern_bytes (s : DomainMatcherSet) : nat :=
  match inner s with None => 0%nat | Some i => inner_pattern_bytes i end.

(** The equality of [Option<Box<[DomainMatcher]>>]. *)
Definition linear_eqb (a b : option (list DomainMatcher)) : bool :=
  match a, b with
  | None, None => true
  | Some x, Some y =>
    (length x =? length y)%nat && forallb (fun '(m, n) => dm_eqb m n) (zip x y)
  | _, _ => false
  end.

(** [PartialEq for DomainMatcherSet]. *)
Definition dms_eqb (s t : DomainMatcherSet) : bool :=
  (dms_matcher_count s =? dms_matcher_count t)%nat
  && match inner s, inner t with
     | None, None => true
     | Some a, Some b =>
       linear_eqb (in_linear a) (in_linear b)
       && bool_decide (in_full a = in_full b)
       && bool_decide (in_suffix a = in_suffix b)
       && bool_decide (in_keywords a = in_keywords b)
       && bool_decide (map regex_as_str (in_regex a) = map regex_as_str (in_regex b))
     | _, _ => false
     end.
End Matchers.

(** What the code relies on of the two crates: a compiled regex behaves as its
    pattern says, and an automaton finds a keyword exactly when one occurs. *)
Class RegexLaws `{RegexEngine} := {
  regex_new_as_str p r : regex_new p = Ok r -> regex_as_str r = p;
  regex_pattern_behaviour r s d :
    regex_as_str r = regex_as_str s -> regex_is_match r d = regex_is_match s d
}.

Class KeywordLaws `{KeywordEngine} := {
  automaton_is_match_spec kws a d :
    automaton_build kws = Ok a ->
    automaton_is_match a d = true <-> exists k p q, In k kws /\ d = p ++ k ++ q
}.

(** ** Matching by parts of the lowercased name *)

Lemma lowercase_ascii_eq s : lowercase_ascii s = to_ascii_lowercase s.
Proof. unfold lowercase_ascii. case_if; [done|]. by rewrite lower_id. Qed.

Lemma in_windows {A} n (l w : list A) :
  (0 < n)%nat -> In w (windows n l) <-> exists p q, l = p ++ w ++ q /\ length w = n.
Proof.
  intros Hn. induction l as [|x l IH].
  - simpl. split; [done|]. intros (p & q & E & Hw).
    apply (f_equal length) in E. rewrite !length_app in E. simpl in E. lia.
  - cbn [windows]. destruct (Nat.leb_spec n (length (x :: l))) as [Hl|Hl].
    + cbn [In]. rewrite IH. split.
      * intros [<-|(p & q & -> & Hw)].
        { exists [], (drop n (x :: l)). rewrite take_drop. split; [done|].
          rewrite length_take. lia. }
        { by exists (x :: p), q. }
      * intros ([|y p] & q & E & Hw).
        { left. simpl in E. rewrite E. subst n. apply take_app_length. }
        { right. simplify_eq/=. eauto. }
    + split; [done|]. intros (p & q & E & Hw).
      apply (f_equal length) in E. rewrite !length_app in E. lia.
Qed.

Lemma lower_split d p' w' q' :
  to_ascii_lowercase d = p' ++ w' ++ q' ->
  exists p w q, d = p ++ w ++ q /\ to_ascii_lowercase p = p' /\
    to_ascii_lowercase w = w' /\ to_ascii_lowercase q = q'.
Proof.
  unfold to_ascii_lowercase. intros E. apply map_eq_app in E as (p & r & -> & <- & E).
  apply map_eq_app in E as (w & q & -> & <- & <-). by exists p, w, q.
Qed.

Lemma contains_spec d k :
  contains_ignore_ascii_case d k = true <->
  exists p q, to_ascii_lowercase d = p ++ to_ascii_lowercase k ++ q.
Proof.
  unfold contains_ignore_ascii_case. case_bool_decide as Hk.
  { subst. split; [|done]. intros _. by exists [], (to_ascii_lowercase d). }
  rewrite existsb_exists. setoid_rewrite eq_ignore_ascii_case_spec.
  assert (0 < length k)%nat by (destruct k; [done | simpl; lia]). split.
  - intros (w & (p & q & -> & _)%in_windows & Hw); [|done].
    exists (to_ascii_lowercase p), (to_ascii_lowercase q). by rewrite !lower_app, Hw.
  - intros (p' & q' & E). destruct (lower_split _ _ _ _ E) as (p & w & q & -> & _ & Hw & _).
    exists w. split; [|done]. apply in_windows; [done|]. exists p, q. split; [done|].
    by rewrite <- (length_lower w), Hw, length_lower.
Qed.

Lemma suffix_spec d s :
  domain_matches_suffix d s = true <->
  to_ascii_lowercase d = to_ascii_lowercase s \/
  exists p, to_ascii_lowercase d = p ++ dot :: to_ascii_lowercase s.
Proof.
  unfold domain_matches_suffix. destruct (eq_ignore_ascii_case d s) eqn:E.
  { apply eq_ignore_ascii_case_spec in E. tauto. }
  apply bool_decide_eq_false in E.
  destruct (Nat.leb_spec (length d) (length s)) as [Hl|Hl].
  - split; [done|]. intros [?|(p & Hp)]; [done|].
    apply (f_equal length) in Hp. rewrite length_app in Hp. simpl in Hp.
    rewrite !length_lower in Hp. lia.
  - set (i := (length d - length s - 1)%nat).
    rewrite andb_true_iff, bool_decide_eq_true, eq_ignore_ascii_case_spec. split.
    + intros [Hi Hs]. right. exists (to_ascii_lowercase (take i d)).
      rewrite <- (take_drop_middle d i dot) at 1 by done.
      rewrite lower_app. f_equal. simpl. by rewrite Hs.
    + intros [?|(p & Hp)]; [done|]. change (dot :: to_ascii_lowercase s) with ([dot] ++ to_ascii_lowercase s) in Hp.
      destruct (lower_split _ _ _ _ Hp) as (p0 & w & q & Ed & Ep & Hw & Hq).
      destruct w as [|b [|]]; try done. injection Hw as Hb.
      apply (proj1 (ascii_lower_dot b)) in Hb. subst b.
      assert (i = length p0) as ->.
      { unfold i. rewrite Ed, !length_app, <- (length_lower q), Hq, length_lower. simpl. lia. }
      rewrite Ed. simpl. split; [by apply list_lookup_middle|].
      replace (S (length p0)) with (length (p0 ++ [dot])) by (rewrite length_app; simpl; lia).
      replace (p0 ++ dot :: q) with ((p0 ++ [dot]) ++ q) by by rewrite <- app_assoc.
      by rewrite drop_app_length.
Qed.

Lemma in_tails_after_dot l t :
  In t (tails_after_dot l) <-> exists p, l = p ++ dot :: t.
Proof.
  induction l as [|b l IH]; simpl.
  - split; [done|]. by intros ([|] & E).
  - assert (R : (exists p, b :: l = p ++ dot :: t) <->
                (b = dot /\ l = t) \/ exists p, l = p ++ dot :: t).
    { split.
      - intros ([|c p] & E); simplify_eq/=; eauto.
      - intros [[-> ->]|(p & ->)]; [by exists [] | by exists (b :: p)]. }
    rewrite R, <- IH. case_bool_decide; simpl; intuition congruence.
Qed.

Lemma in_suffixes_from_right l t :
  In t (suffixes_from_right l) <-> exists p, l = p ++ dot :: t.
Proof.
  unfold suffixes_from_right. rewrite <- in_tails_after_dot.
  by rewrite <- !list_elem_of_In, elem_of_reverse.
Qed.

Section Correct.
Context `{RegexLaws}.
Implicit Types m : DomainMatcher.

(** The rule a mode compiles: [full:] and [domain:] patterns normalised. *)
Definition with_mode (mode : DomainNameMode) (m : DomainMatcher) : DomainMatcher :=
  match m with
  | Full n => Full (mode_pattern mode n)
  | Suffix s => Suffix (mode_pattern mode s)
  | _ => m
  end.

(** What each kind of rule asks of the lowercased name. *)
Lemma dm_matches_spec m d :
  dm_matches m d = true <->
  match m with
  | Keyword k => exists p q, to_ascii_lowercase d = p ++ to_ascii_lowercase k ++ q
  | Full n => to_ascii_lowercase d = to_ascii_lowercase n
  | Suffix s => to_ascii_lowercase d = to_ascii_lowercase s \/
      exists p, to_ascii_lowercase d = p ++ dot :: to_ascii_lowercase s
  | RegexRule r => regex_is_match (regex r) (to_ascii_lowercase d) = true
  end.
Proof.
  destruct m; simpl.
  - apply contains_spec.
  - apply eq_ignore_ascii_case_spec.
  - apply suffix_spec.
  - unfold rm_matches. by rewrite lowercase_ascii_eq.
Qed.

Lemma normalize_linear_matches m mode d :
  dm_matches (normalize_linear_matcher m mode) d = dm_matches (with_mode mode m) d.
Proof.
  apply eq_bool_prop_intro. rewrite !Is_true_true, !dm_matches_spec.
  destruct m; simpl; by rewrite ?lower_idem.
Qed.

Lemma dm_eqb_matches m n d : dm_eqb m n = true -> dm_matches m d = dm_matches n d.
Proof.
  destruct m, n; simpl; try done; try (intros ->%bool_decide_eq_true; done).
  unfold rm_eqb, rm_matches. intros E%bool_decide_eq_true.
  by apply regex_pattern_behaviour.
Qed.

Lemma dm_eqb_refl m : dm_eqb m m = true.
Proof. destruct m; simpl; unfold rm_eqb; by apply bool_decide_eq_true. Qed.

Lemma existsb_known (l : list DomainMatcher) m d :
  existsb (fun known => dm_eqb known m) l = true ->
  dm_matches m d = true -> existsb (fun x => dm_matches x d) l = true.
Proof.
  rewrite !existsb_exists. intros (x & Hx & E) Hm.
  exists x. split; [done|]. by rewrite (dm_eqb_matches _ _ _ E).
Qed.

(** The builder holds exactly the inserted rules. *)
Record builder_ok (ms : list DomainMatcher) (mode : DomainNameMode)
  (b : DomainMatcherSetBuilder) : Prop := {
  bo_count : bl_matcher_count b = length ms;
  bo_full x : x ∈ bl_full b <->
    exists n, In (Full n) ms /\ x = to_ascii_lowercase (mode_pattern mode n);
  bo_suffix x : x ∈ bl_suffix b <->
    exists n, In (Suffix n) ms /\ x = to_ascii_lowercase (mode_pattern mode n);
  bo_keywords x : In x (bl_keywords b) <->
    exists k, In (Keyword k) ms /\ x = to_ascii_lowercase k;
  bo_regex x : In x (bl_regex b) <-> exists r, In (RegexRule r) ms /\ x = regex r;
  bo_linear :
    match bl_linear b with
    | Some l => (length ms <= LINEAR_MATCHER_LIMIT)%nat /\
        forall d, existsb (fun m => dm_matches m d) l
                  = existsb (fun m => dm_matches (with_mode mode m) d) ms
    | None => (LINEAR_MATCHER_LIMIT < length ms)%nat
    end
}.

Lemma insert_linear_ok ms mode b m :
  builder_ok ms mode b ->
  match insert_linear b m mode with
  | Some l => (length (ms ++ [m]) <= LINEAR_MATCHER_LIMIT)%nat /\
      forall d, existsb (fun m => dm_matches m d) l
                = existsb (fun m => dm_matches (with_mode mode m) d) (ms ++ [m])
  | None => (LINEAR_MATCHER_LIMIT < length (ms ++ [m]))%nat
  end.
Proof.
  intros [Hc _ _ _ _ Hl]. unfold insert_linear. rewrite length_app. simpl.
  destruct (bl_linear b) as [l|]; [|lia]. destruct Hl as [Hlen Hl]. rewrite Hc.
  destruct (Nat.ltb_spec (length ms) LINEAR_MATCHER_LIMIT); [|lia].
  set (n := normalize_linear_matcher m mode).
  destruct (existsb (fun known => dm_eqb known n) l) eqn:K; (split; [lia|]); intros d;
    rewrite !existsb_app; simpl; rewrite orb_false_r, <- normalize_linear_matches, <- Hl.
  - fold n. destruct (dm_matches n d) eqn:E; [|by rewrite orb_false_r].
    by rewrite (existsb_known _ _ _ K E).
  - by rewrite orb_false_r.
Qed.

Lemma in_snoc_exists {X Y} (f : X -> DomainMatcher) (g : X -> Y) ms m y :
  (exists n, In (f n) (ms ++ [m]) /\ y = g n) <->
  (exists n, In (f n) ms /\ y = g n) \/ (exists n, m = f n /\ y = g n).
Proof. setoid_rewrite in_app_iff. simpl. firstorder. Qed.

Lemma dmsb_insert_ok ms mode b m :
  builder_ok ms mode b -> builder_ok (ms ++ [m]) mode (dmsb_insert b m mode).
Proof.
  intros B. pose proof (insert_linear_ok ms mode b m B) as L.
  destruct B as [Hc Hf Hs Hk Hr _].
  split; try (intros x; rewrite in_snoc_exists);
    [destruct m; simpl; rewrite length_app; simpl; lia | | | | | by destruct m].
  - rewrite <- Hf. destruct m; simpl; set_solver.
  - rewrite <- Hs. destruct m; simpl; set_solver.
  - rewrite <- Hk. destruct m; simpl; rewrite ?in_app_iff; simpl; naive_solver.
  - rewrite <- Hr. destruct m; simpl; rewrite ?in_app_iff; simpl; naive_solver.
Qed.

Lemma dmsb_inserts_ok ms mode :
  builder_ok ms mode (fold_left (fun b m => dmsb_insert b m mode) ms dmsb_default).
Proof.
  induction ms as [|m ms IH] using rev_ind.
  - split; simpl; [done | set_solver | set_solver | naive_solver | naive_solver |].
    split; [lia | done].
  - rewrite fold_left_app. by apply dmsb_insert_ok.
Qed.

Context `{KeywordLaws}.

Definition inner_of (b : DomainMatcherSetBuilder) (a : option Automaton) :=
  mkDmsInner None (bl_full b) (bl_suffix b) (bl_keywords b) a (bl_regex b).

(** The automaton a successful build stores. *)
Definition automaton_ok (b : DomainMatcherSetBuilder) (a : option Automaton) : Prop :=
  match a with
  | None => bl_keywords b = []
  | Some a => automaton_build (bl_keywords b) = Ok a
  end.

Lemma matches_keyword_ok b a d :
  automaton_ok b a ->
  matches_keyword (inner_of b a) d = true <->
  exists k p q, In k (bl_keywords b) /\ d = p ++ k ++ q.
Proof.
  unfold matches_keyword. destruct a as [a|]; simpl.
  - intros Ha. by apply automaton_is_match_spec.
  - intros ->. simpl. firstorder congruence.
Qed.

Lemma matches_suffix_ok b a d :
  matches_suffix (inner_of b a) d = true <->
  exists t, t ∈ bl_suffix b /\ (d = t \/ exists p, d = p ++ dot :: t).
Proof.
  unfold matches_suffix. simpl.
  rewrite andb_true_iff, negb_true_iff, bool_decide_eq_false, orb_true_iff,
    bool_decide_eq_true, existsb_exists.
  setoid_rewrite bool_decide_eq_true. setoid_rewrite in_suffixes_from_right. split.
  - intros [_ [?|(t & ? & ?)]]; eauto.
  - intros (t & Ht & [->|?]); (split; [set_solver|]); eauto.
Qed.

(** The indexed form answers as the inserted rules do. *)
Lemma indexed_matches_ok ms mode b a n d :
  builder_ok ms mode b -> automaton_ok b a ->
  dms_matches (mkDms (Some (inner_of b a)) n) d
  = existsb (fun m => dm_matches (with_mode mode m) d) ms.
Proof.
  intros B Ha. unfold dms_matches. simpl. rewrite lowercase_ascii_eq.
  set (d' := to_ascii_lowercase d). apply eq_bool_prop_intro. rewrite !Is_true_true.
  rewrite !orb_true_iff, bool_decide_eq_true, (bo_full _ _ _ B), matches_suffix_ok,
    (matches_keyword_ok _ _ _ Ha).
  unfold matches_regex. rewrite !existsb_exists. simpl.
  setoid_rewrite (bo_suffix _ _ _ B). setoid_rewrite (bo_keywords _ _ _ B).
  setoid_rewrite (bo_regex _ _ _ B). setoid_rewrite dm_matches_spec. fold d'. split.
  - intros [[[(x & Hx & E)|(t & (x & Hx & ->) & E)]|(k & p & q & (x & Hx & ->) & E)]
           |(r & (x & Hx & ->) & E)].
    + by exists (Full x).
    + by exists (Suffix x).
    + exists (Keyword x). split; [done|]. by exists p, q.
    + by exists (RegexRule x).
  - intros ([k|x|s|r] & Hin & E); simpl in E.
    + destruct E as (p & q & E). left. right. eauto 10.
    + left. left. left. eauto.
    + left. left. right. eauto.
    + right. eauto.
Qed.

Lemma compile_matches ms mode s d :
  compile ms mode = Ok s ->
  dms_matches s d = existsb (fun m => dm_matches (with_mode mode m) d) ms.
Proof.
  unfold compile, dmsb_build. set (b := fold_left _ _ _).
  assert (B : builder_ok ms mode b) by apply dmsb_inserts_ok.
  destruct (Nat.eqb_spec (bl_matcher_count b) 0) as [Hc|Hc].
  { intros [= <-]. rewrite (bo_count _ _ _ B) in Hc. by destruct ms. }
  pose proof (bo_linear _ _ _ B) as L. destruct (bl_linear b) as [l|].
  { intros [= <-]. simpl. apply L. }
  intros (i & Hi & [= <-])%res_bind_ok_inv.
  apply res_bind_ok_inv in Hi as (a & Ha & [= <-]).
  apply (indexed_matches_ok ms mode); [done|].
  unfold automaton_ok. case_bool_decide; simplify_eq/=; [done|].
  by apply res_bind_ok_inv in Ha as (a' & Ha' & [= <-]).
Qed.

Lemma with_mode_routing m : with_mode Routing m = m.
Proof. by destruct m. Qed.
End Correct.

(** ** Equality of compiled sets *)

Section Equality.
Context `{RegexLaws} `{KeywordLaws}.

Lemma linear_eqb_matches l k d :
  linear_eqb (Some l) (Some k) = true ->
  existsb (fun m => dm_matches m d) l = existsb (fun m => dm_matches m d) k.
Proof.
  unfold linear_eqb. intros [Hl Hz]%andb_true_iff. apply Nat.eqb_eq in Hl.
  revert k Hl Hz. induction l as [|m l IH]; intros [|n k] Hl Hz; try done. simpl in *.
  apply andb_true_iff in Hz as [Hm Hz]. rewrite (dm_eqb_matches _ _ _ Hm). f_equal.
  apply IH; [lia | done].
Qed.

Lemma regexes_match_eq (l k : list Regex) d :
  map regex_as_str l = map regex_as_str k ->
  existsb (fun r => regex_is_match r d) l = existsb (fun r => regex_is_match r d) k.
Proof.
  revert k. induction l as [|r l IH]; intros [|s k] E; try done. simpl in *.
  injection E as Er El. rewrite (regex_pattern_behaviour _ _ d Er). f_equal. by apply IH.
Qed.

Lemma keywords_of_inserts ms mode b :
  bl_keywords (fold_left (fun b m => dmsb_insert b m mode) ms b)
  = bl_keywords b
    ++ omap (fun m => match m with Keyword k => Some (to_ascii_lowercase k) | _ => None end) ms.
Proof.
  revert b. induction ms as [|m ms IH]; intros b; simpl; [by rewrite app_nil_r|].
  rewrite IH. destruct m; simpl; rewrite <- ?app_assoc; done.
Qed.

(** The invariant of a set: its automaton is built from its keyword list. *)
Definition dms_ok (s : DomainMatcherSet) : Prop :=
  match inner s with
  | None => True
  | Some i => in_linear i = None ->
      exists b a, i = inner_of b a /\ automaton_ok b a
  end.

Lemma compile_ok ms mode s : compile ms mode = Ok s -> dms_ok s.
Proof.
  unfold compile, dmsb_build. set (b := fold_left _ _ _).
  destruct (bl_matcher_count b =? 0)%nat; [by intros [= <-]|].
  destruct (bl_linear b) as [l|]; [by intros [= <-]|].
  intros (i & Hi & [= <-])%res_bind_ok_inv.
  apply res_bind_ok_inv in Hi as (a & Ha & [= <-]). simpl. intros _. exists b, a.
  split; [done|]. unfold automaton_ok. case_bool_decide; simplify_eq/=; [done|].
  by apply res_bind_ok_inv in Ha as (a' & Ha' & [= <-]).
Qed.

Lemma indexed_eq b a b' a' n n' d :
  automaton_ok b a -> automaton_ok b' a' ->
  bl_full b = bl_full b' -> bl_suffix b = bl_suffix b' -> bl_keywords b = bl_keywords b' ->
  map regex_as_str (bl_regex b) = map regex_as_str (bl_regex b') ->
  dms_matches (mkDms (Some (inner_of b a)) n) d
  = dms_matches (mkDms (Some (inner_of b' a')) n') d.
Proof.
  intros Ha Ha' Ef Es Ek Er. unfold dms_matches, matches_suffix, matches_regex. simpl.
  rewrite Ef, Es, (regexes_match_eq _ _ _ Er). do 2 f_equal.
  apply eq_bool_prop_intro. rewrite !Is_true_true.
  by rewrite (matches_keyword_ok _ _ _ Ha), (matches_keyword_ok _ _ _ Ha'), Ek.
Qed.

Lemma dms_eqb_matches s t d :
  dms_ok s -> dms_ok t -> dms_eqb s t = true -> dms_matches s d = dms_matches t d.
Proof.
  unfold dms_eqb, dms_ok. destruct s as [[i|] n], t as [[j|] n']; simpl; try done;
    intros Hs Ht [_ E]%andb_true_iff; try done.
  rewrite !andb_true_iff, !bool_decide_eq_true in E. destruct E as [[[[El Ef] Es] Ek] Er].
  destruct (in_linear i) as [l|] eqn:Li, (in_linear j) as [k|] eqn:Lj; try done.
  - unfold dms_matches. simpl. rewrite Li, Lj. by apply linear_eqb_matches.
  - destruct (Hs eq_refl) as (b & a & -> & Ha). destruct (Ht eq_refl) as (b' & a' & -> & Ha').
    by apply indexed_eq.
Qed.
End Equality.

(** Concrete engines: literal whole-string regexes and an automaton that scans
    for each keyword. *)
Definition literal_regex : RegexEngine := {|
  Regex := str; regex_new p := Ok p; regex_as_str r := r;
  regex_is_match r d := bool_decide (r = d)
|}.

Definition occurs (k d : str) : bool :=
  bool_decide (k = []) || existsb (fun w => bool_decide (w = k)) (windows (length k) d).

Definition scan_automaton : KeywordEngine := {|
  Automaton := list str; BuildError := unit; automaton_build kws := Ok kws;
  automaton_is_match kws d := existsb (fun k => occurs k d) kws
|}.

Lemma occurs_spec k d : occurs k d = true <-> exists p q, d = p ++ k ++ q.
Proof.
  unfold occurs. rewrite orb_true_iff, bool_decide_eq_true, existsb_exists.
  setoid_rewrite bool_decide_eq_true. destruct (decide (k = [])) as [->|Hk].
  { split; [|by left]. intros _. by exists [], d. }
  assert (0 < length k)%nat by (destruct k; [done | simpl; lia]). split.
  - intros [?|(w & (p & q & -> & _)%in_windows & ->)]; [done| |done]. eauto.
  - intros (p & q & ->). right. exists k. split; [|done]. apply in_windows; eauto.
Qed.

Lemma literal_regex_laws : @RegexLaws literal_regex.
Proof. split; simpl; [by intros p r [= ->] | by intros r s d ->]. Qed.

Lemma scan_automaton_laws : @KeywordLaws scan_automaton.
Proof.
  split. simpl. intros kws a d [= <-]. rewrite existsb_exists.
  setoid_rewrite occurs_spec. firstorder.
Qed.

(** ** Properties *)

(** C7: the compiled matcher set agrees with the linear reference matcher.
    Whatever rules are compiled, in whichever representation the builder chose
    (deduplicated linear list up to eight rules, hash sets, automaton and
    regexes above), the set matches a name exactly when some rule matches it by
    [DomainMatcher::matches]; in DNS mode, the rule with the trailing dots of
    its [full:] or [domain:] pattern removed. *)
Theorem compile_agrees `{RegexLaws} `{KeywordLaws} ms mode s d
  (Hc : compile ms mode = Ok s) :
  dms_matches s d
  = existsb (fun m => dm_matches (match mode, m with
                                  | Dns, Full n => Full (trim_end_dots n)
                                  | Dns, Suffix n => Suffix (trim_end_dots n)
                                  | _, _ => m
                                  end) d) ms.
Proof.
  rewrite (compile_matches ms mode s d Hc). clear Hc.
  induction ms as [|m ms IH]; simpl; [done|]. rewrite IH. by destruct mode, m.
Qed.

(** Nine keywords, so that the indexed form with its automaton is used. *)
Definition witness_rules `{RegexEngine} : list DomainMatcher :=
  Suffix (str_of "Example.COM") :: replicate 8 (Keyword (str_of "zz")).

Lemma compile_agrees_witness :
  exists s, @compile literal_regex scan_automaton (@witness_rules literal_regex) Routing = Ok s /\
    dms_matches s (str_of "www.example.com") = true.
Proof.
  destruct (is_ok_exists (@compile literal_regex scan_automaton
    (@witness_rules literal_regex) Routing)) as [s Hs]; [by vm_compute|].
  exists s. split; [done|].
  rewrite (@compile_agrees literal_regex literal_regex_laws scan_automaton
             scan_automaton_laws (@witness_rules literal_regex) Routing s _ Hs).
  by vm_compute.
Defined.

(** Compilation keeps every rule and fails in one way only. It counts all
    inserted rules, never panics, and returns an error only when more than
    eight rules include a keyword and the automaton over the lowercased keywords
    cannot be built. *)
Theorem compile_errors `{RegexEngine} `{KeywordEngine} ms mode
  (Hbuild : forall kws, automaton_build kws <> Panic) :
  let keywords :=
    omap (fun m => match m with Keyword k => Some (to_ascii_lowercase k) | _ => None end) ms in
  match compile ms mode with
  | Ok s => dms_matcher_count s = length ms
  | Err e => (LINEAR_MATCHER_LIMIT < length ms)%nat /\ keywords <> [] /\
             automaton_build keywords = Err e
  | Panic => False
  end.
Proof.
  intros keywords. unfold compile, dmsb_build. set (b := fold_left _ _ _).
  assert (Hk : bl_keywords b = keywords) by exact (keywords_of_inserts ms mode dmsb_default).
  assert (Hcount : bl_matcher_count b = length ms /\
            (bl_linear b = None -> (LINEAR_MATCHER_LIMIT < length ms)%nat)).
  { unfold b. clear. induction ms as [|m ms [IH1 IH2]] using rev_ind; [done|].
    rewrite fold_left_app, length_app. set (b := fold_left _ _ _) in *. simpl.
    assert (insert_linear b m mode = None -> (LINEAR_MATCHER_LIMIT < length ms + 1)%nat).
    { unfold insert_linear. destruct (bl_linear b); [|intros _; specialize (IH2 eq_refl); lia].
      rewrite IH1. destruct (Nat.ltb_spec (length ms) LINEAR_MATCHER_LIMIT);
        [by case_if | lia]. }
    destruct m; simpl; (split; [lia | done]). }
  destruct Hcount as [Hcount Hlin].
  destruct (Nat.eqb_spec (bl_matcher_count b) 0); [simpl; lia|].
  destruct (bl_linear b) as [l|]; simpl; [done|].
  rewrite Hk. case_bool_decide as Hn; simpl; [done|].
  destruct (automaton_build keywords) as [a|e|] eqn:E; simpl; [done | auto | by apply Hbuild in E].
Qed.

Lemma compile_errors_witness :
  (forall kws, @automaton_build scan_automaton kws <> Panic) /\
  exists s, @compile literal_regex scan_automaton (@witness_rules literal_regex) Dns = Ok s /\
    dms_matcher_count s = 9%nat.
Proof.
  assert (Hb : forall kws, @automaton_build scan_automaton kws <> Panic) by done.
  split; [exact Hb|].
  destruct (is_ok_exists (@compile literal_regex scan_automaton
    (@witness_rules literal_regex) Dns)) as [s Hs]; [by vm_compute|].
  exists s. split; [done|].
  pose proof (@compile_errors literal_regex scan_automaton
                (@witness_rules literal_regex) Dns Hb) as P.
  rewrite Hs in P. exact P.
Defined.

(** Equality of compiled sets implies equal answers: two sets produced by
    [compile] that [PartialEq] calls equal match the same names, although the
    automatons are not compared. *)
Theorem dms_eq_same_matches `{RegexLaws} `{KeywordLaws} ms ns mode mode' s t d
  (Hs : compile ms mode = Ok s) (Ht : compile ns mode' = Ok t)
  (E : dms_eqb s t = true) :
  dms_matches s d = dms_matches t d.
Proof. by apply dms_eqb_matches; [eapply compile_ok.. |]. Qed.

Lemma dms_eq_same_matches_witness :
  exists s t,
    @compile literal_regex scan_automaton (@witness_rules literal_regex) Routing = Ok s /\
    @compile literal_regex scan_automaton (@witness_rules literal_regex) Dns = Ok t /\
    dms_matches s (str_of "a.example.com") = dms_matches t (str_of "a.example.com").
Proof.
  pose (s := @compile literal_regex scan_automaton (@witness_rules literal_regex) Routing).
  pose (t := @compile literal_regex scan_automaton (@witness_rules literal_regex) Dns).
  assert (E : match s, t with Ok s, Ok t => dms_eqb s t | _, _ => false end = true)
    by by vm_compute.
  destruct s as [s'| |] eqn:Es; [|done..]. destruct t as [t'| |] eqn:Et; [|done..].
  exists s', t'. split; [done|]. split; [done|].
  exact (@dms_eq_same_matches literal_regex literal_regex_laws scan_automaton
           scan_automaton_laws _ _ _ _ _ _ _ Es Et E).
Defined.
