(* ===== verification/HostIndex.v ===== *)
(** [crates/xray-routing/src/domain_host_index.rs]: the [dns.hosts] index from
    domain rules to targets. *)
From Stdlib Require Import Strings.Byte.
From S2P Require Import Prelude Net DomainMatcher.

Inductive DnsHostTarget :=
| HostIp (ip : IpAddr)
| HostIps (ips : list IpAddr)
| HostDomain (name : str)
| HostRcode (rcode : Z).

(** [trim_end_matches('.')], then [make_ascii_lowercase]. *)
Definition normalize_dns_pattern (pattern : str) : str :=
  to_ascii_lowercase (trim_end_dots pattern).

Section Index.
Context `{RegexEngine} {T : Type}.

Record DomainHostIndex := mkIndex {
  hi_full : gmap str T;
  hi_others : list (DomainMatcher * T)
}.

Definition hi_new : DomainHostIndex := mkIndex ∅ [].

Definition hi_insert (index : DomainHostIndex) (matcher : DomainMatcher) (target : T)
  : DomainHostIndex :=
  match matcher with
  | Full name =>
    let key := normalize_dns_pattern name in
    match hi_full index !! key with
    | Some _ => index
    | None => mkIndex (<[key := target]> (hi_full index)) (hi_others index)
    end
  | Suffix suffix =>
    mkIndex (hi_full index)
      (hi_others index ++ [(Suffix (normalize_dns_pattern suffix), target)])
  | Keyword _ | RegexRule _ =>
    mkIndex (hi_full index) (hi_others index ++ [(matcher, target)])
  end.

Definition hi_lookup (index : DomainHostIndex) (normalized_domain : str) : option T :=
  match hi_full index !! normalized_domain with
  | Some t => Some t
  | None =>
    match List.find (fun '(m, _) => dm_matches m normalized_domain) (hi_others index) with
    | Some (_, t) => Some t
    | None => None
    end
  end.

Definition hi_len (index : DomainHostIndex) : nat :=
  (size (hi_full index) + length (hi_others index))%nat.

Definition hi_is_empty (index : DomainHostIndex) : bool :=
  bool_decide (hi_full index = ∅) && bool_decide (hi_others index = []).

Definition hi_extend (index : DomainHostIndex) (entries : list (DomainMatcher * T))
  : DomainHostIndex :=
  fold_left (fun index '(m, t) => hi_insert index m t) entries index.

Definition hi_from_iter (entries : list (DomainMatcher * T)) : DomainHostIndex :=
  hi_extend hi_new entries.

(** ** The specification: a scan of the entries as written *)

(** The entry names exactly the queried name. *)
Definition is_full_for (q : str) (m : DomainMatcher) : bool :=
  match m with Full n => bool_decide (normalize_dns_pattern n = q) | _ => false end.

(** The entry is a broader rule that matches the query. *)
Definition is_other_for (q : str) (m : DomainMatcher) : bool :=
  match m with
  | Full _ => false
  | Suffix s => dm_matches (Suffix (normalize_dns_pattern s)) q
  | _ => dm_matches m q
  end.

Definition first_target (P : DomainMatcher -> bool) (entries : list (DomainMatcher * T))
  : option T :=
  match List.find (fun '(m, _) => P m) entries with
  | Some (_, t) => Some t
  | None => None
  end.

Lemma find_app {A} (P : A -> bool) l k :
  List.find P (l ++ k) = match List.find P l with Some x => Some x | None => List.find P k end.
Proof. induction l as [|x l IH]; simpl; [done|]. by destruct (P x). Qed.

Lemma first_target_app P l k :
  first_target P (l ++ k)
  = match first_target P l with Some t => Some t | None => first_target P k end.
Proof.
  unfold first_target. rewrite find_app. by destruct (List.find _ l) as [[]|].
Qed.

Lemma hi_extend_full entries index q :
  hi_full (hi_extend index entries) !! q
  = match hi_full index !! q with
    | Some t => Some t
    | None => first_target (is_full_for q) entries
    end.
Proof.
  revert index. induction entries as [|[m t] l IH]; intros index; simpl.
  - by destruct (hi_full index !! q).
  - unfold hi_extend in *. rewrite IH. unfold first_target. simpl.
    destruct m as [k|n|s|r]; simpl; try done.
    destruct (hi_full index !! normalize_dns_pattern n) as [u|] eqn:E.
    + case_bool_decide as Hq; [by subst; rewrite E | done].
    + simpl. rewrite lookup_insert. case_decide as Hq.
      * subst. rewrite E. by rewrite bool_decide_eq_true_2.
      * by rewrite bool_decide_eq_false_2.
Qed.

Lemma hi_extend_others entries index :
  hi_others (hi_extend index entries)
  = hi_others index
    ++ omap (fun '(m, t) => match m with
                            | Full _ => None
                            | Suffix s => Some (Suffix (normalize_dns_pattern s), t)
                            | _ => Some (m, t)
                            end) entries.
Proof.
  revert index. induction entries as [|[m t] l IH]; intros index; simpl; [by rewrite app_nil_r|].
  unfold hi_extend in *. rewrite IH. destruct m; simpl; rewrite <- ?app_assoc; try done.
  by destruct (hi_full index !! _).
Qed.

Lemma find_others q entries :
  match List.find (fun '(m, _) => dm_matches m q)
          (omap (fun '(m, t) => match m with
                                | Full _ => None
                                | Suffix s => Some (Suffix (normalize_dns_pattern s), t)
                                | _ => Some (m, t)
                                end) entries) with
  | Some (_, t) => Some t
  | None => None
  end = first_target (is_other_for q) entries.
Proof.
  induction entries as [|[m t] l IH]; [done|]. unfold first_target in *. simpl.
  destruct m as [k|n|s|r]; simpl in *; try done.
  - by destruct (contains_ignore_ascii_case q k).
  - by destruct (domain_matches_suffix q (normalize_dns_pattern s)).
  - by destruct (rm_matches r q).
Qed.

(** lookup in an index collected from any entries answers with the first
    [full:] entry for the name when there is one, wherever it stands, and
    otherwise with the first broader rule that matches, in the order the entries
    were written; later duplicates never change an answer. *)
Theorem host_index_lookup entries q :
  hi_lookup (hi_from_iter entries) q
  = match first_target (is_full_for q) entries with
    | Some t => Some t
    | None => first_target (is_other_for q) entries
    end.
Proof.
  unfold hi_lookup, hi_from_iter. rewrite hi_extend_full, hi_extend_others.
  simpl. rewrite lookup_empty, <- find_others. by destruct (first_target (is_full_for q) entries).
Qed.
End Index.
