(* ===== verification/RoutingRules.v ===== *)
(** Routing rules and their ordered evaluation:
    [crates/xray-config/src/model.rs] (rules, route contexts, port ranges) and
    [crates/xray-core-rs/src/outbound/routing.rs] (rule selection under the
    three domain strategies). The DNS resolver is an interface with its own
    state, so that the number of lookups is part of what is proved. *)
From Stdlib Require Import Strings.Byte.
From S2P Require Import Prelude Net IpRangeSet DomainMatcher.

(** What a build fixes: the operating system's name as [LOCAL_OS] computes it
    from the compilation target, and the standard library's table behind
    [char::to_lowercase]. *)
Class Platform := {
  LOCAL_OS : str;
  char_to_lowercase : Z -> list Z
}.

(** ** [RoutingPortRange] *)

Record RoutingPortRange := mkPortRange { pr_start : Z; pr_end : Z }.

Inductive PortRangeError := InvalidRoutingPortRange (start end_ : Z).

Definition RoutingPortRange_new (start end_ : Z) : res PortRangeError RoutingPortRange :=
  if end_ <? start then Err (InvalidRoutingPortRange start end_)
  else Ok (mkPortRange start end_).

Definition RoutingPortRange_single (port : Z) : RoutingPortRange := mkPortRange port port.

Definition pr_contains (r : RoutingPortRange) (port : Z) : bool :=
  (pr_start r <=? port) && (port <=? pr_end r).

(** [opt.is_none_or(f)] and [opt.is_some_and(f)]. *)
Definition is_none_or {A} (o : option A) (f : A -> bool) : bool :=
  match o with None => true | Some a => f a end.
Definition is_some_and {A} (o : option A) (f : A -> bool) : bool :=
  match o with None => false | Some a => f a end.
(** [opt.filter(|s| !s.is_empty())] *)
Definition non_empty (o : option str) : option str :=
  match o with Some [] => None | _ => o end.

(** [text.starts_with(prefix)] *)
Fixpoint starts_with (text prefix : str) : bool :=
  match prefix, text with
  | [], _ => true
  | p :: ps, t :: ts => bool_decide (p = t) && starts_with ts ps
  | _ :: _, [] => false
  end.

(** ** [go_lowercase] *)

(** [char::encode_utf8]. *)
Definition encode_utf8 (c : Z) : str :=
  if c <? 0x80 then [to_u8 c]
  else if c <? 0x800 then [to_u8 (0xC0 + c / 64); to_u8 (0x80 + c mod 64)]
  else if c <? 0x10000 then
    [to_u8 (0xE0 + c / 4096); to_u8 (0x80 + c / 64 mod 64); to_u8 (0x80 + c mod 64)]
  else
    [to_u8 (0xF0 + c / 262144); to_u8 (0x80 + c / 4096 mod 64);
     to_u8 (0x80 + c / 64 mod 64); to_u8 (0x80 + c mod 64)].

Definition is_ascii (s : str) : bool := forallb (fun b => u8 b <? 0x80) s.

Section Rules.
Context `{Platform} `{RegexEngine} `{KeywordEngine}.

Definition go_lowercase (text : str) : str :=
  if is_ascii text then
    if existsb is_ascii_uppercase text then to_ascii_lowercase text else text
  else
    flat_map (fun character =>
      let lower := char_to_lowercase character in
      let first := default character (head lower) in
      let rest := if character =? 0x130 then [] else tail lower in
      flat_map encode_utf8 (first :: rest)) (chars text).

(** ** Attributes: association lists keyed by lowercased names *)

(** [entries.iter_mut().find(..)]: replace in place, or push. *)
Fixpoint set_entry {V} (entries : list (str * V)) (name : str) (value : V)
    : list (str * V) :=
  match entries with
  | [] => [(name, value)]
  | (known, v) :: r =>
    if bool_decide (known = name) then (known, value) :: r
    else (known, v) :: set_entry r name value
  end.

Definition get_entry {V} (entries : list (str * V)) (name : str) : option V :=
  snd <$> List.find (fun e => bool_decide (fst e = name)) entries.

Record ContentAttributes := mkContentAttributes { ca_entries : list (str * str) }.

Definition ca_set (a : ContentAttributes) (name value : str) : ContentAttributes :=
  mkContentAttributes (set_entry (ca_entries a) (go_lowercase name) value).

Definition ca_get (a : ContentAttributes) (name : str) : option str :=
  get_entry (ca_entries a) name.

Definition ca_is_empty (a : ContentAttributes) : bool := bool_decide (length (ca_entries a) = 0%nat).

Record RoutingAttributes := mkRoutingAttributes { ra_patterns : list (str * RegexMatcher) }.

Definition ra_insert (a : RoutingAttributes) (name : str) (pattern : RegexMatcher)
    : RoutingAttributes :=
  mkRoutingAttributes (set_entry (ra_patterns a) (go_lowercase name) pattern).

Definition ra_is_empty (a : RoutingAttributes) : bool := bool_decide (length (ra_patterns a) = 0%nat).

Definition ra_matches (a : RoutingAttributes) (attributes : option ContentAttributes) : bool :=
  is_some_and attributes (fun attributes =>
    forallb (fun p => is_some_and (ca_get attributes (fst p)) (rm_is_match (snd p)))
      (ra_patterns a)).

(** ** The connection a rule looks at *)

Record RouteContext := mkRouteContext {
  rc_inbound_tag : option str;
  rc_source : option SocketAddr;
  rc_local : option SocketAddr;
  rc_user : option str;
  rc_protocol : option str;
  rc_attributes : option ContentAttributes
}.

Definition RouteContext_inbound (inbound_tag : option str) : RouteContext :=
  mkRouteContext inbound_tag None None None None None.

(** ** Rules *)

Record RoutingUsers := mkRoutingUsers { ru_names : list str; ru_patterns : list RegexMatcher }.

Definition ru_matches (u : RoutingUsers) (user : option str) : bool :=
  match non_empty user with
  | None => false
  | Some user =>
    existsb (fun name => bool_decide (name = user)) (ru_names u)
    || existsb (fun p => rm_is_match p user) (ru_patterns u)
  end.

Record RoutingOrigin := mkRoutingOrigin {
  source_ips : option IpMatcherSet;
  source_ports : option (list RoutingPortRange);
  local_ips : option IpMatcherSet;
  local_ports : option (list RoutingPortRange);
  users : option RoutingUsers
}.

Definition is_none {A} (o : option A) : bool := match o with None => true | _ => false end.
Definition is_some {A} (o : option A) : bool := negb (is_none o).

Definition origin_is_empty (o : RoutingOrigin) : bool :=
  is_none (source_ips o) && is_none (source_ports o) && is_none (local_ips o)
  && is_none (local_ports o) && is_none (users o).

Definition ports_contain (ranges : option (list RoutingPortRange))
    (address : option SocketAddr) : bool :=
  let port := match address with Some a => sa_port a | None => 0 end in
  is_none_or ranges (existsb (fun range => pr_contains range port)).

Definition ips_contain (matchers : option IpMatcherSet) (address : option SocketAddr) : bool :=
  is_none_or matchers (fun matchers =>
    is_some_and address (fun address => ms_matches matchers (sa_ip address))).

Definition matches_ports_and_user (o : RoutingOrigin) (route : RouteContext) : bool :=
  ports_contain (source_ports o) (rc_source route)
  && ports_contain (local_ports o) (rc_local route)
  && is_none_or (users o) (fun users => ru_matches users (rc_user route)).

Definition matches_ips (o : RoutingOrigin) (route : RouteContext) : bool :=
  ips_contain (source_ips o) (rc_source route) && ips_contain (local_ips o) (rc_local route).

Inductive RoutingRuleTarget := Outbound (tag : str) | Balancer (tag : str).

Definition rrt_tag (t : RoutingRuleTarget) : str :=
  match t with Outbound tag | Balancer tag => tag end.

Record RoutingRule := mkRoutingRule {
  inbound_tags : list str;
  networks : option (list Network);
  port_ranges : option (list RoutingPortRange);
  domain_matchers : option DomainMatcherSet;
  ip_matchers : option IpMatcherSet;
  local_os : list str;
  origin : RoutingOrigin;
  protocols : option (list str);
  attributes : option RoutingAttributes;
  rule_target : RoutingRuleTarget
}.

Definition matches_local_os_on (rule : RoutingRule) (os : str) : bool :=
  bool_decide (local_os rule = [])
  || existsb (fun candidate => eq_ignore_ascii_case candidate os) (local_os rule).

Definition matches_local_os (rule : RoutingRule) : bool := matches_local_os_on rule LOCAL_OS.

Definition matches_inbound (rule : RoutingRule) (inbound_tag : option str) : bool :=
  if bool_decide (inbound_tags rule = []) then true
  else match non_empty inbound_tag with
  | None => false
  | Some tag => existsb (fun candidate => bool_decide (candidate = tag)) (inbound_tags rule)
  end.

Definition matches_network (rule : RoutingRule) (target_network : option Network) : bool :=
  match networks rule with
  | None => true
  | Some networks =>
    is_some_and target_network (fun t => existsb (fun n => bool_decide (n = t)) networks)
  end.

Definition matches_protocol (rule : RoutingRule) (protocol : option str) : bool :=
  match protocols rule with
  | None => true
  | Some protocols =>
    is_some_and (non_empty protocol) (fun protocol => existsb (starts_with protocol) protocols)
  end.

Definition matches_attributes (rule : RoutingRule) (a : option ContentAttributes) : bool :=
  is_none_or (attributes rule) (fun patterns => ra_matches patterns a).

Definition matches_port (rule : RoutingRule) (target_port : option Z) : bool :=
  match port_ranges rule with
  | None => true
  | Some ranges =>
    is_some_and target_port (fun t => existsb (fun range => pr_contains range t) ranges)
  end.

Definition matches_domain (rule : RoutingRule) (target_domain : option str) : bool :=
  match domain_matchers rule with
  | None => true
  | Some matchers =>
    match target_domain with None => false | Some d => dms_matches matchers d end
  end.

Definition matches_ip (rule : RoutingRule) (target_ip : option IpAddr) : bool :=
  match ip_matchers rule with
  | None => true
  | Some matchers =>
    match target_ip with None => false | Some ip => ms_matches matchers ip end
  end.

Definition matches_route (rule : RoutingRule) (route : RouteContext)
    (target_domain : option str) (target_ip : option IpAddr)
    (target_network : option Network) (target_port : option Z) : bool :=
  matches_local_os rule
  && matches_inbound rule (rc_inbound_tag route)
  && matches_network rule target_network
  && matches_protocol rule (rc_protocol route)
  && matches_port rule target_port
  && matches_ports_and_user (origin rule) route
  && matches_attributes rule (rc_attributes route)
  && matches_ip rule target_ip
  && matches_ips (origin rule) route
  && matches_domain rule target_domain.

Definition matches_target (rule : RoutingRule) (inbound_tag : option str)
    (target_domain : option str) (target_ip : option IpAddr)
    (target_network : option Network) (target_port : option Z) : bool :=
  matches_route rule (RouteContext_inbound inbound_tag) target_domain target_ip
    target_network target_port.

Definition rule_matches (rule : RoutingRule) (inbound_tag : option str)
    (target_domain : option str) (target_ip : option IpAddr) : bool :=
  matches_target rule inbound_tag target_domain target_ip None None.

Definition has_condition (rule : RoutingRule) : bool :=
  negb (bool_decide (local_os rule = []))
  || negb (bool_decide (inbound_tags rule = []))
  || is_some (networks rule)
  || is_some (port_ranges rule)
  || is_some (domain_matchers rule)
  || is_some (ip_matchers rule)
  || negb (origin_is_empty (origin rule))
  || is_some (protocols rule)
  || is_some (attributes rule).

(** ** The routing policy and its evaluation *)

Inductive RoutingDomainStrategy := AsIs | IpIfNonMatch | IpOnDemand.

(** Durations are in nanoseconds. *)
Record RoutingLeastLoadCost := mkLeastLoadCost {
  tag_substring : str;
  value_millionths : Z
}.

Record RoutingLeastLoadSettings := mkLeastLoadSettings {
  expected : Z;
  max_rtt : option Z;
  tolerance_millionths : Z;
  baselines : list Z;
  costs : list RoutingLeastLoadCost
}.

Inductive RoutingBalancerStrategy :=
| Random
| RoundRobin
| LeastPing
| LeastLoad (settings : RoutingLeastLoadSettings).

Record RoutingBalancer := mkRoutingBalancer {
  balancer_tag : str;
  selectors : list str;
  strategy : RoutingBalancerStrategy;
  fallback_tag : option str
}.

Record RoutingConfig := mkRoutingConfig {
  rules : list RoutingRule;
  balancers : list RoutingBalancer;
  domain_strategy : RoutingDomainStrategy
}.

Definition target_domain (t : Target) : option str :=
  match addr t with Domain d => Some d | Ip _ => None end.

Definition target_ip (t : Target) : option IpAddr :=
  match addr t with Ip ip => Some ip | Domain _ => None end.

Definition target_network (t : Target) : Network :=
  match network t with Tcp => Tcp | Udp => Udp end.

Definition MAX_IP_ON_DEMAND_ADDRESSES : nat := 256.

Inductive RoutingDnsError := RoutingDnsAddressLimitExceeded (limit : nat).

Definition select_routed_target (routing : RoutingConfig) (route : RouteContext)
    (target_domain : option str) (target_ip : option IpAddr)
    (target_network : option Network) (target_port : option Z) : option RoutingRuleTarget :=
  rule_target <$> List.find (fun rule =>
    matches_route rule route target_domain target_ip target_network target_port)
    (rules routing).

Definition select_routed_target_with_resolved_ips (routing : RoutingConfig)
    (route : RouteContext) (target_domain : option str) (target_addrs : list SocketAddr)
    (target_network : option Network) (target_port : option Z) : option RoutingRuleTarget :=
  rule_target <$> List.find (fun rule =>
    existsb (fun target_addr =>
      matches_route rule route target_domain (Some (sa_ip target_addr))
        target_network target_port) target_addrs)
    (rules routing).

(** The conditions [select_on_demand] checks before the destination IP. *)
Definition admits (route : RouteContext) (t : Target) (rule : RoutingRule) : bool :=
  negb (negb (matches_local_os rule)
    || negb (matches_inbound rule (rc_inbound_tag route))
    || negb (matches_network rule (Some (target_network t)))
    || negb (matches_protocol rule (rc_protocol route))
    || negb (matches_port rule (Some (port t)))
    || negb (matches_ports_and_user (origin rule) route)
    || negb (matches_attributes rule (rc_attributes route))).

(** The end of the loop body: [matches_ips] and [matches_domain]. *)
Definition settles (route : RouteContext) (domain : str) (rule : RoutingRule) : bool :=
  matches_ips (origin rule) route && matches_domain rule (Some domain).

End Rules.

(** [DnsResolver::resolve_all], threading the resolver's own state; an error is
    [None], as both callers drop its value. *)
Class DnsResolver := {
  Resolver : Type;
  resolve_all : Resolver -> str -> Z -> option (list SocketAddr) * Resolver
}.

Section Selection.
Context `{Platform} `{RegexEngine} `{KeywordEngine} `{DnsResolver}.

(** The loop of [select_on_demand]; [resolution] is [None] before the lookup,
    [Some None] after a failed one. *)
Fixpoint on_demand_loop (rs : list RoutingRule) (route : RouteContext) (domain : str)
    (t : Target) (resolution : option (option (list SocketAddr))) (d : Resolver)
    : res RoutingDnsError (option RoutingRuleTarget) * Resolver :=
  match rs with
  | [] => (Ok None, d)
  | rule :: rest =>
    if negb (admits route t rule) then on_demand_loop rest route domain t resolution d
    else if is_some (ip_matchers rule) then
      let '(outcome, d') :=
        match resolution with
        | Some resolved => (Ok resolved, d)
        | None =>
          let '(resolved, d') := resolve_all d domain (port t) in
          if is_some_and resolved (fun l => (MAX_IP_ON_DEMAND_ADDRESSES <? length l)%nat)
          then (Err (RoutingDnsAddressLimitExceeded MAX_IP_ON_DEMAND_ADDRESSES), d')
          else (Ok resolved, d')
        end in
      match outcome with
      | Err e => (Err e, d')
      | Panic => (Panic, d')
      | Ok resolved =>
        if negb (is_some_and resolved (existsb (fun a => matches_ip rule (Some (sa_ip a)))))
        then on_demand_loop rest route domain t (Some resolved) d'
        else if settles route domain rule then (Ok (Some (rule_target rule)), d')
        else on_demand_loop rest route domain t (Some resolved) d'
      end
    else if settles route domain rule then (Ok (Some (rule_target rule)), d)
    else on_demand_loop rest route domain t resolution d
  end.

Definition select_on_demand (routing : RoutingConfig) (route : RouteContext) (domain : str)
    (t : Target) (d : Resolver) : res RoutingDnsError (option RoutingRuleTarget) * Resolver :=
  on_demand_loop (rules routing) route domain t None d.

Definition select_routed_target_with_resolver (routing : RoutingConfig)
    (route : RouteContext) (t : Target) (d : Resolver)
    : res RoutingDnsError (option RoutingRuleTarget) * Resolver :=
  match domain_strategy routing, target_domain t with
  | IpOnDemand, Some domain => select_on_demand routing route domain t d
  | s, domain =>
    match select_routed_target routing route domain (target_ip t)
            (Some (target_network t)) (Some (port t)) with
    | Some selected => (Ok (Some selected), d)
    | None =>
      match s, domain with
      | IpIfNonMatch, Some domain =>
        let '(resolved, d') := resolve_all d domain (port t) in
        match resolved with
        | Some addrs =>
          (Ok (select_routed_target_with_resolved_ips routing route (Some domain) addrs
                 (Some (target_network t)) (Some (port t))), d')
        | None => (Ok None, d')
        end
      | _, _ => (Ok None, d)
      end
    end
  end.

(** ** Reference semantics *)

(** The rule matches the target as written, or at one of the addresses its
    name resolved to. *)
Definition matches_some_address (route : RouteContext) (t : Target)
    (addrs : list SocketAddr) (rule : RoutingRule) : bool :=
  existsb (fun ip => matches_route rule route (target_domain t) ip
                       (Some (target_network t)) (Some (port t)))
    (target_ip t :: map (fun a => Some (sa_ip a)) addrs).

(** The rule cannot be decided without the addresses of the target's name. *)
Definition asks_dns (route : RouteContext) (t : Target) (rule : RoutingRule) : bool :=
  admits route t rule && is_some (ip_matchers rule).

(** What on-demand evaluation should do: no lookup when a rule that needs none
    decides first, otherwise one lookup, whose answers every rule sees. *)
Definition on_demand_reference (routing : RoutingConfig) (route : RouteContext)
    (domain : str) (t : Target) (d : Resolver)
    : res RoutingDnsError (option RoutingRuleTarget) * Resolver :=
  match List.find (fun rule => asks_dns route t rule || matches_some_address route t [] rule)
          (rules routing) with
  | None => (Ok None, d)
  | Some rule =>
    if asks_dns route t rule then
      let '(resolved, d') := resolve_all d domain (port t) in
      if is_some_and resolved (fun l => (MAX_IP_ON_DEMAND_ADDRESSES <? length l)%nat)
      then (Err (RoutingDnsAddressLimitExceeded MAX_IP_ON_DEMAND_ADDRESSES), d')
      else (Ok (rule_target <$>
              List.find (matches_some_address route t (default [] resolved)) (rules routing)), d')
    else (Ok (Some (rule_target rule)), d)
  end.

Lemma matches_route_split rule route t ip :
  matches_route rule route (target_domain t) ip (Some (target_network t)) (Some (port t))
  = admits route t rule && matches_ip rule ip
    && (matches_ips (origin rule) route && matches_domain rule (target_domain t)).
Proof.
  unfold matches_route, admits. rewrite !negb_orb, !negb_involutive.
  by rewrite !andb_assoc.
Qed.

Lemma existsb_andb {A} (P : A -> bool) b c l :
  existsb (fun x => b && P x && c) l = b && existsb P l && c.
Proof.
  induction l as [|x l IH]; simpl; [by rewrite andb_false_r|].
  rewrite IH. by destruct b, c, (P x), (existsb P l).
Qed.

Lemma existsb_ext_eq {A} (P Q : A -> bool) l :
  (forall x, P x = Q x) -> existsb P l = existsb Q l.
Proof. intros E. induction l as [|x l IH]; simpl; [done|]. by rewrite E, IH. Qed.

Lemma existsb_map_eq {A B} (f : A -> B) P l : existsb P (map f l) = existsb (fun x => P (f x)) l.
Proof. induction l as [|x l IH]; simpl; congruence. Qed.

(** For a target named by a domain the reference splits as the loop does. *)
Lemma matches_some_address_split route t domain addrs rule :
  addr t = Domain domain ->
  matches_some_address route t addrs rule
  = admits route t rule
    && (if is_some (ip_matchers rule)
        then existsb (fun a => matches_ip rule (Some (sa_ip a))) addrs else true)
    && settles route domain rule.
Proof.
  intros Ht. unfold matches_some_address, settles.
  assert (target_ip t = None) as -> by (unfold target_ip; by rewrite Ht).
  replace (Some domain) with (target_domain t) by (unfold target_domain; by rewrite Ht).
  rewrite (existsb_ext_eq _ _ _ (matches_route_split rule route t)).
  rewrite existsb_andb. simpl. rewrite existsb_map_eq.
  unfold matches_ip at 1, is_some. destruct (ip_matchers rule) eqn:E; simpl; [done|].
  done.
Qed.

(** Once the lookup is done the loop is a plain first match. *)
Lemma on_demand_loop_resolved rs route domain t resolved d :
  addr t = Domain domain ->
  on_demand_loop rs route domain t (Some resolved) d
  = (Ok (rule_target <$>
       List.find (matches_some_address route t (default [] resolved)) rs), d).
Proof.
  intros Ht. induction rs as [|rule rs IH]; [done|].
  cbn [on_demand_loop List.find]. rewrite !(matches_some_address_split _ _ domain) by done.
  destruct (admits route t rule); simpl; [|done].
  destruct (is_some (ip_matchers rule)); simpl.
  - destruct resolved as [l|]; simpl; [|done].
    destruct (existsb _ l); simpl; [|done]. by case_if.
  - by case_if.
Qed.

Lemma on_demand_reference_skip bs st rs rule route domain t d :
  (forall addrs, matches_some_address route t addrs rule = false) ->
  asks_dns route t rule = false ->
  on_demand_reference (mkRoutingConfig (rule :: rs) bs st) route domain t d
  = on_demand_reference (mkRoutingConfig rs bs st) route domain t d.
Proof.
  intros Hm Ha. unfold on_demand_reference. simpl. rewrite Ha, Hm. simpl.
  destruct (List.find _ rs); [|done]. case_if; [|done].
  destruct (resolve_all d domain (port t)). by rewrite Hm.
Qed.

Lemma on_demand_loop_spec bs st route domain t d rs :
  addr t = Domain domain ->
  on_demand_loop rs route domain t None d
  = on_demand_reference (mkRoutingConfig rs bs st) route domain t d.
Proof.
  intros Ht. induction rs as [|rule rs IH]; [done|]. cbn [on_demand_loop].
  pose proof (fun addrs => matches_some_address_split route t domain addrs rule Ht) as M.
  destruct (admits route t rule) eqn:Ea; cbn [negb];
    [|rewrite on_demand_reference_skip; [done | done | by unfold asks_dns; rewrite Ea]].
  destruct (is_some (ip_matchers rule)) eqn:Ei.
  - unfold on_demand_reference. simpl. unfold asks_dns. rewrite Ea, Ei. simpl.
    rewrite Ea, Ei. simpl.
    destruct (resolve_all d domain (port t)) as [resolved d'].
    destruct (is_some_and resolved _) eqn:El; [done|].
    rewrite M, (on_demand_loop_resolved _ _ domain) by done.
    destruct resolved as [l|]; simpl; [|done].
    destruct (existsb _ l); simpl; [|done]. by case_if.
  - destruct (settles route domain rule) eqn:Es.
    + unfold on_demand_reference, asks_dns. simpl. rewrite M, Ea, Ei. simpl.
      by rewrite Ea, Ei.
    + rewrite on_demand_reference_skip; [done | done | unfold asks_dns; by rewrite Ei, andb_false_r].
Qed.

Lemma find_ext_in {A} (P Q : A -> bool) l :
  (forall x, In x l -> P x = Q x) -> List.find P l = List.find Q l.
Proof.
  induction l as [|x l IH]; simpl; intros E; [done|].
  rewrite E by auto. case_if; [done|]. apply IH. auto.
Qed.

(** A lookup that decided nothing earlier leaves the same first match. *)
Lemma find_asks_none route t rs :
  List.find (fun rule => asks_dns route t rule || matches_some_address route t [] rule) rs = None ->
  List.find (matches_some_address route t []) rs = None.
Proof.
  induction rs as [|rule rs IH]; simpl; [done|].
  destruct (asks_dns route t rule); simpl; [done|]. case_if; [done | exact IH].
Qed.

Lemma find_asks_some route t rs rule :
  List.find (fun rule => asks_dns route t rule || matches_some_address route t [] rule) rs
    = Some rule ->
  asks_dns route t rule = false ->
  List.find (matches_some_address route t []) rs = Some rule.
Proof.
  induction rs as [|r rs IH]; simpl; [done|].
  destruct (asks_dns route t r) eqn:Ea; simpl; [intros [= ->]; congruence|].
  destruct (matches_some_address route t [] r); [done | exact IH].
Qed.

Lemma select_routed_target_reference routing route t :
  select_routed_target routing route (target_domain t) (target_ip t)
    (Some (target_network t)) (Some (port t))
  = rule_target <$> List.find (matches_some_address route t []) (rules routing).
Proof.
  unfold select_routed_target. f_equal. apply find_ext_in. intros rule _.
  unfold matches_some_address. simpl. by rewrite orb_false_r.
Qed.

Lemma resolved_ips_reference routing route t addrs domain :
  target_domain t = Some domain ->
  List.find (matches_some_address route t []) (rules routing) = None ->
  select_routed_target_with_resolved_ips routing route (Some domain) addrs
    (Some (target_network t)) (Some (port t))
  = rule_target <$> List.find (matches_some_address route t addrs) (rules routing).
Proof.
  intros Ht Hn. unfold select_routed_target_with_resolved_ips. f_equal.
  apply find_ext_in. intros rule Hin.
  pose proof (List.find_none _ _ Hn rule Hin) as Hf.
  unfold matches_some_address in *. simpl in *. rewrite orb_false_r in Hf.
  by rewrite Hf, Ht, existsb_map_eq.
Qed.

(** Whether routing has to know the addresses of the target's name: never as it is, else when no rule
    matches without them, and on demand when the first rule that could decide asks for them. *)
Definition needs_addresses (routing : RoutingConfig) (route : RouteContext) (t : Target) : bool :=
  match domain_strategy routing with
  | AsIs => false
  | IpIfNonMatch => negb (existsb (matches_some_address route t []) (rules routing))
  | IpOnDemand =>
    match List.find (fun rule => asks_dns route t rule || matches_some_address route t [] rule) (rules routing) with
    | Some rule => asks_dns route t rule
    | None => false
    end
  end.

(** What routing should give: one lookup when and only when the addresses are needed, a limit on its
    answers on demand, and the first rule that matches the target as written or at an address. *)
Definition routing_reference (routing : RoutingConfig) (route : RouteContext) (t : Target) (d : Resolver)
    : res RoutingDnsError (option RoutingRuleTarget) * Resolver :=
  let first addrs := Ok (rule_target <$> List.find (matches_some_address route t addrs) (rules routing)) in
  match target_domain t with
  | Some domain =>
    if needs_addresses routing route t then
      let '(resolved, d') := resolve_all d domain (port t) in
      if match domain_strategy routing with IpOnDemand => true | _ => false end
         && is_some_and resolved (fun l => (MAX_IP_ON_DEMAND_ADDRESSES <? length l)%nat)
      then (Err (RoutingDnsAddressLimitExceeded MAX_IP_ON_DEMAND_ADDRESSES), d')
      else (first (default [] resolved), d')
    else (first [], d)
  | None => (first [], d)
  end.

Lemma find_existsb {A} (P : A -> bool) l : is_some (List.find P l) = existsb P l.
Proof. induction l as [|x l IH]; simpl; [done|]. by destruct (P x). Qed.

Lemma on_demand_is_reference routing route t domain d :
  addr t = Domain domain -> domain_strategy routing = IpOnDemand ->
  on_demand_reference routing route domain t d = routing_reference routing route t d.
Proof.
  intros Ht Hs. unfold on_demand_reference, routing_reference, needs_addresses.
  assert (target_domain t = Some domain) as -> by (unfold target_domain; by rewrite Ht). rewrite Hs. cbv zeta. cbn [andb].
  destruct (List.find _ (rules routing)) as [rule|] eqn:Ef; [|by rewrite (find_asks_none _ _ _ Ef)].
  destruct (asks_dns route t rule) eqn:Ea; [done|]. by rewrite (find_asks_some _ _ _ _ Ef Ea).
Qed.

(** The pass over the rules as written, and the second one of [IpIfNonMatch] *)
Lemma passes_are_reference routing route t d :
  domain_strategy routing <> IpOnDemand \/ target_domain t = None ->
  match select_routed_target routing route (target_domain t) (target_ip t) (Some (target_network t)) (Some (port t)) with
  | Some selected => (Ok (Some selected), d)
  | None =>
    match domain_strategy routing, target_domain t with
    | IpIfNonMatch, Some domain =>
      let '(resolved, d') := resolve_all d domain (port t) in
      match resolved with
      | Some addrs =>
        (Ok (select_routed_target_with_resolved_ips routing route (Some domain) addrs (Some (target_network t)) (Some (port t))), d')
      | None => (Ok None, d')
      end
    | _, _ => (Ok None, d)
    end
  end = routing_reference routing route t d.
Proof.
  intros Hs. rewrite select_routed_target_reference. unfold routing_reference, needs_addresses. rewrite <- find_existsb. cbv zeta.
  destruct (List.find (matches_some_address route t []) (rules routing)) as [rule|] eqn:Ef; cbn [fmap option_fmap option_map is_some negb].
  - destruct (target_domain t) as [domain|]; [|done]. destruct (domain_strategy routing); [done | done | by destruct Hs].
  - destruct (target_domain t) as [domain|] eqn:Et; [|by destruct (domain_strategy routing)].
    destruct (domain_strategy routing); [done| |by destruct Hs]. destruct (resolve_all d domain (port t)) as [[addrs|] d'].
    + cbn [andb]. by rewrite (resolved_ips_reference _ _ _ _ _ Et Ef).
    + cbn [andb]. change (default [] (@None (list SocketAddr))) with (@nil SocketAddr). by rewrite Ef.
Qed.

(** Every strategy is its reference. *)
Lemma select_is_reference routing route t d :
  select_routed_target_with_resolver routing route t d = routing_reference routing route t d.
Proof.
  unfold select_routed_target_with_resolver. pose proof (passes_are_reference routing route t d) as Hp.
  destruct (domain_strategy routing) eqn:Es; destruct (target_domain t) as [domain|] eqn:Et; try (apply Hp; by (left + right)).
  unfold target_domain in Et. destruct (addr t) eqn:Ha; simplify_eq. rewrite <- (on_demand_is_reference _ _ _ domain) by done.
  unfold select_on_demand. destruct routing as [rs bs st]. by apply (on_demand_loop_spec bs st).
Qed.

(** What a selection can be: the first rule that matches at some addresses, or the limit. *)
Lemma selection_cases routing route t d :
  match (select_routed_target_with_resolver routing route t d).1 with
  | Ok routed =>
    exists addrs, routed = rule_target <$> List.find (matches_some_address route t addrs) (rules routing)
  | Err e => e = RoutingDnsAddressLimitExceeded MAX_IP_ON_DEMAND_ADDRESSES
  | Panic => False
  end.
Proof.
  rewrite select_is_reference. unfold routing_reference. cbv zeta.
  destruct (target_domain t) as [domain|]; [|by eexists].
  destruct (needs_addresses routing route t); [|by eexists].
  destruct (resolve_all d domain (port t)) as [resolved d']. case_if; [done|by eexists].
Qed.

Lemma get_set_entry {V} (entries : list (str * V)) name v k :
  get_entry (set_entry entries name v) k
  = if bool_decide (name = k) then Some v else get_entry entries k.
Proof.
  unfold get_entry. induction entries as [|[k' v'] r IH]; simpl.
  - by case_if.
  - destruct (bool_decide (k' = name)) eqn:E1; unbool; simpl.
    + subst. by case_if.
    + destruct (bool_decide (k' = k)) eqn:E2; unbool; simpl; [|done].
      subst. by rewrite bool_decide_false by congruence.
Qed.

(** C8: Routing a connection is exactly its reference under each of the three domain strategies: the resolver is
    asked once when the addresses of the target's name are needed and not at all otherwise, never
    under [AsIs] or for an address target, after a pass without a match under [IpIfNonMatch], and
    under [IpOnDemand] when a rule on addresses comes before every rule that matches without them; the
    first rule that matches the target as written or at one of its addresses wins; the only error
    is an on-demand answer of more than 256 addresses. *)
Theorem routed_target_outcome routing route t d :
  select_routed_target_with_resolver routing route t d = routing_reference routing route t d.
Proof. apply select_is_reference. Qed.

(** On-demand evaluation is the reference: rules before the first one that
    has an IP condition decide without DNS, that one triggers the single
    lookup, a failed lookup counts as no address, and the first match wins. *)
Theorem select_on_demand_refines routing route domain t d (Ht : addr t = Domain domain) :
  select_on_demand routing route domain t d = on_demand_reference routing route domain t d.
Proof.
  destruct routing as [rs bs st]. by apply (on_demand_loop_spec bs st).
Qed.

(** Reading an attribute by a lowercased name gives the value last set under
    any spelling of that name, and setting one name leaves the others. *)
Theorem attributes_get_set a name value key :
  ca_get (ca_set a name value) (go_lowercase key)
  = if bool_decide (go_lowercase name = go_lowercase key) then Some value
    else ca_get a (go_lowercase key).
Proof. apply get_set_entry. Qed.

End Selection.

(** ** Witnesses *)

Definition linux : Platform := {|
  LOCAL_OS := str_of "linux";
  char_to_lowercase := fun c => [c]
|}.

(** A resolver that counts its lookups and knows one name. *)
Definition one_name_resolver : DnsResolver := {|
  Resolver := nat;
  resolve_all n domain port :=
    ((if bool_decide (domain = str_of "a.test")
      then Some [mkSocketAddr (V4 (ipv4 10 0 0 1)) port] else None), S n)
|}.

Definition witness_private : IpMatcherSet := mkIpMatcherSet
  (rsb_build (fold_left rsb_insert_cidr PRIVATE_NETWORKS rsb_default)) (rsb_build rsb_default).

Definition witness_rule (ips : option IpMatcherSet) (o : str)
    : @RoutingRule literal_regex scan_automaton :=
  @mkRoutingRule literal_regex scan_automaton [] None None None ips
    [] (@mkRoutingOrigin literal_regex None None None None None) None None (Outbound o).

Definition witness_routing : @RoutingConfig literal_regex scan_automaton :=
  @mkRoutingConfig literal_regex scan_automaton
    [witness_rule (Some witness_private) (str_of "lan"); witness_rule None (str_of "proxy")]
    [] IpOnDemand.

Lemma select_on_demand_refines_witness :
  @select_on_demand linux literal_regex scan_automaton one_name_resolver
    witness_routing (RouteContext_inbound None) (str_of "a.test")
    (mkTarget (Domain (str_of "a.test")) 443 Tcp) 0%nat
  = (Ok (Some (Outbound (str_of "lan"))), 1%nat).
Proof.
  rewrite (@select_on_demand_refines linux literal_regex scan_automaton one_name_resolver)
    by reflexivity.
  vm_compute. reflexivity.
Defined.
