(* ===== verification/KcpSegment.v ===== *)
(** mKCP segments: [crates/xray-transport/src/kcp/segment.rs]. Their encoding,
    and the reader that takes every segment out of a datagram. *)
From Stdlib Require Import Strings.Byte.
From S2P Require Import Prelude.

Definition CMD_ACK : byte := x00.
Definition CMD_DATA : byte := x01.
Definition CMD_TERMINATE : byte := x02.
Definition CMD_PING : byte := x03.
Definition OPTION_CLOSE : byte := x01.
Definition DATA_OVERHEAD : Z := 18.
Definition ACK_NUMBER_LIMIT : Z := 128.

Record DataSegment := mkData {
  ds_conv : Z;
  ds_option : byte;
  ds_timestamp : Z;
  ds_number : Z;
  ds_sending_next : Z;
  ds_payload : list byte
}.

Record AckSegment := mkAck {
  as_conv : Z;
  as_option : byte;
  as_receiving_window : Z;
  as_receiving_next : Z;
  as_timestamp : Z;
  as_numbers : list Z;
  as_limit : Z
}.

Record CmdSegment := mkCmd {
  cs_conv : Z;
  cs_cmd : byte;
  cs_option : byte;
  cs_sending_next : Z;
  cs_receiving_next : Z;
  cs_peer_rto : Z
}.

Inductive Segment :=
| Data (s : DataSegment)
| Ack (s : AckSegment)
| Cmd (s : CmdSegment).

Definition conv_of (s : Segment) : Z :=
  match s with Data s => ds_conv s | Ack s => as_conv s | Cmd s => cs_conv s end.

(** ** Encoding *)

Record DataHeader := mkDataHeader {
  dh_conv : Z;
  dh_option : byte;
  dh_timestamp : Z;
  dh_number : Z;
  dh_sending_next : Z
}.

(** What the encoders append to [out]. *)
Definition encode_data (h : DataHeader) (payload : list byte) : list byte :=
  be_bytes 2 (dh_conv h) ++ [CMD_DATA; dh_option h] ++ be_bytes 4 (dh_timestamp h)
  ++ be_bytes 4 (dh_number h) ++ be_bytes 4 (dh_sending_next h)
  ++ be_bytes 2 (len payload) ++ payload.

(** [AckSegment::new]. *)
Definition AckSegment_new (limit : Z) : AckSegment :=
  mkAck 0 x00 0 0 0 [] (Z.max 1 (Z.min limit ACK_NUMBER_LIMIT)).

Definition put_timestamp (s : AckSegment) (timestamp : Z) : AckSegment :=
  if wrapping_sub32 timestamp (as_timestamp s) <? 0x7FFFFFFF
  then mkAck (as_conv s) (as_option s) (as_receiving_window s) (as_receiving_next s) timestamp
         (as_numbers s) (as_limit s)
  else s.

Definition push_number (s : AckSegment) (number : Z) : AckSegment :=
  mkAck (as_conv s) (as_option s) (as_receiving_window s) (as_receiving_next s)
    (as_timestamp s) (as_numbers s ++ [number]) (as_limit s).

Definition is_full (s : AckSegment) : bool := len (as_numbers s) =? as_limit s.

Definition encode_ack (s : AckSegment) : list byte :=
  be_bytes 2 (as_conv s) ++ [CMD_ACK; as_option s] ++ be_bytes 4 (as_receiving_window s)
  ++ be_bytes 4 (as_receiving_next s) ++ be_bytes 4 (as_timestamp s)
  ++ [to_u8 (len (as_numbers s))] ++ flat_map (be_bytes 4) (as_numbers s).

Definition encode_cmd (s : CmdSegment) : list byte :=
  be_bytes 2 (cs_conv s) ++ [cs_cmd s; cs_option s] ++ be_bytes 4 (cs_sending_next s)
  ++ be_bytes 4 (cs_receiving_next s) ++ be_bytes 4 (cs_peer_rto s).

Definition header_of (s : DataSegment) : DataHeader :=
  mkDataHeader (ds_conv s) (ds_option s) (ds_timestamp s) (ds_number s) (ds_sending_next s).

Definition encode_segment (s : Segment) : list byte :=
  match s with
  | Data s => encode_data (header_of s) (ds_payload s)
  | Ack s => encode_ack s
  | Cmd s => encode_cmd s
  end.

(** ** Reading *)

Definition u32_at (buf : list byte) : total Z :=
  let? b := slice buf 0 4 in Ok (from_be b).

(** [chunks_exact(4).map(u32_at)]. *)
Fixpoint u32s (count : nat) (buf : list byte) : total (list Z) :=
  match count with
  | O => Ok []
  | S count =>
    let? n := u32_at buf in
    let? rest := slice_from buf 4 in
    let? ns := u32s count rest in
    Ok (n :: ns)
  end.

Definition read_data (conv : Z) (opt : byte) (buf : list byte)
    : total (option (Segment * list byte)) :=
  if len buf <? 15 then Ok None
  else
    let? length_bytes := slice buf 12 14 in
    let length := from_be length_bytes in
    let? rest := slice_from buf 14 in
    if len rest <? length then Ok None
    else
      let? timestamp := u32_at buf in
      let? b4 := slice_from buf 4 in
      let? number := u32_at b4 in
      let? b8 := slice_from buf 8 in
      let? sending_next := u32_at b8 in
      let? payload := slice rest 0 length in
      let? rest := slice_from rest length in
      Ok (Some (Data (mkData conv opt timestamp number sending_next payload), rest)).

Definition read_ack (conv : Z) (opt : byte) (buf : list byte)
    : total (option (Segment * list byte)) :=
  if len buf <? 13 then Ok None
  else
    let? count := index buf 12 in
    let count := u8 count in
    let? rest := slice_from buf 13 in
    if len rest <? count * 4 then Ok None
    else
      let? receiving_window := u32_at buf in
      let? b4 := slice_from buf 4 in
      let? receiving_next := u32_at b4 in
      let? b8 := slice_from buf 8 in
      let? timestamp := u32_at b8 in
      let? body := slice rest 0 (count * 4) in
      let? numbers := u32s (Z.to_nat count) body in
      let? rest := slice_from rest (count * 4) in
      Ok (Some (Ack (mkAck conv opt receiving_window receiving_next timestamp numbers
                       (as_limit (AckSegment_new ACK_NUMBER_LIMIT))), rest)).

Definition read_cmd (conv : Z) (cmd opt : byte) (buf : list byte)
    : total (option (Segment * list byte)) :=
  if len buf <? 12 then Ok None
  else
    let? sending_next := u32_at buf in
    let? b4 := slice_from buf 4 in
    let? receiving_next := u32_at b4 in
    let? b8 := slice_from buf 8 in
    let? peer_rto := u32_at b8 in
    let? rest := slice_from buf 12 in
    Ok (Some (Cmd (mkCmd conv cmd opt sending_next receiving_next peer_rto), rest)).

Definition read_segment (buf : list byte) : total (option (Segment * list byte)) :=
  if len buf <? 4 then Ok None
  else
    let? conv := slice buf 0 2 in
    let? cmd := index buf 2 in
    let? opt := index buf 3 in
    let? body := slice_from buf 4 in
    if bool_decide (cmd = CMD_DATA) then read_data (from_be conv) opt body
    else if bool_decide (cmd = CMD_ACK) then read_ack (from_be conv) opt body
    else read_cmd (from_be conv) cmd opt body.

(** The loop; a segment takes at least four bytes. *)
Fixpoint read_segments_loop (fuel : nat) (buf : list byte) : total (list Segment) :=
  match fuel with
  | O => Ok []
  | S fuel =>
    if bool_decide (buf = []) then Ok []
    else
      let? r := read_segment buf in
      match r with
      | None => Ok []
      | Some (segment, rest) =>
        let? segments := read_segments_loop fuel rest in
        Ok (segment :: segments)
      end
  end.

Definition read_segments (buf : list byte) : total (list Segment) :=
  read_segments_loop (length buf) buf.

(** ** Reading what was encoded *)

Lemma slice_from_app {E A} (x y : list A) n : len x = n -> @slice_from E A (x ++ y) n = Ok y.
Proof. by apply slice_from_eq. Qed.

Lemma u32_at_app z r : in_u32 z -> u32_at (be_bytes 4 z ++ r) = Ok z.
Proof.
  intros Hz. unfold u32_at.
  rewrite (slice_eq [] (be_bytes 4 z) r) by (done || by len_simpl). cbn [res_bind].
  by rewrite from_be_bytes_small.
Qed.

Lemma u32s_encoded ns r :
  Forall in_u32 ns -> u32s (length ns) (flat_map (be_bytes 4) ns ++ r) = Ok ns.
Proof.
  induction 1 as [|n ns Hn _ IH]; [done|]. cbn [length u32s flat_map]. rewrite <- app_assoc.
  rewrite u32_at_app by done. cbn [res_bind].
  rewrite slice_from_app by by len_simpl. cbn [res_bind]. by rewrite IH.
Qed.

Lemma len_u32s ns : len (flat_map (be_bytes 4) ns) = 4 * len ns.
Proof. induction ns as [|n ns IH]; [done|]. cbn [flat_map]. len_simpl. lia. Qed.
#[local] Hint Rewrite len_u32s : len.

(** A segment whose fields fit their widths, as the code builds them. *)
Definition wf_segment (s : Segment) : Prop :=
  match s with
  | Data s => in_u16 (ds_conv s) /\ in_u32 (ds_timestamp s) /\ in_u32 (ds_number s)
      /\ in_u32 (ds_sending_next s) /\ len (ds_payload s) <= u16_max
  | Ack s => in_u16 (as_conv s) /\ in_u32 (as_receiving_window s) /\ in_u32 (as_receiving_next s)
      /\ in_u32 (as_timestamp s) /\ Forall in_u32 (as_numbers s) /\ len (as_numbers s) <= 255
      /\ as_limit s = ACK_NUMBER_LIMIT
  | Cmd s => in_u16 (cs_conv s) /\ cs_cmd s <> CMD_ACK /\ cs_cmd s <> CMD_DATA
      /\ in_u32 (cs_sending_next s) /\ in_u32 (cs_receiving_next s) /\ in_u32 (cs_peer_rto s)
  end.

Definition is_empty_data (s : Segment) : bool :=
  match s with Data s => bool_decide (ds_payload s = []) | _ => false end.

(** The four bytes every segment starts with. *)
Lemma read_segment_header conv cmd opt body :
  in_u16 conv ->
  read_segment (be_bytes 2 conv ++ [cmd; opt] ++ body)
  = if bool_decide (cmd = CMD_DATA) then read_data conv opt body
    else if bool_decide (cmd = CMD_ACK) then read_ack conv opt body
    else read_cmd conv cmd opt body.
Proof.
  intros Hc. unfold read_segment. pose proof (len_nonneg body).
  guard_false by (len_simpl; lia).
  rewrite (slice_eq [] (be_bytes 2 conv) ([cmd; opt] ++ body)) by (done || by len_simpl).
  cbn [res_bind]. rewrite from_be_bytes_small by done.
  rewrite (index_app_len (be_bytes 2 conv) (opt :: body) cmd) by by len_simpl. cbn [res_bind].
  rewrite (app_assoc (be_bytes 2 conv) [cmd; opt] body).
  replace ((be_bytes 2 conv ++ [cmd; opt]) ++ body)
    with ((be_bytes 2 conv ++ [cmd]) ++ opt :: body) at 1 by (by rewrite <- !app_assoc).
  rewrite (index_app_len _ body opt) by by len_simpl. cbn [res_bind].
  rewrite slice_from_app by by len_simpl. done.
Qed.

Lemma read_data_encoded conv opt ts n sn p rest :
  in_u32 ts -> in_u32 n -> in_u32 sn -> len p <= u16_max -> p ++ rest <> [] ->
  read_data conv opt (be_bytes 4 ts ++ be_bytes 4 n ++ be_bytes 4 sn ++ be_bytes 2 (len p)
                      ++ p ++ rest)
  = Ok (Some (Data (mkData conv opt ts n sn p), rest)).
Proof.
  intros Ht Hn Hs Hp Hne. unfold read_data. pose proof (len_nonneg p). pose proof (len_nonneg rest).
  assert (0 < len (p ++ rest)) as Hpos
    by (destruct (p ++ rest) as [|b l]; [done | rewrite len_cons; pose proof (len_nonneg l); lia]).
  rewrite len_app in Hpos.
  guard_false by (len_simpl; lia).
  rewrite (slice_eq (be_bytes 4 ts ++ be_bytes 4 n ++ be_bytes 4 sn) (be_bytes 2 (len p)) (p ++ rest))
    by (rewrite <- ?app_assoc; done || by len_simpl).
  cbn [res_bind]. rewrite from_be_bytes_small by (change (256 ^ Z.of_nat 2) with 65536; unfold u16_max in Hp; lia).
  rewrite (slice_from_eq (be_bytes 4 ts ++ be_bytes 4 n ++ be_bytes 4 sn ++ be_bytes 2 (len p)) (p ++ rest))
    by (rewrite <- ?app_assoc; done || by len_simpl).
  cbn [res_bind]. guard_false by (len_simpl; lia).
  rewrite u32_at_app by done. cbn [res_bind].
  rewrite slice_from_app by by len_simpl. cbn [res_bind].
  rewrite u32_at_app by done. cbn [res_bind].
  rewrite (app_assoc (be_bytes 4 ts)), slice_from_app by by len_simpl. cbn [res_bind].
  rewrite u32_at_app by done. cbn [res_bind].
  rewrite (slice_eq [] p rest) by (done || by len_simpl). cbn [res_bind].
  by rewrite slice_from_app.
Qed.

Lemma read_ack_encoded conv opt rw rn ts ns rest :
  in_u32 rw -> in_u32 rn -> in_u32 ts -> Forall in_u32 ns -> len ns <= 255 ->
  read_ack conv opt (be_bytes 4 rw ++ be_bytes 4 rn ++ be_bytes 4 ts ++ [to_u8 (len ns)]
                     ++ flat_map (be_bytes 4) ns ++ rest)
  = Ok (Some (Ack (mkAck conv opt rw rn ts ns ACK_NUMBER_LIMIT), rest)).
Proof.
  intros Hw Hn Ht Hf Hl. unfold read_ack. pose proof (len_nonneg ns). pose proof (len_nonneg rest).
  guard_false by (len_simpl; lia).
  set (hd := be_bytes 4 rw ++ be_bytes 4 rn ++ be_bytes 4 ts).
  replace (be_bytes 4 rw ++ _) with (hd ++ to_u8 (len ns) :: flat_map (be_bytes 4) ns ++ rest)
    by (unfold hd; by rewrite <- !app_assoc).
  assert (len hd = 12) as Hhd by (unfold hd; by len_simpl).
  rewrite (index_app_len hd _ (to_u8 (len ns))) by done. cbn [res_bind].
  rewrite u8_to_u8_small by lia.
  rewrite (slice_from_eq (hd ++ [to_u8 (len ns)]) (flat_map (be_bytes 4) ns ++ rest))
    by (rewrite <- ?app_assoc; done || (rewrite len_app, Hhd; done)).
  cbn [res_bind]. guard_false by (len_simpl; lia). unfold hd. rewrite <- !app_assoc.
  rewrite u32_at_app by done. cbn [res_bind].
  rewrite slice_from_app by by len_simpl. cbn [res_bind].
  rewrite u32_at_app by done. cbn [res_bind].
  rewrite (app_assoc (be_bytes 4 rw)), slice_from_app by by len_simpl. cbn [res_bind].
  rewrite u32_at_app by done. cbn [res_bind].
  rewrite (slice_eq [] (flat_map (be_bytes 4) ns) rest) by (done || (len_simpl; lia)). cbn [res_bind].
  rewrite <- (app_nil_r (flat_map (be_bytes 4) ns)) at 1.
  replace (Z.to_nat (len ns)) with (length ns) by (unfold len; lia).
  rewrite u32s_encoded by done. cbn [res_bind].
  by rewrite slice_from_app by (len_simpl; lia).
Qed.

Lemma read_cmd_encoded conv cmd opt sn rn rto rest :
  in_u32 sn -> in_u32 rn -> in_u32 rto ->
  read_cmd conv cmd opt (be_bytes 4 sn ++ be_bytes 4 rn ++ be_bytes 4 rto ++ rest)
  = Ok (Some (Cmd (mkCmd conv cmd opt sn rn rto), rest)).
Proof.
  intros Hs Hn Hr. unfold read_cmd. pose proof (len_nonneg rest). guard_false by (len_simpl; lia).
  rewrite u32_at_app by done. cbn [res_bind].
  rewrite slice_from_app by by len_simpl. cbn [res_bind].
  rewrite u32_at_app by done. cbn [res_bind].
  rewrite (app_assoc (be_bytes 4 sn)), slice_from_app by by len_simpl. cbn [res_bind].
  rewrite u32_at_app by done. cbn [res_bind].
  rewrite <- (app_assoc (be_bytes 4 sn)).
  by rewrite (slice_from_eq (be_bytes 4 sn ++ be_bytes 4 rn ++ be_bytes 4 rto) rest)
    by (rewrite <- ?app_assoc; done || by len_simpl).
Qed.

Lemma read_segment_encoded s rest :
  wf_segment s -> (is_empty_data s = true -> rest <> []) ->
  read_segment (encode_segment s ++ rest) = Ok (Some (s, rest)).
Proof.
  destruct s as [[c o t n sn p]|[c o rw rn t ns lim]|[c cmd o sn rn rto]];
    cbn [wf_segment encode_segment]; unfold encode_data, encode_ack, encode_cmd, header_of;
    cbn [ds_conv ds_option ds_timestamp ds_number ds_sending_next ds_payload dh_conv dh_option
         dh_timestamp dh_number dh_sending_next as_conv as_option as_receiving_window
         as_receiving_next as_timestamp as_numbers as_limit cs_conv cs_cmd cs_option
         cs_sending_next cs_receiving_next cs_peer_rto]; rewrite <- ?app_assoc.
  - intros (Hc & Ht & Hn & Hs & Hp) He. rewrite read_segment_header by done.
    rewrite bool_decide_true by done. apply read_data_encoded; try done.
    destruct p; [|done]. apply He. reflexivity.
  - intros (Hc & Hw & Hn & Ht & Hf & Hl & ->) _. rewrite read_segment_header by done.
    rewrite bool_decide_false, bool_decide_true by done. by apply read_ack_encoded.
  - intros (Hc & Ha & Hd & Hs & Hn & Hr) _. rewrite read_segment_header by done.
    rewrite !bool_decide_false by done. by apply read_cmd_encoded.
Qed.

(** ** Any input *)

Lemma slice_exists {E A} (l : list A) a b :
  0 <= a <= b -> b <= len l -> exists r, @slice E A l a b = Ok r /\ len r = b - a.
Proof.
  intros Ha Hb. pose proof (@slice_no_panic E A l a b Ha Hb).
  destruct (slice l a b) as [r| |] eqn:Es; [|unfold slice in Es; by case_if_in Es|done].
  exists r. split; [done|]. by apply slice_len in Es.
Qed.

Lemma slice_from_exists {E A} (l : list A) a :
  0 <= a <= len l -> exists r, @slice_from E A l a = Ok r /\ len r = len l - a.
Proof. intros. apply slice_exists; lia. Qed.

Lemma u32_at_exists buf : 4 <= len buf -> exists z, u32_at buf = Ok z.
Proof.
  intros Hl. unfold u32_at. destruct (@slice_exists Empty_set _ buf 0 4) as (r & -> & _); [lia..|].
  by eexists.
Qed.

Lemma u32s_exists n buf : 4 * Z.of_nat n <= len buf -> exists l, u32s n buf = Ok l.
Proof.
  revert buf. induction n as [|n IH]; intros buf Hl; [by eexists|]. cbn [u32s].
  destruct (u32_at_exists buf) as [z ->]; [lia|]. cbn [res_bind].
  destruct (@slice_from_exists Empty_set _ buf 4) as (r & -> & Hr); [lia|]. cbn [res_bind].
  destruct (IH r) as [ns ->]; [lia|]. by eexists.
Qed.

Lemma index_exists {E A} (l : list A) i : 0 <= i < len l -> exists x, @index E A l i = Ok x.
Proof.
  intros Hi. unfold index. guard_false by lia.
  destruct (lookup_lt_is_Some_2 l (Z.to_nat i)) as [x ->]; [unfold len in *; lia | by eexists].
Qed.

(** Resolves the next access of the goal, which is within bounds. *)
Ltac access :=
  match goal with
  | |- context [@slice ?E ?A ?l ?a ?b] =>
    let r := fresh "r" in let Hr := fresh "Hr" in
    destruct (@slice_exists E A l a b) as (r & -> & Hr); [lia..|]; cbn [res_bind]
  | |- context [@slice_from ?E ?A ?l ?a] =>
    let r := fresh "r" in let Hr := fresh "Hr" in
    destruct (@slice_from_exists E A l a) as (r & -> & Hr); [lia|]; cbn [res_bind]
  | |- context [u32_at ?l] => destruct (u32_at_exists l) as [? ->]; [lia|]; cbn [res_bind]
  | |- context [u32s ?n ?l] => destruct (u32s_exists n l) as [? ->]; [lia|]; cbn [res_bind]
  | |- context [@index ?E ?A ?l ?i] =>
    destruct (@index_exists E A l i) as [? ->]; [lia|]; cbn [res_bind]
  end.

(** The reader of one segment never panics, and what is left is shorter. *)
Definition shorter (buf : list byte) (r : total (option (Segment * list byte))) : Prop :=
  exists o, r = Ok o /\ match o with Some (_, rest) => len rest < len buf | None => True end.

Lemma read_data_shorter c o buf : shorter buf (read_data c o buf).
Proof.
  unfold read_data. case_if; [by exists None|]. unbool. access. access.
  pose proof (from_be_range r). case_if; [by exists None|]. unbool.
  repeat access. eexists. split; [done|]. simpl. lia.
Qed.

Lemma read_ack_shorter c o buf : shorter buf (read_ack c o buf).
Proof.
  unfold read_ack. case_if; [by exists None|]. unbool.
  destruct (@index_exists Empty_set _ buf 12) as [x ->]; [lia|]. cbn [res_bind].
  pose proof (u8_range x). access. case_if; [by exists None|]. unbool.
  repeat access. eexists. split; [done|]. simpl. lia.
Qed.

Lemma read_cmd_shorter c k o buf : shorter buf (read_cmd c k o buf).
Proof.
  unfold read_cmd. case_if; [by exists None|]. unbool.
  repeat access. eexists. split; [done|]. simpl. lia.
Qed.

Lemma read_segment_shorter buf : shorter buf (read_segment buf).
Proof.
  unfold read_segment. case_if; [by exists None|]. unbool. repeat access.
  assert (forall m, shorter r0 m -> shorter buf m) as G.
  { intros m (v & -> & Hv). exists v. split; [done|]. destruct v as [[? ?]|]; [lia | done]. }
  repeat case_if; apply G; auto using read_data_shorter, read_ack_shorter, read_cmd_shorter.
Qed.

Lemma read_segments_fuel n m buf :
  (length buf <= n)%nat -> (length buf <= m)%nat ->
  read_segments_loop n buf = read_segments_loop m buf.
Proof.
  revert m buf. induction n as [|n IH]; intros [|m] buf Hn Hm; simpl.
  - done.
  - destruct buf; [done | simpl in *; lia].
  - destruct buf; [done | simpl in *; lia].
  - case_if; [done|]. destruct (read_segment_shorter buf) as (o & -> & Ho). cbn [res_bind].
    destruct o as [[s rest]|]; [|done]. unfold len in Ho. by rewrite (IH m) by lia.
Qed.

Lemma read_segments_eq buf :
  read_segments buf
  = if bool_decide (buf = []) then Ok []
    else let? r := read_segment buf in
         match r with
         | None => Ok []
         | Some (s, rest) => let? ss := read_segments rest in Ok (s :: ss)
         end.
Proof.
  unfold read_segments. destruct buf as [|b buf]; [done|]. cbn [length read_segments_loop].
  case_if; [done|]. destruct (read_segment_shorter (b :: buf)) as (o & -> & Ho). cbn [res_bind].
  destruct o as [[s rest]|]; [|done]. rewrite len_cons in Ho. unfold len in Ho.
  by rewrite (read_segments_fuel (length buf) (length rest) rest) by lia.
Qed.

Lemma read_segments_no_panic buf : exists ss, read_segments buf = Ok ss.
Proof.
  unfold read_segments. generalize (length buf). intros n. revert buf.
  induction n as [|n IH]; intros buf; simpl; [by eexists|]. case_if; [by eexists|].
  destruct (read_segment_shorter buf) as (o & -> & _). cbn [res_bind].
  destruct o as [[s rest]|]; [|by eexists]. destruct (IH rest) as [ss ->]. by eexists.
Qed.

(** Every segment fits its widths and only the last may not be empty data. *)
Fixpoint wf_datagram (ss : list Segment) : Prop :=
  match ss with
  | [] => True
  | s :: ss => wf_segment s /\ (is_empty_data s = true -> ss <> []) /\ wf_datagram ss
  end.

Lemma encode_segment_nonempty s : encode_segment s <> [].
Proof.
  intros E%(f_equal length). destruct s; cbn [encode_segment] in E;
    unfold encode_data, encode_ack, encode_cmd in E; rewrite length_app, length_be_bytes in E;
    simpl in E; lia.
Qed.

Lemma read_segments_encoded ss :
  wf_datagram ss -> read_segments (flat_map encode_segment ss) = Ok ss.
Proof.
  induction ss as [|s ss IH]; intros Hwf; [done|]. destruct Hwf as (Hs & He & Hwf).
  rewrite read_segments_eq. cbn [flat_map].
  rewrite bool_decide_false by (intros [E _]%app_eq_nil; by apply encode_segment_nonempty in E).
  rewrite read_segment_encoded; [|done|].
  - cbn [res_bind]. by rewrite IH.
  - intros Hd E. specialize (He Hd). destruct ss as [|s' ss]; [done|]. simpl in E.
    apply app_eq_nil in E as [E _]. by apply encode_segment_nonempty in E.
Qed.

(** Encoding keeps what fits the widths. *)
Definition norm_segment (s : Segment) : Segment :=
  match s with
  | Data s => Data (mkData (ds_conv s mod 65536) (ds_option s) (wrap32 (ds_timestamp s))
                      (wrap32 (ds_number s)) (wrap32 (ds_sending_next s)) (ds_payload s))
  | Ack s => Ack (mkAck (as_conv s mod 65536) (as_option s) (wrap32 (as_receiving_window s))
                    (wrap32 (as_receiving_next s)) (wrap32 (as_timestamp s))
                    (map wrap32 (as_numbers s)) ACK_NUMBER_LIMIT)
  | Cmd s => Cmd (mkCmd (cs_conv s mod 65536) (cs_cmd s) (cs_option s) (wrap32 (cs_sending_next s))
                    (wrap32 (cs_receiving_next s)) (wrap32 (cs_peer_rto s)))
  end.

Lemma be_bytes_mod n z : be_bytes n (z mod 256 ^ Z.of_nat n) = be_bytes n z.
Proof.
  apply from_be_inj; [by rewrite !length_be_bytes|]. rewrite !from_be_bytes.
  apply Z.mod_mod. apply Z.pow_nonzero; lia.
Qed.

Lemma be_bytes_wrap32 z : be_bytes 4 (wrap32 z) = be_bytes 4 z.
Proof. apply (be_bytes_mod 4). Qed.

Lemma be_bytes_mod16 z : be_bytes 2 (z mod 65536) = be_bytes 2 z.
Proof. apply (be_bytes_mod 2). Qed.

Lemma wrap32_range z : in_u32 (wrap32 z).
Proof. apply Z.mod_pos_bound. done. Qed.

Lemma encode_norm s : encode_segment (norm_segment s) = encode_segment s.
Proof.
  destruct s as [s|s|s]; cbn [norm_segment encode_segment];
    unfold encode_data, encode_ack, encode_cmd, header_of;
    cbn [ds_conv ds_option ds_timestamp ds_number ds_sending_next ds_payload dh_conv dh_option
         dh_timestamp dh_number dh_sending_next as_conv as_option as_receiving_window
         as_receiving_next as_timestamp as_numbers as_limit cs_conv cs_cmd cs_option
         cs_sending_next cs_receiving_next cs_peer_rto];
    rewrite !be_bytes_wrap32, be_bytes_mod16; try done.
  do 6 f_equal.
  - unfold len. by rewrite length_map.
  - induction (as_numbers s) as [|n ns IH]; [done|]. cbn [map flat_map].
    by rewrite be_bytes_wrap32, IH.
Qed.

(** One segment that fits reads back, cut to its widths. *)
Lemma read_one_segment s :
  match s with
  | Data s => ds_payload s <> [] /\ len (ds_payload s) <= u16_max
  | Ack s => len (as_numbers s) <= 255
  | Cmd s => cs_cmd s <> CMD_ACK /\ cs_cmd s <> CMD_DATA
  end ->
  read_segments (encode_segment s) = Ok [norm_segment s].
Proof.
  intros Hs. rewrite <- encode_norm, <- (app_nil_r (encode_segment _)).
  apply (read_segments_encoded [norm_segment s]). split; [|split; [|done]].
  - assert (forall z, in_u16 (z mod 65536)) as H16 by (intros z; by apply Z.mod_pos_bound).
    destruct s as [s|s|s]; simpl; split_and!; try apply wrap32_range; try apply H16; try naive_solver.
    + apply Forall_forall. intros z (x & <- & _)%in_map_iff. apply wrap32_range.
    + unfold len in *. by rewrite length_map.
  - destruct s as [s|s|s]; [|done..]. destruct Hs as [Hne _]. simpl.
    by rewrite bool_decide_false.
Qed.

(** A datagram of encoded segments reads back as those segments, in order;
    and no datagram, whatever it holds, makes the reader panic. The one
    exception is an empty data segment at the end, which the reader drops. *)
Theorem segments_roundtrip :
  (forall ss, wf_datagram ss -> read_segments (flat_map encode_segment ss) = Ok ss)
  /\ forall buf, exists ss, read_segments buf = Ok ss.
Proof. split; [apply read_segments_encoded | apply read_segments_no_panic]. Qed.
