(* ===== verification/KcpEngine.v ===== *)
(** The mKCP connection engine: [crates/xray-transport/src/kcp/engine.rs], with
    the check of its settings in [kcp/mod.rs]. Sending and receiving workers,
    the acknowledgement list, round-trip estimation and the connection's state
    machine; time is an argument, as in the code. *)
From Stdlib Require Import Strings.Byte.
From S2P Require Import Prelude KcpSegment.

Inductive State :=
| Active | ReadyToClose | PeerClosed | Terminating | PeerTerminating | Terminated.

#[export] Instance State_eq_dec : EqDecision State.
Proof. solve_decision. Defined.

Definition terminating (s : State) : bool :=
  match s with Terminating | Terminated => true | _ => false end.

Record Config := mkConfig {
  mtu : Z;
  tti : Z;
  uplink_capacity : Z;
  downlink_capacity : Z;
  cwnd_multiplier : Z;
  max_sending_window : Z
}.

Inductive ConfigError := BadMtu | BadTti | BadMultiplier | BadWindow.

(** [KcpConfig::engine_config]. *)
Definition engine_config (c : Config) : res ConfigError Config :=
  if negb ((21 <=? mtu c) && (mtu c <=? 8192)) then Err BadMtu
  else if negb ((10 <=? tti c) && (tti c <=? 1000)) then Err BadTti
  else if cwnd_multiplier c =? 0 then Err BadMultiplier
  else if max_sending_window c <? mtu c then Err BadWindow
  else Ok c.

(** The divisors are checked once, in [Engine_new]. *)
Definition in_flight_size (c : Config) (capacity : Z) : Z :=
  Z.max (wrapping_mul32 capacity (1024 * 1024) / mtu c / (1000 / tti c)) 8.

Definition sending_in_flight_size (c : Config) : Z := in_flight_size c (uplink_capacity c).
Definition receiving_in_flight_size (c : Config) : Z := in_flight_size c (downlink_capacity c).
Definition sending_buffer_size (c : Config) : Z := max_sending_window c / mtu c.

(** ** Round trips *)

Record RoundTrip := mkRoundTrip {
  variation : Z;
  srtt : Z;
  rto : Z;
  min_rtt : Z;
  updated_timestamp : Z
}.

Definition update_peer_rto (r : RoundTrip) (new_rto current : Z) : RoundTrip :=
  if wrapping_sub32 current (updated_timestamp r) <? 3000 then r
  else mkRoundTrip (variation r) (srtt r) new_rto (min_rtt r) current.

Definition rt_update (r : RoundTrip) (rtt current : Z) : RoundTrip :=
  if 0x7FFFFFFF <? rtt then r
  else
    let '(variation, srtt) :=
      if srtt r =? 0 then (rtt / 2, rtt)
      else
        let delta := Z.abs (srtt r - rtt) in
        let variation := wrapping_add32 (wrapping_mul32 3 (variation r)) delta / 4 in
        let srtt := wrapping_add32 (wrapping_mul32 7 (srtt r)) rtt / 8 in
        (variation, Z.max srtt (min_rtt r)) in
    let four := wrapping_mul32 4 variation in
    let rto :=
      if min_rtt r <? four then wrapping_add32 srtt four else wrapping_add32 srtt variation in
    mkRoundTrip variation srtt (Z.min rto 10000 * 5 / 4) (min_rtt r) current.

(** ** Sending *)

Record Unacked := mkUnacked {
  ua_number : Z;
  ua_timestamp : Z;
  ua_payload : list byte;
  ua_timeout : Z;
  ua_transmit : Z
}.

Record SendingWorker := mkSending {
  sw_window : list Unacked;
  total_in_flight_size : Z;
  first_unacknowledged : Z;
  sw_next_number : Z;
  remote_next_number : Z;
  control_window : Z;
  sw_window_size : Z;
  first_unacknowledged_updated : bool;
  closed : bool
}.

Definition SendingWorker_new (c : Config) : SendingWorker :=
  mkSending [] 0 0 0 32 (sending_in_flight_size c) (sending_buffer_size c) false false.

Definition set_window (w : SendingWorker) (l : list Unacked) : SendingWorker :=
  mkSending l (total_in_flight_size w) (first_unacknowledged w) (sw_next_number w)
    (remote_next_number w) (control_window w) (sw_window_size w)
    (first_unacknowledged_updated w) (closed w).

Definition sw_release (w : SendingWorker) : SendingWorker :=
  mkSending [] (total_in_flight_size w) (first_unacknowledged w) (sw_next_number w)
    (remote_next_number w) (control_window w) (sw_window_size w)
    (first_unacknowledged_updated w) true.

(** [while front.number < una { pop_front }]. *)
Fixpoint drop_below (una : Z) (l : list Unacked) : list Unacked :=
  match l with
  | s :: r => if ua_number s <? una then drop_below una r else l
  | [] => []
  end.

Definition sw_clear (w : SendingWorker) (una : Z) : SendingWorker :=
  set_window w (drop_below una (sw_window w)).

Definition find_first_unacknowledged (w : SendingWorker) : SendingWorker :=
  let first := match sw_window w with s :: _ => ua_number s | [] => sw_next_number w end in
  mkSending (sw_window w) (total_in_flight_size w) first (sw_next_number w)
    (remote_next_number w) (control_window w) (sw_window_size w)
    (negb (first_unacknowledged w =? first) || first_unacknowledged_updated w) (closed w).

Definition process_receiving_next (w : SendingWorker) (next_number : Z) : SendingWorker :=
  find_first_unacknowledged (sw_clear w next_number).

(** The window without [number], if it is there; the search stops at a
    larger number. *)
Fixpoint remove_number (number : Z) (l : list Unacked) : option (list Unacked) :=
  match l with
  | [] => None
  | s :: r =>
    if number <? ua_number s then None
    else if ua_number s =? number then Some r
    else cons s <$> remove_number number r
  end.

Definition sw_remove (w : SendingWorker) (number : Z) : bool * SendingWorker :=
  match remove_number number (sw_window w) with
  | None => (false, w)
  | Some l =>
    (true,
     mkSending l
       (if 0 <? total_in_flight_size w then total_in_flight_size w - 1
        else total_in_flight_size w)
       (first_unacknowledged w) (sw_next_number w) (remote_next_number w) (control_window w)
       (sw_window_size w) (first_unacknowledged_updated w) (closed w))
  end.

Definition process_ack (w : SendingWorker) (number : Z) : bool * SendingWorker :=
  if (0x7FFFFFFF <? wrapping_sub32 number (first_unacknowledged w))
     || (wrapping_sub32 number (sw_next_number w) <? 0x7FFFFFFF)
  then (false, w)
  else
    let '(removed, w) := sw_remove w number in
    (removed, if removed then find_first_unacknowledged w else w).

Fixpoint fast_ack (number rto : Z) (l : list Unacked) : list Unacked :=
  match l with
  | [] => []
  | s :: r =>
    if (number =? ua_number s) || (0x7FFFFFFF <? wrapping_sub32 number (ua_number s)) then l
    else
      (if (0 <? ua_transmit s) && (rto / 3 <? ua_timeout s)
       then mkUnacked (ua_number s) (ua_timestamp s) (ua_payload s) (ua_timeout s - rto / 3)
              (ua_transmit s)
       else s) :: fast_ack number rto r
  end.

Definition handle_fast_ack (w : SendingWorker) (number rto : Z) : SendingWorker :=
  set_window w (fast_ack number rto (sw_window w)).

(** One turn of the loop over the acknowledged numbers. *)
Definition ack_step (st : SendingWorker * Z * bool) (number : Z) : SendingWorker * Z * bool :=
  let '(w, max_ack, max_ack_removed) := st in
  let '(removed, w) := process_ack w number in
  if max_ack <? number then (w, number, removed) else (w, max_ack, max_ack_removed).

Definition sw_process_segment (w : SendingWorker) (current : Z) (s : AckSegment) (rto : Z)
    (rt : RoundTrip) : SendingWorker * RoundTrip :=
  if closed w then (w, rt)
  else
    let w :=
      mkSending (sw_window w) (total_in_flight_size w) (first_unacknowledged w)
        (sw_next_number w)
        (if remote_next_number w <? as_receiving_window s then as_receiving_window s
         else remote_next_number w)
        (control_window w) (sw_window_size w) (first_unacknowledged_updated w) (closed w) in
    let w := process_receiving_next w (as_receiving_next s) in
    if bool_decide (as_numbers s = []) then (w, rt)
    else
      let '(w, max_ack, max_ack_removed) := fold_left ack_step (as_numbers s) (w, 0, false) in
      if max_ack_removed then
        let w := handle_fast_ack w max_ack rto in
        let rtt := wrapping_sub32 current (as_timestamp s) in
        (w, if rtt <? 10000 then rt_update rt rtt current else rt)
      else (w, rt).

Definition sw_push (w : SendingWorker) (payload : list byte) : bool * SendingWorker :=
  if closed w || (sw_window_size w <? wrap32 (len (sw_window w))) then (false, w)
  else
    (true,
     mkSending (sw_window w ++ [mkUnacked (sw_next_number w) 0 payload 0 0])
       (total_in_flight_size w) (first_unacknowledged w) (wrapping_add32 (sw_next_number w) 1)
       (remote_next_number w) (control_window w) (sw_window_size w)
       (first_unacknowledged_updated w) (closed w)).

Definition on_packet_loss (w : SendingWorker) (loss_rate rto : Z) (c : Config) : SendingWorker :=
  if rto =? 0 then w
  else
    let cw := control_window w in
    let cw := if 15 <=? loss_rate then wrapping_mul32 3 cw / 4 else cw in
    let cw := if loss_rate <=? 5 then wrapping_add32 cw (cw / 4) else cw in
    let cw := Z.max cw 16 in
    mkSending (sw_window w) (total_in_flight_size w) (first_unacknowledged w)
      (sw_next_number w) (remote_next_number w) (Z.min cw (sending_in_flight_size c))
      (sw_window_size w) (first_unacknowledged_updated w) (closed w).

Definition close_write (w : SendingWorker) : SendingWorker := sw_clear w 0xFFFFFFFF.

(** ** Acknowledgements *)

Record AckList := mkAckList {
  timestamps : list Z;
  numbers : list Z;
  next_flush : list Z;
  flush_candidates : list Z;
  dirty : bool;
  al_mtu : Z
}.

Definition FLUSH_CANDIDATES : Z := 128.

Definition al_add (a : AckList) (number timestamp : Z) : AckList :=
  mkAckList (timestamps a ++ [timestamp]) (numbers a ++ [number]) (next_flush a ++ [0])
    (flush_candidates a) true (al_mtu a).

(** [v[i] = x] on the three vectors. *)
Definition store {A} (l : list A) (i : nat) (x : A) : total (list A) :=
  if (i <? length l)%nat then Ok (<[i := x]> l) else Panic.
Definition load {A} (l : list A) (i : nat) : total A := unwrap (l !! i).

(** The compaction loop of [clear]: [count] entries are kept so far. *)
Fixpoint clear_loop (n i count : nat) (una : Z) (a : AckList) : total (nat * AckList) :=
  match n with
  | O => Ok (count, a)
  | S n =>
    let? number := load (numbers a) i in
    if number <? una then clear_loop n (S i) count una a
    else
      let? ns := store (numbers a) count number in
      let? t := load (timestamps a) i in
      let? ts := store (timestamps a) count t in
      let? f := load (next_flush a) i in
      let? fs := store (next_flush a) count f in
      clear_loop n (S i) (S count) una
        (mkAckList ts ns fs (flush_candidates a) (dirty a) (al_mtu a))
  end.

Definition al_clear (a : AckList) (una : Z) : total AckList :=
  let? (count, a) := clear_loop (length (numbers a)) 0 0 una a in
  if (count <? length (numbers a))%nat
  then Ok (mkAckList (take count (timestamps a)) (take count (numbers a))
             (take count (next_flush a)) (flush_candidates a) true (al_mtu a))
  else Ok a.

Definition new_segment (a : AckList) : AckSegment := AckSegment_new (Z.quot (al_mtu a - 17) 4).

(** The first loop of [flush]: entries that are due go into [segment], full
    segments into [written]. *)
Fixpoint flush_loop (n i : nat) (current rto : Z) (a : AckList) (segment : AckSegment)
    (written : list AckSegment) : total (AckList * AckSegment * list AckSegment) :=
  match n with
  | O => Ok (a, segment, written)
  | S n =>
    let? due := load (next_flush a) i in
    let? number := load (numbers a) i in
    if current <? due then
      let a :=
        if len (flush_candidates a) <? FLUSH_CANDIDATES
        then mkAckList (timestamps a) (numbers a) (next_flush a)
               (flush_candidates a ++ [number]) (dirty a) (al_mtu a)
        else a in
      flush_loop n (S i) current rto a segment written
    else
      let? t := load (timestamps a) i in
      let segment := put_timestamp (push_number segment number) t in
      let? fs := store (next_flush a) i (wrapping_add32 current (Z.max (rto / 2) 20)) in
      let full := is_full segment in
      let a :=
        mkAckList (timestamps a) (numbers a) fs (flush_candidates a)
          (if full then false else dirty a) (al_mtu a) in
      if full then flush_loop n (S i) current rto a (new_segment a) (written ++ [segment])
      else flush_loop n (S i) current rto a segment written
  end.

(** The second loop: repeat what is not due while there is room. *)
Fixpoint add_candidates (segment : AckSegment) (l : list Z) : AckSegment :=
  match l with
  | [] => segment
  | number :: l =>
    if is_full segment then segment else add_candidates (push_number segment number) l
  end.

(** The segments are returned in the order they are written. *)
Definition al_flush (a : AckList) (current rto : Z) : total (AckList * list AckSegment) :=
  let a := mkAckList (timestamps a) (numbers a) (next_flush a) [] (dirty a) (al_mtu a) in
  let? (a, segment, written) :=
    flush_loop (length (numbers a)) 0 current rto a (new_segment a) [] in
  if dirty a || negb (bool_decide (as_numbers segment = [])) then
    Ok (mkAckList (timestamps a) (numbers a) (next_flush a) (flush_candidates a) false (al_mtu a),
        written ++ [add_candidates segment (flush_candidates a)])
  else Ok (a, written).

(** ** Receiving *)

Record ReceivingWorker := mkReceiving {
  left_over : list byte;
  rw_window : gmap Z (list byte);
  acks : AckList;
  rw_next_number : Z;
  rw_window_size : Z
}.

Definition ReceivingWorker_new (c : Config) : ReceivingWorker :=
  mkReceiving [] ∅ (mkAckList [] [] [] [] false (mtu c)) 0 (receiving_in_flight_size c).

Definition rw_release (w : ReceivingWorker) : ReceivingWorker :=
  mkReceiving [] (rw_window w) (acks w) (rw_next_number w) (rw_window_size w).

Definition rw_process_segment (w : ReceivingWorker) (s : DataSegment) : total ReceivingWorker :=
  if rw_window_size w <=? wrapping_sub32 (ds_number s) (rw_next_number w) then Ok w
  else
    let? a := al_clear (acks w) (ds_sending_next s) in
    let a := al_add a (ds_number s) (ds_timestamp s) in
    Ok (mkReceiving (left_over w)
          (match rw_window w !! ds_number s with
           | Some _ => rw_window w
           | None => <[ds_number s := ds_payload s]> (rw_window w)
           end) a (rw_next_number w) (rw_window_size w)).

Definition is_data_available (w : ReceivingWorker) : bool :=
  bool_decide (is_Some (rw_window w !! rw_next_number w)).

(** The loop of [read]; every turn takes an entry out of the window. *)
Fixpoint drain (fuel : nat) (window : gmap Z (list byte)) (next : Z) (pending : list byte)
    : gmap Z (list byte) * Z * list byte :=
  match fuel with
  | O => (window, next, pending)
  | S fuel =>
    match window !! next with
    | None => (window, next, pending)
    | Some payload =>
      drain fuel (delete next window) (wrapping_add32 next 1) (pending ++ payload)
    end
  end.

(** Reads into a buffer of [n] bytes. *)
Definition rw_read (w : ReceivingWorker) (n : nat) : list byte * ReceivingWorker :=
  let '(window, next, pending) :=
    if bool_decide (left_over w = [])
    then drain (size (rw_window w)) (rw_window w) (rw_next_number w) (left_over w)
    else (rw_window w, rw_next_number w, left_over w) in
  let count := Nat.min n (length pending) in
  (take count pending, mkReceiving (drop count pending) window (acks w) next (rw_window_size w)).

Definition update_necessary (w : ReceivingWorker) : bool :=
  negb (bool_decide (numbers (acks w) = [])).

Definition MAX_SEGMENT_PAYLOAD : Z := 8192.

(** ** The engine *)

Record Engine := mkEngine {
  e_conv : Z;
  config : Config;
  e_state : State;
  state_begin_time : Z;
  last_incoming_time : Z;
  last_ping_time : Z;
  mss : Z;
  round_trip : RoundTrip;
  receiving : ReceivingWorker;
  sending : SendingWorker;
  out : list (list byte);
  input_ready : bool;
  output_ready : bool;
  wake_data : bool
}.

Inductive WriteBlocked := Closed | Full.

(** Panics where the subtraction or a division does. *)
Definition Engine_new (conv : Z) (c : Config) : total Engine :=
  if (mtu c <? DATA_OVERHEAD) || (tti c =? 0) || (1000 / tti c =? 0) then Panic
  else
    Ok (mkEngine conv c Active 0 0 0 (mtu c - DATA_OVERHEAD) (mkRoundTrip 0 0 100 (tti c) 0)
          (ReceivingWorker_new c) (SendingWorker_new c) [] false false false).

Definition set_sending (e : Engine) (w : SendingWorker) : Engine :=
  mkEngine (e_conv e) (config e) (e_state e) (state_begin_time e) (last_incoming_time e)
    (last_ping_time e) (mss e) (round_trip e) (receiving e) w (out e) (input_ready e)
    (output_ready e) (wake_data e).
Definition set_receiving (e : Engine) (w : ReceivingWorker) : Engine :=
  mkEngine (e_conv e) (config e) (e_state e) (state_begin_time e) (last_incoming_time e)
    (last_ping_time e) (mss e) (round_trip e) w (sending e) (out e) (input_ready e)
    (output_ready e) (wake_data e).
Definition set_round_trip (e : Engine) (r : RoundTrip) : Engine :=
  mkEngine (e_conv e) (config e) (e_state e) (state_begin_time e) (last_incoming_time e)
    (last_ping_time e) (mss e) r (receiving e) (sending e) (out e) (input_ready e)
    (output_ready e) (wake_data e).
Definition set_out (e : Engine) (o : list (list byte)) : Engine :=
  mkEngine (e_conv e) (config e) (e_state e) (state_begin_time e) (last_incoming_time e)
    (last_ping_time e) (mss e) (round_trip e) (receiving e) (sending e) o (input_ready e)
    (output_ready e) (wake_data e).
Definition set_signals (e : Engine) (i o w : bool) : Engine :=
  mkEngine (e_conv e) (config e) (e_state e) (state_begin_time e) (last_incoming_time e)
    (last_ping_time e) (mss e) (round_trip e) (receiving e) (sending e) (out e) i o w.
Definition set_times (e : Engine) (incoming ping : Z) : Engine :=
  mkEngine (e_conv e) (config e) (e_state e) (state_begin_time e) incoming
    ping (mss e) (round_trip e) (receiving e) (sending e) (out e) (input_ready e)
    (output_ready e) (wake_data e).

Definition data_update_necessary (e : Engine) : bool :=
  negb (terminating (e_state e))
  && (negb (bool_decide (length (sw_window (sending e)) = 0%nat)) || update_necessary (receiving e)).

Definition data_update_terminated (e : Engine) : bool := terminating (e_state e).

Definition set_state (e : Engine) (s : State) (current : Z) : Engine :=
  let e :=
    mkEngine (e_conv e) (config e) s current (last_incoming_time e) (last_ping_time e) (mss e)
      (round_trip e) (receiving e) (sending e) (out e) (input_ready e) (output_ready e)
      (wake_data e) in
  match s with
  | Active | ReadyToClose => e
  | PeerClosed | Terminating | PeerTerminating => set_sending e (close_write (sending e))
  | Terminated =>
    let e := set_sending e (close_write (sending e)) in
    let e := set_signals e true true true in
    let e := set_sending e (sw_release (sending e)) in
    set_receiving e (rw_release (receiving e))
  end.

Definition close (e : Engine) (current : Z) : bool * Engine :=
  let e := set_signals e true true (wake_data e) in
  match e_state e with
  | ReadyToClose | Terminating | Terminated => (false, e)
  | Active => (true, set_state e ReadyToClose current)
  | PeerClosed => (true, set_state e Terminating current)
  | PeerTerminating => (true, set_state e Terminated current)
  end.

(** Reads into a buffer of [n] bytes; [None] is the end of the stream. *)
Definition read (e : Engine) (n : nat) : option (list byte) * Engine :=
  match e_state e with
  | ReadyToClose | Terminating | Terminated => (None, e)
  | _ =>
    let '(bytes, w) := rw_read (receiving e) n in
    let e := set_receiving e w in
    if (0 <? length bytes)%nat then
      (Some bytes, set_signals e (input_ready e) (output_ready e) true)
    else if bool_decide (e_state e = PeerTerminating) then (None, e)
    else (Some [], e)
  end.

(** The loop over the pieces. *)
Fixpoint write_loop (pieces : list (list byte)) (e : Engine) (written : Z) : Z * Engine :=
  match pieces with
  | [] => (written, e)
  | piece :: pieces =>
    if negb (bool_decide (e_state e = Active)) then (written, e)
    else
      let '(pushed, w) := sw_push (sending e) piece in
      if negb pushed then (written, e)
      else write_loop pieces (set_sending e w) (written + len piece)
  end.

(** [chunks(0)] panics. *)
Definition write (e : Engine) (data : list byte) : res WriteBlocked Z * Engine :=
  let chunk := Z.min (mss e) MAX_SEGMENT_PAYLOAD in
  if chunk =? 0 then (Panic, e)
  else
    let '(written, e) := write_loop (chunks (Z.to_nat chunk) data) e 0 in
    if 0 <? written then (Ok written, set_signals e (input_ready e) (output_ready e) true)
    else (Err (if bool_decide (e_state e = Active) then Full else Closed), e).

Definition on_peer_closed (e : Engine) (current : Z) : Engine :=
  match e_state e with
  | ReadyToClose => set_state e Terminating current
  | Active => set_state e PeerClosed current
  | _ => e
  end.

Definition handle_option (e : Engine) (option : byte) (current : Z) : Engine :=
  if Z.land (u8 option) (u8 OPTION_CLOSE) =? u8 OPTION_CLOSE then on_peer_closed e current else e.

Definition input_data (e : Engine) (s : DataSegment) (current : Z) : total Engine :=
  let e := handle_option e (ds_option s) current in
  let? w := rw_process_segment (receiving e) s in
  let e := set_receiving e w in
  Ok (set_signals e (is_data_available w || input_ready e) (output_ready e) true).

Definition input_ack (e : Engine) (s : AckSegment) (current : Z) : Engine :=
  let e := handle_option e (as_option s) current in
  let '(w, rt) := sw_process_segment (sending e) current s (rto (round_trip e)) (round_trip e) in
  let e := set_round_trip (set_sending e w) rt in
  set_signals e (input_ready e) true true.

Definition input_cmd (e : Engine) (s : CmdSegment) (current : Z) : total Engine :=
  let e := handle_option e (cs_option s) current in
  let terminate := bool_decide (cs_cmd s = CMD_TERMINATE) in
  let e :=
    if terminate then
      match e_state e with
      | Active | PeerClosed => set_state e PeerTerminating current
      | ReadyToClose => set_state e Terminating current
      | Terminating => set_state e Terminated current
      | PeerTerminating | Terminated => e
      end
    else e in
  let e :=
    if bool_decide (cs_option s = OPTION_CLOSE) || terminate
    then set_signals e true true (wake_data e) else e in
  let e := set_sending e (process_receiving_next (sending e) (cs_receiving_next s)) in
  let? a := al_clear (acks (receiving e)) (cs_sending_next s) in
  let w := receiving e in
  let e :=
    set_receiving e
      (mkReceiving (left_over w) (rw_window w) a (rw_next_number w) (rw_window_size w)) in
  Ok (set_round_trip e (update_peer_rto (round_trip e) (cs_peer_rto s) current)).

Fixpoint input_loop (segments : list Segment) (e : Engine) (current : Z) : total Engine :=
  match segments with
  | [] => Ok e
  | s :: segments =>
    if negb (conv_of s =? e_conv e) then Ok e
    else
      let? e :=
        match s with
        | Data s => input_data e s current
        | Ack s => Ok (input_ack e s current)
        | Cmd s => input_cmd e s current
        end in
      input_loop segments e current
  end.

Definition input (e : Engine) (segments : list Segment) (current : Z) : total Engine :=
  input_loop segments (set_times e current (last_ping_time e)) current.

(** ** Flushing *)

Definition close_option (e : Engine) : byte :=
  if bool_decide (e_state e = ReadyToClose) then OPTION_CLOSE else x00.

Definition ping (e : Engine) (current : Z) (cmd : byte) : Engine :=
  let segment :=
    mkCmd (e_conv e) cmd (close_option e) (first_unacknowledged (sending e))
      (rw_next_number (receiving e)) (rto (round_trip e)) in
  set_times (set_out e (out e ++ [encode_cmd segment])) (last_incoming_time e) current.

(** What [flush_acks] fills in before it sends a segment. *)
Definition address_ack (e : Engine) (s : AckSegment) : AckSegment :=
  let w := receiving e in
  mkAck (e_conv e) (close_option e) (wrapping_add32 (rw_next_number w) (rw_window_size w))
    (rw_next_number w) (as_timestamp s) (as_numbers s) (as_limit s).

Definition flush_acks (e : Engine) (current : Z) : total Engine :=
  let w := receiving e in
  let? (a, segments) := al_flush (acks w) current (rto (round_trip e)) in
  let e' :=
    set_receiving e
      (mkReceiving (left_over w) (rw_window w) a (rw_next_number w) (rw_window_size w)) in
  Ok (set_out e' (out e ++ map (fun s => encode_ack (address_ack e s)) segments)).

(** The loop over the window: the sent datagrams, the window after it, and the
    counters [total_in_flight_size], [lost] and [in_flight]. *)
Fixpoint send_loop (e : Engine) (current cwnd : Z) (l : list Unacked) (total lost in_flight : Z)
    : list (list byte) * list Unacked * Z * Z * Z :=
  match l with
  | [] => ([], [], total, lost, in_flight)
  | s :: r =>
    if 0x7FFFFFFF <=? wrapping_sub32 current (ua_timeout s) then
      let '(sent, r, total, lost, in_flight) := send_loop e current cwnd r total lost in_flight in
      (sent, s :: r, total, lost, in_flight)
    else
      let '(total, lost) :=
        if ua_transmit s =? 0 then (wrapping_add32 total 1, lost)
        else (total, wrapping_add32 lost 1) in
      let s :=
        mkUnacked (ua_number s) current (ua_payload s)
          (wrapping_add32 current (rto (round_trip e))) (wrapping_add32 (ua_transmit s) 1) in
      let datagram :=
        encode_data (mkDataHeader (e_conv e) (close_option e) (ua_timestamp s) (ua_number s)
                       (first_unacknowledged (sending e))) (ua_payload s) in
      let in_flight := in_flight + 1 in
      if cwnd <=? in_flight then ([datagram], s :: r, total, lost, in_flight)
      else
        let '(sent, r, total, lost, in_flight) :=
          send_loop e current cwnd r total lost in_flight in
        (datagram :: sent, s :: r, total, lost, in_flight)
  end.

Definition send_window (e : Engine) : Z :=
  let w := sending e in
  let cwnd := sending_in_flight_size (config e) in
  let cwnd := Z.min cwnd (wrapping_sub32 (remote_next_number w) (first_unacknowledged w)) in
  let cwnd := Z.min cwnd (control_window w) in
  wrapping_mul32 cwnd (cwnd_multiplier (config e)).

Definition flush_data (e : Engine) (current : Z) : Engine :=
  let w := sending e in
  if closed w then e
  else
    let e :=
      if bool_decide (length (sw_window w) = 0%nat) then e
      else
        let '(sent, l, total, lost, in_flight) :=
          send_loop e current (send_window e) (sw_window w) (total_in_flight_size w) 0 0 in
        let w :=
          mkSending l total (first_unacknowledged w) (sw_next_number w) (remote_next_number w)
            (control_window w) (sw_window_size w) (first_unacknowledged_updated w) (closed w) in
        let w :=
          if (0 <? in_flight) && negb (total =? 0)
          then on_packet_loss w (wrapping_mul32 lost 100 / total) (rto (round_trip e)) (config e)
          else w in
        let w :=
          mkSending (sw_window w) (total_in_flight_size w) (first_unacknowledged w)
            (sw_next_number w) (remote_next_number w) (control_window w) (sw_window_size w)
            false (closed w) in
        set_out (set_sending e w) (out e ++ sent) in
    let w := sending e in
    let updated := first_unacknowledged_updated w in
    let e :=
      set_sending e
        (mkSending (sw_window w) (total_in_flight_size w) (first_unacknowledged w)
           (sw_next_number w) (remote_next_number w) (control_window w) (sw_window_size w)
           false (closed w)) in
    if updated then ping e current CMD_PING else e.

(** The part of [flush] before anything is sent. *)
Definition flush_idle (e : Engine) (current : Z) : Engine :=
  let e :=
    if bool_decide (e_state e = Active)
       && (30000 <=? wrapping_sub32 current (last_incoming_time e))
    then snd (close e current) else e in
  if bool_decide (e_state e = ReadyToClose) && bool_decide (length (sw_window (sending e)) = 0%nat)
  then set_state e Terminating current else e.

Definition flush (e : Engine) (current : Z) : total Engine :=
  if bool_decide (e_state e = Terminated) then Ok e
  else
    let e := flush_idle e current in
    if bool_decide (e_state e = Terminating) then
      let e := ping e current CMD_TERMINATE in
      Ok (if 8000 <? wrapping_sub32 current (state_begin_time e)
          then set_state e Terminated current else e)
    else
      let e :=
        if bool_decide (e_state e = PeerTerminating)
           && (4000 <? wrapping_sub32 current (state_begin_time e))
        then set_state e Terminating current else e in
      let e :=
        if bool_decide (e_state e = ReadyToClose)
           && (15000 <? wrapping_sub32 current (state_begin_time e))
        then set_state e Terminating current else e in
      let? e := flush_acks e current in
      let e := flush_data e current in
      Ok (if 3000 <=? wrapping_sub32 current (last_ping_time e)
          then ping e current CMD_PING else e).

(** ** The acknowledgement list *)

(** The three vectors have one length. *)
Definition acks_ok (m : Z) (a : AckList) : Prop :=
  length (timestamps a) = length (numbers a) /\ length (next_flush a) = length (numbers a)
  /\ al_mtu a = m.

Lemma load_ok {A} (l : list A) i : (i < length l)%nat -> exists x, load l i = Ok x.
Proof. intros [x Hx]%lookup_lt_is_Some_2. exists x. unfold load. by rewrite Hx. Qed.

Lemma store_ok {A} (l : list A) i x : (i < length l)%nat -> store l i x = Ok (<[i := x]> l).
Proof. intros Hi. unfold store. by rewrite (proj2 (Nat.ltb_lt _ _) Hi). Qed.

Lemma clear_loop_ok m una n i count a :
  acks_ok m a -> (i + n = length (numbers a))%nat -> (count <= i)%nat ->
  exists count' a', clear_loop n i count una a = Ok (count', a') /\ acks_ok m a'
    /\ length (numbers a') = length (numbers a) /\ (count' <= length (numbers a))%nat.
Proof.
  revert i count a. induction n as [|n IH]; intros i count a Ha Hi Hc; cbn [clear_loop].
  - exists count, a. split_and!; [done..|]. lia.
  - pose proof Ha as (Ht & Hf & Hm).
    destruct (load_ok (numbers a) i) as [x ->]; [lia|]. cbn [res_bind].
    case_if; [apply IH; [done | lia..]|].
    destruct (load_ok (timestamps a) i) as [t Et]; [lia|].
    destruct (load_ok (next_flush a) i) as [f Ef]; [lia|].
    rewrite store_ok by lia. cbn [res_bind]. rewrite Et. cbn [res_bind].
    rewrite store_ok by lia. cbn [res_bind]. rewrite Ef. cbn [res_bind].
    rewrite store_ok by lia. cbn [res_bind].
    destruct (IH (S i) (S count) (mkAckList (<[count:=t]> (timestamps a)) (<[count:=x]> (numbers a))
      (<[count:=f]> (next_flush a)) (flush_candidates a) (dirty a) (al_mtu a)))
      as (c' & a' & E & Hok & Hl & Hc'); simpl; rewrite ?length_insert; try lia.
    + unfold acks_ok. simpl. rewrite !length_insert. done.
    + exists c', a'. simpl in *. rewrite length_insert in *. done.
Qed.

Lemma al_clear_ok m a una : acks_ok m a -> exists a', al_clear a una = Ok a' /\ acks_ok m a'.
Proof.
  intros Ha. unfold al_clear.
  destruct (clear_loop_ok m una (length (numbers a)) 0 0 a Ha) as (c & a' & -> & Hok & Hl & Hc);
    [lia..|]. cbn [res_bind]. case_if; [|by eexists]. eexists. split; [done|].
  destruct Hok as (Ht & Hf & Hm). unfold acks_ok. simpl. rewrite !length_take. split_and!; [lia..|done].
Qed.

(** A segment that may be sent: addressed later, with at most the numbers its
    datagram has room for. *)
Definition ack_fits (m : Z) (s : AckSegment) : Prop :=
  as_limit s = as_limit (AckSegment_new (Z.quot (m - 17) 4)) /\ len (as_numbers s) <= as_limit s.

Lemma limit_pos n : 1 <= as_limit (AckSegment_new n) <= 128.
Proof. simpl. unfold ACK_NUMBER_LIMIT. lia. Qed.

Lemma put_timestamp_numbers s t :
  as_numbers (put_timestamp s t) = as_numbers s /\ as_limit (put_timestamp s t) = as_limit s.
Proof. unfold put_timestamp. by case_if. Qed.

Lemma flush_loop_ok m current r n i a seg written :
  acks_ok m a -> (i + n = length (numbers a))%nat ->
  ack_fits m seg -> len (as_numbers seg) < as_limit seg -> Forall (ack_fits m) written ->
  exists a' seg' written', flush_loop n i current r a seg written = Ok (a', seg', written')
    /\ acks_ok m a' /\ ack_fits m seg' /\ Forall (ack_fits m) written'.
Proof.
  revert i a seg written. induction n as [|n IH]; intros i a seg written Ha Hi Hs Hlt Hw;
    cbn [flush_loop]; [by exists a, seg, written|].
  pose proof Ha as (Ht & Hf & Hm).
  destruct (load_ok (next_flush a) i) as [due ->]; [lia|]. cbn [res_bind].
  destruct (load_ok (numbers a) i) as [x ->]; [lia|]. cbn [res_bind].
  case_if.
  - apply IH; try done; [by case_if | case_if; simpl; lia].
  - destruct (load_ok (timestamps a) i) as [t ->]; [lia|]. cbn [res_bind].
    rewrite store_ok by lia. cbn [res_bind].
    set (seg1 := put_timestamp (push_number seg x) t).
    destruct (put_timestamp_numbers (push_number seg x) t) as [En El].
    fold seg1 in En, El. simpl in En, El.
    assert (ack_fits m seg1) as Hs1.
    { destruct Hs as [Hs1 Hs2]. split; [by rewrite El|]. rewrite En, El. len_simpl. lia. }
    set (fs := <[i:=wrapping_add32 current (Z.max (r / 2) 20)]> (next_flush a)).
    assert (acks_ok m (mkAckList (timestamps a) (numbers a) fs (flush_candidates a)
      (if is_full seg1 then false else dirty a) (al_mtu a))) as Ha'
      by (unfold acks_ok, fs; simpl; by rewrite length_insert).
    destruct (is_full seg1) eqn:Ef.
    + apply IH; try done; [simpl; lia | | |].
      * unfold new_segment. simpl. rewrite Hm. split; [done|]. pose proof (limit_pos (Z.quot (m - 17) 4)).
        simpl in *. unfold len. simpl. lia.
      * unfold new_segment. simpl. unfold len, ACK_NUMBER_LIMIT. simpl. lia.
      * apply Forall_app. split; [done|]. by constructor.
    + apply IH; try done; [simpl; lia|]. unfold is_full in Ef. unbool. destruct Hs1. lia.
Qed.

Lemma add_candidates_fits m s l : ack_fits m s -> ack_fits m (add_candidates s l).
Proof.
  revert s. induction l as [|x l IH]; intros s Hs; simpl; [done|]. case_if; [done|].
  apply IH. destruct Hs as [Hl Hn]. unfold is_full in Heqb. unbool. split; [done|].
  simpl. len_simpl. lia.
Qed.

Lemma al_flush_ok m a current r :
  acks_ok m a -> exists a' ss, al_flush a current r = Ok (a', ss) /\ acks_ok m a'
    /\ Forall (ack_fits m) ss.
Proof.
  intros (Ht & Hf & Hm). unfold al_flush.
  set (a0 := mkAckList (timestamps a) (numbers a) (next_flush a) [] (dirty a) (al_mtu a)).
  pose proof (limit_pos (Z.quot (m - 17) 4)) as Hlim.
  destruct (flush_loop_ok m current r (length (numbers a0)) 0 a0 (new_segment a0) [])
    as (a' & seg & ws & -> & Ha & Hs & Hw).
  - done.
  - done.
  - unfold new_segment. simpl. rewrite Hm. split; [done|]. simpl in *. unfold len. simpl. lia.
  - unfold new_segment. simpl. unfold len, ACK_NUMBER_LIMIT. simpl. lia.
  - constructor.
  - cbn [res_bind]. case_if; eexists _, _; (split; [done|]); [|done]. split; [done|].
    apply Forall_app. split; [done|]. constructor; [|constructor]. by apply add_candidates_fits.
Qed.

(** ** What the operations leave alone *)

(** Every segment of [l'] was in [l]; only its timers may have moved. *)
Definition same_data (l l' : list Unacked) : Prop :=
  forall u, In u l' -> exists v, In v l /\ ua_number v = ua_number u /\ ua_payload v = ua_payload u.

#[export] Instance same_data_preorder : PreOrder same_data.
Proof.
  split.
  - intros l u Hu. by exists u.
  - intros l k j Hlk Hkj u (v & Hv & Hn & Hp)%Hkj. destruct (Hlk v Hv) as (x & Hx & Hn' & Hp').
    exists x. split_and!; [done | congruence..].
Qed.

Lemma same_data_incl l l' : incl l' l -> same_data l l'.
Proof. intros Hi u Hu. exists u. split_and!; [by apply Hi | done..]. Qed.

(** A step of the sending worker that sends nothing new. *)
Definition keeps (w w' : SendingWorker) : Prop :=
  same_data (sw_window w) (sw_window w') /\ sw_next_number w' = sw_next_number w.

#[export] Instance keeps_preorder : PreOrder keeps.
Proof.
  split; [by intros w; split|]. intros w1 w2 w3 [H1 E1] [H2 E2].
  split; [by etrans | by rewrite E2].
Qed.

Lemma drop_below_incl una l : incl (drop_below una l) l.
Proof.
  induction l as [|s l IH]; simpl; [apply incl_refl|]. case_if; [by apply incl_tl | apply incl_refl].
Qed.

Lemma remove_number_incl n l l' : remove_number n l = Some l' -> incl l' l.
Proof.
  revert l'. induction l as [|s l IH]; intros l'; simpl; [done|]. case_if; [done|]. case_if.
  - intros [= <-]. by apply incl_tl, incl_refl.
  - intros (k & Hk & ->)%fmap_Some. apply incl_cons; [by left|]. by apply incl_tl, IH.
Qed.

Lemma fast_ack_data n r l : same_data l (fast_ack n r l).
Proof.
  induction l as [|s l IH]; simpl; [done|]. case_if; [done|]. intros u [Hu|Hu].
  - exists s. split; [by left|]. subst u. by case_if.
  - destruct (IH u Hu) as (v & Hv & ?). exists v. split; [by right | done].
Qed.

Lemma keeps_clear w una : keeps w (sw_clear w una).
Proof. split; [|done]. apply same_data_incl, drop_below_incl. Qed.

Lemma keeps_process_next w n : keeps w (process_receiving_next w n).
Proof. exact (keeps_clear w n). Qed.

Lemma keeps_process_ack w n : keeps w (snd (process_ack w n)).
Proof.
  unfold process_ack. case_if; [done|]. unfold sw_remove.
  destruct (remove_number n (sw_window w)) as [l|] eqn:E; [|done]. simpl.
  split; [|done]. simpl. apply same_data_incl. by eapply remove_number_incl.
Qed.

Lemma keeps_ack_fold ns st : keeps (fst (fst st)) (fst (fst (fold_left ack_step ns st))).
Proof.
  revert st. induction ns as [|n ns IH]; intros [[w m] r]; [done|]. cbn [fold_left].
  etrans; [|apply IH]. unfold ack_step. pose proof (keeps_process_ack w n) as Hk.
  destruct (process_ack w n) as [b w']. by case_if.
Qed.

Lemma keeps_process_segment w current s r rt :
  keeps w (fst (sw_process_segment w current s r rt)).
Proof.
  unfold sw_process_segment. case_if; [done|].
  match goal with |- context [process_receiving_next ?x ?n] =>
    pose proof (keeps_process_next x n) as Hn; set (w1 := process_receiving_next x n) in * end.
  assert (keeps w w1) as H1 by exact Hn. clear Hn. case_if; [done|].
  pose proof (keeps_ack_fold (as_numbers s) (w1, 0, false)) as Hf. simpl in Hf.
  destruct (fold_left ack_step (as_numbers s) (w1, 0, false)) as [[w2 m] b]. simpl in Hf.
  destruct b; simpl; [|by etrans]. etrans; [exact H1|]. etrans; [exact Hf|].
  split; [apply fast_ack_data | done].
Qed.

Lemma keeps_packet_loss w l r c : keeps w (on_packet_loss w l r c).
Proof. unfold on_packet_loss. by case_if. Qed.

(** The connection's states only move forward. *)
Inductive transition : State -> State -> Prop :=
| t_close : transition Active ReadyToClose
| t_peer_close : transition Active PeerClosed
| t_peer_term : transition Active PeerTerminating
| t_closed_term : transition PeerClosed PeerTerminating
| t_drained : transition ReadyToClose Terminating
| t_closed : transition PeerClosed Terminating
| t_timeout : transition PeerTerminating Terminating
| t_both : transition PeerTerminating Terminated
| t_done : transition Terminating Terminated.

#[export] Hint Constructors transition : rust.

Definition rank (s : State) : nat :=
  match s with
  | Active => 0 | ReadyToClose | PeerClosed => 1 | PeerTerminating => 2 | Terminating => 3
  | Terminated => 4
  end.

Lemma transition_rank s s' : transition s s' -> (rank s < rank s')%nat.
Proof. destruct 1; simpl; lia. Qed.

Lemma transitions_rank s s' : rtc transition s s' -> s = s' \/ (rank s < rank s')%nat.
Proof.
  induction 1 as [|s t u Ht _ [->|IH]]; [by left | right; by apply transition_rank |].
  right. apply transition_rank in Ht. lia.
Qed.

Lemma terminated_final s : rtc transition Terminated s -> s = Terminated.
Proof. intros [|Hr]%transitions_rank; [done|]. destruct s; simpl in Hr; lia. Qed.

(** What the engine may put on the wire. *)
Inductive emitted (m : Z) (l : list Unacked) : list byte -> Prop :=
| e_cmd s : cs_cmd s <> CMD_ACK -> cs_cmd s <> CMD_DATA -> emitted m l (encode_cmd s)
| e_ack s : ack_fits m s -> emitted m l (encode_ack s)
| e_data h u : In u l -> dh_number h = ua_number u -> emitted m l (encode_data h (ua_payload u)).

Lemma emitted_mono m l l' d : same_data l l' -> emitted m l' d -> emitted m l d.
Proof.
  intros Hs [s ? ?|s ?|h u Hu Hh]; [by constructor..|].
  destruct (Hs u Hu) as (v & Hv & Hn & Hp). rewrite <- Hp. constructor; [done | congruence].
Qed.

(** A step that neither takes bytes from a writer nor gives any to a reader. *)
Record quiet (e e' : Engine) : Prop := {
  q_config : config e' = config e /\ e_conv e' = e_conv e /\ mss e' = mss e;
  q_sending : keeps (sending e) (sending e');
  q_window : rw_window (receiving e') = rw_window (receiving e)
    /\ rw_next_number (receiving e') = rw_next_number (receiving e)
    /\ rw_window_size (receiving e') = rw_window_size (receiving e);
  q_left : left_over (receiving e') = left_over (receiving e)
    \/ left_over (receiving e') = [] /\ e_state e' = Terminated;
  q_acks : forall m, acks_ok m (acks (receiving e)) -> acks_ok m (acks (receiving e'));
  q_out : exists ds, out e' = out e ++ ds
    /\ forall m, acks_ok m (acks (receiving e)) -> Forall (emitted m (sw_window (sending e))) ds;
  q_state : rtc transition (e_state e) (e_state e')
}.

#[export] Instance quiet_preorder : PreOrder quiet.
Proof.
  split.
  - intros e. split; try done; [by left|]. exists []. by rewrite app_nil_r.
  - intros e1 e2 e3 [C1 S1 W1 L1 A1 (d1 & O1 & F1) T1] [C2 S2 W2 L2 A2 (d2 & O2 & F2) T2].
    split.
    + intuition congruence.
    + by etrans.
    + intuition congruence.
    + destruct L2 as [->|?]; [|by right]. destruct L1 as [?|[? E]]; [by left|].
      right. split; [done|]. rewrite E in T2. by apply terminated_final.
    + auto.
    + exists (d1 ++ d2). rewrite O2, O1, app_assoc. split; [done|]. intros m Hm.
      apply Forall_app. split; [by apply F1|]. eapply Forall_impl; [|by apply F2, A1].
      intros d. apply emitted_mono, S1.
    + by etrans.
Qed.

(** Solves the parts of [quiet] a step does not touch. *)
Ltac quiet_tac :=
  split; simpl; try done; try (by left); try (exists []; by rewrite app_nil_r); try apply rtc_refl.

Lemma set_state_quiet e s current : transition (e_state e) s -> quiet e (set_state e s current).
Proof.
  intros Ht. destruct s; quiet_tac; try (by apply rtc_once); try apply keeps_clear.
  - split; [|done]. simpl. apply same_data_incl. intros u [].
  - by right.
Qed.

Lemma close_quiet e current : quiet e (snd (close e current)).
Proof.
  unfold close. set (e' := set_signals e true true (wake_data e)).
  assert (quiet e e') as H by quiet_tac. destruct (e_state e') eqn:E; cbn [snd]; try done;
    (etrans; [exact H|]; apply set_state_quiet; rewrite E; auto with rust).
Qed.

Lemma handle_option_quiet e o current : quiet e (handle_option e o current).
Proof.
  unfold handle_option, on_peer_closed. case_if; [|done].
  destruct (e_state e) eqn:E; try done; apply set_state_quiet; rewrite E; auto with rust.
Qed.

Lemma input_ack_quiet e s current : quiet e (input_ack e s current).
Proof.
  unfold input_ack. etrans; [apply (handle_option_quiet e (as_option s) current)|].
  set (e1 := handle_option e (as_option s) current).
  pose proof (keeps_process_segment (sending e1) current s (rto (round_trip e1)) (round_trip e1))
    as Hk. destruct (sw_process_segment _ _ _ _ _) as [w rt]. simpl in Hk. quiet_tac.
Qed.

(** Clearing acknowledged numbers. *)
Definition set_acks (e : Engine) (a : AckList) : Engine :=
  let w := receiving e in
  set_receiving e (mkReceiving (left_over w) (rw_window w) a (rw_next_number w) (rw_window_size w)).

Lemma set_acks_quiet e a :
  (forall m, acks_ok m (acks (receiving e)) -> acks_ok m a) -> quiet e (set_acks e a).
Proof. intros Ha. quiet_tac. Qed.

Lemma acks_ok_mtu m m' a : acks_ok m a -> acks_ok m' a -> m = m'.
Proof. intros (_ & _ & <-) (_ & _ & <-). done. Qed.

Lemma input_cmd_quiet e s current m :
  acks_ok m (acks (receiving e)) ->
  exists e', input_cmd e s current = Ok e' /\ quiet e e'.
Proof.
  intros Ha. unfold input_cmd. cbv zeta.
  set (e1 := handle_option e (cs_option s) current).
  pose proof (handle_option_quiet e (cs_option s) current : quiet e e1) as H1.
  match goal with |- context [if bool_decide (cs_cmd s = CMD_TERMINATE) then ?a else ?b] =>
    set (e2 := if bool_decide (cs_cmd s = CMD_TERMINATE) then a else b) end.
  assert (quiet e1 e2) as H2.
  { unfold e2. case_if; [|done].
    destruct (e_state e1) eqn:E; try done; apply set_state_quiet; rewrite E; auto with rust. }
  match goal with |- context [set_sending ?a _] => set (e3 := a) end.
  assert (quiet e2 e3) as H3 by (unfold e3; case_if; quiet_tac).
  set (e4 := set_sending e3 (process_receiving_next (sending e3) (cs_receiving_next s))).
  assert (quiet e3 e4) as H4 by (quiet_tac; apply keeps_process_next).
  assert (quiet e e4) as H by (etrans; [exact H1|]; etrans; [exact H2|]; by etrans).
  destruct (al_clear_ok m (acks (receiving e4)) (cs_sending_next s) (q_acks _ _ H m Ha))
    as (a & -> & Hok). cbn [res_bind]. eexists. split; [done|].
  etrans; [exact H|]. etrans; [apply (set_acks_quiet e4 a)|quiet_tac].
  intros m' Hm'. by rewrite <- (acks_ok_mtu m m' _ (q_acks _ _ H m Ha) Hm').
Qed.

Lemma ping_quiet e current cmd : cmd <> CMD_ACK -> cmd <> CMD_DATA -> quiet e (ping e current cmd).
Proof.
  intros Ha Hd. split; simpl; try done; [by left|]. eexists. split; [done|].
  intros m _. constructor; [|constructor]. by constructor.
Qed.

Lemma flush_acks_quiet e current m :
  acks_ok m (acks (receiving e)) -> exists e', flush_acks e current = Ok e' /\ quiet e e'.
Proof.
  intros Ha. unfold flush_acks.
  destruct (al_flush_ok m (acks (receiving e)) current (rto (round_trip e)) Ha)
    as (a & ss & -> & Hok & Hf). cbn [res_bind]. eexists. split; [done|].
  split; simpl; try done; [by left | |].
  - intros m' Hm'. by rewrite <- (acks_ok_mtu m m' _ Ha Hm').
  - eexists. split; [done|]. intros m' Hm'. rewrite <- (acks_ok_mtu m m' _ Ha Hm').
    apply Forall_forall. intros d (s & <- & Hs)%in_map_iff. constructor.
    exact (Forall_In _ _ s Hf Hs).
Qed.

Lemma send_loop_spec e current cwnd l total lost fl sent l' total' lost' fl' :
  send_loop e current cwnd l total lost fl = (sent, l', total', lost', fl') ->
  same_data l l'
  /\ Forall (fun d => exists h u, In u l /\ dh_number h = ua_number u
                                  /\ d = encode_data h (ua_payload u)) sent.
Proof.
  revert total lost fl sent l' total' lost' fl'.
  induction l as [|s l IH]; intros total lost fl sent l' total' lost' fl'; simpl;
    [intros; simplify_eq; by split|].
  assert (forall k, same_data l k -> forall u, ua_number u = ua_number s ->
    ua_payload u = ua_payload s -> same_data (s :: l) (u :: k)) as Hcons.
  { intros k Hk u Hn Hp x [<-|Hx]; [exists s; split; [by left | done]|].
    destruct (Hk x Hx) as (v & Hv & ?). exists v. split; [by right | done]. }
  assert (forall ds, Forall (fun d => exists h u, In u l /\ dh_number h = ua_number u
      /\ d = encode_data h (ua_payload u)) ds ->
    Forall (fun d => exists h u, In u (s :: l) /\ dh_number h = ua_number u
      /\ d = encode_data h (ua_payload u)) ds) as Hmore.
  { intros ds Hds. eapply Forall_impl; [|exact Hds]. intros d (h & u & Hu & ?).
    exists h, u. split; [by right | done]. }
  case_if.
  - destruct (send_loop _ _ _ _ _ _ _) as [[[[sent1 l1] t1] lo1] f1] eqn:E.
    intros ?; simplify_eq. apply IH in E as [Hd Hf]. split; [by apply Hcons | by apply Hmore].
  - destruct (if ua_transmit s =? 0 then _ else _) as [t0 lo0]. case_if.
    + intros ?; simplify_eq. split; [by apply Hcons|]. constructor; [|constructor].
      eexists (mkDataHeader _ _ _ _ _), s. split_and!; [by left | | reflexivity]; done.
    + destruct (send_loop _ _ _ _ _ _ _) as [[[[sent1 l1] t1] lo1] f1] eqn:E.
      intros ?; simplify_eq. apply IH in E as [Hd Hf]. split; [by apply Hcons|].
      constructor; [|by apply Hmore]. eexists (mkDataHeader _ _ _ _ _), s. split_and!; [by left | | reflexivity]; done.
Qed.

Lemma flush_data_quiet e current : quiet e (flush_data e current).
Proof.
  unfold flush_data. case_if; [done|]. cbv zeta.
  match goal with |- context [sending (if ?b then ?x else ?y)] => set (e1 := if b then x else y) end.
  assert (quiet e e1) as H1.
  { unfold e1. case_if; [done|].
    destruct (send_loop _ _ _ _ _ _ _) as [[[[sent l] tot] lost] fl] eqn:E.
    apply send_loop_spec in E as [Hd Hf]. split; simpl; try done; [|by left|].
    - split; [|case_if; [unfold on_packet_loss; by case_if|done]].
      case_if; [unfold on_packet_loss; by case_if|done].
    - exists sent. split; [done|]. intros m _. eapply Forall_impl; [|exact Hf].
      intros d (h & u & Hu & Hn & ->). by constructor. }
  match goal with |- context [ping ?x _ _] => set (e2 := x) end.
  assert (quiet e1 e2) as H2 by quiet_tac.
  etrans; [exact H1|]. etrans; [exact H2|]. case_if; [|done]. by apply ping_quiet.
Qed.

Lemma flush_idle_quiet e current : quiet e (flush_idle e current).
Proof.
  unfold flush_idle. cbv zeta.
  match goal with |- context [e_state (if ?b then ?x else ?y) = ReadyToClose] =>
    set (e1 := if b then x else y) end.
  assert (quiet e e1) as H1 by (unfold e1; case_if; [apply close_quiet | done]).
  etrans; [exact H1|]. case_if; [|done]. unbool. apply set_state_quiet.
  rewrite H. auto with rust.
Qed.

Lemma flush_quiet e current m :
  acks_ok m (acks (receiving e)) -> exists e', flush e current = Ok e' /\ quiet e e'.
Proof.
  intros Ha. unfold flush. case_if; [by exists e|]. cbv zeta.
  set (e1 := flush_idle e current). pose proof (flush_idle_quiet e current : quiet e e1) as H1.
  case_if; unbool.
  - eexists. split; [done|]. etrans; [exact H1|].
    pose proof (ping_quiet e1 current CMD_TERMINATE ltac:(done) ltac:(done)) as H2.
    case_if; [|done]. etrans; [exact H2|]. apply set_state_quiet. simpl. rewrite Heqb0.
    auto with rust.
  - match goal with |- context [e_state (if ?b then ?x else ?y) = ReadyToClose] =>
      set (e2 := if b then x else y) end.
    assert (quiet e1 e2) as H2.
    { unfold e2. case_if; [|done]. unbool. apply set_state_quiet. rewrite H. auto with rust. }
    match goal with |- context [flush_acks ?x _] => set (e3 := x) end.
    assert (quiet e2 e3) as H3.
    { unfold e3. case_if; [|done]. unbool. apply set_state_quiet. rewrite H. auto with rust. }
    assert (quiet e e3) as H by (etrans; [exact H1|]; by etrans).
    destruct (flush_acks_quiet e3 current m (q_acks _ _ H m Ha)) as (e4 & -> & H4).
    cbn [res_bind]. eexists. split; [done|]. etrans; [exact H|]. etrans; [exact H4|].
    etrans; [apply (flush_data_quiet e4 current)|]. case_if; [|done]. by apply ping_quiet.
Qed.

(** A step that takes no bytes from a writer. *)
Record calm (e e' : Engine) : Prop := {
  c_config : config e' = config e /\ e_conv e' = e_conv e /\ mss e' = mss e;
  c_sending : keeps (sending e) (sending e');
  c_size : rw_window_size (receiving e') = rw_window_size (receiving e);
  c_acks : forall m, acks_ok m (acks (receiving e)) -> acks_ok m (acks (receiving e'));
  c_out : exists ds, out e' = out e ++ ds
    /\ forall m, acks_ok m (acks (receiving e)) -> Forall (emitted m (sw_window (sending e))) ds;
  c_state : rtc transition (e_state e) (e_state e')
}.

Lemma quiet_calm e e' : quiet e e' -> calm e e'.
Proof. intros [? ? (_ & _ & ?) ? ? ? ?]. by split. Qed.

#[export] Instance calm_preorder : PreOrder calm.
Proof.
  split.
  - intros e. by apply quiet_calm.
  - intros e1 e2 e3 [C1 S1 W1 A1 (d1 & O1 & F1) T1] [C2 S2 W2 A2 (d2 & O2 & F2) T2].
    split; [intuition congruence | by etrans | congruence | auto | | by etrans].
    exists (d1 ++ d2). rewrite O2, O1, app_assoc. split; [done|]. intros m Hm.
    apply Forall_app. split; [by apply F1|]. eapply Forall_impl; [|by apply F2, A1].
    intros d. apply emitted_mono, S1.
Qed.

Lemma al_add_ok m a n t : acks_ok m a -> acks_ok m (al_add a n t).
Proof.
  intros (Ht & Hf & Hm). unfold acks_ok. simpl. rewrite !length_app. simpl. split_and!; [lia..|done].
Qed.

(** What accepting a data segment does to the receiving side. *)
Definition accept (w : ReceivingWorker) (s : DataSegment) : gmap Z (list byte) :=
  if rw_window_size w <=? wrapping_sub32 (ds_number s) (rw_next_number w) then rw_window w
  else match rw_window w !! ds_number s with
       | Some _ => rw_window w
       | None => <[ds_number s := ds_payload s]> (rw_window w)
       end.

Lemma rw_process_spec m w s :
  acks_ok m (acks w) ->
  exists w', rw_process_segment w s = Ok w' /\ acks_ok m (acks w') /\ rw_window w' = accept w s
    /\ left_over w' = left_over w /\ rw_next_number w' = rw_next_number w
    /\ rw_window_size w' = rw_window_size w.
Proof.
  intros Ha. unfold rw_process_segment, accept. case_if; [by exists w|].
  destruct (al_clear_ok m (acks w) (ds_sending_next s) Ha) as (a & -> & Hok). cbn [res_bind].
  eexists. split; [done|]. split_and!; try done. by apply al_add_ok.
Qed.

Lemma input_data_spec e s current m :
  acks_ok m (acks (receiving e)) ->
  exists e1 e', input_data e s current = Ok e' /\ quiet e e1 /\ calm e e'
    /\ e_state e' = e_state e1
    /\ rw_window (receiving e') = accept (receiving e1) s
    /\ left_over (receiving e') = left_over (receiving e1)
    /\ rw_next_number (receiving e') = rw_next_number (receiving e1).
Proof.
  intros Ha. unfold input_data. cbv zeta. set (e1 := handle_option e (ds_option s) current).
  pose proof (handle_option_quiet e (ds_option s) current : quiet e e1) as H1.
  destruct (rw_process_spec m (receiving e1) s (q_acks _ _ H1 m Ha))
    as (w & -> & Hok & Hw & Hl & Hn & Hs). cbn [res_bind].
  exists e1. eexists. split; [done|]. split; [done|]. split; [|done].
  etrans; [by apply quiet_calm|]. split; simpl; try done.
  - intros m' Hm'. by rewrite <- (acks_ok_mtu m m' _ (q_acks _ _ H1 m Ha) Hm').
  - exists []. rewrite app_nil_r. by split.
Qed.

Lemma input_calm e ss current m :
  acks_ok m (acks (receiving e)) -> exists e', input_loop ss e current = Ok e' /\ calm e e'.
Proof.
  revert e. induction ss as [|s ss IH]; intros e Ha; cbn [input_loop]; [by exists e|].
  case_if; [by exists e|].
  assert (exists e1, match s with
      | Data s => input_data e s current
      | Ack s => Ok (input_ack e s current)
      | Cmd s => input_cmd e s current
      end = Ok e1 /\ calm e e1) as (e1 & -> & H1).
  { destruct s as [s|s|s].
    - destruct (input_data_spec e s current m Ha) as (_ & e' & -> & _ & Hc & _). by exists e'.
    - eexists. split; [done|]. apply quiet_calm, input_ack_quiet.
    - destruct (input_cmd_quiet e s current m Ha) as (e' & -> & Hq). exists e'.
      split; [done|]. by apply quiet_calm. }
  cbn [res_bind]. destruct (IH e1) as (e' & -> & H2); [by apply (c_acks _ _ H1)|].
  exists e'. split; [done|]. by etrans.
Qed.

Lemma set_times_quiet e a b : quiet e (set_times e a b).
Proof. quiet_tac. Qed.

(** ** The reader's side *)

(** Where [drain] stops: [n] more entries were in the window, in order. *)
Lemma drain_spec (hist : list (list byte)) fuel window n left :
  (forall k p, window !! k = Some p -> exists i, k = Z.of_nat i /\ (n <= i)%nat /\ hist !! i = Some p) ->
  len hist < 4294967296 ->
  exists n' window', drain fuel window (Z.of_nat n) left
    = (window', Z.of_nat n', left ++ concat (take (n' - n) (drop n hist)))
  /\ (n <= n')%nat /\ (n' <= Nat.max n (length hist))%nat
  /\ (forall k p, window' !! k = Some p ->
        exists i, k = Z.of_nat i /\ (n' <= i)%nat /\ hist !! i = Some p).
Proof.
  revert window n left. induction fuel as [|fuel IH]; intros window n left Hw Hh.
  { exists n, window. rewrite Nat.sub_diag. simpl. rewrite app_nil_r. split_and!; [done | lia..|done]. }
  cbn [drain]. destruct (window !! Z.of_nat n) as [p|] eqn:Ep.
  2: { exists n, window. rewrite Nat.sub_diag. simpl. rewrite app_nil_r. split_and!; [done | lia..|done]. }
  destruct (Hw _ _ Ep) as (i & Ei & _ & Hi). apply Nat2Z.inj in Ei as <-.
  pose proof (lookup_lt_Some _ _ _ Hi) as Hlt.
  replace (wrapping_add32 (Z.of_nat n) 1) with (Z.of_nat (S n))
    by (unfold wrapping_add32, wrap32, len in *; rewrite Z.mod_small; lia).
  destruct (IH (delete (Z.of_nat n) window) (S n) (left ++ p)) as (n' & w' & -> & H1 & H2 & H3).
  - intros k q Hk. apply lookup_delete_Some in Hk as [Hne Hk].
    destruct (Hw _ _ Hk) as (i & -> & Hni & Hq). exists i. split_and!; [done | | done].
    assert (n <> i) by congruence. lia.
  - done.
  - exists n', w'. split; [|split_and!; [lia..|done]]. f_equal. rewrite <- app_assoc. f_equal.
    replace (n' - n)%nat with (S (n' - S n)) by lia. rewrite (drop_S _ _ _ Hi). done.
Qed.

(** The loop has fuel enough: it stops where the next segment is missing. *)
Lemma drain_stops fuel window next pending :
  (size window <= fuel)%nat ->
  let '(window', next', _) := drain fuel window next pending in window' !! next' = None.
Proof.
  revert window next pending. induction fuel as [|fuel IH]; intros window next pending Hs; simpl.
  - assert (window = ∅) as -> by (apply map_size_empty_inv; lia). apply lookup_empty.
  - destruct (window !! next) as [p|] eqn:E; [|done]. apply IH.
    rewrite map_size_delete, E. simpl. lia.
Qed.

(** The bytes of the pieces [hist] that a peer has been given. *)
Record recv_ok (hist : list (list byte)) (got : list byte) (e : Engine) (n : nat) : Prop := {
  r_next : rw_next_number (receiving e) = Z.of_nat n;
  r_bound : (n <= length hist)%nat;
  r_prefix : got `prefix_of` concat (take n hist);
  r_left : e_state e <> Terminated -> got ++ left_over (receiving e) = concat (take n hist);
  r_window : forall k p, rw_window (receiving e) !! k = Some p ->
    exists i, k = Z.of_nat i /\ (n <= i)%nat /\ hist !! i = Some p
}.

Lemma recv_ok_quiet hist got e e' n : quiet e e' -> recv_ok hist got e n -> recv_ok hist got e' n.
Proof.
  intros [_ _ (Hw & Hn & _) Hl _ _ Ht] [R1 R2 R3 R4 R5]. split.
  - congruence.
  - done.
  - done.
  - intros Hs. destruct Hl as [->|[_ ?]]; [|done]. apply R4. intros E. rewrite E in Ht.
    by apply terminated_final in Ht.
  - by rewrite Hw.
Qed.

(** The peer's pieces, numbered: what a data segment on the wire carries. *)
Definition seg_ok (hist : list (list byte)) (s : Segment) : Prop :=
  match s with
  | Data s => exists i, hist !! i = Some (ds_payload s) /\ ds_number s = Z.of_nat i
  | _ => True
  end.

(** Old, repeated and early segments do no harm. *)
Lemma accept_ok hist got e n s k p :
  recv_ok hist got e n -> seg_ok hist (Data s) ->
  len hist + rw_window_size (receiving e) <= 4294967296 ->
  accept (receiving e) s !! k = Some p ->
  exists i, k = Z.of_nat i /\ (n <= i)%nat /\ hist !! i = Some p.
Proof.
  intros [Hn Hb _ _ Hw] (i & Hi & Hs) Hlen. unfold accept. case_if; [apply Hw|]. unbool.
  destruct (rw_window (receiving e) !! ds_number s) as [q|] eqn:Eq; [apply Hw|].
  intros [[<- <-]|[_ Hk]]%lookup_insert_Some; [|by eapply Hw]. exists i. split_and!; try done.
  rewrite Hs, Hn in Heqb. pose proof (lookup_lt_Some _ _ _ Hi). unfold len in Hlen.
  destruct (decide (n <= i)%nat) as [|Hlt]; [done|]. exfalso.
  unfold wrapping_sub32, wrap32 in Heqb.
  pose proof (Z.mod_pos_bound (Z.of_nat i - Z.of_nat n) 4294967296 eq_refl).
  rewrite <- (Z.mod_unique_pos (Z.of_nat i - Z.of_nat n) 4294967296 (-1)
    (Z.of_nat i - Z.of_nat n + 4294967296)) in Heqb by lia. lia.
Qed.

Lemma input_recv hist got e n ss current m :
  acks_ok m (acks (receiving e)) -> recv_ok hist got e n -> Forall (seg_ok hist) ss ->
  len hist + rw_window_size (receiving e) <= 4294967296 ->
  exists e', input_loop ss e current = Ok e' /\ calm e e' /\ recv_ok hist got e' n.
Proof.
  revert e. induction ss as [|s ss IH]; intros e Ha Hr Hss Hlen; cbn [input_loop]; [by exists e|].
  apply Forall_cons_iff in Hss as [Hs Hss]. case_if; [by exists e|].
  assert (exists e1, match s with
      | Data s => input_data e s current
      | Ack s => Ok (input_ack e s current)
      | Cmd s => input_cmd e s current
      end = Ok e1 /\ calm e e1 /\ recv_ok hist got e1 n) as (e1 & -> & H1 & Hr1).
  { destruct s as [s|s|s].
    - destruct (input_data_spec e s current m Ha) as (e0 & e' & -> & Hq & Hc & Est & Ew & El & En).
      exists e'. split_and!; [done..|].
      pose proof (recv_ok_quiet _ _ _ _ _ Hq Hr) as Hr0. pose proof Hr0 as [R1 R2 R3 R4 R5]. split.
      + congruence.
      + done.
      + done.
      + rewrite Est, El. done.
      + intros k p. rewrite Ew. eapply accept_ok; [done..|].
        by rewrite (proj2 (proj2 (q_window _ _ Hq))).
    - eexists. split; [done|]. pose proof (input_ack_quiet e s current) as Hq.
      split; [by apply quiet_calm | by eapply recv_ok_quiet].
    - destruct (input_cmd_quiet e s current m Ha) as (e' & -> & Hq). exists e'.
      split; [done|]. split; [by apply quiet_calm | by eapply recv_ok_quiet]. }
  cbn [res_bind]. destruct (IH e1) as (e' & -> & H2 & Hr2); try done.
  - by apply (c_acks _ _ H1).
  - by rewrite (c_size _ _ H1).
  - exists e'. split_and!; [done | by etrans | done].
Qed.

Lemma take_add {A} n m (l : list A) : take (n + m) l = take n l ++ take m (drop n l).
Proof. revert l. induction n; intros [|x l]; simpl; rewrite ?take_nil; f_equal; auto. Qed.

Lemma rw_read_recv hist got e n size bytes w :
  recv_ok hist got e n -> e_state e <> Terminated -> len hist < 4294967296 ->
  rw_read (receiving e) size = (bytes, w) ->
  exists n', recv_ok hist (got ++ bytes) (set_receiving e w) n'
    /\ rw_window_size w = rw_window_size (receiving e) /\ acks w = acks (receiving e).
Proof.
  intros [Hn Hb _ Hl Hw] Hst Hlen. specialize (Hl Hst). unfold rw_read.
  assert (exists n' window left,
    (if bool_decide (left_over (receiving e) = [])
     then drain (base.size (rw_window (receiving e))) (rw_window (receiving e))
            (rw_next_number (receiving e)) (left_over (receiving e))
     else (rw_window (receiving e), rw_next_number (receiving e), left_over (receiving e)))
    = (window, Z.of_nat n', left)
    /\ (n' <= length hist)%nat /\ got ++ left = concat (take n' hist)
    /\ (forall k p, window !! k = Some p ->
          exists i, k = Z.of_nat i /\ (n' <= i)%nat /\ hist !! i = Some p))
    as (n' & window & left & -> & Hb' & Hl' & Hw').
  { case_if; [|by exists n, (rw_window (receiving e)), (left_over (receiving e)); rewrite Hn].
    unbool. rewrite Hn.
    destruct (drain_spec hist (base.size (rw_window (receiving e))) (rw_window (receiving e)) n
      (left_over (receiving e)) Hw Hlen) as (n' & w' & -> & H1 & H2 & H3).
    eexists n', w', _. split_and!; [done | lia | | done].
    rewrite app_assoc, Hl, <- concat_app, <- take_add. do 2 f_equal. lia. }
  intros E. simplify_eq. exists n'. split; [|done].
  set (c := Nat.min size (length left)). split; simpl; try done.
  - exists (concat [drop c left]). simpl. rewrite app_nil_r, <- app_assoc, take_drop. done.
  - intros _. by rewrite <- app_assoc, take_drop.
Qed.

(** ** The writer's side *)

(** The window holds pieces of [hist] under their numbers. *)
Definition sender_ok (hist : list (list byte)) (w : SendingWorker) : Prop :=
  sw_next_number w = wrap32 (len hist)
  /\ forall u, In u (sw_window w) ->
       exists i, hist !! i = Some (ua_payload u) /\ ua_number u = wrap32 (Z.of_nat i).

Lemma sender_ok_keeps hist w w' : keeps w w' -> sender_ok hist w -> sender_ok hist w'.
Proof.
  intros [Hd Hn] [Hs Hw]. split; [congruence|]. intros u Hu.
  destruct (Hd u Hu) as (v & Hv & En & Ep). rewrite <- En, <- Ep. by apply Hw.
Qed.

Lemma sw_push_spec w p w' :
  sw_push w p = (true, w') ->
  sw_window w' = sw_window w ++ [mkUnacked (sw_next_number w) 0 p 0 0]
  /\ sw_next_number w' = wrapping_add32 (sw_next_number w) 1.
Proof. unfold sw_push. case_if; [done|]. intros. by simplify_eq/=. Qed.

Lemma wrap32_succ z : wrapping_add32 (wrap32 z) 1 = wrap32 (z + 1).
Proof. unfold wrapping_add32, wrap32. by rewrite Zplus_mod_idemp_l. Qed.

Lemma push_sender_ok hist w p w' :
  sender_ok hist w -> sw_push w p = (true, w') -> sender_ok (hist ++ [p]) w'.
Proof.
  intros [Hs Hw] [Ew En]%sw_push_spec. split.
  - rewrite En, Hs, wrap32_succ. f_equal. by len_simpl.
  - intros u. rewrite Ew, in_app_iff. intros [Hu|[<-|[]]].
    + destruct (Hw u Hu) as (i & Hi & Hu'). exists i. split; [|done].
      by apply lookup_app_l_Some.
    + exists (length hist). simpl. rewrite Hs. split; [|done]. by rewrite list_lookup_middle.
Qed.

(** Writing changes the sending worker only. *)
Definition same_but_sending (e e' : Engine) : Prop :=
  config e' = config e /\ e_conv e' = e_conv e /\ mss e' = mss e /\ e_state e' = e_state e
  /\ receiving e' = receiving e /\ out e' = out e.

Lemma write_loop_spec pieces e n n' e' hist :
  sender_ok hist (sending e) -> write_loop pieces e n = (n', e') ->
  exists k, n' = n + len (concat (take k pieces))
    /\ sender_ok (hist ++ take k pieces) (sending e') /\ same_but_sending e e'
    /\ (length (sw_window (sending e'))
        = length (sw_window (sending e)) + length (take k pieces))%nat
    /\ forall P, Forall (fun u => P (ua_payload u)) (sw_window (sending e)) -> Forall P pieces ->
         Forall (fun u => P (ua_payload u)) (sw_window (sending e')).
Proof.
  revert e n hist. induction pieces as [|p pieces IH]; intros e n hist Hs; cbn [write_loop].
  - intros [= <- <-]. exists 0%nat. simpl. rewrite app_nil_r, len_nil. split_and!; [lia | done..|lia|done].
  - assert (exists k, n = n + len (concat (take k (p :: pieces)))
      /\ sender_ok (hist ++ take k (p :: pieces)) (sending e) /\ same_but_sending e e
      /\ (length (sw_window (sending e))
          = length (sw_window (sending e)) + length (take k (p :: pieces)))%nat
      /\ forall P, Forall (fun u => P (ua_payload u)) (sw_window (sending e)) ->
           Forall P (p :: pieces) ->
           Forall (fun u => P (ua_payload u)) (sw_window (sending e))) as Hstop.
    { exists 0%nat. simpl. rewrite app_nil_r, len_nil. split_and!; [lia | done..|lia|done]. }
    case_if; [by intros [= <- <-]|].
    destruct (sw_push (sending e) p) as [[] w] eqn:Ep; [|by intros [= <- <-]].
    simpl. intros E. destruct (IH (set_sending e w) _ (hist ++ [p]) (push_sender_ok _ _ _ _ Hs Ep) E)
      as (k & -> & Hs' & Hsame & Hl & HP).
    apply sw_push_spec in Ep as [Ew _]. exists (S k). cbn [take concat]. split_and!.
    + len_simpl. lia.
    + by rewrite <- app_assoc in Hs'.
    + exact Hsame.
    + rewrite Hl. simpl. rewrite Ew, length_app. simpl. lia.
    + intros P HPw [Hp HPs]%Forall_cons_iff. apply HP; [|done]. simpl. rewrite Ew.
      apply Forall_app. split; [done|]. by constructor.
Qed.

(** ** The invariant of an engine *)

Definition config_ok (c : Config) : Prop := engine_config c = Ok c.

Lemma config_ok_bounds c : config_ok c -> 21 <= mtu c <= 8192 /\ 10 <= tti c <= 1000.
Proof. unfold config_ok, engine_config. do 2 (case_if; [done|]). unbool. lia. Qed.

(** A payload that fits one datagram. *)
Definition payload_fits (c : Config) (p : list byte) : Prop :=
  p <> [] /\ len p <= mtu c - DATA_OVERHEAD.

Record engine_ok (e : Engine) : Prop := {
  ok_config : config_ok (config e);
  ok_mss : mss e = mtu (config e) - DATA_OVERHEAD;
  ok_acks : acks_ok (mtu (config e)) (acks (receiving e));
  ok_payloads : Forall (fun u => payload_fits (config e) (ua_payload u)) (sw_window (sending e));
  ok_out : Forall (fun d => len d <= mtu (config e)) (out e)
}.

Lemma len_flat_be ns : len (flat_map (be_bytes 4) ns) = 4 * len ns.
Proof. apply len_u32s. Qed.

Lemma emitted_fits c l d :
  config_ok c -> Forall (fun u => payload_fits c (ua_payload u)) l ->
  emitted (mtu c) l d -> len d <= mtu c.
Proof.
  intros Hc Hl [s _ _|s [El Hn]|h u Hu _].
  - unfold encode_cmd. len_simpl. apply config_ok_bounds in Hc. lia.
  - unfold encode_ack. len_simpl. rewrite len_flat_be. apply config_ok_bounds in Hc as [Hm _].
    rewrite El in Hn. simpl in Hn. unfold ACK_NUMBER_LIMIT in Hn.
    rewrite Z.quot_div_nonneg in Hn by lia. pose proof (Z.mul_div_le (mtu c - 17) 4 eq_refl).
    assert (1 <= (mtu c - 17) / 4) by (apply Z.div_le_lower_bound; lia). lia.
  - unfold encode_data. len_simpl. destruct (Forall_In _ _ u Hl Hu) as [_ Hp].
    unfold DATA_OVERHEAD in Hp. lia.
Qed.

Lemma calm_ok e e' : calm e e' -> engine_ok e -> engine_ok e'.
Proof.
  intros [(Ec & _ & Em) [Hd _] _ Ha (ds & Eo & Hf) _] [O1 O2 O3 O4 O5].
  split; rewrite ?Ec; try done.
  - congruence.
  - by apply Ha.
  - apply Forall_forall. intros u (v & Hv & _ & <-)%Hd. exact (Forall_In _ _ v O4 Hv).
  - rewrite Eo. apply Forall_app. split; [done|]. eapply Forall_impl; [|by apply Hf].
    intros d. by apply emitted_fits.
Qed.

Lemma engine_new_ok conv c :
  config_ok c -> exists e, Engine_new conv c = Ok e /\ engine_ok e /\ e_state e = Active
    /\ sending e = SendingWorker_new c /\ receiving e = ReceivingWorker_new c /\ config e = c
    /\ e_conv e = conv.
Proof.
  intros Hc. destruct (config_ok_bounds c Hc) as [Hm Ht]. unfold Engine_new, DATA_OVERHEAD.
  assert (1 <= 1000 / tti c) by (apply Z.div_le_lower_bound; lia).
  guard_false by lia. eexists. split; [done|]. split_and!; try done.
Qed.

Lemma take_concat_prefix {A} k (ps : list (list A)) :
  take (length (concat (take k ps))) (concat ps) = concat (take k ps).
Proof.
  rewrite <- (take_drop k ps) at 2. rewrite concat_app. apply take_app_length.
Qed.

(** Writing takes a prefix of the data, cut into pieces. *)
Lemma write_spec e data hist :
  engine_ok e -> sender_ok hist (sending e) ->
  exists r e' ps, write e data = (r, e') /\ engine_ok e' /\ sender_ok (hist ++ ps) (sending e')
    /\ same_but_sending e e'
    /\ (length (sw_window (sending e')) = length (sw_window (sending e)) + length ps)%nat
    /\ Forall (fun p => p <> []) ps
    /\ match r with
       | Ok n => 0 < n /\ take (Z.to_nat n) data = concat ps
       | Err b => ps = [] /\ b = (if bool_decide (e_state e = Active) then Full else Closed)
       | Panic => False
       end.
Proof.
  intros Hok Hs. pose proof Hok as [O1 O2 O3 O4 O5]. destruct (config_ok_bounds _ O1) as [Hm _].
  unfold write. set (chunk := Z.min (mss e) MAX_SEGMENT_PAYLOAD).
  assert (0 < chunk /\ chunk <= mtu (config e) - DATA_OVERHEAD) as [Hc Hcm].
  { unfold chunk, MAX_SEGMENT_PAYLOAD, DATA_OVERHEAD in *. rewrite O2. lia. }
  cbv zeta. rewrite (proj2 (Z.eqb_neq chunk 0)) by lia.
  destruct (chunks_spec (Z.to_nat chunk) data ltac:(lia)) as [Hcat Hf].
  set (ps := chunks (Z.to_nat chunk) data) in *.
  destruct (write_loop ps e 0) as [n e'] eqn:E.
  destruct (write_loop_spec ps e 0 n e' hist Hs E) as (k & -> & Hs' & Hsame & Hl & HP).
  pose proof Hsame as (Ec & _ & Em & Est & Er & Eo).
  assert (Forall (fun p => p <> []) (take k ps)) as Hne
    by (apply Forall_take; eapply Forall_impl; [|exact Hf]; by intros ? []).
  assert (engine_ok e') as Hok'.
  { split; rewrite ?Ec, ?Er, ?Eo; try done; [congruence|]. apply HP; [done|].
    eapply Forall_impl; [|exact Hf]. intros p [Hp Hpl]. split; [done|]. unfold len. lia. }
  case_if; unbool; eexists _, _, (take k ps); (split; [done|]).
  - split; [by destruct Hok'|]. split_and!; try done.
    replace (Z.to_nat (0 + len (concat (take k ps)))) with (length (concat (take k ps)))
      by (unfold len; lia).
    rewrite <- Hcat at 1. apply take_concat_prefix.
  - split_and!; try done; [|by rewrite Est].
    destruct (take k ps) as [|p l]; [done|]. exfalso. apply Forall_cons_iff in Hne as [Hp _].
    simpl in Heqb. rewrite len_app in Heqb. pose proof (len_nonneg (concat l)).
    destruct p; [done|]. rewrite len_cons in Heqb. pose proof (len_nonneg p). lia.
Qed.

(** The life of an engine. *)
Inductive engine_step : Engine -> Engine -> Prop :=
| es_write e data : engine_step e (snd (write e data))
| es_read e n : engine_step e (snd (read e n))
| es_close e now : engine_step e (snd (close e now))
| es_input e ss now e' : input e ss now = Ok e' -> engine_step e e'
| es_flush e now e' : flush e now = Ok e' -> engine_step e e'
| es_send e : engine_step e (set_out e [])
| es_signal e : engine_step e (set_signals e false false false).

Lemma input_ok e ss now :
  engine_ok e -> exists e', input e ss now = Ok e' /\ calm e e'.
Proof.
  intros Hok. unfold input.
  pose proof (set_times_quiet e now (last_ping_time e)) as Hq.
  destruct (input_calm (set_times e now (last_ping_time e)) ss now (mtu (config e)))
    as (e' & -> & Hc); [apply Hok|]. exists e'. split; [done|].
  etrans; [by apply quiet_calm | done].
Qed.

Lemma read_acks e n :
  e_state (snd (read e n)) = e_state e /\ config (snd (read e n)) = config e
  /\ mss (snd (read e n)) = mss e /\ acks (receiving (snd (read e n))) = acks (receiving e)
  /\ sending (snd (read e n)) = sending e /\ out (snd (read e n)) = out e
  /\ rw_window_size (receiving (snd (read e n))) = rw_window_size (receiving e).
Proof.
  unfold read. assert (acks (snd (rw_read (receiving e) n)) = acks (receiving e)
    /\ rw_window_size (snd (rw_read (receiving e) n)) = rw_window_size (receiving e)) as [Ea Es].
  { unfold rw_read. by destruct (if bool_decide _ then _ else _) as [[? ?] ?]. }
  destruct (rw_read (receiving e) n) as [bs w]. simpl in Ea, Es.
  destruct (e_state e) eqn:E; simpl; try done; repeat case_if; simpl; done.
Qed.

(** Every engine has some history of pieces. *)
Lemma engine_step_ok e e' :
  engine_step e e' -> engine_ok e -> (exists hist, sender_ok hist (sending e)) ->
  engine_ok e' /\ (exists hist, sender_ok hist (sending e')) /\ rtc transition (e_state e) (e_state e').
Proof.
  intros Hs Hok [hist Hh].
  assert (forall e', calm e e' -> engine_ok e' /\ (exists hist, sender_ok hist (sending e'))
    /\ rtc transition (e_state e) (e_state e')) as Hcalm.
  { intros x Hc. split; [by eapply calm_ok|]. split; [|apply Hc]. exists hist.
    eapply sender_ok_keeps; [apply Hc | done]. }
  destruct Hs as [e data|e n|e now|e ss now e' E|e now e' E|e|e].
  - destruct (write_spec e data hist Hok Hh)
      as (r & e' & ps & -> & Hok' & Hh' & (_ & _ & _ & Est & _) & _).
    simpl. split_and!; [done | eauto | by rewrite Est].
  - destruct (read_acks e n) as (Est & Ec & Em & Ea & Esn & Eo & _).
    split_and!; [|exists hist; by rewrite Esn | by rewrite Est].
    destruct Hok. split; rewrite ?Ec, ?Em, ?Ea, ?Esn, ?Eo; done.
  - apply Hcalm, quiet_calm, close_quiet.
  - destruct (input_ok e ss now Hok) as (e1 & E1 & Hc). rewrite E in E1. simplify_eq. auto.
  - destruct (flush_quiet e now (mtu (config e)) ltac:(apply Hok)) as (e1 & E1 & Hq).
    rewrite E in E1. simplify_eq. by apply Hcalm, quiet_calm.
  - split_and!; [destruct Hok; by split | by exists hist | done].
  - split_and!; [destruct Hok; by split | by exists hist | done].
Qed.

Lemma engine_reach e0 e :
  rtc engine_step e0 e -> engine_ok e0 -> (exists hist, sender_ok hist (sending e0)) ->
  engine_ok e /\ (exists hist, sender_ok hist (sending e)) /\ rtc transition (e_state e0) (e_state e).
Proof.
  induction 1 as [|e1 e2 e3 Hs _ IH]; intros Hok Hh; [by split_and!|].
  destruct (engine_step_ok _ _ Hs Hok Hh) as (Hok' & Hh' & Ht).
  destruct (IH Hok' Hh') as (? & ? & ?). split_and!; try done. by etrans.
Qed.

Lemma sender_new c : sender_ok [] (SendingWorker_new c).
Proof. split; [done|]. intros u []. Qed.

(** ** Time-outs *)

(** What a flush does to the state, and when the state began. *)
Lemma flush_acks_state e current e' :
  flush_acks e current = Ok e' ->
  e_state e' = e_state e /\ state_begin_time e' = state_begin_time e.
Proof.
  unfold flush_acks. intros ([a ss] & _ & E)%res_bind_ok_inv. by simplify_eq/=.
Qed.

Lemma flush_data_state e current :
  e_state (flush_data e current) = e_state e
  /\ state_begin_time (flush_data e current) = state_begin_time e.
Proof.
  unfold flush_data. case_if; [done|]. cbv zeta.
  destruct (bool_decide _); [by case_if|].
  destruct (send_loop _ _ _ _ _ _ _) as [[[[sent l] tot] lost] fl]. by case_if.
Qed.

Lemma flush_tail_state e current e' :
  (let? e := flush_acks e current in
   let e := flush_data e current in
   Ok (if 3000 <=? wrapping_sub32 current (last_ping_time e) then ping e current CMD_PING else e))
  = Ok e' ->
  e_state e' = e_state e /\ state_begin_time e' = state_begin_time e.
Proof.
  intros (e1 & E1 & E)%res_bind_ok_inv. apply flush_acks_state in E1 as [S1 B1].
  destruct (flush_data_state e1 current) as [S2 B2]. apply Ok_inj in E as <-.
  case_if; simpl; split; congruence.
Qed.

Lemma set_state_state e s now :
  e_state (set_state e s now) = s /\ state_begin_time (set_state e s now) = now.
Proof. by destruct s. Qed.

(** The states [flush_idle] may leave behind. *)
Lemma flush_idle_spec e t :
  match e_state e with
  | Active =>
    if 30000 <=? wrapping_sub32 t (last_incoming_time e)
    then (e_state (flush_idle e t) = ReadyToClose \/ e_state (flush_idle e t) = Terminating)
         /\ state_begin_time (flush_idle e t) = t
    else flush_idle e t = e
  | ReadyToClose =>
    flush_idle e t = e
    \/ e_state (flush_idle e t) = Terminating /\ state_begin_time (flush_idle e t) = t
  | _ => flush_idle e t = e
  end.
Proof.
  unfold flush_idle. destruct (e_state e) eqn:Hs.
  2: { change (bool_decide (ReadyToClose = Active)) with false. cbn [andb].
       rewrite bool_decide_true by done. cbn [andb]. case_if; [right | by left]. by split. }
  1: change (bool_decide (Active = Active)) with true; cbn [andb]; destruct (30000 <=? _).
  2-6: rewrite (bool_decide_false (_ = ReadyToClose)); [done | simpl; by rewrite ?Hs].
  assert (snd (close e t) = set_state (set_signals e true true (wake_data e)) ReadyToClose t)
    as -> by (unfold close; simpl; by rewrite Hs).
  change (bool_decide (e_state (set_state ?e' ReadyToClose ?t') = ReadyToClose)) with true.
  cbn [andb]. case_if; split; auto.
Qed.

(** Once [flush_idle] left the connection terminating. *)
Lemma flush_terminating e t e' :
  flush e t = Ok e' -> e_state e <> Terminated -> e_state (flush_idle e t) = Terminating ->
  if 8000 <? wrapping_sub32 t (state_begin_time (flush_idle e t))
  then e_state e' = Terminated
  else e_state e' = Terminating /\ state_begin_time e' = state_begin_time (flush_idle e t).
Proof.
  intros E Hn Hs. unfold flush in E. rewrite bool_decide_false in E by done. cbv zeta in E.
  rewrite bool_decide_true in E by done. apply Ok_inj in E as <-.
  cbn [state_begin_time ping set_times set_out]. destruct (8000 <? _); [done|]. by split.
Qed.

Lemma flush_other e t e' :
  flush e t = Ok e' -> e_state e <> Terminated -> e_state (flush_idle e t) <> Terminating ->
  let e1 := flush_idle e t in
  let late :=
    match e_state e1 with
    | PeerTerminating => 4000 <? wrapping_sub32 t (state_begin_time e1)
    | ReadyToClose => 15000 <? wrapping_sub32 t (state_begin_time e1)
    | _ => false
    end in
  if late then e_state e' = Terminating /\ state_begin_time e' = t
  else e_state e' = e_state e1 /\ state_begin_time e' = state_begin_time e1.
Proof.
  intros E Hn Hs e1. unfold flush in E. rewrite bool_decide_false in E by done. cbv zeta in E.
  fold e1 in E, Hs. rewrite (bool_decide_false (e_state e1 = Terminating)) in E by done.
  apply flush_tail_state in E as [-> ->].
  set (e2 := if bool_decide (e_state e1 = PeerTerminating) && _ then _ else e1).
  assert (e2 = match e_state e1 with
               | PeerTerminating =>
                 if 4000 <? wrapping_sub32 t (state_begin_time e1)
                 then set_state e1 Terminating t else e1
               | _ => e1
               end) as -> by (unfold e2; by destruct (e_state e1)).
  destruct (e_state e1) eqn:H1; try done;
    try (rewrite bool_decide_false by (by rewrite H1); cbn [andb]; by rewrite H1).
  - rewrite bool_decide_true by done. cbn [andb]. cbv zeta. case_if; [|by rewrite H1].
    apply set_state_state.
  - cbv zeta. destruct (4000 <? _).
    + by split.
    + rewrite bool_decide_false by (by rewrite H1). cbn [andb]. by rewrite H1.
Qed.

(** How far a late flush brings the connection. *)
Lemma late_flush e t e' :
  flush e t = Ok e' -> e_state e <> PeerClosed ->
  (e_state e = Active -> 30000 <= wrapping_sub32 t (last_incoming_time e)) ->
  15000 < wrapping_sub32 t (state_begin_time e) ->
  match e_state e with
  | Active => e_state e' = ReadyToClose /\ state_begin_time e' = t
              \/ e_state e' = Terminating /\ state_begin_time e' = t
  | ReadyToClose | PeerTerminating => e_state e' = Terminating /\ state_begin_time e' = t
  | _ => e_state e' = Terminated
  end.
Proof.
  intros E Hc Hi Hl. pose proof (flush_idle_spec e t) as Hf.
  assert (wrapping_sub32 t t = 0) as E0
    by (unfold wrapping_sub32, wrap32; by rewrite Z.sub_diag).
  destruct (e_state e) eqn:Hs; try done.
  - rewrite (proj2 (Z.leb_le _ _) (Hi eq_refl)) in Hf. destruct Hf as [[Hr|Ht] Hb].
    + pose proof (flush_other e t e' E) as G. cbv zeta in G. rewrite Hr, Hb, E0, Hs in G.
      specialize (G ltac:(done) ltac:(done)). simpl in G. auto.
    + pose proof (flush_terminating e t e' E) as G. rewrite Hb, E0, Hs in G.
      specialize (G ltac:(done) Ht). simpl in G. auto.
  - destruct Hf as [Hf|[Ht Hb]].
    + pose proof (flush_other e t e' E) as G. cbv zeta in G. rewrite Hf, Hs in G.
      specialize (G ltac:(done) ltac:(done)). simpl in G.
      by rewrite (proj2 (Z.ltb_lt _ _) Hl) in G.
    + pose proof (flush_terminating e t e' E) as G. rewrite Hb, E0, Hs in G.
      exact (G ltac:(done) Ht).
  - pose proof (flush_terminating e t e' E) as G. rewrite Hf, Hs in G.
    specialize (G ltac:(done) ltac:(done)). rewrite (proj2 (Z.ltb_lt _ _)) in G by lia. done.
  - pose proof (flush_other e t e' E) as G. cbv zeta in G. rewrite Hf, Hs in G.
    specialize (G ltac:(done) ltac:(done)). simpl in G.
    rewrite (proj2 (Z.ltb_lt _ _)) in G by lia. done.
  - unfold flush in E. rewrite bool_decide_true in E by done. by simplify_eq.
Qed.

(** The settings never change. *)
Lemma engine_step_config e e' :
  engine_step e e' -> engine_ok e -> (exists hist, sender_ok hist (sending e)) ->
  config e' = config e.
Proof.
  intros Hs Hok [hist Hh]. destruct Hs as [e data|e n|e now|e ss now e' E|e now e' E|e|e]; try done.
  - destruct (write_spec e data hist Hok Hh) as (r & e' & ps & -> & _ & _ & [Ec _] & _). done.
  - apply read_acks.
  - apply close_quiet.
  - destruct (input_ok e ss now Hok) as (e1 & E1 & Hc). rewrite E in E1. simplify_eq. apply Hc.
  - destruct (flush_quiet e now _ (ok_acks e Hok)) as (e1 & E1 & Hq). rewrite E in E1.
    simplify_eq. apply Hq.
Qed.

Lemma engine_config_fixed e e' :
  rtc engine_step e e' -> engine_ok e -> (exists hist, sender_ok hist (sending e)) ->
  config e' = config e.
Proof.
  induction 1 as [|e1 e2 e3 Hs _ IH]; intros Hok Hh; [done|].
  destruct (engine_step_ok _ _ Hs Hok Hh) as (Hok' & Hh' & _).
  rewrite (IH Hok' Hh'). by eapply engine_step_config.
Qed.

(** Only an active connection takes data. *)
Lemma write_loop_inactive ps e n : e_state e <> Active -> write_loop ps e n = (n, e).
Proof. intros Hs. destruct ps; [done|]. simpl. by rewrite bool_decide_false. Qed.

Lemma write_terminated e data n e' :
  write e data = (Ok n, e') -> e_state e = Active.
Proof.
  unfold write. cbv zeta. case_if; [done|].
  destruct (decide (e_state e = Active)) as [|Hn]; [done|].
  rewrite write_loop_inactive by done. done.
Qed.

(** ** Properties *)

(** C19: With checked settings a connection never panics, whatever segments it is
    given and in whatever order it is read, written, flushed and closed, and
    every datagram it queues fits the configured MTU. *)
Theorem kcp_engine_safe conv c e0 e
    (Hconfig : engine_config c = Ok c) (Hnew : Engine_new conv c = Ok e0)
    (Hreach : rtc engine_step e0 e) :
  Forall (fun d => len d <= mtu c) (out e)
  /\ (forall ss now, exists e', input e ss now = Ok e')
  /\ (forall now, exists e', flush e now = Ok e')
  /\ (forall data, fst (write e data) <> Panic).
Proof.
  destruct (engine_new_ok conv c Hconfig) as (e1 & E1 & Hok & _ & Es & _ & Ec & _).
  rewrite Hnew in E1. simplify_eq.
  destruct (engine_reach e1 e Hreach Hok) as (Hok' & [hist Hh] & _);
    [exists []; rewrite Es; apply sender_new|].
  assert (config e = config e1) as Ecfg
    by (apply engine_config_fixed; [done | done | exists []; rewrite Es; apply sender_new]).
  split_and!.
  - rewrite <- Ecfg. apply Hok'.
  - intros ss now. destruct (input_ok e ss now Hok') as (e' & -> & _). by exists e'.
  - intros now. destruct (flush_quiet e now _ (ok_acks e Hok')) as (e' & -> & _). by exists e'.
  - intros data. destruct (write_spec e data hist Hok' Hh) as (r & e' & ps & -> & Hx).
    simpl. destruct r; try done. by destruct Hx as (_ & _ & _ & _ & _ & []).
Qed.

(** A connection's state only moves forward, towards [Terminated], and there it
    stays: reads are at the end of the stream, writes are refused and nothing
    more is sent. *)
Theorem kcp_states_forward conv c e0 e1 e
    (Hconfig : engine_config c = Ok c) (Hnew : Engine_new conv c = Ok e0)
    (Hreach : rtc engine_step e0 e1) (Hlater : rtc engine_step e1 e) :
  (e_state e1 = e_state e \/ (rank (e_state e1) < rank (e_state e))%nat)
  /\ (e_state e1 = Terminated ->
      e_state e = Terminated
      /\ (forall n, read e n = (None, e)) /\ (forall now, flush e now = Ok e)
      /\ forall data, fst (write e data) = Err Closed).
Proof.
  destruct (engine_new_ok conv c Hconfig) as (e' & E1 & Hok & _ & Es & _ & Ec & _).
  rewrite Hnew in E1. simplify_eq.
  destruct (engine_reach e' e1 Hreach Hok) as (Hok1 & Hh1 & _);
    [exists []; rewrite Es; apply sender_new|].
  destruct (engine_reach e1 e Hlater Hok1 Hh1) as (Hok2 & [hist Hh2] & Ht).
  split; [by apply transitions_rank|]. intros E. rewrite E in Ht.
  apply terminated_final in Ht. split_and!; [done | | |].
  - intros n. unfold read. by rewrite Ht.
  - intros now. unfold flush. by rewrite bool_decide_true.
  - intros data. destruct (write_spec e data hist Hok2 Hh2)
      as (r & e2 & ps & E2 & _ & _ & _ & _ & _ & Hr). rewrite E2. simpl.
    destruct r as [n|b|]; [|by destruct Hr as [_ ->]; rewrite Ht|done].
    apply write_terminated in E2. congruence.
Qed.

Lemma idle_terminates e t1 t2 t3 e1 e2 e3 :
  e_state e <> PeerClosed ->
  (e_state e = Active -> 30000 <= wrapping_sub32 t1 (last_incoming_time e)) ->
  15000 < wrapping_sub32 t1 (state_begin_time e) ->
  15000 < wrapping_sub32 t2 t1 -> 15000 < wrapping_sub32 t3 t2 ->
  flush e t1 = Ok e1 -> flush e1 t2 = Ok e2 -> flush e2 t3 = Ok e3 ->
  e_state e3 = Terminated.
Proof.
  intros Hheld Hidle Hold Hlater Hlast H1 H2 H3.
  assert (forall x y t, flush x t = Ok y -> e_state x = Terminated -> e_state y = Terminated)
    as Hfinal by (intros x y t E Hx; unfold flush in E; rewrite bool_decide_true in E by done;
      by simplify_eq).
  assert (forall x y t t0, flush x t = Ok y -> 15000 < wrapping_sub32 t t0 ->
    e_state x = Terminating /\ state_begin_time x = t0 -> e_state y = Terminated) as Hend.
  { intros x y t t0 E Ht [Hs Hb]. pose proof (late_flush x t y E) as G. rewrite Hs, Hb in G.
    by apply G. }
  pose proof (late_flush e t1 e1 H1 Hheld Hidle Hold) as G.
  destruct (e_state e); try done.
  - destruct G as [[Hs Hb]|G]; [|by eapply Hfinal, Hend].
    eapply Hend; [done | exact Hlast|]. pose proof (late_flush e1 t2 e2 H2) as G.
    rewrite Hs, Hb in G. by apply G.
  - by eapply Hfinal, Hend.
  - by eapply Hfinal, Hfinal.
  - by eapply Hfinal, Hend.
  - by eapply Hfinal, Hfinal.
Qed.

(** A connection that nobody hears from goes away by itself. Unless the peer
    closed it and this side still holds it open, three flushes suffice: one
    after thirty seconds of silence and two more, each more than fifteen
    seconds after the one before. *)
Theorem kcp_idle_terminates conv c e0 e t1 t2 t3
    (Hconfig : engine_config c = Ok c) (Hnew : Engine_new conv c = Ok e0)
    (Hreach : rtc engine_step e0 e)
    (Hheld : e_state e <> PeerClosed)
    (Hidle : e_state e = Active -> 30000 <= wrapping_sub32 t1 (last_incoming_time e))
    (Hold : 15000 < wrapping_sub32 t1 (state_begin_time e))
    (Hlater : 15000 < wrapping_sub32 t2 t1) (Hlast : 15000 < wrapping_sub32 t3 t2) :
  exists e1 e2 e3, flush e t1 = Ok e1 /\ flush e1 t2 = Ok e2 /\ flush e2 t3 = Ok e3
  /\ e_state e3 = Terminated.
Proof.
  destruct (engine_new_ok conv c Hconfig) as (e' & E1 & Hok & _ & Es & _ & Ec & _).
  rewrite Hnew in E1. simplify_eq.
  destruct (engine_reach e' e Hreach Hok) as (Hok0 & _); [exists []; rewrite Es; apply sender_new|].
  destruct (flush_quiet e t1 _ (ok_acks e Hok0)) as (e1 & F1 & Q1).
  pose proof (calm_ok _ _ (quiet_calm _ _ Q1) Hok0) as Hok1.
  destruct (flush_quiet e1 t2 _ (ok_acks e1 Hok1)) as (e2 & F2 & Q2).
  pose proof (calm_ok _ _ (quiet_calm _ _ Q2) Hok1) as Hok2.
  destruct (flush_quiet e2 t3 _ (ok_acks e2 Hok2)) as (e3 & F3 & _).
  exists e1, e2, e3. split_and!; [done..|]. by eapply (idle_terminates e t1 t2 t3).
Qed.

(** ** Witnesses *)

(** Xray-core's defaults. *)
Definition default_config : Config := mkConfig 1350 50 5 20 1 2097152.

Definition witness_engine : Engine :=
  mkEngine 7 default_config Active 0 0 0 1332 (mkRoundTrip 0 0 100 50 0)
    (ReceivingWorker_new default_config) (SendingWorker_new default_config) [] false false false.

Lemma kcp_engine_safe_witness :
  exists e', flush (snd (write witness_engine [x61; x62])) 10 = Ok e'
  /\ Forall (fun d => len d <= 1350) (out e').
Proof.
  destruct (kcp_engine_safe 7 default_config witness_engine
    (snd (write witness_engine [x61; x62])) eq_refl eq_refl) as (_ & _ & Hflush & _).
  { apply rtc_once, es_write. }
  destruct (Hflush 10) as (e' & He). exists e'. split; [exact He|].
  apply (kcp_engine_safe 7 default_config witness_engine e' eq_refl eq_refl).
  eapply rtc_l; [apply (es_write witness_engine [x61; x62])|]. apply rtc_once.
  exact (es_flush _ _ _ He).
Defined.

Lemma kcp_states_forward_witness :
  (rank (e_state witness_engine) < rank (e_state (snd (close witness_engine 5))))%nat.
Proof.
  destruct (kcp_states_forward 7 default_config witness_engine witness_engine
    (snd (close witness_engine 5)) eq_refl eq_refl (rtc_refl _ _)) as [[E|Hr] _].
  - apply rtc_once, es_close.
  - discriminate E.
  - exact Hr.
Defined.

Lemma kcp_idle_terminates_witness :
  exists e1 e2 e3, flush witness_engine 40000 = Ok e1 /\ flush e1 60000 = Ok e2
  /\ flush e2 80000 = Ok e3 /\ e_state e3 = Terminated.
Proof.
  apply (kcp_idle_terminates 7 default_config witness_engine witness_engine 40000 60000 80000
    eq_refl eq_refl (rtc_refl _ _)).
  - discriminate.
  - intros _. vm_compute. discriminate.
  - vm_compute. reflexivity.
  - vm_compute. reflexivity.
  - vm_compute. reflexivity.
Defined.
