(* ===== verification/KcpLink.v ===== *)
(** Two mKCP engines joined by a network that may lose, repeat, delay and
    reorder datagrams: what one side reads is what the other wrote. *)
From Stdlib Require Import Strings.Byte.
From S2P Require Import Prelude KcpSegment KcpEngine.

(** [tx] writes and [rx] reads. [wire] holds every datagram [tx] ever sent;
    [sent] the bytes its writers handed over, in [segments] segments; [got] the
    bytes [rx]'s readers were given. *)
Record Link := mkLink {
  tx : Engine;
  rx : Engine;
  wire : list (list byte);
  sent : list byte;
  segments : Z;
  got : list byte
}.

(** The steps of an engine that neither write nor send. *)
Inductive tx_step : Engine -> Engine -> Prop :=
| ts_read e n : tx_step e (snd (read e n))
| ts_close e now : tx_step e (snd (close e now))
| ts_input e ss now e' : input e ss now = Ok e' -> tx_step e e'
| ts_flush e now e' : flush e now = Ok e' -> tx_step e e'
| ts_signal e : tx_step e (set_signals e false false false).

(** The steps of an engine that neither read nor receive. *)
Inductive rx_step : Engine -> Engine -> Prop :=
| rs_write e data : rx_step e (snd (write e data))
| rs_close e now : rx_step e (snd (close e now))
| rs_flush e now e' : flush e now = Ok e' -> rx_step e e'
| rs_send e : rx_step e (set_out e [])
| rs_signal e : rx_step e (set_signals e false false false).

(** The segments a write added. *)
Definition added (e e' : Engine) : Z := len (sw_window (sending e')) - len (sw_window (sending e)).

Inductive link_step : Link -> Link -> Prop :=
| l_write l data r e :
    write (tx l) data = (r, e) ->
    link_step l (mkLink e (rx l) (wire l)
      (sent l ++ match r with Ok n => take (Z.to_nat n) data | _ => [] end)
      (segments l + added (tx l) e) (got l))
| l_tx l e : tx_step (tx l) e ->
    link_step l (mkLink e (rx l) (wire l) (sent l) (segments l) (got l))
| l_send l :
    link_step l (mkLink (set_out (tx l) []) (rx l) (wire l ++ out (tx l)) (sent l) (segments l)
      (got l))
| l_receive l d ss now e :
    In d (wire l) -> read_segments d = Ok ss -> input (rx l) ss now = Ok e ->
    link_step l (mkLink (tx l) e (wire l) (sent l) (segments l) (got l))
| l_read l n bytes e : read (rx l) n = (bytes, e) ->
    link_step l (mkLink (tx l) e (wire l) (sent l) (segments l) (got l ++ default [] bytes))
| l_rx l e : rx_step (rx l) e ->
    link_step l (mkLink (tx l) e (wire l) (sent l) (segments l) (got l)).

(** A datagram that carries pieces of [hist] under their numbers. *)
Definition readable (hist : list (list byte)) (d : list byte) : Prop :=
  exists ss, read_segments d = Ok ss /\ Forall (seg_ok hist) ss.

Lemma readable_mono hist ps d : readable hist d -> readable (hist ++ ps) d.
Proof.
  intros (ss & E & Hf). exists ss. split; [done|]. eapply Forall_impl; [|exact Hf].
  intros [s|s|s]; [|done..]. intros (i & Hi & Hn). exists i. split; [|done].
  by apply lookup_app_l_Some.
Qed.

Lemma emitted_readable e hist d :
  engine_ok e -> sender_ok hist (sending e) -> len hist <= 4294967296 ->
  emitted (mtu (config e)) (sw_window (sending e)) d -> readable hist d.
Proof.
  intros Hok [_ Hw] Hlen [s Ha Hd|s [El Hn]|h u Hu Hh].
  - eexists. split; [by apply (read_one_segment (Cmd s))|]. repeat constructor.
  - eexists. split; [apply (read_one_segment (Ack s))|repeat constructor].
    pose proof (limit_pos (Z.quot (mtu (config e) - 17) 4)). rewrite El in Hn. lia.
  - destruct (Forall_In _ _ u (ok_payloads e Hok) Hu) as [Hne Hl].
    destruct (Hw u Hu) as (i & Hi & Hnum). eexists. split.
    + apply (read_one_segment (Data (mkData (dh_conv h) (dh_option h) (dh_timestamp h) (dh_number h)
        (dh_sending_next h) (ua_payload u)))). simpl. split; [done|].
      pose proof (config_ok_bounds _ (ok_config e Hok)). unfold DATA_OVERHEAD, u16_max in *. lia.
    + constructor; [|constructor]. exists i. simpl. split; [done|]. rewrite Hh, Hnum.
      apply lookup_lt_Some in Hi. unfold wrap32, len in *.
      rewrite Z.mod_mod by done. apply Z.mod_small. lia.
Qed.

(** Everything on the way carries pieces of what was written. *)
Record link_inv (l : Link) (hist : list (list byte)) (n : nat) : Prop := {
  li_sent : concat hist = sent l;
  li_count : len hist = segments l;
  li_tx : engine_ok (tx l);
  li_sender : sender_ok hist (sending (tx l));
  li_wire : Forall (readable hist) (wire l ++ out (tx l));
  li_rx : engine_ok (rx l);
  li_rx_sender : exists h, sender_ok h (sending (rx l));
  li_recv : recv_ok hist (got l) (rx l) n
}.

Definition receive_window (l : Link) : Z := rw_window_size (receiving (rx l)).

Lemma recv_ok_mono hist ps g e n : recv_ok hist g e n -> recv_ok (hist ++ ps) g e n.
Proof.
  intros [R1 R2 R3 R4 R5].
  assert (take n (hist ++ ps) = take n hist) as E by (by rewrite take_app_le).
  split; rewrite ?E; try done.
  - rewrite length_app. lia.
  - intros k p (i & Hk & Hn & Hi)%R5. exists i. split_and!; try done. by apply lookup_app_l_Some.
Qed.

(** A calm step of the sender keeps all it has to do with the link. *)
Lemma inv_tx l hist n e :
  link_inv l hist n -> calm (tx l) e -> len hist <= 4294967296 ->
  link_inv (mkLink e (rx l) (wire l) (sent l) (segments l) (got l)) hist n.
Proof.
  intros [I1 I2 I3 I4 I5 I6 I7 I8] Hc Hlen. split; simpl; try done.
  - by eapply calm_ok.
  - by eapply sender_ok_keeps; [apply Hc|].
  - destruct (c_out _ _ Hc) as (ds & -> & Hf). rewrite app_assoc. apply Forall_app.
    split; [done|]. eapply Forall_impl; [|apply Hf, ok_acks, I3]. intros d.
    by apply emitted_readable.
Qed.

Lemma tx_step_inv l hist n e :
  link_inv l hist n -> tx_step (tx l) e -> len hist <= 4294967296 ->
  link_inv (mkLink e (rx l) (wire l) (sent l) (segments l) (got l)) hist n.
Proof.
  intros Hi Hs Hlen. pose proof Hi as [I1 I2 I3 I4 I5 I6 I7 I8]. remember (tx l) as t eqn:Et.
  destruct Hs as [t k|t now|t ss now e E|t now e E|t]; subst t.
  - destruct (read_acks (tx l) k) as (Est & Ec & Em & Ea & Esn & Eo & _).
    split; simpl; rewrite ?Esn, ?Eo; try done.
    destruct I3. split; rewrite ?Ec, ?Em, ?Ea, ?Esn, ?Eo; done.
  - apply inv_tx; [done | apply quiet_calm, close_quiet | done].
  - destruct (input_ok (tx l) ss now I3) as (e1 & E1 & Hc). rewrite E in E1. simplify_eq.
    by apply inv_tx.
  - destruct (flush_quiet (tx l) now _ (ok_acks _ I3)) as (e1 & E1 & Hq). rewrite E in E1.
    simplify_eq. apply inv_tx; [done | by apply quiet_calm | done].
  - split; simpl; try done. by destruct I3.
Qed.

Lemma rx_step_inv l hist n e :
  link_inv l hist n -> rx_step (rx l) e ->
  link_inv (mkLink (tx l) e (wire l) (sent l) (segments l) (got l)) hist n
  /\ rw_window_size (receiving e) = receive_window l.
Proof.
  intros [I1 I2 I3 I4 I5 I6 [h I7] I8] Hs. unfold receive_window.
  assert (forall e, quiet (rx l) e ->
    link_inv (mkLink (tx l) e (wire l) (sent l) (segments l) (got l)) hist n
    /\ rw_window_size (receiving e) = rw_window_size (receiving (rx l))) as Hquiet.
  { intros x Hq. split; [|apply Hq]. split; simpl; try done.
    - by eapply calm_ok; [apply quiet_calm|].
    - exists h. by eapply sender_ok_keeps; [apply Hq|].
    - by eapply recv_ok_quiet. }
  remember (rx l) as r eqn:Er. destruct Hs as [r data|r now|r now e E|r|r]; subst r.
  - destruct (write_spec (rx l) data h I6 I7)
      as (r & e' & ps & -> & Hok & Hh & (_ & _ & _ & Est & Erc & _) & _).
    split; [|simpl; by rewrite Erc]. split; simpl; try done; [by exists (h ++ ps)|].
    destruct I8. split; rewrite ?Erc, ?Est; done.
  - apply Hquiet, close_quiet.
  - destruct (flush_quiet (rx l) now _ (ok_acks _ I6)) as (e1 & E1 & Hq). rewrite E in E1.
    simplify_eq. by apply Hquiet.
  - split; [|done]. split; simpl; try done; [by destruct I6 | by exists h | by destruct I8].
  - split; [|done]. split; simpl; try done; [by destruct I6 | by exists h | by destruct I8].
Qed.

Lemma set_signals_recv hist g e n i o w : recv_ok hist g e n -> recv_ok hist g (set_signals e i o w) n.
Proof. by intros []. Qed.

Lemma read_step_inv l hist n k bytes e :
  link_inv l hist n -> len hist < 4294967296 -> read (rx l) k = (bytes, e) ->
  exists n', link_inv (mkLink (tx l) e (wire l) (sent l) (segments l) (got l ++ default [] bytes)) hist n'
    /\ rw_window_size (receiving e) = receive_window l.
Proof.
  intros [I1 I2 I3 I4 I5 I6 I7 I8] Hlen E.
  destruct (read_acks (rx l) k) as (Est & Ec & Em & Ea & Esn & Eo & Esz). rewrite E in *. simpl in *.
  assert (exists n', recv_ok hist (got l ++ default [] bytes) e n') as [n' Hr].
  { unfold read in E.
    destruct (rw_read (receiving (rx l)) k) as [bs w] eqn:Erd.
    destruct (e_state (rx l)) eqn:Hst; simplify_eq/=; rewrite ?app_nil_r; try (by exists n);
      (destruct (rw_read_recv hist (got l) (rx l) n k bs w I8 ltac:(by rewrite Hst) Hlen Erd)
         as (n' & Hr & _); exists n'; case_if_in E; simplify_eq/=; [by apply set_signals_recv|]);
      apply Nat.ltb_ge in Heqb; (destruct bs; [|simpl in *; lia]);
      rewrite app_nil_r in *; try case_if_in E; simplify_eq/=; rewrite ?app_nil_r; done. }
  exists n'. split; [|done]. split; simpl; rewrite ?Esn; try done.
  destruct I6. split; rewrite ?Ec, ?Em, ?Ea, ?Esn, ?Eo; done.
Qed.

Lemma write_loop_grows ps e n :
  len (sw_window (sending e)) <= len (sw_window (sending (snd (write_loop ps e n)))).
Proof.
  revert e n. induction ps as [|p ps IH]; intros e n; cbn [write_loop]; [simpl; lia|].
  case_if; [simpl; lia|]. destruct (sw_push (sending e) p) as [[] w] eqn:E; [|simpl; lia].
  cbn [negb]. etrans; [|apply IH]. simpl. apply sw_push_spec in E as [-> _]. len_simpl. lia.
Qed.

Lemma write_grows e data : 0 <= added e (snd (write e data)).
Proof.
  unfold added, write. cbv zeta. case_if; [simpl; lia|].
  pose proof (write_loop_grows (chunks (Z.to_nat (Z.min (mss e) MAX_SEGMENT_PAYLOAD)) data) e 0) as H.
  destruct (write_loop _ _ _) as [n e']. simpl in H. case_if; simpl; lia.
Qed.

Lemma segments_mono l l' : link_step l l' -> segments l <= segments l'.
Proof.
  destruct 1; simpl; try lia. pose proof (write_grows (tx l) data) as Hg. rewrite H in Hg.
  simpl in Hg. lia.
Qed.

(** The numbers in use stay apart from the numbers that are coming. *)
Definition fits (window : Z) (l : Link) : Prop :=
  8 <= window /\ segments l + window <= 4294967296.

Lemma link_step_inv window l l' hist n :
  link_step l l' -> link_inv l hist n -> receive_window l = window -> fits window l' ->
  exists hist' n', link_inv l' hist' n' /\ receive_window l' = window.
Proof.
  intros Hs Hi Hw [H8 Hfit]. pose proof (segments_mono _ _ Hs) as Hm.
  pose proof Hi as [I1 I2 I3 I4 I5 I6 I7 I8].
  assert (len hist + window <= 4294967296) as Hlen by lia.
  destruct Hs as [l data r e E|l e Hs|l|l d ss now e Hd Hss E|l k bytes e E|l e Hs].
  - destruct (write_spec (tx l) data hist I3 I4)
      as (r' & e' & ps & E' & Hok & Hh & (Ec & _ & _ & Est & Er & Eo) & Hl & _ & Hr).
    rewrite E in E'. simplify_eq. exists (hist ++ ps), n. split; [|done].
    split; simpl; try done.
    + rewrite concat_app, I1. f_equal. destruct r' as [k|b|]; [|by destruct Hr as [-> _]|done].
      by destruct Hr as [_ ->].
    + rewrite len_app, I2. unfold added. unfold len. rewrite Hl. lia.
    + rewrite Eo. eapply Forall_impl; [|exact I5]. intros d. apply readable_mono.
    + by apply recv_ok_mono.
  - exists hist, n. split; [|done]. apply tx_step_inv; [done..|lia].
  - exists hist, n. split; [|done]. split; simpl; try done; [by destruct I3 | by rewrite app_nil_r].
  - apply Forall_app in I5 as [I5 I5']. destruct (Forall_In _ _ d I5 Hd) as (ss' & E' & Hf).
    rewrite Hss in E'. simplify_eq. unfold input in E.
    pose proof (set_times_quiet (rx l) now (last_ping_time (rx l))) as Hq.
    destruct (input_recv hist (got l) (set_times (rx l) now (last_ping_time (rx l))) n ss' now
      (mtu (config (rx l)))) as (e' & E' & Hc & Hr).
    + apply I6.
    + by eapply recv_ok_quiet.
    + done.
    + done.
    + rewrite E in E'. simplify_eq. exists hist, n.
      assert (calm (rx l) e') as Hc' by (etrans; [by apply quiet_calm | done]).
      split; [|unfold receive_window; simpl; by rewrite (c_size _ _ Hc')].
      split; simpl; try done; [by apply Forall_app | by eapply calm_ok |].
      destruct I7 as [h Hh]. exists h. by eapply sender_ok_keeps; [apply Hc'|].
  - destruct (read_step_inv l hist n k bytes e Hi ltac:(lia) E) as (n' & Hi' & Hw').
    exists hist, n'. split; [done|]. unfold receive_window in *. simpl. congruence.
  - destruct (rx_step_inv l hist n e Hi Hs) as [Hi' Hw']. exists hist, n. split; [done|].
    unfold receive_window in *. simpl. congruence.
Qed.

Lemma link_reach window l0 l :
  rtc link_step l0 l -> (exists hist n, link_inv l0 hist n) -> receive_window l0 = window ->
  fits window l -> exists hist n, link_inv l hist n /\ receive_window l = window.
Proof.
  intros Hr Hi Hw. revert l Hr. apply (rtc_ind_r (fun l => fits window l ->
    exists hist n, link_inv l hist n /\ receive_window l = window)); [|intros l1 l2 Hr Hs IH].
  - intros _. destruct Hi as (hist & n & Hi). by exists hist, n.
  - intros [H8 Hf]. destruct IH as (hist & n & Hinv & Hw1).
    { split; [done|]. pose proof (segments_mono _ _ Hs). lia. }
    by eapply link_step_inv.
Qed.

Definition link_new (a b : Engine) : Link := mkLink a b [] [] 0 [].

(** ** Properties *)

(** C1: mKCP delivers what was written. One engine writes and sends, the other
    receives datagrams the first has sent, each any number of times or never
    and in any order; both are flushed, closed and fed with acknowledgements in
    any way. The bytes read are always a prefix of the bytes written: nothing is
    lost, repeated, reordered or made up within them. The bound keeps sequence
    numbers from being reused: four thousand million segments. *)
Theorem kcp_stream_safe conv1 conv2 c1 c2 a b l
    (Hc1 : engine_config c1 = Ok c1) (Hc2 : engine_config c2 = Ok c2)
    (Ha : Engine_new conv1 c1 = Ok a) (Hb : Engine_new conv2 c2 = Ok b)
    (Hreach : rtc link_step (link_new a b) l)
    (Hnumbers : segments l + receiving_in_flight_size c2 <= 4294967296) :
  got l `prefix_of` sent l.
Proof.
  destruct (engine_new_ok conv1 c1 Hc1) as (a' & Ea & Oa & _ & Sa & _ & _).
  destruct (engine_new_ok conv2 c2 Hc2) as (b' & Eb & Ob & Tb & Sb & Rb & _).
  rewrite Ha in Ea. rewrite Hb in Eb. simplify_eq.
  assert (out a' = []) as Eo by (unfold Engine_new in Ha; case_if_in Ha; by simplify_eq).
  destruct (link_reach (receiving_in_flight_size c2) (link_new a' b') l Hreach)
    as (hist & n & [I1 _ _ _ _ _ _ I8] & _).
  - exists [], 0%nat. split; simpl; rewrite ?Eo, ?Sa; try done.
    + exists []. rewrite Sb. apply sender_new.
    + by split; rewrite ?Rb.
  - unfold receive_window. simpl. by rewrite Rb.
  - split; [|done]. unfold receiving_in_flight_size, in_flight_size. lia.
  - destruct I8 as [_ _ Hp _ _]. rewrite <- I1. etrans; [exact Hp|].
    exists (concat (drop n hist)). by rewrite <- concat_app, take_drop.
Qed.

(** ** Witness *)

Definition take_ok {A} (d : A) (m : total A) : A := match m with Ok a => a | _ => d end.

Definition wrote : Engine := snd (write witness_engine [x61; x62]).
Definition flushed : Engine := take_ok wrote (flush wrote 10).
Definition arrived : Engine :=
  take_ok witness_engine
    (input witness_engine (take_ok [] (read_segments (default [] (head (out flushed))))) 20).

Lemma kcp_stream_safe_witness :
  exists l, rtc link_step (link_new witness_engine witness_engine) l
  /\ got l = [x61; x62] /\ got l `prefix_of` sent l.
Proof.
  set (l := mkLink (set_out flushed []) (snd (read arrived 10)) (out flushed) [x61; x62] 1
              [x61; x62]).
  assert (rtc link_step (link_new witness_engine witness_engine) l) as Hr.
  { eapply rtc_l; [apply (l_write (link_new witness_engine witness_engine) [x61; x62] (Ok 2) wrote);
      vm_compute; reflexivity|].
    eapply rtc_l; [eapply l_tx, (ts_flush _ 10 flushed); vm_compute; reflexivity|].
    eapply rtc_l; [apply l_send|].
    eapply rtc_l; [eapply (l_receive _ (default [] (head (out flushed))) _ 20 arrived);
      [vm_compute; left; reflexivity | vm_compute; reflexivity | vm_compute; reflexivity]|].
    eapply rtc_l; [apply (l_read _ 10 (Some [x61; x62]) (snd (read arrived 10)));
      vm_compute; reflexivity|].
    apply rtc_refl. }
  exists l. split; [exact Hr|]. split; [reflexivity|].
  apply (kcp_stream_safe 7 7 default_config default_config witness_engine witness_engine l
    eq_refl eq_refl eq_refl eq_refl Hr).
  vm_compute. discriminate.
Defined.
