(* ===== verification/KcpMask.v ===== *)
(** The masks of mKCP datagrams: [crates/xray-transport/src/kcp/mask.rs] with the masks of
    [kcp/mod.rs] and the noise settings of [udp_noise.rs].

    A buffer that is changed in place is a list that is passed on, and a part of it a range. AES-GCM
    and SHA-256 are the class [MaskCipher], random numbers the class [MaskRandom], whose draws are
    counted. Instants and durations are nanoseconds. *)
From Stdlib Require Import Strings.Byte Strings.String.
From S2P Require Import Prelude.

(** ** What the code calls *)

Class MaskCipher := {
  GcmKey : Type;
  gcm_key : list byte -> GcmKey;
  (** The ciphertext and its tag behind it; and back *)
  gcm_seal : GcmKey -> list byte -> list byte -> option (list byte);
  gcm_open : GcmKey -> list byte -> list byte -> option (list byte);
  mask_sha256 : list byte -> list byte
}.

Class MaskCipherLaws `{MaskCipher} : Prop := {
  gcm_seals k n t : len n = 12 -> exists c, gcm_seal k n t = Some c /\ len c = len t + 16 /\ gcm_open k n c = Some t;
  gcm_opens k n c t : gcm_open k n c = Some t -> len c = len t + 16
}.

(** The draw after [n] others: the bytes of a nonce, a DNS id, and a number of a range *)
Class MaskRandom := {
  nonce_draw : nat -> list byte;
  id_draw : nat -> Z;
  range_draw : nat -> Z -> Z -> Z
}.
Class MaskRandomLaws `{MaskRandom} : Prop := { nonce_length i : len (nonce_draw i) = 12 }.

(** ** Settings *)

Inductive KcpHeader := HDns (domain : str) | HDtls | HSrtp | HUtp | HWechat | HWireguard.
Inductive KcpMask := MOriginal | MAes128Gcm (password : str) | MHeader (h : KcpHeader) | MNoise.

Inductive MaskError := BadRdata | BufferTooSmall | NoiseWithoutSettings | SecondNoise | NoiseBounds.

Record NoiseRange := mkNoiseRange { nr_from : Z; nr_to : Z }.
Definition range_valid (r : NoiseRange) (max : Z) : bool := (nr_from r <=? nr_to r) && (nr_to r <=? max).

Record UdpNoiseItem := mkNoiseItem {
  packet : list byte;
  random_length : NoiseRange;
  random_bytes : NoiseRange;
  delay_ms : NoiseRange
}.
Record UdpNoiseConfig := mkNoiseConfig {
  items : list UdpNoiseItem;
  reset_secs : NoiseRange;
  before_salamander : bool
}.

Definition sum_of (l : list Z) : Z := fold_right Z.add 0 l.

Definition noise_validate (c : UdpNoiseConfig) : res MaskError () :=
  if (16 <? len (items c)) || negb (range_valid (reset_secs c) 2147483647)
     || existsb (fun i =>
          (4096 <? len (packet i)) || negb (range_valid (random_length i) 4096) || negb (range_valid (random_bytes i) 255)
          || negb (range_valid (delay_ms i) 1000) || (negb (bool_decide (packet i = [])) && negb (nr_to (random_length i) =? 0))) (items c)
     || (10000 <? sum_of (map (fun i => nr_to (delay_ms i)) (items c)))
  then Err NoiseBounds else Ok ().

Definition wrap16 (z : Z) : Z := z mod 65536.

(** ** One mask *)

Definition UDP_SIZE : Z := 4096.
Definition NONCE : Z := 12.
Definition TAG : Z := 16.
Definition ORIGINAL : Z := 6.

Section Masks.
Context `{C : MaskCipher} `{R : MaskRandom}.

(** [NoiseRange::sample]: panics on an empty range *)
Definition sample_range (r : NoiseRange) (draws : nat) : total (Z * nat) :=
  if nr_from r <=? nr_to r then Ok (range_draw draws (nr_from r) (nr_to r), S draws) else Panic.

Fixpoint noise_bytes (n : nat) (r : NoiseRange) (draws : nat) : total (list byte * nat) :=
  match n with
  | O => Ok ([], draws)
  | S n =>
    let? (b, draws) := sample_range r draws in
    let? (bytes, draws) := noise_bytes n r draws in Ok (to_u8 b :: bytes, draws)
  end.

(** [UdpNoiseItem::build] *)
Definition noise_build (i : UdpNoiseItem) (draws : nat) : total (list byte * nat) :=
  if nr_to (random_length i) =? 0 then Ok (packet i, draws)
  else let? (n, draws) := sample_range (random_length i) draws in noise_bytes (Z.to_nat n) (random_bytes i) draws.

Inductive Legacy :=
| LOriginal
| LAes (key : GcmKey)
| LDns (header : list byte)
| LDtls (epoch length sequence : Z)
| LSrtp (number : Z)
| LUtp
| LWechat (sn : Z)
| LWireguard.

(** The loop of [pack_domain_name], with the bytes of the label so far and what is packed into the
    256 bytes; an escaped byte is part of its label, and a label without a dot is dropped. *)
Fixpoint pack_loop (label out s : list byte) : res MaskError (list byte) :=
  match s with
  | [] => Ok out
  | b :: r =>
    if bool_decide (b = x5c) then
      if 256 <? len out + 1 then Err BufferTooSmall
      else match r with [] => Ok out | c :: r => pack_loop (label ++ [c]) out r end
    else if bool_decide (b = x2e) then
      if 64 <=? len label then Err BadRdata
      else if 256 <? len out + 1 + len label then Err BufferTooSmall
      else pack_loop [] (out ++ to_u8 (len label) :: label) r
    else pack_loop (label ++ [b]) out r
  end.
Definition pack_domain_name (name : list byte) : res MaskError (list byte) :=
  let? out := pack_loop [] [] name in if 256 <=? len out then Err BufferTooSmall else Ok (out ++ [x00]).

Definition dns_header (domain : str) : res MaskError (list byte) :=
  let? name := pack_domain_name (domain ++ [x2e]) in
  Ok ([x00; x00; x01; x00; x00; x01; x00; x00; x00; x00; x00; x00] ++ name ++ [x00; x01; x00; x01]).

(** [None] for noise *)
Definition Legacy_new (m : KcpMask) : res MaskError (option Legacy) :=
  match m with
  | MNoise => Ok None
  | MOriginal => Ok (Some LOriginal)
  | MAes128Gcm password => Ok (Some (LAes (gcm_key (take 16 (mask_sha256 password)))))
  | MHeader (HDns domain) => let? h := dns_header domain in Ok (Some (LDns h))
  | MHeader HDtls => Ok (Some (LDtls 0 0 0))
  | MHeader HSrtp => Ok (Some (LSrtp 0))
  | MHeader HUtp => Ok (Some LUtp)
  | MHeader HWechat => Ok (Some (LWechat 0))
  | MHeader HWireguard => Ok (Some LWireguard)
  end.

Definition mask_size (m : Legacy) : Z :=
  match m with
  | LOriginal => ORIGINAL
  | LAes _ => NONCE
  | LDns header => len header
  | LDtls _ _ _ | LWechat _ => 13
  | LSrtp _ | LUtp | LWireguard => 4
  end.

Definition fnv1a (bytes : list byte) : Z :=
  fold_left (fun hash b => wrapping_mul32 (Z.lxor hash (u8 b)) 0x01000193) bytes 0x811c9dc5.

(** [for i in 4..len { region[i] ^= region[i - 4] }], behind the four bytes [before] *)
Fixpoint xor_onward (before rest : list byte) : list byte :=
  match rest, before with
  | b :: rest, p :: before => let c := xor_byte b p in c :: xor_onward (before ++ [c]) rest
  | _, _ => []
  end.

(** The same with the indices going down, so that each byte meets one that is still as it came *)
Definition xor_back (region : list byte) : list byte := take 4 region ++ zip_with xor_byte (drop 4 region) region.

(** [buf[start..start + bytes.len()].copy_from_slice(bytes)], where it fits *)
Definition put_at (buf : list byte) (start : Z) (bytes : list byte) : list byte :=
  take (Z.to_nat start) buf ++ bytes ++ drop (Z.to_nat (start + len bytes)) buf.

Definition seal_original (region : list byte) : list byte :=
  let length := wrap16 (len region - ORIGINAL) in
  let body := be_bytes 2 length ++ drop 6 region in
  let hash := be_bytes 4 (fnv1a body) in
  hash ++ xor_onward hash body.

(** [Legacy::seal]: the mask, the buffer and the draws after it. Its copies stay within the buffer, for which
    [Group::seal] leaves room; a range past its end, which would panic, has no case here. *)
Definition mask_seal (m : Legacy) (buf : list byte) (start : Z) (draws : nat) : Legacy * list byte * nat :=
  match m with
  | LOriginal => (m, take (Z.to_nat start) buf ++ seal_original (drop (Z.to_nat start) buf), draws)
  | LAes key =>
    let nonce := nonce_draw draws in
    let text := drop (Z.to_nat (start + NONCE)) buf in
    (m, take (Z.to_nat start) buf ++ nonce ++ default text (gcm_seal key nonce text), S draws)
  | LDns header => (m, put_at (put_at buf start header) start (be_bytes 2 (id_draw draws)), S draws)
  | LDtls epoch length sequence =>
    let b := [x17; xfe; xfd] ++ be_bytes 2 epoch ++ [x00; x00] ++ be_bytes 4 sequence ++ be_bytes 2 length in
    let length' := wrap16 (length + 17) in
    (LDtls epoch (if 100 <? length' then length' - 50 else length') (wrapping_add32 sequence 1), put_at buf start b, draws)
  | LSrtp number =>
    let number := wrap16 (number + 1) in (LSrtp number, put_at buf start ([x00; x00] ++ be_bytes 2 number), draws)
  | LUtp => (m, put_at buf start [x00; x00; x00; x00], draws)
  | LWechat sn =>
    let sn := wrapping_add32 sn 1 in
    (LWechat sn, put_at buf start ([xa1; x08] ++ be_bytes 4 sn ++ [x00; x10; x11; x18; x30; x22; x30]), draws)
  | LWireguard => (m, put_at buf start [x04; x00; x00; x00], draws)
  end.

(** [Legacy::open]: the region after it and the range of what was wrapped, or [None] to drop it *)
Definition mask_open (m : Legacy) (region : list byte) : total (option (list byte * (Z * Z))) :=
  match m with
  | LOriginal =>
    let region := xor_back region in
    let? hash := slice region 0 4 in
    let? body := slice_from region 4 in
    if negb (from_be hash =? fnv1a body) then Ok None
    else
      let? length := slice region 4 6 in
      Ok (if len region - ORIGINAL =? from_be length then Some (region, (ORIGINAL, len region)) else None)
  | LAes key =>
    if len region <? NONCE + TAG then Ok None
    else
      match gcm_open key (take 12 region) (drop 12 region) with
      | Some text => Ok (Some (take 12 region ++ text ++ drop (Z.to_nat (len region - TAG)) region, (NONCE, len region - TAG)))
      | None => Ok None
      end
  | _ => Ok (Some (region, (mask_size m, len region)))
  end.

(** ** Groups *)

Definition group_size (g : list Legacy) : Z := sum_of (map mask_size g).

Fixpoint seal_loop (g : list Legacy) (buf : list byte) (start : Z) (draws : nat) : list Legacy * list byte * nat :=
  match g with
  | [] => ([], buf, draws)
  | m :: g =>
    let start := start - mask_size m in
    let '(m, buf, draws) := mask_seal m buf start draws in
    let '(g, buf, draws) := seal_loop g buf start draws in (m :: g, buf, draws)
  end.

Definition group_seal (g : list Legacy) (payload : list byte) (draws : nat) : option (list byte) * list Legacy * nat :=
  if bool_decide (g = []) then (Some payload, g, draws)
  else
    let size := group_size g in
    if UDP_SIZE <? size + len payload then (None, g, draws)
    else
      let '(g, buf, draws) := seal_loop g (replicate (Z.to_nat size) x00 ++ payload) size draws in
      (if len buf <=? UDP_SIZE then Some buf else None, g, draws).

(** The turns of [Group::open], the outermost mask first *)
Fixpoint open_loop (g : list Legacy) (buf : list byte) (range : Z * Z) : total (option (list byte * (Z * Z))) :=
  match g with
  | [] => Ok (Some (buf, range))
  | m :: g =>
    let? region := slice buf (fst range) (snd range) in
    let? opened := mask_open m region in
    match opened with
    | Some (region, inner) =>
      open_loop g (take (Z.to_nat (fst range)) buf ++ region ++ drop (Z.to_nat (snd range)) buf)
        (fst range + fst inner, fst range + snd inner)
    | None => Ok None
    end
  end.

(** The length of a range, which is zero when it ends before it starts *)
Definition range_len (r : Z * Z) : Z := Z.max 0 (snd r - fst r).

Definition group_open (g : list Legacy) (buf : list byte) (range : Z * Z) : total (option (list byte * (Z * Z))) :=
  if bool_decide (g = []) then Ok (Some (buf, range))
  else if range_len range <? group_size g then Ok None
  else open_loop (reverse g) buf range.

(** ** The masks of a connection *)

Record Noise := mkNoise {
  noise_config : UdpNoiseConfig;
  reset_at : option Z
}.
Record Masks := mkMasks {
  inner_group : list Legacy;
  noise_mask : option Noise;
  outer_group : list Legacy
}.

Fixpoint masks_loop (masks : list KcpMask) (noise : option UdpNoiseConfig) (ms : Masks) : res MaskError Masks :=
  match masks with
  | [] => Ok ms
  | m :: masks =>
    let? legacy := Legacy_new m in
    match legacy with
    | Some legacy =>
      masks_loop masks noise
        match noise_mask ms with
        | Some _ => mkMasks (inner_group ms) (noise_mask ms) (outer_group ms ++ [legacy])
        | None => mkMasks (inner_group ms ++ [legacy]) (noise_mask ms) (outer_group ms)
        end
    | None =>
      let? config := ok_or noise NoiseWithoutSettings in
      match noise_mask ms with
      | Some _ => Err SecondNoise
      | None => let? _ := noise_validate config in masks_loop masks noise (mkMasks (inner_group ms) (Some (mkNoise config None)) (outer_group ms))
      end
    end
  end.
Definition Masks_new (masks : list KcpMask) (noise : option UdpNoiseConfig) : res MaskError Masks := masks_loop masks noise (mkMasks [] None []).

Record Wrapped := mkWrapped {
  w_noise : list (option (list byte) * Z);
  w_datagram : option (list byte)
}.

(** The noise packets, each with the pause after it *)
Fixpoint noise_loop (l : list UdpNoiseItem) (outer : list Legacy) (draws : nat)
    : total (list (option (list byte) * Z) * list Legacy * nat) :=
  match l with
  | [] => Ok ([], outer, draws)
  | i :: l =>
    let? (pause, draws) := sample_range (delay_ms i) draws in
    let? (bytes, draws) := noise_build i draws in
    let '(sealed, outer, draws) := group_seal outer bytes draws in
    let? (rest, outer, draws) := noise_loop l outer draws in
    Ok ((sealed, pause * 1000000) :: rest, outer, draws)
  end.

Definition noise_due (noise : option Noise) (now : Z) : list UdpNoiseItem :=
  match noise with
  | Some n =>
    if match reset_at n with None => true | Some t => (0 <? nr_to (reset_secs (noise_config n))) && (t <? now) end
    then items (noise_config n) else []
  | None => []
  end.

(** [Masks::wrap]; [None] when the masks before noise drop the datagram *)
Definition masks_wrap (ms : Masks) (datagram : list byte) (now : Z) (draws : nat) : total (option Wrapped * Masks * nat) :=
  let '(sealed, inner, draws) := group_seal (inner_group ms) datagram draws in
  match sealed with
  | None => Ok (None, mkMasks inner (noise_mask ms) (outer_group ms), draws)
  | Some datagram =>
    let? (noise, outer, draws) := noise_loop (noise_due (noise_mask ms) now) (outer_group ms) draws in
    let '(datagram, outer, draws) := group_seal outer datagram draws in
    Ok (Some (mkWrapped noise datagram), mkMasks inner (noise_mask ms) outer, draws)
  end.

(** [Masks::sent] *)
Definition masks_sent (ms : Masks) (now : Z) (draws : nat) : total (Masks * nat) :=
  match noise_mask ms with
  | None => Ok (ms, draws)
  | Some n =>
    let? (secs, draws) := sample_range (reset_secs (noise_config n)) draws in
    Ok (mkMasks (inner_group ms) (Some (mkNoise (noise_config n) (Some (now + secs * 1000000000)))) (outer_group ms), draws)
  end.

(** [Masks::open] *)
Definition masks_open (ms : Masks) (buf : list byte) : total (option (list byte * (Z * Z))) :=
  let? opened := group_open (outer_group ms) buf (0, len buf) in
  match opened with
  | Some (buf, range) => group_open (inner_group ms) buf range
  | None => Ok None
  end.

(** The bytes that [Driver::receive] reads segments from *)
Definition received_bytes (ms : Masks) (datagram : list byte) : total (option (list byte)) :=
  let? opened := masks_open ms datagram in
  match opened with
  | Some (buf, range) => let? bytes := slice buf (fst range) (snd range) in Ok (Some bytes)
  | None => Ok None
  end.
End Masks.

(** * What the masks promise *)

(** ** Bytes *)

Lemma len_write_at buf start bytes : 0 <= start -> start + len bytes <= len buf -> len (put_at buf start bytes) = len buf.
Proof. intros H1 H2. unfold put_at, len in *. rewrite !length_app, length_take, length_drop. lia. Qed.

Lemma slice_mid {E} (a b c : list byte) lo hi : lo = len a -> hi = len a + len b -> @slice E byte (a ++ b ++ c) lo hi = Ok b.
Proof.
  intros -> ->. unfold slice. pose proof (len_nonneg a). pose proof (len_nonneg b). pose proof (len_nonneg c).
  rewrite !len_app. guard_true by lia. do 2 f_equal.
  replace (Z.to_nat (len a + len b - len a)) with (length b) by (unfold len; lia). replace (Z.to_nat (len a)) with (length a) by (unfold len; lia).
  by rewrite drop_app_length, take_app_length.
Qed.

Lemma slice_inv {E} (buf : list byte) lo hi s :
  @slice E byte buf lo hi = Ok s ->
  0 <= lo <= hi /\ hi <= len buf /\ len s = hi - lo /\ buf = take (Z.to_nat lo) buf ++ s ++ drop (Z.to_nat hi) buf.
Proof.
  unfold slice. case_if; [|done]. apply andb_true_iff in Heqb as [[H1 H2]%andb_true_iff H3]. apply Z.leb_le in H1, H2, H3. intros [= <-].
  unfold len in *. rewrite length_take, length_drop. split_and!; [lia..|].
  rewrite <- (take_drop (Z.to_nat lo) buf) at 1. f_equal. rewrite <- (take_drop (Z.to_nat (hi - lo)) (drop (Z.to_nat lo) buf)) at 1. f_equal.
  rewrite drop_drop. f_equal. lia.
Qed.

Lemma len_xor_onward before rest : (0 < length before)%nat -> len (xor_onward before rest) = len rest.
Proof.
  revert before. induction rest as [|b rest IH]; intros before Hb; [done|]. destruct before as [|p before]; [simpl in Hb; lia|].
  cbn [xor_onward]. rewrite !len_cons, IH; [done|]. rewrite length_app. simpl. lia.
Qed.

(** Each byte meets the same one on the way back. *)
Lemma xor_onward_back before rest :
  (0 < length before)%nat -> zip_with xor_byte (xor_onward before rest) (before ++ xor_onward before rest) = rest.
Proof.
  revert before. induction rest as [|b rest IH]; intros before Hb; [by destruct before|]. destruct before as [|p before]; [simpl in Hb; lia|].
  cbn [xor_onward app zip_with]. rewrite xor_xor. f_equal. specialize (IH (before ++ [xor_byte b p])). rewrite <- app_assoc in IH. apply IH.
  rewrite length_app. simpl. lia.
Qed.

Lemma fnv1a_u32 bytes : in_u32 (fnv1a bytes).
Proof.
  unfold fnv1a. assert (forall l h, in_u32 h -> in_u32 (fold_left (fun h b => wrapping_mul32 (Z.lxor h (u8 b)) 0x01000193) l h)) as Hf; [|by apply Hf].
  induction l as [|b l IH]; intros h Hh; [done|]. cbn [fold_left]. apply IH. unfold wrapping_mul32, wrap32, in_u32. apply Z.mod_pos_bound. lia.
Qed.

(** ** One mask *)

Section Facts.
Context `{L : MaskCipherLaws} `{RL : MaskRandomLaws}.

(** Masks of the same settings, which may have counted differently *)
Definition same_kind (m m' : Legacy) : Prop :=
  match m, m' with
  | LOriginal, LOriginal | LDtls _ _ _, LDtls _ _ _ | LSrtp _, LSrtp _ | LUtp, LUtp | LWechat _, LWechat _ | LWireguard, LWireguard => True
  | LAes k, LAes k' => k = k'
  | LDns h, LDns h' => h = h'
  | _, _ => False
  end.

#[export] Instance same_kind_equiv : Equivalence same_kind.
Proof.
  split.
  - by intros [].
  - by intros [] []; simpl.
  - intros [] [] []; simpl; try done; congruence.
Qed.

Lemma same_kind_open m m' : same_kind m m' -> mask_open m = mask_open m' /\ mask_size m = mask_size m'.
Proof. destruct m, m'; simpl; try done; by intros ->. Qed.

Definition is_aes (m : Legacy) : bool := match m with LAes _ => true | _ => false end.

(** The bytes that a mask adds *)
Definition mask_added (m : Legacy) : Z := mask_size m + if is_aes m then TAG else 0.

Lemma mask_size_nonneg m : 0 <= mask_size m.
Proof. destruct m; simpl; unfold ORIGINAL, NONCE; try lia. apply len_nonneg. Qed.

Lemma open_original X R :
  len X = 6 -> len R < 65536 ->
  let region := seal_original (X ++ R) in
  len region = 6 + len R /\ exists region', mask_open LOriginal region = Ok (Some (region', (6, len region))) /\ len region' = len region
    /\ @slice Empty_set byte region' 6 (len region) = Ok R.
Proof.
  intros HX HR. pose proof (len_nonneg R). cbv zeta. unfold seal_original.
  assert (drop 6 (X ++ R) = R) as -> by (replace 6%nat with (length X) by (unfold len in HX; lia); apply drop_app_length).
  assert (wrap16 (len (X ++ R) - ORIGINAL) = len R) as -> by (rewrite len_app; unfold ORIGINAL, wrap16; rewrite Z.mod_small; lia).
  set (body := be_bytes 2 (len R) ++ R). set (hash := be_bytes 4 (fnv1a body)).
  assert (length hash = 4%nat) as Hh by apply length_be_bytes. assert (len hash = 4) as Hh' by (unfold len; lia).
  assert (len body = 2 + len R) as Hb by (unfold body; rewrite len_app, len_be_bytes; lia).
  assert (len (hash ++ xor_onward hash body) = 6 + len R) as Hlen by (rewrite len_app, len_xor_onward by lia; lia).
  split; [done|]. exists (hash ++ body). unfold mask_open.
  assert (xor_back (hash ++ xor_onward hash body) = hash ++ body) as ->.
  { unfold xor_back. rewrite <- Hh. rewrite take_app_length, drop_app_length. f_equal. apply xor_onward_back. lia. }
  cbv zeta. rewrite (slice_mid [] hash body 0 4) by (done || lia). cbn [res_bind]. unfold slice_from.
  assert (slice (hash ++ body) 4 (len (hash ++ body)) = Ok body) as ->
    by (rewrite <- (app_nil_r (hash ++ body)) at 1; rewrite <- app_assoc; apply slice_mid; [lia | rewrite len_app; lia]).
  cbn [res_bind]. assert (from_be hash = fnv1a body) as ->.
  { unfold hash. pose proof (fnv1a_u32 body) as Hu. unfold in_u32 in Hu. apply from_be_bytes_small. change (256 ^ Z.of_nat 4) with 4294967296. lia. }
  rewrite Z.eqb_refl. cbn [negb]. assert (slice (hash ++ body) 4 6 = Ok (be_bytes 2 (len R))) as ->
    by (unfold body; apply slice_mid; [lia | rewrite len_be_bytes; lia]).
  cbn [res_bind]. rewrite from_be_bytes_small by (change (256 ^ Z.of_nat 2) with 65536; lia).
  assert (len (hash ++ body) = 6 + len R) as Hl2 by (rewrite len_app; lia). rewrite Hl2, Hlen. guard_true by (unfold ORIGINAL; lia).
  split_and!; [done | done|]. unfold body. replace (hash ++ be_bytes 2 (len R) ++ R) with ((hash ++ be_bytes 2 (len R)) ++ R ++ []) by (by rewrite app_nil_r, app_assoc).
  apply slice_mid; rewrite len_app, len_be_bytes; lia.
Qed.

(** A DNS header has room for its id. *)
Definition mask_ok (m : Legacy) : Prop := match m with LDns h => 2 <= len h | _ => True end.

Lemma write_at_twice buf start header id :
  0 <= start -> start + len header <= len buf -> len id <= len header ->
  put_at (put_at buf start header) start id = put_at buf start (id ++ drop (length id) header).
Proof.
  intros Hs Hl Hid. unfold put_at, len in *. rewrite length_app, length_drop.
  set (a := take (Z.to_nat start) buf). assert (Z.to_nat start = length a) as Ea by (unfold a; rewrite length_take; lia).
  set (z := drop (Z.to_nat (start + Z.of_nat (length id + (length header - length id)))) buf).
  replace (drop (Z.to_nat (start + Z.of_nat (length header))) buf) with z by (unfold z; f_equal; lia). clearbody z.
  replace (Z.to_nat (start + Z.of_nat (length id))) with (length a + length id)%nat by lia. rewrite Ea. rewrite take_app_length.
  rewrite <- drop_drop, drop_app_length, drop_app_le by lia. by rewrite <- app_assoc.
Qed.

Lemma open_aes key n t c :
  len n = 12 -> len c = len t + 16 -> gcm_open key n c = Some t ->
  exists region', mask_open (LAes key) (n ++ c) = Ok (Some (region', (12, len (n ++ c) - 16))) /\ len region' = len (n ++ c)
    /\ @slice Empty_set byte region' 12 (len (n ++ c) - 16) = Ok t.
Proof.
  intros Hn Hc Ho. pose proof (len_nonneg t). cbn [mask_open]. rewrite len_app. unfold NONCE, TAG. guard_false by lia.
  replace 12%nat with (length n) by (unfold len in Hn; lia). rewrite take_app_length, drop_app_length, Ho. eexists. split; [done|].
  assert (len (drop (Z.to_nat (len n + len c - 16)) (n ++ c)) = 16) as Hd by (unfold len in *; rewrite length_drop, length_app; lia).
  split; [rewrite !len_app; lia|]. apply slice_mid; lia.
Qed.

(** What a mask seals, masks of its settings open. *)
Lemma mask_seal_spec m buf start draws :
  mask_ok m -> 0 <= start -> start + mask_size m <= len buf ->
  let '(m', buf', draws') := mask_seal m buf start draws in
  let R := drop (Z.to_nat (start + mask_size m)) buf in
  same_kind m m' /\ exists region, buf' = take (Z.to_nat start) buf ++ region /\ len region = len R + mask_added m
    /\ (len R < 65536 -> exists region' lo hi, mask_open m region = Ok (Some (region', (lo, hi))) /\ len region' = len region
          /\ @slice Empty_set byte region' lo hi = Ok R).
Proof.
  intros Hm Hs Hl. assert (forall header, len header = mask_size m -> (forall region, mask_open m region = Ok (Some (region, (mask_size m, len region)))) ->
    is_aes m = false -> let R := drop (Z.to_nat (start + mask_size m)) buf in
    exists region, put_at buf start header = take (Z.to_nat start) buf ++ region /\ len region = len R + mask_added m
    /\ (len R < 65536 -> exists region' lo hi, mask_open m region = Ok (Some (region', (lo, hi))) /\ len region' = len region
          /\ @slice Empty_set byte region' lo hi = Ok R)) as Hplain.
  { intros header Hh Ho Ha. cbv zeta. exists (header ++ drop (Z.to_nat (start + mask_size m)) buf). unfold put_at. rewrite Hh. split; [done|].
    unfold mask_added. rewrite Ha, len_app. split; [lia|]. intros _. eexists _, _, _. split; [apply Ho|]. split; [by rewrite len_app|].
    rewrite <- (app_nil_r (drop _ buf)) at 1. apply slice_mid; rewrite ?app_nil_r, ?len_app; lia. }
  destruct m as [|key|header|epoch length sequence|number| |sn|]; cbn [mask_seal]; cbv zeta.
  - split; [done|]. cbn [mask_size] in *. unfold ORIGINAL in *. set (D := drop (Z.to_nat start) buf).
    assert (D = take 6 D ++ drop (Z.to_nat (start + 6)) buf) as ED
      by (rewrite <- (take_drop 6 D) at 1; f_equal; unfold D; rewrite drop_drop; f_equal; lia).
    assert (len (take 6 D) = 6) as HX by (unfold D, len in *; rewrite length_take, length_drop; lia).
    exists (seal_original D). split; [done|]. set (R := drop (Z.to_nat (start + 6)) buf) in *. rewrite ED. split.
    + unfold seal_original, mask_added. rewrite len_app, len_xor_onward, !len_be_bytes, len_app, len_be_bytes by (rewrite length_be_bytes; lia).
      replace 6%nat with (length (take 6 D)) at 1 by (unfold len in HX; lia). rewrite drop_app_length. simpl. unfold ORIGINAL. lia.
    + intros HR. destruct (open_original (take 6 D) R HX HR) as (Hlen & region' & Ho & Hl' & Hs'). by eexists _, _, _.
  - split; [done|]. cbn [mask_size] in *. set (t := drop (Z.to_nat (start + NONCE)) buf). pose proof (nonce_length draws) as Hn.
    destruct (gcm_seals key (nonce_draw draws) t Hn) as (c & Hc & Hlc & Hoc). rewrite Hc. change (default t (Some c)) with c.
    exists (nonce_draw draws ++ c). split; [done|]. split; [rewrite len_app; unfold mask_added; simpl; unfold NONCE, TAG; lia|].
    intros _. destruct (open_aes key _ t c Hn Hlc Hoc) as (region' & Ho & Hl' & Hs'). by eexists _, _, _.
  - split; [done|]. cbn [mask_size mask_ok] in *. rewrite write_at_twice by (rewrite ?len_be_bytes; lia). apply Hplain; [|done..].
    rewrite length_be_bytes, len_app, len_be_bytes. unfold len in *. rewrite length_drop. lia.
  - split; [done|]. apply Hplain; [|done..]. rewrite !len_app, !len_be_bytes. done.
  - split; [done|]. apply Hplain; [|done..]. rewrite !len_app, !len_be_bytes. done.
  - split; [done|]. by apply Hplain.
  - split; [done|]. apply Hplain; [|done..]. rewrite !len_app, !len_be_bytes. done.
  - split; [done|]. by apply Hplain.
Qed.

(** ** Groups *)

Lemma group_size_cons m g : group_size (m :: g) = mask_size m + group_size g.
Proof. done. Qed.

Lemma group_size_nonneg g : 0 <= group_size g.
Proof. induction g as [|m g IH]; [done|]. rewrite group_size_cons. pose proof (mask_size_nonneg m). lia. Qed.

Definition group_added (g : list Legacy) : Z := sum_of (map mask_added g).

Lemma group_added_size g : group_size g <= group_added g.
Proof.
  induction g as [|m g IH]; [done|]. unfold group_size, group_added in *. cbn [map sum_of fold_right]. fold (sum_of (map mask_size g)).
  fold (sum_of (map mask_added g)). unfold mask_added at 1. unfold TAG. destruct (is_aes m); lia.
Qed.

Lemma open_loop_app g h buf range :
  open_loop (g ++ h) buf range
  = let? opened := open_loop g buf range in match opened with Some (buf, range) => open_loop h buf range | None => Ok None end.
Proof.
  revert buf range. induction g as [|m g IH]; intros buf range; [done|]. cbn [app open_loop].
  destruct (slice buf (fst range) (snd range)) as [region| |]; [|done..]. cbn [res_bind].
  destruct (mask_open m region) as [[[region' inner]|]| |]; [|done..]. cbn [res_bind]. apply IH.
Qed.

(** A part of a buffer that a mask opens *)
Lemma open_loop_one m buf lo hi out region a b R :
  @slice Empty_set byte buf lo hi = Ok out -> mask_open m out = Ok (Some (region, (a, b))) -> len region = len out ->
  @slice Empty_set byte region a b = Ok R ->
  exists buf', open_loop [m] buf (lo, hi) = Ok (Some (buf', (lo + a, lo + b))) /\ @slice Empty_set byte buf' (lo + a) (lo + b) = Ok R.
Proof.
  intros Hs Ho Hl Hr. cbn [open_loop fst snd]. rewrite Hs. cbn [res_bind]. rewrite Ho. cbn [res_bind fst snd]. eexists. split; [reflexivity|].
  apply slice_inv in Hs as (H1 & H2 & H3 & _). apply slice_inv in Hr as (H4 & H5 & H6 & Er). rewrite Er.
  set (x := take (Z.to_nat lo) buf). assert (len x = lo) as Hx by (unfold x, len in *; rewrite length_take; lia).
  assert (len (take (Z.to_nat a) region) = a) as Ha by (unfold len in *; rewrite length_take; lia).
  rewrite <- !app_assoc, (app_assoc x). apply slice_mid; rewrite len_app; lia.
Qed.

Lemma seal_loop_spec g : forall buf draws,
  Forall mask_ok g -> group_size g <= len buf ->
  let '(g', out, draws') := seal_loop g buf (group_size g) draws in
  let R := drop (Z.to_nat (group_size g)) buf in
  Forall2 same_kind g g' /\ len out = len R + group_added g
  /\ (len out < 65536 -> forall B lo hi, @slice Empty_set byte B lo hi = Ok out ->
        exists buf' range, open_loop (reverse g) B (lo, hi) = Ok (Some (buf', range))
        /\ @slice Empty_set byte buf' (fst range) (snd range) = Ok R).
Proof.
  induction g as [|m g IH]; intros buf draws Hok Hl.
  - cbn [seal_loop]. change (Z.to_nat (group_size [])) with 0%nat. rewrite drop_0. split; [constructor|].
    split; [change (group_added []) with 0; lia|]. intros _ B lo hi HB. by eexists _, _.
  - cbn [seal_loop]. rewrite group_size_cons in *. apply list.Forall_cons in Hok as [Hm Hok]. cbv zeta.
    replace (mask_size m + group_size g - mask_size m) with (group_size g) by lia. pose proof (group_size_nonneg g) as Hg.
    pose proof (mask_seal_spec m buf (group_size g) draws Hm Hg ltac:(lia)) as Hseal.
    destruct (mask_seal m buf (group_size g) draws) as [[m' buf1] draws1]. destruct Hseal as (Hk & region & -> & Hlr & Hopen).
    set (pre := take (Z.to_nat (group_size g)) buf) in *.
    assert (len pre = group_size g) as Hpre by (unfold pre, len in *; rewrite length_take; pose proof (mask_size_nonneg m); lia).
    specialize (IH (pre ++ region) draws1 Hok ltac:(rewrite len_app; pose proof (len_nonneg region); lia)).
    destruct (seal_loop g (pre ++ region) (group_size g) draws1) as [[g' out] draws2]. destruct IH as (Hks & HlS & HoS).
    assert (drop (Z.to_nat (group_size g)) (pre ++ region) = region) as Ed
      by (replace (Z.to_nat (group_size g)) with (length pre) by (unfold len in Hpre; lia); apply drop_app_length).
    rewrite Ed in HlS, HoS. rewrite (Z.add_comm (mask_size m)). set (R := drop (Z.to_nat (group_size g + mask_size m)) buf) in *.
    split; [by constructor|]. assert (len out = len R + group_added (m :: g)) as HS
      by (unfold group_added in *; cbn [map sum_of fold_right]; fold (sum_of (map mask_added g)); lia).
    split; [done|]. intros Hlim B lo0 hi0 HB. destruct (HoS Hlim B lo0 hi0 HB) as (buf' & [lo hi] & Ho & Hs). pose proof (group_added_size g). pose proof (group_size_nonneg g).
    destruct (Hopen ltac:(unfold mask_added, TAG in Hlr; pose proof (mask_size_nonneg m); destruct (is_aes m); lia)) as (region' & a & b & Hor & Hlr' & Hsr).
    destruct (open_loop_one m buf' lo hi region region' a b R Hs Hor Hlr' Hsr) as (buf2 & Ho2 & Hs2).
    exists buf2, (lo + a, lo + b). split; [|exact Hs2]. rewrite reverse_cons, open_loop_app, Ho. cbn [res_bind]. exact Ho2.
Qed.

(** What a group seals, groups of its settings open; it drops only what is too large. *)
Lemma group_seal_spec g payload draws :
  Forall mask_ok g ->
  let '(sealed, g', draws') := group_seal g payload draws in
  Forall2 same_kind g g'
  /\ match sealed with
     | Some out => len out = len payload + group_added g /\ (g = [] \/ len out <= UDP_SIZE)
         /\ forall B lo hi, @slice Empty_set byte B lo hi = Ok out ->
              exists buf range, group_open g B (lo, hi) = Ok (Some (buf, range)) /\ @slice Empty_set byte buf (fst range) (snd range) = Ok payload
     | None => UDP_SIZE < len payload + group_added g
     end.
Proof.
  intros Hok. unfold group_seal. case_bool_decide as Hg.
  { subst g. split; [constructor|]. change (group_added []) with 0. split; [lia|]. split; [by left|]. intros B lo hi HB. unfold group_open.
    rewrite bool_decide_true by done. by eexists _, _. }
  pose proof (group_size_nonneg g) as Hn. pose proof (group_added_size g) as Ha. cbv zeta.
  destruct (Z.ltb_spec UDP_SIZE (group_size g + len payload)) as [Hbig|Hfit]; [split; [reflexivity|lia]|].
  set (buf := replicate (Z.to_nat (group_size g)) x00 ++ payload).
  assert (len (replicate (Z.to_nat (group_size g)) x00) = group_size g) as Hr by (unfold len; rewrite length_replicate; lia).
  pose proof (seal_loop_spec g buf draws Hok ltac:(unfold buf; rewrite len_app; pose proof (len_nonneg payload); lia)) as Hs.
  destruct (seal_loop g buf (group_size g) draws) as [[g' out] draws']. destruct Hs as (Hk & Hl & Ho).
  assert (drop (Z.to_nat (group_size g)) buf = payload) as Ed
    by (unfold buf; replace (Z.to_nat (group_size g)) with (length (replicate (Z.to_nat (group_size g)) x00)) at 1 by (rewrite length_replicate; done); apply drop_app_length).
  rewrite Ed in Hl, Ho. split; [done|]. destruct (Z.leb_spec (len out) UDP_SIZE) as [Hle|Hgt]; [|lia]. split; [done|]. split; [by right|].
  intros B lo hi HB. destruct (Ho ltac:(unfold UDP_SIZE in Hle; lia) B lo hi HB) as (buf' & range & Hop & Hsl). exists buf', range. split; [|done].
  apply slice_inv in HB as (_ & _ & HB & _). unfold group_open. rewrite bool_decide_false by done. unfold range_len. cbn [fst snd].
  pose proof (len_nonneg payload). guard_false by lia. done.
Qed.

(** ** The masks of a connection *)

Definition same_masks (ms ms' : Masks) : Prop :=
  Forall2 same_kind (inner_group ms) (inner_group ms') /\ Forall2 same_kind (outer_group ms) (outer_group ms')
  /\ noise_config <$> noise_mask ms = noise_config <$> noise_mask ms'.

Record masks_ok (ms : Masks) : Prop := {
  mk_inner : Forall mask_ok (inner_group ms);
  mk_outer : Forall mask_ok (outer_group ms);
  mk_noise : forall n, noise_mask ms = Some n -> noise_validate (noise_config n) = Ok ()
}.

#[export] Instance same_masks_equiv : Equivalence same_masks.
Proof.
  split.
  - intros ms. split_and!; reflexivity.
  - intros ms ms' (? & ? & ?). split_and!; by symmetry.
  - intros a b c (? & ? & ?) (? & ? & ?). split_and!; by etrans.
Qed.

Lemma same_open_loop g g' buf range : Forall2 same_kind g g' -> open_loop g buf range = open_loop g' buf range.
Proof.
  intros Hf. revert buf range. induction Hf as [|m m' g g' Hm _ IH]; intros buf range; [done|]. cbn [open_loop]. destruct (same_kind_open m m' Hm) as [-> _].
  destruct (slice buf (fst range) (snd range)) as [region| |]; [|done..]. cbn [res_bind]. destruct (mask_open m' region) as [[[r i]|]| |]; [|done..]. apply IH.
Qed.

Lemma same_group g g' : Forall2 same_kind g g' -> group_size g = group_size g' /\ group_added g = group_added g'.
Proof.
  unfold group_size, group_added. induction 1 as [|m m' g g' Hm _ [IH1 IH2]]; [done|]. cbn [map sum_of fold_right].
  destruct (same_kind_open m m' Hm) as [_ Hsz]. fold (sum_of (map mask_size g)) (sum_of (map mask_size g')) (sum_of (map mask_added g)) (sum_of (map mask_added g')).
  unfold mask_added at 1 3. rewrite Hsz, IH1, IH2. by destruct m, m'.
Qed.

Lemma same_group_open g g' buf range : Forall2 same_kind g g' -> group_open g buf range = group_open g' buf range.
Proof.
  intros Hf. unfold group_open. destruct (same_group g g' Hf) as [-> _]. pose proof (Forall2_reverse _ _ _ Hf) as Hr.
  rewrite (same_open_loop _ _ buf range Hr). by destruct Hf.
Qed.

Lemma same_group_ok g g' : Forall2 same_kind g g' -> Forall mask_ok g -> Forall mask_ok g'.
Proof.
  induction 1 as [|m m' g g' Hm _ IH]; [done|]. intros [Ho Hos]%list.Forall_cons. constructor; [|by apply IH].
  destruct m, m'; simpl in *; try done. by subst.
Qed.

Lemma received_same ms ms' datagram : same_masks ms ms' -> received_bytes ms datagram = received_bytes ms' datagram.
Proof.
  intros (Hi & Ho & _). unfold received_bytes, masks_open. rewrite (same_group_open _ _ _ _ Ho).
  destruct (group_open (outer_group ms') datagram (0, len datagram)) as [[[buf range]|]| |]; [|done..]. cbn [res_bind].
  by rewrite (same_group_open _ _ _ _ Hi).
Qed.

Lemma same_masks_ok ms ms' : same_masks ms ms' -> masks_ok ms -> masks_ok ms'.
Proof.
  intros (Hi & Ho & Hn) [H1 H2 H3]. split; [by eapply same_group_ok | by eapply same_group_ok|]. intros n E. rewrite E in Hn.
  destruct (noise_mask ms) as [n'|] eqn:E'; [|done]. injection Hn as <-. by apply H3.
Qed.

(** ** Noise *)

Definition range_ok (r : NoiseRange) : Prop := nr_from r <= nr_to r.
Definition item_ok (i : UdpNoiseItem) : Prop := range_ok (random_length i) /\ range_ok (random_bytes i) /\ range_ok (delay_ms i).

Lemma validated c : noise_validate c = Ok () -> range_ok (reset_secs c) /\ Forall item_ok (items c).
Proof.
  unfold noise_validate. case_if; [done|]. intros _. apply orb_false_iff in Heqb as [[[_ Hr]%orb_false_iff He]%orb_false_iff _].
  unfold range_valid, range_ok in *. split; [apply negb_false_iff, andb_true_iff in Hr as [Hr _]; lia|].
  apply list.Forall_forall. intros i Hi. assert (existsb (fun i =>
    (4096 <? len (packet i)) || negb (range_valid (random_length i) 4096) || negb (range_valid (random_bytes i) 255)
    || negb (range_valid (delay_ms i) 1000) || (negb (bool_decide (packet i = [])) && negb (nr_to (random_length i) =? 0))) (items c) = false) as Hf by exact He.
  rewrite <- not_true_iff_false, existsb_exists in Hf. unfold item_ok, range_ok.
  destruct (range_valid (random_length i) 4096) eqn:E1, (range_valid (random_bytes i) 255) eqn:E2, (range_valid (delay_ms i) 1000) eqn:E3;
    try (exfalso; apply Hf; exists i; split; [by apply list_elem_of_In|]; rewrite E1, E2, E3; by rewrite ?orb_true_r).
  unfold range_valid in *. apply andb_true_iff in E1 as [E1 _], E2 as [E2 _], E3 as [E3 _]. lia.
Qed.

Lemma sample_total r draws : range_ok r -> exists n, sample_range r draws = Ok (n, S draws).
Proof. unfold range_ok, sample_range. intros Hr. guard_true by lia. by eexists. Qed.

Lemma noise_bytes_total n r draws : range_ok r -> exists b d, noise_bytes n r draws = Ok (b, d).
Proof.
  intros Hr. revert draws. induction n as [|n IH]; intros draws; [by eexists _, _|]. cbn [noise_bytes].
  destruct (sample_total r draws Hr) as [b ->]. cbn [res_bind]. destruct (IH (S draws)) as (bs & d & ->). by eexists _, _.
Qed.

Lemma noise_build_total i draws : item_ok i -> exists b d, noise_build i draws = Ok (b, d).
Proof.
  intros (H1 & H2 & _). unfold noise_build. case_if; [by eexists _, _|]. destruct (sample_total _ draws H1) as [n ->]. cbn [res_bind]. by apply noise_bytes_total.
Qed.

Lemma noise_loop_total l outer draws :
  Forall item_ok l -> Forall mask_ok outer ->
  exists noise outer' draws', noise_loop l outer draws = Ok (noise, outer', draws') /\ Forall2 same_kind outer outer'.
Proof.
  intros Hl. revert outer draws. induction Hl as [|i l Hi _ IH]; intros outer draws Ho; [by eexists _, _, _|]. cbn [noise_loop].
  destruct (sample_total (delay_ms i) draws ltac:(apply Hi)) as [p ->]. cbn [res_bind]. destruct (noise_build_total i (S draws) Hi) as (b & d & ->). cbn [res_bind].
  pose proof (group_seal_spec outer b d Ho) as Hs. destruct (group_seal outer b d) as [[sealed outer1] d1]. destruct Hs as [Hk _].
  destruct (IH outer1 d1 (same_group_ok _ _ Hk Ho)) as (noise & outer2 & d2 & -> & Hk2). cbn [res_bind]. eexists _, _, _. split; [done|]. by etrans.
Qed.

(** ** Sending *)

Inductive masks_step (ms : Masks) : Masks -> Prop :=
| step_wrap datagram now draws w ms' draws' : masks_wrap ms datagram now draws = Ok (w, ms', draws') -> masks_step ms ms'
| step_sent now draws ms' draws' : masks_sent ms now draws = Ok (ms', draws') -> masks_step ms ms'.

Lemma dns_header_ok domain h : dns_header domain = Ok h -> 2 <= len h.
Proof.
  unfold dns_header. destruct (pack_domain_name _) as [name| |]; [|done..]. cbn [res_bind]. intros [= <-]. cbn [app]. rewrite !len_cons.
  pose proof (len_nonneg (name ++ [x00; x01; x00; x01])). lia.
Qed.

Lemma legacy_new_ok m l : Legacy_new m = Ok (Some l) -> mask_ok l.
Proof.
  destruct m as [|p|h|]; cbn [Legacy_new]; try by intros [= <-]. destruct h as [d| | | | |]; try by intros [= <-].
  destruct (dns_header d) as [h| |] eqn:E; [|done..]. cbn [res_bind]. intros [= <-]. by eapply dns_header_ok.
Qed.

Lemma masks_loop_ok masks noise ms ms' : masks_ok ms -> masks_loop masks noise ms = Ok ms' -> masks_ok ms'.
Proof.
  revert ms. induction masks as [|m masks IH]; intros ms Hok; cbn [masks_loop]; [by intros [= <-]|]. pose proof Hok as [H1 H2 H3].
  destruct (Legacy_new m) as [[l|]| |] eqn:El; [| |done..]; cbn [res_bind].
  - apply legacy_new_ok in El. apply IH. destruct (noise_mask ms) as [n|] eqn:En; split; cbn; try done.
    + apply list.Forall_app. split; [done|]. by constructor.
    + apply list.Forall_app. split; [done|]. by constructor.
  - destruct noise as [c|]; [|done]. cbn [ok_or res_bind]. destruct (noise_mask ms); [done|].
    destruct (noise_validate c) as [[]| |] eqn:Ev; [|done..]. cbn [res_bind]. apply IH. split; cbn; [done | done|]. by intros n [= <-].
Qed.

Lemma noise_due_ok ms now : masks_ok ms -> Forall item_ok (noise_due (noise_mask ms) now).
Proof.
  intros Hok. unfold noise_due. destruct (noise_mask ms) as [n|] eqn:En; [|constructor]. case_if; [|constructor].
  by apply validated, (mk_noise ms Hok n).
Qed.

Lemma masks_wrap_spec ms datagram now draws :
  masks_ok ms ->
  exists w ms' draws', masks_wrap ms datagram now draws = Ok (w, ms', draws') /\ same_masks ms ms'
    /\ (len datagram + group_added (inner_group ms) + group_added (outer_group ms) <= UDP_SIZE -> exists noise out, w = Some (mkWrapped noise (Some out)))
    /\ (forall noise out, w = Some (mkWrapped noise (Some out)) -> received_bytes ms out = Ok (Some datagram)).
Proof.
  intros Hok. unfold masks_wrap. pose proof (group_seal_spec (inner_group ms) datagram draws (mk_inner ms Hok)) as Hi.
  destruct (group_seal (inner_group ms) datagram draws) as [[sealed inner] d1]. destruct Hi as [Hki Hi]. pose proof (group_size_nonneg (outer_group ms)).
  pose proof (group_added_size (outer_group ms)). destruct sealed as [s1|].
  2: { eexists _, _, _. split; [reflexivity|]. split; [split_and!; [done | reflexivity | done]|]. split; [lia|]. done. }
  destruct Hi as (Hl1 & Hcap & Hopen1).
  destruct (noise_loop_total (noise_due (noise_mask ms) now) (outer_group ms) d1 (noise_due_ok ms now Hok) (mk_outer ms Hok)) as (noise & outer & d2 & -> & Hko).
  cbn [res_bind]. pose proof (group_seal_spec outer s1 d2 (same_group_ok _ _ Hko (mk_outer ms Hok))) as Ho.
  destruct (group_seal outer s1 d2) as [[sealed outer'] d3]. destruct Ho as [Hko' Ho]. destruct (same_group _ _ Hko) as [_ Hadd].
  eexists _, _, _. split; [reflexivity|]. split; [split_and!; [done | by etrans | done]|]. split.
  - intros Hfit. destruct sealed as [out|]; [by eexists _, _|]. lia.
  - intros noise' out [= _ ->]. destruct Ho as (Hl2 & _ & Hopen2). unfold received_bytes, masks_open.
    rewrite (same_group_open _ _ out (0, len out) Hko). destruct (Hopen2 out 0 (len out)) as (buf & [lo hi] & -> & Hs).
    { rewrite <- (app_nil_r out) at 1. by apply (slice_mid [] out []). }
    cbn [res_bind]. destruct (Hopen1 buf lo hi Hs) as (buf' & range & -> & Hs'). cbn [res_bind]. rewrite Hs'. done.
Qed.

Lemma masks_sent_spec ms now draws : masks_ok ms -> exists ms' draws', masks_sent ms now draws = Ok (ms', draws') /\ same_masks ms ms'.
Proof.
  intros Hok. unfold masks_sent. destruct (noise_mask ms) as [n|] eqn:En; [|eexists _, _; split; [done | reflexivity]].
  destruct (validated _ (mk_noise ms Hok n En)) as [Hr _]. destruct (sample_total _ draws Hr) as [s ->]. cbn [res_bind].
  eexists _, _. split; [done|]. split_and!; [reflexivity | reflexivity|]. cbn. by rewrite En.
Qed.

Lemma steps_same ms ms' : masks_ok ms -> rtc masks_step ms ms' -> same_masks ms ms'.
Proof.
  intros Hok. induction 1 as [|a b c Hs _ IH]; [reflexivity|]. assert (same_masks a b) as Hab.
  { destruct Hs as [datagram now draws w b' d' E|now draws b' d' E].
    - destruct (masks_wrap_spec a datagram now draws Hok) as (w2 & b2 & d2 & E2 & Hsame & _). rewrite E in E2. by simplify_eq.
    - destruct (masks_sent_spec a now draws Hok) as (b2 & d2 & E2 & Hsame). rewrite E in E2. by simplify_eq. }
  etrans; [exact Hab|]. apply IH. by eapply same_masks_ok.
Qed.

(** C9: Whatever masks are configured and however much was sent before, wrapping an mKCP datagram neither
    panics nor drops one that fits 4096 bytes with what the masks add, and the peer, whose masks are of the
    same settings, unwraps what is sent to exactly the datagram. *)
Theorem kcp_masks_roundtrip masks noise ms0 ms datagram now draws :
  Masks_new masks noise = Ok ms0 -> rtc masks_step ms0 ms ->
  exists w ms' draws', masks_wrap ms datagram now draws = Ok (w, ms', draws')
    /\ (len datagram + group_added (inner_group ms0) + group_added (outer_group ms0) <= UDP_SIZE -> exists noise' out, w = Some (mkWrapped noise' (Some out)))
    /\ (forall noise' out, w = Some (mkWrapped noise' (Some out)) -> received_bytes ms0 out = Ok (Some datagram)).
Proof.
  intros Hnew Hsteps. assert (masks_ok ms0) as Hok by (eapply masks_loop_ok; [|exact Hnew]; split; cbn; [constructor | constructor | done]).
  pose proof (steps_same _ _ Hok Hsteps) as Hsame. destruct Hsame as (Hi & Ho & Hn).
  destruct (masks_wrap_spec ms datagram now draws (same_masks_ok _ _ (conj Hi (conj Ho Hn)) Hok)) as (w & ms' & draws' & E & _ & Hfit & Hback).
  exists w, ms', draws'. destruct (same_group _ _ Hi) as [_ ->], (same_group _ _ Ho) as [_ ->]. split_and!; [done | done|].
  intros noise' out Hw. rewrite (received_same ms0 ms out) by done. by eapply Hback.
Qed.

(** ** Receiving *)

Definition within (buf : list byte) (range : Z * Z) : Prop := 0 <= fst range <= snd range /\ snd range <= len buf.

Lemma slice_within {E} buf range : within buf range -> exists s, @slice E byte buf (fst range) (snd range) = Ok s /\ len s = snd range - fst range.
Proof.
  intros [H1 H2]. unfold slice. guard_true by lia. eexists. split; [done|]. unfold len in *. rewrite length_take, length_drop. lia.
Qed.

(** A mask that is given at least its own bytes does not panic. *)
Lemma mask_open_safe m region :
  mask_size m <= len region ->
  mask_open m region = Ok None
  \/ exists region' a b, mask_open m region = Ok (Some (region', (a, b))) /\ len region' = len region /\ within region' (a, b)
     /\ (is_aes m = false -> b - a = len region - mask_size m).
Proof.
  intros Hm. pose proof (mask_size_nonneg m). unfold within. destruct m as [|key|h|e l s|n| |sn|]; cbn [mask_open mask_size is_aes] in *.
  3-8: right; eexists _, _, _; split; [done|]; cbn [fst snd]; split_and!; (done || lia).
  - unfold ORIGINAL in *. assert (len (xor_back region) = len region) as Hl
      by (unfold xor_back, len in *; rewrite length_app, length_take, length_zip_with, length_drop; lia).
    cbv zeta. destruct (slice_within (E := Empty_set) (xor_back region) (0, 4)) as (h4 & Eh & _); [unfold within; cbn [fst snd]; lia|]. cbn [fst snd] in Eh.
    rewrite Eh. cbn [res_bind]. unfold slice_from.
    destruct (slice_within (E := Empty_set) (xor_back region) (4, len (xor_back region))) as (b4 & Eb & _); [unfold within; cbn [fst snd]; lia|].
    cbn [fst snd] in Eb. rewrite Eb. cbn [res_bind]. case_if; [by left|].
    destruct (slice_within (E := Empty_set) (xor_back region) (4, 6)) as (l2 & El & _); [unfold within; cbn [fst snd]; lia|]. cbn [fst snd] in El. rewrite El.
    cbn [res_bind]. case_if; [|by left]. right. eexists _, _, _. split; [done|]. cbn [fst snd]. split_and!; (done || lia).
  - unfold NONCE, TAG. case_if; [by left|]. destruct (gcm_open key (take 12 region) (drop 12 region)) as [t|] eqn:Eo; [|by left]. right.
    eexists _, _, _. split; [done|]. apply gcm_opens in Eo. cbn [fst snd].
    assert (len (take 12 region ++ t ++ drop (Z.to_nat (len region - 16)) region) = len region) as Hl
      by (unfold len in *; rewrite !length_app, length_take; rewrite length_drop in *; lia).
    split_and!; (done || lia).
Qed.

(** In the order of opening, the bytes an AES mask takes beyond its own come from no other mask. *)
Fixpoint aes_last (g : list Legacy) : Prop :=
  match g with [] | [_] => True | m :: g => is_aes m = false /\ aes_last g end.

Lemma open_loop_safe g buf range :
  aes_last g -> within buf range -> group_size g <= snd range - fst range ->
  open_loop g buf range = Ok None \/ exists buf' range', open_loop g buf range = Ok (Some (buf', range')) /\ within buf' range'.
Proof.
  revert buf range. induction g as [|m g IH]; intros buf range Ha Hw Hs; [right; by eexists _, _|]. rewrite group_size_cons in Hs.
  pose proof (group_size_nonneg g) as Hn. cbn [open_loop]. destruct (slice_within (E := Empty_set) buf range Hw) as (region & -> & Hl). cbn [res_bind].
  destruct (mask_open_safe m region ltac:(lia)) as [->|(region' & a & b & -> & Hl' & [Hab Hb] & Hlen)]; [by left|]. cbn [res_bind fst snd] in *.
  destruct Hw as [H1 H2]. set (buf' := take (Z.to_nat (fst range)) buf ++ region' ++ drop (Z.to_nat (snd range)) buf).
  assert (within buf' (fst range + a, fst range + b)) as Hw'.
  { unfold within, buf', len in *. cbn [fst snd]. rewrite !length_app, length_take, length_drop. lia. }
  destruct g as [|m2 g]; [cbn [open_loop]; right; by eexists _, _|]. destruct Ha as [Ham Ha]. apply IH; [done | done|]. cbn [fst snd]. specialize (Hlen Ham). lia.
Qed.

(** The AES mask of a group, if it has one, is its innermost. *)
Definition aes_inside (g : list Legacy) : Prop := Forall (fun m => is_aes m = false) (tail g).

Lemma aes_inside_last g : aes_inside g -> aes_last (reverse g).
Proof.
  destruct g as [|m g]; [done|]. unfold aes_inside. cbn [tail]. rewrite reverse_cons. intros Hg.
  assert (Forall (fun m => is_aes m = false) (reverse g)) as Hr by (apply list.Forall_forall; intros x Hx; rewrite elem_of_reverse in Hx; rewrite list.Forall_forall in Hg; by apply Hg).
  induction Hr as [|x l Hx _ IH]; [done|]. cbn [app aes_last]. by destruct (l ++ [m]) eqn:E.
Qed.

Lemma sum_of_app l k : sum_of (l ++ k) = sum_of l + sum_of k.
Proof. unfold sum_of. induction l as [|x l IH]; [done|]. cbn [app fold_right]. lia. Qed.

Lemma group_size_reverse g : group_size (reverse g) = group_size g.
Proof.
  induction g as [|m g IH]; [done|]. rewrite reverse_cons, group_size_cons. unfold group_size in *. rewrite map_app, sum_of_app, IH. cbn. lia.
Qed.

Lemma group_open_safe g buf range :
  aes_inside g -> within buf range ->
  group_open g buf range = Ok None \/ exists buf' range', group_open g buf range = Ok (Some (buf', range')) /\ within buf' range'.
Proof.
  intros Ha Hw. unfold group_open. case_if; [right; by eexists _, _|]. unfold range_len. destruct Hw as [H1 H2]. case_if; [by left|].
  apply open_loop_safe; [by apply aes_inside_last | done|]. rewrite group_size_reverse. lia.
Qed.

Lemma received_safe ms datagram : aes_inside (inner_group ms) -> aes_inside (outer_group ms) -> received_bytes ms datagram <> Panic.
Proof.
  intros Hi Ho. unfold received_bytes, masks_open. pose proof (len_nonneg datagram).
  destruct (group_open_safe (outer_group ms) datagram (0, len datagram) Ho) as [->|(buf & range & -> & Hw)]; [unfold within; cbn [fst snd]; lia | done|].
  cbn [res_bind]. destruct (group_open_safe (inner_group ms) buf range Hi Hw) as [->|(buf' & range' & -> & Hw')]; [done|]. cbn [res_bind].
  by destruct (slice_within (E := Empty_set) buf' range' Hw') as (s & -> & _).
Qed.

(** A group opens by its loop. *)
Lemma group_open_loop g buf range opened : group_open g buf range = Ok (Some opened) -> open_loop (reverse g) buf range = Ok (Some opened).
Proof. unfold group_open. case_bool_decide as Hg; [by subst|]. by case_if. Qed.

(** A mask other than AES that is given fewer bytes than its own panics, or gives a range that ends before it starts. *)
Lemma open_short m t buf lo hi :
  is_aes m = false -> len t < mask_size m -> (m = LOriginal -> len t < 4) -> @slice Empty_set byte buf lo hi = Ok t ->
  open_loop [m] buf (lo, hi) = Panic \/ exists buf' range, open_loop [m] buf (lo, hi) = Ok (Some (buf', range)) /\ snd range < fst range.
Proof.
  intros Ha Ht Ho Hs. cbn [open_loop fst snd]. rewrite Hs. cbn [res_bind]. pose proof (slice_inv _ _ _ _ Hs) as (Hlo & _ & Hlt & _).
  assert (m = LOriginal \/ mask_open m t = Ok (Some (t, (mask_size m, len t)))) as [->| ->] by (destruct m; by (left + right)).
  - left. cbn [mask_open]. assert (len (xor_back t) <= 3) as Hx.
    { specialize (Ho eq_refl). unfold xor_back, len in *. rewrite length_app, length_take, length_zip_with, length_drop. lia. }
    unfold slice at 1. guard_false by lia. done.
  - right. eexists _, _. cbn [res_bind]. split; [done|]. cbn [fst snd]. lia.
Qed.

Lemma group_size_app g h : group_size (g ++ h) = group_size g + group_size h.
Proof. unfold group_size. by rewrite map_app, sum_of_app. Qed.

(** A range that ends before it starts makes the next turn panic, or the driver. *)
Lemma open_backwards g buf range :
  snd range < fst range ->
  (let? opened := open_loop g buf range in
   match opened with Some (buf, range) => let? bytes := slice buf (fst range) (snd range) in Ok (Some bytes) | None => Ok None end)
  = (Panic : total (option (list byte))).
Proof.
  intros Hr. assert (@slice Empty_set byte buf (fst range) (snd range) = Panic) as Hs
    by (unfold slice; rewrite (proj2 (Z.leb_gt (fst range) (snd range))) by lia; by rewrite andb_false_r).
  destruct g as [|m g]; cbn [open_loop]; [cbn [res_bind]|]; by rewrite Hs.
Qed.

Lemma sealed_group g payload :
  Forall mask_ok g -> len payload + group_added g <= UDP_SIZE ->
  exists out, len out = len payload + group_added g
    /\ forall B lo hi, @slice Empty_set byte B lo hi = Ok out ->
       exists buf range, group_open g B (lo, hi) = Ok (Some (buf, range)) /\ @slice Empty_set byte buf (fst range) (snd range) = Ok payload.
Proof.
  intros Hok Hfit. pose proof (group_seal_spec g payload 0 Hok) as Hg. destruct (group_seal g payload 0) as [[[out|] g'] draws'].
  - destruct Hg as (_ & Hl & _ & Hopen). by exists out.
  - destruct Hg as [_ Hg]. lia.
Qed.

Lemma received_panics deeper m key wrap noise outer :
  is_aes m = false -> mask_ok m -> Forall mask_ok wrap -> Forall mask_ok outer -> group_size deeper <= 13 ->
  NONCE + TAG + mask_size m + group_added wrap + group_added outer <= UDP_SIZE ->
  exists nonce text sealed datagram,
    gcm_seal key nonce text = Some sealed
    /\ received_bytes (mkMasks wrap noise outer) datagram = Ok (Some (nonce ++ sealed))
    /\ received_bytes (mkMasks (deeper ++ m :: LAes key :: wrap) noise outer) datagram = Panic.
Proof.
  unfold NONCE, TAG. intros Ha Hm Hwrap Houter Hdeep Hfit. pose proof (group_size_nonneg deeper) as Hdn. pose proof (mask_size_nonneg m) as Hs.
  assert (0 < mask_size m) as Hpos by (destruct m; simpl in *; unfold ORIGINAL; try done; lia).
  set (t := replicate (Z.to_nat (mask_size m + group_size deeper - 16)) x00).
  assert (len t = Z.max 0 (mask_size m + group_size deeper - 16)) as Ht by (unfold t, len; rewrite length_replicate; lia).
  assert (m = LOriginal -> len t < 4) as Horig by (intros ->; cbn [mask_size] in Ht; unfold ORIGINAL in Ht; lia).
  destruct (gcm_seals key (nonce_draw 0) t (nonce_length 0)) as (c & Hc0 & Hc & Ho). pose proof (nonce_length 0) as Hn. set (n := nonce_draw 0) in *.
  assert (len (n ++ c) = 28 + len t) as Hl by (rewrite len_app; lia).
  assert (0 <= group_added outer) by (pose proof (group_added_size outer); pose proof (group_size_nonneg outer); lia).
  destruct (sealed_group wrap (n ++ c) Hwrap) as (inside & Hli & Hopeni); [lia|].
  destruct (sealed_group outer inside Houter) as (datagram & Hld & Hopeno); [lia|]. exists n, t, c, datagram.
  destruct (Hopeno datagram 0 (len datagram)) as (buf & [lo hi] & Eo & Hso); [rewrite <- (app_nil_r datagram) at 1; by apply (slice_mid [] datagram [])|].
  cbn [fst snd] in Hso. destruct (Hopeni buf lo hi Hso) as (buf1 & [lo1 hi1] & Ei & Hsi). cbn [fst snd] in Hsi. split; [done|].
  unfold received_bytes, masks_open. cbn [outer_group inner_group]. rewrite Eo. cbn [res_bind]. split; [rewrite Ei; cbn [res_bind fst snd]; by rewrite Hsi|].
  pose proof (slice_inv _ _ _ _ Hso) as (_ & _ & Hlen & _). pose proof (group_added_size wrap).
  unfold group_open. rewrite bool_decide_false by (by destruct deeper). unfold range_len. cbn [fst snd].
  rewrite group_size_app, !group_size_cons. cbn [mask_size]. unfold NONCE. guard_false by lia.
  assert (reverse (deeper ++ m :: LAes key :: wrap) = reverse wrap ++ [LAes key] ++ [m] ++ reverse deeper) as ->
    by (rewrite reverse_app, !reverse_cons, <- !app_assoc; done).
  rewrite open_loop_app, (group_open_loop _ _ _ _ Ei). cbn [res_bind]. rewrite open_loop_app.
  destruct (open_aes key n t c Hn Hc Ho) as (region & Hor & Hlr & Hsr).
  destruct (open_loop_one (LAes key) buf1 lo1 hi1 (n ++ c) region 12 (len (n ++ c) - 16) t Hsi Hor Hlr Hsr) as (buf2 & -> & Hbuf).
  cbn [res_bind]. rewrite open_loop_app.
  destruct (open_short m t buf2 _ _ Ha ltac:(lia) Horig Hbuf) as [->|(buf3 & range & -> & Hr)]; [done|]. cbn [res_bind]. by apply open_backwards.
Qed.

(** C40: No received datagram makes the client panic when the AES masks are the innermost of their groups.
    A mask other than AES that is directly inside an AES mask, in the group before noise, is not checked again for
    length after the tag is taken off. Whatever masks are outside of the two, and with up to 13 bytes of masks
    inside of them, if all fit a datagram, there is a datagram which the masks outside unwrap to a nonce and a text
    sealed with the key, and on which unwrapping all masks panics. *)
Theorem kcp_unmask_safe_inside_out :
  (forall ms datagram, aes_inside (inner_group ms) -> aes_inside (outer_group ms) -> received_bytes ms datagram <> Panic)
  /\ forall deeper m key wrap noise outer,
     is_aes m = false -> mask_ok m -> Forall mask_ok wrap -> Forall mask_ok outer -> group_size deeper <= 13 ->
     NONCE + TAG + mask_size m + group_added wrap + group_added outer <= UDP_SIZE ->
     exists nonce text sealed datagram,
       gcm_seal key nonce text = Some sealed
       /\ received_bytes (mkMasks wrap noise outer) datagram = Ok (Some (nonce ++ sealed))
       /\ received_bytes (mkMasks (deeper ++ m :: LAes key :: wrap) noise outer) datagram = Panic.
Proof. split; [intros; by apply received_safe | apply received_panics]. Qed.
End Facts.

(** ** Masks at work *)

(** A cipher that only appends a tag of the key *)
Definition tag_of (k : list byte) : list byte := take 16 (k ++ replicate 16 x00).
#[local] Instance tagging : MaskCipher := {|
  GcmKey := list byte;
  gcm_key k := k;
  gcm_seal k _ t := Some (t ++ tag_of k);
  gcm_open k _ c := if (16 <=? length c)%nat && bool_decide (drop (length c - 16) c = tag_of k) then Some (take (length c - 16) c) else None;
  mask_sha256 b := take 32 (b ++ replicate 32 x01)
|}.
#[local] Instance counting : MaskRandom := {|
  nonce_draw i := replicate 12 (to_u8 (Z.of_nat i));
  id_draw i := Z.of_nat i;
  range_draw _ from _ := from
|}.

Lemma tag_length k : length (tag_of k) = 16%nat.
Proof. unfold tag_of. rewrite length_take, length_app, length_replicate. lia. Qed.

#[local] Instance tagging_laws : MaskCipherLaws.
Proof.
  split.
  - intros k n t _. exists (t ++ tag_of k). split; [done|]. split; [unfold len; rewrite length_app, tag_length; lia|]. cbn [gcm_open tagging].
    rewrite length_app, tag_length. replace (length t + 16 - 16)%nat with (length t) by lia. rewrite drop_app_length, take_app_length, bool_decide_true by done.
    rewrite (proj2 (Nat.leb_le _ _)) by lia. done.
  - intros k n c t. cbn [gcm_open tagging]. case_if; [|done]. apply andb_true_iff in Heqb as [Hl%Nat.leb_le _]. intros [= <-].
    unfold len. rewrite length_take. lia.
Qed.
#[local] Instance counting_laws : MaskRandomLaws.
Proof. split. intros i. reflexivity. Qed.

Definition sample_masks : list KcpMask := [MOriginal; MHeader (HDns (str_of "kcp.example")); MNoise; MAes128Gcm (str_of "seed"); MHeader HDtls].
Definition sample_noise : UdpNoiseConfig :=
  mkNoiseConfig [mkNoiseItem [] (mkNoiseRange 3 5) (mkNoiseRange 0 255) (mkNoiseRange 1 2)] (mkNoiseRange 10 20) false.
Definition sample_new : Masks :=
  Eval vm_compute in match Masks_new sample_masks (Some sample_noise) with Ok ms => ms | _ => mkMasks [] None [] end.

(** Five masks around a datagram, and back *)
Lemma kcp_masks_roundtrip_witness :
  exists noise out ms draws,
    masks_wrap sample_new (str_of "datagram") 0 0 = Ok (Some (mkWrapped noise (Some out)), ms, draws)
    /\ received_bytes sample_new out = Ok (Some (str_of "datagram")).
Proof.
  destruct (kcp_masks_roundtrip sample_masks (Some sample_noise) sample_new sample_new (str_of "datagram") 0 0 ltac:(vm_compute; reflexivity) ltac:(constructor))
    as (w & ms & draws & E & Hfit & Hback).
  destruct (Hfit ltac:(vm_compute; discriminate)) as (noise & out & ->). exists noise, out, ms, draws. split; [exact E | by eapply Hback].
Defined.

Lemma kcp_unmask_safe_inside_out_witness :
  received_bytes (mkMasks [LAes (gcm_key []); LDtls 0 0 0] None []) (str_of "short") <> Panic
  /\ exists nonce text sealed datagram,
     gcm_seal (gcm_key []) nonce text = Some sealed
     /\ received_bytes (mkMasks [LUtp] None [LSrtp 0]) datagram = Ok (Some (nonce ++ sealed))
     /\ received_bytes (mkMasks [LWireguard; LDtls 0 0 0; LAes (gcm_key []); LUtp] None [LSrtp 0]) datagram = Panic.
Proof.
  split.
  - apply (proj1 kcp_unmask_safe_inside_out); repeat constructor.
  - apply (proj2 kcp_unmask_safe_inside_out [LWireguard] (LDtls 0 0 0) (gcm_key []) [LUtp] None [LSrtp 0]);
      [reflexivity | exact I | repeat constructor | repeat constructor | vm_compute; discriminate | vm_compute; discriminate].
Defined.
