(* ===== verification/Hysteria.v ===== *)
(** Hysteria messages and fragments: [crates/xray-proxy/src/hysteria/wire.rs]
    (QUIC varints, TCP requests and responses, UDP messages, fragmentation) and
    [hysteria/reassembly.rs] (the one-packet reassembler). *)
From Stdlib Require Import Strings.Byte.
From S2P Require Import Prelude.

Definition TCP_REQUEST_ID : Z := 0x401.
Definition MAX_ADDRESS_LENGTH : Z := 2048.
Definition MAX_MESSAGE_LENGTH : Z := 2048.
Definition MAX_PADDING_LENGTH : Z := 4096.
Definition MAX_UDP_PAYLOAD : Z := 65535.

Inductive WireError :=
| Incomplete | FrameType | Address | MessageTooLong | PaddingTooLong | PayloadLength | Fragment
| DatagramLimit.

Record TcpRequest := mkTcpRequest { rq_address : str; rq_padding : list byte }.
Record TcpResponse := mkTcpResponse {
  rs_status : byte;
  rs_message : list byte;
  rs_padding : list byte
}.

Record UdpMessage := mkUdp {
  session_id : Z;
  packet_id : Z;
  fragment_id : Z;
  fragment_count : Z;
  address : str;
  payload : list byte
}.

(** ** The reader: an input and a position in it *)

Definition rd_take (input : list byte) (position length : Z) : res WireError (list byte * Z) :=
  let? tail := slice_from input position in
  if len tail <? length then Err Incomplete
  else Ok (take (Z.to_nat length) tail, position + length).

Definition rd_varint (input : list byte) (position : Z) : res WireError (Z * Z) :=
  let? (b, position) := rd_take input position 1 in
  let? first := index b 0 in
  let width := Z.shiftl 1 (Z.shiftr (u8 first) 6) in
  let? (rest, position) := rd_take input position (width - 1) in
  Ok (fold_left (fun value b => Z.lor (Z.shiftl value 8) (u8 b)) rest (Z.land (u8 first) 0x3f),
      position).

Definition rd_bounded_bytes (input : list byte) (position limit : Z) (error : WireError)
    : res WireError (list byte * Z) :=
  let? (length, position) := rd_varint input position in
  if limit <? length then Err error else rd_take input position length.

Definition validate_address (a : str) : res WireError unit :=
  if bool_decide (a = []) || (MAX_ADDRESS_LENGTH <? len a) then Err Address else Ok tt.

Definition rd_address (input : list byte) (position : Z) : res WireError (str * Z) :=
  let? (bytes, position) := rd_bounded_bytes input position MAX_ADDRESS_LENGTH Address in
  let? a := ok_or (from_utf8 bytes) Address in
  let? _ := validate_address a in
  Ok (a, position).

(** ** Writing *)

Definition varint_length (value : Z) : Z :=
  if value <? 64 then 1 else if value <? 16384 then 2 else 4.

(** [value as u16 | 0x4000] and [value as u32 | 0x80000000]. *)
Definition put_varint (value : Z) : list byte :=
  if varint_length value =? 1 then [to_u8 value]
  else if varint_length value =? 2 then be_bytes 2 (Z.lor (value mod 65536) 0x4000)
  else be_bytes 4 (Z.lor (wrap32 value) 0x80000000).

Definition put_bytes (bytes : list byte) : list byte := put_varint (len bytes) ++ bytes.

(** ** Messages *)

Definition decode_tcp_request (input : list byte) : res WireError (TcpRequest * Z) :=
  let? (id, position) := rd_varint input 0 in
  if negb (id =? TCP_REQUEST_ID) then Err FrameType
  else
    let? (a, position) := rd_address input position in
    let? (padding, position) :=
      rd_bounded_bytes input position MAX_PADDING_LENGTH PaddingTooLong in
    Ok (mkTcpRequest a padding, position).

Definition encode_tcp_request (r : TcpRequest) : res WireError (list byte) :=
  let? _ := validate_address (rq_address r) in
  if MAX_PADDING_LENGTH <? len (rq_padding r) then Err PaddingTooLong
  else Ok (put_varint TCP_REQUEST_ID ++ put_bytes (rq_address r) ++ put_bytes (rq_padding r)).

Definition decode_tcp_response (input : list byte) : res WireError (TcpResponse * Z) :=
  let? (b, position) := rd_take input 0 1 in
  let? status := index b 0 in
  let? (message, position) :=
    rd_bounded_bytes input position MAX_MESSAGE_LENGTH MessageTooLong in
  let? (padding, position) :=
    rd_bounded_bytes input position MAX_PADDING_LENGTH PaddingTooLong in
  Ok (mkTcpResponse status message padding, position).

Definition encode_tcp_response (r : TcpResponse) : res WireError (list byte) :=
  if MAX_MESSAGE_LENGTH <? len (rs_message r) then Err MessageTooLong
  else if MAX_PADDING_LENGTH <? len (rs_padding r) then Err PaddingTooLong
  else Ok ([rs_status r] ++ put_bytes (rs_message r) ++ put_bytes (rs_padding r)).

Definition header_length (m : UdpMessage) : Z :=
  8 + varint_length (len (address m)) + len (address m).

Definition validate (m : UdpMessage) : res WireError unit :=
  let? _ := validate_address (address m) in
  if bool_decide (payload m = []) || (MAX_UDP_PAYLOAD <? len (payload m)) then Err PayloadLength
  else if (fragment_count m =? 0)
          || ((1 <? fragment_count m) && (fragment_count m <=? fragment_id m))
  then Err Fragment
  else Ok tt.

Definition decode_udp_message (input : list byte) : res WireError UdpMessage :=
  let? (header, position) := rd_take input 0 8 in
  let? session := slice header 0 4 in
  let? packet := slice header 4 6 in
  let? (a, position) := rd_address input position in
  let? fid := index header 6 in
  let? fcount := index header 7 in
  let? rest := slice_from input position in
  let m := mkUdp (from_be session) (from_be packet) (u8 fid) (u8 fcount) a rest in
  let? _ := validate m in
  Ok m.

Definition encode_udp_message (m : UdpMessage) : res WireError (list byte) :=
  let? _ := validate m in
  Ok (be_bytes 4 (session_id m) ++ be_bytes 2 (packet_id m)
      ++ [to_u8 (fragment_id m); to_u8 (fragment_count m)]
      ++ put_bytes (address m) ++ payload m).

(** [a.div_ceil(b)]. *)
Definition div_ceil (a b : Z) : Z := (a + b - 1) / b.

Definition fragment_of (m : UdpMessage) (count : Z) (index : nat) (piece : list byte) : UdpMessage :=
  mkUdp (session_id m) (packet_id m) (u8 (to_u8 (Z.of_nat index))) count (address m) piece.

Definition fragment_udp_message (m : UdpMessage) (max_datagram_size : Z)
    : res WireError (list UdpMessage) :=
  let? _ := validate m in
  if negb (fragment_count m =? 1) then Err Fragment
  else
    let capacity := max_datagram_size - header_length m in
    if capacity <=? 0 then Err DatagramLimit
    else
      let count := div_ceil (len (payload m)) capacity in
      if 255 <? count then Err DatagramLimit
      else Ok (imap (fragment_of m count) (chunks (Z.to_nat capacity) (payload m))).

(** ** Reassembly *)

Record ReassembledDatagram := mkReassembled {
  rd_session_id : Z;
  rd_address_of : str;
  rd_payload : list byte
}.

Inductive ReassemblyError := Wire (e : WireError) | Session | Conflict | Budget | Limits.

(** Instants and durations are in nanoseconds. *)
Record PartialPacket := mkPartial {
  pp_packet_id : Z;
  pp_address : str;
  first_seen : Z;
  fragments : list (option (list byte));
  received : Z;
  pp_size : Z
}.

Record Reassembler := mkReassembler {
  ra_session_id : Z;
  max_payload : Z;
  timeout : Z;
  partial : option PartialPacket
}.

Definition Reassembler_new (session max_payload timeout : Z) : res ReassemblyError Reassembler :=
  if (max_payload =? 0) || (MAX_UDP_PAYLOAD <? max_payload) || (timeout =? 0) then Err Limits
  else Ok (mkReassembler session max_payload timeout None).

Definition buffered_payload_bytes (r : Reassembler) : Z :=
  match partial r with Some p => pp_size p | None => 0 end.

Definition set_partial (r : Reassembler) (p : option PartialPacket) : Reassembler :=
  mkReassembler (ra_session_id r) (max_payload r) (timeout r) p.

Definition expire (r : Reassembler) (now : Z) : Reassembler :=
  match partial r with
  | Some p => if timeout r <=? Z.max 0 (now - first_seen p) then set_partial r None else r
  | None => r
  end.

Definition clear (r : Reassembler) : Reassembler := set_partial r None.

(** The partial packet a fragment goes into. *)
Definition partial_for (r : Reassembler) (m : UdpMessage) (now : Z) : PartialPacket :=
  let fresh :=
    mkPartial (packet_id m) (address m) now (replicate (Z.to_nat (fragment_count m)) None) 0 0 in
  match partial r with
  | Some p =>
    if negb (pp_packet_id p =? packet_id m) || negb (len (fragments p) =? fragment_count m)
    then fresh else p
  | None => fresh
  end.

(** [fragment.expect(..)] over all the fragments. *)
Fixpoint join_fragments (l : list (option (list byte))) : total (list byte) :=
  match l with
  | [] => Ok []
  | None :: _ => Panic
  | Some f :: l => let? rest := join_fragments l in Ok (f ++ rest)
  end.

Definition feed (r : Reassembler) (m : UdpMessage) (now : Z)
    : res ReassemblyError (option ReassembledDatagram) * Reassembler :=
  let r := expire r now in
  match validate m with
  | Err e => (Err (Wire e), r)
  | Panic => (Panic, r)
  | Ok _ =>
    if negb (session_id m =? ra_session_id r) then (Err Session, r)
    else if fragment_count m =? 1 then
      if max_payload r <? len (payload m) then (Err Budget, r)
      else (Ok (Some (mkReassembled (ra_session_id r) (address m) (payload m))), r)
    else if max_payload r <? len (payload m) then (Err Budget, clear r)
    else
      let p := partial_for r m now in
      if negb (bool_decide (pp_address p = address m)) then (Err Conflict, clear r)
      else
        match fragments p !! Z.to_nat (fragment_id m) with
        | None => (Panic, set_partial r (Some p))
        | Some (Some existing) =>
          if bool_decide (existing = payload m) then (Ok None, set_partial r (Some p))
          else (Err Conflict, clear r)
        | Some None =>
          if max_payload r - pp_size p <? len (payload m) then (Err Budget, clear r)
          else
            let p :=
              mkPartial (pp_packet_id p) (pp_address p) (first_seen p)
                (<[Z.to_nat (fragment_id m) := Some (payload m)]> (fragments p))
                (received p + 1) (pp_size p + len (payload m)) in
            if negb (received p =? len (fragments p)) then (Ok None, set_partial r (Some p))
            else
              match join_fragments (fragments p) with
              | Ok whole =>
                (Ok (Some (mkReassembled (ra_session_id r) (pp_address p) whole)), clear r)
              | _ => (Panic, clear r)
              end
        end
  end.

(** ** Slots *)

Fixpoint somes {A} (l : list (option A)) : list A :=
  match l with
  | [] => []
  | Some x :: l => x :: somes l
  | None :: l => somes l
  end.

Definition count_some {A} (l : list (option A)) : Z := len (somes l).
Definition sum_some (l : list (option (list byte))) : Z := len (concat (somes l)).

Lemma somes_insert {A} (l : list (option A)) i x :
  l !! i = Some None ->
  exists l1 l2, somes l = l1 ++ l2 /\ somes (<[i := Some x]> l) = l1 ++ x :: l2.
Proof.
  revert i. induction l as [|o l IH]; intros i; [done|]. destruct i as [|i]; simpl.
  - intros [= ->]. by exists [], (somes l).
  - intros (l1 & l2 & E1 & E2)%IH. destruct o as [y|]; simpl.
    + exists (y :: l1), l2. by rewrite E1, E2.
    + by exists l1, l2.
Qed.

Lemma count_some_insert {A} (l : list (option A)) i x :
  l !! i = Some None -> count_some (<[i := Some x]> l) = count_some l + 1.
Proof.
  intros (l1 & l2 & E1 & E2)%(somes_insert _ _ x). unfold count_some. rewrite E1, E2.
  len_simpl. lia.
Qed.

Lemma sum_some_insert l i x :
  l !! i = Some None -> sum_some (<[i := Some x]> l) = sum_some l + len x.
Proof.
  intros (l1 & l2 & E1 & E2)%(somes_insert _ _ x). unfold sum_some. rewrite E1, E2.
  rewrite !concat_app. simpl. len_simpl. lia.
Qed.

Lemma count_some_le {A} (l : list (option A)) : 0 <= count_some l <= len l.
Proof.
  unfold count_some. induction l as [|o l IH]; [done|].
  destruct o; simpl; rewrite ?len_cons in *; lia.
Qed.

(** A full list of slots joins. *)
Lemma join_full l : count_some l = len l -> join_fragments l = Ok (concat (somes l)).
Proof.
  induction l as [|o l IH]; [done|]. pose proof (count_some_le l). destruct o as [x|]; simpl.
  - unfold count_some in *. simpl. rewrite !len_cons. intros E. rewrite IH by lia. done.
  - unfold count_some in *. simpl. rewrite len_cons. lia.
Qed.

Lemma count_some_replicate {A} n : @count_some A (replicate n None) = 0.
Proof. unfold count_some. by induction n. Qed.

Lemma sum_some_replicate n : sum_some (replicate n None) = 0.
Proof. unfold sum_some. by induction n. Qed.

(** ** What a reassembler holds *)

Definition partial_ok (limit : Z) (p : PartialPacket) : Prop :=
  2 <= len (fragments p) /\ received p = count_some (fragments p)
  /\ received p < len (fragments p) /\ pp_size p = sum_some (fragments p) /\ pp_size p <= limit.

Definition reassembler_ok (r : Reassembler) : Prop :=
  0 < max_payload r /\ forall p, partial r = Some p -> partial_ok (max_payload r) p.

Lemma expire_ok r now : reassembler_ok r -> reassembler_ok (expire r now).
Proof.
  intros Hr. unfold expire. destruct (partial r) eqn:E; [|done]. case_if; [|done].
  destruct Hr as [Hm _]. by split.
Qed.

Lemma clear_ok r : reassembler_ok r -> reassembler_ok (clear r).
Proof. intros [Hm _]. by split. Qed.

Lemma udp_validate_spec m :
  match validate m with
  | Ok _ => address m <> [] /\ len (address m) <= MAX_ADDRESS_LENGTH /\ payload m <> []
      /\ len (payload m) <= MAX_UDP_PAYLOAD /\ fragment_count m <> 0
      /\ (1 < fragment_count m -> fragment_id m < fragment_count m)
  | Err _ => True
  | Panic => False
  end.
Proof.
  unfold validate, validate_address. case_if; [done|]. simpl. case_if; [done|]. case_if; [done|].
  unbool. split_and!; try done. intros Hlt.
  match goal with H : _ && _ = false |- _ => apply andb_false_iff in H as [H|H] end; unbool; lia.
Qed.

Lemma partial_for_ok r m now :
  reassembler_ok r -> 1 < fragment_count m ->
  partial_ok (max_payload r) (partial_for r m now)
  /\ len (fragments (partial_for r m now)) = fragment_count m.
Proof.
  intros [Hm Hp] Hc. unfold partial_for.
  assert (partial_ok (max_payload r) (mkPartial (packet_id m) (address m) now
    (replicate (Z.to_nat (fragment_count m)) None) 0 0)) as Hf.
  { unfold partial_ok. simpl. rewrite count_some_replicate, sum_some_replicate. unfold len.
    rewrite length_replicate. split_and!; lia. }
  assert (len (replicate (Z.to_nat (fragment_count m)) (@None (list byte))) = fragment_count m) as Hl
    by (unfold len; rewrite length_replicate; lia).
  destruct (partial r) as [p|] eqn:E; [|done]. case_if; [done|]. unbool. auto.
Qed.

(** Whatever is fed, the reassembler stays within its budget and never panics. *)
Lemma feed_ok r m now :
  reassembler_ok r -> in_u8 (fragment_id m) -> in_u8 (fragment_count m) ->
  fst (feed r m now) <> Panic /\ reassembler_ok (snd (feed r m now)).
Proof.
  intros Hr Hi Hc. pose proof (expire_ok r now Hr) as Hx. unfold feed.
  set (r1 := expire r now) in *. clearbody r1. clear r Hr. pose proof (udp_validate_spec m) as Hv.
  destruct (validate m) as [[]|e|]; [|done..]. destruct Hv as (_ & _ & _ & _ & Hc0 & Hid).
  case_if; [done|]. case_if; [case_if; done|]. case_if; [split; [done | by apply clear_ok]|].
  unbool. unfold in_u8 in *. destruct (partial_for_ok r1 m now Hx ltac:(lia)) as [Hp Hl].
  cbv zeta. set (p := partial_for r1 m now) in *. clearbody p.
  case_if; [split; [done | by apply clear_ok]|].
  destruct (lookup_lt_is_Some_2 (fragments p) (Z.to_nat (fragment_id m))) as [slot Hslot];
    [unfold len in Hl; lia|]. rewrite Hslot.
  destruct slot as [existing|].
  { case_if; (split; [done|]); [|by apply clear_ok]. destruct Hx as [Hm _].
    split; simpl; [done|]. by intros ? [= <-]. }
  case_if; [split; [done | by apply clear_ok]|]. unbool.
  destruct Hp as (P1 & P2 & P3 & P4 & P5). cbv zeta. cbn [received fragments].
  set (fs := <[Z.to_nat (fragment_id m):=Some (payload m)]> (fragments p)).
  assert (len fs = len (fragments p)) as Hfl by (unfold fs, len; by rewrite length_insert).
  assert (count_some fs = received p + 1) as Hfc
    by (rewrite P2; by apply count_some_insert).
  assert (sum_some fs = pp_size p + len (payload m)) as Hfs
    by (rewrite P4; by apply sum_some_insert).
  rewrite Hfl. case_if; unbool.
  - split; [done|]. destruct Hx as [Hm _]. split; simpl; [done|]. intros q [= <-].
    unfold partial_ok. simpl. fold fs. rewrite Hfl. split_and!; lia.
  - rewrite join_full by lia. split; [done | by apply clear_ok].
Qed.

(** ** The slots of one packet: piece [j] is in when [f j] holds *)

Fixpoint fill (f : nat -> bool) (l : list (list byte)) : list (option (list byte)) :=
  match l with
  | [] => []
  | c :: l => (if f 0%nat then Some c else None) :: fill (fun j => f (S j)) l
  end.

Definition with_index (f : nat -> bool) (i : nat) (j : nat) : bool := bool_decide (j = i) || f j.

Lemma len_fill f l : len (fill f l) = len l.
Proof. revert f. induction l as [|c l IH]; intros f; [done|]. cbn [fill]. by rewrite !len_cons, IH. Qed.

Lemma fill_none f l :
  (forall j, (j < length l)%nat -> f j = false) -> fill f l = replicate (length l) None.
Proof.
  revert f. induction l as [|c l IH]; intros f Hf; [done|]. cbn [fill length replicate].
  rewrite Hf, IH by (simpl; lia || (intros; apply Hf; simpl; lia)). done.
Qed.

Lemma fill_lookup f l i c :
  l !! i = Some c -> fill f l !! i = Some (if f i then Some c else None).
Proof.
  revert f i. induction l as [|d l IH]; intros f i; [done|]. destruct i as [|i]; cbn [fill].
  - by intros [= ->].
  - intros Hi. simpl. by apply (IH (fun j => f (S j))).
Qed.

Lemma fill_ext f g l : (forall j, f j = g j) -> fill f l = fill g l.
Proof.
  revert f g. induction l as [|c l IH]; intros f g E; [done|]. cbn [fill].
  rewrite E. f_equal. apply IH. auto.
Qed.

Lemma fill_insert f l i c :
  l !! i = Some c -> <[i := Some c]> (fill f l) = fill (with_index f i) l.
Proof.
  revert f i. induction l as [|d l IH]; intros f i; [done|]. destruct i as [|i]; cbn [fill].
  - by intros [= ->].
  - intros Hi. simpl. rewrite (IH (fun j => f (S j)) i Hi). unfold with_index at 1. simpl. f_equal.
    apply fill_ext. intros j. unfold with_index. f_equal. apply bool_decide_ext. lia.
Qed.

Lemma fill_full f l :
  (forall j, (j < length l)%nat -> f j = true) -> somes (fill f l) = l.
Proof.
  revert f. induction l as [|c l IH]; intros f Hf; [done|]. cbn [fill].
  rewrite Hf by (simpl; lia). simpl. rewrite IH; [done|]. intros. apply Hf. simpl. lia.
Qed.

Lemma fill_missing f l j :
  (j < length l)%nat -> f j = false -> count_some (fill f l) < len l.
Proof.
  revert f j. induction l as [|c l IH]; intros f j Hj Hf; [simpl in Hj; lia|]. cbn [fill].
  pose proof (count_some_le (fill (fun j => f (S j)) l)) as Hle. rewrite len_fill in Hle.
  destruct j as [|j].
  - rewrite Hf. unfold count_some in *. simpl. rewrite len_cons. lia.
  - specialize (IH (fun j => f (S j)) j ltac:(simpl in Hj; lia) Hf). unfold count_some in *.
    destruct (f 0%nat); simpl; rewrite !len_cons; lia.
Qed.

Lemma sum_fill_le f l : sum_some (fill f l) <= len (concat l).
Proof.
  unfold sum_some. revert f. induction l as [|c l IH]; intros f; [done|]. cbn [fill].
  specialize (IH (fun j => f (S j))). pose proof (len_nonneg c).
  destruct (f 0%nat); simpl; len_simpl; lia.
Qed.

Lemma count_fill_full f l :
  (forall j, (j < length l)%nat -> f j = true) -> count_some (fill f l) = len l.
Proof. intros Hf. unfold count_some. by rewrite fill_full. Qed.

(** ** Fragments of one message *)

Lemma fragment_udp_message_spec m size frags :
  fragment_udp_message m size = Ok frags ->
  exists capacity, capacity = size - header_length m /\ 0 < capacity
    /\ is_ok (validate m) = true /\ fragment_count m = 1 /\ len frags <= 255
    /\ concat (chunks (Z.to_nat capacity) (payload m)) = payload m
    /\ Forall (fun c => c <> [] /\ len c <= capacity) (chunks (Z.to_nat capacity) (payload m))
    /\ len (chunks (Z.to_nat capacity) (payload m)) = len frags
    /\ frags = imap (fragment_of m (len frags)) (chunks (Z.to_nat capacity) (payload m)).
Proof.
  unfold fragment_udp_message. destruct (validate m) as [[]| |] eqn:Ev; simpl; [|done..].
  case_if; [done|]. case_if; [done|]. case_if; [done|]. unbool. intros E%Ok_inj.
  set (cap := size - header_length m) in *. exists cap.
  destruct (chunks_spec (Z.to_nat cap) (payload m) ltac:(lia)) as [Hc Hf].
  pose proof (len_chunks (Z.to_nat cap) (payload m) ltac:(lia)) as Hn.
  rewrite Z2Nat.id in Hn by lia. fold (div_ceil (len (payload m)) cap) in Hn.
  assert (len frags = div_ceil (len (payload m)) cap) as Hl.
  { rewrite <- E, <- Hn. unfold len. by rewrite length_imap. }
  rewrite Hl. split_and!; try done; try lia.
  eapply Forall_impl; [|exact Hf]. intros c [? ?]. unfold len. split; [done|lia].
Qed.

(** Feeding a sequence of messages, each at its time. *)
Fixpoint feed_all (r : Reassembler) (l : list (UdpMessage * Z))
    : list (res ReassemblyError (option ReassembledDatagram)) * Reassembler :=
  match l with
  | [] => ([], r)
  | (m, now) :: l =>
    let '(o, r1) := feed r m now in
    let '(os, r2) := feed_all r1 l in (o :: os, r2)
  end.

(** A message that does not disturb the packet being put together: an unfragmented one, one of
    another session, one that is not valid. *)
Definition passes_by (session : Z) (m : UdpMessage) : Prop :=
  is_ok (validate m) = false \/ session_id m <> session \/ fragment_count m = 1.

Section Packet.
Context (r0 : Reassembler) (m : UdpMessage) (pieces : list (list byte)) (t0 : Z).

Let count := len pieces.
Let frag i c := fragment_of m count i c.

Hypothesis Hnone : partial r0 = None.
Hypothesis Hsession : session_id m = ra_session_id r0.
Hypothesis Hbudget : len (payload m) <= max_payload r0.
Hypothesis Hvalid : is_ok (validate m) = true.
Hypothesis Hconcat : concat pieces = payload m.
Hypothesis Hpieces : Forall (fun c => c <> []) pieces.
Hypothesis Hcount : count <= 255.

Definition packet_view (f : nat -> bool) (r : Reassembler) : Prop :=
  r = set_partial r0 (partial r)
  /\ match partial r with
     | None => forall j, (j < length pieces)%nat -> f j = false
     | Some p =>
       pp_packet_id p = packet_id m /\ pp_address p = address m
       /\ t0 <= first_seen p < t0 + timeout r0 /\ fragments p = fill f pieces
       /\ received p = count_some (fill f pieces) /\ pp_size p = sum_some (fill f pieces)
     end.

Lemma view_expire f r now :
  packet_view f r -> t0 <= now < t0 + timeout r0 -> expire r now = r.
Proof.
  intros [Hr Hp] Hnow. unfold expire. destruct (partial r) as [p|]; [|done].
  destruct Hp as (_ & _ & Hs & _). rewrite Hr. cbn [timeout set_partial].
  guard_false by lia. done.
Qed.

Lemma view_passes f r x now :
  packet_view f r -> t0 <= now < t0 + timeout r0 -> passes_by (ra_session_id r0) x ->
  snd (feed r x now) = r.
Proof.
  intros Hv Hnow Hx. unfold feed. rewrite (view_expire f) by done. destruct Hv as [Hr _].
  destruct (validate x) as [[]| |] eqn:E; [|done..].
  destruct (negb _) eqn:Hs; [done|]. unbool.
  destruct Hx as [Hx|[Hx|Hx]]; [by rewrite E in Hx| |].
  - rewrite Hr in Hs. done.
  - rewrite Hx. cbn [Z.eqb Pos.eqb]. by case_if.
Qed.

Lemma view_partial_for f r i c now :
  packet_view f r -> t0 <= now < t0 + timeout r0 ->
  exists s, t0 <= s < t0 + timeout r0
  /\ partial_for r (frag i c) now
     = mkPartial (packet_id m) (address m) s (fill f pieces) (count_some (fill f pieces))
         (sum_some (fill f pieces)).
Proof.
  intros [Hr Hp] Hnow. unfold partial_for. cbn [packet_id fragment_count address frag fragment_of].
  destruct (partial r) as [p|].
  - destruct Hp as (P1 & P2 & P3 & P4 & P5 & P6). exists (first_seen p). split; [done|].
    rewrite P1, P4, len_fill, !Z.eqb_refl. simpl. destruct p. simpl in *. by subst.
  - exists now. split; [done|]. rewrite (fill_none f pieces) by done.
    rewrite count_some_replicate, sum_some_replicate. unfold count, len. by rewrite Nat2Z.id.
Qed.

Lemma piece_bounds i c :
  pieces !! i = Some c ->
  Z.of_nat i < count /\ c <> [] /\ len c <= len (payload m)
  /\ u8 (to_u8 (Z.of_nat i)) = Z.of_nat i.
Proof.
  intros Hi. pose proof (lookup_lt_Some _ _ _ Hi) as Hlt. unfold count, len in *.
  split_and!; [lia| | |apply u8_to_u8_small; lia].
  - eapply Forall_lookup_1 in Hi; [|exact Hpieces]. done.
  - rewrite <- Hconcat. rewrite <- (take_drop_middle _ _ _ Hi).
    rewrite concat_app. simpl. rewrite !length_app. lia.
Qed.

Lemma validate_frag i c : pieces !! i = Some c -> validate (frag i c) = Ok tt.
Proof.
  intros (Hi & Hc & Hlen & Hid)%piece_bounds. revert Hvalid. unfold validate.
  cbn [address payload fragment_count fragment_id frag fragment_of].
  destruct (validate_address (address m)); simpl; [|done..]. case_if; [done|]. intros _. unbool.
  rewrite Hid. rewrite bool_decide_eq_false_2 by done.
  guard_false by lia. by guard_false by lia.
Qed.

Hypothesis Hmany : 1 < count.

Definition packet_of (f : nat -> bool) (s : Z) : PartialPacket :=
  mkPartial (packet_id m) (address m) s (fill f pieces) (count_some (fill f pieces))
    (sum_some (fill f pieces)).

(** Feeding piece [i] puts it in its slot; the packet is complete when all slots are filled. *)
Lemma feed_piece f r i c now :
  packet_view f r -> t0 <= now < t0 + timeout r0 -> pieces !! i = Some c ->
  exists s, t0 <= s < t0 + timeout r0 /\
    feed r (frag i c) now =
      if f i then (Ok None, set_partial r0 (Some (packet_of f s)))
      else if count_some (fill (with_index f i) pieces) =? count
      then (Ok (Some (mkReassembled (ra_session_id r0) (address m)
              (concat (somes (fill (with_index f i) pieces))))), r0)
      else (Ok None, set_partial r0 (Some (packet_of (with_index f i) s))).
Proof.
  intros Hv Hnow Hi. pose proof (piece_bounds _ _ Hi) as (Hic & Hc & Hlen & Hid).
  destruct (view_partial_for f r i c now Hv Hnow) as (s & Hs & Hpart). exists s. split; [done|].
  unfold feed. rewrite (view_expire f), validate_frag by done. destruct Hv as [Hr _].
  assert (ra_session_id r = ra_session_id r0 /\ max_payload r = max_payload r0) as [-> ->]
    by (by rewrite Hr).
  assert (forall q, set_partial r q = set_partial r0 q) as Hset by (intros; by rewrite Hr).
  assert (clear r = r0) as Hclear.
  { unfold clear. rewrite Hset, <- Hnone. by destruct r0. }
  rewrite Hpart, Hclear. cbv zeta.
  cbn [session_id fragment_count payload fragment_id address frag fragment_of fragments received
       pp_size pp_address pp_packet_id first_seen].
  rewrite Hsession, Z.eqb_refl, Hid, Nat2Z.id, !Hset by done.
  rewrite (fill_lookup f pieces i c) by done.
  rewrite bool_decide_eq_true_2 by done. cbn [negb].
  guard_false by lia. guard_false by lia.
  destruct (f i) eqn:Ef; [by rewrite bool_decide_eq_true_2 by done|].
  assert (fill f pieces !! i = Some None) as Hslot by (rewrite (fill_lookup f pieces i c), Ef by done; done).
  rewrite <- (count_some_insert _ _ c Hslot), <- (sum_some_insert _ _ c Hslot).
  rewrite (fill_insert f pieces i c Hi), len_fill.
  pose proof (sum_fill_le (with_index f i) pieces) as Hsum. rewrite Hconcat in Hsum.
  rewrite <- (fill_insert f pieces i c Hi), (sum_some_insert _ _ c Hslot) in Hsum.
  guard_false by lia. fold count.
  destruct (Z.eqb_spec (count_some (fill (with_index f i) pieces)) count) as [E|E]; [|done].
  cbn [negb]. by rewrite join_full by (by rewrite len_fill).
Qed.

Lemma packet_of_view f s :
  t0 <= s < t0 + timeout r0 -> packet_view f (set_partial r0 (Some (packet_of f s))).
Proof. intros Hs. by split. Qed.

Lemma view_ext f g r : (forall j, f j = g j) -> packet_view f r -> packet_view g r.
Proof.
  intros E [Hr Hp]. split; [done|]. destruct (partial r) as [p|].
  - by rewrite <- (fill_ext f g) by done.
  - intros. rewrite <- E. auto.
Qed.

Lemma feed_incomplete f r i c now j :
  packet_view f r -> t0 <= now < t0 + timeout r0 -> pieces !! i = Some c ->
  (j < length pieces)%nat -> with_index f i j = false ->
  exists r', feed r (frag i c) now = (Ok None, r') /\ packet_view (with_index f i) r'.
Proof.
  intros Hv Hnow Hi Hj Hf. destruct (feed_piece f r i c now Hv Hnow Hi) as (s & Hs & ->).
  destruct (f i) eqn:Ef.
  - eexists. split; [done|]. apply view_ext with f; [|by apply packet_of_view].
    intros k. unfold with_index. destruct (decide (k = i)) as [->|].
    + by rewrite Ef, orb_true_r.
    + by rewrite bool_decide_eq_false_2.
  - pose proof (fill_missing _ _ _ Hj Hf). guard_false by lia.
    eexists. split; [done|]. by apply packet_of_view.
Qed.

Lemma feed_completing f r i c now :
  packet_view f r -> t0 <= now < t0 + timeout r0 -> pieces !! i = Some c -> f i = false ->
  (forall j, (j < length pieces)%nat -> with_index f i j = true) ->
  feed r (frag i c) now
  = (Ok (Some (mkReassembled (ra_session_id r0) (address m) (payload m))), r0).
Proof.
  intros Hv Hnow Hi Hf Hall. destruct (feed_piece f r i c now Hv Hnow Hi) as (s & Hs & ->).
  rewrite Hf, count_fill_full, Z.eqb_refl, fill_full, Hconcat by done. done.
Qed.

Definition is_piece (i : nat) (x : UdpMessage) : Prop :=
  exists c, pieces !! i = Some c /\ x = frag i c.

Definition in_packet (y : UdpMessage * Z) : Prop :=
  t0 <= snd y < t0 + timeout r0
  /\ ((exists i, is_piece i (fst y)) \/ passes_by (ra_session_id r0) (fst y)).

Definition quiet (y : UdpMessage * Z) (o : res ReassemblyError (option ReassembledDatagram)) : Prop :=
  (exists i, is_piece i (fst y)) -> o = Ok None.

Lemma is_piece_fun i j x : is_piece i x -> is_piece j x -> i = j.
Proof.
  intros (c & Hi & ->) (d & Hj & E).
  pose proof (piece_bounds _ _ Hi) as (_ & _ & _ & Ei).
  pose proof (piece_bounds _ _ Hj) as (_ & _ & _ & Ej).
  apply (f_equal fragment_id) in E. simpl in E. lia.
Qed.

Lemma piece_not_passing i x : is_piece i x -> ~ passes_by (ra_session_id r0) x.
Proof.
  intros (c & Hi & ->) [H|[H|H]].
  - by rewrite validate_frag in H.
  - done.
  - simpl in H. lia.
Qed.

Lemma feed_all_incomplete l f r k :
  packet_view f r -> Forall in_packet l -> (k < length pieces)%nat -> f k = false ->
  (forall y, In y l -> ~ is_piece k (fst y)) ->
  exists outs r' f', feed_all r l = (outs, r') /\ Forall2 quiet l outs /\ packet_view f' r'
    /\ f' k = false
    /\ forall j, f' j = true <-> f j = true \/ exists y, In y l /\ is_piece j (fst y).
Proof.
  intros Hv Hl Hk Hf Hno. revert f r Hv Hf. induction Hl as [|[x now] l [Hnow Hx] Hl IH]; intros f r Hv Hf.
  { exists [], r, f. split_and!; [done|done|done|done|]. intros j. split; [auto|].
    by intros [?|(? & [] & _)]. }
  simpl in Hnow, Hx. cbn [feed_all].
  assert (forall y, In y l -> ~ is_piece k (fst y)) as Hno' by (intros; apply Hno; by right).
  destruct Hx as [[i Hpi]|Hpass].
  - assert (i <> k) as Hik by (intros ->; by apply (Hno (x, now)); [left|]).
    destruct Hpi as (c & Hi & ->).
    assert (with_index f i k = false) as Hfk
      by (unfold with_index; rewrite Hf, bool_decide_eq_false_2 by done; done).
    destruct (feed_incomplete f r i c now k Hv Hnow Hi Hk Hfk) as (r1 & -> & Hv1).
    destruct (IH Hno' _ _ Hv1 Hfk) as (outs & r' & f' & -> & Hq & Hv' & Hf' & Hiff).
    exists (Ok None :: outs), r', f'. split_and!; try done; [by constructor|].
    intros j. rewrite Hiff. unfold with_index. rewrite orb_true_iff, bool_decide_eq_true. split.
    + intros [[->|?]|(y & ? & ?)]; [right|by left|right; exists y; auto using in_cons].
      exists (frag i c, now). split; [by left|]. by exists c.
    + intros [?|(y & [<-|?] & Hy)]; [auto| |right; by exists y].
      left. left. apply (is_piece_fun _ _ _ Hy). by exists c.
  - destruct (feed r x now) as [o r1] eqn:E.
    pose proof (view_passes f r x now Hv Hnow Hpass) as Er. rewrite E in Er. simpl in Er. subst r1.
    destruct (IH Hno' _ _ Hv Hf) as (outs & r' & f' & -> & Hq & Hv' & Hf' & Hiff).
    exists (o :: outs), r', f'. split_and!; try done.
    + constructor; [|done]. intros [i Hi]. by destruct (piece_not_passing _ _ Hi).
    + intros j. rewrite Hiff. split; intros [?|(y & Hy & ?)]; auto.
      * right. exists y. auto using in_cons.
      * destruct Hy as [<-|Hy]; [by destruct (piece_not_passing j x)|]. right. by exists y.
Qed.

Lemma feed_all_app r l1 l2 :
  feed_all r (l1 ++ l2)
  = let '(o1, r1) := feed_all r l1 in let '(o2, r2) := feed_all r1 l2 in (o1 ++ o2, r2).
Proof.
  revert r. induction l1 as [|[x now] l1 IH]; intros r; simpl.
  - by destruct (feed_all r l2).
  - destruct (feed r x now) as [o r1]. rewrite IH. destruct (feed_all r1 l1) as [o1 r2].
    by destruct (feed_all r2 l2).
Qed.

Lemma feed_all_complete l k x now :
  Forall in_packet l -> is_piece k x -> t0 <= now < t0 + timeout r0 ->
  (forall y, In y l -> ~ is_piece k (fst y)) ->
  (forall j, (j < length pieces)%nat -> j <> k -> exists y, In y l /\ is_piece j (fst y)) ->
  exists outs, Forall2 quiet l outs
  /\ feed_all r0 (l ++ [(x, now)])
     = (outs ++ [Ok (Some (mkReassembled (ra_session_id r0) (address m) (payload m)))], r0).
Proof.
  intros Hl (c & Hk & ->) Hnow Hno Hall.
  assert (packet_view (fun _ => false) r0) as Hv.
  { split; [by destruct r0|]. by rewrite Hnone. }
  destruct (feed_all_incomplete l (fun _ => false) r0 k Hv Hl (lookup_lt_Some _ _ _ Hk) eq_refl Hno)
    as (outs & r' & f' & E & Hq & Hv' & Hf' & Hiff).
  exists outs. split; [done|]. rewrite feed_all_app, E. cbn [feed_all].
  rewrite (feed_completing f' r' k c now) by
    (done || (intros j Hj; unfold with_index; destruct (decide (j = k)) as [->|];
       [by rewrite bool_decide_eq_true_2 | rewrite orb_true_iff; right; apply Hiff; auto])).
  done.
Qed.

End Packet.

Lemma in_imap {A B} (f : nat -> A -> B) l y :
  In y (imap f l) <-> exists i c, l !! i = Some c /\ y = f i c.
Proof.
  rewrite <- list_elem_of_In, list_elem_of_lookup. split.
  - intros [i Hi]. rewrite list_lookup_imap in Hi.
    destruct (l !! i) as [c|] eqn:E; [|done]. simplify_eq/=. eauto.
  - intros (i & c & Hi & ->). exists i. by rewrite list_lookup_imap, Hi.
Qed.

(** C26: the fragments [fragment_udp_message] makes of a datagram, fed to an idle reassembler in any
    order, with any repetition, and interleaved with messages that are unfragmented, invalid or of
    another session, all within one timeout, give back exactly that datagram when the last
    missing fragment arrives; before it every fragment is answered with [Ok None], and afterwards
    the reassembler is as it was before. *)
Theorem reassembly_any_order r m size frags l x t t0 :
  partial r = None -> session_id m = ra_session_id r -> len (payload m) <= max_payload r ->
  fragment_udp_message m size = Ok frags -> 1 < len frags ->
  Forall (fun y => t0 <= snd y < t0 + timeout r
    /\ (In (fst y) frags \/ passes_by (ra_session_id r) (fst y))) l ->
  t0 <= t < t0 + timeout r -> In x frags -> ~ In x (map fst l) ->
  (forall y, In y frags -> y = x \/ In y (map fst l)) ->
  exists outs,
    feed_all r (l ++ [(x, t)])
    = (outs ++ [Ok (Some (mkReassembled (ra_session_id r) (address m) (payload m)))], r)
    /\ Forall2 (fun y o => In (fst y) frags -> o = Ok None) l outs.
Proof.
  intros Hn Hs Hb Hfr Hlen Hl Ht Hx Hno Hall.
  destruct (fragment_udp_message_spec _ _ _ Hfr)
    as (cap & _ & _ & Hv & _ & Hmax & Hcat & Hne & Hcnt & Efr).
  set (pieces := chunks (Z.to_nat cap) (payload m)) in *.
  rewrite <- Hcnt in Efr.
  assert (forall y, In y frags <-> exists i, is_piece m pieces i y) as Hiff.
  { intros y. rewrite Efr, in_imap. unfold is_piece. naive_solver. }
  assert (Forall (fun c => c <> []) pieces) as Hne'
    by (eapply Forall_impl; [|exact Hne]; by intros ? [? _]).
  assert (len pieces <= 255) as Hc by lia. assert (1 < len pieces) as Hm by lia.
  apply Hiff in Hx as [k Hk].
  destruct (feed_all_complete r m pieces t0 Hn Hs Hb Hv Hcat Hne' Hc Hm l k x t) as (outs & Hq & E);
    [|done|done| | |].
  - eapply Forall_impl; [|exact Hl]. intros y [? Hy]. split; [done|]. by rewrite <- Hiff.
  - intros y Hy Hp. apply Hno. destruct Hk as (c & Hc1 & ->), Hp as (d & Hd & E).
    assert (c = d) as -> by congruence. rewrite <- E. by apply in_map.
  - intros j Hj Hjk. destruct (lookup_lt_is_Some_2 pieces j Hj) as [d Hd].
    assert (is_piece m pieces j (fragment_of m (len pieces) j d)) as Hp by (by exists d).
    destruct (Hall (fragment_of m (len pieces) j d)) as [Ex|Hin]; [apply Hiff; eauto| |].
    + destruct Hjk. rewrite Ex in Hp. by eapply is_piece_fun.
    + apply in_map_iff in Hin as (y & Ey & ?). exists y. by rewrite Ey.
  - exists outs. split; [done|]. eapply Forall2_impl; [|exact Hq]. intros y o Hy Hin.
    apply Hy. by apply Hiff.
Qed.

Definition sample_reassembler : Reassembler := mkReassembler 7 1000 5 None.
Definition sample_udp : UdpMessage := mkUdp 7 3 0 1 (str_of "a:1") (str_of "hello world").
Definition sample_piece (i : Z) (s : str) : UdpMessage := mkUdp 7 3 i 3 (str_of "a:1") s.

Definition sample_frags : list UdpMessage :=
  [sample_piece 0 (str_of "hell"); sample_piece 1 (str_of "o wo"); sample_piece 2 (str_of "rld")].
Definition sample_feed : list (UdpMessage * Z) :=
  [(sample_piece 2 (str_of "rld"), 10); (sample_udp, 11); (sample_piece 0 (str_of "hell"), 12);
   (sample_piece 2 (str_of "rld"), 13)].

Lemma reassembly_any_order_witness :
  fragment_udp_message sample_udp 16 = Ok sample_frags
  /\ exists outs,
    feed_all sample_reassembler (sample_feed ++ [(sample_piece 1 (str_of "o wo"), 14)])
    = (outs ++ [Ok (Some (mkReassembled 7 (str_of "a:1") (str_of "hello world")))],
       sample_reassembler).
Proof.
  assert (fragment_udp_message sample_udp 16 = Ok sample_frags) as E by (vm_compute; reflexivity).
  split; [exact E|].
  destruct (reassembly_any_order sample_reassembler sample_udp 16 sample_frags sample_feed
    (sample_piece 1 (str_of "o wo")) 14 10) as (outs & Eo & _);
    [reflexivity | reflexivity | vm_compute; discriminate | exact E | reflexivity | | | | | |
     exists outs; exact Eo].
  - repeat apply Forall_cons; try apply Forall_nil; (split; [simpl; lia|]);
      unfold passes_by; simpl; naive_solver.
  - simpl. lia.
  - simpl. auto.
  - intros Hin. vm_compute in Hin. naive_solver.
  - intros y Hy. simpl in Hy. simpl. naive_solver.
Defined.

(** ** Reachable reassemblers *)

Inductive ReassemblerOp := OpFeed (m : UdpMessage) (now : Z) | OpExpire (now : Z) | OpClear.

Definition op_ok (o : ReassemblerOp) : Prop :=
  match o with
  | OpFeed m _ => in_u8 (fragment_id m) /\ in_u8 (fragment_count m)
  | _ => True
  end.

Definition ra_step (r : Reassembler) (o : ReassemblerOp) : Reassembler :=
  match o with
  | OpFeed m now => snd (feed r m now)
  | OpExpire now => expire r now
  | OpClear => clear r
  end.

Lemma ra_steps_ok ops r :
  reassembler_ok r -> Forall op_ok ops -> reassembler_ok (fold_left ra_step ops r).
Proof.
  intros Hr Ho. revert r Hr. induction Ho as [|o ops Ho _ IH]; intros r Hr; [done|].
  simpl. apply IH. destruct o; simpl; [apply feed_ok; naive_solver | by apply expire_ok | by apply clear_ok].
Qed.

Lemma ra_step_limits ops r :
  max_payload (fold_left ra_step ops r) = max_payload r.
Proof.
  revert r. induction ops as [|o ops IH]; intros r; [done|]. simpl. rewrite IH. clear IH.
  assert (forall now, max_payload (expire r now) = max_payload r) as He.
  { intros now. unfold expire. destruct (partial r); [by case_if|done]. }
  destruct o as [m now|now|]; simpl; [|done..]. unfold feed.
  rewrite <- (He now). set (r1 := expire r now).
  destruct (validate m); [|done..]. case_if; [done|]. case_if; [by case_if|]. case_if; [done|].
  cbv zeta. case_if; [done|].
  destruct (fragments _ !! _) as [[e|]|]; [by case_if| |done]. case_if; [done|]. case_if; [done|].
  by destruct (join_fragments _).
Qed.

(** a reassembler made by [new], after any sequence of fed messages, expiries and clears,
    buffers no more than the payload budget it was made with, and the next message fed to it
    neither indexes a missing slot nor finds a missing fragment when it joins. *)
Theorem reassembler_safe session limit timeout r ops m now :
  Reassembler_new session limit timeout = Ok r -> 0 <= limit ->
  Forall op_ok ops -> op_ok (OpFeed m now) ->
  let r' := fold_left ra_step ops r in
  0 <= buffered_payload_bytes r' <= limit /\ limit <= MAX_UDP_PAYLOAD
  /\ fst (feed r' m now) <> Panic.
Proof.
  unfold Reassembler_new. case_if; [done|]. intros E%Ok_inj Hl Hops Hm. unbool.
  set (r' := fold_left ra_step ops r).
  assert (reassembler_ok r) as Hr by (subst r; split; simpl; [lia|done]).
  pose proof (ra_steps_ok ops r Hr Hops) as Hr'. fold r' in Hr'.
  assert (max_payload r' = limit) as Hmax by (unfold r'; rewrite ra_step_limits; by subst r).
  split_and!; [| |lia|].
  - unfold buffered_payload_bytes. destruct (partial r') as [p|] eqn:Ep; [|lia].
    destruct (proj2 Hr' p Ep) as (_ & _ & _ & -> & _). apply len_nonneg.
  - unfold buffered_payload_bytes. destruct (partial r') as [p|] eqn:Ep; [|lia].
    destruct (proj2 Hr' p Ep) as (_ & _ & _ & _ & ?). lia.
  - destruct Hm. by apply feed_ok.
Qed.

Lemma reassembler_safe_witness :
  fst (feed (fold_left ra_step [OpFeed (sample_piece 2 (str_of "rld")) 10; OpExpire 11]
    sample_reassembler) (sample_piece 0 (str_of "hell")) 12) <> Panic.
Proof.
  apply (reassembler_safe 7 1000 5 sample_reassembler
    [OpFeed (sample_piece 2 (str_of "rld")) 10; OpExpire 11] (sample_piece 0 (str_of "hell")) 12).
  - reflexivity.
  - lia.
  - repeat constructor; unfold in_u8; simpl; lia.
  - simpl. unfold in_u8. lia.
Defined.

(** ** The wire format *)

Lemma rd_take_app x y z n p :
  len x = p -> len y = n -> rd_take (x ++ y ++ z) p n = Ok (y, p + n).
Proof.
  intros Hx Hy. unfold rd_take. rewrite (slice_from_eq x (y ++ z)) by done. cbn [res_bind].
  pose proof (len_nonneg z). guard_false by (rewrite len_app; lia).
  replace (Z.to_nat n) with (length y) by (unfold len in *; lia). by rewrite take_app_length.
Qed.

(** A first byte [b] and [2^(b/64) - 1] more bytes are read as their big-endian number, less
    the two tag bits. *)
Lemma rd_varint_app x b rest z :
  len rest = 2 ^ (u8 b / 64) - 1 ->
  rd_varint (x ++ (b :: rest) ++ z) (len x)
  = Ok (from_be (b :: rest) - u8 b / 64 * 64 * 256 ^ len rest, len x + 1 + len rest).
Proof.
  intros Hr. unfold rd_varint. pose proof (u8_range b) as Hb.
  change (x ++ (b :: rest) ++ z) with (x ++ [b] ++ rest ++ z).
  rewrite (rd_take_app x [b]) by done. cbn [res_bind].
  change (@index WireError _ [b] 0) with (@Ok WireError byte b). cbn [res_bind].
  rewrite Z.shiftr_div_pow2 by lia. change (2 ^ 6) with 64.
  assert (0 <= u8 b / 64) as Hd by (apply Z.div_pos; lia).
  rewrite Z.shiftl_mul_pow2, app_assoc by done.
  rewrite (rd_take_app (x ++ [b]) rest) by (try rewrite len_app; len_simpl; lia).
  cbn [res_bind]. rewrite varint_fold by (apply Z.land_nonneg; lia).
  change 63 with (Z.ones 6). rewrite Z.land_ones, from_be_cons by lia. change (2 ^ 6) with 64.
  repeat f_equal; [|lia]. pose proof (Z.div_mod (u8 b) 64 ltac:(lia)) as E. nia.
Qed.

Lemma len_put_varint v : 0 <= v -> len (put_varint v) = varint_length v.
Proof.
  intros. unfold put_varint, varint_length. repeat case_if; simpl in *; try done; unbool; lia.
Qed.

Lemma rd_put_tagged tag v z x k :
  0 <= tag < 4 -> Z.of_nat k = 2 ^ tag - 1 -> 0 <= v < 64 * 256 ^ Z.of_nat k ->
  rd_varint (x ++ be_bytes (S k) (v + tag * 64 * 256 ^ Z.of_nat k) ++ z) (len x)
  = Ok (v, len x + 1 + Z.of_nat k).
Proof.
  intros Ht Hk Hv. destruct (tagged_bytes tag v k Ht Hv) as (b & rest & -> & Hl & Hb & Hw).
  rewrite rd_varint_app by (rewrite Hl, Hb; lia). rewrite Hl, Hb, Hw. do 2 f_equal; lia.
Qed.

Lemma rd_put_varint v x z :
  0 <= v < 2 ^ 30 ->
  rd_varint (x ++ put_varint v ++ z) (len x) = Ok (v, len x + varint_length v).
Proof.
  intros Hv. change (2 ^ 30) with 1073741824 in Hv. unfold put_varint, varint_length.
  destruct (v <? 64) eqn:E1; [|destruct (v <? 16384) eqn:E2]; cbn [Z.eqb Pos.eqb]; unbool.
  - pose proof (rd_put_tagged 0 v z x 0 ltac:(lia) eq_refl ltac:(simpl; lia)) as E.
    simpl in E. rewrite Z.div_1_r, Z.add_0_r in E.
    simpl. rewrite E. do 2 f_equal; lia.
  - rewrite Z.mod_small by lia. change 0x4000 with (Z.shiftl 1 14).
    rewrite lor_disjoint_add by (simpl; lia).
    change (1 * 2 ^ 14) with (1 * 64 * 256 ^ Z.of_nat 1).
    rewrite (rd_put_tagged 1 v z x 1 ltac:(lia) eq_refl ltac:(simpl; lia)). do 2 f_equal; lia.
  - unfold wrap32. rewrite Z.mod_small by lia. change 0x80000000 with (Z.shiftl 2 30).
    rewrite lor_disjoint_add by (simpl; lia).
    change (2 * 2 ^ 30) with (2 * 64 * 256 ^ Z.of_nat 3).
    rewrite (rd_put_tagged 2 v z x 3 ltac:(lia) eq_refl ltac:(simpl; lia)). do 2 f_equal; lia.
Qed.

Lemma rd_put_bytes b x z limit e :
  len b <= limit < 2 ^ 30 ->
  rd_bounded_bytes (x ++ put_bytes b ++ z) (len x) limit e = Ok (b, len x + len (put_bytes b)).
Proof.
  intros Hb. pose proof (len_nonneg b). unfold rd_bounded_bytes, put_bytes. rewrite <- app_assoc.
  rewrite rd_put_varint by lia. cbn [res_bind]. guard_false by lia. rewrite app_assoc.
  rewrite (rd_take_app (x ++ put_varint (len b)) b z) by (try rewrite len_app, len_put_varint; lia).
  rewrite len_app, len_put_varint by lia. do 2 f_equal; lia.
Qed.

Lemma rd_put_address a x z :
  validate_address a = Ok tt -> is_utf8 a = true ->
  rd_address (x ++ put_bytes a ++ z) (len x) = Ok (a, len x + len (put_bytes a)).
Proof.
  intros Hv Hu. unfold rd_address.
  assert (len a <= MAX_ADDRESS_LENGTH) as Hl
    by (revert Hv; unfold validate_address; case_if; [done|]; unbool; lia).
  rewrite rd_put_bytes by (unfold MAX_ADDRESS_LENGTH in *; lia). cbn [res_bind].
  unfold from_utf8. unfold is_utf8 in Hu. destruct (utf8_chars a); [|done].
  cbn [ok_or res_bind]. by rewrite Hv.
Qed.

(** a TCP request is read back from its encoding, whatever follows it on the stream, with the
    position of the first byte after it; an address or a padding over the limit is refused by the
    writer. *)
Theorem tcp_request_roundtrip r tail :
  is_utf8 (rq_address r) = true ->
  match encode_tcp_request r with
  | Ok bytes => decode_tcp_request (bytes ++ tail) = Ok (r, len bytes)
  | Err Address => rq_address r = [] \/ MAX_ADDRESS_LENGTH < len (rq_address r)
  | Err PaddingTooLong => MAX_PADDING_LENGTH < len (rq_padding r)
  | _ => False
  end.
Proof.
  intros Hu. unfold encode_tcp_request.
  destruct (validate_address (rq_address r)) as [[]|e|] eqn:Ev; revert Ev.
  2-3: unfold validate_address; case_if; [|done].
  2: { intros [= <-]. simpl. apply orb_true_iff in Heqb as [?|?]; unbool; auto. }
  2: done.
  intros Ev. cbn [res_bind]. destruct (_ <? _) eqn:Ep; unbool; [lia|].
  unfold decode_tcp_request. rewrite <- !app_assoc.
  rewrite (rd_put_varint TCP_REQUEST_ID [] (put_bytes (rq_address r) ++ put_bytes (rq_padding r) ++ tail)
    ltac:(done) : rd_varint (put_varint TCP_REQUEST_ID ++ _) 0 = _).
  cbn [res_bind]. rewrite Z.eqb_refl. cbn [negb].
  change (len [] + varint_length TCP_REQUEST_ID) with (len (put_varint TCP_REQUEST_ID)).
  rewrite rd_put_address by done. cbn [res_bind].
  rewrite <- len_app, (app_assoc (put_varint _)).
  rewrite rd_put_bytes by (unfold MAX_PADDING_LENGTH in *; lia). cbn [res_bind].
  rewrite !len_app. destruct r. simpl. do 2 f_equal; lia.
Qed.

Lemma tcp_request_roundtrip_witness :
  decode_tcp_request ([to_u8 0x44; to_u8 1; to_u8 3] ++ str_of "a:1" ++ [to_u8 1] ++ str_of "x" ++ str_of "tail")
  = Ok (mkTcpRequest (str_of "a:1") (str_of "x"), 8).
Proof. exact (tcp_request_roundtrip (mkTcpRequest (str_of "a:1") (str_of "x")) (str_of "tail") eq_refl). Defined.

Lemma map_imap {A B} (g : B -> A) (f : nat -> A -> B) l :
  (forall i c, g (f i c) = c) -> map g (imap f l) = l.
Proof.
  revert f. induction l as [|c l IH]; intros f E; [done|]. rewrite imap_cons. simpl.
  rewrite E, IH; [done|]. intros. apply E.
Qed.

Lemma validate_address_of m : validate m = Ok tt -> validate_address (address m) = Ok tt.
Proof. unfold validate. by destruct (validate_address (address m)) as [[]| |]. Qed.

Lemma udp_message_roundtrip m :
  validate m = Ok tt -> is_utf8 (address m) = true -> in_u32 (session_id m) ->
  in_u16 (packet_id m) -> in_u8 (fragment_id m) -> in_u8 (fragment_count m) ->
  exists bytes, encode_udp_message m = Ok bytes
    /\ len bytes = header_length m + len (payload m) /\ decode_udp_message bytes = Ok m.
Proof.
  intros Hv Hu Hs Hp Hi Hc. unfold encode_udp_message. rewrite Hv. cbn [res_bind].
  eexists. split; [done|]. pose proof (len_nonneg (address m)).
  split; [unfold header_length, put_bytes; len_simpl; rewrite len_put_varint by lia; lia|].
  set (head := be_bytes 4 (session_id m) ++ be_bytes 2 (packet_id m)
    ++ [to_u8 (fragment_id m); to_u8 (fragment_count m)]).
  assert (len head = 8) as Hh by done.
  replace (be_bytes 4 _ ++ _) with (head ++ put_bytes (address m) ++ payload m)
    by (unfold head; by rewrite <- !app_assoc).
  unfold decode_udp_message.
  rewrite (rd_take_app [] head (put_bytes (address m) ++ payload m) 8 0 eq_refl Hh
    : rd_take (head ++ _) 0 8 = _). cbn [res_bind].
  rewrite (slice_eq [] (be_bytes 4 (session_id m)) (be_bytes 2 (packet_id m)
    ++ [to_u8 (fragment_id m); to_u8 (fragment_count m)])) by done. cbn [res_bind].
  rewrite (slice_eq (be_bytes 4 (session_id m)) (be_bytes 2 (packet_id m))
    [to_u8 (fragment_id m); to_u8 (fragment_count m)]) by done. cbn [res_bind].
  change (0 + 8) with (len head). rewrite rd_put_address by (done || by apply validate_address_of).
  cbn [res_bind].
  change (@index WireError _ head 6) with (@Ok WireError _ (to_u8 (fragment_id m))).
  change (@index WireError _ head 7) with (@Ok WireError _ (to_u8 (fragment_count m))).
  cbn [res_bind].
  rewrite (slice_from_eq (head ++ put_bytes (address m)) (payload m))
    by (try rewrite <- app_assoc; try rewrite len_app; done).
  cbn [res_bind]. rewrite !from_be_bytes_small, !u8_to_u8_small by done.
  replace (mkUdp _ _ _ _ _ _) with m by by destruct m. by rewrite Hv.
Qed.

(** the fragments [fragment_udp_message] makes of a datagram carry its payload in order, and
    each of them is written into a datagram of at most the given size that is read back as that
    fragment. *)
Theorem fragments_on_the_wire m size frags :
  fragment_udp_message m size = Ok frags -> is_utf8 (address m) = true ->
  in_u32 (session_id m) -> in_u16 (packet_id m) ->
  concat (map payload frags) = payload m
  /\ Forall (fun x => exists bytes,
       encode_udp_message x = Ok bytes /\ len bytes <= size /\ decode_udp_message bytes = Ok x)
     frags.
Proof.
  intros Hfr Hu Hs Hp.
  destruct (fragment_udp_message_spec _ _ _ Hfr)
    as (cap & Hcap & Hpos & Hv & _ & Hmax & Hcat & Hne & Hcnt & Efr).
  set (pieces := chunks (Z.to_nat cap) (payload m)) in *. rewrite <- Hcnt in Efr. split.
  - rewrite <- Hcat, Efr. f_equal. by apply map_imap.
  - apply List.Forall_forall. intros x Hx. rewrite Efr in Hx.
    apply in_imap in Hx as (i & c & Hi & ->).
    assert (Forall (fun c => c <> []) pieces) as Hne'
      by (eapply Forall_impl; [|exact Hne]; by intros ? [? _]).
    assert (len pieces <= 255) as Hc by lia.
    pose proof (piece_bounds m pieces Hcat Hne' Hc _ _ Hi) as (Hic & _ & _ & Hid).
    destruct (udp_message_roundtrip (fragment_of m (len pieces) i c)) as (bytes & E & Hlen & D);
      [exact (validate_frag m pieces Hv Hcat Hne' Hc i c Hi)|done..|unfold in_u8; simpl; lia|unfold in_u8; simpl; lia|].
    apply Forall_lookup_1 with (2 := Hi) in Hne as [_ Hcl].
    exists bytes. split_and!; [done| |done]. rewrite Hlen. unfold header_length in *. simpl. lia.
Qed.

Lemma fragments_on_the_wire_witness :
  fragment_udp_message sample_udp 16 = Ok sample_frags
  /\ concat (map payload sample_frags) = str_of "hello world".
Proof.
  assert (fragment_udp_message sample_udp 16 = Ok sample_frags) as E by (vm_compute; reflexivity).
  split; [exact E|]. apply (fragments_on_the_wire sample_udp 16 sample_frags E).
  - vm_compute; reflexivity.
  - vm_compute; split; [discriminate | reflexivity].
  - vm_compute; split; [discriminate | reflexivity].
Defined.
