(* ===== verification/Transport.v ===== *)
(** The contract of [tokio]'s [AsyncRead] and [AsyncWrite], which the framed streams of the
    program are written against: polls, a class of transports with its laws, and a scripted
    transport that keeps them. *)
From Stdlib Require Import Strings.Byte.
From S2P Require Import Prelude.

Inductive poll (A : Type) := Ready (a : A) | Pending.
Arguments Ready {A} a.
Arguments Pending {A}.

(** A transport. A read is given the room in the caller's buffer and returns the bytes it put
    there; a write returns how many bytes it took. The last two functions are not operations: the
    bytes the transport will still deliver, and those it has taken, in order. *)
Class AsyncIo (S : Type) := {
  io_error : Type;
  io_poll_read : S -> Z -> poll (res io_error (list byte)) * S;
  io_poll_write : S -> list byte -> poll (res io_error Z) * S;
  io_poll_flush : S -> poll (res io_error unit) * S;
  io_poll_shutdown : S -> poll (res io_error unit) * S;
  unread : S -> list byte;
  taken : S -> list byte
}.

Definition read_ok {T} `{AsyncIo T} (s : T) (n : Z) (p : poll (res io_error (list byte)) * T)
    : Prop :=
  taken (snd p) = taken s
  /\ match fst p with
     | Ready (Ok bs) => unread s = bs ++ unread (snd p) /\ len bs <= n /\ (bs = [] -> unread s = [])
     | Ready Panic => False
     | _ => unread (snd p) = unread s
     end.

Definition write_ok {T} `{AsyncIo T} (s : T) (bytes : list byte)
    (p : poll (res io_error Z) * T) : Prop :=
  unread (snd p) = unread s
  /\ match fst p with
     | Ready (Ok n) => 0 <= n <= len bytes /\ taken (snd p) = taken s ++ take (Z.to_nat n) bytes
     | Ready Panic => False
     | _ => taken (snd p) = taken s
     end.

Definition idle_ok {T} `{AsyncIo T} (s : T) (p : poll (res io_error unit) * T) : Prop :=
  unread (snd p) = unread s /\ taken (snd p) = taken s /\ fst p <> Ready Panic.

(** Bytes arrive in order, a read into a buffer with room returns no bytes only at the end, and a
    write takes a prefix of what it is given. *)
Class AsyncIoLaws (T : Type) `{AsyncIo T} := {
  poll_read_law s n : 0 < n -> read_ok s n (io_poll_read s n);
  poll_write_law s bytes : write_ok s bytes (io_poll_write s bytes);
  poll_flush_law s : idle_ok s (io_poll_flush s);
  poll_shutdown_law s : idle_ok s (io_poll_shutdown s)
}.

(** ** A scripted transport

    The chunks it delivers, an empty one standing for a read that is not ready, and the sizes of
    its writes, zero standing for a write that is not ready; after the script it takes everything. *)
Record Script := mkScript { chunks_in : list (list byte); writes : list nat; taken_out : list byte }.

Definition script_read (s : Script) (n : Z) : poll (res Empty_set (list byte)) * Script :=
  match chunks_in s with
  | [] => (Ready (Ok []), s)
  | [] :: rest => (Pending, mkScript rest (writes s) (taken_out s))
  | c :: rest =>
    let k := Z.to_nat n in
    (Ready (Ok (take k c)),
     mkScript (if bool_decide (drop k c = []) then rest else drop k c :: rest) (writes s)
       (taken_out s))
  end.

Definition script_write (s : Script) (bytes : list byte) : poll (res Empty_set Z) * Script :=
  match writes s with
  | [] => (Ready (Ok (len bytes)), mkScript (chunks_in s) [] (taken_out s ++ bytes))
  | O :: rest => (Pending, mkScript (chunks_in s) rest (taken_out s))
  | k :: rest =>
    (Ready (Ok (len (take k bytes))), mkScript (chunks_in s) rest (taken_out s ++ take k bytes))
  end.

Definition script_idle (s : Script) : poll (res Empty_set unit) * Script := (Ready (Ok tt), s).

#[export] Instance Script_io : AsyncIo Script := {
  io_error := Empty_set;
  io_poll_read := script_read;
  io_poll_write := script_write;
  io_poll_flush := script_idle;
  io_poll_shutdown := script_idle;
  unread s := concat (chunks_in s);
  taken := taken_out
}.

Lemma script_read_law s n : 0 < n -> read_ok s n (script_read s n).
Proof.
  intros Hn. unfold script_read, read_ok. destruct s as [[|c rest] ws out]; simpl.
  { split_and!; try done. unfold len. simpl. lia. }
  destruct c as [|b c]; [done|]. cbn [fst snd taken unread Script_io chunks_in taken_out concat].
  assert (b :: c <> []) as Hne by done. generalize dependent (b :: c). clear b c. intros l Hne.
  split; [done|]. split_and!.
  - rewrite <- (take_drop (Z.to_nat n) l) at 1. case_if; unbool.
    + by rewrite Heqb, app_nil_r.
    + by rewrite <- app_assoc.
  - unfold len. rewrite length_take. lia.
  - intros E. apply (f_equal length) in E. rewrite length_take in E. destruct l; [done|].
    simpl in E. lia.
Qed.

Lemma script_write_law s bytes : write_ok s bytes (script_write s bytes).
Proof.
  unfold script_write, write_ok. destruct s as [ins [|[|k] rest] out]; (split; [done|]);
    cbn [fst snd taken Script_io taken_out writes].
  - pose proof (len_nonneg bytes). split; [lia|]. unfold len. by rewrite Nat2Z.id, firstn_all.
  - done.
  - pose proof (len_nonneg (take (S k) bytes)). split.
    + unfold len in *. rewrite length_take in *. lia.
    + unfold len. rewrite Nat2Z.id, length_take. f_equal. rewrite <- take_take.
      by rewrite (firstn_all bytes).
Qed.

#[export] Instance Script_laws : AsyncIoLaws Script.
Proof.
  constructor; try (intros; by split_and!);
    intros; by (apply script_read_law || apply script_write_law).
Qed.
