(* ===== verification/Framing.v ===== *)
(** Decoders that accumulate bytes and hand out frames: what they have in common. A format says how
    to read one frame off the front of a buffer; the class states what makes it fit for reading a
    stream in pieces, and the lemmas show that the frames of a stream then do not depend on how
    the stream was cut. The WebSocket and the gRPC decoders are instances. *)
From Stdlib Require Import Strings.Byte.
From S2P Require Import Prelude.

(** A reader of one frame: the frame and its length, nothing while bytes are missing, or an error.
    What it has read or refused does not change when more bytes arrive. *)
Class FrameFormat {F E : Type} (parse : list byte -> res E (option (F * Z))) : Prop := {
  parse_no_panic b : parse b <> Panic;
  parse_fits b f n : parse b = Ok (Some (f, n)) -> 0 < n <= len b;
  parse_more b r x : parse b = Ok (Some x) -> parse (b ++ r) = Ok (Some x);
  parse_refuses b r e : parse b = Err e -> parse (b ++ r) = Err e
}.

(** A reader that needs more, refuses for good or has read a frame for good is a format. *)
Lemma format_intro {F E} (parse : list byte -> res E (option (F * Z))) :
  (forall b, parse b = Ok None
     \/ (exists e, forall r, parse (b ++ r) = Err e)
     \/ exists f n, 0 < n <= len b /\ forall r, parse (b ++ r) = Ok (Some (f, n))) ->
  FrameFormat parse.
Proof.
  intros Hspec.
  assert (forall b, parse b = Ok None
     \/ (exists e, parse b = Err e /\ forall r, parse (b ++ r) = Err e)
     \/ exists f n, 0 < n <= len b /\ parse b = Ok (Some (f, n))
          /\ forall r, parse (b ++ r) = Ok (Some (f, n))) as H.
  { intros b. destruct (Hspec b) as [?|[[e H]|(f & n & Hn & H)]]; [by left|right; left|right; right];
      pose proof (H []) as H0; rewrite app_nil_r in H0; eauto 10. }
  split; intros b; destruct (H b) as [->|[(e' & -> & H')|(f' & n' & Hn & -> & H')]]; try done.
  - intros f n E1. apply Ok_inj in E1. by simplify_eq.
  - intros r x <-. apply H'.
  - intros r x <-. apply H'.
Qed.

(** How the frames of a stream end: bytes of a frame that is not complete, or an error. *)
Inductive tail (E : Type) := Partial (rest : list byte) | Bad (e : E).
Arguments Partial {E} rest.
Arguments Bad {E} e.

Section Frames.
Context {F E : Type} (parse : list byte -> res E (option (F * Z))) `{!FrameFormat parse}.

Fixpoint frames_loop (fuel : nat) (b : list byte) : list F * tail E :=
  match fuel with
  | O => ([], Partial b)
  | S fuel =>
    match parse b with
    | Ok (Some (f, n)) =>
      let '(fs, t) := frames_loop fuel (drop (Z.to_nat n) b) in (f :: fs, t)
    | Err e => ([], Bad e)
    | _ => ([], Partial b)
    end
  end.

(** The frames of a stream. *)
Definition frames (b : list byte) : list F * tail E := frames_loop (S (length b)) b.

Lemma frames_fuel fuel fuel' b :
  (length b < fuel)%nat -> (length b < fuel')%nat -> frames_loop fuel b = frames_loop fuel' b.
Proof.
  revert fuel' b. induction fuel as [|fuel IH]; intros fuel' b H1 H2; [lia|].
  destruct fuel' as [|fuel']; [lia|]. cbn [frames_loop].
  destruct (parse b) as [[[f n]|]|e|] eqn:Ep; [|done..].
  apply parse_fits in Ep. unfold len in Ep.
  rewrite (IH fuel'); [done|rewrite length_drop; lia..].
Qed.

Lemma frames_eq b :
  frames b = match parse b with
             | Ok (Some (f, n)) =>
               let '(fs, t) := frames (drop (Z.to_nat n) b) in (f :: fs, t)
             | Err e => ([], Bad e)
             | _ => ([], Partial b)
             end.
Proof.
  unfold frames. cbn [frames_loop]. destruct (parse b) as [[[f n]|]|e|] eqn:Ep; [|done..].
  apply parse_fits in Ep. unfold len in Ep.
  rewrite (frames_fuel (length b) (S (length (drop (Z.to_nat n) b))));
    [done|rewrite length_drop; lia..].
Qed.

(** The bytes that are left are those of no complete frame. *)
Lemma frames_partial b fs rest :
  frames b = (fs, Partial rest) -> parse rest = Ok None /\ exists x, b = x ++ rest.
Proof.
  remember (length b) as n eqn:Hn. revert b Hn fs. induction (Nat.lt_wf_0 n) as [n _ IH].
  intros b -> fs. rewrite frames_eq. destruct (parse b) as [[[f k]|]|e|] eqn:Ep; [| |done|].
  - apply parse_fits in Ep. unfold len in Ep.
    destruct (frames (drop (Z.to_nat k) b)) as [fs' t] eqn:Ef. intros [= <- ->].
    destruct (IH (length (drop (Z.to_nat k) b))) with (3 := Ef) as (? & x & Ex);
      [rewrite length_drop; lia|done|]. split; [done|]. exists (take (Z.to_nat k) b ++ x).
    by rewrite <- app_assoc, <- Ex, take_drop.
  - intros [= <- <-]. split; [done|]. by exists [].
  - by apply parse_no_panic in Ep.
Qed.

(** Reading a stream in two pieces. *)
Lemma frames_app a b :
  frames (a ++ b) = match frames a with
                    | (fs, Partial rest) =>
                      let '(fs', t) := frames (rest ++ b) in (fs ++ fs', t)
                    | (fs, Bad e) => (fs, Bad e)
                    end.
Proof.
  remember (length a) as n eqn:Hn. revert a Hn. induction (Nat.lt_wf_0 n) as [n _ IH].
  intros a ->. rewrite (frames_eq (a ++ b)), (frames_eq a).
  destruct (parse a) as [[[f k]|]|e|] eqn:Ep.
  - rewrite (parse_more a b (f, k) Ep). pose proof (parse_fits a f k Ep) as Hk. unfold len in Hk.
    rewrite drop_app_le by lia.
    rewrite (IH (length (drop (Z.to_nat k) a))) by (done || rewrite length_drop; lia).
    destruct (frames (drop (Z.to_nat k) a)) as [fs [rest|e]]; [|done].
    by destruct (frames (rest ++ b)).
  - rewrite <- frames_eq. by destruct (frames (a ++ b)).
  - by rewrite (parse_refuses a b e Ep).
  - by apply parse_no_panic in Ep.
Qed.

End Frames.
