(* ===== verification/WebSocket.v ===== *)
(** WebSocket: [crates/xray-transport/src/stream/websocket_frame.rs] (client frames, masking, the
    frame decoder) and the framed stream of [stream/websocket.rs], with its base64. *)
From Stdlib Require Import Strings.Byte.
From S2P Require Import Prelude Transport Framing.

Definition MAX_FRAME_PAYLOAD : Z := 4096.
Definition OPCODE_CONTINUATION : Z := 0x0.
Definition OPCODE_TEXT : Z := 0x1.
Definition OPCODE_BINARY : Z := 0x2.
Definition OPCODE_CLOSE : Z := 0x8.
Definition OPCODE_PING : Z := 0x9.
Definition OPCODE_PONG : Z := 0xa.
Definition FIN : Z := 0x80.
Definition RSV_MASK : Z := 0x70.
Definition OPCODE_MASK : Z := 0x0f.
Definition MASKED : Z := 0x80.
Definition LENGTH_MASK : Z := 0x7f.
Definition MAX_CONTROL_PAYLOAD : Z := 125.
Definition MAX_INBOUND_PAYLOAD : Z := 64 * 1024 * 1024.

(** ** Masking *)

(** [u64::from_ne_bytes] and [to_ne_bytes] on a machine of either byte order. *)
Definition from_ne (little : bool) (b : list byte) : Z := from_be (if little then reverse b else b).
Definition to_ne (little : bool) (z : Z) : list byte :=
  if little then reverse (be_bytes 8 z) else be_bytes 8 z.

(** The words of eight bytes, then the bytes that are left, each against the key's byte at its
    index modulo four. *)
Fixpoint mask_loop (fuel : nat) (little : bool) (word : Z) (key payload : list byte) : list byte :=
  match fuel with
  | O => []
  | S fuel =>
    if (8 <=? length payload)%nat then
      to_ne little (Z.lxor (from_ne little (take 8 payload)) word)
      ++ mask_loop fuel little word key (drop 8 payload)
    else imap (fun i b => xor_byte b (nth (i mod 4) key x00)) payload
  end.

Definition apply_mask (little : bool) (payload key : list byte) : list byte :=
  mask_loop (S (length payload)) little (from_ne little (key ++ key)) key payload.

(** ** Encoding *)

Definition encode_frame (little : bool) (key : list byte) (opcode : Z) (fin : bool)
    (payload : list byte) : list byte :=
  [to_u8 (if fin then Z.lor FIN opcode else opcode)]
  ++ (if len payload <? 126 then [to_u8 (Z.lor MASKED (len payload))]
      else if len payload <=? u16_max then to_u8 (Z.lor MASKED 126) :: be_bytes 2 (len payload)
      else to_u8 (Z.lor MASKED 127) :: be_bytes 8 (len payload))
  ++ key ++ apply_mask little payload key.

(** [i] counts the frames, each of which draws a key. *)
Fixpoint encode_chunks (little : bool) (keys : nat -> list byte) (i : nat) (first : bool)
    (cs : list (list byte)) : list byte :=
  match cs with
  | [] => []
  | c :: cs =>
    encode_frame little (keys i) (if first then OPCODE_BINARY else OPCODE_CONTINUATION)
      (bool_decide (cs = [])) c
    ++ encode_chunks little keys (S i) false cs
  end.

Definition encode_client_frames (little : bool) (keys : nat -> list byte) (payload : list byte)
    : list byte :=
  if bool_decide (payload = []) then encode_frame little (keys 0%nat) OPCODE_BINARY true []
  else encode_chunks little keys 0 true (chunks (Z.to_nat MAX_FRAME_PAYLOAD) payload).

(** ** Decoding *)

Inductive WsError :=
| ReservedBit | MaskedServerFrame | ControlTooLong | ControlFragmented | PayloadTooLong (n : Z)
| UnknownOpcode (opcode : Z).

Record DecodedFrame := mkFrame { f_opcode : Z; f_payload : list byte }.

Inductive FrameEvent := Payload (p : list byte) | Pong (p : list byte) | Close.

Record FrameDecoder := mkDecoder { d_buffer : list byte; d_consumed : Z }.

Definition FrameDecoder_new : FrameDecoder := mkDecoder [] 0.

Definition extend (d : FrameDecoder) (bytes : list byte) : FrameDecoder :=
  mkDecoder (d_buffer d ++ bytes) (d_consumed d).

(** The length of the payload and of the header before it, or nothing yet. *)
Definition frame_length (bytes : list byte) : res WsError (option (Z * Z)) :=
  let? b1 := index bytes 1 in
  let short_length := Z.land (u8 b1) LENGTH_MASK in
  if short_length =? 126 then
    if len bytes <? 4 then Ok None
    else
      let? b2 := index bytes 2 in
      let? b3 := index bytes 3 in
      Ok (Some (from_be [b2; b3], 4))
  else if short_length =? 127 then
    if len bytes <? 10 then Ok None
    else
      let? length := slice bytes 2 10 in
      Ok (Some (from_be length, 10))
  else Ok (Some (short_length, 2)).

(** The limits on a frame's length. *)
Definition check_length (b0 : byte) (payload_length : Z) : res WsError unit :=
  if negb (Z.land (Z.land (u8 b0) OPCODE_MASK) 0x8 =? 0) then
    if MAX_CONTROL_PAYLOAD <? payload_length then Err ControlTooLong
    else if Z.land (u8 b0) FIN =? 0 then Err ControlFragmented
    else Ok tt
  else if MAX_INBOUND_PAYLOAD <? payload_length then Err (PayloadTooLong payload_length)
  else Ok tt.

(** Reading a frame whose first two bytes are there. *)
Definition parse_with (b0 b1 : byte) (bytes : list byte)
    : res WsError (option (DecodedFrame * Z)) :=
  if negb (Z.land (u8 b0) RSV_MASK =? 0) then Err ReservedBit
  else if negb (Z.land (u8 b1) MASKED =? 0) then Err MaskedServerFrame
  else
    let? l := frame_length bytes in
    match l with
    | None => Ok None
    | Some (payload_length, header) =>
      let? _ := check_length b0 payload_length in
      let total := header + payload_length in
      if len bytes <? total then Ok None
      else
        let? payload := slice bytes header total in
        Ok (Some (mkFrame (Z.land (u8 b0) OPCODE_MASK) payload, total))
    end.

Definition parse_bytes (bytes : list byte) : res WsError (option (DecodedFrame * Z)) :=
  if len bytes <? 2 then Ok None
  else
    let? b0 := index bytes 0 in
    let? b1 := index bytes 1 in
    parse_with b0 b1 bytes.

Definition parse_frame (d : FrameDecoder) : res WsError (option (DecodedFrame * Z)) :=
  let? bytes := slice_from (d_buffer d) (d_consumed d) in
  parse_bytes bytes.

(** [drain(..n)] *)
Definition compact (d : FrameDecoder) : FrameDecoder :=
  if d_consumed d =? 0 then d else mkDecoder (drop (Z.to_nat (d_consumed d)) (d_buffer d)) 0.

Fixpoint next_event_loop (fuel : nat) (d : FrameDecoder)
    : res WsError (option FrameEvent) * FrameDecoder :=
  match fuel with
  | O => (Panic, d)
  | S fuel =>
    match parse_frame d with
    | Err e => (Err e, d)
    | Panic => (Panic, d)
    | Ok None => (Ok None, compact d)
    | Ok (Some (frame, length)) =>
      let d := mkDecoder (d_buffer d) (d_consumed d + length) in
      let op := f_opcode frame in
      if op =? OPCODE_CLOSE then (Ok (Some Close), d)
      else if op =? OPCODE_PING then (Ok (Some (Pong (f_payload frame))), d)
      else if op =? OPCODE_PONG then next_event_loop fuel d
      else if (op =? OPCODE_TEXT) || (op =? OPCODE_BINARY) || (op =? OPCODE_CONTINUATION) then
        if bool_decide (f_payload frame = []) then next_event_loop fuel d
        else (Ok (Some (Payload (f_payload frame))), d)
      else (Err (UnknownOpcode op), d)
    end
  end.

Definition next_event (d : FrameDecoder) : res WsError (option FrameEvent) * FrameDecoder :=
  next_event_loop (S (length (d_buffer d))) d.

(** ** The framed stream *)

Definition READ_CHUNK : Z := 16 * 1024.
Definition CLOSE_NORMAL : Z := 1000.

Inductive WsIoError (E : Type) := Protocol (e : WsError) | WriteZero | InnerError (e : E).
Arguments Protocol {E} e.
Arguments WriteZero {E}.
Arguments InnerError {E} e.

Section Stream.
(** The byte order of the machine, and the masking keys in the order in which they are drawn. *)
Context {T : Type} `{Ai : AsyncIo T} (little : bool) (keys : nat -> list byte).

(** [drawn] counts the keys drawn so far; [heartbeat] says whether there is a keepalive. *)
Record WebSocketStream := mkWs {
  inner : T;
  decoder : FrameDecoder;
  pending : list byte;
  pending_pos : Z;
  out : list byte;
  out_pos : Z;
  heartbeat : bool;
  peer_closed : bool;
  close_queued : bool;
  drawn : nat
}.

Definition WebSocketStream_new (io : T) (leftover : list byte) (heartbeat_period_secs : Z)
    : WebSocketStream :=
  mkWs io (extend FrameDecoder_new leftover) [] 0 [] 0 (0 <? heartbeat_period_secs) false false 0.

Definition set_read (s : WebSocketStream) (d : FrameDecoder) (p : list byte) (pos : Z) (closed : bool)
    : WebSocketStream :=
  mkWs (inner s) d p pos (out s) (out_pos s) (heartbeat s) closed (close_queued s) (drawn s).

Definition set_out (s : WebSocketStream) (io : T) (o : list byte) (pos : Z) : WebSocketStream :=
  mkWs io (decoder s) (pending s) (pending_pos s) o pos (heartbeat s) (peer_closed s)
    (close_queued s) (drawn s).

(** [encode_frame(&mut self.out, ..)] *)
Definition queue_frame (s : WebSocketStream) (opcode : Z) (fin : bool) (payload : list byte)
    : WebSocketStream :=
  mkWs (inner s) (decoder s) (pending s) (pending_pos s)
    (out s ++ encode_frame little (keys (drawn s)) opcode fin payload) (out_pos s) (heartbeat s)
    (peer_closed s) (close_queued s) (S (drawn s)).

(** The bytes put into the caller's buffer, none when it returns [false]. *)
Definition deliver (s : WebSocketStream) (room : Z) : total (list byte * WebSocketStream) :=
  let? remaining := slice_from (pending s) (pending_pos s) in
  let take := Z.min (len remaining) room in
  if take =? 0 then Ok ([], s)
  else
    let? bytes := slice remaining 0 take in
    let pos := pending_pos s + take in
    if pos =? len (pending s) then Ok (bytes, set_read s (decoder s) [] 0 (peer_closed s))
    else Ok (bytes, set_read s (decoder s) (pending s) pos (peer_closed s)).

Fixpoint flush_loop (fuel : nat) (s : WebSocketStream)
    : poll (res (WsIoError io_error) unit) * WebSocketStream :=
  match fuel with
  | O => (Ready Panic, s)
  | S fuel =>
    if out_pos s <? len (out s) then
      match (slice_from (out s) (out_pos s) : total (list byte)) with
      | Ok rest =>
        match io_poll_write (inner s) rest with
        | (Ready (Ok written), io) =>
          let s := set_out s io (out s) (out_pos s) in
          if written =? 0 then (Ready (Err WriteZero), s)
          else flush_loop fuel (set_out s io (out s) (out_pos s + written))
        | (Ready (Err e), io) => (Ready (Err (InnerError e)), set_out s io (out s) (out_pos s))
        | (Ready Panic, io) => (Ready Panic, set_out s io (out s) (out_pos s))
        | (Pending, io) => (Pending, set_out s io (out s) (out_pos s))
        end
      | Err e => match e with end
      | Panic => (Ready Panic, s)
      end
    else (Ready (Ok tt), set_out s (inner s) [] 0)
  end.

Definition poll_flush_out (s : WebSocketStream)
    : poll (res (WsIoError io_error) unit) * WebSocketStream :=
  flush_loop (S (length (out s))) s.

(** [ticks] is how often the interval is ready. *)
Fixpoint queue_pings (ticks : nat) (s : WebSocketStream) : WebSocketStream :=
  match ticks with O => s | S ticks => queue_pings ticks (queue_frame s OPCODE_PING true []) end.

Definition queue_due_pings (s : WebSocketStream) (ticks : nat) : WebSocketStream :=
  if heartbeat s then queue_pings ticks s else s.

Fixpoint read_loop (fuel : nat) (s : WebSocketStream) (room : Z)
    : poll (res (WsIoError io_error) (list byte)) * WebSocketStream :=
  match fuel with
  | O => (Ready Panic, s)
  | S fuel =>
    match deliver s room with
    | Ok ((_ :: _) as bytes, s) => (Ready (Ok bytes), s)
    | Ok ([], s) =>
      if peer_closed s then (Ready (Ok []), s)
      else
        match next_event (decoder s) with
        | (Err e, d) => (Ready (Err (Protocol e)), set_read s d (pending s) (pending_pos s) false)
        | (Panic, d) => (Ready Panic, set_read s d (pending s) (pending_pos s) false)
        | (Ok (Some (Payload p)), d) => read_loop fuel (set_read s d p 0 false) room
        | (Ok (Some (Pong p)), d) =>
          let s := queue_frame (set_read s d (pending s) (pending_pos s) false) OPCODE_PONG true p in
          match poll_flush_out s with
          | (Ready (Err e), s) => (Ready (Err e), s)
          | (Ready Panic, s) => (Ready Panic, s)
          | (_, s) => read_loop fuel s room
          end
        | (Ok (Some Close), d) =>
          (Ready (Ok []), set_read s d (pending s) (pending_pos s) true)
        | (Ok None, d) =>
          let s := set_read s d (pending s) (pending_pos s) false in
          match io_poll_read (inner s) READ_CHUNK with
          | (Ready (Ok []), io) =>
            (Ready (Ok []), set_read (set_out s io (out s) (out_pos s)) d (pending s) (pending_pos s) true)
          | (Ready (Ok bytes), io) =>
            let s := set_out s io (out s) (out_pos s) in
            read_loop fuel (set_read s (extend d bytes) (pending s) (pending_pos s) false) room
          | (Ready (Err e), io) => (Ready (Err (InnerError e)), set_out s io (out s) (out_pos s))
          | (Ready Panic, io) => (Ready Panic, set_out s io (out s) (out_pos s))
          | (Pending, io) => (Pending, set_out s io (out s) (out_pos s))
          end
        end
    | Err e => match e with end
    | Panic => (Ready Panic, s)
    end
  end.

(** A turn for every byte that is buffered and two for every one that the transport still holds. *)
Definition read_fuel (s : WebSocketStream) : nat :=
  S (length (d_buffer (decoder s)) + 2 * length (unread (inner s))).

Definition poll_read (s : WebSocketStream) (room : Z) (ticks : nat)
    : poll (res (WsIoError io_error) (list byte)) * WebSocketStream :=
  if room =? 0 then (Ready (Ok []), s)
  else
    match poll_flush_out (queue_due_pings s ticks) with
    | (Ready (Err e), s) => (Ready (Err e), s)
    | (Ready Panic, s) => (Ready Panic, s)
    | (_, s) => read_loop (read_fuel s) s room
    end.

Definition poll_write (s : WebSocketStream) (input : list byte)
    : poll (res (WsIoError io_error) Z) * WebSocketStream :=
  match poll_flush_out s with
  | (Ready (Ok tt), s) =>
    if bool_decide (input = []) then (Ready (Ok 0), s)
    else
      let s :=
        mkWs (inner s) (decoder s) (pending s) (pending_pos s)
          (encode_client_frames little (fun i => keys (drawn s + i)%nat) input) 0 (heartbeat s)
          (peer_closed s) (close_queued s)
          (drawn s + length (chunks (Z.to_nat MAX_FRAME_PAYLOAD) input))%nat in
      match poll_flush_out s with
      | (Ready (Err e), s) => (Ready (Err e), s)
      | (Ready Panic, s) => (Ready Panic, s)
      | (_, s) => (Ready (Ok (len input)), s)
      end
  | (Ready (Err e), s) => (Ready (Err e), s)
  | (Ready Panic, s) => (Ready Panic, s)
  | (Pending, s) => (Pending, s)
  end.

Definition finish (s : WebSocketStream) (next : T -> poll (res io_error unit) * T)
    : poll (res (WsIoError io_error) unit) * WebSocketStream :=
  match poll_flush_out s with
  | (Ready (Ok tt), s) =>
    let '(p, io) := next (inner s) in
    (match p with Ready m => Ready (res_map_err InnerError m) | Pending => Pending end,
     set_out s io (out s) (out_pos s))
  | other => other
  end.

Definition poll_flush (s : WebSocketStream)
    : poll (res (WsIoError io_error) unit) * WebSocketStream := finish s io_poll_flush.

Definition poll_shutdown (s : WebSocketStream)
    : poll (res (WsIoError io_error) unit) * WebSocketStream :=
  let s :=
    if close_queued s then s
    else
      let s := queue_frame s OPCODE_CLOSE true (be_bytes 2 CLOSE_NORMAL) in
      mkWs (inner s) (decoder s) (pending s) (pending_pos s) (out s) (out_pos s) (heartbeat s)
        (peer_closed s) true (drawn s) in
  finish s io_poll_shutdown.

End Stream.
Arguments WebSocketStream T : clear implicits.

(** ** Masking by words is masking by bytes *)

(** RFC 6455, section 5.3. *)
Definition mask_bytes (payload key : list byte) : list byte :=
  imap (fun i b => xor_byte b (nth (i mod 4) key x00)) payload.

Lemma lxor_add x y a b k :
  0 <= k -> 0 <= a < 2 ^ k -> 0 <= b < 2 ^ k -> 0 <= Z.lxor a b < 2 ^ k ->
  Z.lxor (a + x * 2 ^ k) (b + y * 2 ^ k) = Z.lxor a b + Z.lxor x y * 2 ^ k.
Proof.
  intros Hk Ha Hb Hab. rewrite <- !lor_disjoint_add by done. apply Z.bits_inj'. intros n Hn.
  rewrite Z.lxor_spec, !Z.lor_spec, !Z.shiftl_spec, !Z.lxor_spec by lia.
  destruct (decide (n < k)).
  - rewrite !(Z.testbit_neg_r _ (n - k)) by lia. by rewrite !orb_false_r.
  - rewrite <- (Z.mod_small a (2 ^ k)), <- (Z.mod_small b (2 ^ k)) by done.
    by rewrite !Z.mod_pow2_bits_high by lia.
Qed.

Lemma from_be_xor a b :
  length a = length b -> from_be (zip_with xor_byte a b) = Z.lxor (from_be a) (from_be b).
Proof.
  revert b. induction a as [|x a IH]; intros [|y b] Hl; try done. simpl in Hl. injection Hl as Hl.
  cbn [zip_with]. rewrite !from_be_cons, u8_xor, IH by done. unfold len.
  rewrite length_zip_with_l by lia. replace (length b) with (length a) by done.
  change 256 with (2 ^ 8). rewrite <- Z.pow_mul_r by lia.
  assert (2 ^ (8 * Z.of_nat (length a)) = 256 ^ Z.of_nat (length a)) as Hp
    by (change 256 with (2 ^ 8); by rewrite <- Z.pow_mul_r by lia).
  pose proof (from_be_range a) as Ra. pose proof (from_be_range b) as Rb.
  pose proof (from_be_range (zip_with xor_byte a b)) as Rz. rewrite IH in Rz by done.
  unfold len in *. rewrite length_zip_with_l in Rz by lia. rewrite <- Hl in Rb. rewrite <- Hp in *.
  rewrite !(Z.add_comm (_ * _)). symmetry. apply lxor_add; lia.
Qed.

Lemma be_bytes_xor a b n :
  length a = n -> length b = n ->
  be_bytes n (Z.lxor (from_be a) (from_be b)) = zip_with xor_byte a b.
Proof.
  intros Ha Hb. rewrite <- from_be_xor by congruence. apply be_bytes_from_be.
  rewrite length_zip_with_l; [done|lia].
Qed.

Lemma explicit8 {A} (l : list A) :
  length l = 8%nat -> exists a b c d e f g h, l = [a; b; c; d; e; f; g; h].
Proof. intros H. do 8 (destruct l as [|? l]; [done|]). destruct l; [|done]. by do 8 eexists. Qed.

Lemma explicit4 {A} (l : list A) : length l = 4%nat -> exists a b c d, l = [a; b; c; d].
Proof. intros H. do 4 (destruct l as [|? l]; [done|]). destruct l; [|done]. by do 4 eexists. Qed.

Lemma mask_word little w key :
  length w = 8%nat -> length key = 4%nat ->
  to_ne little (Z.lxor (from_ne little w) (from_ne little (key ++ key))) = mask_bytes w key.
Proof.
  intros Hw Hk. apply explicit8 in Hw as (a & b & c & d & e & f & g & h & ->).
  apply explicit4 in Hk as (p & q & r & s & ->).
  unfold to_ne, from_ne. by destruct little; rewrite be_bytes_xor.
Qed.

Lemma mask_bytes_app x y key :
  length x = 8%nat -> mask_bytes (x ++ y) key = mask_bytes x key ++ mask_bytes y key.
Proof.
  intros Hx. unfold mask_bytes. rewrite imap_app. f_equal. apply imap_ext. intros i b _.
  rewrite Hx. cbn [compose]. assert ((8 + i) mod 4 = i mod 4)%nat as E.
  { rewrite Nat.add_comm. apply (Nat.Div0.mod_add i 2 4). }
  unfold compose. by rewrite E.
Qed.

(** Masking eight bytes at a time, as [apply_mask] does on a machine of either byte order, is the
    byte by byte masking that RFC 6455 defines. *)
Theorem apply_mask_bytewise little payload key :
  length key = 4%nat -> apply_mask little payload key = mask_bytes payload key.
Proof.
  intros Hk. unfold apply_mask. generalize (Nat.lt_succ_diag_r (length payload)).
  generalize (S (length payload)) as fuel. intros fuel. revert payload.
  induction fuel as [|fuel IH]; intros payload Hf; [lia|]. cbn [mask_loop].
  destruct (8 <=? length payload)%nat eqn:E; [|done]. apply Nat.leb_le in E.
  rewrite mask_word by (rewrite ?length_take; lia).
  rewrite IH by (rewrite length_drop; lia).
  rewrite <- mask_bytes_app by (rewrite length_take; lia). by rewrite take_drop.
Qed.

(** ** The frame decoder reads a stream however it is cut *)

Lemma land_range a k : 0 <= a -> 0 <= k -> 0 <= Z.land a (Z.ones k) < 2 ^ k.
Proof. intros. rewrite Z.land_ones by done. apply Z.mod_pos_bound. lia. Qed.

Lemma frame_length_spec bytes :
  2 <= len bytes -> frame_length bytes = Ok None
  \/ exists n h, 2 <= h <= len bytes /\ 0 <= n /\ forall r, frame_length (bytes ++ r) = Ok (Some (n, h)).
Proof.
  intros Hl. unfold frame_length. destruct (@index_some WsError _ bytes 1) as [b1 E1]; [lia|].
  rewrite E1. cbn [res_bind]. set (short := Z.land (u8 b1) LENGTH_MASK).
  assert (0 <= short).
  { pose proof (u8_range b1). apply (land_range (u8 b1) 7); lia. }
  assert (forall r, @index WsError _ (bytes ++ r) 1 = Ok b1) as E1'
    by (intros; by rewrite index_app_l by lia).
  destruct (short =? 126) eqn:Es1; [|destruct (short =? 127) eqn:Es2].
  - destruct (len bytes <? 4) eqn:E4; unbool; [by left|]. right.
    destruct (@index_some WsError _ bytes 2) as [b2 E2]; [lia|].
    destruct (@index_some WsError _ bytes 3) as [b3 E3]; [lia|].
    exists (from_be [b2; b3]), 4. split_and!; [lia|lia|apply from_be_range|]. intros r.
    rewrite E1'. cbn [res_bind]. fold short. rewrite (proj2 (Z.eqb_eq short 126)) by done.
    pose proof (len_nonneg r). guard_false by (rewrite len_app; lia).
    rewrite !index_app_l, E2, E3 by lia. done.
  - destruct (len bytes <? 10) eqn:E10; unbool; [by left|]. right.
    destruct (@slice_some WsError _ bytes 2 10) as [l El]; [lia..|].
    exists (from_be l), 10. split_and!; [lia|lia|apply from_be_range|]. intros r.
    rewrite E1'. cbn [res_bind]. fold short. rewrite (proj2 (Z.eqb_neq short 126)) by done.
    rewrite (proj2 (Z.eqb_eq short 127)) by done.
    pose proof (len_nonneg r). guard_false by (rewrite len_app; lia).
    by rewrite slice_app_l, El by lia.
  - right. exists short, 2. split_and!; [lia|lia|lia|]. intros r. rewrite E1'. cbn [res_bind].
    fold short. by rewrite Es1, Es2.
Qed.

(** What reading a frame depends on. *)
Lemma parse_with_spec b0 b1 bytes :
  2 <= len bytes ->
  parse_with b0 b1 bytes = Ok None
  \/ (exists e, forall r, parse_with b0 b1 (bytes ++ r) = Err e)
  \/ exists f n, 0 < n <= len bytes /\ forall r, parse_with b0 b1 (bytes ++ r) = Ok (Some (f, n)).
Proof.
  intros Hl. unfold parse_with.
  destruct (negb (Z.land (u8 b0) RSV_MASK =? 0)); [right; left; by eexists|].
  destruct (negb (Z.land (u8 b1) MASKED =? 0)); [right; left; by eexists|].
  destruct (frame_length_spec bytes) as [->|(n & h & Hh & Hn & Hf)]; [lia|by left|].
  pose proof (Hf []) as Hf0. rewrite app_nil_r in Hf0. rewrite Hf0. cbn [res_bind].
  destruct (check_length b0 n) as [[]|e|] eqn:Eg; cbn [res_bind].
  - destruct (len bytes <? h + n) eqn:En; unbool; [by left|]. right. right.
    destruct (@slice_some WsError _ bytes h (h + n)) as [payload Ep]; [lia..|].
    eexists _, (h + n). split; [lia|]. intros r. rewrite Hf. cbn [res_bind]. rewrite Eg. cbn [res_bind].
    pose proof (len_nonneg r). guard_false by (rewrite len_app; lia).
    by rewrite slice_app_l, Ep by lia.
  - right. left. exists e. intros r. rewrite Hf. cbn [res_bind]. by rewrite Eg.
  - exfalso. revert Eg. unfold check_length. by repeat case_if.
Qed.

Lemma parse_bytes_spec bytes :
  parse_bytes bytes = Ok None
  \/ (exists e, forall r, parse_bytes (bytes ++ r) = Err e)
  \/ exists f n, 0 < n <= len bytes /\ forall r, parse_bytes (bytes ++ r) = Ok (Some (f, n)).
Proof.
  destruct (decide (len bytes < 2)) as [Hs|Hl].
  { left. unfold parse_bytes. by guard_true by lia. }
  destruct (@index_some WsError _ bytes 0) as [b0 E0]; [lia|].
  destruct (@index_some WsError _ bytes 1) as [b1 E1]; [lia|].
  assert (forall r, parse_bytes (bytes ++ r) = parse_with b0 b1 (bytes ++ r)) as Eq.
  { intros r. unfold parse_bytes. pose proof (len_nonneg r). guard_false by (rewrite len_app; lia).
    by rewrite !index_app_l, E0, E1 by lia. }
  pose proof (Eq []) as Eq0. rewrite app_nil_r in Eq0. rewrite Eq0.
  destruct (parse_with_spec b0 b1 bytes) as [?|[[e H]|(f & n & Hn & H)]]; [lia|by left|right; left|right; right].
  - exists e. intros r. by rewrite Eq.
  - exists f, n. split; [done|]. intros r. by rewrite Eq.
Qed.

#[export] Instance ws_format : FrameFormat parse_bytes.
Proof. apply format_intro, parse_bytes_spec. Qed.

(** ** Events *)

(** What the frames of a stream ask for, in order. *)
Fixpoint events (fs : list DecodedFrame) (t : tail WsError) : list FrameEvent * tail WsError :=
  match fs with
  | [] => ([], t)
  | f :: fs =>
    let '(es, t) := events fs t in
    let op := f_opcode f in
    if op =? OPCODE_CLOSE then (Close :: es, t)
    else if op =? OPCODE_PING then (Pong (f_payload f) :: es, t)
    else if op =? OPCODE_PONG then (es, t)
    else if (op =? OPCODE_TEXT) || (op =? OPCODE_BINARY) || (op =? OPCODE_CONTINUATION) then
      if bool_decide (f_payload f = []) then (es, t) else (Payload (f_payload f) :: es, t)
    else ([], Bad (UnknownOpcode op))
  end.

Definition stream_events (b : list byte) : list FrameEvent * tail WsError :=
  let '(fs, t) := frames parse_bytes b in events fs t.

Definition decoder_ok (d : FrameDecoder) : Prop := 0 <= d_consumed d <= len (d_buffer d).

(** The bytes that are not decoded yet. *)
Definition undecoded (d : FrameDecoder) : list byte := drop (Z.to_nat (d_consumed d)) (d_buffer d).

Lemma len_undecoded d : decoder_ok d -> len (undecoded d) = len (d_buffer d) - d_consumed d.
Proof. unfold decoder_ok, undecoded, len. rewrite length_drop. lia. Qed.

Lemma undecoded_extend d b :
  decoder_ok d -> decoder_ok (extend d b) /\ undecoded (extend d b) = undecoded d ++ b.
Proof.
  unfold decoder_ok, undecoded, extend. cbn [d_buffer d_consumed]. intros Hd.
  pose proof (len_nonneg b). rewrite len_app. split; [lia|]. unfold len in Hd.
  by rewrite drop_app_le by lia.
Qed.

Definition event_post (d : FrameDecoder) (r : res WsError (option FrameEvent)) (d' : FrameDecoder)
    : Prop :=
  match r with
  | Ok (Some ev) =>
    stream_events (undecoded d)
    = (ev :: fst (stream_events (undecoded d')), snd (stream_events (undecoded d')))
    /\ len (undecoded d') < len (undecoded d)
  | Ok None =>
    stream_events (undecoded d) = ([], Partial (undecoded d'))
    /\ len (undecoded d') <= len (undecoded d)
  | Err e => stream_events (undecoded d) = ([], Bad e)
  | Panic => False
  end.

Lemma compact_undecoded d : undecoded (compact d) = undecoded d /\ (decoder_ok d -> decoder_ok (compact d)).
Proof.
  unfold compact, decoder_ok, undecoded. destruct (d_consumed d =? 0) eqn:E; [done|].
  cbn [d_buffer d_consumed]. split; [done|]. pose proof (len_nonneg (drop (Z.to_nat (d_consumed d)) (d_buffer d))).
  lia.
Qed.

Lemma next_event_loop_spec fuel d r d' :
  decoder_ok d -> len (undecoded d) < Z.of_nat fuel -> next_event_loop fuel d = (r, d') ->
  decoder_ok d' /\ event_post d r d'.
Proof.
  revert d. induction fuel as [|fuel IH]; intros d Hd Hf; [pose proof (len_nonneg (undecoded d)); lia|].
  cbn [next_event_loop]. unfold parse_frame. rewrite slice_from_ok by done. cbn [res_bind].
  fold (undecoded d). unfold event_post. unfold stream_events at 1 2 4 5.
  rewrite (frames_eq parse_bytes (undecoded d)).
  destruct (parse_bytes (undecoded d)) as [[[f n]|]|e|] eqn:Ep.
  - apply parse_fits in Ep. rewrite len_undecoded in Ep by done. cbv zeta.
    set (d1 := mkDecoder (d_buffer d) (d_consumed d + n)).
    assert (decoder_ok d1) as Hd1 by (unfold decoder_ok in *; cbn; lia).
    assert (drop (Z.to_nat n) (undecoded d) = undecoded d1) as ->.
    { unfold undecoded, d1. cbn. rewrite drop_drop. f_equal. unfold decoder_ok in Hd. lia. }
    assert (len (undecoded d1) < len (undecoded d)) as Hless
      by (rewrite !len_undecoded by done; cbn; lia).
    specialize (IH d1 Hd1 ltac:(lia)). unfold event_post in IH. unfold stream_events in *.
    destruct (frames parse_bytes (undecoded d1)) as [fs t] eqn:Efs. cbn [events].
    destruct (events fs t) as [es t'] eqn:Ees.
    repeat case_if; try (intros [= <- <-]; cbn iota; rewrite ?Efs, ?Ees; done);
      intros H; apply IH in H as [? H]; (split; [done|]);
      destruct r as [[ev|]|e|]; try done; destruct H; split; try done; lia.
  - intros [= <- <-]. destruct (compact_undecoded d) as [-> Hc]. split_and!; [auto|done|lia].
  - by intros [= <- <-].
  - by apply parse_no_panic in Ep.
Qed.

Lemma next_event_spec d r d' :
  decoder_ok d -> next_event d = (r, d') -> decoder_ok d' /\ event_post d r d'.
Proof.
  intros Hd. apply next_event_loop_spec; [done|]. rewrite len_undecoded by done.
  unfold decoder_ok, len in *. lia.
Qed.

(** ** The bytes a stream delivers *)

(** How the traffic of the peer ends: with a close frame, with bytes of an unfinished frame, or
    with an error. *)
Inductive Ending := Closed | Ended | Failed (e : WsError).

Definition failure (e : Ending) : option WsError := match e with Failed e => Some e | _ => None end.

(** The data up to the close frame. *)
Fixpoint data_of (es : list FrameEvent) (t : tail WsError) : list byte * Ending :=
  match es with
  | [] => ([], match t with Partial _ => Ended | Bad e => Failed e end)
  | Payload p :: es => let '(d, e) := data_of es t in (p ++ d, e)
  | Pong _ :: es => data_of es t
  | Close :: _ => ([], Closed)
  end.

(** What a peer that sent [b] said. *)
Definition downlink (b : list byte) : list byte * Ending :=
  let '(es, t) := stream_events b in data_of es t.

Lemma events_partial fs rest :
  match events fs (Partial rest) with
  | (es, Partial rest') =>
    rest' = rest
    /\ forall fs' t, events (fs ++ fs') t = (es ++ fst (events fs' t), snd (events fs' t))
  | (es, Bad e) => forall fs' t, events (fs ++ fs') t = (es, Bad e)
  end.
Proof.
  induction fs as [|f fs IH]; [split; [done|]; intros fs' t; apply surjective_pairing|].
  cbn [events]. destruct (events fs (Partial rest)) as [es [rest'|e]].
  - destruct IH as [-> IH].
    repeat case_if; try (split; [done|]); intros fs' t; cbn [events app]; rewrite IH;
      repeat case_if; done.
  - repeat case_if; intros fs' t; cbn [events app]; rewrite IH; repeat case_if; done.
Qed.

Lemma events_bad fs e : exists e', snd (events fs (Bad e)) = Bad e'.
Proof.
  induction fs as [|f fs [e' IH]]; [by exists e|]. cbn [events].
  destruct (events fs (Bad e)) as [es t]. cbn in IH. subst t. repeat case_if; by eexists.
Qed.

(** Events of a stream that goes on. *)
Lemma stream_events_app a b :
  stream_events (a ++ b)
  = match stream_events a with
    | (es, Partial rest) =>
      (es ++ fst (stream_events (rest ++ b)), snd (stream_events (rest ++ b)))
    | (es, Bad e) => (es, Bad e)
    end.
Proof.
  unfold stream_events. rewrite (frames_app parse_bytes a b).
  destruct (frames parse_bytes a) as [fs [rest|e]].
  - pose proof (events_partial fs rest) as H. destruct (events fs (Partial rest)) as [es [rest'|e]].
    + destruct H as [-> H]. destruct (frames parse_bytes (rest ++ b)) as [fs' t]. apply H.
    + destruct (frames parse_bytes (rest ++ b)) as [fs' t]. apply H.
  - destruct (events_bad fs e) as [e' E]. destruct (events fs (Bad e)) as [es t]. cbn in E. by subst t.
Qed.

(** One event, and what comes after it. *)
Lemma event_post_more d r d' u :
  event_post d r d' ->
  match r with
  | Ok (Some ev) =>
    stream_events (undecoded d ++ u)
    = (ev :: fst (stream_events (undecoded d' ++ u)), snd (stream_events (undecoded d' ++ u)))
  | Ok None =>
    stream_events (undecoded d ++ u) = stream_events (undecoded d' ++ u)
    /\ stream_events (undecoded d') = ([], Partial (undecoded d'))
  | Err e => stream_events (undecoded d ++ u) = ([], Bad e)
  | Panic => False
  end.
Proof.
  unfold event_post. destruct r as [[ev|]|e|]; [| | |done].
  - intros [E _]. rewrite !stream_events_app, E.
    by destruct (stream_events (undecoded d')) as [es [rest|e]].
  - intros [E _]. rewrite stream_events_app, E. split; [cbn [app]; by rewrite <- surjective_pairing|].
    unfold stream_events in *. destruct (frames parse_bytes (undecoded d)) as [fs t] eqn:Ef.
    destruct t as [rest|e]; [|destruct (events_bad fs e) as [e' E']; by rewrite E in E'].
    pose proof (events_partial fs rest) as H. rewrite E in H. destruct H as [-> _].
    apply frames_partial in Ef as [Hp _]; [|apply _]. rewrite frames_eq by apply _. by rewrite Hp.
  - intros E. by rewrite stream_events_app, E.
Qed.

Lemma downlink_event d ev d' u :
  event_post d (Ok (Some ev)) d' ->
  downlink (undecoded d ++ u)
  = match ev with
    | Payload p => (p ++ fst (downlink (undecoded d' ++ u)), snd (downlink (undecoded d' ++ u)))
    | Pong _ => downlink (undecoded d' ++ u)
    | Close => ([], Closed)
    end.
Proof.
  intros H. apply (event_post_more _ _ _ u) in H. unfold downlink. rewrite H.
  destruct (stream_events (undecoded d' ++ u)) as [es t]. cbn [fst snd data_of].
  destruct ev; [by destruct (data_of es t)|done..].
Qed.

Section Reading.
Context {T : Type} `{Ai : AsyncIo T} `{Laws : !AsyncIoLaws T} (little : bool) (keys : nat -> list byte).

Abbreviation WS := (WebSocketStream T).

Record ws_ok (s : WS) : Prop := {
  ok_decoder : decoder_ok (decoder s);
  ok_pending : 0 <= pending_pos s <= len (pending s);
  ok_out : 0 <= out_pos s <= len (out s)
}.

(** The bytes put on the wire and those queued for it. *)
Definition wire (s : WS) : list byte := taken (inner s) ++ drop (Z.to_nat (out_pos s)) (out s).

(** What flushing leaves alone. *)
Definition same_read (s s' : WS) : Prop :=
  decoder s' = decoder s /\ pending s' = pending s /\ pending_pos s' = pending_pos s
  /\ peer_closed s' = peer_closed s /\ unread (inner s') = unread (inner s).

Definition same_flags (s s' : WS) : Prop :=
  heartbeat s' = heartbeat s /\ close_queued s' = close_queued s /\ drawn s' = drawn s.

Lemma same_read_trans s1 s2 s3 : same_read s1 s2 -> same_read s2 s3 -> same_read s1 s3.
Proof. unfold same_read. intuition congruence. Qed.

Lemma same_flags_trans s1 s2 s3 : same_flags s1 s2 -> same_flags s2 s3 -> same_flags s1 s3.
Proof. unfold same_flags. intuition congruence. Qed.

Definition flush_post (s : WS) (p : poll (res (WsIoError io_error) unit) * WS) : Prop :=
  ws_ok (snd p) /\ wire (snd p) = wire s /\ same_read s (snd p) /\ same_flags s (snd p)
  /\ match fst p with
     | Ready (Ok _) => out (snd p) = [] /\ out_pos (snd p) = 0
     | Ready Panic => False
     | Ready (Err (Protocol _)) => False
     | _ => True
     end.

Lemma flush_loop_spec fuel s :
  ws_ok s -> len (out s) - out_pos s < Z.of_nat fuel -> flush_post s (flush_loop fuel s).
Proof.
  revert s. induction fuel as [|fuel IH]; intros s Hok Hf; [destruct Hok; lia|].
  pose proof Hok as [Hd Hp Ho]. cbn [flush_loop]. destruct (out_pos s <? len (out s)) eqn:E; unbool.
  - rewrite slice_from_ok by done. pose proof (poll_write_law (inner s) (drop (Z.to_nat (out_pos s)) (out s))) as [Hu Hw].
    destruct (io_poll_write _ _) as [[[n|e|]|] io]; cbn [fst snd] in *; [| |done|].
    + destruct Hw as [Hn Hw]. destruct (n =? 0) eqn:En; unbool.
      { subst n. rewrite app_nil_r in Hw. split_and!; try done. unfold wire. cbn. by rewrite Hw. }
      assert (len (drop (Z.to_nat (out_pos s)) (out s)) = len (out s) - out_pos s) as Hl.
      { unfold len in *. rewrite length_drop. lia. }
      destruct (IH (set_out (set_out s io (out s) (out_pos s)) io (out s) (out_pos s + n)))
        as (I1 & I2 & I3 & I4 & I5); cbn [out out_pos set_out]; [split; cbn; try done; lia|lia|].
      split_and!; [done| |by eapply same_read_trans; [|exact I3]|by eapply same_flags_trans; [|exact I4]|done].
      rewrite I2. unfold wire. cbn. rewrite Hw, <- app_assoc. f_equal.
      rewrite Z2Nat.inj_add, <- drop_drop by lia. apply take_drop.
    + split_and!; try done. unfold wire. cbn. by rewrite Hw.
    + split_and!; try done. unfold wire. cbn. by rewrite Hw.
  - split_and!; try done. unfold wire. cbn. rewrite (drop_ge (out s)); [done|]. unfold len in *. lia.
Qed.

Lemma poll_flush_out_spec s : ws_ok s -> flush_post s (poll_flush_out s).
Proof. intros Hok. apply flush_loop_spec; [done|]. destruct Hok. unfold len in *. lia. Qed.

(** What is left to be delivered, and how it ends. *)
Definition ws_view (s : WS) : list byte * Ending :=
  let rest := drop (Z.to_nat (pending_pos s)) (pending s) in
  if peer_closed s then (rest, Closed)
  else
    let '(d, e) := downlink (undecoded (decoder s) ++ unread (inner s)) in (rest ++ d, e).

Lemma same_read_view s s' : same_read s s' -> ws_view s' = ws_view s.
Proof. intros (E1 & E2 & E3 & E4 & E5). unfold ws_view. by rewrite E1, E2, E3, E4, E5. Qed.

Definition read_post (s : WS) (room : Z) (p : poll (res (WsIoError io_error) (list byte)) * WS)
    : Prop :=
  ws_ok (snd p)
  /\ match fst p with
     | Ready (Ok bs) =>
       fst (ws_view s) = bs ++ fst (ws_view (snd p)) /\ len bs <= room
       /\ (bs = [] -> fst (ws_view s) = [] /\ failure (snd (ws_view s)) = None)
       /\ failure (snd (ws_view (snd p))) = failure (snd (ws_view s))
     | Ready (Err (Protocol e)) => ws_view s = ([], Failed e)
     | Ready Panic => False
     | _ => ws_view (snd p) = ws_view s
     end.

Lemma deliver_spec s room :
  ws_ok s -> 0 < room ->
  exists bs s', deliver s room = Ok (bs, s') /\ ws_ok s'
    /\ (bs = [] -> s' = s /\ pending_pos s = len (pending s))
    /\ (bs <> [] -> fst (ws_view s) = bs ++ fst (ws_view s') /\ snd (ws_view s') = snd (ws_view s)
        /\ len bs <= room).
Proof.
  intros Hok Hr. pose proof Hok as [Hd Hp Ho]. unfold deliver. rewrite slice_from_ok by done.
  cbn [res_bind]. set (rest := drop (Z.to_nat (pending_pos s)) (pending s)).
  assert (len rest = len (pending s) - pending_pos s) as Hl
    by (unfold rest, len in *; rewrite length_drop; lia).
  set (n := Z.min (len rest) room). destruct (n =? 0) eqn:En; unbool.
  { exists [], s. split_and!; try done. intros _. split; [done|]. lia. }
  destruct (@slice_some Empty_set _ rest 0 n) as [bs Eb]; [lia..|]. rewrite Eb. cbn [res_bind].
  pose proof (slice_len _ _ _ _ Eb) as Hbl. apply slice_ok in Eb as (_ & _ & Eb).
  rewrite drop_0, Z.sub_0_r in Eb.
  assert (bs <> []) as Hne by (intros ->; unfold len in Hbl; simpl in Hbl; lia).
  assert (fst (ws_view s)
    = bs ++ drop (Z.to_nat n) rest ++ (if peer_closed s then [] else
        fst (downlink (undecoded (decoder s) ++ unread (inner s))))) as Hv.
  { rewrite app_assoc, Eb, take_drop. unfold ws_view. fold rest.
    destruct (peer_closed s); [cbn; by rewrite app_nil_r|]. by destruct (downlink _). }
  destruct (pending_pos s + n =? len (pending s)) eqn:Ep; unbool.
  - exists bs, (set_read s (decoder s) [] 0 (peer_closed s)). split_and!; [done| |done|].
    { split; cbn; try done. }
    intros _. rewrite Hv, (drop_ge rest) by (unfold len in *; lia). unfold ws_view. cbn.
    split_and!; [|by destruct (peer_closed s); [|destruct (downlink _)]|lia].
    f_equal. by destruct (peer_closed s); [|destruct (downlink _)].
  - exists bs, (set_read s (decoder s) (pending s) (pending_pos s + n) (peer_closed s)).
    split_and!; [done|split; cbn; try done; lia|done|].
    intros _. rewrite Hv. unfold ws_view. cbn. rewrite Z2Nat.inj_add, <- drop_drop by lia.
    fold rest. split_and!; [|by destruct (peer_closed s); [|destruct (downlink _)]|lia].
    f_equal. destruct (peer_closed s); [cbn; by rewrite app_nil_r|]. by destruct (downlink _).
Qed.

Lemma read_post_view s s1 room p : ws_view s1 = ws_view s -> read_post s1 room p -> read_post s room p.
Proof. unfold read_post. by intros ->. Qed.

(** A state whose pending bytes are all delivered and whose peer has not closed. *)
Lemma view_drained s :
  pending_pos s = len (pending s) -> peer_closed s = false ->
  ws_view s = downlink (undecoded (decoder s) ++ unread (inner s)).
Proof.
  intros Hp Hc. unfold ws_view. rewrite Hc, drop_ge by (unfold len in Hp; lia). by destruct (downlink _).
Qed.

Lemma queue_ok s op fin p :
  ws_ok s ->
  let s' := queue_frame little keys s op fin p in
  ws_ok s' /\ same_read s s'
  /\ wire s' = wire s ++ encode_frame little (keys (drawn s)) op fin p
  /\ close_queued s' = close_queued s /\ heartbeat s' = heartbeat s /\ drawn s' = S (drawn s).
Proof.
  intros [Hd Hp Ho]. cbv zeta. split_and!; try done.
  - split; cbn [decoder pending pending_pos out out_pos queue_frame]; try done. rewrite len_app.
    pose proof (len_nonneg (encode_frame little (keys (drawn s)) op fin p)). lia.
  - unfold wire. cbn. unfold len in Ho. rewrite drop_app_le by lia. by rewrite app_assoc.
Qed.

Lemma ws_read_loop_spec fuel s room :
  ws_ok s -> 0 < room -> len (undecoded (decoder s)) + 2 * len (unread (inner s)) < Z.of_nat fuel ->
  read_post s room (read_loop little keys fuel s room).
Proof.
  revert s. induction fuel as [|fuel IH]; intros s Hok Hr Hf.
  { pose proof (len_nonneg (undecoded (decoder s))). pose proof (len_nonneg (unread (inner s))). lia. }
  cbn [read_loop]. destruct (deliver_spec s room Hok Hr) as (bs & s' & -> & Hok' & Hnil & Hcons).
  destruct bs as [|b bs].
  2: { destruct (Hcons ltac:(done)) as (? & ? & ?). split; cbn [fst snd]; [done|]. split_and!; [done..|congruence]. }
  clear Hcons. destruct (Hnil eq_refl) as [-> Hend]. clear Hnil Hok'.
  destruct (peer_closed s) eqn:Hc.
  { assert (ws_view s = ([], Closed)) as E.
    { unfold ws_view. rewrite Hc, drop_ge; [done|unfold len in Hend; lia]. }
    split; [done|]. cbn [fst snd]. rewrite E. split_and!; (done || (unfold len; simpl; lia)). }
  pose proof (view_drained s Hend Hc) as Hv. pose proof Hok as [Hd Hp Ho].
  destruct (next_event (decoder s)) as [r d'] eqn:Ev.
  destruct (next_event_spec _ _ _ Hd Ev) as [Hd' Hpost].
  pose proof (event_post_more _ _ _ (unread (inner s)) Hpost) as Hmore.
  destruct r as [[ev|]|e|]; [| | |done].
  - pose proof (downlink_event _ _ _ (unread (inner s)) Hpost) as Hdl.
    destruct Hpost as [_ Hless]. destruct ev as [p|p|].
    + eapply read_post_view; [|apply IH].
      * rewrite Hv, Hdl. unfold ws_view. cbn. by destruct (downlink (undecoded d' ++ _)).
      * split; cbn; try done. pose proof (len_nonneg p). lia.
      * done.
      * cbn. lia.
    + set (s1 := set_read s d' (pending s) (pending_pos s) false).
      assert (ws_ok s1) as Hok1 by (split; done).
      destruct (queue_ok s1 OPCODE_PONG true p Hok1) as (Hokq & Hsame & _).
      assert (ws_view s1 = ws_view s) as Hv1 by (rewrite Hv, Hdl; by rewrite view_drained).
      set (s2 := queue_frame little keys s1 OPCODE_PONG true p) in *.
      destruct (poll_flush_out_spec s2 Hokq) as (F1 & _ & F3 & _ & F5).
      pose proof (same_read_view _ _ (same_read_trans _ _ _ Hsame F3)) as Hv3. rewrite Hv1 in Hv3.
      destruct (poll_flush_out s2) as [[[[]|[]|]|] s3]; cbn [fst snd] in *; try done;
        (eapply read_post_view; [exact Hv3|]); apply IH; try done;
        destruct (same_read_trans _ _ _ Hsame F3) as (E1 & _ & _ & _ & E5); rewrite E1, E5; cbn; lia.
    + split; [split; done|]. cbn [fst snd]. rewrite Hv, Hdl. unfold ws_view. cbn.
      rewrite drop_ge by (unfold len in Hend; lia). split_and!; (done || (unfold len; simpl; lia)).
  - destruct Hmore as [Hm Hn].
    pose proof (poll_read_law (inner s) READ_CHUNK ltac:(done)) as [_ Hread].
    cbn [set_read inner]. destruct (io_poll_read (inner s) READ_CHUNK) as [[[bs|e|]|] io];
      cbn [fst snd] in Hread; [|..|done|].
    + destruct Hread as (Hu & _ & He). destruct bs as [|b bs].
      * specialize (He eq_refl). split; [split; done|]. cbn [fst snd]. rewrite Hv. unfold downlink.
        rewrite Hm, He, app_nil_r, Hn. unfold ws_view. cbn. rewrite drop_ge by (unfold len in Hend; lia).
        split_and!; (done || (unfold len; simpl; lia)).
      * destruct (undecoded_extend d' (b :: bs) Hd') as [He1 He2].
        eapply read_post_view; [|apply IH].
        -- rewrite Hv, view_drained by done. cbn [decoder inner set_read set_out].
           unfold downlink. rewrite He2, <- app_assoc, <- Hu. by rewrite Hm.
        -- split; cbn; done.
        -- done.
        -- cbn [decoder inner set_read set_out]. rewrite He2, len_app. rewrite Hu, len_app in Hf.
           destruct Hpost as [_ Hle]. unfold len in *. simpl in *. lia.
    + split; [split; done|]. cbn [fst snd]. rewrite Hv, view_drained by done.
      cbn [decoder inner set_read set_out]. unfold downlink. by rewrite Hread, Hm.
    + split; [split; done|]. cbn [fst snd]. rewrite Hv, view_drained by done.
      cbn [decoder inner set_read set_out]. unfold downlink. by rewrite Hread, Hm.
  - split; [split; done|]. cbn [fst snd]. rewrite Hv. unfold downlink. by rewrite Hmore.
Qed.

End Reading.

(** ** What the server reads *)

Record ClientFrame := mkCF { c_opcode : Z; c_fin : bool; c_payload : list byte }.

(** A server's reader of one client frame, after RFC 6455, section 5.2: the frame and what follows. *)
Definition server_frame (b : list byte) : option (ClientFrame * list byte) :=
  match b with
  | b0 :: b1 :: rest =>
    if Z.testbit (u8 b1) 7 then
      let short := u8 b1 mod 128 in
      let '(n, rest) :=
        if short =? 126 then (from_be (take 2 rest), drop 2 rest)
        else if short =? 127 then (from_be (take 8 rest), drop 8 rest)
        else (short, rest) in
      let body := drop 4 rest in
      if len body <? n then None
      else
        Some (mkCF (u8 b0 mod 16) (Z.testbit (u8 b0) 7)
                (mask_bytes (take (Z.to_nat n) body) (take 4 rest)),
              drop (Z.to_nat n) body)
    else None
  | _ => None
  end.

Fixpoint server_read (fuel : nat) (b : list byte) : option (list ClientFrame) :=
  match fuel with
  | O => None
  | S fuel =>
    match b with
    | [] => Some []
    | _ => f ← server_frame b; fs ← server_read fuel (snd f); Some (fst f :: fs)
    end
  end.

(** The messages that the frames carry, and the one that is not finished: fragments are joined,
    control frames may stand between them. *)
Fixpoint assemble (current : option (list byte)) (fs : list ClientFrame)
    : option (list (list byte) * option (list byte)) :=
  match fs with
  | [] => Some ([], current)
  | f :: fs =>
    if 8 <=? c_opcode f then assemble current fs
    else
      match current with
      | None =>
        if negb (c_opcode f =? OPCODE_BINARY) then None
        else if c_fin f then
          r ← assemble None fs; Some (c_payload f :: fst r, snd r)
        else assemble (Some (c_payload f)) fs
      | Some m =>
        if negb (c_opcode f =? OPCODE_CONTINUATION) then None
        else if c_fin f then
          r ← assemble None fs; Some ((m ++ c_payload f) :: fst r, snd r)
        else assemble (Some (m ++ c_payload f)) fs
      end
  end.

Lemma mask_mask p key : mask_bytes (mask_bytes p key) key = p.
Proof.
  apply list_eq. intros i. unfold mask_bytes. rewrite !list_lookup_imap.
  destruct (p !! i); [|done]. cbn. by rewrite xor_xor.
Qed.

Lemma length_mask p key : length (mask_bytes p key) = length p.
Proof. apply length_imap. Qed.

Definition cf_ok (f : ClientFrame) (key : list byte) : Prop :=
  0 <= c_opcode f < 16 /\ length key = 4%nat /\ len (c_payload f) < 2 ^ 63.

Lemma lor_128 z : 0 <= z < 128 -> Z.lor 128 z = 128 + z.
Proof.
  intros Hz. rewrite Z.lor_comm. change 128 with (Z.shiftl 1 7) at 1.
  rewrite lor_disjoint_add by lia. lia.
Qed.

Lemma testbit_7 z : 0 <= z < 128 -> Z.testbit (128 + z) 7 = true /\ Z.testbit z 7 = false.
Proof.
  intros Hz. split.
  - rewrite Z.testbit_true by lia. replace ((128 + z) / 2 ^ 7) with 1; [done|].
    apply (Z.div_unique _ _ _ z); lia.
  - rewrite Z.testbit_false by lia. by rewrite Z.div_small by lia.
Qed.

(** The server reads back the frame the client wrote. *)
Lemma server_reads_frame little key f rest :
  cf_ok f key ->
  server_frame (encode_frame little key (c_opcode f) (c_fin f) (c_payload f) ++ rest) = Some (f, rest).
Proof.
  destruct f as [op fin p]. intros (Hop & Hk & Hp). cbn [c_opcode c_fin c_payload] in *.
  unfold encode_frame. rewrite apply_mask_bytewise by done.
  assert (take 4 (key ++ mask_bytes p key ++ rest) = key
    /\ drop 4 (key ++ mask_bytes p key ++ rest) = mask_bytes p key ++ rest) as Hkey.
  { rewrite <- Hk. by rewrite take_app_length, drop_app_length. }
  destruct Hkey as [Ht Hd].
  assert (u8 (to_u8 (if fin then Z.lor FIN op else op)) mod 16 = op
    /\ Z.testbit (u8 (to_u8 (if fin then Z.lor FIN op else op))) 7 = fin) as [Eop Efin].
  { destruct (testbit_7 op) as [H1 H2]; [lia|]. destruct fin.
    - unfold FIN. rewrite lor_128, u8_to_u8_small by lia. split; [|done].
      symmetry. apply (Z.mod_unique _ _ 8); lia.
    - rewrite u8_to_u8_small by lia. split; [apply Z.mod_small; lia|done]. }
  pose proof (len_nonneg p). pose proof (len_nonneg rest).
  assert (forall n, n = len p ->
    (if len (mask_bytes p key ++ rest) <? n then None
     else Some (mkCF op fin (mask_bytes (take (Z.to_nat n) (mask_bytes p key ++ rest)) key),
                drop (Z.to_nat n) (mask_bytes p key ++ rest))) = Some (mkCF op fin p, rest)) as Hbody.
  { intros n ->. rewrite len_app. unfold len at 1 4. rewrite length_mask. fold (len p).
    guard_false by lia. unfold len. rewrite Nat2Z.id. rewrite <- (length_mask p key) at 1 2.
    by rewrite take_app_length, drop_app_length, mask_mask. }
  unfold MASKED. destruct (len p <? 126) eqn:E1; [|destruct (len p <=? u16_max) eqn:E2]; unbool.
  - cbn [app server_frame]. rewrite <- app_assoc. rewrite lor_128, u8_to_u8_small by lia.
    destruct (testbit_7 (len p)) as [-> _]; [lia|].
    replace ((128 + len p) mod 128) with (len p) by (apply (Z.mod_unique _ _ 1); lia).
    guard_false by lia. guard_false by lia. rewrite Ht, Hd, Eop, Efin. by apply Hbody.
  - cbn [app server_frame be_bytes]. rewrite <- app_assoc, lor_128, u8_to_u8_small by lia.
    destruct (testbit_7 126) as [-> _]; [lia|]. change ((128 + 126) mod 128 =? 126) with true.
    cbn iota. change (take 2 (?a :: ?b :: ?r)) with [a; b]. cbn [take drop].
    change [to_u8 (len p / 256 ^ Z.of_nat 1); to_u8 (len p / 256 ^ Z.of_nat 0)] with (be_bytes 2 (len p)).
    rewrite from_be_bytes_small by (unfold u16_max in *; cbn; lia). rewrite drop_0, Ht, Hd, Eop, Efin.
    by apply Hbody.
  - cbn [app server_frame]. rewrite <- !app_assoc, lor_128, u8_to_u8_small by lia.
    destruct (testbit_7 127) as [-> _]; [lia|]. change ((128 + 127) mod 128 =? 126) with false.
    change ((128 + 127) mod 128 =? 127) with true. cbn iota.
    rewrite (take_app_length' (be_bytes 8 (len p))), (drop_app_length' (be_bytes 8 (len p)))
      by (by rewrite length_be_bytes).
    rewrite from_be_bytes_small by (cbn; lia). rewrite Ht, Hd, Eop, Efin. by apply Hbody.
Qed.

(** A ping asks for a short answer. *)
Lemma parse_ping b f n :
  parse_bytes b = Ok (Some (f, n)) -> f_opcode f = OPCODE_PING -> len (f_payload f) <= 125.
Proof.
  unfold parse_bytes. case_if; [done|]. intros (b0 & _ & H)%res_bind_ok_inv.
  apply res_bind_ok_inv in H as (b1 & _ & H). unfold parse_with in H.
  case_if_in H; [done|]. case_if_in H; [done|]. apply res_bind_ok_inv in H as ([[k h]|] & _ & H); [|done].
  apply res_bind_ok_inv in H as ([] & Hc & H). case_if_in H; [done|].
  apply res_bind_ok_inv in H as (p & Hp & H). apply Ok_inj in H. simplify_eq. cbn [f_opcode f_payload].
  intros Hop. unfold check_length in Hc. rewrite Hop in Hc.
  change (negb (Z.land OPCODE_PING 8 =? 0)) with true in Hc. cbn iota in Hc.
  destruct (MAX_CONTROL_PAYLOAD <? k) eqn:E; [done|]. apply slice_len in Hp. unbool.
  unfold MAX_CONTROL_PAYLOAD in *. lia.
Qed.

Lemma next_event_ping d p d' : next_event d = (Ok (Some (Pong p)), d') -> len p <= 125.
Proof.
  unfold next_event. generalize (S (length (d_buffer d))) as fuel. intros fuel. revert d.
  induction fuel as [|fuel IH]; intros d; [done|]. cbn [next_event_loop]. unfold parse_frame.
  destruct (slice_from (d_buffer d) (d_consumed d)) as [b|e|]; [|done..]. cbn [res_bind].
  destruct (parse_bytes b) as [[[f n]|]|e|] eqn:Ep; [|done..]. cbv zeta.
  repeat case_if; try done; try apply IH. intros [= <- _]. unbool. by eapply parse_ping.
Qed.

Section Writing.
Context {T : Type} `{Ai : AsyncIo T} `{Laws : !AsyncIoLaws T} (little : bool) (keys : nat -> list byte)
  (Hkeys : forall i, length (keys i) = 4%nat).

Definition enc (x : ClientFrame * list byte) : list byte :=
  encode_frame little (snd x) (c_opcode (fst x)) (c_fin (fst x)) (c_payload (fst x)).

Definition fits (x : ClientFrame * list byte) : Prop := cf_ok (fst x) (snd x).

Definition keepalive (x : ClientFrame * list byte) : Prop :=
  fits x /\ (c_opcode (fst x) = OPCODE_PING \/ c_opcode (fst x) = OPCODE_PONG).

(** Reading only adds keepalive frames to the wire. *)
Definition grown (s s' : WebSocketStream T) : Prop :=
  (exists fl, Forall keepalive fl /\ wire s' = wire s ++ concat (enc <$> fl))
  /\ close_queued s' = close_queued s.

Lemma grown_refl s s' : wire s' = wire s -> close_queued s' = close_queued s -> grown s s'.
Proof. intros E Ec. split; [|done]. exists []. split; [constructor|]. cbn. by rewrite app_nil_r. Qed.

Lemma grown_trans s1 s2 s3 : grown s1 s2 -> grown s2 s3 -> grown s1 s3.
Proof.
  intros [(f1 & H1 & E1) C1] [(f2 & H2 & E2) C2]. split; [|congruence]. exists (f1 ++ f2).
  split; [by apply Forall_app|]. by rewrite E2, E1, fmap_app, concat_app, app_assoc.
Qed.

Lemma queue_grown s op p :
  ws_ok s -> op = OPCODE_PING \/ op = OPCODE_PONG -> len p <= 125 ->
  ws_ok (queue_frame little keys s op true p) /\ grown s (queue_frame little keys s op true p).
Proof.
  intros Hok Hop Hp. destruct (queue_ok little keys s op true p Hok) as (? & _ & Ew & Ec & _).
  split; [done|]. split; [|done]. exists [(mkCF op true p, keys (drawn s))]. split.
  - apply Forall_cons_2; [|by apply Forall_nil]. split; [|done].
    split_and!; [destruct Hop; by subst..|apply Hkeys|cbn; lia].
  - rewrite Ew. cbn. by rewrite app_nil_r.
Qed.

Lemma flush_grown s :
  ws_ok s -> ws_ok (snd (poll_flush_out s)) /\ grown s (snd (poll_flush_out s)).
Proof.
  intros Hok. destruct (poll_flush_out_spec s Hok) as (? & ? & _ & (_ & ? & _) & _).
  split; [done|]. by apply grown_refl.
Qed.

Lemma pings_grown ticks s :
  ws_ok s -> ws_ok (queue_due_pings little keys s ticks) /\ grown s (queue_due_pings little keys s ticks)
  /\ same_read s (queue_due_pings little keys s ticks).
Proof.
  intros Hok. unfold queue_due_pings. destruct (heartbeat s); [|split_and!; [done|by apply grown_refl|done]].
  revert s Hok. induction ticks as [|ticks IH]; intros s Hok; cbn [queue_pings].
  { split_and!; [done|by apply grown_refl|done]. }
  destruct (queue_grown s OPCODE_PING [] Hok) as [Hok1 Hg]; [by left|done|].
  destruct (queue_ok little keys s OPCODE_PING true [] Hok) as (_ & Hsame & _).
  destruct (IH _ Hok1) as (? & ? & ?).
  split_and!; [done|by eapply grown_trans|by eapply same_read_trans].
Qed.

Lemma deliver_grown s room bs s' : deliver s room = Ok (bs, s') -> grown s s'.
Proof.
  unfold deliver. intros (rest & _ & H)%res_bind_ok_inv. cbv zeta in H.
  case_if_in H; [apply Ok_inj in H; simplify_eq; by apply grown_refl|].
  apply res_bind_ok_inv in H as (b & _ & H).
  case_if_in H; apply Ok_inj in H; simplify_eq; by apply grown_refl.
Qed.

Lemma read_loop_grown fuel s room :
  ws_ok s -> 0 < room -> grown s (snd (read_loop little keys fuel s room)).
Proof.
  revert s. induction fuel as [|fuel IH]; intros s Hok Hr; [by apply grown_refl|]. cbn [read_loop].
  destruct (deliver_spec s room Hok Hr) as (bs & s' & Ed & Hok' & Hnil & _). rewrite Ed.
  destruct bs as [|b bs].
  2: { by apply deliver_grown in Ed. }
  destruct (Hnil eq_refl) as [-> _]. destruct (peer_closed s); [by apply grown_refl|].
  destruct (next_event (decoder s)) as [r d'] eqn:Ev. pose proof Hok as [Hd Hp Ho].
  destruct (next_event_spec _ _ _ Hd Ev) as [Hd' _].
  destruct r as [[[p|p|]|]|e|]; try by apply grown_refl.
  - eapply grown_trans; [|apply IH]; [by apply grown_refl| |done].
    split; cbn; try done. pose proof (len_nonneg p). lia.
  - set (s1 := set_read s d' (pending s) (pending_pos s) false).
    assert (ws_ok s1) as Hok1 by (split; done).
    destruct (queue_grown s1 OPCODE_PONG p Hok1) as [Hok2 Hg]; [by right|by eapply next_event_ping|].
    destruct (flush_grown _ Hok2) as [Hok3 Hg3].
    assert (grown s s1) as Hg1 by (by apply grown_refl).
    pose proof (grown_trans _ _ _ (grown_trans _ _ _ Hg1 Hg) Hg3) as Hg4.
    destruct (poll_flush_out _) as [[[[]|e|]|] s3]; cbn [fst snd] in *; try done;
      by (eapply grown_trans; [exact Hg4|apply IH]).
  - pose proof (poll_read_law (inner s) READ_CHUNK ltac:(done)) as [Ht _].
    cbn [set_read inner]. destruct (io_poll_read (inner s) READ_CHUNK) as [[[[|b bs]|e|]|] io];
      cbn [fst snd] in Ht;
      try (apply grown_refl; [unfold wire; cbn; by rewrite Ht|done]).
    destruct (undecoded_extend d' (b :: bs) Hd') as [He1 He2].
    eapply grown_trans; [|apply IH]; [apply grown_refl; [unfold wire; cbn; by rewrite Ht|done]| |done].
    split; cbn; done.
Qed.

(** The frames of one write. *)
Fixpoint chunk_frames (i : nat) (first : bool) (cs : list (list byte)) : list (ClientFrame * list byte) :=
  match cs with
  | [] => []
  | c :: cs =>
    (mkCF (if first then OPCODE_BINARY else OPCODE_CONTINUATION) (bool_decide (cs = [])) c, keys i)
    :: chunk_frames (S i) false cs
  end.

Lemma encode_chunks_eq f i first cs :
  (forall k, f k = keys (i + k)%nat) -> forall j,
  encode_chunks little f j first cs = concat (enc <$> chunk_frames (i + j) first cs).
Proof.
  intros Hf. revert first. induction cs as [|c cs IH]; intros first j; [done|].
  cbn [encode_chunks chunk_frames]. rewrite IH, Hf, Nat.add_succ_r. done.
Qed.

Lemma chunk_frames_fit i first cs :
  Forall (fun c => c <> [] /\ (length c <= Z.to_nat MAX_FRAME_PAYLOAD)%nat) cs ->
  Forall fits (chunk_frames i first cs).
Proof.
  revert i first. induction cs as [|c cs IH]; intros i first Hcs; [by apply Forall_nil|].
  inversion_clear Hcs as [|? ? [_ Hc] Hcs']. apply Forall_cons_2; [|by apply IH].
  split_and!; cbn; [by destruct first..|apply Hkeys|]. unfold MAX_FRAME_PAYLOAD, len in *. lia.
Qed.

Lemma assemble_app current a b :
  assemble current (a ++ b)
  = r ← assemble current a; r' ← assemble (snd r) b; Some (fst r ++ fst r', snd r').
Proof.
  revert current. induction a as [|f a IH]; intros current.
  { cbn. by destruct (assemble current b) as [[? ?]|]. }
  cbn [assemble app]. destruct (8 <=? c_opcode f); [apply IH|].
  destruct current as [m|]; (case_if; [done|]); destruct (c_fin f); try apply IH;
    rewrite IH; destruct (assemble None a) as [[ms c]|]; try done; cbn;
    by destruct (assemble c b) as [[? ?]|].
Qed.

Lemma assemble_rest cs m i :
  cs <> [] -> assemble (Some m) (fst <$> chunk_frames i false cs) = Some ([m ++ concat cs], None).
Proof.
  revert m i. induction cs as [|c cs IH]; intros m i Hne; [done|]. cbn.
  destruct (decide (cs = [])) as [->|Hcs]; [by rewrite app_nil_r|].
  rewrite bool_decide_eq_false_2 by done. rewrite IH by done. cbn. by rewrite app_assoc.
Qed.

Lemma assemble_chunks cs i :
  cs <> [] -> assemble None (fst <$> chunk_frames i true cs) = Some ([concat cs], None).
Proof.
  destruct cs as [|c cs]; [done|]. intros _. cbn.
  destruct (decide (cs = [])) as [->|Hcs]; [by rewrite app_nil_r|].
  rewrite bool_decide_eq_false_2 by done. by rewrite assemble_rest.
Qed.

Lemma assemble_control (fl : list (ClientFrame * list byte)) current :
  Forall (fun x => 8 <= c_opcode (fst x)) fl ->
  assemble current (fst <$> fl) = Some ([], current).
Proof.
  intros H. induction H as [|[f k] fl Hf _ IH]; [done|]. cbn. cbn in Hf.
  by rewrite (proj2 (Z.leb_le _ _)).
Qed.

Definition is_close (x : ClientFrame * list byte) : bool := c_opcode (fst x) =? OPCODE_CLOSE.

(** The frames on the wire carry the accepted writes as messages, and one close frame at most. *)
Definition sent_ok (s : WebSocketStream T) (accepted : list (list byte)) : Prop :=
  exists fl, Forall fits fl /\ wire s = concat (enc <$> fl)
    /\ assemble None (fst <$> fl) = Some (accepted, None)
    /\ length (List.filter is_close fl) = (if close_queued s then 1 else 0)%nat.

Lemma sent_grown s s' accepted : grown s s' -> sent_ok s accepted -> sent_ok s' accepted.
Proof.
  intros [(ctl & Hctl & Ew) Ec] (fl & Hfl & Ew' & Ha & Hcl). exists (fl ++ ctl). split_and!.
  - apply Forall_app. split; [done|]. eapply Forall_impl; [|exact Hctl]. by intros x [? _].
  - by rewrite Ew, Ew', fmap_app, concat_app.
  - rewrite fmap_app, assemble_app, Ha. cbn [mbind option_bind snd fst].
    rewrite assemble_control; [cbn; by rewrite app_nil_r|]. eapply Forall_impl; [|exact Hctl].
    intros x [_ [->| ->]]; done.
  - rewrite Ec, filter_app, length_app, Hcl.
    replace (List.filter is_close ctl) with (@nil (ClientFrame * list byte)); [cbn; lia|].
    symmetry. clear -Hctl. induction Hctl as [|x ctl [_ Hx] _ IH]; [done|]. cbn [List.filter].
    unfold is_close at 1. rewrite IH. destruct Hx as [->| ->]; done.
Qed.

Lemma chunks_nonempty (input : list byte) :
  input <> [] -> chunks (Z.to_nat MAX_FRAME_PAYLOAD) input <> [].
Proof.
  intros Hi E. destruct (chunks_spec (Z.to_nat MAX_FRAME_PAYLOAD) input) as [Hc _];
    [unfold MAX_FRAME_PAYLOAD; lia|]. by rewrite E in Hc.
Qed.

(** A write adds its frames to what is sent. *)
Lemma write_sent s accepted input :
  ws_ok s -> out s = [] -> out_pos s = 0 -> sent_ok s accepted -> input <> [] ->
  let s' := mkWs (inner s) (decoder s) (pending s) (pending_pos s)
    (encode_client_frames little (fun i => keys (drawn s + i)%nat) input) 0 (heartbeat s)
    (peer_closed s) (close_queued s)
    (drawn s + length (chunks (Z.to_nat MAX_FRAME_PAYLOAD) input))%nat in
  ws_ok s' /\ same_read s s' /\ sent_ok s' (accepted ++ [input]).
Proof.
  intros [Hd Hp Ho] Eo Ep (fl & Hfl & Ew & Ha & Hcl) Hi. cbv zeta.
  split_and!; [split; cbn [decoder pending pending_pos out out_pos]; try done; pose proof (len_nonneg
    (encode_client_frames little (fun i => keys (drawn s + i)%nat) input)); lia|done|].
  unfold encode_client_frames. rewrite bool_decide_eq_false_2 by done.
  rewrite (encode_chunks_eq _ (drawn s)) by done. rewrite Nat.add_0_r.
  set (cs := chunks (Z.to_nat MAX_FRAME_PAYLOAD) input).
  destruct (chunks_spec (Z.to_nat MAX_FRAME_PAYLOAD) input) as [Hcat Hall];
    [unfold MAX_FRAME_PAYLOAD; lia|]. fold cs in Hcat, Hall.
  exists (fl ++ chunk_frames (drawn s) true cs). split_and!.
  - apply Forall_app. split; [done|]. by apply chunk_frames_fit.
  - unfold wire in *. cbn. rewrite Eo, Ep, app_nil_r in Ew. by rewrite Ew, fmap_app, concat_app.
  - rewrite fmap_app, assemble_app, Ha. cbn [mbind option_bind fst snd].
    rewrite assemble_chunks by (by apply chunks_nonempty). cbn. by rewrite Hcat.
  - rewrite filter_app, length_app, Hcl. cbn [close_queued].
    replace (List.filter is_close _) with (@nil (ClientFrame * list byte)); [cbn; lia|]. clear.
    generalize true (drawn s). induction cs as [|c cs IH]; intros first i; [done|]. cbn.
    rewrite <- IH. by destruct first.
Qed.

Definition write_post (s : WebSocketStream T) (accepted : list (list byte)) (input : list byte)
    (p : poll (res (WsIoError io_error) Z) * WebSocketStream T) : Prop :=
  ws_ok (snd p) /\ same_read s (snd p)
  /\ match fst p with
     | Ready (Ok n) =>
       n = len input
       /\ sent_ok (snd p) (accepted ++ if bool_decide (input = []) then [] else [input])
     | Pending => sent_ok (snd p) accepted
     | Ready (Err (Protocol _)) | Ready Panic => False
     | _ => True
     end.

Lemma ws_poll_write_spec s accepted input :
  ws_ok s -> sent_ok s accepted -> write_post s accepted input (poll_write little keys s input).
Proof.
  intros Hok Hs. unfold poll_write. destruct (poll_flush_out_spec s Hok) as (F1 & F2 & F3 & F4 & F5).
  destruct (flush_grown s Hok) as [_ Hg]. apply (sent_grown _ _ _ Hg) in Hs.
  destruct (poll_flush_out s) as [[[[]|[]|]|] s1]; cbn [fst snd] in *; try done.
  destruct F5 as [Eo Ep]. destruct (decide (input = [])) as [->|Hi].
  { rewrite bool_decide_eq_true_2 by done. split_and!; [done|done|]. cbn [fst].
    rewrite bool_decide_eq_true_2, app_nil_r by done. done. }
  rewrite bool_decide_eq_false_2 by done.
  destruct (write_sent s1 accepted input F1 Eo Ep Hs Hi) as (Hok2 & Hsame2 & Hs2).
  set (s2 := mkWs _ _ _ _ _ _ _ _ _ _) in *.
  destruct (poll_flush_out_spec s2 Hok2) as (G1 & G2 & G3 & G4 & G5).
  destruct (flush_grown s2 Hok2) as [_ Hg2]. apply (sent_grown _ _ _ Hg2) in Hs2.
  assert (same_read s (snd (poll_flush_out s2))) as Hsr
    by (eapply same_read_trans; [exact F3|]; by eapply same_read_trans).
  destruct (poll_flush_out s2) as [[[[]|[]|]|] s3]; cbn [fst snd] in *; try done;
    (split_and!; [done|done|]); cbn [fst snd]; by rewrite bool_decide_eq_false_2.
Qed.

Lemma ws_finish_spec s accepted next :
  ws_ok s -> sent_ok s accepted -> (forall io, idle_ok io (next io)) ->
  ws_ok (snd (finish s next)) /\ same_read s (snd (finish s next)) /\ sent_ok (snd (finish s next)) accepted
  /\ fst (finish s next) <> Ready Panic.
Proof.
  intros Hok Hs Hn. unfold finish. destruct (poll_flush_out_spec s Hok) as (F1 & F2 & F3 & F4 & F5).
  destruct (flush_grown s Hok) as [_ Hg]. apply (sent_grown _ _ _ Hg) in Hs.
  destruct (poll_flush_out s) as [[[[]|[]|]|] s1]; cbn [fst snd] in *; try done.
  specialize (Hn (inner s1)). destruct (next (inner s1)) as [p io]. destruct Hn as (Hu & Ht & Hp).
  cbn [fst snd] in *. destruct F1 as [? ? ?]. split_and!; [by split| | |].
  - eapply same_read_trans; [exact F3|]. by split_and!.
  - destruct Hs as (fl & ? & Ew & ? & ?). exists fl. split_and!; try done. rewrite <- Ew. unfold wire. cbn.
    by rewrite Ht.
  - destruct p as [[[]|?|]|]; done.
Qed.

Lemma shutdown_queue s accepted :
  ws_ok s -> sent_ok s accepted ->
  let s' := queue_frame little keys s OPCODE_CLOSE true (be_bytes 2 CLOSE_NORMAL) in
  close_queued s = false ->
  sent_ok (mkWs (inner s') (decoder s') (pending s') (pending_pos s') (out s') (out_pos s')
             (heartbeat s') (peer_closed s') true (drawn s')) accepted.
Proof.
  intros Hok (fl & Hfl & Ew & Ha & Hcl) s' Hc. rewrite Hc in Hcl.
  destruct (queue_ok little keys s OPCODE_CLOSE true (be_bytes 2 CLOSE_NORMAL) Hok) as (_ & _ & Ew' & _).
  exists (fl ++ [(mkCF OPCODE_CLOSE true (be_bytes 2 CLOSE_NORMAL), keys (drawn s))]). split_and!.
  - apply Forall_app. split; [done|]. apply Forall_cons_2; [|by apply Forall_nil].
    split_and!; [done|done|apply Hkeys|done].
  - fold s' in Ew'. etrans; [exact Ew'|]. rewrite Ew, fmap_app, concat_app. cbn. by rewrite app_nil_r.
  - rewrite fmap_app, assemble_app, Ha. cbn. by rewrite app_nil_r.
  - rewrite filter_app, length_app, Hcl. done.
Qed.

End Writing.

(** ** Runs of a stream *)

(** A stream with what it has delivered and the writes it has accepted. *)
Record Run (T : Type) := mkRun {
  stream : WebSocketStream T;
  delivered : list byte;
  accepted : list (list byte)
}.
Arguments mkRun {T}.
Arguments stream {T}.
Arguments delivered {T}.
Arguments accepted {T}.

Section Runs.
Context {T : Type} `{Ai : AsyncIo T} `{Laws : !AsyncIoLaws T} (little : bool) (keys : nat -> list byte)
  (Hkeys : forall i, length (keys i) = 4%nat).

(** One poll that did not fail, with as many keepalives due as the clock says. *)
Inductive ws_step : Run T -> Run T -> Prop :=
| step_read x room ticks bs s :
  0 < room -> poll_read little keys (stream x) room ticks = (Ready (Ok bs), s) ->
  ws_step x (mkRun s (delivered x ++ bs) (accepted x))
| step_read_pending x room ticks s :
  0 < room -> poll_read little keys (stream x) room ticks = (Pending, s) ->
  ws_step x (mkRun s (delivered x) (accepted x))
| step_write x input n s :
  poll_write little keys (stream x) input = (Ready (Ok n), s) ->
  ws_step x (mkRun s (delivered x)
               (accepted x ++ if bool_decide (input = []) then [] else [input]))
| step_write_pending x input s :
  poll_write little keys (stream x) input = (Pending, s) ->
  ws_step x (mkRun s (delivered x) (accepted x))
| step_flush x r s :
  poll_flush (stream x) = (r, s) -> (forall e, r <> Ready (Err e)) ->
  ws_step x (mkRun s (delivered x) (accepted x))
| step_shutdown x r s :
  poll_shutdown little keys (stream x) = (r, s) -> (forall e, r <> Ready (Err e)) ->
  ws_step x (mkRun s (delivered x) (accepted x)).

Definition start (io : T) (leftover : list byte) (period : Z) : Run T :=
  mkRun (WebSocketStream_new io leftover period) [] [].

Definition run_ok (said : list byte * Ending) (x : Run T) : Prop :=
  ws_ok (stream x) /\ sent_ok little (stream x) (accepted x)
  /\ delivered x ++ fst (ws_view (stream x)) = fst said
  /\ failure (snd (ws_view (stream x))) = failure (snd said).

Lemma ws_start_ok io leftover period :
  taken io = [] -> run_ok (downlink (leftover ++ unread io)) (start io leftover period).
Proof.
  intros Ht. split_and!.
  - split; cbn; try done. pose proof (len_nonneg leftover). unfold decoder_ok. cbn. lia.
  - exists []. split_and!; try done. unfold wire. cbn. by rewrite Ht.
  - unfold ws_view. cbn. by destruct (downlink _).
  - unfold ws_view. cbn. by destruct (downlink _).
Qed.

Lemma ws_poll_read_spec s room ticks :
  ws_ok s -> 0 < room ->
  read_post s room (poll_read little keys s room ticks)
  /\ grown little s (snd (poll_read little keys s room ticks)).
Proof.
  intros Hok Hr. unfold poll_read. guard_false by lia.
  destruct (pings_grown little keys Hkeys ticks s Hok) as (Hok1 & Hg1 & Hs1).
  set (s1 := queue_due_pings little keys s ticks) in *.
  destruct (poll_flush_out_spec s1 Hok1) as (F1 & _ & F3 & _ & F5).
  destruct (flush_grown little s1 Hok1) as [_ Hg2].
  pose proof (grown_trans _ _ _ _ Hg1 Hg2) as Hg.
  pose proof (same_read_view _ _ (same_read_trans _ _ _ Hs1 F3)) as Hv.
  assert (forall s', ws_ok s' -> ws_view s' = ws_view s -> grown little s s' ->
    read_post s room (read_loop little keys (read_fuel s') s' room)
    /\ grown little s (snd (read_loop little keys (read_fuel s') s' room))) as Hloop.
  { intros s' Hok' Hv' Hg'. split.
    - eapply read_post_view; [exact Hv'|]. apply ws_read_loop_spec; [done..|]. unfold read_fuel.
      rewrite len_undecoded by apply Hok'. destruct Hok' as [[? ?] _ _]. unfold len in *. lia.
    - eapply grown_trans; [exact Hg'|]. by apply read_loop_grown. }
  destruct (poll_flush_out s1) as [[[[]|[]|]|] s2]; cbn [fst snd] in *; try done; by apply Hloop.
Qed.

Lemma ws_step_ok said x x' : run_ok said x -> ws_step x x' -> run_ok said x'.
Proof.
  intros (Hok & Hs & Hd & Hf) Hstep.
  assert (forall s', ws_ok s' -> same_read (stream x) s' -> sent_ok little s' (accepted x) ->
    run_ok said (mkRun s' (delivered x) (accepted x))) as Hquiet.
  { intros s' ? Hsr ?. unfold run_ok. cbn [stream delivered accepted].
    by rewrite (same_read_view _ _ Hsr). }
  destruct Hstep as [x room ticks bs s Hr E|x room ticks s Hr E|x input n s E|x input s E
                    |x r s E _|x r s E _].
  - destruct (ws_poll_read_spec (stream x) room ticks Hok Hr) as [[H1 H2] Hg]. rewrite E in *.
    cbn [fst snd] in *. destruct H2 as (Hv & _ & _ & Hf'). unfold run_ok. cbn [stream delivered accepted].
    split_and!; [done|by eapply sent_grown| |congruence]. by rewrite <- app_assoc, <- Hv.
  - destruct (ws_poll_read_spec (stream x) room ticks Hok Hr) as [[H1 H2] Hg]. rewrite E in *.
    cbn [fst snd] in *. unfold run_ok. cbn [stream delivered accepted]. rewrite H2.
    split_and!; [done|by eapply sent_grown|done|done].
  - destruct (ws_poll_write_spec little keys Hkeys (stream x) (accepted x) input Hok Hs) as (H1 & H2 & H3).
    rewrite E in *. cbn [fst snd] in *. destruct H3 as [_ H3]. unfold run_ok.
    cbn [stream delivered accepted]. by rewrite (same_read_view _ _ H2).
  - destruct (ws_poll_write_spec little keys Hkeys (stream x) (accepted x) input Hok Hs) as (H1 & H2 & H3).
    rewrite E in *. cbn [fst snd] in *. by apply Hquiet.
  - destruct (ws_finish_spec little (stream x) (accepted x) io_poll_flush Hok Hs) as (H1 & H2 & H3 & _);
      [intros; apply poll_flush_law|]. unfold poll_flush in E. rewrite E in *. by apply Hquiet.
  - unfold poll_shutdown in E. destruct (close_queued (stream x)) eqn:Ec.
    + destruct (ws_finish_spec little (stream x) (accepted x) io_poll_shutdown Hok Hs) as (H1 & H2 & H3 & _);
        [intros; apply poll_shutdown_law|]. rewrite E in *. by apply Hquiet.
    + pose proof (shutdown_queue little keys Hkeys (stream x) (accepted x) Hok Hs Ec) as Hs'.
      destruct (queue_ok little keys (stream x) OPCODE_CLOSE true (be_bytes 2 CLOSE_NORMAL) Hok)
        as ([? ? ?] & Hsr & _).
      set (s' := queue_frame little keys (stream x) OPCODE_CLOSE true (be_bytes 2 CLOSE_NORMAL)) in *.
      set (s2 := mkWs (inner s') _ _ _ _ _ _ _ true _) in *.
      assert (ws_ok s2) as Hok2 by (by split).
      destruct (ws_finish_spec little s2 (accepted x) io_poll_shutdown Hok2 Hs')
        as (H1 & H2 & H3 & _); [intros; apply poll_shutdown_law|]. rewrite E in *.
      apply Hquiet; [done| |done]. by eapply same_read_trans; [|exact H2].
Qed.

Lemma ws_reach said x x' : run_ok said x -> rtc ws_step x x' -> run_ok said x'.
Proof. intros H Hr. induction Hr; eauto using ws_step_ok. Qed.

End Runs.

Lemma enc_nonempty little x : (1 <= length (enc little x))%nat.
Proof. unfold enc, encode_frame. rewrite length_app. cbn. lia. Qed.

Lemma server_reads_all little fl fuel :
  Forall fits fl -> (length (concat (enc little <$> fl)) < fuel)%nat ->
  server_read fuel (concat (enc little <$> fl)) = Some (fst <$> fl).
Proof.
  intros Hfl. revert fuel. induction Hfl as [|[f key] fl Hf Hfl IH]; intros fuel Hlen;
    (destruct fuel as [|fuel]; [lia|]); [done|].
  cbn [fmap list_fmap concat] in *. pose proof (enc_nonempty little (f, key)) as Hne.
  rewrite length_app in Hlen. cbn [server_read].
  destruct (enc little (f, key) ++ concat (enc little <$> fl)) as [|b bs] eqn:E.
  { apply (f_equal length) in E. rewrite length_app in E. cbn in E. lia. }
  rewrite <- E. unfold enc at 1. rewrite (server_reads_frame little key f) by done.
  cbn [mbind option_bind fst snd]. rewrite IH by lia. done.
Qed.

(** C22: Whatever the transport does with its reads and writes, and whatever is read, flushed and
    shut down in between, the server finds on the wire whole frames, masked as RFC 6455 asks, and
    puts together from them exactly the writes that were accepted, one message for each, in order;
    keepalives never split a message, and there is at most one close frame. *)
Theorem ws_server_sees_writes {T} `{Ai : AsyncIo T} `{Laws : !AsyncIoLaws T} little keys (io : T) leftover
    period (x : Run T) :
  (forall i, length (keys i) = 4%nat) -> taken io = [] ->
  rtc (ws_step little keys) (start io leftover period) x ->
  exists fs, server_read (S (length (wire (stream x)))) (wire (stream x)) = Some fs
    /\ assemble None fs = Some (accepted x, None)
    /\ (length (List.filter (fun f => c_opcode f =? OPCODE_CLOSE)%Z fs) <= 1)%nat.
Proof.
  intros Hk Ht Hr.
  apply (ws_reach little keys Hk _ _ _ (ws_start_ok little io leftover period Ht)) in Hr as (_ & Hs & _).
  destruct Hs as (fl & Hfl & Ew & Ha & Hc). exists (fst <$> fl). split_and!; [|done|].
  - rewrite Ew. apply server_reads_all; [done|lia].
  - assert (length (List.filter (fun f => c_opcode f =? OPCODE_CLOSE) (fst <$> fl))
            = length (List.filter is_close fl)) as ->.
    { clear. induction fl as [|[f k] fl IH]; [done|]. cbn. unfold is_close at 1. cbn.
      case_if; cbn; by rewrite IH. }
    rewrite Hc. destruct (close_queued (stream x)); lia.
Qed.

(** However the server's bytes are cut on their way, interleaved with writes and keepalives, the
    stream delivers the payloads that the server's frames carry up to its close frame: what it has
    delivered is a prefix of them, it reports the end only after all of them and only if no frame
    was refused, it reports a protocol error exactly where the first bad frame is, and it never
    panics. *)
Theorem ws_reads_any_chunks {T} `{Ai : AsyncIo T} `{Laws : !AsyncIoLaws T} little keys (io : T) leftover
    period (x : Run T) :
  (forall i, length (keys i) = 4%nat) -> taken io = [] ->
  rtc (ws_step little keys) (start io leftover period) x ->
  let '(said, ending) := downlink (leftover ++ unread io) in
  exists rest, said = delivered x ++ rest
    /\ forall room ticks, 0 < room ->
       match fst (poll_read little keys (stream x) room ticks) with
       | Ready (Ok []) => rest = [] /\ failure ending = None
       | Ready (Ok bs) => (exists rest', rest = bs ++ rest') /\ len bs <= room
       | Ready (Err (Protocol e)) => rest = [] /\ ending = Failed e
       | Ready Panic => False
       | _ => True
       end.
Proof.
  intros Hk Ht Hr.
  apply (ws_reach little keys Hk _ _ _ (ws_start_ok little io leftover period Ht)) in Hr as (Hok & _ & Hd & Hf).
  destruct (downlink (leftover ++ unread io)) as [said ending]. cbn [fst snd] in *.
  exists (fst (ws_view (stream x))). split; [done|]. intros room ticks Hroom.
  destruct (ws_poll_read_spec little keys Hk (stream x) room ticks Hok Hroom) as [[_ H] _].
  destruct (fst (poll_read little keys (stream x) room ticks)) as [[bs|e|]|]; [| |done..].
  - destruct H as (Hv & Hl & Hnil & _). destruct bs as [|b bs].
    + destruct (Hnil eq_refl) as [E1 E2]. split; [done|]. by rewrite <- Hf.
    + split; [|done]. eexists. exact Hv.
  - destruct e as [e| |]; [|done..]. rewrite H in *. split; [done|]. destruct ending; by simplify_eq/=.
Qed.

(** ** A run over the scripted transport

    The server sends a binary frame in three pieces and a ping; the client reads twice, writes and
    shuts down, on a transport that takes its bytes in pieces too. *)
Definition ws_keys (i : nat) : list byte := [to_u8 (Z.of_nat i); x02; x03; x04].
Definition ws_script : Script :=
  mkScript [[x82]; []; [x03; x61; x62; x63; x89]; [x00]] [2%nat; 0%nat; 0%nat; 3%nat] [].
Definition ws_run0 : Run Script := start ws_script [] 1.
Definition ws_run1 : Run Script :=
  mkRun (snd (poll_read true ws_keys (stream ws_run0) 10 0)) [] [].
Definition ws_run2 : Run Script :=
  mkRun (snd (poll_read true ws_keys (stream ws_run1) 10 1)) [x61; x62; x63] [].
Definition ws_run3 : Run Script :=
  mkRun (snd (poll_write true ws_keys (stream ws_run2) [x68; x69])) [x61; x62; x63] [].
Definition ws_run4 : Run Script :=
  mkRun (snd (poll_write true ws_keys (stream ws_run3) [x68; x69])) [x61; x62; x63] [[x68; x69]].
Definition ws_run5 : Run Script :=
  mkRun (snd (poll_shutdown true ws_keys (stream ws_run4))) [x61; x62; x63] [[x68; x69]].

Lemma ws_run_steps : rtc (ws_step true ws_keys) ws_run0 ws_run5.
Proof.
  apply (rtc_l _ _ ws_run1).
  { apply (step_read_pending true ws_keys ws_run0 10 0); [lia|vm_compute; reflexivity]. }
  apply (rtc_l _ _ ws_run2).
  { apply (step_read true ws_keys ws_run1 10 1 [x61; x62; x63]); [lia|vm_compute; reflexivity]. }
  apply (rtc_l _ _ ws_run3).
  { apply (step_write_pending true ws_keys ws_run2 [x68; x69]); vm_compute; reflexivity. }
  apply (rtc_l _ _ ws_run4).
  { apply (step_write true ws_keys ws_run3 [x68; x69] 2); vm_compute; reflexivity. }
  apply rtc_once. eapply (step_shutdown true ws_keys ws_run4); [vm_compute; reflexivity|done].
Qed.

Lemma ws_server_sees_writes_witness :
  exists fs, server_read (S (length (wire (stream ws_run5)))) (wire (stream ws_run5)) = Some fs
    /\ assemble None fs = Some ([[x68; x69]], None).
Proof.
  destruct (ws_server_sees_writes true ws_keys ws_script [] 1 ws_run5) as (fs & H1 & H2 & _);
    [reflexivity|reflexivity|exact ws_run_steps|].
  exists fs. split; [exact H1|exact H2].
Defined.

Lemma ws_reads_any_chunks_witness :
  exists rest, fst (downlink ([x82; x03; x61; x62; x63; x89; x00])) = [x61; x62; x63] ++ rest.
Proof.
  pose proof (ws_reads_any_chunks true ws_keys ws_script [] 1 ws_run5 ltac:(reflexivity)
                ltac:(reflexivity) ws_run_steps) as H.
  change ([] ++ unread ws_script) with [x82; x03; x61; x62; x63; x89; x00] in H.
  destruct (downlink [x82; x03; x61; x62; x63; x89; x00]) as [said ending].
  destruct H as (rest & H & _). exists rest. exact H.
Defined.

Lemma apply_mask_bytewise_witness :
  apply_mask true [x01; x02; x03; x04; x05; x06; x07; x08; x09] [x0a; x0b; x0c; x0d]
  = mask_bytes [x01; x02; x03; x04; x05; x06; x07; x08; x09] [x0a; x0b; x0c; x0d].
Proof. apply apply_mask_bytewise. reflexivity. Defined.
