(* ===== verification/Grpc.v ===== *)
(** gRPC message framing: [crates/xray-transport/src/stream/grpc/framing.rs], the [Hunk] and
    [MultiHunk] messages behind gRPC's five-byte prefix, and the decoder that reassembles them. *)
From Stdlib Require Import Strings.Byte.
From S2P Require Import Prelude Framing.

Inductive HunkMode := Single | Multi.

#[export] Instance HunkMode_eq_dec : EqDecision HunkMode.
Proof. solve_decision. Defined.

Definition GRPC_HEADER_LEN : Z := 5.
Definition MAX_VARINT_LEN : Z := 10.
Definition MAX_RECEIVE_MESSAGE_SIZE : Z := 1024 * 1024 * 4.
Definition MAX_HUNK_PAYLOAD_LEN : Z := MAX_RECEIVE_MESSAGE_SIZE - 5.

(** The bytes written into the scratch array of ten; writing an eleventh panics. *)
Fixpoint put_varint (room : nat) (value : Z) : total (list byte) :=
  match room with
  | O => Panic
  | S room =>
    if 0x80 <=? value then
      let? rest := put_varint room (Z.shiftr value 7) in
      Ok (to_u8 (Z.lor (value mod 256) 0x80) :: rest)
    else Ok [to_u8 value]
  end.

(** The length prefix wraps at 32 bits; the debug assertion against that is not modelled. *)
Definition encode_hunk (payload : list byte) : total (list byte) :=
  let? varint := put_varint (Z.to_nat MAX_VARINT_LEN) (len payload) in
  let body := if bool_decide (payload = []) then [] else to_u8 0x0a :: varint ++ payload in
  Ok (to_u8 0 :: be_bytes 4 (len body) ++ body).

Inductive HunkError :=
| CompressedFlag | UnexpectedFormat (format : Z) | MessageTooLong (length : Z)
| FieldOutOfRange (field : Z) | FieldPastEnd (field length : Z) | ValuePastEnd (field : Z)
| UnsupportedWireType (t : Z) | VarintOverflow | VarintPastEnd.

(** The value and the number of bytes read; [i] is the index of the next byte. *)
Fixpoint read_varint_loop (bytes : list byte) (i value : Z) : res HunkError (Z * Z) :=
  match bytes with
  | [] => Err VarintPastEnd
  | b :: bytes =>
    if 10 <=? i then Err VarintPastEnd
    else if (i =? 9) && (1 <? u8 b) then Err VarintOverflow
    else
      let value := Z.lor value (Z.shiftl (Z.land (u8 b) 0x7f) (i * 7)) in
      if Z.land (u8 b) 0x80 =? 0 then Ok (value, i + 1) else read_varint_loop bytes (i + 1) value
  end.

Definition read_varint (bytes : list byte) : res HunkError (Z * Z) := read_varint_loop bytes 0 0.

Definition MAX_FIELD_NUMBER : Z := 536870911.

(** One turn of the loop of [parse_hunk] per field; [cursor] is the position in the body. *)
Fixpoint parse_hunk_loop (fuel : nat) (body : list byte) (mode : HunkMode) (data : list byte)
    (cursor : Z) : res HunkError (list byte) :=
  match fuel with
  | O => Panic
  | S fuel =>
    if cursor <? len body then
      let? rest := slice_from body cursor in
      let? (tag, width) := read_varint rest in
      let cursor := cursor + width in
      let field := Z.shiftr tag 3 in
      if (field =? 0) || (MAX_FIELD_NUMBER <? field) then Err (FieldOutOfRange field)
      else
        let wire_type := Z.land tag 7 in
        if wire_type =? 2 then
          let? rest := slice_from body cursor in
          let? (length, width) := read_varint rest in
          let start := cursor + width in
          let stop := start + length in
          if (u64_max <? stop) || (len body <? stop) then Err (FieldPastEnd field length)
          else
            let? data :=
              (if field =? 1 then
                 let? bytes := slice body start stop in
                 Ok ((if bool_decide (mode = Single) then [] else data) ++ bytes)
               else Ok data) in
            parse_hunk_loop fuel body mode data stop
        else
          let? value_width :=
            (if wire_type =? 0 then
               let? rest := slice_from body cursor in
               let? (_, width) := read_varint rest in
               Ok width
             else if wire_type =? 1 then Ok 8
             else if wire_type =? 5 then Ok 4
             else Err (UnsupportedWireType wire_type)) in
          if len body <? cursor + value_width then Err (ValuePastEnd field)
          else parse_hunk_loop fuel body mode data (cursor + value_width)
    else Ok data
  end.

Definition parse_hunk (body : list byte) (mode : HunkMode) : res HunkError (list byte) :=
  parse_hunk_loop (S (length body)) body mode [] 0.

Record HunkDecoder := mkHunkDecoder { h_mode : HunkMode; h_buffer : list byte; h_consumed : Z }.

Definition HunkDecoder_new (mode : HunkMode) : HunkDecoder := mkHunkDecoder mode [] 0.

Definition push (d : HunkDecoder) (bytes : list byte) : HunkDecoder :=
  mkHunkDecoder (h_mode d) (h_buffer d ++ bytes) (h_consumed d).

Definition parse_grpc (mode : HunkMode) (bytes : list byte)
    : res HunkError (option (list byte * Z)) :=
  if len bytes <? GRPC_HEADER_LEN then Ok None
  else
    let? b0 := index bytes 0 in
    if u8 b0 =? 1 then Err CompressedFlag
    else if negb (u8 b0 =? 0) then Err (UnexpectedFormat (u8 b0))
    else
      let? prefix := slice bytes 1 5 in
      let length := from_be prefix in
      if MAX_RECEIVE_MESSAGE_SIZE <? length then Err (MessageTooLong length)
      else
        let total := GRPC_HEADER_LEN + length in
        if len bytes <? total then Ok None
        else
          let? body := slice bytes GRPC_HEADER_LEN total in
          let? payload := parse_hunk body mode in
          Ok (Some (payload, total)).

Definition parse_message (d : HunkDecoder) : res HunkError (option (list byte * Z)) :=
  let? bytes := slice_from (h_buffer d) (h_consumed d) in
  parse_grpc (h_mode d) bytes.

(** The spent bytes go, whichever way the buffer is kept; its capacity is not modelled. *)
Definition hunk_compact (d : HunkDecoder) : HunkDecoder :=
  if h_consumed d =? 0 then d
  else mkHunkDecoder (h_mode d) (drop (Z.to_nat (h_consumed d)) (h_buffer d)) 0.

Definition next_payload (d : HunkDecoder) : res HunkError (option (list byte)) * HunkDecoder :=
  match parse_message d with
  | Ok None => (Ok None, hunk_compact d)
  | Ok (Some (payload, length)) =>
    (Ok (Some payload),
     hunk_compact (mkHunkDecoder (h_mode d) (h_buffer d) (h_consumed d + length)))
  | Err e => (Err e, d)
  | Panic => (Panic, d)
  end.

Definition buffered_len (d : HunkDecoder) : Z := len (h_buffer d) - h_consumed d.

(** ** Varints *)

Lemma land_7f z : 0 <= z -> Z.land z 0x7f = z mod 128.
Proof. intros. change 0x7f with (Z.ones 7). rewrite Z.land_ones by lia. done. Qed.

Lemma land_80 z : 0 <= z < 256 -> (Z.land z 0x80 =? 0) = (z <? 128).
Proof.
  intros Hz. destruct (z <? 128) eqn:E; unbool; change 0x80 with (2 ^ 7).
  - apply Z.eqb_eq. apply Z.bits_inj'. intros n Hn. rewrite Z.land_spec, Z.bits_0.
    destruct (decide (n = 7)) as [->|]; [|rewrite Z.pow2_bits_false by lia; apply andb_false_r].
    rewrite (proj2 (Z.testbit_false z 7 ltac:(lia))); [done|]. by rewrite Z.div_small by lia.
  - apply Z.eqb_neq. intros E0. apply (f_equal (fun z => Z.testbit z 7)) in E0.
    rewrite Z.land_spec, Z.pow2_bits_true, Z.bits_0, andb_true_r in E0 by lia.
    apply Z.testbit_false in E0; [|lia].
    replace (z / 2 ^ 7) with 1 in E0 by (apply (Z.div_unique _ _ _ (z - 128)); lia). done.
Qed.

Lemma lor_80 z : 0 <= z < 256 -> Z.lor z 0x80 = 128 + z mod 128.
Proof.
  intros Hz. assert (forall r, 0 <= r < 128 -> Z.lor r 0x80 = 128 + r) as Hr.
  { intros r Hr. etrans; [exact (lor_disjoint_add r 1 7 ltac:(lia) Hr)|]. lia. }
  destruct (decide (z < 128)); [rewrite Z.mod_small by lia; apply Hr; lia|].
  replace (z mod 128) with (z - 128) by (apply (Z.mod_unique _ _ 1); lia).
  rewrite <- (Hr (z - 128)) by lia. replace z with (128 + (z - 128)) at 1 by lia.
  rewrite <- (Hr (z - 128)) by lia. by rewrite <- Z.lor_assoc, Z.lor_diag.
Qed.

(** Writing a value of 7 bits per byte and reading it back, from index [i] on. *)
Lemma varint_roundtrip_at room i value acc rest :
  (1 <= room)%nat -> 0 <= value < 128 ^ Z.of_nat room -> 0 <= i -> i + Z.of_nat room <= 9 -> 0 <= acc < 2 ^ (i * 7) ->
  exists bytes, put_varint room value = Ok bytes
    /\ 1 <= len bytes <= Z.of_nat room
    /\ read_varint_loop (bytes ++ rest) i acc = Ok (acc + value * 2 ^ (i * 7), i + len bytes).
Proof.
  revert i value acc. induction room as [|room IH]; intros i value acc Hpos Hv Hi Hroom Hacc; [lia|].
  cbn [put_varint]. rewrite Nat2Z.inj_succ, Z.pow_succ_r in Hv by lia.
  destruct (0x80 <=? value) eqn:E; unbool.
  - rewrite Z.shiftr_div_pow2 by lia. change (2 ^ 7) with 128.
    assert (2 ^ ((i + 1) * 7) = 2 ^ (i * 7) * 128) as Ep.
    { replace ((i + 1) * 7) with (i * 7 + 7) by lia. by rewrite Z.pow_add_r by lia. }
    assert (0 < 2 ^ (i * 7)) by (apply Z.pow_pos_nonneg; lia).
    pose proof (Z.mod_pos_bound value 128 ltac:(lia)). pose proof (Z.div_mod value 128 ltac:(lia)).
    destruct (IH (i + 1) (value / 128) (acc + (value mod 128) * 2 ^ (i * 7))) as (bytes & -> & Hl & Hr).
    { destruct room; [cbn in Hv; lia|lia]. }
    { split; [apply Z.div_pos; lia|]. apply Z.div_lt_upper_bound; lia. }
    { lia. } { lia. } { rewrite Ep. nia. }
    cbn [res_bind]. eexists. split; [done|]. rewrite len_cons. split; [lia|]. cbn [app read_varint_loop].
    assert (u8 (to_u8 (Z.lor (value mod 256) 0x80)) = 128 + value mod 128) as Eb.
    { rewrite lor_80 by (apply Z.mod_pos_bound; lia). rewrite u8_to_u8_small.
      - f_equal. pose proof (Z.div_mod value 256 ltac:(lia)). symmetry.
        rewrite (Z.div_mod value 256) at 1 by lia.
        replace (256 * (value / 256) + value mod 256) with (value mod 256 + value / 256 * 2 * 128) by lia.
        by rewrite Z.mod_add by lia.
      - pose proof (Z.mod_pos_bound (value mod 256) 128 ltac:(lia)). lia. }
    rewrite Eb. guard_false by lia. guard_false by lia. rewrite land_80 by lia. guard_false by lia.
    rewrite land_7f by lia.
    replace ((128 + value mod 128) mod 128) with (value mod 128)
      by (apply (Z.mod_unique _ _ 1); lia).
    rewrite lor_disjoint_add by lia. rewrite Hr. do 2 f_equal; [|lia]. rewrite Ep. nia.
  - eexists. split; [done|]. split; [unfold len; cbn; lia|]. cbn [app read_varint_loop].
    rewrite u8_to_u8_small by lia. guard_false by lia. guard_false by lia.
    rewrite land_80 by lia. guard_true by lia. rewrite land_7f, Z.mod_small by lia.
    rewrite lor_disjoint_add by lia. unfold len. cbn. do 2 f_equal; lia.
Qed.

Lemma put_varint_more room value bytes :
  put_varint room value = Ok bytes -> put_varint (S room) value = Ok bytes.
Proof.
  revert value bytes. induction room as [|room IH]; intros value bytes; [done|].
  cbn [put_varint]. case_if; [|done]. intros (rest & E & H)%res_bind_ok_inv. apply IH in E.
  cbn [put_varint] in E. rewrite E. exact H.
Qed.

Lemma varint_roundtrip value rest :
  0 <= value < 2 ^ 63 ->
  exists bytes, put_varint (Z.to_nat MAX_VARINT_LEN) value = Ok bytes
    /\ 1 <= len bytes <= 9 /\ read_varint (bytes ++ rest) = Ok (value, len bytes).
Proof.
  intros Hv. destruct (varint_roundtrip_at 9 0 value 0 rest) as (bytes & E & Hl & Hr); [lia..|].
  exists bytes. split_and!; [|lia|lia|].
  - change (Z.to_nat MAX_VARINT_LEN) with 10%nat. by apply put_varint_more.
  - unfold read_varint. rewrite Hr. do 2 f_equal; lia.
Qed.

(** A varint takes at least one byte of those that are there. *)
Lemma read_varint_loop_spec bytes i value :
  0 <= i -> 0 <= value -> read_varint_loop bytes i value <> Panic
  /\ forall v w, read_varint_loop bytes i value = Ok (v, w) -> i < w <= i + len bytes /\ 0 <= v.
Proof.
  revert i value. induction bytes as [|b bytes IH]; intros i value Hi Hv; [done|]. cbn [read_varint_loop].
  case_if; [done|]. case_if; [done|].
  assert (0 <= Z.lor value (Z.shiftl (Z.land (u8 b) 127) (i * 7))) as Hpos.
  { apply Z.lor_nonneg. split; [done|]. apply Z.shiftl_nonneg, Z.land_nonneg. lia. }
  rewrite len_cons. pose proof (len_nonneg bytes). case_if.
  - split; [done|]. intros v w [= <- <-]%Ok_inj. lia.
  - destruct (IH (i + 1) _ ltac:(lia) Hpos) as [H1 H2]. split; [done|].
    intros v w [? ?]%H2. lia.
Qed.

Lemma read_varint_spec bytes :
  read_varint bytes <> Panic
  /\ forall v w, read_varint bytes = Ok (v, w) -> 0 < w <= len bytes /\ 0 <= v.
Proof. apply (read_varint_loop_spec bytes 0 0); lia. Qed.

Lemma drop_len {A} (l : list A) n : 0 <= n <= len l -> len (drop (Z.to_nat n) l) = len l - n.
Proof. unfold len. rewrite length_drop. lia. Qed.

(** ** The body of a message is read to its end *)

Lemma parse_hunk_loop_total fuel body mode data cursor :
  0 <= cursor <= len body -> len body - cursor < Z.of_nat fuel ->
  parse_hunk_loop fuel body mode data cursor <> Panic.
Proof.
  revert data cursor. induction fuel as [|fuel IH]; intros data cursor Hc Hf; [lia|].
  cbn [parse_hunk_loop]. case_if; [|done]. unbool. rewrite slice_from_ok by done. cbn [res_bind].
  destruct (read_varint_spec (drop (Z.to_nat cursor) body)) as [Hp Hok]. rewrite drop_len in Hok by done.
  apply res_bind_no_panic; [done|]. intros [tag width] [Hw _]%Hok. case_if; [done|]. case_if.
  - rewrite slice_from_ok by lia. cbn [res_bind].
    destruct (read_varint_spec (drop (Z.to_nat (cursor + width)) body)) as [Hp2 Hok2].
    rewrite drop_len in Hok2 by lia. apply res_bind_no_panic; [done|].
    intros [n w] [Hw2 Hn]%Hok2. destruct ((u64_max <? cursor + width + w + n) || _) eqn:E; [done|].
    apply orb_false_iff in E as [_ E]. unbool. apply res_bind_no_panic.
    { case_if; [|done]. apply res_bind_no_panic; [apply slice_no_panic; lia|done]. }
    intros data' _. apply IH; lia.
  - apply res_bind_no_panic.
    { repeat case_if; try done. rewrite slice_from_ok by lia. cbn [res_bind].
      apply res_bind_no_panic; [apply read_varint_spec|]. by intros [? ?]. }
    intros vw Hvw. case_if; [done|]. unbool.
    assert (0 <= vw).
    { revert Hvw. repeat case_if; try (intros [= <-]%Ok_inj; lia); [|done].
      intros (r & _ & Hb)%res_bind_ok_inv. apply res_bind_ok_inv in Hb as ([v w] & Hr & Hb).
      apply read_varint_spec in Hr as [? _]. apply Ok_inj in Hb. simplify_eq. lia. }
    apply IH; lia.
Qed.

Lemma parse_hunk_total body mode : parse_hunk body mode <> Panic.
Proof. apply parse_hunk_loop_total; unfold len; lia. Qed.

(** ** The decoder reads a stream however it is cut *)

Lemma parse_grpc_spec mode bytes :
  parse_grpc mode bytes = Ok None
  \/ (exists e, forall r, parse_grpc mode (bytes ++ r) = Err e)
  \/ exists p n, 0 < n <= len bytes /\ forall r, parse_grpc mode (bytes ++ r) = Ok (Some (p, n)).
Proof.
  unfold parse_grpc, GRPC_HEADER_LEN. destruct (len bytes <? 5) eqn:E5; unbool; [by left|].
  assert (forall r, (len (bytes ++ r) <? 5) = false) as El.
  { intros r. pose proof (len_nonneg r). apply Z.ltb_ge. rewrite len_app. lia. }
  destruct (@index_some HunkError _ bytes 0) as [b0 E0]; [lia|].
  destruct (@slice_some HunkError _ bytes 1 5) as [prefix Ep]; [lia..|].
  assert (forall r, @index HunkError _ (bytes ++ r) 0 = Ok b0) as E0'
    by (intros; by rewrite index_app_l by lia).
  assert (forall r, @slice HunkError _ (bytes ++ r) 1 5 = Ok prefix) as Ep'
    by (intros; by rewrite slice_app_l by lia).
  rewrite E0. cbn [res_bind]. destruct (u8 b0 =? 1) eqn:Eb1.
  { right. left. eexists. intros r. rewrite El, E0'. cbn [res_bind]. by rewrite Eb1. }
  destruct (negb (u8 b0 =? 0)) eqn:Eb0.
  { right. left. eexists. intros r. rewrite El, E0'. cbn [res_bind]. by rewrite Eb1, Eb0. }
  rewrite Ep. cbn [res_bind]. destruct (MAX_RECEIVE_MESSAGE_SIZE <? from_be prefix) eqn:Em.
  { right. left. eexists. intros r. rewrite El, E0'. cbn [res_bind]. rewrite Eb1, Eb0, Ep'.
    cbn [res_bind]. by rewrite Em. }
  pose proof (from_be_range prefix) as [Hn _].
  destruct (len bytes <? 5 + from_be prefix) eqn:Et; [by left|]. apply Z.ltb_ge in Et. right.
  destruct (@slice_some HunkError _ bytes 5 (5 + from_be prefix)) as [body Eb]; [lia..|].
  assert (forall r, parse_grpc mode (bytes ++ r)
    = let? p := parse_hunk body mode in Ok (Some (p, 5 + from_be prefix))) as Eq.
  { intros r. unfold parse_grpc, GRPC_HEADER_LEN. rewrite El, E0'. cbn [res_bind].
    rewrite Eb1, Eb0, Ep'. cbn [res_bind]. pose proof (len_nonneg r).
    rewrite Em. guard_false by (rewrite len_app; lia). by rewrite slice_app_l, Eb by lia. }
  unfold parse_grpc, GRPC_HEADER_LEN in Eq.
  destruct (parse_hunk body mode) as [p|e|] eqn:Eh; cbn [res_bind] in Eq.
  - right. eexists _, _. split; [|exact Eq]. lia.
  - left. by eexists.
  - by apply parse_hunk_total in Eh.
Qed.

#[export] Instance grpc_format mode : FrameFormat (parse_grpc mode).
Proof. apply format_intro, parse_grpc_spec. Qed.

Definition hunk_ok (d : HunkDecoder) : Prop := 0 <= h_consumed d <= len (h_buffer d).

Definition held (d : HunkDecoder) : list byte := drop (Z.to_nat (h_consumed d)) (h_buffer d).

Lemma len_held d : hunk_ok d -> len (held d) = buffered_len d.
Proof. intros H. unfold held, buffered_len. by apply drop_len. Qed.

Lemma compact_held d :
  hunk_ok d -> hunk_ok (hunk_compact d) /\ held (hunk_compact d) = held d /\ h_mode (hunk_compact d) = h_mode d.
Proof.
  unfold hunk_compact, hunk_ok, held. intros H. case_if; [done|]. cbn [h_consumed h_buffer h_mode].
  split_and!; try done. apply len_nonneg.
Qed.

(** What the next payload is, in terms of the messages still to come: those in the bytes held and
    in those that have not arrived. *)
Lemma next_payload_spec d u :
  hunk_ok d ->
  let '(r, d') := next_payload d in
  hunk_ok d' /\ h_mode d' = h_mode d
  /\ match r with
     | Ok (Some p) =>
       frames (parse_grpc (h_mode d)) (held d ++ u)
       = let '(ps, t) := frames (parse_grpc (h_mode d)) (held d' ++ u) in (p :: ps, t)
     | Ok None => held d' = held d /\ parse_grpc (h_mode d) (held d) = Ok None
     | Err e => held d' = held d /\ frames (parse_grpc (h_mode d)) (held d ++ u) = ([], Bad e)
     | Panic => False
     end.
Proof.
  intros Hd. unfold next_payload, parse_message. rewrite slice_from_ok by done. cbn [res_bind].
  fold (held d). destruct (parse_grpc (h_mode d) (held d)) as [[[p n]|]|e|] eqn:Ep.
  - pose proof (parse_fits _ _ _ Ep) as Hn. rewrite len_held in Hn by done. unfold buffered_len in Hn.
    set (d1 := mkHunkDecoder (h_mode d) (h_buffer d) (h_consumed d + n)).
    assert (hunk_ok d1) as Hd1 by (unfold hunk_ok in *; cbn; lia).
    destruct (compact_held d1 Hd1) as (? & -> & Em). split_and!; [done|done|].
    rewrite frames_eq by apply _. rewrite (parse_more _ u _ Ep).
    rewrite drop_app_le by (pose proof (len_held d Hd); unfold buffered_len, len in *; lia).
    replace (drop (Z.to_nat n) (held d)) with (held d1); [done|].
    unfold held, d1. cbn. rewrite drop_drop. f_equal. unfold hunk_ok in Hd. lia.
  - destruct (compact_held d Hd) as (? & ? & ?). by split_and!.
  - split_and!; try done. rewrite frames_eq by apply _. by rewrite (parse_refuses _ u _ Ep).
  - by apply parse_no_panic in Ep.
Qed.

(** A decoder with what it has handed out and the bytes that have not arrived. *)
Record HunkRun := mkHunkRun { hr_decoder : HunkDecoder; hr_given : list (list byte); hr_to_come : list byte }.

Inductive hunk_step : HunkRun -> HunkRun -> Prop :=
| hunk_arrives d given a b :
  hunk_step (mkHunkRun d given (a ++ b)) (mkHunkRun (push d a) given b)
| hunk_gives d given u p d' :
  next_payload d = (Ok (Some p), d') ->
  hunk_step (mkHunkRun d given u) (mkHunkRun d' (given ++ [p]) u)
| hunk_waits d given u d' :
  next_payload d = (Ok None, d') -> hunk_step (mkHunkRun d given u) (mkHunkRun d' given u).

Definition hunk_inv (mode : HunkMode) (b : list byte) (x : HunkRun) : Prop :=
  hunk_ok (hr_decoder x) /\ h_mode (hr_decoder x) = mode
  /\ frames (parse_grpc mode) b
     = let '(ps, t) := frames (parse_grpc mode) (held (hr_decoder x) ++ hr_to_come x) in
       (hr_given x ++ ps, t).

Lemma hunk_step_inv mode b x x' : hunk_inv mode b x -> hunk_step x x' -> hunk_inv mode b x'.
Proof.
  intros (Hd & Hm & Hf) Hs. destruct Hs as [d given a u|d given u p d' E|d given u d' E];
    cbn [hr_decoder hr_given hr_to_come] in *.
  - unfold hunk_ok in Hd. split; [|split; [done|]].
    { unfold hunk_ok. cbn [hr_decoder push h_consumed h_buffer]. rewrite len_app.
      pose proof (len_nonneg a). lia. }
    unfold held in *. cbn [hr_decoder hr_given hr_to_come push h_buffer h_consumed].
    rewrite drop_app_le by (unfold len in Hd; lia). by rewrite <- app_assoc.
  - pose proof (next_payload_spec d u Hd) as H. rewrite E in H. destruct H as (? & ? & H).
    rewrite Hm in *. split_and!; [done|done|]. cbn [hr_decoder hr_given hr_to_come]. rewrite Hf, H.
    destruct (frames (parse_grpc mode) (held d' ++ u)) as [ps t]. by rewrite <- app_assoc.
  - pose proof (next_payload_spec d u Hd) as H. rewrite E in H. destruct H as (? & ? & Hh & _).
    split_and!; [done|cbn; congruence|]. cbn [hr_decoder hr_given hr_to_come]. by rewrite Hh.
Qed.

(** However the bytes of a gRPC call are cut, and whenever the decoder is asked for a payload, it
    hands out the payloads of the messages in order: it reports an error exactly where the first
    bad message is, it never panics, and when all bytes have arrived and it asks for more, all
    messages have been handed out and what it still holds is the cut one at the end. *)
Theorem hunk_decoder_any_chunks mode b x :
  rtc hunk_step (mkHunkRun (HunkDecoder_new mode) [] b) x ->
  let '(payloads, t) := frames (parse_grpc mode) b in
  exists rest, payloads = hr_given x ++ rest
    /\ match fst (next_payload (hr_decoder x)) with
       | Ok (Some p) => exists rest', rest = p :: rest'
       | Ok None =>
         hr_to_come x = [] -> rest = [] /\ exists cut, t = Partial cut /\ buffered_len (hr_decoder x) = len cut
       | Err e => rest = [] /\ t = Bad e
       | Panic => False
       end.
Proof.
  intros Hr. assert (hunk_inv mode b x) as (Hd & Hm & Hf).
  { assert (hunk_inv mode b (mkHunkRun (HunkDecoder_new mode) [] b)) as H0.
    { split; [done|split; [done|]]. cbn [hr_decoder hr_given hr_to_come].
      change (held (HunkDecoder_new mode) ++ b) with b. by destruct (frames (parse_grpc mode) b). }
    revert H0. induction Hr; eauto using hunk_step_inv. }
  rewrite Hf. pose proof (next_payload_spec (hr_decoder x) (hr_to_come x) Hd) as H. rewrite Hm in H.
  destruct (frames (parse_grpc mode) (held (hr_decoder x) ++ hr_to_come x)) as [ps t] eqn:Ef. exists ps. split; [done|].
  destruct (next_payload (hr_decoder x)) as [[[p|]|e|] d']; cbn [fst]; destruct H as (_ & _ & H).
  - destruct (frames (parse_grpc mode) (held d' ++ hr_to_come x)) as [ps' t']. simplify_eq. by eexists.
  - destruct H as [_ H]. intros E. rewrite E, app_nil_r in Ef. rewrite frames_eq in Ef by apply _.
    rewrite H in Ef. simplify_eq. split; [done|]. eexists. split; [done|]. by rewrite len_held.
  - destruct H as [_ H]. by simplify_eq.
  - done.
Qed.

(** ** Messages read back *)

Lemma parse_hunk_encoded mode varint payload :
  put_varint (Z.to_nat MAX_VARINT_LEN) (len payload) = Ok varint -> payload <> [] ->
  len payload < 2 ^ 63 ->
  parse_hunk (to_u8 0x0a :: varint ++ payload) mode = Ok payload.
Proof.
  intros Ev Hne Hl. pose proof (len_nonneg payload).
  destruct (varint_roundtrip (len payload) payload) as (bytes & Eb & Hw & Hr); [lia|].
  rewrite Ev in Eb. apply Ok_inj in Eb. subst bytes. set (body := to_u8 0x0a :: varint ++ payload).
  assert (len body = 1 + len varint + len payload) as Hb by (unfold body; len_simpl; lia).
  unfold parse_hunk. cbn [parse_hunk_loop]. guard_true by lia. rewrite slice_from_ok by lia.
  change (drop (Z.to_nat 0) body) with body. cbn [res_bind].
  assert (read_varint body = Ok (10, 1)) as -> by done. cbn [res_bind].
  change (Z.shiftr 10 3) with 1. change (Z.land 10 7) with 2. cbn [Z.eqb Pos.eqb orb Z.ltb].
  guard_false by done. change (0 + 1) with 1. rewrite slice_from_ok by lia.
  change (drop (Z.to_nat 1) body) with (varint ++ payload). cbn [res_bind]. rewrite Hr. cbn [res_bind].
  guard_false by (unfold u64_max; lia).
  rewrite (slice_eq (to_u8 0x0a :: varint) payload []) by (rewrite ?app_nil_r; len_simpl; (done || lia)).
  cbn [res_bind].
  assert (((if bool_decide (mode = Single) then [] else []) ++ payload) = payload) as -> by (by case_bool_decide).
  destruct (length body) as [|fuel] eqn:El; [unfold len in Hb; lia|]. cbn [parse_hunk_loop].
  by guard_false by lia.
Qed.

Lemma encode_hunk_parse mode payload rest :
  len payload <= MAX_HUNK_PAYLOAD_LEN ->
  exists bytes, encode_hunk payload = Ok bytes
    /\ parse_grpc mode (bytes ++ rest) = Ok (Some (payload, len bytes)).
Proof.
  intros Hl. unfold MAX_HUNK_PAYLOAD_LEN, MAX_RECEIVE_MESSAGE_SIZE in Hl. pose proof (len_nonneg payload).
  destruct (varint_roundtrip_at 4 0 (len payload) 0 []) as (varint & Ev4 & Hw & _); [lia..|].
  assert (put_varint (Z.to_nat MAX_VARINT_LEN) (len payload) = Ok varint) as Ev.
  { change (Z.to_nat MAX_VARINT_LEN) with 10%nat. do 6 apply put_varint_more. done. }
  unfold encode_hunk. rewrite Ev. cbn [res_bind].
  set (body := if bool_decide (payload = []) then [] else to_u8 0x0a :: varint ++ payload).
  assert (parse_hunk body mode = Ok payload) as Hbody.
  { unfold body. destruct (decide (payload = [])) as [->|Hne].
    - by rewrite bool_decide_eq_true_2.
    - rewrite bool_decide_eq_false_2 by done. apply parse_hunk_encoded; (done || lia). }
  assert (0 <= len body <= 4194304) as Hlb.
  { split; [apply len_nonneg|]. unfold body. case_bool_decide; [unfold len; cbn; lia|]. len_simpl. lia. }
  eexists. split; [done|]. cbn [app]. rewrite <- app_assoc.
  unfold parse_grpc, GRPC_HEADER_LEN. pose proof (len_nonneg rest).
  rewrite (proj2 (Z.ltb_ge _ _)) by (rewrite len_cons, !len_app, len_be_bytes; lia).
  change (index (to_u8 0 :: _) 0) with (@Ok HunkError _ (to_u8 0)). cbn [res_bind].
  rewrite u8_to_u8_small by lia. cbn [Z.eqb negb].
  rewrite (slice_eq [to_u8 0] (be_bytes 4 (len body)) (body ++ rest)) by done. cbn [res_bind].
  rewrite from_be_bytes_small by (cbn; lia). unfold MAX_RECEIVE_MESSAGE_SIZE. guard_false by lia.
  rewrite (proj2 (Z.ltb_ge (len (to_u8 0 :: _)) _)) by (rewrite len_cons, !len_app, len_be_bytes; lia).
  rewrite (slice_eq (to_u8 0 :: be_bytes 4 (len body)) body rest) by (done || lia). cbn [res_bind].
  rewrite Hbody. cbn [res_bind]. do 3 f_equal. rewrite len_cons, len_app, len_be_bytes. lia.
Qed.

(** What is written to a call, one message per write. *)
Fixpoint encode_hunks (ws : list (list byte)) : total (list byte) :=
  match ws with
  | [] => Ok []
  | w :: ws => let? a := encode_hunk w in let? b := encode_hunks ws in Ok (a ++ b)
  end.

(** Writes of at most [MAX_HUNK_PAYLOAD_LEN] bytes are framed without a panic, as messages that
    the receive limit admits, and the messages on the wire are these writes, empty ones included,
    whichever of the two tunnel messages the call carries. *)
Theorem hunk_roundtrip mode ws :
  Forall (fun w => len w <= MAX_HUNK_PAYLOAD_LEN) ws ->
  exists bytes, encode_hunks ws = Ok bytes /\ frames (parse_grpc mode) bytes = (ws, Partial []).
Proof.
  intros Hws. induction Hws as [|w ws Hw _ (bytes & E & Hf)]; [by exists []|].
  destruct (encode_hunk_parse mode w bytes Hw) as (a & Ea & Hp). exists (a ++ bytes).
  cbn [encode_hunks]. rewrite Ea. cbn [res_bind]. rewrite E. split; [done|].
  rewrite frames_eq by apply _. rewrite Hp. unfold len. rewrite Nat2Z.id, drop_app_length.
  by rewrite Hf.
Qed.

Definition hunk_sample : list byte :=
  match encode_hunks [[x61; x62]; []; [x63]] with Ok b => b | _ => [] end.

Lemma hunk_roundtrip_witness :
  exists bytes, encode_hunks [[x61; x62]; []; [x63]] = Ok bytes
    /\ frames (parse_grpc Multi) bytes = ([[x61; x62]; []; [x63]], Partial []).
Proof. apply hunk_roundtrip. repeat (apply Forall_cons_2; [vm_compute; discriminate|]). apply List.Forall_nil. Defined.

Definition hunk_run1 : HunkRun :=
  mkHunkRun (push (HunkDecoder_new Single) (take 12 hunk_sample)) [] (drop 12 hunk_sample).
Definition hunk_run2 : HunkRun :=
  mkHunkRun (snd (next_payload (hr_decoder hunk_run1))) [[x61; x62]] (drop 12 hunk_sample).

Lemma hunk_decoder_any_chunks_witness :
  exists rest, fst (frames (parse_grpc Single) hunk_sample) = [[x61; x62]] ++ rest.
Proof.
  pose proof (hunk_decoder_any_chunks Single hunk_sample hunk_run2) as H.
  destruct (frames (parse_grpc Single) hunk_sample) as [ps t].
  destruct H as (rest & H & _); [|exists rest; exact H].
  apply (rtc_l _ _ hunk_run1).
  - change hunk_sample with (take 12 hunk_sample ++ drop 12 hunk_sample) at 1. apply hunk_arrives.
  - apply rtc_once. apply (hunk_gives _ [] _ [x61; x62]). vm_compute. reflexivity.
Defined.
