(* ===== verification/Vision.v ===== *)
(** XTLS Vision: [crates/xray-proxy/src/vless/vision.rs] (padded blocks) and
    [vless/vision_stream.rs] (the stream that pads its writes and unpads its reads until the
    inner TLS connection can be spliced through). *)
From Stdlib Require Import Strings.Byte.
From S2P Require Import Prelude Transport.

Definition HEADER_LEN : Z := 5.
Definition USER_ID_LEN : Z := 16.
Definition MAX_CONTENT_LEN : Z := u16_max.

(** ** Blocks *)

Inductive VisionCommand := Continue | End | Direct.

#[export] Instance VisionCommand_eq_dec : EqDecision VisionCommand.
Proof. solve_decision. Defined.

Inductive VisionError :=
| ShortBlock | UserMismatch | UnknownCommand (command : byte) | LengthMismatch
| PayloadTooLarge (length : Z).

(** [command as u8] *)
Definition command_byte (c : VisionCommand) : byte :=
  match c with Continue => to_u8 0 | End => to_u8 1 | Direct => to_u8 2 end.

Definition VisionCommand_try_from (value : byte) : res VisionError VisionCommand :=
  if u8 value =? 0 then Ok Continue
  else if u8 value =? 1 then Ok End
  else if u8 value =? 2 then Ok Direct
  else Err (UnknownCommand value).

Record UnpaddedVisionBlock := mkBlock { command : VisionCommand; payload : list byte }.

(** The seed is an array of four [u32]. *)
Record VisionSeed := mkSeed { seed0 : Z; seed1 : Z; seed2 : Z; seed3 : Z }.

Record VisionPadding := mkPadding {
  vp_user_id : list byte;
  seed : VisionSeed;
  user_id_emitted : bool
}.

Definition VisionPadding_new (user_id : list byte) (s : VisionSeed) : VisionPadding :=
  mkPadding user_id s false.

(** [draw n] is the number the thread's generator gives for [gen_range(0..n)]. *)
Definition random_padding_len (draw : Z -> Z) (upper_bound : Z) : Z :=
  if upper_bound =? 0 then 0 else draw upper_bound.

Definition padding_len (p : VisionPadding) (draw : Z -> Z) (content_len : Z) (long_padding : bool)
    (deterministic_extra_padding : Z) : Z :=
  if negb (deterministic_extra_padding =? 0) then deterministic_extra_padding
  else if long_padding && (content_len <? seed0 (seed p)) then
    Z.min (Z.min u64_max (Z.max 0 (seed2 (seed p) - content_len)
                          + random_padding_len draw (seed1 (seed p)))) MAX_CONTENT_LEN
  else Z.min (random_padding_len draw (seed3 (seed p))) MAX_CONTENT_LEN.

(** The bytes appended to [output]. *)
Definition pad_into_with_long_padding (p : VisionPadding) (draw : Z -> Z) (bytes : list byte)
    (c : VisionCommand) (long_padding : bool) (deterministic_extra_padding : Z)
    (output : list byte) : res VisionError (VisionPadding * list byte) :=
  let content_len := len bytes in
  if MAX_CONTENT_LEN <? content_len then Err (PayloadTooLarge content_len)
  else
    let n := padding_len p draw content_len long_padding deterministic_extra_padding in
    let output := if user_id_emitted p then output else output ++ vp_user_id p in
    Ok (mkPadding (vp_user_id p) (seed p) true,
        output ++ [command_byte c] ++ be_bytes 2 content_len ++ be_bytes 2 n ++ bytes
          ++ replicate (Z.to_nat n) (to_u8 0)).

Definition pad (p : VisionPadding) (draw : Z -> Z) (bytes : list byte) (c : VisionCommand)
    (deterministic_extra_padding : Z) : res VisionError (VisionPadding * list byte) :=
  pad_into_with_long_padding p draw bytes c true deterministic_extra_padding [].

Record VisionHeader := mkHeader { h_command : VisionCommand; content_len : Z; total_len : Z }.

Definition parse_header (padded : list byte) (offset : Z) : res VisionError VisionHeader :=
  if len padded <? offset + HEADER_LEN then Err ShortBlock
  else
    let? b0 := index padded offset in
    let? c := VisionCommand_try_from b0 in
    let? b1 := index padded (offset + 1) in
    let? b2 := index padded (offset + 2) in
    let? b3 := index padded (offset + 3) in
    let? b4 := index padded (offset + 4) in
    let content := from_be [b1; b2] in
    let padding := from_be [b3; b4] in
    Ok (mkHeader c content (HEADER_LEN + content + padding)).

(** Where the header of a block starts: after the user id when the block begins with it. *)
Definition block_offset (padded expected_user_id : list byte) : res VisionError Z :=
  let other :=
    match parse_header padded 0 with
    | Ok h =>
      if total_len h =? len padded then Ok 0
      else if USER_ID_LEN + HEADER_LEN <=? len padded then Err UserMismatch
      else Err LengthMismatch
    | Err (UnknownCommand c) => Err (UnknownCommand c)
    | Err e => if USER_ID_LEN + HEADER_LEN <=? len padded then Err UserMismatch else Err e
    | Panic => Panic
    end in
  match get_range padded 0 USER_ID_LEN with
  | Some user_id => if bool_decide (user_id = expected_user_id) then Ok USER_ID_LEN else other
  | None => other
  end.

Definition unpad_vision_block (padded expected_user_id : list byte)
    : res VisionError UnpaddedVisionBlock :=
  if len padded <? HEADER_LEN then Err ShortBlock
  else
    let? offset := block_offset padded expected_user_id in
    let? h := parse_header padded offset in
    if negb (total_len h =? len padded - offset) then Err LengthMismatch
    else
      let start := offset + HEADER_LEN in
      let? bytes := slice padded start (start + content_len h) in
      Ok (mkBlock (h_command h) bytes).

(** ** The TLS filter: what the stream has learnt of the inner TLS handshake *)

Definition READ_CHUNK_LEN : Z := 8 * 1024.
Definition TLS_CLIENT_HANDSHAKE_START : list byte := [to_u8 0x16; to_u8 0x03].
Definition TLS_SERVER_HANDSHAKE_START : list byte := [to_u8 0x16; to_u8 0x03; to_u8 0x03].
Definition TLS_APPLICATION_DATA_START : list byte := [to_u8 0x17; to_u8 0x03; to_u8 0x03].
Definition TLS_13_SUPPORTED_VERSIONS : list byte :=
  [to_u8 0x00; to_u8 0x2b; to_u8 0x00; to_u8 0x02; to_u8 0x03; to_u8 0x04].
Definition TLS_HANDSHAKE_TYPE_CLIENT_HELLO : byte := to_u8 0x01.
Definition TLS_HANDSHAKE_TYPE_SERVER_HELLO : byte := to_u8 0x02.
Definition TLS_AES_128_CCM_8_SHA256 : Z := 0x1305.

(** The filter's fields of [VisionStream]. *)
Record TlsFilter := mkFilter {
  packets_to_filter : Z;
  enable_xtls : bool;
  is_tls12_or_above : bool;
  is_tls : bool;
  cipher : Z;
  remaining_server_hello : Z
}.

Definition TlsFilter_new : TlsFilter := mkFilter 8 false false false 0 (-1).

(** [z as i32] *)
Definition as_i32 (z : Z) : Z := (z + 2147483648) mod 4294967296 - 2147483648.

(** The hello messages at the start of a packet. *)
Definition filter_hello (f : TlsFilter) (packet : list byte) : total TlsFilter :=
  if len packet <? 6 then Ok f
  else
    let? head3 := slice packet 0 3 in
    let? head2 := slice packet 0 2 in
    let? b3 := index packet 3 in
    let? b4 := index packet 4 in
    let? b5 := index packet 5 in
    if bool_decide (head3 = TLS_SERVER_HANDSHAKE_START)
       && bool_decide (b5 = TLS_HANDSHAKE_TYPE_SERVER_HELLO)
    then
      let remaining := Z.lor (Z.shiftl (u8 b3) 8) (u8 b4) + HEADER_LEN in
      let with_cipher c := mkFilter (packets_to_filter f) (enable_xtls f) true true c remaining in
      if (79 <=? len packet) && (79 <=? remaining) then
        let? session_id_len := index packet 43 in
        let cipher_offset := 43 + u8 session_id_len + 1 in
        if cipher_offset + 2 <=? len packet then
          let? c0 := index packet cipher_offset in
          let? c1 := index packet (cipher_offset + 1) in
          Ok (with_cipher (from_be [c0; c1]))
        else Ok (with_cipher (cipher f))
      else Ok (with_cipher (cipher f))
    else if bool_decide (head2 = TLS_CLIENT_HANDSHAKE_START)
            && bool_decide (b5 = TLS_HANDSHAKE_TYPE_CLIENT_HELLO)
    then Ok (mkFilter (packets_to_filter f) (enable_xtls f) (is_tls12_or_above f) true (cipher f)
               (remaining_server_hello f))
    else Ok f.

Definition filter_tls_packet (f : TlsFilter) (packet : list byte) : total TlsFilter :=
  if (packets_to_filter f =? 0) || bool_decide (packet = []) then Ok f
  else
    let? f := filter_hello
      (mkFilter (packets_to_filter f - 1) (enable_xtls f) (is_tls12_or_above f) (is_tls f)
         (cipher f) (remaining_server_hello f)) packet in
    if 0 <? remaining_server_hello f then
      let stop := Z.min (remaining_server_hello f) (len packet) in
      let remaining := remaining_server_hello f - as_i32 (len packet) in
      let? head := slice packet 0 stop in
      let update packets xtls :=
        mkFilter packets xtls (is_tls12_or_above f) (is_tls f) (cipher f) remaining in
      if existsb (fun window => bool_decide (window = TLS_13_SUPPORTED_VERSIONS)) (windows 6 head)
      then Ok (update 0 (enable_xtls f || (negb (cipher f =? 0)
                                           && negb (cipher f =? TLS_AES_128_CCM_8_SHA256))))
      else if remaining <=? 0 then Ok (update 0 (enable_xtls f))
      else Ok (update (packets_to_filter f) (enable_xtls f))
    else Ok f.

(** The records of [input] from [offset] on; every turn passes a record header. *)
Fixpoint tls_records_loop (fuel : nat) (input : list byte) (offset : Z) : total bool :=
  match fuel with
  | O => Panic
  | S fuel =>
    if offset <? len input then
      if len input - offset <? HEADER_LEN then Ok false
      else
        let? head := slice input offset (offset + 3) in
        if negb (bool_decide (head = TLS_APPLICATION_DATA_START)) then Ok false
        else
          let? b3 := index input (offset + 3) in
          let? b4 := index input (offset + 4) in
          let record_len := from_be [b3; b4] in
          let offset := offset + HEADER_LEN in
          if len input - offset <? record_len then Ok false
          else tls_records_loop fuel input (offset + record_len)
    else Ok (negb (bool_decide (input = [])))
  end.

Definition is_complete_tls_application_data_records (input : list byte) : total bool :=
  tls_records_loop (S (length input)) input 0.

(** ** The transport below the stream *)

Inductive IoError (E : Type) :=
| InvalidData (e : VisionError) | UnexpectedEof | WriteZero | InnerError (e : E).
Arguments InvalidData {E} e.
Arguments UnexpectedEof {E}.
Arguments WriteZero {E}.
Arguments InnerError {E} e.

(** [trait VisionStreamIo: AsyncRead + AsyncWrite]: operations that bypass the layer's own
    framing. *)
Class VisionStreamIo (S : Type) `{AsyncIo S} := {
  release_record_alignment : S -> S;
  io_poll_read_direct : S -> Z -> poll (res io_error (list byte)) * S;
  io_poll_write_direct : S -> list byte -> poll (res io_error Z) * S;
  io_poll_flush_direct : S -> poll (res io_error unit) * S;
  io_poll_shutdown_direct : S -> poll (res io_error unit) * S
}.

(** ** The stream *)

(** The fields of [VisionStream] that its reads use. *)
Record ReadSide := mkRead {
  raw_read : list byte;
  decoded_read : list byte;
  inbound_user_id_seen : bool;
  padding_read_mode : bool;
  direct_read_mode : bool;
  inner_eof : bool
}.

(** The fields its writes use. *)
Record WriteSide := mkWrite {
  padding : VisionPadding;
  pending_write : list byte;
  pending_write_len : Z;
  pending_direct_write_mode : bool;
  pending_end_write_mode : bool;
  padding_write_mode : bool;
  direct_write_mode : bool
}.

Section Stream.
Context {T : Type} `{Ai : AsyncIo T} `{Io : !VisionStreamIo T}.

Record VisionStream := mkStream {
  inner : T;
  user_id : list byte;
  rd : ReadSide;
  wr : WriteSide;
  tls : TlsFilter
}.

Definition VisionStream_new (inner : T) (user_id : list byte) (s : VisionSeed) : VisionStream :=
  mkStream inner user_id (mkRead [] [] false true false false)
    (mkWrite (VisionPadding_new user_id s) [] 0 false false true false) TlsFilter_new.

Definition set_inner (v : VisionStream) (s : T) : VisionStream :=
  mkStream s (user_id v) (rd v) (wr v) (tls v).
Definition set_rd (v : VisionStream) (r : ReadSide) : VisionStream :=
  mkStream (inner v) (user_id v) r (wr v) (tls v).
Definition set_wr (v : VisionStream) (w : WriteSide) : VisionStream :=
  mkStream (inner v) (user_id v) (rd v) w (tls v).
Definition set_tls (v : VisionStream) (f : TlsFilter) : VisionStream :=
  mkStream (inner v) (user_id v) (rd v) (wr v) f.

(** [map_err(vision_to_io)] *)
Definition vision_to_io {A} (m : res VisionError A) : res (IoError io_error) A :=
  res_map_err InvalidData m.

(** The bytes put into a buffer with [remaining] bytes of room. *)
Definition fill_output (v : VisionStream) (remaining : Z) : list byte * VisionStream :=
  let n := Z.to_nat (Z.min remaining (len (decoded_read (rd v)))) in
  let r := rd v in
  (take n (decoded_read r),
   set_rd v (mkRead (raw_read r) (drop n (decoded_read r)) (inbound_user_id_seen r)
               (padding_read_mode r) (direct_read_mode r) (inner_eof r))).

Definition next_frame_offset (uid raw : list byte) (seen : bool) : option Z :=
  if bool_decide (raw = []) then None
  else if seen then Some 0
  else if len raw <? USER_ID_LEN then
    if bool_decide (raw = take (length raw) uid) then None else Some 0
  else if bool_decide (take (Z.to_nat USER_ID_LEN) raw = uid) then Some USER_ID_LEN
  else Some 0.

Definition next_frame_len (uid raw : list byte) (seen : bool)
    : res (IoError io_error) (option Z) :=
  match next_frame_offset uid raw seen with
  | None => Ok None
  | Some offset =>
    if len raw <? offset + HEADER_LEN then Ok None
    else
      let? b0 := index raw offset in
      let? _ := vision_to_io (VisionCommand_try_from b0) in
      let? b1 := index raw (offset + 1) in
      let? b2 := index raw (offset + 2) in
      let? b3 := index raw (offset + 3) in
      let? b4 := index raw (offset + 4) in
      let frame_len := offset + HEADER_LEN + from_be [b1; b2] + from_be [b3; b4] in
      if len raw <? frame_len then Ok None else Ok (Some frame_len)
  end.

(** [Ok true] when a frame was decoded. *)
Definition decode_next_frame (v : VisionStream) : res (IoError io_error) bool * VisionStream :=
  let r := rd v in
  match next_frame_len (user_id v) (raw_read r) (inbound_user_id_seen r) with
  | Err e => (Err e, v)
  | Panic => (Panic, v)
  | Ok None => (Ok false, v)
  | Ok (Some frame_len) =>
    let frame := take (Z.to_nat frame_len) (raw_read r) in
    let raw := drop (Z.to_nat frame_len) (raw_read r) in
    match vision_to_io (unpad_vision_block frame (user_id v)) with
    | Err e =>
      (Err e, set_rd v (mkRead raw (decoded_read r) (inbound_user_id_seen r) (padding_read_mode r)
                          (direct_read_mode r) (inner_eof r)))
    | Panic => (Panic, v)
    | Ok block =>
      match filter_tls_packet (tls v) (payload block) with
      | Ok f =>
        let v := set_tls v f in
        let decoded := decoded_read r ++ payload block in
        match command block with
        | Continue =>
          (Ok true, set_rd v (mkRead raw decoded true (padding_read_mode r) (direct_read_mode r)
                                (inner_eof r)))
        | End =>
          let v := set_rd v (mkRead [] (decoded ++ raw) true false false (inner_eof r)) in
          (Ok true, set_inner v (release_record_alignment (inner v)))
        | Direct =>
          (Ok true, set_rd v (mkRead [] (decoded ++ raw) true false true (inner_eof r)))
        end
      | _ => (Panic, v)
      end
    end
  end.

(** An inner read or write handed to the caller as it is. *)
Definition pass_through {A} (v : VisionStream) (p : poll (res io_error A) * T)
    : poll (res (IoError io_error) A) * VisionStream :=
  (match fst p with Ready m => Ready (res_map_err InnerError m) | Pending => Pending end,
   set_inner v (snd p)).

(** The two reads that bypass the padding, if either applies. *)
Definition read_plain (v : VisionStream) (remaining : Z)
    : option (poll (res (IoError io_error) (list byte)) * VisionStream) :=
  if direct_read_mode (rd v) then
    Some (pass_through v (io_poll_read_direct (inner v) remaining))
  else if negb (padding_read_mode (rd v)) then
    Some (pass_through v (io_poll_read (inner v) remaining))
  else None.

Definition with_raw (v : VisionStream) (raw : list byte) (eof : bool) : VisionStream :=
  let r := rd v in
  set_rd v (mkRead raw (decoded_read r) (inbound_user_id_seen r) (padding_read_mode r)
              (direct_read_mode r) eof).

Fixpoint read_loop (fuel : nat) (v : VisionStream) (remaining : Z)
    : poll (res (IoError io_error) (list byte)) * VisionStream :=
  match fuel with
  | O => (Ready Panic, v)
  | S fuel =>
    match decode_next_frame v with
    | (Err e, v) => (Ready (Err e), v)
    | (Panic, v) => (Ready Panic, v)
    | (Ok true, v) =>
      let '(bytes, v) := fill_output v remaining in
      if negb (bool_decide (bytes = [])) || (remaining - len bytes =? 0) then (Ready (Ok bytes), v)
      else
        match read_plain v remaining with
        | Some p => p
        | None => read_loop fuel v remaining
        end
    | (Ok false, v) =>
      if inner_eof (rd v) then (Ready (Ok []), v)
      else
        match io_poll_read (inner v) READ_CHUNK_LEN with
        | (Ready (Ok filled), s) =>
          let v := set_inner v s in
          if bool_decide (filled = []) then
            let v := with_raw v (raw_read (rd v)) true in
            if bool_decide (raw_read (rd v) = []) then (Ready (Ok []), v)
            else (Ready (Err UnexpectedEof), v)
          else read_loop fuel (with_raw v (raw_read (rd v) ++ filled) (inner_eof (rd v))) remaining
        | (Ready (Err e), s) => (Ready (Err (InnerError e)), set_inner v s)
        | (Ready Panic, s) => (Ready Panic, set_inner v s)
        | (Pending, s) => (Pending, set_inner v s)
        end
    end
  end.

(** Every turn of the loop takes a frame off [raw_read] or bytes from the transport. *)
Definition read_fuel (v : VisionStream) : nat :=
  S (length (raw_read (rd v)) + 2 * length (unread (inner v))).

Definition poll_read (v : VisionStream) (remaining : Z)
    : poll (res (IoError io_error) (list byte)) * VisionStream :=
  let '(bytes, v) := fill_output v remaining in
  if negb (bool_decide (bytes = [])) || (remaining - len bytes =? 0) then (Ready (Ok bytes), v)
  else
    match read_plain v remaining with
    | Some p => p
    | None => read_loop (read_fuel v) v remaining
    end.

(** ** Writes *)

Definition with_pending (v : VisionStream) (bytes : list byte) : VisionStream :=
  let w := wr v in
  set_wr v (mkWrite (padding w) bytes (pending_write_len w) (pending_direct_write_mode w)
              (pending_end_write_mode w) (padding_write_mode w) (direct_write_mode w)).

Definition with_pending_len (v : VisionStream) (n : Z) : VisionStream :=
  let w := wr v in
  set_wr v (mkWrite (padding w) (pending_write w) n (pending_direct_write_mode w)
              (pending_end_write_mode w) (padding_write_mode w) (direct_write_mode w)).

Definition queue_padded_write (v : VisionStream) (draw : Z -> Z) (input : list byte)
    (c : VisionCommand) (long_padding : bool) : res (IoError io_error) VisionStream :=
  let w := wr v in
  let? (p, bytes) := vision_to_io
    (pad_into_with_long_padding (padding w) draw input c long_padding 0 (pending_write w)) in
  Ok (set_wr v (mkWrite p bytes (pending_write_len w) (pending_direct_write_mode w)
                  (pending_end_write_mode w) (padding_write_mode w) (direct_write_mode w))).

Definition queue_empty_padding_frame (v : VisionStream) (draw : Z -> Z)
    : res (IoError io_error) VisionStream :=
  queue_padded_write v draw [] Continue true.

(** The loop of [poll_drain_pending]; every turn writes at least one byte. *)
Fixpoint drain_loop (fuel : nat) (v : VisionStream)
    : poll (res (IoError io_error) unit) * VisionStream :=
  if bool_decide (pending_write (wr v) = []) then (Ready (Ok tt), v)
  else
    match fuel with
    | O => (Ready Panic, v)
    | S fuel =>
      match io_poll_write (inner v) (pending_write (wr v)) with
      | (Pending, s) => (Pending, set_inner v s)
      | (Ready Panic, s) => (Ready Panic, set_inner v s)
      | (Ready (Err e), s) => (Ready (Err (InnerError e)), set_inner v s)
      | (Ready (Ok written), s) =>
        let v := set_inner v s in
        if written =? 0 then (Ready (Err WriteZero), v)
        else if len (pending_write (wr v)) <? written then (Ready Panic, v)
        else drain_loop fuel (with_pending v (drop (Z.to_nat written) (pending_write (wr v))))
      end
    end.

Definition poll_drain_pending (v : VisionStream)
    : poll (res (IoError io_error) unit) * VisionStream :=
  match drain_loop (length (pending_write (wr v))) v with
  | (Ready (Ok _), v) =>
    let w := wr v in
    if pending_direct_write_mode w then
      match io_poll_flush (inner v) with
      | (Ready (Ok _), s) =>
        (Ready (Ok tt), set_wr (set_inner v s)
           (mkWrite (padding w) (pending_write w) (pending_write_len w) false
              (pending_end_write_mode w) false true))
      | (Ready (Err e), s) => (Ready (Err (InnerError e)), set_inner v s)
      | (Ready Panic, s) => (Ready Panic, set_inner v s)
      | (Pending, s) => (Pending, set_inner v s)
      end
    else if pending_end_write_mode w then
      (Ready (Ok tt), set_wr v
         (mkWrite (padding w) (pending_write w) (pending_write_len w)
            (pending_direct_write_mode w) false false (direct_write_mode w)))
    else (Ready (Ok tt), v)
  | p => p
  end.

(** [std::task::ready!(m)?] *)
Definition ready {A B} (p : poll (res (IoError io_error) A) * VisionStream)
    (k : A -> VisionStream -> poll (res (IoError io_error) B) * VisionStream)
    : poll (res (IoError io_error) B) * VisionStream :=
  match p with
  | (Ready (Ok a), v) => k a v
  | (Ready (Err e), v) => (Ready (Err e), v)
  | (Ready Panic, v) => (Ready Panic, v)
  | (Pending, v) => (Pending, v)
  end.

(** The mode a queued frame leads to: the flags [pending_direct_write_mode] and
    [pending_end_write_mode] after it. *)
Definition queue_frame (v : VisionStream) (draw : Z -> Z) (input : list byte)
    : res (IoError io_error) VisionStream :=
  let flags v direct end_ :=
    let w := wr v in
    set_wr v (mkWrite (padding w) (pending_write w) (pending_write_len w)
                (pending_direct_write_mode w || direct) (pending_end_write_mode w || end_)
                (padding_write_mode w) (direct_write_mode w)) in
  let f := tls v in
  let? records :=
    (if is_tls f then
       match is_complete_tls_application_data_records input with Ok b => Ok b | _ => Panic end
     else Ok false) in
  if records then
    if enable_xtls f then
      let? v := queue_padded_write v draw input Direct true in Ok (flags v true false)
    else let? v := queue_padded_write v draw input End true in Ok (flags v false true)
  else if negb (is_tls12_or_above f) && (packets_to_filter f <=? 1) then
    let? v := queue_padded_write v draw input End (is_tls f) in Ok (flags v false true)
  else queue_padded_write v draw input Continue (is_tls f).

Definition poll_write (v : VisionStream) (draw : Z -> Z) (input : list byte)
    : poll (res (IoError io_error) Z) * VisionStream :=
  let w := wr v in
  ready
    (if negb (bool_decide (pending_write w = [])) || pending_direct_write_mode w
        || pending_end_write_mode w
     then poll_drain_pending v else (Ready (Ok tt), v))
    (fun _ v =>
       if negb (pending_write_len (wr v) =? 0) then
         (Ready (Ok (pending_write_len (wr v))), with_pending_len v 0)
       else if direct_write_mode (wr v) then
         pass_through v (io_poll_write_direct (inner v) input)
       else if negb (padding_write_mode (wr v)) then
         pass_through v (io_poll_write (inner v) input)
       else if bool_decide (input = []) then (Ready (Ok 0), v)
       else
         let accepted_len := Z.min (len input) MAX_CONTENT_LEN in
         let input := take (Z.to_nat accepted_len) input in
         match filter_tls_packet (tls v) input with
         | Ok f =>
           match queue_frame (set_tls v f) draw input with
           | Ok v =>
             ready (poll_drain_pending (with_pending_len v accepted_len))
               (fun _ v => (Ready (Ok (pending_write_len (wr v))), with_pending_len v 0))
           | Err e => (Ready (Err e), set_tls v f)
           | Panic => (Ready Panic, set_tls v f)
           end
         | _ => (Ready Panic, v)
         end).

Definition poll_flush (v : VisionStream) : poll (res (IoError io_error) unit) * VisionStream :=
  ready (poll_drain_pending v)
    (fun _ v =>
       if direct_write_mode (wr v) then pass_through v (io_poll_flush_direct (inner v))
       else pass_through v (io_poll_flush (inner v))).

Definition poll_shutdown (v : VisionStream) : poll (res (IoError io_error) unit) * VisionStream :=
  ready (poll_drain_pending v)
    (fun _ v =>
       if direct_write_mode (wr v) then pass_through v (io_poll_shutdown_direct (inner v))
       else pass_through v (io_poll_shutdown (inner v))).

End Stream.
Arguments VisionStream T : clear implicits.

(** ** What the transport promises *)

(** The direct operations continue the same two byte sequences. *)
Class VisionStreamIoLaws (T : Type) `{VisionStreamIo T} := {
  async_laws :: AsyncIoLaws T;
  poll_read_direct_law s n : 0 < n -> read_ok s n (io_poll_read_direct s n);
  poll_write_direct_law s bytes : write_ok s bytes (io_poll_write_direct s bytes);
  poll_flush_direct_law s : idle_ok s (io_poll_flush_direct s);
  poll_shutdown_direct_law s : idle_ok s (io_poll_shutdown_direct s);
  release_law s :
    unread (release_record_alignment s) = unread s /\ taken (release_record_alignment s) = taken s
}.

(** ** Blocks and headers *)

Lemma from_be_pair b1 b2 : 0 <= from_be [b1; b2] < 65536.
Proof. apply (from_be_range [b1; b2]). Qed.

Section Reading.
Context {T : Type} `{Ai : AsyncIo T} `{Io : !VisionStreamIo T}.

Lemma next_frame_offset_app uid raw seen Y o :
  next_frame_offset uid raw seen = Some o -> len uid = 16 ->
  next_frame_offset uid (raw ++ Y) seen = Some o /\ (o = 0 \/ (o = 16 /\ 16 <= len raw)).
Proof.
  intros Ho Hu. unfold next_frame_offset, USER_ID_LEN in *.
  destruct (bool_decide (raw = [])) eqn:E0; [done|]. unbool.
  rewrite bool_decide_eq_false_2 by (intros [? _]%app_eq_nil; done).
  destruct seen; [split; [done|]; simplify_eq; auto|].
  destruct (len raw <? 16) eqn:El; unbool.
  - destruct (bool_decide (raw = take (length raw) uid)) eqn:E; [done|]. unbool. simplify_eq.
    split; [|auto]. case_if; unbool; [rewrite bool_decide_eq_false_2|rewrite bool_decide_eq_false_2].
    + done.
    + intros E2. apply E. apply (f_equal (take (length raw))) in E2.
      rewrite take_app_length, take_take, length_app in E2. rewrite E2 at 1. f_equal. lia.
    + done.
    + intros E2. apply E. apply (f_equal (take (length raw))) in E2.
      rewrite take_take, Nat.min_l, take_app_length in E2 by (unfold len in *; lia). done.
  - guard_false by (rewrite len_app; pose proof (len_nonneg Y); lia).
    rewrite take_app_le by (unfold len in *; lia). case_if; simplify_eq; auto.
Qed.

Lemma next_frame_len_cases uid raw seen :
  len uid = 16 ->
  next_frame_len uid raw seen = Ok None
  \/ (exists e, forall Y, next_frame_len uid (raw ++ Y) seen = Err (InvalidData e))
  \/ (exists n, 5 <= n <= len raw /\ forall Y, next_frame_len uid (raw ++ Y) seen = Ok (Some n)).
Proof.
  intros Hu. unfold next_frame_len. destruct (next_frame_offset uid raw seen) as [o|] eqn:Eo; [|by left].
  assert (forall Y, next_frame_offset uid (raw ++ Y) seen = Some o) as Happ
    by (intros; by eapply next_frame_offset_app).
  destruct (next_frame_offset_app uid raw seen [] o Eo Hu) as [_ Hoff].
  unfold HEADER_LEN. destruct (len raw <? o + 5) eqn:El; [by left|]. unbool.
  destruct (@index_some (IoError io_error) _ raw o) as [b0 E0]; [lia|].
  destruct (@index_some (IoError io_error) _ raw (o + 1)) as [b1 E1]; [lia|].
  destruct (@index_some (IoError io_error) _ raw (o + 2)) as [b2 E2]; [lia|].
  destruct (@index_some (IoError io_error) _ raw (o + 3)) as [b3 E3]; [lia|].
  destruct (@index_some (IoError io_error) _ raw (o + 4)) as [b4 E4]; [lia|].
  pose proof (from_be_pair b1 b2). pose proof (from_be_pair b3 b4).
  rewrite E0, E1, E2, E3, E4. cbn [res_bind].
  assert (forall Y, (len (raw ++ Y) <? o + 5) = false) as Hlen
    by (intros Y; pose proof (len_nonneg Y); rewrite len_app; lia).
  destruct (VisionCommand_try_from b0) as [c|e|] eqn:Ec.
  - cbn [vision_to_io res_map_err res_bind].
    destruct (len raw <? o + 5 + _ + _) eqn:Ef; [by left|]. unbool. right. right.
    exists (o + 5 + from_be [b1; b2] + from_be [b3; b4]). split; [lia|]. intros Y.
    rewrite Happ, Hlen, !index_app_l, E0, E1, E2, E3, E4 by lia. cbn [res_bind].
    rewrite Ec. cbn [vision_to_io res_map_err res_bind]. pose proof (len_nonneg Y).
    by guard_false by (rewrite len_app; lia).
  - right. left. exists e. intros Y. rewrite Happ, Hlen, index_app_l, E0 by lia. cbn [res_bind].
    by rewrite Ec.
  - revert Ec. unfold VisionCommand_try_from. by repeat case_if.
Qed.

(** ** The stream as a whole: every frame in turn, then the plain bytes *)

Inductive Mode := Padded (left : list byte) | Plain | Broken.

Fixpoint unframe_loop (fuel : nat) (uid : list byte) (seen : bool) (raw : list byte)
    : list byte * Mode :=
  match fuel with
  | O => ([], Broken)
  | S fuel =>
    match next_frame_len uid raw seen with
    | Ok None => ([], Padded raw)
    | Ok (Some n) =>
      match unpad_vision_block (take (Z.to_nat n) raw) uid with
      | Ok b =>
        let rest := drop (Z.to_nat n) raw in
        match command b with
        | Continue => let '(o, m) := unframe_loop fuel uid true rest in (payload b ++ o, m)
        | _ => (payload b ++ rest, Plain)
        end
      | _ => ([], Broken)
      end
    | _ => ([], Broken)
    end
  end.

Definition unframe (uid : list byte) (seen : bool) (raw : list byte) : list byte * Mode :=
  unframe_loop (S (length raw)) uid seen raw.

Lemma unframe_fuel f1 f2 uid seen raw :
  len uid = 16 -> (length raw < f1)%nat -> (length raw < f2)%nat ->
  unframe_loop f1 uid seen raw = unframe_loop f2 uid seen raw.
Proof.
  intros Hu. revert f2 seen raw. induction f1 as [|f1 IH]; intros f2 seen raw H1 H2; [lia|].
  destruct f2 as [|f2]; [lia|]. cbn [unframe_loop].
  destruct (next_frame_len_cases uid raw seen Hu) as [->|[[e He]|(n & Hn & He)]]; [done|..];
    specialize (He []); rewrite app_nil_r in He; rewrite He; [done|].
  destruct (unpad_vision_block _ _) as [b| |]; [|done..]. destruct (command b); [|done..].
  by rewrite (IH f2) by (rewrite length_drop; unfold len in *; lia).
Qed.

Definition prepend (o : list byte) (p : list byte * Mode) : list byte * Mode :=
  (o ++ fst p, snd p).

Lemma prepend_nil p : prepend [] p = p.
Proof. by destruct p. Qed.

Lemma prepend_app a b p : prepend a (prepend b p) = prepend (a ++ b) p.
Proof. unfold prepend. simpl. by rewrite app_assoc. Qed.

(** One turn of the reference reader on a stream that starts with a whole frame. *)
Lemma unframe_step uid seen raw n :
  len uid = 16 -> next_frame_len uid raw seen = Ok (Some n) ->
  unframe uid seen raw
  = match unpad_vision_block (take (Z.to_nat n) raw) uid with
    | Ok b =>
      match command b with
      | Continue => prepend (payload b) (unframe uid true (drop (Z.to_nat n) raw))
      | _ => (payload b ++ drop (Z.to_nat n) raw, Plain)
      end
    | _ => ([], Broken)
    end.
Proof.
  intros Hu Hn. unfold unframe at 1. cbn [unframe_loop]. rewrite Hn.
  destruct (unpad_vision_block _ _) as [b| |]; [|done..]. destruct (command b); [|done..].
  destruct (next_frame_len_cases uid raw seen Hu) as [He|[[e He]|(m & Hm & He)]];
    [congruence|specialize (He []); rewrite app_nil_r in He; congruence|].
  specialize (He []). rewrite app_nil_r in He. assert (m = n) as -> by congruence.
  unfold unframe. rewrite (unframe_fuel (length raw) (S (length (drop (Z.to_nat n) raw))))
    by (try done; rewrite ?length_drop; unfold len in *; lia).
  unfold prepend. by destruct (unframe_loop _ _ _ _).
Qed.

(** ** No panics *)

Lemma try_from_no_panic b : VisionCommand_try_from b <> Panic.
Proof. unfold VisionCommand_try_from. by repeat case_if. Qed.

Lemma parse_header_spec padded offset :
  0 <= offset ->
  match parse_header padded offset with
  | Ok h => offset + 5 <= len padded /\ 0 <= content_len h /\ content_len h + 5 <= total_len h
  | Err _ => True
  | Panic => False
  end.
Proof.
  intros Ho. unfold parse_header, HEADER_LEN. case_if; [done|]. unbool.
  destruct (@index_some VisionError _ padded offset) as [b0 ->]; [lia|].
  destruct (@index_some VisionError _ padded (offset + 1)) as [b1 ->]; [lia|].
  destruct (@index_some VisionError _ padded (offset + 2)) as [b2 ->]; [lia|].
  destruct (@index_some VisionError _ padded (offset + 3)) as [b3 ->]; [lia|].
  destruct (@index_some VisionError _ padded (offset + 4)) as [b4 ->]; [lia|].
  cbn [res_bind]. pose proof (try_from_no_panic b0).
  destruct (VisionCommand_try_from b0); [|done..]. cbn [res_bind content_len total_len].
  pose proof (from_be_pair b1 b2). pose proof (from_be_pair b3 b4). lia.
Qed.

Lemma unpad_no_panic padded uid : unpad_vision_block padded uid <> Panic.
Proof.
  unfold unpad_vision_block. case_if; [done|].
  assert (block_offset padded uid <> Panic
    /\ forall o, block_offset padded uid = Ok o -> 0 <= o) as [Hp Ho].
  { unfold block_offset. pose proof (parse_header_spec padded 0 ltac:(lia)).
    destruct (parse_header padded 0) as [h|e|]; [| |done];
      (destruct (get_range _ _ _); [case_if|]); repeat case_if; try destruct e;
      repeat case_if; (split; [done|]; intros; simplify_eq/=; unfold USER_ID_LEN; lia). }
  destruct (block_offset padded uid) as [o| |]; [|done..]. cbn [res_bind].
  specialize (Ho o eq_refl). pose proof (parse_header_spec padded o Ho) as Hh.
  destruct (parse_header padded o) as [h| |]; [|done..]. cbn [res_bind]. case_if; [done|]. unbool.
  unfold HEADER_LEN. destruct (slice _ _ _) eqn:E; [done..|]. cbn [res_bind].
  exfalso. revert E. apply slice_no_panic; lia.
Qed.

Lemma filter_hello_ok f packet : exists f', filter_hello f packet = Ok f'.
Proof.
  unfold filter_hello. case_if; [eauto|]. unbool.
  destruct (@slice Empty_set _ packet 0 3) as [h3|[]|] eqn:E3;
    [|by destruct (@slice_no_panic Empty_set _ packet 0 3 ltac:(lia) ltac:(lia))].
  destruct (@slice Empty_set _ packet 0 2) as [h2|[]|] eqn:E2;
    [|by destruct (@slice_no_panic Empty_set _ packet 0 2 ltac:(lia) ltac:(lia))].
  destruct (@index_some Empty_set _ packet 3) as [b3 ->]; [lia|].
  destruct (@index_some Empty_set _ packet 4) as [b4 ->]; [lia|].
  destruct (@index_some Empty_set _ packet 5) as [b5 ->]; [lia|]. cbn [res_bind].
  case_if; [|case_if; eauto]. cbv zeta. destruct ((79 <=? len packet) && _) eqn:E79; [|eauto].
  unbool. destruct (@index_some Empty_set _ packet 43) as [sid ->]; [lia|]. cbn [res_bind].
  pose proof (u8_range sid). case_if; [|eauto]. unbool.
  destruct (@index_some Empty_set _ packet (43 + u8 sid + 1)) as [c0 ->]; [lia|].
  destruct (@index_some Empty_set _ packet (43 + u8 sid + 1 + 1)) as [c1 ->]; [lia|].
  cbn [res_bind]. eauto.
Qed.

Lemma filter_ok f packet : exists f', filter_tls_packet f packet = Ok f'.
Proof.
  unfold filter_tls_packet. case_if; [eauto|].
  destruct (filter_hello_ok (mkFilter (packets_to_filter f - 1) (enable_xtls f)
    (is_tls12_or_above f) (is_tls f) (cipher f) (remaining_server_hello f)) packet) as [g ->].
  cbn [res_bind]. destruct (0 <? remaining_server_hello g) eqn:E; [|eauto]. unbool. cbv zeta.
  pose proof (len_nonneg packet).
  destruct (@slice Empty_set _ packet 0 _) as [h|[]|] eqn:Es.
  - cbn [res_bind]. repeat case_if; eauto.
  - revert Es. by intros []%slice_no_panic; lia.
Qed.

(** ** Reads refine the reference reader *)

Context `{Laws : !VisionStreamIoLaws T}.

(** What is still to be delivered. *)
Definition view (v : VisionStream T) : list byte * Mode :=
  let r := rd v in
  if padding_read_mode r then
    prepend (decoded_read r)
      (unframe (user_id v) (inbound_user_id_seen r) (raw_read r ++ unread (inner v)))
  else (decoded_read r ++ unread (inner v), Plain).

Definition rd_ok (v : VisionStream T) : Prop :=
  len (user_id v) = 16
  /\ (padding_read_mode (rd v) = false -> raw_read (rd v) = [])
  /\ (direct_read_mode (rd v) = true -> padding_read_mode (rd v) = false)
  /\ (inner_eof (rd v) = true -> unread (inner v) = []).

Definition kept (v v' : VisionStream T) : Prop :=
  user_id v' = user_id v /\ wr v' = wr v /\ taken (inner v') = taken (inner v).

Lemma decode_spec v :
  rd_ok v -> padding_read_mode (rd v) = true ->
  match decode_next_frame v with
  | (Ok true, v') =>
    rd_ok v' /\ view v' = view v /\ kept v v' /\ unread (inner v') = unread (inner v)
    /\ (length (raw_read (rd v')) < length (raw_read (rd v)))%nat
  | (Ok false, v') =>
    v' = v /\ next_frame_len (user_id v) (raw_read (rd v)) (inbound_user_id_seen (rd v)) = Ok None
  | (Err (InvalidData _), v') => snd (view v) = Broken /\ kept v v'
  | _ => False
  end.
Proof.
  intros (Hu & Hraw & Hdir & Heof) Hpad. unfold decode_next_frame.
  destruct (next_frame_len_cases (user_id v) (raw_read (rd v)) (inbound_user_id_seen (rd v)) Hu)
    as [E|[[e He]|(n & Hn & He)]].
  - by rewrite E.
  - pose proof (He []) as E. rewrite app_nil_r in E. rewrite E. split; [|done].
    unfold view. rewrite Hpad. unfold unframe. cbn [unframe_loop]. by rewrite He.
  - pose proof (He []) as E. rewrite app_nil_r in E. rewrite E.
    pose proof (unframe_step _ _ _ _ Hu (He (unread (inner v)))) as Hstep.
    rewrite take_app_le, drop_app_le in Hstep by (unfold len in *; lia).
    pose proof (unpad_no_panic (take (Z.to_nat n) (raw_read (rd v))) (user_id v)) as Hnp.
    destruct (unpad_vision_block _ _) as [b|e|]; cbn [vision_to_io res_map_err]; [| |done].
    2: { unfold view. rewrite Hpad, Hstep. done. }
    destruct (filter_ok (tls v) (payload b)) as [f ->].
    assert ((length (drop (Z.to_nat n) (raw_read (rd v))) < length (raw_read (rd v)))%nat) as Hlt
      by (rewrite length_drop; unfold len in *; lia).
    destruct (release_law (inner v)) as [Hr1 Hr2].
    unfold view. rewrite Hpad, Hstep. unfold kept, rd_ok.
    destruct (command b); simpl.
    + rewrite prepend_app. split_and!; try done. intros Hd. by rewrite <- Hpad, <- Hdir.
    + rewrite Hr1, Hr2. split_and!; try done; [|unfold len in *; lia].
      unfold prepend. simpl. by rewrite !app_assoc.
    + split_and!; try done; [|unfold len in *; lia]. unfold prepend. simpl. by rewrite !app_assoc.
Qed.

Definition read_post (v : VisionStream T) (n : Z)
    (p : poll (res (IoError io_error) (list byte)) * VisionStream T) : Prop :=
  kept v (snd p)
  /\ match fst p with
     | Ready (Ok bs) =>
       rd_ok (snd p) /\ view v = prepend bs (view (snd p)) /\ len bs <= n
       /\ (bs = [] -> fst (view (snd p)) = [])
     | Ready (Err (InvalidData _)) => snd (view v) = Broken
     | Ready (Err UnexpectedEof) => exists l, snd (view v) = Padded l /\ l <> []
     | Ready (Err (InnerError _)) => True
     | Ready (Err WriteZero) | Ready Panic => False
     | Pending => rd_ok (snd p) /\ view (snd p) = view v
     end.

Lemma fill_output_spec v n bytes v' :
  fill_output v n = (bytes, v') -> rd_ok v -> 0 <= n ->
  rd_ok v' /\ kept v v' /\ view v = prepend bytes (view v') /\ len bytes <= n
  /\ (bytes = [] -> 0 < n -> decoded_read (rd v') = []) /\ unread (inner v') = unread (inner v)
  /\ raw_read (rd v') = raw_read (rd v) /\ padding_read_mode (rd v') = padding_read_mode (rd v).
Proof.
  unfold fill_output. intros [= <- <-] Hok Hn. pose proof (len_nonneg (decoded_read (rd v))) as Hd.
  set (k := Z.to_nat _). split_and!; try done.
  - unfold view, prepend. simpl. case_if; simpl; by rewrite app_assoc, take_drop.
  - unfold k, len. rewrite length_take. unfold len in *. lia.
  - simpl. intros E Hn'. apply (f_equal length) in E. rewrite length_take in E. simpl in E.
    apply nil_length_inv. rewrite length_drop. unfold k, len in *. lia.
Qed.

Lemma read_ok_pass v n (p : poll (res io_error (list byte)) * T) :
  rd_ok v -> padding_read_mode (rd v) = false -> decoded_read (rd v) = [] ->
  read_ok (inner v) n p -> read_post v n (pass_through v p).
Proof.
  intros (Hu & Hraw & Hdir & Heof) Hpad Hdec [Ht Hp]. unfold read_post, pass_through.
  split; [done|]. destruct p as [[[bs|e|]|] s]; simpl in *; try done.
  - destruct Hp as (Hun & Hlen & Hnil). split; [|split; [|split; [done|]]].
    + split_and!; try done. intros He. specialize (Heof He). rewrite Hun in Heof.
      by apply app_eq_nil in Heof as [_ ?].
    + unfold view, prepend. simpl. rewrite Hpad, Hdec, Hun. done.
    + intros ->. unfold view. simpl. rewrite Hpad, Hdec. simpl. specialize (Hnil eq_refl).
      by rewrite Hun in Hnil.
  - unfold view. simpl. rewrite Hpad, Hp. split; [|done]. split_and!; try done. simpl. by rewrite Hp.
Qed.

Lemma read_plain_spec v n p :
  read_plain v n = Some p -> rd_ok v -> decoded_read (rd v) = [] -> 0 < n -> read_post v n p.
Proof.
  unfold read_plain. intros Hp Hok Hdec Hn. pose proof Hok as (_ & _ & Hdir & _).
  destruct (direct_read_mode (rd v)); [|destruct (padding_read_mode (rd v)) eqn:E; [done|]];
    simplify_eq/=; apply read_ok_pass; try by auto using poll_read_direct_law.
  by apply poll_read_law.
Qed.

Lemma read_post_trans v v1 n p :
  kept v v1 -> view v = view v1 -> read_post v1 n p -> read_post v n p.
Proof.
  intros (K1 & K2 & K3) Ev [(J1 & J2 & J3) Hp]. unfold read_post, kept. rewrite Ev.
  split; [|done]. split_and!; congruence.
Qed.

Lemma with_raw_view v s filled :
  rd_ok v -> padding_read_mode (rd v) = true -> unread (inner v) = filled ++ unread s ->
  inner_eof (rd v) = false -> taken s = taken (inner v) ->
  let v' := with_raw (set_inner v s) (raw_read (rd v) ++ filled) (inner_eof (rd v)) in
  rd_ok v' /\ view v = view v' /\ kept v v'.
Proof.
  intros (Hu & Hraw & Hdir & Heof) Hpad Hun He Ht v'. subst v'.
  split; [|split; [|done]].
  - split_and!; simpl; try done; congruence.
  - unfold view. simpl. by rewrite Hpad, Hun, <- app_assoc.
Qed.

(** The read that finds the end of the transport. *)
Lemma read_eof v :
  rd_ok v -> padding_read_mode (rd v) = true -> decoded_read (rd v) = [] ->
  unread (inner v) = [] ->
  next_frame_len (user_id v) (raw_read (rd v)) (inbound_user_id_seen (rd v)) = Ok None ->
  view v = ([], Padded (raw_read (rd v))).
Proof.
  intros Hok Hpad Hdec Hun Hn. unfold view. rewrite Hpad, Hdec, Hun, app_nil_r, prepend_nil.
  unfold unframe. cbn [unframe_loop]. by rewrite Hn.
Qed.

Lemma read_loop_spec fuel v n :
  rd_ok v -> padding_read_mode (rd v) = true -> decoded_read (rd v) = [] -> 0 < n ->
  (length (raw_read (rd v)) + 2 * length (unread (inner v)) < fuel)%nat ->
  read_post v n (read_loop fuel v n).
Proof.
  revert v. induction fuel as [|fuel IH]; intros v Hok Hpad Hdec Hn Hfuel; [lia|]. cbn [read_loop].
  pose proof (decode_spec v Hok Hpad) as Hd.
  destruct (decode_next_frame v) as [[[]|e|] v1]; [| |by destruct e; [destruct Hd as [? ?]; split|..]|done].
  - destruct Hd as (Hok1 & Hv1 & Hk1 & Hun1 & Hlt1).
    destruct (fill_output v1 n) as [bytes v2] eqn:Ef.
    destruct (fill_output_spec v1 n bytes v2 Ef Hok1 ltac:(lia))
      as (Hok2 & Hk2 & Hv2 & Hb2 & Hd2 & Hun2 & Hraw2 & Hpad2).
    destruct (negb _ || _) eqn:Eb.
    + apply read_post_trans with v1; [done|done|]. split; [done|]. simpl. split_and!; try done.
      intros ->. rewrite len_nil in Eb. apply orb_true_iff in Eb as [?|?]; unbool; [done|lia].
    + unbool. subst bytes. rewrite prepend_nil in Hv2. specialize (Hd2 eq_refl Hn).
      apply read_post_trans with v1; [done|done|]. apply read_post_trans with v2; [done|done|].
      destruct (read_plain v2 n) as [p|] eqn:Ep; [by apply read_plain_spec|].
      apply IH; try done; [|rewrite Hraw2, Hun2, Hun1; lia].
      revert Ep. unfold read_plain. case_if; [done|]. by destruct (padding_read_mode (rd v2)).
  - destruct Hd as [-> Hnone]. destruct (inner_eof (rd v)) eqn:Ee.
    { pose proof Hok as (_ & _ & _ & He). specialize (He Ee). pose proof (len_nonneg (@nil byte)).
      pose proof (read_eof v Hok Hpad Hdec He Hnone) as Ev. split; [done|]. simpl.
      rewrite prepend_nil. split_and!; try done; [by len_simpl; lia|]. by rewrite Ev. }
    pose proof (poll_read_law (inner v) READ_CHUNK_LEN ltac:(done)) as [Ht Hr].
    destruct (io_poll_read (inner v) READ_CHUNK_LEN) as [[[filled|e|]|] s]; simpl in Ht, Hr; try done.
    + destruct Hr as (Hun & _ & Hnil). case_if; unbool.
      * subst filled. specialize (Hnil eq_refl). simpl in Hun. rewrite Hun in Hnil.
        pose proof (read_eof v Hok Hpad Hdec ltac:(congruence) Hnone) as Ev.
        destruct Hok as (Hu & Hraw & Hdir & Heof).
        case_if; unbool; simpl in *; (split; [done|]); simpl; [|by rewrite Ev; eauto].
        assert (view (with_raw (set_inner v s) (raw_read (rd v)) true) = view v) as Hvv
          by (unfold view; simpl; by rewrite Hnil, Hun, Hnil).
        rewrite prepend_nil, Hvv, Ev. split_and!; try done; len_simpl; lia.
      * destruct (with_raw_view v s filled Hok Hpad Hun Ee Ht) as (Hok' & Hv' & Hk').
        eapply read_post_trans; [exact Hk'|exact Hv'|].
        cbn [rd set_inner]. rewrite Ee in *. apply IH; try done. cbn [rd raw_read with_raw set_rd inner set_inner].
        rewrite Hun, length_app in Hfuel. rewrite length_app. destruct filled; [done|]. simpl in *. lia.
    + split; [done|]. simpl. destruct Hok as (Hu & Hraw & Hdir & Heof).
      unfold view. simpl. rewrite Hr. split; [|done]. split_and!; try done. simpl. by rewrite Hr.
Qed.

Lemma poll_read_spec v n : rd_ok v -> 0 < n -> read_post v n (poll_read v n).
Proof.
  intros Hok Hn. unfold poll_read. destruct (fill_output v n) as [bytes v2] eqn:Ef.
  destruct (fill_output_spec v n bytes v2 Ef Hok ltac:(lia))
    as (Hok2 & Hk2 & Hv2 & Hb2 & Hd2 & Hun2 & Hraw2 & Hpad2).
  destruct (negb _ || _) eqn:Eb.
  - split; [done|]. simpl. split_and!; try done.
    intros ->. rewrite len_nil in Eb. apply orb_true_iff in Eb as [?|?]; unbool; [done|lia].
  - unbool. subst bytes. rewrite prepend_nil in Hv2. specialize (Hd2 eq_refl Hn).
    apply read_post_trans with v2; [done|done|].
    destruct (read_plain v2 n) as [p|] eqn:Ep; [by apply read_plain_spec|].
    apply read_loop_spec; try done; [|unfold read_fuel; lia].
    revert Ep. unfold read_plain. case_if; [done|]. by destruct (padding_read_mode (rd v2)).
Qed.

(** ** Frames *)

Definition body (c : VisionCommand) (bytes : list byte) (n : Z) : list byte :=
  [command_byte c] ++ be_bytes 2 (len bytes) ++ be_bytes 2 n ++ bytes
  ++ replicate (Z.to_nat n) (to_u8 0).

Definition frame (uid : list byte) (seen : bool) (c : VisionCommand) (bytes : list byte) (n : Z)
    : list byte :=
  (if seen then [] else uid) ++ body c bytes n.

Lemma len_body c bytes n : 0 <= n -> len (body c bytes n) = 5 + len bytes + n.
Proof.
  intros. unfold body. len_simpl.
  assert (len (replicate (Z.to_nat n) (to_u8 0)) = n) as -> by (unfold len; rewrite length_replicate; lia).
  lia.
Qed.

Lemma try_from_command c : VisionCommand_try_from (command_byte c) = Ok c.
Proof. by destruct c. Qed.

Lemma u16_pair z : in_u16 z -> exists b1 b2, be_bytes 2 z = [b1; b2] /\ from_be [b1; b2] = z.
Proof.
  intros Hz. do 2 eexists. split; [done|].
  change (from_be (be_bytes 2 z) = z). by rewrite from_be_bytes_small.
Qed.

(** The five header bytes at the start of a body. *)
Lemma body_head c bytes n :
  in_u16 (len bytes) -> in_u16 n ->
  exists b1 b2 b3 b4 rest, body c bytes n = command_byte c :: b1 :: b2 :: b3 :: b4 :: rest
    /\ from_be [b1; b2] = len bytes /\ from_be [b3; b4] = n
    /\ rest = bytes ++ replicate (Z.to_nat n) (to_u8 0).
Proof.
  intros H1 H2. unfold body. destruct (u16_pair _ H1) as (b1 & b2 & -> & E1).
  destruct (u16_pair _ H2) as (b3 & b4 & -> & E2). by do 5 eexists.
Qed.

Lemma next_frame_body uid pre c bytes n Y seen :
  in_u16 (len bytes) -> in_u16 n ->
  next_frame_offset uid (pre ++ body c bytes n ++ Y) seen = Some (len pre) ->
  next_frame_len uid (pre ++ body c bytes n ++ Y) seen = Ok (Some (len (pre ++ body c bytes n))).
Proof.
  intros Hb Hn Ho. pose proof Hn as [Hn0 _]. pose proof (len_body c bytes n Hn0) as Hl.
  pose proof (len_nonneg bytes). pose proof (len_nonneg Y).
  unfold next_frame_len. rewrite Ho. unfold HEADER_LEN.
  guard_false by (rewrite !len_app; lia).
  destruct (body_head c bytes n Hb Hn) as (b1 & b2 & b3 & b4 & rest & E & E1 & E2 & _).
  assert (forall i (x : byte), 0 <= i -> @index (IoError io_error) _ (body c bytes n ++ Y) i = Ok x ->
    @index (IoError io_error) _ (pre ++ body c bytes n ++ Y) (len pre + i) = Ok x) as Hi
    by (intros; by rewrite index_app_r).
  pose proof (Hi 0 (command_byte c) ltac:(lia) ltac:(by rewrite E)) as I0.
  rewrite Z.add_0_r in I0. rewrite I0.
  rewrite (Hi 1 b1), (Hi 2 b2), (Hi 3 b3), (Hi 4 b4) by (lia || by rewrite E).
  cbn [res_bind]. rewrite try_from_command. cbn [vision_to_io res_map_err res_bind].
  rewrite E1, E2. guard_false by (rewrite !len_app; lia). rewrite len_app, Hl. do 2 f_equal. lia.
Qed.

Lemma len_frame uid seen c bytes n :
  len uid = 16 -> 0 <= n -> len (frame uid seen c bytes n) = (if seen then 0 else 16) + 5 + len bytes + n.
Proof.
  intros Hu Hn. unfold frame. rewrite len_app, len_body by done. destruct seen; [done|].
  rewrite Hu. lia.
Qed.

Lemma next_frame_frame uid seen c bytes n Y :
  len uid = 16 -> in_u16 (len bytes) -> in_u16 n ->
  next_frame_len uid (frame uid seen c bytes n ++ Y) seen
  = Ok (Some (len (frame uid seen c bytes n))).
Proof.
  intros Hu Hb Hn. unfold frame. rewrite <- app_assoc. apply next_frame_body; [done..|].
  destruct (body_head c bytes n Hb Hn) as (b1 & b2 & b3 & b4 & rest & E & _).
  unfold next_frame_offset, USER_ID_LEN. destruct seen; [by rewrite E|].
  rewrite bool_decide_eq_false_2 by (intros [_ ?]%app_eq_nil; by rewrite E in *).
  guard_false by (rewrite len_app; pose proof (len_nonneg (body c bytes n ++ Y)); lia).
  replace (Z.to_nat 16) with (length uid) by (unfold len in Hu; lia).
  rewrite take_app_length, bool_decide_eq_true_2 by done. by rewrite Hu.
Qed.

Lemma parse_header_body pre c bytes n :
  in_u16 (len bytes) -> in_u16 n ->
  parse_header (pre ++ body c bytes n) (len pre) = Ok (mkHeader c (len bytes) (5 + len bytes + n)).
Proof.
  intros Hb Hn. pose proof Hn as [Hn0 _]. pose proof (len_nonneg bytes).
  unfold parse_header, HEADER_LEN. guard_false by (rewrite len_app, len_body by done; lia).
  destruct (body_head c bytes n Hb Hn) as (b1 & b2 & b3 & b4 & rest & E & E1 & E2 & _).
  assert (forall i (x : byte), 0 <= i -> @index VisionError _ (body c bytes n) i = Ok x ->
    @index VisionError _ (pre ++ body c bytes n) (len pre + i) = Ok x) as Hi
    by (intros; by rewrite index_app_r).
  pose proof (Hi 0 (command_byte c) ltac:(lia) ltac:(by rewrite E)) as I0.
  rewrite Z.add_0_r in I0. rewrite I0.
  rewrite (Hi 1 b1), (Hi 2 b2), (Hi 3 b3), (Hi 4 b4) by (lia || by rewrite E).
  cbn [res_bind]. rewrite try_from_command. cbn [res_bind]. by rewrite E1, E2.
Qed.

(** A user id that cannot be taken for the start of a frame. *)
Definition no_frame_start (uid : list byte) : Prop :=
  exists b rest, uid = b :: rest /\ 3 <= u8 b.

Lemma body_not_user_id uid c bytes n :
  no_frame_start uid -> in_u16 (len bytes) -> in_u16 n -> take 16 (body c bytes n) <> uid.
Proof.
  intros (b & rest & -> & H3) Hb Hn. destruct (body_head c bytes n Hb Hn) as (b1 & b2 & b3 & b4 & rs & E & _).
  rewrite E. intros E2. injection E2 as Eb _. subst b. revert H3. by destruct c.
Qed.

Lemma unpad_frame uid seen c bytes n :
  len uid = 16 -> (seen = true -> take 16 (body c bytes n) <> uid) -> in_u16 (len bytes) -> in_u16 n ->
  unpad_vision_block (frame uid seen c bytes n) uid = Ok (mkBlock c bytes).
Proof.
  intros Hu Hs Hb Hn. pose proof Hn as [Hn0 _]. pose proof (len_nonneg bytes).
  pose proof (len_frame uid seen c bytes n Hu Hn0) as Hl.
  unfold unpad_vision_block, HEADER_LEN. guard_false by (rewrite Hl; destruct seen; lia).
  set (pre := if seen then [] else uid).
  assert (block_offset (frame uid seen c bytes n) uid = Ok (len pre)) as ->.
  { unfold block_offset, USER_ID_LEN, HEADER_LEN.
    pose proof (parse_header_body [] c bytes n Hb Hn
      : parse_header (body c bytes n) 0 = _) as Hp.
    destruct seen.
    - unfold frame. simpl ([] ++ _). rewrite Hp. cbn [total_len].
      rewrite len_body, Z.eqb_refl by done. unfold get_range. case_if; [|done].
      rewrite drop_0. change (Z.to_nat (16 - 0)) with 16%nat. rewrite bool_decide_eq_false_2; [done|]. by apply Hs.
    - unfold get_range, frame. guard_true by (rewrite len_app, Hu; pose proof (len_nonneg (body c bytes n)); lia).
      rewrite drop_0. change (Z.to_nat (16 - 0)) with 16%nat.
      replace 16%nat with (length uid) by (unfold len in Hu; lia).
      by rewrite take_app_length, bool_decide_eq_true_2, <- Hu. }
  cbn [res_bind]. unfold frame in *. fold pre. fold pre in Hl. rewrite parse_header_body by done.
  cbn [res_bind total_len content_len h_command]. rewrite len_app, len_body in * by done.
  guard_false by lia.
  rewrite (slice_eq (pre ++ [command_byte c] ++ be_bytes 2 (len bytes) ++ be_bytes 2 n) bytes
    (replicate (Z.to_nat n) (to_u8 0))).
  - done.
  - unfold body. by rewrite <- !app_assoc.
  - len_simpl. lia.
  - done.
Qed.

(** The reference reader on a stream that starts with a frame. *)
Lemma unframe_frame uid seen c bytes n Y :
  len uid = 16 -> (seen = true -> no_frame_start uid) -> in_u16 (len bytes) -> in_u16 n ->
  unframe uid seen (frame uid seen c bytes n ++ Y)
  = match c with
    | Continue => prepend bytes (unframe uid true Y)
    | _ => (bytes ++ Y, Plain)
    end.
Proof.
  intros Hu Hs Hb Hn. rewrite (unframe_step _ _ _ _ Hu (next_frame_frame uid seen c bytes n Y Hu Hb Hn)).
  unfold len. rewrite Nat2Z.id, take_app_length, drop_app_length, unpad_frame
    by (try done; intros E; by apply body_not_user_id; auto). by destruct c.
Qed.

(** A frame whose first bytes are the user id is read from behind them, so its payload is cut short
    by at least sixteen bytes, but for what its padding makes up. *)
Lemma unpad_collision uid c bytes n :
  len uid = 16 -> in_u16 (len bytes) -> in_u16 n -> take 16 (body c bytes n) = uid ->
  match unpad_vision_block (body c bytes n) uid with
  | Ok b => len (payload b) <= len bytes + n - 16
  | Err _ => True
  | Panic => False
  end.
Proof.
  intros Hu Hb Hn E. pose proof (unpad_no_panic (body c bytes n) uid) as Hnp. revert Hnp. pose proof (len_body c bytes n (proj1 Hn)) as Hl.
  assert (16 <= len (body c bytes n)) as H16.
  { assert (length (take 16 (body c bytes n)) = 16%nat) as Ht by (rewrite E; unfold len in Hu; lia). rewrite length_take in Ht. unfold len. lia. }
  unfold unpad_vision_block, HEADER_LEN. guard_false by lia.
  assert (block_offset (body c bytes n) uid = Ok 16) as ->.
  { unfold block_offset, get_range, USER_ID_LEN. cbv zeta. guard_true by lia. rewrite drop_0. change (Z.to_nat (16 - 0)) with 16%nat.
    by rewrite bool_decide_true. }
  cbn [res_bind]. pose proof (parse_header_spec (body c bytes n) 16 ltac:(lia)) as Hh.
  destruct (parse_header (body c bytes n) 16) as [h| |]; [|done..]. cbn [res_bind]. case_if; [done|]. unbool.
  destruct (slice _ _ _) as [p| |] eqn:Es; cbn [res_bind]; [|done..]. intros _. cbn [payload].
  pose proof (slice_len _ _ _ _ Es). lia.
Qed.

End Reading.

(** ** Writes keep the frame format *)

Definition draw_ok (draw : Z -> Z) : Prop := forall u, 0 < u -> 0 <= draw u < u.

Definition seed_ok (s : VisionSeed) : Prop :=
  in_u32 (seed0 s) /\ in_u32 (seed1 s) /\ in_u32 (seed2 s) /\ in_u32 (seed3 s).

Lemma padding_len_range p draw n long :
  draw_ok draw -> seed_ok (seed p) -> in_u16 (padding_len p draw n long 0).
Proof.
  intros Hd (_ & H1 & _ & H3).
  assert (forall u, in_u32 u -> 0 <= random_padding_len draw u) as Hr.
  { intros u Hu. unfold random_padding_len. case_if; unbool; [lia|]. apply Hd. unfold in_u32 in Hu. lia. }
  pose proof (Hr _ H1). pose proof (Hr _ H3). unfold padding_len, in_u16, MAX_CONTENT_LEN, u16_max, u64_max.
  cbn [negb Z.eqb]. case_if; lia.
Qed.

Lemma tls_records_ok fuel input offset :
  0 <= offset -> (Z.to_nat (len input - offset) < fuel)%nat ->
  exists b, tls_records_loop fuel input offset = Ok b.
Proof.
  revert offset. induction fuel as [|fuel IH]; intros offset Ho Hf; [lia|]. cbn [tls_records_loop].
  case_if; [|eauto]. unbool. unfold HEADER_LEN. case_if; [eauto|]. unbool.
  destruct (@slice Empty_set _ input offset (offset + 3)) as [h|[]|] eqn:E;
    [|by destruct (@slice_no_panic Empty_set _ input offset (offset + 3) ltac:(lia) ltac:(lia))].
  cbn [res_bind]. case_if; [eauto|].
  destruct (@index_some Empty_set _ input (offset + 3)) as [b3 ->]; [lia|].
  destruct (@index_some Empty_set _ input (offset + 4)) as [b4 ->]; [lia|]. cbn [res_bind].
  pose proof (from_be_pair b3 b4). case_if; [eauto|]. unbool. apply IH; lia.
Qed.

#[local] Arguments unframe : simpl never.

Section Writing.
Context {T : Type} `{Ai : AsyncIo T} `{Io : !VisionStreamIo T} `{Laws : !VisionStreamIoLaws T}.

(** Everything written: what the transport took and what it is still to take. *)
Definition wire (v : VisionStream T) : list byte := taken (inner v) ++ pending_write (wr v).

Definition closing (w : WriteSide) : bool :=
  pending_direct_write_mode w || pending_end_write_mode w || negb (padding_write_mode w).

(** The written bytes are read back as [h]. *)
Definition wr_ok (v : VisionStream T) (h : list byte) : Prop :=
  let w := wr v in
  vp_user_id (padding w) = user_id v /\ len (user_id v) = 16 /\ no_frame_start (user_id v)
  /\ seed_ok (seed (padding w)) /\ 0 <= pending_write_len w
  /\ (padding_write_mode w = false ->
      pending_write w = [] /\ pending_direct_write_mode w = false /\ pending_end_write_mode w = false)
  /\ (direct_write_mode w = true -> padding_write_mode w = false)
  /\ pending_direct_write_mode w && pending_end_write_mode w = false
  /\ forall Y, unframe (user_id v) false (wire v ++ Y)
      = if closing w then (h ++ Y, Plain)
        else prepend h (unframe (user_id v) (user_id_emitted (padding w)) Y).

(** A step that leaves the read side alone. *)
Definition wrote (v v' : VisionStream T) : Prop :=
  user_id v' = user_id v /\ rd v' = rd v /\ unread (inner v') = unread (inner v).

Lemma wrote_trans v1 v2 v3 : wrote v1 v2 -> wrote v2 v3 -> wrote v1 v3.
Proof. intros (? & ? & ?) (? & ? & ?). split_and!; congruence. Qed.

Lemma drain_loop_spec fuel v :
  (length (pending_write (wr v)) <= fuel)%nat ->
  exists b s, snd (drain_loop fuel v) = with_pending (set_inner v s) b
  /\ unread s = unread (inner v) /\ taken s ++ b = wire v
  /\ match fst (drain_loop fuel v) with
     | Ready (Ok _) => b = []
     | Ready Panic => False
     | _ => pending_write (wr v) <> []
     end.
Proof.
  revert v. induction fuel as [|fuel IH]; intros v Hf; cbn [drain_loop].
  - destruct (pending_write (wr v)) eqn:E; [|simpl in Hf; lia].
    exists [], (inner v). simpl. unfold wire. rewrite E. split_and!; try done.
    unfold with_pending, set_inner, set_wr. rewrite <- E. by destruct v as [? ? ? [] ?].
  - case_if; unbool.
    { exists [], (inner v). simpl. unfold wire. rewrite Heqb. split_and!; try done.
      unfold with_pending, set_inner, set_wr. rewrite <- Heqb. by destruct v as [? ? ? [] ?]. }
    pose proof (poll_write_law (inner v) (pending_write (wr v))) as [Hun Hw].
    destruct (io_poll_write _ _) as [[[n|e|]|] s]; simpl in Hun, Hw; try done.
    + destruct Hw as [Hn Ht]. case_if; unbool.
      { subst n. exists (pending_write (wr v)), s. simpl. unfold wire. rewrite Ht. simpl.
        rewrite app_nil_r. split_and!; try done. by destruct v as [? ? ? [] ?]. }
      guard_false by (simpl; lia). cbn [wr set_inner].
      destruct (IH (with_pending (set_inner v s) (drop (Z.to_nat n) (pending_write (wr v)))))
        as (b & s' & E & Hu & Hwire & Hr).
      { simpl. rewrite length_drop. unfold len in *. lia. }
      exists b, s'. rewrite E, Hu, Hwire. split_and!; try done.
      * unfold wire. simpl. rewrite Ht, <- app_assoc, take_drop. done.
      * destruct (fst (drain_loop _ _)) as [[]|]; done.
    + exists (pending_write (wr v)), s. simpl. unfold wire. rewrite Hw. split_and!; try done.
      by destruct v as [? ? ? [] ?].
    + exists (pending_write (wr v)), s. simpl. unfold wire. rewrite Hw. split_and!; try done.
      by destruct v as [? ? ? [] ?].
Qed.

Lemma wr_ok_inner v h s : wr_ok v h -> taken s = taken (inner v) -> wr_ok (set_inner v s) h.
Proof. unfold wr_ok, wire. cbn. by intros W ->. Qed.

Lemma drain_ok v h :
  wr_ok v h ->
  let p := poll_drain_pending v in
  wrote v (snd p) /\ wr_ok (snd p) h /\ pending_write_len (wr (snd p)) = pending_write_len (wr v)
  /\ tls (snd p) = tls v
  /\ match fst p with
     | Ready (Ok _) => pending_write (wr (snd p)) = []
         /\ pending_direct_write_mode (wr (snd p)) = false
         /\ pending_end_write_mode (wr (snd p)) = false
     | Ready Panic => False
     | _ => True
     end.
Proof.
  intros (W1 & W2 & W3 & W4 & W5 & W6 & W7 & W8 & W9). cbv zeta. unfold poll_drain_pending.
  destruct (drain_loop_spec (length (pending_write (wr v))) v ltac:(lia)) as (b & s & E & Hu & Hw & Hr).
  destruct (drain_loop _ _) as [r v1]. simpl in E, Hr. subst v1.
  assert (wr_ok (with_pending (set_inner v s) b) h) as Hok.
  { unfold wr_ok, wire. cbn. rewrite Hw. split_and!; try done. intros Hp. specialize (W6 Hp).
    destruct W6 as (E & ? & ?). split_and!; try done.
    destruct r as [[]|]; [done|by rewrite E in Hr|done|by rewrite E in Hr]. }
  assert (wrote v (with_pending (set_inner v s) b)) as Hwr by done.
  destruct r as [[[]|e|]|]; [|by split_and!..]. subst b. rewrite app_nil_r in Hw. cbn.
  destruct (pending_direct_write_mode (wr v)) eqn:Epd.
  - simpl in W8. pose proof (poll_flush_law s) as (F1 & F2 & F3).
    destruct (io_poll_flush s) as [[[[]|e|]|] s']; simpl in F1, F2, F3; try done; cbn.
    + split_and!; try done; [unfold wrote; cbn; by rewrite F1, Hu|].
      unfold wr_ok, wire, closing. cbn. rewrite F2, app_nil_r, Hw. split_and!; try done.
      intros Y. rewrite W9. unfold closing. by rewrite Epd, W8.
    + split; [unfold wrote; cbn; by rewrite F1|]. split; [by apply wr_ok_inner|]. done.
    + split; [unfold wrote; cbn; by rewrite F1|]. split; [by apply wr_ok_inner|]. done.
  - destruct (pending_end_write_mode (wr v)) eqn:Epe; [|by rewrite ?Epd; split_and!]. cbn.
    split_and!; try done. unfold wr_ok, wire, closing. cbn. rewrite app_nil_r, Hw. split_and!; try done.
    intros Y. rewrite W9. unfold closing. by rewrite Epd, Epe.
Qed.

(** The stream with a frame queued and the flags that follow it. *)
Definition queued (v : VisionStream T) (bytes : list byte) (direct end_ : bool) : VisionStream T :=
  let w := wr v in
  set_wr v (mkWrite (mkPadding (vp_user_id (padding w)) (seed (padding w)) true)
              (pending_write w ++ bytes) (pending_write_len w) direct end_ (padding_write_mode w)
              (direct_write_mode w)).

Lemma closing_false w :
  closing w = false <->
  pending_direct_write_mode w = false /\ pending_end_write_mode w = false
  /\ padding_write_mode w = true.
Proof. unfold closing. rewrite !orb_false_iff, negb_false_iff. tauto. Qed.

Lemma queue_spec v h draw input c long :
  wr_ok v h -> closing (wr v) = false -> draw_ok draw -> len input <= MAX_CONTENT_LEN ->
  exists bytes, queue_padded_write v draw input c long = Ok (queued v bytes false false)
  /\ wr_ok (queued v bytes (bool_decide (c = Direct)) (bool_decide (c = End))) (h ++ input).
Proof.
  intros (W1 & W2 & W3 & W4 & W5 & W6 & W7 & W8 & W9) Hc Hd Hl.
  pose proof (proj1 (closing_false _) Hc) as (C1 & C2 & C3).
  set (n := padding_len (padding (wr v)) draw (len input) long 0).
  set (seen := user_id_emitted (padding (wr v))).
  exists (frame (user_id v) seen c input n).
  assert (in_u16 n) as Hn by by apply padding_len_range.
  assert (in_u16 (len input)) as Hin
    by (pose proof (len_nonneg input); unfold in_u16, MAX_CONTENT_LEN, u16_max in *; lia).
  split.
  - unfold queue_padded_write, pad_into_with_long_padding. guard_false by lia.
    cbn [vision_to_io res_map_err res_bind]. fold n seen. unfold queued. rewrite C1, C2.
    do 3 f_equal. unfold frame, body. rewrite W1. destruct seen; [done|]. by rewrite <- !app_assoc.
  - unfold wr_ok, queued, wire. cbn [wr set_wr padding vp_user_id seed user_id_emitted pending_write
      pending_write_len padding_write_mode direct_write_mode pending_direct_write_mode
      pending_end_write_mode user_id inner]. split_and!; try done; [congruence|by destruct c|].
    intros Y. specialize (W9 (frame (user_id v) seen c input n ++ Y)). rewrite Hc in W9.
    unfold wire in W9. rewrite <- app_assoc in W9.
    replace ((taken (inner v) ++ pending_write (wr v) ++ frame (user_id v) seen c input n) ++ Y)
      with (taken (inner v) ++ pending_write (wr v) ++ frame (user_id v) seen c input n ++ Y)
      by by rewrite <- !app_assoc.
    rewrite W9. fold seen.
    rewrite unframe_frame by done. unfold closing.
    cbn [padding_write_mode pending_direct_write_mode pending_end_write_mode]. rewrite C3.
    destruct c; cbn; [by rewrite prepend_app|..]; unfold prepend; simpl; by rewrite <- app_assoc.
Qed.

Lemma wr_ok_tls v h f : wr_ok v h -> wr_ok (set_tls v f) h.
Proof. done. Qed.

Lemma wr_ok_len v h n : wr_ok v h -> 0 <= n -> wr_ok (with_pending_len v n) h.
Proof. unfold wr_ok, wire. cbn. naive_solver. Qed.

Lemma queue_frame_spec v h draw input :
  wr_ok v h -> closing (wr v) = false -> draw_ok draw -> len input <= MAX_CONTENT_LEN ->
  exists bytes direct end_, queue_frame v draw input = Ok (queued v bytes direct end_)
  /\ wr_ok (queued v bytes direct end_) (h ++ input).
Proof.
  intros Hok Hc Hd Hl. unfold queue_frame.
  assert (exists b, (if is_tls (tls v)
    then match is_complete_tls_application_data_records input with Ok b => Ok b | _ => Panic end
    else Ok false) = @Ok (IoError io_error) _ b) as [records ->].
  { destruct (is_tls (tls v)); [|eauto]. unfold is_complete_tls_application_data_records.
    destruct (tls_records_ok (S (length input)) input 0) as [b ->]; [lia|unfold len; lia|]. eauto. }
  cbn [res_bind].
  assert (forall c long, exists bytes, queue_padded_write v draw input c long
    = Ok (queued v bytes false false)
    /\ wr_ok (queued v bytes (bool_decide (c = Direct)) (bool_decide (c = End))) (h ++ input)) as Hq
    by (intros; by apply queue_spec).
  repeat case_if;
    match goal with |- context [queue_padded_write v draw input ?c ?l] =>
      destruct (Hq c l) as (bytes & -> & Hw) end; eauto.
Qed.

(** What a write did: [done_] bytes of the input were taken in an earlier call. *)
Definition write_post (v : VisionStream T) (h input : list byte)
    (p : poll (res (IoError io_error) Z) * VisionStream T) : Prop :=
  wrote v (snd p)
  /\ match fst p with
     | Ready (Ok n) =>
       pending_write_len (wr (snd p)) = 0
       /\ if pending_write_len (wr v) =? 0
          then 0 <= n <= len input /\ wr_ok (snd p) (h ++ take (Z.to_nat n) input)
          else n = pending_write_len (wr v) /\ wr_ok (snd p) h
     | Ready Panic => False
     | Ready (Err _) => True
     | Pending =>
       (pending_write_len (wr (snd p)) = pending_write_len (wr v) /\ wr_ok (snd p) h)
       \/ (pending_write_len (wr v) = 0 /\ 0 < pending_write_len (wr (snd p)) <= len input
           /\ wr_ok (snd p) (h ++ take (Z.to_nat (pending_write_len (wr (snd p)))) input))
     end.

(** A write passed to the transport once the frames are over. *)
Lemma plain_write v h input p :
  wr_ok v h -> pending_write_len (wr v) = 0 -> padding_write_mode (wr v) = false ->
  write_ok (inner v) input p -> write_post v h input (pass_through v p).
Proof.
  intros Hok Hlen Hmode [Hu Hw]. unfold write_post, pass_through. cbn [fst snd].
  split; [unfold wrote; cbn; by rewrite Hu|]. rewrite Hlen.
  destruct p as [[[n|e|]|] s]; cbn [fst snd res_map_err] in *; try done.
  - destruct Hw as [Hn Ht]. split; [done|]. cbn [Z.eqb]. split; [done|].
    destruct Hok as (W1 & W2 & W3 & W4 & W5 & W6 & W7 & W8 & W9). split_and!; try done.
    intros Y. cbn. specialize (W9 (take (Z.to_nat n) input ++ Y)). destruct (W6 Hmode) as (E & C1 & C2).
    unfold wire, closing in *. cbn. rewrite E, Hmode, orb_true_r in *. cbn in W9. rewrite Ht.
    rewrite app_nil_r in *. rewrite <- !app_assoc. done.
  - left. split; [done|]. by apply wr_ok_inner.
Qed.

Lemma poll_write_spec v h draw input :
  wr_ok v h -> draw_ok draw -> write_post v h input (poll_write v draw input).
Proof.
  intros Hok Hd. unfold poll_write.
  set (p0 := if negb _ || _ || _ then _ else _).
  assert (wrote v (snd p0) /\ wr_ok (snd p0) h
    /\ pending_write_len (wr (snd p0)) = pending_write_len (wr v)
    /\ match fst p0 with
       | Ready (Ok _) => pending_write (wr (snd p0)) = []
         /\ pending_direct_write_mode (wr (snd p0)) = false
         /\ pending_end_write_mode (wr (snd p0)) = false
       | Ready Panic => False
       | _ => True
       end) as (Hwr & Hok0 & Hlen0 & Hr).
  { unfold p0. case_if; [|unbool; by split_and!].
    destruct (drain_ok v h Hok) as (? & ? & ? & _ & ?). by split_and!. }
  clearbody p0. destruct p0 as [[[[]|e|]|] v0]; cbn [fst snd] in *; cbn [ready]; [|by split|done|].
  2: { split; [done|]. left. by split. }
  destruct Hr as (R1 & R2 & R3). destruct (pending_write_len (wr v0) =? 0) eqn:El.
  2: { cbn [negb]. split; [done|]. cbn [fst snd]. split; [done|].
    rewrite <- Hlen0, El. split; [done|]. by apply wr_ok_len. }
  cbn [negb]. apply Z.eqb_eq in El.
  assert (forall p, write_post v0 h input p -> write_post v h input p) as Hup.
  { intros p [Hp1 Hp2]. split; [by eapply wrote_trans|]. by rewrite <- Hlen0. }
  apply Hup. pose proof Hok0 as (W1 & W2 & W3 & W4 & W5 & W6 & W7 & W8 & W9).
  destruct (direct_write_mode (wr v0)) eqn:Edir.
  { apply plain_write; auto using poll_write_direct_law. }
  destruct (padding_write_mode (wr v0)) eqn:Epad; cbn [negb].
  2: { apply plain_write; auto. apply poll_write_law. }
  destruct (bool_decide (input = [])) eqn:Ei; unbool.
  { subst input. split; [done|]. cbn [fst snd]. rewrite El. split; [done|]. cbn [Z.eqb].
    rewrite take_nil, app_nil_r. split; [unfold len; simpl; lia|done]. }
  set (k := Z.min (len input) MAX_CONTENT_LEN).
  assert (0 < k <= len input) as Hk.
  { unfold k, MAX_CONTENT_LEN, u16_max. pose proof (len_nonneg input).
    destruct (decide (len input = 0)) as [E%len_zero|]; [done|lia]. }
  set (part := take (Z.to_nat k) input).
  destruct (filter_ok (tls v0) part) as [f ->].
  destruct (queue_frame_spec (set_tls v0 f) h draw part) as (bytes & direct & end_ & -> & Hq); try done.
  { by apply closing_false. }
  { unfold part, k, len. rewrite length_take. unfold len in *. lia. }
  set (v1 := with_pending_len _ k).
  assert (wr_ok v1 (h ++ part)) as Hok1 by (apply wr_ok_len; [done|lia]).
  destruct (drain_ok v1 _ Hok1) as (D1 & D2 & D3 & _ & D4).
  assert (wrote v0 (snd (poll_drain_pending v1))) as Hw01 by (by eapply wrote_trans).
  change (pending_write_len (wr v1)) with k in D3.
  destruct (poll_drain_pending v1) as [[[[]|e|]|] v2]; cbn [fst snd ready] in *; [|by split|done|].
  - split; [done|]. cbn [fst snd]. rewrite El. split; [done|]. cbn [Z.eqb]. rewrite D3.
    split; [lia|]. by apply wr_ok_len.
  - split; [done|]. right. cbn [fst snd]. rewrite D3. by split_and!; try lia.
Qed.

Lemma finish_spec v h (k k' : VisionStream T -> poll (res io_error unit) * T) :
  wr_ok v h -> (forall v, idle_ok (inner v) (k v)) -> (forall v, idle_ok (inner v) (k' v)) ->
  let p := ready (poll_drain_pending v)
    (fun _ v => if direct_write_mode (wr v) then pass_through v (k v) else pass_through v (k' v)) in
  wrote v (snd p) /\ wr_ok (snd p) h /\ pending_write_len (wr (snd p)) = pending_write_len (wr v)
  /\ fst p <> Ready Panic.
Proof.
  intros Hok Hk Hk'. cbv zeta. destruct (drain_ok v h Hok) as (D1 & D2 & D3 & _ & D4).
  destruct (poll_drain_pending v) as [[[[]|e|]|] v1]; cbn [fst snd ready] in *; try done.
  assert (forall p : poll (res io_error unit) * T, idle_ok (inner v1) p ->
    wrote v (snd (pass_through v1 p)) /\ wr_ok (snd (pass_through v1 p)) h
    /\ pending_write_len (wr (snd (pass_through v1 p))) = pending_write_len (wr v)
    /\ fst (pass_through v1 p) <> Ready Panic) as Hp.
  { intros p (I1 & I2 & I3). split; [|split; [by apply wr_ok_inner|split; [done|]]].
    - eapply wrote_trans; [exact D1|]. unfold wrote. cbn. by rewrite I1.
    - destruct p as [[[]|] s]; done. }
  case_if; auto.
Qed.

End Writing.

(** ** Runs of a stream

    [delivered] and [accepted] are the bytes its callers read and were told are written; [offered]
    is the input of a write that is not finished, which its caller has to offer again. *)
Record Run (T : Type) := mkRun {
  stream : VisionStream T;
  delivered : list byte;
  accepted : list byte;
  offered : option (list byte)
}.
Arguments mkRun {T} stream delivered accepted offered.
Arguments stream {T} r.
Arguments delivered {T} r.
Arguments accepted {T} r.
Arguments offered {T} r.

Section Runs.
Context {T : Type} `{Ai : AsyncIo T} `{Io : !VisionStreamIo T} `{Laws : !VisionStreamIoLaws T}.

Definition may_offer (x : Run T) (input : list byte) : Prop :=
  match offered x with Some earlier => earlier = input | None => True end.

(** A run ends with the first error a caller is given. An empty frame is queued only while frames
    are written (the program queues one before the first payload). *)
Inductive vision_step : Run T -> Run T -> Prop :=
| st_read x n bytes v :
    0 < n -> poll_read (stream x) n = (Ready (Ok bytes), v) ->
    vision_step x (mkRun v (delivered x ++ bytes) (accepted x) (offered x))
| st_read_pending x n v :
    0 < n -> poll_read (stream x) n = (Pending, v) ->
    vision_step x (mkRun v (delivered x) (accepted x) (offered x))
| st_write x draw input n v :
    draw_ok draw -> may_offer x input -> poll_write (stream x) draw input = (Ready (Ok n), v) ->
    vision_step x (mkRun v (delivered x) (accepted x ++ take (Z.to_nat n) input) None)
| st_write_pending x draw input v :
    draw_ok draw -> may_offer x input -> poll_write (stream x) draw input = (Pending, v) ->
    vision_step x (mkRun v (delivered x) (accepted x) (Some input))
| st_flush x r v :
    poll_flush (stream x) = (r, v) -> r = Ready (Ok tt) \/ r = Pending ->
    vision_step x (mkRun v (delivered x) (accepted x) (offered x))
| st_shutdown x r v :
    poll_shutdown (stream x) = (r, v) -> r = Ready (Ok tt) \/ r = Pending ->
    vision_step x (mkRun v (delivered x) (accepted x) (offered x))
| st_queue x draw v :
    draw_ok draw -> closing (wr (stream x)) = false ->
    queue_empty_padding_frame (stream x) draw = Ok v ->
    vision_step x (mkRun v (delivered x) (accepted x) (offered x)).

Definition start (io : T) (uid : list byte) (s : VisionSeed) : Run T :=
  mkRun (VisionStream_new io uid s) [] [] None.

(** The bytes of the write that is not finished but is on its way. *)
Definition in_flight (x : Run T) : list byte :=
  match offered x with
  | Some input => take (Z.to_nat (pending_write_len (wr (stream x)))) input
  | None => []
  end.

Definition run_ok (io : T) (uid : list byte) (x : Run T) : Prop :=
  user_id (stream x) = uid
  /\ rd_ok (stream x)
  /\ unframe uid false (unread io) = prepend (delivered x) (view (stream x))
  /\ wr_ok (stream x) (accepted x ++ in_flight x)
  /\ (pending_write_len (wr (stream x)) = 0 \/ exists input, offered x = Some input).

Lemma start_ok io uid s :
  len uid = 16 -> no_frame_start uid -> seed_ok s -> taken io = [] -> run_ok io uid (start io uid s).
Proof.
  intros Hu Hn Hs Ht. unfold run_ok, start. cbn. split_and!; try done; [by rewrite !prepend_nil| |by left].
  unfold wr_ok. cbn. split_and!; try done. intros Y. unfold wire. cbn. by rewrite Ht, prepend_nil.
Qed.

Lemma wr_ok_kept v v' h : kept v v' -> wr_ok v h -> wr_ok v' h.
Proof. intros (K1 & K2 & K3). unfold wr_ok, wire. by rewrite K1, K2, K3. Qed.

Lemma rd_ok_wrote v v' : wrote v v' -> rd_ok v -> rd_ok v' /\ view v' = view v.
Proof. intros (K1 & K2 & K3). unfold rd_ok, view. by rewrite K1, K2, K3. Qed.

(** A step of the write side. *)
Lemma write_side_ok io uid x v h o :
  run_ok io uid x -> wrote (stream x) v -> wr_ok v (h ++ in_flight (mkRun v (delivered x) h o)) ->
  (pending_write_len (wr v) = 0 \/ exists input, o = Some input) ->
  run_ok io uid (mkRun v (delivered x) h o).
Proof.
  intros (R1 & R2 & R3 & R4 & R5) Hw Hok Hp. destruct (rd_ok_wrote _ _ Hw R2) as [Hrd Hv].
  split_and!; cbn; try done; [by destruct Hw as [-> _]|by rewrite Hv].
Qed.

Lemma read_step_ok io uid x n :
  run_ok io uid x -> 0 < n ->
  match poll_read (stream x) n with
  | (Ready (Ok bytes), v) =>
    run_ok io uid (mkRun v (delivered x ++ bytes) (accepted x) (offered x))
    /\ (bytes = [] -> fst (view v) = [])
  | (Ready (Err (InvalidData _)), _) => snd (unframe uid false (unread io)) = Broken
  | (Ready (Err UnexpectedEof), _) =>
    exists l, snd (unframe uid false (unread io)) = Padded l /\ l <> []
  | (Ready (Err (InnerError _)), _) => True
  | (Pending, v) => run_ok io uid (mkRun v (delivered x) (accepted x) (offered x))
  | _ => False
  end.
Proof.
  intros (R1 & R2 & R3 & R4 & R5) Hn. destruct (poll_read_spec (stream x) n R2 Hn) as [Hk Hp].
  destruct (poll_read (stream x) n) as [r v]. cbn [fst snd] in *. rewrite R3. cbn [prepend snd].
  assert (in_flight (mkRun v (delivered x) (accepted x) (offered x)) = in_flight x) as Hf
    by (unfold in_flight; cbn; by destruct Hk as (_ & -> & _)).
  destruct r as [[bytes|[]|]|]; try done.
  - destruct Hp as (Hrd & Hv & _ & Hnil). split; [|done]. split_and!; cbn; try done.
    + by destruct Hk as [-> _].
    + by rewrite R3, Hv, prepend_app.
    + unfold in_flight in *. cbn in *. rewrite Hf. by eapply wr_ok_kept.
    + by destruct Hk as (_ & -> & _).
  - destruct Hp as [Hrd Hv]. split_and!; cbn; try done.
    + by destruct Hk as [-> _].
    + by rewrite R3, Hv.
    + unfold in_flight in *. cbn in *. rewrite Hf. by eapply wr_ok_kept.
    + by destruct Hk as (_ & -> & _).
Qed.

Lemma in_flight_zero x : pending_write_len (wr (stream x)) = 0 -> in_flight x = [].
Proof. unfold in_flight. intros ->. by destruct (offered x). Qed.

Lemma write_step_ok io uid x draw input :
  run_ok io uid x -> draw_ok draw -> may_offer x input ->
  match poll_write (stream x) draw input with
  | (Ready (Ok n), v) =>
    run_ok io uid (mkRun v (delivered x) (accepted x ++ take (Z.to_nat n) input) None)
  | (Pending, v) => run_ok io uid (mkRun v (delivered x) (accepted x) (Some input))
  | (Ready Panic, _) => False
  | _ => True
  end.
Proof.
  intros Hrun Hd Ho. pose proof Hrun as (R1 & R2 & R3 & R4 & R5).
  destruct (poll_write_spec (stream x) _ draw input R4 Hd) as [Hw Hp].
  destruct (poll_write (stream x) draw input) as [r v]. cbn [fst snd] in *.
  assert (pending_write_len (wr (stream x)) <> 0 ->
    in_flight x = take (Z.to_nat (pending_write_len (wr (stream x)))) input) as Hf.
  { intros Hne. destruct R5 as [|[i Hi]]; [done|]. unfold in_flight, may_offer in *. rewrite Hi in *.
    by subst i. }
  pose proof (in_flight_zero x) as Hz.
  destruct r as [[n|e|]|]; try done.
  - destruct Hp as [Hp0 Hp]. apply write_side_ok; try done; [|by left].
    unfold in_flight at 1. cbn [offered]. rewrite app_nil_r. destruct (Z.eqb_spec (pending_write_len (wr (stream x))) 0) as [E|E].
    + destruct Hp as [_ Hp]. by rewrite Hz, app_nil_r in Hp.
    + destruct Hp as [-> Hp]. by rewrite Hf in Hp.
  - apply write_side_ok; try done; [|by right; eauto]. unfold in_flight at 1. cbn [offered stream].
    destruct Hp as [[E Hp]|(E & _ & Hp)].
    + rewrite E. destruct (decide (pending_write_len (wr (stream x)) = 0)) as [E0|E0].
      * rewrite Hz in Hp by done. by rewrite E0, take_0.
      * by rewrite Hf in Hp.
    + by rewrite Hz, app_nil_r in Hp.
Qed.

Lemma finish_step_ok io uid x v :
  run_ok io uid x -> wrote (stream x) v -> wr_ok v (accepted x ++ in_flight x) ->
  pending_write_len (wr v) = pending_write_len (wr (stream x)) ->
  run_ok io uid (mkRun v (delivered x) (accepted x) (offered x)).
Proof.
  intros Hrun Hw Hok Hl. apply write_side_ok; try done.
  - unfold in_flight in *. cbn [offered stream]. by rewrite Hl.
  - rewrite Hl. by destruct Hrun as (_ & _ & _ & _ & ?).
Qed.

Lemma vision_step_ok io uid x y : run_ok io uid x -> vision_step x y -> run_ok io uid y.
Proof.
  intros Hrun Hs. pose proof Hrun as (R1 & R2 & R3 & R4 & R5).
  destruct Hs as [x n bytes v Hn E|x n v Hn E|x draw input n v Hd Ho E|x draw input v Hd Ho E
                 |x r v E _|x r v E _|x draw v Hd Hc E].
  - pose proof (read_step_ok io uid x n Hrun Hn) as H. rewrite E in H. apply H.
  - pose proof (read_step_ok io uid x n Hrun Hn) as H. by rewrite E in H.
  - pose proof (write_step_ok io uid x draw input Hrun Hd Ho) as H. by rewrite E in H.
  - pose proof (write_step_ok io uid x draw input Hrun Hd Ho) as H. by rewrite E in H.
  - destruct (finish_spec (stream x) _ (fun v => io_poll_flush_direct (inner v))
      (fun v => io_poll_flush (inner v)) R4) as (F1 & F2 & F3 & _);
      auto using poll_flush_direct_law; [intros; apply poll_flush_law|].
    unfold poll_flush in E. rewrite E in *. by apply finish_step_ok.
  - destruct (finish_spec (stream x) _ (fun v => io_poll_shutdown_direct (inner v))
      (fun v => io_poll_shutdown (inner v)) R4) as (F1 & F2 & F3 & _);
      auto using poll_shutdown_direct_law; [intros; apply poll_shutdown_law|].
    unfold poll_shutdown in E. rewrite E in *. by apply finish_step_ok.
  - destruct (queue_spec (stream x) _ draw [] Continue true R4 Hc Hd ltac:(done)) as (bytes & E' & Hq).
    unfold queue_empty_padding_frame in E. rewrite E' in E. apply Ok_inj in E. subst v.
    rewrite app_nil_r in Hq. by apply finish_step_ok.
Qed.

Lemma vision_reach io uid s x :
  len uid = 16 -> no_frame_start uid -> seed_ok s -> taken io = [] ->
  rtc vision_step (start io uid s) x -> run_ok io uid x.
Proof.
  intros Hu Hn Hs Ht Hr. assert (run_ok io uid (start io uid s)) as H0 by by apply start_ok.
  revert H0. induction Hr as [|x y z Hs' _ IH]; [done|]. intros Hx. apply IH.
  by eapply vision_step_ok.
Qed.

(** What a run wrote is read back by the reference reader. *)
Lemma run_wire io uid x :
  run_ok io uid x -> offered x = None -> pending_write (wr (stream x)) = [] ->
  let p := unframe uid false (taken (inner (stream x))) in
  fst p = accepted x /\ (snd p = Plain \/ snd p = Padded []).
Proof.
  intros (<- & _ & _ & (_ & _ & _ & _ & _ & _ & _ & _ & W9) & R5) Ho Hp. cbv zeta.
  specialize (W9 []). unfold wire, in_flight in W9. rewrite Hp, Ho, !app_nil_r in W9. rewrite W9.
  case_if; [auto|]. destruct (user_id_emitted _); cbn; rewrite app_nil_r; auto.
Qed.

End Runs.

(** ** A scripted transport *)

#[export] Instance Script_vision : VisionStreamIo Script := {
  release_record_alignment s := s;
  io_poll_read_direct := script_read;
  io_poll_write_direct := script_write;
  io_poll_flush_direct := script_idle;
  io_poll_shutdown_direct := script_idle
}.

#[export] Instance Script_vision_laws : VisionStreamIoLaws Script.
Proof.
  constructor; try apply _; try (intros; by split_and!);
    intros; by (apply script_read_law || apply script_write_law).
Qed.

(** ** The theorems *)

(** C21: two Vision streams of one user, each over any transport that keeps its byte order, with any
    interleaving of reads, writes and flushes, partial writes, and pending polls. What the second
    stream delivers of the first one's traffic is always a prefix of what the first accepted; when
    the second reports the end it has delivered all of it; its reads fail only when its transport
    does. The user id must not start with a frame command. *)
Theorem vision_roundtrip {T} `{Ai : AsyncIo T} `{Io : !VisionStreamIo T} `{Laws : !VisionStreamIoLaws T}
    uid s1 s2 io1 io2 (w r : Run T) n :
  len uid = 16 -> no_frame_start uid -> seed_ok s1 -> seed_ok s2 ->
  taken io1 = [] -> taken io2 = [] ->
  rtc vision_step (start io1 uid s1) w -> offered w = None -> pending_write (wr (stream w)) = [] ->
  unread io2 = taken (inner (stream w)) ->
  rtc vision_step (start io2 uid s2) r -> 0 < n ->
  delivered r `prefix_of` accepted w
  /\ match fst (poll_read (stream r) n) with
     | Ready (Ok []) => delivered r = accepted w
     | Ready (Ok bytes) => delivered r ++ bytes `prefix_of` accepted w
     | Ready (Err (InnerError _)) | Pending => True
     | Ready (Err _) | Ready Panic => False
     end.
Proof.
  intros Hu Hf Hs1 Hs2 Ht1 Ht2 Hw Ho Hp Hio Hr Hn.
  pose proof (vision_reach io1 uid s1 w Hu Hf Hs1 Ht1 Hw) as Rw.
  pose proof (vision_reach io2 uid s2 r Hu Hf Hs2 Ht2 Hr) as Rr.
  destruct (run_wire io1 uid w Rw Ho Hp) as [Hout Hmode]. rewrite <- Hio in Hout, Hmode.
  pose proof Rr as (_ & _ & R3 & _ & _). rewrite R3 in Hout. cbn in Hout.
  split; [by rewrite <- Hout; apply prefix_app_r|].
  pose proof (read_step_ok io2 uid r n Rr Hn) as Hread.
  destruct (poll_read (stream r) n) as [[[bytes|[]|]|] v]; cbn [fst] in *; try done.
  - destruct Hread as [(_ & _ & R3' & _) Hnil]. cbn [delivered stream] in R3'.
    rewrite R3' in R3. apply (f_equal fst) in R3. cbn in R3. rewrite <- Hout, <- R3.
    destruct bytes as [|b bytes]; [|by apply prefix_app_r].
    rewrite Hnil by done. by rewrite !app_nil_r.
  - destruct Hmode; congruence.
  - destruct Hread as (l & E & ?). destruct Hmode; congruence.
Qed.

(** ** Reads of any input *)

(** Reads alone, each with room in the caller's buffer. *)
Inductive reads {T} `{Ai : AsyncIo T} `{Io : !VisionStreamIo T} : VisionStream T -> list byte -> VisionStream T -> Prop :=
| reads_none v : reads v [] v
| reads_some v n bytes v1 out v2 :
    0 < n -> poll_read v n = (Ready (Ok bytes), v1) -> reads v1 out v2 -> reads v (bytes ++ out) v2
| reads_pending v n v1 out v2 :
    0 < n -> poll_read v n = (Pending, v1) -> reads v1 out v2 -> reads v out v2.

Lemma reads_view {T} `{Ai : AsyncIo T} `{Io : !VisionStreamIo T} `{Laws : !VisionStreamIoLaws T} v out v2 :
  reads v out v2 -> rd_ok v -> rd_ok v2 /\ view v = prepend out (view v2).
Proof.
  induction 1 as [v|v n bytes v1 out v2 Hn E _ IH|v n v1 out v2 Hn E _ IH]; intros Hok.
  - by rewrite prepend_nil.
  - pose proof (poll_read_spec v n Hok Hn) as [_ Hp]. rewrite E in Hp. cbn [fst snd] in Hp.
    destruct Hp as (Hok1 & -> & _). destruct (IH Hok1) as [? ->]. by rewrite prepend_app.
  - pose proof (poll_read_spec v n Hok Hn) as [_ Hp]. rewrite E in Hp. cbn [fst snd] in Hp.
    destruct Hp as (Hok1 & Hv). destruct (IH Hok1) as [? ?]. split; [done|]. congruence.
Qed.

(** whatever bytes arrive and however they are cut into reads, the bytes a new stream delivers
    are a prefix of what one pass over the whole input gives; a read panics never, reports invalid
    data only if that pass meets an invalid frame, a premature end only if the input ends inside a
    frame, and the end only after the last byte. *)
Theorem vision_read_any_chunks {T} `{Ai : AsyncIo T} `{Io : !VisionStreamIo T} `{Laws : !VisionStreamIoLaws T}
    io uid s out v n :
  len uid = 16 -> reads (VisionStream_new io uid s) out v -> 0 < n ->
  let '(whole, mode) := unframe uid false (unread io) in
  out `prefix_of` whole
  /\ match fst (poll_read v n) with
     | Ready (Ok []) => out = whole
     | Ready (Ok bytes) => out ++ bytes `prefix_of` whole
     | Ready (Err (InvalidData _)) => mode = Broken
     | Ready (Err UnexpectedEof) => exists left_, mode = Padded left_ /\ left_ <> []
     | Ready (Err WriteZero) | Ready Panic => False
     | Ready (Err (InnerError _)) | Pending => True
     end.
Proof.
  intros Hu Hr Hn. destruct (reads_view _ _ _ Hr) as [Hok Hv]; [by unfold rd_ok|].
  unfold view at 1 in Hv. cbn in Hv. rewrite prepend_nil in Hv. rewrite Hv.
  destruct (poll_read_spec v n Hok Hn) as [_ Hp].
  destruct (view v) as [o m] eqn:Ev. cbn [prepend fst snd] in *. split; [by apply prefix_app_r|].
  destruct (fst (poll_read v n)) as [[bytes|[]|]|]; try done.
  destruct Hp as (_ & E & _ & Hnil). destruct (view (snd (poll_read v n))) as [o' m'].
  cbn [prepend fst snd] in E, Hnil. injection E as -> ->. destruct bytes as [|b bytes].
  - rewrite Hnil by done. by rewrite !app_nil_r.
  - exists o'. by rewrite <- app_assoc.
Qed.

(** ** Witnesses *)

Definition sample_uid : list byte := replicate 16 (to_u8 7).
Definition sample_seed : VisionSeed := mkSeed 0 0 0 0.
Definition sample_writer : VisionStream Script :=
  snd (poll_write (VisionStream_new (mkScript [] [3%nat] []) sample_uid sample_seed) (fun _ => 0)
         (str_of "hello")).
Definition sample_bytes : list byte := taken (inner sample_writer).
Definition sample_input : Script := mkScript [take 7 sample_bytes; []; drop 7 sample_bytes] [] [].
Definition sample_reader : VisionStream Script := VisionStream_new sample_input sample_uid sample_seed.
Definition sample_reader1 : VisionStream Script := snd (poll_read sample_reader 100).
Definition sample_reader2 : VisionStream Script := snd (poll_read sample_reader1 100).

Lemma vision_roundtrip_witness :
  fst (poll_read sample_reader2 100) = Ready (Ok []) /\ delivered
    (mkRun sample_reader2 (str_of "hello") [] None) `prefix_of` str_of "hello".
Proof.
  split; [vm_compute; reflexivity|].
  refine (proj1 (vision_roundtrip sample_uid sample_seed sample_seed (mkScript [] [3%nat] [])
    sample_input (mkRun sample_writer [] (str_of "hello") None)
    (mkRun sample_reader2 (str_of "hello") [] None) 100 _ _ _ _ _ _ _ _ _ _ _ _)).
  - reflexivity.
  - exists (to_u8 7), (replicate 15 (to_u8 7)). split; [reflexivity | vm_compute; discriminate].
  - repeat split; vm_compute; (reflexivity || discriminate).
  - repeat split; vm_compute; (reflexivity || discriminate).
  - reflexivity.
  - reflexivity.
  - apply rtc_once.
    apply (st_write (start (mkScript [] [3%nat] []) sample_uid sample_seed) (fun _ => 0)
             (str_of "hello") 5).
    + intros u Hu. lia.
    + exact I.
    + vm_compute; reflexivity.
  - reflexivity.
  - vm_compute; reflexivity.
  - vm_compute; reflexivity.
  - apply rtc_l with (mkRun sample_reader1 [] [] None).
    + apply (st_read_pending (start sample_input sample_uid sample_seed) 100);
        [lia | vm_compute; reflexivity].
    + apply rtc_once. apply (st_read (mkRun sample_reader1 [] [] None) 100 (str_of "hello"));
        [lia | vm_compute; reflexivity].
  - lia.
Defined.

Lemma vision_read_any_chunks_witness :
  let '(whole, mode) := unframe sample_uid false (unread sample_input) in
  str_of "hello" `prefix_of` whole
  /\ match fst (poll_read sample_reader2 100) with
     | Ready (Ok []) => str_of "hello" = whole
     | Ready (Ok bytes) => str_of "hello" ++ bytes `prefix_of` whole
     | Ready (Err (InvalidData _)) => mode = Broken
     | Ready (Err UnexpectedEof) => exists left_, mode = Padded left_ /\ left_ <> []
     | Ready (Err WriteZero) | Ready Panic => False
     | Ready (Err (InnerError _)) | Pending => True
     end.
Proof.
  apply (vision_read_any_chunks sample_input sample_uid sample_seed (str_of "hello") sample_reader2 100).
  - reflexivity.
  - apply (reads_pending sample_reader 100 sample_reader1); [lia | vm_compute; reflexivity|].
    apply (reads_some sample_reader1 100 (str_of "hello") sample_reader2 []);
      [lia | vm_compute; reflexivity | constructor].
  - lia.
Defined.

(** ** A user id that starts with a frame command *)

(** C37: the user id is looked for at the start of every frame, although only the first one carries it. Of a
    later frame with fewer than sixteen bytes of padding a stream delivers the payload just when the
    frame's sixteen first bytes, its header and what follows, are not the user id; when they are, the
    stream fails, or it takes the frame for a shorter one behind a user id and delivers fewer bytes. *)
Theorem vision_user_id_collision {T} `{Ai : AsyncIo T} `{Io : !VisionStreamIo T} (v : VisionStream T) c bytes n Y :
  len (user_id v) = 16 -> in_u16 (len bytes) -> 0 <= n < 16 ->
  inbound_user_id_seen (rd v) = true -> raw_read (rd v) = frame (user_id v) true c bytes n ++ Y ->
  let delivers block v' :=
    decoded_read (rd v') = decoded_read (rd v) ++ payload block ++ match command block with Continue => [] | _ => Y end in
  if bool_decide (take 16 (frame (user_id v) true c bytes n) = user_id v) then
    match decode_next_frame v with
    | (Ok _, v') => exists block, len (payload block) < len bytes /\ delivers block v'
    | (Err e, _) => exists e', e = InvalidData e'
    | (Panic, _) => False
    end
  else exists v', decode_next_frame v = (Ok true, v') /\ delivers (mkBlock c bytes) v'.
Proof.
  intros Hu Hb Hn Hseen Hraw. cbv zeta. assert (in_u16 n) as Hn' by (unfold in_u16, u16_max; lia).
  pose proof (next_frame_frame (user_id v) true c bytes n Y Hu Hb Hn') as Hnext. pose proof (unpad_frame (user_id v) true c bytes n Hu) as Hok.
  pose proof (unpad_collision (user_id v) c bytes n Hu Hb Hn') as Hbad. unfold frame in *. cbn [app] in *.
  assert (forall B : list byte, take (Z.to_nat (len B)) (B ++ Y) = B /\ drop (Z.to_nat (len B)) (B ++ Y) = Y) as Hcut
    by (intros B; unfold len; by rewrite Nat2Z.id, take_app_length, drop_app_length).
  unfold decode_next_frame. rewrite Hseen, Hraw, Hnext. destruct (Hcut (body c bytes n)) as [-> ->].
  case_bool_decide as Ec.
  - specialize (Hbad Ec). destruct (unpad_vision_block (body c bytes n) (user_id v)) as [b|e|]; cbn [vision_to_io res_map_err]; [|by exists e|done].
    destruct (filter_ok (tls v) (payload b)) as [f ->]. destruct (command b) eqn:Eb; exists b; rewrite Eb; (split; [lia|]); simpl;
      by rewrite ?app_nil_r, <- ?app_assoc.
  - rewrite Hok by done. cbn [vision_to_io res_map_err payload command]. destruct (filter_ok (tls v) bytes) as [f ->].
    destruct c; eexists; (split; [reflexivity|]); simpl; by rewrite ?app_nil_r, <- ?app_assoc.
Qed.

(** Its eleven last bytes are the payload of a frame whose header are its five first. *)
Definition command_uid : list byte :=
  [to_u8 0; to_u8 0; to_u8 11; to_u8 0; to_u8 0] ++ str_of "hello world".

(** A reader that has seen its user id and has the frame in its buffer *)
Definition command_reader : VisionStream Script :=
  let v := VisionStream_new (mkScript [] [] []) command_uid sample_seed in
  set_rd v (mkRead command_uid [] true true false false).

Lemma vision_user_id_collision_witness :
  match decode_next_frame command_reader with
  | (Ok _, v') => exists block, len (payload block) < 11 /\ decoded_read (rd v') = payload block ++ match command block with Continue => [] | _ => [] end
  | (Err e, _) => exists e', e = InvalidData e'
  | (Panic, _) => False
  end.
Proof.
  exact (vision_user_id_collision command_reader Continue (str_of "hello world") 0 [] ltac:(reflexivity) ltac:(vm_compute; split; congruence)
    ltac:(vm_compute; split; congruence) ltac:(reflexivity) ltac:(vm_compute; reflexivity)).
Defined.

Definition collide_write (v : VisionStream Script) (input : list byte) : VisionStream Script :=
  snd (poll_write v (fun _ => 0) input).

Definition collided : VisionStream Script :=
  collide_write (collide_write (VisionStream_new (mkScript [] [] []) command_uid sample_seed)
    (str_of "first")) (str_of "hello world").

(** From end to end: a stream that accepted "first" and "hello world" is read back by its peer up to
    "first", and the next read fails. *)
Example user_id_collision_sample :
  fst (poll_write (VisionStream_new (mkScript [] [] []) command_uid sample_seed) (fun _ => 0)
         (str_of "first")) = Ready (Ok 5)
  /\ exists v,
    poll_read (VisionStream_new (mkScript [taken (inner collided)] [] []) command_uid sample_seed) 100
    = (Ready (Ok (str_of "first")), v)
    /\ fst (poll_read v 100) = Ready (Err (InvalidData ShortBlock)).
Proof.
  split; [vm_compute; reflexivity|]. eexists. split; [vm_compute; reflexivity|].
  vm_compute. reflexivity.
Qed.
