(* ===== verification/Shadowsocks.v ===== *)
(** Shadowsocks 2022 UDP: [crates/xray-proxy/src/shadowsocks/address.rs] (target addresses) and
    [shadowsocks2022/udp.rs] (sessions, the replay window), with the parts of
    [shadowsocks2022/mod.rs], [shadowsocks2022/crypto.rs] and [aead.rs] they use. The ciphers and
    hashes of the [aws-lc-rs], [aes], [chacha20] and [blake3] crates are the class [Ciphers]. *)
From Stdlib Require Import Strings.Byte.
From S2P Require Import Prelude Net.

Definition MAX_UDP_WIRE_LENGTH : Z := 65507.
Definition TAG_LENGTH : Z := 16.
Definition MAX_KEYS : Z := 8.
Definition MAX_PASSWORD_LENGTH : Z := 8192.

(** The messages of the errors, all of kind [InvalidData]. *)
Inductive SsError :=
| PortZero | InvalidTargetDomain | TruncatedAddress | InvalidDomain | InvalidAddressType
| InvalidDatagramSizeOrNetwork | PacketCounterExhausted | EncryptionFailed | AuthenticationFailed
| AeadEncryptionFailed | AeadAuthenticationFailed
| UnsupportedMethod | InvalidKeyLength | TooManyIdentityKeys | InvalidKeyEncoding
| IdentityKeysUnsupported
| InvalidPacketLength | TruncatedPacket | ReflectedSession | Replayed | TruncatedMessage
| InvalidPacketType | TimestampOutsideWindow | ClientSessionMismatch | TooManyRemoteSessions
| NonceExhausted
| SystemTimeBeforeEpoch | InvalidStreamRequest | InitialPayloadTooLarge | InvalidResponseType
| ResponseSaltMismatch.

(** ** Target addresses *)

Definition encode_address (t : Target) : res SsError (list byte) :=
  if port t =? 0 then Err PortZero
  else
    let? bytes :=
      match addr t with
      | Ip (V4 ip) => Ok (to_u8 1 :: octets4 ip)
      | Ip (V6 ip) => Ok (to_u8 4 :: octets6 ip)
      | Domain d =>
        if bool_decide (d = []) || (255 <? len d)
           || existsb (fun c => is_whitespace c || is_control c) (chars d)
        then Err InvalidTargetDomain
        else Ok ([to_u8 3; to_u8 (len d)] ++ d)
      end in
    Ok (bytes ++ be_bytes 2 (port t)).

Definition decode_address (bytes : list byte) : res SsError (Target * Z) :=
  match bytes with
  | [] => Err TruncatedAddress
  | kind :: _ =>
    let? (a, stop) :=
      (if u8 kind =? 1 then
         let? ip := ok_or (get_range bytes 1 5) TruncatedAddress in
         Ok (Ip (V4 (from_be ip)), 5)
       else if u8 kind =? 4 then
         let? ip := ok_or (get_range bytes 1 17) TruncatedAddress in
         Ok (Ip (V6 (from_be ip)), 17)
       else if u8 kind =? 3 then
         let? n := ok_or (bytes !! 1%nat) TruncatedAddress in
         let? d := ok_or (get_range bytes 2 (2 + u8 n)) TruncatedAddress in
         let? d := ok_or (from_utf8 d) InvalidDomain in
         Ok (Domain d, 2 + u8 n)
       else Err InvalidAddressType) in
    let? p := ok_or (get_range bytes stop (stop + 2)) TruncatedAddress in
    let t := mkTarget a (from_be p) Udp in
    let? _ := encode_address t in
    Ok (t, stop + 2)
  end.

(** ** Ciphers *)

Inductive Cipher := Aes128Gcm | Aes256Gcm | ChaCha20Poly1305.

#[export] Instance Cipher_eq_dec : EqDecision Cipher.
Proof. solve_decision. Defined.

Definition Cipher_parse (name : str) : res SsError Cipher :=
  if bool_decide (name = str_of "2022-blake3-aes-128-gcm") then Ok Aes128Gcm
  else if bool_decide (name = str_of "2022-blake3-aes-256-gcm") then Ok Aes256Gcm
  else if bool_decide (name = str_of "2022-blake3-chacha20-poly1305") then Ok ChaCha20Poly1305
  else Err UnsupportedMethod.

Definition key_len (c : Cipher) : Z := if bool_decide (c = Aes128Gcm) then 16 else 32.

Record Method := mkMethod { cipher : Cipher; keys : list (list byte) }.

(** [self.keys.last().expect(..)] *)
Definition psk {E} (m : Method) : res E (list byte) :=
  match keys m !! pred (length (keys m)) with Some k => Ok k | None => Panic end.

Class Ciphers := {
  AeadKey : Type;
  (** An AEAD algorithm with a key of its length. *)
  aead_key : Cipher -> list byte -> AeadKey;
  aead_seal : AeadKey -> list byte -> list byte -> option (list byte);
  aead_open : AeadKey -> list byte -> list byte -> option (list byte);
  hchacha20 : list byte -> list byte -> list byte;
  aes_encrypt_block : list byte -> list byte -> list byte;
  aes_decrypt_block : list byte -> list byte -> list byte;
  blake3_derive_key : str -> list byte -> list byte;
  blake3_hash : list byte -> list byte;
  sha256 : list byte -> list byte;
  base64_decode : str -> option (list byte)
}.

(** [password.split(':')] *)
Fixpoint split_colon (s : str) : list str :=
  match s with
  | [] => [[]]
  | b :: s =>
    if bool_decide (b = x3a) then [] :: split_colon s
    else match split_colon s with
         | part :: parts => (b :: part) :: parts
         | [] => [[b]]
         end
  end.

Section Codec.
Context `{C : Ciphers}.

(** The loop of [Method::new] over the parts of the password. *)
Fixpoint read_keys (c : Cipher) (parts : list str) (keys : list (list byte))
    : res SsError (list (list byte)) :=
  match parts with
  | [] => Ok keys
  | encoded :: parts =>
    if len keys =? MAX_KEYS then Err TooManyIdentityKeys
    else
      let? key := ok_or (base64_decode encoded) InvalidKeyEncoding in
      if len key <? key_len c then Err InvalidKeyLength
      else
        let? key := (if key_len c <? len key then slice (sha256 key) 0 (key_len c) else Ok key) in
        read_keys c parts (keys ++ [key])
  end.

Definition Method_new (name password : str) : res SsError Method :=
  let? c := Cipher_parse name in
  if bool_decide (password = []) || (MAX_PASSWORD_LENGTH <? len password)
  then Err InvalidKeyLength
  else
    let? keys := read_keys c (split_colon password) [] in
    if bool_decide (c = ChaCha20Poly1305) && negb (len keys =? 1)
    then Err IdentityKeysUnsupported
    else Ok (mkMethod c keys).

(** ** [aead.rs] and [crypto.rs] *)

(** [UnboundKey::new(algorithm, key).expect(..)] *)
Definition Key_new {E} (c : Cipher) (key : list byte) : res E AeadKey :=
  if len key =? key_len c then Ok (aead_key c key) else Panic.

Definition xchacha_ietf {E} (key nonce : list byte) : res E (AeadKey * list byte) :=
  if negb (len key =? 32) then Panic
  else
    let? k := Key_new ChaCha20Poly1305 (hchacha20 key (take 16 nonce)) in
    Ok (k, replicate 4 (to_u8 0) ++ drop 16 nonce).

Definition xchacha_seal (key nonce bytes : list byte) : res SsError (list byte) :=
  let? (k, n) := xchacha_ietf key nonce in
  ok_or (aead_seal k n bytes) EncryptionFailed.

Definition xchacha_open (key nonce bytes : list byte) : res SsError (list byte) :=
  let? (k, n) := xchacha_ietf key nonce in
  ok_or (aead_open k n bytes) AuthenticationFailed.

(** [crypto::block]; keys of other lengths are [unreachable!]. *)
Definition block {E} (key b : list byte) (decrypt : bool) : res E (list byte) :=
  if (len key =? 16) || (len key =? 32)
  then Ok (if decrypt then aes_decrypt_block key b else aes_encrypt_block key b)
  else Panic.

Definition derive (context : str) (key salt : list byte) : list byte :=
  blake3_derive_key context (key ++ salt).

Definition aead_session {E} (m : Method) (salt : list byte) : res E AeadKey :=
  let? key := psk m in
  let? key := slice (derive (str_of "shadowsocks 2022 session subkey") key salt)
                0 (key_len (cipher m)) in
  Key_new (cipher m) key.

Definition identity_hash (key : list byte) : list byte := blake3_hash key.

(** ** The replay window *)

Record Window := mkWindow { highest : Z; ring : list Z }.

Definition Window_new : Window := mkWindow 0 (replicate 128 0).

Definition ring_slot (id : Z) : nat := Z.to_nat (Z.land (Z.shiftr id 6) 127).

(** [ring[i]] of the array of 128 words. *)
Definition ring_get (r : list Z) (i : nat) : Z := default 0 (r !! i).

Definition check (w : Window) (id : Z) : bool :=
  if highest w <? id then true
  else if 8128 <? highest w - id then false
  else Z.land (ring_get (ring w) (ring_slot id)) (Z.shiftl 1 (Z.land id 63)) =? 0.

(** The words of the blocks [old + 1 ..= old + n] set to zero. *)
Fixpoint clear_blocks (n : nat) (old : Z) (r : list Z) : list Z :=
  match n with
  | O => r
  | S n => <[Z.to_nat (Z.land (old + Z.of_nat (S n)) 127) := 0]> (clear_blocks n old r)
  end.

Definition add (w : Window) (id : Z) : Window :=
  let w :=
    if highest w <? id then
      let old := Z.shiftr (highest w) 6 in
      mkWindow id (clear_blocks (Z.to_nat (Z.min (Z.shiftr id 6 - old) 128)) old (ring w))
    else w in
  let i := ring_slot id in
  mkWindow (highest w)
    (<[i := Z.lor (ring_get (ring w) i) (Z.shiftl 1 (Z.land id 63))]> (ring w)).

(** ** Sessions *)

Record Remote := mkRemote { r_id : Z; r_aead : AeadKey; replay : Window }.

Record UdpSession := mkSession2022 {
  method : Method;
  s_id : Z;
  next : option Z;
  local : AeadKey;
  current : option Remote;
  previous : option Remote;
  previous_seen : Z
}.

Definition with_id (m : Method) (id : Z) : res SsError UdpSession :=
  let? local := aead_session m (be_bytes 8 id) in
  Ok (mkSession2022 m id (Some 0) local None None 0).

(** Bytes in front of the body: the nonce or the identity headers. *)
Definition extra (m : Method) : Z :=
  if bool_decide (cipher m = ChaCha20Poly1305) then 24 else (len (keys m) - 1) * 16.

Definition overhead (s : UdpSession) (t : Target) : res SsError Z :=
  let? a := encode_address t in
  Ok (16 + extra (method s) + 11 + len a + TAG_LENGTH).

(** The identity headers, one per pair of neighbouring keys. *)
Fixpoint identity_headers (ks : list (list byte)) (separate : list byte)
    : res SsError (list byte) :=
  match ks with
  | k0 :: ((k1 :: _) as rest) =>
    let? identity := block k0
      (zip_with (fun a b => to_u8 (Z.lxor (u8 a) (u8 b))) (identity_hash k1) separate) false in
    let? more := identity_headers rest separate in
    Ok (identity ++ more)
  | _ => Ok []
  end.

(** The datagram of a packet: its separate header and its body, encrypted. *)
Definition seal_packet (m : Method) (key : AeadKey) (nonce separate body : list byte)
    : res SsError (list byte) :=
  if bool_decide (cipher m = ChaCha20Poly1305) then
    let? key := psk m in
    let? sealed := xchacha_seal key nonce (separate ++ body) in
    Ok (nonce ++ sealed)
  else
    let? sealed := ok_or (aead_seal key (drop 4 separate) body) AeadEncryptionFailed in
    let? identities := identity_headers (keys m) separate in
    let? k0 := index (keys m) 0 in
    let? head := block k0 separate false in
    Ok (head ++ identities ++ sealed).

(** The datagram, and the session with its packet counter moved on. *)
Definition encode_at (s : UdpSession) (t : Target) (payload : list byte) (timestamp : Z)
    (nonce : list byte) : res SsError (list byte) * UdpSession :=
  match encode_address t with
  | Ok a =>
    if negb (bool_decide (network t = Udp))
       || (MAX_UDP_WIRE_LENGTH <?
           16 + extra (method s) + 11 + len a + len payload + TAG_LENGTH)
    then (Err InvalidDatagramSizeOrNetwork, s)
    else
      match next s with
      | None => (Err PacketCounterExhausted, s)
      | Some packet_id =>
        let s := mkSession2022 (method s) (s_id s)
          (if packet_id =? u64_max then None else Some (packet_id + 1)) (local s) (current s)
          (previous s) (previous_seen s) in
        let separate := be_bytes 8 (s_id s) ++ be_bytes 8 packet_id in
        let body := [to_u8 0] ++ be_bytes 8 timestamp ++ [to_u8 0; to_u8 0] ++ a ++ payload in
        (seal_packet (method s) (local s) nonce separate body, s)
      end
  | Err e => (Err e, s)
  | Panic => (Panic, s)
  end.

(** ** Reading a datagram *)

(** [Cursor::take] *)
Definition cur_take (c : list byte) (n : Z) : res SsError (list byte * list byte) :=
  if len c <? n then Err TruncatedMessage
  else Ok (take (Z.to_nat n) c, drop (Z.to_nat n) c).

Definition cur_be (c : list byte) (n : Z) : res SsError (Z * list byte) :=
  let? (head, rest) := cur_take c n in Ok (from_be head, rest).

Definition cur_target (c : list byte) : res SsError (Target * list byte) :=
  let? (t, n) := decode_address c in
  let? rest := slice_from c n in
  Ok (t, rest).

Definition check_time (timestamp now : Z) : res SsError unit :=
  if 30 <? Z.abs (timestamp - now) then Err TimestampOutsideWindow else Ok tt.

(** The separate header and the body behind it, still sealed with the session's key when the
    cipher is not ChaCha20. *)
Definition open_separate (m : Method) (wire : list byte) : res SsError (list byte * list byte) :=
  let? key := psk m in
  if bool_decide (cipher m = ChaCha20Poly1305) then
    let? sealed := slice_from wire 24 in
    let? nonce := slice wire 0 24 in
    let? body := xchacha_open key nonce sealed in
    if len body <? 16 then Err TruncatedPacket
    else Ok (take 16 body, drop 16 body)
  else
    let? head := slice wire 0 16 in
    let? body := slice_from wire 16 in
    let? separate := block key head true in
    Ok (separate, body).

(** The fields of the body: what is left is the payload. *)
Definition read_body (s : UdpSession) (body : list byte) (timestamp : Z)
    : res SsError (Target * list byte) :=
  let? (kind, c) := cur_be body 1 in
  if negb (kind =? 1) then Err InvalidPacketType
  else
    let? (sent, c) := cur_be c 8 in
    let? _ := check_time sent timestamp in
    let? (client, c) := cur_be c 8 in
    if negb (client =? s_id s) then Err ClientSessionMismatch
    else
      let? (padding, c) := cur_be c 2 in
      let? (_, c) := cur_take c padding in
      cur_target c.

Definition find_remote (o : option Remote) (id : Z) : option Remote :=
  match o with Some r => if r_id r =? id then Some r else None | None => None end.

Definition seen_packet (r : Remote) (packet_id : Z) : Remote :=
  mkRemote (r_id r) (r_aead r) (add (replay r) packet_id).

(** The session after a packet has been accepted; [key] is the new session's if there is one. *)
Definition commit (s : UdpSession) (id packet_id timestamp : Z) (key : AeadKey)
    : res SsError UdpSession :=
  match find_remote (current s) id, find_remote (previous s) id with
  | Some r, _ =>
    Ok (mkSession2022 (method s) (s_id s) (next s) (local s) (Some (seen_packet r packet_id))
          (previous s) (previous_seen s))
  | None, Some r =>
    Ok (mkSession2022 (method s) (s_id s) (next s) (local s) (current s)
          (Some (seen_packet r packet_id)) timestamp)
  | None, None =>
    if bool_decide (is_Some (previous s)) && (Z.max 0 (timestamp - previous_seen s) <? 60)
    then Err TooManyRemoteSessions
    else
      Ok (mkSession2022 (method s) (s_id s) (next s) (local s)
            (Some (mkRemote id key (add Window_new packet_id))) (current s) timestamp)
  end.

Definition decode_at (s : UdpSession) (wire : list byte) (timestamp : Z)
    : res SsError (Target * list byte * UdpSession) :=
  if (len wire <? 16 + 19 + 7 + TAG_LENGTH) || (MAX_UDP_WIRE_LENGTH <? len wire)
  then Err InvalidPacketLength
  else
    let? (separate, body) := open_separate (method s) wire in
    let? head := slice separate 0 8 in
    let? tail := slice_from separate 8 in
    let id := from_be head in
    let packet_id := from_be tail in
    if id =? s_id s then Err ReflectedSession
    else
      let remote := match find_remote (current s) id with
                    | Some r => Some r
                    | None => find_remote (previous s) id
                    end in
      if match remote with Some r => negb (check (replay r) packet_id) | None => false end
      then Err Replayed
      else
        let? key := match remote with
                    | Some r => Ok (r_aead r)
                    | None => aead_session (method s) head
                    end in
        let? body :=
          (if bool_decide (cipher (method s) = ChaCha20Poly1305) then Ok body
           else ok_or (aead_open key (drop 4 separate) body) AeadAuthenticationFailed) in
        let? (t, payload) := read_body s body timestamp in
        let? s := commit s id packet_id timestamp key in
        Ok (t, payload, s).

(** ** The nonces of a record stream *)

Record Records := mkRecords { rec_nonce : list byte; exhausted : bool }.

(** The little-endian counter after one increment, and whether it wrapped. *)
Fixpoint increment (nonce : list byte) : list byte * bool :=
  match nonce with
  | [] => ([], true)
  | b :: rest =>
    let b := to_u8 (u8 b + 1) in
    if negb (u8 b =? 0) then (b :: rest, false)
    else let '(rest, wrapped) := increment rest in (b :: rest, wrapped)
  end.

Definition Records_new : Records := mkRecords (replicate 12 (to_u8 0)) false.

Definition records_next (r : Records) : res SsError (list byte * Records) :=
  if exhausted r then Err NonceExhausted
  else
    let '(nonce, wrapped) := increment (rec_nonce r) in
    Ok (rec_nonce r, mkRecords nonce wrapped).

End Codec.

(** ** The window is the set of packets added to it *)

Lemma ring_slot_eq id : 0 <= id -> ring_slot id = Z.to_nat (id / 64 mod 128).
Proof.
  intros Hid. unfold ring_slot. change 127 with (Z.ones 7).
  rewrite Z.land_ones, Z.shiftr_div_pow2 by lia. done.
Qed.

Lemma shiftl_bit id : 0 <= id -> Z.shiftl 1 (Z.land id 63) = 2 ^ (id mod 64).
Proof.
  intros Hid. change 63 with (Z.ones 6). rewrite Z.land_ones by lia. change (2 ^ 6) with 64.
  pose proof (Z.mod_pos_bound id 64 ltac:(lia)). rewrite Z.shiftl_mul_pow2 by lia. lia.
Qed.

Lemma land_pow2 a k : 0 <= k -> (Z.land a (2 ^ k) =? 0) = negb (Z.testbit a k).
Proof.
  intros Hk. destruct (Z.testbit a k) eqn:E; simpl.
  - apply Z.eqb_neq. intros E0. apply (f_equal (fun z => Z.testbit z k)) in E0.
    rewrite Z.land_spec, E, Z.pow2_bits_true, Z.bits_0 in E0 by lia. done.
  - apply Z.eqb_eq. apply Z.bits_inj'. intros n Hn. rewrite Z.land_spec, Z.bits_0.
    destruct (decide (n = k)) as [->|]; [by rewrite E|].
    rewrite Z.pow2_bits_false by lia. apply andb_false_r.
Qed.

(** The bit of a packet. *)
Definition bit (w : Window) (id : Z) : bool :=
  Z.testbit (ring_get (ring w) (ring_slot id)) (id mod 64).

Definition window_ok (w : Window) (seen : list Z) : Prop :=
  length (ring w) = 128%nat /\ 0 <= highest w /\ Forall (fun id => 0 <= id <= highest w) seen
  /\ forall id, 0 <= id -> highest w / 64 - 127 <= id / 64 <= highest w / 64 ->
      bit w id = bool_decide (id ∈ seen).

Lemma window_new_ok : window_ok Window_new [].
Proof.
  split_and!; try done. intros id Hid Hb. unfold bit, ring_get. change (ring Window_new) with (replicate 128 0).
  destruct (replicate 128 0 !! ring_slot id) as [z|] eqn:E; [|apply Z.bits_0].
  apply lookup_replicate in E as [-> _]. apply Z.bits_0.
Qed.

(** [check] says whether a packet is new: beyond all others, or inside the window and not added. *)
Lemma check_spec w seen id :
  window_ok w seen -> 0 <= id ->
  check w id = (highest w <? id) || ((highest w - id <=? 8128) && negb (bool_decide (id ∈ seen))).
Proof.
  intros (_ & Hh & _ & Hbit) Hid. unfold check. destruct (highest w <? id) eqn:E1; [done|].
  destruct (8128 <? highest w - id) eqn:E2; unbool.
  - by rewrite (proj2 (Z.leb_gt (highest w - id) 8128)).
  - rewrite (proj2 (Z.leb_le (highest w - id) 8128)) by done. simpl.
    rewrite shiftl_bit, land_pow2 by (try apply Z.mod_pos_bound; lia). f_equal. apply Hbit; [done|].
    split; [|apply Z.div_le_mono; lia].
    assert (highest w / 64 <= (id + 127 * 64) / 64) as Hle by (apply Z.div_le_mono; lia).
    rewrite Z.div_add in Hle by lia. lia.
Qed.

Lemma ring_get_insert r i j z :
  (j < length r)%nat -> ring_get (<[i := z]> r) j = if decide (i = j) then z else ring_get r j.
Proof.
  intros Hj. unfold ring_get. case_decide as E.
  - subst. by rewrite list_lookup_insert_eq.
  - by rewrite list_lookup_insert_ne.
Qed.

Lemma length_clear_blocks n old r : length (clear_blocks n old r) = length r.
Proof. induction n as [|n IH]; [done|]. simpl. by rewrite length_insert. Qed.

Lemma clear_blocks_get n old r j :
  (j < length r)%nat ->
  ring_get (clear_blocks n old r) j = 0 \/ ring_get (clear_blocks n old r) j = ring_get r j.
Proof.
  intros Hj. induction n as [|n IH]; [by right|]. cbn [clear_blocks].
  rewrite ring_get_insert by (by rewrite length_clear_blocks). case_decide; auto.
Qed.

(** A block that is cleared, and one that is not. *)
Lemma clear_blocks_hit n old r i :
  length r = 128%nat -> 0 <= old -> (1 <= i <= n)%nat ->
  ring_get (clear_blocks n old r) (Z.to_nat ((old + Z.of_nat i) mod 128)) = 0.
Proof.
  intros Hl Ho Hi. pose proof (Z.mod_pos_bound (old + Z.of_nat i) 128 ltac:(lia)).
  induction n as [|n IH]; [lia|]. cbn [clear_blocks]. change 127 with (Z.ones 7).
  rewrite Z.land_ones by lia. change (2 ^ 7) with 128.
  rewrite ring_get_insert by (rewrite length_clear_blocks; lia). case_decide as E; [done|].
  apply IH. destruct (decide (i = S n)) as [->|]; [done|lia].
Qed.

Lemma clear_blocks_miss n old r b :
  length r = 128%nat -> 0 <= old -> 0 <= b <= old -> old + Z.of_nat n - b <= 127 ->
  ring_get (clear_blocks n old r) (Z.to_nat (b mod 128)) = ring_get r (Z.to_nat (b mod 128)).
Proof.
  intros Hl Ho Hb Hn. pose proof (Z.mod_pos_bound b 128 ltac:(lia)).
  induction n as [|n IH]; [done|]. cbn [clear_blocks]. change 127 with (Z.ones 7).
  rewrite Z.land_ones by lia. change (2 ^ 7) with 128.
  pose proof (Z.mod_pos_bound (old + Z.of_nat (S n)) 128 ltac:(lia)).
  rewrite ring_get_insert by (rewrite length_clear_blocks; lia). case_decide as E; [|apply IH; lia].
  exfalso. apply Z2Nat.inj in E; [|lia..].
  rewrite (Z.mod_eq (old + _)), (Z.mod_eq b) in E by lia.
  set (q1 := (old + Z.of_nat (S n)) / 128) in *. set (q2 := b / 128) in *. lia.
Qed.

Lemma slot_lt id : 0 <= id -> (ring_slot id < 128)%nat.
Proof.
  intros. rewrite ring_slot_eq by done. pose proof (Z.mod_pos_bound (id / 64) 128 ltac:(lia)). lia.
Qed.

(** Within 128 blocks, two packets share a word only if they share the block. *)
Lemma slot_inj a b lo :
  0 <= a -> 0 <= b -> lo <= a / 64 <= lo + 127 -> lo <= b / 64 <= lo + 127 ->
  ring_slot a = ring_slot b -> a / 64 = b / 64.
Proof.
  intros Ha Hb Hwa Hwb. rewrite !ring_slot_eq by done. intros E.
  pose proof (Z.mod_pos_bound (a / 64) 128 ltac:(lia)).
  pose proof (Z.mod_pos_bound (b / 64) 128 ltac:(lia)). apply Z2Nat.inj in E; [|lia..].
  rewrite (Z.mod_eq (a / 64)), (Z.mod_eq (b / 64)) in E by lia.
  set (q1 := a / 64 / 128) in *. set (q2 := b / 64 / 128) in *. lia.
Qed.

Lemma set_bit_ok w seen id :
  window_ok w seen -> 0 <= id <= highest w -> highest w / 64 - 127 <= id / 64 ->
  window_ok (mkWindow (highest w) (<[ring_slot id :=
    Z.lor (ring_get (ring w) (ring_slot id)) (Z.shiftl 1 (Z.land id 63))]> (ring w))) (id :: seen).
Proof.
  intros (Hl & Hh & Hall & Hbit) Hid Hblk. unfold window_ok. cbn [ring highest].
  assert (id / 64 <= highest w / 64) as Hup by (apply Z.div_le_mono; lia).
  split_and!; [by rewrite length_insert|done|by constructor|].
  intros x Hx Hw. unfold bit. cbn [ring]. rewrite shiftl_bit by lia.
  rewrite ring_get_insert by (rewrite Hl; by apply slot_lt).
  specialize (Hbit x Hx Hw). unfold bit in Hbit.
  pose proof (Z.mod_pos_bound x 64 ltac:(lia)). pose proof (Z.mod_pos_bound id 64 ltac:(lia)).
  pose proof (Z.div_mod x 64 ltac:(lia)). pose proof (Z.div_mod id 64 ltac:(lia)).
  destruct (decide (ring_slot id = ring_slot x)) as [E|E].
  - assert (id / 64 = x / 64) as Eb by (apply (slot_inj id x (highest w / 64 - 127)); [lia..|done]).
    rewrite Z.lor_spec, E, Hbit. destruct (decide (x = id)) as [->|Hne].
    + rewrite Z.pow2_bits_true, orb_true_r by lia. symmetry. apply bool_decide_eq_true_2.
      apply list_elem_of_here.
    + rewrite Z.pow2_bits_false, orb_false_r by lia. apply bool_decide_ext.
      rewrite elem_of_cons. naive_solver.
  - rewrite Hbit. apply bool_decide_ext. rewrite elem_of_cons. split; [auto|].
    intros [->|?]; done.
Qed.

Lemma advance_ok w seen id :
  window_ok w seen -> highest w < id ->
  let old := Z.shiftr (highest w) 6 in
  window_ok (mkWindow id (clear_blocks (Z.to_nat (Z.min (Z.shiftr id 6 - old) 128)) old (ring w)))
    seen.
Proof.
  intros (Hl & Hh & Hall & Hbit) Hid. cbv zeta. rewrite !Z.shiftr_div_pow2 by lia.
  change (2 ^ 6) with 64. set (old := highest w / 64). set (new := id / 64).
  assert (0 <= old) as Hold by (apply Z.div_pos; lia).
  assert (old <= new) as Hon by (apply Z.div_le_mono; lia).
  set (n := Z.to_nat (Z.min (new - old) 128)). unfold window_ok. cbn [ring highest].
  rewrite length_clear_blocks. split_and!; [done|lia| |].
  { eapply Forall_impl; [|exact Hall]. simpl. lia. }
  intros x Hx Hw. fold new in Hw. unfold bit. cbn [ring]. rewrite ring_slot_eq by done.
  destruct (decide (x / 64 <= old)) as [Hle|Hgt].
  - rewrite clear_blocks_miss by (try done; try (split; [apply Z.div_pos; lia|done]); unfold n; lia).
    specialize (Hbit x Hx). unfold bit in Hbit. rewrite ring_slot_eq in Hbit by done.
    apply Hbit. unfold old in *. lia.
  - assert (ring_get (clear_blocks n old (ring w)) (Z.to_nat (x / 64 mod 128)) = 0) as ->.
    { set (i := (x / 64 - old - 1) mod 128 + 1).
      pose proof (Z.mod_pos_bound (x / 64 - old - 1) 128 ltac:(lia)).
      replace (x / 64 mod 128) with ((old + Z.of_nat (Z.to_nat i)) mod 128).
      - apply clear_blocks_hit; try done. unfold n.
        assert (i <= x / 64 - old) by (unfold i; pose proof (Z.mod_le (x / 64 - old - 1) 128 ltac:(lia) ltac:(lia)); lia).
        lia.
      - rewrite Z2Nat.id by lia. unfold i.
        replace (old + ((x / 64 - old - 1) mod 128 + 1)) with ((x / 64 - old - 1) mod 128 + (old + 1)) by lia.
        rewrite Z.add_mod_idemp_l by lia. f_equal. lia. }
    rewrite Z.bits_0. symmetry. apply bool_decide_eq_false_2. intros Hin.
    apply (Forall_In _ _ x) in Hall; [|by apply list_elem_of_In]. cbn beta in Hall.
    assert (x / 64 <= highest w / 64) by (apply Z.div_le_mono; lia). unfold old in *. lia.
Qed.

(** Adding a packet that was checked adds it to the set. *)
Lemma add_ok w seen id :
  window_ok w seen -> 0 <= id -> check w id = true -> window_ok (add w id) (id :: seen).
Proof.
  intros Hok Hid Hc. unfold add. destruct (highest w <? id) eqn:E; unbool.
  - pose proof (advance_ok w seen id Hok E) as Ha. cbv zeta in Ha.
    apply (set_bit_ok _ seen id) in Ha; [exact Ha|cbn; lia|cbn; lia].
  - apply set_bit_ok; [done|lia|]. rewrite (check_spec w seen id) in Hc by done.
    rewrite (proj2 (Z.ltb_ge (highest w) id)) in Hc by done. unbool. simpl in Hc. unbool.
    assert (highest w / 64 <= (id + 127 * 64) / 64) as Hle by (apply Z.div_le_mono; lia).
    rewrite Z.div_add in Hle by lia. lia.
Qed.

(** ** A session never accepts a datagram twice *)

(** What a window refuses it keeps refusing, and it refuses what was added. *)
Lemma check_add w seen id x :
  window_ok w seen -> 0 <= id -> 0 <= x -> check w x = true -> id = x \/ check w id = false ->
  check (add w x) id = false.
Proof.
  intros Hok Hid Hx Hc Hor. pose proof (add_ok w seen x Hok Hx Hc) as Hok'.
  rewrite (check_spec _ _ id Hok' Hid). rewrite (check_spec w seen id Hok Hid) in Hor.
  assert (highest w <= highest (add w x) /\ x <= highest (add w x)) as [Hmono Htop].
  { unfold add. destruct (highest w <? x) eqn:E; unbool; cbn [highest]; lia. }
  apply orb_false_iff. destruct Hor as [->|[E1 E2]%orb_false_iff].
  - split; [apply Z.ltb_ge; lia|]. apply andb_false_iff. right. apply negb_false_iff.
    apply bool_decide_eq_true_2, list_elem_of_here.
  - apply Z.ltb_ge in E1. split; [apply Z.ltb_ge; lia|]. apply andb_false_iff in E2 as [E2|E2].
    + apply Z.leb_gt in E2. apply andb_false_iff. left. apply Z.leb_gt. lia.
    + apply negb_false_iff, bool_decide_eq_true_1 in E2. apply andb_false_iff. right.
      apply negb_false_iff, bool_decide_eq_true_2. by apply list_elem_of_further.
Qed.

Section NoReplay.
Context `{C : Ciphers}.

(** The session, the number and the time of sending that a datagram carries. *)
Definition packet_header (m : Method) (wire : list byte) : res SsError (Z * Z * Z) :=
  let? (separate, body) := open_separate m wire in
  let? head := slice separate 0 8 in
  let? tail := slice_from separate 8 in
  let? body :=
    (if bool_decide (cipher m = ChaCha20Poly1305) then Ok body
     else
       let? key := aead_session m head in
       ok_or (aead_open key (drop 4 separate) body) AeadAuthenticationFailed) in
  let? (_, c) := cur_be body 1 in
  let? (sent, _) := cur_be c 8 in
  Ok (from_be head, from_be tail, sent).

Definition remote_ok (m : Method) (r : Remote) : Prop :=
  @aead_session C SsError m (be_bytes 8 (r_id r)) = Ok (r_aead r) /\ exists seen, window_ok (replay r) seen.

Record session_ok (s : UdpSession) : Prop := {
  so_current : forall r, current s = Some r -> remote_ok (method s) r;
  so_previous : forall r, previous s = Some r -> remote_ok (method s) r;
  so_distinct : forall r r', current s = Some r -> previous s = Some r' -> r_id r <> r_id r';
  so_filled : is_Some (previous s) -> is_Some (current s)
}.

Lemma with_id_ok m id s : with_id m id = Ok s -> session_ok s /\ method s = m /\ previous_seen s = 0.
Proof.
  unfold with_id. intros (k & _ & E)%res_bind_ok_inv. apply Ok_inj in E. subst s.
  split_and!; [|done..]. split; cbn; done.
Qed.

Definition remote_of (s : UdpSession) (id : Z) : option Remote :=
  match find_remote (current s) id with
  | Some r => Some r
  | None => find_remote (previous s) id
  end.

Lemma find_remote_some o id r : find_remote o id = Some r -> o = Some r /\ r_id r = id.
Proof. destruct o as [r'|]; simpl; [|done]. destruct (_ =? _) eqn:E; [|done]. intros [= ->]. unbool. auto. Qed.

Lemma remote_of_ok s id r :
  session_ok s -> remote_of s id = Some r -> remote_ok (method s) r /\ r_id r = id.
Proof.
  intros [Hc Hp _ _]. unfold remote_of.
  destruct (find_remote (current s) id) as [r'|] eqn:E.
  - intros [= ->]. apply find_remote_some in E as [E ?]. auto.
  - intros [E' ?]%find_remote_some. auto.
Qed.

(** What holds of a datagram that was accepted. *)
Lemma decode_at_inv s wire now t payload s' :
  session_ok s -> decode_at s wire now = Ok (t, payload, s') ->
  exists id pid sent key,
    packet_header (method s) wire = Ok (id, pid, sent) /\ 0 <= pid /\ Z.abs (sent - now) <= 30
    /\ (forall r, remote_of s id = Some r -> check (replay r) pid = true)
    /\ @aead_session C SsError (method s) (be_bytes 8 id) = Ok key
    /\ commit s id pid now key = Ok s'.
Proof.
  intros Hok. unfold decode_at. case_if; [done|].
  intros ([separate body] & E1 & H)%res_bind_ok_inv.
  apply res_bind_ok_inv in H as (head & E2 & H). apply res_bind_ok_inv in H as (tail & E3 & H).
  assert (be_bytes 8 (from_be head) = head) as Ehead.
  { apply be_bytes_from_be. apply slice_len in E2. unfold len in E2. lia. }
  case_if_in H; [done|]. fold (remote_of s (from_be head)) in H.
  destruct (match remote_of s _ with Some _ => _ | None => _ end) eqn:Echk; [done|].
  apply res_bind_ok_inv in H as (key & E4 & H). apply res_bind_ok_inv in H as (plain & E5 & H).
  apply res_bind_ok_inv in H as ([t' p'] & E6 & H).
  apply res_bind_ok_inv in H as (s'' & E7 & H). apply Ok_inj in H. simplify_eq.
  assert (@aead_session C SsError (method s) head = Ok key) as Ekey.
  { destruct (remote_of s (from_be head)) as [r|] eqn:Er.
    - apply remote_of_ok in Er as [[Ek _] Eid]; [|done]. rewrite Eid, Ehead in Ek.
      apply Ok_inj in E4. by subst key.
    - done. }
  unfold read_body in E6. apply res_bind_ok_inv in E6 as ([kind c1] & E8 & H).
  case_if_in H; [done|]. apply res_bind_ok_inv in H as ([sent c2] & E9 & H).
  apply res_bind_ok_inv in H as ([] & E10 & H).
  exists (from_be head), (from_be tail), sent, key. split_and!.
  - unfold packet_header. rewrite E1. cbn [res_bind]. rewrite E2. cbn [res_bind].
    rewrite E3. cbn [res_bind]. rewrite Ekey. cbn [res_bind]. rewrite E5. cbn [res_bind].
    rewrite E8. cbn [res_bind]. by rewrite E9.
  - apply from_be_range.
  - unfold check_time in E10. case_if_in E10; [done|]. unbool. lia.
  - intros r Er. rewrite Er in Echk. by apply negb_false_iff in Echk.
  - by rewrite Ehead.
  - done.
Qed.

Lemma seen_packet_ok m r pid :
  remote_ok m r -> 0 <= pid -> check (replay r) pid = true -> remote_ok m (seen_packet r pid).
Proof.
  intros [Ek [seen Hw]] Hp Hc. split; [done|]. exists (pid :: seen). by apply add_ok.
Qed.

Lemma check_new pid : 0 <= pid -> check Window_new pid = true.
Proof.
  intros Hp. rewrite (check_spec _ _ _ window_new_ok Hp). change (highest Window_new) with 0.
  destruct (decide (pid = 0)) as [->|]; [done|]. by rewrite (proj2 (Z.ltb_lt 0 pid)) by lia.
Qed.

(** The three ways a session commits a packet. *)
Lemma commit_cases s id pid now key s' (P : UdpSession -> Prop) :
  (forall r, find_remote (current s) id = Some r ->
     P (mkSession2022 (method s) (s_id s) (next s) (local s) (Some (seen_packet r pid))
          (previous s) (previous_seen s))) ->
  (forall r, find_remote (current s) id = None -> find_remote (previous s) id = Some r ->
     P (mkSession2022 (method s) (s_id s) (next s) (local s) (current s)
          (Some (seen_packet r pid)) now)) ->
  (find_remote (current s) id = None -> find_remote (previous s) id = None ->
     (is_Some (previous s) -> previous_seen s + 60 <= now) ->
     P (mkSession2022 (method s) (s_id s) (next s) (local s)
          (Some (mkRemote id key (add Window_new pid))) (current s) now)) ->
  commit s id pid now key = Ok s' -> P s'.
Proof.
  intros H1 H2 H3. unfold commit.
  destruct (find_remote (current s) id) as [r|]; [intros H%Ok_inj; subst; auto|].
  destruct (find_remote (previous s) id) as [r|]; [intros H%Ok_inj; subst; auto|].
  destruct (bool_decide (is_Some (previous s)) && _) eqn:E; [done|]. intros H%Ok_inj. subst.
  apply H3; [done|done|]. intros Hp. rewrite bool_decide_eq_true_2 in E by done. simpl in E.
  unbool. lia.
Qed.

Lemma find_remote_none o id r : find_remote o id = None -> o = Some r -> r_id r <> id.
Proof. intros H ->. simpl in H. destruct (_ =? _) eqn:E; [done|]. by unbool. Qed.

Lemma commit_ok s id pid now key s' :
  session_ok s -> 0 <= pid -> (forall r, remote_of s id = Some r -> check (replay r) pid = true) ->
  @aead_session C SsError (method s) (be_bytes 8 id) = Ok key -> commit s id pid now key = Ok s' ->
  session_ok s' /\ method s' = method s.
Proof.
  intros [Hc Hp Hd Hf] Hpid Hchk Hkey. unfold remote_of in Hchk.
  apply (commit_cases _ _ _ _ _ _ (fun s' => session_ok s' /\ method s' = method s)); cbv beta.
  - intros r E. rewrite E in Hchk. apply find_remote_some in E as [E Eid]. split; [|done].
    split; cbn; try done; intros; simplify_eq; eauto using seen_packet_ok.
    by apply (Hd r).
  - intros r En E. rewrite En in Hchk. apply find_remote_some in E as E'. destruct E' as [E' Eid].
    split; [|done]. split; cbn; try done; intros; simplify_eq; eauto using seen_packet_ok.
    by apply (Hd r0 r).
  - intros Ec Ep _. split; [|done]. split; cbn; try done; intros; simplify_eq; eauto.
    + split; [done|]. exists [pid]. cbn. apply add_ok; [apply window_new_ok|done|by apply check_new].
    + cbn. intros ->. by apply (find_remote_none _ _ r' Ec).
Qed.

(** A packet that was accepted at [t] cannot be accepted at [now] or later: its window refuses
    it, or its session was dropped too recently for a new one, or its time is too far back. *)
Definition burnt (s : UdpSession) (id pid sent t now : Z) : Prop :=
  sent + 30 < now \/
  match find_remote (current s) id, find_remote (previous s) id with
  | Some r, _ => check (replay r) pid = false
  | None, Some r => check (replay r) pid = false /\ t <= previous_seen s
  | None, None => is_Some (previous s) /\ t + 60 <= previous_seen s
  end.

Lemma burnt_refused s id pid sent t now now' s' key :
  burnt s id pid sent t now -> now <= now' -> sent <= t + 30 -> Z.abs (sent - now') <= 30 ->
  (forall r, remote_of s id = Some r -> check (replay r) pid = true) ->
  commit s id pid now' key = Ok s' -> False.
Proof.
  intros Hb Hn Hs Ha Hchk. unfold remote_of in Hchk. destruct Hb as [?|Hb]; [lia|].
  apply (commit_cases _ _ _ _ _ _ (fun _ => False)).
  - intros r E. rewrite E in *. specialize (Hchk r eq_refl). congruence.
  - intros r En E. rewrite En, E in *. specialize (Hchk r eq_refl). destruct Hb. congruence.
  - intros En E Ht. rewrite En, E in *. destruct Hb as [Hp Hb]. specialize (Ht Hp). lia.
Qed.

Lemma find_remote_seen r x id :
  find_remote (Some (seen_packet r x)) id
  = if r_id r =? id then Some (seen_packet r x) else None.
Proof. done. Qed.

Lemma find_remote_hit r id : r_id r = id -> find_remote (Some r) id = Some r.
Proof. intros <-. simpl. by rewrite Z.eqb_refl. Qed.

Lemma find_remote_miss r id : r_id r <> id -> find_remote (Some r) id = None.
Proof. intros H. simpl. by rewrite (proj2 (Z.eqb_neq _ _)). Qed.

(** The remote session with another packet added to it refuses the same packets, and that one. *)
Lemma seen_refuses m r x pid :
  remote_ok m r -> 0 <= x -> 0 <= pid -> check (replay r) x = true ->
  pid = x \/ check (replay r) pid = false -> check (replay (seen_packet r x)) pid = false.
Proof. intros [_ [seen Hw]] Hx Hp Hc Hor. by apply (check_add _ seen). Qed.

Lemma burnt_at_once s id pid sent now key s' :
  session_ok s -> 0 <= pid -> (forall r, remote_of s id = Some r -> check (replay r) pid = true) ->
  commit s id pid now key = Ok s' -> burnt s' id pid sent now now.
Proof.
  intros Hok Hpid Hchk. unfold remote_of in Hchk.
  apply (commit_cases _ _ _ _ _ _ (fun s' => burnt s' id pid sent now now)); cbv beta;
    unfold burnt; cbn [current previous previous_seen].
  - intros r E. rewrite E in Hchk. apply find_remote_some in E as [E Eid]. right.
    rewrite find_remote_hit by done. destruct Hok as [Hc _ _ _]. eapply seen_refuses; eauto.
  - intros r En E. rewrite En, E in *. apply find_remote_some in E as [E Eid]. right.
    rewrite find_remote_hit by done. split; [|lia]. destruct Hok as [_ Hp _ _].
    eapply seen_refuses; eauto.
  - intros _ _ _. right. rewrite find_remote_hit by done. cbn [replay].
    apply (check_add _ [] _ _ window_new_ok); auto using check_new.
Qed.

Lemma commit_seen s id pid now now' key s' :
  previous_seen s <= now <= now' -> commit s id pid now' key = Ok s' -> previous_seen s' <= now'.
Proof.
  intros H. apply (commit_cases _ _ _ _ _ _ (fun s' => previous_seen s' <= now')); cbn; intros; lia.
Qed.

Lemma burnt_step s x xpid id pid sent t now now' key s' :
  session_ok s -> previous_seen s <= now -> 0 <= pid -> 0 <= xpid -> t <= now <= now' -> sent <= t + 30 ->
  (forall r, remote_of s x = Some r -> check (replay r) xpid = true) ->
  burnt s id pid sent t now -> commit s x xpid now' key = Ok s' -> burnt s' id pid sent t now'.
Proof.
  intros Hok Hseen Hpid Hx Ht Hs Hchk [?|Hb]; [intros; left; lia|]. destruct Hok as [Hc Hp Hd Hf].
  unfold remote_of in Hchk.
  apply (commit_cases _ _ _ _ _ _ (fun s' => burnt s' id pid sent t now')); cbv beta;
    unfold burnt; cbn [current previous previous_seen].
  - intros r E. right. rewrite E in Hchk. apply find_remote_some in E as [E Eid].
    rewrite E in Hb. rewrite find_remote_seen. unfold find_remote at 1 in Hb.
    destruct (r_id r =? id) eqn:Er; [|done]. eapply seen_refuses; eauto.
  - intros r En E. right. rewrite En, E in Hchk. apply find_remote_some in E as [E Eid].
    destruct (find_remote (current s) id) as [rc|]; [done|].
    rewrite E in Hb. rewrite find_remote_seen. unfold find_remote at 1 in Hb.
    destruct (r_id r =? id) eqn:Er.
    + destruct Hb. split; [|lia]. eapply seen_refuses; eauto.
    + destruct Hb. split; [done|]. lia.
  - intros En E Hnew. destruct (decide (x = id)) as [->|Hne].
    + rewrite En, E in Hb. destruct Hb as [Hb1 Hb2]. left. specialize (Hnew Hb1). lia.
    + right. rewrite find_remote_miss by done. destruct (find_remote (current s) id); [split; [done|lia]|].
      destruct (previous s) as [rp|] eqn:Ep.
      * specialize (Hnew (mk_is_Some _ _ eq_refl)). specialize (Hf (mk_is_Some _ _ eq_refl)).
        split; [done|]. destruct (find_remote (Some rp) id); lia.
      * simpl in Hb. destruct Hb as [[? ?] _]. done.
Qed.

(** What a program does with a session. *)
Inductive session_op :=
| Send (t : Target) (payload : list byte) (timestamp : Z) (nonce : list byte)
| Receive (wire : list byte) (timestamp : Z).

Definition op_step (s : UdpSession) (op : session_op) : UdpSession :=
  match op with
  | Send t payload timestamp nonce => snd (encode_at s t payload timestamp nonce)
  | Receive wire timestamp =>
    match decode_at s wire timestamp with Ok (_, _, s') => s' | _ => s end
  end.

Definition session_run (s : UdpSession) (ops : list session_op) : UdpSession :=
  fold_left op_step ops s.

Definition receive_times (ops : list session_op) : list Z :=
  flat_map (fun op => match op with Send _ _ _ _ => [] | Receive _ t => [t] end) ops.

Lemma encode_at_keeps s t payload timestamp nonce :
  exists n, snd (encode_at s t payload timestamp nonce)
  = mkSession2022 (method s) (s_id s) n (local s) (current s) (previous s) (previous_seen s).
Proof.
  unfold encode_at. destruct (encode_address t); [|destruct s; by eexists..].
  case_if; [destruct s; by eexists|]. destruct (next s) eqn:E; [by eexists|destruct s; by eexists].
Qed.

(** A property of the time and the session that sending, receiving and waiting keep holds
    whenever the clock does not go back. *)
Lemma session_run_keeps (P : Z -> UdpSession -> Prop) ops :
  (forall s now t payload timestamp nonce,
     P now s -> P now (snd (encode_at s t payload timestamp nonce))) ->
  (forall s now now' wire t payload s', P now s -> now <= now' ->
     decode_at s wire now' = Ok (t, payload, s') -> P now' s') ->
  (forall s now now', P now s -> now <= now' -> P now' s) ->
  forall s now rest, P now s -> Sorted Z.le (now :: receive_times ops ++ rest) ->
  exists now', now <= now' /\ P now' (session_run s ops) /\ Sorted Z.le (now' :: rest).
Proof.
  intros Hsend Hrecv Hwait. induction ops as [|op ops IH]; intros s now rest HP Hsort.
  - exists now. split_and!; [lia|done|done].
  - destruct op as [t payload timestamp nonce|wire timestamp]; cbn [session_run fold_left].
    + apply IH; [by apply Hsend|done].
    + simpl in Hsort. apply Sorted_inv in Hsort as [Hsort Hhd]. apply HdRel_inv in Hhd.
      destruct (IH (op_step s (Receive wire timestamp)) timestamp rest) as (now' & ? & ? & ?).
      * simpl. destruct (decode_at s wire timestamp) as [[[? ?] ?]| |] eqn:E; eauto.
      * done.
      * exists now'. split_and!; [lia|done|done].
Qed.

Definition session_inv (m : Method) (now : Z) (s : UdpSession) : Prop :=
  session_ok s /\ method s = m /\ previous_seen s <= now.

Lemma session_inv_send m now s t payload timestamp nonce :
  session_inv m now s -> session_inv m now (snd (encode_at s t payload timestamp nonce)).
Proof.
  destruct (encode_at_keeps s t payload timestamp nonce) as [n ->]. intros ([? ? ? ?] & ? & ?).
  done.
Qed.

Lemma session_inv_receive m now now' s wire t payload s' :
  session_inv m now s -> now <= now' -> decode_at s wire now' = Ok (t, payload, s') ->
  session_inv m now' s'.
Proof.
  intros (Hok & Hm & Hseen) Hle H. apply decode_at_inv in H; [|done].
  destruct H as (id & pid & sent & key & _ & Hp & _ & Hchk & Hkey & Hcommit).
  apply (commit_seen s id pid now now' key s' (conj Hseen Hle)) in Hcommit as Hs'.
  apply commit_ok in Hcommit as [? Hm']; [|done..]. split_and!; [done|congruence|done].
Qed.

Definition burnt_inv (m : Method) (id pid sent t now : Z) (s : UdpSession) : Prop :=
  session_inv m now s /\ t <= now /\ burnt s id pid sent t now.

Lemma burnt_inv_receive m id pid sent t now now' s wire tg payload s' :
  0 <= pid -> sent <= t + 30 -> burnt_inv m id pid sent t now s -> now <= now' ->
  decode_at s wire now' = Ok (tg, payload, s') -> burnt_inv m id pid sent t now' s'.
Proof.
  intros Hp Hs (Hinv & Ht & Hb) Hle H.
  split_and!; [by eapply session_inv_receive|lia|]. destruct Hinv as (Hok & _ & Hseen).
  apply decode_at_inv in H; [|done].
  destruct H as (x & xpid & xsent & key & _ & Hxp & _ & Hchk & _ & Hcommit).
  by eapply (burnt_step s x xpid); eauto.
Qed.

Lemma burnt_wait s id pid sent t now now' :
  burnt s id pid sent t now -> now <= now' -> burnt s id pid sent t now'.
Proof. intros [?|?] ?; [left; lia|by right]. Qed.

(** Once a datagram has been accepted, it stays burnt. *)
Lemma accepted_burnt m s wire t tg payload s' :
  session_ok s -> method s = m -> previous_seen s <= t ->
  decode_at s wire t = Ok (tg, payload, s') ->
  exists id pid sent, packet_header m wire = Ok (id, pid, sent) /\ 0 <= pid /\ sent <= t + 30
    /\ burnt_inv m id pid sent t t s'.
Proof.
  intros Hok Hm Hseen H. pose proof H as H'. apply decode_at_inv in H as
    (id & pid & sent & key & Hh & Hp & Ha & Hchk & Hkey & Hcommit); [|done].
  rewrite Hm in Hh. exists id, pid, sent. split_and!; [done|done|lia|]. split_and!; [|lia|].
  - apply (session_inv_receive m t t s wire tg payload s'); [done|lia|done].
  - by eapply burnt_at_once.
Qed.

(** C20: A Shadowsocks 2022 session never accepts the same datagram twice: whatever is sent and
    received before, between and after, and however the server's sessions come and go, if the
    clock does not go back then a datagram that was accepted once is refused from then on. *)
Theorem ss2022_no_replay m sid s0 ops1 wire t1 t payload s1 ops2 t2 :
  with_id m sid = Ok s0 ->
  Sorted Z.le (0 :: receive_times ops1 ++ t1 :: receive_times ops2 ++ [t2]) ->
  decode_at (session_run s0 ops1) wire t1 = Ok (t, payload, s1) ->
  forall r, decode_at (session_run s1 ops2) wire t2 <> Ok r.
Proof.
  intros Hnew Hsort Hacc [[tg' payload'] s2] Hagain.
  assert (session_inv m 0 s0) as Hinv.
  { apply with_id_ok in Hnew as (? & ? & ?). split_and!; [done..|lia]. }
  destruct (session_run_keeps (session_inv m) ops1) with (5 := Hsort) (4 := Hinv)
    as (now & _ & (Hok & Hm & Hseen) & Hsort').
  { intros. by apply session_inv_send. }
  { intros. by eapply session_inv_receive. }
  { intros ? ? ? (? & ? & ?) ?. split_and!; [done..|lia]. }
  apply Sorted_inv in Hsort' as [Hsort' Hhd]. apply HdRel_inv in Hhd.
  apply (accepted_burnt m) in Hacc as (id & pid & sent & Hh & Hp & Hs & Hb); [|done|done|lia].
  destruct (session_run_keeps (burnt_inv m id pid sent t1) ops2) with (5 := Hsort') (4 := Hb)
    as (now2 & _ & ((Hok2 & Hm2 & Hseen2) & Ht2 & Hb2) & Hsort2).
  { intros s now' tg pl ts nonce (Hi & ? & Hbn). split_and!; [by apply session_inv_send|done|].
    by destruct (encode_at_keeps s tg pl ts nonce) as [n ->]. }
  { intros. by eapply burnt_inv_receive. }
  { intros ? ? ? ((? & ? & ?) & ? & ?) ?. split_and!; [split_and!; [done..|lia]|lia|].
    by eapply burnt_wait. }
  apply Sorted_inv in Hsort2 as [_ Hhd2]. apply HdRel_inv in Hhd2.
  apply decode_at_inv in Hagain as (id' & pid' & sent' & key & Hh' & _ & Ha & Hchk & _ & Hcommit);
    [|done]. rewrite Hm2, Hh in Hh'. apply Ok_inj in Hh'. simplify_eq.
  by eapply burnt_refused; eauto.
Qed.

End NoReplay.

(** ** The window as a set *)

(** The window and the packets it has let through, newest first, after each of [ids] was offered. *)
Fixpoint window_run (w : Window) (accepted ids : list Z) : Window * list Z :=
  match ids with
  | [] => (w, accepted)
  | id :: ids =>
    if check w id then window_run (add w id) (id :: accepted) ids else window_run w accepted ids
  end.

Lemma add_highest w id : highest (add w id) = Z.max (highest w) id.
Proof. unfold add. destruct (highest w <? id) eqn:E; unbool; cbn [highest]; lia. Qed.

Lemma window_run_ok ids w accepted w' accepted' :
  Forall (Z.le 0) ids -> window_ok w accepted -> highest w = foldr Z.max 0 accepted ->
  NoDup accepted -> window_run w accepted ids = (w', accepted') ->
  window_ok w' accepted' /\ highest w' = foldr Z.max 0 accepted' /\ NoDup accepted'.
Proof.
  revert w accepted. induction ids as [|id ids IH]; intros w accepted Hids Hok Hh Hnd.
  - by intros [= <- <-].
  - inversion_clear Hids. cbn [window_run]. destruct (check w id) eqn:E; [|by apply IH].
    apply IH; [done|by apply add_ok| |].
    + rewrite add_highest, Hh. simpl. lia.
    + constructor; [|done]. intros Hin. rewrite (check_spec w accepted id) in E by done.
      destruct Hok as (_ & _ & Hall & _). apply (Forall_In _ _ id) in Hall;
        [|by apply list_elem_of_In]. cbn beta in Hall.
      rewrite (proj2 (Z.ltb_ge _ _)), bool_decide_eq_true_2, andb_false_r in E by (done || lia).
      done.
Qed.

(** The replay window is the set of the packets it let through: whatever packets were offered,
    it lets through exactly those that are not in the set and not more than 8128 below its
    largest; so no packet is let through twice. The 128 words of its ring are enough. *)
Theorem window_refines_set ids w accepted id :
  Forall (Z.le 0) ids -> 0 <= id -> window_run Window_new [] ids = (w, accepted) ->
  NoDup accepted
  /\ (check w id = true <-> (id ∉ accepted) /\ foldr Z.max 0 accepted - id <= 8128).
Proof.
  intros Hids Hid H.
  apply window_run_ok in H as (Hok & Hh & Hnd); [|done|apply window_new_ok|done|constructor].
  split; [done|]. rewrite (check_spec w accepted id Hok Hid), <- Hh.
  assert (id ∈ accepted -> id <= highest w) as Hin.
  { intros Hin. destruct Hok as (_ & _ & Hall & _).
    apply (Forall_In _ _ id) in Hall; [|by apply list_elem_of_In]. cbn beta in Hall. lia. }
  rewrite orb_true_iff, andb_true_iff, Z.ltb_lt, Z.leb_le, negb_true_iff, bool_decide_eq_false.
  split; [intros [?|[? ?]]; split; try done; try lia; intros ?%Hin; lia|intros [? ?]; auto].
Qed.

(** ** Nonces *)

Fixpoint le_value (l : list byte) : Z :=
  match l with [] => 0 | b :: l => u8 b + 256 * le_value l end.

Lemma le_value_range l : 0 <= le_value l < 256 ^ len l.
Proof.
  induction l as [|b l IH]; [done|]. cbn [le_value]. unfold len in *. cbn [length].
  rewrite Nat2Z.inj_succ, Z.pow_succ_r by lia. pose proof (u8_range b). nia.
Qed.

Lemma increment_spec l :
  length (fst (increment l)) = length l
  /\ le_value (fst (increment l)) = le_value l + 1 - (if snd (increment l) then 256 ^ len l else 0).
Proof.
  induction l as [|b l [IHl IH]]; [done|]. cbn [increment le_value].
  pose proof (u8_range b) as Hb. rewrite u8_to_u8.
  destruct (decide (u8 b = 255)) as [E|E].
  - rewrite E. cbn [Z.eqb negb]. change ((255 + 1) mod 256 =? 0) with true. cbn [negb].
    destruct (increment l) as [l' wr]. cbn [fst snd] in *. split; [simpl; lia|].
    cbn [le_value]. rewrite u8_to_u8. change ((255 + 1) mod 256) with 0. rewrite IH.
    unfold len. cbn [length]. rewrite Nat2Z.inj_succ, Z.pow_succ_r by lia. destruct wr; lia.
  - rewrite Z.mod_small by lia. rewrite (proj2 (Z.eqb_neq (u8 b + 1) 0)) by lia.
    cbn [negb fst snd le_value]. split; [done|]. rewrite u8_to_u8, Z.mod_small by lia. lia.
Qed.

(** The nonces of the first [n] records. *)
Fixpoint nonces (n : nat) (r : Records) : list (list byte) :=
  match n with
  | O => []
  | S n => match records_next r with Ok (nonce, r) => nonce :: nonces n r | _ => [] end
  end.

Lemma nonces_spec n r i nonce :
  exhausted r = false -> nonces n r !! i = Some nonce ->
  length nonce = length (rec_nonce r) /\ le_value nonce = le_value (rec_nonce r) + Z.of_nat i.
Proof.
  revert r i. induction n as [|n IH]; intros r i Hex Hi; [done|]. cbn [nonces] in Hi.
  unfold records_next in Hi. rewrite Hex in Hi. pose proof (increment_spec (rec_nonce r)) as [Hl Hv].
  destruct (increment (rec_nonce r)) as [l' wr] eqn:Einc. cbn [fst snd] in *.
  destruct i as [|i]; [injection Hi as <-; split; [done|lia]|]. cbn in Hi.
  destruct wr; [by destruct n|]. apply IH in Hi as [Hl' Hv']; [|done]. cbn [rec_nonce] in *.
  split; [congruence|lia].
Qed.

Lemma nonces_length n r :
  exhausted r = false ->
  Z.of_nat (length (nonces n r))
  = Z.min (Z.of_nat n) (256 ^ len (rec_nonce r) - le_value (rec_nonce r)).
Proof.
  revert r. induction n as [|n IH]; intros r Hex; pose proof (le_value_range (rec_nonce r)).
  { cbn [nonces length]. lia. }
  cbn [nonces]. unfold records_next. rewrite Hex.
  pose proof (increment_spec (rec_nonce r)) as [Hl Hv].
  destruct (increment (rec_nonce r)) as [l' wr] eqn:Einc. cbn [fst snd] in *.
  pose proof (le_value_range l') as Hr. unfold len in *. rewrite Hl in Hr. cbn [length].
  destruct wr.
  - destruct n; cbn [nonces length records_next exhausted]; lia.
  - rewrite Nat2Z.inj_succ, IH by done. cbn [rec_nonce]. unfold len. rewrite Hl. lia.
Qed.

(** C28: The nonces of a Shadowsocks 2022 stream count up, and none is ever used twice: however
    many records are sealed there are at most 2^96 of them, the [i]-th one is [i] in little-endian,
    and the stream is refused once they are used up. *)
Theorem records_nonces_fresh n :
  NoDup (nonces n Records_new)
  /\ (forall i nonce, nonces n Records_new !! i = Some nonce -> le_value nonce = Z.of_nat i)
  /\ Z.of_nat (length (nonces n Records_new)) = Z.min (Z.of_nat n) (2 ^ 96).
Proof.
  assert (forall i nonce, nonces n Records_new !! i = Some nonce -> le_value nonce = Z.of_nat i)
    as Hv by (intros i nonce H; by apply nonces_spec in H as [_ H]).
  split_and!; [|done|by rewrite nonces_length].
  apply NoDup_alt. intros i j nonce Hi%Hv Hj%Hv. lia.
Qed.

(** ** Ciphers that keep their documented contract *)

Class CiphersLaws `{C : Ciphers} : Prop := {
  seal_fits k n b : len n = 12 -> len b <= 65535 ->
    exists c, aead_seal k n b = Some c /\ len c = len b + 16 /\ aead_open k n c = Some b;
  open_length k n c b : aead_open k n c = Some b -> len c = len b + 16;
  aes_length k b : len b = 16 -> len (aes_encrypt_block k b) = 16;
  aes_decrypt_length k b : len b = 16 -> len (aes_decrypt_block k b) = 16;
  aes_inverse k b : len b = 16 -> aes_decrypt_block k (aes_encrypt_block k b) = b;
  hchacha_length k n : len (hchacha20 k n) = 32;
  derive_length c k : len (blake3_derive_key c k) = 32;
  hash_length k : len (blake3_hash k) = 16;
  sha256_length b : len (sha256 b) = 32
}.

(** ** Addresses *)

Lemma encode_address_no_panic t : encode_address t <> Panic.
Proof.
  unfold encode_address. case_if; [done|].
  destruct (addr t) as [[?|?]|d]; cbn; try done. by case_if.
Qed.

(** What was encoded is read back, whatever follows it. *)
Lemma address_roundtrip t a rest :
  wf_target t -> network t = Udp -> encode_address t = Ok a ->
  decode_address (a ++ rest) = Ok (t, len a).
Proof.
  intros [Ha Hp] Hn Henc. pose proof Henc as Henc'. unfold encode_address in Henc.
  case_if_in Henc; [done|]. apply res_bind_ok_inv in Henc as (bytes & Hb & Henc).
  apply Ok_inj in Henc. subst a. destruct t as [ad p n]. cbn [addr port network] in *. subst n.
  destruct ad as [[ip|ip]|d]; cbn [wf_addr wf_ip] in Ha.
  - apply Ok_inj in Hb. subst bytes. cbn [app]. unfold decode_address. rewrite u8_to_u8_small by lia.
    cbn [Z.eqb Pos.eqb].
    rewrite (get_range_eq [to_u8 1] (octets4 ip) (be_bytes 2 p ++ rest)) by done.
    cbn [ok_or res_bind]. rewrite octets4_inv by done.
    rewrite (get_range_eq (to_u8 1 :: octets4 ip) (be_bytes 2 p) rest) by done.
    cbn [ok_or res_bind]. rewrite from_be_bytes_small by done. rewrite Henc'. cbn [res_bind]. done.
  - apply Ok_inj in Hb. subst bytes. cbn [app]. unfold decode_address. rewrite u8_to_u8_small by lia.
    cbn [Z.eqb Pos.eqb].
    rewrite (get_range_eq [to_u8 4] (octets6 ip) (be_bytes 2 p ++ rest)) by done.
    cbn [ok_or res_bind]. rewrite octets6_inv by done.
    rewrite (get_range_eq (to_u8 4 :: octets6 ip) (be_bytes 2 p) rest) by done.
    cbn [ok_or res_bind]. rewrite from_be_bytes_small by done. rewrite Henc'. cbn [res_bind]. done.
  - case_if_in Hb; [done|]. apply Ok_inj in Hb. subst bytes. cbn [app]. pose proof (len_nonneg d).
    assert (len d <= 255) as Hd.
    { apply orb_false_iff in Heqb0 as [H1 _]. apply orb_false_iff in H1 as [_ H1]. by unbool. }
    unfold decode_address. rewrite u8_to_u8_small by lia. cbn [Z.eqb Pos.eqb lookup list_lookup].
    cbn [ok_or res_bind]. rewrite u8_to_u8_small by lia.
    rewrite (get_range_eq [to_u8 3; to_u8 (len d)] d (be_bytes 2 p ++ rest))
      by (try done; by rewrite <- !app_assoc).
    cbn [ok_or res_bind]. rewrite from_utf8_ok by done. cbn [ok_or res_bind].
    rewrite (get_range_eq (to_u8 3 :: to_u8 (len d) :: d) (be_bytes 2 p) rest)
      by (try (by rewrite <- !app_assoc); len_simpl; lia).
    cbn [ok_or res_bind]. rewrite from_be_bytes_small by done. rewrite Henc'. cbn [res_bind].
    do 2 f_equal. len_simpl. lia.
Qed.

Lemma ok_or_ok {E A} (o : option A) (e : E) a : ok_or o e = Ok a -> o = Some a.
Proof. destruct o; [|done]. by intros ->%Ok_inj. Qed.

(** An address that was read is inside the bytes. *)
Lemma decode_address_spec bytes :
  decode_address bytes <> Panic
  /\ forall t n, decode_address bytes = Ok (t, n) -> 0 <= n <= len bytes.
Proof.
  unfold decode_address. destruct bytes as [|kind rest]; [done|]. set (bytes := kind :: rest).
  split.
  - apply res_bind_no_panic.
    { repeat case_if; [..|done]; repeat (apply res_bind_no_panic; [auto with rust|intros ? _]);
        done. }
    intros [a stop] _. repeat (apply res_bind_no_panic;
      [auto using encode_address_no_panic with rust|intros ? _]). done.
  - intros t n ([a stop] & _ & H)%res_bind_ok_inv.
    apply res_bind_ok_inv in H as (p & Hp & H). apply ok_or_ok, get_range_some in Hp as (? & ? & _).
    apply res_bind_ok_inv in H as (? & _ & H). apply Ok_inj in H. simplify_eq. lia.
Qed.

Lemma cur_take_spec c n :
  0 <= n -> cur_take c n <> Panic
  /\ forall x y, cur_take c n = Ok (x, y) -> c = x ++ y /\ len x = n.
Proof.
  intros Hn. unfold cur_take. case_if; [done|]. split; [done|]. intros x y [= <- <-]%Ok_inj. unbool.
  split; [by rewrite take_drop|]. unfold len in *. rewrite length_take. lia.
Qed.

Lemma cur_take_app x y n : len x = n -> cur_take (x ++ y) n = Ok (x, y).
Proof.
  intros Hn. unfold cur_take. pose proof (len_nonneg y). guard_false by (rewrite len_app; lia).
  replace (Z.to_nat n) with (length x) by (unfold len in Hn; lia).
  by rewrite take_app_length, drop_app_length.
Qed.

Lemma cur_be_app x y n : len x = n -> cur_be (x ++ y) n = Ok (from_be x, y).
Proof. intros Hn. unfold cur_be. by rewrite cur_take_app. Qed.

Lemma cur_be_no_panic c n : 0 <= n -> cur_be c n <> Panic.
Proof.
  intros Hn. unfold cur_be. apply res_bind_no_panic; [by apply cur_take_spec|]. by intros [? ?].
Qed.

Lemma cur_target_no_panic c : cur_target c <> Panic.
Proof.
  unfold cur_target. destruct (decode_address_spec c) as [Hp Ho]. apply res_bind_no_panic; [done|].
  intros [t n] E. apply res_bind_no_panic; [|done]. apply slice_from_no_panic. by eapply Ho.
Qed.

Lemma read_body_no_panic `{C : Ciphers} s body now : read_body s body now <> Panic.
Proof.
  unfold read_body. apply res_bind_no_panic; [by apply cur_be_no_panic|]. intros [kind c1] _.
  case_if; [done|]. apply res_bind_no_panic; [by apply cur_be_no_panic|]. intros [sent c2] _.
  apply res_bind_no_panic; [unfold check_time; by case_if|]. intros [] _.
  apply res_bind_no_panic; [by apply cur_be_no_panic|]. intros [client c3] _.
  case_if; [done|]. apply res_bind_no_panic; [by apply cur_be_no_panic|]. intros [padding c4] E.
  unfold cur_be in E. apply res_bind_ok_inv in E as ([h r] & _ & E). apply Ok_inj in E. simplify_eq.
  apply res_bind_no_panic; [apply cur_take_spec, from_be_range|]. intros [? c5] _.
  apply cur_target_no_panic.
Qed.

Section Sessions.
Context `{CL : CiphersLaws}.

(** What [Method::new] guarantees. *)
Record method_ok (m : Method) : Prop := {
  mo_keys : keys m <> [];
  mo_lengths : Forall (fun k => len k = key_len (cipher m)) (keys m);
  mo_max : len (keys m) <= MAX_KEYS;
  mo_chacha : cipher m = ChaCha20Poly1305 -> len (keys m) = 1
}.

Lemma key_len_range c : 16 <= key_len c <= 32 /\ (key_len c = 16 \/ key_len c = 32).
Proof. unfold key_len. case_bool_decide; lia. Qed.

Lemma read_keys_ok c parts ks ks' :
  Forall (fun k => len k = key_len c) ks -> len ks <= MAX_KEYS -> read_keys c parts ks = Ok ks' ->
  Forall (fun k => len k = key_len c) ks' /\ len ks' <= MAX_KEYS
  /\ len ks' = len ks + len parts.
Proof.
  revert ks. induction parts as [|part parts IH]; intros ks Hks Hmax; cbn [read_keys].
  - intros ->%Ok_inj. split_and!; [done..|unfold len; simpl; lia].
  - case_if; [done|]. intros (key & _ & H)%res_bind_ok_inv. case_if_in H; [done|].
    apply res_bind_ok_inv in H as (key' & E & H). unbool.
    assert (len key' = key_len c) as Hk.
    { case_if_in E; unbool; [apply slice_len in E; lia|]. apply Ok_inj in E. subst. lia. }
    apply IH in H as (? & ? & El).
    + split_and!; [done..|]. rewrite El. unfold len. rewrite length_app. simpl. lia.
    + apply Forall_app. auto.
    + unfold len in *. rewrite length_app. simpl. lia.
Qed.

Lemma split_colon_ne s : split_colon s <> [].
Proof. destruct s; simpl; [done|]. case_bool_decide; [done|]. by destruct (split_colon s). Qed.

Lemma method_new_ok name password m : Method_new name password = Ok m -> method_ok m.
Proof.
  unfold Method_new. intros (c & _ & H)%res_bind_ok_inv. case_if_in H; [done|].
  apply res_bind_ok_inv in H as (ks & Hks & H). apply read_keys_ok in Hks as (Hl & Hm & Hn);
    [|by apply Forall_nil|done].
  destruct (bool_decide (c = _) && _) eqn:Ec; [done|]. apply Ok_inj in H. subst m.
  split; cbn [keys cipher]; [|done|done|].
  - intros ->. pose proof (split_colon_ne password). destruct (split_colon password); [done|].
    unfold len in Hn. simpl in Hn. lia.
  - intros ->. rewrite bool_decide_eq_true_2 in Ec by done. simpl in Ec. apply negb_false_iff in Ec.
    by unbool.
Qed.

Lemma psk_ok {E} m : method_ok m -> exists k, @psk E m = Ok k /\ len k = key_len (cipher m).
Proof.
  intros [Hne Hl _ _]. unfold psk.
  destruct (keys m !! pred (length (keys m))) as [k|] eqn:E'.
  - exists k. split; [done|]. apply (Forall_lookup_1 _ _ _ _ Hl E').
  - exfalso. apply lookup_ge_None in E'. destruct (keys m); [done|]. simpl in E'. lia.
Qed.

Lemma aead_session_ok {E} m salt : method_ok m -> exists k, @aead_session C E m salt = Ok k.
Proof.
  intros Hm. unfold aead_session. destruct (@psk_ok E m Hm) as (k & -> & _). cbn [res_bind].
  pose proof (key_len_range (cipher m)).
  destruct (slice (derive _ k salt) 0 (key_len (cipher m))) as [d| |] eqn:Es.
  - cbn [res_bind]. apply slice_len in Es. unfold Key_new. rewrite (proj2 (Z.eqb_eq _ _)) by lia.
    by eexists.
  - unfold slice in Es. case_if_in Es; done.
  - exfalso. revert Es. apply slice_no_panic; unfold derive; rewrite ?derive_length; lia.
Qed.
Lemma block_ok {E} c k b d :
  len k = key_len c -> len b = 16 -> exists r, @block C E k b d = Ok r /\ len r = 16.
Proof.
  intros Hk Hb. unfold block. pose proof (key_len_range c) as [_ Hc].
  assert ((len k =? 16) || (len k =? 32) = true) as ->.
  { apply orb_true_iff. rewrite !Z.eqb_eq. lia. }
  eexists. split; [done|]. destruct d; auto using aes_length, aes_decrypt_length.
Qed.

Lemma identity_headers_ok c ks separate :
  Forall (fun k => len k = key_len c) ks -> ks <> [] -> len separate = 16 ->
  exists ids, identity_headers ks separate = Ok ids /\ len ids = (len ks - 1) * 16.
Proof.
  intros Hks Hne Hs. induction ks as [|k0 [|k1 ks] IH]; [done|by exists []|].
  inversion_clear Hks as [|? ? Hk0 Hks']. destruct IH as (ids & E & Hl); [done..|].
  cbn [identity_headers] in E |- *.
  destruct (@block_ok SsError c k0 (zip_with (fun a b => to_u8 (Z.lxor (u8 a) (u8 b)))
    (identity_hash k1) separate) false) as (r & -> & Hr); [done| |].
  { pose proof (hash_length k1) as Hh. unfold identity_hash, len in *. rewrite length_zip_with. lia. }
  cbn [res_bind]. rewrite E. cbn [res_bind]. eexists. split; [done|].
  unfold len in *. rewrite length_app. cbn [length] in *. lia.
Qed.

Lemma xchacha_ietf_ok {E} key nonce :
  len key = 32 -> len nonce = 24 ->
  exists k n, @xchacha_ietf C E key nonce = Ok (k, n) /\ len n = 12.
Proof.
  intros Hk Hn. unfold xchacha_ietf, Key_new. rewrite Hk, hchacha_length. cbn. do 2 eexists.
  split; [done|]. unfold len in *. rewrite !length_cons, length_drop. lia.
Qed.

(** Sealing a packet that is not too long: it cannot fail, the length it gives, and what the
    separate header becomes. *)
Lemma seal_packet_ok m key nonce separate body :
  method_ok m -> len nonce = 24 -> len separate = 16 -> len body + 16 <= 65535 ->
  exists wire, seal_packet m key nonce separate body = Ok wire
    /\ len wire = 16 + extra m + len body + TAG_LENGTH
    /\ (cipher m <> ChaCha20Poly1305 -> exists k0 rest,
         keys m !! 0%nat = Some k0 /\ wire = aes_encrypt_block k0 separate ++ rest).
Proof.
  intros Hm Hnonce Hs Hb. unfold seal_packet, extra, TAG_LENGTH.
  case_bool_decide as Ec.
  - destruct (@psk_ok SsError m Hm) as (k & -> & Hk). cbn [res_bind].
    rewrite Ec in Hk. change (key_len ChaCha20Poly1305) with 32 in Hk. unfold xchacha_seal.
    destruct (@xchacha_ietf_ok SsError k nonce Hk Hnonce) as (k' & n & -> & Hn). cbn [res_bind].
    destruct (seal_fits k' n (separate ++ body) Hn) as (c & -> & Hc & _); [rewrite len_app; lia|].
    eexists. split_and!; [done| |done]. rewrite len_app, Hc, len_app. lia.
  - destruct Hm as [Hne Hl Hmax Hcc].
    destruct (seal_fits key (drop 4 separate) body) as (c & -> & Hc & _);
      [unfold len in *; rewrite length_drop; lia|lia|]. cbn [ok_or res_bind].
    destruct (identity_headers_ok _ _ separate Hl Hne Hs) as (ids & -> & Hids). cbn [res_bind].
    destruct (keys m) as [|k0 ks] eqn:Ek; [done|]. inversion_clear Hl as [|? ? Hk0 _].
    change (index (k0 :: ks) 0) with (@Ok SsError _ k0). cbn [res_bind].
    destruct (@block_ok SsError _ k0 separate false Hk0 Hs) as (r & Er & Hr). rewrite Er.
    unfold block in Er. case_if_in Er; [|done]. apply Ok_inj in Er. cbn [res_bind].
    eexists. split_and!; [done|rewrite !len_app; lia|]. intros _. exists k0, (ids ++ c). by subst r.
Qed.

(** The datagram [encode_at] makes when it makes one. *)
Lemma encode_at_ok s t payload timestamp nonce :
  method_ok (method s) -> len nonce = 24 ->
  fst (encode_at s t payload timestamp nonce) <> Panic
  /\ forall wire, fst (encode_at s t payload timestamp nonce) = Ok wire ->
    exists a pid, encode_address t = Ok a /\ next s = Some pid
      /\ next (snd (encode_at s t payload timestamp nonce))
         = (if pid =? u64_max then None else Some (pid + 1))
      /\ len wire = 16 + extra (method s) + 11 + len a + TAG_LENGTH + len payload
      /\ (cipher (method s) <> ChaCha20Poly1305 -> exists k0 rest,
           keys (method s) !! 0%nat = Some k0
           /\ wire = aes_encrypt_block k0 (be_bytes 8 (s_id s) ++ be_bytes 8 pid) ++ rest).
Proof.
  intros Hm Hnonce. unfold encode_at. pose proof (encode_address_no_panic t).
  destruct (encode_address t) as [a|e|] eqn:Ea; [|done..].
  destruct (negb _ || _) eqn:Efit; [done|]. apply orb_false_iff in Efit as [_ Efit]. unbool.
  destruct (next s) as [pid|]; [|done]. cbn [fst snd next method s_id local].
  set (separate := be_bytes 8 (s_id s) ++ be_bytes 8 pid).
  set (body := [to_u8 0] ++ _).
  assert (len body = 11 + len a + len payload) as Hb by (unfold body; len_simpl; lia).
  assert (0 <= extra (method s)).
  { unfold extra. case_bool_decide; [lia|]. destruct Hm as [Hne _ _ _].
    destruct (keys (method s)); [done|]. unfold len. cbn [length]. lia. }
  unfold MAX_UDP_WIRE_LENGTH, TAG_LENGTH in *.
  destruct (seal_packet_ok (method s) (local s) nonce separate body) as (wire & -> & Hl & Haes);
    [done|done|by unfold separate; rewrite len_app, !len_be_bytes|lia|].
  split; [done|]. intros ? <-%Ok_inj. exists a, pid. split_and!; try done.
  unfold TAG_LENGTH in *. lia.
Qed.

Lemma open_separate_ok m wire :
  method_ok m -> 24 <= len wire ->
  open_separate m wire <> Panic
  /\ forall separate body, open_separate m wire = Ok (separate, body) -> len separate = 16.
Proof.
  intros Hm Hw. unfold open_separate. destruct (@psk_ok SsError m Hm) as (k & -> & Hk).
  cbn [res_bind]. destruct (decide (cipher m = ChaCha20Poly1305)) as [Ec|Ec].
  - rewrite bool_decide_eq_true_2 by done. rewrite Ec in Hk.
    change (key_len ChaCha20Poly1305) with 32 in Hk. split.
    + apply res_bind_no_panic; [apply slice_from_no_panic; lia|]. intros sealed _.
      apply res_bind_no_panic; [apply slice_no_panic; lia|]. intros nonce Hn%slice_len.
      apply res_bind_no_panic; [|intros body _; by case_if].
      unfold xchacha_open. destruct (@xchacha_ietf_ok SsError k nonce Hk ltac:(lia)) as (? & ? & -> & _).
      apply ok_or_no_panic.
    + intros separate body H. apply res_bind_ok_inv in H as (sealed & _ & H).
      apply res_bind_ok_inv in H as (nonce & _ & H). apply res_bind_ok_inv in H as (b & _ & H).
      case_if_in H; [done|]. apply Ok_inj in H. simplify_eq. unbool. unfold len in *.
      rewrite length_take. lia.
  - rewrite bool_decide_eq_false_2 by done.
    destruct (slice wire 0 16) as [head|e|] eqn:Eh; [|done|].
    2:{ exfalso. revert Eh. apply slice_no_panic; lia. }
    apply slice_len in Eh. cbn [res_bind].
    destruct (@block_ok SsError (cipher m) k head true Hk ltac:(lia)) as (r & -> & Hr). split.
    + apply res_bind_no_panic; [apply slice_from_no_panic; lia|]. done.
    + intros separate body H. apply res_bind_ok_inv in H as (b & _ & H). apply Ok_inj in H.
      by simplify_eq.
Qed.

(** Whatever arrives is accepted or refused. *)
Lemma decode_at_no_panic s wire now : method_ok (method s) -> decode_at s wire now <> Panic.
Proof.
  intros Hm. unfold decode_at. destruct (_ || _) eqn:Elen; [done|].
  apply orb_false_iff in Elen as [Elen _]. unbool. unfold TAG_LENGTH in Elen.
  destruct (open_separate_ok (method s) wire Hm ltac:(lia)) as [Hp Hl].
  apply res_bind_no_panic; [done|]. intros [separate body] E. apply Hl in E.
  apply res_bind_no_panic; [apply slice_no_panic; lia|]. intros head _.
  apply res_bind_no_panic; [apply slice_from_no_panic; lia|]. intros tail _.
  case_if; [done|]. fold (remote_of s (from_be head)). case_if; [done|].
  apply res_bind_no_panic.
  { destruct (remote_of s _); [done|]. by destruct (@aead_session_ok SsError (method s) head Hm) as [? ->]. }
  intros key _. apply res_bind_no_panic; [case_bool_decide; auto with rust|]. intros plain _.
  apply res_bind_no_panic; [apply read_body_no_panic|]. intros [t payload] _.
  apply res_bind_no_panic; [|done]. unfold commit.
  destruct (find_remote (current s) (from_be head)); [done|].
  destruct (find_remote (previous s) (from_be head)); [done|]. by case_if.
Qed.

(** What no operation changes, and the packet counter, which only sending moves. *)
Lemma decode_at_keeps s wire now t payload s' :
  decode_at s wire now = Ok (t, payload, s') ->
  method s' = method s /\ s_id s' = s_id s /\ next s' = next s.
Proof.
  unfold decode_at. case_if; [done|]. intros ([? ?] & _ & H)%res_bind_ok_inv.
  apply res_bind_ok_inv in H as (head & _ & H). apply res_bind_ok_inv in H as (tail & _ & H).
  case_if_in H; [done|]. case_if_in H; [done|]. apply res_bind_ok_inv in H as (key & _ & H).
  apply res_bind_ok_inv in H as (? & _ & H). apply res_bind_ok_inv in H as ([? ?] & _ & H).
  apply res_bind_ok_inv in H as (s'' & H' & H). apply Ok_inj in H. simplify_eq. revert H'.
  by apply (commit_cases _ _ _ _ _ _ (fun s' =>
    method s' = method s /\ s_id s' = s_id s /\ next s' = next s)).
Qed.

(** The counter is at least [lo] and a [u64], or used up. *)
Definition counter_ok (m : Method) (sid lo : Z) (s : UdpSession) : Prop :=
  method s = m /\ s_id s = sid /\ forall n, next s = Some n -> lo <= n <= u64_max.

Lemma counter_ok_send m sid lo s t payload timestamp nonce :
  counter_ok m sid lo s -> counter_ok m sid lo (snd (encode_at s t payload timestamp nonce)).
Proof.
  intros (Hm & Hs & Hn). unfold encode_at.
  destruct (encode_address t); [|split_and!; done..].
  case_if; [split_and!; done|]. destruct (next s) as [n|] eqn:E;
    [|cbn [snd]; split_and!; [done..|by rewrite E]].
  cbn [snd]. split_and!; cbn; auto. specialize (Hn n eq_refl). intros n'.
  destruct (n =? u64_max) eqn:E'; [done|]. intros [= <-]. unbool. lia.
Qed.

Lemma counter_ok_run m sid lo s ops : counter_ok m sid lo s -> counter_ok m sid lo (session_run s ops).
Proof.
  revert s. induction ops as [|op ops IH]; intros s Hs; [done|]. apply IH.
  destruct op as [t payload timestamp nonce|wire now]; [by apply counter_ok_send|].
  simpl. destruct (decode_at s wire now) as [[[t payload] s']| |] eqn:E; [|done..].
  apply decode_at_keeps in E as (E1 & E2 & E3). destruct Hs as (Hm & Hi & Hn).
  split_and!; [congruence..|]. by rewrite E3.
Qed.

Lemma with_id_counter m sid s : with_id m sid = Ok s -> counter_ok m sid 0 s.
Proof.
  unfold with_id. intros (k & _ & E)%res_bind_ok_inv. apply Ok_inj in E. subst s.
  split_and!; [done..|]. intros n [= <-]. done.
Qed.

(** C27: With a method that [Method::new] accepted a session neither panics on what it is asked to
    send nor on what it receives, whatever has happened before, and the datagrams it sends are
    longer than their payload by exactly the number of bytes that [overhead] promises. *)
Theorem ss2022_no_panic name password m sid ops :
  Method_new name password = Ok m ->
  exists s0, with_id m sid = Ok s0
    /\ (forall wire now, decode_at (session_run s0 ops) wire now <> Panic)
    /\ forall t payload timestamp nonce, len nonce = 24 ->
         let r := fst (encode_at (session_run s0 ops) t payload timestamp nonce) in
         r <> Panic
         /\ forall wire, r = Ok wire ->
              overhead (session_run s0 ops) t = Ok (len wire - len payload).
Proof.
  intros Hm%method_new_ok. unfold with_id at 1.
  destruct (@aead_session_ok SsError m (be_bytes 8 sid) Hm) as [k Ek].
  exists (mkSession2022 m sid (Some 0) k None None 0). rewrite Ek. split; [done|].
  set (s0 := mkSession2022 _ _ _ _ _ _ _).
  assert (counter_ok m sid 0 (session_run s0 ops)) as (Em & _).
  { apply counter_ok_run, with_id_counter. unfold with_id. by rewrite Ek. }
  split; [intros; apply decode_at_no_panic; by rewrite Em|]. intros t payload timestamp nonce Hn. cbv zeta.
  destruct (encode_at_ok (session_run s0 ops) t payload timestamp nonce) as [Hp Hw]; [by rewrite Em|done|].
  split; [done|]. intros wire (a & pid & Ea & _ & _ & El & _)%Hw.
  unfold overhead. rewrite Ea. cbn [res_bind]. f_equal. lia.
Qed.

(** No two datagrams that a session sends with AES begin with the same encrypted header, so
    the header, which is also the nonce of the body, is never used twice with one key. *)
Theorem ss2022_fresh_headers m sid s0 ops1 t1 p1 n1 w1 time1 ops2 t2 p2 n2 w2 time2 :
  method_ok m -> cipher m <> ChaCha20Poly1305 -> with_id m sid = Ok s0 ->
  len n1 = 24 -> len n2 = 24 ->
  let r1 := encode_at (session_run s0 ops1) t1 p1 time1 n1 in
  let r2 := encode_at (session_run (snd r1) ops2) t2 p2 time2 n2 in
  fst r1 = Ok w1 -> fst r2 = Ok w2 -> take 16 w1 <> take 16 w2.
Proof.
  intros Hm Hc Hs Hn1 Hn2 r1 r2 H1 H2. subst r1 r2.
  pose proof (counter_ok_run m sid 0 s0 ops1 (with_id_counter _ _ _ Hs)) as (Em1 & Ei1 & Hr1).
  set (sa := session_run s0 ops1) in *.
  destruct (encode_at_ok sa t1 p1 time1 n1) as [_ Hw1]; [by rewrite Em1|done|].
  apply Hw1 in H1 as (a1 & pid1 & _ & En1 & En1' & _ & Haes1).
  specialize (Hr1 pid1 En1). set (s1 := snd (encode_at sa t1 p1 time1 n1)) in *.
  assert (counter_ok m sid (pid1 + 1) s1) as Hs1.
  { destruct (counter_ok_send m sid 0 sa t1 p1 time1 n1) as (? & ? & Hb).
    { pose proof (counter_ok_run m sid 0 s0 ops1 (with_id_counter _ _ _ Hs)). done. }
    split_and!; [done..|]. intros n En. specialize (Hb n En). fold s1 in En. rewrite En in En1'.
    destruct (pid1 =? u64_max); [done|]. injection En1' as ->. lia. }
  apply (counter_ok_run _ _ _ _ ops2) in Hs1 as (Em2 & Ei2 & Hr2).
  set (sb := session_run s1 ops2) in *.
  destruct (encode_at_ok sb t2 p2 time2 n2) as [_ Hw2]; [by rewrite Em2|done|].
  apply Hw2 in H2 as (a2 & pid2 & _ & En2 & _ & _ & Haes2). specialize (Hr2 pid2 En2).
  rewrite Em1, Ei1 in *. rewrite Em2, Ei2 in *.
  destruct (Haes1 Hc) as (k0 & rest1 & Ek & ->). destruct (Haes2 Hc) as (k0' & rest2 & Ek' & ->).
  rewrite Ek in Ek'. injection Ek' as <-. intros E.
  assert (forall pid, len (be_bytes 8 sid ++ be_bytes 8 pid) = 16) as Hlen
    by (intros; by rewrite len_app, !len_be_bytes).
  rewrite !take_app_le, !take_ge in E
    by (pose proof (aes_length k0 _ (Hlen pid1)); pose proof (aes_length k0 _ (Hlen pid2));
        unfold len in *; lia).
  apply (f_equal (aes_decrypt_block k0)) in E. rewrite !aes_inverse in E by done.
  apply app_inv_head, (f_equal from_be) in E. unfold u64_max in *.
  rewrite !from_be_bytes_small in E by (cbn; lia). lia.
Qed.

(** What a server sends to the session [sid]: the same layout as a client's packet, with type 1,
    the client's session, padding, and no identity headers. *)
Definition server_body (sent sid : Z) (padding a payload : list byte) : list byte :=
  [to_u8 1] ++ be_bytes 8 sent ++ be_bytes 8 sid ++ be_bytes 2 (len padding) ++ padding ++ a ++ payload.

Definition server_packet (m : Method) (id pid : Z) (nonce body : list byte)
    : res SsError (list byte) :=
  let? key := aead_session m (be_bytes 8 id) in
  let? psk := psk m in
  seal_packet (mkMethod (cipher m) [psk]) key nonce (be_bytes 8 id ++ be_bytes 8 pid) body.

Lemma read_server_body s sent now padding a payload t :
  in_u64 sent -> in_u64 (s_id s) -> in_u16 (len padding) -> Z.abs (sent - now) <= 30 ->
  wf_target t -> network t = Udp -> encode_address t = Ok a ->
  read_body s (server_body sent (s_id s) padding a payload) now = Ok (t, payload).
Proof.
  intros Hsent Hsid Hpad Htime Hwf Hnet Ha. unfold read_body, server_body.
  rewrite cur_be_app by done. cbn [res_bind]. change (negb (from_be [to_u8 1] =? 1)) with false.
  cbn iota. rewrite cur_be_app by apply len_be_bytes. cbn [res_bind].
  rewrite from_be_bytes_small by done. unfold check_time. guard_false by lia. cbn [res_bind].
  rewrite cur_be_app by apply len_be_bytes. cbn [res_bind]. rewrite from_be_bytes_small by done.
  rewrite Z.eqb_refl. cbn [negb]. rewrite cur_be_app by apply len_be_bytes. cbn [res_bind].
  rewrite from_be_bytes_small by done. rewrite cur_take_app by done. cbn [res_bind].
  unfold cur_target. rewrite (address_roundtrip t a payload) by done. cbn [res_bind].
  by rewrite (slice_from_eq a payload).
Qed.

(** The separate header and the body of a server's packet, after the separate header is open. *)
Lemma open_server_packet m id pid nonce body key wire :
  method_ok m -> len nonce = 24 -> len body + 16 <= 65535 ->
  @aead_session C SsError m (be_bytes 8 id) = Ok key -> server_packet m id pid nonce body = Ok wire ->
  let separate := be_bytes 8 id ++ be_bytes 8 pid in
  exists rest, open_separate m wire = Ok (separate, rest)
    /\ (if bool_decide (cipher m = ChaCha20Poly1305) then Ok rest
         else ok_or (aead_open key (drop 4 separate) rest) AeadAuthenticationFailed) = Ok body
    /\ len wire = 16 + (if bool_decide (cipher m = ChaCha20Poly1305) then 24 else 0) + len body + 16.
Proof.
  intros Hm Hnonce Hb Hkey. unfold server_packet. rewrite Hkey. cbn [res_bind]. cbv zeta.
  set (separate := be_bytes 8 id ++ be_bytes 8 pid).
  assert (len separate = 16) as Hs by (unfold separate; by rewrite len_app, !len_be_bytes).
  destruct (@psk_ok SsError m Hm) as (k & Ek & Hk). rewrite Ek. cbn [res_bind].
  assert (@psk SsError (mkMethod (cipher m) [k]) = Ok k) as Ek1 by done.
  unfold seal_packet, open_separate. rewrite Ek, Ek1. cbn [cipher keys res_bind].
  destruct (decide (cipher m = ChaCha20Poly1305)) as [Ec|Ec].
  - rewrite !bool_decide_eq_true_2 by done. rewrite Ec in Hk.
    change (key_len ChaCha20Poly1305) with 32 in Hk. unfold xchacha_seal, xchacha_open.
    destruct (@xchacha_ietf_ok SsError k nonce Hk Hnonce) as (k' & n & En & Hn). rewrite En.
    cbn [res_bind].
    destruct (seal_fits k' n (separate ++ body) Hn) as (c & -> & Hc & Ho); [rewrite len_app; lia|].
    cbn [ok_or res_bind]. intros <-%Ok_inj. exists body. split_and!; [|done|].
    + rewrite (slice_from_eq nonce c) by done. cbn [res_bind].
      rewrite (slice_eq [] nonce c) by (try done; lia). cbn [res_bind]. rewrite En. cbn [res_bind].
      rewrite Ho. cbn [ok_or res_bind]. pose proof (len_nonneg body).
      guard_false by (rewrite len_app; lia). replace 16%nat with (length separate) by (unfold len in Hs; lia).
      by rewrite take_app_length, drop_app_length.
    + rewrite len_app, Hc, len_app. lia.
  - rewrite !bool_decide_eq_false_2 by done.
    destruct (seal_fits key (drop 4 separate) body) as (c & -> & Hc & Ho);
      [unfold len in *; rewrite length_drop; lia|lia|]. cbn [ok_or identity_headers res_bind].
    change (index [k] 0) with (@Ok SsError _ k). cbn [res_bind]. unfold block.
    assert ((len k =? 16) || (len k =? 32) = true) as Hkk.
    { pose proof (key_len_range (cipher m)). apply orb_true_iff. rewrite !Z.eqb_eq. lia. }
    rewrite Hkk. cbn [res_bind app]. intros <-%Ok_inj. pose proof (aes_length k separate Hs).
    exists c. split_and!; [|by rewrite Ho|rewrite len_app; lia].
    rewrite (slice_eq [] (aes_encrypt_block k separate) c) by (try done; lia). cbn [res_bind].
    rewrite (slice_from_eq (aes_encrypt_block k separate) c) by done. cbn [res_bind].
    by rewrite aes_inverse.
Qed.

Lemma session_run_ok s ops : session_ok s -> session_ok (session_run s ops).
Proof.
  revert s. induction ops as [|op ops IH]; intros s Hs; [done|]. apply IH.
  destruct op as [t payload timestamp nonce|wire now]; simpl.
  - destruct (encode_at_keeps s t payload timestamp nonce) as [n ->]. by destruct Hs.
  - destruct (decode_at s wire now) as [[[t payload] s']| |] eqn:E; [|done..].
    apply decode_at_inv in E as (id & pid & sent & key & _ & Hp & _ & Hchk & Hkey & Hc); [|done].
    by eapply commit_ok in Hc as [? _].
Qed.

Lemma commit_total s id pid now key :
  (remote_of s id = None -> is_Some (previous s) -> previous_seen s + 60 <= now) ->
  exists s', commit s id pid now key = Ok s'.
Proof.
  unfold remote_of, commit. destruct (find_remote (current s) id); [by eexists|].
  destruct (find_remote (previous s) id); [by eexists|]. intros H.
  destruct (bool_decide (is_Some (previous s)) && _) eqn:E; [|by eexists].
  apply andb_true_iff in E as [E1 E2]. apply bool_decide_eq_true_1 in E1.
  apply Z.ltb_lt in E2. specialize (H eq_refl E1). lia.
Qed.

(** A session accepts what a server sends to it: a packet from a session of the server's that
    it knows with a number its window has not let through, or from a new session when there is
    room for one, in time and with an address and a payload of seven bytes at least, gives back the
    address and the payload the server put into it, whatever was sent and received before. *)
Theorem ss2022_accepts m sid s0 ops id pid sent now padding t a payload nonce wire :
  method_ok m -> with_id m sid = Ok s0 -> let s := session_run s0 ops in
  in_u64 id -> in_u64 pid -> in_u64 sent -> in_u64 sid -> id <> sid ->
  in_u16 (len padding) -> Z.abs (sent - now) <= 30 -> len nonce = 24 ->
  wf_target t -> network t = Udp -> encode_address t = Ok a -> 7 <= len a + len payload ->
  let body := server_body sent sid padding a payload in
  len body + 56 <= MAX_UDP_WIRE_LENGTH -> server_packet m id pid nonce body = Ok wire ->
  match remote_of s id with
  | Some r => check (replay r) pid = true
  | None => is_Some (previous s) -> previous_seen s + 60 <= now
  end ->
  exists s', decode_at s wire now = Ok (t, payload, s').
Proof.
  intros Hm Hnew s Hid Hpid Hsent Hsid Hne Hpad Htime Hnonce Hwf Hnet Ha Hmin body Hmax Hwire Hfresh.
  assert (session_ok s) as Hok by (apply session_run_ok; by apply with_id_ok in Hnew as (? & _)).
  pose proof (counter_ok_run m sid 0 s0 ops (with_id_counter _ _ _ Hnew)) as (Em & Ei & _).
  fold s in Em, Ei. destruct (@aead_session_ok SsError m (be_bytes 8 id) Hm) as [key Hkey].
  pose proof (len_nonneg padding). unfold MAX_UDP_WIRE_LENGTH in Hmax.
  assert (len body = 19 + len padding + len a + len payload) as Hb
    by (unfold body, server_body; len_simpl; lia).
  destruct (open_server_packet m id pid nonce body key wire) as (rest & Eo & Ep & El); [done..|lia|done|done|].
  unfold decode_at. rewrite Em.
  destruct (_ || _) eqn:Elen.
  { apply orb_true_iff in Elen. unfold TAG_LENGTH, MAX_UDP_WIRE_LENGTH in Elen.
    rewrite !Z.ltb_lt in Elen. case_bool_decide; lia. }
  rewrite Eo. cbn [res_bind].
  rewrite (slice_eq [] (be_bytes 8 id) (be_bytes 8 pid)) by done. cbn [res_bind].
  rewrite (slice_from_eq (be_bytes 8 id) (be_bytes 8 pid)) by done. cbn [res_bind].
  rewrite !from_be_bytes_small by done. rewrite Ei. guard_false by lia.
  fold (remote_of s id). destruct (remote_of s id) as [r|] eqn:Er.
  - rewrite Hfresh. cbn [negb]. destruct (remote_of_ok s id r Hok Er) as [[Ek _] Eid].
    rewrite Em, Eid, Hkey in Ek. apply Ok_inj in Ek. subst key. cbn [res_bind].
    rewrite Ep. cbn [res_bind]. unfold body. rewrite <- Ei, (read_server_body s sent now padding a payload t) by (rewrite ?Ei; done). cbn [res_bind].
    destruct (commit_total s id pid now (r_aead r)) as [s' ->]; [by rewrite Er|]. by eexists.
  - rewrite Hkey. cbn [res_bind]. rewrite Ep. cbn [res_bind]. unfold body.
    rewrite <- Ei, (read_server_body s sent now padding a payload t) by (rewrite ?Ei; done). cbn [res_bind].
    destruct (commit_total s id pid now key) as [s' ->]; [done|]. by eexists.
Qed.

End Sessions.

(** ** Ciphers to run the session with: a tag of zeros, a block cipher that flips every bit *)

Definition flip (b : list byte) : list byte := map (fun x => to_u8 (255 - u8 x)) b.

#[export] Instance plain_ciphers : Ciphers := {|
  AeadKey := list byte;
  aead_key _ k := k;
  aead_seal _ n b := if len n =? 12 then Some (b ++ replicate 16 x00) else None;
  aead_open _ _ b := if len b <? 16 then None else Some (take (length b - 16) b);
  hchacha20 k n := take 32 (k ++ replicate 32 x00);
  aes_encrypt_block _ b := flip b;
  aes_decrypt_block _ b := flip b;
  blake3_derive_key _ k := take 32 (k ++ replicate 32 x00);
  blake3_hash k := take 16 (k ++ replicate 16 x00);
  sha256 b := take 32 (b ++ replicate 32 x00);
  base64_decode s := Some s
|}.

Lemma len_padded n (l : list byte) : len (take n (l ++ replicate n x00)) = Z.of_nat n.
Proof. unfold len. rewrite length_take, length_app, length_replicate. lia. Qed.

Lemma flip_flip b : flip (flip b) = b.
Proof.
  unfold flip. rewrite map_map. rewrite <- (map_id b) at 2. apply map_ext. intros x.
  pose proof (u8_range x). rewrite u8_to_u8_small by lia. replace (255 - (255 - u8 x)) with (u8 x) by lia.
  apply to_u8_u8.
Qed.

#[export] Instance plain_ciphers_laws : CiphersLaws.
Proof.
  split; cbn -[len take replicate].
  - intros k n b Hn Hb. rewrite Hn. cbn [Z.eqb Pos.eqb]. eexists. split; [done|].
    rewrite len_app. change (len (replicate 16 x00)) with 16. split; [lia|].
    pose proof (len_nonneg b). guard_false by lia. rewrite length_app, length_replicate.
    replace (length b + 16 - 16)%nat with (length b) by lia. by rewrite take_app_length.
  - intros k n c b. case_if; [done|]. unbool. intros [= <-]. unfold len in *. rewrite length_take. lia.
  - intros k b Hb. unfold flip, len in *. by rewrite length_map.
  - intros k b Hb. unfold flip, len in *. by rewrite length_map.
  - intros k b _. apply flip_flip.
  - intros. apply (len_padded 32).
  - intros. apply (len_padded 32).
  - intros. apply (len_padded 16).
  - intros. apply (len_padded 32).
Qed.

Definition demo_method : Method := mkMethod Aes128Gcm [str_of "0123456789abcdef"].

Definition demo_session : UdpSession :=
  match with_id demo_method 7 with Ok s => s | _ => mkSession2022 demo_method 7 None [] None None 0 end.

Definition demo_target : Target := mkTarget (Ip (V4 16909060)) 53 Udp.

Definition demo_address : list byte :=
  match encode_address demo_target with Ok a => a | _ => [] end.

(** The server's packet [pid] of session [id], sent at [sent]. *)
Definition demo_packet (id pid sent : Z) : list byte :=
  match server_packet demo_method id pid (replicate 24 x00)
          (server_body sent 7 [x00] demo_address (str_of "answer")) with
  | Ok w => w
  | _ => []
  end.

Lemma demo_method_ok : method_ok demo_method.
Proof. split; [done|by repeat constructor|done|done]. Qed.

Definition demo_after : UdpSession :=
  match decode_at demo_session (demo_packet 9 1 100) 100 with Ok (_, _, s) => s | _ => demo_session end.

Lemma ss2022_no_replay_witness :
  decode_at demo_session (demo_packet 9 1 100) 100 = Ok (demo_target, str_of "answer", demo_after)
  /\ forall r, decode_at (session_run demo_after [Receive (demo_packet 10 1 101) 101])
                 (demo_packet 9 1 100) 102 <> Ok r.
Proof.
  split; [vm_compute; reflexivity|].
  apply (ss2022_no_replay demo_method 7 demo_session [] (demo_packet 9 1 100) 100 demo_target
           (str_of "answer")); [vm_compute; reflexivity| |vm_compute; reflexivity].
  repeat (constructor; try lia).
Defined.

Lemma window_refines_set_witness :
  check (fst (window_run Window_new [] [3; 3; 9000; 5; 2000])) 2000 = false
  /\ NoDup (snd (window_run Window_new [] [3; 3; 9000; 5; 2000])).
Proof.
  split; [vm_compute; reflexivity|].
  apply (window_refines_set [3; 3; 9000; 5; 2000]
           (fst (window_run Window_new [] [3; 3; 9000; 5; 2000])) _ 2000);
    [repeat (constructor; try lia)|lia|apply surjective_pairing].
Defined.

Lemma ss2022_no_panic_witness :
  exists s0, with_id demo_method 7 = Ok s0 /\ (forall wire now, decode_at s0 wire now <> Panic).
Proof.
  destruct (ss2022_no_panic (str_of "2022-blake3-aes-128-gcm") (str_of "0123456789abcdef")
              demo_method 7 []) as (s0 & H0 & Hd & _); [vm_compute; reflexivity|].
  exists s0. split; [exact H0|exact Hd].
Defined.

Definition demo_sent (s : UdpSession) : list byte :=
  match fst (encode_at s demo_target (str_of "ask") 100 (replicate 24 x00)) with
  | Ok w => w
  | _ => []
  end.

Lemma ss2022_fresh_headers_witness :
  take 16 (demo_sent demo_session)
  <> take 16 (demo_sent (snd (encode_at demo_session demo_target (str_of "ask") 100
                                (replicate 24 x00)))).
Proof.
  apply (ss2022_fresh_headers demo_method 7 demo_session [] demo_target (str_of "ask")
    (replicate 24 x00) (demo_sent demo_session) 100 [] demo_target (str_of "ask")
    (replicate 24 x00) _ 100); [exact demo_method_ok|done|vm_compute; reflexivity..].
Defined.

Lemma ss2022_accepts_witness :
  exists s', decode_at demo_session (demo_packet 9 1 100) 110
             = Ok (demo_target, str_of "answer", s').
Proof.
  apply (ss2022_accepts demo_method 7 demo_session [] 9 1 100 110 [x00] demo_target demo_address
    (str_of "answer") (replicate 24 x00));
    try (vm_compute; reflexivity); try (vm_compute; split; discriminate || reflexivity);
    try exact demo_method_ok; try by_decision; try discriminate.
Defined.
