(* ===== verification/RecordBuffer.v ===== *)
(** The read buffer of the record protocols, [crates/xray-proxy/src/record_buffer.rs]: ciphertext
    is read ahead and decrypted in place in one allocation. The lemmas show that it is a queue of
    the transport's bytes. *)
From Stdlib Require Import Strings.Byte.
From S2P Require Import Prelude Transport.

Definition MAX_FRAME : Z := 65535 + 16.
Definition PREFIX : Z := 18.
Definition MAX_BUFFER : Z := MAX_FRAME + PREFIX.

Record RecordBuffer := mkRecordBuffer {
  rb_bytes : list byte;
  rb_start : Z;
  rb_filled : Z;
  rb_needed : Z;
  rb_prefix : Z;
  rb_read_ahead : Z
}.

(** [assert!(..)] and [debug_assert!(..)] *)
Definition assert {A} (b : bool) (k : total A) : total A := if b then k else Panic.

Definition RecordBuffer_new (needed prefix : Z) : total RecordBuffer :=
  assert ((needed <=? MAX_FRAME) && (prefix <=? PREFIX))
    (Ok (mkRecordBuffer [] 0 0 needed prefix 0)).

Definition set_read_ahead (b : RecordBuffer) (bytes : Z) : total RecordBuffer :=
  assert (bytes <=? MAX_BUFFER)
    (Ok (mkRecordBuffer (rb_bytes b) (rb_start b) (rb_filled b) (rb_needed b) (rb_prefix b) bytes)).

Definition frame (b : RecordBuffer) : total (list byte) :=
  assert (rb_needed b <=? rb_filled b - rb_start b)
    (slice (rb_bytes b) (rb_start b) (rb_start b + rb_needed b)).

(** What is written through the slice that [frame] returns: as many bytes as it has. *)
Definition set_frame (b : RecordBuffer) (bytes : list byte) : RecordBuffer :=
  mkRecordBuffer
    (take (Z.to_nat (rb_start b)) (rb_bytes b) ++ bytes
     ++ drop (Z.to_nat (rb_start b + rb_needed b)) (rb_bytes b))
    (rb_start b) (rb_filled b) (rb_needed b) (rb_prefix b) (rb_read_ahead b).

Definition advance (b : RecordBuffer) (needed : Z) : total RecordBuffer :=
  assert (needed <=? MAX_FRAME)
    (assert (rb_needed b <=? rb_filled b - rb_start b)
       (let start := rb_start b + rb_needed b in
        let '(start, filled) := if start =? rb_filled b then (0, 0) else (start, rb_filled b) in
        Ok (mkRecordBuffer (rb_bytes b) start filled needed (rb_prefix b) (rb_read_ahead b)))).

(** [n.next_multiple_of(64)] *)
Definition next_multiple_of_64 (n : Z) : Z := (n + 63) / 64 * 64.

Inductive RecordError (E : Type) := RecordEof | RecordInner (e : E).
Arguments RecordEof {E}.
Arguments RecordInner {E} e.

(** The growth and the compaction in front of the reads. *)
Definition make_room (b : RecordBuffer) : RecordBuffer :=
  let size :=
    Z.min (Z.max (next_multiple_of_64 (rb_needed b + rb_prefix b)) (rb_read_ahead b)) MAX_BUFFER in
  let bytes :=
    if len (rb_bytes b) <? size
    then rb_bytes b ++ replicate (Z.to_nat (size - len (rb_bytes b))) x00 else rb_bytes b in
  if len bytes <? rb_start b + rb_needed b then
    let live := take (Z.to_nat (rb_filled b - rb_start b)) (drop (Z.to_nat (rb_start b)) bytes) in
    mkRecordBuffer (live ++ drop (length live) bytes) 0 (rb_filled b - rb_start b)
      (rb_needed b) (rb_prefix b) (rb_read_ahead b)
  else
    mkRecordBuffer bytes (rb_start b) (rb_filled b) (rb_needed b) (rb_prefix b) (rb_read_ahead b).

(** [bs] behind the bytes that are there. *)
Definition fill (b : RecordBuffer) (bs : list byte) : RecordBuffer :=
  mkRecordBuffer
    (take (Z.to_nat (rb_filled b)) (rb_bytes b) ++ bs
     ++ drop (Z.to_nat (rb_filled b + len bs)) (rb_bytes b))
    (rb_start b) (rb_filled b + len bs) (rb_needed b) (rb_prefix b) (rb_read_ahead b).

Section Reads.
Context {T : Type} `{Ai : AsyncIo T}.

Fixpoint poll_frame_loop (fuel : nat) (b : RecordBuffer) (io : T)
    : poll (res (RecordError io_error) bool) * RecordBuffer * T :=
  match fuel with
  | O => (Ready Panic, b, io)
  | S fuel =>
    if rb_filled b - rb_start b <? rb_needed b then
      match (slice_from (rb_bytes b) (rb_filled b) : total (list byte)) with
      | Ok room =>
        match io_poll_read io (len room) with
        | (Ready (Ok bs), io) =>
          if len bs =? 0 then
            (Ready (if rb_filled b =? rb_start b then Ok false else Err RecordEof), b, io)
          else poll_frame_loop fuel (fill b bs) io
        | (Ready (Err e), io) => (Ready (Err (RecordInner e)), b, io)
        | (Ready Panic, io) => (Ready Panic, b, io)
        | (Pending, io) => (Pending, b, io)
        end
      | _ => (Ready Panic, b, io)
      end
    else (Ready (Ok true), b, io)
  end.

(** A turn reads at least one of the bytes that are needed. *)
Definition poll_frame (b : RecordBuffer) (io : T)
    : poll (res (RecordError io_error) bool) * RecordBuffer * T :=
  if rb_needed b <=? rb_filled b - rb_start b then (Ready (Ok true), b, io)
  else
    let b := make_room b in
    poll_frame_loop (S (Z.to_nat (rb_needed b - (rb_filled b - rb_start b)))) b io.

End Reads.

(** ** The buffer is a queue *)

Record rb_ok (b : RecordBuffer) : Prop := {
  ro_start : 0 <= rb_start b <= rb_filled b;
  ro_filled : rb_filled b <= len (rb_bytes b);
  ro_bytes : len (rb_bytes b) <= MAX_BUFFER;
  ro_needed : 0 <= rb_needed b <= MAX_FRAME;
  ro_prefix : 0 <= rb_prefix b <= PREFIX
}.

Definition queue (b : RecordBuffer) : list byte :=
  take (Z.to_nat (rb_filled b - rb_start b)) (drop (Z.to_nat (rb_start b)) (rb_bytes b)).

Lemma len_queue b : rb_ok b -> len (queue b) = rb_filled b - rb_start b.
Proof. intros []. unfold queue, len in *. rewrite length_take, length_drop. lia. Qed.

Lemma RecordBuffer_new_ok needed prefix b :
  0 <= needed -> 0 <= prefix -> RecordBuffer_new needed prefix = Ok b ->
  rb_ok b /\ queue b = [] /\ rb_needed b = needed.
Proof.
  unfold RecordBuffer_new, assert. intros Hn Hp. case_if; [|done]. unbool. intros <-%Ok_inj.
  split_and!; [|done..]. split; cbn; try lia; unfold len; simpl; try lia. done.
Qed.

Lemma frame_queue b :
  rb_ok b -> rb_needed b <= len (queue b) -> frame b = Ok (take (Z.to_nat (rb_needed b)) (queue b)).
Proof.
  intros Hok Hn. rewrite len_queue in Hn by done. destruct Hok. unfold frame, assert.
  guard_true by lia. unfold slice. guard_true by (rewrite !andb_true_iff, !Z.leb_le; lia).
  f_equal. unfold queue. rewrite take_take. f_equal. lia.
Qed.

Lemma advance_queue b needed :
  rb_ok b -> rb_needed b <= len (queue b) -> 0 <= needed <= MAX_FRAME ->
  exists b', advance b needed = Ok b' /\ rb_ok b' /\ rb_needed b' = needed
    /\ queue b' = drop (Z.to_nat (rb_needed b)) (queue b).
Proof.
  intros Hok Hn Hm. rewrite len_queue in Hn by done. pose proof Hok as []. unfold advance, assert.
  guard_true by lia. guard_true by lia. cbv zeta.
  destruct (rb_start b + rb_needed b =? rb_filled b) eqn:E; unbool.
  - eexists. split_and!; [done| |done|].
    + split; cbn; lia.
    + unfold queue at 1. cbn [rb_start rb_filled rb_bytes]. rewrite Z.sub_diag. cbn.
      rewrite (drop_ge (queue b)); [done|]. pose proof (len_queue b Hok) as Hl. unfold len in Hl. lia.
  - eexists. split_and!; [done| |done|].
    + split; cbn; lia.
    + unfold queue. cbn [rb_start rb_filled rb_bytes]. rewrite skipn_firstn_comm, drop_drop.
      f_equal; [lia|]. f_equal. lia.
Qed.

(** Decrypting and erasing in place changes the front of the queue only. *)
Lemma set_frame_queue b f :
  rb_ok b -> rb_needed b <= len (queue b) -> len f = rb_needed b ->
  rb_ok (set_frame b f) /\ queue (set_frame b f) = f ++ drop (Z.to_nat (rb_needed b)) (queue b).
Proof.
  intros Hok Hn Hf. rewrite len_queue in Hn by done. pose proof Hok as []. split.
  - split; cbn; try done; unfold len in *; rewrite !length_app, length_take, length_drop; lia.
  - unfold queue. cbn [rb_start rb_filled rb_bytes set_frame].
    rewrite drop_app_length' by (unfold len in *; rewrite length_take; lia).
    rewrite take_app_ge by (unfold len in *; lia). f_equal.
    rewrite skipn_firstn_comm, drop_drop. f_equal; [unfold len in *; lia|]. f_equal. lia.
Qed.

Lemma queue_grow b extra :
  rb_ok b ->
  take (Z.to_nat (rb_filled b - rb_start b)) (drop (Z.to_nat (rb_start b)) (rb_bytes b ++ extra))
  = queue b.
Proof.
  intros []. unfold queue, len in *. rewrite drop_app_le by lia.
  rewrite take_app_le; [done|]. rewrite length_drop. lia.
Qed.

Lemma next_multiple_ge n : n <= next_multiple_of_64 n.
Proof. unfold next_multiple_of_64. Z.div_mod_to_equations. lia. Qed.

(** There is room behind the queue for the bytes that are missing. *)
Lemma make_room_ok b :
  rb_ok b ->
  let b' := make_room b in
  rb_ok b' /\ queue b' = queue b /\ rb_needed b' = rb_needed b
  /\ rb_start b' + rb_needed b' <= len (rb_bytes b').
Proof.
  intros Hok. pose proof Hok as []. unfold make_room. cbv zeta.
  set (size := Z.min _ MAX_BUFFER).
  assert (rb_needed b <= size <= MAX_BUFFER) as Hsize.
  { subst size. pose proof (next_multiple_ge (rb_needed b + rb_prefix b)).
    unfold MAX_BUFFER, PREFIX in *. lia. }
  set (bytes := if len (rb_bytes b) <? size then _ else _).
  assert (exists extra, bytes = rb_bytes b ++ extra) as [extra Hb].
  { subst bytes. case_if; eexists; [done|]. by rewrite app_nil_r. }
  assert (size <= len bytes <= MAX_BUFFER) as Hlen.
  { subst bytes. case_if; unbool; [|lia]. rewrite len_app. unfold len in *.
    rewrite length_replicate. lia. }
  assert (len (rb_bytes b) <= len bytes) as Hge by (rewrite Hb, len_app; pose proof (len_nonneg extra); lia).
  clearbody bytes. subst bytes. rewrite queue_grow by done.
  pose proof (len_queue b Hok) as Hq. case_if; unbool.
  - assert (len (queue b ++ drop (length (queue b)) (rb_bytes b ++ extra)) = len (rb_bytes b ++ extra)) as Hl.
    { unfold len in *. rewrite length_app, length_drop. lia. }
    split_and!; cbn; [|unfold queue at 1; cbn|done|lia].
    + split; cbn; lia.
    + rewrite Z.sub_0_r. change (Z.to_nat 0) with 0%nat. rewrite drop_0.
      apply take_app_length'. unfold len in *. lia.
  - split_and!; cbn; [|exact (queue_grow b extra Hok)|done|lia]. split; cbn; lia.
Qed.

Section ReadLaws.
Context {T : Type} `{Ai : AsyncIo T} `{Laws : !AsyncIoLaws T}.

Definition frame_post (b : RecordBuffer) (io : T)
    (p : poll (res (RecordError io_error) bool) * RecordBuffer * T) : Prop :=
  let '(r, b', io') := p in
  rb_ok b' /\ rb_needed b' = rb_needed b /\ taken io' = taken io
  /\ queue b' ++ unread io' = queue b ++ unread io
  /\ match r with
     | Ready (Ok true) => rb_needed b <= len (queue b')
     | Ready (Ok false) => queue b' = [] /\ unread io' = [] /\ 0 < rb_needed b
     | Ready (Err RecordEof) => queue b' <> [] /\ unread io' = [] /\ len (queue b') < rb_needed b
     | Ready Panic => False
     | _ => True
     end.

Lemma fill_queue b bs :
  rb_ok b -> len bs <= len (rb_bytes b) - rb_filled b ->
  rb_ok (fill b bs) /\ queue (fill b bs) = queue b ++ bs
  /\ len (rb_bytes (fill b bs)) = len (rb_bytes b).
Proof.
  intros Hok Hbs. pose proof Hok as []. pose proof (len_nonneg bs).
  assert (len (rb_bytes (fill b bs)) = len (rb_bytes b)) as Hl.
  { cbn. unfold len in *. rewrite !length_app, length_take, length_drop. lia. }
  split_and!; [split; cbn [fill rb_start rb_filled rb_needed rb_prefix]; lia| |done].
  unfold queue. cbn [fill rb_start rb_filled rb_bytes]. unfold len in *.
  rewrite drop_app_le by (rewrite length_take; lia). rewrite app_assoc.
  rewrite take_app_le by (rewrite length_app, length_drop, length_take; lia).
  rewrite take_ge by (rewrite length_app, length_drop, length_take; lia). f_equal.
  rewrite skipn_firstn_comm. f_equal. lia.
Qed.

Lemma poll_frame_loop_spec fuel b io :
  rb_ok b -> rb_start b + rb_needed b <= len (rb_bytes b) ->
  Z.max 0 (rb_needed b - len (queue b)) < Z.of_nat fuel ->
  frame_post b io (poll_frame_loop fuel b io).
Proof.
  revert b io. induction fuel as [|fuel IH]; intros b io Hok Hroom Hfuel; cbn [poll_frame_loop]; [lia|].
  pose proof (len_queue b Hok) as Hq. pose proof Hok as [].
  destruct (_ <? rb_needed b) eqn:E; unbool; [|split_and!; try done; lia].
  rewrite slice_from_ok by lia.
  assert (len (drop (Z.to_nat (rb_filled b)) (rb_bytes b)) = len (rb_bytes b) - rb_filled b) as Hl.
  { unfold len in *. rewrite length_drop. lia. }
  pose proof (poll_read_law io (len (drop (Z.to_nat (rb_filled b)) (rb_bytes b))) ltac:(lia)) as [Ht Hr].
  rewrite Hl in *. destruct (io_poll_read _ _) as [[[bs|e|]|] io']; cbn [fst snd] in *; [| |done|].
  - destruct Hr as (Hu & Hn & He). pose proof (len_nonneg bs). destruct (len bs =? 0) eqn:Eb; unbool.
    + apply len_zero in Eb. subst bs. specialize (He eq_refl). rewrite He in Hu.
      assert (unread io' = []) as Hu' by (by destruct (unread io')).
      split_and!; try done; [by rewrite Hu', He|].
      destruct (rb_filled b =? rb_start b) eqn:Ef; unbool.
      * split_and!; [apply len_zero; lia|done|lia].
      * split_and!; [intros Eq; rewrite Eq in Hq; unfold len in Hq; simpl in Hq; lia|done|lia].
    + destruct (fill_queue b bs Hok ltac:(lia)) as (Hok' & Hq' & Hl').
      pose proof (IH (fill b bs) io' Hok') as IH'. unfold frame_post in IH' |- *.
      destruct (poll_frame_loop fuel (fill b bs) io') as [[r b'] io''].
      destruct IH' as (I1 & I2 & I3 & I4 & I5).
      * rewrite Hl'. cbn. lia.
      * rewrite Hq', len_app. cbn. lia.
      * split_and!; [done|done|congruence| |done]. by rewrite I4, Hq', Hu, <- app_assoc.
  - split_and!; try done. by rewrite Hr.
  - split_and!; try done. by rewrite Hr.
Qed.

Lemma poll_frame_spec b io : rb_ok b -> frame_post b io (poll_frame b io).
Proof.
  intros Hok. unfold poll_frame. pose proof (len_queue b Hok) as Hq. case_if; unbool.
  { split_and!; try done. lia. }
  destruct (make_room_ok b Hok) as (Hok' & Hq' & Hn & Hr).
  pose proof (len_queue _ Hok') as Hl.
  pose proof (poll_frame_loop_spec (S (Z.to_nat (rb_needed (make_room b)
    - (rb_filled (make_room b) - rb_start (make_room b))))) (make_room b) io Hok' Hr ltac:(lia)) as H.
  cbv zeta. unfold frame_post in *.
  destruct (poll_frame_loop _ _ _) as [[r b'] io']. by rewrite Hq', Hn in H.
Qed.

End ReadLaws.
