(* ===== verification/SsStream.v ===== *)
(** The TCP stream of Shadowsocks 2022, [crates/xray-proxy/src/shadowsocks2022/stream.rs], with the
    record ciphers of [shadowsocks2022/crypto.rs]: the request in front, records in both
    directions, and what both ends make of them. *)
From Stdlib Require Import Strings.Byte.
From stdpp Require Import relations.
From S2P Require Import Prelude Net Transport Shadowsocks RecordBuffer.

Definition MAX_RECORD_LENGTH : Z := 65535.

Inductive Phase := PhHeader | PhLength | PhPayload | PhPlain.

#[export] Instance Phase_eq_dec : EqDecision Phase.
Proof. solve_decision. Defined.

Inductive SsIoError (E : Type) :=
| SsData (e : SsError)
| SsStreamFailed
| SsWriteZero
| SsBrokenPipe
| SsUnexpectedEof
| SsInner (e : E).
Arguments SsData {E} e.
Arguments SsStreamFailed {E}.
Arguments SsWriteZero {E}.
Arguments SsBrokenPipe {E}.
Arguments SsUnexpectedEof {E}.
Arguments SsInner {E} e.

(** ** Records: a session key and the nonces used with it *)

Section Codec.
Context `{C : Ciphers}.

Record StreamRecords := mkStreamRecords { sr_aead : AeadKey; sr_nonces : Records }.

Definition stream_records {E} (m : Method) (salt : list byte) : res E StreamRecords :=
  let? key := aead_session m salt in Ok (mkStreamRecords key Records_new).

(** [seal] and [seal_from] of the bytes behind [start]; the nonce is used up in any case. *)
Definition sr_seal (r : StreamRecords) (bytes : list byte)
    : res SsError (list byte) * StreamRecords :=
  match records_next (sr_nonces r) with
  | Ok (nonce, n) =>
    (ok_or (aead_seal (sr_aead r) nonce bytes) AeadEncryptionFailed, mkStreamRecords (sr_aead r) n)
  | Err e => (Err e, r)
  | Panic => (Panic, r)
  end.

Definition sr_open (r : StreamRecords) (bytes : list byte)
    : res SsError (list byte) * StreamRecords :=
  match records_next (sr_nonces r) with
  | Ok (nonce, n) =>
    (ok_or (aead_open (sr_aead r) nonce bytes) AeadAuthenticationFailed, mkStreamRecords (sr_aead r) n)
  | Err e => (Err e, r)
  | Panic => (Panic, r)
  end.

(** ** The request *)

(** The identity headers, one per pair of neighbouring keys. *)
Fixpoint stream_identities (c : Cipher) (ks : list (list byte)) (salt : list byte)
    : res SsError (list byte) :=
  match ks with
  | k0 :: ((k1 :: _) as rest) =>
    let key := derive (str_of "shadowsocks 2022 identity subkey") k0 salt in
    let? key := slice key 0 (key_len c) in
    let? identity := block key (identity_hash k1) false in
    let? more := stream_identities c rest salt in
    Ok (identity ++ more)
  | _ => Ok []
  end.

(** The variable part of a request: address, padding and the first payload. *)
Definition request_variable (m : Method) (t : Target) (salt : list byte) (padding : Z)
    (payload : list byte) : res SsError (list byte) :=
  let? a := encode_address t in
  if negb (bool_decide (network t = Tcp)) || ((padding =? 0) && bool_decide (payload = []))
     || (900 <? padding) || negb (len salt =? key_len (cipher m))
  then Err InvalidStreamRequest
  else
    let variable := a ++ be_bytes 2 padding ++ replicate (Z.to_nat padding) x00 ++ payload in
    if MAX_RECORD_LENGTH <? len variable then Err InitialPayloadTooLarge else Ok variable.

Definition header_len (m : Method) : Z := key_len (cipher m) * 2 + 11 + TAG_LENGTH.

(** The whole request, and the records that come behind it. *)
Definition request (m : Method) (t : Target) (salt : list byte) (timestamp padding : Z)
    (payload : list byte) : res SsError (list byte * StreamRecords) :=
  let? variable := request_variable m t salt padding payload in
  let fixed := [x00] ++ be_bytes 8 timestamp ++ be_bytes 2 (len variable) in
  let? identities := stream_identities (cipher m) (keys m) salt in
  let? writer := stream_records m salt in
  let '(fixed, writer) := sr_seal writer fixed in
  let? fixed := fixed in
  let '(variable, writer) := sr_seal writer variable in
  let? variable := variable in
  Ok (salt ++ identities ++ fixed ++ variable, writer).

Definition lift {E A} (r : total A) : res E A :=
  match r with Ok a => Ok a | Err e => match e with end | Panic => Panic end.

(** The response's header, opened and checked: its records and the length of the payload. *)
Definition open_header (m : Method) (request_salt : list byte) (now : res SsError Z)
    (body : list byte) : res SsError (StreamRecords * Z) :=
  let n := key_len (cipher m) in
  let? salt := slice body 0 n in
  let? reader := stream_records m salt in
  let? sealed := slice_from body n in
  let '(plain, reader) := sr_open reader sealed in
  let? header := plain in
  let? (kind, c) := cur_be header 1 in
  if negb (kind =? 1) then Err InvalidResponseType
  else
    let? (timestamp, c) := cur_be c 8 in
    let? now := now in
    let? _ := check_time timestamp now in
    let? (salt, c) := cur_take c n in
    if negb (bool_decide (salt = request_salt)) then Err ResponseSaltMismatch
    else
      let? (length, _) := cur_be c 2 in
      Ok (reader, length).

(** The length of the next payload. *)
Definition open_length_frame (r : StreamRecords) (body : list byte) : res SsError (StreamRecords * Z) :=
  let '(plain, r) := sr_open r body in
  let? plain := plain in
  let? length := slice (plain ++ drop (length plain) body) 0 2 in
  Ok (r, from_be length).
End Codec.

(** ** The stream *)

Section Stream.
Context `{C : Ciphers} {T : Type} `{Ai : AsyncIo T}.

Record ClientStream := mkClientStream {
  cs_inner : T;
  cs_method : Method;
  request_salt : list byte;
  writer : StreamRecords;
  reader : option StreamRecords;
  cs_pending : list byte;
  cs_pending_pos : Z;
  body : RecordBuffer;
  plain_len : Z;
  plain_pos : Z;
  phase : Phase;
  cs_failed : bool;
  cs_eof : bool;
  write_closed : bool
}.

Definition ClientStream_with_entropy (io : T) (m : Method) (t : Target) (salt : list byte)
    (timestamp padding : Z) (payload : list byte) : res SsError ClientStream :=
  let? (pending, writer) := request m t salt timestamp padding payload in
  let? body := lift (RecordBuffer_new (header_len m) (2 + TAG_LENGTH)) in
  Ok (mkClientStream io m salt writer None pending 0 body 0 0 PhHeader false false false).

(** The salt and the sixteen bits of the random source, and the clock, are arguments. *)
Definition ClientStream_new (io : T) (m : Method) (t : Target) (salt : list byte) (random : Z)
    (now : res SsError Z) : res SsError ClientStream :=
  let? now := now in
  ClientStream_with_entropy io m t salt now (random mod 900 + 1) [].

Definition set_out (s : ClientStream) (io : T) (p : list byte) (pos : Z) : ClientStream :=
  mkClientStream io (cs_method s) (request_salt s) (writer s) (reader s) p pos (body s)
    (plain_len s) (plain_pos s) (phase s) (cs_failed s) (cs_eof s) (write_closed s).

Definition set_in (s : ClientStream) (salt : list byte) (r : option StreamRecords)
    (b : RecordBuffer) (plen pos : Z) (ph : Phase) : ClientStream :=
  mkClientStream (cs_inner s) (cs_method s) salt (writer s) r (cs_pending s) (cs_pending_pos s) b
    plen pos ph (cs_failed s) (cs_eof s) (write_closed s).

Definition set_body (s : ClientStream) (io : T) (b : RecordBuffer) : ClientStream :=
  mkClientStream io (cs_method s) (request_salt s) (writer s) (reader s) (cs_pending s)
    (cs_pending_pos s) b (plain_len s) (plain_pos s) (phase s) (cs_failed s) (cs_eof s)
    (write_closed s).

Definition set_flags (s : ClientStream) (failed eof closed : bool) : ClientStream :=
  mkClientStream (cs_inner s) (cs_method s) (request_salt s) (writer s) (reader s) (cs_pending s)
    (cs_pending_pos s) (body s) (plain_len s) (plain_pos s) (phase s) failed eof closed.

Definition fail (s : ClientStream) : ClientStream := set_flags s true (cs_eof s) (write_closed s).

(** A frame that was not delivered as plaintext is erased before it is left. *)
Definition require_body (s : ClientStream) (length : Z) (ph : Phase) : total ClientStream :=
  let? b :=
    (if bool_decide (phase s = PhPlain) then Ok (body s)
     else let? f := frame (body s) in Ok (set_frame (body s) (replicate (List.length f) x00))) in
  let? b := advance b length in
  Ok (set_in s (request_salt s) (reader s) b 0 0 ph).

(** A frame of the current phase. What an error leaves in the buffer is not seen again: the stream
    is failed then. A payload is decrypted in place, over the front of its frame. *)
Definition process_body (s : ClientStream) (now : res SsError Z) : res SsError ClientStream :=
  let? f := lift (frame (body s)) in
  match phase s with
  | PhHeader =>
    let? (r, length) := open_header (cs_method s) (request_salt s) now f in
    lift (require_body (set_in s [] (Some r) (body s) (plain_len s) (plain_pos s) (phase s))
            (length + TAG_LENGTH) PhPayload)
  | PhLength =>
    let? r := unwrap (reader s) in
    let? (r, length) := open_length_frame r f in
    lift (require_body (set_in s (request_salt s) (Some r) (body s) (plain_len s) (plain_pos s) (phase s))
            (length + TAG_LENGTH) PhPayload)
  | PhPayload =>
    let? r := unwrap (reader s) in
    let '(plain, r) := sr_open r f in
    let? plain := plain in
    Ok (set_in s (request_salt s) (Some r)
          (set_frame (body s) (plain ++ drop (length plain) f)) (len plain) 0 PhPlain)
  | PhPlain => Panic
  end.

Fixpoint drain_loop (fuel : nat) (s : ClientStream)
    : poll (res (SsIoError io_error) unit) * ClientStream :=
  match fuel with
  | O => (Ready Panic, s)
  | S fuel =>
    if cs_pending_pos s <? len (cs_pending s) then
      match (slice_from (cs_pending s) (cs_pending_pos s) : total (list byte)) with
      | Ok rest =>
        match io_poll_write (cs_inner s) rest with
        | (Ready (Ok n), io) =>
          let s := set_out s io (cs_pending s) (cs_pending_pos s) in
          if n =? 0 then (Ready (Err SsWriteZero), fail s)
          else drain_loop fuel (set_out s io (cs_pending s) (cs_pending_pos s + n))
        | (Ready (Err e), io) =>
          (Ready (Err (SsInner e)), fail (set_out s io (cs_pending s) (cs_pending_pos s)))
        | (Ready Panic, io) => (Ready Panic, set_out s io (cs_pending s) (cs_pending_pos s))
        | (Pending, io) => (Pending, set_out s io (cs_pending s) (cs_pending_pos s))
        end
      | _ => (Ready Panic, s)
      end
    else (Ready (Ok tt), set_out s (cs_inner s) [] 0)
  end.

(** A turn writes at least one byte. *)
Definition drain (s : ClientStream) : poll (res (SsIoError io_error) unit) * ClientStream :=
  drain_loop (S (length (cs_pending s))) s.

(** Plaintext is erased as it is delivered. *)
Definition deliver (s : ClientStream) (room : Z) : total (list byte * ClientStream) :=
  let n := Z.min room (plain_len s - plain_pos s) in
  let? f := frame (body s) in
  let? bytes := slice f (plain_pos s) (plain_pos s + n) in
  let? front := slice f 0 (plain_pos s) in
  let? back := slice_from f (plain_pos s + n) in
  Ok (bytes, set_in s (request_salt s) (reader s)
               (set_frame (body s) (front ++ replicate (length bytes) x00 ++ back))
               (plain_len s) (plain_pos s + n) (phase s)).

(** The sixteen turns of a read; after them it asks to be polled again. *)
Fixpoint read_loop (turns : nat) (s : ClientStream) (room : Z) (now : res SsError Z)
    : poll (res (SsIoError io_error) (list byte)) * ClientStream :=
  match turns with
  | O => (Pending, s)
  | S turns =>
    if bool_decide (phase s = PhPlain) && (plain_pos s <? plain_len s) then
      match deliver s room with
      | Ok (bytes, s) => (Ready (Ok bytes), s)
      | _ => (Ready Panic, s)
      end
    else
      match (if bool_decide (phase s = PhPlain) then require_body s (2 + TAG_LENGTH) PhLength
             else Ok s) with
      | Ok s =>
        match poll_frame (body s) (cs_inner s) with
        | (Ready (Ok true), b, io) =>
          let s := set_body s io b in
          match process_body s now with
          | Ok s => read_loop turns s room now
          | Err e => (Ready (Err (SsData e)), fail s)
          | Panic => (Ready Panic, s)
          end
        | (Ready (Ok false), b, io) =>
          let s := set_body s io b in
          if bool_decide (phase s = PhLength)
          then (Ready (Ok []), set_flags s (cs_failed s) true (write_closed s))
          else (Ready (Err SsUnexpectedEof), fail s)
        | (Ready (Err RecordEof), b, io) => (Ready (Err SsUnexpectedEof), fail (set_body s io b))
        | (Ready (Err (RecordInner e)), b, io) => (Ready (Err (SsInner e)), fail (set_body s io b))
        | (Ready Panic, b, io) => (Ready Panic, set_body s io b)
        | (Pending, b, io) => (Pending, set_body s io b)
        end
      | _ => (Ready Panic, s)
      end
  end.

Definition poll_read (s : ClientStream) (room : Z) (now : res SsError Z)
    : poll (res (SsIoError io_error) (list byte)) * ClientStream :=
  if cs_failed s then (Ready (Err SsStreamFailed), s)
  else if (room =? 0) || cs_eof s then (Ready (Ok []), s)
  else
    match drain s with
    | (Ready (Err e), s) => (Ready (Err e), s)
    | (Ready Panic, s) => (Ready Panic, s)
    | (_, s) => read_loop 16 s room now
    end.

(** A record of the length and a record of the bytes. *)
Definition seal_chunk (r : StreamRecords) (chunk : list byte)
    : res SsError (list byte) * StreamRecords :=
  match sr_seal r (be_bytes 2 (len chunk)) with
  | (Ok head, r) =>
    match sr_seal r chunk with
    | (Ok tail, r) => (Ok (head ++ tail), r)
    | p => p
    end
  | p => p
  end.

Definition poll_write (s : ClientStream) (input : list byte)
    : poll (res (SsIoError io_error) Z) * ClientStream :=
  if cs_failed s || write_closed s then (Ready (Err SsBrokenPipe), s)
  else
    match drain s with
    | (Ready (Ok _), s) =>
      if bool_decide (input = []) then (Ready (Ok 0), s)
      else
        let n := Z.min (len input) 8192 in
        match seal_chunk (writer s) (take (Z.to_nat n) input) with
        | (Ok record, w) =>
          (Ready (Ok n),
           mkClientStream (cs_inner s) (cs_method s) (request_salt s) w (reader s)
             (cs_pending s ++ record) (cs_pending_pos s) (body s) (plain_len s) (plain_pos s)
             (phase s) (cs_failed s) (cs_eof s) (write_closed s))
        | (Err e, w) =>
          (Ready (Err (SsData e)),
           mkClientStream (cs_inner s) (cs_method s) (request_salt s) w (reader s)
             [] (cs_pending_pos s) (body s) (plain_len s) (plain_pos s)
             (phase s) true (cs_eof s) (write_closed s))
        | (Panic, _) => (Ready Panic, s)
        end
    | (Ready (Err e), s) => (Ready (Err e), s)
    | (Ready Panic, s) => (Ready Panic, s)
    | (Pending, s) => (Pending, s)
    end.

Definition poll_flush (s : ClientStream) : poll (res (SsIoError io_error) unit) * ClientStream :=
  if cs_failed s then (Ready (Err SsBrokenPipe), s)
  else
    match drain s with
    | (Ready (Ok _), s) =>
      match io_poll_flush (cs_inner s) with
      | (Ready (Ok _), io) => (Ready (Ok tt), set_out s io (cs_pending s) (cs_pending_pos s))
      | (Ready (Err e), io) =>
        (Ready (Err (SsInner e)), fail (set_out s io (cs_pending s) (cs_pending_pos s)))
      | (Ready Panic, io) => (Ready Panic, set_out s io (cs_pending s) (cs_pending_pos s))
      | (Pending, io) => (Pending, set_out s io (cs_pending s) (cs_pending_pos s))
      end
    | (Ready (Err e), s) => (Ready (Err e), s)
    | (Ready Panic, s) => (Ready Panic, s)
    | (Pending, s) => (Pending, s)
    end.

Definition poll_shutdown (s : ClientStream) : poll (res (SsIoError io_error) unit) * ClientStream :=
  match poll_flush s with
  | (Ready (Ok _), s) =>
    let s := set_flags s (cs_failed s) (cs_eof s) true in
    match io_poll_shutdown (cs_inner s) with
    | (Ready (Ok _), io) => (Ready (Ok tt), set_out s io (cs_pending s) (cs_pending_pos s))
    | (Ready (Err e), io) => (Ready (Err (SsInner e)), set_out s io (cs_pending s) (cs_pending_pos s))
    | (Ready Panic, io) => (Ready Panic, set_out s io (cs_pending s) (cs_pending_pos s))
    | (Pending, io) => (Pending, set_out s io (cs_pending s) (cs_pending_pos s))
    end
  | p => p
  end.
End Stream.
Arguments ClientStream {C} T.

Lemma cur_be_range c n z rest : 0 <= n -> cur_be c n = Ok (z, rest) -> 0 <= z < 256 ^ n.
Proof.
  intros Hn (h & Hh & E)%res_bind_ok_inv. destruct h as [h r]. injection E as <- <-.
  apply cur_take_spec in Hh as [_ <-]; [|done]. apply from_be_range.
Qed.

(** ** What a response means

    The frames of a response, one after the other, as a function of its bytes. *)

Inductive Ending := Ended | Cut | Refused (e : SsError).

Section Response.
Context `{CL : CiphersLaws}.
(** The request the response answers, and a time at which it is judged. *)
Context (m : Method) (salt : list byte) (now0 : res SsError Z).
Context (Hm : method_ok m) (Hnow : now0 <> Panic).

Inductive expect :=
| ExHeader
| ExLength (r : StreamRecords)
| ExPayload (r : StreamRecords) (n : Z).

Definition need (x : expect) : Z :=
  match x with
  | ExHeader => header_len m
  | ExLength _ => 2 + TAG_LENGTH
  | ExPayload _ n => n + TAG_LENGTH
  end.

(** The plaintext of a frame, and what comes behind it. *)
Definition open_frame (now : res SsError Z) (x : expect) (f : list byte)
    : res SsError (list byte * expect) :=
  match x with
  | ExHeader => let? (r, n) := open_header m salt now f in Ok ([], ExPayload r n)
  | ExLength r => let? (r, n) := open_length_frame r f in Ok ([], ExPayload r n)
  | ExPayload r n =>
    let '(plain, r) := sr_open r f in
    let? plain := plain in
    Ok (plain, ExLength r)
  end.

Definition at_boundary (x : expect) : bool := match x with ExLength _ => true | _ => false end.

Fixpoint decode_frames (fuel : nat) (x : expect) (b : list byte) : list byte * Ending :=
  match fuel with
  | O => ([], Cut)
  | S fuel =>
    if len b <? need x
    then ([], if bool_decide (b = []) && at_boundary x then Ended else Cut)
    else match open_frame now0 x (take (Z.to_nat (need x)) b) with
         | Ok (plain, x') =>
           let '(data, e) := decode_frames fuel x' (drop (Z.to_nat (need x)) b) in (plain ++ data, e)
         | Err e => ([], Refused e)
         | Panic => ([], Cut)
         end
  end.

(** A payload's length is a [u16]. *)
Definition expect_ok (x : expect) : Prop :=
  match x with ExPayload _ n => 0 <= n <= 65535 | _ => True end.

Definition downlink (x : expect) (b : list byte) : list byte * Ending := decode_frames (S (length b)) x b.

Lemma need_range x : expect_ok x -> 16 <= need x <= MAX_FRAME.
Proof.
  unfold need, header_len, MAX_FRAME, TAG_LENGTH. pose proof (key_len_range (cipher m)).
  destruct x; simpl; lia.
Qed.

Lemma sr_open_spec r f :
  let '(p, r') := sr_open r f in
  p <> Panic /\ forall plain, p = Ok plain -> len f = len plain + 16.
Proof.
  unfold sr_open, records_next. destruct (exhausted _); [done|].
  destruct (increment _). destruct (aead_open _ _ _) eqn:E; [|done]. cbn. split; [done|].
  intros ? <-%Ok_inj. by apply open_length in E.
Qed.

Lemma stream_records_ok {E} s : exists r, @stream_records C E m s = Ok r.
Proof. unfold stream_records. destruct (@aead_session_ok C CL E m s Hm) as [k ->]. by eexists. Qed.

Lemma open_header_spec now f :
  now <> Panic -> len f = header_len m ->
  open_header m salt now f <> Panic
  /\ forall r n, open_header m salt now f = Ok (r, n) -> 0 <= n <= 65535.
Proof.
  intros Hn Hf. unfold open_header. pose proof (key_len_range (cipher m)).
  destruct (@slice_some SsError byte f 0 (key_len (cipher m))) as [s Es];
    [lia|rewrite Hf; unfold header_len, TAG_LENGTH; lia|].
  rewrite Es. cbn [res_bind]. destruct (@stream_records_ok SsError s) as [r0 ->]. cbn [res_bind].
  rewrite slice_from_ok by (rewrite Hf; unfold header_len, TAG_LENGTH; lia). cbn [res_bind].
  pose proof (sr_open_spec r0 (drop (Z.to_nat (key_len (cipher m))) f)) as Ho.
  destruct (sr_open _ _) as [p r1]. destruct Ho as [Hp _]. destruct p as [header| |]; [|done..].
  cbn [res_bind]. split.
  - apply res_bind_no_panic; [by apply cur_be_no_panic|]. intros [kind c1] _. case_if; [done|].
    apply res_bind_no_panic; [by apply cur_be_no_panic|]. intros [ts c2] _.
    apply res_bind_no_panic; [done|]. intros nw _.
    apply res_bind_no_panic; [unfold check_time; by case_if|]. intros _ _.
    apply res_bind_no_panic; [apply cur_take_spec; lia|]. intros [s2 c3] _. case_if; [done|].
    apply res_bind_no_panic; [by apply cur_be_no_panic|]. by intros [? ?].
  - intros r n ([kind c1] & _ & H1)%res_bind_ok_inv. case_if_in H1; [done|].
    apply res_bind_ok_inv in H1 as ([ts c2] & _ & H1).
    apply res_bind_ok_inv in H1 as (nw & _ & H1). apply res_bind_ok_inv in H1 as ([] & _ & H1).
    apply res_bind_ok_inv in H1 as ([s2 c3] & _ & H1). case_if_in H1; [done|].
    apply res_bind_ok_inv in H1 as ([n' c4] & Hl & H1). injection H1 as <- <-.
    apply cur_be_range in Hl; [|done]. change (256 ^ 2) with 65536 in Hl. lia.
Qed.

Lemma open_length_frame_spec r f :
  len f = 2 + TAG_LENGTH ->
  open_length_frame r f <> Panic
  /\ forall r' n, open_length_frame r f = Ok (r', n) -> 0 <= n <= 65535.
Proof.
  intros Hf. unfold open_length_frame. pose proof (sr_open_spec r f) as Ho.
  destruct (sr_open r f) as [p r1]. destruct Ho as [Hp Hl]. destruct p as [plain| |]; [|done..].
  specialize (Hl plain eq_refl). unfold TAG_LENGTH in Hf. cbn [res_bind].
  destruct (@slice_some SsError byte (plain ++ drop (length plain) f) 0 2) as [x Ex];
    [lia|unfold len in *; rewrite length_app, length_drop; lia|].
  pose proof (slice_len _ _ _ _ Ex) as Hx. rewrite Ex. cbn [res_bind]. split; [done|]. intros ? ? [= <- <-].
  pose proof (from_be_range x) as Hr. rewrite Hx in Hr. change (256 ^ (2 - 0)) with 65536 in Hr. lia.
Qed.

Lemma open_frame_spec x f :
  expect_ok x -> len f = need x ->
  open_frame now0 x f <> Panic
  /\ forall plain x', open_frame now0 x f = Ok (plain, x') -> expect_ok x'.
Proof.
  intros Hx Hf. destruct x as [|r|r n]; cbn [open_frame need] in *.
  - destruct (open_header_spec now0 f Hnow Hf) as [Hp Hn].
    destruct (open_header m salt now0 f) as [[r n]| |]; [|done..]. split; [done|].
    intros ? ? [= <- <-]. by eapply Hn.
  - destruct (open_length_frame_spec r f Hf) as [Hp Hn].
    destruct (open_length_frame r f) as [[r' n]| |]; [|done..]. split; [done|].
    intros ? ? [= <- <-]. by eapply Hn.
  - pose proof (sr_open_spec r f) as Ho. destruct (sr_open r f) as [p r1]. destruct Ho as [Hp _].
    destruct p; [|done..]. split; [done|]. by intros ? ? [= <- <-].
Qed.

Lemma decode_frames_fuel fuel fuel' x b :
  expect_ok x -> (length b < fuel)%nat -> (length b < fuel')%nat ->
  decode_frames fuel x b = decode_frames fuel' x b.
Proof.
  revert fuel' x b. induction fuel as [|fuel IH]; intros fuel' x b Hx H1 H2; [lia|].
  destruct fuel' as [|fuel']; [lia|]. cbn [decode_frames]. pose proof (need_range x Hx).
  destruct (len b <? need x) eqn:E; [done|]. unbool.
  destruct (open_frame_spec x (take (Z.to_nat (need x)) b) Hx) as [_ Hok].
  { unfold len in *. rewrite length_take. lia. }
  destruct (open_frame _ _ _) as [[plain x']| |]; [|done..].
  rewrite (IH fuel'); [done|by eapply Hok|unfold len in *; rewrite length_drop; lia..].
Qed.

Lemma downlink_eq x b :
  expect_ok x ->
  downlink x b =
    if len b <? need x then ([], if bool_decide (b = []) && at_boundary x then Ended else Cut)
    else match open_frame now0 x (take (Z.to_nat (need x)) b) with
         | Ok (plain, x') =>
           let '(data, e) := downlink x' (drop (Z.to_nat (need x)) b) in (plain ++ data, e)
         | Err e => ([], Refused e)
         | Panic => ([], Cut)
         end.
Proof.
  intros Hx. unfold downlink. cbn [decode_frames]. pose proof (need_range x Hx).
  destruct (len b <? need x) eqn:E; [done|]. unbool.
  destruct (open_frame_spec x (take (Z.to_nat (need x)) b) Hx) as [_ Hok].
  { unfold len in *. rewrite length_take. lia. }
  destruct (open_frame _ _ _) as [[plain x']| |]; [|done..].
  rewrite (decode_frames_fuel (length b) (S (length (drop (Z.to_nat (need x)) b))));
    [done|by eapply Hok|unfold len in *; rewrite length_drop; lia..].
Qed.

(** A response that answers this request, now: its header authenticates under the session key of
    its own salt and repeats the salt of the request. *)
Definition genuine (b : list byte) : Prop :=
  exists rsalt sealed rest key sent_at n now,
    b = rsalt ++ sealed ++ rest /\ len rsalt = key_len (cipher m)
    /\ @aead_session C SsError m rsalt = Ok key
    /\ aead_open key (replicate 12 x00) sealed
       = Some ([x01] ++ be_bytes 8 sent_at ++ salt ++ be_bytes 2 n)
    /\ now0 = Ok now /\ Z.abs (sent_at - now) <= 30.

Lemma cur_be_inv c n z rest : 0 <= n -> cur_be c n = Ok (z, rest) -> c = be_bytes (Z.to_nat n) z ++ rest.
Proof.
  intros Hn ([h r] & Hh & E)%res_bind_ok_inv. injection E as <- <-.
  apply cur_take_spec in Hh as [-> Hl]; [|done]. by rewrite be_bytes_from_be by (unfold len in Hl; lia).
Qed.

Lemma cur_be_ok c n z rest : 0 <= n -> cur_be c n = Ok (z, rest) -> len c = n + len rest.
Proof.
  intros Hn ([h r] & Hh & E)%res_bind_ok_inv. injection E as <- <-.
  apply cur_take_spec in Hh as [-> Hl]; [|done]. rewrite len_app. lia.
Qed.

Lemma open_header_genuine f rest r n :
  len f = header_len m -> open_header m salt now0 f = Ok (r, n) -> genuine (f ++ rest).
Proof.
  intros Hf. unfold open_header. pose proof (key_len_range (cipher m)) as [Hk _].
  unfold header_len, TAG_LENGTH in Hf. intros (rs & Hrs & H1)%res_bind_ok_inv.
  apply res_bind_ok_inv in H1 as (r0 & (key & Hkey & [= <-])%res_bind_ok_inv & H1).
  rewrite slice_from_ok in H1 by lia. cbn [res_bind] in H1.
  set (sl := drop (Z.to_nat (key_len (cipher m))) f) in *.
  assert (f = rs ++ sl) as Hfs.
  { unfold slice in Hrs. case_if_in Hrs; [|done]. injection Hrs as <-.
    rewrite Z.sub_0_r, drop_0. subst sl. by rewrite take_drop. }
  apply slice_len in Hrs. assert (len sl = key_len (cipher m) + 11 + 16) as Hsl.
  { apply (f_equal len) in Hfs. rewrite len_app in Hfs. lia. }
  change (sr_open (mkStreamRecords key Records_new) sl)
    with (ok_or (aead_open key (replicate 12 x00) sl) AeadAuthenticationFailed,
          mkStreamRecords key (mkRecords (fst (increment (replicate 12 x00))) false)) in H1.
  destruct (aead_open key (replicate 12 x00) sl) as [header|] eqn:Eo; [|done]. cbn [ok_or res_bind] in H1.
  pose proof (open_length _ _ _ _ Eo) as Hhl.
  apply res_bind_ok_inv in H1 as ([kind c1] & E1 & H1). case_if_in H1; [done|].
  apply res_bind_ok_inv in H1 as ([ts c2] & E2 & H1). apply res_bind_ok_inv in H1 as (now & En & H1).
  apply res_bind_ok_inv in H1 as (? & Et & H1). apply res_bind_ok_inv in H1 as ([s2 c3] & E3 & H1).
  case_if_in H1; [done|]. apply res_bind_ok_inv in H1 as ([n' c4] & E4 & H1). unbool. subst kind s2.
  pose proof (cur_be_ok _ 1 _ _ ltac:(lia) E1). pose proof (cur_be_ok _ 8 _ _ ltac:(lia) E2).
  pose proof (cur_be_ok _ 2 _ _ ltac:(lia) E4).
  apply cur_be_inv in E1, E2, E4; [|lia..]. apply cur_take_spec in E3 as [E3 Hs]; [|lia].
  assert (len c2 = len salt + len c3) as Hc2 by (by rewrite E3, len_app).
  assert (c4 = []) as Hc4 by (apply len_zero; lia).
  unfold check_time in Et. case_if_in Et; [done|]. unbool.
  exists rs, sl, rest, key, ts, n', now. split_and!; [by rewrite Hfs, <- app_assoc|lia|done| |done|done].
  rewrite Eo, E1, E2, E3, E4, Hc4, app_nil_r. done.
Qed.

(** Nothing is delivered of any other response. *)
Lemma downlink_genuine b : fst (downlink ExHeader b) <> [] -> genuine b.
Proof.
  rewrite downlink_eq by done. cbn [need]. case_if; [done|]. unbool. cbn [open_frame].
  pose proof (need_range ExHeader I) as Hn. cbn [need] in Hn.
  destruct (open_header m salt now0 (take (Z.to_nat (header_len m)) b)) as [[r n]| |] eqn:Eo; [|done..].
  intros _. rewrite <- (take_drop (Z.to_nat (header_len m)) b). eapply open_header_genuine; [|exact Eo].
  unfold len in *. rewrite length_take. lia.
Qed.

End Response.

(** ** Reading *)

Section Reading.
Context `{CL : CiphersLaws} {T : Type} `{Ai : AsyncIo T} `{Laws : !AsyncIoLaws T}.
Context (m : Method) (salt : list byte) (now0 : res SsError Z).
Context (Hm : method_ok m) (Hnow : now0 <> Panic) (response : list byte).
Abbreviation CS := (ClientStream T).

(** The clock judges the header of the response as it did at [now0]. *)
Definition same_verdict (now : res SsError Z) : Prop :=
  let header := take (Z.to_nat (header_len m)) response in
  open_header m salt now header = open_header m salt now0 header.

Definition rest (s : CS) : list byte := queue (body s) ++ unread (cs_inner s).

Definition expecting (s : CS) : expect :=
  match phase s, reader s with
  | PhHeader, _ | _, None => ExHeader
  | PhPayload, Some r => ExPayload r (rb_needed (body s) - TAG_LENGTH)
  | _, Some r => ExLength r
  end.

Record cs_ok (s : CS) : Prop := {
  co_method : cs_method s = m;
  co_body : rb_ok (body s);
  co_pending : 0 <= cs_pending_pos s <= len (cs_pending s);
  co_phase :
    match phase s with
    | PhHeader => rb_needed (body s) = header_len m /\ request_salt s = salt /\ rest s = response
    | PhLength => rb_needed (body s) = 2 + TAG_LENGTH /\ is_Some (reader s)
    | PhPayload => TAG_LENGTH <= rb_needed (body s) /\ is_Some (reader s)
    | PhPlain =>
      rb_needed (body s) <= len (queue (body s)) /\ 0 <= plain_pos s <= plain_len s
      /\ plain_len s <= rb_needed (body s) /\ is_Some (reader s)
    end;
  co_eof : cs_eof s = true -> phase s = PhLength /\ rest s = []
}.

(** What is left to be delivered, and how it ends. *)
Definition view (s : CS) : list byte * Ending :=
  if bool_decide (phase s = PhPlain) then
    let '(data, e) := downlink m salt now0 (expecting s)
                        (drop (Z.to_nat (rb_needed (body s))) (rest s)) in
    (take (Z.to_nat (plain_len s - plain_pos s)) (drop (Z.to_nat (plain_pos s)) (queue (body s)))
       ++ data, e)
  else downlink m salt now0 (expecting s) (rest s).

Definition same_out (s s' : CS) : Prop :=
  taken (cs_inner s') = taken (cs_inner s) /\ writer s' = writer s /\ cs_pending s' = cs_pending s
  /\ cs_pending_pos s' = cs_pending_pos s /\ cs_method s' = cs_method s.

Lemma same_out_trans s1 s2 s3 : same_out s1 s2 -> same_out s2 s3 -> same_out s1 s3.
Proof. unfold same_out. intuition congruence. Qed.

Lemma expecting_ok s :
  cs_ok s -> phase s <> PhPlain ->
  expect_ok (expecting s) /\ need m (expecting s) = rb_needed (body s).
Proof.
  intros [_ [_ _ _ Hn _] _ Hp _] Hph. unfold expecting, MAX_FRAME, TAG_LENGTH in *.
  destruct (phase s); [|..|done].
  - by destruct Hp as (-> & _ & _).
  - destruct Hp as [-> [r ->]]. done.
  - destruct Hp as [? [r ->]]. simpl. unfold TAG_LENGTH. lia.
Qed.

Lemma require_body_spec (s : CS) length ph :
  rb_ok (body s) -> rb_needed (body s) <= len (queue (body s)) -> 0 <= length <= MAX_FRAME ->
  exists b, require_body s length ph = Ok (set_in s (request_salt s) (reader s) b 0 0 ph)
    /\ rb_ok b /\ rb_needed b = length
    /\ queue b = drop (Z.to_nat (rb_needed (body s))) (queue (body s)).
Proof.
  intros Hb Hn Hl. unfold require_body. case_bool_decide.
  - cbn [res_bind]. destruct (advance_queue (body s) length Hb Hn Hl) as (b & -> & ? & ? & ?). eauto.
  - rewrite frame_queue by done. cbn [res_bind].
    set (f := take _ (queue (body s))).
    assert (len (replicate (List.length f) x00) = rb_needed (body s)) as Hf.
    { subst f. destruct Hb. unfold len in *. rewrite length_replicate, length_take. lia. }
    destruct (set_frame_queue (body s) _ Hb Hn Hf) as [Hb' Hq'].
    destruct (advance_queue (set_frame (body s) (replicate (List.length f) x00)) length Hb')
      as (b & -> & ? & ? & Hq); [|done|].
    + cbn [rb_needed set_frame]. rewrite Hq', len_app, Hf. pose proof (len_nonneg (drop (Z.to_nat (rb_needed (body s))) (queue (body s)))). lia.
    + cbn [res_bind]. eexists. split_and!; [done..|]. rewrite Hq, Hq'. cbn [rb_needed set_frame].
      apply drop_app_length'. unfold len in Hf. lia.
Qed.

Lemma take_rest (s : CS) :
  rb_ok (body s) -> rb_needed (body s) <= len (queue (body s)) ->
  take (Z.to_nat (rb_needed (body s))) (rest s) = take (Z.to_nat (rb_needed (body s))) (queue (body s))
  /\ drop (Z.to_nat (rb_needed (body s))) (rest s)
     = drop (Z.to_nat (rb_needed (body s))) (queue (body s)) ++ unread (cs_inner s).
Proof.
  intros Hb Hn. destruct Hb. unfold rest, len in *. split; [apply take_app_le|apply drop_app_le]; lia.
Qed.

(** The view in front of a frame that is there. *)
Lemma view_frame s :
  cs_ok s -> phase s <> PhPlain -> rb_needed (body s) <= len (queue (body s)) ->
  view s = match open_frame m salt now0 (expecting s)
                   (take (Z.to_nat (rb_needed (body s))) (queue (body s))) with
           | Ok (plain, x) =>
             let '(data, e) := downlink m salt now0 x
               (drop (Z.to_nat (rb_needed (body s))) (rest s)) in (plain ++ data, e)
           | Err e => ([], Refused e)
           | Panic => ([], Cut)
           end.
Proof.
  intros Hok Hph Hn. unfold view. rewrite bool_decide_eq_false_2 by done.
  destruct (expecting_ok s Hok Hph) as [Hx Hneed]. rewrite downlink_eq by done. rewrite Hneed.
  destruct (take_rest s (co_body s Hok) Hn) as [-> _].
  pose proof (len_nonneg (unread (cs_inner s))).
  guard_false by (apply Z.ltb_ge; unfold rest; rewrite len_app; lia). done.
Qed.

(** Behind a length: the frame of that payload is next. *)
Lemma require_payload s slt r n :
  cs_ok s -> phase s <> PhPlain -> rb_needed (body s) <= len (queue (body s)) -> 0 <= n <= 65535 ->
  exists s', require_body (set_in s slt (Some r) (body s) (plain_len s) (plain_pos s) (phase s))
               (n + TAG_LENGTH) PhPayload = Ok s'
    /\ (cs_eof s = false -> cs_ok s') /\ same_out s s' /\ cs_eof s' = cs_eof s
    /\ view s' = downlink m salt now0 (ExPayload r n) (drop (Z.to_nat (rb_needed (body s))) (rest s)).
Proof.
  intros Hok Hph Hn Hr. pose proof Hok as [Hmth Hb Hp _ _].
  destruct (require_body_spec (set_in s slt (Some r) (body s) (plain_len s) (plain_pos s) (phase s))
    (n + TAG_LENGTH) PhPayload Hb Hn) as (b & -> & Hb' & Hn' & Hq').
  { unfold TAG_LENGTH, MAX_FRAME. lia. }
  eexists. split; [done|]. cbn [body set_in] in Hq'. split_and!; try done.
  - intros He. split; cbn; [done..| |congruence]. split; [unfold TAG_LENGTH in *; lia|eauto].
  - rewrite (proj2 (take_rest s Hb Hn)). unfold view, expecting, rest.
    cbn [phase reader body cs_inner set_in]. change (bool_decide (PhPayload = PhPlain)) with false.
    cbv iota. rewrite Hn', Hq'. replace (n + TAG_LENGTH - TAG_LENGTH) with n by lia. done.
Qed.

Lemma process_spec s now :
  cs_ok s -> phase s <> PhPlain -> rb_needed (body s) <= len (queue (body s)) ->
  same_verdict now -> now <> Panic -> cs_eof s = false ->
  match process_body s now with
  | Ok s' => cs_ok s' /\ same_out s s' /\ view s' = view s /\ cs_eof s' = false
  | Err e => view s = ([], Refused e)
  | Panic => False
  end.
Proof.
  intros Hok Hph Hn Hv Hnp Heof. rewrite (view_frame s Hok Hph Hn). unfold process_body.
  rewrite frame_queue by (done || apply Hok). cbn [res_bind lift].
  set (f := take (Z.to_nat (rb_needed (body s))) (queue (body s))).
  assert (len f = rb_needed (body s)) as Hf.
  { destruct Hok as [_ [] _ _ _]. subst f. unfold len in *. rewrite length_take. lia. }
  pose proof Hok as [Hmth Hb Hpd Hp _]. unfold expecting.
  destruct (phase s) eqn:Eph; [| | |done].
  - destruct Hp as (Hnd & Hs & Hr). cbn [open_frame].
    assert (f = take (Z.to_nat (header_len m)) response) as Hf'.
    { subst f. rewrite <- Hr, <- Hnd. symmetry. by apply take_rest. }
    assert (open_header (cs_method s) (request_salt s) now f = open_header m salt now0 f) as ->.
    { rewrite Hmth, Hs, Hf'. apply Hv. }
    destruct (open_header_spec m salt Hm now0 f Hnow ltac:(congruence)) as [Hnp' Hrange].
    destruct (open_header m salt now0 f) as [[r n]|e|]; [|done..]. cbn [res_bind].
    destruct (require_payload s [] r n Hok ltac:(by rewrite Eph) Hn (Hrange _ _ eq_refl))
      as (s' & Es & H1 & H2 & H3 & H4).
    rewrite Eph in Es. rewrite Es. cbn [lift]. split_and!; [auto|done| |congruence]. rewrite H4.
    by destruct (downlink _ _ _ _ _).
  - destruct Hp as [Hnd [r ->]]. cbn [unwrap res_bind open_frame].
    destruct (open_length_frame_spec r f ltac:(congruence)) as [Hnp' Hrange].
    destruct (open_length_frame r f) as [[r' n]|e|]; [|done..]. cbn [res_bind].
    destruct (require_payload s (request_salt s) r' n Hok ltac:(by rewrite Eph) Hn (Hrange _ _ eq_refl))
      as (s' & Es & H1 & H2 & H3 & H4).
    rewrite Eph in Es. rewrite Es. cbn [lift]. split_and!; [auto|done| |congruence]. rewrite H4.
    by destruct (downlink _ _ _ _ _).
  - destruct Hp as [Hnd [r ->]]. cbn [unwrap res_bind open_frame].
    pose proof (sr_open_spec r f) as Ho. destruct (sr_open r f) as [[plain|e|] r']; destruct Ho as [Hnp' Hlen];
      [|done..]. specialize (Hlen plain eq_refl). cbn [res_bind].
    set (g := plain ++ drop (length plain) f).
    assert (len g = rb_needed (body s)) as Hg.
    { subst g. unfold len in *. rewrite length_app, length_drop. lia. }
    destruct (set_frame_queue (body s) g Hb Hn Hg) as [Hb' Hq'].
    pose proof (len_nonneg plain).
    assert (rb_needed (body s) <= len (queue (set_frame (body s) g))) as Hn'.
    { rewrite Hq', len_app, Hg. pose proof (len_nonneg (drop (Z.to_nat (rb_needed (body s))) (queue (body s)))). lia. }
    split_and!; try done.
    + split; cbn; [done..| |congruence]. split_and!; [done|lia|lia|lia|eauto].
    + unfold view, expecting, rest. cbn [phase reader body cs_inner set_in plain_len plain_pos].
      change (bool_decide (PhPlain = PhPlain)) with true. cbv iota. rewrite Hq'.
      cbn [rb_needed set_frame].
      assert (length g = Z.to_nat (rb_needed (body s))) as Hgl by (unfold len in Hg; lia).
      rewrite <- app_assoc, (drop_app_length' g) by done.
      rewrite (drop_app_le (queue (body s))) by (unfold len in *; lia).
      destruct (downlink _ _ _ _ _) as [data e]. f_equal. f_equal.
      rewrite Z.sub_0_r, drop_0. subst g. unfold len. rewrite Nat2Z.id, <- app_assoc.
      apply take_app_length.
Qed.

(** Delivered bytes are erased; the bytes behind them stay. *)
Lemma erase_front (q : list byte) (a c k : nat) :
  (a + c <= k)%nat -> (k <= length q)%nat ->
  let f := take k q in
  let g := take a f ++ replicate c x00 ++ drop (a + c) f in
  length g = k /\ take c (drop a f) = take c (drop a q) /\ drop (a + c) (g ++ drop k q) = drop (a + c) q.
Proof.
  intros Hac Hk f g. assert (length f = k) as Hf by (subst f; rewrite length_take; lia).
  assert (q = f ++ drop k q) as Hq by (unfold f; by rewrite take_drop).
  assert (length g = k) as Hg.
  { subst g. rewrite !length_app, length_take, length_replicate, length_drop. lia. }
  split_and!; [done| |].
  - rewrite Hq at 1. rewrite drop_app_le by lia. rewrite take_app_le; [done|]. rewrite length_drop. lia.
  - rewrite drop_app_le by lia. rewrite Hq at 2. rewrite drop_app_le by lia. f_equal.
    subst g. rewrite app_assoc. apply drop_app_length'.
    rewrite length_app, length_take, length_replicate. lia.
Qed.

Lemma take_add_drop {A} (l : list A) a c d :
  take (c + d) (drop a l) = take c (drop a l) ++ take d (drop (a + c) l).
Proof. by rewrite <- drop_drop, take_take_drop. Qed.

Lemma deliver_eq s room :
  cs_ok s -> phase s = PhPlain -> plain_pos s < plain_len s -> 0 < room ->
  let q := queue (body s) in
  let f := take (Z.to_nat (rb_needed (body s))) q in
  let a := Z.to_nat (plain_pos s) in
  let c := Z.to_nat (Z.min room (plain_len s - plain_pos s)) in
  let g := take a f ++ replicate c x00 ++ drop (a + c) f in
  len g = rb_needed (body s) /\ len (take c (drop a q)) = Z.of_nat c
  /\ deliver s room
     = Ok (take c (drop a q),
           set_in s (request_salt s) (reader s) (set_frame (body s) g) (plain_len s)
             (plain_pos s + Z.of_nat c) (phase s)).
Proof.
  intros Hok Hph Hpos Hroom q f a c g. pose proof Hok as [_ Hb _ Hp _]. rewrite Hph in Hp.
  destruct Hp as (Hn & Hpl & Hle & _). fold q in Hn.
  assert (length f = Z.to_nat (rb_needed (body s))) as Hfl.
  { destruct Hb. subst f. unfold len in *. rewrite length_take. lia. }
  destruct Hb as [_ _ _ Hnd _].
  assert (a + c <= Z.to_nat (rb_needed (body s)))%nat as Hac by lia.
  destruct (erase_front q a c (Z.to_nat (rb_needed (body s))) Hac) as (Hg & Hbs & _);
    [unfold len in Hn; lia|]. fold f in Hg, Hbs. fold g in Hg.
  assert (length (take c (drop a f)) = c) as Hc by (rewrite length_take, length_drop; lia).
  split; [unfold len; lia|]. rewrite <- Hbs. split; [unfold len; lia|].
  unfold deliver. rewrite frame_queue by (done || apply Hok). cbn [res_bind]. fold q f.
  replace (Z.min room (plain_len s - plain_pos s)) with (Z.of_nat c) by lia.
  rewrite (slice_eq (take a f) (take c (drop a f)) (drop c (drop a f)));
    [|by rewrite (take_drop c), take_drop|unfold len; rewrite length_take; lia|unfold len; lia].
  cbn [res_bind]. rewrite (slice_eq [] (take a f) (drop a f));
    [|by rewrite app_nil_l, take_drop|done|unfold len; rewrite length_take; lia].
  cbn [res_bind]. rewrite slice_from_ok by (unfold len; lia). cbn [res_bind]. rewrite Hc.
  by replace (Z.to_nat (plain_pos s + Z.of_nat c)) with (a + c)%nat by lia.
Qed.

Lemma ss_deliver_spec s room :
  cs_ok s -> phase s = PhPlain -> plain_pos s < plain_len s -> 0 < room -> cs_eof s = false ->
  exists bs s', deliver s room = Ok (bs, s') /\ cs_ok s' /\ same_out s s' /\ bs <> []
    /\ len bs <= room /\ view s = (bs ++ fst (view s'), snd (view s')).
Proof.
  intros Hok Hph Hpos Hroom Heof. destruct (deliver_eq s room Hok Hph Hpos Hroom) as (Hg & Hbs & ->).
  pose proof Hok as [Hmth Hb Hpd Hp _]. rewrite Hph in Hp. destruct Hp as (Hn & Hpl & Hle & [r Hr]).
  set (q := queue (body s)) in *. set (k := Z.to_nat (rb_needed (body s))) in *.
  set (a := Z.to_nat (plain_pos s)) in *. set (c := Z.to_nat (Z.min room _)) in *.
  set (g := take a (take k q) ++ _) in *.
  destruct (erase_front q a c k) as (Hgl & _ & Hdq); [destruct Hb; lia|unfold len in Hn; lia|].
  fold g in Hgl, Hdq. destruct (set_frame_queue (body s) g Hb Hn Hg) as [Hb' Hq']. fold q k in Hq'.
  do 2 eexists. split_and!; [done| |done| |lia|].
  - split; cbn [cs_method body cs_pending_pos cs_pending phase reader plain_pos plain_len set_in cs_eof
                 rb_needed set_frame]; [done..| |congruence]. rewrite Hph.
    split_and!; [|lia|lia|lia|eauto]. fold (set_frame (body s) g). rewrite Hq', len_app.
    pose proof (len_nonneg (drop k q)). lia.
  - intros E0. rewrite E0 in Hbs. unfold len in Hbs. simpl in Hbs. lia.
  - unfold view, expecting, rest.
    cbn [phase reader body set_in rb_needed set_frame cs_inner plain_len plain_pos].
    fold (set_frame (body s) g). rewrite Hph, Hq', Hr, <- app_assoc. fold q k.
    change (bool_decide (PhPlain = PhPlain)) with true. cbv iota.
    rewrite (drop_app_length' g), (drop_app_le q) by (done || unfold len in Hn; lia).
    destruct (downlink _ _ _ _ _) as [data e]. cbn [fst snd]. rewrite app_assoc. f_equal. f_equal.
    replace (Z.to_nat (plain_pos s + Z.of_nat c)) with (a + c)%nat by lia. rewrite Hdq. fold a.
    rewrite <- take_add_drop. f_equal. lia.
Qed.

(** Delivered plaintext behind it, the next length is awaited. *)
Lemma require_length s :
  cs_ok s -> phase s = PhPlain -> plain_len s <= plain_pos s -> cs_eof s = false ->
  exists s', require_body s (2 + TAG_LENGTH) PhLength = Ok s'
    /\ cs_ok s' /\ same_out s s' /\ view s' = view s /\ cs_eof s' = false /\ phase s' = PhLength.
Proof.
  intros Hok Hph Hpos Heof. pose proof Hok as [Hmth Hb Hpd Hp _]. rewrite Hph in Hp.
  destruct Hp as (Hn & Hpl & Hle & [r Hr]).
  destruct (require_body_spec s (2 + TAG_LENGTH) PhLength Hb Hn) as (b & -> & Hb' & Hn' & Hq');
    [unfold TAG_LENGTH, MAX_FRAME; lia|].
  eexists. split_and!; [done| |done| |done|done].
  - split; cbn; [done..| |congruence]. by rewrite Hr.
  - unfold view, expecting. cbn [phase reader body set_in rb_needed plain_len plain_pos].
    rewrite Hph, Hr. change (bool_decide (PhPlain = PhPlain)) with true.
    change (bool_decide (PhLength = PhPlain)) with false. cbv iota.
    rewrite (proj2 (take_rest s Hb Hn)). unfold rest at 1. cbn [body cs_inner set_in]. rewrite Hq'.
    replace (Z.to_nat (plain_len s - plain_pos s)) with 0%nat by lia. rewrite take_0.
    by destruct (downlink _ _ _ _ _).
Qed.

Definition read_post (s : CS) (room : Z) (p : poll (res (SsIoError io_error) (list byte)) * CS) : Prop :=
  same_out s (snd p)
  /\ match fst p with
     | Ready (Ok bs) =>
       cs_ok (snd p) /\ view s = (bs ++ fst (view (snd p)), snd (view (snd p)))
       /\ len bs <= room /\ (bs = [] -> view s = ([], Ended))
     | Ready (Err (SsData e)) => view s = ([], Refused e)
     | Ready (Err SsUnexpectedEof) => view s = ([], Cut)
     | Ready (Err (SsInner _)) => True
     | Ready (Err _) => False
     | Ready Panic => False
     | Pending => cs_ok (snd p) /\ view (snd p) = view s
     end.

Lemma ss_read_post_view s s1 room p :
  same_out s s1 -> view s1 = view s -> read_post s1 room p -> read_post s room p.
Proof.
  unfold read_post. intros H1 -> [H2 H3]. split; [by eapply same_out_trans|done].
Qed.

(** What polling for a frame does to a stream that waits for one. *)
Lemma poll_frame_stream s :
  cs_ok s -> phase s <> PhPlain -> cs_eof s = false ->
  let '(r, b, io) := poll_frame (body s) (cs_inner s) in
  let s' := set_body s io b in
  cs_ok s' /\ same_out s s' /\ view s' = view s
  /\ match r with
     | Ready (Ok true) => rb_needed (body s') <= len (queue (body s'))
     | Ready (Ok false) =>
       rest s' = [] /\ view s = ([], if bool_decide (phase s = PhLength) then Ended else Cut)
     | Ready (Err RecordEof) => view s = ([], Cut)
     | Ready Panic => False
     | _ => True
     end.
Proof.
  intros Hok Hph Heof. pose proof Hok as [Hmth Hb Hpd Hp _].
  pose proof (poll_frame_spec (body s) (cs_inner s) Hb) as Hf. unfold frame_post in Hf.
  destruct (poll_frame _ _) as [[r b] io]. destruct Hf as (F1 & F2 & F3 & F4 & F5). cbv zeta.
  assert (rest (set_body s io b) = rest s) as Hrest by done.
  assert (view (set_body s io b) = view s) as Hview.
  { unfold view, expecting. rewrite Hrest. cbn [phase reader body set_body].
    rewrite bool_decide_eq_false_2 by done. by rewrite F2. }
  destruct (expecting_ok s Hok Hph) as [Hx Hneed]. split_and!; [|done|done|].
  - split; cbn [cs_method body cs_pending_pos cs_pending phase reader plain_pos plain_len set_body cs_eof
                 request_salt]; [done..| |congruence]. rewrite F2, Hrest. by destruct (phase s).
  - assert (view s = downlink m salt now0 (expecting s) (rest s)) as Hv.
    { unfold view. by rewrite bool_decide_eq_false_2. }
    destruct r as [[[]|[]|]|]; try done; cbn [body set_body].
    + by rewrite F2.
    + destruct F5 as (Hq & Hu & Hpos). unfold rest in *. cbn [body set_body cs_inner] in *.
      rewrite Hq, Hu in *. split; [done|]. rewrite Hv, <- Hrest, downlink_eq, Hneed by done.
      guard_true by (apply Z.ltb_lt; unfold len; simpl; lia). do 2 f_equal. unfold expecting.
      destruct (phase s); try done; by destruct Hp as [_ [? ->]].
    + destruct F5 as (Hq & Hu & Hl). rewrite Hv, <- Hrest, downlink_eq, Hneed by done.
      unfold rest. cbn [body set_body cs_inner]. rewrite Hu, app_nil_r.
      guard_true by (by apply Z.ltb_lt). by rewrite bool_decide_eq_false_2.
Qed.

Lemma ss_read_loop_spec turns s room now :
  cs_ok s -> 0 < room -> same_verdict now -> now <> Panic -> cs_eof s = false ->
  read_post s room (read_loop turns s room now).
Proof.
  revert s. induction turns as [|turns IH]; intros s Hok Hroom Hv Hnp Heof; [done|].
  assert (forall s1, (if bool_decide (phase s = PhPlain) then require_body s (2 + TAG_LENGTH) PhLength
                      else Ok s) = Ok s1 ->
    cs_ok s1 -> phase s1 <> PhPlain -> cs_eof s1 = false -> same_out s s1 -> view s1 = view s ->
    bool_decide (phase s = PhPlain) && (plain_pos s <? plain_len s) = false ->
    read_post s room (read_loop (S turns) s room now)) as Hpoll.
  { intros s1 E1 Hok1 Hph1 Heof1 Hso Hvw Hpl. cbn [read_loop]. rewrite Hpl, E1.
    apply (ss_read_post_view s s1); [done..|].
    pose proof (poll_frame_stream s1 Hok1 Hph1 Heof1) as Hf.
    destruct (poll_frame (body s1) (cs_inner s1)) as [[r b] io]. destruct Hf as (F1 & F2 & F3 & F4).
    set (s2 := set_body s1 io b) in *.
    destruct r as [[[]|[]|]|]; try done.
    - pose proof (process_spec s2 now F1 Hph1 F4 Hv Hnp Heof1) as Hps.
      destruct (process_body s2 now) as [s3|e|]; [|by rewrite F3 in Hps|done].
      destruct Hps as (P1 & P2 & P3 & P4). eapply ss_read_post_view; [|by rewrite P3|by apply IH].
      by eapply same_out_trans.
    - destruct F4 as [Hrest Hve]. change (phase s2) with (phase s1).
      case_bool_decide as Hpl'; [|by split].
      assert (view (set_flags s2 (cs_failed s2) true (write_closed s2)) = ([], Ended)) as Hv2.
      { rewrite <- Hve, <- F3. done. }
      split; [done|]. cbn [fst snd]. rewrite Hv2.
      split_and!; [destruct F1; by split|done|unfold len; simpl; lia|done]. }
  destruct (decide (phase s = PhPlain)) as [Ep|Ep].
  - rewrite (bool_decide_eq_true_2 _ Ep) in Hpoll.
    destruct (plain_pos s <? plain_len s) eqn:Epos.
    + cbn [read_loop]. rewrite (bool_decide_eq_true_2 _ Ep), Epos. unbool.
      destruct (ss_deliver_spec s room Hok Ep Epos Hroom Heof) as (bs & s' & -> & H1 & H2 & H3 & H4 & H5).
      by split_and!.
    + apply Z.ltb_ge in Epos.
      destruct (require_length s Hok Ep Epos Heof) as (s1 & E1 & H1 & H2 & H3 & H4 & H5).
      apply (Hpoll s1); try done. by rewrite H5.
  - rewrite (bool_decide_eq_false_2 _ Ep) in Hpoll. by apply (Hpoll s).
Qed.

(** *** Draining *)

Definition wire (s : CS) : list byte :=
  taken (cs_inner s) ++ drop (Z.to_nat (cs_pending_pos s)) (cs_pending s).

Lemma same_out_wire s s' : same_out s s' -> wire s' = wire s.
Proof. unfold wire. by intros (-> & _ & -> & -> & _). Qed.

Lemma set_out_ok s io p pos :
  cs_ok s -> unread io = unread (cs_inner s) -> 0 <= pos <= len p ->
  cs_ok (set_out s io p pos) /\ view (set_out s io p pos) = view s.
Proof.
  intros [Hmth Hb Hpd Hp He] Hu Hpos. unfold view, expecting, rest in *.
  assert (forall x y : CS, body x = body y -> unread (cs_inner x) = unread (cs_inner y) -> rest x = rest y)
    as Hrest by (intros x y; unfold rest; by intros -> ->).
  assert (rest (set_out s io p pos) = rest s) as Hr by (by apply Hrest).
  split.
  - split; cbn [cs_method body cs_pending_pos cs_pending phase reader plain_pos plain_len set_out cs_eof
                request_salt]; try done; by rewrite Hr.
  - cbn [phase reader body cs_inner set_out plain_len plain_pos]. by rewrite Hu.
Qed.

Lemma set_flags_ok s failed closed :
  cs_ok s -> cs_ok (set_flags s failed (cs_eof s) closed)
  /\ view (set_flags s failed (cs_eof s) closed) = view s.
Proof. intros []. split; [by split|done]. Qed.

Definition drain_post (s : CS) (p : poll (res (SsIoError io_error) unit) * CS) : Prop :=
  cs_ok (snd p) /\ wire (snd p) = wire s /\ view (snd p) = view s /\ writer (snd p) = writer s
  /\ cs_eof (snd p) = cs_eof s
  /\ match fst p with
     | Ready (Ok _) => cs_pending (snd p) = [] /\ cs_pending_pos (snd p) = 0
     | Ready (Err SsWriteZero) | Ready (Err (SsInner _)) => True
     | Ready (Err _) => False
     | Ready Panic => False
     | Pending => True
     end.

Lemma ss_drain_loop_spec fuel s :
  cs_ok s -> len (cs_pending s) - cs_pending_pos s < Z.of_nat fuel -> drain_post s (drain_loop fuel s).
Proof.
  revert s. induction fuel as [|fuel IH]; intros s Hok Hf; [destruct Hok; lia|].
  pose proof Hok as [_ _ Ho _ _]. cbn [drain_loop].
  destruct (cs_pending_pos s <? len (cs_pending s)) eqn:E; unbool.
  - rewrite slice_from_ok by done.
    pose proof (poll_write_law (cs_inner s) (drop (Z.to_nat (cs_pending_pos s)) (cs_pending s))) as [Hu Hw].
    destruct (io_poll_write _ _) as [[[n|e|]|] io]; cbn [fst snd] in *; [| |done|];
      destruct (set_out_ok s io (cs_pending s) (cs_pending_pos s) Hok Hu Ho) as [Hok1 Hv1].
    + destruct Hw as [Hn Hw]. destruct (n =? 0) eqn:En; unbool.
      { subst n. rewrite app_nil_r in Hw. destruct (set_flags_ok _ true (write_closed s) Hok1) as [? ?].
        split_and!; try done. unfold wire. cbn. by rewrite Hw. }
      assert (len (drop (Z.to_nat (cs_pending_pos s)) (cs_pending s)) = len (cs_pending s) - cs_pending_pos s) as Hl.
      { unfold len in *. rewrite length_drop. lia. }
      destruct (set_out_ok s io (cs_pending s) (cs_pending_pos s + n) Hok Hu ltac:(lia)) as [Hok2 Hv2].
      destruct (IH (set_out s io (cs_pending s) (cs_pending_pos s + n)) Hok2) as (I1 & I2 & I3 & I4 & I5 & I6);
        [cbn; lia|]. split_and!; [done| |by etrans; [exact I3|]|done|done|done].
      etrans; [exact I2|]. unfold wire. cbn. rewrite Hw, <- app_assoc. f_equal.
      rewrite Z2Nat.inj_add, <- drop_drop by lia. apply take_drop.
    + destruct (set_flags_ok _ true (write_closed s) Hok1) as [? ?]. split_and!; try done.
      unfold wire. cbn. by rewrite Hw.
    + split_and!; try done. unfold wire. cbn. by rewrite Hw.
  - destruct (set_out_ok s (cs_inner s) [] 0 Hok eq_refl ltac:(done)) as [Hok1 Hv1].
    split_and!; try done. unfold wire. cbn. rewrite (drop_ge (cs_pending s)); [done|]. unfold len in *. lia.
Qed.

Lemma ss_drain_spec s : cs_ok s -> drain_post s (drain s).
Proof. intros Hok. apply ss_drain_loop_spec; [done|]. destruct Hok as [_ _ ? _ _]. unfold len in *. lia. Qed.
End Reading.

(** ** Writing: what a server makes of the bytes *)

Section Server.
Context `{CL : CiphersLaws} (m : Method) (Hm : method_ok m).

(** A request as the protocol has a server read it: the target, the time it was sent, the first
    payload, and the records and bytes behind it. *)
Definition server_request (w : list byte)
    : res SsError (TargetAddr * Z * Z * list byte * StreamRecords * list byte) :=
  let? (salt, c) := cur_take w (key_len (cipher m)) in
  let? (_, c) := cur_take c ((len (keys m) - 1) * 16) in
  let? r := stream_records m salt in
  let? (fixed, c) := cur_take c (11 + TAG_LENGTH) in
  let '(p, r) := sr_open r fixed in
  let? p := p in
  let? (kind, p) := cur_be p 1 in
  if negb (kind =? 0) then Err InvalidStreamRequest
  else
    let? (timestamp, p) := cur_be p 8 in
    let? (n, _) := cur_be p 2 in
    let? (variable, c) := cur_take c (n + TAG_LENGTH) in
    let '(p, r) := sr_open r variable in
    let? p := p in
    let? (t, p) := cur_target p in
    let? (padding, p) := cur_be p 2 in
    let? (_, payload) := cur_take p padding in
    Ok (addr t, port t, timestamp, payload, r, c).

Definition nonce_ok (r : StreamRecords) : Prop := len (rec_nonce (sr_nonces r)) = 12.

Lemma sr_seal_spec r b c r' :
  nonce_ok r -> len b <= 65535 -> sr_seal r b = (Ok c, r') ->
  nonce_ok r' /\ len c = len b + 16 /\ sr_open r c = (Ok b, r').
Proof.
  unfold sr_seal, sr_open, nonce_ok. intros Hn Hb. unfold records_next.
  destruct (exhausted (sr_nonces r)); [done|].
  pose proof (increment_spec (rec_nonce (sr_nonces r))) as [Hl _].
  destruct (increment _) as [n wr]. cbn [fst] in Hl.
  destruct (seal_fits (sr_aead r) (rec_nonce (sr_nonces r)) b Hn Hb) as (c' & -> & Hc & Ho).
  intros [= <- <-]. cbn. unfold len in *. rewrite Ho. split_and!; [lia|lia|done].
Qed.

(** A sealed chunk, and several of them. *)
Lemma seal_chunk_decodes salt now0 r c w r' rest :
  now0 <> Panic -> nonce_ok r -> len c <= 65535 -> seal_chunk r c = (Ok w, r') ->
  nonce_ok r'
  /\ downlink m salt now0 (ExLength r) (w ++ rest)
     = let '(data, e) := downlink m salt now0 (ExLength r') rest in (c ++ data, e).
Proof.
  unfold seal_chunk. intros Hnow Hn Hc. pose proof (len_nonneg c). pose proof (len_nonneg rest).
  destruct (sr_seal r (be_bytes 2 (len c))) as [[head| |] r1] eqn:E1; try done.
  destruct (sr_seal r1 c) as [[tail| |] r2] eqn:E2; try done. intros [= <- <-].
  apply sr_seal_spec in E1 as (Hn1 & Hl1 & Ho1); [|done|by rewrite len_be_bytes].
  apply sr_seal_spec in E2 as (Hn2 & Hl2 & Ho2); [|done|done].
  rewrite len_be_bytes in Hl1. change (Z.of_nat 2 + 16) with 18 in Hl1. split; [done|].
  rewrite downlink_eq by done. cbn [need]. unfold TAG_LENGTH.
  guard_false by (apply Z.ltb_ge; rewrite !len_app; pose proof (len_nonneg tail); lia).
  rewrite <- app_assoc, take_app_length', drop_app_length' by (unfold len in Hl1; lia).
  cbn [open_frame]. unfold open_length_frame. rewrite Ho1. cbn [res_bind].
  rewrite (slice_eq [] (be_bytes 2 (len c)) (drop (length (be_bytes 2 (len c))) head));
    [|done|done|by rewrite len_be_bytes].
  cbn [res_bind]. rewrite from_be_bytes_small by (change (256 ^ Z.of_nat 2) with 65536; lia).
  rewrite (downlink_eq m salt now0 Hm Hnow (ExPayload r1 (len c))) by (simpl; lia).
  cbn [need]. unfold TAG_LENGTH. guard_false by (apply Z.ltb_ge; rewrite len_app; lia).
  rewrite take_app_length', drop_app_length' by (unfold len in *; lia).
  cbn [open_frame]. rewrite Ho2. cbn [res_bind].
  by destruct (downlink _ _ _ (ExLength r2) rest).
Qed.

Lemma sr_seal_no_panic r b : fst (sr_seal r b) <> Panic.
Proof.
  unfold sr_seal, records_next. destruct (exhausted _); [done|]. destruct (increment _).
  apply ok_or_no_panic.
Qed.

Lemma seal_chunk_no_panic r c r' : seal_chunk r c <> (Panic, r').
Proof.
  unfold seal_chunk. pose proof (sr_seal_no_panic r (be_bytes 2 (len c))).
  destruct (sr_seal r _) as [[| |] r1]; try done. pose proof (sr_seal_no_panic r1 c).
  by destruct (sr_seal r1 c) as [[| |] r2].
Qed.

Fixpoint sealed (r : StreamRecords) (chunks : list (list byte))
    : res SsError (list byte * StreamRecords) :=
  match chunks with
  | [] => Ok ([], r)
  | c :: chunks =>
    let '(x, r) := seal_chunk r c in
    let? x := x in
    let? (y, r) := sealed r chunks in
    Ok (x ++ y, r)
  end.

Lemma sealed_snoc r chunks w r' c x r'' :
  sealed r chunks = Ok (w, r') -> seal_chunk r' c = (Ok x, r'') ->
  sealed r (chunks ++ [c]) = Ok (w ++ x, r'').
Proof.
  revert r w. induction chunks as [|c0 chunks IH]; intros r w; cbn [sealed app].
  - intros [= <- <-] ->. cbn. by rewrite app_nil_r.
  - destruct (seal_chunk r c0) as [[x0| |] r0]; try done. cbn [res_bind].
    intros ([y r1] & Hy & [= <- <-])%res_bind_ok_inv Hx. rewrite (IH _ _ Hy Hx). cbn.
    by rewrite app_assoc.
Qed.

Lemma sealed_decodes salt now0 r chunks w r' :
  now0 <> Panic -> nonce_ok r -> Forall (fun c => len c <= 65535) chunks ->
  sealed r chunks = Ok (w, r') -> downlink m salt now0 (ExLength r) w = (concat chunks, Ended).
Proof.
  intros Hnow. revert r w. induction chunks as [|c chunks IH]; intros r w Hn Hall; cbn [sealed].
  - intros [= <- <-]. done.
  - inversion_clear Hall as [|? ? Hc Hall'].
    destruct (seal_chunk r c) as [[x| |] r0] eqn:Ec; try done. cbn [res_bind].
    intros ([y r1] & Hy & [= <- <-])%res_bind_ok_inv.
    destruct (seal_chunk_decodes salt now0 r c x r0 y Hnow Hn Hc Ec) as [Hn0 ->].
    by rewrite (IH r0 y Hn0 Hall' Hy).
Qed.

Lemma stream_identities_ok ks salt :
  Forall (fun k => len k = key_len (cipher m)) ks -> ks <> [] ->
  exists ids, stream_identities (cipher m) ks salt = Ok ids /\ len ids = (len ks - 1) * 16.
Proof.
  intros Hks Hne. induction ks as [|k0 [|k1 ks] IH]; [done|by exists []|].
  inversion_clear Hks as [|? ? Hk0 Hks']. destruct IH as (ids & E & Hl); [done..|].
  cbn [stream_identities] in E |- *. pose proof (key_len_range (cipher m)).
  destruct (@slice_some SsError byte (derive (str_of "shadowsocks 2022 identity subkey") k0 salt) 0
    (key_len (cipher m))) as [key Ek]; [lia|unfold derive; rewrite derive_length; lia|].
  rewrite Ek. cbn [res_bind]. apply slice_len in Ek.
  destruct (@block_ok C CL SsError (cipher m) key (identity_hash k1) false) as (b & -> & Hb);
    [lia|apply hash_length|]. cbn [res_bind]. rewrite E. cbn [res_bind]. eexists. split; [done|].
  rewrite len_app, Hl, Hb. rewrite !len_cons. lia.
Qed.

Lemma stream_records_nonce {E} salt r : @stream_records C E m salt = Ok r -> nonce_ok r.
Proof. intros (k & _ & [= <-])%res_bind_ok_inv. done. Qed.

Lemma request_variable_inv t salt padding payload v :
  request_variable m t salt padding payload = Ok v ->
  exists a, encode_address t = Ok a /\ len salt = key_len (cipher m) /\ padding <= 900
    /\ v = a ++ be_bytes 2 padding ++ replicate (Z.to_nat padding) x00 ++ payload
    /\ len v <= 65535.
Proof.
  intros (a & Ha & Hr)%res_bind_ok_inv. exists a.
  destruct (_ || negb (len salt =? key_len (cipher m))) eqn:Eg; [done|].
  apply orb_false_iff in Eg as [Eg Es]. apply orb_false_iff in Eg as [_ Ep]. unbool.
  cbv zeta in Hr. case_if_in Hr; [done|]. unbool. unfold MAX_RECORD_LENGTH in *.
  by injection Hr as <-.
Qed.

Lemma cur_target_encoded t a rest :
  wf_target t -> encode_address t = Ok a ->
  cur_target (a ++ rest) = Ok (mkTarget (addr t) (port t) Udp, rest).
Proof.
  intros Hwf Ha. unfold cur_target.
  rewrite (address_roundtrip (mkTarget (addr t) (port t) Udp) a rest); [|done|done|done].
  cbn [res_bind]. by rewrite (slice_from_eq a rest).
Qed.

(** The server reads the request it is sent. *)
Lemma server_reads_request t salt timestamp padding payload w r rest :
  wf_target t -> in_u64 timestamp -> 0 <= padding ->
  request m t salt timestamp padding payload = Ok (w, r) ->
  server_request (w ++ rest) = Ok (addr t, port t, timestamp, payload, r, rest) /\ nonce_ok r.
Proof.
  intros Hwf Hts Hpad (v & Hv & H1)%res_bind_ok_inv.
  apply request_variable_inv in Hv as (a & Ha & Hs & Hp & -> & Hl). set (v := a ++ _) in *.
  pose proof (mo_lengths m Hm) as Hks. pose proof (mo_keys m Hm) as Hne. pose proof (len_nonneg v).
  destruct (stream_identities_ok (keys m) salt Hks Hne) as (ids & Hid & Hil).
  rewrite Hid in H1. cbn [res_bind] in H1.
  apply res_bind_ok_inv in H1 as (r0 & Hr0 & H1). pose proof (stream_records_nonce _ _ Hr0) as Hn0.
  destruct (sr_seal r0 _) as [fx r1] eqn:E1. apply res_bind_ok_inv in H1 as (fx' & -> & H1).
  destruct (sr_seal r1 v) as [vx r2] eqn:E2. apply res_bind_ok_inv in H1 as (vx' & -> & H1).
  injection H1 as <- <-.
  apply sr_seal_spec in E1 as (Hn1 & Hl1 & Ho1); [|done|done].
  apply sr_seal_spec in E2 as (Hn2 & Hl2 & Ho2); [|done|done]. split; [|done].
  unfold server_request, TAG_LENGTH. rewrite <- !app_assoc.
  rewrite cur_take_app by done. cbn [res_bind]. rewrite cur_take_app by lia. cbn [res_bind].
  rewrite Hr0. cbn [res_bind]. rewrite cur_take_app by (rewrite Hl1; done). cbn [res_bind].
  rewrite Ho1. cbn [res_bind]. rewrite (cur_be_app [x00]) by done. cbn [res_bind].
  change (negb (from_be [x00] =? 0)) with false. cbv iota.
  rewrite cur_be_app by done. cbn [res_bind]. rewrite from_be_bytes_small by done.
  rewrite <- (app_nil_r (be_bytes 2 (len v))), cur_be_app by done. cbn [res_bind].
  rewrite from_be_bytes_small by (change (256 ^ Z.of_nat 2) with 65536; lia).
  rewrite cur_take_app by lia. cbn [res_bind]. rewrite Ho2. cbn [res_bind]. subst v.
  rewrite (cur_target_encoded t a) by done. cbn [res_bind]. rewrite cur_be_app by done. cbn [res_bind].
  rewrite from_be_bytes_small by (change (256 ^ Z.of_nat 2) with 65536; lia).
  rewrite cur_take_app by (unfold len; rewrite length_replicate; lia). done.
Qed.
End Server.

(** ** Runs of a stream *)

Section Runs.
Context `{CL : CiphersLaws} {T : Type} `{Ai : AsyncIo T} `{Laws : !AsyncIoLaws T}.
Context (m : Method) (salt : list byte) (now0 : res SsError Z).
Context (Hm : method_ok m) (Hnow : now0 <> Panic) (response : list byte).
(** The request and the records behind it. *)
Context (head : list byte) (r0 : StreamRecords).
Abbreviation CS := (ClientStream T).
Abbreviation ok := (cs_ok m salt response).
Abbreviation sees := (view m salt now0).

(** The bytes on the wire are the request and the accepted chunks, sealed in order. *)
Definition sent (s : CS) (accepted : list (list byte)) : Prop :=
  exists w, sealed r0 accepted = Ok (w, writer s) /\ wire s = head ++ w
    /\ Forall (fun c => len c <= 65535) accepted.

Lemma sent_same s s' accepted : wire s' = wire s -> writer s' = writer s -> sent s accepted -> sent s' accepted.
Proof. intros H1 H2 (w & H3 & H4 & H5). exists w. by rewrite H1, H2. Qed.

Lemma ss_poll_read_spec s room now :
  ok s -> 0 < room -> same_verdict m salt now0 response now -> now <> Panic -> cs_failed s = false ->
  let '(r, s') := poll_read s room now in
  wire s' = wire s /\ writer s' = writer s
  /\ match r with
     | Ready (Ok bs) =>
       ok s' /\ sees s = (bs ++ fst (sees s'), snd (sees s'))
       /\ len bs <= room /\ (bs = [] -> sees s = ([], Ended))
     | Ready (Err (SsData e)) => sees s = ([], Refused e)
     | Ready (Err SsUnexpectedEof) => sees s = ([], Cut)
     | Ready (Err (SsInner _)) | Ready (Err SsWriteZero) => True
     | Ready (Err _) => False
     | Ready Panic => False
     | Pending => ok s' /\ sees s' = sees s
     end.
Proof.
  intros Hok Hroom Hv Hnp Hf. unfold poll_read. rewrite Hf.
  rewrite (proj2 (Z.eqb_neq room 0)) by lia. cbn [orb]. destruct (cs_eof s) eqn:He.
  { assert (sees s = ([], Ended)) as Hs.
    { destruct (co_eof _ _ _ s Hok He) as [Hp Hr]. pose proof (co_phase _ _ _ s Hok) as Hph.
      unfold view. rewrite Hp in *. rewrite bool_decide_eq_false_2, Hr by done.
      unfold expecting. rewrite Hp. destruct Hph as [_ [? ->]]. done. }
    split_and!; try done; [by rewrite Hs|unfold len; simpl; lia]. }
  pose proof (ss_drain_spec m salt now0 response s Hok) as (D1 & D2 & D3 & D4 & D5 & D6).
  assert (forall s1, ok s1 -> wire s1 = wire s -> sees s1 = sees s -> writer s1 = writer s ->
    cs_eof s1 = cs_eof s ->
    read_post m salt now0 response s1 room (read_loop 16 s1 room now)) as Hloop.
  { intros s1 O1 _ _ _ E1. apply ss_read_loop_spec; try done. congruence. }
  destruct (drain s) as [[[[]|[]|]|] s1]; cbn [fst snd] in *; try done;
    specialize (Hloop s1 D1 D2 D3 D4 D5); unfold read_post in Hloop;
    destruct (read_loop 16 s1 room now) as [r s2]; cbn [fst snd] in Hloop;
    destruct Hloop as [L1 L2]; pose proof (same_out_wire _ _ L1) as Hw; destruct L1 as (_ & L1 & _);
    rewrite D3 in L2; (split; [congruence|]); (split; [congruence|]);
    destruct r as [[bs|[]|]|]; try done; naive_solver.
Qed.

Lemma ss_poll_write_spec s accepted input :
  ok s -> sent s accepted -> cs_failed s = false ->
  let '(r, s') := poll_write s input in
  match r with
  | Ready (Ok n) =>
    ok s' /\ sees s' = sees s /\ n = Z.min (len input) 8192
    /\ sent s' (accepted ++ if bool_decide (input = []) then [] else [take (Z.to_nat n) input])
  | Pending => ok s' /\ sees s' = sees s /\ sent s' accepted
  | Ready Panic => False
  | Ready (Err _) => True
  end.
Proof.
  intros Hok Hs Hf. unfold poll_write. rewrite Hf. cbn [orb]. destruct (write_closed s); [done|].
  pose proof (ss_drain_spec m salt now0 response s Hok) as (D1 & D2 & D3 & D4 & D5 & D6).
  destruct (drain s) as [[[[]|e|]|] s1]; cbn [fst snd] in *; try done;
    pose proof (sent_same _ _ _ D2 D4 Hs) as Hs1; [|by split_and!].
  destruct D6 as [Hp Hpos]. case_bool_decide as Hi.
  { subst input. rewrite app_nil_r. by split_and!. }
  set (n := Z.min (len input) 8192). set (c := take (Z.to_nat n) input).
  assert (len c <= 65535) as Hc by (subst c n; unfold len; rewrite length_take; lia).
  destruct (seal_chunk (writer s1) c) as [[x|e|] w] eqn:Ec; [|done|].
  - assert (cs_pending s1 ++ x = x) as Hpx by (by rewrite Hp). split_and!; try done.
    + destruct D1 as [? ? _ ? ?]. split; cbn; try done. rewrite Hpx, Hpos. pose proof (len_nonneg x). lia.
    + destruct Hs1 as (w0 & Hw0 & Hw1 & Hall). exists (w0 ++ x). cbn [writer].
      rewrite ?(bool_decide_eq_false_2 _ Hi). fold c.
      rewrite (sealed_snoc r0 accepted w0 (writer s1) c x w Hw0 Ec). split_and!; [done| |].
      * rewrite app_assoc, <- Hw1. unfold wire. cbn. by rewrite Hpx, Hp, Hpos, app_nil_r.
      * apply Forall_app. split; [done|]. by apply Forall_cons_2; [|apply Forall_nil].
  - by apply seal_chunk_no_panic in Ec.
Qed.

Lemma poll_flush_spec s accepted :
  ok s -> sent s accepted ->
  let '(r, s') := poll_flush s in
  match r with
  | Ready (Ok _) => ok s' /\ sees s' = sees s /\ sent s' accepted /\ taken (cs_inner s') = wire s'
  | Pending => ok s' /\ sees s' = sees s /\ sent s' accepted
  | Ready Panic => False
  | Ready (Err _) => True
  end.
Proof.
  intros Hok Hs. unfold poll_flush. destruct (cs_failed s); [done|].
  pose proof (ss_drain_spec m salt now0 response s Hok) as (D1 & D2 & D3 & D4 & D5 & D6).
  destruct (drain s) as [[[[]|e|]|] s1]; cbn [fst snd] in *; try done;
    pose proof (sent_same _ _ _ D2 D4 Hs) as Hs1; [|by split_and!].
  destruct D6 as [Hp Hpos]. pose proof (poll_flush_law (cs_inner s1)) as (Hu & Ht & Hnp).
  destruct (io_poll_flush (cs_inner s1)) as [[[]|] io]; cbn [fst snd] in *; try done;
    destruct (set_out_ok m salt now0 response s1 io (cs_pending s1) (cs_pending_pos s1) D1 Hu (co_pending _ _ _ _ D1))
      as [Hok2 Hv2];
    (assert (wire (set_out s1 io (cs_pending s1) (cs_pending_pos s1)) = wire s1) as Hw
      by (unfold wire; cbn; by rewrite Ht)); split_and!; try done; try congruence;
    try (by eapply sent_same; [exact Hw| |exact Hs1]).
  unfold wire. cbn. rewrite Hp, Hpos. by rewrite app_nil_r.
Qed.

Lemma poll_shutdown_spec s accepted :
  ok s -> sent s accepted ->
  let '(r, s') := poll_shutdown s in
  match r with
  | Ready (Ok _) => ok s' /\ sees s' = sees s /\ sent s' accepted /\ taken (cs_inner s') = wire s'
  | Pending => ok s' /\ sees s' = sees s /\ sent s' accepted
  | Ready Panic => False
  | Ready (Err _) => True
  end.
Proof.
  intros Hok Hs. unfold poll_shutdown. pose proof (poll_flush_spec s accepted Hok Hs) as Hf.
  destruct (poll_flush s) as [[[[]|e|]|] s1]; try done. destruct Hf as (F1 & F2 & F3 & F4).
  destruct (set_flags_ok m salt now0 response s1 (cs_failed s1) true F1) as [G1 G2].
  set (s2 := set_flags s1 (cs_failed s1) (cs_eof s1) true) in *.
  pose proof (poll_shutdown_law (cs_inner s2)) as (Hu & Ht & Hnp).
  destruct (io_poll_shutdown (cs_inner s2)) as [[[]|] io]; cbn [fst snd] in *; try done;
    destruct (set_out_ok m salt now0 response s2 io (cs_pending s2) (cs_pending_pos s2) G1 Hu (co_pending _ _ _ _ G1))
      as [Hok2 Hv2];
    (assert (wire (set_out s2 io (cs_pending s2) (cs_pending_pos s2)) = wire s1) as Hw
      by (unfold wire; cbn; by rewrite Ht)); split_and!; try done; try congruence;
    try (by eapply sent_same; [exact Hw| |exact F3]).
  rewrite Hw, <- F4. exact Ht.
Qed.

(** A stream with what it has delivered and accepted. *)
Record StreamRun := mkStreamRun {
  run_stream : CS;
  delivered : list byte;
  accepted : list (list byte)
}.

(** One poll that did not fail. *)
Inductive ss_step : StreamRun -> StreamRun -> Prop :=
| step_read x room now bs s :
  0 < room -> same_verdict m salt now0 response now -> now <> Panic ->
  poll_read (run_stream x) room now = (Ready (Ok bs), s) ->
  ss_step x (mkStreamRun s (delivered x ++ bs) (accepted x))
| step_read_pending x room now s :
  0 < room -> same_verdict m salt now0 response now -> now <> Panic ->
  poll_read (run_stream x) room now = (Pending, s) ->
  ss_step x (mkStreamRun s (delivered x) (accepted x))
| step_write x input n s :
  poll_write (run_stream x) input = (Ready (Ok n), s) ->
  ss_step x (mkStreamRun s (delivered x)
    (accepted x ++ if bool_decide (input = []) then [] else [take (Z.to_nat n) input]))
| step_write_pending x input s :
  poll_write (run_stream x) input = (Pending, s) ->
  ss_step x (mkStreamRun s (delivered x) (accepted x))
| step_flush x r s :
  poll_flush (run_stream x) = (r, s) -> (forall e, r <> Ready (Err e)) ->
  ss_step x (mkStreamRun s (delivered x) (accepted x))
| step_shutdown x r s :
  poll_shutdown (run_stream x) = (r, s) -> (forall e, r <> Ready (Err e)) ->
  ss_step x (mkStreamRun s (delivered x) (accepted x)).

Definition run_ok (x : StreamRun) : Prop :=
  ok (run_stream x) /\ sent (run_stream x) (accepted x)
  /\ downlink m salt now0 ExHeader response
     = (delivered x ++ fst (sees (run_stream x)), snd (sees (run_stream x))).

Lemma read_not_failed (s : CS) room now r s' :
  poll_read s room now = (r, s') -> (forall e, r <> Ready (Err e)) -> cs_failed s = false.
Proof.
  unfold poll_read. destruct (cs_failed s); [|done]. intros [= <- <-] H. by destruct (H SsStreamFailed).
Qed.

Lemma write_not_failed (s : CS) input r s' :
  poll_write s input = (r, s') -> (forall e, r <> Ready (Err e)) -> cs_failed s = false.
Proof.
  unfold poll_write. destruct (cs_failed s); [|done]. intros [= <- <-] H. by destruct (H SsBrokenPipe).
Qed.

Lemma ss_step_ok x x' : run_ok x -> ss_step x x' -> run_ok x'.
Proof.
  intros (Hok & Hs & Hd) Hstep.
  assert (forall s', ok s' /\ sees s' = sees (run_stream x) /\ sent s' (accepted x) ->
    run_ok (mkStreamRun s' (delivered x) (accepted x))) as Hquiet.
  { intros s' (? & Hv & ?). unfold run_ok. cbn [run_stream delivered accepted]. by rewrite Hv. }
  destruct Hstep as [x room now bs s Hr Hv Hn E|x room now s Hr Hv Hn E|x input n s E|x input s E
                    |x r s E He|x r s E He].
  - pose proof (ss_poll_read_spec (run_stream x) room now Hok Hr Hv Hn
      (read_not_failed _ _ _ _ _ E ltac:(done))) as H. rewrite E in H.
    destruct H as (Hw & Hwr & Hok' & Hse & _). unfold run_ok. cbn [run_stream delivered accepted].
    split_and!; [done|by eapply sent_same|]. rewrite Hd, Hse. cbn [fst snd]. by rewrite app_assoc.
  - pose proof (ss_poll_read_spec (run_stream x) room now Hok Hr Hv Hn
      (read_not_failed _ _ _ _ _ E ltac:(done))) as H. rewrite E in H.
    destruct H as (Hw & Hwr & Hok' & Hse). apply Hquiet. split_and!; [done..|by eapply sent_same].
  - pose proof (ss_poll_write_spec (run_stream x) (accepted x) input Hok Hs
      (write_not_failed _ _ _ _ E ltac:(done))) as H. rewrite E in H.
    destruct H as (Hok' & Hse & _ & Hs'). unfold run_ok. cbn [run_stream delivered accepted].
    by rewrite Hse.
  - pose proof (ss_poll_write_spec (run_stream x) (accepted x) input Hok Hs
      (write_not_failed _ _ _ _ E ltac:(done))) as H. rewrite E in H. by apply Hquiet.
  - pose proof (poll_flush_spec (run_stream x) (accepted x) Hok Hs) as H. rewrite E in H.
    destruct r as [[|e|]|]; [|by destruct (He e)|done|by apply Hquiet].
    destruct H as (? & ? & ? & _). by apply Hquiet.
  - pose proof (poll_shutdown_spec (run_stream x) (accepted x) Hok Hs) as H. rewrite E in H.
    destruct r as [[|e|]|]; [|by destruct (He e)|done|by apply Hquiet].
    destruct H as (? & ? & ? & _). by apply Hquiet.
Qed.

Lemma ss_reach x x' : run_ok x -> rtc ss_step x x' -> run_ok x'.
Proof. intros H Hr. induction Hr; eauto using ss_step_ok. Qed.
End Runs.
Arguments StreamRun {C} T.

Section Start.
Context `{CL : CiphersLaws} {T : Type} `{Ai : AsyncIo T} `{Laws : !AsyncIoLaws T}.

(** The run of a stream that was just made. *)
Definition start (s : ClientStream T) : StreamRun T := mkStreamRun s [] [].

Lemma ss_start_ok (io : T) m t salt timestamp padding payload s now0 :
  method_ok m -> now0 <> Panic -> taken io = [] ->
  ClientStream_with_entropy io m t salt timestamp padding payload = Ok s ->
  exists head r0, request m t salt timestamp padding payload = Ok (head, r0)
    /\ run_ok m salt now0 (unread io) head r0 (start s).
Proof.
  intros Hm Hnow Ht ([head r0] & Hr & H1)%res_bind_ok_inv.
  apply res_bind_ok_inv in H1 as (b & Hb & H1). injection H1 as <-.
  pose proof (key_len_range (cipher m)).
  destruct (RecordBuffer_new_ok (header_len m) (2 + TAG_LENGTH) b) as (Hb1 & Hq & Hn).
  { unfold header_len, TAG_LENGTH. lia. }
  { done. }
  { destruct (RecordBuffer_new _ _); [|done..]. by injection Hb as <-. }
  exists head, r0. split; [done|].
  assert (forall s : ClientStream T, queue (body s) = [] -> rest s = unread (cs_inner s)) as Hrest
    by (intros s; unfold rest; by intros ->).
  split_and!; cbn [start run_stream delivered accepted].
  - split; cbn; [done|done|pose proof (len_nonneg head); lia| |done]. split_and!; [done|done|by rewrite Hrest].
  - exists []. split_and!; [done| |by apply Forall_nil]. unfold wire. cbn. by rewrite Ht, app_nil_r.
  - unfold view, expecting. cbn [phase reader]. change (bool_decide (PhHeader = PhPlain)) with false.
    cbv iota. rewrite Hrest by done. cbn [cs_inner]. by destruct (downlink _ _ _ _ _).
Qed.

(** A response as the protocol has a server send it. *)
Definition server_response (m : Method) (rsalt salt : list byte) (timestamp : Z)
    (payload : list byte) (chunks : list (list byte)) : res SsError (list byte) :=
  let? r := stream_records m rsalt in
  let '(h, r) := sr_seal r ([x01] ++ be_bytes 8 timestamp ++ salt ++ be_bytes 2 (len payload)) in
  let? h := h in
  let '(p, r) := sr_seal r payload in
  let? p := p in
  let? (w, _) := sealed r chunks in
  Ok (rsalt ++ h ++ p ++ w).

Lemma server_response_downlink m rsalt salt sent_at payload chunks w now :
  method_ok m -> len rsalt = key_len (cipher m) -> len salt = key_len (cipher m) ->
  in_u64 sent_at -> Z.abs (sent_at - now) <= 30 -> len payload <= 65535 ->
  Forall (fun c => len c <= 65535) chunks ->
  server_response m rsalt salt sent_at payload chunks = Ok w ->
  downlink m salt (Ok now) ExHeader w = (payload ++ concat chunks, Ended).
Proof.
  intros Hm Hrs Hs Hts Htime Hp Hall (r0 & Hr0 & H1)%res_bind_ok_inv.
  pose proof (stream_records_nonce m _ _ Hr0) as Hn0. pose proof (key_len_range (cipher m)) as [Hk _].
  destruct (sr_seal r0 _) as [hx r1] eqn:E1. apply res_bind_ok_inv in H1 as (h & -> & H1).
  destruct (sr_seal r1 payload) as [px r2] eqn:E2. apply res_bind_ok_inv in H1 as (p & -> & H1).
  apply res_bind_ok_inv in H1 as ([y r3] & Hy & H1). injection H1 as <-.
  apply sr_seal_spec in E1 as (Hn1 & Hl1 & Ho1); [|done|len_simpl; lia].
  apply sr_seal_spec in E2 as (Hn2 & Hl2 & Ho2); [|done|done].
  pose proof (len_nonneg y). pose proof (len_nonneg payload).
  assert (len (rsalt ++ h) = header_len m) as Hlh.
  { unfold header_len, TAG_LENGTH. rewrite len_app, Hl1. len_simpl. lia. }
  rewrite downlink_eq by done. cbn [need]. rewrite app_assoc.
  guard_false by (apply Z.ltb_ge; rewrite len_app, Hlh; pose proof (len_nonneg (p ++ y)); lia).
  rewrite take_app_length', drop_app_length' by (unfold len in Hlh; lia). cbn [open_frame].
  unfold open_header. rewrite (slice_eq [] rsalt h) by done. cbn [res_bind]. rewrite Hr0. cbn [res_bind].
  rewrite (slice_from_eq rsalt h) by done. cbn [res_bind]. rewrite Ho1. cbn [res_bind].
  rewrite (cur_be_app [x01]) by done. cbn [res_bind].
  change (negb (from_be [x01] =? 1)) with false. cbv iota.
  rewrite cur_be_app by done. cbn [res_bind]. rewrite from_be_bytes_small by done.
  unfold check_time. guard_false by lia. cbn [res_bind]. rewrite cur_take_app by done. cbn [res_bind].
  rewrite bool_decide_eq_true_2 by done. cbn [negb].
  rewrite <- (app_nil_r (be_bytes 2 (len payload))), cur_be_app by done. cbn [res_bind].
  rewrite from_be_bytes_small by (change (256 ^ Z.of_nat 2) with 65536; lia).
  rewrite downlink_eq by (done || simpl; lia). cbn [need]. unfold TAG_LENGTH.
  guard_false by (apply Z.ltb_ge; rewrite len_app; lia).
  rewrite take_app_length', drop_app_length' by (unfold len in *; lia).
  cbn [open_frame]. rewrite Ho2. cbn [res_bind].
  by rewrite (sealed_decodes m Hm salt (Ok now) r2 chunks y r3).
Qed.

(** C25: Whatever the transport does and whatever is read, written, flushed and shut down, the bytes
    a stream has given the transport and still holds for it are, to a server, the request for the
    target with its first payload, and behind it exactly the bytes the stream accepted, in order;
    after a flush the transport has all of them. *)
Theorem ss_server_sees_writes (io : T) name password m t salt timestamp padding payload s now0 x :
  Method_new name password = Ok m -> wf_target t -> in_u64 timestamp -> 0 <= padding ->
  now0 <> Panic -> taken io = [] ->
  ClientStream_with_entropy io m t salt timestamp padding payload = Ok s ->
  rtc (ss_step m salt now0 (unread io)) (start s) x ->
  (exists r records,
     server_request m (wire (run_stream x)) = Ok (addr t, port t, timestamp, payload, r, records)
     /\ downlink m salt now0 (ExLength r) records = (concat (accepted x), Ended))
  /\ forall u s', poll_flush (run_stream x) = (Ready (Ok u), s') ->
      taken (cs_inner s') = wire (run_stream x).
Proof.
  intros Hm%method_new_ok Hwf Hts Hpad Hnow Ht Hs Hreach.
  destruct (ss_start_ok io m t salt timestamp padding payload s now0 Hm Hnow Ht Hs) as (head & r0 & Hreq & Hok).
  destruct (ss_reach m salt now0 Hm Hnow (unread io) head r0 _ _ Hok Hreach) as (Hok' & Hsent & _).
  pose proof Hsent as (w & Hw & Hwire & Hall). split.
  - exists r0, w. rewrite Hwire.
    destruct (server_reads_request m Hm t salt timestamp padding payload head r0 w Hwf Hts Hpad Hreq)
      as [-> Hn]. split; [done|]. by eapply sealed_decodes.
  - intros u s' E.
    pose proof (poll_flush_spec m salt now0 (unread io) head r0 _ _ Hok' Hsent) as Hf. rewrite E in Hf.
    destruct Hf as (_ & _ & (w' & Hw' & Hwire' & _) & ->). rewrite Hwire, Hwire'.
    rewrite Hw in Hw'. by injection Hw' as ->.
Qed.

(** However the bytes of a response are cut, and whatever is polled in between, reads deliver
    the plaintext of its records in order and nothing else, and of a response that is not a fresh
    answer to this request nothing; they report the end only where a record ends, report a record that does not authenticate, a foreign or stale header and a cut record
    where they are, and never panic. *)
Theorem ss_reads_any_chunks (io : T) name password m t salt timestamp padding payload s now0 x room now :
  Method_new name password = Ok m -> now0 <> Panic -> taken io = [] ->
  ClientStream_with_entropy io m t salt timestamp padding payload = Ok s ->
  rtc (ss_step m salt now0 (unread io)) (start s) x ->
  0 < room -> same_verdict m salt now0 (unread io) now -> now <> Panic ->
  let '(data, ending) := downlink m salt now0 ExHeader (unread io) in
  (exists left, data = delivered x ++ left)
  /\ (data <> [] -> genuine m salt now0 (unread io))
  /\ match fst (poll_read (run_stream x) room now) with
     | Ready (Ok bs) =>
       len bs <= room /\ (exists left, data = delivered x ++ bs ++ left)
       /\ (bs = [] -> data = delivered x /\ ending = Ended)
     | Ready (Err (SsData e)) => data = delivered x /\ ending = Refused e
     | Ready (Err SsUnexpectedEof) => data = delivered x /\ ending = Cut
     | Ready (Err SsStreamFailed) => cs_failed (run_stream x) = true
     | Ready (Err SsBrokenPipe) => False
     | Ready Panic => False
     | _ => True
     end.
Proof.
  intros Hm%method_new_ok Hnow Ht Hs Hreach Hroom Hv Hnp.
  destruct (ss_start_ok io m t salt timestamp padding payload s now0 Hm Hnow Ht Hs) as (head & r0 & _ & Hok).
  destruct (ss_reach m salt now0 Hm Hnow (unread io) head r0 _ _ Hok Hreach) as (Hok' & _ & Hd).
  pose proof (downlink_genuine m salt now0 Hm Hnow (unread io)) as Hg. rewrite Hd in Hg |- *.
  split; [by eexists|]. split; [exact Hg|]. clear Hg Hd. destruct (cs_failed (run_stream x)) eqn:Hf.
  { unfold poll_read. by rewrite Hf. }
  pose proof (ss_poll_read_spec m salt now0 Hm Hnow (unread io) (run_stream x) room now Hok' Hroom Hv Hnp Hf)
    as H1.
  destruct (poll_read (run_stream x) room now) as [[[bs|[]|]|] s']; cbn [fst]; try done;
    destruct H1 as (_ & _ & H1); try done.
  - destruct H1 as (_ & -> & Hl & He). cbn [fst snd]. split_and!; [done|by eexists|].
    intros Hb. specialize (He Hb). injection He as -> ->. by rewrite app_nil_r.
  - rewrite H1. cbn. by rewrite app_nil_r.
  - rewrite H1. cbn. by rewrite app_nil_r.
Qed.

(** From a server that answers the request within thirty seconds, reads deliver its payloads
    in order however the response is cut, fail only when the transport does, and report the end
    when all was delivered. *)
Theorem ss_reads_server (io : T) name password m t salt timestamp padding payload s rsalt sent_at
    first chunks x room now :
  Method_new name password = Ok m -> taken io = [] ->
  ClientStream_with_entropy io m t salt timestamp padding payload = Ok s ->
  len rsalt = key_len (cipher m) -> in_u64 sent_at -> len first <= 65535 ->
  Forall (fun c => len c <= 65535) chunks ->
  server_response m rsalt salt sent_at first chunks = Ok (unread io) ->
  Z.abs (sent_at - now) <= 30 ->
  rtc (ss_step m salt (Ok now) (unread io)) (start s) x -> 0 < room -> cs_failed (run_stream x) = false ->
  exists left, first ++ concat chunks = delivered x ++ left
  /\ match fst (poll_read (run_stream x) room (Ok now)) with
     | Ready (Ok bs) => (exists left', left = bs ++ left') /\ (bs = [] -> left = [])
     | Ready (Err (SsInner _)) | Ready (Err SsWriteZero) | Pending => True
     | _ => False
     end.
Proof.
  intros Hm%method_new_ok Ht Hs Hrs Hts Hfirst Hall Hresp Htime Hreach Hroom Hf.
  assert (len salt = key_len (cipher m)) as Hsalt.
  { pose proof Hs as ([? ?] & (v & Hv & _)%res_bind_ok_inv & _)%res_bind_ok_inv.
    by apply request_variable_inv in Hv as (? & _ & ? & _). }
  destruct (ss_start_ok io m t salt timestamp padding payload s (Ok now) Hm ltac:(done) Ht Hs)
    as (head & r0 & _ & Hok).
  destruct (ss_reach m salt (Ok now) Hm ltac:(done) (unread io) head r0 _ _ Hok Hreach) as (Hok' & _ & Hd).
  rewrite (server_response_downlink m rsalt salt sent_at first chunks (unread io) now) in Hd by done.
  injection Hd as Hdata Hend. exists (fst (view m salt (Ok now) (run_stream x))). split; [done|].
  pose proof (ss_poll_read_spec m salt (Ok now) Hm ltac:(done) (unread io) (run_stream x) room (Ok now) Hok' Hroom
    eq_refl ltac:(done) Hf) as H1.
  destruct (poll_read (run_stream x) room (Ok now)) as [[[bs|[]|]|] s']; cbn [fst]; try done;
    destruct H1 as (_ & _ & H1); try done; try (by rewrite H1 in Hend).
  destruct H1 as (_ & H1 & _ & He). split; [rewrite H1; by eexists|]. intros Hb. by rewrite (He Hb).
Qed.
End Start.

(** ** A run *)

Definition ss_target : Target := mkTarget (Domain (str_of "example.com")) 443 Tcp.
Definition ss_salt : list byte := replicate 16 x07.
Definition ss_response : list byte :=
  match server_response demo_method (replicate 16 x09) ss_salt 1000 (str_of "hello") [str_of "world"] with
  | Ok w => w
  | _ => []
  end.
(** The response in two pieces with a pause between them, and writes that block once. *)
Definition ss_io : Script :=
  mkScript [take 40 ss_response; []; drop 40 ss_response] [5%nat; 0%nat] [].
Definition ss_start : ClientStream Script :=
  match ClientStream_with_entropy ss_io demo_method ss_target ss_salt 1000 3 [] with
  | Ok s => s
  | _ => mkClientStream ss_io demo_method [] (mkStreamRecords [] Records_new) None [] 0
           (mkRecordBuffer [] 0 0 0 0 0) 0 0 PhHeader true false false
  end.

Definition ss_run0 : StreamRun Script := start ss_start.
Definition ss_run1 : StreamRun Script :=
  mkStreamRun (snd (poll_write (run_stream ss_run0) (str_of "abc"))) [] [].
Definition ss_run2 : StreamRun Script :=
  mkStreamRun (snd (poll_write (run_stream ss_run1) (str_of "abc"))) [] [str_of "abc"].
Definition ss_run3 : StreamRun Script :=
  mkStreamRun (snd (poll_read (run_stream ss_run2) 9 (Ok 1010))) [] [str_of "abc"].
Definition ss_run4 : StreamRun Script :=
  mkStreamRun (snd (poll_read (run_stream ss_run3) 9 (Ok 1010))) (str_of "hello") [str_of "abc"].

Lemma ss_run_steps : rtc (ss_step demo_method ss_salt (Ok 1010) (unread ss_io)) ss_run0 ss_run4.
Proof.
  eapply rtc_l; [eapply (step_write_pending _ _ _ _ ss_run0 (str_of "abc") (run_stream ss_run1));
    vm_compute; reflexivity|].
  eapply rtc_l; [eapply (step_write _ _ _ _ _ (str_of "abc") 3 (run_stream ss_run2));
    vm_compute; reflexivity|].
  eapply rtc_l; [eapply (step_read_pending _ _ _ _ _ 9 (Ok 1010) (run_stream ss_run3));
    [lia|reflexivity|done|vm_compute; reflexivity]|].
  eapply rtc_l; [eapply (step_read _ _ _ _ _ 9 (Ok 1010) (str_of "hello") (run_stream ss_run4));
    [lia|reflexivity|done|vm_compute; reflexivity]|].
  apply rtc_refl.
Qed.

Lemma ss_made :
  Method_new (str_of "2022-blake3-aes-128-gcm") (str_of "0123456789abcdef") = Ok demo_method
  /\ ClientStream_with_entropy ss_io demo_method ss_target ss_salt 1000 3 [] = Ok ss_start.
Proof. split; vm_compute; reflexivity. Qed.

Lemma ss_server_sees_writes_witness :
  exists r records,
    server_request demo_method (wire (run_stream ss_run4))
    = Ok (Domain (str_of "example.com"), 443, 1000, [], r, records)
    /\ downlink demo_method ss_salt (Ok 1010) (ExLength r) records = (str_of "abc", Ended).
Proof.
  refine (proj1 (ss_server_sees_writes ss_io _ _ demo_method ss_target ss_salt 1000 3 [] ss_start (Ok 1010)
    ss_run4 (proj1 ss_made) _ _ _ _ _ (proj2 ss_made) ss_run_steps)).
  - by_decision.
  - unfold in_u64. lia.
  - lia.
  - done.
  - done.
Defined.

Lemma ss_reads_any_chunks_witness :
  downlink demo_method ss_salt (Ok 1010) ExHeader (unread ss_io) = (str_of "helloworld", Ended)
  /\ fst (poll_read (run_stream ss_run4) 3 (Ok 1010)) = Ready (Ok (str_of "wor"))
  /\ exists left, str_of "helloworld" = str_of "hello" ++ str_of "wor" ++ left.
Proof.
  pose proof (ss_reads_any_chunks ss_io _ _ demo_method ss_target ss_salt 1000 3 [] ss_start (Ok 1010)
    ss_run4 3 (Ok 1010) (proj1 ss_made) ltac:(done) ltac:(done) (proj2 ss_made) ss_run_steps
    ltac:(lia) ltac:(reflexivity) ltac:(done)) as H.
  assert (downlink demo_method ss_salt (Ok 1010) ExHeader (unread ss_io) = (str_of "helloworld", Ended))
    as E by (vm_compute; reflexivity).
  assert (fst (poll_read (run_stream ss_run4) 3 (Ok 1010)) = Ready (Ok (str_of "wor"))) as E2
    by (vm_compute; reflexivity).
  rewrite E, E2 in H. split; [exact E|]. split; [exact E2|]. apply H.
Defined.

Lemma ss_reads_server_witness :
  exists left, str_of "helloworld" = str_of "hello" ++ left
  /\ match fst (poll_read (run_stream ss_run4) 9 (Ok 1010)) with
     | Ready (Ok bs) => (exists left', left = bs ++ left') /\ (bs = [] -> left = [])
     | Ready (Err (SsInner _)) | Ready (Err SsWriteZero) | Pending => True
     | _ => False
     end.
Proof.
  refine (ss_reads_server ss_io _ _ demo_method ss_target ss_salt 1000 3 [] ss_start (replicate 16 x09) 1000
    (str_of "hello") [str_of "world"] ss_run4 9 1010 (proj1 ss_made) _ (proj2 ss_made) _ _ _ _ _ _
    ss_run_steps _ _).
  - done.
  - done.
  - unfold in_u64. lia.
  - vm_compute. discriminate.
  - apply Forall_cons_2; [vm_compute; discriminate|apply Forall_nil].
  - vm_compute. reflexivity.
  - vm_compute. discriminate.
  - lia.
  - vm_compute. reflexivity.
Defined.
