(* ===== verification/IpText.v ===== *)
(** Text of the standard library that the address parsers use: [str::trim],
    [String::from_utf8_lossy], and [IpAddr::from_str] with the grammar of [core::net::parser]. *)
From Stdlib Require Import Strings.Byte.
From S2P Require Import Prelude Net.

(** ** Characters *)

(** The length of the character that a byte begins, in valid UTF-8. *)
Definition char_len (b : byte) : nat :=
  if u8 b <? 0x80 then 1 else if u8 b <? 0xE0 then 2 else if u8 b <? 0xF0 then 3 else 4.

(** A string cut into the encodings of its characters. *)
Fixpoint char_pieces (fuel : nat) (s : str) : list str :=
  match fuel with
  | O => []
  | S fuel =>
    match s with
    | [] => []
    | b :: _ => take (char_len b) s :: char_pieces fuel (drop (char_len b) s)
    end
  end.

Definition is_space_piece (p : str) : bool :=
  match chars p with [c] => is_whitespace c | _ => false end.

Fixpoint drop_while {A} (f : A -> bool) (l : list A) : list A :=
  match l with [] => [] | x :: r => if f x then drop_while f r else l end.

(** [s.trim()] *)
Definition trim_space (s : str) : str :=
  concat (reverse (drop_while is_space_piece
    (reverse (drop_while is_space_piece (char_pieces (length s) s))))).

(** [U+FFFD] *)
Definition replacement : list byte := [xef; xbf; xbd].

(** The length of the longest start of a character that the bytes hold, at least one byte: what
    [from_utf8_lossy] replaces by one [U+FFFD] when it is not a whole character. *)
Definition invalid_len (b0 : byte) (r : list byte) : nat :=
  let z0 := u8 b0 in
  match r with
  | [] => 1%nat
  | b1 :: r1 =>
    let z1 := u8 b1 in
    let second :=
      if z0 =? 0xE0 then (0xA0 <=? z1) && (z1 <=? 0xBF)
      else if z0 =? 0xED then (0x80 <=? z1) && (z1 <=? 0x9F)
      else if z0 =? 0xF0 then (0x90 <=? z1) && (z1 <=? 0xBF)
      else if z0 =? 0xF4 then (0x80 <=? z1) && (z1 <=? 0x8F)
      else is_cont b1 in
    if (0xE0 <=? z0) && (z0 <=? 0xF4) && second then
      match r1 with
      | b2 :: _ => if (0xF0 <=? z0) && is_cont b2 then 3%nat else 2%nat
      | [] => 2%nat
      end
    else 1%nat
  end.

Fixpoint lossy_loop (fuel : nat) (l : list byte) : str :=
  match fuel with
  | O => []
  | S fuel =>
    match l with
    | [] => []
    | b :: r =>
      let whole := take (char_len b) l in
      if bool_decide (length whole = char_len b) && is_utf8 whole
      then whole ++ lossy_loop fuel (drop (char_len b) l)
      else replacement ++ lossy_loop fuel (drop (invalid_len b r) l)
    end
  end.

(** [String::from_utf8_lossy(bytes).into_owned()] *)
Definition from_utf8_lossy (l : list byte) : str := lossy_loop (length l) l.

(** ** Addresses *)

Definition digit (radix : Z) (b : byte) : option Z :=
  let z := u8 b in
  let d :=
    if (0x30 <=? z) && (z <=? 0x39) then z - 0x30
    else if (0x61 <=? z) && (z <=? 0x66) then z - 0x61 + 10
    else if (0x41 <=? z) && (z <=? 0x46) then z - 0x41 + 10
    else 99 in
  if d <? radix then Some d else None.

(** The digits at the front, [None] when there are more than [max]; [count] of them are read. *)
Fixpoint read_digits (radix : Z) (max : Z) (s : str) (value count : Z) : option (Z * Z * str) :=
  match s with
  | b :: r =>
    match digit radix b with
    | Some d =>
      if max <? count + 1 then None else read_digits radix max r (value * radix + d) (count + 1)
    | None => Some (value, count, s)
    end
  | [] => Some (value, count, s)
  end.

Definition read_number (radix max_digits limit : Z) (allow_zero_prefix : bool) (s : str)
    : option (Z * str) :=
  match read_digits radix max_digits s 0 0 with
  | Some (value, count, rest) =>
    if count =? 0 then None
    else if negb allow_zero_prefix && bool_decide (head s = Some "0"%byte) && (1 <? count) then None
    else if limit <? value then None
    else Some (value, rest)
  | None => None
  end.

Definition read_given (c : byte) (s : str) : option str :=
  match s with b :: r => if bool_decide (b = c) then Some r else None | [] => None end.

(** [read_separator(sep, index, inner)] *)
Definition read_separator {A} (sep : byte) (i : nat) (inner : str -> option (A * str)) (s : str)
    : option (A * str) :=
  s ← (if decide (i = 0%nat) then Some s else read_given sep s); inner s.

Definition read_ipv4 (s : str) : option (Z * str) :=
  let octet i := read_separator dot i (read_number 10 3 255 false) in
  x ← octet 0%nat s; y ← octet 1%nat (snd x); z ← octet 2%nat (snd y); w ← octet 3%nat (snd z);
  Some (ipv4 (fst x) (fst y) (fst z) (fst w), snd w).

Definition colon : byte := ":"%byte.

(** The groups read from index [i] on, [n] of them at most, and whether the last two are an
    embedded IPv4 address. *)
Fixpoint read_groups (n i : nat) (s : str) : list Z * bool * str :=
  match n with
  | O => ([], false, s)
  | S n' =>
    match (if (1 <=? n')%nat then read_separator colon i read_ipv4 s else None) with
    | Some (v4, rest) => ([v4 / 65536; v4 mod 65536], true, rest)
    | None =>
      match read_separator colon i (read_number 16 4 65535 true) s with
      | Some (g, rest) =>
        let '(gs, v, rest) := read_groups n' (S i) rest in (g :: gs, v, rest)
      | None => ([], false, s)
      end
    end
  end.

Definition of_groups (gs : list Z) : Z := fold_left (fun acc g => acc * 65536 + g) gs 0.

Definition read_ipv6 (s : str) : option (Z * str) :=
  let '(front, front_v4, s) := read_groups 8 0 s in
  if bool_decide (length front = 8%nat) then Some (of_groups front, s)
  else if front_v4 then None
  else
    s ← read_given colon s; s ← read_given colon s;
    let '(back, _, s) := read_groups (8 - (length front + 1)) 0 s in
    Some (of_groups (front ++ replicate (8 - length front - length back) 0 ++ back), s).

Definition whole {A} (r : option (A * str)) : option A :=
  match r with Some (a, []) => Some a | _ => None end.

(** [text.parse::<IpAddr>().ok()] *)
Definition parse_ip (s : str) : option IpAddr :=
  whole (match read_ipv4 s with
         | Some (ip, rest) => Some (V4 ip, rest)
         | None => match read_ipv6 s with Some (ip, rest) => Some (V6 ip, rest) | None => None end
         end).

(** [ip.to_canonical()] *)
Definition to_canonical (ip : IpAddr) : IpAddr :=
  match ip with
  | V4 z => V4 z
  | V6 z => match to_ipv4_mapped z with Some v => V4 v | None => V6 z end
  end.

Definition is_unspecified (ip : IpAddr) : bool :=
  match ip with V4 z | V6 z => z =? 0 end.

(** ** Samples *)

Example parse_ip_samples :
  map parse_ip
    [str_of "1.2.3.4"; str_of "01.2.3.4"; str_of "1.2.3"; str_of "256.1.1.1"; str_of "::";
     str_of "::1"; str_of "1::2:3"; str_of "1:2:3:4:5:6:7:8"; str_of "1:2:3:4:5:6:7";
     str_of "::ffff:1.2.3.4"; str_of "1::2::3"; str_of "12345::"; str_of "1.2.3.4::"]
  = [Some (V4 16909060); None; None; None; Some (V6 0); Some (V6 1);
     Some (V6 (ipv6 1 0 0 0 0 0 2 3)); Some (V6 (ipv6 1 2 3 4 5 6 7 8)); None;
     Some (V6 (ipv6 0 0 0 0 0 0xffff 0x102 0x304)); None; None; None].
Proof. vm_compute. reflexivity. Qed.

Example trim_samples :
  map trim_space [str_of " a b  "; str_of ""; str_of "  "; str_of "ab"]
  = [str_of "a b"; str_of ""; str_of ""; str_of "ab"].
Proof. vm_compute. reflexivity. Qed.

Example lossy_samples :
  map from_utf8_lossy [[x61; xff; x62]; [xe2; x82]; [xe2; x82; xac]; [xf0; x9f; x98; x41]]
  = [[x61] ++ replacement ++ [x62]; replacement; [xe2; x82; xac]; replacement ++ [x41]].
Proof. vm_compute. reflexivity. Qed.

Lemma to_canonical_idem ip : to_canonical (to_canonical ip) = to_canonical ip.
Proof. destruct ip as [z|z]; [done|]. simpl. by destruct (to_ipv4_mapped z) eqn:E; simpl; rewrite ?E. Qed.

Lemma to_canonical_wf ip : wf_ip ip -> wf_ip (to_canonical ip).
Proof.
  destruct ip as [z|z]; [done|]. simpl. unfold to_ipv4_mapped. intros Hz. case_if; [|done].
  simpl. unfold in_u32. apply Z.mod_pos_bound. lia.
Qed.
