(* ===== verification/Utf8.v ===== *)
(** UTF-8 texts as sequences of encoded characters: what the functions of [str] that the program
    uses ([trim], [trim_end_matches], [rsplit_once] at an ASCII character, [to_ascii_lowercase])
    do to the characters of a text, and that parsing an address ignores case. *)
From Stdlib Require Import Strings.Byte.
From S2P Require Import Prelude Net IpText.

(** ** Characters *)

Definition ascii_byte (b : byte) : bool := u8 b <? 0x80.

(** [p] encodes the character [c]: it is read off the front of whatever text follows it, by its
    first byte alone, and is either one ASCII byte or free of them. *)
Record encodes (p : str) (c : Z) : Prop := {
  enc_reads : forall s, utf8_chars (p ++ s) = cons c <$> utf8_chars s;
  enc_len : forall b q, p = b :: q -> char_len b = length p;
  enc_nonempty : p <> [];
  enc_ascii : (exists b, p = [b] /\ u8 b = c /\ c < 0x80)
              \/ (0x80 <= c /\ Forall (fun b => 0x80 <= u8 b) p)
}.

(** Splits the tests that a successful decoding passed. *)
Ltac decoded H :=
  match type of H with
  | (if ?b then _ else _) = _ => destruct b eqn:?; [|done]
  end.

Lemma is_cont_ge b : is_cont b = true -> 0x80 <= u8 b.
Proof. unfold is_cont. intros. unbool. lia. Qed.

Lemma encodes1 b : u8 b < 0x80 -> encodes [b] (u8 b).
Proof.
  intros Hb. split.
  - intros s. simpl. by rewrite (proj2 (Z.ltb_lt _ _) Hb).
  - intros ? ? [= <- <-]. unfold char_len. by rewrite (proj2 (Z.ltb_lt _ _) Hb).
  - done.
  - left. by exists b.
Qed.

Lemma encodes2 b0 b1 :
  (0xC2 <=? u8 b0) && (u8 b0 <=? 0xDF) = true -> is_cont b1 = true ->
  encodes [b0; b1] ((u8 b0 - 0xC0) * 64 + (u8 b1 - 0x80)).
Proof.
  intros E0 E1. pose proof (is_cont_ge _ E1).
  assert ((u8 b0 <? 0x80) = false) as Hz by lia. split.
  - intros s. simpl. by rewrite Hz, E0, E1.
  - intros ? ? [= <- <-]. unfold char_len. rewrite Hz. by rewrite (proj2 (Z.ltb_lt _ 0xE0)) by lia.
  - done.
  - right. split; [lia|]. repeat constructor; lia.
Qed.

Lemma encodes3 b0 b1 b2 :
  (0xE0 <=? u8 b0) && (u8 b0 <=? 0xEF) = true ->
  ((if u8 b0 =? 0xE0 then 0xA0 else 0x80) <=? u8 b1)
    && (u8 b1 <=? (if u8 b0 =? 0xED then 0x9F else 0xBF)) && is_cont b2 = true ->
  encodes [b0; b1; b2] ((u8 b0 - 0xE0) * 4096 + (u8 b1 - 0x80) * 64 + (u8 b2 - 0x80)).
Proof.
  intros E0 E1. pose proof E1 as [_ E2]%andb_true_iff.
  assert ((u8 b0 <? 0x80) = false) as Hz by lia.
  assert ((0xC2 <=? u8 b0) && (u8 b0 <=? 0xDF) = false) as Hz2 by lia.
  pose proof (is_cont_ge _ E2). split.
  - intros s. simpl. by rewrite Hz, Hz2, E0, E1.
  - intros ? ? [= <- <-]. unfold char_len. rewrite Hz, (proj2 (Z.ltb_ge _ 0xE0)) by lia.
    by rewrite (proj2 (Z.ltb_lt _ 0xF0)) by lia.
  - done.
  - right. destruct (u8 b0 =? 0xE0) eqn:?; (split; [lia | repeat constructor; lia]).
Qed.

Lemma encodes4 b0 b1 b2 b3 :
  (0xF0 <=? u8 b0) && (u8 b0 <=? 0xF4)
    && ((if u8 b0 =? 0xF0 then 0x90 else 0x80) <=? u8 b1)
    && (u8 b1 <=? (if u8 b0 =? 0xF4 then 0x8F else 0xBF)) && is_cont b2 && is_cont b3 = true ->
  encodes [b0; b1; b2; b3]
    ((u8 b0 - 0xF0) * 262144 + (u8 b1 - 0x80) * 4096 + (u8 b2 - 0x80) * 64 + (u8 b3 - 0x80)).
Proof.
  intros E0. pose proof E0 as [[_ E2]%andb_true_iff E3]%andb_true_iff.
  assert ((u8 b0 <? 0x80) = false) as Hz by lia.
  assert ((0xC2 <=? u8 b0) && (u8 b0 <=? 0xDF) = false) as Hz2 by lia.
  assert ((0xE0 <=? u8 b0) && (u8 b0 <=? 0xEF) = false) as Hz3 by lia.
  pose proof (is_cont_ge b2 E2). pose proof (is_cont_ge b3 E3). split.
  - intros s. simpl. by rewrite Hz, Hz2, Hz3, E0.
  - intros ? ? [= <- <-]. unfold char_len. rewrite Hz, (proj2 (Z.ltb_ge _ 0xE0)) by lia.
    by rewrite (proj2 (Z.ltb_ge _ 0xF0)) by lia.
  - done.
  - right. destruct (u8 b0 =? 0xF0) eqn:?; (split; [lia | repeat constructor; lia]).
Qed.

(** A decoded text is empty or begins with an encoded character. *)
Lemma utf8_front s cs :
  utf8_chars s = Some cs ->
  (s = [] /\ cs = [])
  \/ exists p c r rs, s = p ++ r /\ cs = c :: rs /\ encodes p c /\ utf8_chars r = Some rs.
Proof.
  assert (forall c (o : option (list Z)), cons c <$> o = Some cs -> exists rs, o = Some rs /\ cs = c :: rs)
    as Hc by (intros c [rs|]; naive_solver).
  destruct s as [|b0 r0]; [intros [= <-]; by left|]. simpl. intros H. right.
  destruct (u8 b0 <? 0x80) eqn:Z0.
  { apply Hc in H as (rs & Hr & ->). eexists [b0], _, r0, rs. split_and!; try done.
    apply encodes1. lia. }
  destruct r0 as [|b1 r1]; [done|]. destruct ((0xC2 <=? u8 b0) && (u8 b0 <=? 0xDF)) eqn:Z1.
  { decoded H. apply Hc in H as (rs & Hr & ->). eexists [b0; b1], _, r1, rs.
    split_and!; try done. by apply encodes2. }
  destruct r1 as [|b2 r2]; [done|]. destruct ((0xE0 <=? u8 b0) && (u8 b0 <=? 0xEF)) eqn:Z2.
  { decoded H. apply Hc in H as (rs & Hr & ->). eexists [b0; b1; b2], _, r2, rs.
    split_and!; try done. by apply encodes3. }
  destruct r2 as [|b3 r3]; [done|]. decoded H. apply Hc in H as (rs & Hr & ->).
  eexists [b0; b1; b2; b3], _, r3, rs. split_and!; try done. by apply encodes4.
Qed.

(** Induction over the characters of a text. *)
Lemma utf8_ind (P : str -> list Z -> Prop) :
  P [] [] ->
  (forall p c r rs, encodes p c -> utf8_chars r = Some rs -> P r rs -> P (p ++ r) (c :: rs)) ->
  forall s cs, utf8_chars s = Some cs -> P s cs.
Proof.
  intros H0 HS s. induction s as [s IH] using (well_founded_induction
    (Wf_nat.well_founded_ltof str (@length byte))).
  intros cs [[-> ->]|(p & c & r & rs & -> & -> & E & Hr)]%utf8_front; [done|].
  apply HS; try done. apply IH; [|done]. red. rewrite length_app. destruct E as [_ _ Hne _].
  destruct p; [done|]. simpl. lia.
Qed.

Lemma utf8_app s cs t : utf8_chars s = Some cs -> utf8_chars (s ++ t) = app cs <$> utf8_chars t.
Proof.
  revert s cs. apply (utf8_ind (fun s cs => utf8_chars (s ++ t) = app cs <$> utf8_chars t)).
  - cbn [app]. by destruct (utf8_chars t).
  - intros p c r rs E _ IH. rewrite <- app_assoc, (enc_reads _ _ E), IH.
    by destruct (utf8_chars t).
Qed.

Lemma utf8_ascii s : Forall (fun b => u8 b < 0x80) s -> utf8_chars s = Some (map u8 s).
Proof.
  induction 1 as [|b s Hb Hs IH]; [done|].
  change (b :: s) with ([b] ++ s). by rewrite (enc_reads _ _ (encodes1 b Hb)), IH.
Qed.

(** An ASCII byte is a character of its own, wherever it stands. *)
Lemma utf8_split s x t cs :
  u8 x < 0x80 -> utf8_chars (s ++ x :: t) = Some cs ->
  exists ss ts, utf8_chars s = Some ss /\ utf8_chars t = Some ts /\ cs = ss ++ u8 x :: ts.
Proof.
  intros Hx. remember (s ++ x :: t) as w eqn:Hw. intros Hc. revert w cs Hc s Hw.
  apply (utf8_ind (fun w cs => forall s, w = s ++ x :: t -> exists ss ts,
    utf8_chars s = Some ss /\ utf8_chars t = Some ts /\ cs = ss ++ u8 x :: ts)).
  { intros s Hs. by destruct s. }
  intros p c r rs E Hr IH s Hs. apply app_eq_app in Hs as (k & [[Hp Hk]|[Hp Hk]]).
  - (* the character begins before the byte *)
    destruct (enc_ascii _ _ E) as [(b & -> & <- & Hb)|[Hc Hall]].
    + destruct s as [|b' s]; simplify_eq/=.
      * exists [], rs. done.
      * destruct s; [|done]. simplify_eq/=.
        destruct (IH [] eq_refl) as (ss & ts & [= <-] & Ht & ->). exists [u8 b'], ts.
        split_and!; try done. simpl. by rewrite (proj2 (Z.ltb_lt _ _) Hb).
    + subst p. destruct k as [|y k].
      * rewrite app_nil_r in *. simplify_eq/=.
        destruct (IH [] eq_refl) as (ss & ts & [= <-] & Ht & ->). exists [c], ts.
        split_and!; try done. pose proof (enc_reads _ _ E []) as Hs. by rewrite app_nil_r in Hs.
      * simplify_eq/=. apply list.Forall_app in Hall as [_ Hall]. inversion Hall. lia.
  - subst s. destruct (IH k Hk) as (ss & ts & Hs & Ht & ->). exists (c :: ss), ts.
    split_and!; try done. by rewrite (enc_reads _ _ E), Hs.
Qed.

(** ** Lower case *)

Definition lower_char (c : Z) : Z := if (0x41 <=? c) && (c <=? 0x5A) then c + 32 else c.

Lemma u8_ascii_lower b : u8 (ascii_lower b) = lower_char (u8 b).
Proof. by destruct b. Qed.

Lemma lower_high p : Forall (fun b => 0x80 <= u8 b) p -> to_ascii_lowercase p = p.
Proof.
  induction 1 as [|b p Hb Hp IH]; [done|]. simpl. rewrite IH. f_equal.
  apply u8_inj. rewrite u8_ascii_lower. unfold lower_char. by guard_false by lia.
Qed.

Lemma utf8_lower s cs :
  utf8_chars s = Some cs -> utf8_chars (to_ascii_lowercase s) = Some (map lower_char cs).
Proof.
  revert s cs. apply (utf8_ind (fun s cs => utf8_chars (to_ascii_lowercase s) = Some (map lower_char cs))).
  { done. }
  intros p c r rs E _ IH. rewrite lower_app. destruct (enc_ascii _ _ E) as [(b & -> & <- & Hb)|[Hc Hp]].
  - cbn [map to_ascii_lowercase]. rewrite <- u8_ascii_lower.
    rewrite (enc_reads _ _ (encodes1 (ascii_lower b) ltac:(by destruct b))). by rewrite IH.
  - rewrite lower_high by done. rewrite (enc_reads _ _ E), IH. simpl. do 2 f_equal.
    unfold lower_char. by guard_false by lia.
Qed.

Lemma lower_char_whitespace c : is_whitespace (lower_char c) = is_whitespace c.
Proof. unfold lower_char. case_if; [|done]. unbool. unfold is_whitespace. lia. Qed.

(** ** Trimming *)

Lemma char_pieces_spec fuel s cs :
  utf8_chars s = Some cs -> (length s <= fuel)%nat ->
  concat (char_pieces fuel s) = s /\ Forall2 encodes (char_pieces fuel s) cs.
Proof.
  intros Hs. revert s cs Hs fuel. apply (utf8_ind (fun s cs => forall fuel, (length s <= fuel)%nat ->
    concat (char_pieces fuel s) = s /\ Forall2 encodes (char_pieces fuel s) cs)).
  { intros [|fuel] _; by split. }
  intros p c r rs E _ IH fuel Hf. pose proof (enc_len _ _ E) as Hl. pose proof (enc_nonempty _ _ E).
  destruct p as [|b q]; [done|]. specialize (Hl _ _ eq_refl). rewrite length_app in Hf.
  destruct fuel as [|fuel]; [simpl in *; lia|]. cbn [char_pieces app].
  rewrite Hl. change (b :: q ++ r) with ((b :: q) ++ r).
  rewrite take_app_length, drop_app_length. destruct (IH fuel ltac:(simpl in *; lia)) as [Hc HF].
  split; [cbn [concat]; by rewrite Hc | by constructor].
Qed.

Lemma concat_pieces ps cs : Forall2 encodes ps cs -> utf8_chars (concat ps) = Some cs.
Proof.
  induction 1 as [|p c ps cs E _ IH]; [done|]. cbn [concat].
  by rewrite (enc_reads _ _ E), IH.
Qed.

Lemma space_piece p c : encodes p c -> is_space_piece p = is_whitespace c.
Proof.
  intros E. unfold is_space_piece, chars. pose proof (enc_reads _ _ E []) as Hp.
  rewrite app_nil_r in Hp. by rewrite Hp.
Qed.

Lemma drop_while_split {A} (f : A -> bool) l :
  exists k, l = k ++ drop_while f l /\ Forall (fun x => f x = true) k
    /\ forall x, head (drop_while f l) = Some x -> f x = false.
Proof.
  induction l as [|x l (k & Hk & HF & Hh)]; [by exists []|]. simpl. destruct (f x) eqn:Hx.
  - exists (x :: k). split_and!; [by rewrite Hk at 1 | by constructor | done].
  - exists []. split_and!; [done.. | by intros ? [= <-]].
Qed.

Lemma Forall2_space ps cs :
  Forall2 encodes ps cs -> Forall (fun p => is_space_piece p = true) ps ->
  Forall (fun c => is_whitespace c = true) cs.
Proof.
  induction 1 as [|p c ps cs E _ IH]; [constructor|]. intros [Hp Hs]%list.Forall_cons.
  constructor; [by rewrite <- (space_piece p) | by apply IH].
Qed.

(** [trim] cuts the white space on both sides of the characters, and nothing else. *)
Lemma trim_space_spec s cs :
  utf8_chars s = Some cs ->
  exists a m z, cs = a ++ m ++ z /\ utf8_chars (trim_space s) = Some m
    /\ Forall (fun c => is_whitespace c = true) a /\ Forall (fun c => is_whitespace c = true) z
    /\ (forall c, head m = Some c -> is_whitespace c = false)
    /\ (forall c, list.last m = Some c -> is_whitespace c = false)
    /\ exists pa pz, s = pa ++ trim_space s ++ pz /\ utf8_chars pa = Some a /\ utf8_chars pz = Some z.
Proof.
  intros Hs. destruct (char_pieces_spec (length s) s cs Hs ltac:(done)) as [Hcat HF].
  unfold trim_space. set (ps := char_pieces (length s) s) in *.
  destruct (drop_while_split is_space_piece ps) as (pa & Ha & Fa & ha).
  set (p1 := drop_while is_space_piece ps) in *.
  destruct (drop_while_split is_space_piece (reverse p1)) as (pz & Hz & Fz & hz).
  set (p2 := drop_while is_space_piece (reverse p1)) in *.
  assert (p1 = reverse p2 ++ reverse pz) as H1
    by (rewrite <- reverse_app, <- Hz; by rewrite reverse_involutive).
  rewrite Ha, H1 in HF, Hcat. apply Forall2_app_inv_l in HF as (a & k & F1 & HF & ->).
  apply Forall2_app_inv_l in HF as (m & z & F2 & F3 & ->). exists a, m, z.
  split_and!; [done | by apply concat_pieces | by apply Forall2_space in F1 | | | |].
  - apply Forall2_space in F3; [done|]. by apply Forall_reverse.
  - intros c Hc. destruct F2 as [|p c' ps' cs' E _]; [done|]. simplify_eq/=.
    rewrite <- (space_piece p) by done. apply ha. by rewrite H1.
  - clear Hcat. intros c Hc. destruct m as [|c' m _] using rev_ind; [done|]. rewrite last_snoc in Hc.
    simplify_eq. apply Forall2_app_inv_r in F2 as (l1 & l2 & _ & F2 & Hl).
    inversion F2 as [|p ? l2' ? E F2' E1 E2]. inversion F2'; subst.
    rewrite <- (space_piece p) by done. apply hz.
    rewrite <- (reverse_involutive p2), Hl, reverse_app. done.
  - exists (concat pa), (concat (reverse pz)). rewrite !concat_app in Hcat.
    split_and!; [done | by apply concat_pieces | by apply concat_pieces].
Qed.

Lemma utf8_no_chars s : utf8_chars s = Some [] -> s = [].
Proof. by intros [[-> _]|(p & c & r & rs & _ & [=] & _)]%utf8_front. Qed.

Lemma trim_space_id s cs :
  utf8_chars s = Some cs -> Forall (fun c => is_whitespace c = false) cs -> trim_space s = s.
Proof.
  intros Hs Hw.
  destruct (trim_space_spec s cs Hs) as (a & m & z & -> & _ & Fa & Fz & _ & _ & pa & pz & He & Hpa & Hpz).
  assert (forall l, Forall (fun c => is_whitespace c = true) l ->
    Forall (fun c => is_whitespace c = false) l -> l = []) as Hnil
    by (intros [|c l] H1 H2; [done|]; inversion H1; inversion H2; congruence).
  apply list.Forall_app in Hw as [Wa [_ Wz]%list.Forall_app].
  rewrite (Hnil a) in Hpa by done. rewrite (Hnil z) in Hpz by done.
  apply utf8_no_chars in Hpa as ->. apply utf8_no_chars in Hpz as ->. rewrite app_nil_r in He. by symmetry.
Qed.

Lemma trim_end_dots_split s : exists n, s = trim_end_dots s ++ replicate n dot.
Proof.
  unfold trim_end_dots. assert (forall l, exists n, l = replicate n dot ++ drop_dots l) as Hd.
  { induction l as [|b l [n IH]]; [by exists 0%nat|]. simpl. case_bool_decide as Hb.
    - exists (S n). simpl. by rewrite Hb, <- IH.
    - by exists 0%nat. }
  destruct (Hd (reverse s)) as [n Hn]. exists n. rewrite <- (reverse_involutive s) at 1.
  rewrite Hn at 1. by rewrite reverse_app, reverse_replicate.
Qed.

Lemma trim_end_dots_id s : list.last s <> Some dot -> trim_end_dots s = s.
Proof.
  intros Hl. destruct (trim_end_dots_split s) as [n Hn]. destruct n as [|n].
  - by rewrite app_nil_r in Hn.
  - destruct Hl. rewrite Hn, replicate_S_end, app_assoc. apply last_snoc.
Qed.

Lemma trim_end_dots_utf8 s cs :
  utf8_chars s = Some cs ->
  exists ts n, utf8_chars (trim_end_dots s) = Some ts /\ cs = ts ++ replicate n (u8 dot).
Proof.
  destruct (trim_end_dots_split s) as [n Hn]. rewrite Hn at 1. intros Hs.
  destruct n as [|n]; cbn [replicate] in Hs.
  - rewrite app_nil_r in Hs. exists cs, 0%nat. by rewrite app_nil_r.
  - apply utf8_split in Hs as (ss & ts & H1 & H2 & ->); [|by vm_compute]. exists ss, (S n).
    split; [done|]. do 2 f_equal. cbn [replicate]. f_equal.
    rewrite utf8_ascii in H2 by (apply Forall_replicate; by vm_compute). simplify_eq.
    clear. induction n; simpl; congruence.
Qed.

(** ** Addresses are parsed without regard to case *)

Definition lower_rest {A} (r : A * str) : A * str := (fst r, to_ascii_lowercase (snd r)).

(** A reader that does not see the case of letters. *)
Definition caseless {A} (f : str -> option (A * str)) : Prop :=
  forall s, f (to_ascii_lowercase s) = lower_rest <$> f s.

Lemma digit_lower radix b : digit radix (ascii_lower b) = digit radix b.
Proof. by destruct b. Qed.

Lemma read_digits_lower radix max s v c :
  read_digits radix max (to_ascii_lowercase s) v c = lower_rest <$> read_digits radix max s v c.
Proof.
  revert v c. induction s as [|b s IH]; intros v c; [done|]. cbn [to_ascii_lowercase map read_digits].
  rewrite digit_lower. destruct (digit radix b) as [d|]; [|done]. case_if; [done | apply IH].
Qed.

Lemma head_lower_zero s :
  bool_decide (head (to_ascii_lowercase s) = Some "0"%byte) = bool_decide (head s = Some "0"%byte).
Proof. destruct s as [|b s]; [done|]. simpl. by destruct b. Qed.

Lemma read_number_lower radix max limit zero : caseless (read_number radix max limit zero).
Proof.
  intros s. unfold read_number. rewrite read_digits_lower, head_lower_zero.
  destruct (read_digits radix max s 0 0) as [[[v c] r]|]; [|done]. simpl.
  by repeat case_if.
Qed.

Lemma read_given_lower c s :
  c = dot \/ c = colon -> read_given c (to_ascii_lowercase s) = to_ascii_lowercase <$> read_given c s.
Proof.
  intros Hc. destruct s as [|b s]; [done|]. simpl.
  assert (bool_decide (ascii_lower b = c) = bool_decide (b = c)) as ->
    by (destruct Hc as [-> | ->]; by destruct b).
  by case_if.
Qed.

Lemma read_separator_lower {A} c i (f : str -> option (A * str)) :
  c = dot \/ c = colon -> caseless f -> caseless (read_separator c i f).
Proof.
  intros Hc Hf s. unfold read_separator. destruct (decide (i = 0%nat)); [apply Hf|].
  rewrite read_given_lower by done. by destruct (read_given c s) as [r|]; [apply Hf|].
Qed.

Lemma read_ipv4_lower : caseless read_ipv4.
Proof.
  intros s. unfold read_ipv4.
  assert (forall i, caseless (read_separator dot i (read_number 10 3 255 false))) as Ho
    by (intros i; apply read_separator_lower; [by left | apply read_number_lower]).
  rewrite Ho. destruct (read_separator dot 0 _ s) as [[x r]|]; [|done]. simpl. rewrite Ho.
  destruct (read_separator dot 1 _ r) as [[y r1]|]; [|done]. simpl. rewrite Ho.
  destruct (read_separator dot 2 _ r1) as [[z r2]|]; [|done]. simpl. rewrite Ho.
  by destruct (read_separator dot 3 _ r2) as [[w r3]|].
Qed.

Lemma read_groups_lower n i s :
  read_groups n i (to_ascii_lowercase s)
  = (fst (fst (read_groups n i s)), snd (fst (read_groups n i s)),
     to_ascii_lowercase (snd (read_groups n i s))).
Proof.
  revert i s. induction n as [|n IH]; intros i s; [done|]. cbn [read_groups].
  rewrite (read_separator_lower colon i read_ipv4 ltac:(by right) read_ipv4_lower).
  rewrite (read_separator_lower colon i _ ltac:(by right) (read_number_lower 16 4 65535 true)).
  assert (forall (b : bool) (o : option (Z * str)),
    (if b then lower_rest <$> o else None) = lower_rest <$> (if b then o else None)) as Hif by by intros [].
  rewrite Hif. destruct (if (1 <=? n)%nat then read_separator colon i read_ipv4 s else None) as [[v4 r]|]; [done|]. cbn [fmap option_fmap option_map].
  destruct (read_separator colon i (read_number 16 4 65535 true) s) as [[g r]|]; [|done]. simpl.
  rewrite IH. by destruct (read_groups n (S i) r) as [[gs v] r'].
Qed.

Lemma read_ipv6_lower : caseless read_ipv6.
Proof.
  intros s. unfold read_ipv6. rewrite read_groups_lower.
  destruct (read_groups 8 0 s) as [[front v4] r]. cbn [fst snd]. case_if; [done|]. case_if; [done|].
  rewrite read_given_lower by by right. destruct (read_given colon r) as [r1|]; [|done]. simpl.
  rewrite read_given_lower by by right. destruct (read_given colon r1) as [r2|]; [|done]. simpl.
  rewrite read_groups_lower. by destruct (read_groups _ 0 r2) as [[back v] r'].
Qed.

Lemma parse_ip_lower s : parse_ip (to_ascii_lowercase s) = parse_ip s.
Proof.
  assert (forall (A : Type) (o : option (A * str)), whole (lower_rest <$> o) = whole o) as Hw
    by (intros A [[a [|b r]]|]; done).
  unfold parse_ip. rewrite read_ipv4_lower, read_ipv6_lower.
  destruct (read_ipv4 s) as [[ip r]|]; [apply (Hw _ (Some (V4 ip, r)))|]. simpl.
  destruct (read_ipv6 s) as [[ip r]|]; [apply (Hw _ (Some (V6 ip, r))) | done].
Qed.
