(* ===== verification/Duplex.v ===== *)
(** Handshakes as programs: an [async fn] that reads exact numbers of bytes and writes whole
    buffers is a tree of reads and writes; it runs alone against the bytes a peer sends, or
    together with another one over a connection, in any interleaving. *)
From Stdlib Require Import Strings.Byte.
From stdpp Require Import relations.
From S2P Require Import Prelude.

(** [std::io::ErrorKind]; the kinds the program does not tell apart are numbered. *)
Inductive ErrorKind := KindUnexpectedEof | KindOther (code : Z).

#[export] Instance ErrorKind_eq_dec : EqDecision ErrorKind.
Proof. solve_decision. Defined.

Inductive prog (A : Type) :=
| Done (a : A)
| ReadExact (n : Z) (k : res ErrorKind (list byte) -> prog A)
| WriteAll (bytes : list byte) (k : res ErrorKind unit -> prog A).
Arguments Done {A} a.
Arguments ReadExact {A} n k.
Arguments WriteAll {A} bytes k.

(** A fallible [async fn]. *)
Abbreviation proc E A := (prog (res E A)).

Fixpoint pbind {A B} (p : prog A) (f : A -> prog B) : prog B :=
  match p with
  | Done a => f a
  | ReadExact n k => ReadExact n (fun r => pbind (k r) f)
  | WriteAll b k => WriteAll b (fun r => pbind (k r) f)
  end.

(** [p.await?] *)
Definition call {E A B} (p : proc E A) (f : A -> proc E B) : proc E B :=
  pbind p (fun r => match r with Ok a => f a | Err e => Done (Err e) | Panic => Done Panic end).

(** [p.await.map_err(g)] *)
Definition call_err {E F A} (g : E -> F) (p : proc E A) : proc F A :=
  pbind p (fun r => Done (res_map_err g r)).

Notation "'await?' x := m 'in' k" := (call m (fun x => k))
  (at level 10, x pattern, m at level 100, k at level 200,
   format "'[v' 'await?'  x  :=  m  'in' '/' k ']'") : rust_scope.

(** [stream.read_exact(&mut [0; n]).await], [stream.read_u8().await],
    [stream.write_all(bytes).await]; a flush takes no bytes. *)
Definition recv (n : Z) : proc ErrorKind (list byte) := ReadExact n Done.
Definition recv_u8 : proc ErrorKind byte := await? l := recv 1 in Done (index l 0).
Definition send (bytes : list byte) : proc ErrorKind unit := WriteAll bytes Done.
Definition send_flush : proc ErrorKind unit := WriteAll [] Done.

(** ** A program alone

    What the peer sends before its end and how that end looks to a read, and what becomes of each
    write: nothing, or a failure after some of its bytes; after the list writes succeed. *)
Record Env := mkEnv {
  env_in : list byte;
  env_end : ErrorKind;
  env_writes : list (option (nat * ErrorKind))
}.

Fixpoint run {A} (p : prog A) (e : Env) (out : list byte) : A * Env * list byte :=
  match p with
  | Done a => (a, e, out)
  | ReadExact n k =>
    if n <=? len (env_in e)
    then run (k (Ok (take (Z.to_nat n) (env_in e))))
           (mkEnv (drop (Z.to_nat n) (env_in e)) (env_end e) (env_writes e)) out
    else run (k (Err (env_end e))) (mkEnv [] (env_end e) (env_writes e)) out
  | WriteAll b k =>
    match env_writes e with
    | Some (n, kind) :: ws =>
      run (k (Err kind)) (mkEnv (env_in e) (env_end e) ws) (out ++ take n b)
    | None :: ws => run (k (Ok tt)) (mkEnv (env_in e) (env_end e) ws) (out ++ b)
    | [] => run (k (Ok tt)) e (out ++ b)
    end
  end.

Definition outcome {A} (p : prog A) (e : Env) : A := fst (fst (run p e [])).

(** *** Postconditions

    Whatever the peer sends and however reads and writes fail, the program does not panic, and
    when it succeeds it has read [x] and [Q x a] holds of it and of the result. *)
Definition post {E A} (p : proc E A) (Q : list byte -> A -> Prop) : Prop :=
  forall e out,
    match run p e out with
    | (Ok a, e', _) => exists x, env_in e = x ++ env_in e' /\ Q x a
    | (Err _, _, _) => True
    | (Panic, _, _) => False
    end.

Lemma run_bind {A B} (p : prog A) (f : A -> prog B) e out :
  run (pbind p f) e out = let '(a, e', out') := run p e out in run (f a) e' out'.
Proof.
  revert e out. induction p as [a|n k IH|b k IH]; intros e out; simpl; [done| |].
  - case_if; apply IH.
  - destruct (env_writes e) as [|[[n kind]|] ws]; apply IH.
Qed.

Lemma post_weaken {E A} (p : proc E A) (Q Q' : list byte -> A -> Prop) :
  (forall x a, Q x a -> Q' x a) -> post p Q -> post p Q'.
Proof.
  intros HQ Hp e out. specialize (Hp e out). destruct (run p e out) as [[[] ?] ?]; naive_solver.
Qed.

Lemma post_ok {E A} (a : A) (Q : list byte -> A -> Prop) : Q [] a -> post (@Done (res E A) (Ok a)) Q.
Proof. intros HQ e out. by exists []. Qed.

Lemma post_err {E A} (e : E) (Q : list byte -> A -> Prop) : post (Done (Err e)) Q.
Proof. by intros ? ?. Qed.

(** A failure may be handled, by a program that fails in the end. *)
Lemma post_bind {E F A B} (p : proc E A) (f : res E A -> proc F B) Q (Q' : list byte -> B -> Prop) :
  post p Q ->
  (forall x a, Q x a -> post (f (Ok a)) (fun y b => Q' (x ++ y) b)) ->
  (forall e, post (f (Err e)) (fun _ _ => False)) ->
  post (pbind p f) Q'.
Proof.
  intros Hp Hf He e out. rewrite run_bind. specialize (Hp e out).
  destruct (run p e out) as [[[a|err|] e'] out']; [| |done].
  - destruct Hp as (x & Hx & HQ). specialize (Hf x a HQ e' out').
    destruct (run _ e' out') as [[[b| |] e''] out'']; [|done..].
    destruct Hf as (y & Hy & HQ'). exists (x ++ y). split; [|done]. by rewrite Hx, Hy, app_assoc.
  - specialize (He err e' out'). destruct (run _ e' out') as [[[b| |] e''] out'']; [|done..].
    by destruct He as (? & ? & ?).
Qed.

Lemma post_call {E A B} (p : proc E A) (f : A -> proc E B) Q (Q' : list byte -> B -> Prop) :
  post p Q -> (forall x a, Q x a -> post (f a) (fun y b => Q' (x ++ y) b)) -> post (call p f) Q'.
Proof. intros Hp Hf. apply (post_bind p _ Q); [done|done|]. intros e. apply post_err. Qed.

Lemma post_call_err {E F A} (g : E -> F) (p : proc E A) Q : post p Q -> post (call_err g p) Q.
Proof.
  intros Hp. apply (post_bind p _ Q); [done| |].
  - intros x a HQ. apply post_ok. by rewrite app_nil_r.
  - intros e. apply post_err.
Qed.

Lemma post_recv n : 0 <= n -> post (recv n) (fun x a => a = x /\ len x = n).
Proof.
  intros Hn e out. simpl. case_if; [|done]. unbool. simpl. eexists. split; [by rewrite take_drop|].
  split; [done|]. unfold len in *. rewrite length_take. lia.
Qed.

Lemma post_recv_u8 : post recv_u8 (fun x b => x = [b]).
Proof.
  eapply post_call; [by apply post_recv|]. intros x a [-> Hx].
  destruct x as [|b [|? ?]]; try (unfold len in Hx; simpl in Hx; lia). by apply post_ok.
Qed.

Lemma post_send b : post (send b) (fun x _ => x = []).
Proof.
  intros e out. simpl. destruct (env_writes e) as [|[[n kind]|] ws]; simpl; [|done|]; by exists [].
Qed.

(** ** What a program reads and writes

    It has read exactly these bytes. *)
Inductive eats {A} : prog A -> list byte -> prog A -> Prop :=
| eats_nil p : eats p [] p
| eats_read n k x y p' : len x = n -> eats (k (Ok x)) y p' -> eats (ReadExact n k) (x ++ y) p'.

Inductive flushes {A} : prog A -> prog A -> Prop :=
| flushes_nil p : flushes p p
| flushes_one k p' : flushes (k (Ok tt)) p' -> flushes (WriteAll [] k) p'.

(** A program that cannot go on with the bytes there are. *)
Definition waits {A} (p : prog A) (q : list byte) : Prop :=
  match p with ReadExact n _ => len q < n | _ => False end.

(** Its part of a dialogue: messages of the client ([true]) and of the server, each written at
    once and read to its last byte. *)
Inductive speaks {A} (me : bool) : prog A -> list (bool * list byte) -> prog A -> Prop :=
| speaks_nil p : speaks me p [] p
| speaks_flush k d p' : speaks me (k (Ok tt)) d p' -> speaks me (WriteAll [] k) d p'
| speaks_send b k d p' :
    b <> [] -> speaks me (k (Ok tt)) d p' -> speaks me (WriteAll b k) ((me, b) :: d) p'
| speaks_recv p b p1 d p' :
    waits p [] -> eats p b p1 -> speaks me p1 d p' -> speaks me p ((negb me, b) :: d) p'.

Lemma eats_bind {A B} (p : prog A) x p' (f : A -> prog B) :
  eats p x p' -> eats (pbind p f) x (pbind p' f).
Proof. induction 1; [constructor|]. by apply eats_read. Qed.

Lemma eats_trans {A} (p p' p'' : prog A) x y : eats p x p' -> eats p' y p'' -> eats p (x ++ y) p''.
Proof. induction 1; intros; [done|]. rewrite <- app_assoc. apply eats_read; auto. Qed.

Lemma eats_recv x n : len x = n -> eats (recv n) x (Done (Ok x)).
Proof. intros. rewrite <- (app_nil_r x) at 1. by apply eats_read; [|constructor]. Qed.

Lemma eats_call {E A B} (p : proc E A) x a (f : A -> proc E B) y p' :
  eats p x (Done (Ok a)) -> eats (f a) y p' -> eats (call p f) (x ++ y) p'.
Proof. intros H1 H2. eapply eats_trans; [by apply eats_bind|done]. Qed.

Lemma eats_call_fail {E A B} (p : proc E A) x e (f : A -> proc E B) :
  eats p x (Done (Err e)) -> eats (call p f) x (Done (Err e)).
Proof.
  intros H. apply (eats_bind _ _ _ (fun r =>
    match r with Ok a => f a | Err e => Done (Err e) | Panic => Done Panic end) H).
Qed.

Lemma eats_call_err {E F A} (g : E -> F) (p : proc E A) x r :
  eats p x (Done r) -> eats (call_err g p) x (Done (res_map_err g r)).
Proof. intros H. apply (eats_bind _ _ _ (fun r => Done (res_map_err g r)) H). Qed.

Lemma eats_err_ok {E F A} (g : E -> F) (p : proc E A) x a :
  eats p x (Done (Ok a)) -> eats (call_err g p) x (Done (Ok a)).
Proof. apply (eats_call_err g p x (Ok a)). Qed.

Lemma eats_recv_u8 b : eats recv_u8 [b] (Done (Ok b)).
Proof. rewrite <- (app_nil_r [b]). eapply eats_call; [by apply eats_recv|constructor]. Qed.

Lemma waits_bind {A B} (p : prog A) q (f : A -> prog B) : waits p q -> waits (pbind p f) q.
Proof. by destruct p. Qed.

Lemma speaks_bind {A B} me (p : prog A) d p' (f : A -> prog B) :
  speaks me p d p' -> speaks me (pbind p f) d (pbind p' f).
Proof.
  induction 1; simpl; [apply speaks_nil|by apply speaks_flush|by apply speaks_send|].
  eapply speaks_recv; [by apply waits_bind|by apply eats_bind|done].
Qed.

Lemma speaks_trans {A} me (p p' p'' : prog A) d d' :
  speaks me p d p' -> speaks me p' d' p'' -> speaks me p (d ++ d') p''.
Proof.
  induction 1; intros; simpl; [done|by apply speaks_flush; auto|by apply speaks_send; auto|].
  eapply speaks_recv; eauto.
 Qed.

Lemma speaks_call {E A B} me (p : proc E A) d a (f : A -> proc E B) d' p' :
  speaks me p d (Done (Ok a)) -> speaks me (f a) d' p' -> speaks me (call p f) (d ++ d') p'.
Proof. intros H1 H2. eapply speaks_trans; [by apply speaks_bind|done]. Qed.

Lemma speaks_call_err {E A B} me (p : proc E A) d e (f : A -> proc E B) :
  speaks me p d (Done (Err e)) -> speaks me (call p f) d (Done (Err e)).
Proof.
  intros H1. apply (speaks_bind _ _ _ _ (fun r =>
    match r with Ok a => f a | Err e => Done (Err e) | Panic => Done Panic end) H1).
Qed.

Lemma speaks_map_err {E F A} me (g : E -> F) (p : proc E A) d r :
  speaks me p d (Done r) -> speaks me (call_err g p) d (Done (res_map_err g r)).
Proof. intros H. apply (speaks_bind _ _ _ _ (fun r => Done (res_map_err g r)) H). Qed.

(** The program after its flushes, at the first message. *)
Lemma speaks_front {A} me (p : prog A) d p' :
  speaks me p d p' ->
  exists p0, flushes p p0 /\
    match d with
    | [] => p0 = p'
    | (w, b) :: d' =>
      if Bool.eqb w me then exists k, p0 = WriteAll b k /\ speaks me (k (Ok tt)) d' p'
      else waits p0 [] /\ exists p1, eats p0 b p1 /\ speaks me p1 d' p'
    end.
Proof.
  induction 1 as [p|k d p' _ (p0 & Hf & Hd)|b k d p' _ Hs _|p b p1 d p' Hw He Hs _].
  - by exists p; split; [constructor|].
  - exists p0. by split; [constructor|].
  - eexists. split; [constructor|]. rewrite Bool.eqb_reflx. by exists k.
  - exists p. split; [constructor|]. destruct me; simpl; eauto.
Qed.

(** ** Two programs on a connection

    Each side has a queue of bytes on the way to it. [gone] tells the results after which a side
    drops its end of the connection: its peer then reads the end of the stream, and a write to it
    may fail. *)
Section Duplex.
Context {A B : Type} (gone_l : A -> bool) (gone_r : B -> bool).

Record Duplex := mkDuplex {
  left : prog A;
  right : prog B;
  to_left : list byte;
  to_right : list byte
}.

Definition left_gone (p : prog A) : bool := match p with Done a => gone_l a | _ => false end.
Definition right_gone (p : prog B) : bool := match p with Done b => gone_r b | _ => false end.

Inductive dstep : Duplex -> Duplex -> Prop :=
| step_l_read n k q x y z :
    len x = n -> dstep (mkDuplex (ReadExact n k) q (x ++ y) z) (mkDuplex (k (Ok x)) q y z)
| step_l_end n k q y z :
    len y < n -> right_gone q = true ->
    dstep (mkDuplex (ReadExact n k) q y z) (mkDuplex (k (Err KindUnexpectedEof)) q [] z)
| step_l_write b k q y z :
    dstep (mkDuplex (WriteAll b k) q y z) (mkDuplex (k (Ok tt)) q y (z ++ b))
| step_l_broken b k q y z kind :
    b <> [] -> right_gone q = true ->
    dstep (mkDuplex (WriteAll b k) q y z) (mkDuplex (k (Err kind)) q y z)
| step_r_read n k p x y z :
    len x = n -> dstep (mkDuplex p (ReadExact n k) y (x ++ z)) (mkDuplex p (k (Ok x)) y z)
| step_r_end n k p y z :
    len z < n -> left_gone p = true ->
    dstep (mkDuplex p (ReadExact n k) y z) (mkDuplex p (k (Err KindUnexpectedEof)) y [])
| step_r_write b k p y z :
    dstep (mkDuplex p (WriteAll b k) y z) (mkDuplex p (k (Ok tt)) (y ++ b) z)
| step_r_broken b k p y z kind :
    b <> [] -> left_gone p = true ->
    dstep (mkDuplex p (WriteAll b k) y z) (mkDuplex p (k (Err kind)) y z).

(** Whatever the order of steps, only so many are made and they end in [f]. *)
Definition inevitable (s f : Duplex) : Prop :=
  nf dstep f /\
  exists n, forall m s', nsteps dstep m s s' -> (m <= n)%nat /\ rtc dstep s' f.

(** *** One schedule is all schedules

    The steps of a lock-step schedule: bytes are written only to a peer that waits for them. *)
Inductive lockstep : Duplex -> Duplex -> Prop :=
| lock_l_read n k q x y z :
    len x = n -> lockstep (mkDuplex (ReadExact n k) q (x ++ y) z) (mkDuplex (k (Ok x)) q y z)
| lock_l_end n k b y z :
    len y < n -> gone_r b = true ->
    lockstep (mkDuplex (ReadExact n k) (Done b) y z)
             (mkDuplex (k (Err KindUnexpectedEof)) (Done b) [] z)
| lock_l_write b k q y z :
    b = [] \/ waits q z ->
    lockstep (mkDuplex (WriteAll b k) q y z) (mkDuplex (k (Ok tt)) q y (z ++ b))
| lock_r_read n k p x y z :
    len x = n -> lockstep (mkDuplex p (ReadExact n k) y (x ++ z)) (mkDuplex p (k (Ok x)) y z)
| lock_r_end n k a y z :
    len z < n -> gone_l a = true ->
    lockstep (mkDuplex (Done a) (ReadExact n k) y z)
             (mkDuplex (Done a) (k (Err KindUnexpectedEof)) y [])
| lock_r_write b k p y z :
    b = [] \/ waits p y ->
    lockstep (mkDuplex p (WriteAll b k) y z) (mkDuplex p (k (Ok tt)) (y ++ b) z).

Lemma lockstep_dstep s s' : lockstep s s' -> dstep s s'.
Proof. destruct 1; econstructor; eauto. Qed.

Lemma app_len_inj {C} (x x' y y' : list C) : x ++ y = x' ++ y' -> len x = len x' -> x = x' /\ y = y'.
Proof. intros E L. unfold len in L. apply app_inj_1; [lia|done]. Qed.

(** Steps of different sides commute; a side's own lock-step step is the only one it has. *)
Lemma lockstep_diamond s s1 s2 :
  lockstep s s1 -> dstep s s2 -> s2 = s1 \/ exists s', lockstep s2 s' /\ dstep s1 s'.
Proof.
  destruct 1 as [n k q x y z Hx|n k b y z Hy Hb|b k q y z Hw
                |n k p x y z Hx|n k a y z Hz Ha|b k p y z Hw]; inversion 1; subst;
    repeat match goal with
    | H : _ ++ _ = _ ++ _ |- _ => apply app_len_inj in H as [-> ->]; [|done]
    | H : left_gone _ = true |- _ => simpl in H; try discriminate H
    | H : right_gone _ = true |- _ => simpl in H; try discriminate H
    end; try (left; reflexivity); try (destruct Hw as [->|Hw]); try done;
    try (exfalso; unfold waits, len in *; rewrite ?length_app in *; lia);
    try (by destruct p); try (by destruct q);
    right; eexists; rewrite ?app_nil_r, <- ?app_assoc;
    (split; [first [by apply lock_l_read | by apply lock_r_read | by apply lock_l_write; eauto
                   | by apply lock_r_write; eauto]|]);
    rewrite ?app_nil_r, <- ?app_assoc;
    first [by apply step_l_read | by apply step_r_read | by apply step_l_write
          | by apply step_r_write].
Qed.

Lemma lockstep_one n s f s' :
  nf dstep f -> nsteps lockstep n s f -> dstep s s' ->
  exists n', n = S n' /\ nsteps lockstep n' s' f.
Proof.
  intros Hf. revert s s'. induction n as [|n IH]; intros s s' Hs Hd.
  { inversion Hs; subst. by destruct Hf; exists s'. }
  inversion Hs as [|? ? s1 ? H1 Hs1]; subst. clear Hs.
  destruct (lockstep_diamond _ _ _ H1 Hd) as [->|(s2 & L2 & D2)]; [eauto|].
  destruct (IH _ _ Hs1 D2) as (n' & -> & Hs'). exists (S n'). split; [done|]. by eapply nsteps_l.
Qed.

Lemma lockstep_inevitable s f : nf dstep f -> rtc lockstep s f -> inevitable s f.
Proof.
  intros Hf Hs. split; [done|]. apply rtc_nsteps_1 in Hs as [n Hs]. exists n. intros m s' Hm.
  enough (exists k, n = (m + k)%nat /\ nsteps lockstep k s' f) as (k & -> & Hk).
  { split; [lia|]. apply rtc_nsteps_2 in Hk. revert Hk. apply rtc_subrel.
    intros ? ?. apply lockstep_dstep. }
  revert n Hs. induction Hm as [s|m s s1 s2 H1 Hm IH]; intros n Hs; [by exists n|].
  destruct (lockstep_one _ _ _ _ Hf Hs H1) as (n' & -> & Hs').
  destruct (IH _ Hs') as (k & -> & ?). by exists k.
Qed.

Lemma both_done_nf a b y z : nf dstep (mkDuplex (Done a) (Done b) y z).
Proof. intros [s' H]. inversion H. Qed.

(** *** Dialogues

    One step at the front of a side's program, whatever the other side does. *)
Lemma lock_l_eats p x p' q y z :
  eats p x p' -> rtc lockstep (mkDuplex p q (x ++ y) z) (mkDuplex p' q y z).
Proof.
  intros He. revert y. induction He as [|n k x x' p' Hn _ IH]; intros y; [done|].
  rewrite <- app_assoc. eapply rtc_l; [by apply lock_l_read|]. apply IH.
Qed.

Lemma lock_r_eats p q x q' y z :
  eats q x q' -> rtc lockstep (mkDuplex p q y (x ++ z)) (mkDuplex p q' y z).
Proof.
  intros He. revert z. induction He as [|n k x x' p' Hn _ IH]; intros z; [done|].
  rewrite <- app_assoc. eapply rtc_l; [by apply lock_r_read|]. apply IH.
Qed.

Lemma lock_l_flush p p' q y z :
  flushes p p' -> rtc lockstep (mkDuplex p q y z) (mkDuplex p' q y z).
Proof.
  induction 1 as [|k p' _ IH]; [done|]. eapply rtc_l; [by apply lock_l_write; left|].
  by rewrite app_nil_r.
Qed.

Lemma lock_r_flush p q q' y z :
  flushes q q' -> rtc lockstep (mkDuplex p q y z) (mkDuplex p q' y z).
Proof.
  induction 1 as [|k p' _ IH]; [done|]. eapply rtc_l; [by apply lock_r_write; left|].
  by rewrite app_nil_r.
Qed.

(** Two programs that speak the two parts of a dialogue get through it in lock step. *)
Lemma dialogue_lockstep d p q p' q' :
  speaks true p d p' -> speaks false q d q' ->
  rtc lockstep (mkDuplex p q [] []) (mkDuplex p' q' [] []).
Proof.
  revert p q. induction d as [|[[] b] d IH]; intros p q Hp Hq;
    destruct (speaks_front _ _ _ _ Hp) as (p0 & Fp & Hp0);
    destruct (speaks_front _ _ _ _ Hq) as (q0 & Fq & Hq0);
    (etrans; [by apply lock_l_flush|]); (etrans; [by apply lock_r_flush|]);
    simpl in Hp0, Hq0.
  - by subst.
  - destruct Hp0 as (k & -> & Hk), Hq0 as (Hw & q1 & He & Hq1).
    eapply rtc_l; [by apply lock_l_write; right|].
    rewrite app_nil_l, <- (app_nil_r b). etrans; [by apply lock_r_eats|]. by apply IH.
  - destruct Hq0 as (k & -> & Hk), Hp0 as (Hw & p1 & He & Hp1).
    eapply rtc_l; [by apply lock_r_write; right|].
    rewrite app_nil_l, <- (app_nil_r b). etrans; [by apply lock_l_eats|]. by apply IH.
Qed.
End Duplex.
