(* ===== verification/Socks.v ===== *)
(** SOCKS: the server side of [crates/xray-proxy/src/inbound/socks.rs] with the connection
    handlers of [crates/xray-core-rs/src/socks.rs] up to where a connection is handed on, the
    client side of [crates/xray-proxy/src/outbound/socks.rs], and the two sides on one
    connection. *)
From Stdlib Require Import Strings.Byte.
From stdpp Require Import relations.
From S2P Require Import Prelude Net IpText RoutingRules Duplex.

(** [aws_lc_rs::constant_time::verify_slices_are_equal(a, b).is_ok()] *)
Class ConstantTime := { verify_slices_are_equal : list byte -> list byte -> bool }.
Class ConstantTimeLaws `{ConstantTime} : Prop := {
  verify_slices_law a b : verify_slices_are_equal a b = true <-> a = b
}.

(** ** Constants and data *)

Definition MAX_SOCKS_CREDENTIAL_LENGTH : Z := 255.
Definition METHOD_NO_AUTH : byte := x00.
Definition METHOD_PASSWORD : byte := x02.
Definition METHOD_NONE_ACCEPTABLE : byte := xff.
Definition PASSWORD_AUTH_VERSION : byte := x01.
Definition PASSWORD_AUTH_SUCCESS : byte := x00.
Definition PASSWORD_AUTH_FAILURE : byte := xff.
Definition REPLY_GENERAL_FAILURE : byte := x01.
Definition REPLY_COMMAND_NOT_SUPPORTED : byte := x07.
Definition SOCKS5_CONNECT : byte := x01.
Definition SOCKS5_UDP_ASSOCIATE : byte := x03.
Definition SOCKS5_TOR_RESOLVE : byte := xf0.
Definition SOCKS5_TOR_RESOLVE_PTR : byte := xf1.

Inductive SocksParseError :=
| UnsupportedVersion (b : byte)
| UnsupportedCommand (b : byte)
| UnsupportedAddressType (b : byte)
| InvalidDomain
| UnsupportedUdpFragment
| TruncatedUdpDatagram
| PayloadTooLarge
| NoAcceptableMethods
| AuthenticationFailed
| Io.

Inductive SocksCommand := Connect | UdpAssociate.

Record SocksRequest := mkSocksRequest { req_command : SocksCommand; req_target : Target }.

Record SocksUdpDatagram := mkSocksUdpDatagram { dg_target : Target; dg_payload : list byte }.

Record SocksAccount := mkSocksAccount { acc_user : list byte; acc_pass : list byte }.

Inductive SocksInboundAuth := NoAuth | Password (accounts : list SocksAccount).

(** The name a client authenticated with. *)
Definition InboundUser : Type := str.

Definition SocksAccount_new (user pass : list byte) : option SocksAccount :=
  let valid (value : list byte) := len value <=? MAX_SOCKS_CREDENTIAL_LENGTH in
  if valid user && valid pass then Some (mkSocksAccount user pass) else None.

Definition InboundUser_new (user : list byte) : InboundUser := from_utf8_lossy user.

Definition requires_password (a : SocksInboundAuth) : bool :=
  match a with Password _ => true | NoAuth => false end.

Definition auth_method (a : SocksInboundAuth) : byte :=
  match a with NoAuth => METHOD_NO_AUTH | Password _ => METHOD_PASSWORD end.

(** ** Addresses *)

Definition is_ascii_digit (b : byte) : bool := (0x30 <=? u8 b) && (u8 b <=? 0x39).

Definition is_ascii_alphanumeric (b : byte) : bool :=
  is_ascii_digit b || ((0x41 <=? u8 b) && (u8 b <=? 0x5A)) || ((0x61 <=? u8 b) && (u8 b <=? 0x7A)).

Definition go_address_text (text : str) : str :=
  let inner :=
    match text with
    | c :: inner =>
      if bool_decide (c = "["%byte) then
        match reverse inner with
        | d :: r => if bool_decide (d = "]"%byte) then Some (reverse r) else None
        | [] => None
        end
      else None
    | [] => None
    end in
  trim_space (default text inner).

Definition go_parse_address (text : str) : TargetAddr :=
  let text := go_address_text text in
  match parse_ip text with
  | Some ip => Ip (to_canonical ip)
  | None => Domain text
  end.

Definition domain_byte (b : byte) : bool :=
  is_ascii_alphanumeric b || bool_decide (b ∈ ["-"%byte; "."%byte; "_"%byte]).

Definition socks_domain_address (raw : list byte) : option TargetAddr :=
  match raw with
  | [] => None
  | first :: _ =>
    let ip :=
      if bool_decide (first = "["%byte) || is_ascii_digit first
      then text ← from_utf8 raw; parse_ip (go_address_text text)
      else None in
    match ip with
    | Some ip => Some (Ip (to_canonical ip))
    | None => if forallb domain_byte raw then Some (Domain raw) else None
    end
  end.

Definition socks_ipv6_address (octets : list byte) : TargetAddr :=
  Ip (to_canonical (V6 (from_be octets))).

Definition encode_target_addr (a : TargetAddr) : res SocksParseError (list byte) :=
  match a with
  | Ip (V4 ip) => Ok (x01 :: octets4 ip)
  | Ip (V6 ip) => Ok (x04 :: octets6 ip)
  | Domain domain =>
    if 255 <? len domain then Err InvalidDomain
    else if len domain =? 0 then Err InvalidDomain
    else Ok (x03 :: to_u8 (len domain) :: domain)
  end.

Definition parse_target_addr (raw : list byte) (offset : Z) : res SocksParseError (TargetAddr * Z) :=
  let? address_type := ok_or (raw !! Z.to_nat offset) TruncatedUdpDatagram in
  match address_type with
  | x01 =>
    let start := offset + 1 in
    let fin := start + 4 in
    let? octets := ok_or (get_range raw start fin) TruncatedUdpDatagram in
    Ok (Ip (V4 (from_be octets)), fin)
  | x03 =>
    let? l := ok_or (raw !! Z.to_nat (offset + 1)) TruncatedUdpDatagram in
    if u8 l =? 0 then Err InvalidDomain
    else
      let start := offset + 2 in
      let fin := start + u8 l in
      let? domain := ok_or (get_range raw start fin) TruncatedUdpDatagram in
      let? a := ok_or (socks_domain_address domain) InvalidDomain in
      Ok (a, fin)
  | x04 =>
    let start := offset + 1 in
    let fin := start + 16 in
    let? octets := ok_or (get_range raw start fin) TruncatedUdpDatagram in
    Ok (socks_ipv6_address octets, fin)
  | other => Err (UnsupportedAddressType other)
  end.

Inductive AddressReadError :=
| ArIo (kind : ErrorKind)
| ArInvalidDomain
| ArUnsupportedType (b : byte).

Definition from_address_error (e : AddressReadError) : SocksParseError :=
  match e with
  | ArIo _ => Io
  | ArInvalidDomain => InvalidDomain
  | ArUnsupportedType other => UnsupportedAddressType other
  end.

Definition read_socks5_address (address_type : byte) : proc AddressReadError (TargetAddr * Z) :=
  match address_type with
  | x01 =>
    await? raw := call_err ArIo (recv 6) in
    await? ip := Done (slice raw 0 4) in
    await? port := Done (slice raw 4 6) in
    Done (Ok (Ip (V4 (from_be ip)), from_be port))
  | x03 =>
    await? l := call_err ArIo recv_u8 in
    let n := u8 l in
    if n =? 0 then Done (Err ArInvalidDomain)
    else
      await? domain_and_port := call_err ArIo (recv (n + 2)) in
      await? port := Done (slice domain_and_port n (n + 2)) in
      await? domain := Done (slice domain_and_port 0 n) in
      await? a := Done (ok_or (socks_domain_address domain) ArInvalidDomain) in
      Done (Ok (a, from_be port))
  | x04 =>
    await? raw := call_err ArIo (recv 18) in
    await? octets := Done (slice raw 0 16) in
    await? port := Done (slice raw 16 18) in
    Done (Ok (socks_ipv6_address octets, from_be port))
  | other => Done (Err (ArUnsupportedType other))
  end.

(** ** The server *)

Section Server.
Context `{ConstantTime}.

Definition acc_matches (a : SocksAccount) (user pass : list byte) : bool :=
  let user_matches := verify_slices_are_equal (acc_user a) user in
  let pass_matches := verify_slices_are_equal (acc_pass a) pass in
  user_matches && pass_matches.

Definition accounts_admit (accounts : list SocksAccount) (user pass : list byte) : bool :=
  fold_left (fun accepted a => accepted || acc_matches a user pass) accounts false.

Definition io {A} (p : proc ErrorKind A) : proc SocksParseError A := call_err (fun _ => Io) p.

Definition read_credential : proc SocksParseError (list byte) :=
  await? length := io recv_u8 in io (recv (u8 length)).

Definition verify_password (accounts : list SocksAccount) : proc SocksParseError InboundUser :=
  await? _ := io recv_u8 in
  await? user := read_credential in
  await? pass := read_credential in
  let accepted := accounts_admit accounts user pass in
  let status := if accepted then PASSWORD_AUTH_SUCCESS else PASSWORD_AUTH_FAILURE in
  await? _ := io (send [PASSWORD_AUTH_VERSION; status]) in
  Done (if accepted then Ok (InboundUser_new user) else Err AuthenticationFailed).

Definition negotiate_socks5 (auth : SocksInboundAuth)
    : proc SocksParseError (option InboundUser) :=
  await? head := io (recv 2) in
  await? version := Done (index head 0) in
  if negb (bool_decide (version = x05)) then Done (Err (UnsupportedVersion version))
  else
    await? method_count := Done (index head 1) in
    await? methods := io (recv (u8 method_count)) in
    let wanted := auth_method auth in
    if negb (bool_decide (wanted ∈ methods)) then
      await? _ := io (send [x05; METHOD_NONE_ACCEPTABLE]) in
      Done (Err NoAcceptableMethods)
    else
      await? _ := io (send [x05; wanted]) in
      match auth with
      | NoAuth => Done (Ok None)
      | Password accounts => await? user := verify_password accounts in Done (Ok (Some user))
      end.

Definition negotiate_socks5_no_auth : proc SocksParseError unit :=
  await? _ := negotiate_socks5 NoAuth in Done (Ok tt).

Definition read_socks5_command : proc SocksParseError SocksCommand :=
  await? head := io (recv 3) in
  await? command := Done (index head 1) in
  if bool_decide (command ∈ [SOCKS5_CONNECT; SOCKS5_TOR_RESOLVE; SOCKS5_TOR_RESOLVE_PTR])
  then Done (Ok Connect)
  else if bool_decide (command = SOCKS5_UDP_ASSOCIATE) then Done (Ok UdpAssociate)
  else Done (Err (UnsupportedCommand command)).

Definition read_socks5_target (command : SocksCommand) : proc SocksParseError Target :=
  await? address_type := io recv_u8 in
  await? (a, p) := call_err from_address_error (read_socks5_address address_type) in
  let network := match command with Connect => Tcp | UdpAssociate => Udp end in
  Done (Ok (mkTarget a p network)).

Definition parse_socks5_request_message : proc SocksParseError SocksRequest :=
  await? command := read_socks5_command in
  await? t := read_socks5_target command in
  Done (Ok (mkSocksRequest command t)).

Definition parse_socks5_request : proc SocksParseError Target :=
  await? request := parse_socks5_request_message in
  match req_command request with
  | Connect => Done (Ok (req_target request))
  | UdpAssociate => Done (Err (UnsupportedCommand x03))
  end.

Definition parse_socks5_connect : proc SocksParseError Target :=
  await? _ := negotiate_socks5_no_auth in parse_socks5_request.

Definition write_socks5_success : proc SocksParseError unit :=
  io (send [x05; x00; x00; x01; x00; x00; x00; x00; x00; x00]).

Definition bind_reply (bind : SocketAddr) : list byte :=
  [x05; x00; x00]
  ++ match sa_ip bind with
     | V4 ip => x01 :: octets4 ip ++ be_bytes 2 (sa_port bind)
     | V6 ip => x04 :: octets6 ip ++ be_bytes 2 (sa_port bind)
     end.

Definition write_socks5_success_with_bind (bind : SocketAddr) : proc SocksParseError unit :=
  io (send (bind_reply bind)).

Definition write_socks5_error (reply : byte) : proc SocksParseError unit :=
  io (send [x05; reply; x00; x01; x00; x00; x00; x00; x00; x00]).

Definition write_socks5_failure : proc SocksParseError unit :=
  write_socks5_error REPLY_GENERAL_FAILURE.

Definition write_socks5_command_not_supported : proc SocksParseError unit :=
  write_socks5_error REPLY_COMMAND_NOT_SUPPORTED.

Definition encode_socks5_udp_datagram (t : Target) (payload : list byte)
    : res SocksParseError (list byte) :=
  match network t with
  | Udp =>
    let? a := encode_target_addr (addr t) in
    Ok ([x00; x00; x00] ++ a ++ be_bytes 2 (port t) ++ payload)
  | Tcp => Err (UnsupportedCommand x01)
  end.

Definition parse_socks5_udp_datagram (raw : list byte) : res SocksParseError SocksUdpDatagram :=
  if len raw <? 4 then Err TruncatedUdpDatagram
  else
    let? frag := index raw 2 in
    if negb (bool_decide (frag = x00)) then Err UnsupportedUdpFragment
    else
      let? (a, offset) := parse_target_addr raw 3 in
      if len raw <? offset + 2 then Err TruncatedUdpDatagram
      else
        let? high := index raw offset in
        let? low := index raw (offset + 1) in
        let? payload := slice_from raw (offset + 2) in
        Ok (mkSocksUdpDatagram (mkTarget a (from_be [high; low]) Udp) payload).

(** *** SOCKS 4 *)

Definition SOCKS4_VERSION : byte := x04.
Definition SOCKS4_CONNECT : byte := x01.
Definition SOCKS4_GRANTED : list byte := [x00; x5a; x00; x00; x00; x00; x00; x00].
Definition SOCKS4_REJECTED : list byte := [x00; x5b; x00; x00; x00; x00; x00; x00].
Definition MAX_SOCKS4_STRING : Z := 255.

(** The loop reads at most [MAX_SOCKS4_STRING + 1] bytes. *)
Fixpoint socks4_string_loop (fuel : nat) (value : list byte) : proc SocksParseError (list byte) :=
  match fuel with
  | O => Done Panic
  | S fuel =>
    await? b := io recv_u8 in
    if bool_decide (b = x00) then Done (Ok value)
    else if len value =? MAX_SOCKS4_STRING then Done (Err InvalidDomain)
    else socks4_string_loop fuel (value ++ [b])
  end.

Definition read_socks4_string : proc SocksParseError (list byte) := socks4_string_loop 256 [].

Definition parse_socks4_connect : proc SocksParseError Target :=
  await? command := io recv_u8 in
  await? p := io (recv 2) in
  await? ip := io (recv 4) in
  await? _ := read_socks4_string in
  await? first := Done (index ip 0) in
  await? a :=
    (if u8 first =? 0 then
       await? domain := read_socks4_string in
       await? domain := Done (ok_or (from_utf8 domain) InvalidDomain) in
       match go_parse_address domain with
       | Domain [] => Done (Err InvalidDomain)
       | a => Done (Ok a)
       end
     else Done (Ok (Ip (V4 (from_be ip))))) in
  if negb (bool_decide (command = SOCKS4_CONNECT)) then Done (Err (UnsupportedCommand command))
  else Done (Ok (mkTarget a (from_be p) Tcp)).

(** *** The connection handlers *)

Record SocksInboundSettings := mkSocksInboundSettings { s_auth : SocksInboundAuth; s_udp : bool }.

Record SocksUdpClientLock := mkSocksUdpClientLock { lock_client : SocketAddr }.

Definition for_request (declared : Target) (control_peer : option SocketAddr)
    : option SocksUdpClientLock :=
  let client :=
    if port declared =? 0 then None
    else match addr declared with
         | Ip ip =>
           if negb (is_unspecified ip) then Some (mkSocketAddr ip (port declared))
           else (fun peer => mkSocketAddr (sa_ip peer) (port declared)) <$> control_peer
         | Domain _ => (fun peer => mkSocketAddr (sa_ip peer) (port declared)) <$> control_peer
         end in
  mkSocksUdpClientLock <$> client.

Definition admits (l : SocksUdpClientLock) (source : SocketAddr) : bool :=
  bool_decide (lock_client l = source).

(** What a connection is handed to, with the user it authenticated as; a connection that is
    closed instead is [Err]. *)
Inductive Handed :=
| HandConnect (reply : bool) (t : Target) (user : option InboundUser)
| HandAssociate (lock : option SocksUdpClientLock) (user : option InboundUser)
| HandHttp.

(** A handler that ignores how its last write went. *)
Definition ignoring {A} (p : proc SocksParseError A) : proc unit Handed :=
  pbind p (fun _ => Done (Err tt)).

(** The branch of [handle_socks_connection] for version 5: the request of an admitted client,
    and before it the negotiation. A deadline that passes ends it like a failed read;
    [drain_arrived] only throws away bytes of a connection that is closed next. *)
Definition handle_request (settings : SocksInboundSettings) (peer : option SocketAddr)
    (user : option InboundUser) : proc unit Handed :=
  pbind read_socks5_command (fun r =>
    let command :=
      match r with
      | Ok UdpAssociate => if negb (s_udp settings) then Ok None else Ok (Some UdpAssociate)
      | Ok Connect => Ok (Some Connect)
      | Err (UnsupportedCommand _) => Ok None
      | Err _ => Err tt
      | Panic => Panic
      end in
    await? command := Done command in
    match command with
    | None => ignoring write_socks5_command_not_supported
    | Some command =>
      await? t := call_err (fun _ => tt) (read_socks5_target command) in
      match command with
      | Connect => Done (Ok (HandConnect true t user))
      | UdpAssociate =>
        if requires_password (s_auth settings) then
          match for_request t peer with
          | None => ignoring write_socks5_failure
          | Some lock => Done (Ok (HandAssociate (Some lock) user))
          end
        else Done (Ok (HandAssociate None user))
      end
    end).

Definition handle_socks5 (settings : SocksInboundSettings) (peer : option SocketAddr)
    : proc unit Handed :=
  await? user := call_err (fun _ => tt) (negotiate_socks5 (s_auth settings)) in
  handle_request settings peer user.

Definition handle_socks4 (auth : SocksInboundAuth) : proc unit Handed :=
  await? _ := call_err (fun _ => tt) (recv 1) in
  pbind parse_socks4_connect (fun r =>
    match r with
    | Ok t =>
      if negb (requires_password auth) then
        await? _ := call_err (fun _ => tt) (send SOCKS4_GRANTED) in
        Done (Ok (HandConnect false t None))
      else ignoring (io (send SOCKS4_REJECTED))
    | Err _ => ignoring (io (send SOCKS4_REJECTED))
    | Panic => Done Panic
    end).

(** [first] is the byte that [peek] saw, which stays in the stream. *)
Definition handle_socks_connection (settings : SocksInboundSettings) (peer : option SocketAddr)
    (first : byte) : proc unit Handed :=
  if bool_decide (first = x05) then handle_socks5 settings peer
  else if bool_decide (first = SOCKS4_VERSION) then handle_socks4 (s_auth settings)
  else Done (Ok HandHttp).

(** What becomes of a CONNECT once its target is routed: no outbound is selected, the DNS outbound
    or the blackhole serves it, or the outbound is dialed, where the connection may be closed from
    outside before the dial ends. *)
Inductive Opening :=
| NotRouted
| ToDns
| ToBlackhole
| ClosedWhileOpening
| OpenFailed
| OpenTimedOut
| Opened.

(** The replies of [handle_socks_connect], each guarded by [SOCKS_REPLY], which is the [reply] of
    what was handed on. A connection that is sniffed is granted before it is routed, since the
    client only then sends what is sniffed; those bytes are the tunnel's first and stay on the
    connection here. *)
Definition reply_connect (sniff_tcp : bool) (opening : Opening) (h : Handed) : proc unit Handed :=
  let SOCKS_REPLY := match h with HandConnect reply _ _ => reply | _ => false end in
  let success := call_err (fun _ => tt) write_socks5_success in
  let failed :=
    if SOCKS_REPLY && negb sniff_tcp then ignoring write_socks5_failure else Done (Err tt) in
  let served :=
    if SOCKS_REPLY && negb sniff_tcp then await? _ := success in Done (Ok h) else Done (Ok h) in
  await? _ := (if sniff_tcp then (if SOCKS_REPLY then success else Done (Ok tt)) else Done (Ok tt)) in
  match opening with
  | NotRouted => failed
  | ToDns => served
  | ToBlackhole => served
  | ClosedWhileOpening => Done (Err tt)
  | OpenFailed => failed
  | OpenTimedOut => failed
  | Opened => served
  end.

(** How [handle_socks_udp_associate] answers; [bind] is the address of its relay socket. *)
Definition reply_associate (bind : option SocketAddr) (h : Handed) : proc unit Handed :=
  match bind with
  | Some bind =>
    await? _ := call_err (fun _ => tt) (write_socks5_success_with_bind bind) in Done (Ok h)
  | None => ignoring write_socks5_failure
  end.

Definition answer (sniff_tcp : bool) (opening : Opening) (bind : option SocketAddr) (h : Handed)
    : proc unit Handed :=
  match h with
  | HandConnect _ _ _ => reply_connect sniff_tcp opening h
  | HandAssociate _ _ => reply_associate bind h
  | HandHttp => Done (Ok h)
  end.

(** The whole of the server's part in a SOCKS5 handshake. *)
Definition serve_socks5 (settings : SocksInboundSettings) (peer : option SocketAddr)
    (sniff_tcp : bool) (opening : Opening) (bind : option SocketAddr) : proc unit Handed :=
  await? h := handle_socks5 settings peer in answer sniff_tcp opening bind h.
End Server.

(** ** The client *)

Definition VERSION : byte := x05.
Definition COMMAND_CONNECT : byte := x01.
Definition COMMAND_UDP_ASSOCIATE : byte := x03.
Definition REPLY_SUCCEEDED : byte := x00.
Definition MAX_DOMAIN_LENGTH : Z := 255.
Definition MAX_SOCKS_UDP_DATAGRAM_LENGTH : Z := 8192.

Inductive SocksClientError :=
| InvalidTargetPort
| InvalidTargetDomain
| ClientIo (kind : ErrorKind)
| UnexpectedVersion (b : byte)
| NoAcceptableMethod
| UnexpectedMethod (b : byte)
| UnexpectedAuthVersion (b : byte)
| AuthRejected (b : byte)
| RequestRejected (b : byte)
| ClientUnsupportedAddressType (b : byte)
| MalformedReply
| InvalidRelayAddress
| UdpPayloadTooLarge.

Inductive SocksUdpDrop := ForeignSource | Fragmented | Malformed.

Definition client_address_error (e : AddressReadError) : SocksClientError :=
  match e with
  | ArIo kind => ClientIo kind
  | ArInvalidDomain => MalformedReply
  | ArUnsupportedType other => ClientUnsupportedAddressType other
  end.

Definition valid_domain (domain : str) : bool :=
  (1 <=? len domain) && (len domain <=? MAX_DOMAIN_LENGTH)
  && negb (existsb (fun c => is_whitespace c || is_control c) (chars domain)).

Definition canonical_target_addr (t : Target) : res SocksClientError TargetAddr :=
  if port t =? 0 then Err InvalidTargetPort
  else match addr t with
       | Ip ip => Ok (Ip (to_canonical ip))
       | Domain domain => if valid_domain domain then Ok (addr t) else Err InvalidTargetDomain
       end.

Definition encode_connect_request (t : Target) : res SocksClientError (list byte) :=
  let? a := canonical_target_addr t in
  let? enc := res_map_err (fun _ => InvalidTargetDomain) (encode_target_addr a) in
  Ok ([VERSION; COMMAND_CONNECT; x00] ++ enc ++ be_bytes 2 (port t)).

Definition validate_connect_target (t : Target) : res SocksClientError unit :=
  let? _ := encode_connect_request t in Ok tt.

Definition encode_socks5_udp_request (t : Target) (payload : list byte)
    : res SocksClientError (list byte) :=
  let? a := canonical_target_addr t in
  let? enc := res_map_err (fun _ => InvalidTargetDomain) (encode_target_addr a) in
  let datagram := [x00; x00; x00] ++ enc ++ be_bytes 2 (port t) in
  if MAX_SOCKS_UDP_DATAGRAM_LENGTH <? len datagram + len payload then Err UdpPayloadTooLarge
  else Ok (datagram ++ payload).

Definition decode_socks5_udp_reply (relay source : SocketAddr) (raw : list byte)
    : res SocksUdpDrop SocksUdpDatagram :=
  if negb (bool_decide (mkSocketAddr (to_canonical (sa_ip source)) (sa_port source) = relay))
  then Err ForeignSource
  else res_map_err (fun e => match e with UnsupportedUdpFragment => Fragmented | _ => Malformed end)
         (parse_socks5_udp_datagram raw).

Definition write_flushed (bytes : list byte) : proc ErrorKind unit :=
  await? _ := send bytes in send_flush.

Definition authenticate (account : SocksAccount) : proc SocksClientError unit :=
  let message :=
    PASSWORD_AUTH_VERSION
    :: concat (map (fun value => to_u8 (len value) :: value) [acc_user account; acc_pass account]) in
  await? _ := call_err ClientIo (write_flushed message) in
  await? status := call_err ClientIo (recv 2) in
  await? version := Done (index status 0) in
  await? status := Done (index status 1) in
  Done (if bool_decide (version = PASSWORD_AUTH_VERSION)
        then if bool_decide (status = PASSWORD_AUTH_SUCCESS) then Ok tt else Err (AuthRejected status)
        else Err (UnexpectedAuthVersion version)).

Definition negotiate (account : option SocksAccount) : proc SocksClientError unit :=
  let method := match account with Some _ => METHOD_PASSWORD | None => METHOD_NO_AUTH end in
  await? _ := call_err ClientIo (write_flushed [VERSION; x01; method]) in
  await? selection := call_err ClientIo (recv 2) in
  await? version := Done (index selection 0) in
  await? selected := Done (index selection 1) in
  if bool_decide (version = VERSION) then
    if bool_decide (selected = method) then
      match account with
      | Some account => authenticate account
      | None => Done (Ok tt)
      end
    else if bool_decide (selected = METHOD_NONE_ACCEPTABLE) then Done (Err NoAcceptableMethod)
    else Done (Err (UnexpectedMethod selected))
  else Done (Err (UnexpectedVersion version)).

Definition read_reply : proc SocksClientError (TargetAddr * Z) :=
  await? head := call_err ClientIo (recv 3) in
  await? version := Done (index head 0) in
  await? code := Done (index head 1) in
  if bool_decide (version = VERSION) then
    if bool_decide (code = REPLY_SUCCEEDED) then
      await? address_type := call_err ClientIo recv_u8 in
      call_err client_address_error (read_socks5_address address_type)
    else Done (Err (RequestRejected code))
  else Done (Err (UnexpectedVersion version)).

Definition socks5_connect (account : option SocksAccount) (t : Target)
    : proc SocksClientError unit :=
  await? request := Done (encode_connect_request t) in
  await? _ := negotiate account in
  await? _ := call_err ClientIo (write_flushed request) in
  await? _ := read_reply in
  Done (Ok tt).

Definition socks5_udp_associate (account : option SocksAccount) (client_endpoint : SocketAddr)
    (server : IpAddr) : proc SocksClientError SocketAddr :=
  await? enc := Done (res_map_err (fun _ => InvalidTargetDomain)
                        (encode_target_addr (Ip (to_canonical (sa_ip client_endpoint))))) in
  let request :=
    [VERSION; COMMAND_UDP_ASSOCIATE; x00] ++ enc ++ be_bytes 2 (sa_port client_endpoint) in
  await? _ := negotiate account in
  await? _ := call_err ClientIo (write_flushed request) in
  await? (bound, p) := read_reply in
  await? ip := Done (match bound with
                     | Ip ip => Ok ip
                     | Domain domain => ok_or (parse_ip domain) InvalidRelayAddress
                     end) in
  if p =? 0 then Done (Err InvalidRelayAddress)
  else
    let ip := if is_unspecified ip then server else ip in
    Done (Ok (mkSocketAddr (to_canonical ip) p)).

(** ** Addresses on the wire *)

#[export] Instance SocksAccount_eq_dec : EqDecision SocksAccount.
Proof. solve_decision. Defined.

(** What the reader of an encoded address makes of it. *)
Definition seen (a : TargetAddr) : option TargetAddr :=
  match a with
  | Ip ip => Some (Ip (to_canonical ip))
  | Domain d => socks_domain_address d
  end.

Lemma encode_target_addr_domain d enc :
  encode_target_addr (Domain d) = Ok enc ->
  enc = x03 :: to_u8 (len d) :: d /\ 0 < len d <= 255 /\ u8 (to_u8 (len d)) = len d.
Proof.
  simpl. case_if; [done|]. case_if; [done|]. unbool. intros [= <-].
  pose proof (len_nonneg d). split_and!; [done|lia|lia|]. apply u8_to_u8_small. lia.
Qed.

Lemma len_octets4 ip : len (octets4 ip) = 4.
Proof. apply len_be_bytes. Qed.
Lemma len_octets6 ip : len (octets6 ip) = 16.
Proof. apply len_be_bytes. Qed.
#[local] Hint Rewrite len_octets4 len_octets6 : len.

Ltac wire_lia := len_simpl; try reflexivity; lia.

Lemma lookup_len {A} (l k : list A) x i : i = Z.to_nat (len l) -> (l ++ x :: k) !! i = Some x.
Proof. intros ->. unfold len. rewrite Nat2Z.id. by apply list_lookup_middle. Qed.

(** Decoding out of a datagram. *)
Lemma parse_target_addr_seen a enc pre rest :
  wf_addr a -> encode_target_addr a = Ok enc ->
  parse_target_addr (pre ++ enc ++ rest) (len pre)
  = match seen a with
    | Some a' => Ok (a', len pre + len enc)
    | None => Err InvalidDomain
    end.
Proof.
  intros Hwf He. unfold parse_target_addr. pose proof (len_nonneg pre).
  destruct a as [[ip|ip]|d].
  - injection He as <-. simpl in Hwf. cbn [app]. rewrite lookup_len; [|done]. cbn [res_bind ok_or].
    rewrite (get_range_eq (pre ++ [x01]) (octets4 ip) rest); [|by rewrite <- app_assoc|wire_lia..].
    cbn [ok_or res_bind seen to_canonical]. rewrite octets4_inv by done. do 2 f_equal. wire_lia.
  - injection He as <-. simpl in Hwf. cbn [app]. rewrite lookup_len; [|done]. cbn [res_bind ok_or].
    rewrite (get_range_eq (pre ++ [x04]) (octets6 ip) rest); [|by rewrite <- app_assoc|wire_lia..].
    cbn [ok_or res_bind seen]. unfold socks_ipv6_address. rewrite octets6_inv by done.
    do 2 f_equal. wire_lia.
  - apply encode_target_addr_domain in He as (-> & Hd & Hu). cbn [app].
    rewrite lookup_len; [|done]. cbn [res_bind ok_or].
    replace (pre ++ x03 :: to_u8 (len d) :: d ++ rest)
      with ((pre ++ [x03]) ++ to_u8 (len d) :: d ++ rest) by by rewrite <- app_assoc.
    rewrite lookup_len; [|f_equal; wire_lia]. cbn [res_bind ok_or].
    rewrite Hu. guard_false by (apply Z.eqb_neq; lia).
    rewrite (get_range_eq (pre ++ [x03; to_u8 (len d)]) d rest);
      [|by rewrite <- !app_assoc|wire_lia..].
    cbn [ok_or res_bind seen]. destruct (socks_domain_address d); [|done]. simpl. do 2 f_equal.
    wire_lia.
Qed.

(** Reading from a stream. *)
Lemma read_address_seen a enc p :
  wf_addr a -> in_u16 p -> encode_target_addr a = Ok enc ->
  exists ty body, enc = ty :: body /\
    eats (read_socks5_address ty) (body ++ be_bytes 2 p)
      (Done (match seen a with Some a' => Ok (a', p) | None => Err ArInvalidDomain end)).
Proof.
  intros Hwf Hp He. destruct a as [[ip|ip]|d].
  - injection He as <-. exists x01, (octets4 ip). split; [done|]. simpl in Hwf.
    rewrite <- (app_nil_r (_ ++ _)). eapply eats_call; [by apply eats_err_ok, eats_recv|].
    rewrite (slice_eq [] (octets4 ip) (be_bytes 2 p)); [|done|done|wire_lia].
    rewrite (slice_eq (octets4 ip) (be_bytes 2 p) []); [|by rewrite app_nil_r|wire_lia..].
    cbn [call pbind]. rewrite octets4_inv, from_be_bytes_small by done. constructor.
  - injection He as <-. exists x04, (octets6 ip). split; [done|]. simpl in Hwf.
    rewrite <- (app_nil_r (_ ++ _)). eapply eats_call; [by apply eats_err_ok, eats_recv|].
    rewrite (slice_eq [] (octets6 ip) (be_bytes 2 p)); [|done|done|wire_lia].
    rewrite (slice_eq (octets6 ip) (be_bytes 2 p) []); [|by rewrite app_nil_r|wire_lia..].
    cbn [call pbind]. unfold socks_ipv6_address. rewrite octets6_inv, from_be_bytes_small by done.
    constructor.
  - apply encode_target_addr_domain in He as (-> & Hd & Hu).
    exists x03, (to_u8 (len d) :: d). split; [done|].
    change ((to_u8 (len d) :: d) ++ be_bytes 2 p) with ([to_u8 (len d)] ++ d ++ be_bytes 2 p).
    eapply eats_call; [by apply eats_err_ok, eats_recv_u8|]. cbv zeta. rewrite Hu.
    guard_false by (apply Z.eqb_neq; lia). rewrite <- (app_nil_r (d ++ _)).
    eapply eats_call; [apply eats_err_ok, eats_recv; wire_lia|].
    rewrite (slice_eq d (be_bytes 2 p) []); [|by rewrite app_nil_r|done|wire_lia].
    rewrite (slice_eq [] d (be_bytes 2 p)); [|done|done|wire_lia].
    cbn [call pbind seen]. rewrite from_be_bytes_small by done.
    destruct (socks_domain_address d); constructor.
Qed.

(** ** The parts of the dialogue *)

Lemma speaks_get {E A B} me (p : proc E A) x a (f : A -> proc E B) d p' :
  waits p [] -> eats p x (Done (Ok a)) -> speaks me (f a) d p' ->
  speaks me (call p f) ((negb me, x) :: d) p'.
Proof.
  intros Hw He Hf. apply (speaks_call me p [(negb me, x)] a); [|done].
  eapply speaks_recv; [done..|constructor].
Qed.

Lemma speaks_put {E A} me b (g : ErrorKind -> E) (f : unit -> proc E A) d p' :
  b <> [] -> speaks me (f tt) d p' -> speaks me (call (call_err g (send b)) f) ((me, b) :: d) p'.
Proof. intros Hb Hf. by apply speaks_send. Qed.

Lemma speaks_put_flushed {E A} me b (g : ErrorKind -> E) (f : unit -> proc E A) d p' :
  b <> [] -> speaks me (f tt) d p' ->
  speaks me (call (call_err g (write_flushed b)) f) ((me, b) :: d) p'.
Proof. intros Hb Hf. apply speaks_send; [done|]. by apply speaks_flush. Qed.

Definition auth_message (a : SocksAccount) : list byte :=
  [x01; to_u8 (len (acc_user a))] ++ acc_user a ++ [to_u8 (len (acc_pass a))] ++ acc_pass a.

Lemma auth_message_eq a :
  auth_message a
  = PASSWORD_AUTH_VERSION
    :: concat (map (fun value => to_u8 (len value) :: value) [acc_user a; acc_pass a]).
Proof. unfold auth_message. simpl. by rewrite app_nil_r. Qed.

(** The messages of the negotiation when the server accepts the method, and what it answers to
    the account. *)
Definition negotiation (account : option SocksAccount) (accepted : bool) : list (bool * list byte) :=
  match account with
  | None => [(true, [x05; x01; x00]); (false, [x05; x00])]
  | Some a =>
    [(true, [x05; x01; x02]); (false, [x05; x02]); (true, auth_message a);
     (false, [x01; if accepted then x00 else xff])]
  end.

Definition no_method (account : option SocksAccount) : list (bool * list byte) :=
  [(true, [x05; x01; match account with Some _ => x02 | None => x00 end]); (false, [x05; xff])].

Lemma client_negotiates account accepted :
  (account = None -> accepted = true) ->
  speaks true (negotiate account) (negotiation account accepted)
    (Done (if accepted then Ok tt else Err (AuthRejected xff))).
Proof.
  intros Ha. unfold negotiate, negotiation. destruct account as [a|].
  - apply speaks_put_flushed; [done|]. eapply speaks_get; [done|by apply eats_err_ok, eats_recv|].
    change (speaks true (authenticate a)
      [(true, auth_message a); (false, [x01; if accepted then x00 else xff])]
      (Done (if accepted then Ok tt else Err (AuthRejected xff)))).
    rewrite auth_message_eq. apply speaks_put_flushed; [done|].
    eapply speaks_get; [done|by apply eats_err_ok, eats_recv|].
    destruct accepted; apply speaks_nil.
  - rewrite Ha by done. apply speaks_put_flushed; [done|].
    eapply speaks_get; [done|by apply eats_err_ok, eats_recv|]. apply speaks_nil.
Qed.

Lemma client_refused account :
  speaks true (negotiate account) (no_method account) (Done (Err NoAcceptableMethod)).
Proof.
  unfold negotiate, no_method. apply speaks_put_flushed; [done|].
  eapply speaks_get; [done|by apply eats_err_ok, eats_recv|].
  destruct account; apply speaks_nil.
Qed.

Definition wf_account (a : SocksAccount) : Prop := len (acc_user a) <= 255 /\ len (acc_pass a) <= 255.

Lemma SocksAccount_new_wf u p a : SocksAccount_new u p = Some a -> wf_account a.
Proof.
  unfold SocksAccount_new, MAX_SOCKS_CREDENTIAL_LENGTH. case_if; [|done]. unbool.
  by intros [= <-].
Qed.

Section Laws.
Context `{ConstantTimeLaws}.

Lemma accounts_admit_spec accs u p :
  accounts_admit accs u p = bool_decide (mkSocksAccount u p ∈ accs).
Proof.
  assert (forall acc, fold_left (fun accepted a => accepted || acc_matches a u p) accs acc
                      = acc || bool_decide (mkSocksAccount u p ∈ accs)) as Hf; [|apply Hf].
  induction accs as [|a accs IH]; intros acc; simpl.
  { by rewrite orb_false_r. }
  rewrite IH, <- orb_assoc. f_equal.
  assert (acc_matches a u p = bool_decide (mkSocksAccount u p = a)) as ->.
  { apply eq_iff_eq_true. rewrite bool_decide_eq_true.
    unfold acc_matches. rewrite andb_true_iff, !verify_slices_law. destruct a; simpl.
    naive_solver. }
  apply eq_iff_eq_true. rewrite orb_true_iff, !bool_decide_eq_true.
  by rewrite elem_of_cons.
Qed.

Lemma eats_credential v l :
  len v <= 255 -> l = to_u8 (len v) :: v -> eats read_credential l (Done (Ok v)).
Proof.
  intros Hv ->. pose proof (len_nonneg v).
  change (to_u8 (len v) :: v) with ([to_u8 (len v)] ++ v).
  eapply eats_call; [apply eats_err_ok, eats_recv_u8|].
  apply eats_err_ok, eats_recv. rewrite u8_to_u8_small; lia.
Qed.

Lemma eats_greeting auth m :
  exists p, eats (negotiate_socks5 auth) [x05; x01; m] p /\
    p = if negb (bool_decide (auth_method auth ∈ [m])) then
          await? _ := io (send [x05; METHOD_NONE_ACCEPTABLE]) in
          Done (Err NoAcceptableMethods)
        else
          await? _ := io (send [x05; auth_method auth]) in
          match auth with
          | NoAuth => Done (Ok None)
          | Password accounts => await? user := verify_password accounts in Done (Ok (Some user))
          end.
Proof.
  eexists. split; [|reflexivity]. change [x05; x01; m] with ([x05; x01] ++ [m]).
  eapply eats_call; [by apply eats_err_ok, eats_recv|].
  rewrite <- (app_nil_r [m]) at 1. eapply (eats_call (io (recv 1))); [by apply eats_err_ok, eats_recv|].
  apply eats_nil.
Qed.

Lemma server_refuses auth account :
  match auth, account with NoAuth, None | Password _, Some _ => False | _, _ => True end ->
  speaks false (negotiate_socks5 auth) (no_method account) (Done (Err NoAcceptableMethods)).
Proof.
  intros Hm. edestruct eats_greeting as (p & He & Hp).
  eapply speaks_recv; [done|exact He|]. rewrite Hp. rewrite bool_decide_eq_false_2.
  - apply speaks_put; [done|]. apply speaks_nil.
  - destruct auth, account; simpl; try done; by intros [[=]|?%not_elem_of_nil]%elem_of_cons.
Qed.

Lemma server_no_auth : speaks false (negotiate_socks5 NoAuth) (negotiation None true) (Done (Ok None)).
Proof.
  destruct (eats_greeting NoAuth x00) as (p & He & Hp).
  eapply speaks_recv; [done|exact He|]. rewrite Hp. apply speaks_put; [done|]. apply speaks_nil.
Qed.

Lemma server_password accs a :
  wf_account a ->
  let accepted := bool_decide (a ∈ accs) in
  speaks false (negotiate_socks5 (Password accs)) (negotiation (Some a) accepted)
    (Done (if accepted then Ok (Some (InboundUser_new (acc_user a))) else Err AuthenticationFailed)).
Proof.
  intros [Hu Hp] accepted. destruct (eats_greeting (Password accs) x02) as (p & He & Heq).
  eapply speaks_recv; [done|exact He|]. rewrite Heq. apply speaks_put; [done|].
  eapply (speaks_recv false _ (auth_message a)); [done| |].
  - unfold auth_message. eapply eats_bind.
    change ([x01; to_u8 (len (acc_user a))] ++ ?r) with ([x01] ++ to_u8 (len (acc_user a)) :: r).
    rewrite app_comm_cons.
    eapply eats_call; [apply eats_err_ok, eats_recv_u8|].
    eapply eats_call; [by apply (eats_credential (acc_user a))|].
    rewrite <- (app_nil_r (_ ++ acc_pass a)).
    eapply eats_call; [by apply (eats_credential (acc_pass a))|]. apply eats_nil.
  - rewrite accounts_admit_spec. destruct a as [u pw]. subst accepted. cbn [acc_user acc_pass].
    destruct (bool_decide (mkSocksAccount u pw ∈ accs)); (apply speaks_send; [done|]); apply speaks_nil.
Qed.

(** *** The outcome of the negotiation *)

(** The user a server knows the client by, when it lets it in. *)
Definition admitted (auth : SocksInboundAuth) (account : option SocksAccount)
    : option (option InboundUser) :=
  match auth, account with
  | NoAuth, None => Some None
  | Password accs, Some a =>
    if bool_decide (a ∈ accs) then Some (Some (InboundUser_new (acc_user a))) else None
  | _, _ => None
  end.

Definition refusal (auth : SocksInboundAuth) (account : option SocksAccount) : SocksClientError :=
  match auth, account with
  | Password _, Some _ => AuthRejected PASSWORD_AUTH_FAILURE
  | _, _ => NoAcceptableMethod
  end.

Definition wf_opt_account (account : option SocksAccount) : Prop :=
  match account with Some a => wf_account a | None => True end.

Lemma negotiation_outcome auth account :
  wf_opt_account account ->
  exists d,
    match admitted auth account with
    | Some user =>
      speaks true (negotiate account) d (Done (Ok tt))
      /\ speaks false (negotiate_socks5 auth) d (Done (Ok user))
    | None =>
      speaks true (negotiate account) d (Done (Err (refusal auth account)))
      /\ exists e, speaks false (negotiate_socks5 auth) d (Done (Err e))
    end.
Proof.
  intros Hwf. destruct auth as [|accs], account as [a|]; simpl.
  - exists (no_method (Some a)). split; [apply client_refused|]. eexists. by apply server_refuses.
  - exists (negotiation None true). split; [by apply client_negotiates|apply server_no_auth].
  - pose proof (server_password accs a Hwf) as Hs. cbv zeta in Hs.
    exists (negotiation (Some a) (bool_decide (a ∈ accs))).
    pose proof (client_negotiates (Some a) (bool_decide (a ∈ accs))) as Hc.
    destruct (bool_decide (a ∈ accs)); split; [by apply Hc|done|by apply Hc|by eexists].
  - exists (no_method None). split; [apply client_refused|]. eexists. by apply server_refuses.
Qed.

(** *** The request *)

Definition client_gone {A} (r : res SocksClientError A) : bool := negb (is_ok r).
Definition server_gone (r : res unit Handed) : bool := negb (is_ok r).

Lemma eats_command c r :
  match c with x01 => r = Ok Connect | x03 => r = Ok UdpAssociate | _ => False end ->
  eats read_socks5_command [x05; c; x00] (Done r).
Proof.
  intros Hc. rewrite <- (app_nil_r [x05; c; x00]).
  eapply eats_call; [by apply eats_err_ok, eats_recv|]. destruct c; try done; subst; apply eats_nil.
Qed.

Lemma eats_target command a enc p :
  wf_addr a -> in_u16 p -> encode_target_addr a = Ok enc ->
  eats (read_socks5_target command) (enc ++ be_bytes 2 p)
    (Done (match seen a with
           | Some a' =>
             Ok (mkTarget a' p (match command with Connect => Tcp | UdpAssociate => Udp end))
           | None => Err InvalidDomain
           end)).
Proof.
  intros Hwf Hp He. destruct (read_address_seen a enc p Hwf Hp He) as (ty & body & -> & Ha).
  change ((ty :: body) ++ be_bytes 2 p) with ([ty] ++ body ++ be_bytes 2 p).
  eapply eats_call; [apply eats_err_ok, eats_recv_u8|].
  apply (eats_call_err from_address_error) in Ha. destruct (seen a).
  - rewrite <- (app_nil_r (_ ++ _)). eapply eats_call; [exact Ha|apply eats_nil].
  - by apply eats_call_fail.
Qed.

(** The two programs of a handshake that starts. *)
Definition connecting account t settings peer sniff_tcp opening bind :=
  mkDuplex (socks5_connect account t) (serve_socks5 settings peer sniff_tcp opening bind) [] [].

Definition failure_reply (code : byte) : list byte :=
  [x05; code; x00; x01; x00; x00; x00; x00; x00; x00].

Definition success_reply : list byte := failure_reply x00.

(** Whether the connection is served in the end, and what a client is told that is not yet
    granted. *)
Definition is_served (opening : Opening) : bool :=
  match opening with ToDns | ToBlackhole | Opened => true | _ => false end.

Definition closed_silently (opening : Opening) : bool :=
  match opening with ClosedWhileOpening => true | _ => false end.

(** How it ends: the client's result, the server's, and the bytes left for each. *)
Definition connect_outcome (account : option SocksAccount) (t : Target)
    (settings : SocksInboundSettings) (sniff_tcp : bool) (opening : Opening)
    : res SocksClientError unit * res unit Handed * list byte * list byte :=
  match admitted (s_auth settings) account with
  | None => (Err (refusal (s_auth settings) account), Err tt, [], [])
  | Some user =>
    match seen (addr t) with
    | None => (Err (ClientIo KindUnexpectedEof), Err tt, [], [])
    | Some a =>
      if is_served opening then (Ok tt, Ok (HandConnect true (mkTarget a (port t) Tcp) user), [], [])
      else if sniff_tcp then (Ok tt, Err tt, [], [])
      else if closed_silently opening then (Err (ClientIo KindUnexpectedEof), Err tt, [], [])
      else (Err (RequestRejected x01), Err tt, drop 3 (failure_reply x01), [])
    end
  end.

Lemma canonical_seen t a :
  wf_addr (addr t) -> canonical_target_addr t = Ok a -> wf_addr a /\ seen a = seen (addr t).
Proof.
  unfold canonical_target_addr. intros Hwf Ha. case_if_in Ha; [done|].
  destruct (addr t) as [ip|d] eqn:Hat.
  - injection Ha as <-. simpl. rewrite to_canonical_idem. split; [|done]. by apply to_canonical_wf.
  - case_if_in Ha; [|done]. by injection Ha as <-.
Qed.

Lemma encode_connect_request_inv t req :
  wf_target t -> encode_connect_request t = Ok req ->
  exists a enc, wf_addr a /\ seen a = seen (addr t) /\ encode_target_addr a = Ok enc
    /\ req = [x05; x01; x00] ++ enc ++ be_bytes 2 (port t).
Proof.
  intros [Hwf Hp] Hr. apply res_bind_ok_inv in Hr as (a & Ha & Hr).
  apply res_bind_ok_inv in Hr as (enc & He & Hr). exists a, enc.
  assert (encode_target_addr a = Ok enc) by (destruct (encode_target_addr a); simpl in He; congruence).
  injection Hr as <-. by destruct (canonical_seen t a Hwf Ha).
Qed.

(** The server up to the end of the request. *)
Lemma server_hands_connect settings peer user d a enc p :
  wf_addr a -> in_u16 p -> encode_target_addr a = Ok enc ->
  speaks false (negotiate_socks5 (s_auth settings)) d (Done (Ok user)) ->
  speaks false (handle_socks5 settings peer) (d ++ [(true, [x05; x01; x00] ++ enc ++ be_bytes 2 p)])
    (Done (match seen a with
           | Some a' => Ok (HandConnect true (mkTarget a' p Tcp) user)
           | None => Err tt
           end)).
Proof.
  intros Hwf Hp He Hn. eapply speaks_call; [by apply (speaks_map_err _ _ _ _ (Ok user))|].
  eapply speaks_recv; [done| |apply speaks_nil]. eapply eats_trans.
  { eapply eats_bind. by apply (eats_command x01). }
  pose proof (eats_target Connect a enc p Hwf Hp He) as Ht.
  apply (eats_call_err (fun _ => tt)) in Ht. destruct (seen a).
  - rewrite <- (app_nil_r (_ ++ _)). eapply (eats_call _ _ _ _ _ _ Ht). apply eats_nil.
  - apply (eats_call_fail _ _ _ _ Ht).
Qed.

Lemma client_asks account t req d :
  encode_connect_request t = Ok req -> speaks true (negotiate account) d (Done (Ok tt)) ->
  req <> [] ->
  speaks true (socks5_connect account t) (d ++ [(true, req)])
    (call read_reply (fun _ => Done (Ok tt))).
Proof.
  intros He Hd Hr. unfold socks5_connect. rewrite He. cbn [call pbind].
  eapply speaks_call; [exact Hd|]. apply speaks_put_flushed; [done|]. apply speaks_nil.
Qed.

(** Both ends of a failed negotiation. *)
Lemma refused_lockstep {A} account settings peer sniff_tcp opening bind (f : unit -> proc SocksClientError A) :
  wf_opt_account account -> admitted (s_auth settings) account = None ->
  rtc (lockstep client_gone server_gone)
    (mkDuplex (call (negotiate account) f) (serve_socks5 settings peer sniff_tcp opening bind) [] [])
    (mkDuplex (Done (Err (refusal (s_auth settings) account))) (Done (Err tt)) [] []).
Proof.
  intros Hwf Ha. destruct (negotiation_outcome (s_auth settings) account Hwf) as [d Hd].
  rewrite Ha in Hd. destruct Hd as (Hc & e & Hs). apply (dialogue_lockstep _ _ d).
  - by apply speaks_call_err.
  - apply speaks_call_err, speaks_call_err. by apply (speaks_map_err _ _ _ _ (Err e)).
Qed.

(** A refusal code ends the client, which leaves the rest of the reply unread. *)
Lemma rejected_lockstep {A} code (f : TargetAddr * Z -> proc SocksClientError A) z :
  code <> x00 ->
  rtc (lockstep client_gone server_gone)
    (mkDuplex (call read_reply f) (ignoring (write_socks5_error code)) [] z)
    (mkDuplex (Done (Err (RequestRejected code))) (Done (Err tt)) (drop 3 (failure_reply code)) z).
Proof.
  intros Hc. eapply rtc_l; [apply lock_r_write; by right|].
  eapply rtc_l; [by apply (lock_l_read _ _ 3 _ _ [x05; code; x00])|].
  destruct code; try done; apply rtc_refl.
Qed.

(** The client reads a reply that grants the request. *)
Lemma eats_reply_bind bind :
  wf_ip (sa_ip bind) -> in_u16 (sa_port bind) ->
  eats read_reply (bind_reply bind) (Done (Ok (Ip (to_canonical (sa_ip bind)), sa_port bind))).
Proof.
  intros Hip Hp. unfold bind_reply.
  eapply (eats_call (call_err ClientIo (recv 3))); [by apply eats_err_ok, eats_recv|].
  destruct (encode_target_addr (Ip (sa_ip bind))) as [enc|e|] eqn:He;
    [|by destruct (sa_ip bind)..].
  destruct (read_address_seen (Ip (sa_ip bind)) enc (sa_port bind) Hip Hp He) as (ty & body & -> & Ha).
  replace (match sa_ip bind with
           | V4 ip => x01 :: octets4 ip ++ be_bytes 2 (sa_port bind)
           | V6 ip => x04 :: octets6 ip ++ be_bytes 2 (sa_port bind)
           end) with ([ty] ++ body ++ be_bytes 2 (sa_port bind))
    by (destruct (sa_ip bind); by injection He as <- <-).
  eapply (eats_call (call_err ClientIo recv_u8)); [apply eats_err_ok, eats_recv_u8|].
  by apply (eats_call_err client_address_error) in Ha.
Qed.

(** The client reads the server's success reply from a server that goes on to [p']. *)
Lemma granted_lockstep (p' : res ErrorKind unit -> proc unit Handed) :
  rtc (lockstep client_gone server_gone)
    (mkDuplex (call read_reply (fun _ => Done (Ok tt))) (WriteAll success_reply p') [] [])
    (mkDuplex (Done (Ok tt)) (p' (Ok tt)) [] []).
Proof.
  eapply rtc_l; [apply lock_r_write; by right|].
  apply (lock_l_eats _ _ _ success_reply _ _ []).
  rewrite <- (app_nil_r success_reply). eapply eats_call; [|apply eats_nil].
  by apply (eats_reply_bind (mkSocketAddr (V4 0) 0)).
Qed.

(** The end of a connection that is granted before it is routed, and of one that is answered. *)
Lemma sniffed_lockstep opening t user :
  let h := HandConnect true t user in
  rtc (lockstep client_gone server_gone)
    (mkDuplex (call read_reply (fun _ => Done (Ok tt))) (reply_connect true opening h) [] [])
    (mkDuplex (Done (Ok tt)) (Done (if is_served opening then Ok h else Err tt)) [] []).
Proof. intros h. etrans; [apply granted_lockstep|]. destruct opening; apply rtc_refl. Qed.

Lemma replied_lockstep opening t user :
  let h := HandConnect true t user in
  let '(rc, rs, yl) :=
    if is_served opening then (Ok tt, Ok h, [])
    else if closed_silently opening then (Err (ClientIo KindUnexpectedEof), Err tt, [])
    else (Err (RequestRejected x01), Err tt, drop 3 (failure_reply x01)) in
  rtc (lockstep client_gone server_gone)
    (mkDuplex (call read_reply (fun _ => Done (Ok tt))) (reply_connect false opening h) [] [])
    (mkDuplex (Done rc) (Done rs) yl []).
Proof.
  intros h. destruct opening; cbn [is_served closed_silently]; try apply granted_lockstep; try by apply rejected_lockstep.
  eapply rtc_l; [by apply lock_l_end|]. apply rtc_refl.
Qed.

Lemma connect_lockstep account t settings peer sniff_tcp opening bind req :
  wf_opt_account account -> wf_target t -> encode_connect_request t = Ok req ->
  let '(rc, rs, yl, yr) := connect_outcome account t settings sniff_tcp opening in
  rtc (lockstep client_gone server_gone) (connecting account t settings peer sniff_tcp opening bind)
    (mkDuplex (Done rc) (Done rs) yl yr).
Proof.
  intros Hacc Ht Hreq. unfold connecting, connect_outcome.
  destruct (admitted (s_auth settings) account) as [user|] eqn:Ha.
  2:{ unfold socks5_connect. rewrite Hreq. by apply refused_lockstep. }
  destruct (negotiation_outcome (s_auth settings) account Hacc) as [d Hd].
  rewrite Ha in Hd. destruct Hd as [Hc Hs].
  destruct (encode_connect_request_inv t req Ht Hreq) as (a & enc & Hwa & Hseen & He & Hr).
  pose proof (server_hands_connect settings peer user d a enc (port t) Hwa (proj2 Ht) He Hs) as Hh.
  rewrite <- Hr in Hh. rewrite <- Hseen.
  assert (req <> []) as Hne by (by rewrite Hr).
  pose proof (client_asks account t req d Hreq Hc Hne) as Hask.
  destruct (seen a) as [a'|].
  - pose proof (speaks_call _ _ _ _ (answer sniff_tcp opening bind) [] _ Hh (speaks_nil _ _)) as Hserve.
    rewrite app_nil_r in Hserve. apply (dialogue_lockstep client_gone server_gone _ _ _ _ _ Hask) in Hserve.
    pose proof (sniffed_lockstep opening (mkTarget a' (port t) Tcp) user) as Hsniffed.
    pose proof (replied_lockstep opening (mkTarget a' (port t) Tcp) user) as Hreplied.
    destruct sniff_tcp, opening; cbn in Hsniffed, Hreplied |- *; (etrans; [apply Hserve|assumption]).
  - apply (speaks_call_err _ _ _ _ (answer sniff_tcp opening bind)) in Hh.
    cbv beta iota. etrans; [apply (dialogue_lockstep _ _ _ _ _ _ _ Hask Hh)|].
    eapply rtc_l; [by apply lock_l_end|]. apply rtc_refl.
Qed.

(** *** UDP association *)

Definition associating account endpoint server settings peer sniff_tcp opening bind :=
  mkDuplex (socks5_udp_associate account endpoint server) (serve_socks5 settings peer sniff_tcp opening bind)
    [] [].

Definition declared_target (endpoint : SocketAddr) : Target :=
  mkTarget (Ip (to_canonical (sa_ip endpoint))) (sa_port endpoint) Udp.

(** The lock of an association: none without passwords, and no association without a lock with
    them. *)
Definition associate_lock (auth : SocksInboundAuth) (declared : Target) (peer : option SocketAddr)
    : option (option SocksUdpClientLock) :=
  if requires_password auth then Some <$> for_request declared peer else Some None.

Definition relay_of (bind : SocketAddr) (server : IpAddr) : res SocksClientError SocketAddr :=
  if sa_port bind =? 0 then Err InvalidRelayAddress
  else
    let ip := to_canonical (sa_ip bind) in
    Ok (mkSocketAddr (to_canonical (if is_unspecified ip then server else ip)) (sa_port bind)).

Definition address_bytes (t : Target) : list byte :=
  match encode_target_addr (addr t) with Ok enc => enc | _ => [] end ++ be_bytes 2 (port t).

Definition associate_outcome (account : option SocksAccount) (endpoint : SocketAddr)
    (server : IpAddr) (settings : SocksInboundSettings) (peer bind : option SocketAddr)
    : res SocksClientError SocketAddr * res unit Handed * list byte * list byte :=
  let declared := declared_target endpoint in
  let rejected code rest :=
    (Err (RequestRejected code), Err tt, drop 3 (failure_reply code), rest) in
  match admitted (s_auth settings) account with
  | None => (Err (refusal (s_auth settings) account), Err tt, [], [])
  | Some user =>
    if negb (s_udp settings) then rejected x07 (address_bytes declared)
    else match associate_lock (s_auth settings) declared peer, bind with
         | Some lock, Some bind => (relay_of bind server, Ok (HandAssociate lock user), [], [])
         | _, _ => rejected x01 []
         end
  end.

Definition take_relay (server : IpAddr) (r : TargetAddr * Z) : proc SocksClientError SocketAddr :=
  let (bound, p) := r in
  await? ip := Done (match bound with
                     | Ip ip => Ok ip
                     | Domain domain => ok_or (parse_ip domain) InvalidRelayAddress
                     end) in
  if p =? 0 then Done (Err InvalidRelayAddress)
  else Done (Ok (mkSocketAddr (to_canonical (if is_unspecified ip then server else ip)) p)).

Lemma address_bytes_declared endpoint :
  exists enc, encode_target_addr (addr (declared_target endpoint)) = Ok enc
    /\ address_bytes (declared_target endpoint) = enc ++ be_bytes 2 (sa_port endpoint).
Proof. unfold address_bytes. simpl. destruct (to_canonical (sa_ip endpoint)); eauto. Qed.

(** The client up to its request, and up to its reply. *)
Lemma client_associates account endpoint server d :
  speaks true (negotiate account) d (Done (Ok tt)) ->
  speaks true (socks5_udp_associate account endpoint server) d
    (call (call_err ClientIo (write_flushed ([x05; x03; x00] ++ address_bytes (declared_target endpoint))))
       (fun _ => call read_reply (take_relay server))).
Proof.
  intros Hd. destruct (address_bytes_declared endpoint) as (enc & He & Hb). rewrite Hb.
  cbn [addr declared_target] in He. unfold socks5_udp_associate. rewrite He. rewrite <- (app_nil_r d).
  eapply (speaks_call true (negotiate account)); [exact Hd|]. apply speaks_nil.
Qed.

(** The server up to the end of the request. *)
Lemma server_hands_associate settings peer user endpoint :
  wf_ip (sa_ip endpoint) -> in_u16 (sa_port endpoint) -> s_udp settings = true ->
  forall d, speaks false (negotiate_socks5 (s_auth settings)) d (Done (Ok user)) ->
  speaks false (handle_socks5 settings peer)
    (d ++ [(true, [x05; x03; x00] ++ address_bytes (declared_target endpoint))])
    (match associate_lock (s_auth settings) (declared_target endpoint) peer with
     | Some lock => Done (Ok (HandAssociate lock user))
     | None => ignoring write_socks5_failure
     end).
Proof.
  intros Hip Hp Hu d Hn. eapply speaks_call; [by apply (speaks_map_err _ _ _ _ (Ok user))|].
  destruct (address_bytes_declared endpoint) as (enc & He & ->).
  eapply speaks_recv; [done| |apply speaks_nil]. eapply eats_trans.
  { eapply eats_bind. by apply (eats_command x03). }
  pose proof (eats_target UdpAssociate (addr (declared_target endpoint)) enc (sa_port endpoint)
    (to_canonical_wf _ Hip) Hp He) as Ht.
  apply (eats_call_err (fun _ => tt)) in Ht. cbn [pbind]. rewrite Hu. cbn [negb call pbind].
  rewrite <- (app_nil_r (_ ++ _)). eapply (eats_call _ _ _ _ _ _ Ht).
  unfold associate_lock, declared_target. simpl. rewrite to_canonical_idem.
  destruct (requires_password _); [|apply eats_nil]. destruct (for_request _ _); apply eats_nil.
Qed.

Lemma associate_lockstep account endpoint server settings peer sniff_tcp opening bind :
  wf_opt_account account -> wf_ip (sa_ip endpoint) -> in_u16 (sa_port endpoint) ->
  (forall b, bind = Some b -> wf_ip (sa_ip b) /\ in_u16 (sa_port b)) ->
  let '(rc, rs, yl, yr) := associate_outcome account endpoint server settings peer bind in
  rtc (lockstep client_gone server_gone)
    (associating account endpoint server settings peer sniff_tcp opening bind)
    (mkDuplex (Done rc) (Done rs) yl yr).
Proof.
  intros Hacc Hip Hp Hb. unfold associating, associate_outcome.
  destruct (admitted (s_auth settings) account) as [user|] eqn:Ha.
  2:{ destruct (address_bytes_declared endpoint) as (enc & He & _).
      cbn [addr declared_target] in He. unfold socks5_udp_associate. rewrite He.
      by apply refused_lockstep. }
  destruct (negotiation_outcome (s_auth settings) account Hacc) as [d Hd].
  rewrite Ha in Hd. destruct Hd as [Hc Hs].
  pose proof (client_associates account endpoint server d Hc) as Hcl.
  destruct (s_udp settings) eqn:Hu; cbn [negb].
  - pose proof (server_hands_associate settings peer user endpoint Hip Hp Hu d Hs) as Hh.
    assert (speaks true (socks5_udp_associate account endpoint server)
      (d ++ [(true, [x05; x03; x00] ++ address_bytes (declared_target endpoint))])
      (call read_reply (take_relay server))) as Hask.
    { eapply speaks_trans; [exact Hcl|]. apply speaks_put_flushed; [done|]. apply speaks_nil. }
    pose proof (speaks_bind _ _ _ _ (fun r =>
      match r with Ok h => answer sniff_tcp opening bind h | Err e => Done (Err e) | Panic => Done Panic end)
      Hh) as Hserve.
    apply (dialogue_lockstep client_gone server_gone _ _ _ _ _ Hask) in Hserve.
    destruct (associate_lock _ _ _) as [lock|].
    2:{ etrans; [exact Hserve|]. by apply rejected_lockstep. }
    destruct bind as [b|]; (etrans; [exact Hserve|]); [|by apply rejected_lockstep].
    eapply rtc_l; [apply lock_r_write; by right|]. destruct (Hb b eq_refl) as [Hbi Hbp].
    rewrite <- (app_nil_r ([] ++ _)). apply lock_l_eats. rewrite app_nil_l.
    rewrite <- (app_nil_r (bind_reply b)).
    eapply eats_call; [by apply eats_reply_bind|]. simpl. rewrite ?to_canonical_idem.
    unfold relay_of. destruct (sa_port b =? 0); apply eats_nil.
  - assert (speaks false (serve_socks5 settings peer sniff_tcp opening bind) d
      (call (handle_request settings peer user) (answer sniff_tcp opening bind))) as Hserve.
    { apply (speaks_map_err _ (fun _ => tt)) in Hs. rewrite <- (app_nil_r d).
      apply (speaks_bind _ _ _ _ (fun r => match r with
        Ok h => answer sniff_tcp opening bind h | Err e => Done (Err e) | Panic => Done Panic end)).
      eapply speaks_call; [exact Hs|apply speaks_nil]. }
    etrans; [apply (dialogue_lockstep _ _ _ _ _ _ _ Hcl Hserve)|].
    eapply rtc_l; [apply lock_l_write; by right|].
    eapply rtc_l; [apply lock_l_write; by left|]. rewrite app_nil_l, app_nil_r.
    eapply rtc_l; [by apply (lock_r_read _ _ 3 _ _ [x05; x03; x00])|].
    simpl. rewrite Hu. by apply rejected_lockstep.
Qed.

(** ** The server against any peer *)

Lemma post_io_recv n : 0 <= n -> post (io (recv n)) (fun x a => a = x /\ len x = n).
Proof. intros. by apply post_call_err, post_recv. Qed.

Lemma post_io_u8 : post (io recv_u8) (fun x b => x = [b]).
Proof. apply post_call_err, post_recv_u8. Qed.

Lemma post_io_send b : post (io (send b)) (fun x _ => x = []).
Proof. apply post_call_err, post_send. Qed.

Lemma post_ignoring b : post (ignoring (io (send b))) (fun _ _ => False).
Proof. eapply post_bind; [apply post_io_send| |]; intros; apply post_err. Qed.

Lemma post_credential : post read_credential (fun x v => x = to_u8 (len v) :: v).
Proof.
  eapply post_call; [apply post_io_u8|]. intros ? l ->. pose proof (u8_range l).
  eapply post_weaken; [|apply post_io_recv; lia]. intros x v [-> Hx]. simpl.
  by rewrite Hx, to_u8_u8.
Qed.

(** The bytes that log in as an account. *)
Definition logs_in (a : SocksAccount) (x : list byte) : Prop :=
  exists methods version,
    x = [x05; to_u8 (len methods)] ++ methods ++ [version]
        ++ (to_u8 (len (acc_user a)) :: acc_user a) ++ (to_u8 (len (acc_pass a)) :: acc_pass a)
    /\ METHOD_PASSWORD ∈ methods.

(** The user a server may give a connection that began with these bytes. *)
Definition login (auth : SocksInboundAuth) (x : list byte) (user : option InboundUser) : Prop :=
  match auth with
  | NoAuth => user = None
  | Password accs =>
    exists a, a ∈ accs /\ logs_in a x /\ user = Some (InboundUser_new (acc_user a))
  end.

Lemma post_password accs :
  post (verify_password accs) (fun x user =>
    exists a version, a ∈ accs /\ user = InboundUser_new (acc_user a)
      /\ x = [version] ++ (to_u8 (len (acc_user a)) :: acc_user a)
              ++ (to_u8 (len (acc_pass a)) :: acc_pass a)).
Proof.
  eapply post_call; [apply post_io_u8|]. intros ? v ->.
  eapply post_call; [apply post_credential|]. intros ? user ->.
  eapply post_call; [apply post_credential|]. intros ? pass ->. cbv zeta.
  eapply post_call; [apply post_io_send|]. intros ? _ ->. rewrite accounts_admit_spec.
  case_bool_decide as Hin; [|apply post_err]. apply post_ok.
  exists (mkSocksAccount user pass), v. by rewrite !app_nil_r.
Qed.

Lemma post_negotiate auth : post (negotiate_socks5 auth) (login auth).
Proof.
  eapply post_call; [by apply post_io_recv|]. intros head ? [-> Hh].
  destruct head as [|ver [|count [|? ?]]]; try (unfold len in Hh; simpl in Hh; lia).
  cbn [call pbind]. change (index [ver; count] 0) with (@Ok SocksParseError _ ver).
  change (index [ver; count] 1) with (@Ok SocksParseError _ count). cbv beta iota.
  case_bool_decide as Hv; [subst ver|apply post_err]. simpl negb. cbv iota.
  pose proof (u8_range count).
  eapply post_call; [apply post_io_recv; lia|]. intros methods ? [-> Hm].
  cbv zeta. case_bool_decide as Hin; simpl negb; cbv iota.
  - eapply post_call; [apply post_io_send|]. intros ? _ ->. destruct auth as [|accs].
    + by apply post_ok.
    + eapply post_call; [apply post_password|].
      intros ? ? (a & v & Ha & -> & ->). apply post_ok. exists a. split_and!; [done| |done].
      exists methods, v. split; [|done]. rewrite Hm, to_u8_u8. by rewrite !app_nil_r, !app_nil_l.
  - eapply post_call; [apply post_io_send|]. intros. apply post_err.
Qed.

Lemma post_command : post read_socks5_command (fun _ _ => True).
Proof.
  eapply post_call; [by apply post_io_recv|]. intros head ? [-> Hh].
  destruct head as [|v [|c [|r [|? ?]]]]; try (unfold len in Hh; simpl in Hh; lia).
  cbn [call pbind]. change (index [v; c; r] 1) with (@Ok SocksParseError _ c). cbv beta iota.
  case_bool_decide; [by apply post_ok|]. case_bool_decide; [by apply post_ok|apply post_err].
Qed.

Lemma post_slice {E A} (l : list byte) a b (f : list byte -> proc E A) Q :
  0 <= a <= b -> b <= len l -> (forall x, post (f x) Q) ->
  post (call (Done (slice l a b)) f) Q.
Proof.
  intros Hab Hb Hf. destruct (@slice E byte l a b) eqn:Hs; [apply Hf|apply post_err|].
  exfalso. revert Hs. apply slice_no_panic; lia.
Qed.

Lemma post_address ty : post (read_socks5_address ty) (fun _ _ => True).
Proof.
  unfold read_socks5_address.
  destruct ty; try apply post_err; (eapply post_call; [apply post_call_err|]).
  - by apply post_recv.
  - intros ? raw [-> Hr]. do 2 (apply post_slice; [lia|lia|intros]). by apply post_ok.
  - apply post_recv_u8.
  - intros ? l _. cbv zeta. pose proof (u8_range l). case_if; [apply post_err|]. unbool.
    eapply post_call; [apply post_call_err, post_recv; lia|]. intros ? raw [-> Hr].
    do 2 (apply post_slice; [lia|lia|intros]).
    destruct (socks_domain_address _); [by apply post_ok|apply post_err].
  - by apply post_recv.
  - intros ? raw [-> Hr]. do 2 (apply post_slice; [lia|lia|intros]). by apply post_ok.
Qed.

Lemma post_target c : post (read_socks5_target c) (fun _ _ => True).
Proof.
  eapply post_call; [apply post_io_u8|]. intros ? ty _.
  eapply post_call; [apply post_call_err, post_address|]. intros ? [a p] _. by apply post_ok.
Qed.

(** What a handler may hand on, of a client that logged in as [user]. *)
Definition handed_as (auth : SocksInboundAuth) (user : option InboundUser) (h : Handed) : Prop :=
  match h with
  | HandConnect reply _ u => reply = true /\ u = user
  | HandAssociate lock u => u = user /\ (requires_password auth = true -> lock <> None)
  | HandHttp => False
  end.

Lemma post_request settings peer user :
  post (handle_request settings peer user) (fun _ h => handed_as (s_auth settings) user h).
Proof.
  eapply (post_bind _ _ (fun _ _ => True)); [apply post_command| |].
  - intros _ c _. destruct c; cbn [call pbind].
    + eapply post_call; [apply post_call_err, post_target|]. intros _ t _. by apply post_ok.
    + destruct (s_udp settings); simpl negb; cbv iota; cbn [call pbind].
      * eapply post_call; [apply post_call_err, post_target|]. intros _ t _. cbv beta iota.
        case_if; [|by apply post_ok; split; [|congruence]].
        destruct (for_request t peer); [by apply post_ok|].
        eapply post_weaken; [|apply post_ignoring]. done.
      * eapply post_weaken; [|apply post_ignoring]. done.
  - intros e. destruct e; try apply post_err. apply post_ignoring.
Qed.

Lemma post_socks5 settings peer :
  post (handle_socks5 settings peer) (fun x h =>
    exists y z user, x = y ++ z /\ login (s_auth settings) y user
      /\ handed_as (s_auth settings) user h).
Proof.
  eapply post_call; [apply post_call_err, post_negotiate|]. intros y user Hl.
  eapply post_weaken; [|apply post_request]. intros z h Hh. by exists y, z, user.
Qed.

(** The same by what is handed on. *)
Lemma post_socks5_reply settings peer :
  post (handle_socks5 settings peer) (fun x h =>
    let logged user := exists y z, x = y ++ z /\ login (s_auth settings) y user in
    match h with
    | HandConnect reply _ user => reply = true /\ logged user
    | HandAssociate lock user =>
      logged user /\ (requires_password (s_auth settings) = true -> lock <> None)
    | HandHttp => False
    end).
Proof.
  eapply post_weaken; [|apply post_socks5]. intros x h (y & z & user & -> & Hl & Hh).
  destruct h; simpl in *; naive_solver.
Qed.

Lemma post_socks4_string fuel value :
  255 - len value < Z.of_nat fuel -> len value <= 255 ->
  post (socks4_string_loop fuel value) (fun _ _ => True).
Proof.
  revert value. induction fuel as [|fuel IH]; intros value Hf Hv; [lia|].
  eapply post_call; [apply post_io_u8|]. intros ? b _. case_bool_decide; [by apply post_ok|].
  unfold MAX_SOCKS4_STRING. case_if; [apply post_err|]. unbool.
  eapply post_weaken; [|apply IH]; [done|len_simpl; lia..].
Qed.

Lemma post_socks4_connect : post parse_socks4_connect (fun _ _ => True).
Proof.
  assert (post read_socks4_string (fun _ _ => True)) as Hs by (by apply post_socks4_string).
  eapply post_call; [apply post_io_u8|]. intros ? command _.
  eapply post_call; [by apply post_io_recv|]. intros ? p _.
  eapply post_call; [by apply post_io_recv|]. intros ip ? [-> Hip].
  eapply post_call; [apply Hs|]. intros ? _ _.
  destruct ip as [|first ip]; [done|].
  cbn [call pbind]. change (index (first :: ip) 0) with (@Ok SocksParseError _ first). cbv beta iota.
  eapply (post_call _ _ (fun _ _ => True)).
  - case_if; [|by apply post_ok]. eapply post_call; [apply Hs|]. intros ? domain _.
    destruct (from_utf8 domain) as [d|]; cbn [call pbind ok_or]; [|apply post_err].
    destruct (go_parse_address d) as [|[|]]; try apply post_err; by apply post_ok.
  - intros ? a _. case_if; [apply post_err|by apply post_ok].
Qed.

Lemma post_socks4 auth :
  post (handle_socks4 auth) (fun _ h =>
    requires_password auth = false /\ exists t, h = HandConnect false t None).
Proof.
  eapply post_call; [by apply post_call_err, post_recv|]. intros ? _ _.
  eapply (post_bind _ _ (fun _ _ => True)); [apply post_socks4_connect| |].
  - intros ? t _. case_if; unbool; [|eapply post_weaken; [|apply post_ignoring]; done].
    eapply post_call; [apply post_call_err, post_send|]. intros ? _ _. apply post_ok. eauto.
  - intros e. apply post_ignoring.
Qed.

(** ** Properties of the handshake *)

(** C24: A CONNECT handshake between this client and this server ends the same way under every
    interleaving of their reads and writes, after finitely many steps and with no side stuck.
    A client with no account on an open server, or with one of the server's accounts, gets
    through: the server hands on the target as its address parser reads it, under the account's
    name. A connection that is served, by a dialed outbound, the DNS outbound or the blackhole, is
    granted, and both sides stand at the first byte of the tunnel. Without sniffing a client is
    told when no outbound is selected or the dial fails or times out, and reads the end of the
    stream when the connection is closed while it is dialed; with sniffing it was granted before
    and only sees the connection close. Any other client is refused with the error that says why,
    and a domain the server cannot read ends in the end of the stream. *)
Theorem socks_connect_handshake account t settings peer sniff_tcp opening bind req :
  wf_opt_account account -> wf_target t -> encode_connect_request t = Ok req ->
  let '(rc, rs, yl, yr) := connect_outcome account t settings sniff_tcp opening in
  inevitable client_gone server_gone (connecting account t settings peer sniff_tcp opening bind)
    (mkDuplex (Done rc) (Done rs) yl yr).
Proof.
  intros Ha Ht Hr. pose proof (connect_lockstep account t settings peer sniff_tcp opening bind req Ha Ht Hr) as H1.
  destruct (connect_outcome account t settings sniff_tcp opening) as [[[rc rs] yl] yr].
  by apply lockstep_inevitable; [apply both_done_nf|].
Qed.

(** A UDP ASSOCIATE handshake ends the same way under every interleaving: an admitted client
    gets the relay address the server bound, with the server's own address for an unspecified
    one, and a server with passwords pins the association to the endpoint the client declared;
    it refuses the association when it has nothing to pin it to, when UDP is off or when no relay
    socket could be bound. *)
Theorem socks_associate_handshake account endpoint server settings peer sniff_tcp opening bind :
  wf_opt_account account -> wf_ip (sa_ip endpoint) -> in_u16 (sa_port endpoint) ->
  (forall b, bind = Some b -> wf_ip (sa_ip b) /\ in_u16 (sa_port b)) ->
  let '(rc, rs, yl, yr) := associate_outcome account endpoint server settings peer bind in
  inevitable client_gone server_gone
    (associating account endpoint server settings peer sniff_tcp opening bind)
    (mkDuplex (Done rc) (Done rs) yl yr).
Proof.
  intros Ha Hip Hp Hb.
  pose proof (associate_lockstep account endpoint server settings peer sniff_tcp opening bind Ha Hip Hp Hb) as H1.
  destruct (associate_outcome account endpoint server settings peer bind) as [[[rc rs] yl] yr].
  by apply lockstep_inevitable; [apply both_done_nf|].
Qed.

(** C23: Whatever a peer sends, in whatever pieces reads and writes fail, the SOCKS inbound does
    not panic, and when it has accounts it hands on a SOCKS connection only after the peer sent
    the name and the password of one of them, under that name; an association is then pinned to
    a client endpoint, and SOCKS 4, which has no passwords, is refused. *)
Theorem socks_password_required settings peer first e :
  match outcome (handle_socks_connection settings peer first) e with
  | Ok h =>
    match h with
    | HandHttp => first <> x05 /\ first <> SOCKS4_VERSION
    | HandConnect false _ user => s_auth settings = NoAuth /\ user = None
    | HandConnect true _ user =>
      exists x rest, env_in e = x ++ rest /\ login (s_auth settings) x user
    | HandAssociate lock user =>
      (exists x rest, env_in e = x ++ rest /\ login (s_auth settings) x user)
      /\ (requires_password (s_auth settings) = true -> lock <> None)
    end
  | Err _ => True
  | Panic => False
  end.
Proof.
  unfold outcome, handle_socks_connection. case_bool_decide as H5; [|case_bool_decide as H4].
  - pose proof (post_socks5_reply settings peer e []) as Hp.
    destruct (run _ e []) as [[[h| |] e'] out']; [|done..]. simpl.
    destruct Hp as (x & Hx & Hh). destruct h as [reply t u|lock u|].
    + destruct Hh as (-> & y & z & -> & Hl). exists y, (z ++ env_in e'). by rewrite Hx, app_assoc.
    + destruct Hh as [(y & z & -> & Hl) Hlock]. split; [|done]. exists y, (z ++ env_in e').
      by rewrite Hx, app_assoc.
    + done.
  - pose proof (post_socks4 (s_auth settings) e []) as Hp.
    destruct (run _ e []) as [[[h| |] e'] out']; [|done..]. simpl.
    destruct Hp as (_ & _ & Hr & t & ->). by destruct (s_auth settings).
  - done.
Qed.
End Laws.

(** ** Datagrams *)

Lemma index_eq {E A} (x k l : list A) (y : A) i :
  l = x ++ y :: k -> len x = i -> @index E A l i = Ok y.
Proof. intros ->. apply index_app_len. Qed.

Lemma parse_encoded a enc p payload :
  wf_addr a -> in_u16 p -> encode_target_addr a = Ok enc ->
  parse_socks5_udp_datagram ([x00; x00; x00] ++ enc ++ be_bytes 2 p ++ payload)
  = match seen a with
    | Some a' => Ok (mkSocksUdpDatagram (mkTarget a' p Udp) payload)
    | None => Err InvalidDomain
    end.
Proof.
  intros Hwf Hp He. unfold parse_socks5_udp_datagram.
  pose proof (parse_target_addr_seen a enc [x00; x00; x00] (be_bytes 2 p ++ payload) Hwf He) as Hpt.
  change (len [x00; x00; x00]) with 3 in Hpt. pose proof (len_nonneg payload).
  assert (0 < len enc).
  { destruct a as [[]|d]; [injection He as <-..|apply encode_target_addr_domain in He as (-> & ? & ?)];
      wire_lia. }
  guard_false by (apply Z.ltb_ge; wire_lia).
  change (index ([x00; x00; x00] ++ enc ++ be_bytes 2 p ++ payload) 2) with (@Ok SocksParseError _ x00).
  cbn [res_bind]. change (negb (bool_decide (x00 = x00))) with false. cbv iota. rewrite Hpt.
  destruct (seen a) as [a'|]; [|done]. cbn [res_bind].
  guard_false by (apply Z.ltb_ge; wire_lia).
  destruct (be_bytes 2 p) as [|hi [|lo [|? ?]]] eqn:Hb; try (apply (f_equal length) in Hb;
    rewrite length_be_bytes in Hb; discriminate Hb).
  rewrite (index_eq ([x00; x00; x00] ++ enc) (lo :: payload) _ hi); [|by rewrite <- app_assoc|wire_lia].
  rewrite (index_eq ([x00; x00; x00] ++ enc ++ [hi]) payload _ lo);
    [|by rewrite <- !app_assoc|wire_lia].
  rewrite (slice_from_eq ([x00; x00; x00] ++ enc ++ [hi; lo]) payload);
    [|by rewrite <- !app_assoc|wire_lia].
  cbn [res_bind]. rewrite <- Hb, from_be_bytes_small by done. done.
Qed.

Lemma parse_target_addr_ok raw offset :
  0 <= offset ->
  match parse_target_addr raw offset with
  | Ok (_, fin) => offset <= fin
  | Err _ => True
  | Panic => False
  end.
Proof.
  intros Ho. unfold parse_target_addr. destruct (raw !! Z.to_nat offset) as [ty|]; [|done].
  simpl. destruct ty; try done.
  - destruct (get_range _ _ _) eqn:Hg; [|done]. simpl. lia.
  - destruct (raw !! Z.to_nat (offset + 1)) as [l|]; [|done]. simpl. pose proof (u8_range l).
    case_if; [done|]. destruct (get_range _ _ _); [|done]. simpl.
    destruct (socks_domain_address _); [|done]. simpl. lia.
  - destruct (get_range _ _ _) eqn:Hg; [|done]. simpl. lia.
Qed.

Lemma parse_no_panic raw : parse_socks5_udp_datagram raw <> Panic.
Proof.
  unfold parse_socks5_udp_datagram. case_if; [done|]. unbool.
  apply res_bind_no_panic; [apply index_no_panic; lia|]. intros frag _. case_if; [done|].
  pose proof (parse_target_addr_ok raw 3 ltac:(lia)) as Hp.
  destruct (parse_target_addr raw 3) as [[a fin]| |]; [|done..]. cbn [res_bind].
  case_if; [done|]. unbool.
  apply res_bind_no_panic; [apply index_no_panic; lia|]. intros hi _.
  apply res_bind_no_panic; [apply index_no_panic; lia|]. intros lo _.
  apply res_bind_no_panic; [apply slice_from_no_panic; lia|done].
Qed.

(** A datagram the client builds for a target stays within the limit and reaches the server as
    that target, the way its address parser reads it, with the payload; a datagram the server
    builds reaches the client in the same way when it comes from the relay and is dropped as
    foreign when it does not; and no datagram makes either side panic. *)
Theorem socks_udp_exchange t payload relay source raw :
  wf_target t ->
  let read := match seen (addr t) with
              | Some a => Ok (mkSocksUdpDatagram (mkTarget a (port t) Udp) payload)
              | None => Err InvalidDomain
              end in
  let from_relay := mkSocketAddr (to_canonical (sa_ip source)) (sa_port source) = relay in
  (forall dg, encode_socks5_udp_request t payload = Ok dg ->
     len dg <= MAX_SOCKS_UDP_DATAGRAM_LENGTH /\ parse_socks5_udp_datagram dg = read)
  /\ (forall dg, encode_socks5_udp_datagram t payload = Ok dg -> from_relay ->
      decode_socks5_udp_reply relay source dg = res_map_err (fun _ => Malformed) read)
  /\ (~ from_relay -> decode_socks5_udp_reply relay source raw = Err ForeignSource)
  /\ parse_socks5_udp_datagram raw <> Panic /\ decode_socks5_udp_reply relay source raw <> Panic.
Proof.
  intros [Hwf Hp] read from_relay. split_and!.
  - intros dg Hd. apply res_bind_ok_inv in Hd as (a & Ha & Hd).
    apply res_bind_ok_inv in Hd as (enc & He & Hd). cbv zeta in Hd.
    case_if_in Hd; [done|]. unbool.
    apply Ok_inj in Hd as <-. split; [by rewrite len_app|].
    destruct (canonical_seen t a Hwf Ha) as [Hwa Hseen]. subst read. rewrite <- Hseen.
    rewrite <- !app_assoc. apply parse_encoded; [done|done|].
    destruct (encode_target_addr a); simpl in He; congruence.
  - intros dg Hd Hrel. unfold decode_socks5_udp_reply.
    rewrite bool_decide_eq_true_2 by done. simpl negb. cbv iota.
    unfold encode_socks5_udp_datagram in Hd. destruct (network t); [done|].
    apply res_bind_ok_inv in Hd as (enc & He & Hd). apply Ok_inj in Hd as <-.
    rewrite (parse_encoded (addr t) enc) by done. subst read. by destruct (seen (addr t)).
  - intros Hrel. unfold decode_socks5_udp_reply. by rewrite bool_decide_eq_false_2.
  - apply parse_no_panic.
  - unfold decode_socks5_udp_reply. case_if; [done|]. pose proof (parse_no_panic raw).
    by destruct (parse_socks5_udp_datagram raw).
Qed.

(** ** Samples and witnesses *)

#[export] Instance plain_compare : ConstantTime := { verify_slices_are_equal a b := bool_decide (a = b) }.
#[export] Instance plain_compare_laws : ConstantTimeLaws.
Proof. constructor. intros a b. apply bool_decide_eq_true. Qed.

Example seen_samples :
  map seen [Domain (str_of "example.com"); Domain (str_of "10.0.0.1"); Domain (str_of "[::1]");
            Domain (str_of "a b"); Domain (str_of "::ffff:1.2.3.4"); Domain (str_of "[::ffff:1.2.3.4]");
            Ip (V6 (ipv6 0 0 0 0 0 0xffff 0x102 0x304))]
  = [Some (Domain (str_of "example.com")); Some (Ip (V4 (ipv4 10 0 0 1))); Some (Ip (V6 1)); None;
     None; Some (Ip (V4 (ipv4 1 2 3 4))); Some (Ip (V4 (ipv4 1 2 3 4)))].
Proof. vm_compute. reflexivity. Qed.

Definition sample_account : SocksAccount := mkSocksAccount (str_of "bob") (str_of "secret").
Definition sample_target : Target := mkTarget (Domain (str_of "example.com")) 443 Tcp.
Definition sample_settings : SocksInboundSettings :=
  mkSocksInboundSettings (Password [mkSocksAccount (str_of "al") []; sample_account]) true.
Definition sample_endpoint : SocketAddr := mkSocketAddr (V4 (ipv4 127 0 0 1)) 40000.

Lemma socks_connect_handshake_witness :
  inevitable client_gone server_gone
    (connecting (Some sample_account) sample_target sample_settings None false Opened None)
    (mkDuplex (Done (Ok tt))
       (Done (Ok (HandConnect true sample_target (Some (str_of "bob"))))) [] []).
Proof.
  refine (socks_connect_handshake (Some sample_account) sample_target sample_settings None false Opened None
    ([x05; x01; x00; x03; x0b] ++ str_of "example.com" ++ [x01; xbb]) _ _ _).
  - by_decision.
  - by_decision.
  - vm_compute. reflexivity.
Defined.

Lemma socks_associate_handshake_witness :
  inevitable client_gone server_gone
    (associating (Some sample_account) sample_endpoint (V4 (ipv4 10 0 0 9)) sample_settings None false Opened
       (Some (mkSocketAddr (V6 0) 5000)))
    (mkDuplex (Done (Ok (mkSocketAddr (V4 (ipv4 10 0 0 9)) 5000)))
       (Done (Ok (HandAssociate (Some (mkSocksUdpClientLock sample_endpoint)) (Some (str_of "bob")))))
       [] []).
Proof.
  refine (socks_associate_handshake (Some sample_account) sample_endpoint (V4 (ipv4 10 0 0 9))
    sample_settings None false Opened (Some (mkSocketAddr (V6 0) 5000)) _ _ _ _).
  - by_decision.
  - by_decision.
  - by_decision.
  - intros b [= <-]. split; by_decision.
Defined.

Lemma socks_password_required_witness :
  outcome (handle_socks_connection sample_settings None x05)
    (mkEnv ([x05; x01; x02; x01; x02] ++ str_of "al" ++ [x00; x05; x01; x00; x01; x7f; x00; x00; x01; x00; x50])
       KindUnexpectedEof [])
  = Ok (HandConnect true (mkTarget (Ip (V4 (ipv4 127 0 0 1))) 80 Tcp) (Some (str_of "al")))
  /\ exists x rest,
      [x05; x01; x02; x01; x02] ++ str_of "al" ++ [x00; x05; x01; x00; x01; x7f; x00; x00; x01; x00; x50]
      = x ++ rest
      /\ login (s_auth sample_settings) x (Some (str_of "al")).
Proof.
  split; [vm_compute; reflexivity|].
  exact (socks_password_required sample_settings None x05
    (mkEnv ([x05; x01; x02; x01; x02] ++ str_of "al" ++ [x00; x05; x01; x00; x01; x7f; x00; x00; x01; x00; x50])
       KindUnexpectedEof [])).
Defined.

Lemma socks_udp_exchange_witness :
  wf_target sample_target
  /\ parse_socks5_udp_datagram
      ([x00; x00; x00; x03; x0b] ++ str_of "example.com" ++ [x01; xbb] ++ str_of "hi")
    = Ok (mkSocksUdpDatagram (mkTarget (Domain (str_of "example.com")) 443 Udp) (str_of "hi")).
Proof.
  assert (wf_target sample_target) as Hwf by by_decision. split; [exact Hwf|].
  destruct (socks_udp_exchange sample_target (str_of "hi") sample_endpoint sample_endpoint [] Hwf)
    as [Hreq _].
  apply (proj2 (Hreq ([x00; x00; x00; x03; x0b] ++ str_of "example.com" ++ [x01; xbb] ++ str_of "hi")
                  ltac:(vm_compute; reflexivity))).
Defined.
