(* ===== verification/Vless.v ===== *)
(** The VLESS client wire format: [crates/xray-proxy/src/vless/wire.rs]
    (request headers) and [vless/udp.rs] (length-prefixed UDP packets and XUDP
    frames). [prost]'s encoding of the addons message is a parameter. *)
From Stdlib Require Import Strings.Byte.
From S2P Require Import Prelude Net.

Definition VLESS_VERSION : byte := x00.
Definition ADDR_IPV4 : byte := x01.
Definition ADDR_DOMAIN : byte := x02.
Definition ADDR_IPV6 : byte := x03.
Definition VISION_FLOW : str := str_of "xtls-rprx-vision".
Definition VISION_UDP443_FLOW : str := str_of "xtls-rprx-vision-udp443".

Inductive VlessCommand := CmdTcp | CmdUdp | CmdMux | CmdReverse.

(** [command as u8] *)
Definition command_byte (c : VlessCommand) : byte :=
  match c with CmdTcp => x01 | CmdUdp => x02 | CmdMux => x03 | CmdReverse => x04 end.

(** A UUID is its sixteen bytes. *)
Record VlessRequest := mkVlessRequest {
  user_id : list byte;
  command : VlessCommand;
  req_target : Target;
  flow : option str
}.

Inductive WireError :=
| DomainTooLong (n : Z)
| AddonsTooLong (n : Z)
| PacketTooLong (n : Z).

Definition is_vision_flow (flow : option str) : bool :=
  bool_decide (flow = Some VISION_FLOW) || bool_decide (flow = Some VISION_UDP443_FLOW).

(** [u8::try_from(n).map_err(..)] and [u16::try_from(n).map_err(..)] on a
    length. *)
Definition u8_try_from {E} (n : Z) (e : E) : res E byte :=
  if n <=? 255 then Ok (to_u8 n) else Err e.
Definition u16_try_from {E} (n : Z) (e : E) : res E Z :=
  if n <=? 65535 then Ok n else Err e.

Definition encode_addr (a : TargetAddr) : res WireError (list byte) :=
  match a with
  | Ip (V4 ip) => Ok (ADDR_IPV4 :: octets4 ip)
  | Ip (V6 ip) => Ok (ADDR_IPV6 :: octets6 ip)
  | Domain domain =>
    let? n := u8_try_from (len domain) (DomainTooLong (len domain)) in
    Ok (ADDR_DOMAIN :: n :: domain)
  end.

Section Header.
(** [Addons { flow }.encode_to_vec()]. *)
Variable encode_to_vec : str -> list byte.

Definition encode_addons (request : VlessRequest) : res WireError (list byte) :=
  if negb (is_vision_flow (flow request)) then Ok [x00]
  else
    let addons_bytes := encode_to_vec VISION_FLOW in
    let? addons_len := u8_try_from (len addons_bytes) (AddonsTooLong (len addons_bytes)) in
    Ok (addons_len :: addons_bytes).

Definition encode_request_header (request : VlessRequest) : res WireError (list byte) :=
  let? addons := encode_addons request in
  let encoded := VLESS_VERSION :: user_id request ++ addons ++ [command_byte (command request)] in
  match command request with
  | CmdTcp | CmdUdp =>
    let? a := encode_addr (addr (req_target request)) in
    Ok (encoded ++ be_bytes 2 (port (req_target request)) ++ a)
  | CmdMux | CmdReverse => Ok encoded
  end.
End Header.

(** ** UDP packets *)

Definition encode_udp_packet (payload : list byte) : res WireError (list byte) :=
  let? n := u16_try_from (len payload) (PacketTooLong (len payload)) in
  Ok (be_bytes 2 n ++ payload).

Definition read_udp_packet (reader : list byte) : res IoError (list byte * list byte) :=
  let? (n, reader) := read_u16 reader in
  read_exact n reader.

(** ** XUDP frames *)

Definition XUDP_CMD_NEW : byte := x01.
Definition XUDP_CMD_KEEP : byte := x02.
Definition XUDP_CMD_DISCARD : byte := x04.
Definition XUDP_OPT_DATA : byte := x01.
Definition XUDP_NETWORK_UDP : byte := x02.

Record XudpPacket := mkXudpPacket { source : option Target; xudp_payload : list byte }.

Definition encode_addr_port (t : Target) : res WireError (list byte) :=
  let port_bytes := be_bytes 2 (port t) in
  match addr t with
  | Ip (V4 ip) => Ok (port_bytes ++ ADDR_IPV4 :: octets4 ip)
  | Ip (V6 ip) => Ok (port_bytes ++ ADDR_IPV6 :: octets6 ip)
  | Domain domain =>
    let? n := u8_try_from (len domain) (DomainTooLong (len domain)) in
    Ok (port_bytes ++ ADDR_DOMAIN :: n :: domain)
  end.

Definition encode_xudp_frame (metadata payload : list byte) : res WireError (list byte) :=
  let? metadata_len := u16_try_from (len metadata) (PacketTooLong (len metadata)) in
  let? payload_len := u16_try_from (len payload) (PacketTooLong (len payload)) in
  Ok (be_bytes 2 metadata_len ++ metadata ++ be_bytes 2 payload_len ++ payload).

Definition encode_xudp_new_packet (t : Target) (payload global_id : list byte)
    : res WireError (list byte) :=
  let? a := encode_addr_port t in
  encode_xudp_frame
    ([x00; x00] ++ [XUDP_CMD_NEW; XUDP_OPT_DATA; XUDP_NETWORK_UDP] ++ a ++ global_id) payload.

Definition encode_xudp_keep_packet (source : option Target) (payload : list byte)
    : res WireError (list byte) :=
  let metadata := [x00; x00] ++ [XUDP_CMD_KEEP; XUDP_OPT_DATA] in
  let? metadata :=
    match source with
    | Some source =>
      let? a := encode_addr_port source in Ok (metadata ++ XUDP_NETWORK_UDP :: a)
    | None => Ok metadata
    end in
  encode_xudp_frame metadata payload.

Definition decode_addr_port (input : list byte) : res IoError Target :=
  if len input <? 3 then Err InvalidData
  else
    let? b0 := index input 0 in
    let? b1 := index input 1 in
    let? kind := index input 2 in
    let port := from_be [b0; b1] in
    let? a :=
      (if bool_decide (kind = ADDR_IPV4) then
         if len input <? 7 then Err InvalidData
         else
           let? o0 := index input 3 in
           let? o1 := index input 4 in
           let? o2 := index input 5 in
           let? o3 := index input 6 in
           Ok (Ip (V4 (from_be [o0; o1; o2; o3])))
       else if bool_decide (kind = ADDR_IPV6) then
         if len input <? 19 then Err InvalidData
         else
           let? octets := slice input 3 19 in
           if len octets =? 16 then Ok (Ip (V6 (from_be octets))) else Err InvalidData
       else if bool_decide (kind = ADDR_DOMAIN) then
         if len input <? 4 then Err InvalidData
         else
           let? n := index input 3 in
           let n := u8 n in
           if len input <? 4 + n then Err InvalidData
           else
             let? raw := slice input 4 (4 + n) in
             let? domain := ok_or (from_utf8 raw) InvalidData in
             Ok (Domain domain)
       else Err InvalidData) in
    Ok (mkTarget a port Udp).

(** One turn of the loop of [read_xudp_packet]: [None] is [continue]. *)
Definition read_xudp_frame (reader : list byte) : res IoError (option XudpPacket * list byte) :=
  let? (metadata_len, reader) := read_u16 reader in
  if metadata_len <? 4 then Err InvalidData
  else
    let? (metadata, reader) := read_exact metadata_len reader in
    let? command := index metadata 2 in
    let discard := bool_decide (command = XUDP_CMD_DISCARD) in
    if negb (bool_decide (command = XUDP_CMD_NEW) || bool_decide (command = XUDP_CMD_KEEP)
             || discard)
    then Err InvalidData
    else
      let? source :=
        (if 4 <? len metadata then
           let? network := index metadata 4 in
           if bool_decide (network = XUDP_NETWORK_UDP) then
             let? raw := slice_from metadata 5 in
             let? t := decode_addr_port raw in
             Ok (Some t)
           else Ok None
         else Ok None) in
      let? option := index metadata 3 in
      if negb (bool_decide (option = XUDP_OPT_DATA)) then Ok (None, reader)
      else
        let? (payload, reader) := read_udp_packet reader in
        if bool_decide (payload = []) || discard then Ok (None, reader)
        else Ok (Some (mkXudpPacket source payload), reader).

(** Every turn consumes at least the two length bytes, so the stream's length
    bounds the number of turns. *)
Fixpoint read_xudp_loop (fuel : nat) (reader : list byte)
    : option (res IoError (XudpPacket * list byte)) :=
  match fuel with
  | O => None
  | S fuel =>
    match read_xudp_frame reader with
    | Ok (Some packet, reader) => Some (Ok (packet, reader))
    | Ok (None, reader) => read_xudp_loop fuel reader
    | Err e => Some (Err e)
    | Panic => Some Panic
    end
  end.

Definition read_xudp_packet (reader : list byte) : option (res IoError (XudpPacket * list byte)) :=
  read_xudp_loop (S (length reader)) reader.

(** ** Decoding inverts encoding *)

Lemma u8_try_from_ok {E} n (e : E) b : u8_try_from n e = Ok b -> n <= 255 /\ b = to_u8 n.
Proof. unfold u8_try_from. case_if; [|done]. unbool. naive_solver. Qed.

Lemma u16_try_from_ok {E} n (e : E) b : u16_try_from n e = Ok b -> n <= 65535 /\ b = n.
Proof. unfold u16_try_from. case_if; [|done]. unbool. naive_solver. Qed.

Lemma u16_try_from_intro {E} n (e : E) : n <= 65535 -> u16_try_from n e = Ok n.
Proof. unfold u16_try_from. intros. by guard_true by lia. Qed.

Lemma from_be_port p : in_u16 p -> from_be [to_u8 (p / 256); to_u8 p] = p.
Proof.
  intros Hp. transitivity (from_be (be_bytes 2 p)); [|by apply from_be_bytes_small].
  simpl. by rewrite Z.div_1_r.
Qed.

Lemma be_bytes_2 p : be_bytes 2 p = [to_u8 (p / 256); to_u8 p].
Proof. simpl. by rewrite Z.div_1_r. Qed.

Lemma octets4_cons ip :
  exists a b c d, octets4 ip = [a; b; c; d].
Proof. unfold octets4. simpl. eauto. Qed.

Lemma u8_small n : 0 <= n <= 255 -> u8 (to_u8 n) = n.
Proof. intros. apply u8_to_u8_small. lia. Qed.

Lemma decode_encode_addr_port t a rest :
  wf_target t -> encode_addr_port t = Ok a ->
  decode_addr_port (a ++ rest) = Ok (mkTarget (addr t) (port t) Udp).
Proof.
  intros [Ha Hp] He. unfold encode_addr_port in He. pose proof (len_nonneg rest).
  rewrite be_bytes_2 in He. unfold decode_addr_port.
  destruct (addr t) as [[ip|ip]|domain]; simpl in Ha.
  - simplify_eq. destruct (octets4_cons ip) as (o0 & o1 & o2 & o3 & Ho).
    rewrite Ho. cbn [app]. guard_false by (len_simpl; lia). index_simpl.
    rewrite bool_decide_true by done. guard_false by (len_simpl; lia). index_simpl.
    by rewrite from_be_port, <- Ho, octets4_inv.
  - simplify_eq. guard_false by (unfold octets6; len_simpl; lia). cbn [app]. index_simpl.
    rewrite bool_decide_false, bool_decide_true by done.
    guard_false by (unfold octets6; len_simpl; lia).
    erewrite (slice_eq [_; _; ADDR_IPV6] (octets6 ip) rest) by done.
    cbn [res_bind]. guard_true by (unfold octets6; by len_simpl). cbn [res_bind].
    by rewrite octets6_inv, from_be_port.
  - apply res_bind_ok_inv in He as (n & Hn & He). simplify_eq.
    apply u8_try_from_ok in Hn as [Hn ->]. pose proof (len_nonneg domain).
    guard_false by (len_simpl; lia). cbn [app]. index_simpl.
    rewrite !bool_decide_false, bool_decide_true by done.
    guard_false by (len_simpl; lia). index_simpl. rewrite u8_small by lia.
    guard_false by (len_simpl; lia).
    erewrite (slice_eq [_; _; ADDR_DOMAIN; to_u8 (len domain)] domain rest)
      by (try done; by len_simpl).
    cbn [res_bind]. rewrite from_utf8_ok by done. cbn [ok_or res_bind].
    by rewrite from_be_port.
Qed.

Lemma read_udp_packet_app payload rest :
  len payload <= 65535 ->
  read_udp_packet (be_bytes 2 (len payload) ++ payload ++ rest) = Ok (payload, rest).
Proof.
  intros Hl. unfold read_udp_packet. pose proof (len_nonneg payload).
  rewrite read_u16_app by (split; lia). cbn [res_bind]. by apply read_exact_app.
Qed.

(** What one encoded frame reads as: [cmd] is New or Keep. *)
Lemma read_xudp_frame_app cmd src meta payload w rest :
  bool_decide (cmd = XUDP_CMD_NEW) || bool_decide (cmd = XUDP_CMD_KEEP) = true ->
  (src = None /\ meta = []
   \/ exists t a id, src = Some t /\ wf_target t /\ encode_addr_port t = Ok a
        /\ meta = XUDP_NETWORK_UDP :: a ++ id) ->
  encode_xudp_frame ([x00; x00; cmd; XUDP_OPT_DATA] ++ meta) payload = Ok w ->
  read_xudp_frame (w ++ rest)
  = Ok (if bool_decide (payload = []) then None
        else Some (mkXudpPacket ((fun t => mkTarget (addr t) (port t) Udp) <$> src) payload),
        rest).
Proof.
  intros Hc Hs Hw. unfold encode_xudp_frame in Hw.
  apply res_bind_ok_inv in Hw as (ml & [Hml ->]%u16_try_from_ok & Hw).
  apply res_bind_ok_inv in Hw as (pl & [Hpl ->]%u16_try_from_ok & Hw). apply Ok_inj in Hw as <-.
  unfold read_xudp_frame. rewrite <- app_assoc. pose proof (len_nonneg meta).
  rewrite read_u16_app by (split; [apply len_nonneg | lia]). cbn [res_bind].
  guard_false by (len_simpl; lia). rewrite <- app_assoc, read_exact_app by done.
  cbn [res_bind app]. index_simpl.
  assert (bool_decide (cmd = XUDP_CMD_DISCARD) = false) as Hd by (by destruct cmd).
  rewrite Hc, Hd. cbn [orb negb]. rewrite <- app_assoc.
  assert (forall s, (let? (p, reader) := read_udp_packet (be_bytes 2 (len payload) ++ payload ++ rest) in
          if bool_decide (p = []) || false then Ok (None, reader)
          else Ok (Some (mkXudpPacket s p), reader))
    = Ok (if bool_decide (payload = []) then None else Some (mkXudpPacket s payload), rest)) as Hend.
  { intros s. rewrite read_udp_packet_app by done. cbn [res_bind].
    by destruct (bool_decide (payload = [])). }
  destruct Hs as [[-> ->]|(t & a & id & -> & Hwf & Ha & ->)].
  - cbn [res_bind]. rewrite bool_decide_true by done. apply Hend.
  - pose proof (len_nonneg a). pose proof (len_nonneg id). guard_true by (len_simpl; lia).
    cbn [res_bind].
    rewrite bool_decide_true by done.
    rewrite (slice_from_eq [x00; x00; cmd; XUDP_OPT_DATA; XUDP_NETWORK_UDP] (a ++ id)) by done.
    cbn [res_bind]. rewrite (decode_encode_addr_port t) by done. cbn [res_bind].
    apply Hend.
Qed.

(** ** Totality *)

Lemma decode_addr_port_no_panic input : decode_addr_port input <> Panic.
Proof.
  unfold decode_addr_port. case_if; [done|]. unbool.
  apply res_bind_no_panic; [apply index_no_panic; lia | intros b0 _].
  apply res_bind_no_panic; [apply index_no_panic; lia | intros b1 _].
  apply res_bind_no_panic; [apply index_no_panic; lia | intros kind _].
  apply res_bind_no_panic; [|done]. repeat case_if; try done; unbool.
  - repeat (apply res_bind_no_panic; [apply index_no_panic; lia | intros ? _]). done.
  - apply res_bind_no_panic; [apply slice_no_panic; lia | intros o _]. by case_if.
  - apply res_bind_no_panic; [apply index_no_panic; lia | intros n _].
    pose proof (u8_range n). case_if; [done|]. unbool.
    apply res_bind_no_panic; [apply slice_no_panic; lia | intros raw _].
    by destruct (from_utf8 raw).
Qed.

Lemma read_udp_packet_no_panic r : read_udp_packet r <> Panic.
Proof. apply res_bind_no_panic; [apply read_u16_no_panic | intros [n r'] _]. apply read_exact_no_panic. Qed.

Lemma read_xudp_frame_no_panic r : read_xudp_frame r <> Panic.
Proof.
  unfold read_xudp_frame. apply res_bind_no_panic; [apply read_u16_no_panic | intros [ml r1] _].
  case_if; [done|]. unbool.
  apply res_bind_no_panic; [apply read_exact_no_panic | intros [meta r2] Hm].
  apply read_exact_ok in Hm as [-> Hl]; [|lia].
  apply res_bind_no_panic; [apply index_no_panic; lia | intros cmd _]. case_if; [done|].
  apply res_bind_no_panic.
  { case_if; [|done]. unbool. apply res_bind_no_panic; [apply index_no_panic; lia | intros net _].
    case_if; [|done].
    apply res_bind_no_panic; [apply slice_from_no_panic; lia | intros raw _].
    apply res_bind_no_panic; [apply decode_addr_port_no_panic | done]. }
  intros src _. apply res_bind_no_panic; [apply index_no_panic; lia | intros opt _].
  case_if; [done|]. apply res_bind_no_panic; [apply read_udp_packet_no_panic|].
  intros [payload r3] _. by case_if.
Qed.

Lemma read_udp_packet_length r p r' : read_udp_packet r = Ok (p, r') -> (length r' <= length r)%nat.
Proof.
  unfold read_udp_packet. intros ([n r1] & Hn & Hp)%res_bind_ok_inv.
  apply read_u16_ok in Hn as (b & -> & _ & _ & Hz).
  apply read_exact_ok in Hp as [-> _]; [|apply Hz]. rewrite !length_app. lia.
Qed.

(** A turn of the loop always consumes input. *)
Lemma read_xudp_frame_length r x r' :
  read_xudp_frame r = Ok (x, r') -> (length r' < length r)%nat.
Proof.
  unfold read_xudp_frame. intros ([ml r1] & Hn & H)%res_bind_ok_inv.
  apply read_u16_ok in Hn as (b & -> & Hb & _ & Hz). case_if_in H; [done|].
  apply res_bind_ok_inv in H as ([meta r2] & Hm & H).
  apply read_exact_ok in Hm as [-> Hl]; [|apply Hz].
  apply res_bind_ok_inv in H as (cmd & _ & H). case_if_in H; [done|].
  apply res_bind_ok_inv in H as (src & _ & H).
  apply res_bind_ok_inv in H as (opt & _ & H). rewrite !length_app.
  unfold len in Hb. case_if_in H; [simplify_eq; lia|].
  apply res_bind_ok_inv in H as ([p r3] & Hp%read_udp_packet_length & H).
  case_if_in H; simplify_eq; lia.
Qed.

Lemma read_xudp_loop_total fuel r :
  (length r < fuel)%nat -> exists x, read_xudp_loop fuel r = Some x /\ x <> Panic.
Proof.
  revert r. induction fuel as [|fuel IH]; intros r Hf; [lia|]. simpl.
  pose proof (read_xudp_frame_no_panic r).
  destruct (read_xudp_frame r) as [[[p|] r']| |] eqn:E; [eauto| |eauto|done].
  apply read_xudp_frame_length in E. apply IH. lia.
Qed.

(** More fuel than the stream needs changes nothing. *)
Lemma read_xudp_loop_fuel fuel fuel' r :
  (length r < fuel)%nat -> (length r < fuel')%nat ->
  read_xudp_loop fuel r = read_xudp_loop fuel' r.
Proof.
  revert fuel' r. induction fuel as [|fuel IH]; intros [|fuel'] r H1 H2; try lia. simpl.
  destruct (read_xudp_frame r) as [[[p|] r']| |] eqn:E; [done| |done|done].
  apply read_xudp_frame_length in E. apply IH; lia.
Qed.

(** The loop's equation, without fuel. *)
Lemma read_xudp_packet_unfold r :
  read_xudp_packet r
  = match read_xudp_frame r with
    | Ok (Some packet, r') => Some (Ok (packet, r'))
    | Ok (None, r') => read_xudp_packet r'
    | Err e => Some (Err e)
    | Panic => Some Panic
    end.
Proof.
  unfold read_xudp_packet at 1. cbn [read_xudp_loop].
  destruct (read_xudp_frame r) as [[[p|] r']| |] eqn:E; [done| |done|done].
  apply read_xudp_frame_length in E. apply read_xudp_loop_fuel; lia.
Qed.

(** ** Properties *)

(** The frames a peer may send before data: keep packets with no payload. *)
Definition idle_frame : list byte :=
  [x00; x04; x00; x00; XUDP_CMD_KEEP; XUDP_OPT_DATA; x00; x00].
Definition idle_frames (n : nat) : list byte := concat (replicate n idle_frame).

Definition as_udp (t : Target) : Target := mkTarget (addr t) (port t) Udp.

Lemma read_idle_frame r : read_xudp_frame (idle_frame ++ r) = Ok (None, r).
Proof.
  assert (encode_xudp_frame ([x00; x00; XUDP_CMD_KEEP; XUDP_OPT_DATA] ++ []) [] = Ok idle_frame)
    as H by reflexivity.
  exact (read_xudp_frame_app XUDP_CMD_KEEP None [] [] idle_frame r eq_refl
           (or_introl (conj eq_refl eq_refl)) H).
Qed.

Lemma read_idle_frames n r :
  read_xudp_packet (idle_frames n ++ r) = read_xudp_packet r.
Proof.
  induction n as [|n IH]; [done|]. rewrite <- IH. unfold idle_frames.
  cbn [replicate concat]. rewrite <- app_assoc, read_xudp_packet_unfold.
  by rewrite read_idle_frame.
Qed.

(** The reader of a VLESS UDP stream finds every encoded XUDP packet. After
    any number of empty keep frames, an encoded new packet or keep packet with
    a payload reads back as that payload with the packet's address (as a UDP
    target), and the reader stops exactly behind it. *)
Theorem xudp_roundtrip src payload id w n rest
    (Hwf : match src with inl t => wf_target t | inr (Some t) => wf_target t | inr None => True end)
    (Hpayload : payload <> [])
    (Hw : match src with
          | inl t => encode_xudp_new_packet t payload id
          | inr s => encode_xudp_keep_packet s payload
          end = Ok w) :
  read_xudp_packet (idle_frames n ++ w ++ rest)
  = Some (Ok (mkXudpPacket (as_udp <$> match src with inl t => Some t | inr s => s end) payload,
              rest)).
Proof.
  rewrite read_idle_frames, read_xudp_packet_unfold.
  assert (bool_decide (payload = []) = false) as He by by apply bool_decide_false.
  destruct src as [t|[t|]]; simpl in Hwf.
  - apply res_bind_ok_inv in Hw as (a & Ha & Hw).
    rewrite (read_xudp_frame_app XUDP_CMD_NEW (Some t) (XUDP_NETWORK_UDP :: a ++ id) payload w)
      by (try done; right; eauto 10).
    by rewrite He.
  - apply res_bind_ok_inv in Hw as (m & Hm & Hw). apply res_bind_ok_inv in Hm as (a & Ha & Hm).
    apply Ok_inj in Hm as <-.
    rewrite (read_xudp_frame_app XUDP_CMD_KEEP (Some t) (XUDP_NETWORK_UDP :: a ++ []) payload w)
      by (try (by rewrite app_nil_r); try done; right; eauto 10).
    by rewrite He.
  - rewrite (read_xudp_frame_app XUDP_CMD_KEEP None [] payload w) by (try done; by left).
    by rewrite He.
Qed.

(** Reading an XUDP packet from any stream of bytes terminates and never
    panics: it gives a packet or an I/O error. *)
Theorem read_xudp_total r :
  exists x, read_xudp_packet r = Some x /\ x <> Panic.
Proof. apply read_xudp_loop_total. lia. Qed.

Definition witness_target : Target := mkTarget (Domain (str_of "a.test")) 53 Udp.

Lemma xudp_roundtrip_witness :
  exists w, encode_xudp_new_packet witness_target [x01; x02] (replicate 8 x07) = Ok w
  /\ read_xudp_packet (idle_frames 2 ++ w ++ [xff])
     = Some (Ok (mkXudpPacket (Some witness_target) [x01; x02], [xff])).
Proof.
  eexists. split; [vm_compute; reflexivity|].
  refine (xudp_roundtrip (inl witness_target) [x01; x02] (replicate 8 x07) _ 2 [xff] _ _ _).
  - by_decision.
  - discriminate.
  - vm_compute. reflexivity.
Defined.

(** ** Request headers *)

(** The server's reading of a request header, from the protocol: version, user,
    addons, command, and for TCP and UDP the port and address. *)
Record ParsedHeader := mkParsed {
  p_version : byte;
  p_user : list byte;
  p_addons : list byte;
  p_command : byte;
  p_target : option (Z * TargetAddr);
  p_body : list byte
}.

Definition parse_addr (r : list byte) : res IoError (TargetAddr * list byte) :=
  let? (kind, r) := read_exact 1 r in
  match kind with
  | [x01] => let? (o, r) := read_exact 4 r in Ok (Ip (V4 (from_be o)), r)
  | [x03] => let? (o, r) := read_exact 16 r in Ok (Ip (V6 (from_be o)), r)
  | [x02] =>
    let? (n, r) := read_exact 1 r in
    let? (d, r) := read_exact (from_be n) r in Ok (Domain d, r)
  | _ => Err InvalidData
  end.

Definition parse_request_header (r : list byte) : res IoError ParsedHeader :=
  let? (version, r) := read_exact 1 r in
  let? (user, r) := read_exact 16 r in
  let? (n, r) := read_exact 1 r in
  let? (addons, r) := read_exact (from_be n) r in
  let? (command, r) := read_exact 1 r in
  match version, command with
  | [v], [c] =>
    if bool_decide (c = x01) || bool_decide (c = x02) then
      let? (port, r) := read_u16 r in
      let? (a, r) := parse_addr r in
      Ok (mkParsed v user addons c (Some (port, a)) r)
    else Ok (mkParsed v user addons c None r)
  | _, _ => Err InvalidData
  end.

Lemma from_be_single b : from_be [b] = u8 b.
Proof. unfold from_be. simpl. lia. Qed.

Lemma parse_encode_addr a b rest :
  wf_addr a -> encode_addr a = Ok b -> parse_addr (b ++ rest) = Ok (a, rest).
Proof.
  intros Ha Hb. unfold parse_addr. destruct a as [[ip|ip]|domain]; simpl in Ha, Hb.
  - apply Ok_inj in Hb as <-. rewrite (read_exact_eq [ADDR_IPV4] (octets4 ip ++ rest)) by done.
    cbn [res_bind ADDR_IPV4 ADDR_IPV6 ADDR_DOMAIN]. rewrite read_exact_app by done. cbn [res_bind]. by rewrite octets4_inv.
  - apply Ok_inj in Hb as <-. rewrite (read_exact_eq [ADDR_IPV6] (octets6 ip ++ rest)) by done.
    cbn [res_bind ADDR_IPV4 ADDR_IPV6 ADDR_DOMAIN]. rewrite read_exact_app by done. cbn [res_bind]. by rewrite octets6_inv.
  - apply res_bind_ok_inv in Hb as (n & [Hn ->]%u8_try_from_ok & Hb). apply Ok_inj in Hb as <-.
    rewrite (read_exact_eq [ADDR_DOMAIN] (to_u8 (len domain) :: domain ++ rest)) by done.
    cbn [res_bind ADDR_IPV4 ADDR_IPV6 ADDR_DOMAIN]. rewrite (read_exact_eq [to_u8 (len domain)] (domain ++ rest)) by done.
    cbn [res_bind]. pose proof (len_nonneg domain). rewrite from_be_single, u8_small by lia.
    by rewrite read_exact_app.
Qed.

Section HeaderTheorems.
Variable encode_to_vec : str -> list byte.

Definition sent_addons (request : VlessRequest) : list byte :=
  if is_vision_flow (flow request) then encode_to_vec VISION_FLOW else [].

Lemma encode_addons_shape request b :
  encode_addons encode_to_vec request = Ok b ->
  b = to_u8 (len (sent_addons request)) :: sent_addons request
  /\ len (sent_addons request) <= 255.
Proof.
  unfold encode_addons, sent_addons. destruct (is_vision_flow (flow request)); simpl.
  - intros (n & [Hn ->]%u8_try_from_ok & Hb%Ok_inj)%res_bind_ok_inv. by subst.
  - intros <-%Ok_inj. split; [done | rewrite len_nil; lia].
Qed.

(** A request header means to the server what the client asked for: parsing
    an encoded header followed by any body gives version 0, the user, the
    Vision addons exactly when the flow asks for them, the command, the target
    of a TCP or UDP request, and the untouched body. *)
Theorem request_header_roundtrip request w body
    (Huser : len (user_id request) = 16) (Hwf : wf_target (req_target request))
    (Hw : encode_request_header encode_to_vec request = Ok w) :
  parse_request_header (w ++ body)
  = Ok (mkParsed VLESS_VERSION (user_id request) (sent_addons request)
          (command_byte (command request))
          (match command request with
           | CmdTcp | CmdUdp => Some (port (req_target request), addr (req_target request))
           | CmdMux | CmdReverse => None
           end) body).
Proof.
  unfold encode_request_header in Hw.
  apply res_bind_ok_inv in Hw as (addons & [-> Hl]%encode_addons_shape & Hw).
  pose proof (len_nonneg (sent_addons request)).
  assert (exists tail, w = [VLESS_VERSION] ++ user_id request
            ++ [to_u8 (len (sent_addons request))] ++ sent_addons request
            ++ [command_byte (command request)] ++ tail
          /\ (tail = [] /\ (command request = CmdMux \/ command request = CmdReverse)
              \/ exists a, encode_addr (addr (req_target request)) = Ok a
                  /\ tail = be_bytes 2 (port (req_target request)) ++ a
                  /\ (command request = CmdTcp \/ command request = CmdUdp))) as (tail & -> & Ht).
  { destruct (command request);
      (apply res_bind_ok_inv in Hw as (a & Ha & <-%Ok_inj);
       exists (be_bytes 2 (port (req_target request)) ++ a);
       split; [by list_simplifier | naive_solver])
      || (apply Ok_inj in Hw as <-; exists []; split; [by list_simplifier | naive_solver]). }
  unfold parse_request_header. rewrite <- !app_assoc.
  rewrite read_exact_app by done. cbn [res_bind]. rewrite read_exact_app by done. cbn [res_bind].
  rewrite read_exact_app by done. cbn [res_bind]. rewrite from_be_single, u8_small by lia.
  rewrite read_exact_app by done. cbn [res_bind]. rewrite read_exact_app by done. cbn [res_bind].
  destruct Hwf as [Ha Hp].
  destruct Ht as [[-> [-> | ->]]|(a & He & -> & [-> | ->])]; [done | done | |];
    cbn [command_byte]; cbn [orb bool_decide decide];
    (guard_true by done); rewrite <- app_assoc, read_u16_app by done; cbn [res_bind];
    by rewrite (parse_encode_addr (addr (req_target request))).
Qed.
End HeaderTheorems.

Lemma request_header_roundtrip_witness :
  exists w, encode_request_header (fun s => x0a :: to_u8 (len s) :: s)
      (mkVlessRequest (replicate 16 x11) CmdTcp witness_target (Some VISION_FLOW)) = Ok w
  /\ is_ok (parse_request_header (w ++ [x01])) = true.
Proof.
  eexists. split; [vm_compute; reflexivity|].
  erewrite (request_header_roundtrip (fun s => x0a :: to_u8 (len s) :: s)
    (mkVlessRequest (replicate 16 x11) CmdTcp witness_target (Some VISION_FLOW)));
    [reflexivity | reflexivity | by_decision | vm_compute; reflexivity].
Defined.
