(* ===== verification/Mux.v ===== *)
(** [crates/xray-proxy/src/mux.rs]: Mux.Cool frames, their encoder, and the
    stateless decoder that is retried as more bytes arrive. *)
From Stdlib Require Import Strings.Byte.
From S2P Require Import Prelude Net Vless.

Definition MAX_METADATA : Z := 512.
Definition MAX_PAYLOAD : Z := 8192.
Definition MAX_FRAME : Z := 2 + MAX_METADATA + 2 + MAX_PAYLOAD.

(** [FlowIds::derive] over [blake3::keyed_hash]: a zero flow stays zero. *)
Definition derive (keyed_hash : list byte -> list byte -> list byte) (key flow : list byte)
    : res IoError (list byte) :=
  if bool_decide (flow = replicate 8 x00) then Ok flow
  else slice (keyed_hash key flow) 0 8.

Inductive Status := New | Keep | End | KeepAlive.

#[export] Instance Status_eq_dec : EqDecision Status.
Proof. solve_decision. Defined.

(** [status as u8] *)
Definition status_byte (s : Status) : byte :=
  match s with New => x01 | Keep => x02 | End => x03 | KeepAlive => x04 end.

Record Frame := mkFrame {
  session_id : Z;
  status : Status;
  error : bool;
  frame_target : option Target;
  global_id : option (list byte);
  payload : option (list byte)
}.

Definition is_some_b {A} (o : option A) : bool := match o with Some _ => true | None => false end.

Definition bad_char (c : Z) : bool := is_control c || is_whitespace c.

(** The address part of the metadata, with its guards. *)
Definition encode_target (s : Status) (t : Target) : res IoError (list byte) :=
  if negb (bool_decide (s = New) || bool_decide (s = Keep))
     || bool_decide (s = Keep) && negb (bool_decide (network t = Udp))
  then Err InvalidData
  else if port t =? 0 then Err InvalidData
  else
    let? a :=
      match addr t with
      | Ip (V4 ip) => Ok (x01 :: octets4 ip)
      | Ip (V6 ip) => Ok (x03 :: octets6 ip)
      | Domain name =>
        if bool_decide (name = []) || (255 <? len name) || existsb bad_char (chars name)
        then Err InvalidData
        else Ok (x02 :: to_u8 (len name) :: name)
      end in
    Ok ((if bool_decide (network t = Tcp) then x01 else x02) :: be_bytes 2 (port t) ++ a).

(** The option byte. *)
Definition flags (frame : Frame) : Z :=
  Z.lor (Z.b2z (is_some_b (payload frame))) (Z.shiftl (Z.b2z (error frame)) 1).

Definition encode_metadata (frame : Frame) : res IoError (list byte) :=
  let meta := be_bytes 2 (session_id frame)
              ++ [status_byte (status frame); to_u8 (flags frame)] in
  let? meta :=
    match frame_target frame with
    | Some t => let? a := encode_target (status frame) t in Ok (meta ++ a)
    | None => Ok meta
    end in
  match global_id frame with
  | Some id => Ok (meta ++ id)
  | None => Ok meta
  end.

Definition encode (frame : Frame) : res IoError (list byte) :=
  if match payload frame with Some p => MAX_PAYLOAD <? len p | None => false end
     || error frame && negb (bool_decide (status frame = End))
     || bool_decide (status frame = New) && negb (is_some_b (frame_target frame))
     || is_some_b (global_id frame)
        && (negb (bool_decide (status frame = New))
            || match frame_target frame with
               | Some t => negb (bool_decide (network t = Udp))
               | None => true
               end)
  then Err InvalidData
  else
    let? meta := encode_metadata frame in
    let wire := be_bytes 2 (len meta) ++ meta in
    Ok (match payload frame with
        | Some p => wire ++ be_bytes 2 (len p) ++ p
        | None => wire
        end).

(** ** Decoding *)

Definition decode_status (b : byte) : res IoError Status :=
  match b with
  | x01 => Ok New
  | x02 => Ok Keep
  | x03 => Ok End
  | x04 => Ok KeepAlive
  | _ => Err InvalidData
  end.

(** The target at the head of [rest], and what follows it. *)
Definition decode_target (rest : list byte) : res IoError (Target * list byte) :=
  if len rest <? 4 then Err InvalidData
  else
    let? network_byte := index rest 0 in
    let? network :=
      match network_byte with
      | x01 => Ok Tcp
      | x02 => Ok Udp
      | _ => Err InvalidData
      end in
    let? port_bytes := slice rest 1 3 in
    let port := from_be port_bytes in
    if port =? 0 then Err InvalidData
    else
      let? kind := index rest 3 in
      let? (addr, count) :=
        (if bool_decide (kind = x01) && (8 <=? len rest) then
           let? o := slice rest 4 8 in Ok (Ip (V4 (from_be o)), 8)
         else if bool_decide (kind = x03) && (20 <=? len rest) then
           let? o := slice rest 4 20 in Ok (Ip (V6 (from_be o)), 20)
         else if bool_decide (kind = x02) && (5 <=? len rest) then
           let? n := index rest 4 in
           let n := u8 n in
           if (n =? 0) || (len rest <? 5 + n) then Err InvalidData
           else
             let? raw := slice rest 5 (5 + n) in
             let? name := ok_or (from_utf8 raw) InvalidData in
             if existsb bad_char (chars name) then Err InvalidData
             else Ok (Domain name, 5 + n)
         else Err InvalidData) in
      let? rest := slice_from rest count in
      Ok (mkTarget addr port network, rest).

(** Everything [decode] takes from the metadata block: the frame without its
    payload, and the option byte. *)
Definition decode_metadata (meta : list byte) : res IoError (Frame * Z) :=
  let? id_bytes := slice meta 0 2 in
  let session_id := from_be id_bytes in
  let? status_byte := index meta 2 in
  let? status := decode_status status_byte in
  let? option_byte := index meta 3 in
  let options := u8 option_byte in
  if negb (Z.land options 252 =? 0)
     || negb (Z.land options 2 =? 0) && negb (bool_decide (status = End))
  then Err InvalidData
  else
    let? rest := slice_from meta 4 in
    let? (target, rest) :=
      (if bool_decide (status = New)
          || bool_decide (status = Keep) && bool_decide (rest !! 0%nat = Some x02)
       then let? (t, rest) := decode_target rest in Ok (Some t, rest)
       else Ok (None, rest)) in
    let? (global_id, rest) :=
      (if bool_decide (status = New)
          && match target with Some t => bool_decide (network t = Udp) | None => false end
          && (8 <=? len rest)
       then let? id := slice rest 0 8 in
            let? rest := slice_from rest 8 in
            Ok (Some id, rest)
       else Ok (None, rest)) in
    if existsb (fun b => negb (bool_decide (b = x00))) rest then Err InvalidData
    else Ok (mkFrame session_id status (negb (Z.land options 2 =? 0)) target global_id None,
             options).

Definition with_payload (frame : Frame) (p : option (list byte)) : Frame :=
  mkFrame (session_id frame) (status frame) (error frame) (frame_target frame)
    (global_id frame) p.

(** [Ok None] means incomplete input. *)
Definition decode (input : list byte) : res IoError (option (Frame * Z)) :=
  if len input <? 2 then Ok None
  else
    let? length_bytes := slice input 0 2 in
    let length := from_be length_bytes in
    if negb ((4 <=? length) && (length <=? MAX_METADATA)) then Err InvalidData
    else if len input <? 2 + length then Ok None
    else
      let? meta := slice input 2 (2 + length) in
      let? (frame, options) := decode_metadata meta in
      let consumed := 2 + length in
      if negb (Z.land options 1 =? 0) then
        if len input <? consumed + 2 then Ok None
        else
          let? size_bytes := slice input consumed (consumed + 2) in
          let size := from_be size_bytes in
          if MAX_PAYLOAD <? size then Err InvalidData
          else
            let consumed := consumed + 2 in
            if len input <? consumed + size then Ok None
            else
              let? data := slice input consumed (consumed + size) in
              Ok (Some (with_payload frame (Some data), consumed + size))
      else Ok (Some (frame, consumed)).

(** ** The shape of an accepted input *)

(** [body] is the payload part [decode] expects after metadata that decoded to
    [fr] and [opts], giving [f]. *)
Definition body_of (fr : Frame) (opts : Z) (body : list byte) (f : Frame) : Prop :=
  if Z.land opts 1 =? 0 then body = [] /\ f = fr
  else exists size data, body = size ++ data /\ len size = 2 /\ from_be size = len data
         /\ len data <= MAX_PAYLOAD /\ f = with_payload fr (Some data).

Lemma decode_intro hdr meta body rest fr opts f :
  len hdr = 2 -> from_be hdr = len meta -> 4 <= len meta <= MAX_METADATA ->
  decode_metadata meta = Ok (fr, opts) -> body_of fr opts body f ->
  decode (hdr ++ meta ++ body ++ rest) = Ok (Some (f, 2 + len meta + len body)).
Proof.
  intros Hh Hm Hl Hd Hb. pose proof (len_nonneg rest). pose proof (len_nonneg body).
  unfold decode. guard_false by (len_simpl; lia).
  rewrite (slice_eq [] hdr (meta ++ body ++ rest)) by done. cbn [res_bind]. rewrite Hm.
  guard_false by lia. guard_false by (len_simpl; lia).
  rewrite (slice_eq hdr meta (body ++ rest)) by (done || lia). cbn [res_bind].
  rewrite Hd. cbn [res_bind]. unfold body_of in Hb.
  destruct (Z.land opts 1 =? 0); cbn [negb].
  - destruct Hb as [-> ->]. by rewrite len_nil, Z.add_0_r.
  - destruct Hb as (size & data & -> & Hs & Hn & Hd' & ->). pose proof (len_nonneg data).
    guard_false by (len_simpl; lia).
    rewrite (slice_eq (hdr ++ meta) size (data ++ rest))
      by (rewrite ?len_app; list_simplifier; (done || lia)).
    cbn [res_bind]. rewrite Hn. guard_false by lia. guard_false by (len_simpl; lia).
    rewrite (slice_eq (hdr ++ meta ++ size) data rest)
      by (rewrite ?len_app; list_simplifier; (done || lia)).
    cbn [res_bind]. by rewrite len_app, Hs, !Z.add_assoc.
Qed.

Lemma split_at {A} (l : list A) n :
  0 <= n <= len l -> exists x y, l = x ++ y /\ len x = n.
Proof.
  intros Hn. exists (take (Z.to_nat n) l), (drop (Z.to_nat n) l).
  split; [by rewrite take_drop|]. unfold len in *. rewrite length_take. lia.
Qed.

Lemma decode_elim input f n :
  decode input = Ok (Some (f, n)) ->
  exists hdr meta body rest fr opts,
    input = hdr ++ meta ++ body ++ rest /\ len hdr = 2 /\ from_be hdr = len meta
    /\ 4 <= len meta <= MAX_METADATA /\ decode_metadata meta = Ok (fr, opts)
    /\ body_of fr opts body f /\ n = 2 + len meta + len body.
Proof.
  unfold decode. intros H. case_if_in H; [done|]. unbool.
  destruct (split_at input 2) as (hdr & r1 & -> & Hh); [lia|].
  rewrite (slice_eq [] hdr r1) in H by done. cbn [res_bind] in H.
  case_if_in H; [done|]. unbool. case_if_in H; [done|]. unbool. rewrite len_app in *.
  destruct (split_at r1 (from_be hdr)) as (meta & r2 & -> & Hm); [lia|].
  rewrite (slice_eq hdr meta r2) in H by (done || lia). cbn [res_bind] in H.
  apply res_bind_ok_inv in H as ([fr opts] & Hd & H). rewrite !len_app in *.
  destruct (Z.land opts 1 =? 0) eqn:Eb; cbn [negb] in H.
  - simplify_eq. exists hdr, meta, [], r2, f, opts. unfold body_of. rewrite Eb.
    repeat split; try done; try lia. by rewrite len_nil, Hm, Z.add_0_r.
  - case_if_in H; [done|]. unbool.
    destruct (split_at r2 2) as (size & r3 & -> & Hs); [lia|].
    rewrite (slice_eq (hdr ++ meta) size r3) in H
      by (rewrite ?len_app; list_simplifier; (done || lia)).
    cbn [res_bind] in H. case_if_in H; [done|]. unbool. case_if_in H; [done|]. unbool.
    rewrite len_app in *. pose proof (from_be_range size).
    destruct (split_at r3 (from_be size)) as (data & rest & -> & Hda); [lia|].
    rewrite (slice_eq (hdr ++ meta ++ size) data rest) in H
      by (rewrite ?len_app; list_simplifier; (done || lia)).
    cbn [res_bind] in H. simplify_eq.
    exists hdr, meta, (size ++ data), rest, fr, opts. unfold body_of.
    apply Z.eqb_neq in Eb. rewrite Eb.
    repeat split; try done; try lia; [by list_simplifier | | rewrite len_app; lia].
    exists size, data. repeat split; try done; lia.
Qed.

(** Every strict prefix of an accepted frame is incomplete, never wrong. *)
Lemma decode_prefix hdr meta body fr opts f k :
  len hdr = 2 -> from_be hdr = len meta -> 4 <= len meta <= MAX_METADATA ->
  decode_metadata meta = Ok (fr, opts) -> body_of fr opts body f ->
  Z.of_nat k < 2 + len meta + len body ->
  decode (take k (hdr ++ meta ++ body)) = Ok None.
Proof.
  intros Hh Hm Hl Hd Hb Hk. unfold decode. case_if; [done|]. unbool.
  assert (2 <= k)%nat as Hk2 by (unfold len in *; rewrite length_take in *; lia).
  rewrite take_app_ge in * by (unfold len in *; lia). set (k1 := (k - length hdr)%nat) in *.
  rewrite (slice_eq [] hdr (take k1 (meta ++ body))) by done. cbn [res_bind]. rewrite Hm.
  guard_false by lia. case_if; [done|]. unbool. rewrite len_app in *.
  assert (length meta <= k1)%nat as Hk3 by (unfold len in *; rewrite length_take in *; lia).
  rewrite take_app_ge in * by done. set (k2 := (k1 - length meta)%nat) in *.
  rewrite (slice_eq hdr meta (take k2 body)) by (done || lia). cbn [res_bind].
  rewrite Hd. cbn [res_bind]. unfold body_of in Hb.
  assert (k2 < length body)%nat as Hk4 by (unfold len in *; lia).
  destruct (Z.land opts 1 =? 0); cbn [negb]; [destruct Hb as [-> _]; simpl in Hk4; lia|].
  destruct Hb as (size & data & -> & Hs & Hn & Hd' & _).
  rewrite !len_app in *. case_if; [done|]. unbool.
  assert (length size <= k2)%nat by (unfold len in *; rewrite length_take in *; lia).
  rewrite take_app_ge by done. rewrite length_app in Hk4.
  rewrite (slice_eq (hdr ++ meta) size (take (k2 - length size) data))
    by (rewrite ?len_app; list_simplifier; (done || lia)).
  cbn [res_bind]. rewrite Hn. guard_false by lia.
  assert (len (take (k2 - length size) data) < len data)
    by (clear Hd; unfold len in *; rewrite !length_take in *; lia).
  rewrite !len_app. guard_true by lia. done.
Qed.

(** ** Metadata *)

(** What the Rust types guarantee of a frame. *)
Definition wf_frame (f : Frame) : Prop :=
  in_u16 (session_id f)
  /\ match frame_target f with Some t => wf_target t | None => True end
  /\ match global_id f with Some id => len id = 8 | None => True end.

(** [decode_target] up to the address: the network, the port and the kind. *)
Lemma decode_target_head n nw p kind c :
  match n with x01 => Ok Tcp | x02 => Ok Udp | _ => Err InvalidData end = @Ok IoError _ nw ->
  in_u16 p -> p <> 0 ->
  decode_target (n :: be_bytes 2 p ++ kind :: c)
  = let rest := n :: be_bytes 2 p ++ kind :: c in
    let? (addr, count) :=
      (if bool_decide (kind = x01) && (8 <=? len rest) then
         let? o := slice rest 4 8 in Ok (Ip (V4 (from_be o)), 8)
       else if bool_decide (kind = x03) && (20 <=? len rest) then
         let? o := slice rest 4 20 in Ok (Ip (V6 (from_be o)), 20)
       else if bool_decide (kind = x02) && (5 <=? len rest) then
         let? n := index rest 4 in
         let n := u8 n in
         if (n =? 0) || (len rest <? 5 + n) then Err InvalidData
         else
           let? raw := slice rest 5 (5 + n) in
           let? name := ok_or (from_utf8 raw) InvalidData in
           if existsb bad_char (chars name) then Err InvalidData
           else Ok (Domain name, 5 + n)
       else Err InvalidData) in
    let? rest := slice_from rest count in
    Ok (mkTarget addr p nw, rest).
Proof.
  intros Hn Hp Hz. pose proof (len_nonneg c). rewrite be_bytes_2. cbn [app].
  unfold decode_target at 1. guard_false by (len_simpl; lia). index_simpl.
  rewrite Hn. cbn [res_bind].
  rewrite (slice_eq [n] [to_u8 (p / 256); to_u8 p] (kind :: c)) by done.
  cbn [res_bind]. rewrite from_be_port by done. guard_false by lia. by index_simpl.
Qed.

Lemma decode_encode_target s t a rest :
  wf_target t -> encode_target s t = Ok a -> decode_target (a ++ rest) = Ok (t, rest).
Proof.
  intros [Ha Hp] He. unfold encode_target in He. case_if_in He; [done|].
  case_if_in He; [done|]. unbool. apply res_bind_ok_inv in He as (b & Hb & <-%Ok_inj).
  destruct t as [ad p nw]. cbn [addr port network] in *. cbn [app]. rewrite <- app_assoc.
  set (n := if bool_decide (nw = Tcp) then x01 else x02).
  assert (match n with x01 => Ok Tcp | x02 => Ok Udp | _ => Err InvalidData end
          = @Ok IoError _ nw) as Hn by (unfold n; by destruct nw).
  pose proof (len_nonneg rest).
  destruct ad as [[ip|ip]|name]; simpl in Ha.
  - apply Ok_inj in Hb as <-. cbn [app]. rewrite (decode_target_head n nw) by done.
    rewrite be_bytes_2. cbn zeta. rewrite bool_decide_true by done. cbn [andb app].
    guard_true by (unfold octets4; len_simpl; lia).
    rewrite (slice_eq [n; to_u8 (p / 256); to_u8 p; x01] (octets4 ip) rest) by done. cbn [res_bind].
    rewrite (slice_from_eq (n :: to_u8 (p / 256) :: to_u8 p :: x01 :: octets4 ip) rest) by done.
    cbn [res_bind]. by rewrite octets4_inv.
  - apply Ok_inj in Hb as <-. cbn [app]. rewrite (decode_target_head n nw) by done.
    rewrite be_bytes_2. cbn zeta. rewrite bool_decide_false, bool_decide_true by done.
    cbn [andb app]. guard_true by (unfold octets6; len_simpl; lia).
    rewrite (slice_eq [n; to_u8 (p / 256); to_u8 p; x03] (octets6 ip) rest) by done. cbn [res_bind].
    rewrite (slice_from_eq (n :: to_u8 (p / 256) :: to_u8 p :: x03 :: octets6 ip) rest) by done.
    cbn [res_bind]. by rewrite octets6_inv.
  - case_if_in Hb; [done|]. unbool. apply Ok_inj in Hb as <-. cbn [app].
    rewrite (decode_target_head n nw) by done.
    rewrite be_bytes_2. cbn zeta. rewrite !bool_decide_false, bool_decide_true by done.
    pose proof (len_nonneg name). cbn [andb app]. guard_true by (len_simpl; lia).
    index_simpl. rewrite u8_small by lia.
    assert (len name <> 0) by (intros E%len_zero; done).
    guard_false by (len_simpl; lia).
    rewrite (slice_eq [n; to_u8 (p / 256); to_u8 p; x02; to_u8 (len name)] name rest) by done.
    cbn [res_bind]. rewrite from_utf8_ok by done. cbn [ok_or res_bind].
    lazymatch goal with H : existsb bad_char _ = false |- _ => rewrite H end. cbn [res_bind].
    rewrite (slice_from_eq (n :: to_u8 (p / 256) :: to_u8 p :: x02 :: to_u8 (len name) :: name) rest)
      by (try done; len_simpl; lia).
    done.
Qed.

Lemma flags_bits f :
  u8 (to_u8 (flags f)) = flags f /\ Z.land (flags f) 252 = 0
  /\ negb (Z.land (flags f) 2 =? 0) = error f
  /\ negb (Z.land (flags f) 1 =? 0) = is_some_b (payload f).
Proof. unfold flags. by destruct (payload f), (error f). Qed.

Lemma encode_target_head s t a :
  encode_target s t = Ok a ->
  (s = New \/ s = Keep /\ network t = Udp)
  /\ exists r, a = (if bool_decide (network t = Tcp) then x01 else x02) :: r.
Proof.
  unfold encode_target. intros He. case_if_in He; [done|]. case_if_in He; [done|].
  apply res_bind_ok_inv in He as (b & _ & <-%Ok_inj). split; [|eauto].
  destruct s, (network t); naive_solver.
Qed.

Lemma encode_target_len s t a : encode_target s t = Ok a -> 0 <= len a <= 260.
Proof.
  unfold encode_target. intros He. case_if_in He; [done|]. case_if_in He; [done|].
  apply res_bind_ok_inv in He as (b & Hb & <-%Ok_inj).
  assert (0 <= len b <= 257); [|len_simpl; lia].
  destruct (addr t) as [[ip|ip]|name].
  - apply Ok_inj in Hb as <-. unfold octets4. len_simpl. lia.
  - apply Ok_inj in Hb as <-. unfold octets6. len_simpl. lia.
  - case_if_in Hb; [done|]. unbool. apply Ok_inj in Hb as <-. pose proof (len_nonneg name).
    len_simpl. lia.
Qed.

(** The guards of [encode], as facts about the frame. *)
Lemma encode_ok f w :
  encode f = Ok w ->
  exists meta, encode_metadata f = Ok meta
  /\ w = be_bytes 2 (len meta) ++ meta
         ++ match payload f with Some p => be_bytes 2 (len p) ++ p | None => [] end
  /\ (forall p, payload f = Some p -> len p <= MAX_PAYLOAD)
  /\ (error f = true -> status f = End)
  /\ (status f = New -> frame_target f <> None)
  /\ (forall id, global_id f = Some id ->
        status f = New /\ exists t, frame_target f = Some t /\ network t = Udp).
Proof.
  unfold encode. intros H. case_if_in H; [done|].
  apply res_bind_ok_inv in H as (meta & Hm & <-%Ok_inj). exists meta. split; [done|].
  split; [destruct (payload f); by list_simplifier|].
  destruct f as [sid st er tg gid pl]. simpl in *. unbool.
  repeat split.
  - intros p ->. by unbool.
  - intros ->. destruct st; by simpl in *.
  - intros -> ->. done.
  - destruct gid; [|done]. simpl in *. unbool. done.
  - destruct gid; [|done]. simpl in *. unbool. destruct tg as [t|]; [|done]. unbool. eauto.
Qed.

Lemma decode_status_byte s : decode_status (status_byte s) = Ok s.
Proof. by destruct s. Qed.

Lemma decode_encode_metadata f w meta :
  wf_frame f -> encode f = Ok w -> encode_metadata f = Ok meta ->
  decode_metadata meta = Ok (with_payload f None, flags f)
  /\ 4 <= len meta <= MAX_METADATA.
Proof.
  intros (Hsid & Ht & Hid) (m & Hm & _ & _ & Herr & Hnew & Hgid)%encode_ok Hmeta.
  clear m Hm. unfold encode_metadata in Hmeta.
  destruct (flags_bits f) as (Hf & Hf1 & Hf2 & _).
  assert (exists tgt, meta = be_bytes 2 (session_id f)
            ++ status_byte (status f) :: to_u8 (flags f) :: tgt ++ default [] (global_id f)
          /\ match frame_target f with
             | Some t => encode_target (status f) t = Ok tgt
             | None => tgt = []
             end) as (tgt & -> & Htgt).
  { apply res_bind_ok_inv in Hmeta as (m & Hm & Hg).
    destruct (frame_target f) as [t|].
    - apply res_bind_ok_inv in Hm as (a & Ha & <-%Ok_inj). exists a.
      destruct (global_id f); apply Ok_inj in Hg as <-; split; try done; by list_simplifier.
    - apply Ok_inj in Hm as <-. exists [].
      destruct (global_id f); apply Ok_inj in Hg as <-; split; try done; by list_simplifier. }
  assert (0 <= len tgt <= 260) as Hlt.
  { destruct (frame_target f); [by eapply encode_target_len|]. subst tgt. change (len (@nil byte)) with 0. lia. }
  assert (0 <= len (default [] (global_id f)) <= 8) as Hlg.
  { destruct (global_id f); simpl; [rewrite Hid; lia|]. change (len (@nil byte)) with 0. lia. }
  split; [|len_simpl; unfold MAX_METADATA; lia].
  unfold decode_metadata.
  rewrite (slice_eq [] (be_bytes 2 (session_id f)) (status_byte (status f) :: to_u8 (flags f)
             :: tgt ++ default [] (global_id f))) by done.
  cbn [res_bind]. rewrite from_be_bytes_small by done. rewrite be_bytes_2. cbn [app].
  index_simpl. rewrite decode_status_byte. cbn [res_bind]. index_simpl.
  rewrite Hf, Hf1, Hf2, Z.eqb_refl. cbn [negb orb].
  guard_false by (destruct (error f); [rewrite (Herr eq_refl)|]; done).
  erewrite (slice_from_eq [_; _; _; _]) by done. cbn [res_bind].
  destruct f as [sid st er tg gid pl]. cbn [status frame_target global_id error session_id] in *.
  assert ((if bool_decide (st = New)
              || bool_decide (st = Keep) && bool_decide ((tgt ++ default [] gid) !! 0%nat = Some x02)
           then let? (t, rest) := decode_target (tgt ++ default [] gid) in Ok (Some t, rest)
           else Ok (None, tgt ++ default [] gid)) = @Ok IoError _ (tg, default [] gid)) as ->.
  { destruct tg as [t|].
    - pose proof (encode_target_head _ _ _ Htgt) as [Hst (r & Hr)].
      guard_true by (subst tgt; destruct Hst as [-> | [-> Hu]]; [done|]; by rewrite Hu).
      by rewrite (decode_encode_target st t).
    - subst tgt. destruct gid as [id|].
      { destruct (Hgid id eq_refl) as (_ & t & ? & _). done. }
      destruct st; try done. by destruct (Hnew eq_refl). }
  cbn [res_bind]. destruct gid as [id|].
  - destruct (Hgid id eq_refl) as (-> & t & -> & Hu).
    rewrite Hu, !bool_decide_true by done. cbn [andb]. simpl in *.
    guard_true by lia. rewrite (slice_eq [] id []) by (rewrite ?app_nil_r; done || lia).
    cbn [res_bind]. rewrite (slice_from_eq id []) by (rewrite ?app_nil_r; done). done.
  - simpl. by rewrite andb_false_r.
Qed.

(** ** No input makes the decoder panic *)

Lemma decode_target_no_panic rest : decode_target rest <> Panic.
Proof.
  unfold decode_target. case_if; [done|]. unbool.
  apply res_bind_no_panic; [apply index_no_panic; lia | intros n _].
  apply res_bind_no_panic; [by destruct n | intros nw _].
  apply res_bind_no_panic; [apply slice_no_panic; lia | intros pb _]. case_if; [done|].
  apply res_bind_no_panic; [apply index_no_panic; lia | intros kind _].
  apply res_bind_no_panic.
  - repeat case_if; unbool; try done.
    + apply res_bind_no_panic; [apply slice_no_panic; lia | done].
    + apply res_bind_no_panic; [apply slice_no_panic; lia | done].
    + apply res_bind_no_panic; [apply index_no_panic; lia | intros b _].
      pose proof (u8_range b). case_if; [done|]. unbool.
      apply res_bind_no_panic; [apply slice_no_panic; lia | intros raw _].
      apply res_bind_no_panic; [apply ok_or_no_panic | intros name _]. by case_if.
  - intros [ad count] Hc. apply res_bind_no_panic; [|done]. apply slice_from_no_panic.
    repeat case_if_in Hc; unbool; try done.
    + apply res_bind_ok_inv in Hc as (o & _ & Hc). simplify_eq. lia.
    + apply res_bind_ok_inv in Hc as (o & _ & Hc). simplify_eq. lia.
    + apply res_bind_ok_inv in Hc as (b & _ & Hc). pose proof (u8_range b).
      case_if_in Hc; [done|]. unbool.
      apply res_bind_ok_inv in Hc as (raw & _ & Hc).
      apply res_bind_ok_inv in Hc as (name & _ & Hc). case_if_in Hc; simplify_eq. lia.
Qed.

Lemma decode_metadata_no_panic meta : 4 <= len meta -> decode_metadata meta <> Panic.
Proof.
  intros Hl. unfold decode_metadata.
  apply res_bind_no_panic; [apply slice_no_panic; lia | intros ib _].
  apply res_bind_no_panic; [apply index_no_panic; lia | intros sb _].
  apply res_bind_no_panic; [by destruct sb | intros st _].
  apply res_bind_no_panic; [apply index_no_panic; lia | intros ob _]. case_if; [done|].
  apply res_bind_no_panic; [apply slice_from_no_panic; lia | intros rest _].
  apply res_bind_no_panic.
  { case_if; [|done]. apply res_bind_no_panic; [apply decode_target_no_panic | by intros [? ?] _]. }
  intros [tg rest'] _. apply res_bind_no_panic.
  { case_if; [|done]. unbool. apply res_bind_no_panic; [apply slice_no_panic; lia | intros id _].
    apply res_bind_no_panic; [apply slice_from_no_panic; lia | done]. }
  intros [gid rest''] _. by case_if.
Qed.

Lemma decode_no_panic input : decode input <> Panic.
Proof.
  unfold decode. case_if; [done|]. unbool.
  apply res_bind_no_panic; [apply slice_no_panic; lia | intros lb _].
  case_if; [done|]. unbool. case_if; [done|]. unbool.
  apply res_bind_no_panic; [apply slice_no_panic; lia | intros meta Hm%slice_len].
  apply res_bind_no_panic; [apply decode_metadata_no_panic; lia | intros [fr opts] _].
  case_if; [|done]. case_if; [done|]. unbool.
  apply res_bind_no_panic; [apply slice_no_panic; lia | intros sb _]. case_if; [done|]. unbool.
  case_if; [done|]. unbool. pose proof (from_be_range sb).
  apply res_bind_no_panic; [apply slice_no_panic; lia | done].
Qed.

(** ** Properties *)

(** Decoding inverts encoding: whatever follows an encoded frame in the
    buffer, the decoder returns that frame and the exact length of its
    encoding. *)
Theorem mux_roundtrip f w rest (Hwf : wf_frame f) (Hw : encode f = Ok w) :
  decode (w ++ rest) = Ok (Some (f, len w)).
Proof.
  destruct (encode_ok f w Hw) as (meta & Hm & -> & Hp & _).
  destruct (decode_encode_metadata f _ meta Hwf Hw Hm) as [Hd Hl].
  set (body := match payload f with Some p => be_bytes 2 (len p) ++ p | None => [] end).
  rewrite <- !app_assoc, (decode_intro _ meta body rest (with_payload f None) (flags f) f).
  - f_equal. f_equal. f_equal. rewrite !len_app, len_be_bytes. lia.
  - apply len_be_bytes.
  - apply from_be_bytes_small. unfold MAX_METADATA in Hl. lia.
  - done.
  - done.
  - unfold body_of, body. destruct (flags_bits f) as (_ & _ & _ & Hb).
    destruct f as [sid st er tg gid [p|]]; simpl in *;
      destruct (Z.land _ 1 =? 0); try done.
    specialize (Hp p eq_refl). pose proof (len_nonneg p). unfold MAX_PAYLOAD in *.
    exists (be_bytes 2 (len p)), p. repeat split; try done.
    apply from_be_bytes_small. lia.
Qed.

Definition witness_frame : Frame :=
  mkFrame 37 New false (Some witness_target) (Some (replicate 8 x07)) (Some [x00; x7f; xff]).

Lemma mux_roundtrip_witness :
  exists w, encode witness_frame = Ok w
  /\ decode (w ++ [x01]) = Ok (Some (witness_frame, len w)).
Proof.
  eexists. split; [vm_compute; reflexivity|].
  apply (mux_roundtrip witness_frame _ [x01]); [|vm_compute; reflexivity].
  split; [split; vm_compute; congruence|]. split; [by_decision | reflexivity].
Defined.

(** The stateless decoder is safe to retry on a growing buffer. When it
    accepts a frame of [n] bytes, [n] is within the buffer and the frame bound,
    every shorter prefix was reported incomplete (never an error, never another
    frame), and bytes after the first [n] cannot change the answer. *)
Theorem mux_streaming input f n (Hd : decode input = Ok (Some (f, n))) :
  0 < n <= MAX_FRAME /\ n <= len input
  /\ (forall k, Z.of_nat k < n -> decode (take k input) = Ok None)
  /\ (forall later, decode (take (Z.to_nat n) input ++ later) = Ok (Some (f, n))).
Proof.
  destruct (decode_elim _ _ _ Hd)
    as (hdr & meta & body & rest & fr & opts & -> & Hh & Hm & Hl & Hmd & Hb & ->).
  assert (len body <= 2 + MAX_PAYLOAD) as Hlb.
  { unfold body_of in Hb. case_if_in Hb; [destruct Hb as [-> _]; done|].
    destruct Hb as (size & data & -> & Hs & _ & Hda & _). rewrite len_app. lia. }
  pose proof (len_nonneg body). pose proof (len_nonneg rest). unfold MAX_FRAME in *.
  assert (forall k, (k <= length (hdr ++ meta ++ body))%nat ->
    take k (hdr ++ meta ++ body ++ rest) = take k (hdr ++ meta ++ body)) as Htake.
  { intros k Hk. replace (hdr ++ meta ++ body ++ rest) with ((hdr ++ meta ++ body) ++ rest)
      by by rewrite <- !app_assoc.
    by rewrite take_app_le. }
  split; [lia|]. split; [len_simpl; lia|]. split.
  - intros k Hk. rewrite Htake by (rewrite !length_app; unfold len in *; lia).
    by eapply decode_prefix.
  - intros later. rewrite Htake, take_ge by (rewrite !length_app; unfold len in *; lia).
    rewrite <- !app_assoc. by eapply decode_intro.
Qed.

Definition witness_wire : list byte :=
  Eval vm_compute in match encode witness_frame with Ok w => w | _ => [] end.

Lemma mux_streaming_witness : decode (take 10 witness_wire) = Ok None.
Proof.
  destruct (mux_streaming witness_wire witness_frame (len witness_wire)
              ltac:(vm_compute; reflexivity)) as (_ & _ & H & _).
  apply (H 10%nat). reflexivity.
Defined.

(** No input, however malformed, makes the frame decoder panic. *)
Theorem mux_decode_no_panic input : decode input <> Panic.
Proof. apply decode_no_panic. Qed.

(** The Mux encoder agrees with the older XUDP encoder: for every UDP target
    Mux accepts, a first data frame on session 0 is byte for byte the XUDP new
    packet. *)
Theorem mux_agrees_xudp t p id w (Hwf : wf_target t) (Hid : len id = 8)
    (Hudp : network t = Udp)
    (Hw : encode (mkFrame 0 New false (Some t) (Some id) (Some p)) = Ok w) :
  encode_xudp_new_packet t p id = Ok w.
Proof.
  pose proof (encode_ok _ _ Hw) as (meta & Hm & -> & Hp & _).
  assert (wf_frame (mkFrame 0 New false (Some t) (Some id) (Some p))) as Hf
    by (split; [split; simpl; lia | done]).
  destruct (decode_encode_metadata _ _ _ Hf Hw Hm) as [_ Hl]. clear Hw Hf.
  specialize (Hp p eq_refl). cbn [payload].
  apply res_bind_ok_inv in Hm as (m & Hm & Hg%Ok_inj).
  apply res_bind_ok_inv in Hm as (a & Ha & Hm%Ok_inj). simpl in Ha.
  unfold encode_target in Ha. case_if_in Ha; [done|]. case_if_in Ha; [done|].
  apply res_bind_ok_inv in Ha as (b & Hb & Ha%Ok_inj). rewrite Hudp in Ha.
  assert (encode_addr_port t = Ok (be_bytes 2 (port t) ++ b)) as He.
  { unfold encode_addr_port. destruct (addr t) as [[ip|ip]|name].
    - by apply Ok_inj in Hb as <-.
    - by apply Ok_inj in Hb as <-.
    - case_if_in Hb; [done|]. unbool. apply Ok_inj in Hb as <-.
      unfold u8_try_from. guard_true by lia. done. }
  unfold encode_xudp_new_packet. rewrite He. cbn [res_bind].
  assert ([x00; x00] ++ [XUDP_CMD_NEW; XUDP_OPT_DATA; XUDP_NETWORK_UDP]
          ++ (be_bytes 2 (port t) ++ b) ++ id = meta) as ->
    by (rewrite <- Hg, <- Hm, <- Ha; by list_simplifier).
  unfold encode_xudp_frame, MAX_METADATA, MAX_PAYLOAD in *.
  rewrite u16_try_from_intro by lia. cbn [res_bind]. by rewrite u16_try_from_intro by lia.
Qed.

Lemma mux_agrees_xudp_witness :
  is_ok (encode_xudp_new_packet witness_target [x01] (replicate 8 x07)) = true.
Proof.
  erewrite (mux_agrees_xudp witness_target [x01] (replicate 8 x07));
    [reflexivity | by_decision | reflexivity | reflexivity | vm_compute; reflexivity].
Defined.
