(* ===== verification/FakeDns.v ===== *)
(** [crates/xray-core-rs/src/fake_dns.rs]: the bounded, leased mapping between
    DNS names and synthetic IPv4 addresses, as a state machine over its four
    tables. *)
From Stdlib Require Import Strings.Byte.
From Stdlib Require Lists.Finite.
From S2P Require Import Prelude Net IpRangeSet.

Inductive DnsQueryStrategy := UseIp | UseIpv4 | UseIpv6.

(** [DnsFakeIpConfig]; an [IpCidr] wraps a [Cidr]. *)
Record DnsFakeIpConfig := mkFakeIpConfig {
  enabled : bool;
  ipv4_pool : Cidr;
  pool_size : Z;
  ttl_secs : Z
}.

(** An [Instant] in nanoseconds; [checked_add] fails past the largest
    [timespec]. *)
Definition INSTANT_MAX : Z := 9223372036854775807 * 1000000000 + 999999999.
Definition instant_checked_add (now secs : Z) : option Z :=
  let t := now + secs * 1000000000 in
  if t <=? INSTANT_MAX then Some t else None.

Record FakeIpEntry := mkEntry {
  domain : str;
  ip : Z;
  reusable_after : Z
}.

(** [RouteProbe::families]: which families have a route, (ipv4, ipv6). *)
Class RouteProbes := { RouteProbe : Type; families : RouteProbe -> bool * bool }.

Section FakeDns.
Context `{Probes : RouteProbes}.

Record FakeIpMapper := mkMapper {
  query_strategy : DnsQueryStrategy;
  route_probe : option RouteProbe;
  ttl : Z;
  network_base : Z;
  address_count : Z;
  first_offset : Z;
  allocation_span : Z;
  max_mappings : Z;
  reserved_ipv4 : list Z;
  next_offset : Z;
  entries : list (option FakeIpEntry);
  lease_index : gset (Z * nat);
  by_domain : gmap str nat;
  by_ipv4 : gmap Z nat
}.

Inductive FakeIpLookup :=
| Mapped (domain : str)
| InPoolUnmapped
| Outside.

(** ** Construction *)

(** [Vec::dedup] *)
Fixpoint dedup (l : list Z) : list Z :=
  match l with
  | x :: ((y :: _) as r) => if x =? y then dedup r else x :: dedup r
  | _ => l
  end.

(** [a.checked_sub(b)] on [u32]. *)
Definition checked_sub (a b : Z) : option Z := if b <=? a then Some (a - b) else None.

(** [u32::from(ip).checked_sub(base)] lies in [lo..hi]. *)
Definition offset_in (base lo hi : Z) (ip : Z) : bool :=
  match checked_sub ip base with
  | Some offset => (lo <=? offset) && (offset <? hi)
  | None => false
  end.

Definition from_config_with_start (config : DnsFakeIpConfig) (strategy : DnsQueryStrategy)
    (reserved : list Z) (start : Z) : option FakeIpMapper :=
  if negb (enabled config) || (ttl_secs config =? 0) then None
  else match cidr_network (ipv4_pool config) with
  | V6 _ => None
  | V4 ipv4_network =>
    let prefix := prefix_len (ipv4_pool config) in
    if 32 <? prefix then None
    else
      let address_count := Z.shiftl 1 (32 - prefix) in
      let first_offset := if 2 <? address_count then 1 else 0 in
      let allocation_span := if 2 <? address_count then address_count - 2 else address_count in
      if allocation_span =? 0 then None
      else
        let mask := if prefix =? 0 then 0 else wrap32 (Z.shiftl u32_max (32 - prefix)) in
        let network_base := Z.land ipv4_network mask in
        let reserved := dedup (merge_sort Z.le reserved) in
        let reserved_address_count :=
          len (List.filter (offset_in network_base first_offset (first_offset + allocation_span))
                 reserved) in
        let available_addresses := allocation_span - reserved_address_count in
        if (pool_size config =? 0) || (available_addresses <? pool_size config) then None
        else Some (mkMapper strategy None (ttl_secs config) network_base address_count
                     first_offset allocation_span (pool_size config) reserved
                     (start mod allocation_span) [] ∅ ∅ ∅)
  end.

Definition with_route_probe (m : FakeIpMapper) (probe : RouteProbe) : FakeIpMapper :=
  mkMapper (query_strategy m) (Some probe) (ttl m) (network_base m) (address_count m)
    (first_offset m) (allocation_span m) (max_mappings m) (reserved_ipv4 m) (next_offset m)
    (entries m) (lease_index m) (by_domain m) (by_ipv4 m).

Definition answers (m : FakeIpMapper) (ipv6 : bool) : bool :=
  let allowed :=
    match query_strategy m with UseIp => true | UseIpv4 => negb ipv6 | UseIpv6 => ipv6 end in
  allowed && match route_probe m with
             | None => true
             | Some probe => let '(r4, r6) := families probe in if ipv6 then r6 else r4
             end.

(** ** State *)

(** Field updates. *)
Definition set_tables (m : FakeIpMapper) (next : Z) (es : list (option FakeIpEntry))
    (leases : gset (Z * nat)) (domains : gmap str nat) (ips : gmap Z nat) : FakeIpMapper :=
  mkMapper (query_strategy m) (route_probe m) (ttl m) (network_base m) (address_count m)
    (first_offset m) (allocation_span m) (max_mappings m) (reserved_ipv4 m) next es leases
    domains ips.
Definition set_next_offset (m : FakeIpMapper) (next : Z) : FakeIpMapper :=
  set_tables m next (entries m) (lease_index m) (by_domain m) (by_ipv4 m).
Definition set_entries (m : FakeIpMapper) (es : list (option FakeIpEntry)) : FakeIpMapper :=
  set_tables m (next_offset m) es (lease_index m) (by_domain m) (by_ipv4 m).
Definition set_leases (m : FakeIpMapper) (leases : gset (Z * nat)) : FakeIpMapper :=
  set_tables m (next_offset m) (entries m) leases (by_domain m) (by_ipv4 m).
Definition set_maps (m : FakeIpMapper) (domains : gmap str nat) (ips : gmap Z nat)
    : FakeIpMapper :=
  set_tables m (next_offset m) (entries m) (lease_index m) domains ips.

(** A method on [&mut self] returning an [Option], with early return by [?]. *)
Definition Op (A : Type) : Type := FakeIpMapper -> option A * FakeIpMapper.
Definition op_bind {A B} (f : Op A) (k : A -> Op B) : Op B :=
  fun m => match f m with (Some a, m') => k a m' | (None, m') => (None, m') end.
Definition op_ret {A} (a : A) : Op A := fun m => (Some a, m).
(** [opt?] on a value read from the state. *)
Definition op_get {A} (f : FakeIpMapper -> option A) : Op A := fun m => (f m, m).
Definition op_update (f : FakeIpMapper -> FakeIpMapper) : Op unit := fun m => (Some tt, f m).
#[local] Notation "'let*' x := m 'in' k" := (op_bind m (fun x => k))
  (at level 10, x pattern, m at level 100, k at level 200,
   format "'[v' 'let*'  x  :=  m  'in' '/' k ']'").

Definition normalize_dns_domain (d : str) : option str :=
  let d := to_ascii_lowercase (trim_end_dots d) in
  if bool_decide (d = []) then None else Some d.

Definition contains_ipv4 (m : FakeIpMapper) (ip : Z) : bool :=
  match checked_sub ip (network_base m) with
  | Some offset => offset <? address_count m
  | None => false
  end.

Definition domain_for_ipv4 (m : FakeIpMapper) (ip : Z) : option str :=
  slot ← by_ipv4 m !! ip; e ← entries m !! slot; domain <$> e.

Definition lookup_ipv4 (m : FakeIpMapper) (ip : Z) : FakeIpLookup :=
  match domain_for_ipv4 m ip with
  | Some domain => Mapped domain
  | None => if contains_ipv4 m ip then InPoolUnmapped else Outside
  end.

(** [slice::binary_search(..).is_ok()] on the sorted reservations. *)
Definition is_reserved (l : list Z) (x : Z) : bool :=
  bool_decide (l !! partition_point (fun y => y <? x) l = Some x).

(** The loop of [next_available_ipv4], [n] turns left. *)
Fixpoint next_available_loop (n : nat) : Op Z :=
  match n with
  | O => fun m => (None, m)
  | S n => fun m =>
    let offset := first_offset m + next_offset m mod allocation_span m in
    let m' := set_next_offset m ((next_offset m + 1) mod allocation_span m) in
    if u32_max <? offset then (None, m')
    else
      let ip := network_base m' + offset in
      if u32_max <? ip then (None, m')
      else if is_reserved (reserved_ipv4 m') ip then next_available_loop n m'
      else if bool_decide (is_Some (by_ipv4 m' !! ip)) then next_available_loop n m'
      else (Some ip, m')
  end.

Definition next_available_ipv4 : Op Z :=
  fun m => next_available_loop (Z.to_nat (allocation_span m)) m.

(** [BTreeSet::first]: the least pair. *)
Definition lease_le (a b : Z * nat) : bool :=
  (fst a <? fst b) || (fst a =? fst b) && (snd a <=? snd b)%nat.
Definition least (a : Z * nat) (o : option (Z * nat)) : option (Z * nat) :=
  match o with None => Some a | Some b => Some (if lease_le a b then a else b) end.
Definition lease_first (s : gset (Z * nat)) : option (Z * nat) :=
  foldr least None (elements s).

Definition insert_mapping (slot : nat) (d : str) (a : Z) (after : Z) : Op unit :=
  let entry := mkEntry d a after in
  let* _ := (fun m =>
    if (slot =? length (entries m))%nat then (Some tt, set_entries m (entries m ++ [Some entry]))
    else if (slot <? length (entries m))%nat
    then (Some tt, set_entries m (<[slot := Some entry]> (entries m)))
    else (None, m)) in
  let* _ := op_update (fun m =>
    set_maps m (<[d := slot]> (by_domain m)) (<[a := slot]> (by_ipv4 m))) in
  fun m =>
    (if bool_decide ((after, slot) ∈ lease_index m) then None else Some tt,
     set_leases m ({[(after, slot)]} ∪ lease_index m)).

Definition remove_earliest_expired (now : Z) : Op (nat * Z) :=
  let* (after, slot) := op_get (fun m => lease_first (lease_index m)) in
  if now <? after then fun m => (None, m)
  else
    let* _ := op_update (fun m => set_leases m (lease_index m ∖ {[(after, slot)]})) in
    let* entry := (fun m =>
      match entries m !! slot with
      | Some e => (e, set_entries m (<[slot := None]> (entries m)))
      | None => (None, m)
      end) in
    let* _ := op_update (fun m =>
      set_maps m (delete (domain entry) (by_domain m)) (delete (ip entry) (by_ipv4 m))) in
    op_ret (slot, ip entry).

(** [allocate_ipv4_at]; [allocate_ipv4] is this at the current time. *)
Definition allocate_ipv4_at (d : str) (now : Z) : Op Z :=
  let* d := op_get (fun _ => normalize_dns_domain d) in
  let* after := op_get (fun m => instant_checked_add now (ttl m)) in
  fun m =>
  match by_domain m !! d with
  | Some slot =>
    (let* entry := op_get (fun m => mjoin (entries m !! slot)) in
     let* _ := op_update (fun m =>
       set_leases m (lease_index m ∖ {[(reusable_after entry, slot)]})) in
     let* _ := op_update (fun m =>
       set_entries m (<[slot := Some (mkEntry (domain entry) (ip entry) after)]> (entries m))) in
     let* _ := op_update (fun m => set_leases m ({[(after, slot)]} ∪ lease_index m)) in
     op_ret (ip entry)) m
  | None =>
    if max_mappings m <=? Z.of_nat (size (by_domain m)) then
      (let* (slot, a) := remove_earliest_expired now in
       let* _ := insert_mapping slot d a after in
       op_ret a) m
    else
      (let slot := length (entries m) in
       let* a := next_available_ipv4 in
       let* _ := insert_mapping slot d a after in
       op_ret a) m
  end.

(** ** The tables agree *)

(** The entry a slot holds. *)
Definition live (es : list (option FakeIpEntry)) (s : nat) : option FakeIpEntry :=
  mjoin (es !! s).

(** The three indexes describe exactly the held entries. *)
Record tables_ok (L : nat -> option FakeIpEntry) (leases : gset (Z * nat))
    (domains : gmap str nat) (ips : gmap Z nat) : Prop := {
  ok_domain : forall d s, domains !! d = Some s <-> exists e, L s = Some e /\ domain e = d;
  ok_ip : forall a s, ips !! a = Some s <-> exists e, L s = Some e /\ ip e = a;
  ok_lease : forall t s, (t, s) ∈ leases <-> exists e, L s = Some e /\ reusable_after e = t
}.

(** The slots' contents after writing [o] to slot [s]. *)
Definition write (L : nat -> option FakeIpEntry) (s : nat) (o : option FakeIpEntry)
    (s' : nat) : option FakeIpEntry :=
  if decide (s = s') then o else L s'.

Lemma tables_ext L L' leases domains ips :
  (forall s, L s = L' s) -> tables_ok L leases domains ips -> tables_ok L' leases domains ips.
Proof.
  intros E [H1 H2 H3]. split; intros; [rewrite H1 | rewrite H2 | rewrite H3];
    split; intros (e & ? & ?); exists e; by rewrite ?E in *.
Qed.

Lemma tables_set L leases domains ips s e :
  tables_ok L leases domains ips -> L s = None ->
  domains !! domain e = None -> ips !! ip e = None ->
  tables_ok (write L s (Some e)) ({[(reusable_after e, s)]} ∪ leases)
    (<[domain e := s]> domains) (<[ip e := s]> ips)
  /\ (reusable_after e, s) ∉ leases.
Proof.
  intros [H1 H2 H3] Hs Hd Hi. split; [split|].
  - intros d s'. unfold write. rewrite lookup_insert_Some, H1. destruct (decide (s = s')) as [<-|].
    + rewrite Hs. naive_solver.
    + split; [naive_solver|]. intros (e' & He & Hd'). right. split; [|eauto].
      intros <-. assert (domains !! domain e' = Some s') by (apply H1; eauto). congruence.
  - intros a s'. unfold write. rewrite lookup_insert_Some, H2. destruct (decide (s = s')) as [<-|].
    + rewrite Hs. naive_solver.
    + split; [naive_solver|]. intros (e' & He & Hd'). right. split; [|eauto].
      intros <-. assert (ips !! ip e' = Some s') by (apply H2; eauto). congruence.
  - intros t s'. unfold write. rewrite elem_of_union, elem_of_singleton, H3.
    destruct (decide (s = s')) as [<-|]; [rewrite Hs|]; naive_solver.
  - rewrite H3. rewrite Hs. naive_solver.
Qed.

Lemma tables_unset L leases domains ips s e :
  tables_ok L leases domains ips -> L s = Some e ->
  tables_ok (write L s None) (leases ∖ {[(reusable_after e, s)]})
    (delete (domain e) domains) (delete (ip e) ips).
Proof.
  intros [H1 H2 H3] Hs. split.
  - intros d s'. unfold write. rewrite lookup_delete_Some, H1.
    destruct (decide (s = s')) as [<-|]; [naive_solver|].
    split; [naive_solver|]. intros (e' & He & Hd). split; [|eauto].
    intros <-. assert (domains !! domain e = Some s) by (apply H1; eauto).
    assert (domains !! domain e = Some s') by (apply H1; eauto). congruence.
  - intros a s'. unfold write. rewrite lookup_delete_Some, H2.
    destruct (decide (s = s')) as [<-|]; [naive_solver|].
    split; [naive_solver|]. intros (e' & He & Hd). split; [|eauto].
    intros <-. assert (ips !! ip e = Some s) by (apply H2; eauto).
    assert (ips !! ip e = Some s') by (apply H2; eauto). congruence.
  - intros t s'. unfold write. rewrite elem_of_difference, elem_of_singleton, H3.
    destruct (decide (s = s')) as [<-|]; naive_solver.
Qed.

(** Refreshing a lease is removing and writing back the entry. *)
Lemma tables_refresh L leases domains ips s e t :
  tables_ok L leases domains ips -> L s = Some e ->
  tables_ok (write L s (Some (mkEntry (domain e) (ip e) t)))
    ({[(t, s)]} ∪ leases ∖ {[(reusable_after e, s)]}) domains ips.
Proof.
  intros H0 Hs. pose proof (tables_unset _ _ _ _ _ _ H0 Hs) as H1.
  destruct (tables_set _ _ _ _ s (mkEntry (domain e) (ip e) t) H1) as [H2 _].
  - unfold write. by rewrite decide_True.
  - simpl. apply lookup_delete_eq.
  - simpl. apply lookup_delete_eq.
  - simpl in H2. rewrite !insert_delete_eq in H2.
    rewrite (insert_id domains), (insert_id ips) in H2 by (apply H0; eauto).
    eapply tables_ext; [|exact H2]. intros s'. unfold write. by case_decide.
Qed.

Lemma live_push es o s : live (es ++ [o]) s = write (live es) (length es) o s.
Proof.
  unfold live, write. case_decide; subst.
  - by rewrite list_lookup_middle.
  - destruct (decide (s < length es)%nat); [by rewrite lookup_app_l|].
    rewrite !lookup_ge_None_2; [done | lia | rewrite length_app; simpl; lia].
Qed.

Lemma live_insert es o s s' :
  (s < length es)%nat -> live (<[s := o]> es) s' = write (live es) s o s'.
Proof.
  intros Hs. unfold live, write. case_decide; subst.
  - by rewrite list_lookup_insert_eq.
  - by rewrite list_lookup_insert_ne.
Qed.

Lemma live_Some es s e : live es s = Some e <-> es !! s = Some (Some e).
Proof. unfold live. destruct (es !! s) as [[?|]|]; naive_solver. Qed.

Lemma live_lt es s e : live es s = Some e -> (s < length es)%nat.
Proof. rewrite live_Some. apply lookup_lt_Some. Qed.

(** ** Library facts *)

(** A map whose keys are assigned to exactly the slots [0 .. n-1], one each. *)
Lemma size_indexed `{Countable K} (m : gmap K nat) (R : nat -> K -> Prop) n :
  (forall k s, m !! k = Some s <-> R s k) ->
  (forall s, (s < n)%nat <-> exists k, R s k) ->
  (forall s k k', R s k -> R s k' -> k = k') ->
  size m = n.
Proof.
  intros Hm Hn Hf. rewrite <- length_map_to_list.
  rewrite <- (length_fmap snd), <- (length_seq n 0). apply Permutation_length.
  apply NoDup_Permutation; [|apply NoDup_seq|].
  - apply NoDup_fmap_2_strong; [|apply NoDup_map_to_list].
    intros [k s] [k' s'] H1 H2 E. simpl in E. subst s'.
    apply elem_of_map_to_list in H1, H2. rewrite Hm in H1, H2. f_equal. by eapply Hf.
  - intros s. rewrite list_elem_of_fmap, elem_of_seq. simpl. split.
    + intros ([k s'] & -> & Hin%elem_of_map_to_list). apply Hm in Hin.
      assert (s' < n)%nat by (apply Hn; eauto). simpl. lia.
    + intros [_ Hs]. apply Hn in Hs as [k Hk]. apply Hm in Hk. exists (k, s).
      split; [done | by apply elem_of_map_to_list].
Qed.

Lemma lease_le_total a b : lease_le a b = false -> lease_le b a = true.
Proof.
  unfold lease_le. destruct a as [a s], b as [b t]. simpl. intros [H1 H2]%orb_false_iff.
  apply Z.ltb_ge in H1. apply orb_true_iff.
  destruct (decide (b < a)); [left; by apply Z.ltb_lt | right].
  assert (a = b) as -> by lia. rewrite Z.eqb_refl in *. simpl in *.
  apply Nat.leb_gt in H2. apply Nat.leb_le. lia.
Qed.

Lemma lease_le_fst a b : lease_le a b = true -> fst a <= fst b.
Proof. unfold lease_le. intros [Hlt%Z.ltb_lt|[Heq%Z.eqb_eq _]%andb_true_iff]%orb_true_iff; lia. Qed.

Lemma lease_first_spec s :
  match lease_first s with
  | Some a => a ∈ s /\ forall b, b ∈ s -> fst a <= fst b
  | None => s = ∅
  end.
Proof.
  unfold lease_first.
  assert (forall l, match foldr least None l with
    | Some a => a ∈ l /\ forall b, b ∈ l -> fst a <= fst b
    | None => l = []
    end) as Hl.
  { induction l as [|x l IH]; simpl; [done|].
    destruct (foldr least None l) as [y|]; simpl.
    - destruct IH as [Hy Hmin]. destruct (lease_le x y) eqn:E.
      + apply lease_le_fst in E. split; [constructor|]. intros b [->|Hb]%elem_of_cons; [lia|].
        specialize (Hmin b Hb). lia.
      + apply lease_le_total, lease_le_fst in E. split; [by constructor|].
        intros b [->|Hb]%elem_of_cons; [lia | auto].
    - subst l. split; [constructor|]. intros b ->%list_elem_of_singleton. lia. }
  specialize (Hl (elements s)). destruct (foldr least None (elements s)) as [a|].
  - destruct Hl as [Ha Hb]. split; [set_solver|]. intros b Hin. apply Hb. set_solver.
  - by apply elements_empty_inv in Hl; fold_leibniz.
Qed.

(** Strictly increasing lists, and what sorting and [dedup] make of a list. *)
Abbreviation increasing := (StronglySorted Z.lt).

Lemma dedup_spec l :
  StronglySorted Z.le l -> increasing (dedup l) /\ forall x, In x (dedup l) <-> In x l.
Proof.
  induction l as [|x [|y l] IH]; intros Hs; [split; [constructor | done] | |].
  - split; [|done]. repeat constructor.
  - apply StronglySorted_inv in Hs as [Hs Hf]. destruct (IH Hs) as [Hi Hin].
    cbn [dedup]. destruct (x =? y) eqn:E; unbool.
    + subst y. split; [done|]. intros z. rewrite Hin. simpl. naive_solver.
    + split.
      * constructor; [done|]. apply List.Forall_forall. intros z Hz. apply Hin in Hz.
        apply StronglySorted_inv in Hs as [_ Hy].
        pose proof (Forall_In _ _ _ Hf (or_introl eq_refl)). simpl in *.
        destruct Hz as [<-|Hz]; [lia|]. pose proof (Forall_In _ _ _ Hy Hz). simpl in *. lia.
      * intros z. cbn [In]. rewrite Hin. done.
Qed.

Lemma reserved_sorted l :
  increasing (dedup (merge_sort Z.le l)) /\ forall x, In x (dedup (merge_sort Z.le l)) <-> In x l.
Proof.
  destruct (dedup_spec (merge_sort Z.le l)) as [H1 H2]; [apply (StronglySorted_merge_sort Z.le)|].
  split; [done|]. intros x. rewrite H2. rewrite <- !list_elem_of_In.
  by rewrite (merge_sort_Permutation Z.le l).
Qed.

Lemma increasing_split l x :
  increasing l ->
  exists k, (k <= length l)%nat
    /\ (forall i y, l !! i = Some y -> (y <? x) = (i <? k)%nat)
    /\ (In x l -> l !! k = Some x).
Proof.
  induction l as [|y l IH]; intros Hs.
  - exists 0%nat. split; [done|]. split; [|done]. intros i y. by rewrite lookup_nil.
  - apply StronglySorted_inv in Hs as [Hs Hf]. destruct (IH Hs) as (k & Hk & Hi & Hx).
    destruct (y <? x) eqn:E; unbool.
    + exists (S k). split; [simpl; lia|]. split.
      * intros [|i] z; simpl; intros [= ?]; subst.
        -- by apply Z.ltb_lt in E.
        -- by apply Hi.
      * intros [->|Hin]; [lia | by apply Hx].
    + exists 0%nat. split; [lia|]. split.
      * intros [|i] z; simpl; intros Hz; simplify_eq.
        -- apply Z.ltb_ge. lia.
        -- apply list_elem_of_lookup_2, list_elem_of_In in Hz.
           pose proof (Forall_In _ _ _ Hf Hz). simpl in *. apply Z.ltb_ge. lia.
      * intros [->|Hin]; [done|]. pose proof (Forall_In _ _ _ Hf Hin). simpl in *. lia.
Qed.

Lemma is_reserved_spec l x : increasing l -> is_reserved l x = true <-> In x l.
Proof.
  intros Hs. destruct (increasing_split l x Hs) as (k & Hk & Hi & Hx).
  unfold is_reserved. rewrite (partition_point_spec _ _ k) by done.
  rewrite bool_decide_eq_true. split; [|done].
  intros E. apply list_elem_of_In. by eapply list_elem_of_lookup_2.
Qed.

(** ** The pool *)

(** What construction fixes: the pool lies within IPv4, its reservations are
    sorted, and the capacity fits the addresses left. *)
Record pool_ok (m : FakeIpMapper) : Prop := {
  pool_span : 0 < allocation_span m;
  pool_first : 0 <= first_offset m;
  pool_inside : first_offset m + allocation_span m <= address_count m;
  pool_base : 0 <= network_base m;
  pool_u32 : network_base m + address_count m <= 4294967296;
  pool_next : 0 <= next_offset m < allocation_span m;
  pool_reserved : increasing (reserved_ipv4 m);
  pool_max : 0 < max_mappings m;
  pool_capacity :
    max_mappings m + len (List.filter
      (offset_in (network_base m) (first_offset m) (first_offset m + allocation_span m))
      (reserved_ipv4 m)) <= allocation_span m
}.

Definition nth_address (m : FakeIpMapper) (o : Z) : Z := network_base m + (first_offset m + o).

Definition allocatable (m : FakeIpMapper) (a : Z) : Prop :=
  (exists o, 0 <= o < allocation_span m /\ a = nth_address m o) /\ ~ In a (reserved_ipv4 m).

Definition busy (m : FakeIpMapper) (a : Z) : Prop :=
  In a (reserved_ipv4 m) \/ is_Some (by_ipv4 m !! a).

Lemma set_next_offset_id m x y : set_next_offset (set_next_offset m x) y = set_next_offset m y.
Proof. done. Qed.

Lemma pool_ok_next m x : 0 <= x < allocation_span m -> pool_ok m -> pool_ok (set_next_offset m x).
Proof. intros Hx []. by split. Qed.

Lemma next_available_loop_spec n m :
  pool_ok m ->
  exists r x, next_available_loop n m = (r, set_next_offset m x)
    /\ 0 <= x < allocation_span m
    /\ match r with
       | Some a => allocatable m a /\ by_ipv4 m !! a = None
       | None => forall i, (i < n)%nat ->
           busy m (nth_address m ((next_offset m + Z.of_nat i) mod allocation_span m))
       end.
Proof.
  revert m. induction n as [|n IH]; intros m Hp.
  { exists None, (next_offset m). destruct m. split; [done|]. split; [apply Hp|]. lia. }
  pose proof Hp as [Hspan Hfirst Hin Hbase Hu32 Hnext Hres _ _].
  set (x := (next_offset m + 1) mod allocation_span m).
  assert (0 <= x < allocation_span m) as Hx by (apply Z.mod_pos_bound; lia).
  destruct (IH _ (pool_ok_next m x Hx Hp)) as (r & y & E & Hy & Hr).
  cbn [next_available_loop]. rewrite (Z.mod_small (next_offset m)) by lia.
  unfold u32_max. guard_false by lia. simpl network_base. guard_false by lia.
  fold x. set (a := network_base m + (first_offset m + next_offset m)).
  assert (busy m a -> exists r x0, next_available_loop n (set_next_offset m x)
    = (r, set_next_offset m x0) /\ 0 <= x0 < allocation_span m /\
    match r with
    | Some a => allocatable m a /\ by_ipv4 m !! a = None
    | None => forall i, (i < S n)%nat ->
        busy m (nth_address m ((next_offset m + Z.of_nat i) mod allocation_span m))
    end) as Hgo.
  { intros Hb. exists r, y. split; [by rewrite E|]. split; [done|].
    destruct r as [b|]; [done|]. intros [|i] Hi.
    - rewrite Z.add_0_r, Z.mod_small by lia. done.
    - assert (i < n)%nat as Hi' by lia. specialize (Hr i Hi'). simpl in Hr. unfold x in Hr.
      rewrite Z.add_mod_idemp_l in Hr by lia.
      by replace (next_offset m + Z.of_nat (S i)) with (next_offset m + 1 + Z.of_nat i) by lia. }
  simpl reserved_ipv4. simpl by_ipv4. case_if.
  { apply Hgo. left. by apply is_reserved_spec. }
  case_if; unbool; [apply Hgo; by right|].
  exists (Some a), x. split; [done|]. split; [done|]. split.
  - split; [exists (next_offset m); split; [lia | done]|].
    intros Hin'. apply is_reserved_spec in Hin'; [|done]. congruence.
  - by apply eq_None_not_Some.
Qed.

(** With fewer entries than the capacity some address is free. *)
Lemma next_available_found m :
  pool_ok m -> Z.of_nat (size (by_ipv4 m)) < max_mappings m ->
  exists a x, next_available_ipv4 m = (Some a, set_next_offset m x)
    /\ 0 <= x < allocation_span m /\ allocatable m a /\ by_ipv4 m !! a = None.
Proof.
  intros Hp Hsize.
  destruct (next_available_loop_spec (Z.to_nat (allocation_span m)) m Hp)
    as ([a|] & x & E & Hx & Hr).
  { destruct Hr. exists a, x. by rewrite <- E. }
  exfalso.
  pose proof Hp as [Hspan _ _ Hbase _ Hnext _ _ Hcap].
  set (inside := offset_in (network_base m) (first_offset m)
                   (first_offset m + allocation_span m)) in *.
  assert (incl (map (fun o => nth_address m (Z.of_nat o)) (seq 0 (Z.to_nat (allocation_span m))))
               (List.filter inside (reserved_ipv4 m) ++ map fst (map_to_list (by_ipv4 m)))) as Hincl.
  { intros a. rewrite in_map_iff. intros (o & <- & Ho%in_seq).
    set (i := ((Z.of_nat o - next_offset m) mod allocation_span m)).
    assert (0 <= i < allocation_span m) as Hi by (apply Z.mod_pos_bound; lia).
    specialize (Hr (Z.to_nat i) ltac:(lia)). rewrite Z2Nat.id in Hr by lia. unfold i in Hr.
    rewrite Z.add_mod_idemp_r in Hr by lia.
    replace (next_offset m + (Z.of_nat o - next_offset m)) with (Z.of_nat o) in Hr by lia.
    rewrite Z.mod_small in Hr by lia. apply in_app_iff. destruct Hr as [Hr|[s Hr]].
    - left. apply filter_In. split; [done|]. unfold inside, offset_in, checked_sub, nth_address.
      pose proof (pool_first m Hp). guard_true by lia. apply andb_true_iff.
      rewrite Z.leb_le, Z.ltb_lt. lia.
    - right. apply in_map_iff. exists (nth_address m (Z.of_nat o), s). split; [done|].
      by apply list_elem_of_In, elem_of_map_to_list. }
  apply NoDup_incl_length in Hincl.
  - rewrite length_map, length_seq, length_app, length_map, length_map_to_list in Hincl.
    unfold len in Hcap. lia.
  - apply Finite.Injective_map_NoDup; [|apply List.seq_NoDup].
    intros o o' E'. unfold nth_address in E'. lia.
Qed.

(** ** The invariant *)

Record mapper_inv (m : FakeIpMapper) : Prop := {
  inv_pool : pool_ok m;
  inv_tables : tables_ok (live (entries m)) (lease_index m) (by_domain m) (by_ipv4 m);
  inv_full : Forall is_Some (entries m);
  inv_size : len (entries m) <= max_mappings m;
  inv_entries : forall s e, live (entries m) s = Some e ->
    normalize_dns_domain (domain e) = Some (domain e) /\ allocatable m (ip e)
}.

Lemma full_live es s : Forall is_Some es -> (s < length es)%nat <-> exists e, live es s = Some e.
Proof.
  intros Hf. split; [|intros [e He]; by eapply live_lt].
  intros [o Ho]%lookup_lt_is_Some_2. pose proof (Forall_lookup_1 _ _ _ _ Hf Ho) as [e ->].
  exists e. by apply live_Some.
Qed.

Lemma inv_sizes m :
  mapper_inv m ->
  size (by_domain m) = length (entries m) /\ size (by_ipv4 m) = length (entries m).
Proof.
  intros [_ [H1 H2 _] Hf _ _]. split.
  - apply (size_indexed _ (fun s d => exists e, live (entries m) s = Some e /\ domain e = d) _ H1).
    + intros s. rewrite full_live by done. naive_solver.
    + naive_solver.
  - apply (size_indexed _ (fun s a => exists e, live (entries m) s = Some e /\ ip e = a) _ H2).
    + intros s. rewrite full_live by done. naive_solver.
    + naive_solver.
Qed.

Lemma allocatable_tables m x es l d i a :
  allocatable (set_tables m x es l d i) a <-> allocatable m a.
Proof. done. Qed.

(** Storing an entry in a fresh last slot or in an emptied one. *)
Lemma insert_mapping_spec m s d a after :
  tables_ok (live (entries m)) (lease_index m) (by_domain m) (by_ipv4 m) ->
  (s <= length (entries m))%nat -> live (entries m) s = None ->
  by_domain m !! d = None -> by_ipv4 m !! a = None ->
  exists es,
    insert_mapping s d a after m
    = (Some tt, set_tables m (next_offset m) es ({[(after, s)]} ∪ lease_index m)
                  (<[d := s]> (by_domain m)) (<[a := s]> (by_ipv4 m)))
    /\ tables_ok (live es) ({[(after, s)]} ∪ lease_index m)
         (<[d := s]> (by_domain m)) (<[a := s]> (by_ipv4 m))
    /\ (forall s', live es s' = write (live (entries m)) s (Some (mkEntry d a after)) s')
    /\ es = (if decide (s = length (entries m)) then entries m ++ [Some (mkEntry d a after)]
             else <[s := Some (mkEntry d a after)]> (entries m)).
Proof.
  intros Ht Hs Hl Hd Ha.
  destruct (tables_set _ _ _ _ s (mkEntry d a after) Ht Hl Hd Ha) as [Ht' Hfresh]. simpl in *.
  set (es := if decide (s = length (entries m)) then entries m ++ [Some (mkEntry d a after)]
             else <[s := Some (mkEntry d a after)]> (entries m)).
  assert (forall s', live es s' = write (live (entries m)) s (Some (mkEntry d a after)) s') as Hes.
  { intros s'. unfold es. case_decide; subst; [apply live_push | apply live_insert; lia]. }
  exists es. split_and!; [|by eapply tables_ext; [|exact Ht']|done|done].
  unfold insert_mapping, op_bind, op_update. unfold es. case_decide as Hsl.
  - subst s. rewrite Nat.eqb_refl. simpl. by rewrite bool_decide_false.
  - rewrite (proj2 (Nat.eqb_neq _ _)), (proj2 (Nat.ltb_lt _ _)) by lia. simpl.
    by rewrite bool_decide_false.
Qed.

Lemma normalize_idem d d' : normalize_dns_domain d = Some d' -> normalize_dns_domain d' = Some d'.
Proof.
  unfold normalize_dns_domain. case_if; [done|]. intros [= <-].
  rewrite trim_lower, trim_idem, lower_idem. by case_if.
Qed.

(** ** Allocation *)

(** The tables an allocation may leave: static fields kept. *)
Definition same_pool (m m' : FakeIpMapper) : Prop :=
  exists x es l d i, 0 <= x < allocation_span m /\ m' = set_tables m x es l d i.

Lemma same_pool_intro m m' x es l d i :
  0 <= x < allocation_span m -> m' = set_tables m x es l d i -> same_pool m m'.
Proof. intros Hx ->. by exists x, es, l, d, i. Qed.

Lemma same_pool_ok m m' : same_pool m m' -> pool_ok m -> pool_ok m'.
Proof. intros (x & es & l & d & i & Hx & ->) []. by split. Qed.

(** The lease time a call at [now] grants. *)
Definition lease (m : FakeIpMapper) (now : Z) : option Z := instant_checked_add now (ttl m).

(** What a successful allocation of [d] at [now] did: the name holds [a] under
    a fresh lease, and no other slot changed, except one whose lease was over. *)
Definition granted (m m' : FakeIpMapper) (d : str) (now a after : Z) : Prop :=
  exists s, live (entries m') s = Some (mkEntry d a after)
    /\ (forall s' e, s' <> s -> live (entries m') s' = Some e <-> live (entries m) s' = Some e)
    /\ (forall e, live (entries m) s = Some e -> domain e = d /\ ip e = a
                  \/ domain e <> d /\ reusable_after e <= now).

Definition alloc_outcome (m : FakeIpMapper) (d : str) (now : Z)
    (r : option Z * FakeIpMapper) : Prop :=
  mapper_inv (snd r) /\ same_pool m (snd r)
  /\ match fst r with
     | Some a => exists d' after, normalize_dns_domain d = Some d' /\ lease m now = Some after
         /\ granted m (snd r) d' now a after
     | None => entries (snd r) = entries m
         /\ (normalize_dns_domain d = None \/ lease m now = None
             \/ len (entries m) = max_mappings m
                /\ forall s e, live (entries m) s = Some e ->
                     normalize_dns_domain d <> Some (domain e) /\ now < reusable_after e)
     end.

Lemma same_pool_refl m : pool_ok m -> same_pool m m.
Proof.
  intros Hp. exists (next_offset m), (entries m), (lease_index m), (by_domain m), (by_ipv4 m).
  split; [apply Hp | by destruct m].
Qed.

Lemma alloc_refresh m d d' now after s :
  mapper_inv m -> normalize_dns_domain d = Some d' -> lease m now = Some after ->
  by_domain m !! d' = Some s ->
  alloc_outcome m d now (allocate_ipv4_at d now m).
Proof.
  intros Hinv Hd Hl Hs. pose proof Hinv as [Hp Ht Hf Hsz He].
  unfold allocate_ipv4_at, op_bind, op_get. rewrite Hd. unfold lease in Hl. rewrite Hl, Hs.
  pose proof (proj1 (ok_domain _ _ _ _ Ht d' s) Hs) as (e & Hlive & Hde).
  pose proof (live_lt _ _ _ Hlive) as Hlt. fold (live (entries m) s). rewrite Hlive.
  unfold op_update, op_ret. simpl.
  pose proof (tables_refresh _ _ _ _ _ _ after Ht Hlive) as Ht'.
  unfold alloc_outcome. simpl. split; [split|split].
  - by destruct Hp.
  - eapply tables_ext; [|exact Ht']. intros s'. symmetry. by apply live_insert.
  - simpl. apply Forall_insert; eauto.
  - simpl. unfold len in *. by rewrite length_insert.
  - simpl. intros s' e'. rewrite live_insert by done. unfold write.
    case_decide; [|apply He]. intros [= <-]. simpl. by apply (He s).
  - eapply same_pool_intro; [apply Hp | reflexivity].
  - exists d', after. split; [done|]. split; [done|]. exists s. simpl.
    split_and!.
    + rewrite live_insert by done. unfold write. rewrite decide_True by done. by rewrite Hde.
    + intros s' e' Hne. rewrite live_insert by done. unfold write. by rewrite decide_False.
    + intros e' He'. left. by simplify_eq.
Qed.

(** A new name below capacity takes a fresh slot and a free address. *)
Lemma alloc_fresh m d d' now after :
  mapper_inv m -> normalize_dns_domain d = Some d' -> lease m now = Some after ->
  by_domain m !! d' = None -> len (entries m) < max_mappings m ->
  alloc_outcome m d now (allocate_ipv4_at d now m).
Proof.
  intros Hinv Hd Hl Hs Hcap. pose proof Hinv as [Hp Ht Hf Hsz He].
  destruct (inv_sizes m Hinv) as [Hsd Hsi].
  unfold allocate_ipv4_at, op_bind at 1 2, op_get. rewrite Hd. unfold lease in Hl. rewrite Hl, Hs.
  rewrite Hsd. guard_false by (unfold len in Hcap; lia).
  destruct (next_available_found m Hp) as (a & x & Hna & Hx & Ha & Hfree);
    [rewrite Hsi; unfold len in Hcap; lia|].
  unfold op_bind at 1. rewrite Hna.
  set (m1 := set_next_offset m x).
  destruct (insert_mapping_spec m1 (length (entries m)) d' a after) as (es & E & Ht' & Hes & Hdef);
    [done | done | unfold live; by rewrite lookup_ge_None_2 | done | done |].
  unfold op_bind. rewrite E. unfold op_ret. simpl in Hdef. rewrite decide_True in Hdef by done.
  unfold alloc_outcome. simpl fst. simpl snd. split; [split|split].
  - by destruct Hp.
  - exact Ht'.
  - simpl. subst es. apply Forall_app; eauto.
  - simpl. subst es. rewrite len_app. change (len [Some (mkEntry d' a after)]) with 1. lia.
  - simpl. intros s' e'. rewrite Hes. unfold write. case_decide; [|apply He].
    intros [= <-]. simpl. split; [by eapply normalize_idem | done].
  - eapply same_pool_intro; [exact Hx | reflexivity].
  - exists d', after. split; [done|]. split; [done|]. exists (length (entries m)). simpl.
    split_and!.
    + rewrite Hes. unfold write. by rewrite decide_True.
    + intros s' e' Hne. rewrite Hes. unfold write. by rewrite decide_False.
    + intros e' Hlt%live_lt. lia.
Qed.

Lemma first_expired m :
  mapper_inv m -> max_mappings m <= Z.of_nat (size (by_domain m)) ->
  exists s e, lease_first (lease_index m) = Some (reusable_after e, s)
    /\ live (entries m) s = Some e
    /\ forall s' e', live (entries m) s' = Some e' -> reusable_after e <= reusable_after e'.
Proof.
  intros Hinv Hmax. destruct (inv_sizes m Hinv) as [Hsd _].
  pose proof Hinv as [Hp [_ _ Hlease] Hf _ _]. pose proof (pool_max m Hp).
  pose proof (lease_first_spec (lease_index m)) as Hfirst.
  destruct (lease_first (lease_index m)) as [[t s]|].
  - destruct Hfirst as [Hin Hmin]. apply Hlease in Hin as (e & Hlive & <-).
    exists s, e. split_and!; [done..|]. intros s' e' He'.
    apply (Hmin (reusable_after e', s')). apply Hlease. eauto.
  - exfalso. destruct (proj1 (full_live (entries m) 0 Hf)) as [e He]; [lia|].
    assert ((reusable_after e, 0%nat) ∈ lease_index m) by (apply Hlease; eauto).
    set_solver.
Qed.

(** At capacity the earliest expired lease is taken over, or nothing happens. *)
Lemma alloc_reuse m d d' now after :
  mapper_inv m -> normalize_dns_domain d = Some d' -> lease m now = Some after ->
  by_domain m !! d' = None -> max_mappings m <= len (entries m) ->
  alloc_outcome m d now (allocate_ipv4_at d now m).
Proof.
  intros Hinv Hd Hl Hs Hcap. pose proof Hinv as [Hp Ht Hf Hsz He].
  destruct (inv_sizes m Hinv) as [Hsd _].
  destruct (first_expired m Hinv) as (s & e & Hfirst & Hlive & Hmin);
    [rewrite Hsd; unfold len in Hcap; lia|].
  pose proof (live_lt _ _ _ Hlive) as Hlt. pose proof (proj1 (live_Some _ _ _) Hlive) as Hlook.
  unfold allocate_ipv4_at, op_bind at 1 2, op_get. rewrite Hd. unfold lease in Hl. rewrite Hl, Hs.
  rewrite Hsd. guard_true by (unfold len in Hcap; lia).
  unfold remove_earliest_expired, op_bind at 1, op_bind at 1, op_get. rewrite Hfirst.
  assert (forall s' e', live (entries m) s' = Some e' -> domain e' <> d') as Hnew.
  { intros s' e' He' <-.
    assert (by_domain m !! domain e' = Some s') by (apply (ok_domain _ _ _ _ Ht); eauto).
    congruence. }
  destruct (now <? reusable_after e) eqn:Enow; unbool.
  { split; [done|]. split; [by apply same_pool_refl|]. simpl. split; [done|]. right; right.
    split; [lia|]. intros s' e' He'. rewrite Hd. specialize (Hmin _ _ He').
    specialize (Hnew _ _ He'). split; [naive_solver | lia]. }
  unfold op_bind at 1, op_update, op_bind at 1. simpl. rewrite Hlook. unfold op_bind at 1, op_ret.
  set (m1 := set_maps _ _ _).
  assert (tables_ok (live (entries m1)) (lease_index m1) (by_domain m1) (by_ipv4 m1)) as Ht1.
  { eapply tables_ext; [|exact (tables_unset _ _ _ _ _ _ Ht Hlive)].
    intros s'. symmetry. by apply live_insert. }
  assert (length (entries m1) = length (entries m)) as Hlen by apply length_insert.
  destruct (insert_mapping_spec m1 s d' (ip e) after) as (es & E & Ht' & Hes & Hdef).
  { done. }
  { lia. }
  { simpl. rewrite live_insert by done. unfold write. by rewrite decide_True. }
  { simpl. apply lookup_delete_None. by right. }
  { simpl. apply lookup_delete_eq. }
  unfold op_bind. rewrite E. simpl in Hdef. rewrite decide_False in Hdef by (rewrite length_insert; lia).
  rewrite list_insert_insert_eq in Hdef.
  assert (forall s', live es s' = write (live (entries m)) s (Some (mkEntry d' (ip e) after)) s')
    as Hes' by (intros s'; rewrite Hdef; by apply live_insert).
  unfold alloc_outcome. simpl fst. simpl snd. split; [split|split].
  - by destruct Hp.
  - exact Ht'.
  - simpl. subst es. apply Forall_insert; eauto.
  - simpl. subst es. unfold len in *. by rewrite length_insert.
  - simpl. intros s' e'. rewrite Hes'. unfold write. case_decide; [|apply He].
    intros [= <-]. simpl. split; [by eapply normalize_idem | by apply (He s)].
  - eapply same_pool_intro; [apply Hp | reflexivity].
  - exists d', after. split; [done|]. split; [done|]. exists s. simpl. split_and!.
    + rewrite Hes'. unfold write. by rewrite decide_True.
    + intros s' e' Hne. rewrite Hes'. unfold write. by rewrite decide_False.
    + intros e' He'. simplify_eq. right. split; [by eapply Hnew | done].
Qed.

Lemma allocate_outcome m d now :
  mapper_inv m -> alloc_outcome m d now (allocate_ipv4_at d now m).
Proof.
  intros Hinv. pose proof (same_pool_refl m (inv_pool m Hinv)) as Hsame.
  destruct (normalize_dns_domain d) as [d'|] eqn:Hd.
  2: { unfold allocate_ipv4_at, op_bind, op_get. rewrite Hd. split_and!; auto. simpl. auto. }
  destruct (lease m now) as [after|] eqn:Hl.
  2: { unfold allocate_ipv4_at, op_bind, op_get. unfold lease in Hl. rewrite Hd, Hl.
       split_and!; auto. simpl. auto. }
  destruct (by_domain m !! d') as [s|] eqn:Hs; [by eapply alloc_refresh|].
  destruct (decide (len (entries m) < max_mappings m)); [by eapply alloc_fresh|].
  eapply alloc_reuse; eauto. lia.
Qed.

(** ** Construction *)

Lemma mask_u32 p :
  0 <= p <= 32 ->
  (if p =? 0 then 0 else wrap32 (Z.shiftl u32_max (32 - p))) = prefix_mask u32 p.
Proof.
  intros Hp. unfold prefix_mask. case_if; [done|]. unfold wrap32. change (WIDTH u32) with 32.
  change (addr_max u32) with (Z.ones 32). change 4294967296 with (2 ^ 32).
  by rewrite Z.land_ones.
Qed.

Lemma base_u32 net p :
  in_u32 net -> 0 <= p <= 32 ->
  0 <= Z.land net (prefix_mask u32 p)
  /\ Z.land net (prefix_mask u32 p) + 2 ^ (32 - p) <= 4294967296.
Proof.
  intros Hn Hp. pose proof (from_prefix_wf u32 net p Hp Hn) as Hw.
  pose proof (from_prefix_eq u32 net p Hp Hn) as E. cbv zeta in E.
  change (WIDTH u32) with 32 in E.
  assert (Z.land net (prefix_mask u32 p) = net / 2 ^ (32 - p) * 2 ^ (32 - p)) as ->
    by (change (start (from_prefix u32 net p) = net / 2 ^ (32 - p) * 2 ^ (32 - p)); by rewrite E).
  rewrite E in Hw. unfold wf_range in Hw. change (addr_max u32) with 4294967295 in Hw.
  simpl in Hw. lia.
Qed.

Lemma from_config_inv config strategy reserved start m :
  wf_cidr (ipv4_pool config) -> 0 <= pool_size config ->
  from_config_with_start config strategy reserved start = Some m -> mapper_inv m.
Proof.
  intros (Hip & _ & Hpre) Hsize. unfold from_config_with_start. case_if; [done|].
  destruct (cidr_network (ipv4_pool config)) as [net|]; [|done]. simpl in Hip, Hpre.
  case_if; [done|]. rewrite mask_u32 by done.
  set (p := prefix_len (ipv4_pool config)) in *. set (count := Z.shiftl 1 (32 - p)).
  assert (count = 2 ^ (32 - p)) as Hcount by (unfold count; rewrite Z.shiftl_mul_pow2 by lia; lia).
  assert (0 < count) by (rewrite Hcount; apply Z.pow_pos_nonneg; lia).
  destruct (base_u32 net p Hip Hpre) as [Hb0 Hb1]. rewrite <- Hcount in Hb1.
  set (first := if 2 <? count then 1 else 0).
  set (span := if 2 <? count then count - 2 else count).
  assert (0 < span /\ 0 <= first /\ first + span <= count) as (Hs & Hf & Hfs)
    by (unfold first, span; case_if; unbool; lia).
  case_if; [done|]. cbn zeta. case_if; [done|]. intros [= <-]. unbool.
  split.
  - split; simpl; try lia; [apply Z.mod_pos_bound; lia | apply reserved_sorted].
  - split; simpl; intros; (split;
      [rewrite ?lookup_empty; set_solver
      | intros (e & He & _); simpl in He; by rewrite live_Some, lookup_nil in He]).
  - constructor.
  - simpl. change (len []) with 0. lia.
  - intros s e He. simpl in He. by rewrite live_Some, lookup_nil in He.
Qed.

(** ** Histories *)

(** The mappers a core can hold: built from a configuration, then used. *)
Inductive reachable : FakeIpMapper -> Prop :=
| reach_new config strategy reserved start m :
    wf_cidr (ipv4_pool config) -> 0 <= pool_size config ->
    from_config_with_start config strategy reserved start = Some m -> reachable m
| reach_probe m probe : reachable m -> reachable (with_route_probe m probe)
| reach_allocate m d now : reachable m -> reachable (snd (allocate_ipv4_at d now m)).

Lemma reachable_inv m : reachable m -> mapper_inv m.
Proof.
  induction 1 as [config strategy reserved start m Hc Hs Hm | m probe _ [] | m d now _ IH].
  - by eapply from_config_inv.
  - split; try done. by destruct inv_pool0.
  - apply (allocate_outcome m d now IH).
Qed.

Lemma domain_for_ipv4_spec m a d :
  mapper_inv m ->
  domain_for_ipv4 m a = Some d
  <-> exists s e, live (entries m) s = Some e /\ ip e = a /\ domain e = d.
Proof.
  intros [_ [_ Hi _] _ _ _]. unfold domain_for_ipv4. split.
  - intros (s & Hs & E)%bind_Some. apply Hi in Hs as (e & Hl & Ha).
    apply live_Some in Hl as Hl'. rewrite Hl' in E. simpl in E. simplify_eq. eauto.
  - intros (s & e & Hl & <- & <-). rewrite (proj2 (Hi (ip e) s)) by eauto. simpl.
    apply live_Some in Hl as ->. done.
Qed.

(** A run of allocations, each a name and a time. *)
Definition run (m : FakeIpMapper) (calls : list (str * Z)) : FakeIpMapper :=
  fold_left (fun m c => snd (allocate_ipv4_at (fst c) (snd c) m)) calls m.

(** Before time [T], an entry leased until [T] keeps its name and address. *)
Lemma run_keeps m calls s e T :
  mapper_inv m -> live (entries m) s = Some e -> T <= reusable_after e ->
  (forall d now, In (d, now) calls -> now < T <= now + ttl m * 1000000000) ->
  mapper_inv (run m calls) /\ ttl (run m calls) = ttl m
  /\ exists e', live (entries (run m calls)) s = Some e' /\ domain e' = domain e /\ ip e' = ip e
       /\ T <= reusable_after e'.
Proof.
  revert m e. induction calls as [|[d now] calls IH]; intros m e Hinv Hl HT Ht; [eauto 10|].
  cbn [run fold_left]. fold (run (snd (allocate_ipv4_at d now m)) calls). simpl fst. simpl snd.
  destruct (allocate_outcome m d now Hinv) as (Hinv' & Hsame & Hout).
  set (m' := snd (allocate_ipv4_at d now m)) in *.
  assert (ttl m' = ttl m) as Httl by (destruct Hsame as (? & ? & ? & ? & ? & _ & ->); done).
  assert (exists e1, live (entries m') s = Some e1 /\ domain e1 = domain e /\ ip e1 = ip e
            /\ T <= reusable_after e1) as (e1 & Hl1 & Hd1 & Hi1 & Hr1).
  { destruct (Ht d now (or_introl eq_refl)) as [Hnow Hend].
    destruct (fst (allocate_ipv4_at d now m)) as [a|].
    - destruct Hout as (d' & after & _ & Hafter & s0 & Hs0 & Hoth & Hold).
      destruct (decide (s = s0)) as [<-|Hne]; [|exists e; split; [by apply Hoth | done]].
      destruct (Hold e Hl) as [[Hde Hie]|[_ Hexp]]; [|lia].
      exists (mkEntry d' a after). split; [done|]. split; [done|]. split; [done|]. simpl.
      unfold lease, instant_checked_add in Hafter. case_if_in Hafter; simplify_eq. lia.
    - destruct Hout as [-> _]. exists e. by split. }
  destruct (IH m' e1 Hinv' Hl1 Hr1) as (Hrun & Hrt & e' & Hl' & Hd' & Hi' & Hr').
  { intros d1 now1 Hin. rewrite Httl. by apply (Ht d1 now1), or_intror. }
  split; [done|]. split; [etransitivity; [exact Hrt | exact Httl]|]. exists e'. by rewrite Hd', Hi'.
Qed.

(** ** Properties *)

(** C14: The three indexes always describe the same entries. In every reachable
    mapper, distinct slots hold distinct names and distinct addresses, each
    address is in the configured pool and not reserved, there are never more
    mappings than the configured capacity, and reverse lookup finds exactly the
    held pairs. *)
Theorem fake_dns_consistent m (Hm : reachable m) :
  Z.of_nat (size (by_domain m)) <= max_mappings m
  /\ (forall a d, domain_for_ipv4 m a = Some d ->
        contains_ipv4 m a = true /\ ~ In a (reserved_ipv4 m)
        /\ forall a', domain_for_ipv4 m a' = Some d -> a' = a)
  /\ (forall d s, by_domain m !! d = Some s ->
        exists a, domain_for_ipv4 m a = Some d /\ by_ipv4 m !! a = Some s).
Proof.
  pose proof (reachable_inv m Hm) as Hinv. destruct (inv_sizes m Hinv) as [Hsd _].
  pose proof Hinv as [Hp [Hd Hi _] _ Hsz He]. split; [rewrite Hsd; unfold len in Hsz; lia|]. split.
  - intros a d. rewrite domain_for_ipv4_spec by done. intros (s & e & Hl & <- & <-).
    destruct (He s e Hl) as [_ [(o & Ho & Eo) Hr]]. split_and!.
    + rewrite Eo. unfold contains_ipv4, checked_sub, nth_address. destruct Hp.
      guard_true by lia. apply Z.ltb_lt. lia.
    + done.
    + intros a'. rewrite domain_for_ipv4_spec by done. intros (s' & e' & Hl' & <- & Hde).
      assert (by_domain m !! domain e = Some s) as H1 by (apply Hd; eauto).
      assert (by_domain m !! domain e = Some s') as H2 by (apply Hd; eauto).
      rewrite H1 in H2. by simplify_eq.
  - intros d s (e & Hl & <-)%Hd. exists (ip e). split; [|by apply Hi; eauto].
    apply domain_for_ipv4_spec; eauto.
Qed.

(** An advertised fake address stays valid. If a name was given address [a]
    at time [t], then after any allocations for any names at times from [t] up
    to the advertised TTL, reverse lookup of [a] still gives that name, and
    asking for the name again still gives [a]. *)
Theorem fake_dns_lease m d d' t a m' calls now (Hm : reachable m)
    (Hd : normalize_dns_domain d = Some d')
    (Ha : allocate_ipv4_at d t m = (Some a, m'))
    (Hcalls : forall q u, In (q, u) calls -> t <= u < t + ttl m * 1000000000)
    (Hnow : t <= now < t + ttl m * 1000000000) :
  lookup_ipv4 (run m' calls) a = Mapped d'
  /\ (lease m now <> None -> fst (allocate_ipv4_at d now (run m' calls)) = Some a).
Proof.
  destruct (allocate_outcome m d t (reachable_inv m Hm)) as (Hinv & Hsame & Hout).
  rewrite Ha in *. cbn [fst snd] in *.
  destruct Hout as (d1 & after & Hd1 & Hafter & s & Hs & _ & _).
  assert (ttl m' = ttl m) as Httl by (destruct Hsame as (? & ? & ? & ? & ? & _ & ->); done).
  assert (after = t + ttl m * 1000000000) as ->.
  { unfold lease, instant_checked_add in Hafter. case_if_in Hafter; by simplify_eq. }
  rewrite Hd in Hd1. simplify_eq.
  destruct (run_keeps m' calls s _ (t + ttl m * 1000000000) Hinv Hs)
    as (Hrun & Hrt & e & Hl & Hde & Hie & _).
  { simpl. lia. }
  { intros q u Hin. specialize (Hcalls q u Hin). rewrite Httl. lia. }
  simpl in Hde, Hie. split.
  - unfold lookup_ipv4. rewrite (proj2 (domain_for_ipv4_spec _ a d1 Hrun)); [done|].
    eauto.
  - intros Hlease. destruct (allocate_outcome (run m' calls) d now Hrun) as (Hinv2 & _ & Hout).
    unfold lease in *. rewrite Hrt, Httl in Hout.
    destruct (fst (allocate_ipv4_at d now (run m' calls))) as [b|].
    + destruct Hout as (d2 & after & Hd2 & _ & s2 & Hs2 & Hoth & Hold).
      rewrite Hd in Hd2. simplify_eq.
      destruct (decide (s = s2)) as [<-|Hne].
      * destruct (Hold e Hl) as [[_ ->]|[? _]]; done.
      * apply Hoth in Hl; [|done]. exfalso. apply Hne.
        pose proof (ok_domain _ _ _ _ (inv_tables _ Hinv2)) as Hdom.
        pose proof (proj2 (Hdom (domain e) s) ltac:(eauto)) as H1.
        pose proof (proj2 (Hdom (domain e) s2) ltac:(eauto)) as H2. congruence.
    + destruct Hout as [_ [?|[?|[_ Hnone]]]]; [congruence | done|].
      destruct (Hnone s e Hl) as [Hne _]. congruence.
Qed.

(** Allocation succeeds whenever it can. With a usable name and a
    representable lease time, it fails only when the pool is at its configured
    capacity, the name is not mapped, and no lease has ended; a refusal changes
    no mapping. In particular the scan for a free address never comes back
    empty-handed. *)
Theorem fake_dns_refuses_only_when_full m d now m' (Hm : reachable m)
    (Ha : allocate_ipv4_at d now m = (None, m')) :
  entries m' = entries m
  /\ (normalize_dns_domain d = None \/ lease m now = None
      \/ Z.of_nat (size (by_domain m)) = max_mappings m
         /\ (forall d', normalize_dns_domain d = Some d' -> by_domain m !! d' = None)
         /\ forall t s, (t, s) ∈ lease_index m -> now < t).
Proof.
  pose proof (reachable_inv m Hm) as Hinv. destruct (inv_sizes m Hinv) as [Hsd _].
  destruct (allocate_outcome m d now Hinv) as (_ & _ & Hout). rewrite Ha in Hout. simpl in Hout.
  destruct Hout as [He [?|[?|[Hfull Hnone]]]]; split; auto. right; right.
  pose proof (inv_tables m Hinv) as [Hdom _ Hlease].
  split; [rewrite Hsd; exact Hfull|]. split.
  - intros d' Hd'. destruct (by_domain m !! d') as [s|] eqn:E; [|done].
    apply Hdom in E as (e & Hl & <-). destruct (Hnone s e Hl). congruence.
  - intros t s (e & Hl & <-)%Hlease. by apply (Hnone s e Hl).
Qed.

End FakeDns.

(** ** Witnesses *)

Definition no_probes : RouteProbes := {| RouteProbe := unit; families _ := (true, true) |}.

Definition witness_config : DnsFakeIpConfig :=
  mkFakeIpConfig true (mkCidr (V4 (ipv4 198 18 0 0)) 29) 2 60.

(** The /29 pool with its first host address reserved, allocation starting at
    offset 5, which wraps. *)
Definition witness_mapper : @FakeIpMapper no_probes :=
  match @from_config_with_start no_probes witness_config UseIp [ipv4 198 18 0 1] 5 with
  | Some m => m
  | None => @mkMapper no_probes UseIp None 0 0 0 0 0 0 [] 0 [] ∅ ∅ ∅
  end.

Lemma witness_reachable : reachable witness_mapper.
Proof.
  apply (reach_new witness_config UseIp [ipv4 198 18 0 1] 5); [by_decision | vm_compute; congruence|].
  reflexivity.
Qed.

Lemma fake_dns_consistent_witness :
  Z.of_nat (size (by_domain (snd (allocate_ipv4_at (str_of "A.test.") 0 witness_mapper)))) <= 2.
Proof.
  exact (proj1 (fake_dns_consistent _
    (reach_allocate witness_mapper (str_of "A.test.") 0 witness_reachable))).
Defined.

Lemma fake_dns_lease_witness :
  lookup_ipv4 (run (snd (allocate_ipv4_at (str_of "A.test.") 0 witness_mapper))
                 [(str_of "b.test", 1); (str_of "c.test", 2)]) (ipv4 198 18 0 6)
  = Mapped (str_of "a.test").
Proof.
  refine (proj1 (fake_dns_lease witness_mapper (str_of "A.test.") (str_of "a.test") 0
    (ipv4 198 18 0 6) _ [(str_of "b.test", 1); (str_of "c.test", 2)] 3 witness_reachable _ _ _ _)).
  - reflexivity.
  - apply injective_projections; [vm_compute; reflexivity | reflexivity].
  - intros q u [[= <- <-]|[[= <- <-]|[]]]; vm_compute; split; congruence.
  - vm_compute. split; congruence.
Defined.

Lemma fake_dns_refuses_only_when_full_witness :
  entries (snd (allocate_ipv4_at (str_of "...") 0 witness_mapper)) = [].
Proof.
  refine (proj1 (fake_dns_refuses_only_when_full witness_mapper (str_of "...") 0 _
    witness_reachable _)).
  apply injective_projections; [vm_compute; reflexivity | reflexivity].
Defined.
