(* ===== verification/OutboundGraph.v ===== *)
(** The immutable outbound topology of [crates/xray-core-rs/src/outbound.rs]
    ([OutboundGraph]): leaf and selector nodes, the tag index, and the proxy
    chains with their validation and cycle search. *)
From Stdlib Require Import Strings.Byte DecimalString.
From S2P Require Import Prelude Net IpRangeSet DomainMatcher RoutingRules.

(** ** Configuration: what the graph reads of [CoreConfig] *)

Record OutboundProxySettings := mkProxySettings {
  proxy_tag : str;
  transport_layer : bool
}.

(** The settings' payloads the graph does not read are left out. *)
Inductive OutboundSettings :=
| SFreedom | SDns | SVless | STrojan | SVmess | SShadowsocks2022 | SHysteria | SWireguard
| SBlackhole
| SLoopback (inbound_tag : str)
| SSocks | SHttp.

Inductive StreamTransport :=
| TRaw | THysteria | TWebSocket | THttpUpgrade | TGrpc
| TXhttp (download : bool)
| TKcp.

Inductive StreamSecurity :=
| SecNone
| SecTls (alpn : list str)
| SecReality.

Record OutboundConfig := mkOutboundConfig {
  oc_tag : option str;
  proxy_settings : option OutboundProxySettings;
  transport : StreamTransport;
  security : StreamSecurity;
  settings : OutboundSettings
}.

(** ** Nodes *)

Record OutboundNodeId := mkNodeId { graph_identity : Z; node_index : nat }.

#[export] Instance OutboundNodeId_eq_dec : EqDecision OutboundNodeId.
Proof. solve_decision. Defined.

Inductive OutboundNodeKind :=
| KHysteria | KWireguard | KFreedom | KVless | KTrojan | KVmess | KShadowsocks2022 | KDns
| KBlackhole | KLoopback | KSocks | KHttp | KSelector.

#[export] Instance OutboundNodeKind_eq_dec : EqDecision OutboundNodeKind.
Proof. solve_decision. Defined.

Record OutboundNode := mkNode {
  node_id : OutboundNodeId;
  node_tag : option str;
  kind : OutboundNodeKind
}.

Inductive OutboundProxyGraphError :=
| TargetNotFound (outbound target : str)
| TransportLayerRequired (outbound : str)
| Cycle (path : list str)
| UnsupportedNode (outbound : str) (reason : str).

Record OutboundSelectorGroup := mkGroup {
  group_node : OutboundNodeId;
  group_tag : str;
  members : list OutboundNodeId;
  group_strategy : RoutingBalancerStrategy;
  least_load_costs : list Z;
  group_fallback_tag : option str
}.

Definition kind_of (s : OutboundSettings) : OutboundNodeKind :=
  match s with
  | SFreedom => KFreedom
  | SVless => KVless
  | STrojan => KTrojan
  | SVmess => KVmess
  | SShadowsocks2022 => KShadowsocks2022
  | SHysteria => KHysteria
  | SWireguard => KWireguard
  | SDns => KDns
  | SBlackhole => KBlackhole
  | SLoopback _ => KLoopback
  | SSocks => KSocks
  | SHttp => KHttp
  end.

(** ** Proxy edges *)

(** [format!("#{index}")]. *)
Definition decimal (n : nat) : str :=
  str_of (NilEmpty.string_of_uint (Nat.to_uint n)).

Definition outbound_node_label (nodes : list OutboundNode) (index : nat) : str :=
  default (str_of "#" ++ decimal index) (node ← nodes !! index; node_tag node).

(** [v[i] = x]. *)
Definition set_at {A} (l : list A) (i : nat) (x : A) : total (list A) :=
  if (i <? length l)%nat then Ok (<[i := x]> l) else Panic.

(** The first loop: resolve every [proxySettings] tag. *)
Fixpoint link_loop (nodes : list OutboundNode) (first_tag_node : gmap str OutboundNodeId)
    (rest : list OutboundConfig) (index : nat) (targets : list (option OutboundNodeId))
    : total (list (option OutboundNodeId) * option OutboundProxyGraphError) :=
  match rest with
  | [] => Ok (targets, None)
  | outbound :: rest =>
    match proxy_settings outbound with
    | None => link_loop nodes first_tag_node rest (S index) targets
    | Some proxy =>
      let label := outbound_node_label nodes index in
      if negb (transport_layer proxy) then Ok (targets, Some (TransportLayerRequired label))
      else match first_tag_node !! proxy_tag proxy with
      | None => Ok (targets, Some (TargetNotFound label (proxy_tag proxy)))
      | Some target =>
        let? targets := set_at targets index (Some target) in
        link_loop nodes first_tag_node rest (S index) targets
      end
    end
  end.

(** The second loop: both ends of every edge take part in a chain. *)
Fixpoint chained_loop (rest : list (option OutboundNodeId)) (index : nat) (chained : list bool)
    : total (list bool) :=
  match rest with
  | [] => Ok chained
  | None :: rest => chained_loop rest (S index) chained
  | Some target :: rest =>
    let? chained := set_at chained index true in
    let? chained := set_at chained (node_index target) true in
    chained_loop rest (S index) chained
  end.

Definition unsupported_reason (outbound : OutboundConfig) : option str :=
  match transport outbound with
  | TXhttp true => Some (str_of "XHTTP downloadSettings with outbound chaining is unsupported")
  | _ =>
    match settings outbound with
    | SDns => Some (str_of "DNS outbounds are not TCP carriers")
    | SBlackhole => Some (str_of "blackhole outbounds are not TCP carriers")
    | SLoopback _ => Some (str_of "loopback outbounds are not TCP carriers")
    | SHysteria => Some (str_of "Hysteria chaining is unsupported")
    | SWireguard => Some (str_of "WireGuard chaining is unsupported")
    | _ =>
      match security outbound with
      | SecReality => Some (str_of "REALITY over a preconnected stream is unsupported")
      | SecTls [only] =>
        match transport outbound with
        | TXhttp _ =>
          if bool_decide (only = str_of "h3")
          then Some (str_of "XHTTP HTTP/3 uses QUIC rather than a TCP carrier") else None
        | _ => None
        end
      | _ => None
      end
    end
  end.

(** The third loop: every chained node must be a TCP carrier. *)
Fixpoint support_loop (nodes : list OutboundNode) (chained : list bool)
    (rest : list OutboundConfig) (index : nat) : total (option OutboundProxyGraphError) :=
  match rest with
  | [] => Ok None
  | outbound :: rest =>
    let? c := unwrap (chained !! index) in
    if negb c then support_loop nodes chained rest (S index)
    else match unsupported_reason outbound with
    | Some reason => Ok (Some (UnsupportedNode (outbound_node_label nodes index) reason))
    | None => support_loop nodes chained rest (S index)
    end
  end.

(** [path.iter().position(|c| *c == x)]. *)
Fixpoint position (x : nat) (l : list nat) : option nat :=
  match l with
  | [] => None
  | y :: r => if (y =? x)%nat then Some 0%nat else S <$> position x r
  end.

(** One walk along the edges: a cycle's labels, or the marks and the walked
    path. [None] is running out of fuel. *)
Inductive Walk :=
| Cyclic (labels : list str)
| Walked (state : list Z) (path : list nat).

Fixpoint walk (fuel : nat) (nodes : list OutboundNode) (targets : list (option OutboundNodeId))
    (state : list Z) (path : list nat) (current : nat) : option (total Walk) :=
  match fuel with
  | O => None
  | S fuel =>
    match state !! current with
    | None => Some Panic
    | Some mark =>
      if mark =? 2 then Some (Ok (Walked state path))
      else if mark =? 1 then
        match position current path with
        | None => Some Panic
        | Some cycle_start =>
          Some (Ok (Cyclic (map (outbound_node_label nodes) (drop cycle_start path)
                            ++ [outbound_node_label nodes current])))
        end
      else
        let state := <[current := 1]> state in
        let path := path ++ [current] in
        match targets !! current with
        | None => Some Panic
        | Some None => Some (Ok (Walked state path))
        | Some (Some target) => walk fuel nodes targets state path (node_index target)
        end
    end
  end.

(** [for index in path { state[index] = 2; }] *)
Fixpoint mark_done (path : list nat) (state : list Z) : total (list Z) :=
  match path with
  | [] => Ok state
  | i :: path => let? state := set_at state i 2 in mark_done path state
  end.

(** The fourth loop, over the starting nodes. *)
Fixpoint cycle_loop (n start : nat) (nodes : list OutboundNode)
    (targets : list (option OutboundNodeId)) (state : list Z)
    : option (total (option (list str))) :=
  match n with
  | O => Some (Ok None)
  | S n =>
    match state !! start with
    | None => Some Panic
    | Some mark =>
      if negb (mark =? 0) then cycle_loop n (S start) nodes targets state
      else
        match walk (S (length targets)) nodes targets state [] start with
        | None => None
        | Some Panic => Some Panic
        | Some (Err e) => Some (Err e)
        | Some (Ok (Cyclic labels)) => Some (Ok (Some labels))
        | Some (Ok (Walked state path)) =>
          match mark_done path state with
          | Ok state => cycle_loop n (S start) nodes targets state
          | Err e => Some (Err e)
          | Panic => Some Panic
          end
        end
    end
  end.

Definition build_outbound_proxy_edges (outbounds : list OutboundConfig)
    (nodes : list OutboundNode) (first_tag_node : gmap str OutboundNodeId)
    : option (total (list (option OutboundNodeId) * option OutboundProxyGraphError)) :=
  match link_loop nodes first_tag_node outbounds 0 (replicate (length outbounds) None) with
  | Err e => Some (Err e)
  | Panic => Some Panic
  | Ok (targets, Some error) => Some (Ok (targets, Some error))
  | Ok (targets, None) =>
    match (let? chained := chained_loop targets 0 (replicate (length outbounds) false) in
           support_loop nodes chained outbounds 0) with
    | Err e => Some (Err e)
    | Panic => Some Panic
    | Ok (Some error) => Some (Ok (targets, Some error))
    | Ok None =>
      match cycle_loop (length outbounds) 0 nodes targets (replicate (length outbounds) 0) with
      | None => None
      | Some (Ok (Some labels)) => Some (Ok (targets, Some (Cycle labels)))
      | Some (Ok None) => Some (Ok (targets, None))
      | Some (Err e) => Some (Err e)
      | Some Panic => Some Panic
      end
    end
  end.

(** ** The graph *)

(** [tag.contains(substring)]. *)
Fixpoint str_contains (s sub : str) : bool :=
  starts_with s sub || match s with [] => false | _ :: r => str_contains r sub end.

Definition COST_MILLIONTHS_ONE : Z := 1000000.

Definition least_load_cost_millionths (settings : RoutingLeastLoadSettings) (tag : str) : Z :=
  match List.find (fun cost => str_contains tag (tag_substring cost)) (costs settings) with
  | None => COST_MILLIONTHS_ONE
  | Some cost => value_millionths cost
  end.

(** [str::cmp]: bytes in lexicographic order. *)
Fixpoint str_leb (a b : str) : bool :=
  match a, b with
  | [], _ => true
  | _ :: _, [] => false
  | x :: a, y :: b => if u8 x <? u8 y then true else if u8 y <? u8 x then false else str_leb a b
  end.

Definition tag_le (a b : str * OutboundNodeId) : Prop := str_leb (fst a) (fst b) = true.
#[export] Instance tag_le_dec : RelDecision tag_le.
Proof. intros a b. unfold tag_le. apply _. Defined.

(** [map.entry(key).or_insert(value)]. *)
Definition or_insert {V} (m : gmap str V) (key : str) (value : V) : gmap str V :=
  match m !! key with Some _ => m | None => <[key := value]> m end.

(** The tags a list of prefixes selects, in tag order. *)
Definition matching_tags (first_tag_node : gmap str OutboundNodeId) (prefixes : list str)
    : list (str * OutboundNodeId) :=
  merge_sort tag_le
    (List.filter (fun e => existsb (starts_with (fst e)) prefixes) (map_to_list first_tag_node)).

Section Graph.
Context `{RegexEngine} `{KeywordEngine}.

Record CoreConfig := mkCoreConfig {
  outbounds : list OutboundConfig;
  default_outbound_tag : option str;
  routing : RoutingConfig
}.

Record OutboundGraph := mkGraph {
  identity : Z;
  config : CoreConfig;
  nodes : list OutboundNode;
  leaf_count : nat;
  first_tag_node : gmap str OutboundNodeId;
  proxy_targets : list (option OutboundNodeId);
  proxy_validation_error : option OutboundProxyGraphError;
  selector_groups : list OutboundSelectorGroup;
  first_group_node : gmap str OutboundNodeId;
  default_node : option OutboundNodeId;
  unresolved_default_tag : bool
}.

Definition leaf_nodes (identity : Z) (outbounds : list OutboundConfig) : list OutboundNode :=
  imap (fun index o => mkNode (mkNodeId identity index) (oc_tag o) (kind_of (settings o)))
    outbounds.

Definition index_tags (nodes : list OutboundNode) : gmap str OutboundNodeId :=
  fold_left (fun m node =>
    match node_tag node with Some tag => or_insert m tag (node_id node) | None => m end) nodes ∅.

(** One turn of the loop over the balancers. *)
Definition add_group (identity : Z) (tags : gmap str OutboundNodeId)
    (st : list OutboundNode * list OutboundSelectorGroup * gmap str OutboundNodeId)
    (balancer : RoutingBalancer)
    : list OutboundNode * list OutboundSelectorGroup * gmap str OutboundNodeId :=
  let '(nodes, groups, first_group) := st in
  let selected_tags := matching_tags tags (selectors balancer) in
  let load_costs :=
    match strategy balancer with
    | LeastLoad s => map (fun e => least_load_cost_millionths s (fst e)) selected_tags
    | _ => replicate (length selected_tags) COST_MILLIONTHS_ONE
    end in
  let group_node := mkNodeId identity (length nodes) in
  (nodes ++ [mkNode group_node (Some (balancer_tag balancer)) KSelector],
   groups ++ [mkGroup group_node (balancer_tag balancer) (map snd selected_tags)
                (strategy balancer) load_costs (fallback_tag balancer)],
   or_insert first_group (balancer_tag balancer) group_node).

Definition OutboundGraph_new (identity : Z) (config : CoreConfig) : option (total OutboundGraph) :=
  let leaves := leaf_nodes identity (outbounds config) in
  let tags := index_tags leaves in
  match build_outbound_proxy_edges (outbounds config) leaves tags with
  | None => None
  | Some (Err e) => Some (Err e)
  | Some Panic => Some Panic
  | Some (Ok (targets, error)) =>
    let default_node :=
      match default_outbound_tag config with
      | Some tag => tags !! tag
      | None => node_id <$> head leaves
      end in
    let unresolved := is_some (default_outbound_tag config) && is_none default_node in
    let '(all_nodes, groups, first_group) :=
      fold_left (add_group identity tags) (balancers (routing config)) (leaves, [], ∅) in
    Some (Ok (mkGraph identity config all_nodes (length leaves) tags targets error groups
                first_group default_node unresolved))
  end.

Definition node (g : OutboundGraph) (id : OutboundNodeId) : option OutboundNode :=
  if graph_identity id =? identity g then nodes g !! node_index id else None.

Definition node_for_tag (g : OutboundGraph) (tag : str) : option OutboundNodeId :=
  first_tag_node g !! tag.

Definition selector_group (g : OutboundGraph) (id : OutboundNodeId)
    : option OutboundSelectorGroup :=
  if negb (graph_identity id =? identity g) || (node_index id <? leaf_count g)%nat then None
  else selector_groups g !! (node_index id - leaf_count g)%nat.

Definition selector_group_for_tag (g : OutboundGraph) (tag : str)
    : option OutboundSelectorGroup :=
  id ← first_group_node g !! tag; selector_group g id.

Definition leaf_nodes_matching_prefixes (g : OutboundGraph) (prefixes : list str)
    : list OutboundNodeId :=
  map snd (matching_tags (first_tag_node g) prefixes).

Definition validate_proxy_chains (g : OutboundGraph) : res OutboundProxyGraphError unit :=
  match proxy_validation_error g with Some error => Err error | None => Ok tt end.

Definition proxy_target (g : OutboundGraph) (id : OutboundNodeId) : option OutboundNodeId :=
  if negb (graph_identity id =? identity g) || (leaf_count g <=? node_index id)%nat then None
  else mjoin (proxy_targets g !! node_index id).

Definition configured_outbound (g : OutboundGraph) (id : OutboundNodeId)
    : option OutboundConfig :=
  if negb (graph_identity id =? identity g) || (leaf_count g <=? node_index id)%nat then None
  else outbounds (config g) !! node_index id.

Definition loopback_inbound_tag (g : OutboundGraph) (id : OutboundNodeId) : option str :=
  match configured_outbound g id with
  | Some o => match settings o with SLoopback tag => Some tag | _ => None end
  | None => None
  end.

End Graph.

(** ** Edges and chains *)

(** The successor of every leaf. *)
Definition succs (targets : list (option OutboundNodeId)) : list (option nat) :=
  map (option_map node_index) targets.

Definition edge (T : list (option nat)) (a b : nat) : Prop := T !! a = Some (Some b).

(** Consecutive elements are joined by edges. *)
Fixpoint linked (T : list (option nat)) (l : list nat) : Prop :=
  match l with
  | a :: ((b :: _) as r) => edge T a b /\ linked T r
  | _ => True
  end.

(** Following the edges from [a] comes to an end. *)
Inductive ends (T : list (option nat)) : nat -> Prop :=
| ends_stop a : T !! a = Some None -> ends T a
| ends_step a b : edge T a b -> ends T b -> ends T a.

Lemma linked_app_r T l k : linked T (l ++ k) -> linked T k.
Proof.
  induction l as [|a l IH]; [done|]. simpl. destruct (l ++ k) eqn:E.
  - by apply app_eq_nil in E as [-> ->].
  - intros [_ Hl]. by apply IH.
Qed.

Lemma linked_snoc T l a b : linked T (l ++ [a]) -> edge T a b -> linked T ((l ++ [a]) ++ [b]).
Proof.
  induction l as [|x l IH]; simpl; [done|]. intros Hl He.
  destruct l as [|y l]; simpl in *; [naive_solver|]. destruct Hl as [Hx Hl].
  split; [done|]. by apply IH.
Qed.

Lemma linked_ends T l c : linked T (l ++ [c]) -> ends T c -> Forall (ends T) l.
Proof.
  intros Hl Hc. induction l as [|a l IH]; [constructor|]. simpl in Hl.
  destruct l as [|b l]; simpl in *.
  - constructor; [|constructor]. eapply ends_step; [apply Hl | done].
  - destruct Hl as [He Hl]. specialize (IH Hl). constructor; [|done].
    eapply ends_step; [exact He | by apply Forall_inv in IH].
Qed.

Lemma linked_bound T l z : linked T (l ++ [z]) -> Forall (fun a => (a < length T)%nat) l.
Proof.
  intros Hl. induction l as [|a l IH]; [constructor|]. simpl in Hl.
  destruct (l ++ [z]) as [|b m] eqn:E; [by destruct l|]. destruct Hl as [He Hl].
  constructor; [by apply lookup_lt_Some in He|]. by apply IH.
Qed.

(** ** The cycle search *)

Definition zeros (state : list Z) : nat := length (List.filter (Z.eqb 0) state).

Lemma zeros_insert state i m :
  state !! i = Some 0 -> m <> 0 -> zeros state = S (zeros (<[i := m]> state)).
Proof.
  unfold zeros. revert i. induction state as [|x state IH]; intros [|i] Hi Hm; simplify_eq/=.
  - by destruct m.
  - case_if; simpl; rewrite (IH i) by done; done.
Qed.

Lemma zeros_le state : (zeros state <= length state)%nat.
Proof. unfold zeros. induction state; simpl; [done|]. case_if; simpl; lia. Qed.

Lemma position_in x l : In x l -> exists i, position x l = Some i.
Proof.
  induction l as [|y l IH]; [done|]. intros Hin. simpl.
  destruct (Nat.eqb_spec y x); [eauto|]. destruct Hin as [->|Hin]; [done|].
  destruct (IH Hin) as [i ->]. simpl. eauto.
Qed.

Lemma position_split x l i :
  position x l = Some i -> exists r, drop i l = x :: r /\ l = take i l ++ x :: r.
Proof.
  revert i. induction l as [|y l IH]; intros i; [done|]. simpl.
  destruct (Nat.eqb_spec y x) as [->|].
  - intros [= <-]. eauto.
  - intros (j & Hj & ->)%fmap_Some. destruct (IH j Hj) as (r & Hd & Hl).
    exists r. simpl. split; [done|]. by f_equal.
Qed.

Section CycleSearch.
Variable nodes : list OutboundNode.
Variable targets : list (option OutboundNodeId).
#[local] Abbreviation T := (succs targets).
#[local] Abbreviation label := (outbound_node_label nodes).

(** Every edge leads to a leaf. *)
Hypothesis Hclosed : forall a b, edge T a b -> (b < length targets)%nat.

(** A closed walk along the edges. *)
Definition is_cycle (c : list nat) : Prop :=
  exists a r, c = a :: r ++ [a] /\ linked T c.

(** Marks: 0 unseen, 1 on the current path, 2 known to end. *)
Record marks_ok (state : list Z) (path : list nat) : Prop := {
  marks_len : length state = length targets;
  marks_cases : forall i m, state !! i = Some m ->
    m = 0 \/ m = 1 /\ In i path \/ m = 2 /\ ends T i;
  marks_path : forall i, In i path -> state !! i = Some 1
}.

Lemma marks_push state path c :
  marks_ok state path -> state !! c = Some 0 -> marks_ok (<[c := 1]> state) (path ++ [c]).
Proof.
  intros [Hl Hc Hp] H0. split.
  - by rewrite length_insert.
  - intros i m Hi. apply list_lookup_insert_Some in Hi as [(<- & <- & _)|[Hne Hi]].
    + right; left. split; [done|]. apply in_app_iff. right. by left.
    + destruct (Hc i m Hi) as [?|[[? ?]|?]]; auto. right; left. split; [done|].
      apply in_app_iff. by left.
  - intros i [Hi|[<-|[]]]%in_app_iff.
    + destruct (decide (i = c)) as [->|]; [apply Hp in Hi; congruence|].
      rewrite list_lookup_insert_ne by done. by apply Hp.
    + apply list_lookup_insert_eq. apply lookup_lt_Some in H0. done.
Qed.

Lemma walk_spec fuel state path current :
  marks_ok state path -> linked T (path ++ [current]) -> (current < length targets)%nat ->
  (zeros state < fuel)%nat ->
  exists w, walk fuel nodes targets state path current = Some (Ok w)
  /\ match w with
     | Cyclic labels => exists c, is_cycle c /\ labels = map label c
     | Walked state' path' =>
       marks_ok state' path' /\ Forall (ends T) path'
       /\ (forall i, state' !! i = Some 0 -> state !! i = Some 0)
       /\ (state !! current = Some 0 -> state' !! current <> Some 0)
     end.
Proof.
  revert state path current. induction fuel as [|fuel IH]; intros state path c Hm Hl Hc Hf; [lia|].
  cbn [walk]. destruct (lookup_lt_is_Some_2 state c) as [m Hs]; [by rewrite (marks_len _ _ Hm)|].
  rewrite Hs. destruct (marks_cases _ _ Hm c m Hs) as [->|[[-> Hin]|[-> Hends]]]; simpl.
  - assert (marks_ok (<[c := 1]> state) (path ++ [c])) as Hm' by by apply marks_push.
    assert (<[c := 1]> state !! c = Some 1) as Hc1
      by (apply list_lookup_insert_eq; by apply lookup_lt_Some in Hs).
    assert (forall i, <[c := 1]> state !! i = Some 0 -> state !! i = Some 0) as Hkeep.
    { intros i [(_ & ? & _)|[_ ?]]%list_lookup_insert_Some; [lia | done]. }
    destruct (lookup_lt_is_Some_2 targets c) as [t Ht]; [done|]. rewrite Ht.
    assert (T !! c = Some (node_index <$> t)) as HT by (unfold succs; by rewrite list_lookup_fmap, Ht).
    destruct t as [t|]; simpl in HT.
    + destruct (IH (<[c := 1]> state) (path ++ [c]) (node_index t)) as (w & Hw & Hspec);
        [done | by apply linked_snoc | by apply Hclosed in HT
        | pose proof (zeros_insert state c 1 Hs ltac:(lia)); lia |].
      exists w. split; [done|]. destruct w as [labels|state' path']; [done|].
      destruct Hspec as (H1 & H2 & H3 & _). split_and!; auto. intros _ H0%H3. congruence.
    + exists (Walked (<[c := 1]> state) (path ++ [c])). split; [done|]. split_and!; auto.
      * assert (ends T c) by by apply ends_stop. apply Forall_app. split; [|by constructor].
        by eapply linked_ends.
      * congruence.
  - destruct (position_in c path Hin) as [i Hi]. rewrite Hi.
    destruct (position_split _ _ _ Hi) as (r & Hd & Hp). rewrite Hd.
    exists (Cyclic (map label (c :: r) ++ [label c])). split; [done|].
    exists (c :: r ++ [c]). split; [|simpl; by rewrite map_app].
    exists c, r. split; [done|]. rewrite Hp, <- app_assoc in Hl. by apply linked_app_r in Hl.
  - exists (Walked state path). split; [done|]. split; [done|].
    split; [by eapply linked_ends|]. split; [done | congruence].
Qed.

Lemma mark_done_spec path state :
  marks_ok state path -> Forall (ends T) path ->
  exists state', mark_done path state = Ok state' /\ marks_ok state' []
    /\ forall i, state' !! i = Some 0 -> state !! i = Some 0.
Proof.
  intros Hm Hf. assert (forall l state, length state = length targets ->
    (forall i, In i l -> In i path) ->
    (forall i m, state !! i = Some m -> m = 0 \/ m = 1 /\ In i l \/ m = 2 /\ ends T i) ->
    (forall i, In i l -> (i < length targets)%nat) ->
    exists state', mark_done l state = Ok state' /\ marks_ok state' []
      /\ forall i, state' !! i = Some 0 -> state !! i = Some 0) as Hgen.
  { clear Hm state. induction l as [|x l IH]; intros state Hl Hin Hc Hlt; simpl.
    - exists state. split; [done|]. split; [|done]. split; [done | | done].
      intros i m Hi. destruct (Hc i m Hi) as [?|[[_ []]|?]]; auto.
    - unfold set_at. assert (x < length targets)%nat as Hx by (apply Hlt; by left).
      rewrite (proj2 (Nat.ltb_lt _ _)) by (by rewrite Hl). simpl.
      destruct (IH (<[x := 2]> state)) as (s' & E & Hm' & Hz).
      + by rewrite length_insert.
      + intros i Hi. apply Hin. by right.
      + intros i m [(<- & <- & _)|[Hne Hi]]%list_lookup_insert_Some.
        * right; right. split; [done|]. apply (Forall_In _ _ _ Hf), Hin. by left.
        * destruct (Hc i m Hi) as [?|[[? [<-|?]]|?]]; auto. done.
      + intros i Hi. apply Hlt. by right.
      + exists s'. split_and!; [done.. |]. intros i H0%Hz.
        apply list_lookup_insert_Some in H0 as [(_ & ? & _)|[_ ?]]; [lia | done]. }
  destruct Hm as [Hl Hc Hp]. apply Hgen; auto.
  intros i Hi%Hp. apply lookup_lt_Some in Hi. lia.
Qed.

Lemma cycle_loop_spec n start state :
  (start + n = length targets)%nat -> marks_ok state [] ->
  (forall i, (i < start)%nat -> state !! i <> Some 0) ->
  exists r, cycle_loop n start nodes targets state = Some (Ok r)
  /\ match r with
     | Some labels => exists c, is_cycle c /\ labels = map label c
     | None => forall i, (i < length targets)%nat -> ends T i
     end.
Proof.
  revert start state. induction n as [|n IH]; intros start state Hn Hm Hz; cbn [cycle_loop].
  - exists None. split; [done|]. intros i Hi.
    destruct (lookup_lt_is_Some_2 state i) as [m Hs]; [by rewrite (marks_len _ _ Hm)|].
    destruct (marks_cases _ _ Hm i m Hs) as [->|[[_ []]|[_ ?]]]; [|done].
    exfalso. apply (Hz i); [lia | done].
  - destruct (lookup_lt_is_Some_2 state start) as [m Hs]; [rewrite (marks_len _ _ Hm); lia|].
    rewrite Hs. destruct (Z.eqb_spec m 0) as [->|Hne]; cbn [negb].
    2: { apply IH; [lia | done |]. intros i Hi. destruct (decide (i = start)) as [->|]; [congruence|].
         apply Hz. lia. }
    destruct (walk_spec (S (length targets)) state [] start) as (w & -> & Hw);
      [done | done | lia | pose proof (zeros_le state); rewrite (marks_len _ _ Hm) in *; lia |].
    destruct w as [labels|state' path']; [eauto|].
    destruct Hw as (Hm' & Hf & Hkeep & Hdone).
    destruct (mark_done_spec path' state' Hm' Hf) as (s'' & -> & Hm'' & Hk).
    apply IH; [lia | done |]. intros i Hi H0%Hk.
    destruct (decide (i = start)) as [->|]; [by apply Hdone in H0|].
    apply Hkeep in H0. apply (Hz i); [lia | done].
Qed.

End CycleSearch.

(** ** Linking *)

(** The target the loop gives an outbound. *)
Definition linked_target (tags : gmap str OutboundNodeId) (o : OutboundConfig)
    : option OutboundNodeId :=
  p ← proxy_settings o; tags !! proxy_tag p.

Definition link_valid (tags : gmap str OutboundNodeId) (o : OutboundConfig) : Prop :=
  forall p, proxy_settings o = Some p ->
    transport_layer p = true /\ is_Some (tags !! proxy_tag p).

Lemma set_at_ok {A} (l : list A) i x : (i < length l)%nat -> set_at l i x = Ok (<[i := x]> l).
Proof. intros Hi. unfold set_at. by rewrite (proj2 (Nat.ltb_lt _ _)). Qed.

Lemma link_loop_spec nodes tags rest done_ :
  exists targets err,
    link_loop nodes tags rest (length done_) (done_ ++ replicate (length rest) None)
    = Ok (targets, err)
    /\ length targets = (length done_ + length rest)%nat
    /\ (forall j t, targets !! j = Some (Some t) ->
          done_ !! j = Some (Some t) \/ exists tag, tags !! tag = Some t)
    /\ (err = None ->
          targets = done_ ++ map (linked_target tags) rest /\ Forall (link_valid tags) rest)
    /\ (forall path, err <> Some (Cycle path)).
Proof.
  revert done_. induction rest as [|o rest IH]; intros done_; cbn [link_loop].
  - exists done_, None. simpl. rewrite app_nil_r. split; [done|]. split; [lia|].
    split; [auto|]. split; [|done]. intros _. split; [done | constructor].
  - simpl replicate. unfold link_valid, linked_target.
    assert (forall j t, (done_ ++ None :: replicate (length rest) None) !! j = Some (Some t) ->
      done_ !! j = Some (Some t)) as Hpad.
    { intros j t Hj. destruct (decide (j < length done_)%nat);
        [by rewrite lookup_app_l in Hj|]. rewrite lookup_app_r in Hj by lia.
      change (None :: replicate (length rest) None)
        with (replicate (S (length rest)) (@None OutboundNodeId)) in Hj.
      by apply lookup_replicate in Hj as [? _]. }
    assert (forall x, link_loop nodes tags rest (S (length done_))
              (done_ ++ x :: replicate (length rest) None)
            = link_loop nodes tags rest (length (done_ ++ [x]))
                ((done_ ++ [x]) ++ replicate (length rest) None)) as Hnext.
    { intros x. rewrite length_app, Nat.add_1_r, <- app_assoc. done. }
    assert (length (done_ ++ None :: replicate (length rest) None)
            = (length done_ + S (length rest))%nat) as Hlen
      by (rewrite length_app; simpl; by rewrite length_replicate).
    destruct (proxy_settings o) as [p|] eqn:Ep.
    + destruct (transport_layer p) eqn:Et; cbn [negb].
      2: { do 2 eexists. split; [done|]. split; [done|]. split; [auto|]. by split. }
      destruct (tags !! proxy_tag p) as [t|] eqn:Etag.
      2: { do 2 eexists. split; [done|]. split; [done|]. split; [auto|]. by split. }
      rewrite set_at_ok by (rewrite Hlen; lia). cbn [res_bind].
      replace (<[length done_ := Some t]> (done_ ++ None :: replicate (length rest) None))
        with (done_ ++ Some t :: replicate (length rest) None)
        by (by rewrite insert_app_r_alt, Nat.sub_diag by lia).
      rewrite Hnext. destruct (IH (done_ ++ [Some t])) as (ts & err & -> & Hl & Hin & Hok & Hc).
      exists ts, err. split; [done|]. split; [rewrite Hl, length_app; simpl; lia|]. split.
      * intros j t' Hj. destruct (Hin j t' Hj) as [Hj'|]; [|auto].
        apply lookup_app_Some in Hj' as [?|[_ Hj']]; [auto|].
        apply list_lookup_singleton_Some in Hj' as [_ ?]. simplify_eq. right. eauto.
      * split; [|done]. intros E. destruct (Hok E) as [-> Hf]. rewrite <- app_assoc. simpl.
        split; [by rewrite Ep; simpl; rewrite Etag|]. constructor; [|done].
        intros p' Ep'. rewrite Ep in Ep'. simplify_eq. rewrite Etag. eauto.
    + rewrite Hnext. destruct (IH (done_ ++ [None])) as (ts & err & -> & Hl & Hin & Hok & Hc).
      exists ts, err. split; [done|]. split; [rewrite Hl, length_app; simpl; lia|]. split.
      * intros j t' Hj. destruct (Hin j t' Hj) as [Hj'|]; [|auto].
        apply lookup_app_Some in Hj' as [?|[_ Hj']]; [auto|].
        apply list_lookup_singleton_Some in Hj' as [_ ?]. done.
      * split; [|done]. intros E. destruct (Hok E) as [-> Hf]. rewrite <- app_assoc. simpl.
        split; [by rewrite Ep|]. constructor; [|done]. intros p' Ep'. congruence.
Qed.

(** Marking: afterwards exactly the ends of edges are chained. *)
Lemma chained_loop_spec rest index chained n :
  length chained = n -> (index + length rest <= n)%nat ->
  (forall t, In (Some t) rest -> (node_index t < n)%nat) ->
  exists chained', chained_loop rest index chained = Ok chained' /\ length chained' = n
    /\ (forall i, chained !! i = Some true -> chained' !! i = Some true)
    /\ (forall j t, rest !! j = Some (Some t) ->
          chained' !! (index + j)%nat = Some true /\ chained' !! node_index t = Some true).
Proof.
  revert index chained. induction rest as [|[t|] rest IH]; intros index chained Hl Hi Ht;
    cbn [chained_loop].
  - exists chained. by split_and!.
  - simpl in Hi. pose proof (Ht t (or_introl eq_refl)) as Htn.
    rewrite set_at_ok by lia. cbn [res_bind]. rewrite set_at_ok by (rewrite length_insert; lia).
    cbn [res_bind]. set (c2 := <[node_index t := true]> (<[index := true]> chained)).
    assert (length c2 = n) as Hl2 by (unfold c2; by rewrite !length_insert).
    assert (forall i, chained !! i = Some true -> c2 !! i = Some true) as Hmono.
    { intros i Hci. unfold c2. destruct (decide (i = node_index t)) as [->|];
        [apply list_lookup_insert_eq; rewrite length_insert; lia|].
      rewrite list_lookup_insert_ne by done. destruct (decide (i = index)) as [->|];
        [apply list_lookup_insert_eq; lia | by rewrite list_lookup_insert_ne]. }
    assert (c2 !! index = Some true /\ c2 !! node_index t = Some true) as [Hc1 Hc2].
    { unfold c2. split; [|apply list_lookup_insert_eq; rewrite length_insert; lia].
      destruct (decide (index = node_index t)) as [->|];
        [apply list_lookup_insert_eq; rewrite length_insert; lia|].
      rewrite list_lookup_insert_ne by done. apply list_lookup_insert_eq. lia. }
    destruct (IH (S index) c2 Hl2 ltac:(lia)) as (c3 & -> & Hl3 & Hm3 & Hr3).
    { intros t' Ht'. apply Ht. by right. }
    exists c3. split_and!; auto. intros [|j] t' Hj; simpl in Hj; simplify_eq.
    + rewrite Nat.add_0_r. auto.
    + rewrite Nat.add_succ_r. by apply (Hr3 j t').
  - simpl in Hi. destruct (IH (S index) chained Hl ltac:(lia)) as (c3 & -> & Hl3 & Hm3 & Hr3).
    { intros t' Ht'. apply Ht. by right. }
    exists c3. split_and!; auto. intros [|j] t' Hj; simpl in Hj; [done|].
    rewrite Nat.add_succ_r. by apply (Hr3 j t').
Qed.

Lemma support_loop_spec nodes chained rest index :
  (index + length rest <= length chained)%nat ->
  exists err, support_loop nodes chained rest index = Ok err
    /\ (forall path, err <> Some (Cycle path))
    /\ (err = None -> forall j o, rest !! j = Some o -> chained !! (index + j)%nat = Some true ->
          unsupported_reason o = None).
Proof.
  revert index. induction rest as [|o rest IH]; intros index Hl; cbn [support_loop].
  - exists None. by split_and!.
  - simpl in Hl. destruct (lookup_lt_is_Some_2 chained index) as [c Hc]; [lia|].
    rewrite Hc. cbn [unwrap res_bind].
    destruct (IH (S index) ltac:(lia)) as (err & E & Hn & Hok).
    assert (c = false \/ unsupported_reason o = None ->
      exists err0, support_loop nodes chained rest (S index) = Ok err0
      /\ (forall path, err0 <> Some (Cycle path))
      /\ (err0 = None -> forall j o', (o :: rest) !! j = Some o' ->
            chained !! (index + j)%nat = Some true -> unsupported_reason o' = None)) as Hgo.
    { intros Hor. exists err. split_and!; [done..|]. intros Hnone [|j] o' Hj Hch.
      - simpl in Hj. simplify_eq. rewrite Nat.add_0_r in Hch. naive_solver.
      - rewrite Nat.add_succ_r in Hch. by eapply Hok. }
    destruct c; cbn [negb]; [|by apply Hgo; left].
    destruct (unsupported_reason o) eqn:Er; [|by apply Hgo; right].
    eexists. split; [done|]. by split.
Qed.

Definition edges_outcome (outbounds : list OutboundConfig) (nodes : list OutboundNode)
    (tags : gmap str OutboundNodeId) (targets : list (option OutboundNodeId))
    (err : option OutboundProxyGraphError) : Prop :=
  match err with
  | None =>
    targets = map (linked_target tags) outbounds /\ Forall (link_valid tags) outbounds
    /\ (forall i, (i < length outbounds)%nat -> ends (succs targets) i)
    /\ (forall i t o, targets !! i = Some (Some t) ->
          outbounds !! i = Some o \/ outbounds !! node_index t = Some o ->
          unsupported_reason o = None)
  | Some (Cycle labels) =>
    targets = map (linked_target tags) outbounds
    /\ exists c, is_cycle targets c /\ labels = map (outbound_node_label nodes) c
  | Some _ => True
  end.

Lemma build_spec outbounds nodes tags :
  (forall tag t, tags !! tag = Some t -> (node_index t < length outbounds)%nat) ->
  exists targets err,
    build_outbound_proxy_edges outbounds nodes tags = Some (Ok (targets, err))
    /\ length targets = length outbounds /\ edges_outcome outbounds nodes tags targets err.
Proof.
  intros Htags. unfold build_outbound_proxy_edges.
  destruct (link_loop_spec nodes tags outbounds []) as (ts & err & E & Hl & Hin & Hok & Hnc).
  simpl in E, Hl. rewrite E.
  destruct err as [e|].
  { do 2 eexists. split; [done|]. split; [done|]. unfold edges_outcome.
    destruct e; try done. by destruct (Hnc path). }
  destruct (Hok eq_refl) as [Hts Hf]. simpl in Hts. clear Hok Hnc E.
  assert (forall i t, ts !! i = Some (Some t) -> (node_index t < length outbounds)%nat) as Hr.
  { intros i t Ht. destruct (Hin i t Ht) as [Hn|[tag Ht']]; [by rewrite lookup_nil in Hn|].
    by eapply Htags. }
  destruct (chained_loop_spec ts 0 (replicate (length outbounds) false) (length outbounds))
    as (chained & -> & Hcl & _ & Hch); [apply length_replicate | lia | |].
  { intros t (i & Hi)%list_elem_of_In%list_elem_of_lookup_1. by eapply Hr. }
  cbn [res_bind].
  destruct (support_loop_spec nodes chained outbounds 0) as (err & -> & Hnc & Hsup); [lia|].
  destruct err as [e|].
  { do 2 eexists. split; [done|]. split; [done|]. unfold edges_outcome.
    destruct e; try done. by destruct (Hnc path). }
  assert (forall a b, edge (succs ts) a b -> (b < length ts)%nat) as Hclosed.
  { intros a b He. unfold edge, succs in He. rewrite list_lookup_fmap in He.
    destruct (ts !! a) as [[t|]|] eqn:Ea; simplify_eq/=. rewrite Hl. by eapply Hr. }
  destruct (cycle_loop_spec nodes ts Hclosed (length outbounds) 0 (replicate (length outbounds) 0))
    as (r & -> & Hcyc); [simpl; lia | | lia |].
  { split; [by rewrite length_replicate | | done].
    intros i m [-> _]%lookup_replicate. by left. }
  destruct r as [labels|]; do 2 eexists; (split; [done|]; split; [done|]); [done|].
  split_and!; [done | done | by rewrite <- Hl |].
  intros i t o Ht Hor. destruct (Hch i t Ht) as [H1 H2].
  destruct Hor as [Ho|Ho]; by eapply (Hsup eq_refl _ o Ho).
Qed.

(** ** The tag index *)

Definition has_tag (tag : str) (n : OutboundNode) : bool := bool_decide (node_tag n = Some tag).

Lemma index_tags_spec ns tag :
  index_tags ns !! tag = node_id <$> List.find (has_tag tag) ns.
Proof.
  unfold index_tags. assert (forall m : gmap str OutboundNodeId,
    fold_left (fun m node => match node_tag node with
                             | Some tag => or_insert m tag (node_id node) | None => m end) ns m !! tag
    = match m !! tag with Some x => Some x | None => node_id <$> List.find (has_tag tag) ns end) as Hg.
  { induction ns as [|n ns IH]; intros m; simpl; [by destruct (m !! tag)|].
    rewrite IH. unfold has_tag at 2, or_insert. destruct (node_tag n) as [t|]; [|done].
    destruct (decide (t = tag)) as [->|Hne].
    - rewrite bool_decide_true by done. destruct (m !! tag) eqn:E; [by rewrite E|].
      by rewrite lookup_insert_eq.
    - rewrite bool_decide_false by naive_solver. destruct (m !! t); [done|].
      by rewrite lookup_insert_ne. }
  by rewrite Hg, lookup_empty.
Qed.

Lemma leaf_nodes_lookup ident os i :
  leaf_nodes ident os !! i
  = (fun o => mkNode (mkNodeId ident i) (oc_tag o) (kind_of (settings o))) <$> os !! i.
Proof. unfold leaf_nodes. by rewrite list_lookup_imap. Qed.

Lemma index_tags_leaf ident os tag id :
  index_tags (leaf_nodes ident os) !! tag = Some id ->
  graph_identity id = ident /\ exists o, os !! node_index id = Some o /\ oc_tag o = Some tag.
Proof.
  rewrite index_tags_spec. intros (n & [Hin Ht]%find_some & ->)%fmap_Some.
  apply list_elem_of_In, list_elem_of_lookup_1 in Hin as [i Hi].
  rewrite leaf_nodes_lookup in Hi. apply fmap_Some in Hi as (o & Ho & ->).
  unfold has_tag in Ht. unbool. simpl in *. eauto.
Qed.

(** ** Selector groups *)

Definition node_of (grp : OutboundSelectorGroup) : OutboundNode :=
  mkNode (group_node grp) (Some (group_tag grp)) KSelector.

Definition named (tag : str) (grp : OutboundSelectorGroup) : bool :=
  bool_decide (group_tag grp = tag).

Record groups_ok (ident : Z) (leaves : list OutboundNode) (tags : gmap str OutboundNodeId)
    (ns : list OutboundNode) (gs : list OutboundSelectorGroup)
    (fg : gmap str OutboundNodeId) : Prop := {
  groups_nodes : ns = leaves ++ map node_of gs;
  groups_ids : forall i grp, gs !! i = Some grp ->
    group_node grp = mkNodeId ident (length leaves + i);
  groups_members : Forall (fun grp => exists prefixes,
    members grp = map snd (matching_tags tags prefixes)
    /\ length (least_load_costs grp) = length (members grp)) gs;
  groups_first : forall tag, fg !! tag = group_node <$> List.find (named tag) gs
}.

Lemma find_snoc {A} (P : A -> bool) l x :
  List.find P (l ++ [x]) = match List.find P l with Some y => Some y | None => if P x then Some x else None end.
Proof. induction l as [|y l IH]; simpl; [by case_if|]. by case_if. Qed.

Lemma add_group_ok ident leaves tags ns gs fg b :
  groups_ok ident leaves tags ns gs fg ->
  let '(ns', gs', fg') := add_group ident tags (ns, gs, fg) b in
  groups_ok ident leaves tags ns' gs' fg'.
Proof.
  intros [Hn Hi Hm Hf]. simpl. split.
  - rewrite Hn, map_app, app_assoc. done.
  - intros i grp [Hl|[Hge Hl]]%lookup_app_Some; [by apply Hi|].
    apply list_lookup_singleton_Some in Hl as [Hz <-]. simpl. f_equal.
    rewrite Hn, length_app, length_map. lia.
  - apply Forall_app. split; [done|]. constructor; [|constructor].
    exists (selectors b). simpl. split; [done|].
    destruct (strategy b); by rewrite ?length_replicate, ?length_map.
  - intros tag. rewrite find_snoc. unfold or_insert.
    assert (named tag (mkGroup (mkNodeId ident (length ns)) (balancer_tag b)
      (map snd (matching_tags tags (selectors b))) (strategy b)
      (match strategy b with
       | LeastLoad s => map (fun e => least_load_cost_millionths s (fst e))
                          (matching_tags tags (selectors b))
       | _ => replicate (length (matching_tags tags (selectors b))) COST_MILLIONTHS_ONE
       end) (fallback_tag b)) = bool_decide (balancer_tag b = tag)) as Hnm by done.
    destruct (decide (balancer_tag b = tag)) as [<-|Hne].
    + pose proof (Hf (balancer_tag b)) as E. destruct (fg !! balancer_tag b) eqn:E'.
      * rewrite E'. destruct (List.find _ gs); simplify_eq/=. done.
      * rewrite lookup_insert_eq. destruct (List.find _ gs); [done|].
        unfold named. simpl. by rewrite bool_decide_true.
    + assert (forall m : gmap str OutboundNodeId, match m !! balancer_tag b with
        | Some _ => m | None => <[balancer_tag b := mkNodeId ident (length ns)]> m end !! tag
        = m !! tag) as -> by (intros m; destruct (m !! balancer_tag b); [done | by rewrite lookup_insert_ne]).
      rewrite Hf. destruct (List.find _ gs); [done|].
      unfold named. simpl. by rewrite bool_decide_false.
Qed.

Lemma add_groups_ok ident leaves tags bs ns gs fg :
  groups_ok ident leaves tags ns gs fg ->
  let '(ns', gs', fg') := fold_left (add_group ident tags) bs (ns, gs, fg) in
  groups_ok ident leaves tags ns' gs' fg'.
Proof.
  revert ns gs fg. induction bs as [|b bs IH]; intros ns gs fg Hok; [done|].
  cbn [fold_left]. pose proof (add_group_ok ident leaves tags ns gs fg b Hok) as Hb.
  destruct (add_group ident tags (ns, gs, fg) b) as [[ns1 gs1] fg1]. by apply IH.
Qed.

Section GraphProperties.
Context `{RegexEngine} `{KeywordEngine}.

(** What [OutboundGraph::new] establishes. *)
Record graph_ok (g : OutboundGraph) : Prop := {
  graph_leaves : leaf_count g = length (outbounds (config g));
  graph_tags : first_tag_node g = index_tags (leaf_nodes (identity g) (outbounds (config g)));
  graph_groups : groups_ok (identity g) (leaf_nodes (identity g) (outbounds (config g)))
    (first_tag_node g) (nodes g) (selector_groups g) (first_group_node g);
  graph_targets : length (proxy_targets g) = length (outbounds (config g));
  graph_edges : edges_outcome (outbounds (config g))
    (leaf_nodes (identity g) (outbounds (config g))) (first_tag_node g)
    (proxy_targets g) (proxy_validation_error g);
  graph_default : default_node g =
    match default_outbound_tag (config g) with
    | Some tag => first_tag_node g !! tag
    | None => node_id <$> head (leaf_nodes (identity g) (outbounds (config g)))
    end;
  graph_unresolved : unresolved_default_tag g =
    is_some (default_outbound_tag (config g)) && is_none (default_node g)
}.

Lemma length_leaf_nodes ident os : length (leaf_nodes ident os) = length os.
Proof. apply length_imap. Qed.

Lemma graph_new_ok ident cfg :
  exists g, OutboundGraph_new ident cfg = Some (Ok g) /\ graph_ok g
    /\ identity g = ident /\ config g = cfg.
Proof.
  unfold OutboundGraph_new. set (leaves := leaf_nodes ident (outbounds cfg)).
  destruct (build_spec (outbounds cfg) leaves (index_tags leaves)) as (ts & err & -> & Hl & He).
  { intros tag t (_ & o & Ho & _)%index_tags_leaf. by apply lookup_lt_Some in Ho. }
  pose proof (add_groups_ok ident leaves (index_tags leaves) (balancers (routing cfg)) leaves [] ∅)
    as Hg.
  destruct (fold_left _ (balancers (routing cfg)) (leaves, [], ∅)) as [[ns gs] fg].
  eexists. split; [done|]. split; [|done]. split; simpl; try done.
  - apply length_leaf_nodes.
  - apply Hg. split; [by rewrite app_nil_r | | constructor |].
    + intros i grp Hi. by rewrite lookup_nil in Hi.
    + intros tag. by rewrite lookup_empty.
Qed.

(** [proxy_target] is the edge relation. *)
Lemma proxy_target_edge g i t :
  graph_ok g ->
  proxy_target g (mkNodeId (identity g) i) = Some t <-> proxy_targets g !! i = Some (Some t).
Proof.
  intros Hg. unfold proxy_target. simpl. rewrite Z.eqb_refl. simpl.
  rewrite (graph_leaves g Hg), <- (graph_targets g Hg).
  destruct (length (proxy_targets g) <=? i)%nat eqn:E.
  - apply Nat.leb_le in E. rewrite lookup_ge_None_2 by done. done.
  - destruct (proxy_targets g !! i) as [[?|]|]; naive_solver.
Qed.

(** Resolved edges stay within one graph. *)
Lemma linked_target_identity g i t :
  graph_ok g -> proxy_targets g = map (linked_target (first_tag_node g)) (outbounds (config g)) ->
  proxy_targets g !! i = Some (Some t) -> t = mkNodeId (identity g) (node_index t).
Proof.
  intros Hg -> Ht. rewrite list_lookup_fmap in Ht.
  destruct (outbounds (config g) !! i) as [o|]; simplify_eq/=.
  unfold linked_target in Ht. apply bind_Some in Ht as (p & _ & Ht).
  rewrite (graph_tags g Hg) in Ht. apply index_tags_leaf in Ht as [E _]. destruct t. by simpl in *; subst.
Qed.

(** [k] steps along the proxy chain. *)
Fixpoint hops (g : OutboundGraph) (k : nat) (id : OutboundNodeId) : option OutboundNodeId :=
  match k with
  | O => Some id
  | S k => id' ← proxy_target g id; hops g k id'
  end.

Lemma ends_hops g i :
  graph_ok g -> proxy_targets g = map (linked_target (first_tag_node g)) (outbounds (config g)) ->
  ends (succs (proxy_targets g)) i -> exists k, hops g k (mkNodeId (identity g) i) = None.
Proof.
  intros Hg Ht. induction 1 as [a Ha|a b He _ [k IH]];
    (unfold succs in *; rewrite list_lookup_fmap in * || unfold edge in He; rewrite ?list_lookup_fmap in *).
  - exists 1%nat. simpl. destruct (proxy_target g (mkNodeId (identity g) a)) as [t|] eqn:E; [|done].
    apply proxy_target_edge in E; [|done]. rewrite E in Ha. done.
  - destruct (proxy_targets g !! a) as [[t|]|] eqn:E; simplify_eq/=.
    exists (S k). simpl. rewrite (proj2 (proxy_target_edge g a t Hg) E). simpl.
    by rewrite (linked_target_identity g a t).
Qed.

(** The first configured outbound with a tag. *)
Definition first_tagged (g : OutboundGraph) (tag : str) (i : nat) : Prop :=
  (exists o, outbounds (config g) !! i = Some o /\ oc_tag o = Some tag)
  /\ forall j o, (j < i)%nat -> outbounds (config g) !! j = Some o -> oc_tag o <> Some tag.

Lemma find_first {A} (P : A -> bool) l x :
  List.find P l = Some x -> exists i, l !! i = Some x /\ P x = true
    /\ forall j y, (j < i)%nat -> l !! j = Some y -> P y = false.
Proof.
  induction l as [|y l IH]; simpl; [done|]. destruct (P y) eqn:E.
  - intros [= ->]. exists 0%nat. split_and!; [done..|]. lia.
  - intros (i & Hi & Hp & Hlt)%IH. exists (S i). split_and!; [done..|].
    intros [|j] z Hj Hz; simplify_eq/=; [done|]. eapply Hlt; [|done]. lia.
Qed.

Lemma node_for_tag_first g tag id :
  graph_ok g -> node_for_tag g tag = Some id ->
  id = mkNodeId (identity g) (node_index id) /\ first_tagged g tag (node_index id).
Proof.
  intros Hg Hid. unfold node_for_tag in Hid. rewrite (graph_tags g Hg) in Hid.
  rewrite index_tags_spec in Hid. apply fmap_Some in Hid as (n & Hn & ->).
  apply find_first in Hn as (i & Hi & Ht & Hlt).
  rewrite leaf_nodes_lookup in Hi. apply fmap_Some in Hi as (o & Ho & ->). simpl in *.
  unfold has_tag in *. simpl in *. unbool. split; [done|]. split; [eauto|].
  intros j o' Hj Ho' Htag. specialize (Hlt j (mkNode (mkNodeId (identity g) j) (oc_tag o')
    (kind_of (settings o'))) Hj). rewrite leaf_nodes_lookup, Ho' in Hlt.
  specialize (Hlt eq_refl). unbool. done.
Qed.

(** ** Properties *)

(** C13: Building the graph always succeeds, without panicking or looping, and
    when its proxy chains validate they are sound: every [proxySettings] names
    a transport-layer proxy that is the first outbound with that tag, the
    proxied outbound and its proxy can both carry TCP, and following proxies
    from any node comes to an end. *)
Theorem proxy_chains_sound ident cfg :
  exists g, OutboundGraph_new ident cfg = Some (Ok g)
  /\ (validate_proxy_chains g = Ok tt ->
      (forall i o p, outbounds cfg !! i = Some o -> proxy_settings o = Some p ->
         transport_layer p = true /\ unsupported_reason o = None
         /\ exists t o', proxy_target g (mkNodeId ident i) = Some t
              /\ first_tagged g (proxy_tag p) (node_index t)
              /\ outbounds cfg !! node_index t = Some o' /\ unsupported_reason o' = None)
      /\ forall id, exists k, hops g k id = None).
Proof.
  destruct (graph_new_ok ident cfg) as (g & Hnew & Hg & <- & <-).
  exists g. split; [done|]. unfold validate_proxy_chains.
  pose proof (graph_edges g Hg) as He. destruct (proxy_validation_error g); [done|].
  intros _. destruct He as (Hts & Hf & Hends & Hsup). split.
  - intros i o p Ho Hp. pose proof (Forall_lookup_1 _ _ _ _ Hf Ho p Hp) as [Htl [t Ht]].
    assert (proxy_targets g !! i = Some (Some t)) as Hti.
    { rewrite Hts, list_lookup_fmap, Ho. simpl. unfold linked_target. rewrite Hp. simpl.
      by rewrite Ht. }
    destruct (node_for_tag_first g (proxy_tag p) t Hg Ht) as [_ Hfirst].
    pose proof Hfirst as [(o' & Ho' & _) _].
    split_and!; [done | apply (Hsup i t o Hti); auto |]. exists t, o'.
    split_and!; [by apply proxy_target_edge | done | done | apply (Hsup i t o' Hti); auto].
  - intros [gi i]. destruct (decide (gi = identity g /\ i < length (outbounds (config g)))%nat)
      as [[-> Hi]|Hno].
    + apply ends_hops; auto.
    + exists 1%nat. simpl. unfold proxy_target. simpl. rewrite (graph_leaves g Hg).
      guard_true by (apply orb_true_iff; rewrite negb_true_iff, Z.eqb_neq, Nat.leb_le;
        destruct (decide (gi = identity g)); [right; lia | by left]).
      done.
Qed.

(** A reported proxy cycle is real: its labels are those of outbounds
    [a0, a1, .., a0], each the configured proxy of the one before. *)
Theorem proxy_cycle_genuine ident cfg g labels
    (Hnew : OutboundGraph_new ident cfg = Some (Ok g))
    (Herr : validate_proxy_chains g = Err (Cycle labels)) :
  exists c a r, c = a :: r ++ [a]
  /\ labels = map (outbound_node_label (nodes g)) c
  /\ forall k x y, c !! k = Some x -> c !! S k = Some y ->
       proxy_target g (mkNodeId ident x) = Some (mkNodeId ident y).
Proof.
  destruct (graph_new_ok ident cfg) as (g' & Hnew' & Hg & Hid & Hcfg).
  rewrite Hnew in Hnew'. simplify_eq. unfold validate_proxy_chains in Herr.
  pose proof (graph_edges g' Hg) as He. destruct (proxy_validation_error g'); simplify_eq.
  destruct He as (Hts & c & (a & r & Hc & Hl) & ->).
  assert (forall l, linked (succs (proxy_targets g')) l -> forall k x y, l !! k = Some x ->
    l !! S k = Some y -> proxy_target g' (mkNodeId (identity g') x) = Some (mkNodeId (identity g') y)) as Hstep.
  { clear a r c Hc Hl. induction l as [|a [|b l] IH]; intros Hl k x y Hx Hy.
    - done.
    - by destruct k.
    - destruct Hl as [He Hl]. destruct k as [|k]; [|by eapply (IH Hl k)].
      simplify_eq/=. unfold edge, succs in He. rewrite list_lookup_fmap in He.
      destruct (proxy_targets g' !! x) as [[t|]|] eqn:E; simplify_eq/=.
      apply proxy_target_edge; [done|]. by rewrite <- (linked_target_identity g' x t). }
  assert (c = (a :: r) ++ [a]) as Hc' by done.
  exists c, a, r. split; [done|]. split; [|by apply Hstep].
  apply map_ext_in. intros i Hi. unfold outbound_node_label.
  assert (leaf_nodes (identity g') (outbounds (config g')) !! i = nodes g' !! i) as ->; [|done].
  rewrite (groups_nodes _ _ _ _ _ _ (graph_groups g' Hg)).
  symmetry. apply lookup_app_l. rewrite length_leaf_nodes, <- (graph_targets g' Hg).
  assert (Forall (fun a => (a < length (succs (proxy_targets g')))%nat) (a :: r)) as Hb
    by (apply (linked_bound _ _ a); by rewrite <- Hc').
  unfold succs in Hb. rewrite length_map in Hb. apply (Forall_In _ _ i Hb).
  rewrite Hc in Hi. destruct Hi as [->|[Hi|[->|[]]]%in_app_iff]; simpl; auto.
Qed.

Lemma node_in_group g grp id :
  graph_ok g -> In grp (selector_groups g) -> In id (members grp) ->
  id = mkNodeId (identity g) (node_index id) /\ (node_index id < leaf_count g)%nat.
Proof.
  intros Hg Hgrp Hid. pose proof (groups_members _ _ _ _ _ _ (graph_groups g Hg)) as Hm.
  destruct (Forall_In _ _ _ Hm Hgrp) as (prefixes & Em & _). rewrite Em in Hid.
  apply in_map_iff in Hid as ([tag id'] & E & Hin). simpl in E. subst id'.
  unfold matching_tags in Hin. apply list_elem_of_In in Hin.
  rewrite merge_sort_Permutation in Hin. apply list_elem_of_In, filter_In in Hin as [Hin _].
  apply list_elem_of_In, elem_of_map_to_list in Hin.
  rewrite (graph_tags g Hg) in Hin. apply index_tags_leaf in Hin as (Hi & o & Ho & _).
  split; [destruct id; simpl in *; by subst|]. rewrite (graph_leaves g Hg). by apply lookup_lt_Some in Ho.
Qed.

End GraphProperties.

Definition witness_outbound (tag proxy : str) : OutboundConfig :=
  mkOutboundConfig (Some tag) (Some (mkProxySettings proxy true)) TRaw SecNone SVless.

Definition witness_core : @CoreConfig literal_regex scan_automaton :=
  @mkCoreConfig literal_regex scan_automaton
    [witness_outbound (str_of "a") (str_of "b"); witness_outbound (str_of "b") (str_of "a")] None
    (@mkRoutingConfig literal_regex scan_automaton [] [] AsIs).

Lemma proxy_cycle_genuine_witness :
  exists g, @OutboundGraph_new literal_regex scan_automaton 7 witness_core = Some (Ok g)
  /\ exists c, map (outbound_node_label (nodes g)) c = [str_of "a"; str_of "b"; str_of "a"].
Proof.
  destruct (graph_new_ok 7 witness_core) as (g & Hg & _). exists g. split; [exact Hg|].
  destruct (proxy_cycle_genuine 7 witness_core g [str_of "a"; str_of "b"; str_of "a"] Hg)
    as (c & _ & _ & _ & Hl & _).
  - assert (match @OutboundGraph_new literal_regex scan_automaton 7 witness_core with
            | Some (Ok g) => validate_proxy_chains g
            | _ => Ok tt
            end = Err (Cycle [str_of "a"; str_of "b"; str_of "a"])) as E
      by (vm_compute; reflexivity).
    rewrite Hg in E. exact E.
  - exists c. symmetry. exact Hl.
Defined.
