(* ===== verification/Selection.v ===== *)
(** The mutable selection layer of [crates/xray-core-rs/src/outbound.rs]
    ([OutboundSelectionOverlay]): overrides, health records and the four
    balancer strategies. Atomics are modelled as the values they hold, each
    method as one step; random choices are an argument. *)
From Stdlib Require Import Strings.Byte.
From S2P Require Import Prelude Net IpRangeSet DomainMatcher RoutingRules OutboundGraph.

(** The [CoreError] values of selection and routing. *)
Inductive CoreError :=
| NoSupportedOutbound
| LoopbackChainTooLong (hops : nat)
| OutboundSelectorGroupNotFound (group : str)
| OutboundSelectorCandidateNotFound (group outbound : str)
| RoutingPolicyOutboundNotFound (tag : str)
| RoutingPolicyBalancerNotFound (tag : str)
| RoutingPolicyBalancerTopologyChanged
| RoutingPolicyRevisionExhausted
| RoutingDns (e : RoutingDnsError).

(** ** Health *)

Inductive OutboundHealthState := Unknown | Healthy | Unhealthy.

#[export] Instance OutboundHealthState_eq_dec : EqDecision OutboundHealthState.
Proof. solve_decision. Defined.

Definition UNKNOWN : Z := 0.
Definition HEALTHY : Z := 1.
Definition UNHEALTHY : Z := 2.

Definition health_from_u8 (value : Z) : OutboundHealthState :=
  if value =? HEALTHY then Healthy else if value =? UNHEALTHY then Unhealthy else Unknown.

Inductive OutboundHealthFailure :=
| Timeout | Transport | Tls | Io | MalformedHttpResponse
| HttpStatus (status : Z).

Definition FAILURE_NONE : Z := 0.
Definition HTTP_STATUS_BASE : Z := Z.shiftl 1 16.

Definition failure_encode (f : OutboundHealthFailure) : Z :=
  match f with
  | Timeout => 1 | Transport => 2 | Tls => 3 | Io => 4 | MalformedHttpResponse => 5
  | HttpStatus status => HTTP_STATUS_BASE + status
  end.

Definition failure_decode (value : Z) : option OutboundHealthFailure :=
  if value =? 0 then None
  else if value =? 1 then Some Timeout
  else if value =? 2 then Some Transport
  else if value =? 3 then Some Tls
  else if value =? 4 then Some Io
  else if value =? 5 then Some MalformedHttpResponse
  else if HTTP_STATUS_BASE <=? value then
    (if value - HTTP_STATUS_BASE <=? u16_max then Some (HttpStatus (value - HTTP_STATUS_BASE))
     else None)
  else None.

Definition LEAST_LOAD_HEALTH_WINDOW : nat := 16.
Definition LEAST_LOAD_RTT_BITS : Z := 27.
Definition LEAST_LOAD_RTT_MAX : Z := Z.shiftl 1 LEAST_LOAD_RTT_BITS - 1.
Definition u128_max : Z := 340282366920938463463374607431768211455.

Record OutboundHealthWindow := mkWindow {
  samples : list (option Z);
  win_next : nat;
  win_len : nat
}.

Definition window_default : OutboundHealthWindow :=
  mkWindow (replicate LEAST_LOAD_HEALTH_WINDOW None) 0 0.

Record OutboundHealthWindowMetrics := mkMetrics {
  sample_count : Z;
  failure_count : Z;
  average_ms : Z;
  deviation_ms : Z
}.

Definition window_record (w : OutboundHealthWindow) (delay_ms : option Z)
    : total (OutboundHealthWindowMetrics * OutboundHealthWindow) :=
  let? samples := set_at (samples w) (win_next w) delay_ms in
  let w := mkWindow samples ((win_next w + 1) mod LEAST_LOAD_HEALTH_WINDOW)
             (Nat.min (win_len w + 1) LEAST_LOAD_HEALTH_WINDOW) in
  let? kept := slice samples 0 (Z.of_nat (win_len w)) in
  let successes := omap id kept in
  let success_count := len successes in
  let failure_count := Z.of_nat (win_len w) - success_count in
  if bool_decide (successes = []) then
    Ok (mkMetrics (Z.of_nat (win_len w)) failure_count u64_max u64_max, w)
  else
    let sum := fold_left Z.add successes 0 in
    let average := sum / success_count in
    let variance := fold_left (fun acc s =>
      Z.min u128_max (acc + Z.min u128_max (Z.abs (s - average) * Z.abs (s - average))))
      successes 0 / success_count in
    Ok (mkMetrics (Z.of_nat (win_len w)) failure_count
          (Z.min average u64_max) (Z.min (Z.sqrt variance) u64_max), w).

Definition metrics_encode (m : OutboundHealthWindowMetrics) : Z :=
  let average := Z.min (average_ms m) LEAST_LOAD_RTT_MAX in
  let deviation := Z.min (deviation_ms m) LEAST_LOAD_RTT_MAX in
  Z.lor (Z.lor (Z.lor (Z.min (sample_count m) 31) (Z.shiftl (Z.min (failure_count m) 31) 5))
               (Z.shiftl average 10))
        (Z.shiftl deviation (10 + LEAST_LOAD_RTT_BITS)).

Definition metrics_decode (value : Z) : OutboundHealthWindowMetrics :=
  mkMetrics (Z.land value 31) (Z.land (Z.shiftr value 5) 31)
    (Z.land (Z.shiftr value 10) LEAST_LOAD_RTT_MAX)
    (Z.land (Z.shiftr value (10 + LEAST_LOAD_RTT_BITS)) LEAST_LOAD_RTT_MAX).

Record OutboundHealthAtomicState := mkHealth {
  h_state : Z;
  delay_ms : Z;
  last_try_unix_ms : Z;
  last_seen_unix_ms : Z;
  consecutive_failures : Z;
  last_failure : Z;
  least_load_metrics : Z;
  history : OutboundHealthWindow
}.

Definition health_default : OutboundHealthAtomicState :=
  mkHealth UNKNOWN u64_max 0 0 0 FAILURE_NONE 0 window_default.

(** [record_sample]: the new history and the encoded metrics. *)
Definition record_sample (h : OutboundHealthAtomicState) (d : option Z)
    : total OutboundHealthAtomicState :=
  let? (metrics, w) := window_record (history h) d in
  Ok (mkHealth (h_state h) (delay_ms h) (last_try_unix_ms h) (last_seen_unix_ms h)
        (consecutive_failures h) (last_failure h) (metrics_encode metrics) w).

(** ** The overlay *)

Record OutboundSelectorGroupState := mkGroupState {
  override_member : nat;
  round_robin_cursor : Z
}.

Definition wrap64 (z : Z) : Z := z mod 18446744073709551616.

Section Overlay.
Context `{RegexEngine} `{KeywordEngine}.

Record OutboundSelectionOverlay := mkOverlay {
  graph : OutboundGraph;
  group_states : list OutboundSelectorGroupState;
  health : list OutboundHealthAtomicState;
  revision : Z
}.

Definition overlay_new (g : OutboundGraph) : OutboundSelectionOverlay :=
  mkOverlay g (replicate (length (selector_groups g)) (mkGroupState 0 0))
    (replicate (leaf_count g) health_default) 0.

(** [graph.node(id).and_then(OutboundNode::tag)]. *)
Definition tag_of (g : OutboundGraph) (id : OutboundNodeId) : option str :=
  n ← node g id; node_tag n.

Definition group_for_tag (o : OutboundSelectionOverlay) (tag : str)
    : res CoreError (nat * OutboundSelectorGroup) :=
  let? id := ok_or (first_group_node (graph o) !! tag) (OutboundSelectorGroupNotFound tag) in
  if (node_index id <? leaf_count (graph o))%nat then Panic
  else
    let index := (node_index id - leaf_count (graph o))%nat in
    let? grp := unwrap (selector_groups (graph o) !! index) in
    Ok (index, grp).

Definition set_group_state (o : OutboundSelectionOverlay) (i : nat)
    (s : OutboundSelectorGroupState) : OutboundSelectionOverlay :=
  mkOverlay (graph o) (<[i := s]> (group_states o)) (health o) (revision o).

Definition bump (o : OutboundSelectionOverlay) : OutboundSelectionOverlay :=
  mkOverlay (graph o) (group_states o) (health o) (wrap64 (revision o + 1)).

(** [members.iter().position(..)]. *)
Fixpoint member_position (g : OutboundGraph) (l : list OutboundNodeId) (tag : str)
    : option nat :=
  match l with
  | [] => None
  | m :: r => if bool_decide (tag_of g m = Some tag) then Some 0%nat
              else S <$> member_position g r tag
  end.

Definition set_override (o : OutboundSelectionOverlay) (gtag otag : str)
    : res CoreError (Z * OutboundSelectionOverlay) :=
  let? (i, grp) := group_for_tag o gtag in
  let? m := ok_or (member_position (graph o) (members grp) otag)
              (OutboundSelectorCandidateNotFound gtag otag) in
  let? s := unwrap (group_states o !! i) in
  let o := set_group_state o i (mkGroupState (m + 1) (round_robin_cursor s)) in
  Ok (wrap64 (revision o + 1), bump o).

Definition clear_override (o : OutboundSelectionOverlay) (gtag : str)
    : res CoreError (Z * OutboundSelectionOverlay) :=
  let? (i, _) := group_for_tag o gtag in
  let? s := unwrap (group_states o !! i) in
  let o := set_group_state o i (mkGroupState 0 (round_robin_cursor s)) in
  Ok (wrap64 (revision o + 1), bump o).

Definition health_state (o : OutboundSelectionOverlay) (id : OutboundNodeId)
    : option OutboundHealthAtomicState :=
  if graph_identity id =? identity (graph o) then health o !! node_index id else None.

Definition set_health (o : OutboundSelectionOverlay) (id : OutboundNodeId)
    (h : OutboundHealthAtomicState) : OutboundSelectionOverlay :=
  mkOverlay (graph o) (group_states o) (<[node_index id := h]> (health o)) (revision o).

(** [delay] is in nanoseconds. *)
Definition record_health_success (o : OutboundSelectionOverlay) (id : OutboundNodeId)
    (delay now_unix_ms : Z) : total OutboundSelectionOverlay :=
  match health_state o id with
  | None => Ok o
  | Some h =>
    let ms := Z.min (delay / 1000000) u64_max in
    let? h := record_sample h (Some ms) in
    Ok (bump (set_health o id
      (mkHealth HEALTHY ms now_unix_ms now_unix_ms 0 FAILURE_NONE (least_load_metrics h)
         (history h))))
  end.

Definition record_health_failure (o : OutboundSelectionOverlay) (id : OutboundNodeId)
    (failure : OutboundHealthFailure) (now_unix_ms : Z) : total OutboundSelectionOverlay :=
  match health_state o id with
  | None => Ok o
  | Some h =>
    let? h := record_sample h None in
    Ok (bump (set_health o id
      (mkHealth UNHEALTHY u64_max now_unix_ms (last_seen_unix_ms h)
         (wrap64 (consecutive_failures h + 1)) (failure_encode failure) (least_load_metrics h)
         (history h))))
  end.

(** ** Strategies *)

Definition is_eligible (o : OutboundSelectionOverlay) (id : OutboundNodeId) : bool :=
  match health_state o id with
  | None => false
  | Some h => negb (bool_decide (health_from_u8 (h_state h) = Unhealthy))
  end.

Definition eligible (o : OutboundSelectionOverlay) (grp : OutboundSelectorGroup)
    : list OutboundNodeId := List.filter (is_eligible o) (members grp).

(** [gen_range] is the random source: a number below its argument. *)
Definition select_random_eligible (gen_range : nat -> nat) (o : OutboundSelectionOverlay)
    (grp : OutboundSelectorGroup) : option OutboundNodeId :=
  let eligible_count := length (eligible o grp) in
  if (eligible_count =? 0)%nat then None
  else eligible o grp !! gen_range eligible_count.

Definition select_round_robin_eligible (o : OutboundSelectionOverlay)
    (grp : OutboundSelectorGroup) (cursor : Z) : option OutboundNodeId :=
  let eligible_count := length (eligible o grp) in
  if (eligible_count =? 0)%nat then None
  else eligible o grp !! Z.to_nat (cursor mod Z.of_nat eligible_count).

(** [min_by_key]: the first of the least. *)
Fixpoint min_by_delay (l : list (Z * OutboundNodeId)) : option (Z * OutboundNodeId) :=
  match l with
  | [] => None
  | x :: r => match min_by_delay r with
              | None => Some x
              | Some y => if fst y <? fst x then Some y else Some x
              end
  end.

Definition ping_candidate (o : OutboundSelectionOverlay) (id : OutboundNodeId)
    : option (Z * OutboundNodeId) :=
  match health_state o id with
  | None => None
  | Some h => if bool_decide (health_from_u8 (h_state h) = Healthy)
              then Some (delay_ms h, id) else None
  end.

Definition select_least_ping (o : OutboundSelectionOverlay) (grp : OutboundSelectorGroup)
    : option OutboundNodeId :=
  snd <$> min_by_delay (omap (ping_candidate o) (members grp)).

Definition mul_sat (a b : Z) : Z := Z.min u128_max (a * b).

Record LoadCandidate := mkLoad {
  weighted_variance : Z;
  load_average : Z;
  load_failures : Z;
  load_samples : Z;
  load_tag : str;
  load_node : OutboundNodeId
}.

Definition load_candidate (o : OutboundSelectionOverlay) (grp : OutboundSelectorGroup)
    (s : RoutingLeastLoadSettings) (member_index : nat) (id : OutboundNodeId)
    : option LoadCandidate :=
  h ← health_state o id;
  if negb (bool_decide (health_from_u8 (h_state h) = Healthy)) then None
  else if is_some_and (max_rtt s) (fun d => Z.min (d / 1000000) u64_max <=? delay_ms h) then None
  else
    let m := metrics_decode (least_load_metrics h) in
    if sample_count m =? 0 then None
    else if (0 <? tolerance_millionths s)
         && (sample_count m * tolerance_millionths s <? failure_count m * 1000000) then None
    else
      tag ← tag_of (graph o) id;
      let cost := default COST_MILLIONTHS_ONE (least_load_costs grp !! member_index) in
      Some (mkLoad (mul_sat (mul_sat (deviation_ms m) (deviation_ms m)) cost)
              (average_ms m) (failure_count m) (sample_count m) tag id).

(** The comparison of candidates, tag last. *)
Definition load_leb (a b : LoadCandidate) : bool :=
  if weighted_variance a <? weighted_variance b then true
  else if weighted_variance b <? weighted_variance a then false
  else if load_average a <? load_average b then true
  else if load_average b <? load_average a then false
  else if load_failures a <? load_failures b then true
  else if load_failures b <? load_failures a then false
  else if load_samples b <? load_samples a then true
  else if load_samples a <? load_samples b then false
  else str_leb (load_tag a) (load_tag b).

Definition load_le (a b : LoadCandidate) : Prop := load_leb a b = true.
#[local] Instance load_le_dec : RelDecision load_le.
Proof. intros a b. unfold load_le. apply _. Defined.

(** [while count < candidates.len() && candidates[count].0 < threshold]. *)
Fixpoint count_below (threshold : Z) (l : list LoadCandidate) : nat :=
  match l with
  | [] => 0
  | c :: r => if weighted_variance c <? threshold then S (count_below threshold r) else 0
  end.

Fixpoint baseline_loop (baselines : list Z) (candidates : list LoadCandidate)
    (expected count : nat) : nat :=
  match baselines with
  | [] => count
  | b :: r =>
    let ms := b / 1000000 in
    let threshold := mul_sat (mul_sat ms ms) COST_MILLIONTHS_ONE in
    let count := (count + count_below threshold (drop count candidates))%nat in
    if (expected <=? count)%nat then count else baseline_loop r candidates expected count
  end.

Definition load_candidates (o : OutboundSelectionOverlay) (grp : OutboundSelectorGroup)
    (s : RoutingLeastLoadSettings) : list LoadCandidate :=
  merge_sort load_le (omap (fun e => e) (imap (load_candidate o grp s) (members grp))).

Definition selected_count (s : RoutingLeastLoadSettings) (candidates : list LoadCandidate) : nat :=
  let expected' := Nat.min (Z.to_nat (Z.max (expected s) 1)) (length candidates) in
  if bool_decide (baselines s = []) then expected'
  else
    let count := baseline_loop (baselines s) candidates expected' 0 in
    if 0 <? expected s then Nat.max count expected' else count.

Definition select_least_load (gen_range : nat -> nat) (o : OutboundSelectionOverlay)
    (grp : OutboundSelectorGroup) (s : RoutingLeastLoadSettings) : option OutboundNodeId :=
  let candidates := load_candidates o grp s in
  if bool_decide (candidates = []) then None
  else
    let count := selected_count s candidates in
    if (count =? 0)%nat then None
    else load_node <$> candidates !! gen_range count.

Definition select (gen_range : nat -> nat) (o : OutboundSelectionOverlay) (gtag : str)
    : res CoreError OutboundNodeId * OutboundSelectionOverlay :=
  match group_for_tag o gtag with
  | Err e => (Err e, o)
  | Panic => (Panic, o)
  | Ok (i, grp) =>
    match group_states o !! i with
    | None => (Panic, o)
    | Some s =>
      if (0 <? override_member s)%nat
      then (ok_or (members grp !! (override_member s - 1)%nat) NoSupportedOutbound, o)
      else
        let '(selected, o') :=
          match group_strategy grp with
          | Random => (select_random_eligible gen_range o grp, o)
          | RoundRobin =>
            (select_round_robin_eligible o grp (round_robin_cursor s),
             set_group_state o i
               (mkGroupState (override_member s) (wrap64 (round_robin_cursor s + 1))))
          | LeastPing => (select_least_ping o grp, o)
          | LeastLoad settings => (select_least_load gen_range o grp settings, o)
          end in
        (ok_or (match selected with
                | Some id => Some id
                | None => tag ← group_fallback_tag grp; node_for_tag (graph o') tag
                end) NoSupportedOutbound, o')
    end
  end.

(** ** Snapshots *)

Record OutboundSelectorGroupSnapshot := mkGroupSnapshot {
  snap_tag : str;
  candidates : list str;
  override_tag : option str
}.

Record OutboundSelectionSnapshot := mkSelectionSnapshot {
  snap_revision : Z;
  snap_groups : list OutboundSelectorGroupSnapshot
}.

(** [self.groups[index]] panics out of range. *)
Definition snapshot (o : OutboundSelectionOverlay) : total OutboundSelectionSnapshot :=
  let? groups := foldr (fun e acc =>
    let? acc := acc in
    let '(index, grp) := e in
    let? s := unwrap (group_states o !! index) in
    let override_tag :=
      if (0 <? override_member s)%nat
      then m ← members grp !! (override_member s - 1)%nat; tag_of (graph o) m
      else None in
    Ok (mkGroupSnapshot (group_tag grp) (omap (tag_of (graph o)) (members grp)) override_tag
        :: acc))
    (Ok []) (imap pair (selector_groups (graph o))) in
  Ok (mkSelectionSnapshot (revision o) groups).

Record OutboundHealthStatusSnapshot := mkHealthStatus {
  outbound_tag : str;
  hs_state : OutboundHealthState;
  hs_delay_ms : option Z;
  hs_last_try : option Z;
  hs_last_seen : option Z;
  hs_consecutive_failures : Z;
  hs_last_failure : option OutboundHealthFailure
}.

Record OutboundHealthSnapshot := mkHealthSnapshot {
  hsnap_revision : Z;
  hsnap_outbounds : list OutboundHealthStatusSnapshot
}.

Definition health_status (o : OutboundSelectionOverlay) (index : nat)
    (h : OutboundHealthAtomicState) : option OutboundHealthStatusSnapshot :=
  n ← nodes (graph o) !! index; tag ← node_tag n;
  Some (mkHealthStatus tag (health_from_u8 (h_state h))
    (if delay_ms h =? u64_max then None else Some (delay_ms h))
    (if last_try_unix_ms h =? 0 then None else Some (last_try_unix_ms h))
    (if last_seen_unix_ms h =? 0 then None else Some (last_seen_unix_ms h))
    (consecutive_failures h) (failure_decode (last_failure h))).

Definition health_snapshot (o : OutboundSelectionOverlay) : OutboundHealthSnapshot :=
  mkHealthSnapshot (revision o) (omap (fun x => x) (imap (health_status o) (health o))).

End Overlay.

(** ** Encodings *)

(** The metrics packed into one word: five, five, twenty-seven and twenty-seven
    bits. *)
Lemma metrics_encode_sum m :
  0 <= sample_count m -> 0 <= failure_count m -> 0 <= average_ms m -> 0 <= deviation_ms m ->
  metrics_encode m
  = Z.min (sample_count m) 31 + Z.min (failure_count m) 31 * 32
    + Z.min (average_ms m) LEAST_LOAD_RTT_MAX * 1024
    + Z.min (deviation_ms m) LEAST_LOAD_RTT_MAX * 137438953472.
Proof.
  intros H1 H2 H3 H4. unfold metrics_encode, LEAST_LOAD_RTT_BITS in *.
  change LEAST_LOAD_RTT_MAX with 134217727 in *.
  rewrite (lor_disjoint_add (Z.min (sample_count m) 31) _ 5) by (simpl; lia).
  rewrite (lor_disjoint_add _ _ 10) by (simpl; lia).
  rewrite (lor_disjoint_add _ _ (10 + 27)) by (simpl; lia). simpl. lia.
Qed.

Lemma pack_mod r q m : 0 <= r < m -> (r + q * m) mod m = r.
Proof. intros Hr. rewrite Z.mod_add by lia. by apply Z.mod_small. Qed.

Lemma pack_div r q m : 0 <= r < m -> (r + q * m) / m = q.
Proof. intros Hr. rewrite Z.div_add by lia. rewrite Z.div_small; lia. Qed.

Lemma metrics_decode_encode m :
  0 <= sample_count m -> 0 <= failure_count m -> 0 <= average_ms m -> 0 <= deviation_ms m ->
  metrics_decode (metrics_encode m)
  = mkMetrics (Z.min (sample_count m) 31) (Z.min (failure_count m) 31)
      (Z.min (average_ms m) LEAST_LOAD_RTT_MAX) (Z.min (deviation_ms m) LEAST_LOAD_RTT_MAX)
  /\ in_u64 (metrics_encode m).
Proof.
  intros H1 H2 H3 H4. rewrite metrics_encode_sum by done. unfold metrics_decode.
  assert (forall z, Z.land z 31 = z mod 32) as L5 by (intros; by apply (Z.land_ones _ 5)).
  assert (forall z, Z.land z LEAST_LOAD_RTT_MAX = z mod 134217728) as L27
    by (intros; by apply (Z.land_ones _ 27)).
  rewrite !L5, !L27, !Z.shiftr_div_pow2 by done.
  change LEAST_LOAD_RTT_MAX with 134217727. unfold LEAST_LOAD_RTT_BITS, in_u64.
  change (2 ^ 5) with 32. change (2 ^ 10) with 1024. change (2 ^ (10 + 27)) with 137438953472.
  set (a := Z.min (sample_count m) 31). set (b := Z.min (failure_count m) 31).
  set (c := Z.min (average_ms m) 134217727). set (d := Z.min (deviation_ms m) 134217727).
  assert (0 <= a < 32 /\ 0 <= b < 32 /\ 0 <= c < 134217728 /\ 0 <= d < 134217728)
    as (Ha & Hb & Hc & Hd) by lia.
  split; [|lia].
  replace (a + b * 32 + c * 1024 + d * 137438953472)
    with (a + (b + (c + d * 134217728) * 32) * 32) by lia.
  change 137438953472 with (32 * (32 * 134217728)). change 1024 with (32 * 32).
  rewrite <- !Z.div_div by lia.
  rewrite pack_mod, !(pack_div a), pack_mod, !(pack_div b), pack_mod, pack_div by done.
  by rewrite Z.mod_small.
Qed.

(** ** The sample window is a ring buffer *)

Definition last16 (ds : list (option Z)) : list (option Z) :=
  drop (length ds - LEAST_LOAD_HEALTH_WINDOW) ds.

(** [w] holds the newest samples of the history [ds]. *)
Record window_holds (w : OutboundHealthWindow) (ds : list (option Z)) : Prop := {
  wh_len : win_len w = Nat.min (length ds) LEAST_LOAD_HEALTH_WINDOW;
  wh_next : win_next w = (length ds mod LEAST_LOAD_HEALTH_WINDOW)%nat;
  wh_size : length (samples w) = LEAST_LOAD_HEALTH_WINDOW;
  wh_slots : forall k, (length ds <= k + LEAST_LOAD_HEALTH_WINDOW)%nat -> (k < length ds)%nat ->
    samples w !! (k mod LEAST_LOAD_HEALTH_WINDOW)%nat = ds !! k
}.

Lemma window_default_holds : window_holds window_default [].
Proof. split; try done. simpl. lia. Qed.

Lemma window_push_holds w ds d :
  window_holds w ds ->
  window_holds (mkWindow (<[win_next w := d]> (samples w))
                  ((win_next w + 1) mod LEAST_LOAD_HEALTH_WINDOW)
                  (Nat.min (win_len w + 1) LEAST_LOAD_HEALTH_WINDOW)) (ds ++ [d]).
Proof.
  unfold LEAST_LOAD_HEALTH_WINDOW. intros [Hl Hn Hs Hk]. unfold LEAST_LOAD_HEALTH_WINDOW in *.
  split; cbn [samples win_next win_len]; unfold LEAST_LOAD_HEALTH_WINDOW.
  - rewrite Hl, length_app. simpl. lia.
  - rewrite Hn, length_app, Nat.Div0.add_mod_idemp_l. done.
  - by rewrite length_insert.
  - intros k Hge Hlt. rewrite length_app in *. cbn [length] in *.
    destruct (decide (k = length ds)) as [->|Hne].
    + rewrite Hn, list_lookup_insert_eq, list_lookup_middle; [done.. |].
      rewrite Hs. apply Nat.mod_upper_bound. lia.
    + rewrite lookup_app_l by lia. rewrite list_lookup_insert_ne; [apply Hk; lia|].
      rewrite Hn. intros E.
      pose proof (Nat.div_mod_eq k 16). pose proof (Nat.div_mod_eq (length ds) 16). lia.
Qed.

(** The slots in use are the newest samples, rotated. *)
Lemma window_kept w ds :
  window_holds w ds -> take (win_len w) (samples w) ≡ₚ last16 ds.
Proof.
  unfold last16, LEAST_LOAD_HEALTH_WINDOW. intros [Hl Hn Hs Hk].
  unfold LEAST_LOAD_HEALTH_WINDOW in *.
  destruct (decide (length ds <= 16)%nat) as [Hle|Hgt].
  { replace (length ds - 16)%nat with 0%nat by lia. rewrite drop_0, Hl, Nat.min_l by lia.
    assert (take (length ds) (samples w) = ds) as ->; [|done]. apply list_eq. intros k.
    destruct (decide (k < length ds)%nat).
    - rewrite lookup_take_lt by done. rewrite <- (Hk k) by lia. by rewrite Nat.mod_small by lia.
    - rewrite !lookup_ge_None_2; [done | lia | rewrite length_take; lia]. }
  rewrite Hl, Nat.min_r, take_ge by lia. set (n := length ds) in *.
  set (r := (n mod 16)%nat). pose proof (Nat.div_mod_eq n 16) as Hdm. fold r in Hdm.
  pose proof (Nat.mod_upper_bound n 16 ltac:(lia)) as Hr. fold r in Hr.
  set (L := drop (n - 16) ds). assert (length L = 16%nat) as HL
    by (unfold L; rewrite length_drop; unfold n in *; lia).
  assert (forall i q, (i < 16)%nat -> ((i + q * 16) mod 16 = i)%nat) as Hmod.
  { intros i q Hi. rewrite Nat.Div0.mod_add. by apply Nat.mod_small. }
  assert (samples w = drop (16 - r) L ++ take (16 - r) L) as ->;
    [|by rewrite Permutation_app_comm, take_drop].
  apply list_eq. intros i. destruct (decide (i < 16)%nat) as [Hi|Hi].
  2: { rewrite !lookup_ge_None_2; [done | rewrite length_app, length_drop, length_take; lia | lia]. }
  destruct (decide (i < r)%nat) as [Hir|Hir].
  - rewrite lookup_app_l by (rewrite length_drop; lia). rewrite lookup_drop.
    unfold L. rewrite lookup_drop. rewrite <- Hk by lia. f_equal.
    rewrite <- (Hmod i (n / 16)%nat) at 1 by lia. f_equal. lia.
  - rewrite lookup_app_r by (rewrite length_drop; lia). rewrite length_drop.
    rewrite lookup_take_lt by lia. unfold L. rewrite lookup_drop. rewrite <- Hk by lia. f_equal.
    rewrite <- (Hmod i (n / 16 - 1)%nat) at 1 by lia. f_equal. fold L. lia.
Qed.

(** Recording a sample never panics and reports on the newest sixteen. *)
Definition successes_of (l : list (option Z)) : list Z := omap id l.

Lemma sum_perm l k : l ≡ₚ k -> fold_left Z.add l 0 = fold_left Z.add k 0.
Proof.
  intros Hp. rewrite !fold_symmetric by lia. induction Hp; simpl; lia.
Qed.

Definition delays_ok (ds : list (option Z)) : Prop :=
  Forall (fun o => match o with Some d => 0 <= d | None => True end) ds.

Lemma sum_nonneg l : Forall (Z.le 0) l -> 0 <= fold_left Z.add l 0.
Proof. intros Hf. rewrite fold_symmetric by lia. induction Hf; simpl; lia. Qed.

Lemma successes_nonneg ds : delays_ok ds -> Forall (Z.le 0) (successes_of (last16 ds)).
Proof.
  intros Hd. assert (delays_ok (last16 ds)) as Hl by by apply Forall_drop.
  unfold successes_of. induction Hl as [|[d|] l Hx _ IH]; simpl; [constructor | by constructor | done].
Qed.

Lemma length_successes l : (length (successes_of l) <= length l)%nat.
Proof.
  unfold successes_of. induction l as [|[d|] l IH]; [done | |].
  - change (length (d :: omap id l) <= length (Some d :: l))%nat. simpl. lia.
  - change (length (omap id l) <= length (None :: l))%nat. simpl. lia.
Qed.

Lemma window_record_spec w ds d :
  window_holds w ds -> delays_ok (ds ++ [d]) ->
  exists m w', window_record w d = Ok (m, w') /\ window_holds w' (ds ++ [d])
    /\ 0 <= average_ms m /\ 0 <= deviation_ms m
    /\ sample_count m = len (last16 (ds ++ [d]))
    /\ failure_count m = len (last16 (ds ++ [d])) - len (successes_of (last16 (ds ++ [d])))
    /\ average_ms m = (if bool_decide (successes_of (last16 (ds ++ [d])) = []) then u64_max
                       else Z.min (fold_left Z.add (successes_of (last16 (ds ++ [d]))) 0
                                   / len (successes_of (last16 (ds ++ [d])))) u64_max).
Proof.
  intros Hw Hd. pose proof (window_push_holds w ds d Hw) as Hw'.
  pose proof (window_kept _ _ Hw') as Hp. simpl win_len in Hp. simpl samples in Hp.
  unfold window_record. destruct Hw as [Hl Hn Hs _].
  rewrite set_at_ok; [|rewrite Hn, Hs; apply Nat.mod_upper_bound; done]. cbn [res_bind].
  set (ss := <[win_next w := d]> (samples w)) in *. simpl win_len.
  set (n := Nat.min (win_len w + 1) LEAST_LOAD_HEALTH_WINDOW) in *.
  assert (length ss = 16%nat) as Hss by (unfold ss; by rewrite length_insert).
  assert (n <= 16)%nat as Hn16 by (unfold n, LEAST_LOAD_HEALTH_WINDOW; lia).
  assert (slice ss 0 (Z.of_nat n) = @Ok Empty_set _ (take n ss)) as ->.
  { unfold slice. guard_true by (unfold len; lia). by rewrite Z.sub_0_r, Nat2Z.id. }
  cbn [res_bind].
  assert (omap id (take n ss) ≡ₚ successes_of (last16 (ds ++ [d]))) as Hsp
    by (unfold successes_of; by apply omap_Permutation).
  assert (len (omap id (take n ss)) = len (successes_of (last16 (ds ++ [d])))) as Hsl
    by (unfold len; by rewrite Hsp).
  assert (Z.of_nat n = len (last16 (ds ++ [d]))) as Hnl.
  { unfold len. rewrite <- Hp, length_take. lia. }
  assert (bool_decide (omap id (take n ss) = []) = bool_decide (successes_of (last16 (ds ++ [d])) = []))
    as Hb.
  { apply bool_decide_ext. rewrite <- !length_zero_iff_nil. by rewrite Hsp. }
  rewrite Hb. destruct (bool_decide (successes_of (last16 (ds ++ [d])) = [])); do 2 eexists;
    (split; [done|]; split; [done|]); simpl; rewrite ?Hsl, ?Hnl; split_and!; try done.
  - rewrite (sum_perm _ _ Hsp). pose proof (sum_nonneg _ (successes_nonneg _ Hd)).
    apply Z.min_glb; [|done]. apply Z_div_nonneg_nonneg; [done | apply len_nonneg].
  - apply Z.min_glb; [apply Z.sqrt_nonneg | done].
  - by rewrite (sum_perm _ _ Hsp).
Qed.

(** ** The overlay's invariant *)

Section OverlayProperties.
Context `{RegexEngine} `{KeywordEngine}.

(** A health record tells the truth about some history of probes: the state is
    the last outcome, and the metrics are those of the newest samples. *)
Definition newest {A} (l : list A) : option A := head (reverse l).

Definition health_ok (h : OutboundHealthAtomicState) : Prop :=
  exists ds, window_holds (history h) ds /\ delays_ok ds
    /\ h_state h = match newest ds with
                   | None => UNKNOWN
                   | Some None => UNHEALTHY
                   | Some (Some _) => HEALTHY
                   end
    /\ delay_ms h = match newest ds with Some (Some d) => d | _ => u64_max end
    /\ (ds <> [] -> sample_count (metrics_decode (least_load_metrics h)) = len (last16 ds)
          /\ failure_count (metrics_decode (least_load_metrics h))
             = len (last16 ds) - len (successes_of (last16 ds))).

Record overlay_ok (o : OutboundSelectionOverlay) : Prop := {
  ok_graph : graph_ok (graph o);
  ok_groups : length (group_states o) = length (selector_groups (graph o));
  ok_health_len : length (health o) = leaf_count (graph o);
  ok_overrides : forall i s grp, group_states o !! i = Some s ->
    selector_groups (graph o) !! i = Some grp -> (override_member s <= length (members grp))%nat;
  ok_health : Forall health_ok (health o)
}.

Lemma health_default_ok : health_ok health_default.
Proof. exists []. split_and!; try done; [apply window_default_holds | constructor]. Qed.

Lemma overlay_new_ok g : graph_ok g -> overlay_ok (overlay_new g).
Proof.
  intros Hg. split; simpl; rewrite ?length_replicate; try done.
  - intros i s grp [-> _]%lookup_replicate _. simpl. lia.
  - apply Forall_replicate, health_default_ok.
Qed.

Lemma group_for_tag_spec o tag :
  graph_ok (graph o) ->
  match List.find (named tag) (selector_groups (graph o)) with
  | None => group_for_tag o tag = Err (OutboundSelectorGroupNotFound tag)
  | Some grp => exists i, group_for_tag o tag = Ok (i, grp)
      /\ selector_groups (graph o) !! i = Some grp /\ group_tag grp = tag
  end.
Proof.
  intros Hg. pose proof (graph_groups _ Hg) as [_ Hids _ Hfirst]. specialize (Hfirst tag).
  unfold group_for_tag. rewrite Hfirst.
  destruct (List.find (named tag) (selector_groups (graph o))) as [grp|] eqn:Ef; [|done].
  apply find_first in Ef as (i & Hi & Hn & _). unfold named in Hn. unbool.
  exists i. simpl. rewrite (Hids i grp Hi). simpl.
  rewrite length_leaf_nodes, <- (graph_leaves _ Hg).
  rewrite (proj2 (Nat.ltb_ge _ _)) by lia.
  replace (leaf_count (graph o) + i - leaf_count (graph o))%nat with i by lia.
  rewrite Hi. done.
Qed.

Lemma group_state_exists o i grp :
  overlay_ok o -> selector_groups (graph o) !! i = Some grp ->
  exists s, group_states o !! i = Some s /\ (override_member s <= length (members grp))%nat.
Proof.
  intros Ho Hi. destruct (lookup_lt_is_Some_2 (group_states o) i) as [s Hs].
  { rewrite (ok_groups o Ho). by apply lookup_lt_Some in Hi. }
  exists s. split; [done|]. by eapply (ok_overrides o Ho).
Qed.

Lemma set_group_state_ok o i s grp :
  overlay_ok o -> selector_groups (graph o) !! i = Some grp ->
  (override_member s <= length (members grp))%nat -> overlay_ok (set_group_state o i s).
Proof.
  intros [Hg Hl Hh Ho Hk] Hi Hs. split; simpl; try done.
  - by rewrite length_insert.
  - intros j s' grp' [(-> & <- & _)|[_ Hj]]%list_lookup_insert_Some Hgrp; [|by eapply Ho].
    congruence.
Qed.

Lemma bump_ok o : overlay_ok o -> overlay_ok (bump o).
Proof. by intros []. Qed.

Lemma set_health_ok o id h : overlay_ok o -> health_ok h -> overlay_ok (set_health o id h).
Proof.
  intros [Hg Hl Hh Ho Hk] Hok. split; simpl; try done.
  - by rewrite length_insert.
  - by apply Forall_insert.
Qed.

Lemma record_sample_spec h d :
  health_ok h -> match d with Some x => 0 <= x | None => True end ->
  exists h' ds, record_sample h d = Ok h' /\ window_holds (history h') (ds ++ [d])
    /\ delays_ok (ds ++ [d])
    /\ sample_count (metrics_decode (least_load_metrics h')) = len (last16 (ds ++ [d]))
    /\ failure_count (metrics_decode (least_load_metrics h'))
       = len (last16 (ds ++ [d])) - len (successes_of (last16 (ds ++ [d]))).
Proof.
  intros (ds & Hw & Hds & _) Hd. unfold record_sample.
  assert (delays_ok (ds ++ [d])) as Hds' by (apply Forall_app; split; [done | by constructor]).
  destruct (window_record_spec (history h) ds d Hw Hds')
    as (m & w' & -> & Hw' & Ha & Hv & Hs & Hf & _).
  cbn [res_bind]. eexists. exists ds. split; [done|]. cbn [least_load_metrics history].
  split; [done|]. split; [done|].
  assert (len (last16 (ds ++ [d])) <= 16).
  { unfold last16, len. rewrite length_drop. unfold LEAST_LOAD_HEALTH_WINDOW. lia. }
  pose proof (length_successes (last16 (ds ++ [d]))).
  assert (len (successes_of (last16 (ds ++ [d]))) <= len (last16 (ds ++ [d]))) by (unfold len; lia).
  pose proof (len_nonneg (successes_of (last16 (ds ++ [d])))).
  destruct (metrics_decode_encode m) as [-> _]; [lia | lia | done | done |].
  cbn [sample_count failure_count]. lia.
Qed.

Lemma newest_snoc {A} (l : list A) x : newest (l ++ [x]) = Some x.
Proof. unfold newest. by rewrite reverse_snoc. Qed.

(** One step of the overlay's life. *)
Inductive overlay_step (gen_range : nat -> nat)
    : OutboundSelectionOverlay -> OutboundSelectionOverlay -> Prop :=
| step_set o o' g t r : set_override o g t = Ok (r, o') -> overlay_step gen_range o o'
| step_clear o o' g r : clear_override o g = Ok (r, o') -> overlay_step gen_range o o'
| step_success o o' id d now : 0 <= d -> record_health_success o id d now = Ok o' ->
    overlay_step gen_range o o'
| step_failure o o' id f now : record_health_failure o id f now = Ok o' ->
    overlay_step gen_range o o'
| step_select o g : overlay_step gen_range o (snd (select gen_range o g)).

Lemma member_position_lt g l tag i : member_position g l tag = Some i ->
  exists m, l !! i = Some m /\ tag_of g m = Some tag.
Proof.
  revert i. induction l as [|m l IH]; intros i; simpl; [done|]. case_if; unbool.
  - intros [= <-]. eauto.
  - intros (j & Hj & ->)%fmap_Some. by apply IH.
Qed.

Lemma health_state_ok o id h : overlay_ok o -> health_state o id = Some h -> health_ok h.
Proof.
  intros Ho. unfold health_state. case_if; [|done]. intros Hh.
  exact (Forall_lookup_1 _ _ _ _ (ok_health o Ho) Hh).
Qed.

Lemma overlay_step_ok gen_range o o' : overlay_ok o -> overlay_step gen_range o o' -> overlay_ok o'.
Proof.
  intros Ho Hstep. pose proof (fun tag => group_for_tag_spec o tag (ok_graph o Ho)) as Hgt.
  destruct Hstep as [o o' g t r E|o o' g r E|o o' id d now Hd E|o o' id f now E|o g].
  - specialize (Hgt g). destruct (List.find _ _) as [grp|]; unfold set_override in E;
      [|by rewrite Hgt in E]. destruct Hgt as (i & Hi & Hgrp & _). rewrite Hi in E.
    cbn [res_bind] in E. destruct (member_position _ _ t) as [m|] eqn:Em; [|done]. simpl in E.
    destruct (group_states o !! i) as [s|] eqn:Es; [|done]. simpl in E. simplify_eq.
    apply bump_ok. eapply set_group_state_ok; [done | done |]. simpl.
    apply member_position_lt in Em as (x & Hx & _). apply lookup_lt_Some in Hx. lia.
  - specialize (Hgt g). destruct (List.find _ _) as [grp|]; unfold clear_override in E;
      [|by rewrite Hgt in E]. destruct Hgt as (i & Hi & Hgrp & _). rewrite Hi in E.
    cbn [res_bind] in E. destruct (group_states o !! i) as [s|] eqn:Es; [|done]. simpl in E.
    simplify_eq. apply bump_ok. eapply set_group_state_ok; [done | done |]. simpl. lia.
  - unfold record_health_success in E. destruct (health_state o id) as [h|] eqn:Eh;
      [|by simplify_eq].
    assert (0 <= Z.min (d / 1000000) u64_max) as Hms
      by (apply Z.min_glb; [apply Z_div_nonneg_nonneg; lia | done]).
    destruct (record_sample_spec h (Some (Z.min (d / 1000000) u64_max)))
      as (h' & ds & Hr & Hw & Hds & Hs & Hf); [by eapply health_state_ok | done |].
    rewrite Hr in E. cbn [res_bind] in E. simplify_eq. apply bump_ok, set_health_ok; [done|].
    exists (ds ++ [Some (Z.min (d / 1000000) u64_max)]). simpl. rewrite newest_snoc.
    by split_and!.
  - unfold record_health_failure in E. destruct (health_state o id) as [h|] eqn:Eh;
      [|by simplify_eq].
    destruct (record_sample_spec h None) as (h' & ds & Hr & Hw & Hds & Hs & Hf);
      [by eapply health_state_ok | done |].
    rewrite Hr in E. cbn [res_bind] in E. simplify_eq. apply bump_ok, set_health_ok; [done|].
    exists (ds ++ [None]). simpl. rewrite newest_snoc. by split_and!.
  - unfold select. specialize (Hgt g). destruct (List.find _ _) as [grp|]; [|by rewrite Hgt].
    destruct Hgt as (i & -> & Hgrp & _).
    destruct (group_state_exists o i grp Ho Hgrp) as (s & Hs & Hov). rewrite Hs.
    case_if; [done|]. destruct (group_strategy grp); simpl; try done.
    by eapply set_group_state_ok.
Qed.

(** ** What a choice promises *)

(** The members a strategy may choose. *)
Definition qualifies (o : OutboundSelectionOverlay) (grp : OutboundSelectorGroup)
    (id : OutboundNodeId) : Prop :=
  match group_strategy grp with
  | Random | RoundRobin => is_eligible o id = true
  | LeastPing => is_Some (ping_candidate o id)
  | LeastLoad s => exists i, members grp !! i = Some id /\ is_Some (load_candidate o grp s i id)
  end.

Lemma min_by_delay_spec l :
  match min_by_delay l with
  | None => l = []
  | Some x => In x l /\ forall y, In y l -> fst x <= fst y
  end.
Proof.
  induction l as [|x l IH]; simpl; [done|]. destruct (min_by_delay l) as [y|].
  - destruct IH as [Hin Hmin]. case_if; unbool; split; auto.
    + intros z [<-|Hz]; [lia | auto].
    + intros z [<-|Hz]; [lia|]. specialize (Hmin z Hz). lia.
  - subst l. split; [by left|]. intros y [<-|[]]. lia.
Qed.

Lemma select_least_ping_spec o grp :
  match select_least_ping o grp with
  | None => forall id, In id (members grp) -> ping_candidate o id = None
  | Some id => In id (members grp) /\ exists d, ping_candidate o id = Some (d, id)
      /\ forall id' d', In id' (members grp) -> ping_candidate o id' = Some (d', id') -> d <= d'
  end.
Proof.
  assert (forall x, In x (omap (ping_candidate o) (members grp))
    <-> exists id, In id (members grp) /\ ping_candidate o id = Some x) as Hin.
  { intros x. rewrite <- list_elem_of_In, list_elem_of_omap.
    split; intros (id & H1 & H2); exists id; by rewrite list_elem_of_In in *. }
  assert (forall id d x, ping_candidate o id = Some (d, x) -> x = id) as Hself.
  { intros id d x. unfold ping_candidate. destruct (health_state o id); [|done].
    case_if; naive_solver. }
  unfold select_least_ping. pose proof (min_by_delay_spec (omap (ping_candidate o) (members grp))) as Hm.
  destruct (min_by_delay _) as [[d id]|]; simpl.
  - destruct Hm as [(id' & Hid' & Hp)%Hin Hmin]. pose proof (Hself _ _ _ Hp) as ->.
    split; [done|]. exists d. split; [done|]. intros id2 d2 H2 Hp2.
    apply (Hmin (d2, id2)). apply Hin. eauto.
  - intros id Hid. destruct (ping_candidate o id) as [x|] eqn:E; [|done].
    assert (In x (omap (ping_candidate o) (members grp))) as Hx by (apply Hin; eauto).
    by rewrite Hm in Hx.
Qed.

Lemma eligible_in o grp id :
  In id (eligible o grp) <-> In id (members grp) /\ is_eligible o id = true.
Proof. apply filter_In. Qed.

Lemma eligible_nil o grp id :
  length (eligible o grp) = 0%nat -> In id (members grp) -> is_eligible o id = false.
Proof.
  intros Hl Hid. destruct (is_eligible o id) eqn:E; [|done].
  apply length_zero_iff_nil in Hl. assert (In id (eligible o grp)) as Hin by by apply eligible_in.
  by rewrite Hl in Hin.
Qed.

Lemma lookup_in {A} (l : list A) i x : l !! i = Some x -> In x l.
Proof. intros Hi. apply list_elem_of_In. by eapply list_elem_of_lookup_2. Qed.

Section Choice.
Variable gen_range : nat -> nat.
Hypothesis Hrng : forall n, (0 < n)%nat -> (gen_range n < n)%nat.

Lemma select_random_spec o grp :
  match select_random_eligible gen_range o grp with
  | None => forall id, In id (members grp) -> is_eligible o id = false
  | Some id => In id (members grp) /\ is_eligible o id = true
  end.
Proof.
  unfold select_random_eligible. destruct (Nat.eqb_spec (length (eligible o grp)) 0) as [E|E].
  - intros id Hid. by apply (eligible_nil o grp).
  - destruct (lookup_lt_is_Some_2 (eligible o grp) (gen_range (length (eligible o grp)))) as [id Hid];
      [apply Hrng; lia|].
    rewrite Hid. by apply eligible_in, (lookup_in _ _ _ Hid).
Qed.

Lemma select_round_robin_spec o grp cursor :
  match select_round_robin_eligible o grp cursor with
  | None => forall id, In id (members grp) -> is_eligible o id = false
  | Some id => In id (members grp) /\ is_eligible o id = true
  end.
Proof.
  unfold select_round_robin_eligible. destruct (Nat.eqb_spec (length (eligible o grp)) 0) as [E|E].
  - intros id Hid. by apply (eligible_nil o grp).
  - pose proof (Z.mod_pos_bound cursor (Z.of_nat (length (eligible o grp))) ltac:(lia)).
    destruct (lookup_lt_is_Some_2 (eligible o grp)
      (Z.to_nat (cursor mod Z.of_nat (length (eligible o grp))))) as [id Hid]; [lia|].
    rewrite Hid. by apply eligible_in, (lookup_in _ _ _ Hid).
Qed.

Lemma count_below_le t l : (count_below t l <= length l)%nat.
Proof. induction l as [|c l IH]; simpl; [done|]. case_if; simpl; lia. Qed.

Lemma baseline_loop_le bs cs e n : (n <= length cs)%nat -> (baseline_loop bs cs e n <= length cs)%nat.
Proof.
  revert n. induction bs as [|b bs IH]; intros n Hn; [done|]. cbn [baseline_loop].
  set (t := mul_sat _ _). pose proof (count_below_le t (drop n cs)) as Hc.
  rewrite length_drop in Hc. case_if; [lia|]. apply IH. lia.
Qed.

Lemma selected_count_le s cs : (selected_count s cs <= length cs)%nat.
Proof.
  unfold selected_count. case_if; [lia|].
  pose proof (baseline_loop_le (baselines s) cs
    (Nat.min (Z.to_nat (Z.max (expected s) 1)) (length cs)) 0 ltac:(lia)). case_if; lia.
Qed.

Lemma select_least_load_spec o grp s id :
  select_least_load gen_range o grp s = Some id ->
  exists i, members grp !! i = Some id /\ is_Some (load_candidate o grp s i id).
Proof.
  unfold select_least_load. case_if; [done|]. case_if; [done|].
  intros (c & Hc & ->)%fmap_Some. apply list_elem_of_lookup_2 in Hc. unfold load_candidates in Hc.
  rewrite merge_sort_Permutation in Hc. apply list_elem_of_omap in Hc as (oc & Hoc & ->).
  apply elem_of_lookup_imap in Hoc as (i & id & E & Hi).
  assert (load_node c = id) as ->; [|eauto].
  unfold load_candidate in E. symmetry in E. apply bind_Some in E as (h & _ & E).
  repeat case_if_in E; try done. apply bind_Some in E as (t & _ & E). by simplify_eq.
Qed.

Lemma selected_count_nil s : selected_count s [] = 0%nat.
Proof.
  pose proof (selected_count_le s []) as Hl. simpl in Hl. lia.
Qed.

(** The random index stays within the chosen prefix, so only an empty prefix
    gives no choice. *)
Lemma select_least_load_none o grp s :
  select_least_load gen_range o grp s = None ->
  selected_count s (load_candidates o grp s) = 0%nat.
Proof.
  unfold select_least_load. case_if; unbool; [intros _; rewrite Heqb; apply selected_count_nil|].
  destruct (Nat.eqb_spec (selected_count s (load_candidates o grp s)) 0) as [E|E]; [done|].
  intros Hn%fmap_None. exfalso. apply lookup_ge_None_1 in Hn.
  pose proof (Hrng (selected_count s (load_candidates o grp s)) ltac:(lia)).
  pose proof (selected_count_le s (load_candidates o grp s)). lia.
Qed.

(** The outcome of a selection in a group with state [s]. *)
Definition choice_outcome (o : OutboundSelectionOverlay) (grp : OutboundSelectorGroup)
    (s : OutboundSelectorGroupState) (r : res CoreError OutboundNodeId) : Prop :=
  match r with
  | Ok id =>
    if (0 <? override_member s)%nat then members grp !! (override_member s - 1)%nat = Some id
    else In id (members grp) /\ qualifies o grp id
         \/ (exists tag, group_fallback_tag grp = Some tag /\ node_for_tag (graph o) tag = Some id)
            /\ match group_strategy grp with
               | LeastLoad ls => selected_count ls (load_candidates o grp ls) = 0%nat
               | _ => forall m, In m (members grp) -> ~ qualifies o grp m
               end
  | Err e =>
    e = NoSupportedOutbound /\ override_member s = 0%nat
    /\ match group_strategy grp with
       | LeastLoad ls => selected_count ls (load_candidates o grp ls) = 0%nat
       | _ => forall m, In m (members grp) -> ~ qualifies o grp m
       end
  | Panic => False
  end.

Lemma select_outcome o grp i s gtag :
  overlay_ok o -> group_for_tag o gtag = Ok (i, grp) ->
  selector_groups (graph o) !! i = Some grp -> group_states o !! i = Some s ->
  choice_outcome o grp s (fst (select gen_range o gtag)).
Proof.
  intros Ho Hgt Hgrp Hs. pose proof (ok_overrides o Ho i s grp Hs Hgrp) as Hov.
  unfold select. rewrite Hgt, Hs. unfold choice_outcome.
  destruct (0 <? override_member s)%nat eqn:E.
  { apply Nat.ltb_lt in E. simpl.
    destruct (lookup_lt_is_Some_2 (members grp) (override_member s - 1)) as [id ->]; [lia|]. done. }
  apply Nat.ltb_ge in E. set (fallback := tag ← group_fallback_tag grp; node_for_tag (graph o) tag).
  assert (forall (sel : option OutboundNodeId) (P : Prop),
    match sel with Some id => In id (members grp) /\ qualifies o grp id | None => P end ->
    match ok_or (match sel with Some id => Some id | None => fallback end) NoSupportedOutbound with
    | Ok id => In id (members grp) /\ qualifies o grp id
         \/ (exists tag, group_fallback_tag grp = Some tag /\ node_for_tag (graph o) tag = Some id) /\ P
    | Err e => e = NoSupportedOutbound /\ override_member s = 0%nat /\ P
    | Panic => False
    end) as Hgen.
  { intros [id|] P HP; [by left|]. unfold fallback.
    destruct (group_fallback_tag grp) as [t|]; simpl; [|split_and!; [done | lia | done]].
    destruct (node_for_tag (graph o) t) as [id|] eqn:Et; simpl; [right; eauto|].
    split_and!; [done | lia | done]. }
  unfold qualifies in *. destruct (group_strategy grp) as [| | |ls] eqn:Est; simpl fst.
  - pose proof (select_random_spec o grp) as Hr. apply Hgen.
    destruct (select_random_eligible gen_range o grp); [done|].
    intros m Hm. rewrite (Hr m Hm). done.
  - pose proof (select_round_robin_spec o grp (round_robin_cursor s)) as Hr. apply Hgen.
    destruct (select_round_robin_eligible o grp (round_robin_cursor s)); [done|].
    intros m Hm. rewrite (Hr m Hm). done.
  - pose proof (select_least_ping_spec o grp) as Hr. apply Hgen.
    destruct (select_least_ping o grp).
    + destruct Hr as (Hin & d & Hp & _). eauto.
    + intros m Hm. rewrite (Hr m Hm). by intros [].
  - apply Hgen. destruct (select_least_load gen_range o grp ls) eqn:Ell.
    + apply select_least_load_spec in Ell as (j & Hj & Hc). split; [by eapply lookup_in | eauto].
    + by apply select_least_load_none.
Qed.
End Choice.

(** ** Round robin *)

(** [k] selections in a row. *)
Fixpoint selections (gen_range : nat -> nat) (k : nat) (o : OutboundSelectionOverlay)
    (gtag : str) : list (res CoreError OutboundNodeId) :=
  match k with
  | O => []
  | S k => fst (select gen_range o gtag)
           :: selections gen_range k (snd (select gen_range o gtag)) gtag
  end.

Lemma round_robin_step gen_range o gtag i grp c :
  group_for_tag o gtag = Ok (i, grp) -> group_strategy grp = RoundRobin ->
  group_states o !! i = Some (mkGroupState 0 c) -> eligible o grp <> [] ->
  exists id, eligible o grp !! Z.to_nat (c mod Z.of_nat (length (eligible o grp))) = Some id
    /\ select gen_range o gtag
       = (Ok id, set_group_state o i (mkGroupState 0 (wrap64 (c + 1)))).
Proof.
  intros Hgt Hst Hs Hne. set (n := length (eligible o grp)).
  assert (0 < n)%nat by (unfold n; destruct (eligible o grp); [done | simpl; lia]).
  pose proof (Z.mod_pos_bound c (Z.of_nat n) ltac:(lia)).
  destruct (lookup_lt_is_Some_2 (eligible o grp) (Z.to_nat (c mod Z.of_nat n))) as [id Hid];
    [unfold n in *; lia|].
  exists id. split; [done|]. unfold select. rewrite Hgt, Hs. simpl. rewrite Hst.
  unfold select_round_robin_eligible. fold n.
  rewrite (proj2 (Nat.eqb_neq _ _)) by lia. by rewrite Hid.
Qed.

Lemma round_robin_run gen_range k o gtag i grp c :
  group_for_tag o gtag = Ok (i, grp) -> group_strategy grp = RoundRobin ->
  group_states o !! i = Some (mkGroupState 0 c) -> eligible o grp <> [] ->
  0 <= c -> c + Z.of_nat k <= 18446744073709551616 ->
  forall j, (j < k)%nat -> exists id,
    eligible o grp !! Z.to_nat ((c + Z.of_nat j) mod Z.of_nat (length (eligible o grp))) = Some id
    /\ selections gen_range k o gtag !! j = Some (Ok id).
Proof.
  revert o c. induction k as [|k IH]; intros o c Hgt Hst Hs Hne Hc Hk j Hj; [lia|].
  destruct (round_robin_step gen_range o gtag i grp c Hgt Hst Hs Hne) as (id & Hid & Hsel).
  cbn [selections]. rewrite Hsel. cbn [fst snd]. destruct j as [|j].
  - exists id. rewrite Z.add_0_r. done.
  - set (o' := set_group_state o i _). assert (k <> 0)%nat by lia.
    assert (wrap64 (c + 1) = c + 1) as Hw by (unfold wrap64; apply Z.mod_small; lia).
    destruct (IH o' (c + 1)) with (j := j) as (id' & Hid' & Hsel'); [done | done | | done | lia | lia | lia |].
    { simpl. rewrite list_lookup_insert_eq by (by apply lookup_lt_Some in Hs). by rewrite Hw. }
    exists id'. replace (c + Z.of_nat (S j)) with (c + 1 + Z.of_nat j) by lia. done.
Qed.

Lemma rotation_perm {A} (l r : list A) (c : Z) :
  0 <= c -> length r = length l ->
  (forall j, (j < length l)%nat ->
     r !! j = l !! Z.to_nat ((c + Z.of_nat j) mod Z.of_nat (length l))) ->
  r ≡ₚ l.
Proof.
  intros Hc Hlen Hr. destruct (decide (length l = 0)%nat) as [Hz|Hz].
  { destruct l, r; try done. }
  set (n := Z.of_nat (length l)) in *. set (k := Z.to_nat (c mod n)).
  pose proof (Z.mod_pos_bound c n ltac:(lia)) as Hk.
  assert (r = drop k l ++ take k l) as ->; [|by rewrite Permutation_app_comm, take_drop].
  apply list_eq. intros j. destruct (decide (j < length l)%nat) as [Hj|Hj].
  2: { rewrite !lookup_ge_None_2; [done | rewrite length_app, length_drop, length_take; lia | lia]. }
  rewrite Hr by done. rewrite <- Z.add_mod_idemp_l by lia.
  destruct (decide (j < length l - k)%nat) as [Hjk|Hjk].
  - rewrite lookup_app_l by (rewrite length_drop; lia). rewrite lookup_drop.
    rewrite Z.mod_small by lia. f_equal. lia.
  - rewrite lookup_app_r by (rewrite length_drop; lia). rewrite length_drop, lookup_take_lt by lia.
    replace (c mod n + Z.of_nat j) with (c mod n + Z.of_nat j - n + 1 * n) by lia.
    rewrite Z.mod_add, Z.mod_small by lia. f_equal. lia.
Qed.

Lemma length_selections gen_range k o gtag : length (selections gen_range k o gtag) = k.
Proof. revert o. induction k; intros o; simpl; [done|]. by f_equal. Qed.

(** ** Properties *)

(** The packed word in which balancers read an outbound's health loses only
    what does not fit: decoding gives back the counts up to 31 and the times up
    to the 27-bit bound, and the word fits 64 bits. *)
Theorem metrics_roundtrip m
    (Hs : 0 <= sample_count m) (Hf : 0 <= failure_count m)
    (Ha : 0 <= average_ms m) (Hd : 0 <= deviation_ms m) :
  metrics_decode (metrics_encode m)
  = mkMetrics (Z.min (sample_count m) 31) (Z.min (failure_count m) 31)
      (Z.min (average_ms m) LEAST_LOAD_RTT_MAX) (Z.min (deviation_ms m) LEAST_LOAD_RTT_MAX)
  /\ in_u64 (metrics_encode m).
Proof. by apply metrics_decode_encode. Qed.

(** The health window is a sixteen-slot ring buffer over the probe history:
    recording never panics, and the metrics count the newest sixteen probes,
    their failures, and average their delays. *)
Theorem window_reports_newest w ds d (Hw : window_holds w ds) (Hd : delays_ok (ds ++ [d])) :
  exists m w', window_record w d = Ok (m, w') /\ window_holds w' (ds ++ [d])
    /\ sample_count m = len (last16 (ds ++ [d]))
    /\ failure_count m = len (last16 (ds ++ [d])) - len (successes_of (last16 (ds ++ [d])))
    /\ average_ms m = (if bool_decide (successes_of (last16 (ds ++ [d])) = []) then u64_max
                       else Z.min (fold_left Z.add (successes_of (last16 (ds ++ [d]))) 0
                                   / len (successes_of (last16 (ds ++ [d])))) u64_max).
Proof.
  destruct (window_record_spec w ds d Hw Hd) as (m & w' & E & Hw' & _ & _ & Hrest).
  exists m, w'. split; [done|]. split; [done | exact Hrest].
Qed.

(** Balancer selection is sound in every reachable state of the overlay. It
    never panics; an override gives exactly the chosen member; otherwise the
    result is a member that qualifies under the group's strategy (not unhealthy
    for random and round robin, healthy for the others), and the fallback or an
    error appears only when no member qualifies. *)
Theorem selection_sound gen_range ident cfg g o gtag
    (Hrng : forall n, (0 < n)%nat -> (gen_range n < n)%nat)
    (Hg : OutboundGraph_new ident cfg = Some (Ok g))
    (Ho : rtc (overlay_step gen_range) (overlay_new g) o) :
  match List.find (named gtag) (selector_groups (graph o)) with
  | None => fst (select gen_range o gtag) = Err (OutboundSelectorGroupNotFound gtag)
  | Some grp => exists i s, selector_groups (graph o) !! i = Some grp
      /\ group_states o !! i = Some s
      /\ choice_outcome o grp s (fst (select gen_range o gtag))
  end.
Proof.
  destruct (graph_new_ok ident cfg) as (g' & Hg' & Hok & _). rewrite Hg in Hg'. simplify_eq.
  assert (overlay_ok o) as Hinv.
  { pose proof (overlay_new_ok g' Hok) as Hi. clear Hg Hok. induction Ho; [done|].
    apply IHHo. by eapply overlay_step_ok. }
  pose proof (group_for_tag_spec o gtag (ok_graph o Hinv)) as Hgt.
  destruct (List.find _ _) as [grp|]; [|unfold select; by rewrite Hgt].
  destruct Hgt as (i & Hi & Hgrp & _).
  destruct (group_state_exists o i grp Hinv Hgrp) as (s & Hs & _).
  exists i, s. split_and!; [done..|]. by eapply select_outcome.
Qed.

(** Round robin is fair: while health does not change, as many selections as
    there are eligible members give every eligible member exactly once. *)
Theorem round_robin_fair gen_range o gtag i grp c
    (Hgroup : group_for_tag o gtag = Ok (i, grp)) (Hstrategy : group_strategy grp = RoundRobin)
    (Hstate : group_states o !! i = Some (mkGroupState 0 c)) (Hne : eligible o grp <> [])
    (Hc : 0 <= c /\ c + Z.of_nat (length (eligible o grp)) <= 18446744073709551616) :
  selections gen_range (length (eligible o grp)) o gtag ≡ₚ map Ok (eligible o grp).
Proof.
  apply (rotation_perm _ _ c); [apply Hc | by rewrite length_selections, length_map |].
  rewrite length_map. intros j Hj.
  destruct (round_robin_run gen_range (length (eligible o grp)) o gtag i grp c
    Hgroup Hstrategy Hstate Hne (proj1 Hc) (proj2 Hc) j Hj) as (id & Hid & ->).
  rewrite list_lookup_fmap, Hid. done.
Qed.

End OverlayProperties.

(** ** Witnesses *)

Lemma metrics_roundtrip_witness :
  metrics_decode (metrics_encode (mkMetrics 16 2 40 (2 ^ 30))) = mkMetrics 16 2 40 134217727.
Proof.
  rewrite (proj1 (metrics_roundtrip (mkMetrics 16 2 40 (2 ^ 30))
    ltac:(vm_compute; congruence) ltac:(vm_compute; congruence) ltac:(vm_compute; congruence)
    ltac:(vm_compute; congruence))).
  reflexivity.
Defined.

Lemma window_reports_newest_witness :
  exists m w', window_record window_default (Some 5) = Ok (m, w') /\ sample_count m = 1.
Proof.
  destruct (window_reports_newest window_default [] (Some 5) window_default_holds)
    as (m & w' & E & _ & Hs & _); [repeat constructor; lia|].
  exists m, w'. split; [exact E | rewrite Hs; reflexivity].
Defined.

(** Two servers behind a round-robin balancer. *)
Definition balanced_core : @CoreConfig literal_regex scan_automaton :=
  @mkCoreConfig literal_regex scan_automaton
    [mkOutboundConfig (Some (str_of "s-1")) None TRaw SecNone SVless;
     mkOutboundConfig (Some (str_of "s-2")) None TRaw SecNone SVless]
    None
    (@mkRoutingConfig literal_regex scan_automaton []
       [mkRoutingBalancer (str_of "lb") [str_of "s-"] RoundRobin None] AsIs).

Definition balanced_graph : @OutboundGraph literal_regex scan_automaton :=
  match @OutboundGraph_new literal_regex scan_automaton 1 balanced_core with
  | Some (Ok g) => g
  | _ => @mkGraph literal_regex scan_automaton 0 balanced_core [] 0 ∅ [] None [] ∅ None false
  end.

Definition lb_group : OutboundSelectorGroup :=
  mkGroup (mkNodeId 1 2) (str_of "lb") [mkNodeId 1 0; mkNodeId 1 1] RoundRobin
    [1000000; 1000000] None.

Lemma selection_sound_witness :
  exists i s, selector_groups (graph (overlay_new balanced_graph)) !! i = Some lb_group
  /\ choice_outcome (overlay_new balanced_graph) lb_group s
       (fst (select (fun _ => 0%nat) (overlay_new balanced_graph) (str_of "lb"))).
Proof.
  pose proof (selection_sound (fun _ => 0%nat) 1 balanced_core balanced_graph
    (overlay_new balanced_graph) (str_of "lb") (fun n Hn => Hn) ltac:(reflexivity)
    ltac:(apply rtc_refl)) as Hs.
  assert (List.find (named (str_of "lb")) (selector_groups (graph (overlay_new balanced_graph)))
          = Some lb_group) as E by (vm_compute; reflexivity).
  rewrite E in Hs. destruct Hs as (i & s & Hi & _ & Hc).
  exists i, s. exact (conj Hi Hc).
Defined.

Lemma round_robin_fair_witness :
  selections (fun _ => 0%nat) 2 (overlay_new balanced_graph) (str_of "lb")
  ≡ₚ [Ok (mkNodeId 1 0); Ok (mkNodeId 1 1)].
Proof.
  apply (round_robin_fair (fun _ => 0%nat) (overlay_new balanced_graph) (str_of "lb") 0 lb_group 0).
  - vm_compute. reflexivity.
  - reflexivity.
  - reflexivity.
  - discriminate.
  - split; vm_compute; congruence.
Defined.
