(* ===== verification/Router.v ===== *)
(** Session routing over the outbound graph:
    [crates/xray-core-rs/src/outbound.rs] ([OutboundRouter], the routing policy
    and its replacement, loopback following, and the DNS prefilter). *)
From Stdlib Require Import Strings.Byte.
From S2P Require Import Prelude Net IpRangeSet DomainMatcher RoutingRules OutboundGraph Selection.

(** ** The DNS prefilter's port index *)

(** [u16] port numbers. *)
Inductive u16 : Set := .
#[export, refine] Instance u16_bits : AddressBits u16 := { WIDTH := 16 }.
Proof. done. Defined.

(** [DnsRoutePortRange] has the fields of an inclusive range. *)
Abbreviation DnsRoutePortRange := InclusiveRange.

Definition ALL_PORTS : DnsRoutePortRange := mkRange 0 u16_max.

Record DnsRouteNetworkIndex := mkNetworkIndex {
  tcp : list DnsRoutePortRange;
  udp : list DnsRoutePortRange
}.

Definition index_contains (i : DnsRouteNetworkIndex) (n : Network) (port : Z) : bool :=
  let ranges := match n with Tcp => tcp i | Udp => udp i end in
  match partition_point (fun r => start r <=? port) ranges with
  | O => false
  | S k => match ranges !! k with
           | Some r => (start r <=? port) && (port <=? end_ r)
           | None => false
           end
  end.

(** The loop of [merge_dns_route_port_ranges]; the kept ranges newest first. *)
Definition merge_port_step (merged : list DnsRoutePortRange) (r : DnsRoutePortRange)
    : list DnsRoutePortRange :=
  match merged with
  | previous :: older =>
    if start r <=? Z.min (end_ previous + 1) u16_max
    then mkRange (start previous) (Z.max (end_ previous) (end_ r)) :: older
    else r :: merged
  | [] => [r]
  end.

Definition merge_dns_route_port_ranges (ranges : list DnsRoutePortRange)
    : list DnsRoutePortRange :=
  reverse (fold_left merge_port_step (merge_sort range_le ranges) []).

(** [PartialEq] of the balancers. *)
#[export] Instance RoutingLeastLoadCost_eq_dec : EqDecision RoutingLeastLoadCost.
Proof. solve_decision. Defined.
#[export] Instance RoutingLeastLoadSettings_eq_dec : EqDecision RoutingLeastLoadSettings.
Proof. solve_decision. Defined.
#[export] Instance RoutingBalancerStrategy_eq_dec : EqDecision RoutingBalancerStrategy.
Proof. solve_decision. Defined.
#[export] Instance RoutingBalancer_eq_dec : EqDecision RoutingBalancer.
Proof. solve_decision. Defined.

Record RoutingPolicySnapshot := mkPolicySnapshot {
  ps_revision : Z;
  rule_count : nat;
  ps_domain_strategy : RoutingDomainStrategy
}.

(** How many loopback outbounds one connection may pass in a row. *)
Definition MAX_LOOPBACK_HOPS : nat := 8.

Section Router.
Context `{Platform} `{RegexEngine} `{KeywordEngine} `{DnsResolver}.

(** [DnsRouteNetworkIndexBuilder] holds the same two vectors before merging. *)
Definition add_ports (b : DnsRouteNetworkIndex) (n : Network) (rule : RoutingRule)
    : DnsRouteNetworkIndex :=
  let extra :=
    match port_ranges rule with
    | None => [ALL_PORTS]
    | Some ranges => map (fun r => mkRange (pr_start r) (pr_end r)) ranges
    end in
  match n with
  | Tcp => mkNetworkIndex (tcp b ++ extra) (udp b)
  | Udp => mkNetworkIndex (tcp b) (udp b ++ extra)
  end.

Definition add_rule (b : DnsRouteNetworkIndex) (rule : RoutingRule) : DnsRouteNetworkIndex :=
  match networks rule with
  | None => add_ports (add_ports b Tcp rule) Udp rule
  | Some networks => fold_left (fun b n => add_ports b n rule) networks b
  end.

Definition index_finish (b : DnsRouteNetworkIndex) : DnsRouteNetworkIndex :=
  mkNetworkIndex (merge_dns_route_port_ranges (tcp b)) (merge_dns_route_port_ranges (udp b)).

Record DnsRoutePrefilter := mkPrefilter {
  network_ports : DnsRouteNetworkIndex;
  wildcard_inbound : bool;
  tagged_inbounds : gset str
}.

Definition prefilter_step (st : DnsRouteNetworkIndex * bool * gset str) (rule : RoutingRule)
    : DnsRouteNetworkIndex * bool * gset str :=
  let '(b, wildcard, tagged) := st in
  let b := add_rule b rule in
  if bool_decide (inbound_tags rule = []) then (b, true, tagged)
  else (b, wildcard, list_to_set (inbound_tags rule) ∪ tagged).

Definition DnsRoutePrefilter_new (rs : list RoutingRule) : DnsRoutePrefilter :=
  let '(b, wildcard, tagged) :=
    fold_left prefilter_step rs (mkNetworkIndex [] [], false, ∅) in
  mkPrefilter (index_finish b) wildcard tagged.

Definition may_match (f : DnsRoutePrefilter) (inbound_tag : option str) (n : Network)
    (port : Z) : bool :=
  index_contains (network_ports f) n port
  && (wildcard_inbound f
      || is_some_and inbound_tag (fun tag => bool_decide (tag ∈ tagged_inbounds f))).

(** ** The routing policy *)

Record SniffedRouting := mkSniffed { sn_protocol : bool; sn_attributes : bool }.

Definition SniffedRouting_of (r : RoutingConfig) : SniffedRouting :=
  mkSniffed (existsb (fun rule => is_some (protocols rule)) (rules r))
    (existsb (fun rule => is_some (attributes rule)) (rules r)).

Definition sniffed_tcp (s : SniffedRouting) : bool := sn_protocol s || sn_attributes s.

Record RoutingPolicyState := mkPolicy {
  policy_revision : Z;
  policy_routing : RoutingConfig;
  dns_route_prefilter : DnsRoutePrefilter;
  sniffed_routing : SniffedRouting
}.

(** The router's shared state: the factory's selection overlay, which owns the
    graph, and the current policy. *)
Record OutboundRouter := mkRouter {
  selection : OutboundSelectionOverlay;
  routing_policy : RoutingPolicyState;
  default_is_dns : bool;
  default_requires_selection : bool
}.

Definition is_dns_node (g : OutboundGraph) (id : OutboundNodeId) : bool :=
  match node g id with Some n => bool_decide (kind n = KDns) | None => false end.

Definition may_reach_dns (g : OutboundGraph) (t : RoutingRuleTarget) : bool :=
  match t with
  | Outbound tag => is_some_and (node_for_tag g tag) (is_dns_node g)
  | Balancer tag =>
    is_some_and (selector_group_for_tag g tag) (fun grp =>
      existsb (is_dns_node g) (members grp)
      || is_some_and (t ← group_fallback_tag grp; node_for_tag g t) (is_dns_node g))
  end.

Definition router_prefilter (g : OutboundGraph) (r : RoutingConfig) : DnsRoutePrefilter :=
  DnsRoutePrefilter_new (List.filter (fun rule => may_reach_dns g (rule_target rule)) (rules r)).

Definition from_factory (o : OutboundSelectionOverlay) : OutboundRouter :=
  let g := graph o in
  let r := routing (config g) in
  mkRouter o (mkPolicy 0 r (router_prefilter g r) (SniffedRouting_of r))
    (is_some_and (default_node g) (is_dns_node g)) (unresolved_default_tag g).

(** One turn of the loop over the rules of [validate_routing_policy]. *)
Definition check_rule (g : OutboundGraph) (rule : RoutingRule) : res CoreError unit :=
  match rule_target rule with
  | Outbound tag =>
    if is_none (node_for_tag g tag) then Err (RoutingPolicyOutboundNotFound tag) else Ok tt
  | Balancer tag =>
    if is_none (selector_group_for_tag g tag) then Err (RoutingPolicyBalancerNotFound tag)
    else Ok tt
  end.

Fixpoint check_rules (g : OutboundGraph) (rs : list RoutingRule) : res CoreError unit :=
  match rs with
  | [] => Ok tt
  | rule :: rs => let? _ := check_rule g rule in check_rules g rs
  end.

Definition validate_routing_policy (g : OutboundGraph) (r : RoutingConfig)
    : res CoreError unit :=
  if negb (bool_decide (balancers r = []))
     && negb (bool_decide (balancers r = balancers (routing (config g))))
  then Err RoutingPolicyBalancerTopologyChanged
  else check_rules g (rules r).

Definition replace_routing_policy (rt : OutboundRouter) (r : RoutingConfig)
    : res CoreError Z * OutboundRouter :=
  let g := graph (selection rt) in
  match validate_routing_policy g r with
  | Err e => (Err e, rt)
  | Panic => (Panic, rt)
  | Ok _ =>
    let revision := policy_revision (routing_policy rt) in
    if u64_max <=? revision then (Err RoutingPolicyRevisionExhausted, rt)
    else
      (Ok (revision + 1),
       mkRouter (selection rt)
         (mkPolicy (revision + 1) r (router_prefilter g r) (SniffedRouting_of r))
         (default_is_dns rt) (default_requires_selection rt))
  end.

Definition routing_policy_snapshot (rt : OutboundRouter) : RoutingPolicySnapshot :=
  let p := routing_policy rt in
  mkPolicySnapshot (policy_revision p) (length (rules (policy_routing p)))
    (domain_strategy (policy_routing p)).

(** ** Selection *)

Section Choose.
Variable gen_range : nat -> nat.

Definition router_node_for_tag (o : OutboundSelectionOverlay) (tag : str)
    : res CoreError OutboundNodeId :=
  ok_or (node_for_tag (graph o) tag) NoSupportedOutbound.

Definition node_for_target (o : OutboundSelectionOverlay) (t : RoutingRuleTarget)
    : res CoreError OutboundNodeId * OutboundSelectionOverlay :=
  match t with
  | Outbound tag => (router_node_for_tag o tag, o)
  | Balancer tag => select gen_range o tag
  end.

Definition select_default_configured_node (o : OutboundSelectionOverlay)
    : res CoreError OutboundNodeId :=
  ok_or (default_node (graph o)) NoSupportedOutbound.

Definition select_configured_node_direct (o : OutboundSelectionOverlay)
    (outbound_tag : option str) : res CoreError OutboundNodeId :=
  match outbound_tag with
  | Some tag => router_node_for_tag o tag
  | None => select_default_configured_node o
  end.

Definition node_or_default (o : OutboundSelectionOverlay) (t : option RoutingRuleTarget)
    : res CoreError OutboundNodeId * OutboundSelectionOverlay :=
  match t with
  | Some t => node_for_target o t
  | None => (select_default_configured_node o, o)
  end.

Definition route_once_in_policy (p : RoutingPolicyState) (o : OutboundSelectionOverlay)
    (route : RouteContext) (target_domain : option str) (target_ip : option IpAddr)
    (target_network : option Network) (target_port : option Z)
    : res CoreError OutboundNodeId * OutboundSelectionOverlay :=
  node_or_default o
    (select_routed_target (policy_routing p) route target_domain target_ip target_network
       target_port).

(** [RouteContext { inbound_tag, protocol: None, attributes: None, ..*route }]. *)
Definition loopback_route (route : RouteContext) (inbound_tag : str) : RouteContext :=
  mkRouteContext (Some inbound_tag) (rc_source route) (rc_local route) (rc_user route) None None.

(** [hops] turns of the loop of [follow_loopbacks] are left. *)
Fixpoint follow_loop (hops : nat) (p : RoutingPolicyState) (o : OutboundSelectionOverlay)
    (id : OutboundNodeId) (route : RouteContext) (target_domain : option str)
    (target_ip : option IpAddr) (target_network : option Network) (target_port : option Z)
    : res CoreError OutboundNodeId * OutboundSelectionOverlay :=
  match hops with
  | O =>
    match loopback_inbound_tag (graph o) id with
    | Some _ => (Err (LoopbackChainTooLong MAX_LOOPBACK_HOPS), o)
    | None => (Ok id, o)
    end
  | S hops =>
    match loopback_inbound_tag (graph o) id with
    | None => (Ok id, o)
    | Some inbound_tag =>
      match route_once_in_policy p o (loopback_route route inbound_tag) target_domain target_ip
              target_network target_port with
      | (Ok id, o) =>
        follow_loop hops p o id route target_domain target_ip target_network target_port
      | (Err e, o) => (Err e, o)
      | (Panic, o) => (Panic, o)
      end
    end
  end.

Definition follow_loopbacks (p : RoutingPolicyState) (o : OutboundSelectionOverlay)
    (id : OutboundNodeId) (route : RouteContext) (target_domain : option str)
    (target_ip : option IpAddr) (target_network : option Network) (target_port : option Z)
    : res CoreError OutboundNodeId * OutboundSelectionOverlay :=
  follow_loop MAX_LOOPBACK_HOPS p o id route target_domain target_ip target_network target_port.

Definition select_configured_node_in_policy (p : RoutingPolicyState)
    (o : OutboundSelectionOverlay) (route : RouteContext) (target_domain : option str)
    (target_ip : option IpAddr) (target_network : option Network) (target_port : option Z)
    : res CoreError OutboundNodeId * OutboundSelectionOverlay :=
  match route_once_in_policy p o route target_domain target_ip target_network target_port with
  | (Ok id, o) =>
    follow_loopbacks p o id route target_domain target_ip target_network target_port
  | (Err e, o) => (Err e, o)
  | (Panic, o) => (Panic, o)
  end.

Definition select_configured_node_with_resolver_in_policy (p : RoutingPolicyState)
    (o : OutboundSelectionOverlay) (route : RouteContext) (t dial_target : Target)
    (d : Resolver) : res CoreError OutboundNodeId * OutboundSelectionOverlay * Resolver :=
  match select_routed_target_with_resolver (policy_routing p) route t d with
  | (Err e, d) => (Err (RoutingDns e), o, d)
  | (Panic, d) => (Panic, o, d)
  | (Ok routed, d) =>
    match node_or_default o routed with
    | (Ok id, o) =>
      (follow_loopbacks p o id route (target_domain dial_target) (target_ip dial_target)
         (Some (target_network dial_target)) (Some (port dial_target)), d)
    | (Err e, o) => (Err e, o, d)
    | (Panic, o) => (Panic, o, d)
    end
  end.

Definition may_select_dns_outbound_in_policy (rt : OutboundRouter) (p : RoutingPolicyState)
    (inbound_tag : option str) (t : Target) : bool :=
  default_is_dns rt || default_requires_selection rt
  || may_match (dns_route_prefilter p) inbound_tag (target_network t) (port t).

(** The tail of both DNS selectors: only a DNS node is passed on to
    [cached_dns_outbound], whose compiled handler is not modelled. *)
Definition only_dns_node (g : OutboundGraph) (id : OutboundNodeId) : option OutboundNodeId :=
  if is_dns_node g id then Some id else None.

Definition select_dns_outbound_for_route (rt : OutboundRouter) (route : RouteContext)
    (t : Target) : res CoreError (option OutboundNodeId) * OutboundSelectionOverlay :=
  let p := routing_policy rt in
  let o := selection rt in
  if negb (may_select_dns_outbound_in_policy rt p (rc_inbound_tag route) t) then (Ok None, o)
  else
    match select_configured_node_in_policy p o route (target_domain t) (target_ip t)
            (Some (target_network t)) (Some (port t)) with
    | (Ok id, o') => (Ok (only_dns_node (graph o) id), o')
    | (Err e, o') => (Err e, o')
    | (Panic, o') => (Panic, o')
    end.

Definition select_dns_outbound_for_route_with_resolver (rt : OutboundRouter)
    (route : RouteContext) (t : Target) (d : Resolver)
    : res CoreError (option OutboundNodeId) * OutboundSelectionOverlay * Resolver :=
  let p := routing_policy rt in
  let o := selection rt in
  if negb (may_select_dns_outbound_in_policy rt p (rc_inbound_tag route) t) then (Ok None, o, d)
  else
    match select_configured_node_with_resolver_in_policy p o route t t d with
    | (Ok id, o', d) => (Ok (only_dns_node (graph o) id), o', d)
    | (Err e, o', d) => (Err e, o', d)
    | (Panic, o', d) => (Panic, o', d)
    end.

(** The outbound a session is given. *)
Definition select_session_node_with_resolver (rt : OutboundRouter) (route : RouteContext)
    (t dial_target : Target) (d : Resolver)
    : res CoreError OutboundNodeId * OutboundSelectionOverlay * Resolver :=
  select_configured_node_with_resolver_in_policy (routing_policy rt) (selection rt) route t
    dial_target d.

End Choose.
End Router.

(** ** The port index *)

(** The DNS index merges as the address index does. *)
Lemma merge_port_ranges_eq l : merge_dns_route_port_ranges l = merge_ranges u16 l.
Proof.
  rewrite merge_ranges_push. unfold merge_dns_route_port_ranges. f_equal.
Qed.

(** The ports a builder or an index holds for a network. *)
Definition ports_of (i : DnsRouteNetworkIndex) (n : Network) : list DnsRoutePortRange :=
  match n with Tcp => tcp i | Udp => udp i end.

Lemma index_contains_merged b n port :
  Forall (wf_range u16) (ports_of b n) ->
  index_contains (index_finish b) n port = true <-> covers (ports_of b n) port.
Proof.
  intros Hwf. unfold index_contains, index_finish.
  assert ((match n with
           | Tcp => merge_dns_route_port_ranges (tcp b)
           | Udp => merge_dns_route_port_ranges (udp b) end)
          = merge_ranges u16 (ports_of b n)) as E
    by (rewrite <- merge_port_ranges_eq; by destruct n).
  cbn [tcp udp]. rewrite E. destruct (merge_ranges_ok u16 _ Hwf) as (Hs & _ & Hc).
  rewrite <- Hc, <- (partition_covers _ _ Hs).
  destruct (partition_point _ _) as [|k] eqn:Ep; [done|].
  destruct (merge_ranges u16 _ !! k) as [r|] eqn:Er; [|done].
  rewrite andb_true_iff. split; [tauto|]. intros Hle. split; [|done].
  apply Z.leb_le. by eapply partition_before.
Qed.

Section RouterProperties.
Context `{Platform} `{RegexEngine} `{KeywordEngine} `{DnsResolver}.

(** Configured port ranges are in order and 16 bits wide. *)
Definition ports_wf (rule : RoutingRule) : Prop :=
  forall ranges r, port_ranges rule = Some ranges -> In r ranges ->
    0 <= pr_start r <= pr_end r /\ pr_end r <= u16_max.

Lemma add_ports_covers b n rule m port :
  0 <= port <= u16_max ->
  covers (ports_of (add_ports b n rule) m) port
  <-> covers (ports_of b m) port \/ n = m /\ matches_port rule (Some port) = true.
Proof.
  intros Hp. unfold add_ports, matches_port.
  assert (covers (match port_ranges rule with
                  | None => [ALL_PORTS]
                  | Some ranges => map (fun r => mkRange (pr_start r) (pr_end r)) ranges
                  end) port
          <-> match port_ranges rule with
              | None => true
              | Some ranges => is_some_and (Some port) (fun t => existsb (fun r => pr_contains r t) ranges)
              end = true) as E.
  { destruct (port_ranges rule) as [rs|]; unfold is_some_and.
    - rewrite existsb_exists. unfold covers, pr_contains. setoid_rewrite in_map_iff. split.
      + intros (? & (r & <- & Hr) & Hlt). exists r. simpl in Hlt. split; [done|]. lia.
      + intros (r & Hr & Hlt). exists (mkRange (pr_start r) (pr_end r)).
        split; [by exists r | simpl; lia].
    - split; [done|]. intros _. exists ALL_PORTS. split; [by left | done]. }
  destruct n, m; simpl; rewrite ?covers_app, ?E; intuition congruence.
Qed.

Lemma add_rule_covers b rule m port :
  0 <= port <= u16_max ->
  covers (ports_of (add_rule b rule) m) port
  <-> covers (ports_of b m) port
      \/ matches_network rule (Some m) = true /\ matches_port rule (Some port) = true.
Proof.
  intros Hp. unfold add_rule, matches_network. destruct (networks rule) as [ns|].
  - revert b. simpl. induction ns as [|n ns IH]; intros b; simpl; [intuition congruence|].
    rewrite IH, add_ports_covers, orb_true_iff, bool_decide_eq_true by done. tauto.
  - rewrite !add_ports_covers by done. destruct m; intuition congruence.
Qed.

Lemma add_ports_wf b n rule m :
  ports_wf rule -> Forall (wf_range u16) (ports_of b m) ->
  Forall (wf_range u16) (ports_of (add_ports b n rule) m).
Proof.
  intros Hr Hb. assert (Forall (wf_range u16) (match port_ranges rule with
    | None => [ALL_PORTS]
    | Some ranges => map (fun r => mkRange (pr_start r) (pr_end r)) ranges end)) as Hx.
  { destruct (port_ranges rule) as [rs|] eqn:E.
    - apply Forall_forall. intros r' (r & <- & Hin)%in_map_iff. by apply (Hr rs r).
    - repeat constructor; done. }
  unfold add_ports. destruct n, m; simpl; try done; by apply Forall_app.
Qed.

Lemma add_rule_wf b rule m :
  ports_wf rule -> Forall (wf_range u16) (ports_of b m) ->
  Forall (wf_range u16) (ports_of (add_rule b rule) m).
Proof.
  intros Hr. unfold add_rule. destruct (networks rule) as [ns|].
  - revert b. induction ns as [|n ns IH]; intros b Hb; simpl; [done|].
    apply IH. by apply add_ports_wf.
  - intros Hb. by repeat apply add_ports_wf.
Qed.

Lemma exists_in_nil {A} (P : A -> Prop) : (exists x, In x [] /\ P x) <-> False.
Proof. firstorder. Qed.
Lemma exists_in_cons {A} (P : A -> Prop) y l :
  (exists x, In x (y :: l) /\ P x) <-> P y \/ exists x, In x l /\ P x.
Proof. simpl. firstorder congruence. Qed.

(** What the loop over the rules has collected. *)
Lemma prefilter_fold rs b w tg b' w' tg' :
  fold_left prefilter_step rs (b, w, tg) = (b', w', tg') ->
  Forall ports_wf rs -> (forall m, Forall (wf_range u16) (ports_of b m)) ->
  (forall m, Forall (wf_range u16) (ports_of b' m))
  /\ (forall m port, 0 <= port <= u16_max -> covers (ports_of b' m) port
        <-> covers (ports_of b m) port
            \/ exists rule, In rule rs /\ matches_network rule (Some m) = true
                 /\ matches_port rule (Some port) = true)
  /\ (w' = true <-> w = true \/ exists rule, In rule rs /\ inbound_tags rule = [])
  /\ (forall tag, tag ∈ tg' <-> tag ∈ tg \/ exists rule, In rule rs /\ tag ∈ inbound_tags rule).
Proof.
  revert b w tg. induction rs as [|rule rs IH]; intros b w tg E Hwf Hb; simpl in E.
  - simplify_eq. split_and!; [done|..]; intros; rewrite exists_in_nil; tauto.
  - apply Forall_cons_iff in Hwf as [Hr Hwf].
    destruct (bool_decide (inbound_tags rule = [])) eqn:Et; unbool;
      (destruct (IH _ _ _ E Hwf) as (Q1 & Q2 & Q3 & Q4);
        [intros m; by apply add_rule_wf | ];
      split_and!; [done | | |]).
    1, 4: intros m port Hp; rewrite Q2, add_rule_covers, exists_in_cons by done; tauto.
    + rewrite Q3, exists_in_cons. tauto.
    + intros tag. rewrite Q4, exists_in_cons, Et, elem_of_nil. tauto.
    + rewrite Q3, exists_in_cons. tauto.
    + intros tag. rewrite Q4, exists_in_cons, elem_of_union, elem_of_list_to_set. tauto.
Qed.

Lemma prefilter_complete rs rule tag n port :
  Forall ports_wf rs -> In rule rs -> 0 <= port <= u16_max ->
  matches_inbound rule tag = true -> matches_network rule (Some n) = true ->
  matches_port rule (Some port) = true ->
  may_match (DnsRoutePrefilter_new rs) tag n port = true.
Proof.
  intros Hwf Hin Hp Hi Hn Hport. unfold DnsRoutePrefilter_new.
  destruct (fold_left _ _ _) as [[b w] tg] eqn:E. unfold may_match. simpl.
  destruct (prefilter_fold _ _ _ _ _ _ _ E Hwf) as (Q1 & Q2 & Q3 & Q4);
    [intros []; constructor|].
  rewrite (proj2 (index_contains_merged b n port (Q1 n))) by (apply Q2; eauto). simpl.
  unfold matches_inbound in Hi. case_if_in Hi; unbool.
  - rewrite (proj2 Q3); eauto.
  - destruct tag as [[|c s]|]; simpl in Hi; try done.
    apply existsb_exists in Hi as (t & Ht & Eq). unbool. subst t.
    apply orb_true_iff. right. simpl. rewrite bool_decide_eq_true, Q4.
    right. exists rule. split; [done|]. by apply list_elem_of_In.
Qed.

(** ** The router's invariant *)

Lemma selector_group_find g tag :
  graph_ok g -> selector_group_for_tag g tag = List.find (named tag) (selector_groups g).
Proof.
  intros Hg. pose proof (graph_groups _ Hg) as [_ Hids _ Hfirst].
  unfold selector_group_for_tag. rewrite Hfirst.
  destruct (List.find _ _) as [grp|] eqn:Ef; [|done]. simpl.
  apply find_first in Ef as (i & Hi & _). unfold selector_group.
  rewrite (Hids i grp Hi). simpl. rewrite Z.eqb_refl, length_leaf_nodes, <- (graph_leaves _ Hg).
  rewrite (proj2 (Nat.ltb_ge _ _)) by lia. simpl.
  by replace (leaf_count g + i - leaf_count g)%nat with i by lia.
Qed.

Lemma select_graph gen_range o tag : graph (snd (select gen_range o tag)) = graph o.
Proof.
  unfold select. destruct (group_for_tag o tag) as [[i grp]| |]; try done.
  destruct (group_states o !! i); [|done]. case_if; [done|]. by destruct (group_strategy grp).
Qed.

Lemma overlay_step_graph gen_range o o' : overlay_step gen_range o o' -> graph o' = graph o.
Proof.
  destruct 1 as [o o' g t r E|o o' g r E|o o' id d now Hd E|o o' id f now E|o g].
  - unfold set_override in E. destruct (group_for_tag o g) as [[i grp]| |]; try done.
    simpl in E. destruct (member_position _ _ _); [|done]. simpl in E.
    destruct (group_states o !! i); [|done]. by simplify_eq/=.
  - unfold clear_override in E. destruct (group_for_tag o g) as [[i grp]| |]; try done.
    simpl in E. destruct (group_states o !! i); [|done]. by simplify_eq/=.
  - unfold record_health_success in E. destruct (health_state o id); [|by simplify_eq].
    destruct (record_sample _ _); [|done..]. by simplify_eq/=.
  - unfold record_health_failure in E. destruct (health_state o id); [|by simplify_eq].
    destruct (record_sample _ _); [|done..]. by simplify_eq/=.
  - apply select_graph.
Qed.

Record router_ok (rt : OutboundRouter) : Prop := {
  ok_overlay : overlay_ok (selection rt);
  ok_prefilter : dns_route_prefilter (routing_policy rt)
    = router_prefilter (graph (selection rt)) (policy_routing (routing_policy rt));
  ok_default_dns : default_is_dns rt
    = is_some_and (default_node (graph (selection rt))) (is_dns_node (graph (selection rt)))
}.

(** The router's life: its selection state moves, or its policy is replaced. *)
Inductive router_step (gen_range : nat -> nat) : OutboundRouter -> OutboundRouter -> Prop :=
| step_overlay rt o : overlay_step gen_range (selection rt) o ->
    router_step gen_range rt
      (mkRouter o (routing_policy rt) (default_is_dns rt) (default_requires_selection rt))
| step_policy rt r : router_step gen_range rt (snd (replace_routing_policy rt r)).

Lemma router_step_ok gen_range rt rt' :
  router_step gen_range rt rt' -> router_ok rt -> router_ok rt'.
Proof.
  destruct 1 as [rt o Hs|rt r]; intros [Ho Hp Hd].
  - pose proof (overlay_step_graph _ _ _ Hs) as Eg.
    split; simpl; rewrite ?Eg; [by eapply overlay_step_ok | done..].
  - unfold replace_routing_policy.
    destruct (validate_routing_policy _ r); simpl; [|done..]. case_if; by split.
Qed.

Lemma router_reachable gen_range ident cfg g rt :
  OutboundGraph_new ident cfg = Some (Ok g) ->
  rtc (router_step gen_range) (from_factory (overlay_new g)) rt -> router_ok rt.
Proof.
  intros Hg Hr. destruct (graph_new_ok ident cfg) as (g' & Hg' & Hok & _).
  rewrite Hg in Hg'. simplify_eq.
  assert (router_ok (from_factory (overlay_new g'))) as Hi
    by (split; [by apply overlay_new_ok | done..]).
  clear Hg Hok. induction Hr; [done|]. by eapply IHHr, router_step_ok.
Qed.

(** ** What selection gives *)

Section Chosen.
Variable gen_range : nat -> nat.
Hypothesis Hrng : forall n, (0 < n)%nat -> (gen_range n < n)%nat.

(** The errors a route may end in. *)
Definition route_error (g : OutboundGraph) (e : CoreError) : Prop :=
  e = NoSupportedOutbound \/ e = LoopbackChainTooLong MAX_LOOPBACK_HOPS
  \/ exists tag, e = OutboundSelectorGroupNotFound tag /\ selector_group_for_tag g tag = None.

(** A DNS node is only given for a target that the prefilter counts. *)
Definition dns_accounted (g : OutboundGraph) (t : option RoutingRuleTarget)
    (id : OutboundNodeId) : Prop :=
  is_dns_node g id = true ->
  match t with
  | Some t => may_reach_dns g t = true
  | None => is_some_and (default_node g) (is_dns_node g) = true
  end.

Definition leaf_of (g : OutboundGraph) (id : OutboundNodeId) : Prop :=
  is_Some (configured_outbound g id).

Lemma leaf_of_index g i :
  graph_ok g -> (i < leaf_count g)%nat -> leaf_of g (mkNodeId (identity g) i).
Proof.
  intros Hg Hi. unfold leaf_of, configured_outbound. simpl. rewrite Z.eqb_refl.
  rewrite (proj2 (Nat.leb_gt _ _) Hi). simpl. apply lookup_lt_is_Some.
  by rewrite <- (graph_leaves g Hg).
Qed.

Lemma leaf_of_tag g tag id : graph_ok g -> node_for_tag g tag = Some id -> leaf_of g id.
Proof.
  intros Hg Hid. destruct (node_for_tag_first g tag id Hg Hid) as [-> [(o & Ho & _) _]].
  apply leaf_of_index; [done|]. rewrite (graph_leaves g Hg). by apply lookup_lt_Some in Ho.
Qed.

Lemma leaf_of_default g id : graph_ok g -> default_node g = Some id -> leaf_of g id.
Proof.
  intros Hg. rewrite (graph_default g Hg).
  destruct (default_outbound_tag (config g)) as [tag|]; [by apply leaf_of_tag|].
  intros (n & Hn & ->)%fmap_Some. rewrite head_lookup, leaf_nodes_lookup in Hn.
  apply fmap_Some in Hn as (oc & Hoc & ->). simpl. apply leaf_of_index; [done|].
  rewrite (graph_leaves g Hg). by apply lookup_lt_Some in Hoc.
Qed.

(** One selection in a group. *)
Lemma select_spec o tag :
  overlay_ok o ->
  match fst (select gen_range o tag) with
  | Ok id => leaf_of (graph o) id /\ dns_accounted (graph o) (Some (Balancer tag)) id
  | Err e => route_error (graph o) e
  | Panic => False
  end.
Proof.
  intros Ho. pose proof (ok_graph o Ho) as Hg.
  pose proof (group_for_tag_spec o tag Hg) as Hgt.
  pose proof (selector_group_find (graph o) tag Hg) as Hsel.
  destruct (List.find _ _) as [grp|] eqn:Ef.
  2: { unfold select. rewrite Hgt. simpl. right. right. eauto. }
  destruct Hgt as (i & Hi & Hgrp & _).
  destruct (group_state_exists o i grp Ho Hgrp) as (s & Hs & _).
  pose proof (select_outcome gen_range Hrng o grp i s tag Ho Hi Hgrp Hs) as Hc.
  unfold choice_outcome in Hc. destruct (fst _) as [id|e|]; [|by left; destruct Hc|done].
  assert (In id (members grp) \/ exists ft, group_fallback_tag grp = Some ft
            /\ node_for_tag (graph o) ft = Some id) as [Hm|(ft & Hft & Hid)].
  { case_if_in Hc; [left; by eapply lookup_in | naive_solver]. }
  - split.
    + destruct (node_in_group (graph o) grp id Hg) as [-> Hlt]; [by eapply lookup_in | done |].
      by apply leaf_of_index.
    + intros Hd. simpl. rewrite Hsel. simpl. apply orb_true_iff. left.
      apply existsb_exists. eauto.
  - split; [by eapply leaf_of_tag|]. intros Hd. simpl. rewrite Hsel. simpl.
    apply orb_true_iff. right. by rewrite Hft; simpl; rewrite Hid.
Qed.

Lemma node_or_default_spec o t r o' :
  overlay_ok o -> node_or_default gen_range o t = (r, o') ->
  overlay_ok o' /\ graph o' = graph o
  /\ match r with
     | Ok id => leaf_of (graph o) id /\ dns_accounted (graph o) t id
     | Err e => route_error (graph o) e
     | Panic => False
     end.
Proof.
  intros Ho. pose proof (ok_graph o Ho) as Hg.
  destruct t as [[tag|tag]|]; simpl; intros E.
  - unfold router_node_for_tag in E. simplify_eq. split_and!; [done..|].
    destruct (node_for_tag (graph o') tag) as [id|] eqn:Ei; simpl; [|by left].
    split; [by eapply leaf_of_tag|]. intros Hd. simpl. by rewrite Ei.
  - pose proof (select_spec o tag Ho) as Hs. pose proof (select_graph gen_range o tag) as Eg.
    pose proof (overlay_step_ok gen_range o _ Ho (step_select gen_range o tag)) as Hok.
    rewrite E in Hs, Eg, Hok. simpl in *. split_and!; [done..|]. by destruct r.
  - unfold select_default_configured_node in E. simplify_eq. split_and!; [done..|].
    destruct (default_node (graph o')) as [id|] eqn:Ei; simpl; [|by left].
    split; [by eapply leaf_of_default|]. intros Hd. simpl. by rewrite Ei.
Qed.

(** Following loopbacks ends at a configured outbound that is not one. *)
Lemma follow_loop_spec hops p o id route td ti tn tp r o' :
  overlay_ok o -> leaf_of (graph o) id ->
  follow_loop gen_range hops p o id route td ti tn tp = (r, o') ->
  overlay_ok o' /\ graph o' = graph o
  /\ match r with
     | Ok id => leaf_of (graph o) id /\ loopback_inbound_tag (graph o) id = None
     | Err e => route_error (graph o) e
     | Panic => False
     end.
Proof.
  revert o id. induction hops as [|hops IH]; intros o id Ho Hl; simpl.
  - destruct (loopback_inbound_tag (graph o) id) eqn:El; intros E; simplify_eq;
      split_and!; try done. right. by left.
  - destruct (loopback_inbound_tag (graph o) id) eqn:El; [|by intros E; simplify_eq].
    unfold route_once_in_policy. destruct (node_or_default _ _ _) as [r1 o1] eqn:E1.
    destruct (node_or_default_spec o _ _ _ Ho E1) as (Ho1 & Eg & Hr).
    destruct r1 as [id1|e|]; [|by intros E; simplify_eq|done].
    intros E. destruct (IH o1 id1 Ho1) as (Ho2 & Eg2 & Hr2);
      [rewrite Eg; apply Hr | done |]. rewrite Eg2, Eg in *. done.
Qed.

(** No loopback is configured. *)
Definition no_loopback (g : OutboundGraph) : Prop :=
  forall i o, outbounds (config g) !! i = Some o -> kind_of (settings o) <> KLoopback.

Lemma no_loopback_tag g id : no_loopback g -> loopback_inbound_tag g id = None.
Proof.
  intros Hn. unfold loopback_inbound_tag. destruct (configured_outbound g id) as [o|] eqn:E; [|done].
  unfold configured_outbound in E. case_if_in E; [done|]. specialize (Hn _ _ E).
  by destruct (settings o).
Qed.

Lemma follow_loopbacks_none p o id route td ti tn tp :
  no_loopback (graph o) -> follow_loopbacks gen_range p o id route td ti tn tp = (Ok id, o).
Proof.
  intros Hn. unfold follow_loopbacks, MAX_LOOPBACK_HOPS. cbn [follow_loop].
  by rewrite no_loopback_tag.
Qed.

(** The rule that decided a route matched the connection. *)
Lemma routed_by_rule routing route t d target d' :
  select_routed_target_with_resolver routing route t d = (Ok (Some target), d') ->
  exists rule, In rule (rules routing) /\ rule_target rule = target
    /\ matches_inbound rule (rc_inbound_tag route) = true
    /\ matches_network rule (Some (target_network t)) = true
    /\ matches_port rule (Some (port t)) = true.
Proof.
  intros E. pose proof (selection_cases routing route t d) as Ho. rewrite E in Ho.
  destruct Ho as (addrs & Hs). symmetry in Hs.
  apply fmap_Some in Hs as (rule & Hf & ->). apply find_some in Hf as [Hin Hm].
  exists rule. split_and!; try done; unfold matches_some_address in Hm;
    apply existsb_exists in Hm as (ip & _ & Hm); unfold matches_route in Hm; by unbool.
Qed.

Lemma may_select_of_rule rt route t rule :
  router_ok rt -> Forall ports_wf (rules (policy_routing (routing_policy rt))) ->
  0 <= port t <= u16_max -> In rule (rules (policy_routing (routing_policy rt))) ->
  may_reach_dns (graph (selection rt)) (rule_target rule) = true ->
  matches_inbound rule (rc_inbound_tag route) = true ->
  matches_network rule (Some (target_network t)) = true ->
  matches_port rule (Some (port t)) = true ->
  may_select_dns_outbound_in_policy rt (routing_policy rt) (rc_inbound_tag route) t = true.
Proof.
  intros Hrt Hwf Hp Hin Hdns Hi Hn Hport. unfold may_select_dns_outbound_in_policy.
  rewrite (ok_prefilter rt Hrt). apply orb_true_iff. right. unfold router_prefilter.
  eapply prefilter_complete; [|apply filter_In; by split|done..].
  apply Forall_forall. intros x [Hx _]%filter_In. exact (Forall_In _ _ x Hwf Hx).
Qed.

(** Whoever is refused by the prefilter would not have been given a DNS node. *)
Lemma refused_not_dns rt route t d id o' d' :
  router_ok rt -> no_loopback (graph (selection rt)) ->
  Forall ports_wf (rules (policy_routing (routing_policy rt))) -> 0 <= port t <= u16_max ->
  may_select_dns_outbound_in_policy rt (routing_policy rt) (rc_inbound_tag route) t = false ->
  select_session_node_with_resolver gen_range rt route t t d = (Ok id, o', d') ->
  is_dns_node (graph (selection rt)) id = false.
Proof.
  intros Hrt Hnl Hwf Hp Hno. apply not_true_iff_false in Hno.
  unfold select_session_node_with_resolver, select_configured_node_with_resolver_in_policy.
  destruct (select_routed_target_with_resolver _ _ _ _) as [[routed|e|] d1] eqn:Er;
    [|by intros ?; simplify_eq..].
  destruct (node_or_default _ _ _) as [r1 o1] eqn:E1.
  destruct (node_or_default_spec _ _ _ _ (ok_overlay rt Hrt) E1) as (_ & Eg & Hr1).
  destruct r1 as [id1|e|]; [|by intros ?; simplify_eq..].
  rewrite follow_loopbacks_none by (by rewrite Eg). intros E. simplify_eq.
  destruct Hr1 as [_ Hacc]. apply not_true_iff_false. intros Hd. specialize (Hacc Hd).
  apply Hno. destruct routed as [target|].
  - apply routed_by_rule in Er as (rule & Hin & <- & Hi & Hn & Hport).
    by eapply may_select_of_rule.
  - unfold may_select_dns_outbound_in_policy. by rewrite (ok_default_dns rt Hrt), Hacc.
Qed.

Lemma session_node_spec p o route t dial d r o' d' :
  overlay_ok o ->
  select_configured_node_with_resolver_in_policy gen_range p o route t dial d = (r, o', d') ->
  overlay_ok o' /\ graph o' = graph o
  /\ match r with
     | Ok id => leaf_of (graph o) id /\ loopback_inbound_tag (graph o) id = None
     | Err e => route_error (graph o) e
                \/ e = RoutingDns (RoutingDnsAddressLimitExceeded MAX_IP_ON_DEMAND_ADDRESSES)
     | Panic => False
     end.
Proof.
  intros Ho. unfold select_configured_node_with_resolver_in_policy.
  pose proof (selection_cases (policy_routing p) route t d) as Hs.
  destruct (select_routed_target_with_resolver _ _ _ _) as [[routed|e|] d1] eqn:Er; [| |done].
  2: { simpl in Hs. subst. intros E. simplify_eq. eauto. }
  destruct (node_or_default _ _ _) as [r1 o1] eqn:E1.
  destruct (node_or_default_spec _ _ _ _ Ho E1) as (Ho1 & Eg & Hr1).
  destruct r1 as [id1|e|]; [|intros E; simplify_eq; eauto|done].
  destruct (follow_loopbacks _ _ _ _ _ _ _ _ _) as [r2 o2] eqn:E2. intros E. simplify_eq.
  destruct (follow_loop_spec _ _ _ _ _ _ _ _ _ _ _ Ho1 ltac:(rewrite Eg; apply Hr1) E2)
    as (Ho2 & Eg2 & Hr2). rewrite Eg2, Eg in *. split_and!; [done..|].
  destruct r; eauto.
Qed.

End Chosen.

Lemma router_reachable_graph gen_range rt rt' :
  rtc (router_step gen_range) rt rt' -> graph (selection rt') = graph (selection rt).
Proof.
  induction 1 as [|x y z Hs _ IH]; [done|]. rewrite IH. destruct Hs as [rt o Hs|rt r].
  - simpl. by eapply overlay_step_graph.
  - unfold replace_routing_policy. destruct (validate_routing_policy _ r); simpl; [|done..].
    by case_if.
Qed.

(** ** Properties *)

(** C10: A session is given a configured outbound that is neither a balancer nor
    a loopback, whatever the policy, the overrides and the health of the
    outbounds: selection never panics, and it fails only when there is no
    usable outbound, when more than eight loopbacks follow one another, when a
    rule names an unknown balancer, or when an on-demand lookup has too many
    answers. *)
Theorem session_node_sound gen_range ident cfg g rt route t dial d
    (Hrange : forall n, (0 < n)%nat -> (gen_range n < n)%nat)
    (Hgraph : OutboundGraph_new ident cfg = Some (Ok g))
    (Hreach : rtc (router_step gen_range) (from_factory (overlay_new g)) rt) :
  match fst (fst (select_session_node_with_resolver gen_range rt route t dial d)) with
  | Ok id => graph_identity id = ident
      /\ exists o, outbounds cfg !! node_index id = Some o /\ kind_of (settings o) <> KLoopback
  | Err e => route_error g e
      \/ e = RoutingDns (RoutingDnsAddressLimitExceeded MAX_IP_ON_DEMAND_ADDRESSES)
  | Panic => False
  end.
Proof.
  pose proof (router_reachable _ _ _ _ _ Hgraph Hreach) as Hok.
  pose proof (router_reachable_graph _ _ _ Hreach) as Eg. simpl in Eg.
  destruct (graph_new_ok ident cfg) as (g' & Hg' & _ & Hid & Hcfg).
  rewrite Hgraph in Hg'. injection Hg' as <-. rewrite <- Hid, <- Hcfg.
  destruct (select_session_node_with_resolver _ _ _ _ _ _) as [[r o'] d'] eqn:E.
  destruct (session_node_spec gen_range Hrange _ _ _ _ _ _ _ _ _ (ok_overlay rt Hok) E)
    as (_ & _ & Hr). rewrite Eg in Hr. simpl. destruct r as [id|e|]; [|done..].
  destruct Hr as [[o Ho] Hl]. pose proof Ho as Hco. unfold configured_outbound in Ho.
  case_if_in Ho; [done|]. unbool. split; [done|]. exists o. split; [done|].
  unfold loopback_inbound_tag in Hl. rewrite Hco in Hl. by destruct (settings o).
Qed.

(** C36: Without loopback outbounds the DNS prefilter is only an optimisation: when
    a session would be given a DNS outbound, the DNS selector gives it too, and
    otherwise it gives none, for every policy the router may come to have whose
    port ranges are in order, and every port of 16 bits; it hides at most an
    error. *)
Theorem dns_prefilter_sound gen_range ident cfg g rt route t d
    (Hrange : forall n, (0 < n)%nat -> (gen_range n < n)%nat)
    (Hgraph : OutboundGraph_new ident cfg = Some (Ok g))
    (Hreach : rtc (router_step gen_range) (from_factory (overlay_new g)) rt)
    (Hloop : no_loopback g)
    (Hports : Forall ports_wf (rules (policy_routing (routing_policy rt))))
    (Hport : 0 <= port t <= u16_max) :
  match fst (fst (select_session_node_with_resolver gen_range rt route t t d)),
        fst (fst (select_dns_outbound_for_route_with_resolver gen_range rt route t d)) with
  | Ok id, r => r = Ok (only_dns_node g id)
  | Err e, r => r = Err e \/ r = Ok None
  | Panic, _ => False
  end.
Proof.
  pose proof (router_reachable _ _ _ _ _ Hgraph Hreach) as Hok.
  pose proof (router_reachable_graph _ _ _ Hreach) as Eg. simpl in Eg.
  destruct (select_session_node_with_resolver _ _ _ _ _ _) as [[r o'] d'] eqn:E.
  unfold select_dns_outbound_for_route_with_resolver.
  destruct (may_select_dns_outbound_in_policy _ _ _ _) eqn:Em; simpl.
  - unfold select_session_node_with_resolver in E. rewrite E.
    pose proof (session_node_spec gen_range Hrange _ _ _ _ _ _ _ _ _ (ok_overlay rt Hok) E)
      as (_ & _ & Hr). destruct r; [by rewrite Eg | by left | done].
  - destruct r as [id|e|]; [|by right|].
    + unfold only_dns_node. rewrite <- Eg in *.
      by rewrite (refused_not_dns gen_range Hrange rt route t d id o' d').
    + unfold select_session_node_with_resolver in E.
      pose proof (session_node_spec gen_range Hrange _ _ _ _ _ _ _ _ _ (ok_overlay rt Hok) E)
        as (_ & _ & []).
Qed.

Lemma validate_spec g r :
  match validate_routing_policy g r with
  | Ok _ => (balancers r = [] \/ balancers r = balancers (routing (config g)))
      /\ forall rule, In rule (rules r) ->
           match rule_target rule with
           | Outbound tag => is_Some (node_for_tag g tag)
           | Balancer tag => is_Some (selector_group_for_tag g tag)
           end
  | Err e =>
    match e with
    | RoutingPolicyBalancerTopologyChanged =>
      balancers r <> [] /\ balancers r <> balancers (routing (config g))
    | RoutingPolicyOutboundNotFound tag =>
      node_for_tag g tag = None /\ exists rule, In rule (rules r) /\ rule_target rule = Outbound tag
    | RoutingPolicyBalancerNotFound tag =>
      selector_group_for_tag g tag = None
      /\ exists rule, In rule (rules r) /\ rule_target rule = Balancer tag
    | _ => False
    end
  | Panic => False
  end.
Proof.
  unfold validate_routing_policy. case_if; [by unbool|].
  assert (balancers r = [] \/ balancers r = balancers (routing (config g))) as Hb.
  { apply andb_false_iff in Heqb as [?|?]; unbool; auto. }
  clear Heqb. induction (rules r) as [|rule rs IH]; simpl; [done|].
  unfold check_rule. destruct (rule_target rule) as [tag|tag] eqn:Et.
  - destruct (node_for_tag g tag) eqn:En; simpl; [|eauto].
    destruct (check_rules g rs) as [[]|[]|]; try naive_solver.
    split; [done|]. intros rl [<-|Hin]; [rewrite Et; eauto | by apply IH].
  - destruct (selector_group_for_tag g tag) eqn:En; simpl; [|eauto].
    destruct (check_rules g rs) as [[]|[]|]; try naive_solver.
    split; [done|]. intros rl [<-|Hin]; [rewrite Et; eauto | by apply IH].
Qed.

(** Replacing the policy takes effect only when every rule's target exists
    and the balancers are unchanged or left out: the revision is then the next
    one and the filters are those of the new rules. Otherwise nothing changes;
    the revision never wraps. *)
Theorem replace_policy_spec rt r :
  let g := graph (selection rt) in
  let p := routing_policy rt in
  match replace_routing_policy rt r with
  | (Ok revision, rt') =>
    revision = policy_revision p + 1 /\ policy_revision p < u64_max
    /\ (balancers r = [] \/ balancers r = balancers (routing (config g)))
    /\ (forall rule, In rule (rules r) ->
          match rule_target rule with
          | Outbound tag => is_Some (node_for_tag g tag)
          | Balancer tag => is_Some (selector_group_for_tag g tag)
          end)
    /\ routing_policy_snapshot rt'
       = mkPolicySnapshot revision (length (rules r)) (domain_strategy r)
    /\ policy_routing (routing_policy rt') = r
    /\ dns_route_prefilter (routing_policy rt') = router_prefilter g r
    /\ selection rt' = selection rt
  | (Err e, rt') =>
    rt' = rt
    /\ match e with
       | RoutingPolicyBalancerTopologyChanged =>
         balancers r <> [] /\ balancers r <> balancers (routing (config g))
       | RoutingPolicyOutboundNotFound tag =>
         node_for_tag g tag = None /\ exists rule, In rule (rules r) /\ rule_target rule = Outbound tag
       | RoutingPolicyBalancerNotFound tag =>
         selector_group_for_tag g tag = None
         /\ exists rule, In rule (rules r) /\ rule_target rule = Balancer tag
       | RoutingPolicyRevisionExhausted => u64_max <= policy_revision p
       | _ => False
       end
  | (Panic, _) => False
  end.
Proof.
  intros g p. unfold replace_routing_policy. fold g.
  pose proof (validate_spec g r) as Hv.
  destruct (validate_routing_policy g r) as [[]|e|]; [|by split; [|destruct e]|done].
  case_if; unbool; [by split|]. destruct Hv as [Hb Hr]. by split_and!.
Qed.

End RouterProperties.

(** ** Witnesses *)

Definition looped_rule (inbound : list str) (o : str)
    : @RoutingRule literal_regex scan_automaton :=
  @mkRoutingRule literal_regex scan_automaton inbound None None None None
    [] (@mkRoutingOrigin literal_regex None None None None None) None None (Outbound o).

(** A loopback outbound re-enters routing as [inner], which goes to DNS. *)
Definition looped_core (rs : list (@RoutingRule literal_regex scan_automaton))
    : @CoreConfig literal_regex scan_automaton :=
  @mkCoreConfig literal_regex scan_automaton
    [mkOutboundConfig (Some (str_of "direct")) None TRaw SecNone SFreedom;
     mkOutboundConfig (Some (str_of "dns-out")) None TRaw SecNone SDns;
     mkOutboundConfig (Some (str_of "again")) None TRaw SecNone (SLoopback (str_of "inner"))]
    None (@mkRoutingConfig literal_regex scan_automaton rs [] AsIs).

Definition looped_rules : list (@RoutingRule literal_regex scan_automaton) :=
  [looped_rule [str_of "inner"] (str_of "dns-out"); looped_rule [] (str_of "again")].

Definition router_of (cfg : @CoreConfig literal_regex scan_automaton)
    : option (@OutboundRouter literal_regex scan_automaton) :=
  match OutboundGraph_new 1 cfg with
  | Some (Ok g) => Some (from_factory (overlay_new g))
  | _ => None
  end.

Definition dns_query : Target := mkTarget (Ip (V4 (ipv4 1 1 1 1))) 53 Udp.

(** With loopbacks the prefilter can hide a DNS outbound: it looks at the tag
    of the inbound the connection came from, and not at the tag a loopback
    gives it. Here the session is given the DNS outbound and the DNS selector
    answers that there is none. *)
Example dns_prefilter_misses_loopback :
  match router_of (looped_core looped_rules) with
  | None => False
  | Some rt =>
    fst (fst (@select_session_node_with_resolver linux literal_regex scan_automaton
         one_name_resolver (fun _ => 0%nat) rt (RouteContext_inbound (Some (str_of "socks")))
         dns_query dns_query 0%nat)) = Ok (mkNodeId 1 1)
    /\ is_dns_node (graph (selection rt)) (mkNodeId 1 1) = true
    /\ fst (@select_dns_outbound_for_route linux literal_regex scan_automaton (fun _ => 0%nat)
         rt (RouteContext_inbound (Some (str_of "socks"))) dns_query) = Ok None
  end.
Proof. vm_compute. split_and!; reflexivity. Qed.

Lemma session_node_sound_witness :
  exists g, OutboundGraph_new 1 (looped_core looped_rules) = Some (Ok g)
  /\ exists o, outbounds (looped_core looped_rules) !! 1%nat = Some o
     /\ kind_of (settings o) <> KLoopback.
Proof.
  destruct (graph_new_ok 1 (looped_core looped_rules)) as (g & Hg & _). exists g.
  split; [exact Hg|].
  pose proof (@session_node_sound linux literal_regex scan_automaton one_name_resolver
    (fun _ => 0%nat) 1 (looped_core looped_rules) g (from_factory (overlay_new g))
    (RouteContext_inbound (Some (str_of "socks"))) dns_query dns_query 0%nat
    (fun n Hn => Hn) Hg (rtc_refl _ _)) as Hs.
  assert (match OutboundGraph_new 1 (looped_core looped_rules) with
    | Some (Ok g) => fst (fst (@select_session_node_with_resolver linux literal_regex
         scan_automaton one_name_resolver (fun _ => 0%nat) (from_factory (overlay_new g))
         (RouteContext_inbound (Some (str_of "socks"))) dns_query dns_query 0%nat))
    | _ => Panic end = Ok (mkNodeId 1 1)) as E by (vm_compute; reflexivity).
  rewrite Hg in E. rewrite E in Hs. exact (proj2 Hs).
Defined.

(** Without the loopback outbound. *)
Definition plain_core : @CoreConfig literal_regex scan_automaton :=
  @mkCoreConfig literal_regex scan_automaton
    [mkOutboundConfig (Some (str_of "direct")) None TRaw SecNone SFreedom;
     mkOutboundConfig (Some (str_of "dns-out")) None TRaw SecNone SDns]
    None (@mkRoutingConfig literal_regex scan_automaton
            [looped_rule [str_of "socks"] (str_of "dns-out")] [] AsIs).

Lemma dns_prefilter_sound_witness :
  exists g, OutboundGraph_new 1 plain_core = Some (Ok g)
  /\ fst (fst (@select_dns_outbound_for_route_with_resolver linux literal_regex scan_automaton
         one_name_resolver (fun _ => 0%nat) (from_factory (overlay_new g))
         (RouteContext_inbound (Some (str_of "socks"))) dns_query 0%nat))
     = Ok (only_dns_node g (mkNodeId 1 1)).
Proof.
  destruct (graph_new_ok 1 plain_core) as (g & Hg & _ & _ & Hcfg). exists g.
  split; [exact Hg|].
  pose proof (@dns_prefilter_sound linux literal_regex scan_automaton one_name_resolver
    (fun _ => 0%nat) 1 plain_core g (from_factory (overlay_new g))
    (RouteContext_inbound (Some (str_of "socks"))) dns_query 0%nat
    (fun n Hn => Hn) Hg (rtc_refl _ _)) as Hs.
  assert (match OutboundGraph_new 1 plain_core with
    | Some (Ok g) => fst (fst (@select_session_node_with_resolver linux literal_regex
         scan_automaton one_name_resolver (fun _ => 0%nat) (from_factory (overlay_new g))
         (RouteContext_inbound (Some (str_of "socks"))) dns_query dns_query 0%nat))
    | _ => Panic end = Ok (mkNodeId 1 1)) as E by (vm_compute; reflexivity).
  rewrite Hg in E. rewrite E in Hs. apply Hs.
  - intros i o Ho. rewrite Hcfg in Ho. destruct i as [|[|i]]; simpl in Ho.
    + injection Ho as <-. discriminate.
    + injection Ho as <-. discriminate.
    + rewrite lookup_nil in Ho. discriminate.
  - simpl. rewrite Hcfg. constructor; [|constructor]. intros ranges r Hr. discriminate Hr.
  - vm_compute. split; discriminate.
Defined.
