(* ===== verification/HappyEyeballs.v ===== *)
(** Dialing several addresses of one host: [crates/xray-transport/src/happy_eyeballs.rs] with
    [connect_tcp_stream] of [lib.rs]. The configured race is a state machine whose events are
    launches and completed attempts in any order; Go's serial dial with its fallback family runs
    against a clock. What the operating system does with a connect is a parameter throughout. *)
From Stdlib Require Import Strings.Byte.
From S2P Require Import Prelude Net.

(** ** Errors *)

(** The [io::Error]s of this file, and those of the operating system by their code. *)
Inductive IoFailure :=
| NoCandidates
| ConnectTimedOut (candidate : SocketAddr)
| DialDeadlinePassed
| OsError (code : Z).

(** The variants of [TransportError] that a TCP dial produces. *)
Inductive TransportError :=
| TcpFailed (e : IoFailure)
| SocketProtection (e : IoFailure).

#[export] Instance IoFailure_eq_dec : EqDecision IoFailure.
Proof. solve_decision. Defined.
#[export] Instance TransportError_eq_dec : EqDecision TransportError.
Proof. solve_decision. Defined.

(** [matches!(error, TransportError::SocketProtection(_))] *)
Definition is_fatal (e : TransportError) : bool :=
  match e with SocketProtection _ => true | TcpFailed _ => false end.

Definition no_candidates_error : TransportError := TcpFailed NoCandidates.

Definition keep_fatal (primary fallback : TransportError) : TransportError :=
  match fallback with SocketProtection _ => fallback | TcpFailed _ => primary end.

(** A [Result<T, TransportError>]: dialing does not panic. *)
Definition dialed (T : Type) : Type := T + TransportError.

(** ** Candidates in order *)

Definition is_ipv4 (a : SocketAddr) : bool :=
  match sa_ip a with V4 _ => true | V6 _ => false end.

(** Durations are in nanoseconds. [max_concurrent] is a [NonZeroUsize]. *)
Record HappyEyeballsConfig := mkHappyEyeballsConfig {
  prioritize_ipv6 : bool;
  interleave : Z;
  try_delay : Z;
  max_concurrent : Z
}.

Definition HappyEyeballsConfig_default : HappyEyeballsConfig :=
  mkHappyEyeballsConfig false 1 0 4.

Definition wf_config (c : HappyEyeballsConfig) : Prop :=
  0 <= interleave c <= usize_max /\ 0 <= try_delay c /\ 1 <= max_concurrent c.

(** The loop of [interleave_families]; [None] when the fuel runs out. *)
Fixpoint interleave_loop (fuel : nat) (preferred alternate : list SocketAddr) (chunk_size : Z)
    (preferred_index alternate_index : Z) (preferred_turn : bool) (ordered : list SocketAddr)
    : option (total (list SocketAddr)) :=
  if (preferred_index <? len preferred) && (alternate_index <? len alternate) then
    match fuel with
    | O => None
    | S fuel =>
      let family := if preferred_turn then preferred else alternate in
      let i := if preferred_turn then preferred_index else alternate_index in
      let stop := Z.min (Z.min (i + chunk_size) usize_max) (len family) in
      match slice family i stop with
      | Ok part =>
        interleave_loop fuel preferred alternate chunk_size
          (if preferred_turn then stop else preferred_index)
          (if preferred_turn then alternate_index else stop)
          (negb preferred_turn) (ordered ++ part)
      | Err e => Some (Err e)
      | Panic => Some Panic
      end
    end
  else Some (
    let? rest_p := slice_from preferred preferred_index in
    let? rest_a := slice_from alternate alternate_index in
    Ok (ordered ++ rest_p ++ rest_a)).

(** Every turn takes at least one candidate. *)
Definition interleave_families (preferred alternate : list SocketAddr) (interleave : Z)
    : option (total (list SocketAddr)) :=
  if interleave =? 0 then Some (Ok (preferred ++ alternate))
  else interleave_loop (length preferred + length alternate) preferred alternate interleave
         0 0 true [].

(** The two vectors of [order_candidates]. *)
Fixpoint split_families (candidates ipv4 ipv6 : list SocketAddr)
    : list SocketAddr * list SocketAddr :=
  match candidates with
  | [] => (ipv4, ipv6)
  | c :: rest =>
    let candidate := canonicalize_socket_addr c in
    if is_ipv4 candidate then split_families rest (ipv4 ++ [candidate]) ipv6
    else split_families rest ipv4 (ipv6 ++ [candidate])
  end.

Definition order_candidates (config : HappyEyeballsConfig) (candidates : list SocketAddr)
    : option (total (list SocketAddr)) :=
  let '(ipv4, ipv6) := split_families candidates [] [] in
  if bool_decide (ipv4 = []) || bool_decide (ipv6 = []) then Some (Ok (ipv4 ++ ipv6))
  else
    let '(preferred, alternate) :=
      if prioritize_ipv6 config then (ipv6, ipv4) else (ipv4, ipv6) in
    interleave_families preferred alternate (interleave config).

(** ** The race *)

(** The platform's last [Instant]. *)
Class Clock := { instant_max : Z }.

(** [now.checked_add(d)] *)
Definition checked_add `{Clock} (now d : Z) : option Z :=
  if now + d <=? instant_max then Some (now + d) else None.

(** The variables of [race_candidates]'s loop. An attempt is the index of its candidate. *)
Record Race := mkRace {
  attempts : list nat;
  next_index : nat;
  next_launch_at : option Z;
  last_error : option TransportError
}.

(** What ends a wait: the launch timer, or the completion of one attempt. *)
Inductive race_event (T : Type) :=
| TimerFired
| Completed (attempt : nat) (result : dialed T).
Arguments TimerFired {T}.
Arguments Completed {T} attempt result.

Section Race.
Context `{Clock} {T : Type} (config : HappyEyeballsConfig) (ordered : list SocketAddr).

(** Before the loop; [None] for no candidates. *)
Definition race_start (now : Z) : option Race :=
  match ordered with
  | [] => None
  | _ :: _ => Some (mkRace [0%nat] 1 (checked_add now (try_delay config)) None)
  end.

(** [attempts.push(connect(ordered[next_index]))] and the timer after it. *)
Definition race_launch (s : Race) (now : Z) : Race :=
  mkRace (attempts s ++ [next_index s]) (S (next_index s))
    (checked_add now (try_delay config)) (last_error s).

(** The [select!] has its timer branch, and the timer has fired. *)
Definition timer_fired (s : Race) (now : Z) : bool :=
  (next_index s <? length ordered)%nat && (len (attempts s) <? max_concurrent config) &&
  match next_launch_at s with Some deadline => deadline <=? now | None => false end.

(** One turn of the loop at time [now], from the end of its wait to the start of the next:
    [None] when the event cannot end the wait, otherwise the next state or the result. *)
Definition race_turn (s : Race) (now : Z) (ev : race_event T) : option (Race + dialed T) :=
  match ev with
  | TimerFired =>
    if timer_fired s now then Some (inl (race_launch s now)) else None
  | Completed i result =>
    if bool_decide (i ∈ attempts s) then
      let attempts' := List.filter (fun j => negb (j =? i)%nat) (attempts s) in
      match result with
      | inl stream => Some (inr (inl stream))
      | inr error =>
        if is_fatal error then Some (inr (inr error))
        else
          let s := mkRace attempts' (next_index s) (next_launch_at s) (Some error) in
          let s := if (next_index s <? length ordered)%nat then race_launch s now else s in
          if bool_decide (attempts s = [])
          then Some (inr (inr (default no_candidates_error (last_error s))))
          else Some (inl s)
      end
    else None
  end.

(** A run of the race: the events that end its waits, with their times. *)
Inductive race_run : Race -> list (Z * race_event T) -> Race -> Prop :=
| race_run_nil s : race_run s [] s
| race_run_cons s now ev s' evs s'' :
    race_turn s now ev = Some (inl s') -> race_run s' evs s'' ->
    race_run s ((now, ev) :: evs) s''.

End Race.
Arguments race_start {_} config ordered now.
Arguments race_launch {_} config s now.

(** ** Programs against the clock *)

(** An asynchronous computation, as the time at which it is started to the time at which it ends
    and its result; [None] when it never does. *)
Definition timed (A : Type) : Type := Z -> option (Z * A).

Definition timed_ret {A} (a : A) : timed A := fun t => Some (t, a).
Definition timed_bind {A B} (m : timed A) (k : A -> timed B) : timed B :=
  fun t => match m t with Some (t', a) => k a t' | None => None end.

Notation "'wait' x := m 'in' k" := (timed_bind m (fun x => k))
  (at level 10, x pattern, m at level 100, k at level 200,
   format "'[v' 'wait'  x  :=  m  'in' '/' k ']'") : rust_scope.

(** [Instant::now()] *)
Definition instant_now : timed Z := fun t => Some (t, t).

(** [tokio::time::timeout(d, m)]: a result that is there when the timer fires still counts. *)
Definition timeout {A} (d : Z) (m : timed A) : timed (option A) := fun t =>
  match m t with
  | Some (t', a) => if t' <=? t + d then Some (t', Some a) else Some (t + d, None)
  | None => Some (t + d, None)
  end.

(** Computations do not end before they start. *)
Definition causal {A} (m : timed A) : Prop :=
  forall t t' a, m t = Some (t', a) -> t <= t'.

(** ** Connecting one address *)

(** The operating system and the caller's socket protector. *)
Class Os (Socket Stream : Type) := {
  new_socket : bool -> IoFailure + Socket;
  connect_new : SocketAddr -> timed (IoFailure + Stream);
  connect_socket : Socket -> SocketAddr -> timed (IoFailure + Stream);
  connect_multipath : SocketAddr -> timed (TransportError + Stream);
  set_nodelay : Stream -> option IoFailure
}.

(** [SocketProtector]: whether it asks for Multipath TCP, and its verdict on a socket. *)
Record SocketProtector (Socket : Type) := mkSocketProtector {
  multipath_tcp : bool;
  protect : Socket -> option IoFailure
}.
Arguments multipath_tcp {Socket}.
Arguments protect {Socket}.

Section Connect.
Context `{Os Socket Stream}.

(** The plain TCP part of [connect_tcp_stream]. *)
Definition connect_plain (addr : SocketAddr) (protector : option (SocketProtector Socket))
    : timed (dialed Stream) :=
  match protector with
  | None =>
    wait r := connect_new addr in
    timed_ret match r with inl e => inr (TcpFailed e) | inr s => inl s end
  | Some p =>
    match new_socket (is_ipv4 addr) with
    | inl e => timed_ret (inr (TcpFailed e))
    | inr socket =>
      match protect p socket with
      | Some e => timed_ret (inr (SocketProtection e))
      | None =>
        wait r := connect_socket socket addr in
        timed_ret match r with inl e => inr (TcpFailed e) | inr s => inl s end
      end
    end
  end.

(** On Linux and Android, where the Multipath TCP branch is compiled in. *)
Definition connect_tcp_stream (addr : SocketAddr) (protector : option (SocketProtector Socket))
    : timed (dialed Stream) :=
  let addr := canonicalize_socket_addr addr in
  let plain : timed (dialed Stream) :=
    wait r := connect_plain addr protector in
    match r with
    | inr e => timed_ret (inr e)
    | inl stream =>
      timed_ret match set_nodelay stream with
                | Some e => inr (TcpFailed e)
                | None => inl stream
                end
    end in
  match protector with
  | Some p =>
    if multipath_tcp p then
      wait r := connect_multipath addr in
      match r with inr stream => timed_ret (inl stream) | inl _ => plain end
    else plain
  | None => plain
  end.

End Connect.

(** ** Go's dialer *)

Definition second : Z := 1000000000.
Definition GO_DIAL_TIMEOUT : Z := 16 * second.
Definition GO_FALLBACK_DELAY : Z := 300 * 1000000.
Definition GO_MIN_ATTEMPT : Z := 2 * second.

(** [deadline.saturating_duration_since(now)] *)
Definition saturating_since (deadline now : Z) : Z := Z.max 0 (deadline - now).

Section Dial.
Context {T : Type} (connect : SocketAddr -> timed (dialed T)).

(** The time of one attempt, with [left] candidates to go. *)
Definition attempt_time (remaining left : Z) : Z :=
  let share := remaining / (if left <=? u32_max then left else u32_max) in
  Z.min (Z.max share GO_MIN_ATTEMPT) remaining.

(** The loop of [dial_serial] over the candidates that are left. *)
Fixpoint serial_loop (candidates : list SocketAddr) (deadline : Z)
    (first_error : option TransportError) : timed (dialed T) :=
  let no_more := timed_ret (inr (default (TcpFailed DialDeadlinePassed) first_error)) in
  match candidates with
  | [] => no_more
  | candidate :: rest =>
    wait now := instant_now in
    let remaining := saturating_since deadline now in
    if remaining =? 0 then no_more
    else
      wait answer := timeout (attempt_time remaining (len candidates)) (connect candidate) in
      match default (inr (TcpFailed (ConnectTimedOut candidate))) answer with
      | inl stream => timed_ret (inl stream)
      | inr error =>
        if is_fatal error then timed_ret (inr error)
        else serial_loop rest deadline (Some (default error first_error))
      end
  end.

Definition dial_serial (candidates : list SocketAddr) (deadline : Z) : timed (dialed T) :=
  serial_loop candidates deadline None.

(** [dial_dual_stack]'s [select!] over the pinned primary and fallback futures. The fallback
    waits for its delay or for word that the primaries failed, whichever comes first;
    [tie] says which future is polled first when both end at the same instant. *)
Definition dual_stack_select (tie : bool) (primary fallback : timed (dialed T))
    : timed (dialed T) := fun t =>
  let primary_arm t1 (r : dialed T) :=
    match r with
    | inl stream => Some (t1, inl stream)
    | inr primary_error =>
      if is_fatal primary_error then Some (t1, inr primary_error)
      else match fallback (Z.min t1 (t + GO_FALLBACK_DELAY)) with
           | Some (t2, inl stream) => Some (t2, inl stream)
           | Some (t2, inr e) => Some (t2, inr (keep_fatal primary_error e))
           | None => None
           end
    end in
  let fallback_arm t2 (r : dialed T) :=
    match r with
    | inl stream => Some (t2, inl stream)
    | inr fallback_error =>
      if is_fatal fallback_error then Some (t2, inr fallback_error)
      else match primary t with
           | Some (t1, inl stream) => Some (t1, inl stream)
           | Some (t1, inr e) => Some (t1, inr (keep_fatal e fallback_error))
           | None => None
           end
    end in
  match primary t, fallback (t + GO_FALLBACK_DELAY) with
  | Some (t1, r1), Some (t2, r2) =>
    if (t1 <? t2) || (tie && (t1 =? t2)) then primary_arm t1 r1 else fallback_arm t2 r2
  | Some (t1, r1), None => primary_arm t1 r1
  | None, Some (t2, r2) => fallback_arm t2 r2
  | None, None => None
  end.

Definition dial_dual_stack (tie : bool) (candidates : list SocketAddr) : timed (dialed T) :=
  let candidates := map canonicalize_socket_addr candidates in
  match candidates with
  | [] => timed_ret (inr no_candidates_error)
  | first :: _ =>
    let primaries := List.filter (fun c => Bool.eqb (is_ipv4 c) (is_ipv4 first)) candidates in
    let fallbacks := List.filter (fun c => negb (Bool.eqb (is_ipv4 c) (is_ipv4 first))) candidates in
    wait now := instant_now in
    let deadline := now + GO_DIAL_TIMEOUT in
    if bool_decide (fallbacks = []) then dial_serial primaries deadline
    else dual_stack_select tie (dial_serial primaries deadline) (dial_serial fallbacks deadline)
  end.

End Dial.

Definition connect_tcp_dual_stack `{Os Socket Stream} (tie : bool)
    (candidates : list SocketAddr) (protector : option (SocketProtector Socket))
    : timed (dialed Stream) :=
  dial_dual_stack (fun candidate => connect_tcp_stream candidate protector) tie candidates.

Definition connect_tcp_dual_stack_with_peer `{Os Socket Stream} (tie : bool)
    (candidates : list SocketAddr) (protector : option (SocketProtector Socket))
    : timed (dialed (Stream * SocketAddr)) :=
  dial_dual_stack (fun candidate =>
    let peer := canonicalize_socket_addr candidate in
    wait r := connect_tcp_stream peer protector in
    timed_ret match r with inl stream => inl (stream, peer) | inr e => inr e end)
    tie candidates.

(** ** Order of the candidates *)

(** Two sequences dealt alternately, the first one first. *)
Fixpoint alternating {A} (xs ys : list A) : list A :=
  match xs, ys with
  | [], _ => ys
  | _, [] => xs
  | x :: xs', y :: ys' => x :: y :: alternating xs' ys'
  end.

(** A family in groups of [k], or in one group. *)
Definition groups {A} (k : Z) (l : list A) : list (list A) :=
  if k =? 0 then [l] else chunks (Z.to_nat k) l.

Lemma alternating_nil_r {A} (xs : list A) : alternating xs [] = xs.
Proof. by destruct xs. Qed.

Lemma alternating_cons {A} n (x : A) xs ys :
  (length xs + length ys <= n)%nat -> alternating (x :: xs) ys = x :: alternating ys xs.
Proof.
  revert x xs ys. induction n as [|n IH]; intros x xs [|y ys] Hn; simpl in *; try lia.
  - by destruct xs.
  - done.
  - f_equal. rewrite <- IH by lia. done.
Qed.

Lemma chunks_fuel_more {A} n (l : list A) f g :
  (0 < n)%nat -> (length l <= f)%nat -> (length l <= g)%nat ->
  chunks_fuel f n l = chunks_fuel g n l.
Proof.
  intros Hn. revert l g. induction f as [|f IH]; intros [|x l] [|g] Hf Hg; simpl in *; try done; try lia.
  f_equal. apply IH; rewrite length_drop; simpl; lia.
Qed.

Lemma chunks_cons {A} n (l : list A) :
  (0 < n)%nat -> l <> [] -> chunks n l = take n l :: chunks n (drop n l).
Proof.
  intros Hn Hl. unfold chunks. destruct l as [|x l]; [done|].
  cbn [chunks_fuel length]. f_equal. apply chunks_fuel_more; rewrite ?length_drop; simpl; lia.
Qed.

Lemma concat_groups {A} k (l : list A) : 0 <= k -> concat (groups k l) = l.
Proof.
  intros Hk. unfold groups. case_if; unbool; [by rewrite concat_cons, app_nil_r|].
  apply chunks_spec. lia.
Qed.

Lemma filter_all {A} (f : A -> bool) l : (forall x, x ∈ l -> f x = true) -> List.filter f l = l.
Proof.
  induction l as [|x l IH]; intros Hl; [done|]. simpl. rewrite (Hl x) by left.
  rewrite IH; [done|]. intros z Hz. apply Hl. by right.
Qed.

Lemma filter_none {A} (f : A -> bool) l : (forall x, x ∈ l -> f x = false) -> List.filter f l = [].
Proof.
  induction l as [|x l IH]; intros Hl; [done|]. simpl. rewrite (Hl x) by left.
  apply IH. intros z Hz. apply Hl. by right.
Qed.

(** Filtering what was dealt gives back the two sequences. *)
Lemma filter_alternating {A} (f : A -> bool) xs ys :
  (forall x, x ∈ concat xs -> f x = true) -> (forall y, y ∈ concat ys -> f y = false) ->
  List.filter f (concat (alternating xs ys)) = concat xs
  /\ List.filter (fun x => negb (f x)) (concat (alternating xs ys)) = concat ys.
Proof.
  assert (forall l : list A, (forall x, x ∈ l -> f x = true) ->
    List.filter (fun x => negb (f x)) l = []) as Hno.
  { intros l Hl. apply filter_none. intros x Hx. by rewrite Hl. }
  assert (forall l : list A, (forall x, x ∈ l -> f x = false) ->
    List.filter (fun x => negb (f x)) l = l) as Hal.
  { intros l Hl. apply filter_all. intros x Hx. by rewrite Hl. }
  revert ys. induction xs as [|x xs IH]; intros [|y ys] Hx Hy; cbn [alternating concat] in *.
  - done.
  - split; [by apply filter_none|by apply Hal].
  - split; [by apply filter_all|by apply Hno].
  - destruct (IH ys) as [IH1 IH2]; [intros z Hz; apply Hx; set_solver|intros z Hz; apply Hy; set_solver|].
    rewrite !filter_app, IH1, IH2.
    rewrite (filter_all f x), (filter_none f y), Hno, Hal; [done|..];
      intros z Hz; (apply Hx || apply Hy); set_solver.
Qed.

Lemma alternating_perm {A} (xs ys : list (list A)) :
  concat (alternating xs ys) ≡ₚ concat xs ++ concat ys.
Proof.
  revert ys. induction xs as [|x xs IH]; intros [|y ys]; cbn [alternating concat]; [done..| |].
  - by rewrite !app_nil_r.
  - rewrite IH. rewrite <- !app_assoc. f_equiv. rewrite !app_assoc. f_equiv. apply Permutation_app_comm.
Qed.

Lemma alternating_groups_nil_l {A} k (ys : list (list A)) :
  concat (alternating (groups k []) ys) = concat ys.
Proof. unfold groups. case_if; [|done]. by destruct ys. Qed.

Lemma alternating_groups_nil_r {A} k (xs : list (list A)) :
  concat (alternating xs (groups k [])) = concat xs.
Proof.
  unfold groups. case_if; [|change (chunks _ []) with (@nil (list A)); by rewrite alternating_nil_r].
  destruct xs as [|x xs]; [done|]. cbn. by rewrite alternating_nil_r.
Qed.

(** One group of a family, from index [i]. *)
Lemma group_step (l : list SocketAddr) i k :
  0 < k -> 0 <= i < len l -> len l <= usize_max ->
  let stop := Z.min (Z.min (i + k) usize_max) (len l) in
  i < stop <= len l
  /\ @slice Empty_set _ l i stop = Ok (take (Z.to_nat k) (drop (Z.to_nat i) l))
  /\ drop (Z.to_nat stop) l = drop (Z.to_nat k) (drop (Z.to_nat i) l).
Proof.
  intros Hk Hi Hl stop. assert (stop = Z.min (i + k) (len l)) as Hs by lia. split; [lia|].
  unfold slice. guard_true by lia. rewrite drop_drop. destruct (decide (i + k <= len l)).
  - split; [do 2 f_equal|f_equal]; lia.
  - split.
    + f_equal. rewrite !take_ge; [done|rewrite length_drop; unfold len in *; lia..].
    + rewrite !drop_ge; [done|unfold len in *; lia..].
Qed.

Lemma chunks_nil {A} n : @chunks A n [] = [].
Proof. done. Qed.

Lemma interleave_loop_spec fuel p a k pi ai turn ord :
  0 < k -> len p <= usize_max -> len a <= usize_max ->
  0 <= pi <= len p -> 0 <= ai <= len a -> len p - pi + (len a - ai) <= Z.of_nat fuel ->
  let ps := chunks (Z.to_nat k) (drop (Z.to_nat pi) p) in
  let az := chunks (Z.to_nat k) (drop (Z.to_nat ai) a) in
  interleave_loop fuel p a k pi ai turn ord
  = Some (Ok (ord ++ concat (if turn then alternating ps az else alternating az ps))).
Proof.
  intros Hk Hp Ha. revert pi ai turn ord.
  induction fuel as [|fuel IH]; intros pi ai turn ord Hpi Hai Hf ps az; cbn [interleave_loop].
  all: case_if; unbool; [try lia|].
  1,3: apply andb_false_iff in Heqb; rewrite !Z.ltb_ge in Heqb;
    rewrite !slice_from_ok by lia; cbn [res_bind]; do 3 f_equal;
    unfold ps, az; destruct Heqb;
    [rewrite (drop_ge p) by (unfold len in *; lia)|rewrite (drop_ge a) by (unfold len in *; lia)];
    rewrite ?chunks_nil; destruct turn; rewrite ?alternating_nil_r; cbn [alternating app];
    rewrite ?app_nil_r; symmetry; apply chunks_spec; lia.
  destruct turn.
  - destruct (group_step p pi k) as (Hst & -> & Hd); [lia..|]. rewrite IH by lia.
    rewrite Hd. do 2 f_equal. rewrite <- app_assoc. f_equal. unfold ps.
    rewrite (chunks_cons _ (drop (Z.to_nat pi) p)); [|lia|].
    2: { intros E%(f_equal length). rewrite length_drop in E; unfold len in *; simpl in E; lia. }
    by rewrite (alternating_cons _ _ _ _ (le_n _)).
  - destruct (group_step a ai k) as (Hst & -> & Hd); [lia..|]. rewrite IH by lia.
    rewrite Hd. do 2 f_equal. rewrite <- app_assoc. f_equal. unfold az.
    rewrite (chunks_cons _ (drop (Z.to_nat ai) a)); [|lia|].
    2: { intros E%(f_equal length). rewrite length_drop in E; unfold len in *; simpl in E; lia. }
    by rewrite (alternating_cons _ _ _ _ (le_n _)).
Qed.

Lemma interleave_families_spec p a k :
  0 <= k -> len p <= usize_max -> len a <= usize_max ->
  interleave_families p a k = Some (Ok (concat (alternating (groups k p) (groups k a)))).
Proof.
  intros Hk Hp Ha. unfold interleave_families, groups. case_if; unbool.
  { simpl. by rewrite app_nil_r. }
  apply (interleave_loop_spec _ p a k 0 0 true []); unfold len in *; lia.
Qed.

Lemma split_families_spec candidates v4 v6 :
  let cs := map canonicalize_socket_addr candidates in
  split_families candidates v4 v6
  = (v4 ++ List.filter is_ipv4 cs, v6 ++ List.filter (fun c => negb (is_ipv4 c)) cs).
Proof.
  revert v4 v6. induction candidates as [|c cs IH]; intros v4 v6; cbn [split_families map List.filter].
  { by rewrite !app_nil_r. }
  destruct (is_ipv4 (canonicalize_socket_addr c)); rewrite IH; cbn [negb];
    by rewrite <- app_assoc.
Qed.

Lemma len_filter {A} (f : A -> bool) l : len (List.filter f l) <= len l.
Proof. unfold len. pose proof (List.filter_length_le f l). lia. Qed.

Lemma elem_of_list_filter {A} (f : A -> bool) l x :
  x ∈ List.filter f l <-> x ∈ l /\ f x = true.
Proof. rewrite !list_elem_of_In. apply List.filter_In. Qed.

Lemma family_perm {A} (f : A -> bool) l :
  List.filter f l ++ List.filter (fun x => negb (f x)) l ≡ₚ l.
Proof.
  induction l as [|x l IH]; [done|]. cbn [List.filter]. destruct (f x); cbn [negb app].
  - by rewrite IH.
  - by rewrite <- Permutation_middle, IH.
Qed.

Lemma order_candidates_dealt config candidates :
  wf_config config -> len candidates <= usize_max ->
  let cs := map canonicalize_socket_addr candidates in
  let v4 := List.filter is_ipv4 cs in
  let v6 := List.filter (fun c => negb (is_ipv4 c)) cs in
  let k := interleave config in
  order_candidates config candidates
  = Some (Ok (concat (if prioritize_ipv6 config then alternating (groups k v6) (groups k v4)
                      else alternating (groups k v4) (groups k v6)))).
Proof.
  intros (Hk & _) Hl cs v4 v6 k.
  assert (len v4 <= usize_max /\ len v6 <= usize_max) as [H4 H6].
  { assert (len cs = len candidates) as E by (unfold cs, len; by rewrite length_map).
    pose proof (len_filter is_ipv4 cs). pose proof (len_filter (fun c => negb (is_ipv4 c)) cs).
    unfold v4, v6. lia. }
  unfold order_candidates. rewrite split_families_spec. cbn [app]. fold cs v4 v6.
  case_if.
  - do 2 f_equal. apply orb_true_iff in Heqb as [->%bool_decide_eq_true | ->%bool_decide_eq_true];
      rewrite ?app_nil_r; cbn [app]; case_if;
      rewrite ?alternating_groups_nil_l, ?alternating_groups_nil_r, concat_groups; unfold k; lia || done.
  - destruct (prioritize_ipv6 config); rewrite interleave_families_spec by (unfold k; lia); done.
Qed.

(** Candidates are tried in a fair order. The order exists and is that of the two families,
    each in the order the candidates had, dealt in alternating groups of [interleave] with the
    preferred family first (or whole, for zero); nothing is lost, added or reordered within a
    family. *)
Theorem order_candidates_fair config candidates :
  wf_config config -> len candidates <= usize_max ->
  let cs := map canonicalize_socket_addr candidates in
  let v4 := List.filter is_ipv4 cs in
  let v6 := List.filter (fun c => negb (is_ipv4 c)) cs in
  let k := interleave config in
  exists ordered,
    order_candidates config candidates = Some (Ok ordered)
    /\ ordered = concat (if prioritize_ipv6 config then alternating (groups k v6) (groups k v4)
                         else alternating (groups k v4) (groups k v6))
    /\ List.filter is_ipv4 ordered = v4
    /\ List.filter (fun c => negb (is_ipv4 c)) ordered = v6
    /\ ordered ≡ₚ cs.
Proof.
  intros Hc Hl cs v4 v6 k. eexists. rewrite (order_candidates_dealt _ _ Hc Hl). split; [done|].
  fold cs v4 v6 k. split; [done|]. destruct Hc as (Hk & _).
  assert (forall x, x ∈ v4 -> is_ipv4 x = true) as F4 by (intros x [_ Hx]%elem_of_list_filter; done).
  assert (forall x, x ∈ v6 -> negb (is_ipv4 x) = true) as F6
    by (intros x [_ Hx]%elem_of_list_filter; done).
  assert (forall l : list SocketAddr, concat (groups k l) = l) as Hg
    by (intros; apply concat_groups; unfold k; lia).
  destruct (prioritize_ipv6 config).
  - destruct (filter_alternating (fun c => negb (is_ipv4 c)) (groups k v6) (groups k v4)) as [E6 E4];
      rewrite ?Hg in *; [done|intros y Hy; by rewrite F4|].
    rewrite E6. split_and!; [|done|].
    + etransitivity; [|exact E4]. apply List.filter_ext. intros x. by rewrite negb_involutive.
    + rewrite alternating_perm, !Hg, Permutation_app_comm. apply family_perm.
  - destruct (filter_alternating is_ipv4 (groups k v4) (groups k v6)) as [E4 E6];
      rewrite ?Hg in *; [done|intros y Hy; by apply negb_true_iff, F6|].
    rewrite E4, E6. split_and!; [done..|]. rewrite alternating_perm, !Hg. apply family_perm.
Qed.

(** ** Runs of the race *)

(** The attempts that completed in a run, and what became of them. *)
Definition completions {T} (evs : list (Z * race_event T)) : list (nat * dialed T) :=
  omap (fun e => match snd e with Completed i r => Some (i, r) | TimerFired => None end) evs.

Definition timers {T} (evs : list (Z * race_event T)) : nat :=
  length evs - length (completions evs).

Section RaceProofs.
Context `{Clock} {T : Type} (config : HappyEyeballsConfig) (ordered : list SocketAddr).
Hypothesis Hconfig : wf_config config.

Local Abbreviation turn := (@race_turn _ T config ordered).
Local Abbreviation run := (@race_run _ T config ordered).

(** In a state of the race with the failures [failed] so far: the attempts in flight and the
    failed ones are the candidates launched, each once; one is in flight and no more than allowed;
    the last error is the last failure's. *)
Record race_inv (failed : list (nat * TransportError)) (s : Race) : Prop := {
  inv_launched : attempts s ++ failed.*1 ≡ₚ seq 0 (next_index s);
  inv_bound : (next_index s <= length ordered)%nat;
  inv_waiting : attempts s <> [];
  inv_max : len (attempts s) <= max_concurrent config;
  inv_last : last_error s = snd <$> list.last failed;
  inv_not_fatal : Forall (fun f => is_fatal f.2 = false) failed
}.

Lemma race_start_inv now s : race_start config ordered now = Some s -> race_inv [] s.
Proof.
  unfold race_start. destruct ordered as [|c cs] eqn:E; [done|]. intros [= <-].
  destruct Hconfig as (_ & _ & Hm).
  split; simpl; rewrite ?E; try done; simpl; lia.
Qed.

Lemma race_inv_nodup failed s : race_inv failed s -> NoDup (attempts s ++ failed.*1).
Proof. intros Hi. rewrite (inv_launched _ _ Hi). apply NoDup_seq. Qed.

Lemma race_inv_launch failed s now :
  race_inv failed s -> (next_index s < length ordered)%nat ->
  len (attempts s) < max_concurrent config -> race_inv failed (race_launch config s now).
Proof.
  intros [Hl Hb Hw Hm He Hf] Hn Hc.
  split; cbn [race_launch attempts next_index last_error]; try done.
  - rewrite seq_S, <- Hl, <- !app_assoc. f_equiv. apply Permutation_app_comm.
  - by destruct (attempts s).
  - len_simpl. lia.
Qed.

(** Taking one attempt out of those in flight. *)
Lemma filter_out (l : list nat) i :
  NoDup l -> i ∈ l -> i :: List.filter (fun j => negb (j =? i)%nat) l ≡ₚ l.
Proof.
  intros Hn Hi. induction l as [|j l IH]; [by apply elem_of_nil in Hi|].
  apply list.NoDup_cons in Hn as [Hj Hn]. cbn [List.filter]. destruct (Nat.eqb_spec j i) as [->|Hne]; cbn [negb].
  - rewrite filter_all; [done|]. intros x Hx. apply negb_true_iff, Nat.eqb_neq. by intros ->.
  - rewrite perm_swap. f_equiv. apply IH; [done|]. by apply elem_of_cons in Hi as [->|].
Qed.

(** The failure of one attempt, before the next launch. *)
Definition after_failure (s : Race) (now : Z) (i : nat) (e : TransportError) : Race :=
  let s' := mkRace (List.filter (fun j => negb (j =? i)%nat) (attempts s)) (next_index s)
              (next_launch_at s) (Some e) in
  if (next_index s <? length ordered)%nat then race_launch config s' now else s'.

Lemma failure_in_flight failed s i :
  race_inv failed s -> i ∈ attempts s ->
  i :: List.filter (fun j => negb (j =? i)%nat) (attempts s) ≡ₚ attempts s.
Proof. intros Hi. apply filter_out. by apply race_inv_nodup, list.NoDup_app in Hi as [? _]. Qed.

(** After a failure that is not fatal either the race goes on with the invariant, or every
    candidate has failed. *)
Lemma after_failure_inv failed s now i e :
  race_inv failed s -> i ∈ attempts s -> is_fatal e = false ->
  let s' := after_failure s now i e in
  last_error s' = Some e
  /\ (next_index s <= next_index s')%nat
  /\ if bool_decide (attempts s' = []) then (failed.*1 ++ [i]) ≡ₚ seq 0 (length ordered)
     else race_inv (failed ++ [(i, e)]) s'.
Proof.
  intros Hi Hin Hf. pose proof (failure_in_flight _ _ _ Hi Hin) as Hp.
  destruct Hi as [Hl Hb Hw Hm He Hnf]. unfold after_failure.
  set (rest := List.filter _ _) in *. rewrite <- Hp in Hl.
  assert (len rest + 1 = len (attempts s)) as Hlen by (unfold len; rewrite <- Hp; simpl; lia).
  assert (rest ++ (failed ++ [(i, e)]).*1 ≡ₚ seq 0 (next_index s)) as Hl'.
  { rewrite <- Hl, fmap_app, app_assoc, Permutation_app_comm. done. }
  assert (Forall (fun f => is_fatal f.2 = false) (failed ++ [(i, e)])) as Hnf'.
  { apply list.Forall_app. split; [done|]. by apply Forall_singleton. }
  destruct (Nat.ltb_spec (next_index s) (length ordered)) as [Hn|Hn]; cbn [race_launch attempts next_index last_error].
  - split; [done|]. split; [lia|]. rewrite bool_decide_eq_false_2 by by destruct rest.
    split; cbn [race_launch attempts next_index last_error]; try done; [|by destruct rest| |].
    + rewrite seq_S, <- Hl', <- !app_assoc. f_equiv. apply Permutation_app_comm.
    + len_simpl. lia.
    + by rewrite last_snoc.
  - split; [done|]. split; [lia|]. case_bool_decide as Hr.
    + rewrite Hr in Hl'. rewrite fmap_app in Hl'. replace (length ordered) with (next_index s) by lia.
      exact Hl'.
    + split; cbn [attempts next_index last_error]; try done; [lia|]. by rewrite last_snoc.
Qed.

(** What a turn that does not end the race does. *)
Lemma race_turn_continues failed s now ev s' :
  race_inv failed s -> turn s now ev = Some (inl s') ->
  exists failed', race_inv (failed ++ failed') s'
    /\ completions [(now, ev)] = prod_map id inr <$> failed'
    /\ (1 + next_index s <= length failed' + next_index s')%nat.
Proof.
  intros Hi. destruct ev as [|i r]; cbn [race_turn].
  - unfold timer_fired. case_if; [|done]. intros [= <-]. unbool. apply Nat.ltb_lt in H0.
    exists []. rewrite app_nil_r. split_and!; [by apply race_inv_launch|done|simpl; lia].
  - case_bool_decide as Hin; [|done]. destruct r as [v|e]; [done|].
    destruct (is_fatal e) eqn:Hf; [done|].
    change (if (_ <? _)%nat then _ else _) with (after_failure s now i e).
    destruct (after_failure_inv _ _ now _ _ Hi Hin Hf) as (_ & Hn & Hr).
    destruct (bool_decide _); [done|]. intros [= <-].
    exists [(i, e)]. split_and!; [done|done|simpl; lia].
Qed.

Lemma completions_app (a b : list (Z * race_event T)) :
  completions (a ++ b) = completions a ++ completions b.
Proof. apply omap_app. Qed.

Lemma race_run_inv failed s evs s' :
  run s evs s' -> race_inv failed s ->
  exists failed', race_inv (failed ++ failed') s'
    /\ completions evs = prod_map id inr <$> failed'
    /\ (length evs + next_index s <= length failed' + next_index s')%nat.
Proof.
  intros Hr. revert failed. induction Hr as [s|s now ev s' evs s'' Ht Hr IH]; intros failed Hi.
  - exists []. rewrite app_nil_r. split_and!; [done|done|simpl; lia].
  - destruct (race_turn_continues _ _ _ _ _ Hi Ht) as (f1 & Hi1 & Hc1 & Hn1).
    destruct (IH _ Hi1) as (f2 & Hi2 & Hc2 & Hn2). exists (f1 ++ f2).
    rewrite app_assoc. split; [done|]. split.
    + change ((now, ev) :: evs) with ([(now, ev)] ++ evs). by rewrite completions_app, Hc1, Hc2, fmap_app.
    + rewrite length_app. simpl. lia.
Qed.

(** C30: The race ends. Whatever the order in which attempts complete and timers fire, there are at
    most two turns for each candidate but the first before the turn that returns, and before that
    there is always an attempt in flight, never more than [max_concurrent], whose completion, with
    any result, the race takes: it cannot be stuck while the operating system answers. *)
Theorem race_terminates now0 s0 evs s :
  race_start config ordered now0 = Some s0 -> run s0 evs s ->
  (length evs <= 2 * (length ordered - 1))%nat
  /\ 1 <= len (attempts s) <= max_concurrent config
  /\ forall i, i ∈ attempts s -> forall now r, turn s now (Completed i r) <> None.
Proof.
  intros Hs Hr. pose proof (race_start_inv _ _ Hs) as Hi0.
  assert (next_index s0 = 1%nat) as Hn0
    by (revert Hs; unfold race_start; destruct ordered; [done|by intros [= <-]]).
  destruct (race_run_inv _ _ _ _ Hr Hi0) as (failed & Hi & _ & Hn). cbn [app] in Hi.
  pose proof (inv_bound _ _ Hi) as Hb. pose proof (inv_waiting _ _ Hi) as Hw.
  assert (length (attempts s) + length failed = next_index s)%nat as Hl.
  { pose proof (Permutation_length (inv_launched _ _ Hi)) as Hl.
    by rewrite length_app, length_fmap, length_seq in Hl. }
  assert (1 <= length (attempts s))%nat as H1 by (destruct (attempts s); [done|simpl; lia]).
  split; [lia|]. split.
  - pose proof (inv_max _ _ Hi). unfold len in *. lia.
  - intros i Hin now r. cbn [race_turn]. rewrite bool_decide_eq_true_2 by done.
    destruct r as [v|e]; [done|]. repeat case_if; done.
Qed.

(** What the race returns. The result is that of the attempt that completed last; every attempt
    that completed before it failed, none fatally; no candidate is tried twice; and a failure that
    is not a protection failure is returned only when every candidate has been tried and failed. *)
Theorem race_result now0 s0 evs s now ev r :
  race_start config ordered now0 = Some s0 -> run s0 evs s -> turn s now ev = Some (inr r) ->
  exists failed i,
    completions (evs ++ [(now, ev)]) = (prod_map id inr <$> failed) ++ [(i, r)]
    /\ Forall (fun f => is_fatal f.2 = false) failed
    /\ NoDup (failed.*1 ++ [i]) /\ Forall (fun j => (j < length ordered)%nat) (failed.*1 ++ [i])
    /\ forall e, r = inr e -> is_fatal e = false -> failed.*1 ++ [i] ≡ₚ seq 0 (length ordered).
Proof.
  intros Hs Hr Ht. pose proof (race_start_inv _ _ Hs) as Hi0.
  destruct (race_run_inv _ _ _ _ Hr Hi0) as (failed & Hi & Hc & _). cbn [app] in Hi.
  destruct ev as [|i res]; cbn [race_turn] in Ht; [by case_if_in Ht|].
  case_bool_decide as Hin; [|done]. exists failed, i. rewrite completions_app, Hc.
  pose proof (failure_in_flight _ _ _ Hi Hin) as Hp.
  assert (failed.*1 ++ [i] ++ List.filter (fun j => negb (j =? i)%nat) (attempts s)
          ≡ₚ seq 0 (next_index s)) as Hl.
  { rewrite <- (inv_launched _ _ Hi). etransitivity; [|by apply Permutation_app_comm].
    f_equiv. exact Hp. }
  rewrite app_assoc in Hl. pose proof (inv_bound _ _ Hi) as Hb.
  assert (r = res /\ forall e, r = inr e -> is_fatal e = false ->
            failed.*1 ++ [i] ≡ₚ seq 0 (length ordered)) as [-> Hall].
  { destruct res as [v|e]; [by simplify_eq|]. destruct (is_fatal e) eqn:Hf.
    { simplify_eq. split; [done|]. intros e' [= <-]. by rewrite Hf. }
    change (if (_ <? _)%nat then _ else _) with (after_failure s now i e) in Ht.
    destruct (after_failure_inv _ _ now _ _ Hi Hin Hf) as (He & _ & Hx).
    destruct (bool_decide _); [|done]. rewrite He in Ht. by simplify_eq. }
  split_and!; [done|by apply inv_not_fatal in Hi| | |done].
  - assert (NoDup (seq 0 (next_index s))) as Hnd by apply NoDup_seq.
    rewrite <- Hl in Hnd. by apply list.NoDup_app in Hnd as [? _].
  - apply list.Forall_forall. intros j Hj.
    assert (j ∈ seq 0 (next_index s)) as Hj'%elem_of_seq by (rewrite <- Hl; set_solver). lia.
Qed.

End RaceProofs.

(** ** Dials against the clock *)

Lemma timed_bind_eq {A B} (m : timed A) (k : A -> timed B) t t' a :
  m t = Some (t', a) -> timed_bind m k t = k a t'.
Proof. unfold timed_bind. by intros ->. Qed.

Lemma timeout_bounded {A} d (m : timed A) t :
  causal m -> 0 <= d -> exists t' a, timeout d m t = Some (t', a) /\ t <= t' <= t + d.
Proof.
  intros Hm Hd. unfold timeout. destruct (m t) as [[t' a]|] eqn:E.
  - apply Hm in E. case_if; unbool; eexists _, _; (split; [done|]); lia.
  - eexists _, _. split; [done|]. lia.
Qed.

Lemma timeout_prompt {A} d (m : timed A) t t' a :
  m t = Some (t', a) -> t' <= t + d -> timeout d m t = Some (t', Some a).
Proof. intros Hm Ht. unfold timeout. rewrite Hm. by guard_true by lia. Qed.

Lemma timeout_answer {A} d (m : timed A) t t' a :
  timeout d m t = Some (t', Some a) -> m t = Some (t', a).
Proof. unfold timeout. destruct (m t) as [[u b]|]; [|done]. case_if; naive_solver. Qed.

Lemma attempt_time_range remaining left :
  0 < remaining -> 0 < left -> 0 < attempt_time remaining left <= remaining.
Proof.
  intros Hr Hl. unfold attempt_time, GO_MIN_ATTEMPT, second.
  assert (0 <= remaining / (if left <=? u32_max then left else u32_max))
    by (apply Z.div_pos; [lia|]; unfold u32_max; case_if; unbool; lia).
  lia.
Qed.

(** With two seconds left for each of [left] candidates, an attempt takes at least two seconds and
    leaves as much for each of the others. *)
Lemma attempt_time_share remaining left :
  1 <= left <= u32_max -> GO_MIN_ATTEMPT * left <= remaining ->
  GO_MIN_ATTEMPT <= attempt_time remaining left
  /\ GO_MIN_ATTEMPT * (left - 1) <= remaining - attempt_time remaining left.
Proof.
  intros Hl Hr. unfold attempt_time. guard_true by lia.
  assert (GO_MIN_ATTEMPT <= remaining / left) as Hs
    by (apply Z.div_le_lower_bound; lia).
  assert (left * (remaining / left) <= remaining) as Hm by (apply Z.mul_div_le; lia).
  unfold GO_MIN_ATTEMPT, second in *. nia.
Qed.

Section DialProofs.
Context {T : Type} (connect : SocketAddr -> timed (dialed T)).
Hypothesis Hcausal : forall a, causal (connect a).

Lemma serial_bounded cs deadline err t :
  exists t' r, serial_loop connect cs deadline err t = Some (t', r) /\ t <= t' <= Z.max t deadline.
Proof.
  revert err t. induction cs as [|c cs IH]; intros err t; cbn [serial_loop].
  { eexists _, _. split; [done|]. lia. }
  rewrite (timed_bind_eq _ _ t t t) by done. case_if; unbool.
  { eexists _, _. split; [done|]. lia. }
  unfold saturating_since in *. set (d := attempt_time _ _).
  assert (0 < d <= deadline - t) as Hd.
  { unfold d. replace (Z.max 0 (deadline - t)) with (deadline - t) by lia.
    apply attempt_time_range; [lia|]. len_simpl. pose proof (len_nonneg cs). lia. }
  destruct (timeout_bounded d (connect c) t) as (t' & a & Ha & Ht); [done|lia|].
  rewrite (timed_bind_eq _ _ _ _ _ Ha). destruct (default (inr (TcpFailed (ConnectTimedOut c))) a) as [v|e].
  { eexists _, _. split; [done|]. lia. }
  case_if. { eexists _, _. split; [done|]. lia. }
  destruct (IH (Some (default e err)) t') as (t'' & r & Hr & Ht''). eexists _, _.
  split; [done|]. lia.
Qed.

(** A candidate that connects within two seconds whenever it is tried. *)
Definition prompt (c : SocketAddr) : Prop :=
  forall t, exists t' v, connect c t = Some (t', inl v) /\ t' <= t + GO_MIN_ATTEMPT.

Definition never_fatal (cs : list SocketAddr) : Prop :=
  forall c t t' e, c ∈ cs -> connect c t = Some (t', inr e) -> is_fatal e = false.

Lemma serial_connects cs deadline err t c :
  never_fatal cs -> c ∈ cs -> prompt c -> len cs <= u32_max ->
  GO_MIN_ATTEMPT * len cs <= deadline - t ->
  exists t' v, serial_loop connect cs deadline err t = Some (t', inl v).
Proof.
  revert err t. induction cs as [|c0 cs IH]; intros err t Hnf Hin Hc Hl Hd.
  { by apply elem_of_nil in Hin. }
  cbn [serial_loop]. rewrite (timed_bind_eq _ _ t t t) by done. pose proof (len_nonneg cs) as Hcs.
  rewrite len_cons in Hd, Hl. unfold saturating_since.
  rewrite Z.max_r by (unfold GO_MIN_ATTEMPT, second in *; lia).
  guard_false by (unfold GO_MIN_ATTEMPT, second in *; lia). rewrite len_cons.
  destruct (attempt_time_share (deadline - t) (1 + len cs)) as [H2 Hrest]; [lia..|].
  set (d := attempt_time _ _) in *.
  destruct (timeout_bounded d (connect c0) t) as (t' & a & Ha & Ht);
    [done|unfold GO_MIN_ATTEMPT, second in *; lia|].
  rewrite (timed_bind_eq _ _ _ _ _ Ha).
  destruct (decide (c0 = c)) as [->|Hne].
  { destruct (Hc t) as (u & v & Hu & Hu2). rewrite (timeout_prompt d _ _ _ _ Hu) in Ha by lia.
    simplify_eq. by eexists _, _. }
  destruct (default (inr (TcpFailed (ConnectTimedOut c0))) a) as [v|e] eqn:E; [by eexists _, _|].
  assert (is_fatal e = false) as ->.
  { destruct a as [[v'|e']|]; simplify_eq/=; [|done].
    apply timeout_answer in Ha. by apply (Hnf c0 t t' e); [left|]. }
  apply IH; [|by apply elem_of_cons in Hin as [->|]|done|lia|lia].
  intros c1 t1 t1' e1 H1. apply Hnf. by right.
Qed.

(** Where a serial dial's connection, and its protection failure, come from. *)
Lemma serial_result cs deadline err t t' r :
  serial_loop connect cs deadline err t = Some (t', r) ->
  from_option is_fatal false err = false ->
  (exists v, r = inl v) \/ (exists e, r = inr e /\ is_fatal e = true) ->
  exists c u, c ∈ cs /\ connect c u = Some (t', r).
Proof.
  revert err t. induction cs as [|c cs IH]; intros err t; cbn [serial_loop].
  { intros [= <- <-] He [[v Hv]|(e & [= <-] & Hf)]; [done|]. by destruct err; simpl in *; congruence. }
  rewrite (timed_bind_eq _ _ t t t) by done. case_if.
  { intros [= <- <-] He [[v Hv]|(e & [= <-] & Hf)]; [done|]. by destruct err; simpl in *; congruence. }
  set (d := attempt_time _ _).
  destruct (timeout d (connect c) t) as [[t1 a]|] eqn:Ha; [|by unfold timed_bind; rewrite Ha].
  rewrite (timed_bind_eq _ _ _ _ _ Ha). intros Hr He Hcase.
  assert (a = Some r /\ t1 = t' \/ exists e, is_fatal e = false
    /\ serial_loop connect cs deadline (Some (default e err)) t1 = Some (t', r)) as [[-> ->]|(e & Hf & Hl)].
  { unfold timed_ret in Hr. destruct a as [[v|e]|]; cbn [default from_option id] in Hr;
      [left; by simplify_eq| |].
    - destruct (is_fatal e) eqn:Hf; [left; by simplify_eq|right; by exists e].
    - right. by exists (TcpFailed (ConnectTimedOut c)). }
  - apply timeout_answer in Ha. exists c, t. split; [left|done].
  - destruct (IH _ _ Hl) as (c' & u & Hc' & Hu); [by destruct err|done|]. exists c', u.
    split; [by right|done].
Qed.

Lemma serial_not_fatal cs deadline t t' e :
  never_fatal cs -> dial_serial connect cs deadline t = Some (t', inr e) -> is_fatal e = false.
Proof.
  intros Hnf Hs. destruct (is_fatal e) eqn:He; [|done].
  destruct (serial_result _ _ _ _ _ _ Hs) as (c & u & Hc & Hu); [done|right; by exists e|].
  by rewrite <- He, (Hnf _ _ _ _ Hc Hu).
Qed.

(** What a [select!] over the two families returns was returned by one of them, or is the error
    of the primaries after both failed. *)
Lemma dual_select_result tie primary fallback t t1 r1 t2 r2 u2 s2 :
  primary t = Some (t1, r1) -> fallback (t + GO_FALLBACK_DELAY) = Some (t2, r2) ->
  fallback (Z.min t1 (t + GO_FALLBACK_DELAY)) = Some (u2, s2) ->
  exists t' r, @dual_stack_select T tie primary fallback t = Some (t', r)
    /\ (t' = t1 /\ r = r1 \/ t' = t2 /\ r = r2 \/ t' = u2 /\ r = s2
        \/ t' = u2 /\ r = r1 /\ (exists e, r1 = inr e /\ is_fatal e = false)).
Proof.
  intros Hp Hf Hm. unfold dual_stack_select. rewrite Hp, Hf, Hm. case_if.
  - destruct r1 as [v|e1]; [naive_solver|]. destruct (is_fatal e1) eqn:He; [naive_solver|].
    destruct s2 as [v|e2]; [naive_solver|]. eexists _, _. split; [done|].
    destruct e2; simpl; naive_solver.
  - destruct r2 as [v|e2]; [naive_solver|]. destruct (is_fatal e2) eqn:He; [naive_solver|].
    destruct r1 as [v|e1]; [naive_solver|]. eexists _, _. split; [done|].
    destruct e2; simpl in *; naive_solver.
Qed.

End DialProofs.

(** Go's dial ends within its sixteen seconds whatever the operating system does, even when no
    connect is ever answered; a connection it returns, and a protection failure, is what one of
    the attempts returned at that moment. *)
Theorem dual_stack_in_time {T} (connect : SocketAddr -> timed (dialed T)) tie candidates t :
  (forall a, causal (connect a)) ->
  exists t' r,
    dial_dual_stack connect tie candidates t = Some (t', r)
    /\ t <= t' <= t + GO_DIAL_TIMEOUT
    /\ ((exists v, r = inl v) \/ (exists e, r = inr e /\ is_fatal e = true) ->
        exists c u, c ∈ map canonicalize_socket_addr candidates /\ connect c u = Some (t', r)).
Proof.
  intros Hc. unfold dial_dual_stack. set (cs := map _ candidates). destruct cs as [|c0 cs0] eqn:E.
  { eexists _, _. split; [done|]. split; [unfold GO_DIAL_TIMEOUT, second; lia|]. naive_solver. }
  rewrite <- E. set (fs := List.filter _ cs). set (ps := List.filter _ cs).
  rewrite (timed_bind_eq _ _ t t t) by done. set (deadline := t + GO_DIAL_TIMEOUT).
  assert (forall l d u u' r, d = deadline -> (forall c, c ∈ l -> c ∈ cs) ->
    dial_serial connect l d u = Some (u', r) ->
    (exists v, r = inl v) \/ (exists e, r = inr e /\ is_fatal e = true) ->
    exists c u, c ∈ cs /\ connect c u = Some (u', r)) as Hres.
  { intros l d u u' r -> Hl Hs Hr.
    destruct (serial_result connect _ _ _ _ _ _ Hs eq_refl Hr) as (c & v & Hin & Hv).
    exists c, v. split; [by apply Hl|done]. }
  assert (forall f c, c ∈ List.filter f cs -> c ∈ cs) as Hsub
    by (intros f c [? _]%elem_of_list_filter; done).
  assert (0 < GO_FALLBACK_DELAY < GO_DIAL_TIMEOUT) as Hdelay by (split; reflexivity).
  destruct (serial_bounded connect Hc ps deadline None t) as (t1 & r1 & H1 & Ht1).
  unfold deadline in *. case_bool_decide.
  { eexists _, _. split; [exact H1|]. split; [lia|]. by apply (Hres ps _ t _ _ eq_refl (Hsub _)). }
  destruct (serial_bounded connect Hc fs deadline None (t + GO_FALLBACK_DELAY)) as (t2 & r2 & H2 & Ht2).
  destruct (serial_bounded connect Hc fs deadline None (Z.min t1 (t + GO_FALLBACK_DELAY)))
    as (u2 & s2 & H3 & Ht3). unfold deadline in *.
  destruct (dual_select_result tie (dial_serial connect ps deadline) (dial_serial connect fs deadline)
    t t1 r1 t2 r2 u2 s2 H1 H2 H3) as (t' & r & Hr & Hcase).
  exists t', r. split; [exact Hr|].
  destruct Hcase as [[-> ->]|[[-> ->]|[[-> ->]|(-> & -> & e & -> & He)]]];
    (split; [lia|]); [by apply (Hres ps _ _ _ _ eq_refl (Hsub _) H1)
      |by apply (Hres fs _ _ _ _ eq_refl (Hsub _) H2)|by apply (Hres fs _ _ _ _ eq_refl (Hsub _) H3)|]. intros [[v ?]|(e' & ? & ?)]; simplify_eq. congruence.
Qed.

Lemma dual_select_connects {T} tie (primary fallback : timed (dialed T)) t t1 r1 t2 r2 u2 s2 :
  primary t = Some (t1, r1) -> fallback (t + GO_FALLBACK_DELAY) = Some (t2, r2) ->
  fallback (Z.min t1 (t + GO_FALLBACK_DELAY)) = Some (u2, s2) ->
  (forall e, r1 = inr e -> is_fatal e = false) -> (forall e, r2 = inr e -> is_fatal e = false) ->
  (exists v, r1 = inl v) \/ (exists v w, r2 = inl v /\ s2 = inl w) ->
  exists t' v, dual_stack_select tie primary fallback t = Some (t', inl v).
Proof.
  intros Hp Hf Hm N1 N2 Hok. unfold dual_stack_select. rewrite Hp, Hf, Hm. case_if.
  - destruct r1 as [v|e1]; [naive_solver|]. rewrite (N1 e1) by done.
    destruct Hok as [[v ?]|(v & w & -> & ->)]; [done|naive_solver].
  - destruct r2 as [v|e2]; [naive_solver|]. rewrite (N2 e2) by done.
    destruct Hok as [[v ->]|(v & w & ? & _)]; [naive_solver|done].
Qed.

(** A host that can be reached is reached: when no socket is refused protection, each family
    has at most seven addresses and one address, of either family, connects within two seconds of
    being tried, Go's dial returns a connection. *)
Theorem dual_stack_connects {T} (connect : SocketAddr -> timed (dialed T)) tie candidates c t :
  let cs := map canonicalize_socket_addr candidates in
  (forall a, causal (connect a)) -> never_fatal connect cs ->
  len (List.filter is_ipv4 cs) <= 7 -> len (List.filter (fun c => negb (is_ipv4 c)) cs) <= 7 ->
  c ∈ cs -> prompt connect c ->
  exists t' v, dial_dual_stack connect tie candidates t = Some (t', inl v).
Proof.
  intros cs Hc Hnf H4 H6 Hin Hp. unfold dial_dual_stack. fold cs. destruct cs as [|c0 cs0] eqn:E.
  { by apply elem_of_nil in Hin. }
  rewrite <- E in *. set (fs := List.filter _ cs). set (ps := List.filter (fun c => eqb _ _) cs).
  rewrite (timed_bind_eq _ _ t t t) by done. set (deadline := t + GO_DIAL_TIMEOUT).
  assert (forall f, never_fatal connect (List.filter f cs)) as Hnf'.
  { intros f d u u' e [Hd _]%elem_of_list_filter. by apply Hnf. }
  assert (len ps <= 7 /\ len fs <= 7) as [Lp Lf].
  { unfold ps, fs. destruct (is_ipv4 c0).
    - rewrite (List.filter_ext _ is_ipv4) by (intros x; by destruct (is_ipv4 x)).
      rewrite (List.filter_ext (fun c => negb _) (fun c => negb (is_ipv4 c))); [done|].
      intros x. by destruct (is_ipv4 x).
    - rewrite (List.filter_ext (fun c => eqb _ _) (fun c => negb (is_ipv4 c)))
        by (intros x; by destruct (is_ipv4 x)).
      rewrite (List.filter_ext (fun c => negb (eqb _ _)) is_ipv4); [done|].
      intros x. by destruct (is_ipv4 x). }
  assert (forall l u, never_fatal connect l -> c ∈ l -> len l <= 7 -> u <= t + GO_FALLBACK_DELAY ->
    exists t' v, serial_loop connect l deadline None u = Some (t', inl v)) as Hser.
  { intros l u Hl Hcl Hlen Hu. apply serial_connects with c; try done; [unfold u32_max; lia|].
    unfold deadline, GO_MIN_ATTEMPT, GO_FALLBACK_DELAY, GO_DIAL_TIMEOUT, second in *. lia. }
  assert (0 < GO_FALLBACK_DELAY) as Hdelay by reflexivity.
  assert (c ∈ ps \/ c ∈ fs) as Hside.
  { unfold ps, fs. rewrite !elem_of_list_filter. destruct (eqb _ _); naive_solver. }
  case_bool_decide as Hfs.
  { destruct Hside as [Hps|Hfs']; [|rewrite Hfs in Hfs'; by apply elem_of_nil in Hfs'].
    destruct (Hser ps t) as (t' & v & Hv); [apply Hnf'|done|done|lia|by eexists _, _]. }
  destruct (serial_bounded connect Hc ps deadline None t) as (t1 & r1 & H1 & _).
  destruct (serial_bounded connect Hc fs deadline None (t + GO_FALLBACK_DELAY)) as (t2 & r2 & H2 & _).
  destruct (serial_bounded connect Hc fs deadline None (Z.min t1 (t + GO_FALLBACK_DELAY)))
    as (u2 & s2 & H3 & _).
  apply (dual_select_connects tie _ _ t t1 r1 t2 r2 u2 s2 H1 H2 H3).
  - intros e ->. by eapply (serial_not_fatal connect ps); [apply Hnf'|].
  - intros e ->. by eapply (serial_not_fatal connect fs); [apply Hnf'|].
  - destruct Hside as [Hps|Hfs'].
    + left. destruct (Hser ps t) as (t' & v & Hv); [apply Hnf'|done|done|lia|].
      exists v. congruence.
    + right. destruct (Hser fs (t + GO_FALLBACK_DELAY)) as (t' & v & Hv); [apply Hnf'|done|done|lia|].
      destruct (Hser fs (Z.min t1 (t + GO_FALLBACK_DELAY))) as (t'' & w & Hw); [apply Hnf'|done|done|lia|].
      exists v, w. split; congruence.
Qed.

(** The attempts of this crate are causal when the operating system's connects are. *)
Class OsLaws `{Os Socket Stream} : Prop := {
  connect_new_causal a : causal (connect_new a);
  connect_socket_causal s a : causal (connect_socket s a);
  connect_multipath_causal a : causal (connect_multipath a)
}.

Lemma causal_ret {A} (a : A) : causal (timed_ret a).
Proof. intros t t' b [= -> _]. lia. Qed.

Lemma causal_bind {A B} (m : timed A) (k : A -> timed B) :
  causal m -> (forall a, causal (k a)) -> causal (timed_bind m k).
Proof.
  intros Hm Hk t t' b. unfold timed_bind. destruct (m t) as [[u a]|] eqn:E; [|done].
  intros Hb. apply Hm in E. apply Hk in Hb. lia.
Qed.

#[export] Hint Resolve causal_ret causal_bind connect_new_causal connect_socket_causal
  connect_multipath_causal : rust.

Lemma connect_plain_causal `{OsLaws} a p : causal (connect_plain a p).
Proof.
  unfold connect_plain. destruct p as [p|]; [|eauto with rust].
  destruct (new_socket _); [eauto with rust|]. destruct (protect _ _); eauto with rust.
Qed.
#[export] Hint Resolve connect_plain_causal : rust.

Lemma connect_tcp_stream_causal `{OsLaws} a p : causal (connect_tcp_stream a p).
Proof.
  unfold connect_tcp_stream. set (plain := timed_bind (connect_plain _ p) _).
  assert (causal plain) by (apply causal_bind; [eauto with rust|intros [|]; eauto with rust]).
  destruct p as [p|]; [|done]. case_if; [|done].
  apply causal_bind; [eauto with rust|]. intros [|]; eauto with rust.
Qed.

(** ** Examples *)

Definition sample_v4 : SocketAddr := mkSocketAddr (V4 (ipv4 192 0 2 1)) 443.
Definition sample_v6 : SocketAddr := mkSocketAddr (V6 (ipv6 0x2001 0xdb8 0 0 0 0 0 1)) 443.
Definition sample_mapped : SocketAddr := mkSocketAddr (V6 (ipv6 0 0 0 0 0 0xffff 0xc000 0x0202)) 443.

(** The IPv4 addresses are never answered, the IPv6 address after fifty milliseconds. *)
Definition sample_connect (a : SocketAddr) : timed (dialed Z) := fun t =>
  if is_ipv4 a then None else Some (t + 50000000, inl 7).

Lemma sample_causal a : causal (sample_connect a).
Proof. intros t t' r. unfold sample_connect. case_if; [done|]. intros [= <- _]. lia. Qed.

Definition sample_config : HappyEyeballsConfig := mkHappyEyeballsConfig false 1 250000000 4.

Lemma order_candidates_fair_witness :
  order_candidates sample_config [sample_v4; sample_mapped; sample_v6]
  = Some (Ok [sample_v4; sample_v6; canonicalize_socket_addr sample_mapped]).
Proof.
  destruct (order_candidates_fair sample_config [sample_v4; sample_mapped; sample_v6])
    as (o & -> & -> & _); [by_decision|by_decision|]. vm_compute. reflexivity.
Defined.

#[local] Instance sample_clock : Clock := {| instant_max := 1000000000000 |}.

Definition sample_events : list (Z * race_event Z) := [(250000000, TimerFired)].

Lemma sample_run : exists s0 s,
  race_start sample_config [sample_v4; sample_v6] 0 = Some s0
  /\ race_run sample_config [sample_v4; sample_v6] s0 sample_events s
  /\ attempts s = [0%nat; 1%nat]
  /\ race_turn sample_config [sample_v4; sample_v6] s 300000000 (Completed 1 (inl 7)) = Some (inr (inl 7)).
Proof.
  eexists _, _. split; [reflexivity|]. split.
  { eapply race_run_cons; [reflexivity|apply race_run_nil]. }
  split; reflexivity.
Defined.

Lemma race_terminates_witness : exists s,
  1 <= len (attempts s) <= 4
  /\ @race_turn _ Z sample_config [sample_v4; sample_v6] s 400000000
       (Completed 0 (inr (TcpFailed (OsError 111)))) <> None.
Proof.
  destruct sample_run as (s0 & s & Hs & Hr & Ha & _). exists s.
  destruct (race_terminates sample_config [sample_v4; sample_v6] ltac:(by_decision) 0 s0
    sample_events s Hs Hr) as (_ & H & Hp).
  split; [exact H|]. apply Hp. rewrite Ha. left.
Defined.

Lemma race_result_witness : exists failed i,
  completions (sample_events ++ [(300000000, Completed 1 (inl 7))])
  = (prod_map id inr <$> failed) ++ [(i, inl 7)].
Proof.
  destruct sample_run as (s0 & s & Hs & Hr & _ & Ht).
  destruct (race_result sample_config [sample_v4; sample_v6] ltac:(by_decision) 0 s0
    sample_events s _ _ _ Hs Hr Ht) as (failed & i & Hc & _).
  by exists failed, i.
Defined.

Lemma dual_stack_in_time_witness : exists t' r,
  dial_dual_stack sample_connect true [sample_v4; sample_v6] 0 = Some (t', r)
  /\ 0 <= t' <= GO_DIAL_TIMEOUT.
Proof.
  destruct (dual_stack_in_time sample_connect true [sample_v4; sample_v6] 0 sample_causal)
    as (t' & r & Hr & Ht & _). exists t', r. split; [exact Hr|lia].
Defined.

Lemma dual_stack_connects_witness :
  dial_dual_stack sample_connect true [sample_v4; sample_v6] 0 = Some (350000000, inl 7)
  /\ exists t' v, dial_dual_stack sample_connect false [sample_v4; sample_v6] 0 = Some (t', inl v).
Proof.
  split; [reflexivity|].
  apply (dual_stack_connects sample_connect false [sample_v4; sample_v6] sample_v6 0);
    [apply sample_causal| |by_decision|by_decision|vm_compute; set_solver|].
  - intros c t t' e _. unfold sample_connect. by case_if.
  - intros t. exists (t + 50000000), 7. split; [reflexivity|]. unfold GO_MIN_ATTEMPT, second. lia.
Defined.
