(* ===== verification/Fragment.v ===== *)
(** Fragmenting the TLS ClientHello: [crates/xray-transport/src/fragment.rs]. The plan cuts the
    first handshake record into smaller records, and the stream writes them with their delays
    before anything else. The random numbers are the class [Rng], the transport below is any
    [AsyncIo] with the extra polls of [TransportStream]. *)
From Stdlib Require Import Strings.Byte.
From S2P Require Import Prelude Transport.

Definition MAX_FIRST_WRITE : Z := 65536.
Definition MAX_RECORD : Z := 16384.
Definition MAX_SPLITS : nat := 4096.
Definition MAX_TOTAL_DELAY_MS : Z := 10000.

(** The messages of the [InvalidInput] errors. *)
Inductive FragmentError :=
| OutsideBounds
| RecordTooLarge
| TooManyFragments
| TooMuchDelay.

(** [RangeInclusive<u32>] *)
Record range := mkRange { start : Z; stop : Z }.

Definition range_is_empty (r : range) : bool := stop r <? start r.

(** Delays are in milliseconds. *)
Record TcpFragmentConfig := mkTcpFragmentConfig {
  lengths : list range;
  delays_ms : list range;
  max_split : range
}.

(** The closure [valid] of [TcpFragmentConfig::new]. *)
Definition valid_ranges (ranges : list range) (lo hi : Z) : bool :=
  (1 <=? len ranges) && (len ranges <=? 16) &&
  forallb (fun r => negb (range_is_empty r) && (lo <=? start r) && (stop r <=? hi)) ranges.

Definition TcpFragmentConfig_new (lengths delays_ms : list range) (max_split : range)
    : res FragmentError TcpFragmentConfig :=
  if negb (valid_ranges lengths 1 MAX_RECORD) || negb (valid_ranges delays_ms 0 1000)
     || range_is_empty max_split || (Z.of_nat MAX_SPLITS <? stop max_split)
  then Err OutsideBounds
  else Ok (mkTcpFragmentConfig lengths delays_ms max_split).

(** The generator of a plan: its [k]-th draw from a range. *)
Class Rng := { gen_range : nat -> Z -> Z -> Z }.
Class RngLaws `{Rng} : Prop := {
  gen_range_law k lo hi : lo <= hi -> lo <= gen_range k lo hi <= hi
}.

(** [rng.gen_range(r)], which panics on an empty range. *)
Definition draw {E} `{Rng} (k : nat) (r : range) : res E Z :=
  if range_is_empty r then Panic else Ok (gen_range k (start r) (stop r)).

(** What is still to be written: cuts are the ends of pieces in [wire] and the delays after them;
    the sleep is the time it ends. *)
Record PendingHello := mkPendingHello {
  wire : list byte;
  cuts : list (Z * Z);
  written : Z;
  cut : Z;
  sleep : option Z
}.

(** ** The plan *)

Section Plan.
Context `{Rng} (c : TcpFragmentConfig).

(** The loop over the record; [turns] is what [count] leaves of [MAX_SPLITS], and [k] counts the
    numbers drawn. *)
Fixpoint plan_loop (turns : nat) (head record : list byte) (limit : Z) (merged : bool)
    (k : nat) (offset total_delay : Z) (wire : list byte) (cuts : list (Z * Z))
    : res FragmentError (list byte * list (Z * Z)) :=
  if negb (offset <? len record) then Ok (wire, cuts)
  else
    match turns with
    | O => Err TooManyFragments
    | S turns =>
      let count := Z.of_nat (MAX_SPLITS - S turns) in
      let? r := index (lengths c) (Z.min count (len (lengths c) - 1)) in
      let? length := draw k r in
      let end_ := if (0 <? limit) && (limit <=? count + 1) then len record
                  else Z.min (offset + length) (len record) in
      let? part := slice record offset end_ in
      let wire := wire ++ head ++ be_bytes 2 (end_ - offset) ++ part in
      if merged then plan_loop turns head record limit merged (S k) end_ total_delay wire cuts
      else
        let? r := index (delays_ms c) (Z.min count (len (delays_ms c) - 1)) in
        let? delay := draw (S k) r in
        let total_delay := total_delay + delay in
        if MAX_TOTAL_DELAY_MS <? total_delay then Err TooMuchDelay
        else plan_loop turns head record limit merged (S (S k)) end_ total_delay wire
               (cuts ++ [(len wire, delay)])
    end.

Definition plan (input : list byte) : res FragmentError (option PendingHello) :=
  if len input <=? 5 then Ok None
  else
    let? b0 := index input 0 in
    if negb (u8 b0 =? 22) then Ok None
    else
      let? b3 := index input 3 in
      let? b4 := index input 4 in
      let record_len := from_be [b3; b4] in
      if len input <? record_len + 5 then Ok None
      else if (MAX_RECORD <? record_len) || (record_len =? 0) then Err RecordTooLarge
      else
        let? record := slice input 5 (5 + record_len) in
        let? limit := draw 0 (max_split c) in
        let merged := match delays_ms c with [d] => stop d =? 0 | _ => false end in
        let? head := slice input 0 3 in
        let? p := plan_loop MAX_SPLITS head record limit merged 1 0 0 [] [] in
        let '(wire, cuts) := p in
        let cuts := if merged then cuts ++ [(len wire, 0)] else cuts in
        if record_len + 5 <? len input then
          let? rest := slice_from input (record_len + 5) in
          let wire := wire ++ rest in
          Ok (Some (mkPendingHello wire (cuts ++ [(len wire, 0)]) 0 0 None))
        else Ok (Some (mkPendingHello wire cuts 0 0 None)).

End Plan.

(** ** The stream *)

(** The polls of [TransportStream] and [AsyncWrite] that the stream passes on besides those of
    [AsyncIo]. *)
Class TransportStream (T : Type) `{AsyncIo T} := {
  io_poll_read_raw : T -> Z -> poll (res io_error (list byte)) * T;
  io_poll_write_raw : T -> list byte -> poll (res io_error Z) * T;
  io_poll_write_vectored : T -> list (list byte) -> poll (res io_error Z) * T;
  io_is_write_vectored : T -> bool;
  io_release_record_alignment : T -> T
}.

Inductive FragIoError (E : Type) :=
| FragFailed
| FragSocketClosed
| FragPlan (e : FragmentError)
| FragInner (e : E).
Arguments FragFailed {E}.
Arguments FragSocketClosed {E}.
Arguments FragPlan {E} e.
Arguments FragInner {E} e.

Section Stream.
Context `{Rng} {T : Type} `{Ai : AsyncIo T} `{Ts : !TransportStream T}.

Record FragmentStream := mkFragmentStream {
  inner : T;
  config : option TcpFragmentConfig;
  pending : option PendingHello;
  failed : bool
}.

Definition FragmentStream_new (io : T) (c : TcpFragmentConfig) : FragmentStream :=
  mkFragmentStream io (Some c) None false.

Abbreviation outcome A := (poll (res (FragIoError io_error) A) * FragmentStream)%type.

Definition set_pending (s : FragmentStream) (io : T) (p : option PendingHello) : FragmentStream :=
  mkFragmentStream io (config s) p (failed s).

Definition fail (s : FragmentStream) : FragmentStream :=
  mkFragmentStream (inner s) (config s) (pending s) true.

(** [pending.cut += 1] and the sleep that may follow. *)
Definition next_cut (p : PendingHello) (now delay : Z) : PendingHello :=
  mkPendingHello (wire p) (cuts p) (written p) (cut p + 1)
    (if delay =? 0 then None else Some (now + delay)).

(** The loop of [poll_drain] with [p] as the pending bytes. *)
Fixpoint drain_turns (turns : nat) (now : Z) (s : FragmentStream) (p : PendingHello)
    : outcome unit :=
  match turns with
  | O => (Pending, set_pending s (inner s) (Some p))
  | S turns =>
    if match sleep p with Some t => now <? t | None => false end
    then (Pending, set_pending s (inner s) (Some p))
    else
      let p := mkPendingHello (wire p) (cuts p) (written p) (cut p) None in
      if cut p =? len (cuts p) then (Ready (Ok tt), set_pending s (inner s) None)
      else
        match index (cuts p) (cut p) with
        | Ok (end_, delay) =>
          if written p <? end_ then
            match slice (wire p) (written p) end_ with
            | Ok bytes =>
              let '(r, io) := io_poll_write (inner s) bytes in
              match r with
              | Pending => (Pending, set_pending s io (Some p))
              | Ready (Err e) => (Ready (Err (FragInner e)), fail (set_pending s io (Some p)))
              | Ready Panic => (Ready Panic, set_pending s io (Some p))
              | Ready (Ok n) =>
                if n =? 0 then (Ready (Err FragSocketClosed), fail (set_pending s io (Some p)))
                else
                  let p := mkPendingHello (wire p) (cuts p) (written p + n) (cut p) None in
                  let s := set_pending s io (Some p) in
                  if written p <? end_ then drain_turns turns now s p
                  else drain_turns turns now s (next_cut p now delay)
              end
            | Err e => match e : Empty_set with end
            | Panic => (Ready Panic, s)
            end
          else drain_turns turns now s (next_cut p now delay)
        | Err e => match e : Empty_set with end
        | Panic => (Ready Panic, s)
        end
  end.

Definition poll_drain (now : Z) (s : FragmentStream) : outcome unit :=
  if failed s then (Ready (Err FragFailed), s)
  else match pending s with
       | None => (Ready (Ok tt), s)
       | Some p => drain_turns 64 now s p
       end.

Definition stage (s : FragmentStream) (input : list byte)
    : res (FragIoError io_error) bool * FragmentStream :=
  match config s with
  | None => (Ok false, s)
  | Some c =>
    let s := mkFragmentStream (inner s) None (pending s) (failed s) in
    match plan c input with
    | Ok (Some p) => (Ok true, set_pending s (inner s) (Some p))
    | Ok None => (Ok false, s)
    | Err e => (Err (FragPlan e), fail s)
    | Panic => (Panic, s)
    end
  end.

(** [ready!(m)?] *)
Definition and_then {A B} (m : outcome A) (k : FragmentStream -> outcome B) : outcome B :=
  match m with
  | (Ready (Ok _), s) => k s
  | (Ready (Err e), s) => (Ready (Err e), s)
  | (Ready Panic, s) => (Ready Panic, s)
  | (Pending, s) => (Pending, s)
  end.

(** A poll of the transport below. *)
Definition pass {A} (s : FragmentStream) (p : poll (res io_error A) * T) : outcome A :=
  (match fst p with
   | Ready r => Ready (res_map_err FragInner r)
   | Pending => Pending
   end, set_pending s (snd p) (pending s)).

Definition poll_read (now : Z) (s : FragmentStream) (room : Z) : outcome (list byte) :=
  if room =? 0 then (Ready (Ok []), s)
  else and_then (poll_drain now s) (fun s => pass s (io_poll_read (inner s) room)).

Definition poll_write (now : Z) (s : FragmentStream) (input : list byte) : outcome Z :=
  and_then (poll_drain now s) (fun s =>
    if bool_decide (input = []) then (Ready (Ok 0), s)
    else
      let accepted := Z.min (len input) MAX_FIRST_WRITE in
      match stage s (take (Z.to_nat accepted) input) with
      | (Ok true, s) => (Ready (Ok accepted), s)
      | (Ok false, s) => pass s (io_poll_write (inner s) input)
      | (Err e, s) => (Ready (Err e), s)
      | (Panic, s) => (Ready Panic, s)
      end).

(** The loop that joins the slices of a vectored write. *)
Fixpoint join_parts (input : list (list byte)) (joined : list byte) : list byte :=
  match input with
  | [] => joined
  | part :: rest =>
    let length := Z.min (len part) (MAX_FIRST_WRITE - len joined) in
    let joined := joined ++ take (Z.to_nat length) part in
    if len joined =? MAX_FIRST_WRITE then joined else join_parts rest joined
  end.

Definition poll_write_vectored (now : Z) (s : FragmentStream) (input : list (list byte))
    : outcome Z :=
  and_then (poll_drain now s) (fun s =>
    match config s with
    | None => pass s (io_poll_write_vectored (inner s) input)
    | Some _ =>
      match List.find (fun part => negb (bool_decide (part = []))) input with
      | None => (Ready (Ok 0), s)
      | Some first =>
        if bool_decide (head first = Some x16) then
          let joined := join_parts input [] in
          match stage s joined with
          | (Ok true, s) => (Ready (Ok (len joined)), s)
          | (Ok false, s) => pass s (io_poll_write_vectored (inner s) input)
          | (Err e, s) => (Ready (Err e), s)
          | (Panic, s) => (Ready Panic, s)
          end
        else
          let s := mkFragmentStream (inner s) None (pending s) (failed s) in
          pass s (io_poll_write_vectored (inner s) input)
      end
    end).

Definition is_write_vectored (s : FragmentStream) : bool :=
  match config s with Some _ => true | None => io_is_write_vectored (inner s) end.

Definition poll_flush (now : Z) (s : FragmentStream) : outcome unit :=
  and_then (poll_drain now s) (fun s => pass s (io_poll_flush (inner s))).

Definition poll_shutdown (now : Z) (s : FragmentStream) : outcome unit :=
  and_then (poll_drain now s) (fun s => pass s (io_poll_shutdown (inner s))).

Definition release_record_alignment (s : FragmentStream) : FragmentStream :=
  set_pending s (io_release_record_alignment (inner s)) (pending s).

Definition poll_read_direct (now : Z) (s : FragmentStream) (room : Z) : outcome (list byte) :=
  and_then (poll_drain now s) (fun s => pass s (io_poll_read_raw (inner s) room)).

Definition poll_write_direct (now : Z) (s : FragmentStream) (input : list byte) : outcome Z :=
  and_then (poll_drain now s) (fun s => pass s (io_poll_write_raw (inner s) input)).

End Stream.
Arguments FragmentStream T : clear implicits.

(** ** What a plan does *)

(** A TLS record: the three bytes of type and version, the length and the fragment. *)
Definition tls_record (head part : list byte) : list byte := head ++ be_bytes 2 (len part) ++ part.

(** Cuts that lead from [lo] to [hi], and their delays. *)
Fixpoint ascending (lo hi : Z) (cs : list (Z * Z)) : Prop :=
  match cs with
  | [] => lo = hi
  | (e, d) :: cs => lo <= e <= hi /\ 0 <= d /\ ascending e hi cs
  end.

Definition total_delay (cs : list (Z * Z)) : Z := foldr (fun c acc => snd c + acc) 0 cs.

(** The range of the [i]-th draw: the last one counts for all that follow. *)
Definition nth_range (ranges : list range) (i : Z) : option range :=
  ranges !! Z.to_nat (Z.min i (len ranges - 1)).

(** Fragments from the [count]-th on have lengths from their ranges, the last of them possibly
    less; the fragment at the limit takes all that is left. *)
Fixpoint sized (c : TcpFragmentConfig) (limit count : Z) (parts : list (list byte)) : Prop :=
  match parts with
  | [] => True
  | p :: ps =>
    ((0 < limit <= count + 1 /\ ps = []) \/
     exists r, nth_range (lengths c) count = Some r /\ len p <= stop r
       /\ (ps <> [] -> start r <= len p))
    /\ sized c limit (count + 1) ps
  end.

Definition config_ok (c : TcpFragmentConfig) : Prop :=
  TcpFragmentConfig_new (lengths c) (delays_ms c) (max_split c) = Ok c.

#[export] Instance config_ok_dec c : Decision (config_ok c).
Proof.
  unfold config_ok, TcpFragmentConfig_new. destruct (_ || _); [by right|]. left. by destruct c.
Defined.

Lemma ascending_le lo hi cs : ascending lo hi cs -> lo <= hi.
Proof.
  revert lo. induction cs as [|[e d] cs IH]; intros lo; simpl; [lia|]. intros (? & _ & ?%IH). lia.
Qed.

Lemma ascending_app lo mid hi cs cs' :
  ascending lo mid cs -> ascending mid hi cs' -> ascending lo hi (cs ++ cs').
Proof.
  revert lo. induction cs as [|[e d] cs IH]; intros lo; simpl; [by intros ->|].
  intros (He & Hd & Hcs) Hcs'. split_and!; [lia| |done|by apply IH].
  apply ascending_le in Hcs'. lia.
Qed.

Lemma total_delay_app cs cs' : total_delay (cs ++ cs') = total_delay cs + total_delay cs'.
Proof. induction cs as [|[e d] cs IH]; simpl; [done|]. lia. Qed.

Lemma valid_ranges_spec rs lo hi :
  valid_ranges rs lo hi = true ->
  1 <= len rs /\ forall r, r ∈ rs -> start r <= stop r /\ lo <= start r /\ stop r <= hi.
Proof.
  unfold valid_ranges. intros Hv. unbool. split; [lia|]. intros r Hr.
  rewrite forallb_forall in H0. apply list_elem_of_In, H0 in Hr. unfold range_is_empty in Hr. unbool. lia.
Qed.

Record config_facts (c : TcpFragmentConfig) : Prop := {
  cf_lengths : 1 <= len (lengths c);
  cf_length r : r ∈ lengths c -> start r <= stop r /\ 1 <= start r /\ stop r <= MAX_RECORD;
  cf_delays : 1 <= len (delays_ms c);
  cf_delay r : r ∈ delays_ms c -> start r <= stop r /\ 0 <= start r /\ stop r <= 1000;
  cf_split : start (max_split c) <= stop (max_split c) <= Z.of_nat MAX_SPLITS
}.

Lemma config_ok_facts c : config_ok c -> config_facts c.
Proof.
  unfold config_ok, TcpFragmentConfig_new.
  destruct (valid_ranges (lengths c) _ _) eqn:Hl; [|done].
  destruct (valid_ranges (delays_ms c) _ _) eqn:Hd; [|done].
  destruct (range_is_empty (max_split c)) eqn:He; [done|]. cbn [negb orb]. case_if; [done|]. intros _.
  apply valid_ranges_spec in Hl as [? ?]. apply valid_ranges_spec in Hd as [? ?].
  unfold range_is_empty in He. split; try done. unbool. lia.
Qed.

Section PlanProofs.
Context `{RngLaws} (c : TcpFragmentConfig) (Hc : config_facts c).

Lemma draw_spec {E} k r : start r <= stop r ->
  exists z, @draw E _ k r = Ok z /\ start r <= z <= stop r.
Proof.
  intros Hr. unfold draw, range_is_empty. guard_false by lia. eexists. split; [done|].
  by apply gen_range_law.
Qed.

Lemma nth_range_index {E} ranges i : 1 <= len ranges -> 0 <= i ->
  exists r, @index E _ ranges (Z.min i (len ranges - 1)) = Ok r
    /\ nth_range ranges i = Some r /\ r ∈ ranges.
Proof.
  intros Hl Hi. unfold index, nth_range. guard_false by lia.
  destruct (ranges !! _) as [r|] eqn:E'.
  - exists r. split_and!; [done..|]. by eapply list_elem_of_lookup_2.
  - apply lookup_ge_None in E'. unfold len in *. lia.
Qed.

(** What the loop makes of the rest of the record from [offset]. *)
Definition planned (turns : nat) (head record : list byte) (limit : Z) (merged : bool)
    (offset total : Z) (w0 : list byte) (cs0 : list (Z * Z))
    (r : res FragmentError (list byte * list (Z * Z))) : Prop :=
  match r with
  | Panic => False
  | Err e => e = TooManyFragments \/ e = TooMuchDelay
  | Ok (w, cs) =>
    exists parts new,
      concat parts = drop (Z.to_nat offset) record
      /\ Forall (fun p => 1 <= len p <= MAX_RECORD) parts
      /\ (length parts <= turns)%nat
      /\ w = w0 ++ concat (map (tls_record head) parts)
      /\ sized c limit (Z.of_nat (MAX_SPLITS - turns)) parts
      /\ cs = cs0 ++ new
      /\ (if merged then new = []
          else ascending (len w0) (len w) new /\ total + total_delay new <= MAX_TOTAL_DELAY_MS)
  end.

Lemma planned_done turns head record limit merged offset total w0 cs0 :
  len record <= offset -> total <= MAX_TOTAL_DELAY_MS ->
  planned turns head record limit merged offset total w0 cs0 (Ok (w0, cs0)).
Proof.
  intros Ho Hd. exists [], []. rewrite drop_ge by (unfold len in *; lia). cbn [concat map].
  rewrite !app_nil_r. split_and!; try done; [simpl; lia|].
  destruct merged; [done|]. split; [done|]. simpl. lia.
Qed.

(** One fragment more in front. *)
Lemma planned_step turns head record limit merged offset total w0 cs0 end_ delay r :
  (S turns <= MAX_SPLITS)%nat -> 0 <= offset < end_ -> end_ <= len record -> len record <= MAX_RECORD ->
  let count := Z.of_nat (MAX_SPLITS - S turns) in
  let part := take (Z.to_nat (end_ - offset)) (drop (Z.to_nat offset) record) in
  let w1 := w0 ++ tls_record head part in
  (0 < limit <= count + 1 /\ end_ = len record \/
   exists r, nth_range (lengths c) count = Some r /\ end_ - offset <= stop r
     /\ (end_ < len record -> start r <= end_ - offset)) ->
  0 <= delay ->
  planned turns head record limit merged end_ (if merged then total else total + delay) w1
    (if merged then cs0 else cs0 ++ [(len w1, delay)]) r ->
  planned (S turns) head record limit merged offset total w0 cs0 r.
Proof.
  intros Ht Ho He Hm count part w1 Hsize Hd. destruct r as [[w cs]|e|]; [|done..].
  intros (parts & new & Hc1 & Hp & Hl & Hw & Hs & Hcs & Hx).
  assert (len part = end_ - offset) as Hpart
    by (unfold part, len; rewrite length_take, length_drop; unfold len in *; lia).
  exists (part :: parts), (if merged then new else (len w1, delay) :: new). cbn [concat map length].
  split_and!.
  - rewrite Hc1. unfold part. rewrite <- (take_drop (Z.to_nat (end_ - offset)) (drop (Z.to_nat offset) record)) at 2.
    rewrite drop_drop. do 2 f_equal. lia.
  - apply Forall_cons_2; [lia|done].
  - lia.
  - rewrite Hw. unfold w1. by rewrite <- app_assoc.
  - cbn [sized]. replace (Z.of_nat (MAX_SPLITS - S turns) + 1) with (Z.of_nat (MAX_SPLITS - turns)) by lia.
    split; [|done]. assert (parts <> [] -> end_ < len record) as Hnil.
    { intros Hne. destruct (decide (end_ < len record)); [done|]. rewrite drop_ge in Hc1 by (unfold len in *; lia).
      destruct parts as [|p ps]; [done|]. apply list.Forall_cons in Hp as [Hp _].
      cbn [concat] in Hc1. apply app_eq_nil in Hc1 as [-> _]. unfold len in Hp. simpl in Hp. lia. }
    destruct Hsize as [[Hlim Hend]|(r & Hr & H1 & H2)].
    + left. split; [fold count; lia|]. destruct parts; [done|]. exfalso.
      assert (end_ < len record) by by apply Hnil. lia.
    + right. exists r. rewrite Hpart. split_and!; [done..|]. auto.
  - rewrite Hcs. destruct merged; [done|]. by rewrite <- app_assoc.
  - destruct merged; [done|]. destruct Hx as [Ha Hsum]. split; [|simpl; lia].
    cbn [ascending]. pose proof (ascending_le _ _ _ Ha). split_and!; [|done..|done].
    unfold w1 in *. rewrite len_app in *. pose proof (len_nonneg (tls_record head part)). lia.
Qed.

Lemma plan_loop_spec turns head record limit merged k offset total w0 cs0 :
  (turns <= MAX_SPLITS)%nat -> 0 <= offset <= len record -> len record <= MAX_RECORD ->
  total <= MAX_TOTAL_DELAY_MS ->
  planned turns head record limit merged offset total w0 cs0
    (plan_loop c turns head record limit merged k offset total w0 cs0).
Proof.
  revert k offset total w0 cs0. induction turns as [|turns IH]; intros k offset total w0 cs0 Ht Ho Hr Hd;
    cbn [plan_loop]; destruct (Z.ltb_spec offset (len record)) as [Hlt|Hge]; cbn [negb];
    try by apply planned_done.
  { by left. }
  set (count := Z.of_nat (MAX_SPLITS - S turns)).
  destruct (@nth_range_index FragmentError (lengths c) count) as (rl & -> & Hrl & Hin); [apply Hc|lia|].
  cbn [res_bind]. destruct (cf_length _ Hc rl Hin) as (Hrl1 & Hrl2 & Hrl3).
  destruct (@draw_spec FragmentError k rl Hrl1) as (n & -> & Hn). cbn [res_bind].
  set (end_ := if (0 <? limit) && (limit <=? count + 1) then len record else Z.min (offset + n) (len record)).
  assert (offset < end_ <= len record) as He by (unfold end_; case_if; lia).
  assert (0 < limit <= count + 1 /\ end_ = len record \/
   exists r, nth_range (lengths c) count = Some r /\ end_ - offset <= stop r
     /\ (end_ < len record -> start r <= end_ - offset)) as Hsize.
  { unfold end_. case_if; unbool; [left; lia|right]. exists rl. split; [done|]. lia. }
  assert (@slice FragmentError _ record offset end_
          = Ok (take (Z.to_nat (end_ - offset)) (drop (Z.to_nat offset) record))) as ->
    by (unfold slice; by guard_true by lia).
  cbn [res_bind]. set (part := take _ _).
  assert (head ++ be_bytes 2 (end_ - offset) ++ part = tls_record head part) as ->.
  { unfold tls_record. do 3 f_equal. unfold part, len. rewrite length_take, length_drop. unfold len in *. lia. }
  destruct merged.
  - apply planned_step with end_ 0; try done; [lia..|]. apply IH; lia.
  - destruct (@nth_range_index FragmentError (delays_ms c) count) as (rd & -> & Hrd & Hind); [apply Hc|lia|].
    cbn [res_bind]. destruct (cf_delay _ Hc rd Hind) as (Hrd1 & Hrd2 & Hrd3).
    destruct (@draw_spec FragmentError (S k) rd Hrd1) as (d & -> & Hdd). cbn [res_bind].
    case_if; [by right|]. unbool.
    apply planned_step with end_ d; try done; [lia..|]. apply IH; lia.
Qed.

(** The record at the start of a write that a plan may cut: its head, fragment and what follows. *)
Definition hello (input head record rest : list byte) : Prop :=
  input = tls_record head record ++ rest /\ len head = 3 /\ List.head head = Some x16
  /\ 1 <= len record.

(** A plan is for a write that begins with a whole handshake record: it replaces the record by
    smaller ones with the same head, and cuts the bytes into pieces. *)
Definition plan_for (input : list byte) (p : PendingHello) : Prop :=
  exists head record rest parts limit,
    hello input head record rest
    /\ concat parts = record /\ Forall (fun x => 1 <= len x <= MAX_RECORD) parts
    /\ (length parts <= MAX_SPLITS)%nat /\ sized c limit 0 parts
    /\ start (max_split c) <= limit <= stop (max_split c)
    /\ wire p = concat (map (tls_record head) parts) ++ rest
    /\ ascending 0 (len (wire p)) (cuts p) /\ total_delay (cuts p) <= MAX_TOTAL_DELAY_MS
    /\ written p = 0 /\ cut p = 0 /\ sleep p = None.

Lemma plan_merged_or_not (m : bool) (parts_wire : list byte) cs (rest : list byte) :
  (if m then cs = [] else ascending 0 (len parts_wire) cs /\ 0 + total_delay cs <= MAX_TOTAL_DELAY_MS) ->
  let cs1 := if m then cs ++ [(len parts_wire, 0)] else cs in
  ascending 0 (len parts_wire) cs1 /\ total_delay cs1 <= MAX_TOTAL_DELAY_MS
  /\ ascending 0 (len (parts_wire ++ rest)) (cs1 ++ [(len (parts_wire ++ rest), 0)])
  /\ total_delay (cs1 ++ [(len (parts_wire ++ rest), 0)]) <= MAX_TOTAL_DELAY_MS.
Proof.
  intros Hm cs1. assert (ascending 0 (len parts_wire) cs1 /\ total_delay cs1 <= MAX_TOTAL_DELAY_MS) as [Ha Hd].
  { unfold cs1. destruct m; [subst|split; [apply Hm|lia]]. pose proof (len_nonneg parts_wire).
    unfold MAX_TOTAL_DELAY_MS. simpl. lia. }
  split_and!; [done..| |].
  - apply ascending_app with (len parts_wire); [done|]. rewrite len_app. pose proof (len_nonneg rest).
    simpl. lia.
  - rewrite total_delay_app. simpl. lia.
Qed.

Lemma hello_inv b0 b1 b2 b3 b4 tail head record rest :
  b0 :: b1 :: b2 :: b3 :: b4 :: tail = tls_record head record ++ rest -> len head = 3 ->
  len record < 65536 ->
  head = [b0; b1; b2] /\ from_be [b3; b4] = len record /\ tail = record ++ rest.
Proof.
  intros E Hh Hr. destruct head as [|h0 [|h1 [|h2 [|]]]]; try (unfold len in Hh; simpl in Hh; lia).
  unfold tls_record in E. cbn [be_bytes app] in E. injection E as -> -> -> H3 H4 ->.
  split; [done|]. rewrite <- app_assoc || idtac. split; [|done]. rewrite H3, H4.
  change [_; _] with (be_bytes 2 (len record)). rewrite from_be_bytes_small; [done|].
  pose proof (len_nonneg record). simpl. lia.
Qed.

Lemma plan_spec input :
  match plan c input with
  | Ok None => forall head record rest, len record < 65536 -> ~ hello input head record rest
  | Ok (Some p) => plan_for input p
  | Err e => e <> OutsideBounds
      /\ exists head record rest, input = tls_record head record ++ rest
           /\ len head = 3 /\ List.head head = Some x16
  | Panic => False
  end.
Proof.
  unfold plan. case_if; unbool.
  { intros head record rest _ (-> & Hh & _ & Hr). unfold tls_record in *.
    rewrite !len_app, len_be_bytes in Heqb. pose proof (len_nonneg rest). lia. }
  destruct input as [|b0 [|b1 [|b2 [|b3 [|b4 tail]]]]]; try (unfold len in Heqb; simpl in Heqb; lia).
  index_simpl. case_if; unbool.
  { intros head record rest Hr (E & Hh & H16 & _).
    destruct (hello_inv _ _ _ _ _ _ _ _ _ E Hh Hr) as (-> & _). injection H16 as ->. by apply Heqb0. }
  assert (b0 = x16) as -> by by apply u8_inj.
  index_simpl. pose proof (from_be_range [b3; b4]) as HR. set (R := from_be [b3; b4]) in *.
  change (256 ^ len [b3; b4]) with 65536 in HR. rewrite !len_cons in *. case_if; unbool.
  { intros head record rest Hr (E & Hh & _ & _).
    destruct (hello_inv _ _ _ _ _ _ _ _ _ E Hh Hr) as (_ & E2 & ->). fold R in E2.
    rewrite len_app in Heqb1. pose proof (len_nonneg rest). lia. }
  set (record := take (Z.to_nat R) tail). set (rest := drop (Z.to_nat R) tail).
  assert (len record = R) as HlenR by (unfold record, len in *; rewrite length_take; lia).
  assert (x16 :: b1 :: b2 :: b3 :: b4 :: tail = tls_record [x16; b1; b2] record ++ rest) as Ein.
  { unfold tls_record. rewrite HlenR. unfold R. rewrite (be_bytes_from_be [b3; b4] 2) by done.
    cbn [app]. unfold record, rest. by rewrite take_drop. }
  case_if. { split; [done|]. by exists [x16; b1; b2], record, rest. }
  apply orb_false_iff in Heqb2 as [Hmax Hzero]. unbool. rewrite Ein.
  assert (hello (tls_record [x16; b1; b2] record ++ rest) [x16; b1; b2] record rest) as Hhello
    by (split_and!; [done..|lia]).
  rewrite (slice_eq (firstn 5 (tls_record [x16; b1; b2] record)) record rest) by
    (unfold tls_record; cbn [be_bytes app firstn]; rewrite <- ?app_assoc; done || (unfold len in *; simpl; lia)).
  cbn [res_bind].
  destruct (@draw_spec FragmentError 0 (max_split c)) as (limit & -> & Hlim);
    [apply (cf_split _ Hc)|]. cbn [res_bind].
  rewrite (slice_eq [] [x16; b1; b2] (be_bytes 2 (len record) ++ record ++ rest)) by
    (unfold tls_record; cbn [app]; rewrite <- ?app_assoc; done). cbn [res_bind].
  set (merged := match delays_ms c with [d] => stop d =? 0 | _ => false end).
  pose proof (plan_loop_spec MAX_SPLITS [x16; b1; b2] record limit merged 1 0 0 [] []) as Hp.
  specialize (Hp (le_n _) ltac:(lia) ltac:(lia) ltac:(done)).
  destruct (plan_loop _ _ _ _ _ _ _ _ _ _ _) as [[w cs]|e|]; cbn [res_bind planned] in *; [| |done].
  2: { split; [by destruct Hp as [-> | ->]|]. by exists [x16; b1; b2], record, rest. }
  destruct Hp as (parts & new & Hcat & Hparts & Hlen & -> & Hsized & -> & Hcuts).
  rewrite drop_0 in Hcat. cbn [app] in *. rewrite Nat.sub_diag in Hsized.
  destruct (plan_merged_or_not merged _ _ rest Hcuts) as (A1 & D1 & A2 & D2).
  destruct (R + 5 <? _) eqn:Ecase; unbool.
  - rewrite (slice_from_eq (tls_record [x16; b1; b2] record) rest) by
      (done || (unfold tls_record; rewrite !len_app, len_be_bytes; unfold len in *; simpl; lia)).
    cbn [res_bind]. exists [x16; b1; b2], record, rest, parts, limit.
    split_and!; done || apply Hlim.
  - assert (rest = []) as Er by (apply len_zero; unfold rest, len in *; rewrite length_drop; lia).
    exists [x16; b1; b2], record, rest, parts, limit. cbn [wire cuts written cut sleep].
    rewrite Er, app_nil_r in *.
    split_and!; done || apply Hlim || by rewrite app_nil_r.
Qed.

End PlanProofs.

(** ** The stream's bytes *)

Class TransportStreamLaws (T : Type) `{TransportStream T} := {
  stream_io_laws :: AsyncIoLaws T;
  poll_read_raw_law s n : 0 < n -> read_ok s n (io_poll_read_raw s n);
  poll_write_raw_law s bytes : write_ok s bytes (io_poll_write_raw s bytes);
  poll_write_vectored_law s parts : write_ok s (concat parts) (io_poll_write_vectored s parts);
  release_law s : unread (io_release_record_alignment s) = unread s
                  /\ taken (io_release_record_alignment s) = taken s
}.

(** The bytes on the wire, [w], carry the bytes accepted, [acc]: they are the same, or one write
    of [acc] was planned and the rest is the same. *)
Definition fragmented `{Rng} (c : TcpFragmentConfig) (acc w : list byte) : Prop :=
  acc = w \/ exists pre input p rest,
    plan_for c input p /\ acc = pre ++ input ++ rest /\ w = pre ++ wire p ++ rest.

Lemma fragmented_app `{Rng} c acc w x : fragmented c acc w -> fragmented c (acc ++ x) (w ++ x).
Proof.
  intros [-> | (pre & input & p & rest & Hp & -> & ->)]; [by left|right].
  exists pre, input, p, (rest ++ x). by rewrite <- !app_assoc.
Qed.

Lemma join_parts_take input joined :
  len joined < MAX_FIRST_WRITE ->
  join_parts input joined = take (Z.to_nat MAX_FIRST_WRITE) (joined ++ concat input).
Proof.
  revert joined. induction input as [|part rest IH]; intros joined Hj; cbn [join_parts concat].
  { rewrite app_nil_r, take_ge; [done|]. unfold len in Hj. lia. }
  set (n := Z.min _ _). assert (len (take (Z.to_nat n) part) = n) as Hn
    by (unfold n, len in *; rewrite length_take; lia).
  case_if; unbool; rewrite len_app, Hn in Heqb.
  - rewrite app_assoc, (take_app_le (joined ++ part)) by (unfold n, len in *; rewrite length_app; lia).
    rewrite take_app_ge by (unfold len in *; lia). do 2 f_equal. unfold len in *. lia.
  - assert (n = len part) as En by (unfold n in *; lia).
    rewrite (take_ge part) in * by (unfold len in *; lia).
    rewrite IH; [by rewrite <- app_assoc|]. rewrite len_app. unfold n in *. lia.
Qed.

Section StreamProofs.
Context `{RngLaws} {T : Type} `{Ai : AsyncIo T} `{Ts : !TransportStream T}.
Context `{Laws : !TransportStreamLaws T}.

(** What is pending: the cuts that are left lead from what was written to the end. *)
Definition pending_ok (p : PendingHello) : Prop :=
  0 <= written p /\ 0 <= cut p <= len (cuts p)
  /\ ascending (written p) (len (wire p)) (drop (Z.to_nat (cut p)) (cuts p)).

Definition unsent (p : option PendingHello) : list byte :=
  match p with Some p => drop (Z.to_nat (written p)) (wire p) | None => [] end.

(** The bytes taken by the transport and those that are pending for it. *)
Definition out (s : FragmentStream T) : list byte := taken (inner s) ++ unsent (pending s).

Definition drained (s : FragmentStream T) (o : list byte)
    (r : poll (res (FragIoError io_error) unit) * FragmentStream T) : Prop :=
  let s' := snd r in
  config s' = config s /\ unread (inner s') = unread (inner s) /\ out s' = o
  /\ from_option pending_ok True (pending s')
  /\ match fst r with
     | Ready (Ok _) => pending s' = None
     | Ready (Err _) => failed s' = true
     | Ready Panic => False
     | Pending => True
     end.

Lemma drained_mono s s1 o r :
  config s1 = config s -> unread (inner s1) = unread (inner s) -> drained s1 o r -> drained s o r.
Proof. intros E1 E2 (H1 & H2 & H3). split; [congruence|]. split; [congruence|done]. Qed.

(** The piece that is being written. *)
Lemma pending_piece p :
  pending_ok p -> cut p < len (cuts p) ->
  exists e d, @index Empty_set _ (cuts p) (cut p) = Ok (e, d) /\ written p <= e <= len (wire p) /\ 0 <= d
    /\ ascending e (len (wire p)) (drop (Z.to_nat (cut p + 1)) (cuts p))
    /\ drop (Z.to_nat (cut p)) (cuts p) = (e, d) :: drop (Z.to_nat (cut p + 1)) (cuts p).
Proof.
  intros (Hw & Hcut & Ha) Hlt. destruct (@index_some Empty_set _ (cuts p) (cut p)) as [[e d] He]; [lia|].
  exists e, d. split; [done|]. unfold index in He. case_if_in He; [done|].
  destruct (cuts p !! Z.to_nat (cut p)) as [x|] eqn:Ex; [|done]. injection He as ->.
  rewrite (drop_S _ _ _ Ex) in *. cbn [ascending] in Ha.
  replace (Z.to_nat (cut p + 1)) with (S (Z.to_nat (cut p))) by lia. naive_solver.
Qed.

Lemma drain_turns_spec turns now (s : FragmentStream T) p :
  pending_ok p ->
  drained s (taken (inner s) ++ drop (Z.to_nat (written p)) (wire p)) (drain_turns turns now s p).
Proof.
  revert s p. induction turns as [|turns IH]; intros s p Hp; cbn [drain_turns]; [by split_and!|].
  case_if; [by split_and!|]. clear Heqb.
  destruct p as [w cs wr ct sl]. cbn [cut cuts written wire sleep] in *.
  destruct (Z.eqb_spec ct (len cs)) as [Hend|Hmore].
  { destruct Hp as (Hw & Hcut & Ha). cbn in *. rewrite drop_ge in Ha by (unfold len in *; lia). simpl in Ha.
    rewrite (drop_ge w) by (unfold len in *; lia). by split_and!. }
  destruct (pending_piece _ Hp) as (e & d & He & Hwe & Hd & Ha & Hdrop); [destruct Hp; cbn in *; lia|].
  destruct Hp as (Hw & Hcut & Ha0). cbn in He, Hwe, Ha, Hw, Hcut, Ha0, Hdrop. rewrite He.
  assert (pending_ok (next_cut (mkPendingHello w cs e ct None) now d)) as Hnext.
  { unfold pending_ok. cbn. split_and!; [lia..|done]. }
  destruct (Z.ltb_spec wr e) as [Hlt|Hge].
  2: { assert (wr = e) as -> by lia. by apply (IH s (next_cut (mkPendingHello w cs e ct None) now d)). }
  unfold slice. guard_true by lia. set (bytes := take _ _).
  assert (len bytes = e - wr) as Hlen by (unfold bytes, len in *; rewrite length_take, length_drop; lia).
  pose proof (poll_write_law (inner s) bytes) as [Hu Hwl].
  destruct (io_poll_write (inner s) bytes) as [r io]. cbn [fst snd] in *.
  assert (pending_ok (mkPendingHello w cs wr ct None)) as Hsame
    by (unfold pending_ok; cbn; split_and!; [lia..|]; rewrite Hdrop; done).
  destruct r as [[n|er|]|].
  - destruct Hwl as [Hn Htk]. case_if; unbool.
    { subst n. rewrite take_0, app_nil_r in Htk. split_and!; try done. unfold out. cbn. by rewrite Htk. }
    assert (taken io ++ drop (Z.to_nat (wr + n)) w = taken (inner s) ++ drop (Z.to_nat wr) w) as Hout.
    { rewrite Htk, <- app_assoc. f_equal. unfold bytes. rewrite take_take, Nat.min_l by lia.
      rewrite <- (take_drop (Z.to_nat n) (drop (Z.to_nat wr) w)) at 2. rewrite drop_drop. do 2 f_equal. lia. }
    cbn [written]. case_if; unbool.
    + rewrite <- Hout. eapply drained_mono; [| |apply (IH (mkFragmentStream io (config s) _ _))]; [done|done|].
      unfold pending_ok. cbn. rewrite Hdrop. split_and!; [lia..|]. cbn [ascending]. split_and!; [lia..|done].
    + assert (wr + n = e) as En by lia. rewrite En in *. rewrite <- Hout.
      eapply drained_mono; [| |apply (IH (mkFragmentStream io (config s) _ _) (next_cut (mkPendingHello w cs e ct None) now d))]; done.
  - split_and!; try done. unfold out. cbn. by rewrite Hwl.
  - done.
  - split_and!; try done. unfold out. cbn. by rewrite Hwl.
Qed.

(** A stream with what its caller gave it and got from it. *)
Record FragRun := mkFragRun {
  fr_stream : FragmentStream T;
  fr_accepted : list byte;
  fr_delivered : list byte
}.

(** The bytes a poll delivered, or took of its input. *)
Definition got (r : poll (res (FragIoError io_error) (list byte))) : list byte :=
  match r with Ready (Ok bs) => bs | _ => [] end.
Definition took (input : list byte) (r : poll (res (FragIoError io_error) Z)) : list byte :=
  match r with Ready (Ok n) => take (Z.to_nat n) input | _ => [] end.

(** One poll of the stream, at any time. *)
Inductive frag_step : FragRun -> FragRun -> Prop :=
| fs_read s acc del now room r s' :
    0 <= room -> poll_read now s room = (r, s') ->
    frag_step (mkFragRun s acc del) (mkFragRun s' acc (del ++ got r))
| fs_read_direct s acc del now room r s' :
    0 < room -> poll_read_direct now s room = (r, s') ->
    frag_step (mkFragRun s acc del) (mkFragRun s' acc (del ++ got r))
| fs_write s acc del now input r s' :
    poll_write now s input = (r, s') ->
    frag_step (mkFragRun s acc del) (mkFragRun s' (acc ++ took input r) del)
| fs_write_direct s acc del now input r s' :
    poll_write_direct now s input = (r, s') ->
    frag_step (mkFragRun s acc del) (mkFragRun s' (acc ++ took input r) del)
| fs_write_vectored s acc del now parts r s' :
    poll_write_vectored now s parts = (r, s') ->
    frag_step (mkFragRun s acc del) (mkFragRun s' (acc ++ took (concat parts) r) del)
| fs_flush s acc del now r s' :
    poll_flush now s = (r, s') -> frag_step (mkFragRun s acc del) (mkFragRun s' acc del)
| fs_shutdown s acc del now r s' :
    poll_shutdown now s = (r, s') -> frag_step (mkFragRun s acc del) (mkFragRun s' acc del)
| fs_release s acc del :
    frag_step (mkFragRun s acc del) (mkFragRun (release_record_alignment s) acc del).

Context (c : TcpFragmentConfig) (base incoming : list byte).

(** What holds between polls: the transport's bytes and the pending ones carry what was
    accepted, and what was delivered was read from the transport. *)
Definition frag_ok (s : FragmentStream T) (acc del : list byte) : Prop :=
  (exists w, out s = base ++ w /\ fragmented c acc w
     /\ (config s = None \/ config s = Some c /\ acc = w /\ pending s = None))
  /\ from_option pending_ok True (pending s)
  /\ incoming = del ++ unread (inner s).

Lemma poll_drain_spec now s :
  from_option pending_ok True (pending s) -> drained s (out s) (poll_drain now s).
Proof.
  intros Hp. unfold poll_drain. destruct (failed s) eqn:Hf; [by split_and!|].
  unfold out. destruct (pending s) as [p|] eqn:Ep; [by apply drain_turns_spec|].
  unfold drained, out. cbn. rewrite Ep. by split_and!.
Qed.

Lemma poll_drain_none now s : pending s = None -> snd (poll_drain now s) = s.
Proof. intros Hp. unfold poll_drain. rewrite Hp. by destruct (failed s). Qed.

(** A poll whose result delivers [get] and takes [put]. *)
Definition poll_ok {A} (get put : A -> list byte) (acc del : list byte)
    (p : poll (res (FragIoError io_error) A) * FragmentStream T) : Prop :=
  fst p <> Ready Panic
  /\ frag_ok (snd p) (acc ++ match fst p with Ready (Ok a) => put a | _ => [] end)
                     (del ++ match fst p with Ready (Ok a) => get a | _ => [] end).

(** Draining first does not change what is carried. *)
Lemma and_then_ok {A} (get put : A -> list byte) now s acc del k :
  frag_ok s acc del ->
  (forall s1, frag_ok s1 acc del -> pending s1 = None -> poll_ok get put acc del (k s1)) ->
  poll_ok get put acc del (and_then (poll_drain now s) k).
Proof.
  intros ((w & Hout & Hfr & Hcfg) & Hp & Hin) Hk.
  pose proof (poll_drain_spec now s Hp) as (E1 & E2 & E3 & Hp' & Hr).
  pose proof (poll_drain_none now s) as Hnone.
  unfold and_then. destruct (poll_drain now s) as [r s1]. cbn [fst snd] in *.
  assert (frag_ok s1 acc del) as Hok1.
  { split_and!; [|done|congruence]. exists w. split_and!; [congruence|done|].
    destruct Hcfg as [Hc|(Hc & -> & Hn)]; [left; congruence|]. right. rewrite Hnone by done. done. }
  destruct r as [[[]|e|]|]; [by apply Hk|..|done|]; split; cbn [fst snd]; rewrite ?app_nil_r; done.
Qed.

Lemma pass_read_ok s acc del room p :
  frag_ok s acc del -> read_ok (inner s) room p ->
  poll_ok id (fun _ => []) acc del (pass s p).
Proof.
  intros ((w & Hout & Hfr & Hcfg) & Hp & Hin) [Ht Hr]. destruct p as [r io]. cbn [fst snd] in *.
  assert (forall del', incoming = del' ++ unread io -> frag_ok (set_pending s io (pending s)) acc del') as Hk.
  { intros del' Hd. split_and!; [|done|done]. exists w. unfold out in *. cbn. by rewrite Ht. }
  unfold poll_ok, pass. cbn [fst snd]. destruct r as [[bs|e|]|]; cbn [res_map_err]; rewrite ?app_nil_r.
  - split; [done|]. apply Hk. destruct Hr as (Hr & _). by rewrite Hin, Hr, <- app_assoc.
  - split; [done|]. apply Hk. by rewrite Hr.
  - done.
  - split; [done|]. apply Hk. by rewrite Hr.
Qed.

Lemma pass_write_ok s acc del bytes p :
  frag_ok s acc del -> pending s = None -> write_ok (inner s) bytes p ->
  poll_ok (fun _ => []) (fun n => take (Z.to_nat n) bytes) acc del (pass s p).
Proof.
  intros ((w & Hout & Hfr & Hcfg) & Hp & Hin) Hn [Hu Hw]. destruct p as [r io]. cbn [fst snd] in *.
  assert (forall x, taken io = taken (inner s) ++ x ->
    frag_ok (set_pending s io (pending s)) (acc ++ x) del) as Hk.
  { intros x Hx. split_and!; [|done|cbn; congruence]. exists (w ++ x). unfold out in *. rewrite Hn in *. cbn.
    rewrite !app_nil_r in *. split_and!; [by rewrite Hx, Hout, <- app_assoc|by apply fragmented_app|].
    destruct Hcfg as [?|(? & -> & ?)]; [by left|by right]. }
  unfold poll_ok, pass. cbn [fst snd]. destruct r as [[n|e|]|]; cbn [res_map_err]; rewrite (app_nil_r del).
  - split; [done|]. apply Hk, Hw.
  - split; [done|]. apply Hk. by rewrite app_nil_r.
  - done.
  - split; [done|]. apply Hk. by rewrite app_nil_r.
Qed.

Lemma pass_idle_ok s acc del p :
  frag_ok s acc del -> idle_ok (inner s) p ->
  poll_ok (fun _ => []) (fun _ : unit => []) acc del (pass s p).
Proof.
  intros ((w & Hout & Hfr & Hcfg) & Hp & Hin) (Hu & Ht & Hn). destruct p as [r io]. cbn [fst snd] in *.
  assert (frag_ok (set_pending s io (pending s)) acc del) as Hk.
  { split_and!; [|done|cbn; congruence]. exists w. unfold out in *. cbn. by rewrite Ht. }
  unfold poll_ok, pass. cbn [fst snd]. destruct r as [[[]|e|]|]; cbn [res_map_err]; rewrite ?app_nil_r; done.
Qed.

Context (Hc : config_ok c).

(** Staging a write: planned bytes are pending, others are not taken, and neither panics. *)
Lemma stage_spec s acc del input :
  frag_ok s acc del -> pending s = None ->
  match stage s input with
  | (Ok true, s') => frag_ok s' (acc ++ input) del
  | (Ok false, s') => frag_ok s' acc del /\ pending s' = None
  | (Err _, s') => frag_ok s' acc del
  | (Panic, _) => False
  end.
Proof.
  intros ((w & Hout & Hfr & Hcfg) & Hp & Hin) Hn. unfold stage.
  destruct (config s) as [c'|] eqn:Ec.
  2: { split; [|done]. split_and!; [|done|done]. exists w. rewrite Ec. by split_and!; [| |left]. }
  destruct Hcfg as [|(Hc' & -> & _)]; [done|]. injection Hc' as ->.
  assert (forall b, frag_ok (mkFragmentStream (inner s) None (pending s) b) w del) as Hsame.
  { intros b. split_and!; [|by rewrite Hn|done]. exists w. split_and!; [|by left|by left].
    unfold out in *. cbn. by rewrite Hn in *. }
  pose proof (plan_spec c (config_ok_facts _ Hc) input) as Hplan.
  destruct (plan c input) as [[p|]|e|]; [|by split|apply Hsame|done].
  pose proof Hplan as (_ & _ & _ & _ & _ & _ & _ & _ & _ & _ & _ & _ & Ha & _ & Hw0 & Hc0 & _).
  unfold set_pending. split_and!; [|cbn|done].
  - exists (w ++ wire p). split_and!; [| |by left].
    + unfold out in *. cbn. rewrite Hn, Hw0 in *. cbn in *. by rewrite app_nil_r in Hout; rewrite Hout, <- app_assoc.
    + right. exists w, input, p, []. by rewrite !app_nil_r.
  - unfold pending_ok. rewrite Hw0, Hc0. pose proof (len_nonneg (cuts p)). split_and!; [lia..|done].
Qed.

Lemma poll_read_ok now s acc del room :
  0 <= room -> frag_ok s acc del -> poll_ok id (fun _ => []) acc del (poll_read now s room).
Proof.
  intros Hr Hok. unfold poll_read. case_if; unbool.
  { split; [done|]. cbn. by rewrite !app_nil_r. }
  apply and_then_ok; [done|]. intros s1 H1 _. apply (pass_read_ok _ _ _ room); [done|].
  apply poll_read_law. lia.
Qed.

Lemma poll_read_direct_ok now s acc del room :
  0 < room -> frag_ok s acc del -> poll_ok id (fun _ => []) acc del (poll_read_direct now s room).
Proof.
  intros Hr Hok. apply and_then_ok; [done|]. intros s1 H1 _. apply (pass_read_ok _ _ _ room); [done|].
  by apply poll_read_raw_law.
Qed.

Lemma poll_write_ok now s acc del input :
  frag_ok s acc del ->
  poll_ok (fun _ => []) (fun n => take (Z.to_nat n) input) acc del (poll_write now s input).
Proof.
  intros Hok. apply and_then_ok; [done|]. intros s1 H1 Hn. case_bool_decide.
  { split; [done|]. cbn. by rewrite take_0, !app_nil_r. }
  set (a := Z.min _ _). cbv zeta. pose proof (stage_spec s1 acc del (take (Z.to_nat a) input) H1 Hn) as Hs.
  destruct (stage s1 _) as [[[]|e|] s2].
  - split; [done|]. cbn. by rewrite app_nil_r.
  - destruct Hs as [Hs2 Hn2]. apply pass_write_ok; [done..|]. apply poll_write_law.
  - split; [done|]. cbn. by rewrite !app_nil_r.
  - done.
Qed.

Lemma poll_write_direct_ok now s acc del input :
  frag_ok s acc del ->
  poll_ok (fun _ => []) (fun n => take (Z.to_nat n) input) acc del (poll_write_direct now s input).
Proof.
  intros Hok. apply and_then_ok; [done|]. intros s1 H1 Hn. apply pass_write_ok; [done..|].
  apply poll_write_raw_law.
Qed.

Lemma poll_write_vectored_ok now s acc del parts :
  frag_ok s acc del ->
  poll_ok (fun _ => []) (fun n => take (Z.to_nat n) (concat parts)) acc del
    (poll_write_vectored now s parts).
Proof.
  intros Hok. apply and_then_ok; [done|]. intros s1 H1 Hn.
  assert (forall s2, frag_ok s2 acc del -> pending s2 = None ->
    poll_ok (fun _ => []) (fun n => take (Z.to_nat n) (concat parts)) acc del
      (pass s2 (io_poll_write_vectored (inner s2) parts))) as Hpass.
  { intros s2 H2 Hn2. apply pass_write_ok; [done..|]. apply poll_write_vectored_law. }
  destruct (config s1) as [c'|] eqn:Ec; [|by apply Hpass].
  destruct (List.find _ parts) as [first|]; [|split; [done|]; cbn; by rewrite take_0, !app_nil_r].
  case_bool_decide.
  - cbv zeta. pose proof (stage_spec s1 acc del (join_parts parts []) H1 Hn) as Hs.
    destruct (stage s1 _) as [[[]|e|] s2].
    + split; [done|]. cbn. rewrite app_nil_r. rewrite join_parts_take in * by done. cbn [app] in *.
      unfold len. rewrite Nat2Z.id, length_take. replace (take (_ `min` _) _) with
        (take (Z.to_nat MAX_FIRST_WRITE) (concat parts)); [done|].
      rewrite <- (firstn_all (concat parts)) at 1. by rewrite take_take.
    + destruct Hs. by apply Hpass.
    + split; [done|]. cbn. by rewrite !app_nil_r.
    + done.
  - apply Hpass; [|done]. destruct H1 as ((w & Hout & Hfr & _) & Hp & Hin). split_and!; [|done|done].
    exists w. split_and!; [done..|by left].
Qed.

Lemma poll_idle_ok now s acc del (poll_inner : T -> poll (res io_error unit) * T) :
  (forall io, idle_ok io (poll_inner io)) -> frag_ok s acc del ->
  poll_ok (fun _ => []) (fun _ => []) acc del
    (and_then (poll_drain now s) (fun s => pass s (poll_inner (inner s)))).
Proof. intros Hi Hok. apply and_then_ok; [done|]. intros s1 H1 _. by apply pass_idle_ok. Qed.

Lemma frag_step_ok x x' :
  frag_ok (fr_stream x) (fr_accepted x) (fr_delivered x) -> frag_step x x' ->
  frag_ok (fr_stream x') (fr_accepted x') (fr_delivered x').
Proof.
  intros Hok Hst. destruct Hst; cbn [fr_stream fr_accepted fr_delivered] in *.
  - pose proof (poll_read_ok now s acc del room ltac:(done) Hok) as [_ Hp]. rewrite H2 in Hp. cbn in Hp.
    destruct r as [[]|]; cbn in *; by rewrite ?app_nil_r in *.
  - pose proof (poll_read_direct_ok now s acc del room ltac:(done) Hok) as [_ Hp]. rewrite H2 in Hp. cbn in Hp.
    destruct r as [[]|]; cbn in *; by rewrite ?app_nil_r in *.
  - pose proof (poll_write_ok now s acc del input Hok) as [_ Hp]. rewrite H1 in Hp. cbn in Hp.
    destruct r as [[]|]; cbn in *; by rewrite ?app_nil_r in *.
  - pose proof (poll_write_direct_ok now s acc del input Hok) as [_ Hp]. rewrite H1 in Hp. cbn in Hp.
    destruct r as [[]|]; cbn in *; by rewrite ?app_nil_r in *.
  - pose proof (poll_write_vectored_ok now s acc del parts Hok) as [_ Hp]. rewrite H1 in Hp. cbn in Hp.
    destruct r as [[]|]; cbn in *; by rewrite ?app_nil_r in *.
  - pose proof (poll_idle_ok now s acc del io_poll_flush poll_flush_law Hok) as [_ Hp].
    unfold poll_flush in H1. rewrite H1 in Hp. cbn in Hp. by destruct r as [[]|]; rewrite !app_nil_r in Hp.
  - pose proof (poll_idle_ok now s acc del io_poll_shutdown poll_shutdown_law Hok) as [_ Hp].
    unfold poll_shutdown in H1. rewrite H1 in Hp. cbn in Hp. by destruct r as [[]|]; rewrite !app_nil_r in Hp.
  - destruct Hok as ((w & Hout & Hfr & Hcfg) & Hp & Hin). destruct (release_law (inner s)) as [Hu Ht].
    split_and!; [|done|cbn; congruence]. exists w. unfold out in *. cbn. by rewrite Ht.
Qed.

(** A flush that completes leaves nothing pending, and the wire as it was. *)
Lemma poll_flush_sent now s r s' :
  from_option pending_ok True (pending s) -> poll_flush now s = (r, s') -> r = Ready (Ok tt) ->
  taken (inner s') = out s.
Proof.
  intros Hp Hf ->. unfold poll_flush, and_then in Hf.
  pose proof (poll_drain_spec now s Hp) as (_ & _ & Ho & _ & Hr).
  destruct (poll_drain now s) as [[[[]|e|]|] s1]; cbn [fst snd] in *; try done.
  destruct (poll_flush_law (inner s1)) as (_ & Ht & _). unfold pass in Hf.
  destruct (io_poll_flush (inner s1)) as [r io]. cbn [fst snd] in *. injection Hf as _ <-.
  cbn. rewrite Ht, <- Ho. unfold out. by rewrite Hr, app_nil_r.
Qed.

Lemma frag_run_ok x x' :
  frag_ok (fr_stream x) (fr_accepted x) (fr_delivered x) -> rtc frag_step x x' ->
  frag_ok (fr_stream x') (fr_accepted x') (fr_delivered x').
Proof. intros Hok Hr. induction Hr as [|x y z Hs _ IH]; [done|]. by apply IH, frag_step_ok with x. Qed.

End StreamProofs.

(** ** Properties *)

(** What a plan is. A write that begins with a whole handshake record of up to 16384 bytes is
    either replaced by records with the same head whose fragments join to the record's, at most
    4096 of them, with lengths from the configured ranges and delays of at most ten seconds, and
    then the rest of the write; or refused when it needs more fragments or delays than that. Other
    writes are left alone, and no write makes the planning panic. *)
Theorem fragment_plan `{RngLaws} c input :
  config_ok c ->
  match plan c input with
  | Ok (Some p) => plan_for c input p
  | Ok None => forall head record rest, len record < 65536 -> ~ hello input head record rest
  | Err e =>
    (e = RecordTooLarge \/ e = TooManyFragments \/ e = TooMuchDelay)
    /\ exists head record rest,
         input = tls_record head record ++ rest /\ len head = 3 /\ List.head head = Some x16
  | Panic => False
  end.
Proof.
  intros Hc. pose proof (plan_spec c (config_ok_facts _ Hc) input) as Hp.
  destruct (plan c input) as [[p|]|e|]; [done..| |done].
  destruct Hp as [He Hp]. split; [|done]. by destruct e; auto.
Qed.

(** C31: The stream changes record boundaries and nothing else. After any polls at any times over any
    transport, the bytes on the wire and those still pending are the bytes accepted, but for one
    handshake record cut into several; what was delivered is what the transport delivered; no poll
    panics; and when a flush completes all of it is on the wire. *)
Theorem fragment_stream_faithful `{RngLaws} {T} `{Ai : AsyncIo T} `{Ts : !TransportStream T}
    `{!TransportStreamLaws T} c (io : T) x :
  config_ok c -> rtc frag_step (mkFragRun (FragmentStream_new io c) [] []) x ->
  exists w,
    taken (inner (fr_stream x)) ++ unsent (pending (fr_stream x)) = taken io ++ w
    /\ (fr_accepted x = w \/
        exists pre head record rest parts,
          fr_accepted x = pre ++ tls_record head record ++ rest /\ concat parts = record
          /\ Forall (fun p => 1 <= len p <= MAX_RECORD) parts
          /\ w = pre ++ concat (map (tls_record head) parts) ++ rest)
    /\ unread io = fr_delivered x ++ unread (inner (fr_stream x))
    /\ (forall now input, fst (poll_write now (fr_stream x) input) <> Ready Panic)
    /\ (forall now room, 0 <= room -> fst (poll_read now (fr_stream x) room) <> Ready Panic)
    /\ forall now r s', poll_flush now (fr_stream x) = (r, s') ->
         r <> Ready Panic /\ (r = Ready (Ok tt) -> taken (inner s') = taken io ++ w).
Proof.
  intros Hc Hr.
  assert (frag_ok c (taken io) (unread io) (fr_stream x) (fr_accepted x) (fr_delivered x)) as Hok.
  { eapply frag_run_ok; [done| |done]. split_and!; [|done..]. exists []. split_and!; [done|by left|by right]. }
  pose proof Hok as ((w & Hw & Hfr & _) & Hp & Hin). exists w. split_and!; [done| |done|..].
  - destruct Hfr as [?|(pre & input & p & rest & Hplan & Ha & ->)]; [by left|right].
    destruct Hplan as (head & record & rest' & parts & limit & (-> & _) & Hcat & Hf & _ & _ & _ & -> & _).
    exists pre, head, record, (rest' ++ rest), parts. rewrite Ha. by rewrite <- !app_assoc.
  - intros now input. apply (poll_write_ok c _ _ Hc now _ _ _ input Hok).
  - intros now room Hroom. apply (poll_read_ok c _ _ now _ _ _ room Hroom Hok).
  - intros now r s' Hf. split.
    + pose proof (poll_idle_ok c (taken io) (unread io) now (fr_stream x) _ _ io_poll_flush
        poll_flush_law Hok) as [Hn _]. unfold poll_flush in Hf. by rewrite Hf in Hn.
    + intros Er. by rewrite (poll_flush_sent now (fr_stream x) r s').
Qed.

(** ** Examples *)

#[local] Instance sample_rng : Rng := {| gen_range _ lo _ := lo |}.
#[local] Instance sample_rng_laws : RngLaws.
Proof. split. intros. cbn. lia. Qed.

(** A vectored write of [tokio]'s default: the first slice that is not empty. *)
Definition script_write_vectored (s : Script) (parts : list (list byte)) : poll (res Empty_set Z) * Script :=
  script_write s (default [] (List.find (fun p => negb (bool_decide (p = []))) parts)).

#[local] Instance Script_stream : TransportStream Script := {
  io_poll_read_raw := script_read;
  io_poll_write_raw := script_write;
  io_poll_write_vectored := script_write_vectored;
  io_is_write_vectored _ := false;
  io_release_record_alignment s := s
}.

Lemma find_prefix (parts : list (list byte)) :
  exists rest, concat parts = default [] (List.find (fun p => negb (bool_decide (p = []))) parts) ++ rest.
Proof.
  induction parts as [|p ps [rest IH]]; [by exists []|]. cbn [List.find concat].
  case_bool_decide; cbn [negb]; [subst; by exists rest|by exists (concat ps)].
Qed.

#[local] Instance Script_stream_laws : TransportStreamLaws Script.
Proof.
  constructor; [apply _|intros; by apply script_read_law|intros; apply script_write_law| |by split].
  intros s parts. destruct (find_prefix parts) as [rest E].
  unfold io_poll_write_vectored, Script_stream, script_write_vectored.
  revert E. generalize (default [] (List.find (fun p => negb (bool_decide (p = []))) parts)). intros first E.
  rewrite E. pose proof (script_write_law s first) as [Hu Hw]. split; [done|].
  destruct (script_write s first) as [[[n|e|]|] s']; cbn [fst snd] in *; try done.
  destruct Hw as [Hn Ht]. rewrite len_app. pose proof (len_nonneg rest). split; [lia|].
  rewrite Ht. f_equal. symmetry. apply take_app_le. unfold len in *. lia.
Qed.

(** Fragments of two bytes, the second delayed by one millisecond. *)
Definition sample_config : TcpFragmentConfig :=
  mkTcpFragmentConfig [mkRange 2 3] [mkRange 1 5] (mkRange 0 0).

Definition sample_hello : list byte := [x16; x03; x01; x00; x03; x61; x62; x63; x64].

Lemma fragment_plan_witness :
  exists p, plan sample_config sample_hello = Ok (Some p)
    /\ wire p = [x16; x03; x01; x00; x02; x61; x62; x16; x03; x01; x00; x01; x63; x64]
    /\ plan_for sample_config sample_hello p.
Proof.
  eexists. split; [vm_compute; reflexivity|]. split; [reflexivity|].
  exact (fragment_plan sample_config sample_hello ltac:(by_decision)).
Defined.

Definition sample_io : Script := mkScript [[x7a]] [3%nat] [].
Definition frag_run0 : FragRun := mkFragRun (FragmentStream_new sample_io sample_config) [] [].
Definition frag_run1 : FragRun :=
  let '(r, s) := poll_write 0 (fr_stream frag_run0) sample_hello in mkFragRun s (took sample_hello r) [].
Definition frag_run2 : FragRun :=
  let '(r, s) := poll_flush 0 (fr_stream frag_run1) in mkFragRun s (fr_accepted frag_run1) [].
Definition frag_run3 : FragRun :=
  let '(r, s) := poll_flush 1 (fr_stream frag_run2) in mkFragRun s (fr_accepted frag_run1) [].
Definition frag_run4 : FragRun :=
  let '(r, s) := poll_read 2 (fr_stream frag_run3) 10 in mkFragRun s (fr_accepted frag_run1) (got r).

Lemma frag_steps : rtc frag_step frag_run0 frag_run4.
Proof.
  eapply rtc_l. { eapply (fs_write _ [] [] 0 sample_hello). vm_compute. reflexivity. }
  eapply rtc_l. { eapply (fs_flush _ _ _ 0). vm_compute. reflexivity. }
  eapply rtc_l. { eapply (fs_flush _ _ _ 1). vm_compute. reflexivity. }
  eapply rtc_l. { eapply (fs_read _ _ _ 2 10); [lia|]. vm_compute. reflexivity. }
  vm_compute. apply rtc_refl.
Qed.

Lemma fragment_stream_faithful_witness :
  fr_accepted frag_run4 = sample_hello /\ fr_delivered frag_run4 = [x7a]
  /\ exists w, taken_out (inner (fr_stream frag_run4)) ++ unsent (pending (fr_stream frag_run4)) = w
  /\ w = [x16; x03; x01; x00; x02; x61; x62; x16; x03; x01; x00; x01; x63; x64].
Proof.
  split; [vm_compute; reflexivity|]. split; [vm_compute; reflexivity|].
  destruct (fragment_stream_faithful sample_config sample_io frag_run4 ltac:(by_decision) frag_steps)
    as (w & Hw & _).
  exists w. split; [exact Hw|]. change w with (taken sample_io ++ w). rewrite <- Hw. vm_compute. reflexivity.
Defined.
