(* ===== verification/Trojan.v ===== *)
(** Trojan: the wire module [crates/xray-proxy/src/trojan/mod.rs] and the UDP session over a stream
    of [crates/xray-core-rs/src/outbound/trojan.rs]. SHA-224 is the class [Sha224]; the stream
    below a session is any [AsyncIo]. *)
From Stdlib Require Import Strings.Byte.
From S2P Require Import Prelude Net Transport Framing.

Definition MAX_PASSWORD_LENGTH : Z := 4096.
Definition MAX_UDP_PAYLOAD_LENGTH : Z := 8192.
Definition MAX_DOMAIN_LENGTH : Z := 255.
Definition MAX_UDP_FRAME_LENGTH : Z := 1 + 1 + MAX_DOMAIN_LENGTH + 2 + 2 + 2 + MAX_UDP_PAYLOAD_LENGTH.

Inductive WireError :=
| PasswordLength
| DomainError
| PortError
| NetworkError
| Incomplete
| AddressType
| Delimiter
| PayloadLength.

#[export] Instance WireError_eq_dec : EqDecision WireError.
Proof. solve_decision. Defined.

(** [Sha224::digest] of the [sha2] crate, and the size of its digests. *)
Class Sha224 := { sha224 : list byte -> list byte }.
Class Sha224Laws `{Sha224} : Prop := { sha224_len b : len (sha224 b) = 28 }.

(** [b"\r\n"] *)
Definition CRLF : list byte := [x0d; x0a].

(** ** Requests *)

Definition HEX : list byte := str_of "0123456789abcdef".

Record TrojanAuth := mkTrojanAuth { token : list byte }.

(** The loop of [TrojanAuth::new] over the digest. *)
Fixpoint hex_digits (digest : list byte) : total (list byte) :=
  match digest with
  | [] => Ok []
  | b :: rest =>
    let? hi := index HEX (Z.shiftr (u8 b) 4) in
    let? lo := index HEX (Z.land (u8 b) 15) in
    let? rest := hex_digits rest in
    Ok (hi :: lo :: rest)
  end.

Definition lift {E A} (m : total A) : res E A :=
  match m with Ok a => Ok a | Err e => match e : Empty_set with end | Panic => Panic end.

Definition TrojanAuth_new `{Sha224} (password : str) : res WireError TrojanAuth :=
  if bool_decide (password = []) || (MAX_PASSWORD_LENGTH <? len password) then Err PasswordLength
  else let? t := lift (hex_digits (sha224 password)) in Ok (mkTrojanAuth t).

Definition validate_domain (domain : str) : res WireError unit :=
  if bool_decide (domain = []) || (MAX_DOMAIN_LENGTH <? len domain)
     || existsb (fun c => is_whitespace c || is_control c) (chars domain)
  then Err DomainError else Ok tt.

Definition validate_target (t : Target) : res WireError Z :=
  if port t =? 0 then Err PortError
  else match addr t with
       | Ip (V4 _) => Ok 7
       | Ip (V6 _) => Ok 19
       | Domain domain => let? _ := validate_domain domain in Ok (1 + 1 + len domain + 2)
       end.

Definition encode_address (t : Target) : list byte :=
  match addr t with
  | Ip (V4 ip) => x01 :: octets4 ip
  | Ip (V6 ip) => x04 :: octets6 ip
  | Domain domain => [x03; to_u8 (len domain)] ++ domain
  end ++ be_bytes 2 (port t).

Definition encode_request_header (auth : TrojanAuth) (t : Target) : res WireError (list byte) :=
  let? _ := validate_target t in
  Ok (token auth ++ CRLF ++ [match network t with Tcp => x01 | Udp => x03 end]
      ++ encode_address t ++ CRLF).

(** ** UDP packets *)

Record UdpPacket := mkUdpPacket { target : Target; payload : list byte }.

Definition encode_udp_packet (packet : UdpPacket) : res WireError (list byte) :=
  if negb (bool_decide (network (target packet) = Udp)) then Err NetworkError
  else
    let? _ := validate_target (target packet) in
    if MAX_UDP_PAYLOAD_LENGTH <? len (payload packet) then Err PayloadLength
    else Ok (encode_address (target packet) ++ be_bytes 2 (len (payload packet)) ++ CRLF
             ++ payload packet).

(** [Reader]: the bytes from [offset] on. *)
Record Reader := mkReader { rest_of : list byte; offset : Z }.

Definition reader_take (length : Z) (r : Reader) : res WireError (list byte * Reader) :=
  match get_range (rest_of r) 0 length with
  | None => Err Incomplete
  | Some bytes => Ok (bytes, mkReader (drop (Z.to_nat length) (rest_of r)) (offset r + length))
  end.

Definition reader_u16 (r : Reader) : res WireError (Z * Reader) :=
  let? (bytes, r) := reader_take 2 r in
  let? b0 := index bytes 0 in
  let? b1 := index bytes 1 in
  Ok (from_be [b0; b1], r).

(** The address of [decode_udp_packet], by its type. *)
Definition decode_address (address_type : byte) (r : Reader) : res WireError (TargetAddr * Reader) :=
  if bool_decide (address_type = x01) then
    let? (bytes, r) := reader_take 4 r in Ok (Ip (V4 (from_be bytes)), r)
  else if bool_decide (address_type = x04) then
    let? (bytes, r) := reader_take 16 r in Ok (Ip (V6 (from_be bytes)), r)
  else if bool_decide (address_type = x03) then
    let? (l, r) := reader_take 1 r in
    let? l := index l 0 in
    let? (bytes, r) := reader_take (u8 l) r in
    let? domain := ok_or (from_utf8 bytes) DomainError in
    let? _ := validate_domain domain in
    Ok (Domain domain, r)
  else Err AddressType.

(** The body of [decode_udp_packet] with its reader. *)
Definition decode_packet (r : Reader) : res WireError (UdpPacket * Reader) :=
  let? (t, r) := reader_take 1 r in
  let? address_type := index t 0 in
  let? (addr, r) := decode_address address_type r in
  let? (port, r) := reader_u16 r in
  if port =? 0 then Err PortError
  else
    let? (length, r) := reader_u16 r in
    if MAX_UDP_PAYLOAD_LENGTH <? length then Err PayloadLength
    else
      let? (delimiter, r) := reader_take 2 r in
      if negb (bool_decide (delimiter = CRLF)) then Err Delimiter
      else
        let? (payload, r) := reader_take length r in
        Ok (mkUdpPacket (mkTarget addr port Udp) payload, r).

Definition decode_udp_packet (input : list byte) : res WireError (UdpPacket * Z) :=
  let? (packet, r) := decode_packet (mkReader input 0) in Ok (packet, offset r).

(** ** The session over a stream *)

Inductive SessionError (E : Type) :=
| SessionWire (e : WireError)
| WriterClosed
| WriteZero
| ReaderClosed
| StreamClosed
| SessionIo (e : E).
Arguments SessionWire {E} e.
Arguments WriterClosed {E}.
Arguments WriteZero {E}.
Arguments ReaderClosed {E}.
Arguments StreamClosed {E}.
Arguments SessionIo {E} e.

Section Session.
Context {T : Type} `{Ai : AsyncIo T}.

(** A [send] that has taken the writer: what is left of its frame. *)
Inductive Sending := Writing (todo : list byte) | Flushing.

(** [NativeUdpSession]: the two halves of one stream. [writer] is whether the writer is in its
    place. *)
Record NativeUdpSession := mkNativeUdpSession {
  stream : T;
  writer : bool;
  pending : list byte;
  closed : bool
}.

Definition NativeUdpSession_new (io : T) : NativeUdpSession := mkNativeUdpSession io true [] false.

Definition set_stream (s : NativeUdpSession) (io : T) : NativeUdpSession :=
  mkNativeUdpSession io (writer s) (pending s) (closed s).
Definition set_writer (s : NativeUdpSession) (w : bool) : NativeUdpSession :=
  mkNativeUdpSession (stream s) w (pending s) (closed s).
Definition set_reader (s : NativeUdpSession) (io : T) (p : list byte) (c : bool) : NativeUdpSession :=
  mkNativeUdpSession io (writer s) p c.

(** [send] up to its first await. *)
Definition send_start (s : NativeUdpSession) (t : Target) (bytes : list byte)
    : res (SessionError io_error) Sending * NativeUdpSession :=
  match encode_udp_packet (mkUdpPacket t bytes) with
  | Ok frame => if writer s then (Ok (Writing frame), set_writer s false) else (Err WriterClosed, s)
  | Err e => (Err (SessionWire e), s)
  | Panic => (Panic, s)
  end.

(** The loop of [write_all]: every turn writes at least one byte. *)
Fixpoint write_all_loop (fuel : nat) (io : T) (todo : list byte)
    : poll (res (SessionError io_error) unit) * list byte * T :=
  if bool_decide (todo = []) then (Ready (Ok tt), [], io)
  else
    match fuel with
    | O => (Ready Panic, todo, io)
    | S fuel =>
      match io_poll_write io todo with
      | (Ready (Ok n), io) =>
        if n =? 0 then (Ready (Err WriteZero), todo, io)
        else write_all_loop fuel io (drop (Z.to_nat n) todo)
      | (Ready (Err e), io) => (Ready (Err (SessionIo e)), todo, io)
      | (Ready Panic, io) => (Ready Panic, todo, io)
      | (Pending, io) => (Pending, todo, io)
      end
    end.

(** A poll of the rest of [send]. A send that fails, or is dropped, keeps the writer. *)
Definition send_poll (s : NativeUdpSession) (f : Sending)
    : poll (res (SessionError io_error) unit) * Sending * NativeUdpSession :=
  let flush s :=
    match io_poll_flush (stream s) with
    | (Ready (Ok _), io) => (Ready (Ok tt), Flushing, set_writer (set_stream s io) true)
    | (Ready (Err e), io) => (Ready (Err (SessionIo e)), Flushing, set_stream s io)
    | (Ready Panic, io) => (Ready Panic, Flushing, set_stream s io)
    | (Pending, io) => (Pending, Flushing, set_stream s io)
    end in
  match f with
  | Flushing => flush s
  | Writing todo =>
    match write_all_loop (length todo) (stream s) todo with
    | (Ready (Ok _), _, io) => flush (set_stream s io)
    | (r, todo, io) => (r, Writing todo, set_stream s io)
    end
  end.

(** One turn of the loop of [recv], which may go on with [next]. *)
Definition recv_turn
    (next : NativeUdpSession -> option (poll (res (SessionError io_error) UdpPacket) * NativeUdpSession))
    (s : NativeUdpSession)
    : option (poll (res (SessionError io_error) UdpPacket) * NativeUdpSession) :=
  match decode_udp_packet (pending s) with
  | Ok (packet, consumed) =>
    Some (Ready (Ok packet),
          set_reader s (stream s) (drop (Z.to_nat consumed) (pending s)) (closed s))
  | Panic => Some (Ready Panic, s)
  | Err e =>
    if negb (bool_decide (e = Incomplete))
    then Some (Ready (Err (SessionWire e)), set_reader s (stream s) (pending s) true)
    else
      let remaining := MAX_UDP_FRAME_LENGTH - len (pending s) in
      if remaining <? 0 then Some (Ready Panic, s)
      else if remaining =? 0
      then Some (Ready (Err (SessionWire PayloadLength)), set_reader s (stream s) (pending s) true)
      else
        let limit := Z.min remaining 1024 in
        match io_poll_read (stream s) limit with
        | (Pending, io) => Some (Pending, set_reader s io (pending s) (closed s))
        | (Ready Panic, io) => Some (Ready Panic, set_reader s io (pending s) (closed s))
        | (Ready (Err e), io) => Some (Ready (Err (SessionIo e)), set_reader s io (pending s) true)
        | (Ready (Ok bs), io) =>
          if bool_decide (bs = [])
          then Some (Ready (Err StreamClosed), set_reader s io (pending s) true)
          else next (set_reader s io (pending s ++ bs) (closed s))
        end
  end.

(** The loop: every turn that does not return reads at least one byte. [None] when the fuel runs
    out. *)
Fixpoint recv_loop (fuel : nat) (s : NativeUdpSession)
    : option (poll (res (SessionError io_error) UdpPacket) * NativeUdpSession) :=
  recv_turn (match fuel with O => fun _ => None | S fuel => recv_loop fuel end) s.

(** A poll of [recv]; a [recv] that was dropped and one that goes on do the same. *)
Definition recv (s : NativeUdpSession) : option (poll (res (SessionError io_error) UdpPacket) * NativeUdpSession) :=
  if closed s then Some (Ready (Err ReaderClosed), s)
  else recv_loop (length (unread (stream s))) s.

End Session.
Arguments NativeUdpSession T : clear implicits.

(** ** Readers that decide for good *)

(** A reader that takes between [lo] and [hi] bytes for a result with [P], or waits for more while
    there are fewer than [hi], or refuses; what it decided does not change with more bytes. *)
Definition steady {A} (P : A -> Prop) (lo hi : Z) (p : Reader -> res WireError (A * Reader)) : Prop :=
  forall b o,
    (p (mkReader b o) = Err Incomplete /\ len b < hi)
    \/ (exists e, e <> Incomplete /\ forall r, p (mkReader (b ++ r) o) = Err e)
    \/ (exists a x b', P a /\ b = x ++ b' /\ lo <= len x <= hi
          /\ forall r, p (mkReader (b ++ r) o) = Ok (a, mkReader (b' ++ r) (o + len x))).

Lemma steady_weaken {A} (P : A -> Prop) lo hi lo' hi' p :
  steady P lo hi p -> lo' <= lo -> hi <= hi' -> steady P lo' hi' p.
Proof.
  intros Hp Hlo Hhi b o. destruct (Hp b o) as [[? ?]|[?|(a & x & b' & ? & ? & ? & ?)]].
  - left. split; [done|lia].
  - by right; left.
  - right; right. exists a, x, b'. split_and!; [done..|lia|lia|done].
Qed.

Lemma steady_take n : 0 <= n -> steady (fun bs => len bs = n) n n (reader_take n).
Proof.
  intros Hn b o. unfold reader_take. cbn [rest_of offset]. destruct (decide (n <= len b)) as [Hle|Hgt].
  - right; right. exists (take (Z.to_nat n) b), (take (Z.to_nat n) b), (drop (Z.to_nat n) b).
    assert (len (take (Z.to_nat n) b) = n) as Hl by (unfold len in *; rewrite length_take; lia).
    split; [done|]. split; [by rewrite take_drop|]. split; [lia|]. intros r.
    rewrite (get_range_eq [] (take (Z.to_nat n) b) (drop (Z.to_nat n) b ++ r));
      [|cbn [app]; by rewrite app_assoc, take_drop|done|lia].
    rewrite Hl, drop_app_le by (unfold len in *; lia). done.
  - left. split; [|lia]. unfold get_range. rewrite Z.sub_0_r.
    guard_false by (rewrite !andb_false_iff, !Z.leb_gt; lia). done.
Qed.

Lemma steady_ret {A} (P : A -> Prop) a : P a -> steady P 0 0 (fun r => Ok (a, r)).
Proof.
  intros Ha b o. right; right. exists a, [], b. split_and!; try done. intros r. by rewrite Z.add_0_r.
Qed.

Lemma steady_err {A} (P : A -> Prop) e hi : e <> Incomplete -> steady P 0 hi (fun _ => Err e).
Proof. intros He b o. right; left. by exists e. Qed.

Lemma steady_bind {A B} (P : A -> Prop) (Q : B -> Prop) lo hi lo' hi'
    (p : Reader -> res WireError (A * Reader)) (q : A -> Reader -> res WireError (B * Reader)) :
  steady P lo hi p -> (forall a, P a -> steady Q lo' hi' (q a)) -> 0 <= hi' ->
  steady Q (lo + lo') (hi + hi') (fun r => let? (a, r) := p r in q a r).
Proof.
  intros Hp Hq Hhi b o. destruct (Hp b o) as [[E ?]|[(e & He & E)|(a & x & b' & Ha & -> & Hx & E)]].
  - left. rewrite E. split; [done|lia].
  - right; left. exists e. split; [done|]. intros r. by rewrite E.
  - pose proof (E []) as E0. rewrite !app_nil_r in E0.
    destruct (Hq a Ha b' (o + len x)) as [[E' ?]|[(e & He & E')|(a' & x' & b'' & Ha' & -> & Hx' & E')]].
    + left. rewrite E0. cbn [res_bind]. rewrite E'. split; [done|]. rewrite len_app. lia.
    + right; left. exists e. split; [done|]. intros r. rewrite E. cbn [res_bind]. by rewrite E'.
    + right; right. exists a', (x ++ x'), b''. rewrite len_app. split; [done|]. split; [by rewrite app_assoc|].
      split; [lia|]. intros r. rewrite E. cbn [res_bind]. rewrite E', Z.add_assoc. done.
Qed.

Lemma steady_seq {A B} (P : A -> Prop) lo1 hi1 lo2 hi2 (Q : B -> Prop) lo hi
    (p : Reader -> res WireError (A * Reader)) (q : A -> Reader -> res WireError (B * Reader)) :
  steady P lo1 hi1 p -> (forall a, P a -> steady Q lo2 hi2 (q a)) ->
  lo <= lo1 + lo2 -> hi1 + hi2 <= hi -> 0 <= hi2 ->
  steady Q lo hi (fun r => let? (a, r) := p r in q a r).
Proof.
  intros Hp Hq Hlo Hhi H2. apply steady_weaken with (lo1 + lo2) (hi1 + hi2); [|done..].
  by apply steady_bind with P.
Qed.

Lemma steady_u16 : steady in_u16 2 2 reader_u16.
Proof.
  replace 2 with (2 + 0) by lia. apply steady_bind with (fun bs => len bs = 2); [by apply steady_take| |lia].
  intros [|b0 [|b1 [|]]] Hl; try (unfold len in Hl; simpl in Hl; lia). index_simpl.
  apply steady_ret. apply (from_be_u16 [b0; b1]). done.
Qed.

(** Reads in front of a reader: the bytes it takes are those it asks for. *)
Lemma reader_take_app n x r o : len x = n -> reader_take n (mkReader (x ++ r) o) = Ok (x, mkReader r (o + n)).
Proof.
  intros Hn. unfold reader_take. cbn [rest_of offset]. rewrite (get_range_eq [] x r) by done.
  replace (Z.to_nat n) with (length x) by (unfold len in Hn; lia). by rewrite drop_app_length.
Qed.

Lemma reader_u16_app z r o : in_u16 z -> reader_u16 (mkReader (be_bytes 2 z ++ r) o) = Ok (z, mkReader r (o + 2)).
Proof.
  intros Hz. unfold reader_u16. rewrite reader_take_app by done. cbn [res_bind].
  cbn [be_bytes]. index_simpl. do 3 f_equal.
  change [_; _] with (be_bytes 2 z). by rewrite from_be_bytes_small.
Qed.

(** What the decoder gives of an address: one that an encoder accepts. *)
Definition good_addr (a : TargetAddr) : Prop :=
  wf_addr a /\ match a with Domain d => validate_domain d = Ok tt | Ip _ => True end.

Lemma validate_domain_cases d :
  validate_domain d = Ok tt /\ 1 <= len d <= 255 \/ validate_domain d = Err DomainError.
Proof.
  unfold validate_domain. case_if; [by right|left]. apply orb_false_iff in Heqb as [Hb _].
  apply orb_false_iff in Hb as [Hn Hl]. unbool. split; [done|]. unfold MAX_DOMAIN_LENGTH in *.
  destruct d; [done|]. rewrite len_cons in *. pose proof (len_nonneg d). lia.
Qed.

Lemma steady_address t : steady good_addr 0 256 (decode_address t).
Proof.
  unfold decode_address. case_bool_decide.
  { apply steady_weaken with (4 + 0) (4 + 0); [|lia..].
    apply steady_bind with (fun bs => len bs = 4); [by apply steady_take| |lia].
    intros bs Hl. apply steady_ret. split; [|done]. apply from_be_u32. unfold len in Hl. lia. }
  case_bool_decide.
  { apply steady_weaken with (16 + 0) (16 + 0); [|lia..].
    apply steady_bind with (fun bs => len bs = 16); [by apply steady_take| |lia].
    intros bs Hl. apply steady_ret. split; [|done]. apply from_be_u128. unfold len in Hl. lia. }
  case_bool_decide; [|by apply steady_err].
  apply steady_weaken with (1 + 0) (1 + 255); [|lia..].
  apply steady_bind with (fun bs => len bs = 1); [by apply steady_take| |lia].
  intros [|l [|]] Hl; try (unfold len in Hl; simpl in Hl; lia). index_simpl.
  pose proof (u8_range l). apply steady_weaken with (u8 l + 0) (u8 l + 0); [|lia..].
  apply steady_bind with (fun bs => len bs = u8 l); [apply steady_take; lia| |lia].
  intros bs Hbs. unfold from_utf8. destruct (utf8_chars bs) as [cs|] eqn:Eu; [|by apply steady_err].
  cbn [ok_or res_bind]. destruct (validate_domain_cases bs) as [[Hv _]|Hv]; rewrite Hv; cbn [res_bind];
    [|by apply steady_err].
  apply steady_ret. split; [|done]. unfold wf_addr, is_utf8. by rewrite Eu.
Qed.

(** What the decoder gives of a packet. *)
Definition good_packet (p : UdpPacket) : Prop :=
  good_addr (addr (target p)) /\ in_u16 (port (target p)) /\ port (target p) <> 0
  /\ network (target p) = Udp /\ len (payload p) <= MAX_UDP_PAYLOAD_LENGTH.

Lemma steady_packet : steady good_packet 1 MAX_UDP_FRAME_LENGTH decode_packet.
Proof.
  unfold MAX_UDP_FRAME_LENGTH, MAX_DOMAIN_LENGTH.
  apply (steady_seq (fun bs => len bs = 1) 1 1 0 8454); [by apply steady_take| |done..].
  intros [|t [|]] Hl; try (unfold len in Hl; simpl in Hl; lia). index_simpl.
  apply (steady_seq good_addr 0 256 0 8198); [apply steady_address| |done..]. intros a Ha.
  apply (steady_seq in_u16 2 2 0 8196); [apply steady_u16| |done..]. intros pt Hp.
  case_if; [by apply steady_err|]. unbool.
  apply (steady_seq in_u16 2 2 0 8194); [apply steady_u16| |done..]. intros n Hn.
  case_if; [by apply steady_err|]. unbool. unfold MAX_UDP_PAYLOAD_LENGTH in *. unfold in_u16 in Hn.
  apply (steady_seq (fun bs => len bs = 2) 2 2 0 8192); [by apply steady_take| |done..]. intros bs Hbs.
  case_if; [by apply steady_err|].
  apply (steady_seq (fun bs => len bs = n) n n 0 0); [apply steady_take; lia| |lia..]. intros pl Hpl.
  apply steady_ret. split_and!; try done. simpl. unfold MAX_UDP_PAYLOAD_LENGTH. lia.
Qed.

(** One packet off the front of a buffer, for streams. *)
Definition parse_udp (b : list byte) : res WireError (option (UdpPacket * Z)) :=
  match decode_udp_packet b with
  | Ok x => Ok (Some x)
  | Err e => if bool_decide (e = Incomplete) then Ok None else Err e
  | Panic => Panic
  end.

Lemma decode_udp_cases b :
  (decode_udp_packet b = Err Incomplete /\ len b < MAX_UDP_FRAME_LENGTH)
  \/ (exists e, e <> Incomplete /\ forall r, decode_udp_packet (b ++ r) = Err e)
  \/ (exists p n, good_packet p /\ 1 <= n <= len b /\ n <= MAX_UDP_FRAME_LENGTH
        /\ forall r, decode_udp_packet (b ++ r) = Ok (p, n)).
Proof.
  unfold decode_udp_packet. destruct (steady_packet b 0) as [[E ?]|[(e & He & E)|(p & x & b' & Hp & -> & Hx & E)]].
  - left. by rewrite E.
  - right; left. exists e. split; [done|]. intros r. by rewrite E.
  - right; right. exists p, (len x). pose proof (len_nonneg b'). rewrite len_app.
    split_and!; [done|lia..|]. intros r. rewrite E. done.
Qed.

#[export] Instance trojan_udp_format : FrameFormat parse_udp.
Proof.
  apply format_intro. intros b. unfold parse_udp.
  destruct (decode_udp_cases b) as [[-> _]|[(e & He & E)|(p & n & _ & Hn & _ & E)]].
  - by left.
  - right; left. exists e. intros r. rewrite E. by rewrite bool_decide_eq_false_2.
  - right; right. exists p, n. split; [lia|]. intros r. by rewrite E.
Qed.

(** ** Round trips *)

(** The type byte of an address and what follows it up to the port. *)
Definition addr_type (a : TargetAddr) : byte :=
  match a with Ip (V4 _) => x01 | Ip (V6 _) => x04 | Domain _ => x03 end.
Definition addr_body (a : TargetAddr) : list byte :=
  match a with
  | Ip (V4 ip) => octets4 ip
  | Ip (V6 ip) => octets6 ip
  | Domain d => to_u8 (len d) :: d
  end.

Lemma encode_address_parts t : encode_address t = addr_type (addr t) :: addr_body (addr t) ++ be_bytes 2 (port t).
Proof. unfold encode_address. destruct (addr t) as [[ip|ip]|d]; simpl; done. Qed.

Lemma decode_address_encoded t n r o :
  validate_target t = Ok n -> wf_addr (addr t) ->
  decode_address (addr_type (addr t)) (mkReader (addr_body (addr t) ++ r) o)
    = Ok (addr t, mkReader r (o + len (addr_body (addr t)))).
Proof.
  unfold validate_target. case_if; [done|]. destruct (addr t) as [[ip|ip]|d]; cbn [addr_type addr_body];
    intros Hv Hw; unfold decode_address; cbn [wf_addr wf_ip] in Hw.
  - rewrite bool_decide_eq_true_2 by done. rewrite reader_take_app by done. cbn [res_bind].
    by rewrite octets4_inv.
  - rewrite bool_decide_eq_false_2, bool_decide_eq_true_2 by done.
    rewrite reader_take_app by done. cbn [res_bind]. by rewrite octets6_inv.
  - rewrite !bool_decide_eq_false_2, bool_decide_eq_true_2 by done.
    destruct (validate_domain_cases d) as [[Hd Hl]|Hd]; rewrite Hd in Hv; [|done].
    change ((to_u8 (len d) :: d) ++ r) with ([to_u8 (len d)] ++ d ++ r).
    rewrite reader_take_app by done. cbn [res_bind]. index_simpl.
    rewrite u8_to_u8_small by lia. rewrite reader_take_app by done. cbn [res_bind].
    rewrite from_utf8_ok by done. cbn [ok_or res_bind]. rewrite Hd. cbn [res_bind].
    rewrite len_cons. do 3 f_equal. lia.
Qed.

Lemma encode_udp_inv p w :
  encode_udp_packet p = Ok w ->
  (exists n, validate_target (target p) = Ok n) /\ network (target p) = Udp
  /\ port (target p) <> 0 /\ len (payload p) <= MAX_UDP_PAYLOAD_LENGTH
  /\ w = encode_address (target p) ++ be_bytes 2 (len (payload p)) ++ CRLF ++ payload p.
Proof.
  unfold encode_udp_packet. case_if; [done|]. unbool.
  destruct (validate_target (target p)) as [n|e|] eqn:Ev; cbn [res_bind]; [|done..].
  case_if; [done|]. unbool. intros E%Ok_inj. split_and!; [by exists n|done| |done|done].
  revert Ev. unfold validate_target. case_if; [done|]. by unbool.
Qed.

Lemma decode_packet_encoded p w r o :
  wf_target (target p) -> encode_udp_packet p = Ok w ->
  decode_packet (mkReader (w ++ r) o) = Ok (p, mkReader r (o + len w)).
Proof.
  intros [Ha Hport] Hw. apply encode_udp_inv in Hw as ([n Hv] & Hnet & Hp0 & Hlen & ->).
  rewrite encode_address_parts. unfold decode_packet.
  destruct p as [[a pt nw] pl]. cbn [target addr port network payload] in *. subst nw.
  set (tail := be_bytes 2 (len pl) ++ CRLF ++ pl).
  replace (((addr_type a :: addr_body a ++ be_bytes 2 pt) ++ tail) ++ r)
    with ([addr_type a] ++ addr_body a ++ be_bytes 2 pt ++ be_bytes 2 (len pl) ++ CRLF ++ pl ++ r)
    by (unfold tail; cbn [app]; by rewrite <- !app_assoc).
  rewrite reader_take_app by done. cbn [res_bind]. index_simpl.
  rewrite (decode_address_encoded (mkTarget a pt Udp) n) by done. cbn [res_bind].
  rewrite reader_u16_app by done. cbn [res_bind]. rewrite (proj2 (Z.eqb_neq _ _) Hp0).
  unfold MAX_UDP_PAYLOAD_LENGTH in *. pose proof (len_nonneg pl).
  rewrite reader_u16_app by (unfold in_u16; lia). cbn [res_bind]. guard_false by lia.
  rewrite reader_take_app by done. cbn [res_bind]. rewrite bool_decide_eq_true_2 by done. cbn [negb].
  rewrite reader_take_app by done. cbn [res_bind]. do 3 f_equal.
  unfold tail. cbn [addr]. autorewrite with len. change (len CRLF) with 2. lia.
Qed.

(** What a Trojan server reads of a request: the token, the command and the target, and where the
    payload begins. *)
Definition server_request (b : list byte) : res WireError (list byte * Target * list byte) :=
  let? (tok, r) := reader_take 56 (mkReader b 0) in
  let? (crlf, r) := reader_take 2 r in
  if negb (bool_decide (crlf = CRLF)) then Err Delimiter
  else
    let? (cmd, r) := reader_take 1 r in
    let? cmd := index cmd 0 in
    let? network :=
      if bool_decide (cmd = x01) then Ok Tcp
      else if bool_decide (cmd = x03) then Ok Udp else Err NetworkError in
    let? (t, r) := reader_take 1 r in
    let? t := index t 0 in
    let? (a, r) := decode_address t r in
    let? (port, r) := reader_u16 r in
    let? (crlf, r) := reader_take 2 r in
    if negb (bool_decide (crlf = CRLF)) then Err Delimiter
    else Ok (tok, mkTarget a port network, rest_of r).

(** A digest of 28 bytes has 56 hex digits, and they determine it. *)
Lemma hex_digit_ok b :
  exists hi lo, @index Empty_set _ HEX (Z.shiftr (u8 b) 4) = Ok hi
    /\ @index Empty_set _ HEX (Z.land (u8 b) 15) = Ok lo
    /\ forall b' hi' lo', @index Empty_set _ HEX (Z.shiftr (u8 b') 4) = Ok hi' ->
         @index Empty_set _ HEX (Z.land (u8 b') 15) = Ok lo' -> hi = hi' -> lo = lo' -> b = b'.
Proof.
  assert (forall b : byte, 0 <= Z.shiftr (u8 b) 4 < 16 /\ 0 <= Z.land (u8 b) 15 < 16
            /\ u8 b = 16 * Z.shiftr (u8 b) 4 + Z.land (u8 b) 15) as Hb.
  { intros x. pose proof (u8_range x). rewrite Z.shiftr_div_pow2 by lia. change 15 with (Z.ones 4).
    rewrite Z.land_ones by lia. change (2 ^ 4) with 16. pose proof (Z.div_mod (u8 x) 16).
    pose proof (Z.mod_pos_bound (u8 x) 16). lia. }
  assert (forall i j x, 0 <= i < 16 -> 0 <= j < 16 -> @index Empty_set _ HEX i = Ok x ->
    @index Empty_set _ HEX j = Ok x -> i = j) as Hinj.
  { intros i j x Hi Hj. assert (NoDup HEX) as Hn by (apply (bool_decide_unpack _); vm_compute; exact I).
    unfold index. guard_false by lia. guard_false by lia.
    destruct (HEX !! Z.to_nat i) as [y|] eqn:E1; [|done]. destruct (HEX !! Z.to_nat j) as [y'|] eqn:E2; [|done].
    intros [= ->] [= ->]. pose proof (list.NoDup_lookup _ _ _ _ Hn E1 E2). lia. }
  destruct (Hb b) as (H1 & H2 & H3).
  destruct (@index_some Empty_set _ HEX (Z.shiftr (u8 b) 4)) as [hi Ehi]; [change (len HEX) with 16; lia|].
  destruct (@index_some Empty_set _ HEX (Z.land (u8 b) 15)) as [lo Elo]; [change (len HEX) with 16; lia|].
  exists hi, lo. split_and!; [done..|]. intros b' hi' lo' Eh El <- <-.
  destruct (Hb b') as (H1' & H2' & H3'). apply u8_inj. rewrite H3, H3'.
  by rewrite (Hinj _ _ _ H1 H1' Ehi Eh), (Hinj _ _ _ H2 H2' Elo El).
Qed.

Lemma hex_digits_ok d : exists t, hex_digits d = Ok t /\ len t = 2 * len d.
Proof.
  induction d as [|b d (t & IH & Hl)]; [by exists []|]. cbn [hex_digits].
  destruct (hex_digit_ok b) as (hi & lo & -> & -> & _). cbn [res_bind]. rewrite IH. cbn [res_bind].
  eexists. split; [done|]. rewrite !len_cons. lia.
Qed.

Lemma hex_digits_inj d d' t : hex_digits d = Ok t -> hex_digits d' = Ok t -> d = d'.
Proof.
  revert d' t. induction d as [|b d IH]; intros [|b' d'] t; cbn [hex_digits]; [done|..].
  - destruct (hex_digit_ok b') as (hi & lo & -> & -> & _). cbn [res_bind].
    destruct (hex_digits d'); cbn [res_bind]; intros [= <-]; done.
  - destruct (hex_digit_ok b) as (hi & lo & -> & -> & _). cbn [res_bind].
    destruct (hex_digits d); cbn [res_bind]; intros [= <-]; done.
  - destruct (hex_digit_ok b) as (hi & lo & Eh & El & Hinj).
    destruct (hex_digit_ok b') as (hi' & lo' & Eh' & El' & _).
    rewrite Eh, El, Eh', El'. cbn [res_bind].
    destruct (hex_digits d) as [x| |] eqn:Ex; cbn [res_bind]; [|done..]. intros [= <-].
    destruct (hex_digits d') as [x'| |] eqn:Ex'; cbn [res_bind]; [|done..]. intros [= E1 E2 E3].
    f_equal; [by apply (Hinj b' hi' lo')|apply (IH d' x); congruence].
Qed.

(** ** Runs of a session *)

(** The bytes of a packet that can be encoded. *)
Definition enc (p : UdpPacket) : list byte :=
  match encode_udp_packet p with Ok w => w | _ => [] end.

Section Runs.
Context {T : Type} `{Ai : AsyncIo T} `{Laws : !AsyncIoLaws T}.

(** A session, the send that holds its writer, and the packets sent and received so far. *)
Record Run := mkRun {
  session : NativeUdpSession T;
  sending : option (Sending * UdpPacket);
  sent : list UdpPacket;
  received : list UdpPacket
}.

(** One poll of a send or a receive, the start of a send once the writer's lock is free, or the
    drop of a send that is under way. *)
Inductive step : Run -> Run -> Prop :=
| step_send s t bytes f s' xs rs :
    send_start s t bytes = (Ok f, s') ->
    step (mkRun s None xs rs) (mkRun s' (Some (f, mkUdpPacket t bytes)) xs rs)
| step_send_refused s t bytes e s' xs rs :
    send_start s t bytes = (Err e, s') -> step (mkRun s None xs rs) (mkRun s' None xs rs)
| step_poll s f p r f' s' xs rs :
    send_poll s f = (r, f', s') ->
    step (mkRun s (Some (f, p)) xs rs)
         (match r with
          | Pending => mkRun s' (Some (f', p)) xs rs
          | Ready (Ok _) => mkRun s' None (xs ++ [p]) rs
          | Ready _ => mkRun s' None xs rs
          end)
| step_drop s f p xs rs : step (mkRun s (Some (f, p)) xs rs) (mkRun s None xs rs)
| step_recv s f r s' xs rs :
    recv s = Some (r, s') ->
    step (mkRun s f xs rs)
         (mkRun s' f xs (match r with Ready (Ok p) => rs ++ [p] | _ => rs end)).

Lemma write_all_spec fuel io todo :
  (length todo <= fuel)%nat ->
  let '(r, todo', io') := write_all_loop fuel io todo in
  unread io' = unread io /\ taken io' ++ todo' = taken io ++ todo
  /\ match r with Ready (Ok _) => todo' = [] | Ready Panic => False | _ => True end
  /\ exists x, todo = x ++ todo' /\ taken io' = taken io ++ x.
Proof.
  revert io todo. induction fuel as [|fuel IH]; intros io todo Hf; cbn [write_all_loop]; case_bool_decide as Ht.
  - subst. split_and!; try done. exists []. split; [done|by rewrite app_nil_r].
  - destruct todo; [done|simpl in Hf; lia].
  - subst. split_and!; try done. exists []. split; [done|by rewrite app_nil_r].
  - destruct (poll_write_law io todo) as [Hu Hw]. destruct (io_poll_write io todo) as [r io1].
    cbn [fst snd] in *.
    assert (taken io1 = taken io -> taken io1 ++ todo = taken io ++ todo
      /\ exists x, todo = x ++ todo /\ taken io1 = taken io ++ x) as Hsame
      by (intros ->; split; [done|]; exists []; split; [done|by rewrite app_nil_r]).
    destruct r as [[n|e|]|]; try (destruct (Hsame Hw); by split_and!); [|done].
    destruct Hw as [Hn Hw]. case_if; unbool.
    { subst n. rewrite take_0, app_nil_r in Hw. destruct (Hsame Hw). by split_and!. }
    pose proof (IH io1 (drop (Z.to_nat n) todo)) as IHn.
    destruct (write_all_loop fuel io1 (drop (Z.to_nat n) todo)) as [[r todo'] io'].
    destruct IHn as (H1 & H2 & H3 & x & Hx & Hx'); [rewrite length_drop; unfold len in Hn; lia|].
    split; [congruence|]. split; [by rewrite H2, Hw, <- app_assoc, take_drop|]. split; [done|].
    exists (take (Z.to_nat n) todo ++ x). split; [by rewrite <- app_assoc, <- Hx, take_drop|].
    by rewrite Hx', Hw, <- app_assoc.
Qed.

(** What is on the wire: the packets sent, and the start of one more. *)
Definition wire_ok (base : list byte) (x : Run) : Prop :=
  exists part,
    taken (stream (session x)) = base ++ concat (map enc (sent x)) ++ part
    /\ Forall (fun p => encode_udp_packet p = Ok (enc p)) (sent x)
    /\ match sending x with
       | Some (Writing todo, p) => encode_udp_packet p = Ok (part ++ todo) /\ writer (session x) = false
       | Some (Flushing, p) => encode_udp_packet p = Ok part /\ writer (session x) = false
       | None => writer (session x) = true /\ part = []
                 \/ writer (session x) = false /\ exists p todo, encode_udp_packet p = Ok (part ++ todo)
       end.

Lemma enc_ok p w : encode_udp_packet p = Ok w -> enc p = w.
Proof. unfold enc. by intros ->. Qed.

(** A poll of a send that is flushing. *)
Lemma send_poll_spec base s f p xs rs :
  wire_ok base (mkRun s (Some (f, p)) xs rs) ->
  let '(r, f', s') := send_poll s f in
  unread (stream s') = unread (stream s) /\ pending s' = pending s /\ closed s' = closed s
  /\ r <> Ready Panic
  /\ wire_ok base (match r with
          | Pending => mkRun s' (Some (f', p)) xs rs
          | Ready (Ok _) => mkRun s' None (xs ++ [p]) rs
          | Ready _ => mkRun s' None xs rs
          end).
Proof.
  assert (forall s part, taken (stream s) = base ++ concat (map enc xs) ++ part ->
    Forall (fun p => encode_udp_packet p = Ok (enc p)) xs -> encode_udp_packet p = Ok part ->
    writer s = false ->
    let '(r, f', s') := send_poll s Flushing in
    unread (stream s') = unread (stream s) /\ pending s' = pending s /\ closed s' = closed s
    /\ r <> Ready Panic
    /\ wire_ok base (match r with
          | Pending => mkRun s' (Some (f', p)) xs rs
          | Ready (Ok _) => mkRun s' None (xs ++ [p]) rs
          | Ready _ => mkRun s' None xs rs
          end)) as Hflush.
  { intros s1 part Ht Hf He Hw. cbn [send_poll]. destruct (poll_flush_law (stream s1)) as (Hu & Ht' & Hn).
    destruct (io_poll_flush (stream s1)) as [[[[]|e|]|] io]; cbn [fst snd] in *; try done; split_and!; try done.
    - exists []. cbn. split_and!; [|apply list.Forall_app; split; [done|]|by left].
      + rewrite Ht', Ht, map_app, concat_app. cbn [map concat]. by rewrite (enc_ok _ _ He), !app_nil_r.
      + apply list.Forall_singleton. by rewrite (enc_ok _ _ He).
    - exists part. cbn. split_and!; [by rewrite Ht'|done|right]. split; [done|]. exists p, []. by rewrite app_nil_r.
    - exists part. cbn. split_and!; [by rewrite Ht'|done..]. }
  intros (part & Ht & Hf & Hs). cbn [session sent sending] in *. destruct f as [todo|].
  2: { destruct Hs as [He Hw]. by apply (Hflush s part). }
  destruct Hs as [He Hw]. cbn [send_poll].
  pose proof (write_all_spec (length todo) (stream s) todo (le_n _)) as Hall.
  destruct (write_all_loop _ _ _) as [[r todo'] io]. destruct Hall as (Hu & Htk & Hr & x & -> & Hx).
  assert (taken io = base ++ concat (map enc xs) ++ part ++ x) as Ht'
    by (rewrite Hx, Ht; by rewrite <- !app_assoc).
  destruct r as [[[]|e|]|]; [|..|done|].
  - subst todo'. rewrite app_nil_r in He.
    pose proof (Hflush (set_stream s io) (part ++ x) Ht' Hf He Hw) as H. cbn [send_poll] in H.
    destruct (io_poll_flush (stream (set_stream s io))) as [[[[]|e|]|] io']; cbn in *; by rewrite Hu in *.
  - split_and!; try done. exists (part ++ x). cbn. split_and!; [done..|right]. split; [done|].
    exists p, todo'. by rewrite <- app_assoc.
  - split_and!; try done. exists (part ++ x). cbn. split_and!; [done..| |done]. by rewrite <- app_assoc.
Qed.

(** What a receive does with the bytes that are buffered and still to come. *)
Definition recv_post (s : NativeUdpSession T)
    (o : option (poll (res (SessionError io_error) UdpPacket) * NativeUdpSession T)) : Prop :=
  match o with
  | None => False
  | Some (r, s') =>
    let ahead := pending s ++ unread (stream s) in
    let ahead' := pending s' ++ unread (stream s') in
    taken (stream s') = taken (stream s) /\ writer s' = writer s
    /\ len (pending s') <= MAX_UDP_FRAME_LENGTH
    /\ match r with
       | Pending => closed s' = false /\ ahead' = ahead
       | Ready (Ok p) =>
         closed s' = false
         /\ frames parse_udp ahead = (p :: fst (frames parse_udp ahead'), snd (frames parse_udp ahead'))
       | Ready (Err (SessionWire e)) => closed s' = true /\ frames parse_udp ahead = ([], Bad e)
       | Ready (Err StreamClosed) =>
         closed s' = true /\ frames parse_udp ahead = ([], Partial ahead)
       | Ready (Err (SessionIo _)) => closed s' = true
       | _ => False
       end
  end.

Lemma recv_post_more s s1 o :
  taken (stream s1) = taken (stream s) -> writer s1 = writer s ->
  pending s1 ++ unread (stream s1) = pending s ++ unread (stream s) ->
  recv_post s1 o -> recv_post s o.
Proof.
  intros Ht Hw Ha. destruct o as [[r s']|]; [|done]. intros (H1 & H2 & H3 & H4). rewrite Ha in H4.
  split_and!; [congruence..|done|done].
Qed.

(** A turn, when the turns after it do what a receive does. *)
Lemma recv_turn_spec next s :
  closed s = false -> len (pending s) <= MAX_UDP_FRAME_LENGTH ->
  (forall s1, closed s1 = false -> len (pending s1) <= MAX_UDP_FRAME_LENGTH ->
     (length (unread (stream s1)) < length (unread (stream s)))%nat -> recv_post s1 (next s1)) ->
  recv_post s (recv_turn next s).
Proof.
  intros Hc Hl Hnext. unfold recv_turn.
  destruct (decode_udp_cases (pending s)) as [[E Hm]|[(e & He & E)|(p & n & Hp & Hn & Hm & E)]].
  - rewrite E. cbn [negb]. rewrite bool_decide_eq_true_2 by done. cbn [negb].
    guard_false by lia. guard_false by lia.
    set (limit := Z.min _ 1024). destruct (poll_read_law (stream s) limit ltac:(lia)) as [Ht Hr].
    destruct (io_poll_read (stream s) limit) as [[[bs|e|]|] io]; cbn [fst snd] in *; [|..|done|].
    + destruct Hr as (Hu & Hlen & Hend). case_bool_decide as Hbs.
      * subst bs. unfold recv_post. cbn [set_reader stream writer pending closed].
        rewrite (Hend eq_refl). split_and!; try done. rewrite app_nil_r, (frames_eq parse_udp).
        assert (parse_udp (pending s) = Ok None) as -> by (unfold parse_udp; by rewrite E). done.
      * eapply recv_post_more; [| | |apply Hnext]; cbn; [done|done|by rewrite Hu, <- app_assoc|done| |].
        -- rewrite len_app. lia.
        -- rewrite Hu, length_app. destruct bs; [done|simpl; lia].
    + by split_and!.
    + unfold recv_post. cbn [set_reader stream writer pending closed]. rewrite Hr. by split_and!.
  - pose proof (E []) as E0. rewrite app_nil_r in E0. rewrite E0, bool_decide_eq_false_2 by done. cbn [negb].
    split_and!; try done. rewrite (frames_eq parse_udp).
    assert (parse_udp (pending s ++ unread (stream s)) = Err e) as ->; [|done].
    unfold parse_udp. by rewrite E, bool_decide_eq_false_2.
  - pose proof (E []) as E0. rewrite app_nil_r in E0. rewrite E0. split_and!; try done; cbn [set_reader stream writer pending closed].
    + unfold len in *. rewrite length_drop. lia.
    + assert (parse_udp (pending s ++ unread (stream s)) = Ok (Some (p, n))) as Ep
        by (unfold parse_udp; by rewrite E).
      rewrite (frames_eq parse_udp), Ep. rewrite drop_app_le by (unfold len in Hn; lia).
      by destruct (frames parse_udp _).
Qed.

Lemma recv_loop_spec fuel s :
  (length (unread (stream s)) <= fuel)%nat -> closed s = false ->
  len (pending s) <= MAX_UDP_FRAME_LENGTH -> recv_post s (recv_loop fuel s).
Proof.
  revert s. induction fuel as [|fuel IH]; intros s Hf Hc Hl; cbn [recv_loop]; apply recv_turn_spec;
    try done; intros s1 Hc1 Hl1 Hlt; [lia|]. apply IH; [lia|done..].
Qed.

(** What was received is the start of the packets of the stream, and what is ahead has the rest. *)
Definition read_inv (incoming : list byte) (x : Run) : Prop :=
  let s := session x in
  len (pending s) <= MAX_UDP_FRAME_LENGTH
  /\ exists fs t, frames parse_udp incoming = (received x ++ fs, t)
       /\ (closed s = false -> frames parse_udp (pending s ++ unread (stream s)) = (fs, t)).

Lemma recv_post_recv s : closed s = false -> len (pending s) <= MAX_UDP_FRAME_LENGTH ->
  recv_post s (recv s).
Proof. intros Hc Hl. unfold recv. rewrite Hc. by apply recv_loop_spec. Qed.

Definition run_ok (base incoming : list byte) (x : Run) : Prop := wire_ok base x /\ read_inv incoming x.

Lemma send_start_spec s t bytes r s' :
  send_start s t bytes = (r, s') ->
  r <> Panic /\ stream s' = stream s /\ pending s' = pending s /\ closed s' = closed s
  /\ match r with
     | Ok f => exists frame, encode_udp_packet (mkUdpPacket t bytes) = Ok frame /\ f = Writing frame
               /\ writer s = true /\ writer s' = false
     | _ => s' = s
     end.
Proof.
  unfold send_start. destruct (encode_udp_packet _) as [frame|e|] eqn:E.
  - destruct (writer s) eqn:Ew; intros [= <- <-]; split_and!; try done. by exists frame.
  - by intros [= <- <-].
  - exfalso. revert E. unfold encode_udp_packet. case_if; [done|].
    destruct (validate_target t) as [n|e|] eqn:Ev; cbn [target res_bind]; rewrite Ev; cbn [res_bind];
      [by case_if|done|]. revert Ev. unfold validate_target. case_if; [done|].
    destruct (addr t) as [[]|d]; [done..|]. destruct (validate_domain_cases d) as [[-> _]| ->]; done.
Qed.

Lemma recv_spec incoming s f xs rs r s' :
  read_inv incoming (mkRun s f xs rs) -> recv s = Some (r, s') ->
  taken (stream s') = taken (stream s) /\ writer s' = writer s
  /\ read_inv incoming (mkRun s' f xs (match r with Ready (Ok p) => rs ++ [p] | _ => rs end)).
Proof.
  intros (Hl & fs & t & Hfr & Ha) Hr. cbn [session received] in *. destruct (closed s) eqn:Hc.
  { unfold recv in Hr. rewrite Hc in Hr. injection Hr as <- <-. split; [done|]. split; [done|].
    split; [done|]. exists fs, t. cbn [session received]. by rewrite Hc. }
  pose proof (recv_post_recv s Hc Hl) as Hp. rewrite Hr in Hp. destruct Hp as (Ht & Hw & Hl' & Hp).
  specialize (Ha eq_refl). split; [done|]. split; [done|]. split; [done|]. cbn [session received].
  destruct r as [[p|e|]|]; [|..|done|].
  - destruct Hp as [Hc' Hf]. rewrite Ha in Hf. injection Hf as -> ->.
    eexists _, _. rewrite <- app_assoc. split; [exact Hfr|]. intros _. by rewrite <- surjective_pairing.
  - exists fs, t. split; [done|]. by destruct e; [destruct Hp as [-> _]|..|destruct Hp as [-> _]|rewrite Hp].
  - destruct Hp as [_ ->]. by exists fs, t.
Qed.

Lemma step_ok base incoming x x' : run_ok base incoming x -> step x x' -> run_ok base incoming x'.
Proof.
  intros [Hw Hi] Hs. destruct Hs as [s t bytes f s' xs rs Hst|s t bytes e s' xs rs Hst|s f p r f' s' xs rs Hst
                               |s f p xs rs|s f r s' xs rs Hst].
  - apply send_start_spec in Hst as (_ & Es & Ep & Ec & frame & E & -> & Ew & Ew').
    destruct Hw as (part & Ht & Hf & Hs). cbn in *. split.
    + exists []. cbn. rewrite Es. destruct Hs as [[_ ->]|[? _]]; [by split_and!|congruence].
    + unfold read_inv in *. cbn in *. by rewrite Ep, Ec, Es.
  - apply send_start_spec in Hst as (_ & _ & _ & _ & ->). done.
  - pose proof (send_poll_spec base s f p xs rs Hw) as H. rewrite Hst in H.
    destruct H as (Hu & Ep & Ec & _ & Hw'). split; [done|]. unfold read_inv in *. cbn in *.
    by destruct r as [[]|]; cbn; rewrite Ep, Ec, Hu.
  - split; [|done]. destruct Hw as (part & Ht & Hf & Hs). exists part. cbn in *. split_and!; [done..|right].
    destruct f as [todo|]; destruct Hs as [He Hwr]; (split; [done|]); [by exists p, todo|].
    exists p, []. by rewrite app_nil_r.
  - destruct (recv_spec _ _ _ _ _ _ _ Hi Hst) as (Et & Ew & Hi'). split; [|done].
    destruct Hw as (part & Ht & Hf & Hs). exists part. cbn in *. rewrite Et, Ew. by split_and!.
Qed.

Lemma run_reach base incoming x x' : run_ok base incoming x -> rtc step x x' -> run_ok base incoming x'.
Proof. intros Hx Hr. induction Hr as [|x y z Hs _ IH]; [done|]. by apply IH, step_ok with x. Qed.

End Runs.

(** The packets of encoded packets and more. *)
Lemma frames_encoded ps rest :
  Forall (fun p => encode_udp_packet p = Ok (enc p) /\ wf_target (target p)) ps ->
  frames parse_udp (concat (map enc ps) ++ rest)
  = (ps ++ fst (frames parse_udp rest), snd (frames parse_udp rest)).
Proof.
  induction ps as [|p ps IH]; intros Hf; cbn [map concat app].
  { by rewrite <- surjective_pairing. }
  apply list.Forall_cons in Hf as [[He Hw] Hf]. rewrite <- app_assoc, (frames_eq parse_udp).
  assert (parse_udp (enc p ++ concat (map enc ps) ++ rest) = Ok (Some (p, len (enc p)))) as ->.
  { unfold parse_udp, decode_udp_packet. by rewrite (decode_packet_encoded p (enc p)). }
  unfold len. rewrite Nat2Z.id, drop_app_length. by rewrite IH.
Qed.

(** ** Properties *)

(** A Trojan server reads from a request header the token of the client's password, the command
    and the target, and finds the payload behind it; from a datagram's frame it reads the target
    and the payload, and the next frame begins behind it. Tokens of passwords with different
    digests differ. *)
Theorem trojan_roundtrip `{Sha224Laws} password auth t header p frame rest :
  TrojanAuth_new password = Ok auth -> wf_target t -> encode_request_header auth t = Ok header ->
  wf_target (target p) -> encode_udp_packet p = Ok frame ->
  server_request (header ++ rest) = Ok (token auth, t, rest)
  /\ (forall other, TrojanAuth_new other = Ok auth -> sha224 other = sha224 password)
  /\ decode_udp_packet (frame ++ rest) = Ok (p, len frame).
Proof.
  intros Ha Ht Hh Hp Hf.
  assert (hex_digits (sha224 password) = Ok (token auth)) as Hx.
  { revert Ha. unfold TrojanAuth_new. case_if; [done|]. destruct (hex_digits_ok (sha224 password)) as (x & -> & _).
    cbn [lift res_bind]. by intros [= <-]. }
  split_and!.
  - assert (len (token auth) = 56) as Hlen.
    { destruct (hex_digits_ok (sha224 password)) as (x & Ex & Hl). rewrite Ex in Hx. injection Hx as ->.
      rewrite Hl, sha224_len. done. }
    revert Hh. unfold encode_request_header. destruct (validate_target t) as [n|e|] eqn:Ev; cbn [res_bind]; [|done..].
    intros E%Ok_inj. rewrite <- E. clear E. unfold server_request. rewrite encode_address_parts.
    set (cmd := match network t with Tcp => x01 | Udp => x03 end).
    replace ((token auth ++ CRLF ++ [cmd] ++ (addr_type (addr t) :: addr_body (addr t) ++ be_bytes 2 (port t)) ++ CRLF) ++ rest)
      with (token auth ++ CRLF ++ [cmd] ++ [addr_type (addr t)] ++ addr_body (addr t) ++ be_bytes 2 (port t) ++ CRLF ++ rest)
      by (cbn [app]; rewrite <- !app_assoc; cbn [app]; by rewrite <- !app_assoc).
    rewrite (reader_take_app 56) by exact Hlen. cbn [res_bind].
    rewrite reader_take_app by done. cbn [res_bind]. rewrite bool_decide_eq_true_2 by done. cbn [negb].
    rewrite reader_take_app by done. cbn [res_bind]. index_simpl.
    assert ((if bool_decide (cmd = x01) then Ok Tcp
      else if bool_decide (cmd = x03) then Ok Udp else Err NetworkError) = Ok (network t)) as ->
      by (unfold cmd; by destruct (network t)).
    cbn [res_bind]. rewrite reader_take_app by done. cbn [res_bind]. index_simpl.
    rewrite (decode_address_encoded t n) by (done || apply Ht). cbn [res_bind].
    rewrite reader_u16_app by apply Ht. cbn [res_bind]. rewrite reader_take_app by done. cbn [res_bind].
    rewrite bool_decide_eq_true_2 by done. cbn [negb rest_of]. by destruct t.
  - intros other Ho. revert Ho. unfold TrojanAuth_new. case_if; [done|].
    destruct (hex_digits_ok (sha224 other)) as (x & Ex & _). rewrite Ex. cbn [lift res_bind].
    intros [= <-]. by apply (hex_digits_inj _ _ x).
  - unfold decode_udp_packet. by rewrite (decode_packet_encoded p frame).
Qed.

(** C32: A UDP session over a stream keeps datagrams whole. After any sends, receives, failures and
    cancellations over any transport, the bytes on the wire are the frames of the datagrams sent,
    from which the server reads those datagrams, and at most the start of one frame more, after
    which nothing is written; what was received is the start of the datagrams of the server's
    stream, however it was cut; a receive ends, does not panic, holds at most one frame, and
    reports a bad frame or the end only where the stream has it. *)
Theorem trojan_session {T} `{Ai : AsyncIo T} `{!AsyncIoLaws T} (io : T) x :
  rtc step (mkRun (NativeUdpSession_new io) None [] []) x ->
  let s := session x in
  let packets := frames parse_udp (unread io) in
  (exists part,
     taken (stream s) = taken io ++ concat (map enc (sent x)) ++ part
     /\ (part = [] \/ writer s = false /\ exists p todo, encode_udp_packet p = Ok (part ++ todo)))
  /\ (Forall (fun p => wf_target (target p)) (sent x) ->
      fst (frames parse_udp (concat (map enc (sent x)))) = sent x)
  /\ (exists more, fst packets = received x ++ more)
  /\ len (pending s) <= MAX_UDP_FRAME_LENGTH
  /\ match recv s with
     | Some (Ready (Ok p), _) => exists more, fst packets = received x ++ p :: more
     | Some (Ready (Err (SessionWire e)), _) => packets = (received x, Bad e)
     | Some (Ready (Err StreamClosed), _) => exists rest, packets = (received x, Partial rest)
     | Some (Ready (Err ReaderClosed), _) => closed s = true
     | Some (Ready (Err (SessionIo _)), _) | Some (Pending, _) => True
     | Some (Ready (Err _), _) | Some (Ready Panic, _) | None => False
     end.
Proof.
  intros Hr s packets.
  assert (run_ok (taken io) (unread io) x) as [(part & Ht & Hf & Hs) (Hl & fs & t & Hfr & Ha)].
  { eapply run_reach; [|done]. split.
    - exists []. cbn. rewrite app_nil_r. split_and!; [done|by apply list.Forall_nil|by left].
    - split; [done|]. destruct (frames parse_udp (unread io)) as [fs t] eqn:E. exists fs, t. done. }
  split_and!.
  - exists part. split; [done|]. destruct (sending x) as [[[todo|] p]|].
    + right. destruct Hs as [He Hw]. split; [done|]. by exists p, todo.
    + right. destruct Hs as [He Hw]. split; [done|]. exists p, []. by rewrite app_nil_r.
    + destruct Hs as [[_ ->]|?]; [by left|by right].
  - intros Hwf. rewrite <- (app_nil_r (concat _)), frames_encoded; [by rewrite app_nil_r|].
    apply list.Forall_forall. intros p Hp. rewrite list.Forall_forall in Hf, Hwf. auto.
  - unfold packets. rewrite Hfr. by exists fs.
  - done.
  - destruct (closed s) eqn:Hc; [unfold recv; by rewrite Hc|].
    pose proof (recv_post_recv s Hc Hl) as Hp. specialize (Ha Hc). unfold packets. rewrite Hfr.
    destruct (recv s) as [[r s']|]; [|done]. destruct Hp as (_ & _ & _ & Hp). fold s in Ha. rewrite Ha in Hp.
    destruct r as [[p|e|]|]; [|destruct e|done|done]; try done.
    + destruct Hp as [_ [= -> _]]. eauto.
    + destruct Hp as [_ [= -> ->]]. by rewrite app_nil_r.
    + destruct Hp as [_ [= -> ->]]. rewrite app_nil_r. eauto.
Qed.

(** ** Examples *)

(** Any function with digests of 28 bytes will do. *)
#[local] Instance sample_sha224 : Sha224 := {| sha224 b := take 28 (b ++ replicate 28 x00) |}.
#[local] Instance sample_sha224_laws : Sha224Laws.
Proof.
  split. intros b. cbn [sha224 sample_sha224]. unfold len.
  rewrite length_take, length_app, length_replicate. lia.
Qed.

Definition sample_target : Target := mkTarget (Domain (str_of "example.com")) 443 Tcp.
Definition sample_packet : UdpPacket :=
  mkUdpPacket (mkTarget (Ip (V4 (ipv4 192 0 2 1))) 53 Udp) (str_of "query").
Definition sample_frame : list byte := enc sample_packet.
Definition sample_auth : TrojanAuth :=
  match TrojanAuth_new (str_of "secret") with Ok a => a | _ => mkTrojanAuth [] end.
Definition sample_header : list byte :=
  match encode_request_header sample_auth sample_target with Ok h => h | _ => [] end.

Lemma trojan_roundtrip_witness :
  server_request (sample_header ++ [x41]) = Ok (token sample_auth, sample_target, [x41]).
Proof.
  destruct (trojan_roundtrip (str_of "secret") sample_auth sample_target sample_header sample_packet
    sample_frame [x41]) as (H & _); [vm_compute; reflexivity|by_decision|vm_compute; reflexivity
    |by_decision|vm_compute; reflexivity|exact H].
Defined.

(** The server's packet arrives in two pieces while a datagram is sent in two. *)
Definition sample_io : Script := mkScript [take 5 sample_frame; []; drop 5 sample_frame] [4%nat; 0%nat] [].
Definition run0 : Run := mkRun (NativeUdpSession_new sample_io) None [] [].

Lemma sample_steps : exists x, rtc step run0 x /\ sent x = [sample_packet] /\ received x = [sample_packet].
Proof.
  eexists. split.
  { eapply rtc_l. { eapply (step_send _ (target sample_packet) (payload sample_packet)). vm_compute. reflexivity. }
    eapply rtc_l. { eapply step_poll. vm_compute. reflexivity. }
    eapply rtc_l. { eapply step_recv. vm_compute. reflexivity. }
    eapply rtc_l. { eapply step_poll. vm_compute. reflexivity. }
    eapply rtc_l. { eapply step_recv. vm_compute. reflexivity. }
    apply rtc_refl. }
  split; vm_compute; reflexivity.
Qed.

Lemma trojan_session_witness : exists x,
  sent x = [sample_packet] /\ received x = [sample_packet]
  /\ exists part, taken_out (stream (session x)) = sample_frame ++ part.
Proof.
  destruct sample_steps as (x & Hx & Hs & Hr). exists x. split; [exact Hs|]. split; [exact Hr|].
  destruct (trojan_session sample_io x Hx) as ((part & Hp & _) & _). exists part.
  rewrite Hs in Hp. exact Hp.
Defined.
