(* ===== verification/TlsHello.v ===== *)
(** The server name of a TLS ClientHello, as the sniffers of
    [crates/xray-core-rs/src/sniffing.rs] read it: the record, handshake, extension and name
    readers and [normalize_host]. An [Option] of a function that may slice is [res unit]: [Err tt]
    for [None], and [Panic] for a slice out of range or a loop that does not end. *)
From Stdlib Require Import Strings.Byte.
From S2P Require Import Prelude Net RoutingRules IpText Utf8.

(** [opt?] *)
Definition some {A} (o : option A) : res unit A := ok_or o tt.

(** [l.get(i)] *)
Definition get {A} (l : list A) (i : Z) : option A := if i <? 0 then None else l !! Z.to_nat i.

(** [usize::checked_add] *)
Definition usize_add (a b : Z) : option Z := if a + b <=? usize_max then Some (a + b) else None.

Definition read_u16_at (bytes : list byte) (offset : Z) : option Z :=
  a ← get bytes offset; b ← get bytes (offset + 1); Some (from_be [a; b]).

Definition read_u32 (bytes : list byte) (offset : Z) : option Z :=
  a ← get bytes offset; b ← get bytes (offset + 1); c ← get bytes (offset + 2);
  d ← get bytes (offset + 3); Some (from_be [a; b; c; d]).

Definition read_u24 (bytes : list byte) (offset : Z) : option Z :=
  a ← get bytes offset; b ← get bytes (offset + 1); c ← get bytes (offset + 2);
  Some (Z.lor (Z.lor (Z.shiftl (u8 a) 16) (Z.shiftl (u8 b) 8)) (u8 c)).

(** ** Host names *)

(** [text.rsplit_once(c)]: around the last [c]. *)
Fixpoint rsplit_once (text : str) (c : byte) : option (str * str) :=
  match text with
  | [] => None
  | b :: r =>
    match rsplit_once r c with
    | Some (x, y) => Some (b :: x, y)
    | None => if bool_decide (b = c) then Some ([], r) else None
    end
  end.

Definition is_ascii_digit (b : byte) : bool := (0x30 <=? u8 b) && (u8 b <=? 0x39).

(** [text.contains(c)] for an ASCII character *)
Definition has (text : str) (c : byte) : bool := existsb (fun b => bool_decide (b = c)) text.

Definition strip_port (host : str) : str :=
  match rsplit_once host colon with
  | None => host
  | Some (domain, port) =>
    if has domain colon || bool_decide (port = []) || negb (forallb is_ascii_digit port) then host
    else domain
  end.

Definition normalize_host (host : str) : option str :=
  let host := trim_end_dots (trim_space host) in
  if bool_decide (host = []) || existsb is_whitespace (chars host) then None
  else if starts_with host (str_of "[") then None
  else
    let host_without_port := strip_port host in
    if bool_decide (host_without_port = []) then None
    else
      match parse_ip host_without_port with
      | Some _ => None
      | None => Some (to_ascii_lowercase host_without_port)
      end.

(** ** The ClientHello *)

(** The loop of [parse_tls_sni_extension] over the names. *)
Fixpoint names_loop (fuel : nat) (extension : list byte) (offset list_end : Z) : res unit str :=
  match fuel with
  | O => Panic
  | S fuel =>
    if offset + 3 <=? list_end then
      let? name_type := some (get extension offset) in
      let? name_len := some (read_u16_at extension (offset + 1)) in
      let offset := offset + 3 in
      let? name_end := some (usize_add offset name_len) in
      if list_end <? name_end then Err tt
      else if u8 name_type =? 0 then
        let? name := slice extension offset name_end in
        let? host := some (from_utf8 name) in
        some (normalize_host host)
      else names_loop fuel extension name_end list_end
    else Err tt
  end.

Definition parse_tls_sni_extension (extension : list byte) : res unit str :=
  let? list_len := some (read_u16_at extension 0) in
  if len extension <? list_len + 2 then Err tt
  else names_loop (S (length extension)) extension 2 (2 + list_len).

(** The loop of [sniff_tls_client_hello_body_sni] over the extensions. *)
Fixpoint extensions_loop (fuel : nat) (body : list byte) (offset extensions_end : Z) : res unit str :=
  match fuel with
  | O => Panic
  | S fuel =>
    if offset + 4 <=? extensions_end then
      let? extension_type := some (read_u16_at body offset) in
      let? extension_len := some (read_u16_at body (offset + 2)) in
      let offset := offset + 4 in
      let? extension_end := some (usize_add offset extension_len) in
      if extensions_end <? extension_end then Err tt
      else if extension_type =? 0 then
        let? extension := slice body offset extension_end in
        parse_tls_sni_extension extension
      else extensions_loop fuel body extension_end extensions_end
    else Err tt
  end.

Definition sniff_tls_client_hello_body_sni (body : list byte) : res unit str :=
  let? offset := some (usize_add 0 (2 + 32)) in
  let? session_id_len := some (get body offset) in
  let? offset := some (usize_add offset (1 + u8 session_id_len)) in
  let? cipher_suites_len := some (read_u16_at body offset) in
  let? offset := some (usize_add offset (2 + cipher_suites_len)) in
  let? compression_methods_len := some (get body offset) in
  let? offset := some (usize_add offset (1 + u8 compression_methods_len)) in
  let? extensions_len := some (read_u16_at body offset) in
  let offset := offset + 2 in
  let? extensions_end := some (usize_add offset extensions_len) in
  if len body <? extensions_end then Err tt
  else extensions_loop (S (length body)) body offset extensions_end.

Definition sniff_tls_client_hello_handshake_sni (handshake : list byte) : res unit str :=
  if len handshake <? 4 then Err tt
  else
    let? first := index handshake 0 in
    if negb (u8 first =? 1) then Err tt
    else
      let? handshake_len := some (read_u24 handshake 1) in
      let? body_end := some (usize_add 4 handshake_len) in
      if len handshake <? body_end then Err tt
      else
        let? body := slice handshake 4 body_end in
        sniff_tls_client_hello_body_sni body.

Definition sniff_tls_client_hello_sni (payload : list byte) : res unit str :=
  if len payload <? 9 then Err tt
  else
    let? first := index payload 0 in
    if negb (u8 first =? 22) then Err tt
    else
      let? record_len := some (read_u16_at payload 3) in
      if len payload <? 5 + record_len then Err tt
      else
        let? handshake := slice payload 5 (5 + record_len) in
        sniff_tls_client_hello_handshake_sni handshake.

(** ** Reference: the messages a client sends (RFC 8446 and RFC 6066) *)

(** [opaque data<0..2^(8n)-1>]: the bytes after their length. *)
Definition vec (n : nat) (data : list byte) : list byte := be_bytes n (len data) ++ data.

(** An entry of a server name list, and an extension: a type and its data. *)
Definition encode_name (e : Z * list byte) : list byte := to_u8 (fst e) :: vec 2 (snd e).
Definition encode_extension (e : Z * list byte) : list byte := be_bytes 2 (fst e) ++ vec 2 (snd e).

Definition server_name_list (names : list (Z * list byte)) : list byte :=
  vec 2 (concat (map encode_name names)).

Record ClientHello := mkClientHello {
  version_random : list byte;
  session_id : list byte;
  cipher_suites : list byte;
  compression_methods : list byte;
  extensions : list (Z * list byte)
}.

Definition encode_body (h : ClientHello) : list byte :=
  version_random h ++ vec 1 (session_id h) ++ vec 2 (cipher_suites h)
  ++ vec 1 (compression_methods h) ++ vec 2 (concat (map encode_extension (extensions h))).

(** The handshake message, of type 1. *)
Definition encode_handshake (h : ClientHello) : list byte := x01 :: vec 3 (encode_body h).

(** The TLS record that holds a handshake message, of type 22. *)
Definition encode_record (minor : byte) (message : list byte) : list byte :=
  [x16; x03; minor] ++ vec 2 message.

(** What TLS requires of the fields of a hello. *)
Definition hello_ok (h : ClientHello) : Prop :=
  len (version_random h) = 34 /\ len (session_id h) < 256 /\ len (cipher_suites h) < 65536
  /\ len (compression_methods h) < 256
  /\ Forall (fun e => in_u16 (fst e) /\ len (snd e) < 65536) (extensions h)
  /\ len (concat (map encode_extension (extensions h))) < 65536.

Definition names_ok (names : list (Z * list byte)) : Prop :=
  Forall (fun e => in_u8 (fst e) /\ len (snd e) < 65536) names
  /\ len (concat (map encode_name names)) < 65536.

(** The first entry of type 0. *)
Definition entry0 (l : list (Z * list byte)) : option (list byte) :=
  snd <$> List.find (fun e => fst e =? 0) l.

(** The name that a sniffer should find: the first host name of the first server name extension. *)
Definition hello_name (h : ClientHello) : res unit str :=
  let? data := some (entry0 (extensions h)) in
  parse_tls_sni_extension data.

(** A name that routing can use. *)
Record usable_name (d : str) : Prop := {
  un_nonempty : d <> [];
  un_lower : to_ascii_lowercase d = d;
  un_not_ip : parse_ip d = None;
  un_text : exists cs, utf8_chars d = Some cs /\ Forall (fun c => is_whitespace c = false) cs
}.

(** ** Reading fields *)

Lemma get_eq {A} (x y l : list A) a i : l = x ++ a :: y -> len x = i -> get l i = Some a.
Proof.
  intros -> <-. unfold get. guard_false by (pose proof (len_nonneg x); lia).
  rewrite list_lookup_middle; [done | unfold len; lia].
Qed.

Lemma be_bytes2 z : be_bytes 2 z = [to_u8 (z / 256); to_u8 z].
Proof. simpl. by rewrite Z.div_1_r. Qed.

Lemma read_u16_at_eq x y l z i :
  l = x ++ be_bytes 2 z ++ y -> len x = i -> in_u16 z -> read_u16_at l i = Some z.
Proof.
  intros -> <- Hz. unfold read_u16_at. rewrite be_bytes2. cbn [app].
  rewrite (get_eq x (to_u8 z :: y) _ (to_u8 (z / 256)) (len x)) by done. cbn [mbind option_bind].
  rewrite (get_eq (x ++ [to_u8 (z / 256)]) y _ (to_u8 z) (len x + 1))
    by (rewrite <- ?app_assoc; by len_simpl). cbn [mbind option_bind].
  rewrite <- be_bytes2. by rewrite from_be_bytes_small.
Qed.

Lemma u24_from_be a b c :
  Z.lor (Z.lor (Z.shiftl (u8 a) 16) (Z.shiftl (u8 b) 8)) (u8 c) = from_be [a; b; c].
Proof.
  pose proof (u8_range a). pose proof (u8_range b). pose proof (u8_range c).
  rewrite Z.lor_comm, Z.lor_comm with (a := Z.shiftl (u8 a) 16), Z.lor_assoc.
  rewrite (lor_disjoint_add (u8 c)) by lia. change (2 ^ 8) with 256.
  rewrite lor_disjoint_add by (change (2 ^ 16) with 65536; lia). unfold from_be. simpl. lia.
Qed.

Lemma read_u24_eq x y l z i :
  l = x ++ be_bytes 3 z ++ y -> len x = i -> 0 <= z < 16777216 -> read_u24 l i = Some z.
Proof.
  intros -> <- Hz. unfold read_u24. set (w := be_bytes 3 z).
  assert (exists a b c, w = [a; b; c]) as (a & b & c & Hw) by (do 3 eexists; reflexivity).
  rewrite Hw. cbn [app].
  rewrite (get_eq x (b :: c :: y) _ a (len x)) by done. cbn [mbind option_bind].
  rewrite (get_eq (x ++ [a]) (c :: y) _ b (len x + 1)) by (rewrite <- ?app_assoc; by len_simpl).
  cbn [mbind option_bind].
  rewrite (get_eq (x ++ [a; b]) y _ c (len x + 2)) by (rewrite <- ?app_assoc; by len_simpl).
  cbn [mbind option_bind]. rewrite u24_from_be, <- Hw. unfold w. by rewrite from_be_bytes_small.
Qed.

Lemma read_u16_at_range l i z : read_u16_at l i = Some z -> in_u16 z.
Proof.
  unfold read_u16_at. destruct (get l i) as [a|]; [|done]. destruct (get l (i + 1)) as [b|]; [|done].
  simpl. intros [= <-]. pose proof (from_be_range [a; b]) as R. exact R.
Qed.

Lemma read_u24_range l i z : read_u24 l i = Some z -> 0 <= z < 16777216.
Proof.
  unfold read_u24. destruct (get l i) as [a|]; [|done]. destruct (get l (i + 1)) as [b|]; [|done].
  destruct (get l (i + 2)) as [c|]; [|done]. simpl. intros [= <-]. rewrite u24_from_be.
  exact (from_be_range [a; b; c]).
Qed.

Lemma usize_add_eq a b : a + b <= usize_max -> usize_add a b = Some (a + b).
Proof. intros. unfold usize_add. by guard_true by lia. Qed.

Lemma usize_add_some a b c : usize_add a b = Some c -> c = a + b.
Proof. unfold usize_add. case_if; congruence. Qed.

Lemma ok_or_inv {E A} (o : option A) (e : E) a : ok_or o e = Ok a -> o = Some a.
Proof. by destruct o; simpl; intros; simplify_eq. Qed.

Lemma some_inv {A} (o : option A) a : some o = Ok a -> o = Some a.
Proof. apply ok_or_inv. Qed.

Lemma some_safe {A} (o : option A) : some o <> Panic.
Proof. apply ok_or_no_panic. Qed.
#[export] Hint Resolve some_safe : rust.

(** Walks through the binds of a reader that slices only where it has checked. *)
Ltac walk :=
  repeat first
    [ discriminate
    | progress cbv zeta
    | solve [auto with rust nocore]
    | apply res_bind_no_panic; [try apply some_safe; try apply ok_or_no_panic | let a := fresh "a" in let Ha := fresh "Ha" in
        intros a Ha; try first [apply some_inv in Ha | apply ok_or_inv in Ha]]
    | match goal with x : prod _ _ |- _ => destruct x end
    | case_if ].

(** ** No input makes a reader panic or loop *)

Lemma names_loop_safe fuel ext offset list_end :
  0 <= offset -> list_end <= len ext -> (Z.to_nat (list_end - offset) < fuel)%nat ->
  names_loop fuel ext offset list_end <> Panic.
Proof.
  revert offset. induction fuel as [|fuel IH]; intros offset Ho Hl Hf; [lia|]. cbn [names_loop].
  walk; unbool; apply usize_add_some in Ha1 as ->; apply read_u16_at_range in Ha0; red in Ha0.
  - apply slice_no_panic; lia.
  - apply IH; lia.
Qed.

Lemma parse_sni_safe ext : parse_tls_sni_extension ext <> Panic.
Proof.
  unfold parse_tls_sni_extension. walk. apply read_u16_at_range in Ha. red in Ha. unbool.
  apply names_loop_safe; unfold len in *; lia.
Qed.
#[export] Hint Resolve parse_sni_safe : rust.

Lemma extensions_loop_safe fuel body offset extensions_end :
  0 <= offset -> extensions_end <= len body -> (Z.to_nat (extensions_end - offset) < fuel)%nat ->
  extensions_loop fuel body offset extensions_end <> Panic.
Proof.
  revert offset. induction fuel as [|fuel IH]; intros offset Ho Hl Hf; [lia|]. cbn [extensions_loop].
  walk; unbool; apply usize_add_some in Ha1 as ->; apply read_u16_at_range in Ha0; red in Ha0.
  - apply slice_no_panic; lia.
  - apply IH; lia.
Qed.

Lemma body_sni_safe body : sniff_tls_client_hello_body_sni body <> Panic.
Proof.
  unfold sniff_tls_client_hello_body_sni. walk. unbool.
  repeat match goal with
  | H : usize_add _ _ = Some _ |- _ => apply usize_add_some in H; subst
  | H : read_u16_at _ _ = Some ?z |- _ => apply read_u16_at_range in H; red in H
  | H : get _ _ = Some ?b |- _ => pose proof (u8_range b); clear H
  end.
  apply extensions_loop_safe; unfold len in *; lia.
Qed.
#[export] Hint Resolve body_sni_safe : rust.

Lemma handshake_sni_safe h : sniff_tls_client_hello_handshake_sni h <> Panic.
Proof.
  unfold sniff_tls_client_hello_handshake_sni. walk; unbool.
  - apply index_no_panic. lia.
  - apply usize_add_some in Ha1 as ->. apply read_u24_range in Ha0. apply slice_no_panic; lia.
Qed.
#[export] Hint Resolve handshake_sni_safe : rust.

Lemma record_sni_safe p : sniff_tls_client_hello_sni p <> Panic.
Proof.
  unfold sniff_tls_client_hello_sni. walk; unbool.
  - apply index_no_panic. lia.
  - apply read_u16_at_range in Ha0. red in Ha0. apply slice_no_panic; lia.
Qed.
#[export] Hint Resolve record_sni_safe : rust.

(** ** Usable names *)

Lemma rsplit_once_spec s c x y : rsplit_once s c = Some (x, y) -> s = x ++ c :: y.
Proof.
  revert x. induction s as [|b s IH]; intros x; simpl; [done|].
  destruct (rsplit_once s c) as [[x' y']|] eqn:E.
  - intros [= <- <-]. by rewrite (IH x').
  - case_bool_decide; [|done]. by intros [= <- <-]; subst.
Qed.

Lemma strip_port_prefix s : exists t, s = strip_port s ++ t /\ (t = [] \/ exists r, t = colon :: r).
Proof.
  unfold strip_port. destruct (rsplit_once s colon) as [[x y]|] eqn:E;
    [|exists []; rewrite app_nil_r; auto].
  apply rsplit_once_spec in E. case_if; [exists []; rewrite app_nil_r; auto|].
  exists (colon :: y). split; [done | right; by exists y].
Qed.

Lemma normalize_host_usable host d :
  is_utf8 host = true -> normalize_host host = Some d -> usable_name d.
Proof.
  unfold is_utf8, normalize_host. destruct (utf8_chars host) as [cs|] eqn:Hc; [|done]. intros _.
  destruct (trim_space_spec _ _ Hc) as (a & m & z & -> & Ht & _).
  destruct (trim_end_dots_utf8 _ _ Ht) as (ts & n & Hd & ->).
  set (h := trim_end_dots (trim_space host)) in *. unfold chars. rewrite Hd. cbn [from_option]. unfold id.
  case_if; [done|]. apply orb_false_iff in Heqb as [_ Hws]. case_if; [done|]. case_if; [done|].
  destruct (parse_ip (strip_port h)) eqn:Hip; [done|]. intros [= <-]. unbool.
  assert (exists ss, utf8_chars (strip_port h) = Some ss
          /\ existsb is_whitespace ss = false) as (ss & Hss & Hsw).
  { destruct (strip_port_prefix h) as (t & Hh & [-> |[r ->]]).
    - rewrite app_nil_r in Hh. rewrite <- Hh. by exists ts.
    - rewrite Hh in Hd. apply utf8_split in Hd as (ss & rs & Hs & _ & ->); [|by vm_compute].
      exists ss. split; [done|]. rewrite existsb_app in Hws. by apply orb_false_iff in Hws as [? _]. }
  split.
  - intros E. apply (f_equal length) in E. rewrite length_lower in E. by destruct (strip_port h).
  - apply lower_idem.
  - by rewrite parse_ip_lower.
  - exists (map lower_char ss). split; [by apply utf8_lower|].
    apply Forall_map, List.Forall_forall. intros c Hin. unfold compose. rewrite lower_char_whitespace.
    destruct (is_whitespace c) eqn:E; [|done]. exfalso.
    assert (existsb is_whitespace ss = true) by (apply existsb_exists; eauto). congruence.
Qed.

(** A host name of letters, digits, hyphens, underscores and dots that is not an address. *)
Definition host_byte (b : byte) : bool :=
  is_ascii_digit b || ((0x61 <=? u8 (ascii_lower b)) && (u8 (ascii_lower b) <=? 0x7A))
  || bool_decide (b ∈ [dot; "-"%byte; "_"%byte]).

Definition host_name (d : str) : bool :=
  negb (bool_decide (d = [])) && forallb host_byte d
  && negb (bool_decide (list.last d = Some dot)) && bool_decide (parse_ip d = None).

Lemma host_byte_facts b :
  host_byte b = true -> u8 b < 0x80 /\ is_whitespace (u8 b) = false /\ b <> colon /\ b <> "["%byte.
Proof. by destruct b. Qed.

Lemma rsplit_once_none s c : Forall (fun b => b <> c) s -> rsplit_once s c = None.
Proof.
  induction 1 as [|b s Hb _ IH]; [done|]. simpl. rewrite IH. by rewrite bool_decide_eq_false_2.
Qed.

Lemma normalize_host_name d : host_name d = true -> normalize_host d = Some (to_ascii_lowercase d).
Proof.
  unfold host_name. intros H. unbool.
  assert (Forall (fun b => u8 b < 0x80 /\ is_whitespace (u8 b) = false /\ b <> colon /\ b <> "["%byte) d) as HF.
  { apply List.Forall_forall. intros b Hb. apply host_byte_facts.
    match goal with H : forallb _ _ = true |- _ => by apply (proj1 (forallb_forall _ _) H) end. }
  assert (utf8_chars d = Some (map u8 d)) as Hu by (apply utf8_ascii; eapply list.Forall_impl; [exact HF | naive_solver]).
  assert (Forall (fun c => is_whitespace c = false) (map u8 d)) as Hw
    by (apply Forall_map; eapply list.Forall_impl; [exact HF | unfold compose; naive_solver]).
  unfold normalize_host. rewrite (trim_space_id d (map u8 d)), trim_end_dots_id by done.
  rewrite bool_decide_eq_false_2 by done. unfold chars. rewrite Hu. cbn [from_option orb]. unfold id.
  assert (existsb is_whitespace (map u8 d) = false) as ->.
  { destruct (existsb is_whitespace (map u8 d)) eqn:E; [|done].
    apply existsb_exists in E as (c & Hc & Hs). pose proof (Forall_In _ _ _ Hw Hc). simpl in *. congruence. }
  destruct d as [|b d]; [done|]. inversion HF as [|? ? (_ & _ & _ & Hb) _]. cbn [starts_with str_of].
  change (str_of "[") with ["["%byte]. simpl. rewrite bool_decide_eq_false_2 by done. cbn [andb].
  unfold strip_port. rewrite rsplit_once_none by (eapply list.Forall_impl; [exact HF | naive_solver]).
  rewrite bool_decide_eq_false_2 by done. by match goal with H : parse_ip _ = None |- _ => rewrite H end.
Qed.

Lemma names_loop_usable fuel ext offset list_end d :
  names_loop fuel ext offset list_end = Ok d -> usable_name d.
Proof.
  revert offset. induction fuel as [|fuel IH]; intros offset; cbn [names_loop]; [done|].
  case_if; [|done]. intros (t & Ht & H)%res_bind_ok_inv. cbv zeta in H.
  apply res_bind_ok_inv in H as (l & Hl & H). apply res_bind_ok_inv in H as (e & He & H).
  case_if_in H; [done|]. case_if_in H; [|by apply IH in H].
  apply res_bind_ok_inv in H as (name & _ & H). apply res_bind_ok_inv in H as (host & Hh & H).
  apply some_inv in Hh. apply some_inv in H. apply normalize_host_usable in H; [done|].
  unfold from_utf8 in Hh. unfold is_utf8. destruct (utf8_chars name) eqn:E; [|done].
  simplify_eq. by rewrite E.
Qed.

Lemma extensions_loop_usable fuel body offset e d :
  extensions_loop fuel body offset e = Ok d -> usable_name d.
Proof.
  revert offset. induction fuel as [|fuel IH]; intros offset; cbn [extensions_loop]; [done|].
  case_if; [|done]. intros (t & Ht & H)%res_bind_ok_inv. cbv zeta in H.
  apply res_bind_ok_inv in H as (l & Hl & H). apply res_bind_ok_inv in H as (x & Hx & H).
  case_if_in H; [done|]. case_if_in H; [|by apply IH in H].
  apply res_bind_ok_inv in H as (ext & _ & H). unfold parse_tls_sni_extension in H.
  apply res_bind_ok_inv in H as (n & _ & H). case_if_in H; [done|]. by apply names_loop_usable in H.
Qed.

Lemma handshake_sni_usable h d : sniff_tls_client_hello_handshake_sni h = Ok d -> usable_name d.
Proof.
  unfold sniff_tls_client_hello_handshake_sni. case_if; [done|]. intros (f & _ & H)%res_bind_ok_inv.
  case_if_in H; [done|]. apply res_bind_ok_inv in H as (n & _ & H).
  apply res_bind_ok_inv in H as (e & _ & H). case_if_in H; [done|].
  apply res_bind_ok_inv in H as (body & _ & H). unfold sniff_tls_client_hello_body_sni in H.
  repeat (apply res_bind_ok_inv in H as (? & _ & H); cbv zeta in H). case_if_in H; [done|].
  by apply extensions_loop_usable in H.
Qed.

Lemma record_sni_usable p d : sniff_tls_client_hello_sni p = Ok d -> usable_name d.
Proof.
  unfold sniff_tls_client_hello_sni. case_if; [done|]. intros (f & _ & H)%res_bind_ok_inv.
  case_if_in H; [done|]. apply res_bind_ok_inv in H as (n & _ & H). case_if_in H; [done|].
  apply res_bind_ok_inv in H as (h & _ & H). by apply handshake_sni_usable in H.
Qed.

(** ** What a client sent is what is read *)

Lemma to_u8_zero z : in_u8 z -> (u8 (to_u8 z) =? 0) = (z =? 0).
Proof. intros Hz. by rewrite u8_to_u8_small. Qed.

Lemma names_loop_eq names fuel pre post l e :
  Forall (fun e => in_u8 (fst e) /\ len (snd e) < 65536) names ->
  l = pre ++ concat (map encode_name names) ++ post ->
  e = len pre + len (concat (map encode_name names)) -> e < 131072 -> (length names < fuel)%nat ->
  names_loop fuel l (len pre) e
  = (let? name := some (entry0 names) in let? host := some (from_utf8 name) in some (normalize_host host)).
Proof.
  intros HF. revert fuel pre. induction HF as [|[t d] names [Ht Hd] HF IH]; intros fuel pre Hl He Hm Hf;
    (destruct fuel as [|fuel]; [simpl in Hf; lia|]); cbn [names_loop].
  - cbn in He. by guard_false by (change (len (@nil byte)) with 0 in He; lia).
  - cbn [map concat] in Hl, He. unfold encode_name at 1, vec in Hl. unfold encode_name at 1, vec in He.
    cbn [fst snd] in *. rewrite !len_app, len_cons, len_app, len_be_bytes in He.
    pose proof (len_nonneg (concat (map encode_name names))). pose proof (len_nonneg d).
    pose proof (len_nonneg pre). change (Z.of_nat 2) with 2 in He. guard_true by lia.
    rewrite (get_eq pre ((be_bytes 2 (len d) ++ d) ++ concat (map encode_name names) ++ post) l (to_u8 t))
      by (subst; rewrite <- ?app_assoc; done). cbn [some ok_or res_bind].
    rewrite (read_u16_at_eq (pre ++ [to_u8 t]) (d ++ concat (map encode_name names) ++ post) l (len d))
      by (subst; rewrite <- ?app_assoc; unfold in_u16; len_simpl; done || lia).
    cbn [some ok_or res_bind]. cbv zeta. rewrite usize_add_eq by (unfold usize_max, u64_max; lia).
    cbn [some ok_or res_bind]. guard_false by lia. rewrite to_u8_zero by done. unfold entry0. cbn [List.find].
    cbn [fst]. destruct (t =? 0) eqn:E0.
    + rewrite (slice_eq (pre ++ [to_u8 t] ++ be_bytes 2 (len d)) d (concat (map encode_name names) ++ post) l)
        by (subst; rewrite <- ?app_assoc; len_simpl; done || lia). done.
    + replace (len pre + 3 + len d) with (len (pre ++ [to_u8 t] ++ be_bytes 2 (len d) ++ d))
        by (len_simpl; lia).
      apply IH; try done; [subst; by rewrite <- ?app_assoc | len_simpl; lia | simpl in Hf; lia].
Qed.

Lemma parse_names names post :
  names_ok names ->
  parse_tls_sni_extension (server_name_list names ++ post)
  = (let? name := some (entry0 names) in let? host := some (from_utf8 name) in some (normalize_host host)).
Proof.
  intros [HF Hl]. unfold parse_tls_sni_extension, server_name_list, vec.
  set (c := concat (map encode_name names)) in *. pose proof (len_nonneg c). pose proof (len_nonneg post).
  rewrite (read_u16_at_eq [] (c ++ post) _ (len c)) by (rewrite <- ?app_assoc; unfold in_u16; done || lia).
  cbn [some ok_or res_bind]. guard_false by (len_simpl; lia).
  change 2 with (len (be_bytes 2 (len c))) at 1.
  apply (names_loop_eq names _ (be_bytes 2 (len c)) post);
    [done | by rewrite <- ?app_assoc | done | lia |].
  rewrite !length_app, length_be_bytes. enough (length names <= length c)%nat by lia.
  unfold c. clear. induction names as [|e names IH]; [done|]. cbn [map concat length].
  rewrite length_app. unfold encode_name at 1. simpl. lia.
Qed.

Lemma extensions_loop_eq exts fuel pre post l e :
  Forall (fun e => in_u16 (fst e) /\ len (snd e) < 65536) exts ->
  l = pre ++ concat (map encode_extension exts) ++ post ->
  e = len pre + len (concat (map encode_extension exts)) -> e < 16777216 -> (length exts < fuel)%nat ->
  extensions_loop fuel l (len pre) e
  = (let? data := some (entry0 exts) in parse_tls_sni_extension data).
Proof.
  intros HF. revert fuel pre. induction HF as [|[t d] exts [Ht Hd] HF IH]; intros fuel pre Hl He Hm Hf;
    (destruct fuel as [|fuel]; [simpl in Hf; lia|]); cbn [extensions_loop].
  - cbn in He. by guard_false by (change (len (@nil byte)) with 0 in He; lia).
  - cbn [map concat] in Hl, He. unfold encode_extension at 1, vec in Hl.
    unfold encode_extension at 1, vec in He. cbn [fst snd] in *.
    rewrite !len_app, !len_be_bytes in He. set (c := concat (map encode_extension exts)) in *.
    pose proof (len_nonneg c). pose proof (len_nonneg d).
    pose proof (len_nonneg pre). change (Z.of_nat 2) with 2 in He. guard_true by lia.
    rewrite (read_u16_at_eq pre ((be_bytes 2 (len d) ++ d) ++ c ++ post) l t)
      by (subst; rewrite <- ?app_assoc; done). cbn [some ok_or res_bind].
    rewrite (read_u16_at_eq (pre ++ be_bytes 2 t) (d ++ c ++ post) l (len d))
      by (subst; rewrite <- ?app_assoc; unfold in_u16; len_simpl; done || lia).
    cbn [some ok_or res_bind]. cbv zeta. rewrite usize_add_eq by (unfold usize_max, u64_max; lia).
    cbn [some ok_or res_bind]. guard_false by lia. unfold entry0. cbn [List.find fst].
    destruct (t =? 0) eqn:E0.
    + rewrite (slice_eq (pre ++ be_bytes 2 t ++ be_bytes 2 (len d)) d (c ++ post) l)
        by (subst; rewrite <- ?app_assoc; len_simpl; done || lia). done.
    + replace (len pre + 4 + len d) with (len (pre ++ be_bytes 2 t ++ be_bytes 2 (len d) ++ d))
        by (len_simpl; lia).
      apply IH; try done; [subst; by rewrite <- ?app_assoc | len_simpl; lia | simpl in Hf; lia].
Qed.

Lemma length_extensions exts : (length exts <= length (concat (map encode_extension exts)))%nat.
Proof.
  induction exts as [|e exts IH]; [done|]. cbn [map concat length]. rewrite length_app.
  unfold encode_extension at 1, vec. rewrite !length_app, !length_be_bytes. lia.
Qed.

Lemma body_sni_eq h post : hello_ok h -> sniff_tls_client_hello_body_sni (encode_body h ++ post) = hello_name h.
Proof.
  intros (Hv & Hs & Hc & Hm & HF & He). unfold sniff_tls_client_hello_body_sni, encode_body, vec.
  destruct h as [v s cs m exts]. cbn [version_random session_id cipher_suites compression_methods extensions] in *.
  set (c := concat (map encode_extension exts)) in *. pose proof (len_nonneg c). pose proof (len_nonneg s).
  pose proof (len_nonneg cs). pose proof (len_nonneg m). pose proof (len_nonneg post).
  assert (forall d : list byte, len d < 256 -> be_bytes 1 (len d) = [to_u8 (len d)]) as B1
    by (intros d ?; simpl; by rewrite Z.div_1_r).
  rewrite !B1 by done.
  match goal with |- context [get ?x _] => set (l := x) end.
  rewrite usize_add_eq by (unfold usize_max, u64_max; lia). cbn [some ok_or res_bind].
  rewrite (get_eq v (s ++ be_bytes 2 (len cs) ++ cs ++ [to_u8 (len m)] ++ m ++ be_bytes 2 (len c) ++ c ++ post)
    l (to_u8 (len s))) by (unfold l; rewrite <- ?app_assoc; done).
  cbn [some ok_or res_bind]. rewrite u8_to_u8_small by lia.
  rewrite usize_add_eq by (unfold usize_max, u64_max; lia). cbn [some ok_or res_bind].
  rewrite (read_u16_at_eq (v ++ [to_u8 (len s)] ++ s) (cs ++ [to_u8 (len m)] ++ m ++ be_bytes 2 (len c) ++ c ++ post)
    l (len cs)) by (unfold l, in_u16; rewrite <- ?app_assoc; len_simpl; done || lia).
  cbn [some ok_or res_bind]. rewrite usize_add_eq by (unfold usize_max, u64_max; lia). cbn [some ok_or res_bind].
  rewrite (get_eq (v ++ [to_u8 (len s)] ++ s ++ be_bytes 2 (len cs) ++ cs) (m ++ be_bytes 2 (len c) ++ c ++ post)
    l (to_u8 (len m))) by (unfold l; rewrite <- ?app_assoc; len_simpl; done || lia).
  cbn [some ok_or res_bind]. rewrite u8_to_u8_small by lia.
  rewrite usize_add_eq by (unfold usize_max, u64_max; lia). cbn [some ok_or res_bind].
  set (pre := v ++ [to_u8 (len s)] ++ s ++ be_bytes 2 (len cs) ++ cs ++ [to_u8 (len m)] ++ m).
  rewrite (read_u16_at_eq pre (c ++ post)
    l (len c)) by (unfold l, pre, in_u16; rewrite <- ?app_assoc; len_simpl; done || lia).
  cbn [some ok_or res_bind]. cbv zeta. rewrite usize_add_eq by (unfold usize_max, u64_max; lia).
  cbn [some ok_or res_bind]. guard_false by (unfold l; len_simpl; lia).
  replace (0 + (2 + 32) + (1 + len s) + (2 + len cs) + (1 + len m) + 2) with (len (pre ++ be_bytes 2 (len c)))
    by (unfold pre; len_simpl; lia).
  apply (extensions_loop_eq exts _ _ post); try done.
  - unfold l, pre. by rewrite <- ?app_assoc.
  - unfold pre. len_simpl. lia.
  - pose proof (length_extensions exts) as Hx. fold c in Hx. unfold l. rewrite !length_app. lia.
Qed.

Lemma handshake_sni_eq h post :
  hello_ok h -> sniff_tls_client_hello_handshake_sni (encode_handshake h ++ post) = hello_name h.
Proof.
  intros Hh. pose proof Hh as (Hv & Hs & Hc & Hm & _ & He).
  unfold sniff_tls_client_hello_handshake_sni, encode_handshake, vec.
  set (body := encode_body h). assert (0 <= len body < 16777216) as Hb.
  { unfold body, encode_body, vec. pose proof (len_nonneg (session_id h)).
    pose proof (len_nonneg (cipher_suites h)). pose proof (len_nonneg (compression_methods h)).
    len_simpl. pose proof (len_nonneg (concat (map encode_extension (extensions h)))). lia. }
  pose proof (len_nonneg post). guard_false by (len_simpl; lia).
  change (index ((x01 :: be_bytes 3 (len body) ++ body) ++ post) 0) with (@Ok unit byte x01). cbn [res_bind].
  change (negb (u8 x01 =? 1)) with false. cbv iota.
  rewrite (read_u24_eq [x01] (body ++ post) _ (len body)) by (cbn [app]; rewrite <- ?app_assoc; done).
  cbn [some ok_or res_bind]. rewrite usize_add_eq by (unfold usize_max, u64_max; lia).
  cbn [some ok_or res_bind]. guard_false by (len_simpl; lia).
  rewrite (slice_eq (x01 :: be_bytes 3 (len body)) body post)
    by (cbn [app]; rewrite <- ?app_assoc; len_simpl; done || lia).
  cbn [res_bind]. rewrite <- (app_nil_r body). by apply body_sni_eq.
Qed.

Lemma record_sni_eq minor h message post :
  hello_ok h -> len message < 65536 -> (exists r, message = encode_handshake h ++ r) ->
  sniff_tls_client_hello_sni (encode_record minor message ++ post) = hello_name h.
Proof.
  intros Hh Hm [r Hr]. unfold sniff_tls_client_hello_sni, encode_record, vec.
  assert (4 <= len message).
  { rewrite Hr, len_app. unfold encode_handshake, vec. rewrite len_cons, len_app, len_be_bytes.
    pose proof (len_nonneg (encode_body h)). pose proof (len_nonneg r). lia. }
  pose proof (len_nonneg post). guard_false by (len_simpl; lia).
  change (index (([x16; x03; minor] ++ be_bytes 2 (len message) ++ message) ++ post) 0)
    with (@Ok unit byte x16). cbn [res_bind]. change (negb (u8 x16 =? 22)) with false. cbv iota.
  rewrite (read_u16_at_eq [x16; x03; minor] (message ++ post) _ (len message))
    by (rewrite <- ?app_assoc; unfold in_u16; done || lia).
  cbn [some ok_or res_bind]. guard_false by (len_simpl; lia).
  rewrite (slice_eq ([x16; x03; minor] ++ be_bytes 2 (len message)) message post)
    by (rewrite <- ?app_assoc; len_simpl; done || lia).
  cbn [res_bind]. rewrite Hr. by apply handshake_sni_eq.
Qed.

(** ** What the sniffer reads *)

(** The server name that is sniffed is the one the client put into its hello: for every
    ClientHello, in a record that may hold more messages and be followed by anything, the reader
    finds the first host name of the first server name extension, wherever it stands among the
    other extensions and name types; a host name is given back in lower case, other texts as
    [normalize_host] makes of them, and a hello without the extension or with a name that is not
    text gives nothing. *)
Theorem tls_sni_roundtrip minor h more post :
  hello_ok h -> len (encode_handshake h ++ more) < 65536 ->
  let payload := encode_record minor (encode_handshake h ++ more) ++ post in
  (entry0 (extensions h) = None -> sniff_tls_client_hello_sni payload = Err tt)
  /\ (forall names trailing,
        entry0 (extensions h) = Some (server_name_list names ++ trailing) -> names_ok names ->
        (entry0 names = None -> sniff_tls_client_hello_sni payload = Err tt)
        /\ forall name, entry0 names = Some name ->
           sniff_tls_client_hello_sni payload
           = (if is_utf8 name then some (normalize_host name) else Err tt)
           /\ (host_name name = true ->
               sniff_tls_client_hello_sni payload = Ok (to_ascii_lowercase name))).
Proof.
  intros Hh Hl payload.
  assert (sniff_tls_client_hello_sni payload = hello_name h) as Hp
    by (apply record_sni_eq; [done | done | by eexists]).
  rewrite Hp. unfold hello_name. split; [by intros -> |]. intros names trailing -> Hn.
  cbn [some ok_or res_bind]. rewrite parse_names by done. split; [by intros -> |]. intros name ->.
  cbn [some ok_or res_bind]. unfold from_utf8, is_utf8. split.
  - by destruct (utf8_chars name).
  - intros Hd. pose proof (normalize_host_name name Hd) as Hn'. unfold host_name in Hd. unbool.
    rewrite (utf8_ascii name); [cbn [some ok_or res_bind]; by rewrite Hn'|]. apply List.Forall_forall. intros b Hb.
    match goal with H : forallb _ _ = true |- _ => apply (proj1 (forallb_forall _ _) H) in Hb end.
    by apply host_byte_facts in Hb as [? _].
Qed.

Definition sample_hello : ClientHello :=
  mkClientHello (replicate 34 x03) [x01; x02] [x13; x01] [x00]
    [(0x2b, [x03; x04]); (0, server_name_list [(0, str_of "WWW.Example.com")]); (16, [])].

(** [tls_sni_roundtrip] at [sample_hello], whose name comes second. *)
Lemma tls_sni_roundtrip_witness :
  sniff_tls_client_hello_sni (encode_record x01 (encode_handshake sample_hello ++ []) ++ [x17; x03])
  = Ok (str_of "www.example.com").
Proof.
  refine (proj2 (proj2 (proj2 (tls_sni_roundtrip x01 sample_hello [] [x17; x03] _ _)
    [(0, str_of "WWW.Example.com")] [] _ _) (str_of "WWW.Example.com") _) _).
  - unfold hello_ok, in_u16, len. simpl. split_and!; try lia. repeat constructor; simpl; lia.
  - unfold len. simpl. lia.
  - reflexivity.
  - unfold names_ok, in_u8, len. simpl. split; [repeat constructor; simpl; lia | lia].
  - reflexivity.
  - reflexivity.
Defined.
