(* ===== verification/Sniffing.v ===== *)
(** Sniffing the first bytes of a TCP flow: [crates/xray-core-rs/src/sniffing.rs] (HTTP, TLS and
    BitTorrent, in this order) with the settings of [crates/xray-config/src/model.rs]. What a
    sniffed name makes of a flow's target is shared with the QUIC sniffer. *)
From Stdlib Require Import Strings.Byte.
From S2P Require Import Prelude Net IpRangeSet DomainMatcher RoutingRules IpText Utf8 TlsHello.

(** ** Settings *)

Inductive SniffingDestination := DestHttp | DestTls | DestQuic.

#[export] Instance SniffingDestination_eq_dec : EqDecision SniffingDestination.
Proof. solve_decision. Defined.

Inductive SniffedProtocol := Http1 | Tls | Quic | Bittorrent | FakeDnsProtocol.

Definition protocol_name (p : SniffedProtocol) : str :=
  match p with
  | Http1 => str_of "http1"
  | Tls => str_of "tls"
  | Quic => str_of "quic"
  | Bittorrent => str_of "bittorrent"
  | FakeDnsProtocol => str_of "fakedns"
  end.

Record SniffedTarget := mkSniffedTarget {
  route_target : Target;
  dial_target : Target;
  st_protocol : SniffingDestination
}.

Record Sniffed := mkSniffed {
  protocol : SniffedProtocol;
  sniffed_to : option SniffedTarget
}.

(** ** Reading an HTTP request *)

(** [iter.position(|&byte| byte == c)], and [text.find(c)] for an ASCII character *)
Fixpoint byte_position (c : byte) (l : list byte) : option Z :=
  match l with
  | [] => None
  | b :: r => if bool_decide (b = c) then Some 0 else Z.succ <$> byte_position c r
  end.

(** [text.rfind(c)] for an ASCII character *)
Definition rfind (text : str) (c : byte) : option Z :=
  (fun x => len (fst x)) <$> rsplit_once text c.

Fixpoint go_chunks (fuel : nat) (l : list byte) : str :=
  match fuel with
  | O => []
  | S fuel =>
    match l with
    | [] => []
    | b :: r =>
      let whole := take (char_len b) l in
      if bool_decide (length whole = char_len b) && is_utf8 whole
      then whole ++ go_chunks fuel (drop (char_len b) l)
      else concat (replicate (invalid_len b r) replacement)
           ++ go_chunks fuel (drop (invalid_len b r) l)
    end
  end.

Definition go_string (bytes : list byte) : str :=
  match from_utf8 bytes with
  | Some text => text
  | None => go_chunks (length bytes) bytes
  end.

(** [text.parse::<i64>().ok()] *)
Fixpoint decimal (l : list byte) (acc : Z) : option Z :=
  match l with
  | [] => Some acc
  | b :: r => if is_ascii_digit b then decimal r (acc * 10 + (u8 b - 0x30)) else None
  end.
Definition parse_i64 (text : str) : option Z :=
  let '(negative, digits) :=
    match text with
    | b :: r => if bool_decide (b = "-"%byte) then (true, r)
                else if bool_decide (b = "+"%byte) then (false, r) else (false, text)
    | [] => (false, [])
    end in
  if bool_decide (digits = []) then None
  else
    n ← decimal digits 0;
    let n := if negative : bool then - n else n in
    if (- 9223372036854775808 <=? n) && (n <=? 9223372036854775807) then Some n else None.

Inductive SplitHostPort := MissingPort | Invalid.

Definition go_split_host_port (hostport : str) : res SplitHostPort (str * str) :=
  match rfind hostport colon with
  | None => Err MissingPort
  | Some last_colon =>
    let? (host, open_from, close_from) :=
      if starts_with hostport (str_of "[") then
        match byte_position "]"%byte hostport with
        | None => Err Invalid
        | Some end_ =>
          if end_ + 1 =? len hostport then Err MissingPort
          else if negb (end_ + 1 =? last_colon) then
            let? b := index hostport (end_ + 1) in
            Err (if bool_decide (b = colon) then Invalid else MissingPort)
          else
            let? host := slice hostport 1 end_ in
            Ok (host, 1, end_ + 1)
        end
      else
        let? host := slice hostport 0 last_colon in
        if has host colon then Err Invalid else Ok (host, 0, 0) in
    let? after_open := slice_from hostport open_from in
    let? after_close := slice_from hostport close_from in
    if has after_open "["%byte || has after_close "]"%byte then Err Invalid
    else
      let? port := slice_from hostport (last_colon + 1) in
      Ok (host, port)
  end.

Definition is_ascii_alphanumeric (b : byte) : bool :=
  is_ascii_digit b || is_ascii_uppercase b || ((0x61 <=? u8 b) && (u8 b <=? 0x7A)).

(** [text.strip_prefix(c)] and [text.strip_suffix(c)] for an ASCII character *)
Definition strip_prefix (text : str) (c : byte) : option str :=
  match text with b :: r => if bool_decide (b = c) then Some r else None | [] => None end.
Definition strip_suffix (text : str) (c : byte) : option str :=
  reverse <$> strip_prefix (reverse text) c.

Definition xray_address_is_empty (host : str) : bool :=
  let address := default host (inner ← strip_prefix host "["%byte; strip_suffix inner "]"%byte) in
  let alphanumeric o := is_some_and o is_ascii_alphanumeric in
  let address :=
    if negb (alphanumeric (head address) && alphanumeric (list.last address))
    then trim_space address else address in
  bool_decide (address = []).

(** [Err tt] where the value does not parse. *)
Definition xray_parse_host (raw : str) : res unit (option str) :=
  let? host :=
    match go_split_host_port raw with
    | Ok (host, port) =>
      if negb (bool_decide (port = [])) then let? _ := some (parse_i64 port) in Ok host else Ok host
    | Err MissingPort => Ok raw
    | Err Invalid => Err tt
    | Panic => Panic
    end in
  Ok (if xray_address_is_empty host then None else Some host).

Section Http.
Context `{Platform}.

Record HttpRequest := mkHttpRequest {
  host : option str;
  attributes : option ContentAttributes
}.

(** The loop over the header lines: [inl] for the early return. *)
Fixpoint header_lines {E} (lines : list (list byte)) (host : option str)
    (attributes : option ContentAttributes)
    : res E (HttpRequest + (option str * option ContentAttributes)) :=
  match lines with
  | [] => Ok (inr (host, attributes))
  | line :: lines =>
    if bool_decide (line = []) then Ok (inr (host, attributes))
    else
      match byte_position colon line with
      | None => header_lines lines host attributes
      | Some at_ =>
        let? name := slice line 0 at_ in
        let name := go_lowercase (go_string name) in
        let? value := slice_from line (at_ + 1) in
        let value := trim_space (go_string value) in
        let parsed := if bool_decide (name = str_of "host") then Some (xray_parse_host value) else None in
        let attributes := (fun a => ca_set a name value) <$> attributes in
        match parsed with
        | Some (Ok named) => header_lines lines named attributes
        | Some (Err _) => Ok (inl (mkHttpRequest None attributes))
        | Some Panic => Panic
        | None => header_lines lines host attributes
        end
      end
  end.

Definition sniff_http_request {E} (payload : list byte) (record_attributes : bool) : res E HttpRequest :=
  let attributes := if record_attributes then Some (mkContentAttributes []) else None in
  let '(request_line, lines) :=
    match split_on x0a payload with p :: ps => (p, ps) | [] => ([], []) end in
  let? found := header_lines lines None attributes in
  match found with
  | inl request => Ok request
  | inr (host, attributes) =>
    let attributes :=
      (fun a =>
         match split_on x20 request_line with
         | [method; path; _] =>
           ca_set (ca_set a (str_of ":method") (go_string method)) (str_of ":path") (go_string path)
         | _ => a
         end) <$> attributes in
    Ok (mkHttpRequest host attributes)
  end.
End Http.

(** ** Recognising a flow *)

Definition find_subslice (haystack needle : list byte) : option Z :=
  (fun x => Z.of_nat (fst x)) <$> list_find (fun w => w = needle) (windows (length needle) haystack).

Definition has_http_header_end (payload : list byte) : bool :=
  bool_decide (is_Some (find_subslice payload [x0d; x0a; x0d; x0a]))
  || bool_decide (is_Some (find_subslice payload [x0a; x0a])).

Inductive TlsRecord := Complete | Partial | NotTls.

Definition tls_record {E} (payload : list byte) : res E TlsRecord :=
  if len payload <? 5 then Ok Partial
  else
    let? b0 := index payload 0 in
    let? b1 := index payload 1 in
    if negb (u8 b0 =? 0x16) || negb (u8 b1 =? 3) then Ok NotTls
    else
      let? b3 := index payload 3 in
      let? b4 := index payload 4 in
      Ok (if len payload <? 5 + from_be [b3; b4] then Partial else Complete).

Definition http_methods : list str :=
  [str_of "get"; str_of "post"; str_of "head"; str_of "put"; str_of "delete"; str_of "options";
   str_of "connect"].

Fixpoint method_loop {E} (methods : list str) (payload : list byte) : res E (option bool) :=
  match methods with
  | [] => Ok (Some false)
  | method :: methods =>
    let? named :=
      if len method <=? len payload then
        let? front := slice payload 0 (len method) in Ok (eq_ignore_ascii_case front method)
      else Ok false in
    if named : bool then Ok (Some true)
    else if len payload <? len method then Ok None
    else method_loop methods payload
  end.

Definition begins_with_http_method {E} (payload : list byte) : res E (option bool) :=
  method_loop http_methods payload.

Definition is_bittorrent_handshake {E} (payload : list byte) : res E bool :=
  if len payload <? 20 then Ok false
  else
    let? b0 := index payload 0 in
    if negb (u8 b0 =? 19) then Ok false
    else
      let? name := slice payload 1 20 in
      Ok (bool_decide (name = str_of "BitTorrent protocol")).

(** The loop of [is_utp_syn] over the extensions. *)
Fixpoint utp_loop {E} (fuel : nat) (datagram : list byte) (extension : byte) (offset : Z) : res E bool :=
  match fuel with
  | O => Panic
  | S fuel =>
    if u8 extension =? 0 then Ok (len datagram =? offset)
    else
      match get datagram (offset + 1) with
      | None => Ok false
      | Some length =>
        let length := u8 length in
        let valid :=
          if u8 extension =? 1 then (4 <=? length) && (length mod 4 =? 0)
          else if u8 extension =? 2 then length =? 8 else false in
        if negb valid || (len datagram <? offset + 2 + length) then Ok false
        else
          let? next := index datagram offset in
          utp_loop fuel datagram next (offset + (2 + length))
      end
  end.

Definition is_utp_syn {E} (datagram : list byte) : res E bool :=
  if len datagram <? 20 then Ok false
  else
    let? b0 := index datagram 0 in
    if negb (u8 b0 =? 0x41) then Ok false
    else
      let? difference := slice datagram 8 12 in
      if negb (bool_decide (difference = [x00; x00; x00; x00])) then Ok false
      else
        let? extension := index datagram 1 in
        utp_loop (length datagram) datagram extension 20.

Section Sniff.
Context `{Platform} `{RegexEngine} `{KeywordEngine}.

Record InboundSniffingConfig := mkInboundSniffingConfig {
  enabled : bool;
  dest_override : list SniffingDestination;
  metadata_only : bool;
  route_only : bool;
  domains_excluded : DomainMatcherSet;
  ips_excluded : IpMatcherSet
}.

Definition excludes (c : InboundSniffingConfig) (destination_ip : option IpAddr) (domain : str) : bool :=
  dms_matches (domains_excluded c) domain || is_some_and destination_ip (ms_matches (ips_excluded c)).

Definition routing_protocol (sniffed : option SniffedProtocol) (mapped_fake_ip : bool)
    (config : option InboundSniffingConfig) : option SniffedProtocol :=
  match sniffed with
  | Some p => Some p
  | None => if mapped_fake_ip && is_some_and config enabled then Some FakeDnsProtocol else None
  end.

Definition should_sniff_tcp (config : option InboundSniffingConfig) (routes_by_sniffing : bool) : bool :=
  match config with
  | None => false
  | Some c =>
    enabled c && negb (metadata_only c)
    && (routes_by_sniffing
        || existsb (fun k => match k with DestHttp | DestTls => true | _ => false end) (dest_override c))
  end.

Definition should_sniff_udp (config : option InboundSniffingConfig) (routes_by_protocol : bool) : bool :=
  match config with
  | None => false
  | Some c =>
    enabled c && negb (metadata_only c)
    && (routes_by_protocol
        || existsb (fun k => match k with DestQuic => true | _ => false end) (dest_override c))
  end.

Definition sniffed_target (config : InboundSniffingConfig) (original : Target) (domain : str)
    (protocol : SniffingDestination) : option SniffedTarget :=
  let original_ip := match addr original with Ip ip => Some ip | Domain _ => None end in
  if excludes config original_ip domain then None
  else
    let route := mkTarget (Domain domain) (port original) (network original) in
    Some (mkSniffedTarget route (if route_only config then original else route) protocol).

Definition override_target (config : InboundSniffingConfig) (original : Target) (domain : str)
    (kind : SniffingDestination) : option SniffedTarget :=
  if bool_decide (kind ∈ dest_override config) then sniffed_target config original domain kind else None.

Record TcpSniffed := mkTcpSniffed {
  sniffed : option Sniffed;
  sniffed_attributes : option ContentAttributes
}.

Inductive TcpSniff := Done (s : TcpSniffed) | NeedMore.

Definition TcpSniff_done (s : TcpSniff) : TcpSniffed :=
  match s with Done s => s | NeedMore => mkTcpSniffed None None end.

(** The steps of [sniff_tcp_initial_payload] from the last to the first: BitTorrent and the end, *)
Definition torrent_or_end {E} (payload : list byte) (complete undecided : bool)
    (attributes : option ContentAttributes) : res E TcpSniff :=
  let finish undecided :=
    if undecided && negb complete then Ok NeedMore else Ok (Done (mkTcpSniffed None attributes)) in
  if len payload <? 20 then finish true
  else
    let? torrent := is_bittorrent_handshake payload in
    if torrent : bool then Ok (Done (mkTcpSniffed (Some (mkSniffed Bittorrent None)) attributes))
    else finish undecided.

(** TLS and what follows, *)
Definition tls_and_rest {E} (config : InboundSniffingConfig) (original : Target) (payload : list byte)
    (complete undecided : bool) (attributes : option ContentAttributes) : res E TcpSniff :=
  let? record := tls_record payload in
  match record with
  | Complete =>
    match sniff_tls_client_hello_sni payload with
    | Ok domain =>
      Ok (Done (mkTcpSniffed
        (Some (mkSniffed Tls (override_target config original domain DestTls))) attributes))
    | Err _ => torrent_or_end payload complete undecided attributes
    | Panic => Panic
    end
  | Partial => torrent_or_end payload complete true attributes
  | NotTls => torrent_or_end payload complete undecided attributes
  end.

(** and all of it. *)
Definition sniff_tcp_initial_payload {E} (config : InboundSniffingConfig) (original : Target)
    (payload : list byte) (complete record_attributes : bool) : res E TcpSniff :=
  if metadata_only config then Ok (Done (mkTcpSniffed None None))
  else
    let undecided := bool_decide (payload = []) in
    let? method := begins_with_http_method payload in
    match method with
    | Some true =>
      if negb complete && negb (has_http_header_end payload) then Ok NeedMore
      else
        let? request := sniff_http_request payload record_attributes in
        match host request with
        | Some name =>
          let target := domain ← normalize_host name; override_target config original domain DestHttp in
          Ok (Done (mkTcpSniffed (Some (mkSniffed Http1 target)) (attributes request)))
        | None => tls_and_rest config original payload complete undecided (attributes request)
        end
    | None => tls_and_rest config original payload complete true None
    | Some false => tls_and_rest config original payload complete undecided None
    end.
End Sniff.

(** ** The readers neither panic nor loop *)

Lemma byte_position_spec c l i :
  byte_position c l = Some i ->
  exists x y, l = x ++ c :: y /\ len x = i /\ Forall (fun b => b <> c) x.
Proof.
  revert i. induction l as [|b l IH]; intros i; simpl; [done|]. case_bool_decide as Hb.
  - intros [= <-]. subst. by exists [], l.
  - destruct (byte_position c l) as [j|] eqn:E; [|done]. simpl. intros [= <-].
    destruct (IH j eq_refl) as (x & y & -> & Hx & Hn). exists (b :: x), y.
    split_and!; [done | len_simpl; lia | by constructor].
Qed.

Lemma byte_position_app c x y : Forall (fun b => b <> c) x -> byte_position c (x ++ c :: y) = Some (len x).
Proof.
  induction 1 as [|b x Hb _ IH]; simpl; [by rewrite bool_decide_eq_true_2|].
  rewrite bool_decide_eq_false_2 by done. rewrite IH. simpl. f_equal. rewrite len_cons. lia.
Qed.

Lemma rfind_spec s c i : rfind s c = Some i -> exists x y, s = x ++ c :: y /\ len x = i.
Proof.
  unfold rfind. destruct (rsplit_once s c) as [[x y]|] eqn:E; [|done]. intros [= <-].
  apply rsplit_once_spec in E. by exists x, y.
Qed.

Lemma starts_with_bracket s : starts_with s (str_of "[") = true -> exists r, s = "["%byte :: r.
Proof.
  change (str_of "[") with ["["%byte]. destruct s as [|b s]; [done|]. cbn [starts_with].
  intros H. unbool. subst. by exists s.
Qed.

(** The host is cut out at ASCII characters, and nothing is sliced out of range. *)
Lemma go_split_host_port_spec s :
  match go_split_host_port s with
  | Ok (h, p) => (exists x, s = "["%byte :: h ++ "]"%byte :: x) \/ (exists x, s = h ++ colon :: x)
  | Err _ => True
  | Panic => False
  end.
Proof.
  unfold go_split_host_port. destruct (rfind s colon) as [c|] eqn:Ec; [|done].
  apply rfind_spec in Ec as (x & y & Hs & Hc). pose proof (len_nonneg x). pose proof (len_nonneg y).
  assert (len s = c + 1 + len y) as Hl by (rewrite Hs; len_simpl; lia).
  destruct (starts_with s (str_of "[")) eqn:Eb.
  - apply starts_with_bracket in Eb as [r Hr]. destruct (byte_position "]"%byte s) as [e|] eqn:Ee; [|done].
    apply byte_position_spec in Ee as (x' & y' & Hs' & He & _). pose proof (len_nonneg x'). pose proof (len_nonneg y').
    assert (len s = e + 1 + len y') as Hl' by (rewrite Hs'; len_simpl; lia).
    assert (exists h, x' = "["%byte :: h) as [h ->].
    { rewrite Hs' in Hr. destruct x' as [|b h]; [by simplify_eq/=|]. simplify_eq/=. by eexists. }
    rewrite len_cons in He. pose proof (len_nonneg h).
    case_if; [done|]. unbool. case_if.
    + destruct (index_some (E := SplitHostPort) s (e + 1)) as [b ->]; [lia | done].
    + rewrite (slice_eq ["["%byte] h ("]"%byte :: y') s) by (done || len_simpl; lia). cbn [res_bind].
      rewrite !slice_from_ok by lia. cbn [res_bind]. case_if; [done|].
      rewrite ?slice_from_ok by lia. left. by exists y'.
  - rewrite (slice_eq [] x (colon :: y) s) by (done || len_simpl; lia). cbn [res_bind].
    case_if; [done|]. cbn [res_bind]. rewrite !slice_from_ok by lia. cbn [res_bind]. case_if; [done|].
    rewrite ?slice_from_ok by lia. right. by exists y.
Qed.

Lemma utf8_drop_front x s cs : u8 x < 0x80 -> utf8_chars (x :: s) = Some cs -> is_utf8 s = true.
Proof. intros Hx Hs. apply (utf8_split []) in Hs as (_ & ts & _ & Ht & _); [|done]. unfold is_utf8. by rewrite Ht. Qed.

Lemma utf8_cut s x t : u8 x < 0x80 -> is_utf8 (s ++ x :: t) = true -> is_utf8 s = true.
Proof.
  unfold is_utf8. intros Hx Hs. destruct (utf8_chars (s ++ x :: t)) as [cs|] eqn:E; [|done].
  apply utf8_split in E as (ss & ts & -> & _); done.
Qed.

Lemma xray_parse_host_spec raw :
  is_utf8 raw = true ->
  match xray_parse_host raw with
  | Ok (Some h) => is_utf8 h = true
  | Panic => False
  | _ => True
  end.
Proof.
  intros Hu. unfold xray_parse_host. pose proof (go_split_host_port_spec raw) as Hs.
  destruct (go_split_host_port raw) as [[h p]|[]|]; cbn [res_bind]; try done; [|by case_if].
  assert (is_utf8 h = true) as Hh.
  { destruct Hs as [[x ->]|[x ->]]; [|by apply utf8_cut in Hu].
    apply (utf8_cut h "]"%byte x); [done|]. unfold is_utf8 in Hu.
    destruct (utf8_chars _) as [cs|] eqn:E in Hu; [|done]. by apply utf8_drop_front in E. }
  destruct (negb (bool_decide (p = []))); [|by simpl; case_if].
  destruct (parse_i64 p); simpl; [by case_if | done].
Qed.

Lemma go_chunks_utf8 fuel l : (length l <= fuel)%nat -> is_utf8 (go_chunks fuel l) = true.
Proof.
  assert (forall a b, is_utf8 a = true -> is_utf8 b = true -> is_utf8 (a ++ b) = true) as Happ.
  { unfold is_utf8. intros a b Ha Hb. destruct (utf8_chars a) as [ca|] eqn:E; [|done].
    rewrite (utf8_app _ _ b E). by destruct (utf8_chars b). }
  revert l. induction fuel as [|fuel IH]; intros l Hl; [done|]. destruct l as [|b r]; [done|].
  cbn [go_chunks]. assert (1 <= char_len b)%nat by (unfold char_len; repeat case_if; lia).
  assert (1 <= invalid_len b r)%nat by (unfold invalid_len; destruct r as [|b1 r]; [lia|];
    case_if; [destruct r; [lia | case_if; lia] | lia]).
  case_if.
  - unbool. apply Happ; [done|]. apply IH. rewrite length_drop. simpl in *. lia.
  - apply Happ; [|apply IH; rewrite length_drop; simpl in *; lia].
    generalize (invalid_len b r). induction n as [|n IHn]; [done|]. cbn [replicate concat].
    apply Happ; [by vm_compute | done].
Qed.

Lemma go_string_utf8 l : is_utf8 (go_string l) = true.
Proof.
  unfold go_string. destruct (from_utf8 l) as [t|] eqn:E; [|by apply go_chunks_utf8].
  unfold from_utf8 in E. unfold is_utf8. destruct (utf8_chars l) eqn:El; [|done]. simplify_eq. by rewrite El.
Qed.

Lemma trim_space_utf8 s : is_utf8 s = true -> is_utf8 (trim_space s) = true.
Proof.
  unfold is_utf8. destruct (utf8_chars s) as [cs|] eqn:E; [|done]. intros _.
  by destruct (trim_space_spec _ _ E) as (a & m & z & _ & -> & _).
Qed.

Section HttpSafe.
Context `{Platform}.

Lemma header_lines_spec {E} lines h a :
  (forall n, h = Some n -> is_utf8 n = true) ->
  match @header_lines _ E lines h a with
  | Ok (inl r) => host r = None /\ is_some (attributes r) = is_some a
  | Ok (inr (h', a')) => (forall n, h' = Some n -> is_utf8 n = true) /\ is_some a' = is_some a
  | _ => False
  end.
Proof.
  revert h a. induction lines as [|line lines IH]; intros h a Hh; [done|]. cbn [header_lines].
  case_if; [done|]. destruct (byte_position colon line) as [i|] eqn:Ep; [|by apply IH].
  apply byte_position_spec in Ep as (x & y & -> & <- & _). pose proof (len_nonneg x).
  rewrite (slice_eq [] x (colon :: y)) by (done || len_simpl; lia). cbn [res_bind].
  rewrite (slice_from_eq (x ++ [colon]) y) by (rewrite <- ?app_assoc; by len_simpl). cbn [res_bind].
  set (v := trim_space (go_string y)).
  assert (is_utf8 v = true) as Hv by apply trim_space_utf8, go_string_utf8.
  set (name := go_lowercase (go_string x)).
  assert (is_some ((fun b => ca_set b name v) <$> a) = is_some a) as Ha by by destruct a.
  case_if.
  - pose proof (xray_parse_host_spec v Hv) as Hx.
    destruct (xray_parse_host v) as [named|[]|]; [|done..].
    specialize (IH named ((fun b => ca_set b name v) <$> a)). rewrite Ha in IH. apply IH. by intros n ->.
  - specialize (IH h ((fun b => ca_set b name v) <$> a)). rewrite Ha in IH. by apply IH.
Qed.

Lemma sniff_http_request_spec {E} payload record :
  exists r, @sniff_http_request _ E payload record = Ok r
    /\ (forall n, host r = Some n -> is_utf8 n = true) /\ is_some (attributes r) = record.
Proof.
  unfold sniff_http_request.
  destruct (split_on x0a payload) as [|line lines];
    [pose proof (@header_lines_spec E [] None (if record then Some (mkContentAttributes []) else None)) as Hl
    |pose proof (@header_lines_spec E lines None (if record then Some (mkContentAttributes []) else None)) as Hl];
    (destruct (header_lines _ _ _) as [[r|[h a]]| |]; [| | by exfalso; apply Hl..]);
    cbn [res_bind]; destruct (Hl ltac:(done)) as [H1 H2]; eexists; (split; [done|]);
    try (rewrite H1; split; [done|]; rewrite H2; by destruct record);
    (split; [done|]); cbn [attributes]; by destruct a, record.
Qed.
End HttpSafe.

Lemma method_loop_ok {E} methods p : exists o, @method_loop E methods p = Ok o.
Proof.
  induction methods as [|m methods IH]; [by eexists|]. cbn [method_loop]. pose proof (len_nonneg m).
  destruct (len m <=? len p) eqn:Hm; unbool.
  - destruct (slice_some (E := E) p 0 (len m)) as [f ->]; [lia..|]. cbn [res_bind]. case_if; [by eexists|].
    case_if; [by eexists | done].
  - cbn [res_bind]. case_if; [by eexists | done].
Qed.

Lemma tls_record_ok {E} p : exists r, @tls_record E p = Ok r.
Proof.
  unfold tls_record. case_if; [by eexists|]. unbool.
  destruct (index_some (E := E) p 0) as [b0 ->]; [lia|]. destruct (index_some (E := E) p 1) as [b1 ->]; [lia|].
  cbn [res_bind]. case_if; [by eexists|].
  destruct (index_some (E := E) p 3) as [b3 ->]; [lia|]. destruct (index_some (E := E) p 4) as [b4 ->]; [lia|].
  by eexists.
Qed.

Lemma bittorrent_ok {E} p : exists r, @is_bittorrent_handshake E p = Ok r.
Proof.
  unfold is_bittorrent_handshake. case_if; [by eexists|]. unbool.
  destruct (index_some (E := E) p 0) as [b0 ->]; [lia|]. cbn [res_bind]. case_if; [by eexists|].
  destruct (slice_some (E := E) p 1 20) as [n ->]; [lia..|]. by eexists.
Qed.

Lemma utp_loop_ok {E} fuel d e offset :
  0 <= offset -> (Z.to_nat (len d - offset) < fuel)%nat -> exists r, @utp_loop E fuel d e offset = Ok r.
Proof.
  revert e offset. induction fuel as [|fuel IH]; intros e offset Ho Hf; [lia|]. cbn [utp_loop].
  case_if; [by eexists|]. destruct (get d (offset + 1)) as [n|] eqn:Eg; [|by eexists]. cbv zeta.
  case_if; [by eexists|]. unbool. pose proof (u8_range n).
  destruct (index_some (E := E) d offset) as [b ->]; [lia|]. cbn [res_bind]. apply IH; lia.
Qed.

Lemma is_utp_syn_ok {E} d : exists r, @is_utp_syn E d = Ok r.
Proof.
  unfold is_utp_syn. case_if; [by eexists|]. unbool.
  destruct (index_some (E := E) d 0) as [b0 ->]; [lia|]. cbn [res_bind]. case_if; [by eexists|].
  destruct (slice_some (E := E) d 8 12) as [n ->]; [lia..|]. cbn [res_bind]. case_if; [by eexists|].
  destruct (index_some (E := E) d 1) as [b1 ->]; [lia|]. cbn [res_bind]. apply utp_loop_ok; [lia|].
  unfold len in *. lia.
Qed.

(** Recording attributes changes nothing else. *)
Definition hosts_of `{Platform} {E} (m : res E (HttpRequest + (option str * option ContentAttributes)))
    : res E (option str + option str) :=
  match m with
  | Ok (inl r) => Ok (inl (host r))
  | Ok (inr (h, _)) => Ok (inr h)
  | Err e => Err e
  | Panic => Panic
  end.

Lemma header_lines_hosts `{Platform} {E} lines h a b :
  hosts_of (@header_lines _ E lines h a) = hosts_of (header_lines lines h b).
Proof.
  revert h a b. induction lines as [|line lines IH]; intros h a b; [done|]. cbn [header_lines].
  case_if; [done|]. destruct (byte_position colon line) as [i|]; [|apply IH].
  destruct (slice line 0 i) as [x| |]; [|done..]. cbn [res_bind].
  destruct (slice_from line (i + 1)) as [y| |]; [|done..]. cbn [res_bind].
  case_if; [|apply IH]. destruct (xray_parse_host _) as [n| |]; [apply IH | done..].
Qed.

Lemma sniff_http_request_host `{Platform} {E} payload r a :
  @sniff_http_request _ E payload r = Ok a ->
  exists b, @sniff_http_request _ E payload false = Ok b /\ host b = host a.
Proof.
  unfold sniff_http_request. destruct (match split_on x0a payload with [] => _ | _ => _ end) as [line lines].
  pose proof (@header_lines_hosts _ E lines None (if r then Some (mkContentAttributes []) else None) None) as Hh.
  intros (f & Hf & Ha)%res_bind_ok_inv. rewrite Hf in Hh.
  destruct (header_lines lines None None) as [[q|[q c]]| |], f as [w|[w d]]; simplify_eq/=; by eexists.
Qed.

(** ** More bytes do not change what is decided *)

Lemma method_loop_more {E} methods p more b :
  @method_loop E methods p = Ok (Some b) -> @method_loop E methods (p ++ more) = Ok (Some b).
Proof.
  induction methods as [|m methods IH]; [done|]. cbn [method_loop]. pose proof (len_nonneg m).
  pose proof (len_nonneg more). rewrite len_app. destruct (len m <=? len p) eqn:Hm; unbool.
  - guard_true by lia. rewrite slice_app_l by lia. destruct (slice p 0 (len m)) as [f| |]; [|done..].
    cbn [res_bind]. case_if; [done|]. case_if; [lia|]. intros Hb. guard_false by lia. by apply IH.
  - cbn [res_bind]. by guard_true by lia.
Qed.

Lemma method_loop_short {E} methods p n :
  Forall (fun m => len m <= n) methods -> @method_loop E methods p = Ok None -> len p < n.
Proof.
  induction 1 as [|m methods Hm _ IH]; cbn [method_loop]; [done|].
  intros (b & _ & H)%res_bind_ok_inv. case_if_in H; [done|]. case_if_in H; [unbool; lia | by apply IH].
Qed.

Lemma index_more {E A} (p more : list A) i : i < len p -> @index E A (p ++ more) i = index p i.
Proof. apply index_app_l. Qed.

Lemma tls_record_more {E} p more r :
  @tls_record E p = Ok r -> r <> Partial -> @tls_record E (p ++ more) = Ok r.
Proof.
  unfold tls_record. pose proof (len_nonneg more). rewrite len_app. case_if; [naive_solver|]. unbool.
  guard_false by lia. rewrite !index_more by lia.
  destruct (index p 0) as [b0| |]; [|done..]. destruct (index p 1) as [b1| |]; [|done..]. cbn [res_bind].
  case_if; [done|]. destruct (index p 3) as [b3| |]; [|done..]. destruct (index p 4) as [b4| |]; [|done..].
  cbn [res_bind]. case_if; [naive_solver|]. unbool. intros. by guard_false by lia.
Qed.

Lemma index_get {E A} (l : list A) i : @index E A l i = unwrap (get l i).
Proof. unfold index, get. by case_if. Qed.

Lemma get_more {A} (p more : list A) i : 0 <= i < len p -> get (p ++ more) i = get p i.
Proof. intros. unfold get. guard_false by lia. unfold len in *. by rewrite lookup_app_l by lia. Qed.

Lemma short_handshake h : len h < 4 -> sniff_tls_client_hello_handshake_sni h = Err tt.
Proof. intros. unfold sniff_tls_client_hello_handshake_sni. by guard_true by lia. Qed.

Lemma sniff_tls_more p more :
  @tls_record unit p = Ok Complete -> sniff_tls_client_hello_sni (p ++ more) = sniff_tls_client_hello_sni p.
Proof.
  unfold tls_record, sniff_tls_client_hello_sni. pose proof (len_nonneg more). rewrite len_app.
  case_if; [done|]. unbool.
  assert (read_u16_at (p ++ more) 3 = read_u16_at p 3) as Hr
    by (unfold read_u16_at; by rewrite !get_more by lia).
  intros (b0 & E0 & Ht)%res_bind_ok_inv. apply res_bind_ok_inv in Ht as (b1 & E1 & Ht).
  case_if_in Ht; [done|]. rewrite !index_get in Ht.
  destruct (get p 3) as [b3|] eqn:E3; [|done]. destruct (get p 4) as [b4|] eqn:E4; [|done]. cbn [unwrap res_bind] in Ht.
  assert (read_u16_at p 3 = Some (from_be [b3; b4])) as Hl
    by (unfold read_u16_at; rewrite E3; cbn [mbind option_bind]; by rewrite (E4 : get p (3 + 1) = _)).
  case_if_in Ht; [done|]. pose proof (from_be_range [b3; b4]) as Hrange. rewrite Hr, Hl. cbn [some ok_or res_bind].
  rewrite index_more by lia. rewrite E0. cbn [res_bind]. unbool.
  rewrite (proj2 (Z.ltb_ge _ (5 + from_be [b3; b4]))) by lia. rewrite (proj2 (Z.ltb_ge (len p) (5 + from_be [b3; b4]))) by lia.
  rewrite slice_app_l by lia.
  destruct (slice_some (E := unit) p 5 (5 + from_be [b3; b4])) as [h Eh]; [lia..|]. rewrite Eh. cbn [res_bind].
  destruct (len p <? 9) eqn:E9; [|by guard_false by lia]. unbool. case_if; [done|]. case_if; [done|].
  apply short_handshake. apply slice_len in Eh. lia.
Qed.

Lemma bittorrent_more {E} p more :
  20 <= len p -> @is_bittorrent_handshake E (p ++ more) = is_bittorrent_handshake p.
Proof.
  intros. unfold is_bittorrent_handshake. pose proof (len_nonneg more). rewrite len_app.
  guard_false by lia. guard_false by lia. rewrite index_more by lia. by rewrite slice_app_l by lia.
Qed.

(** ** What sniffing a TCP flow sniff_answers *)

Section TcpSound.
Context `{Platform} `{RegexEngine} `{KeywordEngine}.

(** The sniffer of one protocol on the bytes so far: it names the flow, rules itself out or cannot
    tell. *)
Inductive Verdict := Names (s : Sniffed) | RulesOut | Waits.

Definition tls_verdict (config : InboundSniffingConfig) (original : Target) (payload : list byte) : Verdict :=
  match @tls_record unit payload with
  | Ok Complete =>
    match sniff_tls_client_hello_sni payload with
    | Ok domain => Names (mkSniffed Tls (override_target config original domain DestTls))
    | _ => RulesOut
    end
  | Ok Partial => Waits
  | _ => RulesOut
  end.

Definition torrent_verdict (payload : list byte) : Verdict :=
  if len payload <? 20 then Waits
  else match @is_bittorrent_handshake unit payload with
       | Ok true => Names (mkSniffed Bittorrent None)
       | _ => RulesOut
       end.

Definition http_verdict (config : InboundSniffingConfig) (original : Target) (payload : list byte)
    : Verdict :=
  match @begins_with_http_method unit payload with
  | Ok (Some true) =>
    match @sniff_http_request _ unit payload false with
    | Ok (mkHttpRequest (Some name) _) =>
      Names (mkSniffed Http1 (domain ← normalize_host name; override_target config original domain DestHttp))
    | _ => RulesOut
    end
  | Ok None => Waits
  | _ => RulesOut
  end.

(** Asking the sniffers in order: the first name counts, and one that waits makes the flow wait
    unless its end is known. *)
Definition ask (vs : list Verdict) (complete : bool) : option (option Sniffed) :=
  match List.find (fun v => match v with Names _ => true | _ => false end) vs with
  | Some (Names s) => Some (Some s)
  | _ => if existsb (fun v => match v with Waits => true | _ => false end) vs && negb complete
         then None else Some None
  end.

Definition is_http (payload : list byte) : bool :=
  match @begins_with_http_method unit payload with Ok (Some true) => true | _ => false end.

(** A request whose headers may go on. *)
Definition http_pending (payload : list byte) : bool :=
  is_http payload && negb (has_http_header_end payload).

(** What may become of a flow's target. *)
Definition target_ok (config : InboundSniffingConfig) (original : Target) (t : SniffedTarget) : Prop :=
  exists domain, usable_name domain
    /\ st_protocol t ∈ dest_override config
    /\ excludes config (match addr original with Ip ip => Some ip | Domain _ => None end) domain = false
    /\ route_target t = mkTarget (Domain domain) (port original) (network original)
    /\ dial_target t = (if route_only config then original else route_target t).

Lemma override_target_ok config original domain kind t :
  usable_name domain -> override_target config original domain kind = Some t -> target_ok config original t.
Proof.
  intros Hd. unfold override_target, sniffed_target. case_bool_decide; [|done]. case_if; [done|].
  intros [= <-]. by exists domain.
Qed.

Lemma http_target_ok config original name t :
  is_utf8 name = true ->
  (domain ← normalize_host name; override_target config original domain DestHttp) = Some t ->
  target_ok config original t.
Proof.
  intros Hu. destruct (normalize_host name) as [d|] eqn:E; [|done]. simpl.
  apply override_target_ok. by apply normalize_host_usable in E.
Qed.

(** [r] is a sound answer and the one the verdicts [vs] call for. *)
Definition sniff_answers (config : InboundSniffingConfig) (original : Target) (complete record : bool)
    (vs : list Verdict) (m : res unit TcpSniff) : Prop :=
  exists r, m = Ok r
    /\ (forall s p t, r = Done s -> sniffed s = Some p -> sniffed_to p = Some t ->
          target_ok config original t)
    /\ match ask vs complete with
       | None => r = NeedMore
       | Some named => exists a, r = Done (mkTcpSniffed named a) /\ is_some a = record
       end.

Lemma tls_names config original complete (undecided : bool) a d w :
  usable_name d ->
  sniff_answers config original complete (is_some a)
    [if undecided then Waits else RulesOut;
     Names (mkSniffed Tls (override_target config original d DestTls)); w]
    (Ok (Done (mkTcpSniffed (Some (mkSniffed Tls (override_target config original d DestTls))) a))).
Proof.
  intros Hd. eexists. split_and!; [done | | unfold ask; by destruct undecided; eexists].
  intros s p t [= <-] [= <-]. by apply override_target_ok.
Qed.

(** What TLS and BitTorrent add to a first sniffer that names nothing. *)
Lemma tls_then_torrent config original payload complete (undecided : bool) a :
  sniff_answers config original complete (is_some a)
    [if undecided then Waits else RulesOut; tls_verdict config original payload; torrent_verdict payload]
    (tls_and_rest config original payload complete undecided a).
Proof.
  unfold tls_and_rest, tls_verdict, torrent_or_end, torrent_verdict.
  destruct (@tls_record_ok unit payload) as [t ->]. destruct (@bittorrent_ok unit payload) as [b ->].
  cbn [res_bind]. pose proof (record_sni_safe payload) as Hs. pose proof (record_sni_usable payload) as Hu.
  destruct t; [destruct (sniff_tls_client_hello_sni payload) as [d| |]|..];
    [by apply tls_names, Hu | | done | |];
    destruct (len payload <? 20), b, undecided, complete; simpl;
    eexists; (split; [done|]); (split; [intros; by simplify_eq/= | first [done | by eexists]]).
Qed.

(** C18: Sniffing the first bytes of a TCP flow is asking HTTP, TLS and BitTorrent in this order:
    the first that names the flow decides, one that cannot tell yet makes it wait unless no more
    bytes will come, and a request whose headers have not ended always waits. No payload makes it
    panic or loop. A target it makes goes to a lowercase name that is neither empty nor an address
    and holds no white space, keeps port and network, comes only from a protocol that
    [destOverride] names and from nothing excluded, and is dialled only when [routeOnly] is off;
    attributes are recorded exactly for HTTP flows and when asked for. *)
Theorem sniff_tcp_outcome config original payload complete record :
  let sniff := @sniff_tcp_initial_payload _ _ _ unit config original payload complete record in
  if metadata_only config then sniff = Ok (Done (mkTcpSniffed None None))
  else if negb complete && http_pending payload then sniff = Ok NeedMore
  else sniff_answers config original complete (record && is_http payload)
         [http_verdict config original payload; tls_verdict config original payload; torrent_verdict payload]
         sniff.
Proof.
  unfold sniff_tcp_initial_payload, http_pending, is_http, http_verdict.
  destruct (metadata_only config); [done|].
  destruct (@method_loop_ok unit http_methods payload) as [o Ho]. unfold begins_with_http_method.
  rewrite Ho. cbn [res_bind]. destruct o as [o|];
    [|rewrite !andb_false_r; apply (tls_then_torrent _ _ _ _ true None)].
  assert (bool_decide (payload = []) = false) as Hn by (apply bool_decide_eq_false_2; by intros ->).
  destruct o; rewrite Hn;
    [|rewrite !andb_false_r; apply (tls_then_torrent _ _ _ _ false None)].
  cbn [andb]. case_if; [done|].
  destruct (@sniff_http_request_spec _ unit payload record) as (q & Hq & Hu & Ha).
  destruct (sniff_http_request_host _ _ _ Hq) as ([h' a'] & Hq' & Hh). rewrite Hq, Hq'. cbn [res_bind host] in *.
  rewrite <- Hh in *. rewrite andb_true_r, <- Ha.
  destruct h' as [name|]; [|apply (tls_then_torrent _ _ _ _ false)].
  eexists. split_and!; [done | | by eexists]. intros s p t [= <-] [= <-]. apply http_target_ok. by apply Hu.
Qed.

(** A request that names no host in its headers, and a header line in its body. *)
Definition bare_request : list byte := str_of "GET /index HTTP/1.1" ++ [x0d; x0a; x0d; x0a].
Definition late_host : list byte := str_of "Host: a.com" ++ [x0a].

Lemma http_methods_short : Forall (fun m => len m <= 7) http_methods.
Proof. repeat constructor; by vm_compute. Qed.

Lemma tls_and_rest_short config original p undecided a s :
  len p < 9 -> tls_and_rest (E := unit) config original p false undecided a <> Ok (Done s).
Proof.
  intros Hp. unfold tls_and_rest, torrent_or_end. destruct (@tls_record_ok unit p) as [t ->].
  cbn [res_bind]. assert (sniff_tls_client_hello_sni p = Err tt) as ->
    by (unfold sniff_tls_client_hello_sni; by guard_true by lia).
  assert ((len p <? 20) = true) as -> by lia. by destruct t.
Qed.

Lemma partial_record p :
  tls_record (E := unit) p = Ok Partial -> 5 <= len p ->
  index (E := unit) p 0 = Ok x16 /\ len p < 5 + 65535.
Proof.
  unfold tls_record. intros Ht ?. rewrite (proj2 (Z.ltb_ge (len p) 5)) in Ht by lia.
  apply res_bind_ok_inv in Ht as (b0 & E0 & Ht). apply res_bind_ok_inv in Ht as (b1 & E1 & Ht).
  case_if_in Ht; [done|]. apply res_bind_ok_inv in Ht as (b3 & _ & Ht).
  apply res_bind_ok_inv in Ht as (b4 & _ & Ht). case_if_in Ht; [|done].
  pose proof (from_be_range [b3; b4]) as R. change (256 ^ len [b3; b4]) with 65536 in R. unbool.
  split; [|lia]. rewrite E0. f_equal. by apply u8_inj.
Qed.

Lemma partial_not_torrent p :
  tls_record (E := unit) p = Ok Partial -> 20 <= len p -> is_bittorrent_handshake (E := unit) p = Ok false.
Proof.
  intros Hp Hl. apply partial_record in Hp as [Hp _]; [|lia]. unfold is_bittorrent_handshake.
  guard_false by lia. by rewrite Hp.
Qed.

Lemma tls_and_rest_long config original p a :
  5 + 65535 <= len p -> exists s, tls_and_rest (E := unit) config original p false false a = Ok (Done s).
Proof.
  intros Hl. unfold tls_and_rest, torrent_or_end. destruct (@tls_record_ok unit p) as [t Ht]. rewrite Ht.
  destruct (@bittorrent_ok unit p) as [b ->]. cbn [res_bind]. pose proof (record_sni_safe p).
  assert ((len p <? 20) = false) as -> by lia.
  destruct t; [| apply partial_record in Ht as [_ ?]; lia |].
  - destruct (sniff_tls_client_hello_sni p); [by eexists | destruct b; by eexists | done].
  - destruct b; by eexists.
Qed.

Lemma tls_and_rest_more config original p more complete a s :
  tls_and_rest (E := unit) config original p false false a = Ok (Done s) ->
  tls_and_rest (E := unit) config original (p ++ more) complete false a = Ok (Done s).
Proof.
  unfold tls_and_rest, torrent_or_end. pose proof (len_nonneg more).
  destruct (@tls_record_ok unit p) as [t Ht]. rewrite Ht. cbn [res_bind].
  assert (20 <= len p ->
    (len (p ++ more) <? 20) = false /\ @is_bittorrent_handshake unit (p ++ more) = is_bittorrent_handshake p) as Hm
    by (intros; split; [rewrite len_app; lia | by apply bittorrent_more]).
  destruct t.
  - rewrite (tls_record_more p more Complete) by done. cbn [res_bind]. rewrite sniff_tls_more by done.
    destruct (sniff_tls_client_hello_sni p); [done | | done]. case_if; [done|]. unbool.
    by destruct Hm as [-> ->].
  - case_if; [done|]. unbool. by rewrite (partial_not_torrent p) by (done || lia).
  - rewrite (tls_record_more p more NotTls) by done. cbn [res_bind]. case_if; [done|]. unbool.
    by destruct Hm as [-> ->].
Qed.

(** C29: Once a flow that is not HTTP is decided, reading on cannot change the outcome: whatever
    bytes follow, and whether or not they are the last, the same is found. Such a flow is decided
    after one TLS record at the latest. HTTP is the exception: a request whose headers name no
    host is answered as unknown when they end, but a later line of the body names it. *)
Theorem sniff_tcp_final config original record :
  let sniff := sniff_tcp_initial_payload (E := unit) config original in
  (forall payload more complete s,
     is_http payload = false -> sniff payload false record = Ok (Done s) ->
     sniff (payload ++ more) complete record = Ok (Done s))
  /\ (forall payload, is_http payload = false -> 5 + 65535 <= len payload ->
       exists s, sniff payload false record = Ok (Done s))
  /\ (metadata_only config = false ->
      (exists a, sniff bare_request false record = Ok (Done (mkTcpSniffed None a)))
      /\ exists t a, sniff (bare_request ++ late_host) false record
                     = Ok (Done (mkTcpSniffed (Some (mkSniffed Http1 t)) a))).
Proof.
  intros sniff. unfold sniff, sniff_tcp_initial_payload, is_http, begins_with_http_method.
  destruct (metadata_only config) eqn:Em; [by split_and!; [|by eexists|]|]. split_and!.
  - intros p more complete s. destruct (@method_loop_ok unit http_methods p) as [o Ho]. rewrite Ho.
    cbn [res_bind]. destruct o as [[]|]; [done| |].
    + intros _ Hd. rewrite (method_loop_more _ p more false) by done. cbn [res_bind].
      assert (p <> []) as Hp by by intros ->.
      rewrite bool_decide_eq_false_2 in Hd by done.
      rewrite bool_decide_eq_false_2 by (by intros [? _]%app_nil). by apply tls_and_rest_more.
    + intros _ Hd. apply method_loop_short with (n := 7) in Ho; [|apply http_methods_short].
      apply tls_and_rest_short in Hd; [done | lia].
  - intros p. destruct (@method_loop_ok unit http_methods p) as [o Ho]. rewrite Ho. cbn [res_bind].
    destruct o as [[]|]; [done| |].
    + intros _ Hl. rewrite bool_decide_eq_false_2 by (by intros ->). by apply tls_and_rest_long.
    + intros _ Hl. apply method_loop_short with (n := 7) in Ho; [lia | apply http_methods_short].
  - intros _. split; [by destruct record; eexists|]. by destruct record; do 2 eexists.
Qed.
End TcpSound.

(** ** Requests as a client writes them *)

Definition crlf : list byte := [x0d; x0a].

Definition header_line (h : str * str) : list byte := fst h ++ colon :: x20 :: snd h ++ crlf.

Definition encode_request (method path version : str) (headers : list (str * str)) : list byte :=
  method ++ x20 :: path ++ x20 :: version ++ crlf ++ concat (map header_line headers) ++ crlf.

(** A value without white space around it. *)
Definition trimmed (v : str) : Prop :=
  exists cs, utf8_chars v = Some cs
    /\ (forall c, head cs = Some c -> is_whitespace c = false)
    /\ (forall c, list.last cs = Some c -> is_whitespace c = false).

Definition header_ok (h : str * str) : Prop :=
  is_utf8 (fst h) = true /\ without colon (fst h) /\ without x0a (fst h)
  /\ trimmed (snd h) /\ without x0a (snd h).

Definition word_ok (w : str) : Prop := is_utf8 w = true /\ without x20 w /\ without x0a w.

Lemma go_string_id s : is_utf8 s = true -> go_string s = s.
Proof. intros. unfold go_string. by rewrite from_utf8_ok. Qed.

Lemma char_pieces_concat ps cs fuel :
  Forall2 encodes ps cs -> (length (concat ps) <= fuel)%nat -> char_pieces fuel (concat ps) = ps.
Proof.
  intros HF. revert fuel. induction HF as [|p c ps cs E _ IH]; intros fuel Hf; [by destruct fuel|].
  cbn [concat] in *. rewrite length_app in Hf. pose proof (enc_len _ _ E) as Hl. pose proof (enc_nonempty _ _ E).
  destruct p as [|b q]; [done|]. specialize (Hl _ _ eq_refl). destruct fuel as [|fuel]; [simpl in Hf; lia|].
  cbn [char_pieces app]. rewrite Hl. change (b :: q ++ concat ps) with ((b :: q) ++ concat ps).
  rewrite take_app_length, drop_app_length. f_equal. apply IH. simpl in Hf. lia.
Qed.

Lemma drop_while_front {A} (f : A -> bool) l :
  (forall x, head l = Some x -> f x = false) -> drop_while f l = l.
Proof. destruct l as [|x l]; [done|]. intros Hx. simpl. by rewrite Hx. Qed.

(** The blank before a value and the carriage return after it are trimmed off. *)
Lemma trim_value v : trimmed v -> trim_space (x20 :: v ++ [x0d]) = v.
Proof.
  intros (cs & Hv & Hh & Hl). destruct (char_pieces_spec (length v) v cs Hv ltac:(done)) as [Hc HF].
  set (ps := char_pieces (length v) v) in *. unfold trim_space.
  assert (x20 :: v ++ [x0d] = concat ([[x20]] ++ ps ++ [[x0d]])) as Hs
    by (rewrite !concat_app, Hc; done).
  assert (Forall2 encodes ([[x20]] ++ ps ++ [[x0d]]) ([0x20] ++ cs ++ [0x0d])) as HF'.
  { apply Forall2_app; [constructor; [by apply (encodes1 x20) | constructor]|].
    apply Forall2_app; [done|]. constructor; [by apply (encodes1 x0d) | constructor]. }
  rewrite Hs, (char_pieces_concat _ _ _ HF' ltac:(done)). cbn [app drop_while].
  change (is_space_piece [x20]) with true. cbv iota.
  assert (forall x, head ps = Some x -> is_space_piece x = false) as Hps.
  { intros x Hx. destruct HF as [|p c ? ? E _]; [done|]. simplify_eq/=. rewrite (space_piece x c) by done. by apply Hh. }
  assert (forall x, head (reverse ps) = Some x -> is_space_piece x = false) as Hpr.
  { intros x Hx. destruct ps as [|p ps' _] using rev_ind; [done|]. rewrite reverse_snoc in Hx. simplify_eq/=.
    apply Forall2_app_inv_l in HF as (c1 & c2 & _ & F2 & ->). inversion F2 as [|? c ? ? E F2']. inversion F2'; subst.
    rewrite (space_piece x c) by done. apply Hl. by rewrite last_snoc. }
  destruct ps as [|p ps'] eqn:Ep.
  - simpl. change (is_space_piece [x0d]) with true. simpl. by rewrite <- Hc.
  - rewrite <- Ep in *. assert (drop_while is_space_piece (ps ++ [[x0d]]) = ps ++ [[x0d]]) as ->
      by (apply drop_while_front; rewrite Ep; cbn [app head]; intros x [= <-]; apply Hps; by rewrite Ep).
    rewrite reverse_snoc. cbn [drop_while]. change (is_space_piece [x0d]) with true. cbv iota.
    rewrite drop_while_front by done. by rewrite reverse_involutive.
Qed.

Definition header_text (h : str * str) : list byte := fst h ++ colon :: x20 :: snd h ++ [x0d].

Lemma without_app c s t : without c s -> without c t -> without c (s ++ t).
Proof. intros. by apply list.Forall_app. Qed.

Lemma without_cons c b s : b <> c -> without c s -> without c (b :: s).
Proof. by constructor. Qed.

Lemma split_headers hs :
  Forall header_ok hs ->
  split_on x0a (concat (map header_line hs) ++ crlf) = map header_text hs ++ [[x0d]; []].
Proof.
  induction 1 as [|[n v] hs (_ & _ & Hn & _ & Hv) _ IH]; [done|]. cbn [map concat fst snd] in *.
  unfold header_line at 1. cbn [fst snd].
  assert ((n ++ colon :: x20 :: v ++ crlf) ++ concat (map header_line hs)
    = header_text (n, v) ++ x0a :: concat (map header_line hs)) as -> by
    (unfold header_text, crlf; cbn [fst snd]; rewrite <- !app_assoc; cbn [app]; by rewrite <- !app_assoc).
  rewrite <- app_assoc. cbn [app]. rewrite split_on_app, IH; [done|]. unfold header_text. cbn [fst snd].
  apply without_app; [done|]. do 2 (apply without_cons; [done|]). apply without_app; [done|].
  by apply without_cons; [|constructor].
Qed.

Lemma utf8_value v : trimmed v -> is_utf8 (x20 :: v ++ [x0d]) = true.
Proof.
  intros (cs & Hv & _). unfold is_utf8.
  rewrite (enc_reads [x20] _ (encodes1 x20 ltac:(done)) (v ++ [x0d]) : utf8_chars (x20 :: _) = _).
  by rewrite (utf8_app v cs [x0d] Hv).
Qed.

Section HttpRoundTrip.
Context `{Platform}.

Definition is_host (h : str * str) : bool := bool_decide (go_lowercase (fst h) = str_of "host").

(** What the headers set. *)
Definition recorded (headers : list (str * str)) (a : ContentAttributes) : ContentAttributes :=
  fold_left (fun a h => ca_set a (go_lowercase (fst h)) (snd h)) headers a.

Lemma header_lines_step {E} n v lines h a :
  header_ok (n, v) ->
  @header_lines _ E (header_text (n, v) :: lines) h a
  = (let a := (fun a => ca_set a (go_lowercase n) v) <$> a in
     if is_host (n, v) then
       match xray_parse_host v with
       | Ok named => header_lines lines named a
       | Err _ => Ok (inl (mkHttpRequest None a))
       | Panic => Panic
       end
     else header_lines lines h a).
Proof.
  intros (Hu & Hc & _ & Ht & _). cbn [fst snd] in *. cbn [header_lines]. unfold header_text. cbn [fst snd].
  rewrite bool_decide_eq_false_2 by (by intros [_ ?]%app_nil).
  rewrite byte_position_app by done. pose proof (len_nonneg n).
  rewrite (slice_eq [] n (colon :: x20 :: v ++ [x0d])) by (done || len_simpl; lia). cbn [res_bind].
  rewrite (slice_from_eq (n ++ [colon]) (x20 :: v ++ [x0d])) by (rewrite <- ?app_assoc; by len_simpl).
  cbn [res_bind]. rewrite (go_string_id n) by done. rewrite go_string_id by by apply utf8_value.
  rewrite trim_value by done. cbv zeta. unfold is_host. cbn [fst]. by destruct (bool_decide _).
Qed.

Lemma header_lines_plain {E} hs lines h a :
  Forall header_ok hs -> Forall (fun x => is_host x = false) hs ->
  @header_lines _ E (map header_text hs ++ lines) h a = header_lines lines h (recorded hs <$> a).
Proof.
  intros HF. revert h a. induction HF as [|[n v] hs Hx _ IH]; intros h a Hh;
    [by destruct a|]. inversion Hh as [|? ? Hx1 Hx2]; subst. cbn [map app].
  rewrite header_lines_step by done. cbv zeta. rewrite Hx1, IH by done. by destruct a.
Qed.

(** A host with the port it may carry. *)
Definition host_value (d : str) (port : option str) : str :=
  match port with Some p => d ++ colon :: p | None => d end.

Lemma has_without c s : without c s -> has s c = false.
Proof.
  intros Hs. unfold has. induction Hs as [|b s Hb _ IH]; [done|]. simpl.
  by rewrite bool_decide_eq_false_2.
Qed.

Lemma rsplit_once_app s c t : without c t -> rsplit_once (s ++ c :: t) c = Some (s, t).
Proof.
  intros Ht. induction s as [|b s IH]; simpl.
  - rewrite rsplit_once_none by done. by rewrite bool_decide_eq_true_2.
  - by rewrite IH.
Qed.

Definition port_digits (p : str) : bool := forallb is_ascii_digit p && (length p <=? 18)%nat.

Lemma decimal_bound l acc n :
  0 <= acc -> decimal l acc = Some n -> 0 <= n < (acc + 1) * 10 ^ len l.
Proof.
  revert acc. induction l as [|b l IH]; intros acc Ha; simpl.
  - intros [= <-]. change (10 ^ len []) with 1. lia.
  - destruct (is_ascii_digit b) eqn:E; [|done]. unfold is_ascii_digit in E. intros Hn.
    apply IH in Hn; [|lia]. rewrite len_cons, Z.pow_add_r by (pose proof (len_nonneg l); lia).
    assert (0 < 10 ^ len l) by (apply Z.pow_pos_nonneg; [lia | apply len_nonneg]). nia.
Qed.

Lemma parse_port p : port_digits p = true -> p <> [] -> exists n, parse_i64 p = Some n.
Proof.
  unfold port_digits. intros Hp Hn. apply andb_true_iff in Hp as [Hd Hl].
  assert (forall l acc, forallb is_ascii_digit l = true -> exists n, decimal l acc = Some n) as Hs.
  { induction l as [|b l IH]; intros acc Hb; [by eexists|]. simpl in *. apply andb_true_iff in Hb as [-> Hb]. eauto. }
  destruct (Hs p 0 Hd) as [n Hdec]. unfold parse_i64. destruct p as [|b p]; [done|].
  assert (b <> "-"%byte /\ b <> "+"%byte) as [Hm Hpl] by (simpl in Hd; split; intros ->; done).
  rewrite !bool_decide_eq_false_2 by done. rewrite Hdec. simpl.
  apply decimal_bound in Hdec; [|lia]. apply Nat.leb_le in Hl.
  assert (10 ^ len (b :: p) <= 10 ^ 18) by (apply Z.pow_le_mono_r; unfold len; lia).
  guard_true by lia. by eexists.
Qed.

Lemma host_name_without d :
  host_name d = true ->
  d <> [] /\ without colon d /\ without "["%byte d /\ without "]"%byte d /\ trim_space d = d.
Proof.
  unfold host_name. intros Hd. unbool.
  match goal with Hf : forallb _ _ = true |- _ => pose proof (proj1 (forallb_forall _ _) Hf) as Hb end.
  assert (forall c, host_byte c = false -> without c d) as Hw
    by (intros c Hc; apply List.Forall_forall; intros b Hi ->; specialize (Hb _ Hi); congruence).
  split_and!; try done; try (apply Hw; done). apply (trim_space_id d (map u8 d)).
  - apply utf8_ascii, List.Forall_forall. intros b Hi. by apply host_byte_facts, Hb.
  - apply Forall_map, List.Forall_forall. intros b Hi. by apply host_byte_facts, Hb.
Qed.

Lemma address_not_empty d : host_name d = true -> xray_address_is_empty d = false.
Proof.
  intros (Hn & _ & Ho & _ & Ht)%host_name_without. unfold xray_address_is_empty.
  assert (strip_prefix d "["%byte = None) as ->.
  { destruct d as [|b d]; [done|]. inversion Ho; subst. simpl. by rewrite bool_decide_eq_false_2. }
  simpl. case_if; [rewrite Ht|]; by apply bool_decide_eq_false_2.
Qed.

Lemma starts_with_without d : without "["%byte d -> starts_with d (str_of "[") = false.
Proof.
  change (str_of "[") with ["["%byte]. destruct 1 as [|b d Hb _]; [done|]. cbn [starts_with].
  by rewrite bool_decide_eq_false_2 by (intros E; by apply Hb).
Qed.

Lemma digits_without p c : forallb is_ascii_digit p = true -> is_ascii_digit c = false -> without c p.
Proof.
  intros Hp Hc. apply List.Forall_forall. intros b Hi ->. apply (proj1 (forallb_forall _ _) Hp) in Hi. congruence.
Qed.

Lemma parse_host_value d port :
  host_name d = true -> (forall p, port = Some p -> port_digits p = true) ->
  xray_parse_host (host_value d port) = Ok (Some d).
Proof.
  intros Hd Hp. pose proof (address_not_empty d Hd) as He.
  apply host_name_without in Hd as (Hn & Hc & Ho & Hcl & _). unfold xray_parse_host, go_split_host_port, rfind.
  destruct port as [p|]; cbn [host_value].
  - specialize (Hp p eq_refl). pose proof Hp as [Hg _]%andb_true_iff.
    rewrite rsplit_once_app by (by apply digits_without). cbn [fmap option_fmap option_map fst].
    rewrite starts_with_without
      by (apply without_app; [done|]; apply without_cons; [done | by apply digits_without]).
    pose proof (len_nonneg d). rewrite (slice_eq [] d (colon :: p)) by (done || len_simpl; lia). cbn [res_bind].
    rewrite has_without by done. cbn [res_bind].
    rewrite (slice_from_eq [] (d ++ colon :: p)) by done. cbn [res_bind].
    rewrite !has_without by (apply without_app; [done|]; apply without_cons; [done | by apply digits_without]).
    cbn [orb]. rewrite (slice_from_eq (d ++ [colon]) p) by (rewrite <- ?app_assoc; by len_simpl). cbn [res_bind].
    case_bool_decide as Hpe; cbn [negb res_bind]; [by rewrite He|].
    destruct (parse_port p Hp Hpe) as [n ->]. cbn [some ok_or res_bind]. by rewrite He.
  - rewrite rsplit_once_none by done. cbn [fmap option_fmap option_map res_bind]. by rewrite He.
Qed.

(** A request that a client writes is read as sent: with one [Host] header among any others,
    naming a host with or without a port, the sniffer finds this host without the port, and
    records every header's trimmed value under its lowercased name in their order, then the
    request line's method and path, exactly when attributes are asked for. *)
Theorem http_request_roundtrip method path version before name d port after record :
  word_ok method -> word_ok path -> word_ok version ->
  Forall header_ok (before ++ (name, host_value d port) :: after) ->
  Forall (fun h => is_host h = false) (before ++ after) ->
  go_lowercase name = str_of "host" ->
  host_name d = true -> (forall p, port = Some p -> port_digits p = true) ->
  let headers := before ++ (name, host_value d port) :: after in
  @sniff_http_request _ unit (encode_request method path version headers) record
  = Ok (mkHttpRequest (Some d)
      (if record then
         Some (ca_set (ca_set (recorded headers (mkContentAttributes [])) (str_of ":method") method)
                 (str_of ":path") path)
       else None)).
Proof.
  intros (Um & Sm & Lm) (Up & Sp & Lp) (Uv & Sv & Lv) HF HN Hh Hd Hp headers.
  unfold sniff_http_request, encode_request.
  set (line := method ++ x20 :: path ++ x20 :: version ++ [x0d]).
  assert (method ++ x20 :: path ++ x20 :: version ++ crlf ++ concat (map header_line headers) ++ crlf
    = line ++ x0a :: concat (map header_line headers) ++ crlf) as ->.
  { unfold line, crlf. cbn [app]. rewrite <- !app_assoc. cbn [app]. rewrite <- !app_assoc. cbn [app].
    by rewrite <- !app_assoc. }
  rewrite split_on_app by (unfold line; repeat first [done | apply without_app | apply without_cons | constructor]).
  rewrite split_headers by done. cbv zeta. apply list.Forall_app in HN as [N1 N2].
  apply list.Forall_app in HF as [F1 F2]. inversion F2 as [|? ? Fh F3]; subst.
  unfold headers at 1. rewrite map_app. cbn [map]. rewrite <- app_assoc. cbn [app].
  rewrite header_lines_plain by done. rewrite header_lines_step by done. cbv zeta.
  unfold is_host. cbn [fst]. rewrite Hh, bool_decide_eq_true_2 by done.
  rewrite parse_host_value by done. cbv iota. rewrite header_lines_plain by done.
  cbn [header_lines byte_position]. change (bool_decide ([x0d] = [])) with false. cbv iota.
  change (bool_decide (x0d = colon)) with false. cbv iota. cbn [fmap option_fmap option_map].
  change (bool_decide (@nil byte = [])) with true. cbv iota. cbn [res_bind].
  assert (split_on x20 line = [method; path; version ++ [x0d]]) as ->.
  { unfold line. rewrite !split_on_app by done. rewrite split_on_without; [done|].
    apply without_app; [done|]. by apply without_cons; [|constructor]. }
  rewrite (go_string_id method), (go_string_id path) by done. destruct record; [|done]. simpl. do 4 f_equal.
  unfold headers, recorded. rewrite fold_left_app. simpl. by rewrite Hh.
Qed.
End HttpRoundTrip.

(** ** Witnesses *)

#[local] Existing Instance linux.

Lemma trimmed_ascii v :
  forallb (fun b => u8 b <? 0x80) v = true ->
  is_some_and (head v) (fun b => is_whitespace (u8 b)) = false ->
  is_some_and (list.last v) (fun b => is_whitespace (u8 b)) = false -> trimmed v.
Proof.
  intros Hv Hh Hl. exists (map u8 v). split_and!.
  - apply utf8_ascii, List.Forall_forall. intros b Hb. apply (proj1 (forallb_forall _ _) Hv) in Hb. simpl in Hb. lia.
  - destruct v; [done|]. intros c [= <-]. done.
  - intros c. destruct v as [|b v _] using rev_ind; [done|]. rewrite map_app. simpl. rewrite last_snoc in Hl.
    rewrite last_snoc. by intros [= <-].
Qed.

(** Decides the side conditions of a sample request. *)
Ltac sample_text :=
  repeat first
    [ progress (unfold header_ok, word_ok, without; simpl)
    | split
    | apply trimmed_ascii
    | reflexivity
    | constructor
    | discriminate ].

Lemma http_request_roundtrip_witness :
  @sniff_http_request _ unit
    (encode_request (str_of "GET") (str_of "/a") (str_of "HTTP/1.1")
       [(str_of "Accept", str_of "*/*"); (str_of "HOST", host_value (str_of "Example.com") (Some (str_of "8080")))])
    true
  = Ok (mkHttpRequest (Some (str_of "Example.com"))
      (Some (mkContentAttributes [(str_of "accept", str_of "*/*"); (str_of "host", str_of "Example.com:8080");
               (str_of ":method", str_of "GET"); (str_of ":path", str_of "/a")]))).
Proof.
  refine (http_request_roundtrip (str_of "GET") (str_of "/a") (str_of "HTTP/1.1")
    [(str_of "Accept", str_of "*/*")] (str_of "HOST") (str_of "Example.com") (Some (str_of "8080")) [] true
    _ _ _ _ _ _ _ _).
  1-5: sample_text.
  - reflexivity.
  - reflexivity.
  - intros p [= <-]. reflexivity.
Defined.

Definition sample_sniffing : @InboundSniffingConfig literal_regex scan_automaton :=
  @mkInboundSniffingConfig literal_regex scan_automaton true [DestHttp; DestTls; DestQuic] false false
    (@mkDms literal_regex scan_automaton None 0)
    (mkIpMatcherSet (rsb_build rsb_default) (rsb_build rsb_default)).

Definition torrent_hello : list byte := x13 :: str_of "BitTorrent protocol".
Definition sample_flow : Target := mkTarget (Ip (V4 (ipv4 192 0 2 1))) 80 Tcp.

Lemma sniff_tcp_final_witness :
  @sniff_tcp_initial_payload linux literal_regex scan_automaton unit sample_sniffing sample_flow
    (torrent_hello ++ [x00]) true false
  = Ok (Done (mkTcpSniffed (Some (mkSniffed Bittorrent None)) None)).
Proof.
  refine (proj1 (@sniff_tcp_final linux literal_regex scan_automaton sample_sniffing sample_flow false)
    torrent_hello [x00] true _ _ _); vm_compute; reflexivity.
Defined.
