(* ===== verification/QuicSniffing.v ===== *)
(** Sniffing QUIC flows: [QuicCryptoAssembler], the packet readers and [UdpSniffer] of
    [crates/xray-core-rs/src/sniffing.rs]. HKDF, AES and AES-GCM are the class [QuicCrypto]; what
    the sniffer relies on is [QuicCryptoLaws]. [Err tt] stands for [None], [Panic] for an index or
    slice out of range or a loop that does not end. *)
From Stdlib Require Import Strings.Byte.
From S2P Require Import Prelude Net IpRangeSet DomainMatcher RoutingRules IpText Utf8 TlsHello Sniffing.

(** ** Constants *)

Definition QUIC_V1 : Z := 1.
Definition QUIC_V2 : Z := 0x6b3343cf.
Definition QUIC_DRAFT_29 : Z := 0xff00001d.
Definition QUIC_V2_INITIAL_SALT : list byte :=
  [x0d; xed; xe3; xde; xf7; x00; xa6; xdb; x81; x93; x81; xbe; x6e; x26; x9d; xcb; xf9; xbd; x2e; xd9].
Definition QUIC_V1_INITIAL_SALT : list byte :=
  [x38; x76; x2c; xf7; xf5; x59; x34; xb3; x4d; x17; x9a; xe6; xa4; xc8; x0c; xad; xcc; xbb; x7f; x0a].
Definition QUIC_DRAFT_29_INITIAL_SALT : list byte :=
  [xaf; xbf; xec; x28; x99; x93; xd2; x4c; x9e; x97; x86; xf1; x9c; x61; x11; xe0; x43; x90; xa8; x99].
Definition QUIC_CLIENT_INITIAL_SECRET_LEN : Z := 32.
Definition QUIC_INITIAL_KEY_LEN : Z := 16.
Definition QUIC_INITIAL_IV_LEN : Z := 12.
Definition QUIC_INITIAL_HP_LEN : Z := 16.
Definition QUIC_TAG_LEN : Z := 16.
Definition QUIC_HP_SAMPLE_LEN : Z := 16.
Definition QUIC_MAX_CRYPTO_STREAM_SIZE : Z := 32767.
Definition QUIC_MAX_CRYPTO_RANGES : Z := 64.

(** ** The CRYPTO stream *)

Record QuicCryptoAssembler := mkAssembler {
  stream : list byte;
  received : list (Z * Z)
}.

Definition assembler_default : QuicCryptoAssembler := mkAssembler [] [].

(** [stream.resize(n, 0)] where it is shorter *)
Definition grow (l : list byte) (n : Z) : list byte :=
  if len l <? n then l ++ replicate (Z.to_nat (n - len l)) x00 else l.

(** [l[a..b].copy_from_slice(data)] *)
Definition copy_into {E} (l : list byte) (a b : Z) (data : list byte) : res E (list byte) :=
  if (0 <=? a) && (a <=? b) && (b <=? len l) && (len data =? b - a)
  then Ok (take (Z.to_nat a) l ++ data ++ drop (Z.to_nat b) l) else Panic.

(** [insert] changes the assembler even where it then fails. *)
Definition insert (a : QuicCryptoAssembler) (start : Z) (data : list byte)
    : res unit unit * QuicCryptoAssembler :=
  match usize_add start (len data) with
  | None => (Err tt, a)
  | Some end_ =>
    if QUIC_MAX_CRYPTO_STREAM_SIZE <? end_ then (Err tt, a)
    else if bool_decide (data = []) then (Ok tt, a)
    else
      match copy_into (E := unit) (grow (stream a) end_) start end_ data with
      | Ok stream' =>
        let first := partition_point (fun r => snd r <? start) (received a) in
        let last := partition_point (fun r => fst r <=? end_) (received a) in
        match slice (E := unit) (received a) (Z.of_nat first) (Z.of_nat last) with
        | Ok touched =>
          let merged := fold_left (fun m r => (Z.min (fst m) (fst r), Z.max (snd m) (snd r)))
                          touched (start, end_) in
          let received' := take first (received a) ++ [merged] ++ drop last (received a) in
          (if len received' <=? QUIC_MAX_CRYPTO_RANGES then Ok tt else Err tt,
           mkAssembler stream' received')
        | _ => (Panic, mkAssembler stream' (received a))
        end
      | _ => (Panic, a)
      end
  end.

Inductive ClientHelloState := HelloComplete (domain : option str) | HelloPartial.

Definition to_option {A} (m : res unit A) : res unit (option A) :=
  match m with Ok a => Ok (Some a) | Err _ => Ok None | Panic => Panic end.

Definition client_hello (a : QuicCryptoAssembler) : res unit ClientHelloState :=
  match received a with
  | (0, end_) :: _ =>
    let? prefix := slice (stream a) 0 end_ in
    if len prefix <? 4 then Ok HelloPartial
    else
      let? first := index prefix 0 in
      if negb (u8 first =? 1) then Ok (HelloComplete None)
      else
        match read_u24 prefix 1 with
        | None => Ok HelloPartial
        | Some n =>
          let total := 4 + n in
          if QUIC_MAX_CRYPTO_STREAM_SIZE <? total then Ok (HelloComplete None)
          else if len prefix <? total then Ok HelloPartial
          else
            let? message := slice prefix 0 total in
            let? domain := to_option (sniff_tls_client_hello_handshake_sni message) in
            Ok (HelloComplete domain)
        end
  | _ => Ok HelloPartial
  end.

(** ** Frames *)

Definition read_quic_varint (bytes : list byte) (offset : Z) : option (Z * Z) :=
  first ← get bytes offset;
  let length := Z.shiftl 1 (Z.shiftr (u8 first) 6) in
  raw ← get_range bytes offset (offset + length);
  Some (fold_left (fun value b => Z.lor (Z.shiftl value 8) (u8 b)) (tail raw) (Z.land (u8 first) 0x3f),
        length).

(** [let (value, used) = read_quic_varint(bytes, offset)?; offset = offset.checked_add(used)?] *)
Definition next_varint (bytes : list byte) (offset : Z) : res unit (Z * Z) :=
  let? (value, used) := some (read_quic_varint bytes offset) in
  let? offset := some (usize_add offset used) in
  Ok (value, offset).

Fixpoint skip_varints (n : nat) (bytes : list byte) (offset : Z) : res unit Z :=
  match n with
  | O => Ok offset
  | S n => let? (_, offset) := next_varint bytes offset in skip_varints n bytes offset
  end.

(** The loop over the [count] ranges of an ACK frame. *)
Fixpoint ack_ranges (fuel : nat) (plaintext : list byte) (offset count : Z) : res unit Z :=
  match fuel with
  | O => Panic
  | S fuel =>
    if count <=? 0 then Ok offset
    else let? offset := skip_varints 2 plaintext offset in ack_ranges fuel plaintext offset (count - 1)
  end.

Definition skip_quic_ack_frame (plaintext : list byte) (offset : Z) (has_ecn : bool) : res unit Z :=
  let? offset := skip_varints 2 plaintext offset in
  let? (range_count, offset) := next_varint plaintext offset in
  let? offset := skip_varints 1 plaintext offset in
  let? offset := ack_ranges (S (length plaintext)) plaintext offset range_count in
  if has_ecn then skip_varints 3 plaintext offset else Ok offset.

(** [usize::try_from(value).ok()] of a [u64] *)
Definition to_usize (value : Z) : option Z := if value <=? usize_max then Some value else None.

(** One frame at [offset]: the CRYPTO piece it holds, if any, and where it ends. *)
Definition read_frame (plaintext : list byte) (offset : Z) : res unit (option (Z * list byte) * Z) :=
  let? frame_type := index plaintext offset in
  let offset := offset + 1 in
  let t := u8 frame_type in
  if (t =? 0x00) || (t =? 0x01) then Ok (None, offset)
  else if (t =? 0x02) || (t =? 0x03) then
    let? offset := skip_quic_ack_frame plaintext offset (t =? 0x03) in Ok (None, offset)
  else if t =? 0x06 then
    let? (crypto_offset, offset) := next_varint plaintext offset in
    let? (crypto_len, offset) := next_varint plaintext offset in
    let? crypto_offset := some (to_usize crypto_offset) in
    let? crypto_len := some (to_usize crypto_len) in
    let? data_end := some (usize_add offset crypto_len) in
    let? data := some (get_range plaintext offset data_end) in
    Ok (Some (crypto_offset, data), data_end)
  else if t =? 0x1c then
    let? offset := skip_varints 2 plaintext offset in
    let? (reason_len, offset) := next_varint plaintext offset in
    let? reason_len := some (to_usize reason_len) in
    let? offset := some (usize_add offset reason_len) in
    let? _ := some (get_range plaintext 0 offset) in
    Ok (None, offset)
  else Err tt.

Fixpoint crypto_frames_loop (fuel : nat) (a : QuicCryptoAssembler) (plaintext : list byte) (offset : Z)
    : res unit unit * QuicCryptoAssembler :=
  match fuel with
  | O => (Panic, a)
  | S fuel =>
    if offset <? len plaintext then
      match read_frame plaintext offset with
      | Ok (piece, offset) =>
        match piece with
        | None => crypto_frames_loop fuel a plaintext offset
        | Some (start, data) =>
          match insert a start data with
          | (Ok _, a) => crypto_frames_loop fuel a plaintext offset
          | failed => failed
          end
        end
      | Err _ => (Err tt, a)
      | Panic => (Panic, a)
      end
    else (Ok tt, a)
  end.

Definition add_frames (a : QuicCryptoAssembler) (plaintext : list byte)
    : res unit unit * QuicCryptoAssembler :=
  crypto_frames_loop (S (length plaintext)) a plaintext 0.

(** ** Packets *)

Record QuicLongHeader := mkQuicLongHeader {
  version : Z;
  initial : bool;
  dcid : list byte;
  packet_number_offset : Z;
  payload_end : Z;
  length_field : Z
}.

Record QuicInitialKeys := mkQuicInitialKeys { key : list byte; iv : list byte; hp : list byte }.

Record QuicUnprotectedHeader := mkQuicUnprotectedHeader {
  header : list byte;
  packet_number : Z;
  ciphertext_offset : Z;
  unprotected_payload_end : Z
}.

Definition parse_quic_long_header (packet : list byte) : res unit QuicLongHeader :=
  let? first := some (head packet) in
  if negb (Z.land (u8 first) 0xc0 =? 0xc0) then Err tt
  else
    let? version := some (read_u32 packet 1) in
    let? (initial_type, retry_type) :=
      if (version =? QUIC_V1) || (version =? QUIC_DRAFT_29) then Ok (0x00, 0x30)
      else if version =? QUIC_V2 then Ok (0x10, 0x00)
      else Err tt in
    let packet_type := Z.land (u8 first) 0x30 in
    if packet_type =? retry_type then Err tt
    else
      let initial := packet_type =? initial_type in
      let offset := 5 in
      let? dcid_len := some (get packet offset) in
      let offset := offset + 1 in
      let? dcid_end := some (usize_add offset (u8 dcid_len)) in
      let? dcid := some (get_range packet offset dcid_end) in
      let offset := dcid_end in
      let? scid_len := some (get packet offset) in
      let offset := offset + 1 in
      let? scid_end := some (usize_add offset (u8 scid_len)) in
      let? _ := some (get_range packet offset scid_end) in
      let offset := scid_end in
      let? offset :=
        if initial : bool then
          let? (token_len, offset) := next_varint packet offset in
          let? token_len := some (to_usize token_len) in
          let? offset := some (usize_add offset token_len) in
          let? _ := some (get_range packet 0 offset) in
          Ok offset
        else Ok offset in
      let? (length, offset) := next_varint packet offset in
      let? length := some (to_usize length) in
      if initial && (length <=? QUIC_TAG_LEN) then Err tt
      else
        let? payload_end := some (usize_add offset length) in
        let? _ := some (get_range packet 0 payload_end) in
        Ok (mkQuicLongHeader version initial dcid offset payload_end length).

(** [Hkdf<Sha256>], [Aes128] and [Aes128Gcm]. *)
Class QuicCrypto := {
  Hkdf : Type;
  hkdf_new : list byte -> list byte -> Hkdf;
  hkdf_from_prk : list byte -> option Hkdf;
  hkdf_expand : Hkdf -> list byte -> Z -> option (list byte);
  aes128_encrypt : list byte -> list byte -> list byte;
  gcm_decrypt : list byte -> list byte -> list byte -> list byte -> option (list byte)
}.

Definition tls13_hkdf_label (length : Z) (label : list byte) : list byte :=
  let full_label_len := len (str_of "tls13 ") + len label in
  be_bytes 2 length ++ [to_u8 full_label_len] ++ str_of "tls13 " ++ label ++ [x00].

Definition byte_xor (a b : byte) : byte := to_u8 (Z.lxor (u8 a) (u8 b)).

(** The loop over the packet number's bytes. *)
Fixpoint number_loop (n : nat) (i : Z) (packet mask : list byte) (at_ : Z) (header : list byte) (number : Z)
    : res unit (list byte * Z) :=
  match n with
  | O => Ok (header, number)
  | S n =>
    let? p := index packet (at_ + i) in
    let? m := index mask (i + 1) in
    let b := byte_xor p m in
    number_loop n (i + 1) packet mask at_ (header ++ [b]) (Z.lor (Z.shiftl number 8) (u8 b))
  end.

Section Packets.
Context `{QuicCrypto}.

Definition quic_salt (version : Z) : option (list byte) :=
  if version =? QUIC_V1 then Some QUIC_V1_INITIAL_SALT
  else if version =? QUIC_V2 then Some QUIC_V2_INITIAL_SALT
  else if version =? QUIC_DRAFT_29 then Some QUIC_DRAFT_29_INITIAL_SALT
  else None.

Definition quic_labels (version : Z) : list byte * list byte * list byte :=
  if version =? QUIC_V2 then (str_of "quicv2 key", str_of "quicv2 iv", str_of "quicv2 hp")
  else (str_of "quic key", str_of "quic iv", str_of "quic hp").

Definition quic_initial_keys (version : Z) (dcid : list byte) : option QuicInitialKeys :=
  salt ← quic_salt version;
  let '(key_label, iv_label, hp_label) := quic_labels version in
  client_initial_secret ←
    hkdf_expand (hkdf_new salt dcid)
      (tls13_hkdf_label QUIC_CLIENT_INITIAL_SECRET_LEN (str_of "client in")) QUIC_CLIENT_INITIAL_SECRET_LEN;
  hk ← hkdf_from_prk client_initial_secret;
  key ← hkdf_expand hk (tls13_hkdf_label QUIC_INITIAL_KEY_LEN key_label) QUIC_INITIAL_KEY_LEN;
  iv ← hkdf_expand hk (tls13_hkdf_label QUIC_INITIAL_IV_LEN iv_label) QUIC_INITIAL_IV_LEN;
  hp ← hkdf_expand hk (tls13_hkdf_label QUIC_INITIAL_HP_LEN hp_label) QUIC_INITIAL_HP_LEN;
  Some (mkQuicInitialKeys key iv hp).

(** The key is an array of 16 bytes, which [new_from_slice] takes. *)
Definition aes128_encrypt_block (key block : list byte) : option (list byte) :=
  if len block =? 16 then Some (aes128_encrypt key block) else None.

Definition unprotect_quic_initial_header (packet : list byte) (h : QuicLongHeader) (hp_key : list byte)
    : res unit QuicUnprotectedHeader :=
  let? sample_offset := some (usize_add (packet_number_offset h) 4) in
  let? whole := some (get_range packet 0 (payload_end h)) in
  let? sample := some (get_range whole sample_offset (sample_offset + QUIC_HP_SAMPLE_LEN)) in
  let? mask := some (aes128_encrypt_block hp_key sample) in
  let? p0 := index packet 0 in
  let? m0 := index mask 0 in
  let first := to_u8 (Z.lxor (u8 p0) (Z.land (u8 m0) 0x0f)) in
  let packet_number_len := Z.land (u8 first) 0x03 + 1 in
  if length_field h <=? packet_number_len + QUIC_TAG_LEN then Err tt
  else
    let? packet_number_end := some (usize_add (packet_number_offset h) packet_number_len) in
    if payload_end h <? packet_number_end then Err tt
    else
      let? unprotected := slice packet 0 (packet_number_offset h) in
      match unprotected with
      | [] => Panic
      | _ :: rest =>
        let? (header, number) :=
          number_loop (Z.to_nat packet_number_len) 0 packet mask (packet_number_offset h) (first :: rest) 0 in
        Ok (mkQuicUnprotectedHeader header number packet_number_end (payload_end h))
      end.

Definition quic_nonce (iv : list byte) (number : Z) : list byte :=
  take 4 iv ++ zip_with byte_xor (drop 4 iv) (be_bytes 8 number).

Definition decrypt_quic_initial_packet (packet : list byte) (h : QuicUnprotectedHeader)
    (keys : QuicInitialKeys) : option (list byte) :=
  ciphertext ← get_range packet (ciphertext_offset h) (unprotected_payload_end h);
  gcm_decrypt (key keys) (quic_nonce (iv keys) (packet_number h)) (header h) ciphertext.

Inductive QuicSniff := QuicDomain (domain : str) | QuicNeedMore | QuicNoDomain.

(** [iter.take_while(|&&byte| byte == 0).count()] *)
Fixpoint zeros (l : list byte) : Z :=
  match l with b :: r => if u8 b =? 0 then 1 + zeros r else 0 | [] => 0 end.

(** The plaintext of an Initial packet at the front of [rest]. *)
Definition open_initial (rest : list byte) (h : QuicLongHeader) : res unit (list byte) :=
  let? keys := some (quic_initial_keys (version h) (dcid h)) in
  let? unprotected := unprotect_quic_initial_header rest h (hp keys) in
  some (decrypt_quic_initial_packet rest unprotected keys).

Fixpoint feed_loop (fuel : nat) (a : QuicCryptoAssembler) (rest : list byte)
    : res unit QuicSniff * QuicCryptoAssembler :=
  match fuel with
  | O => (Panic, a)
  | S fuel =>
    if bool_decide (rest = [])
    then (if bool_decide (received a = []) then Err tt else Ok QuicNeedMore, a)
    else
      let next a h :=
        match (let? rest := slice_from rest (payload_end h) in slice_from rest (zeros rest))
              : res unit (list byte) with
        | Ok rest => feed_loop fuel a rest
        | Err _ => (Err tt, a)
        | Panic => (Panic, a)
        end in
      match parse_quic_long_header rest with
      | Ok h =>
        if initial h then
          match open_initial rest h with
          | Ok plaintext =>
            match add_frames a plaintext with
            | (Ok _, a) =>
              match client_hello a with
              | Ok (HelloComplete (Some domain)) => (Ok (QuicDomain domain), a)
              | Ok (HelloComplete None) => (Ok QuicNoDomain, a)
              | Ok HelloPartial => next a h
              | Err _ => (Err tt, a)
              | Panic => (Panic, a)
              end
            | (Err _, a) => (Err tt, a)
            | (Panic, a) => (Panic, a)
            end
          | Err _ => (Err tt, a)
          | Panic => (Panic, a)
          end
        else next a h
      | Err _ => (Err tt, a)
      | Panic => (Panic, a)
      end
  end.

Definition feed_packets (a : QuicCryptoAssembler) (datagram : list byte)
    : res unit QuicSniff * QuicCryptoAssembler := feed_loop (S (length datagram)) a datagram.

Definition feed (a : QuicCryptoAssembler) (datagram : list byte)
    : res unit QuicSniff * QuicCryptoAssembler :=
  match feed_packets a datagram with
  | (Err _, a) => (Ok QuicNoDomain, a)
  | r => r
  end.
End Packets.

(** ** The UDP sniffer *)

Section Udp.
Context `{QuicCrypto} `{RegexEngine} `{KeywordEngine}.

Inductive UdpSniffProgress := UdpDone (s : option Sniffed) | UdpNeedMore.

Record UdpSniffer := mkUdpSniffer {
  us_config : InboundSniffingConfig;
  us_original : Target;
  us_quic : QuicCryptoAssembler;
  us_first : bool
}.

Definition UdpSniffer_new (config : InboundSniffingConfig) (original : Target) : UdpSniffer :=
  mkUdpSniffer config original assembler_default true.

Definition udp_feed (u : UdpSniffer) (datagram : list byte) : res unit UdpSniffProgress * UdpSniffer :=
  if metadata_only (us_config u) || bool_decide (datagram = []) then (Ok (UdpDone None), u)
  else
    let first := us_first u in
    let '(answer, quic) := feed (us_quic u) datagram in
    let u' := mkUdpSniffer (us_config u) (us_original u) quic false in
    match answer with
    | Ok (QuicDomain domain) =>
      (Ok (UdpDone (Some (mkSniffed Quic (override_target (us_config u) (us_original u) domain DestQuic)))), u')
    | Ok QuicNeedMore => (Ok UdpNeedMore, u')
    | Ok QuicNoDomain =>
      if first then
        match is_utp_syn datagram with
        | Ok syn => (Ok (UdpDone (if syn : bool then Some (mkSniffed Bittorrent None) else None)), u')
        | Err e => (Err e, u')
        | Panic => (Panic, u')
        end
      else (Ok (UdpDone None), u')
    | Err e => (Err e, u')
    | Panic => (Panic, u')
    end.
End Udp.

(** ** The assembler as a partial map from offsets to bytes *)

Definition apart (r1 r2 : Z * Z) : Prop := snd r1 < fst r2.

(** Sorted and merged ranges within the stream. *)
Record assembler_ok (a : QuicCryptoAssembler) : Prop := {
  ok_sorted : StronglySorted apart (received a);
  ok_ranges : Forall (fun r => 0 <= fst r < snd r /\ snd r <= len (stream a)) (received a);
  ok_size : len (stream a) <= QUIC_MAX_CRYPTO_STREAM_SIZE
}.

Definition inside (i : Z) (r : Z * Z) : bool := (fst r <=? i) && (i <? snd r).
Definition covered (l : list (Z * Z)) (i : Z) : bool := existsb (inside i) l.

(** The byte at offset [i], where it was received. *)
Definition byte_at (a : QuicCryptoAssembler) (i : Z) : option byte :=
  if covered (received a) i then get (stream a) i else None.

(** The bytes up to the first gap. *)
Definition prefix (a : QuicCryptoAssembler) : list byte :=
  match received a with
  | (0, e) :: _ => take (Z.to_nat e) (stream a)
  | _ => []
  end.

(** What a gap-free start of the stream says of the ClientHello. *)
Definition hello_of (p : list byte) : ClientHelloState :=
  match p with
  | t :: x :: y :: z :: _ =>
    if negb (u8 t =? 1) then HelloComplete None
    else
      let total := 4 + from_be [x; y; z] in
      if QUIC_MAX_CRYPTO_STREAM_SIZE <? total then HelloComplete None
      else if len p <? total then HelloPartial
      else HelloComplete (match sniff_tls_client_hello_handshake_sni (take (Z.to_nat total) p) with
                          | Ok d => Some d | _ => None end)
  | _ => HelloPartial
  end.

Lemma default_ok : assembler_ok assembler_default.
Proof. split; [constructor | constructor | done]. Qed.

(** The ranges before, at and after a new one. *)
Lemma ranges_split l s e :
  s <= e -> StronglySorted apart l -> Forall (fun r => fst r < snd r) l ->
  exists l1 l2 l3, l = l1 ++ l2 ++ l3
    /\ Forall (fun r => snd r < s) l1
    /\ Forall (fun r => s <= snd r /\ fst r <= e) l2
    /\ Forall (fun r => e < fst r) l3.
Proof.
  intros Hse. induction 1 as [|r l Hs IH Hr]; intros HF; [by exists [], [], []|].
  inversion HF as [|? ? Hx HF']; subst. destruct (IH HF') as (l1 & l2 & l3 & -> & F1 & F2 & F3).
  destruct (decide (snd r < s)) as [H1|H1].
  { exists (r :: l1), l2, l3. split_and!; [done | by constructor | done | done]. }
  destruct l1 as [|r1 l1].
  2: { inversion Hr as [|? ? Hr1 _]; subst. unfold apart in Hr1. inversion F1; inversion HF'; subst. lia. }
  destruct (decide (fst r <= e)) as [H2|H2].
  { exists [], (r :: l2), l3. split_and!; [done | done | constructor; [lia | done] | done]. }
  destruct l2 as [|r2 l2].
  2: { inversion Hr as [|? ? Hr1 _]; subst. unfold apart in Hr1. inversion F2; subst. lia. }
  exists [], [], (r :: l3). split_and!; [done.. |]. constructor; [lia | done].
Qed.

Definition merge_touched (touched : list (Z * Z)) (m : Z * Z) : Z * Z :=
  fold_left (fun m r => (Z.min (fst m) (fst r), Z.max (snd m) (snd r))) touched m.

Lemma merge_touched_spec l m s e :
  Forall (fun r => s <= snd r /\ fst r <= e /\ fst r < snd r) l ->
  fst m <= s -> e <= snd m -> s < e ->
  let m' := merge_touched l m in
  fst m' <= fst m /\ snd m <= snd m'
  /\ (forall i, inside i m' = inside i m || covered l i)
  /\ (fst m' = fst m \/ exists r, r ∈ l /\ fst m' = fst r)
  /\ (snd m' = snd m \/ exists r, r ∈ l /\ snd m' = snd r).
Proof.
  revert m. induction l as [|r l IH]; intros m HF H1 H2 Hse; simpl.
  { split_and!; try lia; auto. intros i. by rewrite orb_false_r. }
  inversion HF as [|? ? (Hr1 & Hr2 & Hr3) HF']; subst.
  destruct (IH (Z.min (fst m) (fst r), Z.max (snd m) (snd r)) HF') as (A & B & C & D & F); simpl in *; [lia..|].
  unfold merge_touched in *. split_and!; [lia | lia | | |].
  - intros i. rewrite C. unfold inside. simpl. destruct (covered l i); lia.
  - destruct D as [D|(x & Hx & D)]; [|right; exists x; split; [by right | done]].
    destruct (Z.min_spec (fst m) (fst r)) as [[_ E]|[_ E]]; [left; lia | right; exists r; split; [by left | lia]].
  - destruct F as [F|(x & Hx & F)]; [|right; exists x; split; [by right | done]].
    destruct (Z.max_spec (snd m) (snd r)) as [[_ E]|[_ E]]; [right; exists r; split; [by left | lia] | left; lia].
Qed.

Lemma covered_app l1 l2 i : covered (l1 ++ l2) i = covered l1 i || covered l2 i.
Proof. apply existsb_app. Qed.

Lemma covered_false l i : Forall (fun r => inside i r = false) l -> covered l i = false.
Proof. induction 1 as [|r l Hr _ IH]; [done|]. simpl. by rewrite Hr. Qed.

Lemma covered_bound l i n : Forall (fun r => snd r <= n) l -> covered l i = true -> i < n.
Proof.
  intros HF (r & Hr & Hi)%existsb_exists. pose proof (Forall_In _ _ _ HF Hr). unfold inside in Hi. simpl in *. lia.
Qed.

Lemma len_grow l n : 0 <= n -> len (grow l n) = Z.max (len l) n.
Proof.
  intros. unfold grow. case_if; unbool; [|lia]. rewrite len_app. unfold len at 2. rewrite length_replicate. lia.
Qed.

Lemma get_grow l n i : 0 <= i < len l -> get (grow l n) i = get l i.
Proof. intros. unfold grow. case_if; [|done]. by apply get_more. Qed.

Lemma copy_into_ok {E} l s e data :
  0 <= s -> e = s + len data -> e <= len l ->
  exists l', @copy_into E l s e data = Ok l' /\ len l' = len l
    /\ forall i, get l' i = if inside i (s, e) then get data (i - s) else get l i.
Proof.
  intros Hs -> Hl. unfold copy_into. pose proof (len_nonneg data). guard_true by lia. eexists. split; [done|].
  assert (len (take (Z.to_nat s) l) = s) as Ht by (unfold len in *; rewrite length_take; lia).
  split; [len_simpl; rewrite Ht; unfold len in *; rewrite length_drop; lia|].
  intros i. unfold inside, get. cbn [fst snd]. destruct (i <? 0) eqn:Hi.
  { by rewrite (proj2 (Z.leb_gt s i)) by lia. }
  destruct ((s <=? i) && (i <? s + len data)) eqn:E'.
  - rewrite (proj2 (Z.ltb_ge (i - s) 0)) by lia. unfold len in *.
    rewrite lookup_app_r by lia. rewrite lookup_app_l by lia. f_equal. lia.
  - destruct (decide (i < s)) as [Hlt|Hge]; unfold len in *.
    + rewrite lookup_app_l by lia. apply lookup_take_lt. lia.
    + rewrite lookup_app_r, lookup_app_r by lia. rewrite lookup_drop. f_equal. lia.
Qed.

Lemma StronglySorted_splice l1 l2 l3 m :
  StronglySorted apart (l1 ++ l2 ++ l3) ->
  Forall (fun r => snd r < fst m) l1 -> Forall (fun r => snd m < fst r) l3 ->
  StronglySorted apart (l1 ++ [m] ++ l3).
Proof.
  intros HS F1 F3. apply StronglySorted_app in HS as (H1 & S1 & S23).
  apply StronglySorted_app in S23 as (_ & _ & S3). apply StronglySorted_app. split_and!; [|done|].
  - intros x y Hx Hy. apply elem_of_cons in Hy as [-> |Hy].
    + exact (proj1 (list.Forall_forall _ l1) F1 x Hx).
    + apply H1; [done|]. apply elem_of_app. by right.
  - constructor; [done|]. exact F3.
Qed.

(** Writes [data] at [start] into a partial map. *)
Definition write_at (f : Z -> option byte) (start : Z) (data : list byte) (i : Z) : option byte :=
  if inside i (start, start + len data) then get data (i - start) else f i.

Definition inserted (a : QuicCryptoAssembler) (start : Z) (data : list byte)
    (out : res unit unit * QuicCryptoAssembler) : Prop :=
  let '(r, a') := out in
  r <> Panic /\ assembler_ok a' /\ len (received a') <= len (received a) + 1
  /\ (r = Ok tt -> forall i, byte_at a' i = write_at (byte_at a) start data i)
  /\ (start + len data <= QUIC_MAX_CRYPTO_STREAM_SIZE -> len (received a) < QUIC_MAX_CRYPTO_RANGES -> r = Ok tt).

Lemma inside_empty i s : inside i (s, s + len (@nil byte)) = false.
Proof. unfold inside. cbn [fst snd]. change (len (@nil byte)) with 0. lia. Qed.

(** Splicing a new range into a sorted list merges it with those it meets. *)
Lemma splice_spec l s e n :
  StronglySorted apart l -> Forall (fun r => 0 <= fst r < snd r /\ snd r <= n) l -> 0 <= s < e ->
  let first := partition_point (fun r => snd r <? s) l in
  let last := partition_point (fun r => fst r <=? e) l in
  exists touched, slice (E := unit) l (Z.of_nat first) (Z.of_nat last) = Ok touched
    /\ let l' := take first l ++ [merge_touched touched (s, e)] ++ drop last l in
       StronglySorted apart l' /\ Forall (fun r => 0 <= fst r < snd r /\ snd r <= Z.max n e) l'
       /\ len l' <= len l + 1 /\ forall i, covered l' i = inside i (s, e) || covered l i.
Proof.
  intros HS HF Hse first last.
  destruct (ranges_split l s e) as (l1 & l2 & l3 & Hr & F1 & F2 & F3); [lia | done | |].
  { eapply list.Forall_impl; [exact HF | naive_solver lia]. }
  pose proof HF as HF'. rewrite Hr in HF'. apply list.Forall_app in HF' as [O1 [O2 O3]%list.Forall_app].
  assert (first = length l1) as ->.
  { unfold first. rewrite Hr. apply partition_point_app; [eapply list.Forall_impl; [exact F1 | simpl; lia]|].
    apply list.Forall_app. split; [eapply list.Forall_impl; [exact F2 | simpl; lia]|].
    eapply list.Forall_impl; [exact (List.Forall_and F3 O3) | simpl; lia]. }
  assert (last = length (l1 ++ l2)) as ->.
  { unfold last. rewrite Hr, app_assoc. apply partition_point_app; [|eapply list.Forall_impl; [exact F3 | simpl; lia]].
    apply list.Forall_app. split; [|eapply list.Forall_impl; [exact F2 | simpl; lia]].
    eapply list.Forall_impl; [exact (List.Forall_and F1 O1) | simpl; lia]. }
  exists l2. split; [apply (slice_eq l1 l2 l3); [done | done | rewrite length_app; unfold len; lia]|].
  cbv zeta. rewrite Hr, take_app_length. rewrite (app_assoc l1 l2 l3), drop_app_length.
  destruct (merge_touched_spec l2 (s, e) s e) as (A & B & C & D & F); cbn [fst snd] in *; [|lia..|].
  { eapply list.Forall_impl; [exact (List.Forall_and F2 O2) | simpl; lia]. }
  set (m := merge_touched l2 (s, e)) in *. rewrite Hr in HS.
  assert (forall r, r ∈ l2 -> Forall (fun x => apart x r) l1 /\ Forall (apart r) l3 /\ 0 <= fst r /\ snd r <= n) as Hm.
  { intros r Hin. apply StronglySorted_app in HS as (H1 & _ & (H2 & _)%StronglySorted_app).
    pose proof (proj1 (list.Forall_forall _ _) O2 r Hin). simpl in *.
    split_and!; [| | lia | lia]; apply list.Forall_forall; intros x Hx; [apply H1 | by apply H2]; [done|].
    apply elem_of_app. by left. }
  split_and!.
  - apply (StronglySorted_splice l1 l2); [done | |].
    + destruct D as [-> |(r & Hin & ->)]; [done | by apply Hm].
    + destruct F as [-> |(r & Hin & ->)]; [done | by apply Hm].
  - apply list.Forall_app. split; [eapply list.Forall_impl; [exact O1 | simpl; lia]|].
    constructor; [|eapply list.Forall_impl; [exact O3 | simpl; lia]].
    split; [destruct D as [D|(r & Hin & D)] | destruct F as [F|(r & Hin & F)]]; try apply Hm in Hin; lia.
  - rewrite !len_app. change (len [m]) with 1. pose proof (len_nonneg l2). lia.
  - intros i. rewrite !covered_app. cbn [covered existsb]. rewrite orb_false_r, C.
    fold (covered l2 i). destruct (covered l1 i), (covered l2 i), (covered l3 i), (inside i (s, e)); done.
Qed.

Lemma insert_spec a start data : assembler_ok a -> 0 <= start -> inserted a start data (insert a start data).
Proof.
  intros [HS HF Hsz] Hst. unfold insert, inserted, usize_add.
  pose proof (len_nonneg data). pose proof (len_nonneg (received a)).
  change QUIC_MAX_CRYPTO_STREAM_SIZE with 32767 in *. change QUIC_MAX_CRYPTO_RANGES with 64 in *.
  destruct (start + len data <=? usize_max) eqn:Hu;
    [|split_and!; (done || lia || (intros; unfold usize_max, u64_max in *; lia))].
  case_if; [split_and!; (done || lia || (intros; lia))|]. unbool. case_bool_decide as Hd.
  { subst data. split_and!; try (done || lia). intros _ i. unfold write_at. by rewrite inside_empty. }
  assert (0 < len data) by (destruct data; [done | rewrite len_cons; pose proof (len_nonneg data); lia]).
  set (e := start + len data) in *.
  destruct (copy_into_ok (E := unit) (grow (stream a) e) start e data) as (s' & Hc & Hl' & Hg);
    [done | done | rewrite len_grow; lia |]. rewrite Hc. rewrite len_grow in Hl' by lia.
  destruct (splice_spec (received a) start e (len (stream a)) HS HF ltac:(lia)) as (t & Ht & S & R & L & C).
  rewrite Ht. fold (merge_touched t (start, e)). cbv zeta in S, R, L, C.
  set (l' := take _ _ ++ [merge_touched t (start, e)] ++ drop _ _) in *.
  split_and!; [by case_if | split; cbn [received stream]; [done | by rewrite Hl' | rewrite Hl'; unfold QUIC_MAX_CRYPTO_STREAM_SIZE; lia] | done | |].
  - intros _ i. unfold byte_at, write_at. cbn [received stream]. rewrite C, Hg. fold e.
    destruct (inside i (start, e)) eqn:Hi; cbn [orb]; [done|].
    destruct (covered (received a) i) eqn:Hcov; [|done]. apply get_grow.
    pose proof Hcov as (r & Hr & Hir)%existsb_exists. pose proof (Forall_In _ _ _ HF Hr). unfold inside in Hir. simpl in *. lia.
  - intros. by guard_true by lia.
Qed.

Lemma prefix_ok a :
  assembler_ok a ->
  (forall i, 0 <= i < len (prefix a) -> byte_at a i = get (prefix a) i) /\ byte_at a (len (prefix a)) = None.
Proof.
  intros [HS HF _]. unfold prefix, byte_at.
  assert (forall l, StronglySorted apart l -> Forall (fun r => 0 <= fst r < snd r /\ snd r <= len (stream a)) l ->
    (forall e r, l <> (0, e) :: r) -> covered l 0 = false) as Hno.
  { intros l Hl Hr Hne. destruct Hl as [|[s e] l _ Hl]; [done|]. apply covered_false.
    inversion Hr as [|? ? Hr1 Hr2]; subst. simpl in Hr1. assert (s <> 0) by (intros ->; by eapply Hne).
    constructor; [unfold inside; simpl; lia|]. apply List.Forall_forall. intros r Hin.
    pose proof (Forall_In _ _ _ Hl Hin) as Ha. unfold apart in Ha. unfold inside. simpl in *. lia. }
  destruct HS as [|[s e] l HS Hl]; [split; [|done]; change (len (@nil byte)) with 0; lia|].
  destruct s as [|p|p]; [|split; [change (len (@nil byte)) with 0; lia|]; rewrite Hno by (done || by constructor); done..].
  inversion HF as [|? ? Hr1 Hr2]; subst. simpl in Hr1.
  assert (len (take (Z.to_nat e) (stream a)) = e) as Hlen by (unfold len in *; rewrite length_take; lia).
  rewrite Hlen. split.
  - intros i Hi. cbn [covered existsb]. assert (inside i (0, e) = true) as -> by (unfold inside; simpl; lia).
    cbn [orb]. unfold get. guard_false by lia. rewrite lookup_take_lt; [done | lia].
  - rewrite covered_false; [done|]. constructor; [unfold inside; simpl; lia|].
    eapply list.Forall_impl; [exact Hl|]. intros r Hr. unfold apart in Hr. unfold inside. simpl in *. lia.
Qed.

Lemma client_hello_spec a : assembler_ok a -> client_hello a = Ok (hello_of (prefix a)).
Proof.
  intros [_ HF _]. unfold client_hello, prefix. destruct (received a) as [|[[] e] l]; [done| |done..].
  inversion HF as [|? ? Hr1 _]; subst. simpl in Hr1.
  rewrite (slice_eq [] (take (Z.to_nat e) (stream a)) (drop (Z.to_nat e) (stream a)));
    [|by rewrite take_drop | done | unfold len in *; rewrite length_take; lia].
  cbn [res_bind]. set (p := take (Z.to_nat e) (stream a)). clearbody p.
  destruct p as [|t [|x [|y [|z p]]]]; [done..|]. guard_false by (rewrite !len_cons; pose proof (len_nonneg p); lia).
  change (index (t :: x :: y :: z :: p) 0) with (@Ok unit byte t). cbn [res_bind hello_of].
  case_if; [done|].
  assert (read_u24 (t :: x :: y :: z :: p) 1 = Some (from_be [x; y; z])) as ->
    by (rewrite <- u24_from_be; done).
  case_if; [done|]. case_if; [done|]. pose proof (from_be_range [x; y; z]). unbool.
  set (q := t :: x :: y :: z :: p) in *. set (k := 4 + from_be [x; y; z]) in *.
  rewrite (slice_eq [] (take (Z.to_nat k) q) (drop (Z.to_nat k) q));
    [|by rewrite take_drop | done | unfold len in *; rewrite length_take; lia].
  cbn [res_bind]. pose proof (handshake_sni_safe (take (Z.to_nat k) q)).
  by destruct (sniff_tls_client_hello_handshake_sni _).
Qed.

(** ** Reading packets neither panics nor loops *)

Lemma next_varint_ok bytes offset v o :
  next_varint bytes offset = Ok (v, o) -> 0 <= offset -> offset < o <= len bytes /\ 0 <= v.
Proof.
  unfold next_varint. intros ([v' u] & Hr%some_inv & H)%res_bind_ok_inv Ho.
  apply res_bind_ok_inv in H as (o' & Ha%some_inv & [= -> ->]). apply usize_add_some in Ha as ->.
  unfold read_quic_varint in Hr. destruct (get bytes offset) as [f|]; [|done]. cbn [mbind option_bind] in Hr.
  pose proof (u8_range f). set (w := Z.shiftl 1 (Z.shiftr (u8 f) 6)) in *.
  assert (1 <= w) as Hw.
  { unfold w. rewrite Z.shiftl_1_l. assert (0 <= Z.shiftr (u8 f) 6) by (apply Z.shiftr_nonneg; lia).
    pose proof (Z.pow_pos_nonneg 2 (Z.shiftr (u8 f) 6)). lia. }
  destruct (get_range bytes offset (offset + w)) as [raw|] eqn:Eg; [|done]. cbn [mbind option_bind] in Hr.
  assert (offset + w <= len bytes) by (unfold get_range in Eg; case_if_in Eg; [unbool; lia | done]).
  injection Hr as <- <-. split; [lia|].
  rewrite varint_fold by (apply Z.land_nonneg; lia).
  assert (0 <= Z.land (u8 f) 0x3f) by (apply Z.land_nonneg; lia).
  pose proof (from_be_range (tail raw)).
  assert (0 < 256 ^ len (tail raw)) by (apply Z.pow_pos_nonneg; [lia | apply len_nonneg]). nia.
Qed.

Lemma next_varint_safe bytes offset : next_varint bytes offset <> Panic.
Proof. unfold next_varint. walk. Qed.
#[export] Hint Resolve next_varint_safe : rust.

Lemma skip_varints_ok n bytes offset o :
  skip_varints n bytes offset = Ok o -> 0 <= offset -> (0 < n)%nat -> offset < o <= len bytes.
Proof.
  revert offset. induction n as [|n IH]; intros offset; [lia|]. cbn [skip_varints].
  intros ([v o'] & H1 & H2)%res_bind_ok_inv Ho _. apply next_varint_ok in H1 as [H1 _]; [|done].
  destruct n as [|n]; [injection H2 as <-; lia|]. apply IH in H2; lia.
Qed.

Lemma skip_varints_safe n bytes offset : skip_varints n bytes offset <> Panic.
Proof.
  revert offset. induction n as [|n IH]; intros offset; [done|]. cbn [skip_varints].
  apply res_bind_no_panic; [auto with rust|]. by intros [v o] _.
Qed.
#[export] Hint Resolve skip_varints_safe : rust.

Lemma ack_ranges_ok fuel p offset count :
  0 <= offset <= len p -> (Z.to_nat (len p - offset) < fuel)%nat ->
  match ack_ranges fuel p offset count with Ok o => offset <= o <= len p | Err _ => True | Panic => False end.
Proof.
  revert offset count. induction fuel as [|fuel IH]; intros offset count Ho Hf; [lia|]. cbn [ack_ranges].
  case_if; [lia|]. destruct (skip_varints 2 p offset) as [o| |] eqn:E; cbn [res_bind]; [|done|].
  - apply skip_varints_ok in E; [|lia..]. specialize (IH o (count - 1) ltac:(lia) ltac:(lia)).
    destruct (ack_ranges fuel p o (count - 1)); [lia | done | done].
  - by apply skip_varints_safe in E.
Qed.

Lemma ack_frame_ok p offset ecn :
  0 <= offset <= len p ->
  match skip_quic_ack_frame p offset ecn with Ok o => offset < o <= len p | Err _ => True | Panic => False end.
Proof.
  intros Ho. unfold skip_quic_ack_frame.
  destruct (skip_varints 2 p offset) as [o1| |] eqn:E1; cbn [res_bind]; [|done | by apply skip_varints_safe in E1].
  apply skip_varints_ok in E1; [|lia..].
  destruct (next_varint p o1) as [[c o2]| |] eqn:E2; cbn [res_bind]; [|done | by apply next_varint_safe in E2].
  apply next_varint_ok in E2 as [E2 _]; [|lia].
  destruct (skip_varints 1 p o2) as [o3| |] eqn:E3; cbn [res_bind]; [|done | by apply skip_varints_safe in E3].
  apply skip_varints_ok in E3; [|lia..].
  pose proof (ack_ranges_ok (S (length p)) p o3 c ltac:(lia) ltac:(unfold len; lia)) as Ha.
  destruct (ack_ranges (S (length p)) p o3 c) as [o4| |]; cbn [res_bind]; [|done..]. destruct ecn; [|lia].
  destruct (skip_varints 3 p o4) as [o5| |] eqn:E5; [|done | by apply skip_varints_safe in E5].
  apply skip_varints_ok in E5; [|lia..]. lia.
Qed.

(** Follows a reader through its successful steps. *)
Ltac follow H :=
  repeat match type of H with
  | res_bind _ _ = Ok _ =>
    let x := fresh "x" in let Hx := fresh "Hx" in
    apply res_bind_ok_inv in H as (x & Hx & H); cbv beta iota zeta in H;
    repeat match goal with y : (_ * _)%type |- _ => destruct y end; try apply some_inv in Hx
  | (if ?b then _ else _) = Ok _ => destruct b eqn:?; try discriminate H
  end.

Lemma read_frame_safe p offset : 0 <= offset < len p -> read_frame p offset <> Panic.
Proof.
  intros Ho. unfold read_frame.
  apply res_bind_no_panic; [by apply index_no_panic|]. intros t _. cbv zeta. case_if; [done|]. case_if.
  { apply res_bind_no_panic; [|done]. pose proof (ack_frame_ok p (offset + 1) (u8 t =? 3) ltac:(lia)).
    by destruct (skip_quic_ack_frame _ _ _). }
  walk.
Qed.

Lemma read_frame_ok p offset piece o :
  0 <= offset < len p -> read_frame p offset = Ok (piece, o) ->
  offset < o <= len p /\ (forall s d, piece = Some (s, d) -> 0 <= s).
Proof.
  intros Ho. unfold read_frame. intros (t & _ & H)%res_bind_ok_inv. cbv zeta in H.
  case_if_in H; [injection H as <- <-; split; [lia | done]|]. case_if_in H.
  { apply res_bind_ok_inv in H as (o' & Hx & H). injection H as <- <-.
    pose proof (ack_frame_ok p (offset + 1) (u8 t =? 3) ltac:(lia)) as Ha. rewrite Hx in Ha. split; [lia | done]. }
  case_if_in H; [|case_if_in H; [|done]].
  - follow H. injection H as <- <-. apply next_varint_ok in Hx as [? ?]; [|lia]. apply next_varint_ok in Hx0 as [? ?]; [|lia].
    apply usize_add_some in Hx3 as ->. apply get_range_some in Hx4 as (? & ? & _).
    unfold to_usize in *. repeat case_if_in Hx1; repeat case_if_in Hx2; try done. simplify_eq.
    split; [lia|]. intros s d [= <- <-]. done.
  - follow H. injection H as <- <-. apply skip_varints_ok in Hx; [|lia..]. apply next_varint_ok in Hx0 as [? ?]; [|lia].
    unfold to_usize in *. case_if_in Hx1; [|done]. simplify_eq. apply usize_add_some in Hx2 as ->.
    apply get_range_some in Hx3 as (? & ? & _). split; [lia | done].
Qed.

Lemma crypto_frames_loop_safe fuel a p offset :
  assembler_ok a -> 0 <= offset -> (Z.to_nat (len p - offset) < fuel)%nat ->
  fst (crypto_frames_loop fuel a p offset) <> Panic /\ assembler_ok (snd (crypto_frames_loop fuel a p offset)).
Proof.
  revert a offset. induction fuel as [|fuel IH]; intros a offset Ha Ho Hf; [lia|]. cbn [crypto_frames_loop].
  case_if; [|done]. unbool. pose proof (read_frame_safe p offset ltac:(lia)) as Hs.
  destruct (read_frame p offset) as [[piece o]| |] eqn:E; [|done..].
  apply read_frame_ok in E as [Hb Hp]; [|lia]. destruct piece as [[s d]|]; [|apply IH; [done | lia..]].
  pose proof (insert_spec a s d Ha (Hp _ _ eq_refl)) as Hi. unfold inserted in Hi.
  destruct (insert a s d) as [[[]| |] a']; destruct Hi as (Hn & Ha' & _); [|done..]. apply IH; [done | lia..].
Qed.

Lemma add_frames_safe a p : assembler_ok a -> fst (add_frames a p) <> Panic /\ assembler_ok (snd (add_frames a p)).
Proof. intros. apply crypto_frames_loop_safe; [done | lia | unfold len; lia]. Qed.

Lemma parse_header_safe p : parse_quic_long_header p <> Panic.
Proof.
  unfold parse_quic_long_header. walk.
Qed.

Lemma parse_header_ok p h :
  parse_quic_long_header p = Ok h ->
  0 < packet_number_offset h <= payload_end h /\ payload_end h <= len p.
Proof.
  unfold parse_quic_long_header. intros H. follow H. injection H as <-. simpl.
  apply get_range_some in Hx4 as (? & ? & _). apply get_range_some in Hx7 as (? & ? & _).
  assert (0 < x7) as H7.
  { case_if_in Hx8; [|injection Hx8 as <-; lia]. follow Hx8. injection Hx8 as <-.
    apply next_varint_ok in Hx4 as [? ?]; [|lia]. apply usize_add_some in Hx13 as ->.
    unfold to_usize in Hx7. case_if_in Hx7; [|done]. simplify_eq. lia. }
  apply next_varint_ok in Hx9 as [? ?]; [|lia]. apply usize_add_some in Hx11 as ->.
  unfold to_usize in Hx10. case_if_in Hx10; [|done]. simplify_eq.
  apply get_range_some in Hx12 as (? & ? & _). lia.
Qed.

(** What the sniffer needs of the ciphers. *)
Class QuicCryptoLaws `{QuicCrypto} : Prop := {
  expand_len : forall h info n okm, hkdf_expand h info n = Some okm -> len okm = n;
  aes_len : forall k b, len k = 16 -> len b = 16 -> len (aes128_encrypt k b) = 16
}.

Section Safe.
Context `{QuicCryptoLaws}.

Lemma initial_keys_len v d k :
  quic_initial_keys v d = Some k -> len (key k) = 16 /\ len (iv k) = 12 /\ len (hp k) = 16.
Proof.
  unfold quic_initial_keys. destruct (quic_salt v) as [salt|]; [|done]. destruct (quic_labels v) as [[kl il] hl].
  cbn [mbind option_bind]. destruct (hkdf_expand _ _ QUIC_CLIENT_INITIAL_SECRET_LEN) as [secret|]; [|done].
  cbn [mbind option_bind]. destruct (hkdf_from_prk secret) as [hk|]; [|done]. cbn [mbind option_bind].
  destruct (hkdf_expand hk _ QUIC_INITIAL_KEY_LEN) as [kk|] eqn:E1; [|done]. cbn [mbind option_bind].
  destruct (hkdf_expand hk _ QUIC_INITIAL_IV_LEN) as [ki|] eqn:E2; [|done]. cbn [mbind option_bind].
  destruct (hkdf_expand hk _ QUIC_INITIAL_HP_LEN) as [kh|] eqn:E3; [|done]. intros [= <-]. simpl.
  apply expand_len in E1, E2, E3. done.
Qed.

Lemma number_loop_safe n i packet mask at_ header number :
  0 <= i -> 0 <= at_ -> at_ + i + Z.of_nat n <= len packet -> i + 1 + Z.of_nat n <= len mask ->
  number_loop n i packet mask at_ header number <> Panic.
Proof.
  revert i header number. induction n as [|n IH]; intros i header number Hi Ha Hp Hm; [done|]. cbn [number_loop].
  apply res_bind_no_panic; [apply index_no_panic; lia|]. intros p _.
  apply res_bind_no_panic; [apply index_no_panic; lia|]. intros m _. apply IH; lia.
Qed.

Lemma pn_len_range b : 1 <= Z.land (u8 b) 0x03 + 1 <= 4.
Proof.
  change 0x03 with (Z.ones 2). rewrite Z.land_ones by lia.
  pose proof (Z.mod_pos_bound (u8 b) (2 ^ 2) ltac:(lia)). change (2 ^ 2) with 4 in *. lia.
Qed.

Lemma unprotect_safe packet h k :
  0 < packet_number_offset h <= payload_end h -> payload_end h <= len packet -> len k = 16 ->
  unprotect_quic_initial_header packet h k <> Panic.
Proof.
  intros Ho Hp Hk. unfold unprotect_quic_initial_header.
  apply res_bind_no_panic; [apply some_safe|]. intros so _. apply res_bind_no_panic; [apply some_safe|]. intros w _.
  apply res_bind_no_panic; [apply some_safe|]. intros sample _.
  apply res_bind_no_panic; [apply some_safe|]. intros mask Hm%some_inv.
  unfold aes128_encrypt_block in Hm. case_if_in Hm; [|done]. unbool. injection Hm as <-.
  pose proof (aes_len k sample Hk Heqb) as Hlm. apply res_bind_no_panic; [apply index_no_panic; lia|]. intros p0 _.
  apply res_bind_no_panic; [apply index_no_panic; lia|]. intros m0 _. cbv zeta.
  set (first := to_u8 _). pose proof (pn_len_range first). case_if; [done|].
  apply res_bind_no_panic; [apply some_safe|]. intros e He%some_inv. apply usize_add_some in He as ->.
  case_if; [done|]. unbool. apply res_bind_no_panic; [apply slice_no_panic; lia|]. intros u Hu%slice_len.
  destruct u as [|u0 u]; [change (len (@nil byte)) with 0 in Hu; lia|].
  apply res_bind_no_panic; [apply number_loop_safe; lia|]. by intros [? ?] _.
Qed.

Lemma open_initial_safe rest h : parse_quic_long_header rest = Ok h -> open_initial rest h <> Panic.
Proof.
  intros [Ho Hp]%parse_header_ok. unfold open_initial. apply res_bind_no_panic; [apply some_safe|].
  intros k Hk%some_inv. apply initial_keys_len in Hk as (_ & _ & Hk).
  apply res_bind_no_panic; [by apply unprotect_safe|]. intros u _. apply some_safe.
Qed.

Lemma zeros_bound l : 0 <= zeros l <= len l.
Proof.
  induction l as [|b l IH]; [done|]. cbn [zeros]. rewrite len_cons. case_if; lia.
Qed.

Lemma hello_of_usable p d : hello_of p = HelloComplete (Some d) -> usable_name d.
Proof.
  unfold hello_of. destruct p as [|t [|x [|y [|z p]]]]; [done..|]. case_if; [done|]. cbv zeta. case_if; [done|].
  case_if; [done|]. destruct (sniff_tls_client_hello_handshake_sni _) as [d'| |] eqn:E; [|done..].
  intros [= <-]. by apply handshake_sni_usable in E.
Qed.

(** An answer that is none of a panic and names nothing unusable, from an assembler in order. *)
Definition fed_safe (out : res unit QuicSniff * QuicCryptoAssembler) : Prop :=
  fst out <> Panic /\ assembler_ok (snd out) /\ forall d, fst out = Ok (QuicDomain d) -> usable_name d.

Lemma feed_loop_safe fuel a rest : assembler_ok a -> (length rest < fuel)%nat -> fed_safe (feed_loop fuel a rest).
Proof.
  revert a rest. induction fuel as [|fuel IH]; intros a rest Ha Hf; [lia|]. cbn [feed_loop].
  case_bool_decide; [case_bool_decide; done|]. pose proof (parse_header_safe rest).
  destruct (parse_quic_long_header rest) as [h| |] eqn:E; [|done..].
  pose proof (open_initial_safe rest h E) as Hopen. apply parse_header_ok in E as [Ho Hp].
  assert (forall a, assembler_ok a ->
    fed_safe (match (let? rest := slice_from rest (payload_end h) in slice_from rest (zeros rest)) : res unit str with
              | Ok rest => feed_loop fuel a rest | Err _ => (Err tt, a) | Panic => (Panic, a) end)) as Hnext.
  { intros a' Ha'. rewrite slice_from_ok by lia. cbn [res_bind]. set (r := drop _ rest). pose proof (zeros_bound r).
    rewrite slice_from_ok by lia. apply IH; [done|]. unfold r. rewrite !length_drop. unfold len in *. lia. }
  destruct (initial h); [|by apply Hnext]. destruct (open_initial rest h) as [plaintext| |]; [|done..].
  destruct (add_frames_safe a plaintext Ha) as [Hs Ha']. destruct (add_frames a plaintext) as [[[]| |] a']; [|done..].
  cbn [fst snd] in *. rewrite client_hello_spec by done.
  destruct (hello_of (prefix a')) as [[d|]|] eqn:Eh; [|done | by apply Hnext].
  split_and!; [done | done |]. intros d' [= <-]. by apply hello_of_usable in Eh.
Qed.

Lemma feed_safe a d : assembler_ok a -> fed_safe (feed a d) /\ fst (feed a d) <> Err tt.
Proof.
  intros Ha. unfold feed, feed_packets. pose proof (feed_loop_safe (S (length d)) a d Ha ltac:(lia)) as Hf.
  destruct (feed_loop (S (length d)) a d) as [[] a']; [done | | by destruct Hf].
  destruct Hf as (_ & Hok & _). split; [|done]. by split_and!.
Qed.
End Safe.

Section UdpSafe.
Context `{QuicCryptoLaws} `{RegexEngine} `{KeywordEngine}.

Definition sniffer_ok (config : InboundSniffingConfig) (original : Target) (u : UdpSniffer) : Prop :=
  assembler_ok (us_quic u) /\ us_config u = config /\ us_original u = original.

Lemma udp_feed_safe config original u d :
  sniffer_ok config original u ->
  sniffer_ok config original (snd (udp_feed u d))
  /\ exists p, fst (udp_feed u d) = Ok p
     /\ forall s t, p = UdpDone (Some s) -> sniffed_to s = Some t -> target_ok config original t.
Proof.
  intros (Ha & Hc & Ho). unfold udp_feed. case_if; [split; [done|]; eexists; split; [done|]; naive_solver|].
  destruct (feed_safe (us_quic u) d Ha) as [Hf Hne].
  destruct (feed (us_quic u) d) as [r a']. destruct Hf as (Hn & Ha' & Hd). cbn [fst snd] in *.
  destruct r as [[domain| |]|[]|]; try done.
  - split; [by split_and!|]. eexists. split; [done|]. intros s t [= <-]. rewrite Hc, Ho. simpl.
    apply override_target_ok. by apply Hd.
  - split; [by split_and!|]. eexists. split; [done|]. naive_solver.
  - destruct (us_first u); [|split; [by split_and!|]; eexists; split; [done|]; naive_solver].
    destruct (@is_utp_syn_ok unit d) as [syn ->]. split; [by split_and!|]. eexists. split; [done|].
    intros s t. destruct syn; intros [= <-]. done.
Qed.

(** Whatever datagrams arrive, and in whatever order, the UDP sniffer neither panics nor
    loops: its CRYPTO stream stays within 32767 bytes of sorted, separate ranges, and every
    answer is proper. A target it makes goes to a usable name, for a protocol that [destOverride]
    names and past every exclusion. *)
Theorem udp_sniffer_safe config original datagrams d :
  let u := fold_left (fun u d => snd (udp_feed u d)) datagrams (UdpSniffer_new config original) in
  assembler_ok (us_quic u)
  /\ exists p, fst (udp_feed u d) = Ok p
     /\ forall s t, p = UdpDone (Some s) -> sniffed_to s = Some t -> target_ok config original t.
Proof.
  intros u. assert (sniffer_ok config original u) as Hu.
  { unfold u. assert (sniffer_ok config original (UdpSniffer_new config original)) as H0'
      by (split_and!; [apply default_ok | done | done]).
    revert H0'. generalize (UdpSniffer_new config original). induction datagrams as [|x xs IH]; intros v Hv; [done|].
    simpl. apply IH. by apply udp_feed_safe. }
  split; [apply Hu|]. by apply udp_feed_safe.
Qed.
End UdpSafe.

(** ** The pieces of one stream, in any order *)

(** Inserting pieces one after the other, as the frames of a packet are. *)
Fixpoint inserts (a : QuicCryptoAssembler) (ps : list (Z * list byte)) : res unit unit * QuicCryptoAssembler :=
  match ps with
  | [] => (Ok tt, a)
  | (start, data) :: ps =>
    match insert a start data with
    | (Ok _, a) => inserts a ps
    | failed => failed
    end
  end.

Definition piece_of (h : list byte) (p : Z * list byte) : Prop :=
  exists x y, h = x ++ snd p ++ y /\ len x = fst p.

Definition covers (ps : list (Z * list byte)) (i : Z) : bool :=
  existsb (fun p => inside i (fst p, fst p + len (snd p))) ps.

(** The assembler holds the bytes of [h] at the offsets [cov]. *)
Definition holds (a : QuicCryptoAssembler) (h : list byte) (cov : Z -> bool) : Prop :=
  assembler_ok a /\ forall i, byte_at a i = if cov i then get h i else None.

Lemma get_piece h p i :
  piece_of h p -> inside i (fst p, fst p + len (snd p)) = true -> get (snd p) (i - fst p) = get h i.
Proof.
  destruct p as [s d]. intros (x & y & -> & Hx). unfold inside. cbn [fst snd] in *. intros Hi. unfold get.
  pose proof (len_nonneg x). guard_false by lia. guard_false by lia. unfold len in *.
  rewrite lookup_app_r by lia. rewrite lookup_app_l by lia. f_equal. lia.
Qed.

Lemma inserts_spec a h cov ps :
  holds a h cov -> Forall (piece_of h) ps -> len h <= QUIC_MAX_CRYPTO_STREAM_SIZE ->
  len (received a) + len ps <= QUIC_MAX_CRYPTO_RANGES ->
  exists a', inserts a ps = (Ok tt, a') /\ holds a' h (fun i => cov i || covers ps i)
    /\ len (received a') <= len (received a) + len ps.
Proof.
  intros Ha HF Hh. revert a cov Ha. induction HF as [|[s d] ps Hp HF IH]; intros a cov [Hok Hb] Hl.
  { exists a. split_and!; [done | split; [done|] | change (len (@nil (Z * list byte))) with 0; lia].
    intros i. by rewrite orb_false_r. }
  rewrite len_cons in Hl. pose proof (len_nonneg ps). pose proof Hp as (x & y & Hx & Hs). cbn [fst snd] in *.
  pose proof (len_nonneg x). pose proof (len_nonneg y).
  assert (s + len d <= len h) by (rewrite Hx; len_simpl; lia).
  pose proof (insert_spec a s d Hok ltac:(lia)) as Hi. unfold inserted in Hi. cbn [inserts].
  destruct (insert a s d) as [r a1]. destruct Hi as (_ & Hok1 & Hl1 & Hb1 & Hr).
  rewrite Hr in * by lia. destruct (IH a1 (fun i => cov i || inside i (s, s + len d))) as (a2 & E & Hh2 & Hl2).
  - split; [done|]. intros i. rewrite Hb1 by done. unfold write_at. rewrite Hb.
    destruct (inside i (s, s + len d)) eqn:Ei; [|by rewrite orb_false_r]. rewrite orb_true_r.
    by apply (get_piece h (s, d)).
  - lia.
  - exists a2. split_and!; [done | | rewrite len_cons; lia]. destruct Hh2 as [Hok2 Hb2]. split; [done|].
    intros i. rewrite Hb2. cbn [covers existsb fst snd]. by rewrite orb_assoc.
Qed.

(** The first offset that is missing determines the gap-free prefix. *)
Lemma holds_prefix a h cov n :
  holds a h cov -> 0 <= n -> (forall i, 0 <= i < n -> cov i = true) -> cov n = false ->
  (forall i, cov i = true -> 0 <= i < len h) ->
  prefix a = take (Z.to_nat n) h.
Proof.
  intros [Hok Hb] Hn Hall Hno Hin. destruct (prefix_ok a Hok) as [Hp Hend].
  assert (n <= len h) as Hnl.
  { destruct (Z.le_gt_cases n (len h)) as [|Hgt]; [done|]. pose proof (len_nonneg h).
    pose proof (Hin (n - 1) (Hall (n - 1) ltac:(lia))). lia. }
  assert (len (prefix a) = n) as Hlen.
  { pose proof (len_nonneg (prefix a)). destruct (Z.lt_trichotomy (len (prefix a)) n) as [Hlt|[He|Hgt]]; [|done|].
    - rewrite Hb, Hall in Hend by lia. unfold get in Hend. rewrite (proj2 (Z.ltb_ge _ _)) in Hend by lia.
      apply lookup_ge_None in Hend. unfold len in *. lia.
    - specialize (Hp n ltac:(lia)). rewrite Hb, Hno in Hp. unfold get in Hp.
      rewrite (proj2 (Z.ltb_ge _ _)) in Hp by lia. symmetry in Hp. apply lookup_ge_None in Hp. unfold len in *. lia. }
  apply list_eq. intros k. destruct (decide (Z.of_nat k < n)) as [Hk|Hk].
  - specialize (Hp (Z.of_nat k) ltac:(lia)). rewrite Hb, Hall in Hp by lia. unfold get in Hp.
    rewrite (proj2 (Z.ltb_ge (Z.of_nat k) 0)), Nat2Z.id in Hp by lia. rewrite <- Hp. by rewrite lookup_take_lt by lia.
  - rewrite !lookup_ge_None_2; [done | rewrite length_take; lia | unfold len in *; lia].
Qed.

Lemma covers_in h ps i : Forall (piece_of h) ps -> covers ps i = true -> 0 <= i < len h.
Proof.
  intros HF (p & Hp & Hi)%existsb_exists. apply (Forall_In _ _ _ HF) in Hp as (x & y & -> & Hx).
  pose proof (len_nonneg x). pose proof (len_nonneg y). unfold inside in Hi. cbn [fst snd] in Hi. len_simpl. lia.
Qed.

Lemma default_holds h : holds assembler_default h (fun _ => false).
Proof. split; [apply default_ok | done]. Qed.

(** The CRYPTO stream is reassembled from its pieces in any order, however they overlap or
    repeat: after up to 64 pieces of one stream of at most 32767 bytes, what the assembler says of
    the ClientHello is what the bytes of the stream before the first missing one say, so it
    depends only on which bytes have arrived. *)
Theorem quic_any_order h pieces n :
  Forall (piece_of h) pieces -> len h <= QUIC_MAX_CRYPTO_STREAM_SIZE -> len pieces <= QUIC_MAX_CRYPTO_RANGES ->
  0 <= n -> (forall i, 0 <= i < n -> covers pieces i = true) -> covers pieces n = false ->
  exists a, inserts assembler_default pieces = (Ok tt, a)
    /\ (forall i, byte_at a i = if covers pieces i then get h i else None)
    /\ client_hello a = Ok (hello_of (take (Z.to_nat n) h)).
Proof.
  intros HF Hh Hl Hn Hall Hno.
  destruct (inserts_spec assembler_default h (fun _ => false) pieces (default_holds h) HF Hh Hl) as (a & E & Ha & _).
  exists a. split_and!; [done | by apply Ha |]. destruct Ha as [Hok Hb]. rewrite client_hello_spec by done. do 2 f_equal.
  apply (holds_prefix a h (covers pieces)); try done. by intros; eapply covers_in.
Qed.

(** Two pieces of a stream, the later one first, and a third that repeats a part. *)
Lemma quic_any_order_witness :
  exists a, inserts assembler_default [(2, [x03; x04]); (0, [x01; x02; x03]); (1, [x02])] = (Ok tt, a)
    /\ client_hello a = Ok (hello_of [x01; x02; x03; x04]).
Proof.
  destruct (quic_any_order [x01; x02; x03; x04; x05] [(2, [x03; x04]); (0, [x01; x02; x03]); (1, [x02])] 4)
    as (a & Ha & _ & Hc); [|done|done|lia| |done|by exists a].
  - repeat constructor; [exists [x01; x02], [x05] | exists [], [x04; x05] | exists [x01], [x03; x04; x05]]; done.
  - intros i Hi. assert (i = 0 \/ i = 1 \/ i = 2 \/ i = 3) as [-> |[-> |[-> | ->]]] by lia; reflexivity.
Defined.

(** ** Witnesses *)

(** Stand-ins with the shape of the ciphers: expansion repeats the secret, the block cipher and
    the stream cipher add the key, and the tag is constant. *)
Definition toy_tag : list byte := replicate 16 x5a.
Definition toy_quic : QuicCrypto := {|
  Hkdf := list byte;
  hkdf_new salt ikm := salt ++ ikm;
  hkdf_from_prk prk := if len prk <? 32 then None else Some prk;
  hkdf_expand h info n :=
    if (0 <=? n) && (n <=? 255 * 32)
    then Some (take (Z.to_nat n) (h ++ replicate (Z.to_nat n) (to_u8 (len info)))) else None;
  aes128_encrypt k b := zip_with byte_xor k b;
  gcm_decrypt k n aad c :=
    let split := (length c - 16)%nat in
    if bool_decide (drop split c = toy_tag) then Some (take split c) else None
|}.

Lemma toy_quic_laws : @QuicCryptoLaws toy_quic.
Proof.
  split.
  - intros h info n okm. simpl. case_if; [|done]. unbool. intros [= <-]. unfold len in *.
    rewrite length_take, length_app, length_replicate. lia.
  - intros k b Hk Hb. simpl. unfold len in *. rewrite length_zip_with. lia.
Qed.

Definition utp_syn : list byte := [x41; x00] ++ replicate 18 x00.

(** A uTP packet after a datagram that is neither. *)
Lemma udp_sniffer_safe_witness :
  exists p, fst (@udp_feed toy_quic literal_regex scan_automaton
                   (@UdpSniffer_new literal_regex scan_automaton sample_sniffing sample_flow) utp_syn) = Ok p
    /\ forall s t, p = UdpDone (Some s) -> sniffed_to s = Some t ->
         @target_ok literal_regex scan_automaton sample_sniffing sample_flow t.
Proof.
  exact (proj2 (@udp_sniffer_safe toy_quic toy_quic_laws literal_regex scan_automaton sample_sniffing sample_flow [] utp_syn)).
Defined.
