(* ===== verification/QuicClient.v ===== *)
(** A QUIC client's first flight (RFC 9000 and RFC 9001) against the sniffer of [QuicSniffing]:
    Initial packets under header protection, whose CRYPTO frames carry a ClientHello in any order
    over any number of packets and datagrams. *)
From Stdlib Require Import Strings.Byte.
From S2P Require Import Prelude Net IpRangeSet DomainMatcher RoutingRules IpText Utf8 TlsHello Sniffing QuicSniffing.

(** ** What a client sends *)

(** A variable-length integer in [2 ^ tag] bytes. *)
Definition varint (tag v : Z) : list byte :=
  be_bytes (S (Z.to_nat (2 ^ tag - 1))) (v + tag * 64 * 256 ^ (2 ^ tag - 1)).
Definition fits (tag v : Z) : Prop := 0 <= tag < 4 /\ 0 <= v < 64 * 256 ^ (2 ^ tag - 1).

Inductive QuicFrame :=
| Padding
| Ping
| Crypto (offset_tag length_tag start : Z) (data : list byte).

Definition encode_quic_frame (f : QuicFrame) : list byte :=
  match f with
  | Padding => [x00]
  | Ping => [x01]
  | Crypto t1 t2 start data => x06 :: varint t1 start ++ varint t2 (len data) ++ data
  end.

Definition frame_ok (f : QuicFrame) : Prop :=
  match f with
  | Crypto t1 t2 start data => fits t1 start /\ fits t2 (len data) /\ start <= usize_max
  | _ => True
  end.

Definition frame_piece (f : QuicFrame) : list (Z * list byte) :=
  match f with Crypto _ _ start data => [(start, data)] | _ => [] end.

Record Packet := mkPacket {
  first_byte : byte;
  quic_version : Z;
  client_dcid : list byte;
  client_scid : list byte;
  token_tag : Z;
  token : list byte;
  length_tag : Z;
  number : Z;
  frames : list QuicFrame
}.

Definition plaintext (p : Packet) : list byte := concat (map encode_quic_frame (frames p)).
Definition packet_pieces (p : Packet) : list (Z * list byte) := flat_map frame_piece (frames p).

(** The length of the packet number, in the low bits of the first byte. *)
Definition number_len (p : Packet) : Z := Z.land (u8 (first_byte p)) 0x03 + 1.

(** A client's cipher: what it seals the sniffer opens; and HKDF-SHA256 expands any short secret. *)
Class QuicClient `{QuicCrypto} := {
  gcm_encrypt : list byte -> list byte -> list byte -> list byte -> list byte;
  gcm_len : forall k n aad m, len (gcm_encrypt k n aad m) = len m + QUIC_TAG_LEN;
  gcm_open_seal : forall k n aad m, len k = 16 -> len n = 12 ->
    gcm_decrypt k n aad (gcm_encrypt k n aad m) = Some m;
  expand_some : forall h info n, 0 <= n <= 255 * 32 -> is_Some (hkdf_expand h info n);
  from_prk_some : forall prk, len prk = 32 -> is_Some (hkdf_from_prk prk)
}.

Section Client.
Context `{QuicClient}.

(** The header up to the packet number. *)
Definition header_front (p : Packet) : list byte :=
  first_byte p :: be_bytes 4 (quic_version p)
  ++ vec 1 (client_dcid p) ++ vec 1 (client_scid p)
  ++ varint (token_tag p) (len (token p)) ++ token p
  ++ varint (length_tag p) (number_len p + (len (plaintext p) + QUIC_TAG_LEN)).

Definition number_bytes (p : Packet) : list byte := be_bytes (Z.to_nat (number_len p)) (number p).

Definition sealed (keys : QuicInitialKeys) (p : Packet) : list byte :=
  gcm_encrypt (key keys) (quic_nonce (iv keys) (number p)) (header_front p ++ number_bytes p) (plaintext p).

(** The mask for the first byte and the packet number, from a sample of the ciphertext. *)
Definition sample (keys : QuicInitialKeys) (p : Packet) : list byte :=
  take 16 (drop (Z.to_nat (4 - number_len p)) (sealed keys p)).
Definition protection (keys : QuicInitialKeys) (p : Packet) : list byte :=
  aes128_encrypt (hp keys) (sample keys p).

Definition masked_first (mask : list byte) (b : byte) : byte :=
  to_u8 (Z.lxor (u8 b) (Z.land (u8 (default x00 (head mask))) 0x0f)).

Definition protect (keys : QuicInitialKeys) (p : Packet) : list byte :=
  let mask := protection keys p in
  masked_first mask (first_byte p) :: tail (header_front p)
  ++ zip_with byte_xor (number_bytes p) (tail mask) ++ sealed keys p.

(** The type of an Initial packet in the first byte. *)
Definition initial_bits (v : Z) : Z := if v =? QUIC_V2 then 0x10 else 0x00.

Record packet_ok (p : Packet) : Prop := {
  po_long : Z.land (u8 (first_byte p)) 0xc0 = 0xc0;
  po_initial : Z.land (u8 (first_byte p)) 0x30 = initial_bits (quic_version p);
  po_version : quic_version p ∈ [QUIC_V1; QUIC_V2; QUIC_DRAFT_29];
  po_dcid : len (client_dcid p) <= 20;
  po_scid : len (client_scid p) <= 20;
  po_token : fits (token_tag p) (len (token p));
  po_length : fits (length_tag p) (number_len p + (len (plaintext p) + QUIC_TAG_LEN));
  po_number : 0 <= number p < 256 ^ number_len p;
  po_frames : Forall frame_ok (frames p);
  po_sample : 4 <= number_len p + len (plaintext p);
  po_frame : 0 < len (plaintext p)
}.
End Client.

(** Right-associates both sides of an equation of appended lists. *)
Ltac regroup := repeat (progress (cbn [app]; rewrite <- ?app_assoc)).

(** ** Bits *)

Lemma lxor_byte a b : 0 <= a < 256 -> 0 <= b < 256 -> 0 <= Z.lxor a b < 256.
Proof.
  intros Ha Hb. assert (Z.lxor a b = Z.lxor a b mod 2 ^ 8) as ->.
  { rewrite <- (Z.mod_small a (2 ^ 8)), <- (Z.mod_small b (2 ^ 8)) at 1 by (change (2 ^ 8) with 256; lia).
    rewrite <- !Z.land_ones by lia. apply Z.bits_inj'. intros n Hn.
    rewrite Z.lxor_spec, !Z.land_spec, Z.lxor_spec. destruct (Z.testbit (Z.ones 8) n);
    by rewrite ?andb_true_r, ?andb_false_r. }
  apply (Z.mod_pos_bound _ (2 ^ 8)). lia.
Qed.

Lemma u8_byte_xor a b : u8 (byte_xor a b) = Z.lxor (u8 a) (u8 b).
Proof.
  unfold byte_xor. pose proof (u8_range a). pose proof (u8_range b). apply u8_to_u8_small. by apply lxor_byte.
Qed.

Lemma byte_xor_twice a b : byte_xor (byte_xor a b) b = a.
Proof. apply u8_inj. by rewrite !u8_byte_xor, Z.lxor_assoc, Z.lxor_nilpotent, Z.lxor_0_r. Qed.

Lemma land_masked a m k : Z.land 0x0f k = 0 -> Z.land (Z.lxor a (Z.land m 0x0f)) k = Z.land a k.
Proof.
  intros Hk. apply Z.bits_inj'. intros n Hn. rewrite !Z.land_spec, Z.lxor_spec, Z.land_spec.
  assert (Z.testbit 0x0f n && Z.testbit k n = false) as Hb by (rewrite <- Z.land_spec, Hk; apply Z.bits_0).
  destruct (Z.testbit a n), (Z.testbit m n), (Z.testbit 15 n), (Z.testbit k n); done.
Qed.

Lemma u8_masked_first mask b : u8 (masked_first mask b) = Z.lxor (u8 b) (Z.land (u8 (default x00 (head mask))) 0x0f).
Proof.
  unfold masked_first. apply u8_to_u8_small, lxor_byte; [apply u8_range|]. change 0x0f with (Z.ones 4).
  rewrite Z.land_ones by lia. pose proof (Z.mod_pos_bound (u8 (default x00 (head mask))) (2 ^ 4) ltac:(lia)). lia.
Qed.

Lemma masked_first_twice mask m0 b :
  head mask = Some m0 -> to_u8 (Z.lxor (u8 (masked_first mask b)) (Z.land (u8 m0) 0x0f)) = b.
Proof.
  intros Hm. rewrite u8_masked_first, Hm. simpl.
  by rewrite Z.lxor_assoc, Z.lxor_nilpotent, Z.lxor_0_r, to_u8_u8.
Qed.

(** ** Reading back what was written *)

Lemma pow2_tag tag : 0 <= tag < 4 -> 1 <= 2 ^ tag <= 8.
Proof. intros. assert (tag = 0 \/ tag = 1 \/ tag = 2 \/ tag = 3) as [-> |[-> |[-> | ->]]] by lia; lia. Qed.

Lemma len_varint tag v : 0 <= tag < 4 -> len (varint tag v) = 2 ^ tag.
Proof. intros Ht. unfold varint. rewrite len_be_bytes. pose proof (pow2_tag tag Ht). lia. Qed.

Lemma next_varint_eq x y l tag v o :
  l = x ++ varint tag v ++ y -> len x = o -> fits tag v -> len l <= usize_max ->
  next_varint l o = Ok (v, o + 2 ^ tag).
Proof.
  intros Hl <- [Ht Hv] Hu. pose proof (pow2_tag tag Ht) as Hp. pose proof (len_varint tag v Ht) as Hlen.
  unfold varint in Hl, Hlen. set (k := Z.to_nat (2 ^ tag - 1)) in *.
  assert (Z.of_nat k = 2 ^ tag - 1) as Hk by lia. rewrite <- Hk in Hl, Hlen, Hv.
  destruct (tagged_bytes tag v k Ht Hv) as (b & rest & E & Hr & Hb & Hf). rewrite E in Hl, Hlen.
  unfold next_varint, read_quic_varint.
  rewrite (get_eq x (rest ++ y) l b) by (try done; by rewrite Hl). cbn [mbind option_bind].
  assert (Z.shiftl 1 (Z.shiftr (u8 b) 6) = 2 ^ tag) as Hw.
  { rewrite Z.shiftr_div_pow2 by lia. change (2 ^ 6) with 64. by rewrite Hb, Z.shiftl_1_l. }
  rewrite Hw. rewrite (get_range_eq x (b :: rest) y l) by (done || (rewrite Hlen; lia)).
  cbn [mbind option_bind tail some ok_or res_bind].
  rewrite usize_add_eq by (rewrite Hl, !len_app in Hu; pose proof (len_nonneg y); lia).
  cbn [some ok_or res_bind]. do 2 f_equal. rewrite varint_fold by (apply Z.land_nonneg; pose proof (u8_range b); lia).
  change 0x3f with (Z.ones 6). rewrite Z.land_ones by lia. change (2 ^ 6) with 64.
  rewrite <- Hf, from_be_cons, Hr. pose proof (Z.div_mod (u8 b) 64 ltac:(lia)) as Hd. rewrite Hb in Hd. nia.
Qed.

Lemma fits_usize tag v : fits tag v -> v <= usize_max.
Proof.
  intros [Ht Hv]. pose proof (pow2_tag tag Ht).
  assert (256 ^ (2 ^ tag - 1) <= 256 ^ 7) by (apply Z.pow_le_mono_r; lia).
  unfold usize_max, u64_max. lia.
Qed.

Lemma to_usize_eq tag v : fits tag v -> to_usize v = Some v.
Proof. intros Hf%fits_usize. unfold to_usize. by guard_true by lia. Qed.

Lemma read_frame_eq x f y l :
  l = x ++ encode_quic_frame f ++ y -> frame_ok f -> len l <= usize_max ->
  read_frame l (len x) = Ok (head (frame_piece f), len x + len (encode_quic_frame f)).
Proof.
  intros Hl Hf Hu. unfold read_frame. destruct f as [| |t1 t2 start data]; cbn [encode_quic_frame app frame_piece] in *.
  1-2: rewrite Hl, (index_app_len x y) by done; cbn [res_bind]; by f_equal.
  destruct Hf as (F1 & F2 & _). pose proof F1 as [T1 _]. pose proof F2 as [T2 _].
  pose proof (len_varint t1 start T1) as L1. pose proof (len_varint t2 (len data) T2) as L2.
  pose proof (len_nonneg x). pose proof (len_nonneg y). pose proof (len_nonneg data).
  assert (l = x ++ [x06] ++ varint t1 start ++ varint t2 (len data) ++ data ++ y) as Hl'
    by (rewrite Hl; cbn [app]; by rewrite <- !app_assoc).
  assert (len l = len x + 1 + 2 ^ t1 + 2 ^ t2 + len data + len y) as Hll
    by (rewrite Hl', !len_app, L1, L2; len_simpl; lia).
  rewrite Hl at 1. rewrite (index_app_len x) by done. cbn [res_bind]. cbv zeta.
  change (u8 x06) with 6. cbn [Z.eqb Pos.eqb orb].
  rewrite (next_varint_eq (x ++ [x06]) (varint t2 (len data) ++ data ++ y) l t1 start)
    by (first [done | by rewrite Hl', <- !app_assoc | by len_simpl]). cbn [res_bind].
  rewrite (next_varint_eq (x ++ [x06] ++ varint t1 start) (data ++ y) l t2 (len data))
    by (first [done | by rewrite Hl', <- !app_assoc | rewrite !len_app, L1; len_simpl; lia]). cbn [res_bind].
  rewrite (to_usize_eq t1), (to_usize_eq t2) by done. cbn [some ok_or res_bind].
  rewrite usize_add_eq by lia. cbn [some ok_or res_bind].
  rewrite (get_range_eq (x ++ [x06] ++ varint t1 start ++ varint t2 (len data)) data y l);
    [|by rewrite Hl', <- !app_assoc | rewrite !len_app, L1, L2; len_simpl; lia | done].
  cbn [some ok_or res_bind head]. do 2 f_equal. rewrite len_cons, !len_app, L1, L2. lia.
Qed.

Lemma crypto_frames_loop_eq fs fuel a x l :
  l = x ++ concat (map encode_quic_frame fs) -> Forall frame_ok fs -> len l <= usize_max -> (length fs < fuel)%nat ->
  crypto_frames_loop fuel a l (len x) = inserts a (flat_map frame_piece fs).
Proof.
  intros Hl HF Hu. revert fuel a x Hl. induction HF as [|f fs Hf HF IH]; intros fuel a x Hl Hfuel;
    (destruct fuel as [|fuel]; [simpl in Hfuel; lia|]); cbn [crypto_frames_loop map concat flat_map] in *.
  - rewrite app_nil_r in Hl. subst. by rewrite Z.ltb_irrefl.
  - assert (0 < len (encode_quic_frame f)) by (destruct f; cbn [encode_quic_frame]; rewrite len_cons;
      pose proof (len_nonneg (@nil byte)); try pose proof (len_nonneg (varint offset_tag start ++ varint length_tag0 (len data) ++ data)); lia).
    pose proof (len_nonneg (concat (map encode_quic_frame fs))).
    assert ((len x <? len l) = true) as -> by (rewrite Hl, !len_app; lia).
    rewrite (read_frame_eq x f (concat (map encode_quic_frame fs)) l) by done.
    rewrite <- len_app. assert (l = (x ++ encode_quic_frame f) ++ concat (map encode_quic_frame fs)) as Hl2
      by (rewrite Hl; apply app_assoc). simpl in Hfuel.
    destruct f as [| |t1 t2 start data]; cbn [frame_piece head app inserts] in *; try (apply IH; [done | lia]).
    destruct (insert a start data) as [[[]| |] a']; [apply IH; [done | lia] | done | done].
Qed.

Lemma add_frames_eq a p :
  Forall frame_ok (frames p) -> len (plaintext p) <= usize_max ->
  add_frames a (plaintext p) = inserts a (packet_pieces p).
Proof.
  intros HF Hu. unfold add_frames. change 0 with (len (@nil byte)). apply crypto_frames_loop_eq; try done.
  unfold plaintext. enough (length (frames p) <= length (concat (map encode_quic_frame (frames p))))%nat by lia. clear.
  induction (frames p) as [|f fs IH]; [done|]. cbn [map concat length]. rewrite length_app. destruct f; simpl; lia.
Qed.

Lemma read_u32_eq x y l z i :
  l = x ++ be_bytes 4 z ++ y -> len x = i -> 0 <= z < 4294967296 -> read_u32 l i = Some z.
Proof.
  intros -> <- Hz. unfold read_u32. set (w := be_bytes 4 z).
  assert (exists a b c d, w = [a; b; c; d]) as (a & b & c & d & Hw) by (do 4 eexists; reflexivity).
  rewrite Hw. cbn [app].
  rewrite (get_eq x (b :: c :: d :: y) _ a (len x)) by done. cbn [mbind option_bind].
  rewrite (get_eq (x ++ [a]) (c :: d :: y) _ b (len x + 1)) by (rewrite <- ?app_assoc; by len_simpl).
  cbn [mbind option_bind].
  rewrite (get_eq (x ++ [a; b]) (d :: y) _ c (len x + 2)) by (rewrite <- ?app_assoc; by len_simpl).
  cbn [mbind option_bind].
  rewrite (get_eq (x ++ [a; b; c]) y _ d (len x + 3)) by (rewrite <- ?app_assoc; by len_simpl).
  cbn [mbind option_bind]. rewrite <- Hw. unfold w. by rewrite from_be_bytes_small.
Qed.

Section Roundtrip.
Context `{QuicClient} `{!QuicCryptoLaws}.

Lemma number_len_range p : 1 <= number_len p <= 4.
Proof. apply pn_len_range. Qed.

Lemma len_number_bytes p : len (number_bytes p) = number_len p.
Proof. unfold number_bytes. rewrite len_be_bytes. pose proof (number_len_range p). lia. Qed.

Lemma len_sealed keys p : len (sealed keys p) = len (plaintext p) + QUIC_TAG_LEN.
Proof. apply gcm_len. Qed.

Lemma len_sample keys p : packet_ok p -> len (sample keys p) = 16.
Proof.
  intros Hp. pose proof (po_sample p Hp). pose proof (number_len_range p).
  pose proof (len_sealed keys p) as Hl. unfold sample, QUIC_TAG_LEN, len in *. rewrite length_take, length_drop. lia.
Qed.

Lemma len_protection keys p : packet_ok p -> len (hp keys) = 16 -> len (protection keys p) = 16.
Proof. intros Hp Hk. apply aes_len; [done | by apply len_sample]. Qed.

(** The parts of a protected packet. *)
Lemma protect_parts keys p :
  packet_ok p -> len (hp keys) = 16 ->
  exists m0 masked, head (protection keys p) = Some m0
    /\ masked = zip_with byte_xor (number_bytes p) (tail (protection keys p))
    /\ len masked = number_len p
    /\ protect keys p = (masked_first (protection keys p) (first_byte p) :: tail (header_front p)) ++ masked ++ sealed keys p.
Proof.
  intros Hp Hk. pose proof (len_protection keys p Hp Hk) as Hl. unfold protect.
  destruct (protection keys p) as [|m0 m] eqn:E; [done|]. exists m0. eexists. split_and!; [done | done | | done].
  pose proof (number_len_range p). pose proof (len_number_bytes p) as Hn. rewrite len_cons in Hl. unfold len in *.
  cbn [tail]. rewrite length_zip_with. lia.
Qed.

Lemma version_range v : v ∈ [QUIC_V1; QUIC_V2; QUIC_DRAFT_29] -> 0 <= v < 4294967296.
Proof.
  unfold QUIC_V1, QUIC_V2, QUIC_DRAFT_29. rewrite !elem_of_cons, elem_of_nil. intros [-> |[-> |[-> |[]]]]; lia.
Qed.

Lemma version_types v :
  v ∈ [QUIC_V1; QUIC_V2; QUIC_DRAFT_29] ->
  exists retry, initial_bits v <> retry
    /\ (if (v =? QUIC_V1) || (v =? QUIC_DRAFT_29) then Ok (0x00, 0x30)
        else if v =? QUIC_V2 then Ok (0x10, 0x00) else Err tt) = @Ok unit (Z * Z) (initial_bits v, retry).
Proof.
  rewrite !elem_of_cons, elem_of_nil. intros [-> |[-> |[-> |[]]]]; eexists; (split; [|reflexivity]); done.
Qed.

Definition field_len (p : Packet) : Z := number_len p + (len (plaintext p) + QUIC_TAG_LEN).

(** Where the fields of a protected packet stand. *)
Lemma protected_layout keys p :
  packet_ok p -> len (hp keys) = 16 ->
  (exists body, protect keys p
    = [masked_first (protection keys p) (first_byte p)] ++ be_bytes 4 (quic_version p)
      ++ [to_u8 (len (client_dcid p))] ++ client_dcid p ++ [to_u8 (len (client_scid p))] ++ client_scid p
      ++ varint (token_tag p) (len (token p)) ++ token p ++ varint (length_tag p) (field_len p) ++ body)
  /\ len (header_front p) = 7 + len (client_dcid p) + len (client_scid p) + 2 ^ token_tag p + len (token p)
                            + 2 ^ length_tag p
  /\ len (protect keys p) = len (header_front p) + field_len p.
Proof.
  intros Hp Hk. destruct (protect_parts keys p Hp Hk) as (m0 & masked & _ & _ & Hlm & Hpr).
  assert (forall x : list byte, vec 1 x = [to_u8 (len x)] ++ x) as V1
    by (intros x; unfold vec; simpl; by rewrite Z.div_1_r). split_and!.
  - exists (masked ++ sealed keys p). rewrite Hpr. unfold header_front. cbn [tail]. rewrite !V1. by regroup.
  - unfold header_front. rewrite !V1, len_cons, !len_app, !len_varint by apply Hp. len_simpl. lia.
  - rewrite Hpr, !len_app, Hlm, len_sealed. unfold header_front, field_len. cbn [tail]. rewrite !len_cons. lia.
Qed.

Lemma parse_protected keys p rest :
  packet_ok p -> len (hp keys) = 16 -> len (protect keys p ++ rest) <= usize_max ->
  parse_quic_long_header (protect keys p ++ rest)
  = Ok (mkQuicLongHeader (quic_version p) true (client_dcid p) (len (header_front p)) (len (protect keys p)) (field_len p)).
Proof.
  intros Hp Hk Hu. destruct (protected_layout keys p Hp Hk) as ((body & E) & Hlf & Hlp).
  pose proof Hp as [Hlong Hini Hver Hd Hs Ht Hln _ _ _ _]. rewrite len_app in Hu.
  pose proof (len_nonneg (client_dcid p)). pose proof (len_nonneg (client_scid p)). pose proof (len_nonneg (token p)).
  pose proof (len_nonneg rest). pose proof (pow2_tag _ (proj1 Ht)). pose proof (pow2_tag _ (proj1 Hln)).
  pose proof (number_len_range p). pose proof (len_nonneg (plaintext p)).
  assert (16 < field_len p) by (unfold field_len, QUIC_TAG_LEN; lia).
  assert (fits (length_tag p) (field_len p)) as Hfl by apply Hln.
  set (first := masked_first (protection keys p) (first_byte p)) in *.
  set (d := client_dcid p) in *. set (sc := client_scid p) in *. set (tk := token p) in *.
  apply (f_equal (fun x => x ++ rest)) in E. set (l := protect keys p ++ rest) in *.
  assert (len l = len (protect keys p) + len rest) as Hll by apply len_app.
  assert (l = [first] ++ be_bytes 4 (quic_version p) ++ [to_u8 (len d)] ++ d ++ [to_u8 (len sc)] ++ sc
    ++ varint (token_tag p) (len tk) ++ tk ++ varint (length_tag p) (field_len p) ++ body ++ rest) as El
    by (rewrite E; by regroup). clear E.
  unfold parse_quic_long_header. assert (head l = Some first) as -> by by rewrite El. cbn [some ok_or res_bind].
  unfold first at 1. rewrite u8_masked_first, land_masked, Hlong by done. cbn [negb Z.eqb Pos.eqb].
  erewrite (read_u32_eq [first] _ l (quic_version p)); [|exact El | done | by apply version_range].
  cbn [some ok_or res_bind]. destruct (version_types (quic_version p) Hver) as (retry & Hretry & ->).
  cbn [res_bind]. cbv zeta. unfold first at 1 2. rewrite u8_masked_first, !land_masked, Hini by done.
  guard_false by (by apply Z.eqb_neq). rewrite Z.eqb_refl.
  erewrite (get_eq ([first] ++ be_bytes 4 (quic_version p)) _ l (to_u8 (len d))); [|rewrite El; by regroup | by len_simpl].
  cbn [some ok_or res_bind]. rewrite u8_to_u8_small by lia. rewrite usize_add_eq by lia. cbn [some ok_or res_bind].
  erewrite (get_range_eq ([first] ++ be_bytes 4 (quic_version p) ++ [to_u8 (len d)]) d _ l);
    [|rewrite El; by regroup | by len_simpl | done]. cbn [some ok_or res_bind].
  erewrite (get_eq ([first] ++ be_bytes 4 (quic_version p) ++ [to_u8 (len d)] ++ d) _ l (to_u8 (len sc)));
    [|rewrite El; by regroup | len_simpl; lia].
  cbn [some ok_or res_bind]. rewrite u8_to_u8_small by lia. rewrite usize_add_eq by lia. cbn [some ok_or res_bind].
  set (x1 := [first] ++ be_bytes 4 (quic_version p) ++ [to_u8 (len d)] ++ d ++ [to_u8 (len sc)]).
  assert (len x1 = 7 + len d) as Hx1 by (unfold x1; len_simpl; lia).
  assert (l = x1 ++ sc ++ varint (token_tag p) (len tk) ++ tk ++ varint (length_tag p) (field_len p) ++ body ++ rest) as El1
    by (rewrite El; unfold x1; by regroup).
  erewrite (get_range_eq x1 sc _ l); [|exact El1 | lia | done]. cbn [some ok_or res_bind].
  erewrite (next_varint_eq (x1 ++ sc) _ l (token_tag p) (len tk)); [|rewrite El1; by regroup | rewrite len_app; lia | done | lia].
  cbn [res_bind]. rewrite (to_usize_eq (token_tag p)) by done. cbn [some ok_or res_bind].
  rewrite usize_add_eq by lia. cbn [some ok_or res_bind].
  set (x2 := x1 ++ sc ++ varint (token_tag p) (len tk) ++ tk).
  assert (len x2 = 7 + len d + len sc + 2 ^ token_tag p + len tk) as Hx2
    by (unfold x2; rewrite !len_app, len_varint, Hx1 by apply Ht; lia).
  assert (l = x2 ++ varint (length_tag p) (field_len p) ++ body ++ rest) as El2 by (rewrite El1; unfold x2; by regroup).
  erewrite (get_range_eq [] x2 _ l); [|exact El2 | done | lia]. cbn [some ok_or res_bind].
  erewrite (next_varint_eq x2 _ l (length_tag p) (field_len p)); [|exact El2 | lia | done | lia].
  cbn [res_bind]. rewrite (to_usize_eq (length_tag p)) by done. cbn [some ok_or res_bind andb].
  guard_false by (unfold QUIC_TAG_LEN; lia). rewrite usize_add_eq by lia. cbn [some ok_or res_bind].
  rewrite (get_range_eq [] (protect keys p) rest l) by (done || lia). cbn [some ok_or res_bind].
  unfold first. rewrite u8_masked_first, land_masked, Hini, Z.eqb_refl by done. do 2 f_equal; lia.
Qed.

(** Unmasking restores the packet number, byte by byte. *)
Lemma number_loop_eq ps ms x y mx h n :
  (length ps <= length ms)%nat -> 0 <= n ->
  number_loop (length ps) (len mx - 1) (x ++ zip_with byte_xor ps ms ++ y) (mx ++ ms) (len x - (len mx - 1)) h n
  = Ok (h ++ ps, n * 256 ^ len ps + from_be ps).
Proof.
  revert ms x mx h n. induction ps as [|p ps IH]; intros ms x mx h n Hl Hn.
  - simpl. rewrite app_nil_r. change (from_be []) with 0. change (256 ^ len []) with 1. do 2 f_equal. lia.
  - destruct ms as [|m ms]; [simpl in Hl; lia|]. cbn [length number_loop zip_with app].
    replace (len x - (len mx - 1) + (len mx - 1)) with (len x) by lia. rewrite index_app_len by done. cbn [res_bind].
    replace (len mx - 1 + 1) with (len mx) by lia. rewrite index_app_len by done. cbn [res_bind].
    rewrite byte_xor_twice. specialize (IH ms (x ++ [byte_xor p m]) (mx ++ [m]) (h ++ [p]) (n * 256 + u8 p)).
    rewrite !len_app in IH. change (len [byte_xor p m]) with 1 in IH. change (len [m]) with 1 in IH.
    replace (len mx + 1 - 1) with (len mx) in IH by lia.
    replace (len x + 1 - len mx) with (len x - (len mx - 1)) in IH by lia. rewrite <- !app_assoc in IH. cbn [app] in IH.
    pose proof (u8_range p). rewrite Z.lor_comm, lor_disjoint_add by lia.
    replace (u8 p + n * 2 ^ 8) with (n * 256 + u8 p) by lia. rewrite IH by (simpl in Hl; lia).
    rewrite from_be_cons, len_cons, Z.pow_add_r by (pose proof (len_nonneg ps); lia). do 2 f_equal. ring.
Qed.

(** The sample is found behind the longest packet number there could be. *)
Lemma sample_found keys p :
  packet_ok p -> len (hp keys) = 16 ->
  get_range (protect keys p) (len (header_front p) + 4) (len (header_front p) + 4 + QUIC_HP_SAMPLE_LEN)
  = Some (sample keys p).
Proof.
  intros Hp Hk. destruct (protect_parts keys p Hp Hk) as (_ & masked & _ & _ & Hlm & Hpr).
  pose proof (number_len_range p). pose proof (po_sample p Hp). pose proof (len_sealed keys p) as Hls.
  pose proof (len_sample keys p Hp) as Hsm. unfold QUIC_TAG_LEN in Hls.
  set (front := _ :: tail (header_front p)) in *. set (k := Z.to_nat (4 - number_len p)).
  apply (get_range_eq (front ++ masked ++ take k (sealed keys p)) _ (drop 16 (drop k (sealed keys p)))).
  - rewrite Hpr, <- !app_assoc. unfold sample. fold k. by rewrite !take_drop.
  - rewrite !len_app, Hlm. replace (len front) with (len (header_front p)) by (unfold front, header_front; by rewrite !len_cons).
    assert (len (take k (sealed keys p)) = 4 - number_len p) as ->; [|lia].
    unfold k, len in *. rewrite length_take. lia.
  - by rewrite Hsm.
Qed.

Lemma unprotect_protected keys p rest :
  packet_ok p -> len (hp keys) = 16 -> len (protect keys p ++ rest) <= usize_max ->
  unprotect_quic_initial_header (protect keys p ++ rest)
    (mkQuicLongHeader (quic_version p) true (client_dcid p) (len (header_front p)) (len (protect keys p)) (field_len p))
    (hp keys)
  = Ok (mkQuicUnprotectedHeader (header_front p ++ number_bytes p) (number p)
          (len (header_front p) + number_len p) (len (protect keys p))).
Proof.
  intros Hp Hk Hu. destruct (protect_parts keys p Hp Hk) as (m0 & masked & Hm & Emask & Hlm & Hpr).
  destruct (protected_layout keys p Hp Hk) as (_ & _ & Hlp). rewrite len_app in Hu.
  pose proof (number_len_range p). pose proof (len_nonneg rest). pose proof (po_sample p Hp).
  pose proof (len_nonneg (header_front p)). pose proof (po_frame p Hp).
  pose proof (len_protection keys p Hp Hk) as Hlpr. unfold field_len, QUIC_TAG_LEN in *.
  unfold unprotect_quic_initial_header. cbn [packet_number_offset payload_end length_field].
  rewrite usize_add_eq by lia. cbn [some ok_or res_bind].
  rewrite (get_range_eq [] (protect keys p) rest) by (done || lia). cbn [some ok_or res_bind].
  rewrite sample_found by done. cbn [some ok_or res_bind].
  unfold aes128_encrypt_block. rewrite len_sample by done. cbn [Z.eqb Pos.eqb some ok_or res_bind].
  fold (protection keys p). set (first := masked_first (protection keys p) (first_byte p)) in *.
  set (front := tail (header_front p)) in *. assert (header_front p = first_byte p :: front) as Ehf by done.
  assert (to_u8 (Z.lxor (u8 first) (Z.land (u8 m0) 0x0f)) = first_byte p) as Hfirst by (by apply masked_first_twice).
  clearbody first. destruct (protection keys p) as [|m mask]; [done|]. injection Hm as ->.
  assert (index (E := unit) (protect keys p ++ rest) 0 = Ok first) as -> by by rewrite Hpr.
  assert (index (E := unit) (m0 :: mask) 0 = Ok m0) as -> by done. cbn [res_bind]. cbv zeta.
  rewrite Hfirst. fold (number_len p). unfold QUIC_TAG_LEN. guard_false by lia. rewrite usize_add_eq by lia. cbn [some ok_or res_bind].
  guard_false by lia. rewrite (slice_eq [] (first :: front) (masked ++ sealed keys p ++ rest));
    [|rewrite Hpr; by regroup | done | by rewrite Ehf, !len_cons]. cbn [res_bind].
  replace (Z.to_nat (number_len p)) with (length (number_bytes p)) by (unfold number_bytes; by rewrite length_be_bytes).
  rewrite Hpr, Emask. cbn [tail]. rewrite <- !app_assoc.
  pose proof (number_loop_eq (number_bytes p) mask (first :: front) (sealed keys p ++ rest) [m0] (first_byte p :: front) 0) as Hnl.
  change (len [m0] - 1) with 0 in Hnl. rewrite Z.sub_0_r in Hnl.
  replace (len (header_front p)) with (len (first :: front)) by (by rewrite Ehf, !len_cons).
  cbn [app] in *. rewrite Hnl;
    [|pose proof (len_number_bytes p); rewrite len_cons in Hlpr; unfold len in *; lia | lia].
  cbn [res_bind]. unfold number_bytes at 2 3. do 2 f_equal. rewrite from_be_bytes_small; [lia|].
  rewrite Z2Nat.id by lia. apply Hp.
Qed.

(** What a client protects the sniffer opens. *)
Lemma open_protected keys p rest h :
  packet_ok p -> quic_initial_keys (quic_version p) (client_dcid p) = Some keys ->
  len (protect keys p ++ rest) <= usize_max -> parse_quic_long_header (protect keys p ++ rest) = Ok h ->
  initial h = true /\ payload_end h = len (protect keys p)
  /\ open_initial (protect keys p ++ rest) h = Ok (plaintext p).
Proof.
  intros Hp Hkeys Hu Hh. destruct (initial_keys_len _ _ _ Hkeys) as (Lk & Li & Lh).
  rewrite parse_protected in Hh by done. injection Hh as <-. split_and!; [done | done |].
  unfold open_initial. cbn [version dcid]. rewrite Hkeys. cbn [some ok_or res_bind].
  rewrite unprotect_protected by done. cbn [res_bind]. unfold decrypt_quic_initial_packet.
  cbn [ciphertext_offset unprotected_payload_end packet_number header].
  destruct (protect_parts keys p Hp Lh) as (m0 & masked & _ & _ & Hlm & Hpr).
  destruct (protected_layout keys p Hp Lh) as (_ & _ & Hlp).
  rewrite (get_range_eq ((masked_first (protection keys p) (first_byte p) :: tail (header_front p)) ++ masked) (sealed keys p) rest);
    [|rewrite Hpr; by regroup | rewrite len_app, Hlm; unfold header_front; by rewrite !len_cons
     | rewrite Hlp, len_sealed; unfold field_len; lia].
  cbn [mbind option_bind]. unfold sealed. rewrite gcm_open_seal; [done | done |].
  unfold quic_nonce, len in *. rewrite length_app, length_take, length_zip_with, length_drop, length_be_bytes. lia.
Qed.

(** ** A whole flight *)

Lemma initial_keys_some v d :
  v ∈ [QUIC_V1; QUIC_V2; QUIC_DRAFT_29] -> exists keys, quic_initial_keys v d = Some keys.
Proof.
  intros Hv. unfold quic_initial_keys.
  assert (exists salt, quic_salt v = Some salt) as [salt ->].
  { revert Hv. rewrite !elem_of_cons, elem_of_nil. intros [-> |[-> |[-> |[]]]]; by eexists. }
  destruct (quic_labels v) as [[kl il] hl]. cbn [mbind option_bind].
  destruct (expand_some (hkdf_new salt d) (tls13_hkdf_label QUIC_CLIENT_INITIAL_SECRET_LEN (str_of "client in")) QUIC_CLIENT_INITIAL_SECRET_LEN)
    as [secret Hs]; [by vm_compute|]. rewrite Hs. cbn [mbind option_bind]. apply expand_len in Hs.
  destruct (from_prk_some secret Hs) as [hk ->]. cbn [mbind option_bind].
  assert (forall info n, 0 <= n <= 255 * 32 -> exists k, hkdf_expand hk info n = Some k) as He
    by (intros info n Hn; by destruct (expand_some hk info n Hn); eexists).
  destruct (He (tls13_hkdf_label QUIC_INITIAL_KEY_LEN kl) QUIC_INITIAL_KEY_LEN) as [k ->]; [by vm_compute|].
  destruct (He (tls13_hkdf_label QUIC_INITIAL_IV_LEN il) QUIC_INITIAL_IV_LEN) as [i ->]; [by vm_compute|].
  destruct (He (tls13_hkdf_label QUIC_INITIAL_HP_LEN hl) QUIC_INITIAL_HP_LEN) as [x ->]; [by vm_compute|]. by eexists.
Qed.

(** A packet on the wire, under the keys its version and connection id give. *)
Definition wire (p : Packet) : list byte :=
  match quic_initial_keys (quic_version p) (client_dcid p) with
  | Some keys => protect keys p
  | None => []
  end.

(** Coalesced packets with padding behind the last. *)
Record Datagram := mkDatagram { packets : list Packet; pad : nat }.
Definition wire_datagram (d : Datagram) : list byte := concat (map wire (packets d)) ++ replicate (pad d) x00.
Definition pieces_of (ps : list Packet) : list (Z * list byte) := flat_map packet_pieces ps.

Lemma wire_opens p rest :
  packet_ok p -> len (wire p ++ rest) <= usize_max ->
  exists h, parse_quic_long_header (wire p ++ rest) = Ok h /\ initial h = true /\ payload_end h = len (wire p)
    /\ open_initial (wire p ++ rest) h = Ok (plaintext p).
Proof.
  intros Hp. destruct (initial_keys_some (quic_version p) (client_dcid p) (po_version p Hp)) as [keys Hk].
  unfold wire. rewrite Hk. intros Hu. destruct (initial_keys_len _ _ _ Hk) as (_ & _ & Lh). eexists.
  pose proof (parse_protected keys p rest Hp Lh Hu) as Hh. split; [done|]. by eapply open_protected.
Qed.

Lemma wire_first p : packet_ok p -> exists b r, wire p = b :: r /\ 0xc0 <= u8 b.
Proof.
  intros Hp. destruct (initial_keys_some (quic_version p) (client_dcid p) (po_version p Hp)) as [keys Hk].
  unfold wire. rewrite Hk. unfold protect. do 2 eexists. split; [done|].
  assert (Z.land (u8 (masked_first (protection keys p) (first_byte p))) 0xc0 = 0xc0) as Hl
    by (rewrite u8_masked_first, land_masked by done; apply Hp).
  destruct (Z.le_gt_cases 0xc0 (u8 (masked_first (protection keys p) (first_byte p)))) as [|Hlt]; [done|].
  exfalso. revert Hl Hlt. generalize (masked_first (protection keys p) (first_byte p)). intros b. destruct b; by vm_compute.
Qed.

Lemma zeros_replicate n : zeros (replicate n x00) = Z.of_nat n.
Proof. induction n as [|n IH]; [done|]. cbn [replicate zeros]. change (u8 x00 =? 0) with true. cbv iota. lia. Qed.

(** The rest of a datagram once the padding at its front is gone. *)
Definition remaining (ps : list Packet) (n : nat) : list byte :=
  match ps with [] => [] | _ => concat (map wire ps) ++ replicate n x00 end.

Lemma skip_padding ps n :
  Forall packet_ok ps ->
  slice_from (E := unit) (concat (map wire ps) ++ replicate n x00) (zeros (concat (map wire ps) ++ replicate n x00))
  = Ok (remaining ps n).
Proof.
  intros HF. destruct HF as [|p ps Hp _]; cbn [map concat remaining app].
  - rewrite zeros_replicate. apply (slice_from_eq (replicate n x00)); [by rewrite app_nil_r|]. unfold len. by rewrite length_replicate.
  - destruct (wire_first p Hp) as (b & r & -> & Hb). cbn [app zeros]. guard_false by lia. by apply (slice_from_eq []).
Qed.

(** ** Gaps *)

Lemma first_gap cov n :
  (0 <= n) -> (forall i, cov i = true -> i < n) ->
  exists g, 0 <= g <= n /\ (forall i, 0 <= i < g -> cov i = true) /\ cov g = false.
Proof.
  intros Hn Hb. assert (forall k, exists g, 0 <= g <= Z.of_nat k /\ (forall i, 0 <= i < g -> cov i = true)
    /\ (cov g = false \/ g = Z.of_nat k)) as Hk.
  { induction k as [|k (g & Hg & Ha & Hc)]; [exists 0; split_and!; [lia | lia | lia | auto]|].
    destruct Hc as [Hc|Hc]; [exists g; split_and!; [lia.. | done | auto]|].
    destruct (cov g) eqn:E; [|exists g; split_and!; [lia.. | done | auto]].
    exists (g + 1). split_and!; [lia.. | | right; lia]. intros i Hi. destruct (decide (i = g)) as [-> |]; [done|]. apply Ha. lia. }
  destruct (Hk (Z.to_nat n)) as (g & Hg & Ha & Hc). exists g. split_and!; [lia.. | done |].
  destruct Hc as [|Hc]; [done|]. destruct (cov g) eqn:E; [|done]. apply Hb in E. lia.
Qed.

(** ** The ClientHello in the stream *)

Definition hello_domain (hello : ClientHello) : option str :=
  match hello_name hello with Ok d => Some d | _ => None end.

Lemma len_encode_handshake hello : len (encode_handshake hello) = 4 + len (encode_body hello).
Proof. unfold encode_handshake, vec. rewrite len_cons, len_app, len_be_bytes. lia. Qed.

Lemma hello_of_prefix hello more n :
  hello_ok hello -> len (encode_handshake hello) <= QUIC_MAX_CRYPTO_STREAM_SIZE ->
  0 <= n <= len (encode_handshake hello ++ more) ->
  hello_of (take (Z.to_nat n) (encode_handshake hello ++ more))
  = if n <? len (encode_handshake hello) then HelloPartial else HelloComplete (hello_domain hello).
Proof.
  intros Hh Hmax Hn. pose proof (len_encode_handshake hello) as Hl. set (t := len (encode_handshake hello)) in *.
  pose proof (len_nonneg (encode_body hello)).
  assert (exists a b c, be_bytes 3 (len (encode_body hello)) = [a; b; c]) as (a & b & c & E) by (do 3 eexists; reflexivity).
  assert (from_be [a; b; c] = len (encode_body hello)) as Hf
    by (rewrite <- E; apply from_be_bytes_small; unfold QUIC_MAX_CRYPTO_STREAM_SIZE in Hmax; change (256 ^ Z.of_nat 3) with 16777216; lia).
  assert (encode_handshake hello = x01 :: a :: b :: c :: encode_body hello) as Eh by (unfold encode_handshake, vec; by rewrite E).
  destruct (Z.to_nat n) as [|[|[|[|k]]]] eqn:Ek; try (guard_true by lia; by rewrite Eh).
  rewrite Eh. cbn [app take hello_of]. change (negb (u8 x01 =? 1)) with false. cbv iota. rewrite Hf, <- Hl.
  rewrite (proj2 (Z.ltb_ge _ _)) by lia.
  change (x01 :: a :: b :: c :: take k (encode_body hello ++ more))
    with (take (S (S (S (S k)))) ((x01 :: a :: b :: c :: encode_body hello) ++ more)). rewrite <- Eh, <- Ek.
  assert (len (take (Z.to_nat n) (encode_handshake hello ++ more)) = n) as ->
    by (unfold len in *; rewrite length_take; lia).
  case_if; [done|]. unbool. rewrite take_take. replace (Z.to_nat t `min` Z.to_nat n)%nat with (length (encode_handshake hello))
    by (unfold t, len in *; lia).
  rewrite take_app_length. pose proof (handshake_sni_eq hello [] Hh) as Hs. rewrite app_nil_r in Hs. by rewrite Hs.
Qed.

(** All of the ClientHello has arrived. *)
Definition arrived (hello : ClientHello) (cov : Z -> bool) : Prop :=
  forall i, 0 <= i < len (encode_handshake hello) -> cov i = true.

Definition hello_answer (hello : ClientHello) : QuicSniff :=
  match hello_domain hello with Some d => QuicDomain d | None => QuicNoDomain end.

Record stream_ok (hello : ClientHello) (h : list byte) : Prop := {
  so_hello : hello_ok hello;
  so_starts : exists more, h = encode_handshake hello ++ more;
  so_size : len h <= QUIC_MAX_CRYPTO_STREAM_SIZE
}.

Lemma client_hello_holds hello h a cov :
  stream_ok hello h -> holds a h cov -> (forall i, cov i = true -> 0 <= i < len h) ->
  (arrived hello cov /\ client_hello a = Ok (HelloComplete (hello_domain hello)))
  \/ (~ arrived hello cov /\ client_hello a = Ok HelloPartial).
Proof.
  intros [Hh [more ->] Hs] Ha Hc. destruct (first_gap cov (len (encode_handshake hello ++ more))) as (g & Hg & Hall & Hno);
    [apply len_nonneg | intros i Hi; by apply Hc|].
  pose proof (len_nonneg more). rewrite len_app in Hs.
  rewrite client_hello_spec by apply Ha. rewrite (holds_prefix a _ cov g Ha) by (done || lia).
  rewrite hello_of_prefix by (done || lia). case_if; unbool.
  - right. split; [|done]. intros Harr. pose proof (len_nonneg (encode_handshake hello)). rewrite Harr in Hno by lia. done.
  - left. split; [|done]. intros i Hi. apply Hall. lia.
Qed.

Lemma holds_received a h cov : holds a h cov -> (exists i, cov i = true /\ is_Some (get h i)) -> received a <> [].
Proof.
  intros [_ Hb] (i & Hi & [b Hg]) He. specialize (Hb i). rewrite Hi, Hg in Hb. unfold byte_at in Hb. by rewrite He in Hb.
Qed.

Lemma pieces_covers_app ps qs i : covers (ps ++ qs) i = covers ps i || covers qs i.
Proof. apply existsb_app. Qed.

(** Coverage counts as a set. *)
Lemma holds_ext a h cov cov' : (forall i, cov i = cov' i) -> holds a h cov -> holds a h cov'.
Proof. intros E [Hok Hb]. split; [done|]. intros i. by rewrite <- E. Qed.

Lemma plaintext_size p : packet_ok p -> len (plaintext p) <= usize_max.
Proof.
  intros Hp. pose proof (fits_usize _ _ (po_length p Hp)). pose proof (number_len_range p). unfold QUIC_TAG_LEN in *. lia.
Qed.

(** Feeding the packets [ps] to an assembler that holds [cov] of the stream. *)
Definition fed (hello : ClientHello) (h : list byte) (a : QuicCryptoAssembler) (cov : Z -> bool)
    (ps : list (Z * list byte)) (out : res unit QuicSniff * QuicCryptoAssembler) : Prop :=
  let cov' i := cov i || covers ps i in
  (arrived hello cov' /\ fst out = Ok (hello_answer hello))
  \/ (~ arrived hello cov' /\ fst out = Ok QuicNeedMore /\ holds (snd out) h cov'
      /\ len (received (snd out)) <= len (received a) + len ps).

Lemma fed_more hello h a a1 cov cov1 ps qs out :
  (forall i, cov1 i = cov i || covers ps i) -> len (received a1) <= len (received a) + len ps ->
  fed hello h a1 cov1 qs out -> fed hello h a cov (ps ++ qs) out.
Proof.
  intros Hc Hl. unfold fed.
  assert (forall i, cov1 i || covers qs i = cov i || covers (ps ++ qs) i) as He
    by (intros i; by rewrite Hc, pieces_covers_app, orb_assoc).
  assert (arrived hello (fun i => cov1 i || covers qs i) <-> arrived hello (fun i => cov i || covers (ps ++ qs) i)) as Ha
    by (split; intros Hi i Hr; [rewrite <- He | rewrite He]; by apply Hi).
  intros [[Hx Hy]|(Hx & Hy & Hz & Hw)]; [left; by rewrite <- Ha|]. right. rewrite <- Ha, len_app.
  split_and!; [done | done | exact (holds_ext _ _ _ _ He Hz) | lia].
Qed.

Lemma arrived_mono hello cov cov' : (forall i, cov i = true -> cov' i = true) -> arrived hello cov -> arrived hello cov'.
Proof. intros Hm Ha i Hi. by apply Hm, Ha. Qed.

Lemma feed_remaining hello h ps n fuel a cov :
  stream_ok hello h -> Forall packet_ok ps -> Forall (piece_of h) (pieces_of ps) ->
  holds a h cov -> (forall i, cov i = true -> 0 <= i < len h) -> ~ arrived hello cov ->
  len (received a) + len (pieces_of ps) <= QUIC_MAX_CRYPTO_RANGES ->
  len (remaining ps n) <= usize_max -> (length (remaining ps n) < fuel)%nat ->
  (exists i, cov i || covers (pieces_of ps) i = true) ->
  fed hello h a cov (pieces_of ps) (feed_loop fuel a (remaining ps n)).
Proof.
  intros Hst HF. revert fuel a cov. induction HF as [|p ps Hp HF IH]; intros fuel a cov Hpc Ha Hc Hna Hr Hu Hf Hex;
    (destruct fuel as [|fuel]; [lia|]); cbn [feed_loop].
  { right. assert (forall i, cov i = cov i || covers [] i) as He by (intros i; by rewrite orb_false_r).
    rewrite bool_decide_eq_true_2, bool_decide_eq_false_2; [|apply (holds_received a h cov Ha)|done].
    - split_and!; [|done| by eapply holds_ext | change (len (pieces_of [])) with 0; simpl; lia].
      intros Harr. apply Hna. eapply arrived_mono; [|exact Harr]. intros i. cbv beta. by rewrite <- He.
    - destruct Hex as [i Hi]. exists i. rewrite <- He in Hi. split; [done|]. apply Hc in Hi. unfold get.
      guard_false by lia. apply lookup_lt_is_Some_2. unfold len in Hi. lia. }
  cbn [pieces_of flat_map] in Hpc, Hr |- *. apply list.Forall_app in Hpc as [P1 P2].
  fold (pieces_of ps) in P2, Hr |- *. rewrite len_app in Hr. pose proof (len_nonneg (pieces_of ps)).
  cbn [remaining map concat] in *. rewrite <- app_assoc in *. set (rest := concat (map wire ps) ++ replicate n x00) in *.
  destruct (wire_first p Hp) as (b0 & r0 & Hw & _).
  rewrite bool_decide_eq_false_2 by (by rewrite Hw).
  destruct (wire_opens p rest Hp Hu) as (hd & -> & -> & Hpe & ->).
  rewrite len_app in Hu. pose proof (len_nonneg rest). pose proof (len_nonneg (wire p)).
  rewrite add_frames_eq; [|apply Hp | exact (plaintext_size p Hp)].
  destruct (inserts_spec a h cov (packet_pieces p) Ha P1 (so_size _ _ Hst) ltac:(lia)) as (a1 & -> & Hh1 & L1).
  set (cov1 := fun i => cov i || covers (packet_pieces p) i) in *.
  assert (forall i, cov1 i = true -> 0 <= i < len h) as Hc1.
  { intros i [Hi|Hi]%orb_true_iff; [by apply Hc | by apply (covers_in h (packet_pieces p))]. }
  destruct (client_hello_holds hello h a1 cov1 Hst Hh1 Hc1) as [[Harr ->]|[Hnarr ->]].
  { left. split; [|unfold hello_answer; by destruct (hello_domain hello)]. eapply arrived_mono; [|exact Harr].
    intros i Hi. unfold cov1 in Hi. rewrite pieces_covers_app, orb_assoc. by rewrite Hi. }
  rewrite Hpe, (slice_from_eq (wire p) rest) by done. cbn [res_bind].
  assert (slice_from (E := unit) rest (zeros rest) = Ok (remaining ps n)) as -> by by apply skip_padding.
  assert (length (remaining ps n) <= length rest)%nat as Hrl by (destruct ps; [simpl; lia | done]).
  apply (fed_more hello h a a1 cov cov1); [done | lia |]. apply IH; try done.
  - lia.
  - unfold len in *. lia.
  - rewrite Hw in Hf. simpl in Hf. rewrite length_app in Hf. lia.
  - destruct Hex as [i Hi]. exists i. unfold cov1. by rewrite <- orb_assoc, <- pieces_covers_app.
Qed.

(** ** The flow *)

Record datagram_ok (h : list byte) (d : Datagram) : Prop := {
  do_packets : Forall packet_ok (packets d);
  do_pieces : Forall (piece_of h) (pieces_of (packets d));
  do_data : exists i, covers (pieces_of (packets d)) i = true;
  do_size : len (wire_datagram d) <= usize_max
}.

Definition flow_pieces (ds : list Datagram) : list (Z * list byte) := flat_map (fun d => pieces_of (packets d)) ds.

Lemma wire_datagram_remaining h d : datagram_ok h d -> wire_datagram d = remaining (packets d) (pad d).
Proof.
  intros [_ _ [i Hi] _]. unfold wire_datagram, remaining. by destruct (packets d).
Qed.

Lemma feed_datagram hello h d a cov :
  stream_ok hello h -> datagram_ok h d -> holds a h cov -> (forall i, cov i = true -> 0 <= i < len h) ->
  ~ arrived hello cov -> len (received a) + len (pieces_of (packets d)) <= QUIC_MAX_CRYPTO_RANGES ->
  fed hello h a cov (pieces_of (packets d)) (feed a (wire_datagram d)).
Proof.
  intros Hst Hd Ha Hc Hna Hr. pose proof (wire_datagram_remaining h d Hd) as Hw. destruct Hd as [D1 D2 [i Hi] D4].
  assert (fed hello h a cov (pieces_of (packets d)) (feed_packets a (wire_datagram d))) as Hfed.
  { unfold feed_packets. rewrite Hw in *. apply feed_remaining; try done; [lia|]. exists i. by rewrite Hi, orb_true_r. }
  unfold feed. destruct (feed_packets a (wire_datagram d)) as [[r| |] a']; [done | |done].
  by destruct Hfed as [[_ ?]|(_ & ? & _)].
Qed.

Lemma datagram_first h d : datagram_ok h d -> exists b r, wire_datagram d = b :: r /\ 0xc0 <= u8 b.
Proof.
  intros Hd. unfold wire_datagram. destruct Hd as [D1 _ [i Hi] _].
  destruct (packets d) as [|p ps]; [done|]. inversion D1 as [|? ? Hp _]; subst.
  destruct (wire_first p Hp) as (b & r & E & Hb). cbn [map concat]. rewrite E. by do 2 eexists.
Qed.

Lemma not_utp {E} b r : 0xc0 <= u8 b -> is_utp_syn (E := E) (b :: r) = Ok false.
Proof.
  intros Hb. unfold is_utp_syn. case_if; [done|]. change (index (b :: r) 0) with (@Ok E byte b). cbn [res_bind].
  by guard_true by lia.
Qed.
End Roundtrip.

(** Feeding the datagrams of a flow, as long as the sniffer asks for more. *)
Section Flow.
Context `{QuicClient} `{!QuicCryptoLaws} `{RegexEngine} `{KeywordEngine}.

Fixpoint udp_run (u : UdpSniffer) (datagrams : list (list byte)) : list (res unit UdpSniffProgress) :=
  match datagrams with
  | [] => []
  | d :: ds =>
    let '(r, u) := udp_feed u d in
    r :: match r with Ok UdpNeedMore => udp_run u ds | _ => [] end
  end.

Definition flow_answer (config : InboundSniffingConfig) (original : Target) (hello : ClientHello) : option Sniffed :=
  (fun domain => mkSniffed Quic (override_target config original domain DestQuic)) <$> hello_domain hello.

Lemma udp_feed_datagram hello h config original d a cov first :
  stream_ok hello h -> datagram_ok h d -> holds a h cov -> (forall i, cov i = true -> 0 <= i < len h) ->
  ~ arrived hello cov -> len (received a) + len (pieces_of (packets d)) <= QUIC_MAX_CRYPTO_RANGES ->
  metadata_only config = false ->
  let cov' i := cov i || covers (pieces_of (packets d)) i in
  (arrived hello cov' /\ fst (udp_feed (mkUdpSniffer config original a first) (wire_datagram d))
                        = Ok (UdpDone (flow_answer config original hello)))
  \/ (~ arrived hello cov' /\ exists a', udp_feed (mkUdpSniffer config original a first) (wire_datagram d)
        = (Ok UdpNeedMore, mkUdpSniffer config original a' false)
        /\ holds a' h cov' /\ len (received a') <= len (received a) + len (pieces_of (packets d))).
Proof.
  intros Hst Hd Ha Hc Hna Hr Hm cov'. destruct (datagram_first h d Hd) as (b & r & Hw & Hb).
  pose proof (feed_datagram hello h d a cov Hst Hd Ha Hc Hna Hr) as Hfed. unfold udp_feed. cbn [us_config us_quic us_first us_original].
  rewrite Hm, bool_decide_eq_false_2 by (by rewrite Hw). cbn [orb].
  destruct (feed a (wire_datagram d)) as [out a']. destruct Hfed as [[Harr Ho]|(Hn & Ho & Hh & Hl)]; cbn [fst snd] in *; subst out.
  - left. split; [done|]. unfold hello_answer, flow_answer. destruct (hello_domain hello); [done|].
    destruct first; [|done]. by rewrite Hw, not_utp.
  - right. split; [done|]. by exists a'.
Qed.

Lemma udp_run_flow hello h config original ds d a cov first :
  stream_ok hello h -> Forall (datagram_ok h) (ds ++ [d]) -> holds a h cov -> (forall i, cov i = true -> 0 <= i < len h) ->
  len (received a) + len (flow_pieces (ds ++ [d])) <= QUIC_MAX_CRYPTO_RANGES -> metadata_only config = false ->
  ~ arrived hello (fun i => cov i || covers (flow_pieces ds) i) ->
  arrived hello (fun i => cov i || covers (flow_pieces (ds ++ [d])) i) ->
  udp_run (mkUdpSniffer config original a first) (map wire_datagram (ds ++ [d]))
  = replicate (length ds) (Ok UdpNeedMore) ++ [Ok (UdpDone (flow_answer config original hello))].
Proof.
  intros Hst HF. revert a cov first. induction ds as [|d0 ds IH]; intros a cov first Ha Hc Hl Hm Hn Hy;
    cbn [app map udp_run length replicate flow_pieces flat_map] in *; inversion HF as [|? ? Hd0 HF']; subst.
  - rewrite app_nil_r in *. destruct (udp_feed_datagram hello h config original d a cov first Hst Hd0 Ha Hc) as [[_ Hf]|[Hno _]]; try done.
    + intros Harr. apply Hn. eapply arrived_mono; [|exact Harr]. intros i ->. done.
    + destruct (udp_feed _ _) as [r u]. cbn [fst] in Hf. by subst r.
  - fold (flow_pieces ds) in *. fold (flow_pieces (ds ++ [d])) in *. rewrite len_app in Hl.
    pose proof (len_nonneg (flow_pieces (ds ++ [d]))).
    set (cov1 := fun i => cov i || covers (pieces_of (packets d0)) i).
    assert (forall qs i, cov i || covers (pieces_of (packets d0) ++ qs) i = cov1 i || covers qs i) as He
      by (intros qs i; unfold cov1; by rewrite pieces_covers_app, orb_assoc).
    destruct (udp_feed_datagram hello h config original d0 a cov first Hst Hd0 Ha Hc) as [[Harr _]|[Hno (a1 & -> & Hh1 & Hl1)]]; try done; [|lia| |].
    + intros Harr. apply Hn. eapply arrived_mono; [|exact Harr]. intros i ->. done.
    + destruct Hn. eapply arrived_mono; [|exact Harr]. intros i Hi. rewrite He. unfold cov1. by rewrite Hi.
    + f_equal. apply (IH HF' a1 cov1); try done.
      * intros i [Hi|Hi]%orb_true_iff; [by apply Hc | by apply (covers_in h _ i (do_pieces _ _ Hd0))].
      * lia.
      * intros Harr. apply Hn. eapply arrived_mono; [|exact Harr]. intros i. by rewrite He.
      * eapply arrived_mono; [|exact Hy]. intros i. cbv beta. by rewrite He.
Qed.

End Flow.

(** ** Witness *)

Definition toy_client : @QuicClient toy_quic.
Proof.
  refine (@Build_QuicClient toy_quic (fun k n aad m => m ++ toy_tag) _ _ _ _).
  - intros k n aad m. rewrite len_app. done.
  - intros k n aad m _ _. simpl. rewrite length_app.
    replace (length m + length toy_tag - 16)%nat with (length m) by (simpl; lia).
    rewrite drop_app_length, take_app_length. by rewrite bool_decide_eq_true_2.
  - intros h info n Hn. simpl. guard_true by lia. by eexists.
  - intros prk Hp. simpl. guard_false by lia. by eexists.
Defined.

Definition sample_stream : list byte := encode_handshake sample_hello.

(** The second part of the hello in the first datagram, with a ping and padding around it. *)
Definition sample_packet (n : Z) (fs : list QuicFrame) : Packet :=
  mkPacket xc0 QUIC_V1 [x01; x02; x03; x04] [] 0 [] 1 n fs.
Definition sample_first : Datagram :=
  mkDatagram [sample_packet 0 [Ping; Crypto 1 1 20 (drop 20 sample_stream); Padding]] 3.
Definition sample_second : Datagram :=
  mkDatagram [sample_packet 1 [Crypto 0 1 0 (take 30 sample_stream)]] 0.

Definition sample_run : list (res unit UdpSniffProgress) :=
  @udp_run toy_quic literal_regex scan_automaton
    (@UdpSniffer_new literal_regex scan_automaton sample_sniffing sample_flow)
    (map (@wire_datagram toy_quic toy_client) [sample_first; sample_second]).

Lemma sample_hello_ok : hello_ok sample_hello.
Proof. unfold hello_ok, in_u16, len. simpl. split_and!; try lia. repeat constructor; simpl; lia. Qed.

Lemma sample_packet_ok n fs :
  0 <= n < 256 -> Forall frame_ok fs -> 4 <= len (concat (map encode_quic_frame fs)) < 16000 ->
  packet_ok (sample_packet n fs).
Proof.
  intros Hn Hf Hl. assert (number_len (sample_packet n fs) = 1) as Hnl by done.
  split; rewrite ?Hnl; unfold plaintext; cbn [frames first_byte quic_version client_dcid client_scid token token_tag length_tag number sample_packet];
    try done; try lia.
  - apply elem_of_cons. by left.
  - unfold fits, QUIC_TAG_LEN. change (256 ^ (2 ^ 1 - 1)) with 256. lia.
Qed.

