(* ===== verification/DnsOutbound.v ===== *)
(** The DNS outbound: [crates/xray-core-rs/src/dns_outbound.rs] with its settings in
    [crates/xray-config/src/model.rs]. A query is read up to its first question, ordered rules
    choose what becomes of it, and only a query that the core resolver can answer without losing
    anything is read to its end and handed to it. *)
From Stdlib Require Import Strings.Byte.
From S2P Require Import Prelude Net IpRangeSet DomainMatcher RoutingRules IpText Utf8 TlsHello.

(** ** Constants *)

Definition DNS_HEADER_LEN : Z := 12.
Definition DNS_TYPE_A : Z := 1.
Definition DNS_TYPE_AAAA : Z := 28.
Definition DNS_TYPE_OPT : Z := 41.
Definition DNS_CLASS_IN : Z := 1.
Definition DNS_RCODE_REFUSED : Z := 5.

Definition DNS_FLAG_QR : Z := 0x8000.
Definition DNS_FLAG_AA : Z := 0x0400.
Definition DNS_FLAG_TC : Z := 0x0200.
Definition DNS_FLAG_RD : Z := 0x0100.
Definition DNS_FLAG_RA : Z := 0x0080.
Definition DNS_FLAG_Z : Z := 0x0040.
Definition DNS_FLAG_AD : Z := 0x0020.
Definition DNS_FLAG_CD : Z := 0x0010.
Definition DNS_FLAG_RCODE : Z := 0x000f.
Definition DNS_OPCODE_MASK : Z := 0x7800.
Definition DNS_EDNS_DO : Z := 0x00008000.
Definition DNS_EDNS_Z_MASK : Z := 0x00007fff.

Definition HIJACK_UNSAFE_AD : Z := 1.
Definition HIJACK_UNSAFE_CD : Z := 2.
Definition HIJACK_UNSAFE_DO : Z := 4.
Definition HIJACK_UNSAFE_EDNS_OPTIONS : Z := 8.
Definition HIJACK_UNSAFE_UNSUPPORTED_EDNS : Z := 16.
Definition HIJACK_UNSAFE_MULTIPLE_QUESTIONS : Z := 32.
Definition HIJACK_UNSAFE_NON_INTERNET_CLASS : Z := 64.
Definition HIJACK_UNSAFE_NON_QUESTION_RECORDS : Z := 128.

Inductive DnsQueryParseError :=
| TruncatedHeader
| NotQuery
| UnsupportedOpcode (opcode : Z)
| UnexpectedHeaderFlags (flags : Z)
| MissingQuestion
| TruncatedName
| InvalidNameLabelType
| InvalidNamePointer
| NameTooLong
| InvalidDomainEncoding
| InvalidDomainLabel
| TruncatedQuestion
| TruncatedRecord
| InvalidEdns
| MalformedEdnsOptions
| TrailingData.

Record DnsOutboundQuery := mkDnsOutboundQuery {
  id : Z;
  request_flags : Z;
  domain : str;
  qtype : Z;
  qclass : Z;
  question_count : Z;
  first_question_end : Z;
  question_section_end : Z;
  edns_udp_payload_size : option Z;
  hijack_unsafe : Z;
  domain_error : option DnsQueryParseError
}.

(** [DnsHijackUnsafe::insert] and the public [hijack_unsafe()] *)
Definition unsafe_insert (u reason : Z) : Z := Z.lor u reason.
Definition query_hijack_unsafe (q : DnsOutboundQuery) : option Z :=
  if hijack_unsafe q =? 0 then None else Some (hijack_unsafe q).

(** ** Reading a message *)

(** [read_u16] and [read_u32] *)
Definition dns_u16 (message : list byte) (offset : Z) : option Z :=
  end_ ← usize_add offset 2; bytes ← get_range message offset end_; Some (from_be bytes).
Definition dns_u32 (message : list byte) (offset : Z) : option Z :=
  end_ ← usize_add offset 4; bytes ← get_range message offset end_; Some (from_be bytes).

(** [opt.filter(p)] *)
Definition keep_if {A} (p : A -> bool) (o : option A) : option A := a ← o; if p a then Some a else None.

Definition get_or_insert {A} (o : option A) (a : A) : option A := match o with Some x => Some x | None => Some a end.

(** What a label adds to the domain and to its error. *)
Definition push_label (output : str) (error : option DnsQueryParseError) (label : list byte)
    : str * option DnsQueryParseError :=
  let error := if has label dot then get_or_insert error InvalidDomainLabel else error in
  let output := if bool_decide (output = []) then output else output ++ [dot] in
  match from_utf8 label with
  | Some label => (output ++ label, error)
  | None => (output ++ from_utf8_lossy label, get_or_insert error InvalidDomainEncoding)
  end.

Record NameReader := mkNameReader {
  cursor : Z;
  jumped : bool;
  expanded_len : Z;
  pointer_count : Z;
  name_error : option DnsQueryParseError;
  name_offset : Z;
  name_domain : option str
}.

(** One turn of the loop: [inr] where the name ends. *)
Definition name_turn (message : list byte) (r : NameReader) : res DnsQueryParseError (NameReader + NameReader) :=
  let? label_len := ok_or (get message (cursor r)) TruncatedName in
  let kind := Z.land (u8 label_len) 0xc0 in
  if kind =? 0xc0 then
    let? next := ok_or (get message (cursor r + 1)) TruncatedName in
    let pointer := Z.lor (Z.shiftl (Z.land (u8 label_len) 0x3f) 8) (u8 next) in
    if (pointer <? DNS_HEADER_LEN) || (cursor r <=? pointer) then Err InvalidNamePointer
    else
      let count := pointer_count r + 1 in
      if 128 <? count then Err InvalidNamePointer
      else
        Ok (inl (mkNameReader pointer true (expanded_len r) count (name_error r)
                   (if jumped r then name_offset r else cursor r + 2) (name_domain r)))
  else if kind =? 0x00 then
    if u8 label_len =? 0 then
      Ok (inr (mkNameReader (cursor r) (jumped r) (expanded_len r) (pointer_count r) (name_error r)
                 (if jumped r then name_offset r else cursor r + 1) (name_domain r)))
    else
      let label_start := cursor r + 1 in
      let? label_end := ok_or (keep_if (fun e => e <=? len message) (usize_add label_start (u8 label_len))) TruncatedName in
      let? expanded := ok_or (keep_if (fun n => n <=? 255) (usize_add (expanded_len r) (u8 label_len + 1))) NameTooLong in
      let? (domain, error) :=
        match name_domain r with
        | Some output =>
          let? label := ok_or (get_range message label_start label_end) TruncatedName in
          let '(output, error) := push_label output (name_error r) label in
          Ok (Some output, error)
        | None => Ok (None, name_error r)
        end in
      Ok (inl (mkNameReader label_end (jumped r) expanded (pointer_count r) error
                 (if jumped r then name_offset r else label_end) domain))
  else Err InvalidNameLabelType.

Fixpoint name_loop (fuel : nat) (message : list byte) (r : NameReader) : res DnsQueryParseError NameReader :=
  match fuel with
  | O => Panic
  | S fuel =>
    let? next := name_turn message r in
    match next with inl r => name_loop fuel message r | inr r => Ok r end
  end.

(** At most 128 pointers, 127 labels and the end. *)
Definition NAME_TURNS : nat := 256.

(** The error of the domain, the offset behind the name, and the domain. *)
Definition read_dns_name (message : list byte) (offset : Z) (domain : option str)
    : res DnsQueryParseError (option DnsQueryParseError * Z * option str) :=
  let? r := name_loop NAME_TURNS message (mkNameReader offset false 1 0 None offset domain) in
  Ok (name_error r, name_offset r, name_domain r).

Definition parse_dns_query_prefix (message : list byte) : res DnsQueryParseError DnsOutboundQuery :=
  if len message <? DNS_HEADER_LEN then Err TruncatedHeader
  else
    let? id := ok_or (dns_u16 message 0) TruncatedHeader in
    let? request_flags := ok_or (dns_u16 message 2) TruncatedHeader in
    let? question_count := ok_or (dns_u16 message 4) TruncatedHeader in
    if question_count =? 0 then Err MissingQuestion
    else
      let? (error, offset, name) := read_dns_name message DNS_HEADER_LEN (Some []) in
      let name := default [] name in
      let name := if bool_decide (name = []) then name ++ [dot] else name in
      let name := to_ascii_lowercase name in
      let? qtype := ok_or (dns_u16 message offset) TruncatedQuestion in
      let? at2 := ok_or (usize_add offset 2) TruncatedQuestion in
      let? qclass := ok_or (dns_u16 message at2) TruncatedQuestion in
      let? offset := ok_or (usize_add offset 4) TruncatedQuestion in
      let u := 0 in
      let u := if negb (Z.land request_flags DNS_FLAG_AD =? 0) then unsafe_insert u HIJACK_UNSAFE_AD else u in
      let u := if negb (Z.land request_flags DNS_FLAG_CD =? 0) then unsafe_insert u HIJACK_UNSAFE_CD else u in
      let u := if negb (question_count =? 1) then unsafe_insert u HIJACK_UNSAFE_MULTIPLE_QUESTIONS else u in
      let u := if negb (qclass =? DNS_CLASS_IN) then unsafe_insert u HIJACK_UNSAFE_NON_INTERNET_CLASS else u in
      Ok (mkDnsOutboundQuery id request_flags name qtype qclass question_count offset offset None u error).

Fixpoint edns_loop (fuel : nat) (message : list byte) (offset data_end : Z) : res DnsQueryParseError unit :=
  match fuel with
  | O => Panic
  | S fuel =>
    if offset <? data_end then
      let? header_end := ok_or (keep_if (fun e => e <=? data_end) (usize_add offset 4)) MalformedEdnsOptions in
      let? option_len := ok_or (dns_u16 message (offset + 2)) MalformedEdnsOptions in
      let? offset := ok_or (keep_if (fun e => e <=? data_end) (usize_add header_end option_len)) MalformedEdnsOptions in
      edns_loop fuel message offset data_end
    else Ok tt
  end.

Definition validate_edns_options (message : list byte) (offset data_end : Z) : res DnsQueryParseError unit :=
  edns_loop (S (length message)) message offset data_end.

(** What the records leave behind: the offset, whether an OPT was seen, the reasons against
    hijacking and the payload size. *)
Record RecordState := mkRecordState {
  rs_offset : Z;
  seen_opt : bool;
  rs_unsafe : Z;
  rs_size : option Z
}.

Definition resource_record (message : list byte) (is_additional : bool) (s : RecordState)
    : res DnsQueryParseError RecordState :=
  let owner_start := rs_offset s in
  let? (_, offset, _) := read_dns_name message owner_start None in
  let owner_is_root := (offset =? Z.min (owner_start + 1) usize_max)
                       && bool_decide (get message owner_start = Some x00) in
  let? record_type := ok_or (dns_u16 message offset) TruncatedRecord in
  let? at2 := ok_or (usize_add offset 2) TruncatedRecord in
  let? record_class := ok_or (dns_u16 message at2) TruncatedRecord in
  let? at4 := ok_or (usize_add offset 4) TruncatedRecord in
  let? record_ttl := ok_or (dns_u32 message at4) TruncatedRecord in
  let? at8 := ok_or (usize_add offset 8) TruncatedRecord in
  let? data_len := ok_or (dns_u16 message at8) TruncatedRecord in
  let? data_start := ok_or (usize_add offset 10) TruncatedRecord in
  let? data_end := ok_or (keep_if (fun e => e <=? len message) (usize_add data_start data_len)) TruncatedRecord in
  let? (seen, u, size) :=
    if record_type =? DNS_TYPE_OPT then
      if negb is_additional || negb owner_is_root || seen_opt s then Err InvalidEdns
      else
        let u := rs_unsafe s in
        let u := if negb (Z.land record_ttl DNS_EDNS_DO =? 0) then unsafe_insert u HIJACK_UNSAFE_DO else u in
        let extended_rcode := Z.shiftr record_ttl 24 mod 256 in
        let version := Z.shiftr record_ttl 16 mod 256 in
        let u := if negb (extended_rcode =? 0) || negb (version =? 0) || negb (Z.land record_ttl DNS_EDNS_Z_MASK =? 0)
                 then unsafe_insert u HIJACK_UNSAFE_UNSUPPORTED_EDNS else u in
        if negb (data_len =? 0) then
          let? _ := validate_edns_options message data_start data_end in
          Ok (true, unsafe_insert u HIJACK_UNSAFE_EDNS_OPTIONS, Some record_class)
        else Ok (true, u, Some record_class)
    else
      Ok (seen_opt s,
          if is_additional : bool then unsafe_insert (rs_unsafe s) HIJACK_UNSAFE_NON_QUESTION_RECORDS else rs_unsafe s,
          rs_size s) in
  Ok (mkRecordState data_end seen u size).

Fixpoint parse_resource_records (count : nat) (message : list byte) (is_additional : bool) (s : RecordState)
    : res DnsQueryParseError RecordState :=
  match count with
  | O => Ok s
  | S count =>
    let? s := resource_record message is_additional s in
    parse_resource_records count message is_additional s
  end.

(** The questions behind the first. *)
Fixpoint more_questions (count : nat) (message : list byte) (offset : Z) : res DnsQueryParseError Z :=
  match count with
  | O => Ok offset
  | S count =>
    let? (_, offset, _) := read_dns_name message offset None in
    let? offset := ok_or (keep_if (fun e => e <=? len message) (usize_add offset 4)) TruncatedQuestion in
    more_questions count message offset
  end.

Definition validate_dns_query_envelope (message : list byte) (q : DnsOutboundQuery)
    : res DnsQueryParseError DnsOutboundQuery :=
  let? _ := match domain_error q with Some e => Err e | None => Ok tt end in
  if negb (Z.land (request_flags q) DNS_FLAG_QR =? 0) then Err NotQuery
  else
    let opcode := Z.shiftr (Z.land (request_flags q) DNS_OPCODE_MASK) 11 in
    if negb (opcode =? 0) then Err (UnsupportedOpcode opcode)
    else
      let unexpected_flags :=
        Z.land (request_flags q)
          (Z.lor (Z.lor (Z.lor (Z.lor DNS_FLAG_AA DNS_FLAG_TC) DNS_FLAG_RA) DNS_FLAG_Z) DNS_FLAG_RCODE) in
      if negb (unexpected_flags =? 0) then Err (UnexpectedHeaderFlags unexpected_flags)
      else
        let? answer_count := ok_or (dns_u16 message 6) TruncatedHeader in
        let? authority_count := ok_or (dns_u16 message 8) TruncatedHeader in
        let? additional_count := ok_or (dns_u16 message 10) TruncatedHeader in
        let? offset := more_questions (Z.to_nat (question_count q - 1)) message (first_question_end q) in
        let section_end := offset in
        let u := if negb (answer_count =? 0) || negb (authority_count =? 0)
                 then unsafe_insert (hijack_unsafe q) HIJACK_UNSAFE_NON_QUESTION_RECORDS else hijack_unsafe q in
        let? s := parse_resource_records (Z.to_nat answer_count) message false (mkRecordState offset false u None) in
        let? s := parse_resource_records (Z.to_nat authority_count) message false s in
        let? s := parse_resource_records (Z.to_nat additional_count) message true s in
        if negb (rs_offset s =? len message) then Err TrailingData
        else
          Ok (mkDnsOutboundQuery (id q) (request_flags q) (domain q) (qtype q) (qclass q) (question_count q)
                (first_question_end q) section_end (rs_size s) (rs_unsafe s) (domain_error q)).

Definition parse_dns_query (message : list byte) : res DnsQueryParseError DnsOutboundQuery :=
  let? query := parse_dns_query_prefix message in
  validate_dns_query_envelope message query.

(** ** Answers without a resolver *)

Definition build_return_response (message : list byte) (r_code : Z) : res DnsQueryParseError (list byte) :=
  let? query := parse_dns_query_prefix message in
  let? response := slice message 0 (first_question_end query) in
  let response_flags :=
    Z.lor (Z.lor (Z.lor (Z.lor DNS_FLAG_QR DNS_FLAG_AA) DNS_FLAG_RA)
             (Z.land (request_flags query) (Z.lor DNS_FLAG_RD DNS_FLAG_CD))) r_code in
  if len response <? 12 then Panic
  else Ok (take 2 response ++ be_bytes 2 response_flags ++ be_bytes 2 1 ++ replicate 6 x00 ++ drop 12 response).

Definition build_refused_response (message : list byte) : res DnsQueryParseError (list byte) :=
  build_return_response message DNS_RCODE_REFUSED.

(** ** Rules *)

Inductive DnsOutboundRuleAction := Direct | Drop | Return | Hijack.

Record DnsQTypeRange := mkDnsQTypeRange { qt_start : Z; qt_end : Z }.

Inductive QTypeRangeError := InvalidDnsQTypeRange (start end_ : Z).

Definition DnsQTypeRange_new (start end_ : Z) : res QTypeRangeError DnsQTypeRange :=
  if end_ <? start then Err (InvalidDnsQTypeRange start end_) else Ok (mkDnsQTypeRange start end_).
Definition DnsQTypeRange_single (t : Z) : DnsQTypeRange := mkDnsQTypeRange t t.
Definition qt_contains (r : DnsQTypeRange) (t : Z) : bool := (qt_start r <=? t) && (t <=? qt_end r).

Inductive DnsOutboundDecision :=
| DirectDecision
| DropDecision
| ReturnDecision (r_code : Z)
| HijackDecision
| HijackUnsafe (reasons : Z).

Definition is_address_qtype (t : Z) : bool := (t =? DNS_TYPE_A) || (t =? DNS_TYPE_AAAA).

Definition decision_for_action (action : DnsOutboundRuleAction) (r_code : Z) (query : DnsOutboundQuery)
    : DnsOutboundDecision :=
  match action with
  | Direct => DirectDecision
  | Drop => DropDecision
  | Return => ReturnDecision r_code
  | Hijack =>
    if negb (is_address_qtype (qtype query)) then ReturnDecision r_code
    else match query_hijack_unsafe query with Some u => HijackUnsafe u | None => HijackDecision end
  end.

(** [sort_unstable] on pairs *)
Definition pair_le (a b : Z * Z) : Prop := fst a < fst b \/ (fst a = fst b /\ snd a <= snd b).
#[export] Instance pair_le_dec : RelDecision pair_le.
Proof. intros a b. unfold pair_le. apply _. Defined.

Definition merge_qtype (merged : list (Z * Z)) (range : Z * Z) : list (Z * Z) :=
  match list.last merged with
  | Some previous =>
    if fst range <=? Z.min (snd previous + 1) u16_max
    then <[(length merged - 1)%nat := (fst previous, Z.max (snd previous) (snd range))]> merged
    else merged ++ [range]
  | None => merged ++ [range]
  end.

Definition compile_qtype_ranges (ranges : list DnsQTypeRange) : list (Z * Z) :=
  fold_left merge_qtype (merge_sort pair_le (map (fun r => (qt_start r, qt_end r)) ranges)) [].

Definition qtype_ranges_contain (ranges : list (Z * Z)) (t : Z) : bool :=
  match ranges !! partition_point (fun r => snd r <? t) ranges with
  | Some (start, end_) => (start <=? t) && (t <=? end_)
  | None => false
  end.

Section Policy.
Context `{RegexEngine} `{KeywordEngine}.

Record DnsOutboundRule := mkDnsOutboundRule {
  rule_action : DnsOutboundRuleAction;
  rule_r_code : Z;
  qtype_ranges : list DnsQTypeRange;
  rule_domains : option DomainMatcherSet
}.

Record DnsOutboundSettings := mkDnsOutboundSettings {
  rewrite_network : option Network;
  rewrite_address : option TargetAddr;
  rewrite_port : Z;
  user_level : Z;
  rules : list DnsOutboundRule
}.

Definition normalize_dns_qname (d : str) : str := to_ascii_lowercase (trim_end_dots d).

Definition matches_normalized (rule : DnsOutboundRule) (t : Z) (normalized_domain : str) : bool :=
  (bool_decide (qtype_ranges rule = []) || existsb (fun r => qt_contains r t) (qtype_ranges rule))
  && is_none_or (rule_domains rule) (fun m => dms_matches m normalized_domain).

Definition dns_rule_matches (rule : DnsOutboundRule) (t : Z) (d : str) : bool :=
  matches_normalized rule t (normalize_dns_qname d).

Definition action_for (s : DnsOutboundSettings) (t : Z) (d : str) : DnsOutboundRuleAction :=
  let normalized_domain := normalize_dns_qname d in
  match List.find (fun rule => matches_normalized rule t normalized_domain) (rules s) with
  | Some rule => rule_action rule
  | None => if (t =? 1) || (t =? 28) then Hijack else Return
  end.

Record CompiledDnsOutboundRule := mkCompiledRule {
  c_action : DnsOutboundRuleAction;
  c_r_code : Z;
  all_qtypes : bool;
  c_ranges : list (Z * Z);
  all_domains : bool;
  c_domains : DomainMatcherSet
}.

Definition CompiledDnsOutboundRule_new (rule : DnsOutboundRule) : CompiledDnsOutboundRule :=
  mkCompiledRule (rule_action rule) (rule_r_code rule) (bool_decide (qtype_ranges rule = []))
    (compile_qtype_ranges (qtype_ranges rule)) (is_none (rule_domains rule))
    (default (mkDms None 0) (rule_domains rule)).

Definition compiled_matches (rule : CompiledDnsOutboundRule) (t : Z) (d : str) : bool :=
  (all_qtypes rule || qtype_ranges_contain (c_ranges rule) t) && (all_domains rule || dms_matches (c_domains rule) d).

Record CompiledDnsOutboundPolicy := mkPolicy { policy_rules : list CompiledDnsOutboundRule }.

Definition policy_new (s : DnsOutboundSettings) : CompiledDnsOutboundPolicy :=
  mkPolicy (map CompiledDnsOutboundRule_new (rules s)).

Definition selected_action (p : CompiledDnsOutboundPolicy) (t : Z) (d : str) : DnsOutboundRuleAction * Z :=
  match List.find (fun rule => compiled_matches rule t d) (policy_rules p) with
  | Some rule => (c_action rule, c_r_code rule)
  | None => if is_address_qtype t then (Hijack, 0) else (Return, 0)
  end.

Definition decide_query (p : CompiledDnsOutboundPolicy) (query : DnsOutboundQuery) (own_link : bool)
    : DnsOutboundDecision :=
  if own_link then DirectDecision
  else
    let '(action, r_code) := selected_action p (qtype query) (domain query) in
    decision_for_action action r_code query.

Definition decide_message (p : CompiledDnsOutboundPolicy) (message : list byte) (own_link : bool)
    : res DnsQueryParseError DnsOutboundDecision :=
  if own_link then Ok DirectDecision
  else
    let? query := parse_dns_query_prefix message in
    let '(action, r_code) := selected_action p (qtype query) (domain query) in
    match action with
    | Hijack =>
      if negb (is_address_qtype (qtype query)) then Ok (ReturnDecision r_code)
      else
        let? query := validate_dns_query_envelope message query in
        Ok (decision_for_action action r_code query)
    | _ => Ok (decision_for_action action r_code query)
    end.
End Policy.

(** ** The compiled query types *)

#[export] Instance pair_le_trans : Transitive pair_le.
Proof. intros a b c. unfold pair_le. lia. Qed.
#[export] Instance pair_le_total : Total pair_le.
Proof. intros a b. unfold pair_le. lia. Qed.

Definition pair_covers (l : list (Z * Z)) (t : Z) : Prop := exists r, In r l /\ fst r <= t <= snd r.

Definition apart : list (Z * Z) -> Prop := StronglySorted (fun a b => snd a + 1 < fst b).

(** A range of [u16]s that is not empty *)
Definition range_ok (r : Z * Z) : Prop := 0 <= fst r <= snd r /\ snd r <= u16_max.

Lemma pair_covers_app l k t : pair_covers (l ++ k) t <-> pair_covers l t \/ pair_covers k t.
Proof.
  unfold pair_covers. split.
  - intros (r & [Hr|Hr]%in_app_iff & Ht); eauto.
  - intros [(r & Hr & Ht)|(r & Hr & Ht)]; exists r; rewrite in_app_iff; auto.
Qed.

Lemma pair_covers_one r t : pair_covers [r] t <-> fst r <= t <= snd r.
Proof. unfold pair_covers. split; [intros (x & [->|[]] & Hx); exact Hx|]. exists r. simpl. auto. Qed.

Lemma apart_snoc l p : apart (l ++ [p]) <-> apart l /\ Forall (fun a => snd a + 1 < fst p) l.
Proof.
  unfold apart. induction l as [|a l IH]; simpl.
  - split; [intros _; split; constructor | intros _; repeat constructor].
  - split.
    + intros Hs. inversion Hs as [|? ? Hl Ha]; subst. apply IH in Hl as [Hl Hp].
      apply list.Forall_app in Ha as [Ha Hx]. inversion Hx; subst. split; constructor; done.
    + intros [Hl Hp]. inversion Hl as [|? ? Hl' Ha]; inversion Hp; subst. constructor; [by apply IH|].
      apply list.Forall_app. split; [done | by constructor].
Qed.

(** Merging one more range, which starts no earlier than the last. *)
Lemma merge_qtype_step l p r :
  apart (l ++ [p]) -> range_ok r -> fst p <= snd p -> fst p <= fst r ->
  exists l' p', merge_qtype (l ++ [p]) r = l' ++ [p'] /\ apart (l' ++ [p']) /\ fst p' <= fst r /\ fst p' <= snd p'
    /\ forall t, pair_covers (l' ++ [p']) t <-> pair_covers (l ++ [p]) t \/ fst r <= t <= snd r.
Proof.
  intros Ha (Hr & Hm) Hp Hle. unfold merge_qtype. rewrite last_snoc.
  destruct (Z.leb_spec (fst r) (Z.min (snd p + 1) u16_max)) as [Hc|Hc].
  - exists l, (fst p, Z.max (snd p) (snd r)). split.
    { rewrite length_app. simpl. replace (length l + 1 - 1)%nat with (length l + 0)%nat by lia.
      by rewrite insert_app_r. }
    apply apart_snoc in Ha as [Hl Hf]. split_and!; [by apply apart_snoc | cbn [fst snd]; lia | cbn [fst snd]; lia|].
    intros t. rewrite !pair_covers_app, !pair_covers_one. cbn [fst snd].
    assert (fst p <= t <= Z.max (snd p) (snd r) <-> fst p <= t <= snd p \/ fst r <= t <= snd r) by lia. tauto.
  - exists (l ++ [p]), r. split_and!; [done | | lia | lia|].
    + apply apart_snoc. split; [done|]. apply apart_snoc in Ha as [Hl Hf]. unfold u16_max in *.
      apply list.Forall_app. split; [|constructor; [lia | constructor]].
      eapply list.Forall_impl; [exact Hf|]. simpl. lia.
    + intros t. by rewrite pair_covers_app, pair_covers_one.
Qed.

Lemma merge_qtype_fold k l p :
  apart (l ++ [p]) -> fst p <= snd p -> Forall (fun r => fst p <= fst r) k ->
  StronglySorted pair_le k -> Forall range_ok k ->
  apart (fold_left merge_qtype k (l ++ [p]))
  /\ forall t, pair_covers (fold_left merge_qtype k (l ++ [p])) t <-> pair_covers (l ++ [p]) t \/ pair_covers k t.
Proof.
  revert l p. induction k as [|r k IH]; intros l p Ha Hp Hf Hs Hk.
  { split; [done|]. intros t. unfold pair_covers at 3. simpl. naive_solver. }
  inversion Hf as [|? ? Hr Hf']; inversion Hs as [|? ? Hs' Hle]; inversion Hk as [|? ? Hok Hk']; subst.
  destruct (merge_qtype_step l p r Ha Hok Hp Hr) as (l' & p' & E & Ha' & Hr' & Hp' & Hc).
  cbn [fold_left]. rewrite E.
  destruct (IH l' p' Ha' Hp') as [H1 H2]; [|done..|].
  { eapply list.Forall_impl; [exact Hle|]. unfold pair_le. lia. }
  split; [done|]. intros t. rewrite H2, Hc. change (r :: k) with ([r] ++ k).
  rewrite (pair_covers_app [r]), pair_covers_one. tauto.
Qed.

Lemma merge_qtypes_spec k :
  StronglySorted pair_le k -> Forall range_ok k ->
  apart (fold_left merge_qtype k [])
  /\ forall t, pair_covers (fold_left merge_qtype k []) t <-> pair_covers k t.
Proof.
  intros Hs Hk. destruct k as [|r k]; [split; [constructor | done]|].
  inversion Hs as [|? ? Hs' Hle]; inversion Hk as [|? ? Hok Hk']; subst.
  destruct (merge_qtype_fold k [] r) as [H1 H2]; [repeat constructor | apply Hok | | done..|].
  { eapply list.Forall_impl; [exact Hle|]. unfold pair_le. lia. }
  split; [done|]. intros t. change (fold_left merge_qtype (r :: k) []) with (fold_left merge_qtype k ([] ++ [r])).
  rewrite H2. simpl. change (r :: k) with ([r] ++ k). rewrite (pair_covers_app [r] k). tauto.
Qed.

(** The search stops at the only range that can hold the type. *)
Lemma ranges_contain_spec l t : apart l -> Forall (fun r => fst r <= snd r) l -> qtype_ranges_contain l t = true <-> pair_covers l t.
Proof.
  intros Ha Ho.
  assert (exists l1 l2, l = l1 ++ l2 /\ Forall (fun r => snd r < t) l1 /\ Forall (fun r => t <= snd r) l2
          /\ forall a r, head l2 = Some a -> In r l2 -> r = a \/ snd a < fst r)
    as (l1 & l2 & -> & H1 & H2 & Hh).
  { induction Ha as [|a l Hl IH Hf]; [exists [], []; by split_and!; try constructor|].
    inversion Ho as [|? ? Hoa Ho']; subst.
    destruct (Z.ltb_spec (snd a) t).
    - destruct (IH Ho') as (l1 & l2 & -> & H1 & H2 & Hh). exists (a :: l1), l2. split_and!; auto.
    - exists [], (a :: l). split_and!; [done | constructor | |].
      + constructor; [done|]. rewrite list.Forall_forall in *. intros x Hx.
        specialize (Hf x Hx). specialize (Ho' x Hx). simpl in *. lia.
      + intros ? r [= <-] [->|Hr]; [by left | right].
        apply (Forall_In _ _ _ Hf) in Hr. simpl in Hr. lia. }
  unfold qtype_ranges_contain. rewrite partition_point_app;
    [|eapply list.Forall_impl; [eassumption|]; simpl; lia..].
  rewrite lookup_app_r, Nat.sub_diag by lia. rewrite pair_covers_app.
  assert (~ pair_covers l1 t) as Hn.
  { intros (r & Hr & Ht). apply (Forall_In _ _ _ H1) in Hr. simpl in Hr. lia. }
  destruct l2 as [|[a b] l2]; simpl.
  - split; [done|]. intros [Hc|(r & [] & _)]; tauto.
  - inversion H2 as [|? ? Hb _]; subst. simpl in Hb. rewrite andb_true_iff, !Z.leb_le. split.
    + intros Hab. right. exists (a, b). simpl. auto.
    + intros [Hc|(r & Hr & Ht)]; [tauto|].
      destruct (Hh (a, b) r eq_refl Hr) as [->|Hlt]; simpl in *; lia.
Qed.

Definition filled (r : Z * Z) : Prop := fst r <= snd r.

Lemma merge_qtypes_filled k acc : Forall filled acc -> Forall range_ok k -> Forall filled (fold_left merge_qtype k acc).
Proof.
  revert acc. induction k as [|r k IH]; intros acc Ha Hk; [done|].
  inversion Hk as [|? ? [Hr _] Hk']; subst. cbn [fold_left]. apply IH; [|done]. unfold merge_qtype.
  assert (Forall filled (acc ++ [r])) by (apply list.Forall_app; split; [done | constructor; [red; lia | constructor]]).
  destruct (list.last acc) as [p|] eqn:El; [|done]. case_if; [|done].
  apply Forall_insert; [done|]. apply last_Some in El as [l ->]. apply list.Forall_app in Ha as [_ Hp].
  inversion Hp as [|? ? Hf _]; subst. red in Hf |- *. cbn [fst snd]. lia.
Qed.

(** What [DnsQTypeRange::new] and [single] build. *)
Definition qtype_range_ok (r : DnsQTypeRange) : Prop := range_ok (qt_start r, qt_end r).

Lemma compile_qtype_ranges_spec rs t :
  Forall qtype_range_ok rs ->
  qtype_ranges_contain (compile_qtype_ranges rs) t = existsb (fun r => qt_contains r t) rs.
Proof.
  intros Hrs. unfold compile_qtype_ranges. set (k := map _ rs).
  assert (Forall range_ok (merge_sort pair_le k)) as Hk.
  { rewrite (merge_sort_Permutation pair_le k). by apply Forall_map. }
  destruct (merge_qtypes_spec (merge_sort pair_le k)) as [Ha Hc]; [apply (StronglySorted_merge_sort pair_le) | done|].
  apply eq_true_iff_eq. rewrite ranges_contain_spec, Hc by (try apply merge_qtypes_filled; done || constructor).
  unfold pair_covers. setoid_rewrite (merge_sort_Permutation pair_le k). unfold k.
  setoid_rewrite in_map_iff. rewrite existsb_exists. unfold qt_contains. split.
  - intros (r & (x & <- & Hx) & Ht). exists x. simpl in Ht. split; [done|]. lia.
  - intros (x & Hx & Ht). exists (qt_start x, qt_end x). split; [eauto|]. simpl. lia.
Qed.

(** ** Reading names *)

Lemma dns_u16_some m i z : dns_u16 m i = Some z -> in_u16 z /\ 0 <= i /\ i + 2 <= len m.
Proof.
  unfold dns_u16. destruct (usize_add i 2) as [e|] eqn:Ee; [|done]. apply usize_add_some in Ee as ->. simpl.
  destruct (get_range m i (i + 2)) as [l|] eqn:El; [|done]. simpl. intros [= <-].
  apply get_range_some in El as (? & ? & Hl). pose proof (from_be_range l) as Hr. rewrite Hl in Hr.
  replace (i + 2 - i) with 2 in Hr by lia. unfold in_u16. split; [exact Hr|]. lia.
Qed.

Lemma keep_if_some {A} (p : A -> bool) o a : keep_if p o = Some a -> o = Some a /\ p a = true.
Proof. unfold keep_if. destruct o as [x|]; [|done]. simpl. case_if; [|done]. intros [= <-]. done. Qed.

Lemma get_some_range {A} (l : list A) i x : get l i = Some x -> 0 <= i < len l.
Proof.
  unfold get. case_if; [done|]. intros Hx. apply lookup_lt_Some in Hx. unfold len. unbool. lia.
Qed.

(** Twice the turns a name may still take: a pointer counts two, a label its bytes. *)
Definition turns_left (r : NameReader) : Z := 2 * (128 - pointer_count r) + (255 - expanded_len r).

(** What a turn keeps: the name was read from [start] on, and nothing below it is its own. *)
Record reader_ok (start : Z) (r : NameReader) : Prop := {
  ro_offset : start <= name_offset r;
  ro_cursor : jumped r = false -> name_offset r = cursor r;
  ro_count : 0 <= pointer_count r <= 128;
  ro_len : 1 <= expanded_len r <= 255
}.

Ltac open_some :=
  repeat match goal with
    | H : keep_if _ _ = Some _ |- _ => apply keep_if_some in H as [H ?]
    | H : usize_add _ _ = Some _ |- _ => apply usize_add_some in H; subst
    | H : ok_or _ _ = Ok _ |- _ => apply ok_or_inv in H
    | H : dns_u16 _ _ = Some _ |- _ => apply dns_u16_some in H
    end.

Lemma name_turn_ok m start r next :
  reader_ok start r -> name_turn m r = Ok next ->
  match next with
  | inl r' => reader_ok start r' /\ turns_left r' + 2 <= turns_left r
  | inr r' => start <= name_offset r'
  end.
Proof.
  intros [H1 H2 H3 H4]. unfold name_turn. intros (b & Hb & E)%res_bind_ok_inv. open_some.
  apply get_some_range in Hb. pose proof (u8_range b) as Hu. unfold turns_left.
  case_if_in E.
  - apply res_bind_ok_inv in E as (c & Hc & E). case_if_in E; [done|]. case_if_in E; [done|].
    apply Ok_inj in E. subst next. cbv zeta. cbn. unbool. split; [split; cbn; try lia|lia].
    destruct (jumped r); [lia|]. rewrite <- H2 by done. lia.
  - case_if_in E; [|done]. case_if_in E.
    + apply Ok_inj in E. subst next. cbn. destruct (jumped r); [lia|]. rewrite <- H2 by done. lia.
    + apply res_bind_ok_inv in E as (e & He & E). apply res_bind_ok_inv in E as (n & Hn & E).
      apply res_bind_ok_inv in E as ([d er] & Hd & E). apply Ok_inj in E. open_some. cbn. unbool.
      split; [split; cbn; try lia|].
      * destruct (jumped r); [lia|]. specialize (H2 eq_refl). lia.
      * by intros ->.
      * lia.
Qed.

Lemma name_turn_safe m r : name_turn m r <> Panic.
Proof.
  unfold name_turn. walk. destruct (name_domain r); [|done]. walk. destruct (push_label _ _ _). done.
Qed.

Lemma name_loop_ok fuel m start r :
  reader_ok start r -> turns_left r < 2 * Z.of_nat fuel ->
  match name_loop fuel m r with
  | Ok r' => start <= name_offset r'
  | Err _ => True
  | Panic => False
  end.
Proof.
  revert r. induction fuel as [|fuel IH]; intros r Hr Hf.
  { exfalso. destruct Hr. unfold turns_left in Hf. lia. }
  cbn [name_loop]. pose proof (name_turn_safe m r) as Hs. pose proof (name_turn_ok m start r) as Ht.
  destruct (name_turn m r) as [[r'|r']|e|]; cbn [res_bind]; [|exact (Ht _ Hr eq_refl)|done|done].
  destruct (Ht _ Hr eq_refl) as [Hr' Hl]. apply IH; [done|lia].
Qed.

Lemma read_dns_name_ok m start d :
  match read_dns_name m start d with
  | Ok (_, offset, _) => start <= offset
  | Err _ => True
  | Panic => False
  end.
Proof.
  unfold read_dns_name. pose proof (name_loop_ok NAME_TURNS m start (mkNameReader start false 1 0 None start d)) as Hn.
  destruct (name_loop _ _ _); cbn [res_bind]; apply Hn; try (split; cbn; lia); done.
Qed.

Lemma read_dns_name_safe m start d : read_dns_name m start d <> Panic.
Proof. pose proof (read_dns_name_ok m start d) as H. by destruct (read_dns_name m start d). Qed.
#[export] Hint Resolve read_dns_name_safe : rust.

Lemma read_dns_name_after m start d e offset n : read_dns_name m start d = Ok (e, offset, n) -> start <= offset.
Proof. intros E. pose proof (read_dns_name_ok m start d) as H. by rewrite E in H. Qed.

(** ** No message makes a reader panic or loop *)

Lemma edns_loop_safe fuel m offset e :
  0 <= offset -> (Z.to_nat (e - offset) < fuel)%nat -> edns_loop fuel m offset e <> Panic.
Proof.
  revert offset. induction fuel as [|fuel IH]; intros offset Ho Hf; [lia|]. cbn [edns_loop]. walk.
  open_some. unbool. destruct Ha0 as [Hz _]. red in Hz. apply IH; lia.
Qed.

Lemma validate_edns_safe m offset e : 0 <= offset -> e <= len m -> validate_edns_options m offset e <> Panic.
Proof. intros. apply edns_loop_safe; unfold len in *; lia. Qed.

Lemma resource_record_safe m add s : resource_record m add s <> Panic.
Proof.
  unfold resource_record. walk. open_some. unbool. apply validate_edns_safe; lia.
Qed.
#[export] Hint Resolve resource_record_safe : rust.

Lemma parse_records_safe n m add s : parse_resource_records n m add s <> Panic.
Proof. revert s. induction n as [|n IH]; intros s; cbn [parse_resource_records]; walk. Qed.
#[export] Hint Resolve parse_records_safe : rust.

Lemma more_questions_safe n m offset : more_questions n m offset <> Panic.
Proof. revert offset. induction n as [|n IH]; intros offset; cbn [more_questions]; walk. Qed.
#[export] Hint Resolve more_questions_safe : rust.

Lemma validate_envelope_safe m q : validate_dns_query_envelope m q <> Panic.
Proof. unfold validate_dns_query_envelope. walk. by destruct (domain_error q). Qed.
#[export] Hint Resolve validate_envelope_safe : rust.

Lemma parse_prefix_safe m : parse_dns_query_prefix m <> Panic.
Proof. unfold parse_dns_query_prefix. walk. Qed.
#[export] Hint Resolve parse_prefix_safe : rust.

(** The first question ends inside the message. *)
Lemma parse_prefix_bounds m q :
  parse_dns_query_prefix m = Ok q -> 16 <= first_question_end q <= len m /\ 12 <= len m
  /\ in_u16 (id q) /\ in_u16 (request_flags q) /\ in_u16 (qtype q) /\ in_u16 (qclass q) /\ in_u16 (question_count q).
Proof.
  unfold parse_dns_query_prefix. case_if; [done|].
  intros (i & Hi & (f & Hf & (c & Hc & E)%res_bind_ok_inv)%res_bind_ok_inv)%res_bind_ok_inv.
  case_if_in E; [done|]. apply res_bind_ok_inv in E as ([[e o] n] & Hn & E). cbv zeta in E.
  apply res_bind_ok_inv in E as (t & Ht & (a & Ha & (k & Hk & (z & Hz & E)%res_bind_ok_inv)%res_bind_ok_inv)%res_bind_ok_inv).
  apply Ok_inj in E. subst q. cbn. apply read_dns_name_after in Hn. open_some. unbool.
  unfold DNS_HEADER_LEN in *. intuition lia.
Qed.

Lemma build_return_safe m code : build_return_response m code <> Panic.
Proof.
  unfold build_return_response. walk.
  - apply parse_prefix_bounds in Ha. apply slice_no_panic; lia.
  - apply parse_prefix_bounds in Ha. apply slice_len in Ha0. unbool. lia.
Qed.

Lemma decide_message_safe `{RegexEngine} `{KeywordEngine} p m own : decide_message p m own <> Panic.
Proof. unfold decide_message. walk; destruct (selected_action _ _ _) as [[] ?]; walk. Qed.

(** ** What may be hijacked *)

Lemma insert_if_zero (b : bool) u r :
  0 < r -> (if b then unsafe_insert u r else u) = 0 -> b = false /\ u = 0.
Proof. intros Hr. destruct b; [|done]. intros [_ ->]%Z.lor_eq_0_iff. lia. Qed.

Ltac drop_inserts H :=
  repeat match type of H with
    | (if _ then unsafe_insert _ _ else _) = 0 =>
        let Hb := fresh "Hb" in apply insert_if_zero in H as [Hb H]; [|reflexivity]
    end.

Lemma drop_read {A} (m l : list A) i j :
  get_range m i j = Some l -> drop (Z.to_nat i) m = l ++ drop (Z.to_nat j) m.
Proof.
  unfold get_range. case_if; [|done]. intros [= <-]. unbool.
  replace (Z.to_nat j) with (Z.to_nat i + Z.to_nat (j - i))%nat by lia.
  by rewrite <- drop_drop, take_drop.
Qed.

Lemma dns_u16_drop m i z : dns_u16 m i = Some z -> drop (Z.to_nat i) m = be_bytes 2 z ++ drop (Z.to_nat (i + 2)) m.
Proof.
  unfold dns_u16. destruct (usize_add i 2) as [e|] eqn:Ee; [|done]. apply usize_add_some in Ee as ->. cbn [mbind option_bind].
  destruct (get_range m i (i + 2)) as [l|] eqn:El; [|done]. intros [= <-]. rewrite (drop_read m l i (i + 2)) by done.
  apply get_range_some in El as (? & ? & Hl). rewrite be_bytes_from_be; [done | unfold len in Hl; lia].
Qed.

Lemma dns_u32_drop m i z :
  dns_u32 m i = Some z -> in_u32 z /\ drop (Z.to_nat i) m = be_bytes 4 z ++ drop (Z.to_nat (i + 4)) m.
Proof.
  unfold dns_u32. destruct (usize_add i 4) as [e|] eqn:Ee; [|done]. apply usize_add_some in Ee as ->. cbn [mbind option_bind].
  destruct (get_range m i (i + 4)) as [l|] eqn:El; [|done]. intros [= <-]. rewrite (drop_read m l i (i + 4)) by done.
  apply get_range_some in El as (? & ? & Hl). pose proof (from_be_range l) as Hr. rewrite Hl in Hr.
  replace (i + 4 - i) with 4 in Hr by lia. split; [exact Hr|].
  rewrite be_bytes_from_be; [done | unfold len in Hl; lia].
Qed.

Definition unexpected_mask : Z :=
  Z.lor (Z.lor (Z.lor (Z.lor DNS_FLAG_AA DNS_FLAG_TC) DNS_FLAG_RA) DNS_FLAG_Z) DNS_FLAG_RCODE.

Definition plain_flags (f : Z) : bool :=
  (Z.land f DNS_FLAG_QR =? 0) && (Z.shiftr (Z.land f DNS_OPCODE_MASK) 11 =? 0) && (Z.land f unexpected_mask =? 0)
  && (Z.land f DNS_FLAG_AD =? 0) && (Z.land f DNS_FLAG_CD =? 0).

(** Every flag but "recursion desired" is asked for. *)
Lemma flags_plain f : in_u16 f -> plain_flags f = true -> f = 0 \/ f = DNS_FLAG_RD.
Proof.
  intros Hf. unfold plain_flags, in_u16 in *.
  intros [[[[H1 H2]%andb_true_iff H3]%andb_true_iff H4]%andb_true_iff H5]%andb_true_iff.
  apply Z.eqb_eq in H1, H2, H3, H4, H5.
  assert (Z.land f DNS_OPCODE_MASK = 0) as H6.
  { rewrite Z.shiftr_div_pow2 in H2 by lia. rewrite (Z.div_mod (Z.land f DNS_OPCODE_MASK) (2 ^ 11)), H2 by lia.
    rewrite <- Z.land_ones, <- Z.land_assoc by lia. apply Z.land_0_r. }
  assert (f = Z.land f DNS_FLAG_RD) as Hd.
  { rewrite <- (Z.mod_small f (2 ^ 16)) at 1 by (change (2 ^ 16) with 65536; lia). rewrite <- Z.land_ones by lia.
    change (Z.ones 16) with (Z.lor (Z.lor (Z.lor (Z.lor (Z.lor DNS_FLAG_QR DNS_OPCODE_MASK) unexpected_mask) DNS_FLAG_AD) DNS_FLAG_CD) DNS_FLAG_RD).
    rewrite Z.land_lor_distr_r. do 4 rewrite (Z.land_lor_distr_r f (Z.lor _ _)) || rewrite (Z.land_lor_distr_r f DNS_FLAG_QR).
    by rewrite H1, H6, H3, H4, H5. }
  assert (f mod 2 ^ 8 = 0) as Hl by (rewrite Hd, <- Z.land_ones, <- Z.land_assoc by lia; apply Z.land_0_r).
  assert (f / 2 ^ 9 = 0) as Hh by (rewrite Hd, <- Z.shiftr_div_pow2, Z.shiftr_land by lia; apply Z.land_0_r).
  unfold DNS_FLAG_RD. pose proof (Z.div_mod f (2 ^ 8) ltac:(lia)). pose proof (Z.div_mod f (2 ^ 9) ltac:(lia)).
  pose proof (Z.mod_pos_bound f (2 ^ 9) ltac:(lia)). lia.
Qed.

Lemma ttl_plain t :
  in_u32 t -> Z.land t DNS_EDNS_DO = 0 -> Z.land t DNS_EDNS_Z_MASK = 0 ->
  Z.shiftr t 24 mod 256 = 0 -> Z.shiftr t 16 mod 256 = 0 -> t = 0.
Proof.
  intros Ht H1 H2 H3 H4. red in Ht. rewrite Z.shiftr_div_pow2 in H3, H4 by lia.
  assert (Z.land t (Z.ones 16) = 0) as Hm.
  { change (Z.ones 16) with (Z.lor DNS_EDNS_DO DNS_EDNS_Z_MASK). by rewrite Z.land_lor_distr_r, H1, H2. }
  rewrite Z.land_ones in Hm by lia. change (2 ^ 24) with 16777216 in *. change (2 ^ 16) with 65536 in *.
  pose proof (Z.div_mod t 65536 ltac:(lia)). pose proof (Z.div_mod (t / 65536) 256 ltac:(lia)).
  rewrite Z.div_div in * by lia. change (65536 * 256) with 16777216 in *.
  pose proof (Z.div_mod (t / 16777216) 256 ltac:(lia)). rewrite Z.div_div in * by lia.
  assert (t / (16777216 * 256) = 0) by (apply Z.div_small; lia). lia.
Qed.

(** A plain OPT record: root owner, a payload size, no extended code, version, flag or data. *)
Definition opt_record (size : Z) : list byte := x00 :: be_bytes 2 DNS_TYPE_OPT ++ be_bytes 2 size ++ be_bytes 4 0 ++ be_bytes 2 0.

Lemma len_opt_record size : len (opt_record size) = 11.
Proof. unfold opt_record. by len_simpl. Qed.

(** What a record that was read is made of. *)
Lemma record_inv m add s s' :
  resource_record m add s = Ok s' ->
  exists e offset n t c ttl dl,
    read_dns_name m (rs_offset s) None = Ok (e, offset, n) /\ dns_u16 m offset = Some t
    /\ dns_u16 m (offset + 2) = Some c /\ dns_u32 m (offset + 4) = Some ttl /\ dns_u16 m (offset + 8) = Some dl
    /\ rs_offset s' = offset + 10 + dl
    /\ (t <> DNS_TYPE_OPT /\ seen_opt s' = seen_opt s
        /\ rs_unsafe s' = (if add then unsafe_insert (rs_unsafe s) HIJACK_UNSAFE_NON_QUESTION_RECORDS else rs_unsafe s)
        \/ t = DNS_TYPE_OPT /\ add = true /\ seen_opt s = false /\ seen_opt s' = true
           /\ offset = Z.min (rs_offset s + 1) usize_max /\ get m (rs_offset s) = Some x00
           /\ (rs_unsafe s' = 0 -> rs_unsafe s = 0 /\ ttl = 0 /\ dl = 0)).
Proof.
  unfold resource_record. intros ([[e o] n] & Hn & E)%res_bind_ok_inv. cbv zeta in E.
  apply res_bind_ok_inv in E as (t & Ht & (a2 & Ha2 & (c & Hc & (a4 & Ha4 & (ttl & Httl & E)%res_bind_ok_inv)%res_bind_ok_inv)%res_bind_ok_inv)%res_bind_ok_inv).
  apply res_bind_ok_inv in E as (a8 & Ha8 & (dl & Hdl & (a10 & Ha10 & (de & Hde & E)%res_bind_ok_inv)%res_bind_ok_inv)%res_bind_ok_inv).
  apply res_bind_ok_inv in E as ([[seen u] size] & Hu & E). apply Ok_inj in E. subst s'. cbn [rs_offset rs_unsafe seen_opt].
  apply ok_or_inv in Ht, Ha2, Hc, Ha4, Httl, Ha8, Hdl, Ha10, Hde.
  apply keep_if_some in Hde as [Hde _]. apply usize_add_some in Ha2, Ha4, Ha8, Ha10, Hde. subst.
  exists e, o, n, t, c, ttl, dl. split_and!; [done..|].
  destruct (Z.eqb_spec t DNS_TYPE_OPT) as [->|Hne]; [right | left; apply Ok_inj in Hu; by apply pair_equal_spec in Hu as [[Hx Hu]%pair_equal_spec _]; subst seen u].
  case_if_in Hu; [done|]. apply orb_false_iff in Heqb as [[Ha Ho]%orb_false_iff Hs].
  apply negb_false_iff in Ha, Ho. apply andb_true_iff in Ho as [Ho Hg]. apply bool_decide_eq_true in Hg.
  apply Z.eqb_eq in Ho. apply dns_u32_drop in Httl as [Hr _].
  destruct (negb (dl =? 0)) eqn:Ed.
  - apply res_bind_ok_inv in Hu as (_ & _ & Hu). apply Ok_inj in Hu. apply pair_equal_spec in Hu as [[Hx Hu]%pair_equal_spec _]; subst seen u. split_and!; [done..|].
    intros [_ [=]]%Z.lor_eq_0_iff.
  - apply Ok_inj in Hu. apply pair_equal_spec in Hu as [[Hx Hu]%pair_equal_spec _]; subst seen u. split_and!; [done..|]. intros Hz. drop_inserts Hz.
    apply orb_false_iff in Hb as [[H1 H2]%orb_false_iff H3]. apply negb_false_iff, Z.eqb_eq in H1, H2, H3, Hb0, Ed.
    split_and!; [done | | done]. by apply ttl_plain.
Qed.

Lemma record_unsafe m add s s' : resource_record m add s = Ok s' -> rs_unsafe s' = 0 -> rs_unsafe s = 0.
Proof.
  intros (e & o & n & t & c & ttl & dl & _ & _ & _ & _ & _ & _ & Hc)%record_inv Hz.
  destruct Hc as [(_ & _ & Hu)|(_ & _ & _ & _ & _ & _ & Hu)]; [|by apply Hu].
  rewrite Hu in Hz. by drop_inserts Hz.
Qed.

Lemma records_unsafe n m add s s' :
  parse_resource_records n m add s = Ok s' -> rs_unsafe s' = 0 -> rs_unsafe s = 0.
Proof.
  revert s. induction n as [|n IH]; intros s; cbn [parse_resource_records].
  - by intros [= ->].
  - intros (s1 & H1 & H2)%res_bind_ok_inv Hz. eapply record_unsafe; [exact H1|]. by eapply IH.
Qed.

Lemma dns_u16_index m i z : dns_u16 m i = Some z -> i + 2 <= usize_max.
Proof. unfold dns_u16, usize_add. case_if; [|done]. intros _. unbool. done. Qed.

Lemma get_drop {A} (m : list A) i x : get m i = Some x -> drop (Z.to_nat i) m = x :: drop (Z.to_nat (i + 1)) m.
Proof.
  intros Hx. pose proof (get_some_range _ _ _ Hx). unfold get in Hx. case_if_in Hx; [done|].
  rewrite (drop_S m x (Z.to_nat i)) by done. by replace (Z.to_nat (i + 1)) with (S (Z.to_nat i)) by lia.
Qed.

(** The one additional record that costs nothing. *)
Lemma record_opt m s s' :
  resource_record m true s = Ok s' -> rs_unsafe s' = 0 ->
  seen_opt s = false /\ seen_opt s' = true
  /\ exists size, in_u16 size /\ drop (Z.to_nat (rs_offset s)) m = opt_record size ++ drop (Z.to_nat (rs_offset s')) m.
Proof.
  intros (e & o & n & t & c & ttl & dl & _ & Ht & Hcl & Httl & Hdl & Ho & Hc)%record_inv Hz.
  destruct Hc as [(_ & _ & Hu)|(-> & _ & Hs & Hs' & Eo & Hg & Hu)].
  { rewrite Hu in Hz. apply (insert_if_zero true) in Hz as [[=] _]. done. }
  destruct (Hu Hz) as (_ & -> & ->). split_and!; [done..|]. exists c. split; [exact (proj1 (dns_u16_some _ _ _ Hcl))|].
  pose proof (dns_u16_index _ _ _ Ht). assert (rs_offset s + 1 = o) as Er by lia.
  apply dns_u32_drop in Httl as [_ Httl]. apply dns_u16_drop in Ht, Hcl, Hdl.
  rewrite (get_drop _ _ _ Hg), Er, Ht, Hcl, Ho. replace (o + 2 + 2) with (o + 4) by lia. rewrite Httl.
  replace (o + 4 + 4) with (o + 8) by lia. rewrite Hdl. replace (o + 10 + 0) with (o + 8 + 2) by lia.
  unfold opt_record. by rewrite <- app_comm_cons, <- !app_assoc.
Qed.

Lemma records_opt n m s s' :
  parse_resource_records n m true s = Ok s' -> rs_unsafe s' = 0 -> seen_opt s = false ->
  n = 0%nat /\ s' = s
  \/ n = 1%nat /\ exists size, in_u16 size /\ drop (Z.to_nat (rs_offset s)) m = opt_record size ++ drop (Z.to_nat (rs_offset s')) m.
Proof.
  intros E Hz Hs. destruct n as [|[|n]]; cbn [parse_resource_records] in E.
  - left. by apply Ok_inj in E.
  - right. apply res_bind_ok_inv in E as (s1 & H1 & E). apply Ok_inj in E. subst s1.
    split; [done|]. by apply (record_opt m s s' H1 Hz).
  - exfalso. apply res_bind_ok_inv in E as (s1 & H1 & E). apply res_bind_ok_inv in E as (s2 & H2 & E).
    apply (records_unsafe _ _ _ _ _ E) in Hz. pose proof (record_opt m s1 s2 H2 Hz) as (Hf & _).
    apply (record_unsafe _ _ _ _ H2) in Hz. pose proof (record_opt m s s1 H1 Hz) as (_ & Ht & _). congruence.
Qed.

(** ** The name of a question *)

(** A name whose labels all passed does not end in a dot. *)
Definition undotted (r : NameReader) : Prop :=
  name_error r = None -> forall o, name_domain r = Some o -> list.last o <> Some dot.

Lemma push_label_undotted output error label :
  label <> [] -> snd (push_label output error label) = None ->
  error = None /\ list.last (fst (push_label output error label)) <> Some dot.
Proof.
  intros Hl. unfold push_label. destruct (has label dot) eqn:Hh; [destruct error, (from_utf8 label); done|].
  unfold from_utf8. destruct (utf8_chars label); simpl; [|by destruct error]. intros ->. split; [done|].
  destruct label as [|b label _] using rev_ind; [done|]. rewrite app_assoc, last_snoc. intros [= ->].
  unfold has in Hh. rewrite existsb_app in Hh. cbn in Hh. rewrite bool_decide_true in Hh by done.
  by destruct (existsb _ label).
Qed.

Lemma name_turn_undotted m r next :
  undotted r -> name_turn m r = Ok next -> undotted (match next with inl r' | inr r' => r' end).
Proof.
  intros Hr. unfold name_turn. intros (b & Hb & E)%res_bind_ok_inv. pose proof (u8_range b). case_if_in E.
  - apply res_bind_ok_inv in E as (c & _ & E). case_if_in E; [done|]. case_if_in E; [done|]. by apply Ok_inj in E; subst.
  - case_if_in E; [|done]. case_if_in E; [by apply Ok_inj in E; subst|].
    apply res_bind_ok_inv in E as (e & He & (n & _ & ([d er] & Hd & E)%res_bind_ok_inv)%res_bind_ok_inv).
    apply Ok_inj in E; subst next. unfold undotted. cbn [name_error name_domain].
    destruct (name_domain r) as [o|]; [|injection Hd as <- <-; done].
    apply res_bind_ok_inv in Hd as (l & Hl & Hd). open_some. apply get_range_some in Hl as (_ & _ & Hl).
    assert (l <> []) as Hne by (intros ->; unbool; unfold len in Hl; simpl in Hl; lia).
    pose proof (push_label_undotted o (name_error r) l Hne) as Hp. destruct (push_label o (name_error r) l) as [o' e'].
    cbn [fst snd] in Hp. apply Ok_inj in Hd. injection Hd as <- <-. intros He' ? [= <-]. by apply Hp.
Qed.

Lemma name_loop_undotted fuel m r r' : undotted r -> name_loop fuel m r = Ok r' -> undotted r'.
Proof.
  revert r. induction fuel as [|fuel IH]; intros r Hr; [done|]. cbn [name_loop].
  intros (next & Hn & E)%res_bind_ok_inv. apply (name_turn_undotted _ _ _ Hr) in Hn.
  destruct next as [r1|r1]; [by eapply IH | by apply Ok_inj in E; subst].
Qed.

Lemma last_lower s : list.last s <> Some dot -> list.last (to_ascii_lowercase s) <> Some dot.
Proof.
  intros Hs. change (to_ascii_lowercase s) with (ascii_lower <$> s). rewrite fmap_last.
  destruct (list.last s) as [b|] eqn:El; [|done]. simpl. intros Hb. apply Hs. f_equal. apply ascii_lower_dot. by injection Hb.
Qed.

(** The domain of a question that has no error is its own normal form. *)
Lemma parse_prefix_domain m q :
  parse_dns_query_prefix m = Ok q -> domain_error q = None -> domain q <> [dot] -> normalize_dns_qname (domain q) = domain q.
Proof.
  unfold parse_dns_query_prefix. case_if; [done|].
  intros (i & Hi & (f & Hf & (c & Hc & E)%res_bind_ok_inv)%res_bind_ok_inv)%res_bind_ok_inv.
  case_if_in E; [done|]. apply res_bind_ok_inv in E as ([[e o] n] & Hn & E). cbv zeta in E.
  apply res_bind_ok_inv in E as (t & Ht & (a & Ha & (k & Hk & (z & Hz & E)%res_bind_ok_inv)%res_bind_ok_inv)%res_bind_ok_inv).
  apply Ok_inj in E. subst q. cbn [domain domain_error]. intros -> Hd. unfold normalize_dns_qname.
  apply res_bind_ok_inv in Hn as (r & Hr & Er). apply Ok_inj in Er. injection Er as Ee Eo En. subst n.
  apply name_loop_undotted in Hr; [|intros _ ? [= <-]; done].
  destruct (name_domain r) as [s|] eqn:Es; simpl in Hd |- *; [|done]. specialize (Hr Ee s Es).
  case_bool_decide; [subst; done|]. rewrite trim_end_dots_id by by apply last_lower. apply lower_idem.
Qed.

(** ** The theorems *)

Section Outbound.
Context `{RegexEngine} `{KeywordEngine}.

(** What the configuration promises of its query types. *)
Definition settings_ok (s : DnsOutboundSettings) : Prop :=
  Forall (fun r => Forall qtype_range_ok (qtype_ranges r)) (rules s).

Lemma compiled_matches_eq rule t d :
  Forall qtype_range_ok (qtype_ranges rule) ->
  compiled_matches (CompiledDnsOutboundRule_new rule) t d = matches_normalized rule t d.
Proof.
  intros Hr. unfold compiled_matches, matches_normalized, CompiledDnsOutboundRule_new.
  cbn [all_qtypes c_ranges all_domains c_domains]. rewrite compile_qtype_ranges_spec by done.
  by destruct (rule_domains rule).
Qed.

(** The response code of the rule that applies. *)
Definition code_for (s : DnsOutboundSettings) (t : Z) (d : str) : Z :=
  default 0 (rule_r_code <$> List.find (fun rule => dns_rule_matches rule t d) (rules s)).

Lemma selected_action_eq s t d :
  settings_ok s -> normalize_dns_qname d = d -> selected_action (policy_new s) t d = (action_for s t d, code_for s t d).
Proof.
  intros Hs Hd. unfold selected_action, policy_new, action_for, code_for, dns_rule_matches. cbn [policy_rules]. rewrite Hd.
  induction Hs as [|r l Hr _ IH]; [unfold is_address_qtype, DNS_TYPE_A, DNS_TYPE_AAAA; by case_if|].
  cbn [map List.find]. rewrite compiled_matches_eq by done. destruct (matches_normalized r t d); [done | exact IH].
Qed.

(** The query has one plain question and nothing else but the size of an OPT record. *)
Definition plain_query (m : list byte) (q : DnsOutboundQuery) : Prop :=
  is_address_qtype (qtype q) = true /\ qclass q = DNS_CLASS_IN /\ question_count q = 1
  /\ (request_flags q = 0 \/ request_flags q = DNS_FLAG_RD) /\ domain_error q = None
  /\ dns_u16 m 6 = Some 0 /\ dns_u16 m 8 = Some 0
  /\ (dns_u16 m 10 = Some 0 /\ drop (Z.to_nat (first_question_end q)) m = []
      \/ dns_u16 m 10 = Some 1
         /\ exists size, in_u16 size /\ drop (Z.to_nat (first_question_end q)) m = opt_record size).

Lemma prefix_safe_inv m q :
  parse_dns_query_prefix m = Ok q -> hijack_unsafe q = 0 ->
  Z.land (request_flags q) DNS_FLAG_AD = 0 /\ Z.land (request_flags q) DNS_FLAG_CD = 0
  /\ question_count q = 1 /\ qclass q = DNS_CLASS_IN.
Proof.
  unfold parse_dns_query_prefix. case_if; [done|].
  intros (i & Hi & (f & Hf & (c & Hc & E)%res_bind_ok_inv)%res_bind_ok_inv)%res_bind_ok_inv.
  case_if_in E; [done|]. apply res_bind_ok_inv in E as ([[e o] n] & Hn & E). cbv zeta in E.
  apply res_bind_ok_inv in E as (t & Ht & (a & Ha & (k & Hk & (z & Hz & E)%res_bind_ok_inv)%res_bind_ok_inv)%res_bind_ok_inv).
  apply Ok_inj in E. subst q. cbn [hijack_unsafe request_flags question_count qclass]. intros Hu. drop_inserts Hu.
  apply negb_false_iff, Z.eqb_eq in Hb, Hb0, Hb1, Hb2. done.
Qed.

Lemma validate_inv m q q' :
  validate_dns_query_envelope m q = Ok q' -> parse_dns_query_prefix m = Ok q -> hijack_unsafe q' = 0 ->
  is_address_qtype (qtype q) = true -> plain_query m q'.
Proof.
  unfold validate_dns_query_envelope.
  intros (u & Hd & E)%res_bind_ok_inv Hp Hz Hq. destruct (domain_error q) eqn:Ede; [done|]. clear u Hd.
  case_if_in E; [done|]. case_if_in E; [done|]. case_if_in E; [done|].
  apply res_bind_ok_inv in E as (an & Han & (au & Hau & (ad & Had & (o & Ho & E)%res_bind_ok_inv)%res_bind_ok_inv)%res_bind_ok_inv).
  cbv zeta in E. apply res_bind_ok_inv in E as (s1 & H1 & (s2 & H2 & (s3 & H3 & E)%res_bind_ok_inv)%res_bind_ok_inv).
  case_if_in E; [done|]. apply Ok_inj in E. subst q'. cbn [hijack_unsafe] in Hz.
  pose proof (records_unsafe _ _ _ _ _ H3 Hz) as Hz2. pose proof (records_unsafe _ _ _ _ _ H2 Hz2) as Hz1.
  pose proof (records_unsafe _ _ _ _ _ H1 Hz1) as Hz0. cbn [rs_unsafe] in Hz0. drop_inserts Hz0.
  destruct (prefix_safe_inv m q Hp Hz0) as (Had' & Hcd & Hqc & Hcl).
  apply orb_false_iff in Hb as [Hb1 Hb2]. apply negb_false_iff, Z.eqb_eq in Hb1, Hb2. subst an au.
  cbn in H1. apply Ok_inj in H1. subst s1. cbn in H2. apply Ok_inj in H2. subst s2.
  rewrite Hqc in Ho. cbn in Ho. apply Ok_inj in Ho. subst o.
  apply ok_or_inv in Han, Hau, Had. apply negb_false_iff, Z.eqb_eq in Heqb2.
  destruct (parse_prefix_bounds m q Hp) as (? & ? & _ & Hf & _).
  unfold plain_query. cbn [qtype qclass question_count request_flags domain_error first_question_end].
  split_and!; try done.
  - apply flags_plain; [done|]. unfold plain_flags. unfold unexpected_mask. lia.
  - apply records_opt in H3 as [[Hn ->]|[Hn (size & Hs & Hdr)]]; [| |done..]; cbn [rs_offset] in *.
    + left. pose proof (dns_u16_some _ _ _ Had) as [Hr _]. red in Hr. assert (ad = 0) as -> by lia. split; [done|].
      apply drop_ge. unfold len in *. lia.
    + right. assert (ad = 1) as -> by lia. split; [done|]. exists size. split; [done|].
      rewrite Hdr, (drop_ge m) by (unfold len in *; lia). apply app_nil_r.
Qed.

Lemma validate_qtype m q q' : validate_dns_query_envelope m q = Ok q' -> qtype q' = qtype q.
Proof.
  unfold validate_dns_query_envelope. intros (u & _ & E)%res_bind_ok_inv. do 3 (case_if_in E; [done|]).
  do 4 apply res_bind_ok_inv in E as (? & _ & E). cbv zeta in E. do 3 apply res_bind_ok_inv in E as (? & _ & E).
  case_if_in E; [done|]. by apply Ok_inj in E as <-.
Qed.

(** C33: Whatever bytes arrive, the DNS outbound decides without panic or endless loop, and its answers
    are built without one; a message of the resolver's own link is always sent on unread; and only a
    query is hijacked whose single question asks for an IN A or AAAA record, whose flags are at most
    "recursion desired", and behind whose question nothing follows but one OPT record with a size. *)
Theorem dns_outbound_safe p m own code :
  decide_message p m own <> Panic /\ build_return_response m code <> Panic
  /\ decide_message p m true = Ok DirectDecision
  /\ (decide_message p m own = Ok HijackDecision ->
      own = false /\ exists q, parse_dns_query m = Ok q /\ plain_query m q).
Proof.
  split_and!; [apply decide_message_safe | apply build_return_safe | done|].
  unfold decide_message, parse_dns_query. case_if; [done|]. intros (q & Hq & E)%res_bind_ok_inv. split; [done|].
  rewrite Hq. destruct (selected_action _ _ _) as [[] code'] eqn:Ea; try (by apply Ok_inj in E).
  case_if_in E; [done|]. apply res_bind_ok_inv in E as (q' & Hv & E). exists q'. split; [done|].
  apply (validate_inv m q); [done..| |by apply negb_false_iff].
  apply Ok_inj in E. unfold decision_for_action in E. rewrite (validate_qtype _ _ _ Hv), Heqb0 in E.
  unfold query_hijack_unsafe in E. by destruct (Z.eqb_spec (hijack_unsafe q') 0).
Qed.

(** C35: The compiled policy decides what the settings say: for every message whose first question has
    a proper name other than the root, the sorted and merged query types, searched by bisection, and the
    matchers of the lowercased name select the first rule that [DnsOutboundSettings::action_for]
    selects, with its response code, and a hijacked query is answered by how it parses in full. *)
Theorem policy_follows_settings s m q :
  settings_ok s -> parse_dns_query_prefix m = Ok q -> domain_error q = None -> domain q <> [dot] ->
  decide_message (policy_new s) m false
  = let code := code_for s (qtype q) (domain q) in
    match action_for s (qtype q) (domain q) with
    | Direct => Ok DirectDecision
    | Drop => Ok DropDecision
    | Return => Ok (ReturnDecision code)
    | Hijack =>
      if is_address_qtype (qtype q)
      then let? full := parse_dns_query m in
           Ok (match query_hijack_unsafe full with Some u => HijackUnsafe u | None => HijackDecision end)
      else Ok (ReturnDecision code)
    end.
Proof.
  intros Hs Hq He Hd. unfold decide_message, parse_dns_query. rewrite Hq. cbn [res_bind].
  rewrite selected_action_eq by (try apply (parse_prefix_domain m); done).
  destruct (action_for _ _ _); try done. destruct (is_address_qtype (qtype q)) eqn:Ha; [|done]. cbn [negb].
  destruct (validate_dns_query_envelope m q) as [q'| |] eqn:Hv; [|done..]. cbn [res_bind].
  unfold decision_for_action. by rewrite (validate_qtype _ _ _ Hv), Ha.
Qed.
End Outbound.

(** ** A client's query *)

Definition encode_label (l : str) : list byte := to_u8 (len l) :: l.
Definition encode_name (ls : list str) : list byte := concat (map encode_label ls) ++ [x00].

Definition label_ok (l : str) : Prop := 1 <= len l <= 63 /\ is_utf8 l = true /\ has l dot = false.

(** The text of a name: its labels with dots between them, or a dot for the root. *)
Fixpoint append_labels (output : str) (ls : list str) : str :=
  match ls with
  | [] => output
  | l :: ls => append_labels ((if bool_decide (output = []) then output else output ++ [dot]) ++ l) ls
  end.
Definition name_text (ls : list str) : str := if bool_decide (ls = []) then [dot] else append_labels [] ls.

Definition query_flags (rd : bool) : Z := if rd then DNS_FLAG_RD else 0.

Definition query_head (id : Z) (rd : bool) (opt : option Z) : list byte :=
  be_bytes 2 id ++ be_bytes 2 (query_flags rd) ++ be_bytes 2 1 ++ be_bytes 2 0 ++ be_bytes 2 0
  ++ be_bytes 2 (match opt with Some _ => 1 | None => 0 end).
Definition encode_question (ls : list str) (t : Z) : list byte :=
  encode_name ls ++ be_bytes 2 t ++ be_bytes 2 DNS_CLASS_IN.
Definition encode_query (id : Z) (rd : bool) (ls : list str) (t : Z) (opt : option Z) : list byte :=
  query_head id rd opt ++ encode_question ls t ++ default [] (opt_record <$> opt).

Lemma land_label z : 0 <= z < 64 -> Z.land z 0xc0 = 0.
Proof.
  intros Hz. rewrite <- (Z.mod_small z (2 ^ 6)) by (change (2 ^ 6) with 64; lia).
  rewrite <- Z.land_ones, <- Z.land_assoc by lia. apply Z.land_0_r.
Qed.

Lemma len_encode_name_cons l ls : len (encode_name (l :: ls)) = 1 + len l + len (encode_name ls).
Proof. unfold encode_name, encode_label. cbn [map concat]. rewrite <- app_assoc. len_simpl. lia. Qed.

(** A turn over one label *)
Lemma name_turn_label m x l y e o :
  m = x ++ encode_label l ++ y -> label_ok l -> 1 <= e -> e + len l + 1 <= 255 -> len m <= usize_max ->
  name_turn m (mkNameReader (len x) false e 0 None (len x) (Some o))
  = Ok (inl (mkNameReader (len (x ++ encode_label l)) false (e + (len l + 1)) 0 None (len (x ++ encode_label l))
               (Some ((if bool_decide (o = []) then o else o ++ [dot]) ++ l)))).
Proof.
  intros Hm (Hl & Hu & Hd) He Hb Hx. unfold name_turn. cbn [cursor jumped expanded_len pointer_count name_error name_offset name_domain].
  rewrite (get_eq x (l ++ y) m (to_u8 (len l)) (len x)) by done. cbn [ok_or res_bind].
  rewrite u8_to_u8_small, land_label by lia. cbv zeta. guard_false by done. guard_true by done. guard_false by lia.
  assert (len m = len x + 1 + len l + len y) as Hlm by (rewrite Hm; unfold encode_label; len_simpl; lia).
  pose proof (len_nonneg y). rewrite usize_add_eq by lia. unfold keep_if. cbn [mbind option_bind].
  guard_true by lia. cbn [ok_or res_bind]. rewrite usize_add_eq by (unfold usize_max, u64_max; lia). cbn [mbind option_bind].
  guard_true by lia. cbn [ok_or res_bind].
  rewrite (get_range_eq (x ++ [to_u8 (len l)]) l y m) by
    first [by rewrite <- app_assoc | by len_simpl | by lia]. cbn [ok_or res_bind].
  unfold push_label. rewrite Hd, from_utf8_ok by done. cbn [res_bind].
  by replace (len (x ++ encode_label l)) with (len x + 1 + len l) by (unfold encode_label; len_simpl; lia).
Qed.

Lemma name_loop_encoded fuel m x ls y e o :
  m = x ++ encode_name ls ++ y -> Forall label_ok ls -> 1 <= e -> e + len (encode_name ls) <= 256 ->
  len m <= usize_max -> (length ls < fuel)%nat ->
  exists r, name_loop fuel m (mkNameReader (len x) false e 0 None (len x) (Some o)) = Ok r
    /\ name_error r = None /\ name_offset r = len x + len (encode_name ls) /\ name_domain r = Some (append_labels o ls).
Proof.
  revert x ls e o. induction fuel as [|fuel IH]; intros x ls e o Hm Hls He Hb Hx Hf; [lia|]. cbn [name_loop].
  destruct ls as [|l ls].
  - unfold name_turn at 1. cbn [cursor jumped]. rewrite (get_eq x y m x00 (len x)) by done. cbn.
    eexists. split; [reflexivity|]. done.
  - apply list.Forall_cons in Hls as [Hl Hls']. rewrite len_encode_name_cons in *.
    pose proof (len_nonneg (encode_name ls)).
    assert (m = x ++ encode_label l ++ encode_name ls ++ y) as Hm'
      by (rewrite Hm; unfold encode_name; cbn [map concat]; by rewrite <- !app_assoc).
    assert (1 <= len (encode_name ls)) by (unfold encode_name; len_simpl; pose proof (len_nonneg (concat (map encode_label ls))); lia).
    rewrite (name_turn_label m x l (encode_name ls ++ y)) by (done || lia). cbn [res_bind].
    destruct (IH (x ++ encode_label l) ls (e + (len l + 1))
                ((if bool_decide (o = []) then o else o ++ [dot]) ++ l)) as (r & -> & He' & Ho & Hd);
      [by rewrite <- app_assoc | done | destruct Hl; lia | lia | done | simpl in Hf; lia|].
    exists r. split_and!; [done..| |done]. rewrite Ho. unfold encode_label. len_simpl. lia.
Qed.

Lemma encode_name_count ls : Forall label_ok ls -> 2 * len ls + 1 <= len (encode_name ls).
Proof.
  induction 1 as [|l ls [Hl _] _ IH]; [done|]. rewrite len_encode_name_cons. len_simpl. lia.
Qed.

Lemma read_name_encoded m x ls y :
  m = x ++ encode_name ls ++ y -> Forall label_ok ls -> len (encode_name ls) <= 255 -> len m <= usize_max ->
  read_dns_name m (len x) (Some []) = Ok (None, len x + len (encode_name ls), Some (append_labels [] ls)).
Proof.
  intros Hm Hls Hb Hx. unfold read_dns_name. pose proof (encode_name_count ls Hls).
  destruct (name_loop_encoded NAME_TURNS m x ls y 1 []) as (r & -> & He & Ho & Hd); [done | done | lia | lia | done | |].
  { unfold NAME_TURNS, len in *. lia. }
  cbn [res_bind]. by rewrite He, Ho, Hd.
Qed.

Lemma append_labels_empty o ls : Forall label_ok ls -> append_labels o ls = [] <-> o = [] /\ ls = [].
Proof.
  intros Hls. revert o. induction Hls as [|l ls [Hl _] _ IH]; intros o; cbn [append_labels]; [naive_solver|].
  rewrite IH. split; [|naive_solver]. intros [[_ ->]%app_nil _]. unfold len in Hl. simpl in Hl. lia.
Qed.

Lemma dns_u16_eq x y l z i :
  l = x ++ be_bytes 2 z ++ y -> len x = i -> in_u16 z -> len l <= usize_max -> dns_u16 l i = Some z.
Proof.
  intros Hl Hi Hz Hx. assert (i + 2 <= len l) by (rewrite Hl; len_simpl; pose proof (len_nonneg y); lia).
  unfold dns_u16. rewrite usize_add_eq by lia. cbn [mbind option_bind].
  rewrite (get_range_eq x (be_bytes 2 z) y l) by (done || len_simpl; lia). cbn [mbind option_bind].
  by rewrite from_be_bytes_small.
Qed.

Lemma dns_u32_eq x y l z i :
  l = x ++ be_bytes 4 z ++ y -> len x = i -> in_u32 z -> len l <= usize_max -> dns_u32 l i = Some z.
Proof.
  intros Hl Hi Hz Hx. assert (i + 4 <= len l) by (rewrite Hl; len_simpl; pose proof (len_nonneg y); lia).
  unfold dns_u32. rewrite usize_add_eq by lia. cbn [mbind option_bind].
  rewrite (get_range_eq x (be_bytes 4 z) y l) by (done || len_simpl; lia). cbn [mbind option_bind].
  by rewrite from_be_bytes_small.
Qed.

Lemma opt_record_read m x size :
  m = x ++ opt_record size -> in_u16 size -> len m <= usize_max ->
  resource_record m true (mkRecordState (len x) false 0 None) = Ok (mkRecordState (len m) true 0 (Some size)).
Proof.
  intros Hm Hs Hx. assert (len m = len x + 11) as Hl by (rewrite Hm; unfold opt_record; len_simpl; lia).
  pose proof (len_nonneg x). unfold opt_record in Hm. set (o := len x + 1).
  assert (get m (len x) = Some x00) as Hg by by eapply get_eq.
  unfold resource_record. cbn [rs_offset rs_unsafe rs_size seen_opt].
  assert (read_dns_name m (len x) None = Ok (None, o, None)) as ->.
  { unfold read_dns_name, NAME_TURNS. cbn [name_loop]. unfold name_turn at 1. cbn [cursor jumped]. rewrite Hg. reflexivity. }
  cbn [res_bind]. rewrite Z.min_l, Z.eqb_refl, bool_decide_true by (done || lia). cbv zeta.
  rewrite (dns_u16_eq (x ++ [x00]) (be_bytes 2 size ++ be_bytes 4 0 ++ be_bytes 2 0) m DNS_TYPE_OPT) by
    first [rewrite Hm; by rewrite <- app_assoc | by len_simpl | done].
  cbn [ok_or res_bind]. rewrite usize_add_eq by lia. cbn [ok_or res_bind].
  rewrite (dns_u16_eq (x ++ x00 :: be_bytes 2 DNS_TYPE_OPT) (be_bytes 4 0 ++ be_bytes 2 0) m size) by
    first [rewrite Hm; by rewrite <- app_assoc | by (len_simpl; lia) | done].
  cbn [ok_or res_bind]. rewrite usize_add_eq by lia. cbn [ok_or res_bind].
  rewrite (dns_u32_eq (x ++ x00 :: be_bytes 2 DNS_TYPE_OPT ++ be_bytes 2 size) (be_bytes 2 0) m 0) by
    first [rewrite Hm; rewrite <- app_assoc; cbn [app]; by rewrite <- app_assoc | by (len_simpl; lia) | done].
  cbn [ok_or res_bind]. rewrite usize_add_eq by lia. cbn [ok_or res_bind].
  rewrite (dns_u16_eq (x ++ x00 :: be_bytes 2 DNS_TYPE_OPT ++ be_bytes 2 size ++ be_bytes 4 0) [] m 0) by
    first [rewrite Hm; rewrite <- app_assoc; cbn [app]; by rewrite <- !app_assoc, app_nil_r | by (len_simpl; lia) | done].
  cbn [ok_or res_bind]. rewrite !usize_add_eq by lia. cbn [ok_or res_bind]. unfold keep_if. rewrite usize_add_eq by lia.
  cbn [mbind option_bind]. guard_true by lia. cbn. by replace (o + 10 + 0) with (len m) by lia.
Qed.

Lemma flags_in_u16 rd : in_u16 (query_flags rd).
Proof. destruct rd; done. Qed.

Section Client.
Context (i : Z) (rd : bool) (ls : list str) (t : Z) (opt : option Z).
Context (Hi : in_u16 i) (Ht : in_u16 t) (Hls : Forall label_ok ls) (Hb : len (encode_name ls) <= 255)
  (Hopt : forall size, opt = Some size -> in_u16 size).
Let m := encode_query i rd ls t opt.
Let question_end := 16 + len (encode_name ls).

Lemma client_len :
  len m = question_end + match opt with Some _ => 11 | None => 0 end /\ len m <= usize_max /\ question_end <= len m.
Proof.
  unfold m, encode_query, query_head, encode_question. len_simpl. pose proof (len_nonneg (encode_name ls)).
  unfold question_end, usize_max, u64_max. destruct opt as [size|]; [change (len (default [] _)) with (len (opt_record size))|];
    rewrite ?len_opt_record; [lia|]. change (len (default [] _)) with 0. lia.
Qed.

(** The six fields of the header *)
Lemma client_field k x y z :
  m = x ++ be_bytes 2 z ++ y -> len x = k -> in_u16 z -> dns_u16 m k = Some z.
Proof. intros. eapply dns_u16_eq; [done..|]. apply client_len. Qed.

Lemma client_prefix :
  parse_dns_query_prefix m
  = Ok (mkDnsOutboundQuery i (query_flags rd) (to_ascii_lowercase (name_text ls)) t DNS_CLASS_IN 1
          question_end question_end None 0 None).
Proof.
  destruct client_len as (Hm & Hx & Hq). pose proof (len_nonneg (encode_name ls)). unfold parse_dns_query_prefix.
  guard_false by (unfold DNS_HEADER_LEN, question_end in *; lia).
  set (head := be_bytes 2 i ++ be_bytes 2 (query_flags rd)).
  set (tail := be_bytes 2 0 ++ be_bytes 2 0 ++ be_bytes 2 (match opt with Some _ => 1 | None => 0 end)
               ++ encode_question ls t ++ default [] (opt_record <$> opt)).
  assert (m = head ++ be_bytes 2 1 ++ tail) as Hp
    by (unfold m, encode_query, query_head, head, tail; by rewrite <- !app_assoc).
  rewrite (client_field 0 [] (be_bytes 2 (query_flags rd) ++ be_bytes 2 1 ++ tail) i) by
    first [rewrite Hp; unfold head; by rewrite <- app_assoc | done].
  rewrite (client_field 2 (be_bytes 2 i) (be_bytes 2 1 ++ tail) (query_flags rd)) by
    first [rewrite Hp; unfold head; by rewrite <- app_assoc | apply flags_in_u16 | by len_simpl].
  rewrite (client_field 4 head tail 1) by first [done | unfold head; by len_simpl]. cbn [ok_or res_bind].
  guard_false by done. unfold DNS_HEADER_LEN.
  assert (m = query_head i rd opt ++ encode_name ls ++ be_bytes 2 t ++ be_bytes 2 DNS_CLASS_IN ++ default [] (opt_record <$> opt))
    as Hn by (unfold m, encode_query, encode_question; by rewrite <- !app_assoc).
  assert (len (query_head i rd opt) = 12) as Hh by (unfold query_head; by len_simpl).
  rewrite <- Hh at 1. erewrite (read_name_encoded m (query_head i rd opt) ls) by done. rewrite Hh. cbn [res_bind default].
  rewrite (client_field (12 + len (encode_name ls)) (query_head i rd opt ++ encode_name ls)
             (be_bytes 2 DNS_CLASS_IN ++ default [] (opt_record <$> opt)) t) by
    first [rewrite Hn; by rewrite <- app_assoc | len_simpl; lia | done].
  cbn [ok_or res_bind]. rewrite !usize_add_eq by (unfold question_end in *; lia). cbn [ok_or res_bind].
  rewrite (client_field (12 + len (encode_name ls) + 2) (query_head i rd opt ++ encode_name ls ++ be_bytes 2 t)
             (default [] (opt_record <$> opt)) DNS_CLASS_IN) by
    first [rewrite Hn; by rewrite <- !app_assoc | len_simpl; lia | done].
  cbn [ok_or res_bind]. unfold Datatypes.id.
  assert (bool_decide (append_labels [] ls = []) = bool_decide (ls = [])) as ->
    by (apply bool_decide_ext; rewrite append_labels_empty by done; naive_solver).
  assert ((if bool_decide (ls = []) then append_labels [] ls ++ [dot] else append_labels [] ls) = name_text ls) as ->
    by (unfold name_text; case_bool_decide; by subst).
  replace (12 + len (encode_name ls) + 4) with question_end by (unfold question_end; lia).
  by destruct rd.
Qed.

Lemma client_counts :
  dns_u16 m 6 = Some 0 /\ dns_u16 m 8 = Some 0 /\ dns_u16 m 10 = Some (match opt with Some _ => 1 | None => 0 end).
Proof.
  set (front := be_bytes 2 i ++ be_bytes 2 (query_flags rd) ++ be_bytes 2 1).
  set (back := encode_question ls t ++ default [] (opt_record <$> opt)).
  set (count := match opt with Some _ => 1 | None => 0 end).
  assert (m = front ++ be_bytes 2 0 ++ be_bytes 2 0 ++ be_bytes 2 count ++ back) as Hp
    by (unfold m, encode_query, query_head, front, back; by rewrite <- !app_assoc).
  split_and!.
  - by apply (client_field 6 front (be_bytes 2 0 ++ be_bytes 2 count ++ back)).
  - apply (client_field 8 (front ++ be_bytes 2 0) (be_bytes 2 count ++ back)); [by rewrite <- app_assoc | done | done].
  - apply (client_field 10 (front ++ be_bytes 2 0 ++ be_bytes 2 0) back); [by rewrite <- !app_assoc | done |].
    by unfold count; destruct opt.
Qed.

Lemma client_query :
  parse_dns_query m
  = Ok (mkDnsOutboundQuery i (query_flags rd) (to_ascii_lowercase (name_text ls)) t DNS_CLASS_IN 1
          question_end question_end opt 0 None).
Proof.
  destruct client_len as (Hm & Hx & Hq). destruct client_counts as (H6 & H8 & H10).
  unfold parse_dns_query. rewrite client_prefix. cbn [res_bind]. unfold validate_dns_query_envelope.
  cbn [domain_error request_flags question_count first_question_end hijack_unsafe res_bind].
  guard_false by (by destruct rd). guard_false by (by destruct rd). guard_false by (by destruct rd).
  rewrite H6, H8, H10. cbn [ok_or res_bind]. change (Z.to_nat (1 - 1)) with 0%nat.
  change (Z.to_nat 0) with 0%nat. cbn [more_questions parse_resource_records res_bind Z.eqb negb orb]. unfold m in *. clear m. destruct opt as [size|].
  - change (Z.to_nat 1) with 1%nat. cbn [parse_resource_records].
    assert (len (query_head i rd (Some size) ++ encode_question ls t) = question_end) as He
      by (unfold query_head, encode_question, question_end; len_simpl; lia).
    rewrite <- He, (opt_record_read _ (query_head i rd (Some size) ++ encode_question ls t) size);
      [|unfold encode_query; by rewrite <- app_assoc | by apply Hopt | done].
    cbn [res_bind rs_offset rs_unsafe rs_size]. by guard_false by lia.
  - change (Z.to_nat 0) with 0%nat. cbn [parse_resource_records res_bind rs_offset rs_unsafe rs_size]. by guard_false by lia.
Qed.
End Client.

(** A client's query, with any id, any name of proper labels within 255 bytes, any type, recursion
    asked for or not and any EDNS payload size, is read back: parsed in full it has the same id, flags,
    lowercased dotted name, type and size and no reason against hijacking; a policy without rules
    hijacks it when it asks for an address and otherwise answers it with no error; and the answer built
    for a response code repeats the id and the question bytes and has the response flags set. *)
Theorem dns_query_roundtrip `{RegexEngine} `{KeywordEngine} i rd ls t opt code :
  in_u16 i -> in_u16 t -> Forall label_ok ls -> len (encode_name ls) <= 255 ->
  (forall size, opt = Some size -> in_u16 size) ->
  let m := encode_query i rd ls t opt in
  let question_end := 16 + len (encode_name ls) in
  parse_dns_query m
  = Ok (mkDnsOutboundQuery i (query_flags rd) (to_ascii_lowercase (name_text ls)) t DNS_CLASS_IN 1
          question_end question_end opt 0 None)
  /\ decide_message (mkPolicy []) m false = Ok (if is_address_qtype t then HijackDecision else ReturnDecision 0)
  /\ build_return_response m code
     = Ok (be_bytes 2 i ++ be_bytes 2 (Z.lor (Z.lor 0x8480 (query_flags rd)) code) ++ be_bytes 2 1 ++ replicate 6 x00
           ++ encode_question ls t).
Proof.
  intros Hi Ht Hls Hb Hopt m question_end.
  pose proof (client_query i rd ls t opt Hi Ht Hls Hb Hopt) as Hq.
  pose proof (client_prefix i rd ls t opt Hi Ht Hls Hb Hopt) as Hp. fold m question_end in Hq, Hp.
  split_and!; [done| |].
  - unfold parse_dns_query in Hq. unfold decide_message. rewrite Hp in Hq |- *. cbn [res_bind] in Hq |- *.
    cbn [selected_action List.find policy_rules qtype]. unfold selected_action. cbn [List.find policy_rules].
    destruct (is_address_qtype t) eqn:Ha; [|done]. cbn [negb]. rewrite Hq. cbn [res_bind].
    unfold decision_for_action. cbn [qtype]. by rewrite Ha.
  - unfold build_return_response. rewrite Hp. cbn [res_bind first_question_end request_flags].
    rewrite (slice_eq [] (query_head i rd opt ++ encode_question ls t) (default [] (opt_record <$> opt)) m) by
      first [unfold m, encode_query; by rewrite <- app_assoc | done
            | unfold query_head, encode_question, question_end; len_simpl; lia].
    cbn [res_bind]. guard_false by (unfold query_head, encode_question; len_simpl; pose proof (len_nonneg (encode_name ls)); lia).
    assert (take 2 (query_head i rd opt ++ encode_question ls t) = be_bytes 2 i) as ->
      by (unfold query_head; by rewrite <- !app_assoc).
    assert (drop 12 (query_head i rd opt ++ encode_question ls t) = encode_question ls t) as -> by by apply drop_app_length'.
    by destruct rd.
Qed.

(** ** The theorems at work *)

Definition example_labels : list str := [str_of "www"; str_of "Example"; str_of "com"].

(** One rule answers types 2 to 15 of [example.com] with code 3. *)
Definition example_settings : @DnsOutboundSettings literal_regex scan_automaton :=
  mkDnsOutboundSettings None None 0 0
    [mkDnsOutboundRule Return 3 [mkDnsQTypeRange 5 15; mkDnsQTypeRange 2 4] None].

Lemma dns_query_roundtrip_witness :
  decide_message (mkPolicy (H := literal_regex) (H0 := scan_automaton) []) (encode_query 7 true example_labels DNS_TYPE_A (Some 1232)) false
  = Ok HijackDecision.
Proof.
  eapply (dns_query_roundtrip 7 true example_labels DNS_TYPE_A (Some 1232) 0);
    [done | done | repeat constructor; by vm_compute | by vm_compute | by intros size [= <-]].
Defined.

Lemma policy_follows_settings_witness :
  decide_message (policy_new example_settings) (encode_query 7 true example_labels 6 None) false = Ok (ReturnDecision 3).
Proof.
  destruct (is_ok_exists (parse_dns_query_prefix (encode_query 7 true example_labels 6 None))) as [q Hq]; [by vm_compute|].
  rewrite (policy_follows_settings example_settings _ q); [..| |].
  all: vm_compute in Hq; injection Hq as <-; try done.
  all: repeat constructor; vm_compute; done.
Defined.
