(* ===== verification/DnsMessage.v ===== *)
(** DNS messages as the client of [crates/xray-transport/src/dns.rs] writes and reads them: queries
    with their OPT record, the check that a response belongs to a query, and the reader of
    responses with its CNAME chains. *)
From Stdlib Require Import Strings.Byte Strings.String.
From S2P Require Import Prelude Net IpRangeSet Utf8 TlsHello DnsOutbound.

(** [io::Error] as the module makes it: a kind and a message. *)
Inductive IoKind := InvalidInputKind | InvalidDataKind | TimedOutKind | NotConnectedKind | OtherKind.
Record DnsIoError := mkDnsIoError { dns_kind : IoKind; dns_message : string }.

Definition invalid_dns_response (message : string) : DnsIoError := mkDnsIoError InvalidDataKind message.
Definition invalid_input (message : string) : DnsIoError := mkDnsIoError InvalidInputKind message.

(** Durations are in nanoseconds. *)
Definition from_secs (s : Z) : Z := s * 1000000000.
Definition DNS_DEFAULT_TTL : Z := from_secs 300.
Definition MAX_DNS_ALIAS_DEPTH : nat := 8.

Inductive DnsRecordType := A | Aaaa.
Definition code (t : DnsRecordType) : Z := match t with A => 1 | Aaaa => 28 end.

(** ** Queries *)

(** The client subnet and the padding as options, with [u16::try_from]. *)
Definition OPTION_CLIENT_SUBNET : Z := 8.
Definition OPTION_PADDING : Z := 12.

Definition try_u16 (z : Z) : option Z := if (0 <=? z) && (z <=? u16_max) then Some z else None.

Definition client_subnet_option (ip : IpAddr) : list byte :=
  let '(family, prefix, address) :=
    match canonicalize_ip ip with
    | V4 ip => (1, 24, take 3 (octets4 ip))
    | V6 ip => (2, 96, take 12 (octets6 ip))
    end in
  be_bytes 2 OPTION_CLIENT_SUBNET ++ be_bytes 2 (4 + len address) ++ be_bytes 2 family ++ [to_u8 prefix; x00] ++ address.

Definition edns_opt_record (client_ip : option IpAddr) (padding : Z) : option (list byte) :=
  if bool_decide (client_ip = None) && (padding =? 0) then None
  else
    let options := match client_ip with Some ip => client_subnet_option ip | None => [] end in
    options ← (if negb (padding =? 0)
               then size ← try_u16 padding;
                    Some (options ++ be_bytes 2 OPTION_PADDING ++ be_bytes 2 size ++ replicate (Z.to_nat padding) x00)
               else Some options);
    size ← try_u16 (len options);
    Some (x00 :: be_bytes 2 41 ++ be_bytes 2 1350 ++ be_bytes 4 0xE0008000 ++ be_bytes 2 size ++ options).

Definition normalize_dns_name (domain : str) : option str :=
  let normalized := to_ascii_lowercase (trim_end_dots domain) in
  if bool_decide (normalized = []) then None else Some normalized.

(** The loop over the labels. *)
Fixpoint push_labels (query : list byte) (labels : list str) : res DnsIoError (list byte) :=
  match labels with
  | [] => Ok query
  | label :: labels =>
    if bool_decide (label = []) || (63 <? len label)
    then Err (invalid_input "dns query domain has invalid label")
    else push_labels (query ++ to_u8 (len label) :: label) labels
  end.

Definition build_dns_query_with_id (domain : str) (record_type : DnsRecordType) (id : Z) (edns : option (list byte))
    : res DnsIoError (list byte) :=
  let normalized_domain := trim_end_dots domain in
  if bool_decide (normalized_domain = []) then Err (invalid_input "dns query domain cannot be empty")
  else
    let query := be_bytes 2 id ++ be_bytes 2 0x0100 ++ be_bytes 2 1 ++ be_bytes 2 0 ++ be_bytes 2 0
                 ++ be_bytes 2 (match edns with Some _ => 1 | None => 0 end) in
    let? query := push_labels query (split_on dot normalized_domain) in
    Ok (query ++ [x00] ++ be_bytes 2 (code record_type) ++ be_bytes 2 1 ++ default [] edns).

(** ** Reading *)

(** [read_u16] and [read_u32] *)
Definition packet_u16 (packet : list byte) (offset : Z) : res DnsIoError Z :=
  let? bytes := ok_or (get_range packet offset (offset + 2)) (invalid_dns_response "truncated u16") in Ok (from_be bytes).
Definition packet_u32 (packet : list byte) (offset : Z) : res DnsIoError Z :=
  let? bytes := ok_or (get_range packet offset (offset + 4)) (invalid_dns_response "truncated u32") in Ok (from_be bytes).

(** [labels.join(".")] *)
Fixpoint join_dots (labels : list str) : str :=
  match labels with
  | [] => []
  | [l] => l
  | l :: ls => l ++ dot :: join_dots ls
  end.

Definition ensure {E} (b : bool) (e : E) : res E unit := if b then Ok tt else Err e.

(** The turns of the loop: the labels so far, the cursor, whether a pointer was followed, and the
    offset behind the name. *)
Fixpoint limited_loop (turns : nat) (packet : list byte) (limit : Z) (labels : list str) (cursor : Z) (jumped : bool)
    (offset : Z) : res DnsIoError (str * Z) :=
  match turns with
  | O => Err (invalid_dns_response "dns name pointer loop")
  | S turns =>
    let? _ := ensure (jumped || (cursor <? limit)) (invalid_dns_response "truncated dns name") in
    let? length := ok_or (get packet cursor) (invalid_dns_response "truncated dns name") in
    if Z.land (u8 length) 0xC0 =? 0xC0 then
      let? _ := ensure (jumped || (cursor + 2 <=? limit)) (invalid_dns_response "truncated dns name pointer") in
      let? next := ok_or (get packet (cursor + 1)) (invalid_dns_response "truncated dns name pointer") in
      limited_loop turns packet limit labels (Z.lor (Z.shiftl (Z.land (u8 length) 0x3F) 8) (u8 next)) true
        (if jumped then offset else cursor + 2)
    else if u8 length =? 0 then Ok (join_dots labels, if jumped then offset else cursor + 1)
    else
      let? _ := ensure (Z.land (u8 length) 0xC0 =? 0) (invalid_dns_response "unsupported dns label encoding") in
      let cursor := cursor + 1 in
      let? label_end := ok_or (usize_add cursor (u8 length)) (invalid_dns_response "dns label overflow") in
      let? _ := ensure (jumped || (label_end <=? limit)) (invalid_dns_response "truncated dns label") in
      let? _ := ensure (label_end <=? len packet) (invalid_dns_response "truncated dns label") in
      let? bytes := slice packet cursor label_end in
      let? label := ok_or (from_utf8 bytes) (invalid_dns_response "dns label is not utf-8") in
      limited_loop turns packet limit (labels ++ [to_ascii_lowercase label]) label_end jumped offset
  end.

Definition read_dns_name_limited (packet : list byte) (offset limit : Z) : res DnsIoError (str * Z) :=
  if (len packet <? limit) || (limit <? offset) then Err (invalid_dns_response "invalid dns name limit")
  else limited_loop 32 packet limit [] offset false offset.

(** [read_dns_name]: the name and the offset behind it *)
Definition read_dns_name (packet : list byte) (offset : Z) : res DnsIoError (str * Z) :=
  read_dns_name_limited packet offset (len packet).

Definition read_dns_question (packet : list byte) (offset : Z) : res DnsIoError ((str * Z * Z) * Z) :=
  let? (name, offset) := read_dns_name packet offset in
  let? record_type := packet_u16 packet offset in
  let? record_class := packet_u16 packet (offset + 2) in
  let? offset := ok_or (usize_add offset 4) (invalid_dns_response "dns question overflow") in
  if len packet <? offset then Err (invalid_dns_response "truncated dns question")
  else Ok ((name, record_type, record_class), offset).

Definition parse_dns_question (packet : list byte) : res DnsIoError (str * Z * Z) :=
  let? question_count := packet_u16 packet 4 in
  if negb (question_count =? 1) then Err (invalid_dns_response "dns query must have one question")
  else let? (question, _) := read_dns_question packet 12 in Ok question.

(** [result.is_ok_and(f)] and [let Ok(x) = result else { return false }] *)
Definition is_ok_and {E T} (m : res E T) (f : T -> res E bool) : res E bool :=
  match m with Ok a => f a | Err _ => Ok false | Panic => Panic end.

Definition dns_response_matches_query (query response : list byte) : res DnsIoError bool :=
  if (len query <? 12) || (len response <? 12) then Ok false
  else
    let? query_id := slice query 0 2 in
    let? response_id := slice response 0 2 in
    if bool_decide (query_id <> response_id) then Ok false
    else
      is_ok_and (packet_u16 query 2) (fun query_flags =>
      is_ok_and (packet_u16 response 2) (fun response_flags =>
      if negb (Z.land query_flags 0x8000 =? 0) || (Z.land response_flags 0x8000 =? 0)
         || negb (Z.land query_flags 0x7800 =? Z.land response_flags 0x7800)
      then Ok false
      else
        is_ok_and (parse_dns_question query) (fun expected_question =>
        is_ok_and (packet_u16 response 4) (fun question_count =>
        if negb (question_count =? 1) then Ok false
        else is_ok_and (read_dns_question response 12) (fun '(question, _) =>
               Ok (bool_decide (question = expected_question))))))).

(** ** Responses *)

Record ConfiguredDnsAddresses := mkDnsAddresses { answer_addresses : list IpAddr; answer_ttl : Z }.

Inductive ConfiguredDnsAnswer :=
| Addresses (answer : ConfiguredDnsAddresses)
| Cname (alias : str) (ttl : Z).

Inductive ParsedDnsResponse :=
| Answer (answer : ConfiguredDnsAnswer)
| NoData
| NameError
| ServerFailure (response_code : Z)
| Truncated.

Record ParsedDnsAddress := mkParsedAddress { address_owner : str; address : IpAddr }.
Record ParsedDnsCname := mkParsedCname { cname_owner : str; alias_name : str }.

(** The turns of the loop over the aliases, from [depth] on. *)
Fixpoint answers_loop (turns depth : nat) (addresses : list ParsedDnsAddress) (cnames : list ParsedDnsCname) (ttl : Z)
    (current_name : str) (visited : list str) (followed_cname : bool) : res DnsIoError ParsedDnsResponse :=
  match turns with
  | O => Err (invalid_dns_response "DNS CNAME chain exceeds the depth limit")
  | S turns =>
    let matched_addresses :=
      map address (List.filter (fun record => eq_ignore_ascii_case (address_owner record) current_name) addresses) in
    if negb (bool_decide (matched_addresses = [])) then Ok (Answer (Addresses (mkDnsAddresses matched_addresses ttl)))
    else
      match List.filter (fun record => eq_ignore_ascii_case (cname_owner record) current_name) cnames with
      | [] =>
        if followed_cname then Ok (Answer (Cname current_name ttl))
        else if bool_decide (addresses = []) && bool_decide (cnames = []) then Ok NoData
        else Err (invalid_dns_response "DNS response contains no answer for the requested name")
      | first_alias :: matching_aliases =>
        if existsb (fun record => negb (eq_ignore_ascii_case (alias_name record) (alias_name first_alias))) matching_aliases
        then Err (invalid_dns_response "DNS response contains conflicting CNAME targets")
        else if (depth =? MAX_DNS_ALIAS_DEPTH)%nat then Err (invalid_dns_response "DNS CNAME chain exceeds the depth limit")
        else if existsb (fun name => eq_ignore_ascii_case name (alias_name first_alias)) visited
        then Err (invalid_dns_response "DNS CNAME chain contains a cycle")
        else
          answers_loop turns (S depth) addresses cnames ttl (alias_name first_alias)
            (visited ++ [alias_name first_alias]) true
      end
  end.

Definition resolve_parsed_dns_answers (expected_name : str) (addresses : list ParsedDnsAddress)
    (cnames : list ParsedDnsCname) (ttl : Z) : res DnsIoError ParsedDnsResponse :=
  answers_loop (S MAX_DNS_ALIAS_DEPTH) 0 addresses cnames ttl expected_name [expected_name] false.

(** What the answers read so far leave behind. *)
Record AnswerState := mkAnswerState {
  as_offset : Z;
  response_ttl : option Z;
  parsed_addresses : list ParsedDnsAddress;
  parsed_cnames : list ParsedDnsCname
}.

(** The eight segments of an AAAA record *)
Definition read_ipv6_rdata (packet : list byte) (offset : Z) : res DnsIoError Z :=
  let? s0 := packet_u16 packet offset in
  let? s1 := packet_u16 packet (offset + 2) in
  let? s2 := packet_u16 packet (offset + 4) in
  let? s3 := packet_u16 packet (offset + 6) in
  let? s4 := packet_u16 packet (offset + 8) in
  let? s5 := packet_u16 packet (offset + 10) in
  let? s6 := packet_u16 packet (offset + 12) in
  let? s7 := packet_u16 packet (offset + 14) in
  Ok (ipv6 s0 s1 s2 s3 s4 s5 s6 s7).

Definition read_ipv4_rdata (packet : list byte) (offset : Z) : res DnsIoError Z :=
  let? a := index packet offset in
  let? b := index packet (offset + 1) in
  let? c := index packet (offset + 2) in
  let? d := index packet (offset + 3) in
  Ok (ipv4 (u8 a) (u8 b) (u8 c) (u8 d)).

(** An address record of the requested type *)
Definition read_address (packet : list byte) (requested_type : DnsRecordType) (owner : str) (offset data_len : Z)
    : res DnsIoError (list ParsedDnsAddress) :=
  match requested_type with
  | A =>
    if data_len =? 4 then
      let? ip := read_ipv4_rdata packet offset in
      Ok [mkParsedAddress owner (V4 ip)]
    else Err (invalid_dns_response "DNS address record has an invalid RDATA length")
  | Aaaa =>
    if data_len =? 16 then
      let? ip := read_ipv6_rdata packet offset in
      Ok (match to_ipv4_mapped ip with None => [mkParsedAddress owner (V6 ip)] | Some _ => [] end)
    else Err (invalid_dns_response "DNS address record has an invalid RDATA length")
  end.

(** One turn of the loop over the answers *)
Definition read_answer (packet : list byte) (requested_type : DnsRecordType) (s : AnswerState)
    : res DnsIoError AnswerState :=
  let? (owner_name, offset) := read_dns_name packet (as_offset s) in
  let? record_type := packet_u16 packet offset in
  let? record_class := packet_u16 packet (offset + 2) in
  let? seconds := packet_u32 packet (offset + 4) in
  let ttl := from_secs (Z.max seconds 1) in
  let ttl := Some (match response_ttl s with Some current => Z.min current ttl | None => ttl end) in
  let? data_len := packet_u16 packet (offset + 8) in
  let? offset := ok_or (usize_add offset 10) (invalid_dns_response "dns answer overflow") in
  let? data_end := ok_or (usize_add offset data_len) (invalid_dns_response "dns rdata overflow") in
  if len packet <? data_end then Err (invalid_dns_response "truncated dns rdata")
  else if (record_class =? 1) && (record_type =? code requested_type) then
    let? found := read_address packet requested_type owner_name offset data_len in
    Ok (mkAnswerState data_end ttl (parsed_addresses s ++ found) (parsed_cnames s))
  else if (record_class =? 1) && (record_type =? 5) then
    let? (alias, cname_offset) := read_dns_name_limited packet offset data_end in
    if negb (cname_offset =? data_end) then Err (invalid_dns_response "dns cname rdata length mismatch")
    else Ok (mkAnswerState data_end ttl (parsed_addresses s) (parsed_cnames s ++ [mkParsedCname owner_name alias]))
  else Ok (mkAnswerState data_end ttl (parsed_addresses s) (parsed_cnames s)).

Fixpoint read_answers (answer_count : nat) (packet : list byte) (requested_type : DnsRecordType) (s : AnswerState)
    : res DnsIoError AnswerState :=
  match answer_count with
  | O => Ok s
  | S n => let? s := read_answer packet requested_type s in read_answers n packet requested_type s
  end.

Definition parse_dns_response (query packet : list byte) (requested_type : DnsRecordType)
    : res DnsIoError ParsedDnsResponse :=
  let mismatch := invalid_dns_response "DNS response header or transaction ID does not match" in
  if (len packet <? 12) || (len query <? 2) then Err mismatch
  else
    let? packet_id := slice packet 0 2 in
    let? query_id := slice query 0 2 in
    if bool_decide (packet_id <> query_id) then Err mismatch
    else
      let? flags := packet_u16 packet 2 in
      if Z.land flags 0x8000 =? 0 then Err (invalid_dns_response "DNS packet is not a response")
      else
        let? (expected_question, expected_type, expected_class) := parse_dns_question query in
        if negb (expected_type =? code requested_type) || negb (expected_class =? 1)
        then Err (invalid_dns_response "DNS query type or class is invalid")
        else
          let? question_count := packet_u16 packet 4 in
          if negb (question_count =? 1) then Err (invalid_dns_response "DNS response must repeat exactly one question")
          else
            let? answer_count := packet_u16 packet 6 in
            let? ((response_question, response_type, response_class), offset) := read_dns_question packet 12 in
            if bool_decide (response_question <> expected_question) || negb (response_type =? expected_type)
               || negb (response_class =? expected_class)
            then Err (invalid_dns_response "DNS response question does not match")
            else
              let response_code := Z.land flags 0x000F in
              if response_code =? 3 then Ok NameError
              else if negb (response_code =? 0) then Ok (ServerFailure response_code)
              else if negb (Z.land flags 0x0200 =? 0) then Ok Truncated
              else
                let? s := read_answers (Z.to_nat answer_count) packet requested_type (mkAnswerState offset None [] []) in
                resolve_parsed_dns_answers expected_question (parsed_addresses s) (parsed_cnames s)
                  (default DNS_DEFAULT_TTL (response_ttl s)).

(** ** No message upsets the reader *)

Lemma ensure_safe {E} b (e : E) : ensure b e <> Panic.
Proof. by destruct b. Qed.
Lemma ensure_ok {E} b (e : E) : b = true -> ensure b e = Ok tt.
Proof. by intros ->. Qed.
Lemma ensure_true {E} b (e : E) u : ensure b e = Ok u -> b = true.
Proof. by destruct b. Qed.
#[export] Hint Resolve ensure_safe : rust.

Lemma packet_u16_safe p i : packet_u16 p i <> Panic.
Proof. unfold packet_u16. walk. Qed.
Lemma packet_u32_safe p i : packet_u32 p i <> Panic.
Proof. unfold packet_u32. walk. Qed.
#[export] Hint Resolve packet_u16_safe packet_u32_safe : rust.

Lemma packet_u16_inv p i z : packet_u16 p i = Ok z -> in_u16 z /\ 0 <= i /\ i + 2 <= len p.
Proof.
  unfold packet_u16. intros (l & Hl & E)%res_bind_ok_inv. apply ok_or_inv, get_range_some in Hl as (? & ? & Hl).
  apply Ok_inj in E as <-. pose proof (from_be_range l) as Hr. rewrite Hl in Hr.
  replace (i + 2 - i) with 2 in Hr by lia. split; [exact Hr | lia].
Qed.

Lemma limited_loop_safe turns p limit labels cursor jumped offset :
  limited_loop turns p limit labels cursor jumped offset <> Panic.
Proof.
  revert labels cursor jumped offset. induction turns as [|turns IH]; intros labels cursor jumped offset; [done|].
  cbn [limited_loop]. walk. apply get_some_range in Ha0. apply usize_add_some in Ha2 as ->. pose proof (u8_range a0).
  apply ensure_true in Ha4. apply slice_no_panic; lia.
Qed.

Lemma read_name_limited_safe p offset limit : read_dns_name_limited p offset limit <> Panic.
Proof. unfold read_dns_name_limited. case_if; [done | apply limited_loop_safe]. Qed.
Lemma read_name_safe p offset : read_dns_name p offset <> Panic.
Proof. apply read_name_limited_safe. Qed.
#[export] Hint Resolve read_name_limited_safe read_name_safe : rust.

Lemma read_question_safe p offset : read_dns_question p offset <> Panic.
Proof. unfold read_dns_question. walk. Qed.
#[export] Hint Resolve read_question_safe : rust.

Lemma parse_question_safe p : parse_dns_question p <> Panic.
Proof. unfold parse_dns_question. walk. Qed.
#[export] Hint Resolve parse_question_safe : rust.

Lemma ipv6_rdata_safe p offset : read_ipv6_rdata p offset <> Panic.
Proof. unfold read_ipv6_rdata. walk. Qed.
#[export] Hint Resolve ipv6_rdata_safe : rust.

Lemma read_answer_safe p t s : read_answer p t s <> Panic.
Proof.
  unfold read_answer. walk. apply packet_u16_inv in Ha0, Ha3. apply usize_add_some in Ha4 as ->.
  apply usize_add_some in Ha5 as ->. unfold read_address. destruct t; walk; unbool; apply index_no_panic; lia.
Qed.
#[export] Hint Resolve read_answer_safe : rust.

Lemma read_answers_safe n p t s : read_answers n p t s <> Panic.
Proof. revert s. induction n as [|n IH]; intros s; cbn [read_answers]; walk. Qed.

Lemma answers_loop_safe turns depth addresses cnames ttl name visited followed :
  answers_loop turns depth addresses cnames ttl name visited followed <> Panic.
Proof.
  revert depth name visited followed. induction turns as [|turns IH]; intros depth name visited followed; [done|].
  cbn [answers_loop]. cbv zeta. destruct (negb _); [done|]. destruct (List.filter _ cnames); walk.
Qed.
#[export] Hint Resolve read_answers_safe answers_loop_safe : rust.

Lemma parse_response_safe q p t : parse_dns_response q p t <> Panic.
Proof.
  unfold parse_dns_response. walk; [unbool; apply slice_no_panic; lia.. | apply answers_loop_safe].
Qed.

Lemma is_ok_and_safe {E T} (m : res E T) f : m <> Panic -> (forall a, f a <> Panic) -> is_ok_and m f <> Panic.
Proof. intros Hm Hf. destruct m; [apply Hf | done | done]. Qed.

Lemma matches_query_safe q p : dns_response_matches_query q p <> Panic.
Proof.
  unfold dns_response_matches_query.
  walk; repeat first [unbool; apply slice_no_panic; lia | done | case_if | apply is_ok_and_safe; [auto with rust nocore|]; intros].
  by destruct a5.
Qed.

(** ** Names *)

Lemma join_dots_cons l ls : ls <> [] -> join_dots (l :: ls) = l ++ dot :: join_dots ls.
Proof. by destruct ls. Qed.

Lemma is_utf8_lower l : is_utf8 l = true -> is_utf8 (to_ascii_lowercase l) = true.
Proof.
  unfold is_utf8. destruct (utf8_chars l) as [cs|] eqn:E; [|done]. intros _. by rewrite (utf8_lower l cs E).
Qed.

(** A turn over one label *)
Lemma limited_loop_label turns m x l y limit labels jumped offset :
  m = x ++ encode_label l ++ y -> label_ok l -> len m <= usize_max -> (jumped = false -> len x + 1 + len l <= limit) ->
  limited_loop (S turns) m limit labels (len x) jumped offset
  = limited_loop turns m limit (labels ++ [to_ascii_lowercase l]) (len (x ++ encode_label l)) jumped offset.
Proof.
  intros Hm (Hl & Hu & _) Hx Hlim. cbn [limited_loop].
  assert (len x + 1 + len l <= len m) as Hfit by (rewrite Hm; unfold encode_label; len_simpl; pose proof (len_nonneg y); lia).
  rewrite ensure_ok by (destruct jumped; [done | specialize (Hlim eq_refl); lia]).
  rewrite (get_eq x (l ++ y) m (to_u8 (len l)) (len x)) by done. cbn [ok_or res_bind].
  rewrite u8_to_u8_small, land_label by lia. guard_false by done. guard_false by lia.
  rewrite (ensure_ok (0 =? 0)) by done. cbv zeta. rewrite usize_add_eq by lia. cbn [ok_or res_bind].
  rewrite ensure_ok by (destruct jumped; [done | specialize (Hlim eq_refl); lia]).
  rewrite ensure_ok by lia. cbn [res_bind].
  rewrite (slice_eq (x ++ [to_u8 (len l)]) l y m) by first [rewrite Hm; by rewrite <- app_assoc | by len_simpl | lia].
  cbn [res_bind]. rewrite from_utf8_ok by done. cbn [ok_or res_bind].
  by replace (len x + 1 + len l) with (len (x ++ encode_label l)) by (unfold encode_label; len_simpl; lia).
Qed.

Lemma encode_name_cons l ls y : encode_name (l :: ls) ++ y = encode_label l ++ encode_name ls ++ y.
Proof. unfold encode_name. cbn [map concat]. by rewrite <- !app_assoc. Qed.

(** The labels of a name are read back, lowercased; a name that was reached by a pointer does not
    move the offset. *)
Lemma limited_loop_labels turns m x ls y limit labels jumped offset :
  m = x ++ encode_name ls ++ y -> Forall label_ok ls -> len m <= usize_max ->
  (jumped = false -> len x + len (encode_name ls) <= limit) -> (length ls < turns)%nat ->
  limited_loop turns m limit labels (len x) jumped offset
  = Ok (join_dots (labels ++ map to_ascii_lowercase ls), if jumped then offset else len x + len (encode_name ls)).
Proof.
  intros Hm Hls Hx. revert turns x labels Hm. induction Hls as [|l ls Hl Hls IH]; intros turns x labels Hm Hlim Ht;
    (destruct turns as [|turns]; [lia|]).
  - cbn [limited_loop]. change (len (encode_name [])) with 1 in *.
    rewrite ensure_ok by (destruct jumped; [done | specialize (Hlim eq_refl); lia]).
    rewrite (get_eq x y m x00 (len x)) by done. simpl. by rewrite app_nil_r.
  - rewrite len_encode_name_cons in *. pose proof (len_nonneg (encode_name ls)). rewrite encode_name_cons in Hm.
    rewrite (limited_loop_label turns m x l (encode_name ls ++ y)) by (done || intros Hj; specialize (Hlim Hj); lia).
    rewrite (IH turns (x ++ encode_label l)); [|by rewrite <- app_assoc | |simpl in Ht; lia].
    + f_equal. f_equal; [by rewrite <- app_assoc|]. destruct jumped; [done|]. unfold encode_label. len_simpl. lia.
    + intros Hj. specialize (Hlim Hj). unfold encode_label. len_simpl. lia.
Qed.

(** More labels than turns *)
Lemma limited_loop_long turns m x ls y labels offset :
  m = x ++ encode_name ls ++ y -> Forall label_ok ls -> len m <= usize_max -> (turns <= length ls)%nat ->
  limited_loop turns m (len m) labels (len x) false offset = Err (invalid_dns_response "dns name pointer loop").
Proof.
  intros Hm Hls Hx. revert turns x labels Hm. induction Hls as [|l ls Hl Hls IH]; intros turns x labels Hm Ht;
    (destruct turns as [|turns]; [done|]); [simpl in Ht; lia|].
  rewrite encode_name_cons in Hm.
  rewrite (limited_loop_label turns m x l (encode_name ls ++ y)); [|done..|].
  - apply IH; [by rewrite <- app_assoc | simpl in Ht; lia].
  - intros _. rewrite Hm. unfold encode_label. len_simpl. pose proof (len_nonneg (encode_name ls)). pose proof (len_nonneg y). lia.
Qed.

(** A name as text, lowercased *)
Definition dns_name (ls : list str) : str := join_dots (map to_ascii_lowercase ls).

Lemma read_limited_encoded m x ls y limit :
  m = x ++ encode_name ls ++ y -> Forall label_ok ls -> (length ls <= 31)%nat -> len m <= usize_max ->
  len x + len (encode_name ls) <= limit <= len m ->
  read_dns_name_limited m (len x) limit = Ok (dns_name ls, len x + len (encode_name ls)).
Proof.
  intros Hm Hls Hn Hx Hl. pose proof (len_nonneg (encode_name ls)). unfold read_dns_name_limited. guard_false by lia.
  apply (limited_loop_labels 32 m x ls y limit [] false (len x)); (done || lia).
Qed.

Lemma read_name_of_labels m x ls y :
  m = x ++ encode_name ls ++ y -> Forall label_ok ls -> (length ls <= 31)%nat -> len m <= usize_max ->
  read_dns_name m (len x) = Ok (dns_name ls, len x + len (encode_name ls)).
Proof.
  intros Hm Hls Hn Hx. eapply read_limited_encoded; [done..|]. rewrite Hm. len_simpl. pose proof (len_nonneg y). lia.
Qed.

(** A pointer to the question *)
Definition question_pointer : list byte := [xc0; x0c].

Lemma limited_loop_pointer turns m x y h ls z :
  m = x ++ question_pointer ++ y -> m = h ++ encode_name ls ++ z -> len h = 12 -> Forall label_ok ls ->
  (length ls < turns)%nat -> len m <= usize_max ->
  limited_loop (S turns) m (len m) [] (len x) false (len x) = Ok (dns_name ls, len x + 2).
Proof.
  intros Hm Hq Hh Hls Hn Hx.
  assert (len x + 2 <= len m) by (rewrite Hm; unfold question_pointer; len_simpl; pose proof (len_nonneg y); lia).
  cbn [limited_loop]. rewrite ensure_ok by lia. rewrite (get_eq x (x0c :: y) m xc0 (len x)) by done. cbn [ok_or res_bind].
  guard_true by done. rewrite ensure_ok by lia.
  rewrite (get_eq (x ++ [xc0]) y m x0c (len x + 1)) by first [by rewrite <- app_assoc | by len_simpl]. cbn [ok_or res_bind].
  change (Z.lor (Z.shiftl (Z.land (u8 xc0) 63) 8) (u8 x0c)) with 12. rewrite <- Hh.
  apply (limited_loop_labels turns m h ls z (len m) [] true); (done || lia).
Qed.

Lemma read_name_pointer m x y h ls z :
  m = x ++ question_pointer ++ y -> m = h ++ encode_name ls ++ z -> len h = 12 -> Forall label_ok ls ->
  (length ls <= 30)%nat -> len m <= usize_max -> read_dns_name m (len x) = Ok (dns_name ls, len x + 2).
Proof.
  intros Hm Hq Hh Hls Hn Hx. pose proof (len_nonneg y). unfold read_dns_name, read_dns_name_limited.
  guard_false by (rewrite Hm; unfold question_pointer; len_simpl; lia). apply (limited_loop_pointer 31 m x y h ls z); (done || lia).
Qed.

Lemma packet_u16_eq x y l z i : l = x ++ be_bytes 2 z ++ y -> len x = i -> in_u16 z -> packet_u16 l i = Ok z.
Proof.
  intros Hl Hi Hz. unfold packet_u16. rewrite (get_range_eq x (be_bytes 2 z) y l) by (done || len_simpl; lia).
  cbn [ok_or res_bind]. by rewrite from_be_bytes_small.
Qed.

Lemma packet_u32_eq x y l z i : l = x ++ be_bytes 4 z ++ y -> len x = i -> in_u32 z -> packet_u32 l i = Ok z.
Proof.
  intros Hl Hi Hz. unfold packet_u32. rewrite (get_range_eq x (be_bytes 4 z) y l) by (done || len_simpl; lia).
  cbn [ok_or res_bind]. by rewrite from_be_bytes_small.
Qed.

Lemma index_byte_eq {E T} (x y l : list T) a i : l = x ++ a :: y -> len x = i -> @index E T l i = Ok a.
Proof. intros ->. apply index_app_len. Qed.

(** ** Questions *)

Definition header (id flags answers authorities additionals : Z) : list byte :=
  be_bytes 2 id ++ be_bytes 2 flags ++ be_bytes 2 1 ++ be_bytes 2 answers ++ be_bytes 2 authorities ++ be_bytes 2 additionals.

Definition question (ls : list str) (t : DnsRecordType) : list byte :=
  encode_name ls ++ be_bytes 2 (code t) ++ be_bytes 2 1.

Lemma len_header id f an au ad : len (header id f an au ad) = 12.
Proof. unfold header. by len_simpl. Qed.

Lemma code_u16 t : in_u16 (code t).
Proof. by destruct t. Qed.

(** A message with a header and one question *)
Section Message.
Context (m rest : list byte) (i f an au ad : Z) (ls : list str) (t : DnsRecordType).
Context (Hm : m = header i f an au ad ++ question ls t ++ rest) (Hls : Forall label_ok ls) (Hn : (length ls <= 31)%nat)
  (Hx : len m <= usize_max).

Lemma message_len : 16 + len (encode_name ls) <= len m.
Proof. clear Hn. rewrite Hm. unfold header, question. len_simpl. pose proof (len_nonneg rest). lia. Qed.

Lemma message_question : read_dns_question m 12 = Ok ((dns_name ls, code t, 1), 16 + len (encode_name ls)).
Proof.
  pose proof message_len. pose proof (len_nonneg (encode_name ls)). unfold read_dns_question.
  assert (m = header i f an au ad ++ encode_name ls ++ be_bytes 2 (code t) ++ be_bytes 2 1 ++ rest) as Hq
    by (rewrite Hm; unfold question; by rewrite <- !app_assoc).
  rewrite <- (len_header i f an au ad), (read_name_of_labels m _ ls (be_bytes 2 (code t) ++ be_bytes 2 1 ++ rest)), len_header by done.
  cbn [res_bind].
  rewrite (packet_u16_eq (header i f an au ad ++ encode_name ls) (be_bytes 2 1 ++ rest) m (code t)) by
    first [by rewrite <- app_assoc | by rewrite len_app, len_header | apply code_u16].
  cbn [res_bind].
  rewrite (packet_u16_eq (header i f an au ad ++ encode_name ls ++ be_bytes 2 (code t)) rest m 1) by
    first [by rewrite <- !app_assoc | rewrite !len_app, len_header; len_simpl; lia | done].
  cbn [res_bind]. rewrite usize_add_eq by lia. cbn [ok_or res_bind]. guard_false by lia. f_equal. f_equal. lia.
Qed.

Lemma message_field k x y z : header i f an au ad = x ++ be_bytes 2 z ++ y -> len x = k -> in_u16 z -> packet_u16 m k = Ok z.
Proof. intros Hh Hk Hz. eapply (packet_u16_eq x); [rewrite Hm, Hh; by rewrite <- !app_assoc | done | done]. Qed.

Lemma message_id : @slice DnsIoError _ m 0 2 = Ok (be_bytes 2 i).
Proof. apply (slice_eq [] _ (drop 2 m)); [|done|by len_simpl]. rewrite Hm. unfold header. by rewrite <- !app_assoc. Qed.

Lemma message_fields :
  in_u16 f -> in_u16 an -> packet_u16 m 2 = Ok f /\ packet_u16 m 4 = Ok 1 /\ packet_u16 m 6 = Ok an.
Proof.
  intros Hf Han. split_and!.
  - by eapply (message_field 2 (be_bytes 2 i)).
  - apply (message_field 4 (be_bytes 2 i ++ be_bytes 2 f) (be_bytes 2 an ++ be_bytes 2 au ++ be_bytes 2 ad)); [|by len_simpl|done].
    unfold header. by rewrite <- !app_assoc.
  - apply (message_field 6 (be_bytes 2 i ++ be_bytes 2 f ++ be_bytes 2 1) (be_bytes 2 au ++ be_bytes 2 ad)); [|by len_simpl|done].
    unfold header. by rewrite <- !app_assoc.
Qed.

Lemma message_parse_question : in_u16 f -> in_u16 an -> parse_dns_question m = Ok (dns_name ls, code t, 1).
Proof.
  intros Hf Han. destruct (message_fields Hf Han) as (_ & H4 & _). unfold parse_dns_question.
  rewrite H4. cbn [res_bind]. guard_false by done. by rewrite message_question.
Qed.
End Message.

(** ** A server's answers *)

Inductive Owner := Literal (ls : list str) | Compressed.
Inductive Rdata := Ra (ip : Z) | Raaaa (ip : Z) | Rcname (ls : list str) | Rother (type : Z) (data : list byte).
Record Rr := mkRr { rr_owner : Owner; rr_ttl : Z; rr_data : Rdata }.

Definition owner_bytes (o : Owner) : list byte := match o with Literal ls => encode_name ls | Compressed => question_pointer end.
Definition rdata_type (d : Rdata) : Z := match d with Ra _ => 1 | Raaaa _ => 28 | Rcname _ => 5 | Rother type _ => type end.
Definition rdata_bytes (d : Rdata) : list byte :=
  match d with Ra ip => octets4 ip | Raaaa ip => octets6 ip | Rcname ls => encode_name ls | Rother _ data => data end.
Definition rr_bytes (r : Rr) : list byte :=
  owner_bytes (rr_owner r) ++ be_bytes 2 (rdata_type (rr_data r)) ++ be_bytes 2 1 ++ be_bytes 4 (rr_ttl r)
  ++ be_bytes 2 (len (rdata_bytes (rr_data r))) ++ rdata_bytes (rr_data r).

(** What a server may send: names the client can read, and no record of a type that is read as
    something else. *)
Definition name_ok (ls : list str) : Prop := Forall label_ok ls /\ (length ls <= 30)%nat.
Definition rdata_ok (d : Rdata) : Prop :=
  match d with
  | Ra ip => in_u32 ip
  | Raaaa ip => in_u128 ip
  | Rcname ls => name_ok ls /\ len (encode_name ls) <= u16_max
  | Rother type data => in_u16 type /\ type <> 1 /\ type <> 28 /\ type <> 5 /\ len data <= u16_max
  end.
Definition rr_ok (r : Rr) : Prop :=
  match rr_owner r with Literal ls => name_ok ls | Compressed => True end /\ in_u32 (rr_ttl r) /\ rdata_ok (rr_data r).

(** What the records say to a question for the name [qs] and the type [t]. *)
Definition owner_name (qs : list str) (o : Owner) : str := match o with Literal ls => dns_name ls | Compressed => dns_name qs end.
Definition rr_addresses (qs : list str) (t : DnsRecordType) (r : Rr) : list ParsedDnsAddress :=
  match t, rr_data r with
  | A, Ra ip => [mkParsedAddress (owner_name qs (rr_owner r)) (V4 ip)]
  | Aaaa, Raaaa ip => match to_ipv4_mapped ip with None => [mkParsedAddress (owner_name qs (rr_owner r)) (V6 ip)] | Some _ => [] end
  | _, _ => []
  end.
Definition rr_cnames (qs : list str) (r : Rr) : list ParsedDnsCname :=
  match rr_data r with Rcname ls => [mkParsedCname (owner_name qs (rr_owner r)) (dns_name ls)] | _ => [] end.
Definition rr_seconds (r : Rr) : Z := from_secs (Z.max (rr_ttl r) 1).
Definition min_ttl (ttl : option Z) (r : Rr) : option Z :=
  Some (match ttl with Some current => Z.min current (rr_seconds r) | None => rr_seconds r end).

Lemma ipv4_rdata_eq p x l y : p = x ++ l ++ y -> length l = 4%nat -> read_ipv4_rdata p (len x) = Ok (from_be l).
Proof.
  intros -> Hl. destruct l as [|a [|b [|c [|d [|]]]]]; try done. unfold read_ipv4_rdata. cbn [app].
  rewrite (index_app_len x (b :: c :: d :: y) a) by done. cbn [res_bind].
  rewrite (index_byte_eq (x ++ [a]) (c :: d :: y) _ b) by first [by rewrite <- app_assoc | by len_simpl]. cbn [res_bind].
  rewrite (index_byte_eq (x ++ [a; b]) (d :: y) _ c) by first [by rewrite <- app_assoc | by len_simpl]. cbn [res_bind].
  rewrite (index_byte_eq (x ++ [a; b; c]) y _ d) by first [by rewrite <- app_assoc | by len_simpl]. cbn [res_bind].
  reflexivity.
Qed.

Lemma pair_u16_eq p x a b y i : p = x ++ a :: b :: y -> len x = i -> packet_u16 p i = Ok (from_be [a; b]).
Proof. intros Hp Hi. unfold packet_u16. by rewrite (get_range_eq x [a; b] y p) by (done || len_simpl; lia). Qed.

Lemma ipv6_rdata_eq p x l y : p = x ++ l ++ y -> length l = 16%nat -> read_ipv6_rdata p (len x) = Ok (from_be l).
Proof.
  intros -> Hl. do 17 (destruct l as [|? l]; try done). clear Hl. unfold read_ipv6_rdata. cbn [app].
  erewrite (pair_u16_eq _ x) by done. cbn [res_bind].
  erewrite (pair_u16_eq _ (x ++ [_; _])) by first [by rewrite <- app_assoc | by len_simpl]. cbn [res_bind].
  erewrite (pair_u16_eq _ (x ++ [_; _; _; _])) by first [by rewrite <- app_assoc | by len_simpl]. cbn [res_bind].
  erewrite (pair_u16_eq _ (x ++ [_; _; _; _; _; _])) by first [by rewrite <- app_assoc | by len_simpl]. cbn [res_bind].
  erewrite (pair_u16_eq _ (x ++ [_; _; _; _; _; _; _; _])) by first [by rewrite <- app_assoc | by len_simpl]. cbn [res_bind].
  erewrite (pair_u16_eq _ (x ++ [_; _; _; _; _; _; _; _; _; _])) by first [by rewrite <- app_assoc | by len_simpl]. cbn [res_bind].
  erewrite (pair_u16_eq _ (x ++ [_; _; _; _; _; _; _; _; _; _; _; _])) by first [by rewrite <- app_assoc | by len_simpl]. cbn [res_bind].
  erewrite (pair_u16_eq _ (x ++ [_; _; _; _; _; _; _; _; _; _; _; _; _; _])) by first [by rewrite <- app_assoc | by len_simpl]. cbn [res_bind].
  f_equal. unfold ipv6, from_be. simpl. lia.
Qed.

Lemma owner_read m x y h qs z o :
  m = x ++ owner_bytes o ++ y -> m = h ++ encode_name qs ++ z -> len h = 12 -> name_ok qs ->
  match o with Literal ls => name_ok ls | Compressed => True end -> len m <= usize_max ->
  read_dns_name m (len x) = Ok (owner_name qs o, len x + len (owner_bytes o)).
Proof.
  intros Hm Hq Hh [Hqs Hn] Ho Hx. destruct o as [ls|].
  - destruct Ho as [Hls Hl]. eapply read_name_of_labels; (done || lia).
  - by eapply read_name_pointer.
Qed.

Lemma rdata_sizes d : rdata_ok d -> in_u16 (rdata_type d) /\ in_u16 (len (rdata_bytes d)).
Proof.
  unfold in_u16. destruct d as [ip|ip|ls|type data]; cbn [rdata_ok rdata_type rdata_bytes]; unfold u16_max in *.
  - unfold octets4. len_simpl. lia.
  - unfold octets6. len_simpl. lia.
  - pose proof (len_nonneg (encode_name ls)). lia.
  - pose proof (len_nonneg data). unfold in_u16. lia.
Qed.

Lemma read_answer_rr m x y h qs z t r ttl addresses cnames :
  m = x ++ rr_bytes r ++ y -> m = h ++ encode_name qs ++ z -> len h = 12 -> name_ok qs -> rr_ok r -> len m <= usize_max ->
  read_answer m t (mkAnswerState (len x) ttl addresses cnames)
  = Ok (mkAnswerState (len x + len (rr_bytes r)) (min_ttl ttl r) (addresses ++ rr_addresses qs t r) (cnames ++ rr_cnames qs r)).
Proof.
  intros Hm Hq Hh Hqs (Ho & Httl & Hd) Hx. unfold rr_bytes in *. set (ob := owner_bytes (rr_owner r)) in *.
  set (d := rdata_bytes (rr_data r)) in *. set (ty := rdata_type (rr_data r)) in *.
  assert (in_u16 ty /\ in_u16 (len d)) as [Hty Hdl] by by apply rdata_sizes.
  set (off := len x + len ob). pose proof (len_nonneg x). pose proof (len_nonneg ob). pose proof (len_nonneg d).
  assert (m = x ++ ob ++ be_bytes 2 ty ++ be_bytes 2 1 ++ be_bytes 4 (rr_ttl r) ++ be_bytes 2 (len d) ++ d ++ y) as Hf
    by (rewrite Hm; by rewrite <- !app_assoc).
  assert (off + 10 + len d <= len m) as Hfit by (rewrite Hf; unfold off; len_simpl; pose proof (len_nonneg y); lia).
  unfold read_answer. cbn [as_offset response_ttl parsed_addresses parsed_cnames].
  erewrite (owner_read m x _ h qs z (rr_owner r)); [|done..]. fold ob off. cbn [res_bind].
  rewrite (packet_u16_eq (x ++ ob) (be_bytes 2 1 ++ be_bytes 4 (rr_ttl r) ++ be_bytes 2 (len d) ++ d ++ y) m ty) by
    first [rewrite Hf; by rewrite <- !app_assoc | unfold off; by len_simpl | done].
  cbn [res_bind].
  rewrite (packet_u16_eq (x ++ ob ++ be_bytes 2 ty) (be_bytes 4 (rr_ttl r) ++ be_bytes 2 (len d) ++ d ++ y) m 1) by
    first [rewrite Hf; by rewrite <- !app_assoc | unfold off; len_simpl; lia | done].
  cbn [res_bind].
  rewrite (packet_u32_eq (x ++ ob ++ be_bytes 2 ty ++ be_bytes 2 1) (be_bytes 2 (len d) ++ d ++ y) m (rr_ttl r)) by
    first [rewrite Hf; by rewrite <- !app_assoc | unfold off; len_simpl; lia | done].
  cbn [res_bind].
  rewrite (packet_u16_eq (x ++ ob ++ be_bytes 2 ty ++ be_bytes 2 1 ++ be_bytes 4 (rr_ttl r)) (d ++ y) m (len d)) by
    first [rewrite Hf; by rewrite <- !app_assoc | unfold off; len_simpl; lia | done].
  cbn [res_bind]. rewrite usize_add_eq by lia. cbn [ok_or res_bind]. rewrite usize_add_eq by lia. cbn [ok_or res_bind].
  guard_false by lia. rewrite Z.eqb_refl. cbn [andb].
  set (front := x ++ ob ++ be_bytes 2 ty ++ be_bytes 2 1 ++ be_bytes 4 (rr_ttl r) ++ be_bytes 2 (len d)).
  assert (len front = off + 10) as Hfr by (unfold front, off; len_simpl; lia).
  assert (m = front ++ d ++ y) as Hfd by (rewrite Hf; unfold front; by rewrite <- !app_assoc).
  replace (len x + len (ob ++ be_bytes 2 ty ++ be_bytes 2 1 ++ be_bytes 4 (rr_ttl r) ++ be_bytes 2 (len d) ++ d))
    with (off + 10 + len d) by (unfold off; len_simpl; lia).
  rewrite <- Hfr in *. change (Some _) with (min_ttl ttl r) || idtac.
  unfold rr_addresses, rr_cnames. subst ty d. destruct (rr_data r) as [ip|ip|ls|type data]; cbn [rdata_type rdata_bytes] in *.
  - rewrite !app_nil_r. destruct t; cbn [code Z.eqb Pos.eqb]; [|by rewrite app_nil_r].
    unfold read_address. change (len (octets4 ip) =? 4) with true. cbn [res_bind].
    rewrite (ipv4_rdata_eq m front (octets4 ip) y) by done. cbn [res_bind].
    unfold octets4. rewrite from_be_bytes_small by done. done.
  - rewrite !app_nil_r. destruct t; cbn [code Z.eqb Pos.eqb]; [by rewrite app_nil_r|].
    unfold read_address. change (len (octets6 ip) =? 16) with true. cbn [res_bind].
    rewrite (ipv6_rdata_eq m front (octets6 ip) y) by done. cbn [res_bind].
    unfold octets6. rewrite from_be_bytes_small by done. done.
  - assert ((5 =? code t) = false) as -> by by destruct t. cbn [Z.eqb Pos.eqb]. destruct Hd as [[Hls Hn] _].
    rewrite (read_limited_encoded m front ls y) by (done || lia). cbn [res_bind]. guard_false by lia.
    destruct t; by rewrite app_nil_r.
  - destruct Hd as (_ & K1 & K28 & K5 & _). assert ((type =? code t) = false) as -> by (destruct t; simpl; lia).
    guard_false by lia. destruct t; by rewrite !app_nil_r.
Qed.

Definition answers_bytes (rs : list Rr) : list byte := concat (map rr_bytes rs).

Lemma read_answers_rrs m x rs y h qs z t ttl addresses cnames :
  m = x ++ answers_bytes rs ++ y -> m = h ++ encode_name qs ++ z -> len h = 12 -> name_ok qs -> Forall rr_ok rs ->
  len m <= usize_max ->
  read_answers (length rs) m t (mkAnswerState (len x) ttl addresses cnames)
  = Ok (mkAnswerState (len x + len (answers_bytes rs)) (fold_left min_ttl rs ttl)
          (addresses ++ concat (map (rr_addresses qs t) rs)) (cnames ++ concat (map (rr_cnames qs) rs))).
Proof.
  intros Hm Hq Hh Hqs Hrs Hx. revert x ttl addresses cnames Hm.
  induction Hrs as [|r rs Hr Hrs IH]; intros x ttl addresses cnames Hm; cbn [length read_answers map concat fold_left].
  - rewrite !app_nil_r. unfold answers_bytes. simpl. by rewrite Z.add_0_r.
  - unfold answers_bytes in *. cbn [map concat] in *. rewrite <- app_assoc in Hm.
    rewrite (read_answer_rr m x _ h qs z t r ttl) by done. cbn [res_bind]. rewrite <- len_app.
    rewrite IH by (rewrite Hm; by rewrite <- app_assoc). len_simpl. by rewrite !app_assoc, Z.add_assoc.
Qed.

(** A response with the answers [rs] and anything in the later sections *)
Definition response (id flags authorities additionals : Z) (qs : list str) (t : DnsRecordType) (rs : list Rr)
    (rest : list byte) : list byte :=
  header id flags (len rs) authorities additionals ++ question qs t ++ answers_bytes rs ++ rest.

(** A response without error or truncation *)
Definition plain_response (flags : Z) : Prop :=
  in_u16 flags /\ Z.land flags 0x8000 <> 0 /\ Z.land flags 0x000F = 0 /\ Z.land flags 0x0200 = 0.

(** The query for a name *)
Lemma split_join ls : ls <> [] -> Forall (without dot) ls -> split_on dot (join_dots ls) = ls.
Proof.
  intros Hn Hls. induction Hls as [|l ls Hl Hls IH]; [done|].
  destruct ls as [|l2 ls]; [by apply split_on_without|].
  rewrite join_dots_cons, split_on_app by done. by rewrite IH.
Qed.

Lemma not_has_without c s : has s c = false -> without c s.
Proof.
  intros Hh. apply list.Forall_forall. intros b Hb ->. unfold has in Hh.
  assert (existsb (fun b => bool_decide (b = c)) s = true) as Ht; [|congruence].
  apply existsb_exists. exists c. split; [by apply list_elem_of_In | by apply bool_decide_eq_true].
Qed.

Lemma label_without l : label_ok l -> without dot l.
Proof. intros (_ & _ & Hd). by apply not_has_without. Qed.

Lemma join_nil ls : Forall label_ok ls -> join_dots ls = [] -> ls = [].
Proof.
  intros [|l ls' [Hl _] _]; [done|]. destruct l as [|b l]; [unfold len in Hl; simpl in Hl; lia|]. by destruct ls'.
Qed.

Lemma join_last ls : Forall label_ok ls -> list.last (join_dots ls) <> Some dot.
Proof.
  induction 1 as [|l ls Hl Hls IH]; [done|]. destruct ls as [|l2 ls].
  - cbn [join_dots]. intros Hd. apply last_Some in Hd as [l' ->]. apply label_without in Hl.
    apply list.Forall_app in Hl as [_ Hd]. by inversion Hd.
  - rewrite join_dots_cons, last_app_cons, last_cons by done.
    destruct (list.last (join_dots (l2 :: ls))) as [b|] eqn:E; [done|]. apply last_None in E. by apply join_nil in E.
Qed.

Lemma push_labels_ok q ls : Forall label_ok ls -> push_labels q ls = Ok (q ++ concat (map encode_label ls)).
Proof.
  intros Hls. revert q. induction Hls as [|l ls [Hl _] _ IH]; intros q; cbn [push_labels map concat]; [by rewrite app_nil_r|].
  guard_false by (rewrite bool_decide_eq_false_2 by (intros ->; unfold len in Hl; simpl in Hl; lia); lia).
  rewrite IH. by rewrite <- app_assoc.
Qed.

Definition query_bytes (id : Z) (ls : list str) (t : DnsRecordType) (edns : option (list byte)) : list byte :=
  header id 0x0100 0 0 (match edns with Some _ => 1 | None => 0 end) ++ question ls t ++ default [] edns.

Lemma trim_dots_app s n : list.last s <> Some dot -> trim_end_dots (s ++ replicate n dot) = s.
Proof.
  intros Hs. rewrite <- (trim_end_dots_id s Hs) at 2. unfold trim_end_dots. rewrite reverse_app, reverse_replicate. f_equal.
  by induction n.
Qed.

Lemma build_query_ok ls dots t id edns :
  ls <> [] -> Forall label_ok ls ->
  build_dns_query_with_id (join_dots ls ++ replicate dots dot) t id edns = Ok (query_bytes id ls t edns).
Proof.
  intros Hn Hls. unfold build_dns_query_with_id. rewrite trim_dots_app by by apply join_last.
  rewrite bool_decide_eq_false_2; [|by intros E%join_nil].
  rewrite split_join; [|done | eapply list.Forall_impl; [exact Hls | apply label_without]].
  rewrite push_labels_ok by done. cbn [res_bind]. unfold query_bytes, header, question, encode_name.
  by rewrite <- !app_assoc.
Qed.

(** ** Where an answer comes from *)

(** One CNAME record leads from a name to another. *)
Definition alias_step (cnames : list ParsedDnsCname) (a b : str) : Prop :=
  exists r, In r cnames /\ eq_ignore_ascii_case (cname_owner r) a = true /\ alias_name r = b.

Definition owned_by (name : str) (addresses : list ParsedDnsAddress) (ip : IpAddr) : Prop :=
  exists r, In r addresses /\ eq_ignore_ascii_case (address_owner r) name = true /\ address r = ip.

Lemma answers_loop_sound turns depth addresses cnames ttl name visited followed a :
  answers_loop turns depth addresses cnames ttl name visited followed = Ok (Answer (Addresses a)) ->
  answer_ttl a = ttl /\ answer_addresses a <> []
  /\ exists n, rtc (alias_step cnames) name n /\ Forall (owned_by n addresses) (answer_addresses a).
Proof.
  revert depth name visited followed. induction turns as [|turns IH]; intros depth name visited followed; [done|].
  cbn [answers_loop]. cbv zeta. set (found := map address _).
  destruct (bool_decide (found = [])) eqn:Ef; cbn [negb].
  - destruct (List.filter _ cnames) as [|r rs] eqn:Er; [repeat case_if; done|]. do 3 (case_if; [done|]).
    intros (Ht & Hn & n & Hp & Ha)%IH. split_and!; [done..|]. exists n. split; [|done].
    eapply rtc_l; [|exact Hp]. exists r. assert (In r (r :: rs)) as Hr by by left. rewrite <- Er in Hr.
    by apply filter_In in Hr as [Hr1 Hr2].
  - intros [= <-]. cbn [answer_ttl answer_addresses]. apply bool_decide_eq_false in Ef. split_and!; [done..|].
    exists name. split; [done|]. apply list.Forall_forall. intros ip Hip. apply list_elem_of_In, in_map_iff in Hip as (r & <- & Hr).
    apply filter_In in Hr as [Hr1 Hr2]. by exists r.
Qed.

Lemma answers_loop_shape turns depth addresses cnames ttl name visited followed r :
  answers_loop turns depth addresses cnames ttl name visited followed = Ok r ->
  match r with Answer _ | NoData => True | _ => False end.
Proof.
  revert depth name visited followed. induction turns as [|turns IH]; intros depth name visited followed; [done|].
  cbn [answers_loop]. cbv zeta. case_if; [by intros [= <-]|].
  destruct (List.filter _ cnames); [|do 3 (case_if; [done|]); apply IH]. repeat case_if; by intros [= <-].
Qed.

Definition family_of (t : DnsRecordType) (ip : IpAddr) : Prop :=
  match t, ip with A, V4 _ => True | Aaaa, V6 z => to_ipv4_mapped z = None | _, _ => False end.

Definition answers_ok (t : DnsRecordType) (s : AnswerState) : Prop :=
  Forall (fun r => family_of t (address r)) (parsed_addresses s)
  /\ (forall ttl, response_ttl s = Some ttl -> from_secs 1 <= ttl <= from_secs u32_max).

Lemma packet_u32_inv p i z : packet_u32 p i = Ok z -> in_u32 z.
Proof.
  unfold packet_u32. intros (l & Hl & E)%res_bind_ok_inv. apply ok_or_inv, get_range_some in Hl as (? & ? & Hl).
  apply Ok_inj in E as <-. pose proof (from_be_range l) as Hr. rewrite Hl in Hr.
  replace (i + 4 - i) with 4 in Hr by lia. exact Hr.
Qed.

Lemma read_address_family p t owner offset n found :
  read_address p t owner offset n = Ok found -> Forall (fun r => family_of t (address r)) found.
Proof.
  unfold read_address. destruct t; (case_if; [|done]); intros (ip & _ & E)%res_bind_ok_inv; apply Ok_inj in E as <-.
  - by repeat constructor.
  - destruct (to_ipv4_mapped ip) eqn:Em; by repeat constructor.
Qed.

Lemma read_answer_ok p t s s' : answers_ok t s -> read_answer p t s = Ok s' -> answers_ok t s'.
Proof.
  intros [Ha Ht]. unfold read_answer. intros ([owner o] & _ & E)%res_bind_ok_inv.
  apply res_bind_ok_inv in E as (ty & _ & (cl & _ & (sec & Hs & E)%res_bind_ok_inv)%res_bind_ok_inv). cbv zeta in E.
  apply res_bind_ok_inv in E as (dl & _ & (o2 & _ & (de & _ & E)%res_bind_ok_inv)%res_bind_ok_inv).
  apply packet_u32_inv in Hs. red in Hs.
  assert (forall ttl, Some (match response_ttl s with Some current => Z.min current (from_secs (Z.max sec 1)) | None => from_secs (Z.max sec 1) end)
          = Some ttl -> from_secs 1 <= ttl <= from_secs u32_max) as Ht'.
  { intros ttl [= <-]. unfold from_secs, u32_max in *. destruct (response_ttl s) as [c|]; [specialize (Ht c eq_refl)|]; lia. }
  case_if_in E; [done|]. case_if_in E; [|case_if_in E].
  - apply res_bind_ok_inv in E as (found & Hf & E). apply Ok_inj in E as <-. split; [|exact Ht'].
    apply list.Forall_app. split; [done|]. by eapply read_address_family.
  - apply res_bind_ok_inv in E as ([alias o3] & _ & E). case_if_in E; [done|]. apply Ok_inj in E as <-. by split.
  - apply Ok_inj in E as <-. by split.
Qed.

Lemma read_answers_ok n p t s s' : answers_ok t s -> read_answers n p t s = Ok s' -> answers_ok t s'.
Proof.
  revert s. induction n as [|n IH]; intros s Hs; cbn [read_answers]; [by intros [= <-]|].
  intros (s1 & H1 & E)%res_bind_ok_inv. eapply IH; [|exact E]. by eapply read_answer_ok.
Qed.

(** ** The theorems *)

(** Everything an accepted response is checked against *)
Lemma parse_response_inv q p t r :
  parse_dns_response q p t = Ok r ->
  take 2 p = take 2 q
  /\ exists flags count name offset,
    packet_u16 p 2 = Ok flags /\ Z.land flags 0x8000 <> 0 /\ packet_u16 p 4 = Ok 1 /\ packet_u16 p 6 = Ok count
    /\ parse_dns_question q = Ok (name, code t, 1) /\ read_dns_question p 12 = Ok ((name, code t, 1), offset)
    /\ match r with
       | NameError => Z.land flags 0x000F = 3
       | ServerFailure c => c = Z.land flags 0x000F /\ c <> 0 /\ c <> 3
       | Truncated => Z.land flags 0x000F = 0 /\ Z.land flags 0x0200 <> 0
       | _ => Z.land flags 0x000F = 0 /\ Z.land flags 0x0200 = 0
              /\ exists s, read_answers (Z.to_nat count) p t (mkAnswerState offset None [] []) = Ok s
                 /\ resolve_parsed_dns_answers name (parsed_addresses s) (parsed_cnames s) (default DNS_DEFAULT_TTL (response_ttl s)) = Ok r
       end.
Proof.
  unfold parse_dns_response. cbv zeta. case_if; [done|].
  intros (pid & Hp & (qid & Hq & E)%res_bind_ok_inv)%res_bind_ok_inv. case_bool_decide as Hid; [done|].
  subst qid.
  split; [apply slice_ok in Hp as (_ & _ & ->); by apply slice_ok in Hq as (_ & _ & Hq)|].
  apply res_bind_ok_inv in E as (flags & Hf & E). case_if_in E; [done|].
  apply res_bind_ok_inv in E as ([[name ty] cl] & Hqq & E). case_if_in E; [done|].
  apply res_bind_ok_inv in E as (qc & Hqc & E). case_if_in E; [done|].
  apply res_bind_ok_inv in E as (count & Hc & E). apply res_bind_ok_inv in E as ([[[rn rt] rc] o] & Hrq & E).
  case_if_in E; [done|]. unbool. subst.
  apply dec_stable in H. subst name. exists flags, count, rn, o. split_and!; [done..|].
  destruct (Z.eqb_spec (Z.land flags 15) 3); [by apply Ok_inj in E as <-|].
  destruct (Z.eqb_spec (Z.land flags 15) 0); [|by apply Ok_inj in E as <-].
  destruct (Z.eqb_spec (Z.land flags 512) 0); cbn [negb] in E; [|by apply Ok_inj in E as <-].
  apply res_bind_ok_inv in E as (s & Hs & E). pose proof (answers_loop_shape _ _ _ _ _ _ _ _ _ E) as Hr.
  destruct r; try done; eauto.
Qed.

(** Where the addresses of an accepted response come from *)
Definition answer_from (p : list byte) (t : DnsRecordType) (name : str) (offset count : Z) (a : ConfiguredDnsAddresses) : Prop :=
  answer_addresses a <> [] /\ Forall (family_of t) (answer_addresses a)
  /\ from_secs 1 <= answer_ttl a <= from_secs u32_max
  /\ exists s n, read_answers (Z.to_nat count) p t (mkAnswerState offset None [] []) = Ok s
       /\ rtc (alias_step (parsed_cnames s)) name n
       /\ Forall (owned_by n (parsed_addresses s)) (answer_addresses a).

Lemma dns_answer_sound q p t r :
  parse_dns_response q p t = Ok r ->
  take 2 p = take 2 q
  /\ exists flags count name offset,
    packet_u16 p 2 = Ok flags /\ Z.land flags 0x8000 <> 0 /\ packet_u16 p 6 = Ok count
    /\ parse_dns_question q = Ok (name, code t, 1) /\ read_dns_question p 12 = Ok ((name, code t, 1), offset)
    /\ forall a, r = Answer (Addresses a) -> answer_from p t name offset count a.
Proof.
  intros Hr. apply parse_response_inv in Hr as (Hid & flags & count & name & o & Hf & Hqr & Hqc & Hc & Hq & Hrq & Hm).
  split; [done|]. exists flags, count, name, o. split_and!; [done..|].
  intros a ->. destruct Hm as (_ & _ & s & Hs & Ha). apply answers_loop_sound in Ha as (Ht & Hne & n & Hp & Ho).
  assert (answers_ok t s) as [Hfam Httl] by (eapply read_answers_ok; [|exact Hs]; split; [constructor | done]).
  split_and!; [done| |rewrite Ht|rewrite Ht|by exists s, n].
  - eapply list.Forall_impl; [exact Ho|]. intros ip (rec & Hrec & _ & <-). exact (Forall_In _ _ _ Hfam Hrec).
  - destruct (response_ttl s) as [ttl|]; [by apply Httl | done].
  - destruct (response_ttl s) as [ttl|]; [by apply Httl | done].
Qed.

(** C16: Whatever a server or an attacker sends, the reader of DNS responses neither panics nor loops.
    A response is accepted only with the transaction id of the query, as a response, and with the
    query's single question; and the addresses it gives are not empty, are of the family asked for
    (an IPv4-mapped one is none), live between one second and the largest TTL, and are all owned by
    one name that the CNAME records of that response lead to from the question: records of other
    names are never used. *)
Theorem dns_answer_authentic q p t :
  parse_dns_response q p t <> Panic /\ dns_response_matches_query q p <> Panic
  /\ forall r, parse_dns_response q p t = Ok r ->
       take 2 p = take 2 q
       /\ exists flags count name offset,
         packet_u16 p 2 = Ok flags /\ Z.land flags 0x8000 <> 0 /\ packet_u16 p 6 = Ok count
         /\ parse_dns_question q = Ok (name, code t, 1) /\ read_dns_question p 12 = Ok ((name, code t, 1), offset)
         /\ forall a, r = Answer (Addresses a) -> answer_from p t name offset count a.
Proof.
  split_and!; [apply parse_response_safe | apply matches_query_safe | intros r; apply dns_answer_sound].
Qed.

Lemma dns_name_lower ls : to_ascii_lowercase (dns_name ls) = dns_name ls.
Proof.
  unfold dns_name. induction ls as [|l ls IH]; [done|]. cbn [map]. destruct (decide (ls = [])) as [->|Hn].
  { apply lower_idem. }
  rewrite join_dots_cons by by destruct ls. rewrite lower_app, lower_idem. f_equal.
  change (to_ascii_lowercase (dot :: join_dots (map to_ascii_lowercase ls))) with (dot :: to_ascii_lowercase (join_dots (map to_ascii_lowercase ls))).
  by rewrite IH.
Qed.

Definition lowered (s : str) : Prop := to_ascii_lowercase s = s.

Lemma eq_ignore_lowered a b : lowered a -> lowered b -> eq_ignore_ascii_case a b = bool_decide (a = b).
Proof.
  intros Ha Hb. apply eq_true_iff_eq. rewrite eq_ignore_ascii_case_spec, bool_decide_eq_true. by rewrite Ha, Hb.
Qed.

(** A chain of aliases, one record each *)
Fixpoint chain_cnames (name : str) (aliases : list str) : list ParsedDnsCname :=
  match aliases with [] => [] | a :: aliases => mkParsedCname name a :: chain_cnames a aliases end.

Lemma chain_owners n ms : map cname_owner (chain_cnames n ms) = take (length ms) (n :: ms).
Proof. revert n. induction ms as [|m ms IH]; intros n; [done|]. cbn [chain_cnames map length take cname_owner]. by rewrite IH. Qed.

Lemma filter_no_match {T} (f : T -> bool) l : (forall x, In x l -> f x = false) -> List.filter f l = [].
Proof. induction l as [|x l IH]; intros Hl; [done|]. simpl. rewrite (Hl x) by by left. apply IH. intros y Hy. apply Hl. by right. Qed.

Lemma filter_every {T} (f : T -> bool) l : (forall x, In x l -> f x = true) -> List.filter f l = l.
Proof.
  induction l as [|x l IH]; intros Hl; [done|]. simpl. rewrite (Hl x) by by left. f_equal. apply IH. intros y Hy. apply Hl. by right.
Qed.

Lemma last_in {T} (m n : T) ms : default n (list.last (m :: ms)) ∈ m :: ms.
Proof.
  destruct (list.last (m :: ms)) as [x|] eqn:E; [|by apply last_None in E].
  apply last_Some in E as [l ->]. simpl. set_solver.
Qed.

(** The records of the names in [visited] before [n], and the rest of the chain. *)
Lemma answers_loop_chain turns depth ms n pre before addresses ttl followed :
  Forall lowered (before ++ n :: ms) -> NoDup (before ++ n :: ms) -> map cname_owner pre = before ->
  addresses <> [] -> Forall (fun r => address_owner r = default n (list.last ms)) addresses ->
  (length ms < turns)%nat -> (depth + length ms <= MAX_DNS_ALIAS_DEPTH)%nat ->
  answers_loop turns depth addresses (pre ++ chain_cnames n ms) ttl n (before ++ [n]) followed
  = Ok (Answer (Addresses (mkDnsAddresses (map address addresses) ttl))).
Proof.
  revert turns depth n pre before followed.
  induction ms as [|m ms IH]; intros turns depth n pre before followed Hlow Hnd Hpre Hne Hown Ht Hd;
    (destruct turns as [|turns]; [simpl in Ht; lia|]); cbn [answers_loop]; cbv zeta.
  - rewrite filter_every.
    { guard_true by (rewrite bool_decide_eq_false_2; [done|]; by destruct addresses). done. }
    intros r Hr. apply (Forall_In _ _ _ Hown) in Hr. simpl in Hr. rewrite Hr. apply eq_ignore_ascii_case_spec. done.
  - apply list.Forall_app in Hlow as [Hlb Hlow]. inversion Hlow as [|? ? Hln Hlow']; subst.
    apply list.NoDup_app in Hnd as (Hnb & Hdis & Hnd). apply list.NoDup_cons in Hnd as [Hnn Hnd].
    assert (forall x, x ∈ m :: ms -> eq_ignore_ascii_case x n = false) as Hother.
    { intros x Hx. rewrite list.Forall_forall in Hlow'. rewrite eq_ignore_lowered by auto.
      apply bool_decide_eq_false. by intros ->. }
    rewrite (filter_no_match _ addresses) by (intros r Hr; apply (Forall_In _ _ _ Hown) in Hr; rewrite Hr; apply Hother, last_in).
    assert (forall x y, x ∈ map cname_owner pre ++ [n] -> y ∈ m :: ms -> eq_ignore_ascii_case x y = false) as Hbefore.
    { intros x y Hx Hy. rewrite list.Forall_forall in Hlow', Hlb.
      assert (lowered x /\ x <> y) as [? ?].
      { apply elem_of_app in Hx as [Hx|Hx%list_elem_of_singleton]; [|subst; split; [done | by intros ->]].
        split; [by apply Hlb|]. intros ->. apply (Hdis y Hx). by right. }
      rewrite eq_ignore_lowered by auto. by apply bool_decide_eq_false. }
    assert (List.filter (fun r => eq_ignore_ascii_case (cname_owner r) n) (pre ++ chain_cnames n (m :: ms)) = [mkParsedCname n m]) as ->.
    { rewrite List.filter_app, (filter_no_match _ pre). 
      - cbn [chain_cnames List.filter cname_owner app]. rewrite (proj2 (eq_ignore_ascii_case_spec n n)) by done. f_equal.
        apply filter_no_match. intros r Hr. apply Hother. apply (in_map cname_owner) in Hr. rewrite chain_owners in Hr.
        apply list_elem_of_In in Hr. by eapply elem_of_take in Hr as (k & Hk & _); eapply list_elem_of_lookup_2.
      - intros r Hr. rewrite list.Forall_forall in Hlb. apply (in_map cname_owner), list_elem_of_In in Hr.
        rewrite eq_ignore_lowered by auto. apply bool_decide_eq_false. intros E. apply (Hdis _ Hr). rewrite E. by left. }
    cbn [map existsb alias_name negb bool_decide].
    assert (depth <> MAX_DNS_ALIAS_DEPTH) as Hdm by (simpl in Hd; lia). rewrite (proj2 (Nat.eqb_neq _ _) Hdm).
    assert (existsb (fun name => eq_ignore_ascii_case name m) (map cname_owner pre ++ [n]) = false) as Hv.
    { apply not_true_iff_false. rewrite existsb_exists. intros (x & Hx%list_elem_of_In & E).
      rewrite (Hbefore x m Hx) in E by by left. done. }
    rewrite Hv. cbn [chain_cnames]. change (mkParsedCname n m :: chain_cnames m ms) with ([mkParsedCname n m] ++ chain_cnames m ms).
    rewrite app_assoc. apply IH; [| |by rewrite map_app|done| |simpl in Ht; lia|simpl in Hd; lia].
    + rewrite <- app_assoc. apply list.Forall_app. split; [done|]. by constructor.
    + rewrite <- app_assoc. apply list.NoDup_app. split_and!; [done | exact Hdis | by constructor].
    + eapply list.Forall_impl; [exact Hown|]. intros r ->. rewrite last_cons. by destruct (list.last ms).
Qed.

(** A chain of aliases and the addresses of its last name are resolved to these addresses. *)
Lemma chain_resolved ls aliases ips ttl :
  NoDup (map dns_name (ls :: aliases)) -> (length aliases <= MAX_DNS_ALIAS_DEPTH)%nat -> ips <> [] ->
  resolve_parsed_dns_answers (dns_name ls) (map (mkParsedAddress (default (dns_name ls) (list.last (map dns_name aliases)))) ips)
    (chain_cnames (dns_name ls) (map dns_name aliases)) ttl
  = Ok (Answer (Addresses (mkDnsAddresses ips ttl))).
Proof.
  intros Hnd Hlen Hips. unfold resolve_parsed_dns_answers. rewrite (answers_loop_chain _ _ (map dns_name aliases) (dns_name ls) [] []).
  - by rewrite map_map, map_id.
  - apply list.Forall_forall. intros n Hn1. change ([] ++ dns_name ls :: map dns_name aliases) with (map dns_name (ls :: aliases)) in Hn1.
    apply list_elem_of_In, in_map_iff in Hn1 as (l & <- & _). apply dns_name_lower.
  - exact Hnd.
  - done.
  - by destruct ips.
  - apply list.Forall_forall. intros r Hr. apply list_elem_of_In, in_map_iff in Hr as (ip & <- & _). done.
  - rewrite length_map. lia.
  - rewrite length_map. lia.
Qed.

(** C34: A lookup's exchange comes out as the server means it: the query built for a name is the
    header, the question and the OPT record; a response that repeats its id and question is taken as
    its own; and when the answers, compressed or not and with any other records between and behind
    them, hold a chain of at most eight distinct aliases and the addresses of its last name, the
    parsed answer is exactly these addresses in order with the least TTL of all answers. *)
Theorem dns_lookup_roundtrip ls dots t id edns flags au ad rs rest aliases ips :
  name_ok ls -> ls <> [] -> in_u16 id -> plain_response flags -> Z.land flags 0x7800 = 0 ->
  Forall rr_ok rs -> len rs <= u16_max ->
  let q := query_bytes id ls t edns in
  let p := response id flags au ad ls t rs rest in
  len q <= usize_max -> len p <= usize_max ->
  let last_name := default (dns_name ls) (list.last (map dns_name aliases)) in
  concat (map (rr_cnames ls) rs) = chain_cnames (dns_name ls) (map dns_name aliases) ->
  concat (map (rr_addresses ls t) rs) = map (mkParsedAddress last_name) ips -> ips <> [] ->
  NoDup (map dns_name (ls :: aliases)) -> (length aliases <= MAX_DNS_ALIAS_DEPTH)%nat ->
  build_dns_query_with_id (join_dots ls ++ replicate dots dot) t id edns = Ok q
  /\ dns_response_matches_query q p = Ok true
  /\ parse_dns_response q p t
     = Ok (Answer (Addresses (mkDnsAddresses ips (default DNS_DEFAULT_TTL (fold_left min_ttl rs None))))).
Proof.
  intros Hls Hne Hid (Hf & Hqr & Hrc & Htc) Hop Hrs Hcount q p Hq Hp last_name Hcn Had Hips Hnd Hlen.
  pose proof Hls as [Hl Hn]. assert (length ls <= 31)%nat as Hn' by lia. pose proof (len_nonneg rs).
  assert (in_u16 (len rs)) as Hrc' by (unfold in_u16, u16_max in *; lia).
  set (x := match edns with Some _ => 1 | None => 0 end).
  assert (q = header id 0x0100 0 0 x ++ question ls t ++ default [] edns) as Eq by done.
  assert (p = header id flags (len rs) au ad ++ question ls t ++ answers_bytes rs ++ rest) as Ep by done.
  pose proof (message_parse_question q _ id 0x0100 0 0 x ls t Eq Hl Hn' Hq ltac:(done) ltac:(done)) as Hqq.
  pose proof (message_question p _ id flags (len rs) au ad ls t Ep Hl Hn' Hp) as Hpq.
  destruct (message_fields p _ id flags (len rs) au ad ls t Ep Hf Hrc') as (Hp2 & Hp4 & Hp6).
  destruct (message_fields q _ id 0x0100 0 0 x ls t Eq ltac:(done) ltac:(done)) as (Hq2 & _).
  pose proof (message_len q _ id 0x0100 0 0 x ls t Eq) as Hql. pose proof (message_len p _ id flags (len rs) au ad ls t Ep) as Hpl.
  pose proof (len_nonneg (encode_name ls)).
  split_and!; [by apply build_query_ok| |].
  - unfold dns_response_matches_query. guard_false by lia.
    rewrite (message_id q _ id 0x0100 0 0 x ls t Eq), (message_id p _ id flags (len rs) au ad ls t Ep). cbn [res_bind].
    rewrite bool_decide_eq_false_2 by naive_solver. rewrite Hq2, Hp2. cbn [is_ok_and].
    change (Z.land 256 32768) with 0. change (Z.land 256 30720) with 0. guard_false by lia. rewrite Hqq, Hp4. cbn [is_ok_and]. guard_false by done. rewrite Hpq. cbn [is_ok_and].
    by rewrite bool_decide_eq_true_2.
  - unfold parse_dns_response. cbv zeta. guard_false by lia.
    rewrite (message_id q _ id 0x0100 0 0 x ls t Eq), (message_id p _ id flags (len rs) au ad ls t Ep). cbn [res_bind].
    rewrite bool_decide_eq_false_2 by naive_solver. rewrite Hp2. cbn [res_bind]. guard_false by lia.
    rewrite Hqq. cbn [res_bind]. guard_false by lia. rewrite Hp4. cbn [res_bind]. guard_false by done.
    rewrite Hp6, Hpq. cbn [res_bind]. rewrite bool_decide_eq_false_2 by naive_solver. guard_false by lia.
    rewrite Hrc, Htc. cbn [Z.eqb negb].
    replace (Z.to_nat (len rs)) with (length rs) by (unfold len; lia).
    assert (len (header id flags (len rs) au ad ++ question ls t) = 16 + len (encode_name ls)) as <-
      by (rewrite len_app, len_header; unfold question; len_simpl; lia).
    rewrite (read_answers_rrs p _ rs rest (header id flags (len rs) au ad) ls
               (be_bytes 2 (code t) ++ be_bytes 2 1 ++ answers_bytes rs ++ rest)); [|..].
    2: by rewrite Ep, <- app_assoc.
    2: by (rewrite Ep; unfold question; rewrite <- !app_assoc).
    2: apply len_header.
    2-4: done.
    cbn [res_bind parsed_addresses parsed_cnames response_ttl app]. rewrite Hcn, Had. by apply chain_resolved.
Qed.

(** C38: A name of 32 or more labels can be asked but never answered. It may be a legal name, within
    255 bytes, and the program's own DNS outbound reads the query that is built for it; but the
    client's reader of names, which takes 32 turns as a guard against pointer loops and spends one
    on each label, cannot read back the question of its own query, so no response is ever taken for
    an answer to it. *)
Theorem dns_long_name_unanswered ls t id :
  Forall label_ok ls -> (32 <= length ls)%nat -> len (encode_name ls) <= 255 -> in_u16 id ->
  let q := query_bytes id ls t None in
  build_dns_query_with_id (join_dots ls) t id None = Ok q
  /\ is_ok (parse_dns_query q) = true
  /\ forall p, dns_response_matches_query q p = Ok false /\ forall r, parse_dns_response q p t <> Ok r.
Proof.
  intros Hls Hlong Hlen Hid q.
  assert (q = encode_query id true ls (code t) None) as Eq.
  { unfold q, query_bytes, header, question, encode_query, query_head, encode_question. by rewrite <- !app_assoc. }
  assert (len q <= usize_max) as Hx
    by (rewrite Eq; apply client_len; first [done | apply code_u16 | by intros ? [=]]).
  assert (Eh : q = header id 0x0100 0 0 0 ++ question ls t ++ []) by done.
  destruct (message_fields q _ id 0x0100 0 0 0 ls t Eh ltac:(done) ltac:(done)) as (Hq2 & Hq4 & _).
  assert (parse_dns_question q = Err (invalid_dns_response "dns name pointer loop")) as He.
  { unfold parse_dns_question, read_dns_question. rewrite Hq4. cbn [res_bind]. guard_false by done.
    unfold read_dns_name, read_dns_name_limited. pose proof (message_len q _ id 0x0100 0 0 0 ls t Eh).
    pose proof (len_nonneg (encode_name ls)). guard_false by lia. rewrite <- (len_header id 0x0100 0 0 0).
    rewrite (limited_loop_long 32 q (header id 256 0 0 0) ls (be_bytes 2 (code t) ++ be_bytes 2 1)) by
      first [rewrite Eh; unfold question; by rewrite app_nil_r, <- ?app_assoc | done]. done. }
  split_and!.
  - rewrite <- (app_nil_r (join_dots ls)). apply (build_query_ok ls 0 t id None); [by intros -> | done].
  - rewrite Eq, client_query by first [done | apply code_u16 | by intros ? [=]]. done.
  - intros p. split.
    + unfold dns_response_matches_query. case_if; [done|]. unbool.
      destruct (@slice_some DnsIoError _ q 0 2) as [qi ->]; [lia | lia|].
      destruct (@slice_some DnsIoError _ p 0 2) as [pi ->]; [lia | lia|]. cbn [res_bind].
      case_bool_decide; [done|]. rewrite Hq2. cbn [is_ok_and].
      destruct (packet_u16 p 2) as [pf| |] eqn:Epf; [|done | by apply packet_u16_safe in Epf]. cbn [is_ok_and].
      case_if; [done|]. by rewrite He.
    + intros r (_ & ? & ? & ? & ? & _ & _ & _ & _ & Hqq & _)%parse_response_inv. congruence.
Qed.

(** ** The theorems at work *)

Definition sample_name : list str := [str_of "www"; str_of "Example"; str_of "com"].
Definition sample_alias : list str := [str_of "cdn"; str_of "net"].

(** [www.example.com] is an alias of [cdn.net], which has two addresses. *)
Definition sample_answers : list Rr :=
  [mkRr Compressed 300 (Rcname sample_alias); mkRr (Literal sample_alias) 60 (Ra 16909060);
   mkRr (Literal sample_alias) 60 (Rother 16 [x00]); mkRr (Literal sample_alias) 20 (Ra 84281096)].

Lemma dns_lookup_roundtrip_witness :
  parse_dns_response (query_bytes 7 sample_name A None) (response 7 0x8180 0 0 sample_name A sample_answers []) A
  = Ok (Answer (Addresses (mkDnsAddresses [V4 16909060; V4 84281096] (from_secs 20)))).
Proof.
  eapply (dns_lookup_roundtrip sample_name 1 A 7 None 0x8180 0 0 sample_answers [] [sample_alias] [V4 16909060; V4 84281096]).
  all: first [by_decision | done | repeat constructor; by vm_compute].
Defined.

Lemma dns_long_name_unanswered_witness :
  dns_response_matches_query (query_bytes 7 (replicate 32 (str_of "a")) Aaaa None)
    (response 7 0x8180 0 0 (replicate 32 (str_of "a")) Aaaa [mkRr Compressed 60 (Raaaa 1)] []) = Ok false.
Proof.
  apply (dns_long_name_unanswered (replicate 32 (str_of "a")) Aaaa 7).
  - apply Forall_replicate. by_decision || (repeat constructor; by vm_compute).
  - by rewrite length_replicate.
  - by vm_compute.
  - done.
Defined.
