(* ===== verification/DnsLookup.v ===== *)
(** DNS lookups and who gives them, from [crates/xray-transport/src/dns.rs]: the result of a lookup
    with its remaining time to live, the address families a lookup may use, and the trait
    [DnsResolver] with its implementation that narrows lookups to the system's routes.

    An async operation is a function of the instant it starts at, which gives its result and the
    instant it ends at, or nothing when it never ends. Durations and instants are in nanoseconds. *)
From Stdlib Require Import Strings.Byte Strings.String.
From S2P Require Import Prelude Net DnsMessage.

(** ** Errors *)

(** [TransportError]: the variants DNS makes, and the texts of the others *)
Inductive TransportError :=
| NeedsDns (d : str)
| Dns (d : str) (port : Z) (source : DnsIoError)
| DnsNameError (d : str) (port : Z)
| DnsNoData (d : str) (port : Z)
| DnsRcode (d : str) (port rcode : Z)
| NoResolvedAddress (d : str) (port : Z)
| OtherTransport (text : string).

(** ** Lookups *)

Record DnsLookup := mkDnsLookup {
  socket_addrs : list SocketAddr;
  lookup_ttl : option Z;
  observed_at : Z
}.

(** [Duration::saturating_sub] and [Instant::saturating_duration_since] *)
Definition saturating_sub (a b : Z) : Z := Z.max 0 (a - b).

(** The loop of [DnsLookup::new] with its [HashSet] *)
Fixpoint keep_new (seen : list SocketAddr) (addresses : list SocketAddr) : list SocketAddr :=
  match addresses with
  | [] => []
  | a :: rest =>
    let a := canonicalize_socket_addr a in
    if bool_decide (a ∈ seen) then keep_new seen rest else a :: keep_new (a :: seen) rest
  end.

Definition DnsLookup_new (addresses : list SocketAddr) (ttl : option Z) (now : Z) : DnsLookup :=
  mkDnsLookup (keep_new [] addresses) ttl now.
Definition from_ips (addresses : list IpAddr) (port : Z) (ttl : option Z) (now : Z) : DnsLookup :=
  DnsLookup_new (map (fun a => mkSocketAddr a port) addresses) ttl now.
Definition single (a : SocketAddr) (ttl : option Z) (now : Z) : DnsLookup := DnsLookup_new [a] ttl now.

Definition remaining_ttl_at (l : DnsLookup) (now : Z) : option Z :=
  (fun ttl => saturating_sub ttl (saturating_sub now (observed_at l))) <$> lookup_ttl l.

(** [DnsLookup::ttl] *)
Definition ttl_now (l : DnsLookup) (now : Z) : option Z := remaining_ttl_at l now.

Definition first_socket_addr (l : DnsLookup) (domain : str) (port : Z) : res TransportError SocketAddr :=
  ok_or (head (socket_addrs l)) (NoResolvedAddress domain port).

Definition ensure_non_empty (l : DnsLookup) (domain : str) (port : Z) : res TransportError DnsLookup :=
  if bool_decide (socket_addrs l = []) then Err (NoResolvedAddress domain port) else Ok l.

Definition with_ttl_cap (l : DnsLookup) (cap now : Z) : DnsLookup :=
  mkDnsLookup (socket_addrs l)
    (Some (match remaining_ttl_at l now with Some ttl => Z.min ttl cap | None => cap end)) now.

Definition with_fallback_ttl (l : DnsLookup) (fallback now : Z) : DnsLookup :=
  mkDnsLookup (socket_addrs l) (Some (default fallback (remaining_ttl_at l now))) now.

Definition with_cache_expiry (l : DnsLookup) (expires_at now : Z) : DnsLookup :=
  mkDnsLookup (socket_addrs l) (Some (saturating_sub expires_at now)) now.

(** ** Address families *)

Inductive DnsQueryStrategy := UseIp | UseIpv4 | UseIpv6.
#[export] Instance DnsQueryStrategy_eq_dec : EqDecision DnsQueryStrategy.
Proof. solve_decision. Defined.

Record RouteFamilies := mkRouteFamilies { routes_ipv4 : bool; routes_ipv6 : bool }.

Definition accepts (s : DnsQueryStrategy) (ip : IpAddr) : bool :=
  match s with
  | UseIp => true
  | UseIpv4 => match ip with V4 _ => true | V6 z => bool_decide (to_ipv4_mapped z <> None) end
  | UseIpv6 => match ip with V4 _ => false | V6 z => bool_decide (to_ipv4_mapped z = None) end
  end.

Definition for_route_families (f : RouteFamilies) : option DnsQueryStrategy :=
  match routes_ipv4 f, routes_ipv6 f with
  | true, true => Some UseIp
  | true, false => Some UseIpv4
  | false, true => Some UseIpv6
  | false, false => None
  end.

Definition intersect (a b : DnsQueryStrategy) : option DnsQueryStrategy :=
  match a, b with
  | UseIp, s | s, UseIp => Some s
  | UseIpv4, UseIpv4 => Some UseIpv4
  | UseIpv6, UseIpv6 => Some UseIpv6
  | UseIpv4, UseIpv6 | UseIpv6, UseIpv4 => None
  end.

Definition filter_dns_lookup_by_strategy (l : DnsLookup) (domain : str) (port : Z) (s : DnsQueryStrategy) (now : Z)
    : res TransportError DnsLookup :=
  if bool_decide (s = UseIp) then ensure_non_empty l domain port
  else
    res_map_err (fun _ => DnsNoData domain port)
      (ensure_non_empty (DnsLookup_new (List.filter (fun a => accepts s (sa_ip a)) (socket_addrs l)) (ttl_now l now) now)
         domain port).

(** ** Resolvers *)

Definition task (A : Type) : Type := Z -> option (A * Z).

Abbreviation lookup_result := (res TransportError DnsLookup).

(** [trait DnsResolver] *)
Record DnsResolver := mkResolver {
  resolve_all : str -> Z -> task lookup_result;
  resolve_all_with_strategy : str -> Z -> DnsQueryStrategy -> task lookup_result
}.

(** What the callers of a resolver rely on: it does not panic and answers no earlier than it is
    asked, and a lookup for a strategy gives only addresses the strategy accepts, and some. *)
Definition gives (s : DnsQueryStrategy) (l : DnsLookup) : Prop :=
  socket_addrs l <> [] /\ Forall (fun a => accepts s (sa_ip a) = true) (socket_addrs l).

Class ResolverLaws (r : DnsResolver) := {
  resolve_all_ok d port now m t :
    resolve_all r d port now = Some (m, t) -> now <= t /\ m <> Panic;
  resolve_with_strategy_ok d port s now m t :
    resolve_all_with_strategy r d port s now = Some (m, t) -> now <= t /\ m <> Panic /\ forall l, m = Ok l -> gives s l
}.

(** [DnsResolver::resolve] by the rich lookup, as every resolver of the module has it *)
Definition resolve (r : DnsResolver) (d : str) (port : Z) : task (res TransportError SocketAddr) :=
  fun now => '(m, t) ← resolve_all r d port now; Some (res_bind m (fun l => first_socket_addr l d port), t).

(** The default methods of the trait over a plain [resolve] *)
Definition default_resolver (resolve : str -> Z -> task (res TransportError SocketAddr)) : DnsResolver :=
  let all d port now := '(m, t) ← resolve d port now; Some (res_bind m (fun a => Ok (single a None t)), t) in
  mkResolver all (fun d port s now =>
    '(m, t) ← all d port now; Some (res_bind m (fun l => filter_dns_lookup_by_strategy l d port s t), t)).

(** [SystemRouteDnsResolver] over [inner], with what the probe reports at an instant *)
Definition system_route_resolver (inner : DnsResolver) (families : Z -> RouteFamilies) : DnsResolver :=
  let with_strategy d port s now :=
    match (routes ← for_route_families (families now); intersect s routes) with
    | Some s => resolve_all_with_strategy inner d port s now
    | None => Some (Err (DnsNoData d port), now)
    end in
  mkResolver (fun d port => with_strategy d port UseIp) with_strategy.

(** [SystemDnsResolver] over the platform's lookup *)
Definition system_resolver (lookup_host : str -> Z -> task (res DnsIoError (list SocketAddr))) : DnsResolver :=
  let all d port now :=
    '(m, t) ← lookup_host d port now;
    Some (res_bind (res_map_err (Dns d port) m) (fun addrs => ensure_non_empty (DnsLookup_new addrs None t) d port), t) in
  mkResolver all (fun d port s now =>
    '(m, t) ← all d port now; Some (res_bind m (fun l => filter_dns_lookup_by_strategy l d port s t), t)).

(** ** Lookups keep what they promise *)

Lemma to_ipv4_mapped_none z : to_ipv4_mapped z = None \/ exists v, to_ipv4_mapped z = Some v.
Proof. destruct (to_ipv4_mapped z); eauto. Qed.

Lemma accepts_canonical s a : accepts s (sa_ip (canonicalize_socket_addr a)) = accepts s (sa_ip a).
Proof.
  destruct a as [[ip|ip] port]; [done|]. unfold canonicalize_socket_addr. cbn [sa_ip].
  destruct (to_ipv4_mapped ip) as [v|] eqn:E; [|done]. cbn [sa_ip]. destruct s; cbn [accepts]; by rewrite ?E.
Qed.

(** The addresses kept are the canonical ones given, each once and in order. *)
Lemma keep_new_spec seen l x : x ∈ keep_new seen l <-> x ∈ map canonicalize_socket_addr l /\ x ∉ seen.
Proof.
  revert seen. induction l as [|a l IH]; intros seen; cbn [keep_new map]; [set_solver|]. cbv zeta.
  case_bool_decide as Ha.
  - rewrite IH. set_solver.
  - rewrite !elem_of_cons, IH. destruct (decide (x = canonicalize_socket_addr a)); set_solver.
Qed.

Lemma keep_new_nodup seen l : NoDup (keep_new seen l).
Proof.
  revert seen. induction l as [|a l IH]; intros seen; cbn [keep_new]; [constructor|]. cbv zeta. case_bool_decide; [done|].
  constructor; [|done]. rewrite keep_new_spec. set_solver.
Qed.

Lemma keep_new_sublist seen l : keep_new seen l `sublist_of` map canonicalize_socket_addr l.
Proof.
  revert seen. induction l as [|a l IH]; intros seen; cbn [keep_new map]; [constructor|]. cbv zeta.
  case_bool_decide; by constructor.
Qed.

Lemma keep_new_nil l : keep_new [] l = [] <-> l = [].
Proof.
  split; [|by intros ->]. destruct l as [|a l]; [done|]. cbn [keep_new]. cbv zeta. by case_bool_decide; [set_solver|].
Qed.

Lemma DnsLookup_new_accepts s l ttl now :
  Forall (fun a => accepts s (sa_ip a) = true) l ->
  Forall (fun a => accepts s (sa_ip a) = true) (socket_addrs (DnsLookup_new l ttl now)).
Proof.
  intros Hl. apply list.Forall_forall. intros a Ha. apply keep_new_spec in Ha as [Ha _].
  apply list_elem_of_In, in_map_iff in Ha as (b & <- & Hb). rewrite accepts_canonical.
  exact (Forall_In _ _ _ Hl Hb).
Qed.

Lemma ensure_non_empty_ok l d port l' : ensure_non_empty l d port = Ok l' -> l' = l /\ socket_addrs l <> [].
Proof. unfold ensure_non_empty. case_bool_decide; [done|]. by intros [= <-]. Qed.

Lemma ensure_non_empty_safe l d port : ensure_non_empty l d port <> Panic.
Proof. unfold ensure_non_empty. by case_bool_decide. Qed.

Lemma filter_strategy_gives l d port s now l' :
  filter_dns_lookup_by_strategy l d port s now = Ok l' -> gives s l'.
Proof.
  unfold filter_dns_lookup_by_strategy. case_bool_decide as Hs.
  - subst. intros [-> Hn]%ensure_non_empty_ok. split; [done|]. apply list.Forall_true. done.
  - destruct (ensure_non_empty _ d port) as [x| |] eqn:E; [|done..]. intros [= <-].
    apply ensure_non_empty_ok in E as [-> Hn]. split; [done|]. apply DnsLookup_new_accepts.
    apply list.Forall_forall. intros a Ha. by apply list_elem_of_In, filter_In in Ha as [_ Ha].
Qed.

Lemma filter_strategy_safe l d port s now : filter_dns_lookup_by_strategy l d port s now <> Panic.
Proof.
  unfold filter_dns_lookup_by_strategy. case_bool_decide; [apply ensure_non_empty_safe|].
  pose proof (ensure_non_empty_safe (DnsLookup_new (List.filter (fun a => accepts s (sa_ip a)) (socket_addrs l)) (ttl_now l now) now) d port).
  by destruct (ensure_non_empty _ _ _).
Qed.

(** A strategy's intersection accepts what both accept. *)
Lemma intersect_accepts a b ip :
  match intersect a b with Some s => accepts s ip | None => false end = accepts a ip && accepts b ip.
Proof.
  destruct a, b; cbn [intersect accepts]; rewrite ?andb_true_r; try done; destruct ip as [z|z]; try done;
    try (by destruct (bool_decide _)); destruct (to_ipv4_mapped z); done.
Qed.

Lemma gives_intersect a b s l : intersect a b = Some s -> gives s l -> gives a l /\ gives b l.
Proof.
  intros Hi [Hn Hl]. split; (split; [done|]); (eapply list.Forall_impl; [exact Hl|]); intros x Hx;
    pose proof (intersect_accepts a b (sa_ip x)) as He; rewrite Hi, Hx in He; symmetry in He;
    by apply andb_true_iff in He as [].
Qed.

(** Filtering an answer after the fact, as the trait's default does *)
Lemma filtered_resolver_ok (all : str -> Z -> task lookup_result) :
  (forall d port now m t, all d port now = Some (m, t) -> now <= t /\ m <> Panic) ->
  ResolverLaws (mkResolver all (fun d port s now =>
    '(m, t) ← all d port now; Some (res_bind m (fun l => filter_dns_lookup_by_strategy l d port s t), t))).
Proof.
  intros Hall. split; [exact Hall|]. intros d port s now m t. cbn [resolve_all_with_strategy].
  destruct (all d port now) as [[m' t']|] eqn:E; [|done]. cbn. intros [= <- <-].
  destruct (Hall _ _ _ _ _ E) as [Ht Hm]. split_and!; [done| |].
  - destruct m' as [l| |]; [apply filter_strategy_safe | done | done].
  - intros l. destruct m' as [l'| |]; [|done..]. apply filter_strategy_gives.
Qed.

#[export] Instance system_resolver_laws lookup_host :
  (forall d port now m t, lookup_host d port now = Some (m, t) -> now <= t /\ m <> Panic) ->
  ResolverLaws (system_resolver lookup_host).
Proof.
  intros Hl. apply filtered_resolver_ok. intros d port now m t.
  destruct (lookup_host d port now) as [[m' t']|] eqn:E; [|done]. cbn. intros [= <- <-].
  destruct (Hl _ _ _ _ _ E) as [Ht Hm]. split; [done|]. destruct m' as [a| |]; [apply ensure_non_empty_safe | done | done].
Qed.

#[export] Instance system_route_resolver_laws inner families `{!ResolverLaws inner} :
  ResolverLaws (system_route_resolver inner families).
Proof.
  assert (forall d port s now m t, resolve_all_with_strategy (system_route_resolver inner families) d port s now = Some (m, t) ->
          now <= t /\ m <> Panic /\ forall l, m = Ok l -> gives s l) as Hs.
  { intros d port s now m t. cbn [system_route_resolver resolve_all_with_strategy].
    destruct (for_route_families (families now)) as [r|]; cbn [mbind option_bind]; [|intros [= <- <-]; split_and!; done || lia].
    destruct (intersect s r) as [s'|] eqn:Ei; [|intros [= <- <-]; split_and!; done || lia].
    intros (Ht & Hm & Hg)%resolve_with_strategy_ok. split_and!; [done..|]. intros l Hl. exact (proj1 (gives_intersect _ _ _ _ Ei (Hg l Hl))). }
  split; [|exact Hs]. intros d port now m t E. by apply (Hs d port UseIp) in E as (? & ? & _).
Qed.
