(* ===== verification/NameServers.v ===== *)
(** The configured DNS resolver of [crates/xray-transport/src/dns.rs]: the policies of the name
    servers, the plan of servers for a name, what one server answers with its aliases and retries,
    how the servers of a plan are asked one after another or at once, and the static hosts, the
    fallback and the timeouts around them.

    The exchange of a message with a server, the fallback resolver, the route probe and the random
    numbers are the class [DnsWorld]. *)
From Stdlib Require Import Strings.Byte Strings.String.
From stdpp Require Import strings pretty.
From S2P Require Import Prelude Net IpRangeSet IpFilter DomainMatcher HostIndex DnsMessage DnsLookup.

(** ** Policies *)

Inductive NameServer := Socket (a : SocketAddr) | ServerDomain (domain : str) (port : Z).

Inductive DnsQueryTransportKind := UdpQuery | TcpQuery | TlsQuery | HttpsQuery | QuicQuery.
#[export] Instance DnsQueryTransportKind_eq_dec : EqDecision DnsQueryTransportKind.
Proof. solve_decision. Defined.
Inductive DnsQueryDispatch := Routed | Local.
Record DnsQueryMetadata := mkMetadata {
  meta_tag : option str;
  dispatch : DnsQueryDispatch;
  meta_path : option str
}.
Definition metadata_new (tag : option str) : DnsQueryMetadata := mkMetadata tag Routed None.
Definition metadata_local (tag : option str) : DnsQueryMetadata := mkMetadata tag Local None.
Definition with_https_path (m : DnsQueryMetadata) (path : str) : DnsQueryMetadata :=
  mkMetadata (meta_tag m) (dispatch m) (Some path).

Inductive NameServerTransport := Classic | TcpRouted | TcpLocal | TlsRouted | HttpsRouted | HttpsLocal | QuicLocal.

Section Policies.
Context `{RegexEngine} `{KeywordEngine}.

(** [NameServerPolicy], and [CompiledNameServerPolicy] with the same fields *)
Record NameServerPolicy := mkNameServerPolicy {
  server : NameServer;
  tag : option str;
  transport : NameServerTransport;
  https_path : option str;
  domains : DomainMatcherSet;
  expected_ips : DnsIpFilter;
  unexpected_ips : DnsIpFilter;
  skip_fallback : bool;
  policy_strategy : DnsQueryStrategy;
  policy_check_routes : bool;
  final_query : bool;
  policy_timeout : option Z;
  client_ip : option IpAddr;
  policy_id : Z
}.

(** [NameServerPolicy::new]; a filter built of nothing is the default one *)
Definition NameServerPolicy_new (srv : NameServer) : NameServerPolicy :=
  mkNameServerPolicy srv None Classic None (mkDms None 0) (fb_build fb_default) (fb_build fb_default)
    false UseIp false false None None 0.

(** [CompiledNameServerPolicies] *)
Record CompiledNameServerPolicies := mkCompiledPolicies {
  policies : list NameServerPolicy;
  policies_matcher_count : nat;
  policies_pattern_bytes : nat
}.

Definition CompiledNameServerPolicies_new (l : list NameServerPolicy) : CompiledNameServerPolicies :=
  mkCompiledPolicies l (fold_left (fun n p => (n + dms_matcher_count (domains p))%nat) l 0%nat)
    (fold_left (fun n p => (n + pattern_bytes (domains p))%nat) l 0%nat).

(** [SelectedPolicyTracker]: a bit for each policy *)
Inductive SelectedPolicyTracker := Small (bits : Z) | Large (words : list Z).

Definition tracker_new (policy_count : Z) : SelectedPolicyTracker :=
  if policy_count <=? 64 then Small 0 else Large (replicate (Z.to_nat ((policy_count + 63) / 64)) 0).

Definition tracker_bit (i : Z) : Z := Z.shiftl 1 (i mod 64).

Definition tracker_insert (t : SelectedPolicyTracker) (i : Z) : total SelectedPolicyTracker :=
  match t with
  | Small bits => Ok (Small (Z.lor bits (tracker_bit i)))
  | Large words =>
    let? w := index words (i / 64) in
    Ok (Large (<[Z.to_nat (i / 64) := Z.lor w (tracker_bit i)]> words))
  end.

Definition tracker_contains (t : SelectedPolicyTracker) (i : Z) : total bool :=
  match t with
  | Small bits => Ok (negb (Z.land bits (tracker_bit i) =? 0))
  | Large words => let? w := index words (i / 64) in Ok (negb (Z.land w (tracker_bit i) =? 0))
  end.

(** The loop over the policies whose domains match: [inl] where a final one ends the plan *)
Fixpoint match_loop (domain : str) (i : Z) (ps : list NameServerPolicy) (tracker : SelectedPolicyTracker)
    (selected : list Z) (matched : bool) : total (list Z + SelectedPolicyTracker * list Z * bool) :=
  match ps with
  | [] => Ok (inr (tracker, selected, matched))
  | p :: ps =>
    if negb (dms_matches (domains p) domain) then match_loop domain (i + 1) ps tracker selected matched
    else
      let? tracker := tracker_insert tracker i in
      let selected := selected ++ [i] in
      if final_query p then Ok (inl selected) else match_loop domain (i + 1) ps tracker selected true
  end.

(** The loop over the other policies *)
Fixpoint fallback_loop (i : Z) (ps : list NameServerPolicy) (tracker : SelectedPolicyTracker) (selected : list Z)
    : total (list Z) :=
  match ps with
  | [] => Ok selected
  | p :: ps =>
    let? known := tracker_contains tracker i in
    if known || skip_fallback p then fallback_loop (i + 1) ps tracker selected
    else
      let? tracker := tracker_insert tracker i in
      let selected := selected ++ [i] in
      if final_query p then Ok selected else fallback_loop (i + 1) ps tracker selected
  end.

(** [CompiledNameServerPolicies::select_indices], and [select_name_server_indices] over the sources *)
Definition select_name_server_indices (ps : list NameServerPolicy) (domain : str)
    (disable_fallback disable_fallback_if_match : bool) : total (list Z) :=
  let domain := trim_end_dots domain in
  let? outcome := match_loop domain 0 ps (tracker_new (len ps)) [] false in
  match outcome with
  | inl selected => Ok selected
  | inr (tracker, selected, matched) =>
    let? selected :=
      if negb (disable_fallback || (disable_fallback_if_match && matched))
      then fallback_loop 0 ps tracker selected else Ok selected in
    Ok (if bool_decide (selected = []) && negb (bool_decide (ps = [])) then [0] else selected)
  end.
Definition select_indices (s : CompiledNameServerPolicies) (domain : str)
    (disable_fallback disable_fallback_if_match : bool) : total (list Z) :=
  select_name_server_indices (policies s) domain disable_fallback disable_fallback_if_match.

(** [if cond && !apply(addresses) { return false; }] on the addresses so far and whether to go on *)
Definition and_filter (s : list IpAddr * bool) (cond : bool) (apply : list IpAddr -> list IpAddr * bool)
    : list IpAddr * bool :=
  if snd s && cond then apply (fst s) else s.

(** [CompiledNameServerPolicy::apply_ip_filters]: the addresses left, and what is returned *)
Definition apply_ip_filters (p : NameServerPolicy) (addresses : list IpAddr) : list IpAddr * bool :=
  let s := (addresses, true) in
  let s := and_filter s (negb (soft (expected_ips p))) (apply_expected (expected_ips p)) in
  let s := and_filter s (negb (soft (unexpected_ips p))) (apply_unexpected (unexpected_ips p)) in
  let s := and_filter s (soft (expected_ips p)) (apply_expected (expected_ips p)) in
  and_filter s (soft (unexpected_ips p)) (apply_unexpected (unexpected_ips p)).
End Policies.

(** ** One server *)

Inductive ConfiguredDnsNegative := NegativeNameError | NegativeNoData | NegativeRcode (rcode : Z).
Definition from_static_rcode (rcode : Z) : ConfiguredDnsNegative :=
  if rcode =? 0 then NegativeNoData else if rcode =? 3 then NegativeNameError else NegativeRcode rcode.

Inductive ConfiguredServerResult :=
| ServerAnswer (answer : ConfiguredDnsAnswer)
| ServerNegative (negative : ConfiguredDnsNegative).

Inductive ConfiguredServersResult :=
| ServersAnswer (answer : ConfiguredDnsAddresses)
| ServersNegative (negative : ConfiguredDnsNegative)
| ServersUnavailable.

Inductive ServerLookup :=
| LookupAnswer (answer : ConfiguredDnsAddresses)
| LookupNegative (negative : ConfiguredDnsNegative)
| LookupFailed.

Definition dns_response_code_error (response_code : Z) : DnsIoError :=
  mkDnsIoError OtherKind ("DNS server returned response code " +:+ pretty response_code).

(** [opt.map_or(x, |current| current.min(x))] *)
Definition min_or (o : option Z) (x : Z) : option Z := Some (match o with Some c => Z.min c x | None => x end).

(** What the loop over the results of the families leaves behind *)
Record FamilyState := mkFamilyState {
  fs_addresses : list IpAddr;
  fs_ttl : option Z;
  fs_cname : option (str * Z);
  cname_conflict : bool;
  saw_name_error : bool;
  saw_no_data : bool;
  last_error : option DnsIoError
}.

Abbreviation family_result := (res DnsIoError (ParsedDnsResponse * Z)).

(** One turn, at [now] *)
Definition family_turn (now : Z) (s : FamilyState) (r : family_result) : total FamilyState :=
  match r with
  | Ok (Answer (Addresses answer), observed_at) =>
    let ttl := saturating_sub (answer_ttl answer) (saturating_sub now observed_at) in
    Ok (mkFamilyState (fs_addresses s ++ answer_addresses answer) (min_or (fs_ttl s) ttl) (fs_cname s)
          (cname_conflict s) (saw_name_error s) (saw_no_data s) (last_error s))
  | Ok (Answer (Cname alias ttl), observed_at) =>
    let ttl := saturating_sub ttl (saturating_sub now observed_at) in
    let '(cname, conflict) :=
      match fs_cname s with
      | Some (current, t) =>
        (Some (current, t), if negb (eq_ignore_ascii_case alias current) then true else cname_conflict s)
      | None => (Some (alias, ttl), cname_conflict s)
      end in
    Ok (mkFamilyState (fs_addresses s) (min_or (fs_ttl s) ttl) cname conflict (saw_name_error s) (saw_no_data s)
          (last_error s))
  | Ok (NoData, _) =>
    Ok (mkFamilyState (fs_addresses s) (fs_ttl s) (fs_cname s) (cname_conflict s) (saw_name_error s) true (last_error s))
  | Ok (NameError, _) =>
    Ok (mkFamilyState (fs_addresses s) (fs_ttl s) (fs_cname s) (cname_conflict s) true (saw_no_data s) (last_error s))
  | Ok (ServerFailure c, _) =>
    Ok (mkFamilyState (fs_addresses s) (fs_ttl s) (fs_cname s) (cname_conflict s) (saw_name_error s) (saw_no_data s)
          (Some (dns_response_code_error c)))
  | Ok (Truncated, _) =>
    Ok (mkFamilyState (fs_addresses s) (fs_ttl s) (fs_cname s) (cname_conflict s) (saw_name_error s) (saw_no_data s)
          (Some (invalid_dns_response "truncated DNS response after TCP retry")))
  | Err e =>
    Ok (mkFamilyState (fs_addresses s) (fs_ttl s) (fs_cname s) (cname_conflict s) (saw_name_error s) (saw_no_data s)
          (Some e))
  | Panic => Panic
  end.

Fixpoint family_turns (now : Z) (s : FamilyState) (results : list family_result) : total FamilyState :=
  match results with
  | [] => Ok s
  | r :: rs => let? s := family_turn now s r in family_turns now s rs
  end.

Definition empty_family : FamilyState := mkFamilyState [] None None false false false None.

(** [unwrap_infallible] *)
Definition of_total {E A} (m : total A) : res E A := res_map_err (fun e : Empty_set => match e with end) m.

Definition merge_configured_family_results (results : list family_result) (now : Z)
    : res DnsIoError ConfiguredServerResult :=
  let? s := of_total (family_turns now empty_family results) in
  if negb (bool_decide (fs_addresses s = []))
  then Ok (ServerAnswer (Addresses (mkDnsAddresses (fs_addresses s) (default DNS_DEFAULT_TTL (fs_ttl s)))))
  else if cname_conflict s then Err (invalid_dns_response "DNS A and AAAA responses contain conflicting CNAME targets")
  else
    match fs_cname s with
    | Some (alias, ttl) => Ok (ServerAnswer (Cname alias (default ttl (fs_ttl s))))
    | None =>
      if saw_name_error s then Ok (ServerNegative NegativeNameError)
      else
        match last_error s with
        | Some e => Err e
        | None =>
          if saw_no_data s then Ok (ServerNegative NegativeNoData)
          else Err (invalid_dns_response "DNS server returned no family result")
        end
    end.

Definition age_ttl_cap (ttl_cap : option Z) (elapsed : Z) : option Z := (fun ttl => saturating_sub ttl elapsed) <$> ttl_cap.

(** [time::timeout_at]: a task that ends by the deadline, or at once, gives its result. *)
Definition timeout_at {A} (deadline : Z) (f : task A) (now : Z) : option A * Z :=
  let limit := Z.max now deadline in
  match f now with
  | Some (a, t) => if t <=? limit then (Some a, t) else (None, limit)
  | None => (None, limit)
  end.

(** What the resolver is given: the transport of messages, the fallback, what the route probe
    reports, and the random transaction ids and paddings drawn at an instant. *)
Class DnsWorld := {
  exchange : NameServer -> DnsQueryTransportKind -> DnsQueryMetadata -> list byte -> task (res DnsIoError (list byte));
  fallback : DnsResolver;
  route_families : Z -> RouteFamilies;
  random_id : DnsRecordType -> Z -> Z;
  random_padding : Z -> Z
}.

Class DnsWorldLaws `{W : DnsWorld} := {
  exchange_ok server kind meta query now m t :
    exchange server kind meta query now = Some (m, t) -> now <= t /\ m <> Panic;
  fallback_laws :: ResolverLaws fallback
}.

Record ServerQuery := mkServerQuery {
  query_transport : DnsQueryTransportKind;
  query_metadata : DnsQueryMetadata;
  query_edns : option (list byte)
}.

Section Resolver.
Context `{RegexEngine} `{KeywordEngine} `{W : DnsWorld}.

Record ConfiguredDnsResolver := mkConfigured {
  hosts : DomainHostIndex (T := DnsHostTarget);
  name_servers : CompiledNameServerPolicies;
  server_timeout : Z;
  system_fallback_timeout : option Z;
  resolution_timeout : option Z;
  query_strategy : DnsQueryStrategy;
  check_system_routes : bool;
  has_route_probe : bool;
  disable_fallback : bool;
  disable_fallback_if_match : bool;
  parallel_query : bool
}.
Definition DNS_RESOLUTION_TIMEOUT : Z := from_secs 5.

(** The constructor and the [with_] methods; the transport, the fallback and the probe are in [DnsWorld]. *)
Definition ConfiguredDnsResolver_new (hosts : DomainHostIndex (T := DnsHostTarget)) (servers : list NameServer) : ConfiguredDnsResolver :=
  mkConfigured hosts (CompiledNameServerPolicies_new (map NameServerPolicy_new servers)) (from_secs 4)
    (Some DNS_RESOLUTION_TIMEOUT) None UseIp false false false false false.
Definition with_name_server_policy_set (r : ConfiguredDnsResolver) (servers : CompiledNameServerPolicies) : ConfiguredDnsResolver :=
  mkConfigured (hosts r) servers (server_timeout r) (system_fallback_timeout r) (resolution_timeout r) (query_strategy r)
    (check_system_routes r) (has_route_probe r) (disable_fallback r) (disable_fallback_if_match r) (parallel_query r).
Definition with_name_server_policies (r : ConfiguredDnsResolver) (servers : list NameServerPolicy) : ConfiguredDnsResolver :=
  with_name_server_policy_set r (CompiledNameServerPolicies_new servers).
Definition with_name_server_fallback_policy (r : ConfiguredDnsResolver) (disable disable_if_match : bool) : ConfiguredDnsResolver :=
  mkConfigured (hosts r) (name_servers r) (server_timeout r) (system_fallback_timeout r) (resolution_timeout r) (query_strategy r)
    (check_system_routes r) (has_route_probe r) disable disable_if_match (parallel_query r).
Definition with_query_strategy (r : ConfiguredDnsResolver) (s : DnsQueryStrategy) : ConfiguredDnsResolver :=
  mkConfigured (hosts r) (name_servers r) (server_timeout r) (system_fallback_timeout r) (resolution_timeout r) s
    (check_system_routes r) (has_route_probe r) (disable_fallback r) (disable_fallback_if_match r) (parallel_query r).
Definition with_parallel_query (r : ConfiguredDnsResolver) (enabled : bool) : ConfiguredDnsResolver :=
  mkConfigured (hosts r) (name_servers r) (server_timeout r) (system_fallback_timeout r) (resolution_timeout r) (query_strategy r)
    (check_system_routes r) (has_route_probe r) (disable_fallback r) (disable_fallback_if_match r) enabled.
Definition with_system_routes (r : ConfiguredDnsResolver) (check : bool) : ConfiguredDnsResolver :=
  mkConfigured (hosts r) (name_servers r) (server_timeout r) (system_fallback_timeout r) (resolution_timeout r) (query_strategy r)
    check true (disable_fallback r) (disable_fallback_if_match r) (parallel_query r).
Definition with_server_timeout (r : ConfiguredDnsResolver) (d : Z) : ConfiguredDnsResolver :=
  mkConfigured (hosts r) (name_servers r) d (system_fallback_timeout r) (resolution_timeout r) (query_strategy r)
    (check_system_routes r) (has_route_probe r) (disable_fallback r) (disable_fallback_if_match r) (parallel_query r).
Definition without_system_fallback_timeout (r : ConfiguredDnsResolver) : ConfiguredDnsResolver :=
  mkConfigured (hosts r) (name_servers r) (server_timeout r) None (resolution_timeout r) (query_strategy r)
    (check_system_routes r) (has_route_probe r) (disable_fallback r) (disable_fallback_if_match r) (parallel_query r).
Definition with_resolution_timeout (r : ConfiguredDnsResolver) (d : Z) : ConfiguredDnsResolver :=
  mkConfigured (hosts r) (name_servers r) (server_timeout r) (system_fallback_timeout r) (Some d) (query_strategy r)
    (check_system_routes r) (has_route_probe r) (disable_fallback r) (disable_fallback_if_match r) (parallel_query r).

Context (r : ConfiguredDnsResolver).

Definition system_route_strategy (now : Z) : option DnsQueryStrategy :=
  for_route_families (if has_route_probe r then route_families now else mkRouteFamilies true true).

Definition server_query_strategy (ns : NameServerPolicy) (requested : DnsQueryStrategy) (now : Z)
    : option DnsQueryStrategy :=
  strategy ← intersect requested (policy_strategy ns);
  if negb (policy_check_routes ns) then Some strategy
  else routes ← system_route_strategy now; intersect strategy routes.

(** An operation that always ends: its result and the instant *)
Definition timed (A : Type) : Type := res DnsIoError A * Z.

Definition exchange_until (deadline : Z) (server : NameServer) (kind : DnsQueryTransportKind) (meta : DnsQueryMetadata)
    (query : list byte) (late : string) (now : Z) : timed (list byte) :=
  match timeout_at deadline (exchange server kind meta query) now with
  | (Some m, t) => (m, t)
  | (None, t) => (Err (mkDnsIoError TimedOutKind late), t)
  end.

Definition query_server_until (server : NameServer) (q : ServerQuery) (domain : str) (type : DnsRecordType) (deadline now : Z)
    : timed (ParsedDnsResponse * Z) :=
  match build_dns_query_with_id domain type (random_id type now) (query_edns q) with
  | Ok query =>
    let '(response, t) := exchange_until deadline server (query_transport q) (query_metadata q) query "dns query timed out" now in
    match (let? response := response in parse_dns_response query response type) with
    | Ok Truncated =>
      if negb (bool_decide (query_transport q = UdpQuery))
      then (Err (invalid_dns_response "stream DNS response must not be truncated"), t)
      else
        let '(response, t) := exchange_until deadline server TcpQuery (query_metadata q) query "dns tcp retry timed out" t in
        match (let? response := response in parse_dns_response query response type) with
        | Ok Truncated => (Err (invalid_dns_response "DNS TCP response must not be truncated"), t)
        | Ok parsed => (Ok (parsed, t), t)
        | Err e => (Err e, t)
        | Panic => (Panic, t)
        end
    | Ok parsed => (Ok (parsed, t), t)
    | Err e => (Err e, t)
    | Panic => (Panic, t)
    end
  | Err e => (Err e, now)
  | Panic => (Panic, now)
  end.

(** The transport of a policy with its metadata *)
Definition transport_and_metadata (ns : NameServerPolicy) : res DnsIoError (DnsQueryTransportKind * DnsQueryMetadata) :=
  let path := ok_or (https_path ns) (invalid_input "DNS-over-HTTPS policy is missing its request path") in
  match transport ns with
  | Classic => Ok (UdpQuery, metadata_new (tag ns))
  | TcpRouted => Ok (TcpQuery, metadata_new (tag ns))
  | TcpLocal => Ok (TcpQuery, metadata_local (tag ns))
  | TlsRouted => Ok (TlsQuery, metadata_new (tag ns))
  | HttpsRouted => let? path := path in Ok (HttpsQuery, with_https_path (metadata_new (tag ns)) path)
  | HttpsLocal => let? path := path in Ok (HttpsQuery, with_https_path (metadata_local (tag ns)) path)
  | QuicLocal => Ok (QuicQuery, metadata_local (tag ns))
  end.

(** The families of a strategy are asked at once. *)
Definition query_families (ns : NameServerPolicy) (q : ServerQuery) (domain : str) (strategy : DnsQueryStrategy)
    (deadline now : Z) : timed ConfiguredServerResult :=
  let ask type := query_server_until (server ns) q domain type deadline now in
  match strategy with
  | UseIp =>
    let '(ipv4, t4) := ask A in
    let '(ipv6, t6) := ask Aaaa in
    (merge_configured_family_results [ipv4; ipv6] (Z.max t4 t6), Z.max t4 t6)
  | UseIpv4 => let '(ipv4, t) := ask A in (merge_configured_family_results [ipv4] t, t)
  | UseIpv6 => let '(ipv6, t) := ask Aaaa in (merge_configured_family_results [ipv6] t, t)
  end.

Definition filter_server_result (ns : NameServerPolicy) (result : ConfiguredServerResult) : ConfiguredServerResult :=
  match result with
  | ServerAnswer (Addresses answer) =>
    match apply_ip_filters ns (answer_addresses answer) with
    | (addresses, true) => ServerAnswer (Addresses (mkDnsAddresses addresses (answer_ttl answer)))
    | (_, false) => ServerNegative NegativeNoData
    end
  | result => result
  end.

Definition query_configured_server (ns : NameServerPolicy) (domain : str) (deadline : Z) (requested : DnsQueryStrategy) (now : Z)
    : timed ConfiguredServerResult :=
  match server_query_strategy ns requested now with
  | None =>
    (Err (invalid_input "dns server query strategy has no address family in common with the requested strategy"), now)
  | Some strategy =>
    match transport_and_metadata ns with
    | Ok (kind, meta) =>
      let padding := if bool_decide (kind = HttpsQuery) then random_padding now else 0 in
      let q := mkServerQuery kind meta (edns_opt_record (client_ip ns) padding) in
      let '(result, t) := query_families ns q domain strategy deadline now in
      (let? result := result in Ok (filter_server_result ns result), t)
    | Err e => (Err e, now)
    | Panic => (Panic, now)
    end
  end.

(** The turns of the loop over the aliases of one server, from [depth] on *)
Fixpoint server_lookup_loop (turns depth : nat) (ns : NameServerPolicy) (current_domain : str) (cname_ttl_cap : option Z)
    (deadline : Z) (requested : DnsQueryStrategy) (now : Z) : total ServerLookup * Z :=
  match turns with
  | O => (Ok LookupFailed, now)
  | S turns =>
    let '(result, t) := query_configured_server ns current_domain deadline requested now in
    let cap := age_ttl_cap cname_ttl_cap (saturating_sub t now) in
    match result with
    | Ok (ServerAnswer (Addresses answer)) =>
      (Ok (LookupAnswer (mkDnsAddresses (answer_addresses answer)
             (match cap with Some c => Z.min (answer_ttl answer) c | None => answer_ttl answer end))), t)
    | Ok (ServerAnswer (Cname alias ttl)) =>
      let cap := min_or cap ttl in
      let alias := default alias (normalize_dns_name alias) in
      if bool_decide (alias = current_domain) || (S depth =? MAX_DNS_ALIAS_DEPTH)%nat
      then (Ok (LookupNegative NegativeNoData), t)
      else server_lookup_loop turns (S depth) ns alias cap deadline requested t
    | Ok (ServerNegative negative) => (Ok (LookupNegative negative), t)
    | Err _ => (Ok (match cap with Some _ => LookupNegative NegativeNoData | None => LookupFailed end), t)
    | Panic => (Panic, t)
    end
  end.

Definition query_server_lookup (ns : NameServerPolicy) (domain : str) (requested : DnsQueryStrategy) (now : Z)
    : total ServerLookup * Z :=
  let deadline := now + default (server_timeout r) (policy_timeout ns) in
  server_lookup_loop MAX_DNS_ALIAS_DEPTH 0 ns domain None deadline requested now.

(** ** The servers of a plan *)

Definition servers_result (saw_compatible saw_incompatible : bool) (last_negative : option ConfiguredDnsNegative)
    : ConfiguredServersResult :=
  if negb saw_compatible && saw_incompatible then ServersNegative NegativeNoData
  else match last_negative with Some n => ServersNegative n | None => ServersUnavailable end.

(** [query_configured_servers]: one after another *)
Fixpoint serial_loop (plan : list Z) (domain : str) (requested : DnsQueryStrategy)
    (last_negative : option ConfiguredDnsNegative) (saw_compatible saw_incompatible : bool) (now : Z)
    : total ConfiguredServersResult * Z :=
  match plan with
  | [] => (Ok (servers_result saw_compatible saw_incompatible last_negative), now)
  | i :: plan =>
    match policies (name_servers r) !! Z.to_nat i with
    | None => serial_loop plan domain requested last_negative saw_compatible saw_incompatible now
    | Some ns =>
      match server_query_strategy ns requested now with
      | None => serial_loop plan domain requested last_negative saw_compatible true now
      | Some _ =>
        let '(lookup, t) := query_server_lookup ns domain requested now in
        match lookup with
        | Ok (LookupAnswer answer) => (Ok (ServersAnswer answer), t)
        | Ok (LookupNegative n) => serial_loop plan domain requested (Some n) true saw_incompatible t
        | Ok LookupFailed => serial_loop plan domain requested last_negative true saw_incompatible t
        | Err e => (Err e, t)
        | Panic => (Panic, t)
        end
      end
    end
  end.

Definition query_configured_servers (domain : str) (plan : list Z) (requested : DnsQueryStrategy) (now : Z)
    : total ConfiguredServersResult * Z :=
  serial_loop plan domain requested None false false now.

(** [query_configured_servers_parallel]: the policy ids of the plan, the outcomes known so far, and
    the outcomes still to arrive with their position and instant *)
Definition is_answer (o : option ServerLookup) : bool := match o with Some (LookupAnswer _) => true | _ => false end.

(** [(a..b).find(p)] *)
Definition find_in (a b : nat) (p : nat -> bool) : option nat := List.find p (seq a (b - a)).

Definition group_end (ids : list Z) (start : nat) : nat :=
  default (length ids) (find_in (S start) (length ids) (fun i => negb (bool_decide (ids !! i = ids !! start)))).

Definition last_negative_of (outcomes : list (option ServerLookup)) : option ConfiguredDnsNegative :=
  fold_left (fun acc o => match o with Some (LookupNegative n) => Some n | _ => acc end) outcomes None.

Fixpoint parallel_loop (fuel : nat) (ids : list Z) (outcomes : list (option ServerLookup)) (group_start : nat)
    (arrivals : list (nat * ServerLookup * Z)) (now : Z) : total (ConfiguredDnsAddresses + list (option ServerLookup)) * Z :=
  match fuel with
  | O => (Panic, now)
  | S fuel =>
    if (group_start <? length ids)%nat then
      let group_end := group_end ids group_start in
      match find_in group_start group_end (fun i => is_answer (mjoin (outcomes !! i))) with
      | Some i =>
        match mjoin (outcomes !! i) with
        | Some (LookupAnswer answer) => (Ok (inl answer), now)
        | _ => (Panic, now)
        end
      | None =>
        if forallb (fun i => bool_decide (mjoin (outcomes !! i) <> None)) (seq group_start (group_end - group_start))
        then parallel_loop fuel ids outcomes group_end arrivals now
        else
          match arrivals with
          | (position, outcome, t) :: arrivals =>
            parallel_loop fuel ids (<[position := Some outcome]> outcomes) group_start arrivals (Z.max now t)
          | [] => (Ok (inr outcomes), now)
          end
      end
    else (Ok (inr outcomes), now)
  end.

(** The order in which lookups end *)
Definition arrival_le (a b : nat * ServerLookup * Z) : Prop := snd a <= snd b.
#[global] Instance arrival_le_dec : RelDecision arrival_le.
Proof. intros a b. unfold arrival_le. apply _. Defined.

(** The servers of the plan that exist *)
Definition plan_servers (plan : list Z) : list NameServerPolicy :=
  omap (fun i => policies (name_servers r) !! Z.to_nat i) plan.

(** The loop that starts the lookups, from a position on: what is known of the outcomes, and what
    will arrive *)
Fixpoint start_lookups (position : nat) (servers : list NameServerPolicy) (domain : str) (requested : DnsQueryStrategy)
    (now : Z) : total (list (option ServerLookup) * list (nat * ServerLookup * Z)) :=
  match servers with
  | [] => Ok ([], [])
  | ns :: servers =>
    let? (outcomes, arrivals) := start_lookups (S position) servers domain requested now in
    match server_query_strategy ns requested now with
    | None => Ok (Some LookupFailed :: outcomes, arrivals)
    | Some _ =>
      let '(lookup, t) := query_server_lookup ns domain requested now in
      let? lookup := lookup in
      Ok (None :: outcomes, (position, lookup, t) :: arrivals)
    end
  end.

Definition query_configured_servers_parallel (domain : str) (plan : list Z) (requested : DnsQueryStrategy) (now : Z)
    : total ConfiguredServersResult * Z :=
  let servers := plan_servers plan in
  match start_lookups 0 servers domain requested now with
  | Ok (outcomes, arrivals) =>
    let saw_incompatible := existsb (fun o => bool_decide (o <> None)) outcomes in
    let saw_compatible := existsb (fun o => bool_decide (o = None)) outcomes in
    match parallel_loop (S (length servers + length arrivals)) (map policy_id servers) outcomes 0
            (merge_sort arrival_le arrivals) now with
    | (Ok (inl answer), t) => (Ok (ServersAnswer answer), t)
    | (Ok (inr outcomes), t) => (Ok (servers_result saw_compatible saw_incompatible (last_negative_of outcomes)), t)
    | (Err e, t) => (Err e, t)
    | (Panic, t) => (Panic, t)
    end
  | Err e => (Err e, now)
  | Panic => (Panic, now)
  end.

(** ** A lookup *)

Inductive ConfiguredLookupResult :=
| Resolved (lookup : DnsLookup)
| Fallback (domain : str) (ttl_cap : option Z)
| Negative (domain : str) (negative : ConfiguredDnsNegative)
| Unavailable (domain : str).

Definition cap_lookup_ttl (l : DnsLookup) (ttl_cap : option Z) (now : Z) : DnsLookup :=
  match ttl_cap with Some cap => with_ttl_cap l cap now | None => l end.

Definition DNS_STATIC_HOST_TTL : Z := from_secs 10.

(** Where the loop ends without an answer *)
Definition no_server (domain : str) (ttl_cap : option Z) : ConfiguredLookupResult :=
  if bool_decide (policies (name_servers r) = []) then Fallback domain ttl_cap else Unavailable domain.

(** The servers are asked for the current name. *)
Definition ask_servers (domain : str) (port : Z) (requested : DnsQueryStrategy) (ttl_cap : option Z) (now : Z)
    : total ConfiguredLookupResult * Z :=
  match select_indices (name_servers r) domain (disable_fallback r) (disable_fallback_if_match r) with
  | Ok plan =>
    let '(result, t) :=
      if parallel_query r then query_configured_servers_parallel domain plan requested now
      else query_configured_servers domain plan requested now in
    let cap := age_ttl_cap ttl_cap (saturating_sub t now) in
    (let? result := result in
     Ok (match result with
         | ServersAnswer answer =>
           let lookup := from_ips (List.filter (accepts requested) (answer_addresses answer)) port (Some (answer_ttl answer)) t in
           if bool_decide (socket_addrs lookup = []) then Negative domain NegativeNoData
           else Resolved (cap_lookup_ttl lookup cap t)
         | ServersNegative negative => Negative domain negative
         | ServersUnavailable => no_server domain cap
         end), t)
  | Err e => (Err e, now)
  | Panic => (Panic, now)
  end.

(** The turns of the loop over the static aliases *)
Fixpoint configured_loop (turns depth : nat) (current_domain : str) (port : Z) (requested : DnsQueryStrategy)
    (ttl_cap : option Z) (now : Z) : total ConfiguredLookupResult * Z :=
  match turns with
  | O => (Ok (no_server current_domain ttl_cap), now)
  | S turns =>
    match hi_lookup (hosts r) current_domain with
    | Some (HostIp ip) =>
      (Ok (if negb (accepts requested ip) then Negative current_domain NegativeNoData
           else Resolved (cap_lookup_ttl (single (mkSocketAddr ip port) (Some DNS_STATIC_HOST_TTL) now) ttl_cap now)), now)
    | Some (HostIps ips) =>
      (Ok (if negb (existsb (accepts requested) ips) then Negative current_domain NegativeNoData
           else Resolved (cap_lookup_ttl (from_ips (List.filter (accepts requested) ips) port (Some DNS_STATIC_HOST_TTL) now)
                            ttl_cap now)), now)
    | Some (HostRcode rcode) => (Ok (Negative current_domain (from_static_rcode rcode)), now)
    | Some (HostDomain alias) =>
      let alias := default alias (normalize_dns_name alias) in
      if bool_decide (alias = current_domain) then (Ok (no_server current_domain ttl_cap), now)
      else if (S depth <? MAX_DNS_ALIAS_DEPTH)%nat
      then configured_loop turns (S depth) alias port requested ttl_cap now
      else ask_servers alias port requested ttl_cap now
    | None => ask_servers current_domain port requested ttl_cap now
    end
  end.

Definition resolve_configured (domain : str) (port : Z) (requested : DnsQueryStrategy) (now : Z)
    : total ConfiguredLookupResult * Z :=
  configured_loop MAX_DNS_ALIAS_DEPTH 0 (default domain (normalize_dns_name domain)) port requested None now.

Definition negative_error (domain : str) (port : Z) (n : ConfiguredDnsNegative) : TransportError :=
  match n with
  | NegativeNameError => DnsNameError domain port
  | NegativeNoData => DnsNoData domain port
  | NegativeRcode rcode => DnsRcode domain port rcode
  end.

(** [time::timeout] *)
Definition timeout {A} (d : Z) (f : task A) (now : Z) : option A * Z := timeout_at (now + d) f now.

(** The fallback with its own timeout *)
Definition ask_fallback (domain : str) (port : Z) (requested : DnsQueryStrategy) : task lookup_result :=
  fun now =>
    let f := resolve_all_with_strategy fallback domain port requested in
    match resolution_timeout r, system_fallback_timeout r with
    | None, Some d =>
      match timeout d f now with
      | (Some m, t) => Some (m, t)
      | (None, t) => Some (Err (Dns domain port (mkDnsIoError TimedOutKind "DNS system fallback timed out")), t)
      end
    | _, _ => f now
    end.

(** The block [resolution] *)
Definition resolution (domain : str) (port : Z) (requested : DnsQueryStrategy) : task lookup_result :=
  fun now =>
    let '(result, t) := resolve_configured domain port requested now in
    match result with
    | Ok (Resolved lookup) => Some (Ok lookup, t)
    | Ok (Fallback d ttl_cap) =>
      '(m, t') ← ask_fallback d port requested t;
      Some (let? lookup := m in
            filter_dns_lookup_by_strategy (cap_lookup_ttl lookup (age_ttl_cap ttl_cap (saturating_sub t' t)) t') d port requested t', t')
    | Ok (Negative d n) => Some (Err (negative_error d port n), t)
    | Ok (Unavailable d) =>
      Some (Err (Dns d port (mkDnsIoError NotConnectedKind "all configured DNS servers are unavailable")), t)
    | Err e => match e with end
    | Panic => Some (Panic, t)
    end.

(** The families of a lookup, of the resolver and, where it checks them, of the system's routes *)
Definition effective_strategy (requested : DnsQueryStrategy) (now : Z) : option DnsQueryStrategy :=
  strategy ← intersect (query_strategy r) requested;
  if check_system_routes r then routes ← system_route_strategy now; intersect strategy routes
  else Some strategy.

Definition resolve_all_for_strategy (domain : str) (port : Z) (requested : DnsQueryStrategy) : task lookup_result :=
  fun now =>
    match effective_strategy requested now with
    | None => Some (Err (DnsNoData domain port), now)
    | Some strategy =>
      match resolution_timeout r with
      | None => resolution domain port strategy now
      | Some d =>
        match timeout d (resolution domain port strategy) now with
        | (Some m, t) => Some (m, t)
        | (None, t) => Some (Err (Dns domain port (mkDnsIoError TimedOutKind "DNS resolution timed out")), t)
        end
      end
    end.

Definition configured_resolver : DnsResolver :=
  mkResolver (fun domain port => resolve_all_for_strategy domain port UseIp) resolve_all_for_strategy.
End Resolver.

(** ** The plan *)

Section Plan.
Context `{RegexEngine} `{KeywordEngine}.

(** The indices up to the first final policy, and whether there is one *)
Fixpoint upto_final (l : list (Z * NameServerPolicy)) : list Z * bool :=
  match l with
  | [] => ([], false)
  | (i, p) :: l => if final_query p then ([i], true) else let '(rest, stop) := upto_final l in (i :: rest, stop)
  end.

Fixpoint numbered (i : Z) (ps : list NameServerPolicy) : list (Z * NameServerPolicy) :=
  match ps with [] => [] | p :: ps => (i, p) :: numbered (i + 1) ps end.

(** The plan as it is meant: the policies whose domains match, then the others that may be fallen
    back on, each part up to its first final policy, and the first policy where that leaves none. *)
Definition reference_plan (ps : list NameServerPolicy) (domain : str) (disable_fallback disable_fallback_if_match : bool)
    : list Z :=
  let '(matching, stop) := upto_final (List.filter (fun x => dms_matches (domains (snd x)) domain) (numbered 0 ps)) in
  let others :=
    if stop || disable_fallback || (disable_fallback_if_match && negb (bool_decide (matching = []))) then []
    else fst (upto_final (List.filter (fun x => negb (dms_matches (domains (snd x)) domain) && negb (skip_fallback (snd x)))
                            (numbered 0 ps))) in
  match matching ++ others with [] => if bool_decide (ps = []) then [] else [0] | plan => plan end.

(** The tracker holds exactly the indices inserted. *)
Definition tracks (n : Z) (t : SelectedPolicyTracker) (s : list Z) : Prop :=
  match t with
  | Small bits => n <= 64 /\ forall i, 0 <= i < n -> Z.testbit bits i = bool_decide (i ∈ s)
  | Large words =>
    length words = Z.to_nat ((n + 63) / 64)
    /\ forall i w, 0 <= i < n -> words !! Z.to_nat (i / 64) = Some w -> Z.testbit w (i mod 64) = bool_decide (i ∈ s)
  end.

Lemma land_bit_zero w k : 0 <= k -> (Z.land w (Z.shiftl 1 k) =? 0) = negb (Z.testbit w k).
Proof.
  intros Hk. rewrite Z.shiftl_1_l. destruct (Z.testbit w k) eqn:E; cbn [negb].
  - apply Z.eqb_neq. intros Hz. apply (f_equal (fun z => Z.testbit z k)) in Hz.
    rewrite Z.land_spec, E, Z.pow2_bits_true, Z.bits_0 in Hz by done. done.
  - apply Z.eqb_eq. apply Z.bits_inj'. intros j Hj. rewrite Z.land_spec, Z.bits_0.
    destruct (decide (j = k)) as [->|]; [by rewrite E|]. rewrite Z.pow2_bits_false by done. apply andb_false_r.
Qed.

Lemma tracks_new n : 0 <= n -> tracks n (tracker_new n) [].
Proof.
  intros Hn. unfold tracker_new. destruct (Z.leb_spec n 64); cbn [tracks].
  - split; [done|]. intros i Hi. by rewrite Z.bits_0.
  - split; [by rewrite length_replicate|]. intros i w Hi Hw. apply lookup_replicate in Hw as [-> _]. by rewrite Z.bits_0.
Qed.

Lemma word_in_range n i words : length words = Z.to_nat ((n + 63) / 64) -> 0 <= i < n -> exists w : Z, words !! Z.to_nat (i / 64) = Some w.
Proof.
  intros Hl Hi. apply lookup_lt_is_Some_2. rewrite Hl.
  assert (i / 64 < (n + 63) / 64); [|pose proof (Z.div_pos i 64); lia].
  apply Z.lt_le_trans with (i / 64 + 1); [lia|]. replace (i / 64 + 1) with ((i + 1 * 64) / 64) by (rewrite Z.div_add by lia; lia).
  apply Z.div_le_mono; lia.
Qed.

Lemma tracks_contains n t s i : tracks n t s -> 0 <= i < n -> tracker_contains t i = Ok (bool_decide (i ∈ s)).
Proof.
  intros Ht Hi. unfold tracker_contains, tracker_bit. pose proof (Z.mod_pos_bound i 64 ltac:(lia)).
  destruct t as [bits|words]; cbn [tracks] in Ht; destruct Ht as [Hl Hs].
  - rewrite Z.mod_small, land_bit_zero, negb_involutive, Hs by lia. done.
  - destruct (word_in_range n i words Hl Hi) as [w Hw]. unfold index. pose proof (Z.div_pos i 64).
    guard_false by lia. rewrite Hw. cbn [unwrap ok_or res_bind]. rewrite land_bit_zero, negb_involutive by lia. by rewrite (Hs i w).
Qed.

Lemma tracks_insert n t s i :
  tracks n t s -> 0 <= i < n -> exists t', tracker_insert t i = Ok t' /\ tracks n t' (s ++ [i]).
Proof.
  intros Ht Hi. unfold tracker_insert, tracker_bit. pose proof (Z.mod_pos_bound i 64 ltac:(lia)).
  destruct t as [bits|words]; cbn [tracks] in Ht; destruct Ht as [Hl Hs].
  - eexists. split; [reflexivity|]. split; [done|]. intros j Hj. rewrite (Z.mod_small i 64), Z.shiftl_1_l, Z.lor_spec, Hs by lia.
    rewrite Z.pow2_bits_eqb by lia. apply eq_true_iff_eq. rewrite orb_true_iff, !bool_decide_eq_true, Z.eqb_eq. set_solver.
  - destruct (word_in_range n i words Hl Hi) as [w Hw]. unfold index. pose proof (Z.div_pos i 64).
    guard_false by lia. rewrite Hw. cbn [unwrap ok_or res_bind]. eexists. split; [reflexivity|]. split; [by rewrite length_insert|].
    intros j w' Hj Hw'. pose proof (Z.div_pos j 64). pose proof (Z.mod_pos_bound j 64 ltac:(lia)).
    destruct (decide (i / 64 = j / 64)) as [Eij|Nij].
    + rewrite Eij, list_lookup_insert_eq in Hw' by (rewrite <- Eij; by eapply lookup_lt_Some). injection Hw' as <-.
      rewrite Eij in Hw. rewrite Z.shiftl_1_l, Z.lor_spec, (Hs j w) by done. rewrite Z.pow2_bits_eqb by lia.
      apply eq_true_iff_eq. rewrite orb_true_iff, !bool_decide_eq_true, Z.eqb_eq. rewrite elem_of_app, list_elem_of_singleton.
      assert (i mod 64 = j mod 64 <-> j = i); [|tauto]. split; [|by intros ->].
      pose proof (Z.div_mod i 64 ltac:(lia)). pose proof (Z.div_mod j 64 ltac:(lia)). lia.
    + rewrite list_lookup_insert_ne in Hw' by lia. rewrite (Hs j w') by done.
      apply bool_decide_ext. assert (j <> i) by (by intros ->). set_solver.
Qed.

Lemma match_loop_spec n d i ps t s sel matched :
  tracks n t s -> 0 <= i -> i + len ps <= n ->
  let '(m, stop) := upto_final (List.filter (fun x => dms_matches (domains (snd x)) d) (numbered i ps)) in
  if stop then match_loop d i ps t sel matched = Ok (inl (sel ++ m))
  else exists t', match_loop d i ps t sel matched = Ok (inr (t', sel ++ m, matched || negb (bool_decide (m = []))))
         /\ tracks n t' (s ++ m).
Proof.
  revert i t s sel matched. induction ps as [|p ps IH]; intros i t s sel matched Ht Hi Hn; cbn [numbered List.filter upto_final match_loop].
  - exists t. rewrite !app_nil_r, orb_false_r. done.
  - rewrite len_cons in Hn. pose proof (len_nonneg ps). cbn [snd]. destruct (dms_matches (domains p) d); cbn [negb].
    + destruct (tracks_insert n t s i Ht ltac:(lia)) as (t1 & -> & Ht1). cbn [res_bind upto_final].
      destruct (final_query p); [done|]. specialize (IH (i + 1) t1 (s ++ [i]) (sel ++ [i]) true Ht1 ltac:(lia) ltac:(lia)).
      destruct (upto_final _) as [m stop]. rewrite <- !app_assoc in IH. cbn [app] in IH. destruct stop; [done|].
      destruct IH as (t2 & -> & Ht2). exists t2. split; [|done]. cbn [orb]. by rewrite orb_true_r.
    + apply IH; (done || lia).
Qed.

Lemma numbered_ge i ps x : In x (numbered i ps) -> i <= fst x < i + len ps.
Proof.
  revert i. induction ps as [|p ps IH]; intros i; cbn [numbered In]; [done|]. rewrite len_cons. pose proof (len_nonneg ps).
  intros [<-|Hx]; [simpl; lia|]. apply IH in Hx. lia.
Qed.

Lemma numbered_inj i ps j p q : In (j, p) (numbered i ps) -> In (j, q) (numbered i ps) -> p = q.
Proof.
  revert i. induction ps as [|x ps IH]; intros i; cbn [numbered In]; [done|].
  intros [[= <- <-]|Hp] [[= E]|Hq]; [done| | |by eapply IH].
  - apply numbered_ge in Hq. simpl in Hq. lia.
  - subst. apply numbered_ge in Hp. simpl in Hp. lia.
Qed.

Lemma fallback_loop_spec n d i ps t s sel :
  tracks n t s -> 0 <= i -> i + len ps <= n ->
  (forall j p, In (j, p) (numbered i ps) -> j ∈ s <-> dms_matches (domains p) d = true) ->
  fallback_loop i ps t sel
  = Ok (sel ++ fst (upto_final (List.filter (fun x => negb (dms_matches (domains (snd x)) d) && negb (skip_fallback (snd x)))
                                  (numbered i ps)))).
Proof.
  revert i t s sel. induction ps as [|p ps IH]; intros i t s sel Ht Hi Hn Hs; cbn [numbered List.filter upto_final fallback_loop].
  - by rewrite app_nil_r.
  - rewrite len_cons in Hn. pose proof (len_nonneg ps). rewrite (tracks_contains n t s i) by (done || lia). cbn [res_bind snd].
    assert (bool_decide (i ∈ s) = dms_matches (domains p) d) as ->.
    { apply eq_true_iff_eq. rewrite bool_decide_eq_true. apply Hs. by left. }
    rewrite <- negb_orb. destruct (dms_matches (domains p) d || skip_fallback p); cbn [negb].
    + apply (IH (i + 1) t s); [done | lia | lia|]. intros j q Hq. apply Hs. by right.
    + destruct (tracks_insert n t s i Ht ltac:(lia)) as (t1 & -> & Ht1). cbn [res_bind upto_final].
      destruct (final_query p); [done|]. rewrite (IH (i + 1) t1 (s ++ [i]) (sel ++ [i])); [|done|lia|lia|].
      * destruct (upto_final _) as [m stop]. by rewrite <- app_assoc.
      * intros j q Hq. rewrite <- (Hs j q) by by right. apply numbered_ge in Hq. simpl in Hq.
        rewrite elem_of_app, list_elem_of_singleton. split; [intros [?|?]; [done | lia] | by left].
Qed.

(** Without a final policy every index is kept. *)
Lemma upto_final_all l m : upto_final l = (m, false) -> m = map fst l.
Proof.
  revert m. induction l as [|[i p] l IH]; intros m; cbn [upto_final map]; [by intros [= <-]|].
  destruct (final_query p); [done|]. destruct (upto_final l) as [rest stop]. intros [= <- ->]. by rewrite (IH rest).
Qed.

Lemma select_plan_eq ps d df dfm :
  select_name_server_indices ps d df dfm = Ok (reference_plan ps (trim_end_dots d) df dfm).
Proof.
  unfold select_name_server_indices, reference_plan. set (dom := trim_end_dots d).
  pose proof (match_loop_spec (len ps) dom 0 ps (tracker_new (len ps)) [] [] false
                (tracks_new _ (len_nonneg ps)) ltac:(lia) ltac:(lia)) as Hm.
  destruct (upto_final _) as [m stop] eqn:Eu. destruct stop.
  - rewrite Hm. cbn [res_bind orb]. rewrite app_nil_r. destruct m; [|done]. exfalso.
    destruct (List.filter _ (numbered 0 ps)) as [|[i p] l]; [done|]. cbn [upto_final] in Eu.
    destruct (final_query p); [done|]. by destruct (upto_final l).
  - destruct Hm as (t & -> & Ht). cbn [res_bind app orb]. cbn [app] in Ht.
    assert (forall j p, In (j, p) (numbered 0 ps) -> j ∈ m <-> dms_matches (domains p) dom = true) as Hs.
    { apply upto_final_all in Eu. intros j p Hp. rewrite Eu. rewrite list_elem_of_In, in_map_iff. split.
      - intros ([j' p'] & Ej & Hj'). apply filter_In in Hj' as [Hj' Hd]. simpl in Ej, Hd. subst j'.
        by rewrite (numbered_inj 0 ps j p p').
      - intros Hd. exists (j, p). split; [done|]. by apply filter_In. }
    destruct (df || (dfm && negb (bool_decide (m = [])))) eqn:Ec; cbn [negb res_bind].
    + rewrite app_nil_r. by destruct m, ps.
    + rewrite (fallback_loop_spec (len ps) dom 0 ps t m m) by (done || lia). cbn [res_bind].
      destruct (m ++ _); [|done]. by destruct ps.
Qed.

Lemma numbered_nodup i ps : NoDup (map fst (numbered i ps)).
Proof.
  revert i. induction ps as [|p ps IH]; intros i; cbn [numbered map]; [constructor|]. constructor; [|apply IH].
  intros Hin. apply list_elem_of_In, in_map_iff in Hin as (x & Hx & Hin%numbered_ge). simpl in Hx. lia.
Qed.

Lemma upto_final_sublist l : fst (upto_final l) `sublist_of` map fst l.
Proof.
  induction l as [|[i p] l IH]; cbn [upto_final map fst]; [constructor|]. case_if; [by apply sublist_skip, sublist_nil_l|].
  destruct (upto_final l) as [rest stop]. by apply sublist_skip.
Qed.

Lemma filter_sublist {T} (f : T -> bool) l : List.filter f l `sublist_of` l.
Proof. induction l as [|x l IH]; cbn [List.filter]; [constructor|]. destruct (f x); by constructor. Qed.

Definition chosen (f : Z * NameServerPolicy -> bool) (ps : list NameServerPolicy) : list Z * bool := upto_final (List.filter f (numbered 0 ps)).

Lemma chosen_sublist f ps : fst (chosen f ps) `sublist_of` map fst (numbered 0 ps).
Proof. etrans; [apply upto_final_sublist|]. change (map fst ?l) with (fst <$> l). apply fmap_sublist, filter_sublist. Qed.

Lemma chosen_holds f ps i : i ∈ fst (chosen f ps) -> exists p, In (i, p) (numbered 0 ps) /\ f (i, p) = true.
Proof.
  intros Hi. eapply elem_of_submseteq in Hi; [|apply sublist_submseteq, upto_final_sublist].
  apply list_elem_of_In, in_map_iff in Hi as ([j p] & <- & Hin). apply filter_In in Hin. by exists p.
Qed.

Lemma chosen_range f ps i : i ∈ fst (chosen f ps) -> 0 <= i < len ps.
Proof. intros (p & Hin%numbered_ge & _)%chosen_holds. simpl in Hin. lia. Qed.

Lemma chosen_disjoint f g ps i :
  (forall x, f x = true -> g x = false) -> i ∈ fst (chosen f ps) -> i ∉ fst (chosen g ps).
Proof.
  intros Hfg (p & Hp & Ef)%chosen_holds (q & Hq & Eg)%chosen_holds. rewrite (numbered_inj 0 ps i p q) in Ef by done.
  apply Hfg in Ef. congruence.
Qed.

(** Both parts of the plan with what is known of them *)
Lemma reference_plan_cases ps d df dfm :
  exists f g (c : bool), (forall x, f x = true -> g x = false)
    /\ reference_plan ps d df dfm
       = match fst (chosen f ps) ++ (if c then [] else fst (chosen g ps)) with
         | [] => if bool_decide (ps = []) then [] else [0]
         | plan => plan
         end.
Proof.
  exists (fun x => dms_matches (domains (snd x)) d), (fun x => negb (dms_matches (domains (snd x)) d) && negb (skip_fallback (snd x))).
  unfold reference_plan. fold (chosen (fun x => dms_matches (domains (snd x)) d) ps).
  destruct (chosen (fun x => dms_matches (domains (snd x)) d) ps) as [m stop]. eexists. split; [|reflexivity]. intros x ->. done.
Qed.

Lemma reference_plan_nodup ps d df dfm : NoDup (reference_plan ps d df dfm).
Proof.
  destruct (reference_plan_cases ps d df dfm) as (f & g & c & Hfg & ->).
  assert (NoDup (fst (chosen f ps) ++ (if c then [] else fst (chosen g ps)))) as Hn.
  { assert (forall h, NoDup (fst (chosen h ps))) as Hh by (intros h; eapply sublist_NoDup; [apply numbered_nodup | apply chosen_sublist]).
    apply list.NoDup_app. split_and!; [done| |destruct c; [constructor | done]].
    intros i Hi. destruct c; [apply not_elem_of_nil|]. by apply (chosen_disjoint f g). }
  destruct (_ ++ _); [|done]. case_if; repeat constructor. apply not_elem_of_nil.
Qed.

Lemma reference_plan_range ps d df dfm : Forall (fun i => 0 <= i < len ps) (reference_plan ps d df dfm).
Proof.
  destruct (reference_plan_cases ps d df dfm) as (f & g & c & _ & ->).
  assert (Forall (fun i => 0 <= i < len ps) (fst (chosen f ps) ++ (if c then [] else fst (chosen g ps)))) as Hn.
  { apply list.Forall_app. split; [|destruct c; [constructor|]]; apply list.Forall_forall; intros i; apply chosen_range. }
  destruct (_ ++ _); [|done]. case_bool_decide as He; [constructor|]. constructor; [|constructor].
  destruct ps as [|p ps]; [done|]. rewrite len_cons. pose proof (len_nonneg ps). lia.
Qed.
End Plan.

(** ** Every operation ends in time and without panic *)

Definition within (now deadline t : Z) : Prop := now <= t <= Z.max now deadline.

Lemma within_refl now deadline : within now deadline now.
Proof. unfold within. lia. Qed.
Lemma within_trans a d b c : within a d b -> within b d c -> within a d c.
Proof. unfold within. lia. Qed.
Lemma within_max a d b c : within a d b -> within a d c -> within a d (Z.max b c).
Proof. unfold within. lia. Qed.
Create HintDb dns.
#[export] Hint Resolve within_refl within_trans within_max : dns.

(** An operation started at [now] with a deadline: it ends within it and does not panic. *)
Definition prompt {E A} (now deadline : Z) (p : res E A * Z) : Prop := within now deadline (snd p) /\ fst p <> Panic.

Lemma timeout_at_within {A} deadline (f : task A) now :
  (forall a t, f now = Some (a, t) -> now <= t) -> within now deadline (snd (timeout_at deadline f now)).
Proof.
  intros Hf. unfold timeout_at, within. cbv zeta. destruct (f now) as [[a t]|] eqn:E; [|simpl; lia].
  specialize (Hf a t eq_refl). destruct (Z.leb_spec t (Z.max now deadline)); simpl; lia.
Qed.

Lemma timeout_at_result {A} deadline (f : task A) now a t :
  timeout_at deadline f now = (Some a, t) -> f now = Some (a, t).
Proof. unfold timeout_at. destruct (f now) as [[b u]|]; [|done]. case_if; naive_solver. Qed.

Lemma push_labels_safe q ls : push_labels q ls <> Panic.
Proof. revert q. induction ls as [|l ls IH]; intros q; cbn [push_labels]; [done|]. case_if; [done | apply IH]. Qed.

Lemma build_query_safe d type i edns : build_dns_query_with_id d type i edns <> Panic.
Proof.
  unfold build_dns_query_with_id. case_if; [done|]. apply res_bind_no_panic; [apply push_labels_safe | done].
Qed.

Section Prompt.
Context `{RegexEngine} `{KeywordEngine} `{W : DnsWorld} `{!DnsWorldLaws} (r : ConfiguredDnsResolver).

Lemma exchange_until_prompt deadline srv kind meta query late now :
  prompt now deadline (exchange_until deadline srv kind meta query late now).
Proof.
  unfold prompt, exchange_until.
  pose proof (timeout_at_within deadline (exchange srv kind meta query) now) as Ht.
  destruct (timeout_at deadline (exchange srv kind meta query) now) as [[m|] t] eqn:E.
  - apply timeout_at_result in E. pose proof (exchange_ok _ _ _ _ _ _ _ E) as [? Hm]. split; [|done]. apply Ht.
    intros a u Ea. by apply exchange_ok in Ea as [? _].
  - split; [|done]. apply Ht. intros a u Ea. by apply exchange_ok in Ea as [? _].
Qed.

(** What a family's result may be *)
Definition family_ok (type : DnsRecordType) (x : ParsedDnsResponse) : Prop :=
  match x with
  | Truncated => False
  | Answer (Addresses a) => answer_addresses a <> [] /\ Forall (family_of type) (answer_addresses a)
  | _ => True
  end.

Lemma parsed_family_ok q p type x : parse_dns_response q p type = Ok x -> x <> Truncated -> family_ok type x.
Proof.
  intros Hx Ht. apply dns_answer_sound in Hx as (_ & ? & ? & ? & ? & _ & _ & _ & _ & _ & Ha).
  destruct x as [[a|]| | | |]; try done. by destruct (Ha a eq_refl) as (? & ? & _).
Qed.

Lemma read_response_cases (response : res DnsIoError (list byte)) query type :
  response <> Panic ->
  match (let? response := response in parse_dns_response query response type) with
  | Ok x => x = Truncated \/ family_ok type x
  | Err _ => True
  | Panic => False
  end.
Proof.
  intros Hr. destruct response as [p|e|]; [|done..]. cbn [res_bind].
  pose proof (parse_response_safe query p type) as Hs. pose proof (parsed_family_ok query p type) as Hf.
  destruct (parse_dns_response query p type) as [x| |]; [|done..]. destruct x; auto; right; by apply Hf.
Qed.

Lemma query_server_until_ok srv q d type deadline now :
  prompt now deadline (query_server_until srv q d type deadline now)
  /\ forall x t, fst (query_server_until srv q d type deadline now) = Ok (x, t) ->
       family_ok type x /\ t = snd (query_server_until srv q d type deadline now).
Proof.
  unfold query_server_until. pose proof (build_query_safe d type (random_id type now) (query_edns q)) as Hb.
  destruct (build_dns_query_with_id _ _ _ _) as [query|e|]; [|split; [split; auto with dns|]; done|done].
  pose proof (exchange_until_prompt deadline srv (query_transport q) (query_metadata q) query "dns query timed out" now) as [Ht1 Hp1].
  destruct (exchange_until _ _ (query_transport q) _ _ _ _) as [response t1]. cbn [fst snd] in *.
  pose proof (read_response_cases response query type Hp1) as Hc.
  destruct (let? response := response in parse_dns_response query response type) as [x|e|]; [|split; [split; auto with dns|]; done|done].
  destruct Hc as [->|Hx].
  2: { destruct x; try done; (split; [split; auto with dns; done|]); by intros ? ? [= <- <-]. }
  case_if; [split; [split; auto with dns|]; done|].
  pose proof (exchange_until_prompt deadline srv TcpQuery (query_metadata q) query "dns tcp retry timed out" t1) as [Ht2 Hp2].
  destruct (exchange_until _ _ TcpQuery _ _ _ _) as [response2 t2]. cbn [fst snd] in *.
  pose proof (read_response_cases response2 query type Hp2) as Hc.
  assert (within now deadline t2) by eauto with dns.
  destruct (let? response := response2 in parse_dns_response query response type) as [x|e|]; [|split; [split; auto with dns|]; done|done].
  destruct Hc as [->|Hx]; [split; [split; auto with dns|]; done|].
  destruct x; try done; (split; [split; auto with dns; done|]); by intros ? ? [= <- <-].
Qed.

(** ** The answers of one server *)

Definition answer_all (P : IpAddr -> Prop) (x : family_result) : Prop :=
  forall a t, x = Ok (Answer (Addresses a), t) -> Forall P (answer_addresses a).

Lemma family_turns_ok now P results s :
  Forall (fun x => x <> Panic /\ answer_all P x) results -> Forall P (fs_addresses s) ->
  exists s', family_turns now s results = Ok s' /\ Forall P (fs_addresses s').
Proof.
  intros Hr. revert s. induction Hr as [|x xs [Hx Ha] _ IH]; intros s Hs; cbn [family_turns]; [by exists s|].
  assert (exists s1, family_turn now s x = Ok s1 /\ Forall P (fs_addresses s1)) as (s1 & -> & Hs1).
  { destruct x as [[[[a|alias ttl]| | | |] t]|e|]; cbn [family_turn]; cbv zeta; try done; try (by eexists; split; [reflexivity|]).
    - eexists. split; [reflexivity|]. cbn [fs_addresses]. apply list.Forall_app. split; [done | by eapply Ha].
    - destruct (match fs_cname s with Some _ => _ | None => _ end) as [cname conflict]. by eexists; split; [reflexivity|]. }
  cbn [res_bind]. by apply IH.
Qed.

(** The answers of one server for a strategy *)
Definition server_answer_ok (P : IpAddr -> Prop) (x : res DnsIoError ConfiguredServerResult) : Prop :=
  x <> Panic /\ forall a, x = Ok (ServerAnswer (Addresses a)) -> answer_addresses a <> [] /\ Forall P (answer_addresses a).

Lemma merge_families_ok now P results :
  Forall (fun x => x <> Panic /\ answer_all P x) results ->
  server_answer_ok P (merge_configured_family_results results now).
Proof.
  intros Hr. unfold merge_configured_family_results.
  destruct (family_turns_ok now P results empty_family Hr) as (s & -> & Hs); [constructor|]. cbn [of_total res_map_err res_bind].
  destruct (bool_decide (fs_addresses s = [])) eqn:E; cbn [negb].
  - split; [|intros a; repeat case_match; done]. repeat case_match; done.
  - apply bool_decide_eq_false in E. split; [done|]. by intros a [= <-].
Qed.

Lemma family_accepts type ip : family_of type ip -> accepts (match type with A => UseIpv4 | Aaaa => UseIpv6 end) ip = true.
Proof. destruct type, ip; cbn [family_of accepts]; try done. intros ->. by apply bool_decide_eq_true. Qed.

Lemma ask_family_ok srv q d type deadline now s :
  s = UseIp \/ s = match type with A => UseIpv4 | Aaaa => UseIpv6 end ->
  let p := query_server_until srv q d type deadline now in
  within now deadline (snd p) /\ fst p <> Panic /\ answer_all (fun ip => accepts s ip = true) (fst p).
Proof.
  intros Hs. destruct (query_server_until_ok srv q d type deadline now) as [[Ht Hp] Hf]. split_and!; [done..|].
  intros a t E. apply Hf in E as [[_ Ha] _]. eapply list.Forall_impl; [exact Ha|]. intros ip Hip%family_accepts.
  destruct Hs as [->| ->]; [done | exact Hip].
Qed.

Lemma query_families_ok ns q d s deadline now :
  prompt now deadline (query_families ns q d s deadline now)
  /\ server_answer_ok (fun ip => accepts s ip = true) (fst (query_families ns q d s deadline now)).
Proof.
  unfold query_families, prompt. destruct s.
  - destruct (ask_family_ok (server ns) q d A deadline now UseIp) as (H4 & P4 & A4); [by left|].
    destruct (ask_family_ok (server ns) q d Aaaa deadline now UseIp) as (H6 & P6 & A6); [by left|].
    destruct (query_server_until _ _ _ A _ _) as [x4 t4], (query_server_until _ _ _ Aaaa _ _) as [x6 t6]. cbn [fst snd] in *.
    assert (server_answer_ok (fun ip => accepts UseIp ip = true) (merge_configured_family_results [x4; x6] (Z.max t4 t6))) as Hm
      by (apply merge_families_ok; repeat constructor; done).
    split_and!; [auto with dns | apply Hm | exact Hm].
  - destruct (ask_family_ok (server ns) q d A deadline now UseIpv4) as (H4 & P4 & A4); [by right|].
    destruct (query_server_until _ _ _ A _ _) as [x4 t4]. cbn [fst snd] in *.
    assert (server_answer_ok (fun ip => accepts UseIpv4 ip = true) (merge_configured_family_results [x4] t4)) as Hm
      by (apply merge_families_ok; repeat constructor; done).
    split_and!; [auto with dns | apply Hm | exact Hm].
  - destruct (ask_family_ok (server ns) q d Aaaa deadline now UseIpv6) as (H6 & P6 & A6); [by right|].
    destruct (query_server_until _ _ _ Aaaa _ _) as [x6 t6]. cbn [fst snd] in *.
    assert (server_answer_ok (fun ip => accepts UseIpv6 ip = true) (merge_configured_family_results [x6] t6)) as Hm
      by (apply merge_families_ok; repeat constructor; done).
    split_and!; [auto with dns | apply Hm | exact Hm].
Qed.

(** What a policy's mandatory filters ask of an address *)
Definition filters_pass (ns : NameServerPolicy) (ip : IpAddr) : Prop :=
  (soft (expected_ips ns) = false -> filter_is_empty (expected_ips ns) = false -> filter_matches (expected_ips ns) ip = true)
  /\ (soft (unexpected_ips ns) = false -> filter_is_empty (unexpected_ips ns) = false -> filter_matches (unexpected_ips ns) ip = false).

Lemma retain_kept f l keep kept :
  retain_preferred f l keep = (kept, true) -> l <> [] ->
  kept <> [] /\ incl kept l
  /\ (soft f = false -> filter_is_empty f = false -> Forall (fun ip => filter_matches f ip = keep) kept).
Proof.
  intros E Hl. pose proof (retain_preferred_spec f l keep) as Hs. cbv zeta in Hs. rewrite E in Hs.
  destruct Hs as (Hk & _ & Hne & Hpref & Hhard). split_and!; [by apply Hne| |].
  - destruct Hk as [->| ->]; [apply incl_refl|]. intros x Hx. by apply filter_In in Hx as [? _].
  - intros Hsoft Hemp. destruct (existsb (fun a => eqb (filter_matches f a) keep) l) eqn:Ex; [|by specialize (Hhard Hemp Hsoft eq_refl)].
    destruct (Hpref Hemp eq_refl) as [_ ->]. apply list.Forall_forall. intros x Hx.
    apply list_elem_of_In, filter_In in Hx as [_ Hx]. by apply eqb_prop.
Qed.

Lemma and_filter_kept s cond f kept :
  and_filter s cond f = (kept, true) -> snd s = true /\ (if cond then f (fst s) = (kept, true) else kept = fst s).
Proof. unfold and_filter. destruct s as [l []], cond; cbn [fst snd andb]; naive_solver. Qed.

Lemma apply_ip_filters_kept ns l kept :
  apply_ip_filters ns l = (kept, true) -> l <> [] -> kept <> [] /\ incl kept l /\ Forall (filters_pass ns) kept.
Proof.
  unfold apply_ip_filters. cbv zeta. intros E4 Hl.
  assert (forall f l keep (c : bool) kept', (if c then retain_preferred f l keep = (kept', true) else kept' = l) -> l <> [] ->
            kept' <> [] /\ incl kept' l /\ (c = negb (soft f) -> soft f = false -> filter_is_empty f = false ->
              Forall (fun ip => filter_matches f ip = keep) kept')) as Hstep.
  { intros f l0 keep c kept' Hc Hl0. destruct c.
    - destruct (retain_kept f l0 keep kept' Hc Hl0) as (? & ? & ?). split_and!; auto.
    - subst. split_and!; [done | apply incl_refl|]. intros Hc Hs. by rewrite Hs in Hc. }
  destruct (and_filter _ (soft (expected_ips ns)) _) as [l3 b3] eqn:E3.
  apply and_filter_kept in E4 as [B4 E4]. cbn [fst snd] in B4, E4. subst. destruct (and_filter _ (negb (soft (unexpected_ips ns))) _) as [l2 b2] eqn:E2.
  apply and_filter_kept in E3 as [B3 E3]. cbn [fst snd] in B3, E3. subst. destruct (and_filter _ (negb (soft (expected_ips ns))) _) as [l1 b1] eqn:E1.
  apply and_filter_kept in E2 as [B2 E2]. cbn [fst snd] in B2, E2. subst. apply and_filter_kept in E1 as [_ E1]. cbn [fst] in E1.
  destruct (Hstep _ _ _ _ _ E1 Hl) as (N1 & I1 & F1). destruct (Hstep _ _ _ _ _ E2 N1) as (N2 & I2 & F2).
  destruct (Hstep _ _ _ _ _ E3 N2) as (N3 & I3 & _). destruct (Hstep _ _ _ _ _ E4 N3) as (N4 & I4 & _).
  split_and!; [done | by eauto using incl_tran|]. apply list.Forall_forall. intros ip Hip%list_elem_of_In. split.
  - intros Hs He. specialize (F1 eq_refl Hs He). apply (Forall_In _ _ ip F1). by apply I2, I3, I4.
  - intros Hs He. specialize (F2 eq_refl Hs He). apply (Forall_In _ _ ip F2). by apply I3, I4.
Qed.

Lemma transport_safe ns : transport_and_metadata ns <> Panic.
Proof. unfold transport_and_metadata. cbv zeta. by destruct (transport ns), (https_path ns). Qed.

Lemma query_configured_server_ok ns d deadline requested now :
  prompt now deadline (query_configured_server r ns d deadline requested now)
  /\ forall s, server_query_strategy r ns requested now = Some s ->
       server_answer_ok (fun ip => accepts s ip = true /\ filters_pass ns ip)
         (fst (query_configured_server r ns d deadline requested now)).
Proof.
  unfold query_configured_server. destruct (server_query_strategy r ns requested now) as [s|];
    [|split; [split; [auto with dns | done] | done]].
  pose proof (transport_safe ns) as Htr. destruct (transport_and_metadata ns) as [[kind meta]|e|];
    [|split; [split; [auto with dns | done] | done] | done].
  set (q := mkServerQuery _ _ _). destruct (query_families_ok ns q d s deadline now) as [[Ht Hp] [_ Ha]].
  destruct (query_families ns q d s deadline now) as [result t]. cbn [fst snd] in *.
  assert (forall s', Some s = Some s' ->
    server_answer_ok (fun ip => accepts s' ip = true /\ filters_pass ns ip) (let? result := result in Ok (filter_server_result ns result))) as Hok.
  { intros ? [= <-]. destruct result as [x|e|]; [|done..]. cbn [res_bind]. split; [done|].
    intros a [= Ea]. destruct x as [[b|]|]; [|done..]. cbn [filter_server_result] in Ea.
    destruct (Ha b eq_refl) as [Hn Hb].
    destruct (apply_ip_filters ns (answer_addresses b)) as [l ok] eqn:Ef. destruct ok; [|done]. injection Ea as <-. cbn [answer_addresses].
    destruct (apply_ip_filters_kept _ _ _ Ef Hn) as (Hl & Hi & Hf). split; [done|]. apply list.Forall_forall. intros ip Hip.
    rewrite list.Forall_forall in Hf. split; [|by apply Hf]. exact (Forall_In _ _ _ Hb (Hi ip (proj1 (list_elem_of_In _ _) Hip))). }
  split; [|exact Hok]. split; [done|]. destruct result; done.
Qed.

(** What an address from a server satisfies *)
Definition server_gives (ns : NameServerPolicy) (requested : DnsQueryStrategy) (ip : IpAddr) : Prop :=
  accepts requested ip = true /\ accepts (policy_strategy ns) ip = true /\ filters_pass ns ip.

Lemma intersect_sub a b s ip : intersect a b = Some s -> accepts s ip = true -> accepts a ip = true /\ accepts b ip = true.
Proof.
  intros Hi Hs. pose proof (intersect_accepts a b ip) as He. rewrite Hi, Hs in He. symmetry in He. by apply andb_true_iff in He.
Qed.

Lemma server_strategy_sub ns requested now s ip :
  server_query_strategy r ns requested now = Some s -> accepts s ip = true ->
  accepts requested ip = true /\ accepts (policy_strategy ns) ip = true.
Proof.
  unfold server_query_strategy. destruct (intersect requested (policy_strategy ns)) as [s1|] eqn:E1; [|done]. cbn [mbind option_bind].
  case_if; [intros [= <-]; by apply intersect_sub|].
  destruct (system_route_strategy r now) as [routes|]; [|done]. cbn [mbind option_bind].
  intros E2 Hs. apply (intersect_sub _ _ s1); [done|]. by destruct (intersect_sub _ _ _ ip E2 Hs).
Qed.

Definition lookup_ok (P : IpAddr -> Prop) (x : total ServerLookup) : Prop :=
  x <> Panic /\ forall a, x = Ok (LookupAnswer a) -> answer_addresses a <> [] /\ Forall P (answer_addresses a).

Lemma lookup_ok_other P x : (forall a, x <> LookupAnswer a) -> lookup_ok P (Ok x).
Proof. intros Hx. split; [done|]. intros a [= ->]. by destruct (Hx a). Qed.

Lemma server_lookup_loop_ok turns depth ns d cap deadline requested now :
  within now deadline (snd (server_lookup_loop r turns depth ns d cap deadline requested now))
  /\ lookup_ok (server_gives ns requested) (fst (server_lookup_loop r turns depth ns d cap deadline requested now)).
Proof.
  revert depth d cap now. induction turns as [|turns IH]; intros depth d cap now; cbn [server_lookup_loop].
  { split; [auto with dns | by apply lookup_ok_other]. }
  destruct (query_configured_server_ok ns d deadline requested now) as [[Ht Hp] Ha].
  assert (server_answer_ok (server_gives ns requested) (fst (query_configured_server r ns d deadline requested now))) as [_ Hs].
  { destruct (server_query_strategy r ns requested now) as [s|] eqn:Es.
    - destruct (Ha s eq_refl) as [_ Hx]. split; [done|]. intros a Ea. destruct (Hx a Ea) as [Hn Hf]. split; [done|].
      eapply list.Forall_impl; [exact Hf|]. intros ip [Hip Hfp]. destruct (server_strategy_sub ns requested now s ip Es Hip). split; [done | by split].
    - unfold query_configured_server. by rewrite Es. }
  destruct (query_configured_server r ns d deadline requested now) as [result t]. cbn [fst snd] in *.
  destruct result as [[[a|alias ttl]|n]|e|]; cbn [fst snd]; [| | | |done].
  - split; [done|]. destruct (Hs a eq_refl). split; [done|]. by intros a' [= <-].
  - case_if; [split; [done | by apply lookup_ok_other]|].
    destruct (IH (S depth) (default alias (normalize_dns_name alias)) (min_or (age_ttl_cap cap (saturating_sub t now)) ttl) t) as [Ht' Hl].
    split; [eauto with dns | done].
  - split; [done | by apply lookup_ok_other].
  - split; [done|]. apply lookup_ok_other. by destruct (age_ttl_cap cap (saturating_sub t now)).
Qed.

Definition server_deadline (ns : NameServerPolicy) (now : Z) : Z := now + default (server_timeout r) (policy_timeout ns).

Lemma query_server_lookup_ok ns d requested now :
  within now (server_deadline ns now) (snd (query_server_lookup r ns d requested now))
  /\ lookup_ok (server_gives ns requested) (fst (query_server_lookup r ns d requested now)).
Proof. apply server_lookup_loop_ok. Qed.

(** ** One server after another *)

(** The longest a plan can take *)
Definition plan_timeout (plan : list Z) : Z :=
  foldr (fun i acc => match policies (name_servers r) !! Z.to_nat i with
                      | Some ns => Z.max 0 (default (server_timeout r) (policy_timeout ns)) + acc
                      | None => acc
                      end) 0 plan.

Definition servers_ok (plan : list Z) (requested : DnsQueryStrategy) (x : total ConfiguredServersResult) : Prop :=
  x <> Panic
  /\ forall a, x = Ok (ServersAnswer a) ->
       exists i ns, i ∈ plan /\ policies (name_servers r) !! Z.to_nat i = Some ns
         /\ answer_addresses a <> [] /\ Forall (server_gives ns requested) (answer_addresses a).

Lemma servers_result_ok plan requested c i n : servers_ok plan requested (Ok (servers_result c i n)).
Proof. split; [done|]. intros a [= E]. unfold servers_result in E. case_if_in E; [done|]. by destruct n. Qed.

Lemma servers_ok_cons i plan requested x : servers_ok plan requested x -> servers_ok (i :: plan) requested x.
Proof. intros [Hp Ha]. split; [done|]. intros a Ea. destruct (Ha a Ea) as (j & ns & Hj & ?). exists j, ns. split; [by right | done]. Qed.

Lemma plan_timeout_nonneg plan : 0 <= plan_timeout plan.
Proof. unfold plan_timeout. induction plan as [|i plan IH]; simpl; [done|]. destruct (_ !! _); lia. Qed.

Lemma serial_loop_ok plan d requested n c i now :
  let x := serial_loop r plan d requested n c i now in
  now <= snd x <= now + plan_timeout plan /\ servers_ok plan requested (fst x).
Proof.
  revert n c i now. induction plan as [|k plan IH]; intros n c i now; cbn [serial_loop].
  { split; [simpl; lia | apply servers_result_ok]. }
  unfold plan_timeout. cbn [foldr]. fold (plan_timeout plan).
  destruct (policies (name_servers r) !! Z.to_nat k) as [ns|] eqn:Ens.
  2: { destruct (IH n c i now). split; [done | by apply servers_ok_cons]. }
  set (d0 := default (server_timeout r) (policy_timeout ns)).
  destruct (server_query_strategy r ns requested now) as [s|].
  2: { destruct (IH n c true now). split; [lia | by apply servers_ok_cons]. }
  destruct (query_server_lookup_ok ns d requested now) as [Ht [Hp Ha]]. unfold within, server_deadline in Ht. fold d0 in Ht.
  pose proof (plan_timeout_nonneg plan).
  destruct (query_server_lookup r ns d requested now) as [[[a|neg|]|[]|] t]; cbn [fst snd] in *; [| | |done].
  - split; [lia|]. split; [done|]. intros a' [= <-]. exists k, ns. destruct (Ha a eq_refl). split_and!; try done. by left.
  - destruct (IH (Some neg) true i t). split; [lia | by apply servers_ok_cons].
  - destruct (IH n true i t). split; [lia | by apply servers_ok_cons].
Qed.
End Prompt.

(** ** All servers at once *)

Lemma find_in_some a b p i : find_in a b p = Some i -> (a <= i < b)%nat /\ p i = true.
Proof. intros Hf. apply find_some in Hf as [Hi Hp]. apply in_seq in Hi. split; [lia | done]. Qed.

Lemma find_in_none a b p i : find_in a b p = None -> (a <= i < b)%nat -> p i = false.
Proof. intros Hf Hi. apply (find_none _ _ Hf), in_seq. lia. Qed.

Lemma find_in_first a b p i j : find_in a b p = Some i -> (a <= j < i)%nat -> p j = false.
Proof.
  unfold find_in. remember (b - a)%nat as n eqn:Hn. clear Hn. revert a. induction n as [|n IH]; intros a; cbn [seq List.find]; [done|].
  destruct (p a) eqn:Ea; [intros [= <-]; lia|]. intros Hf Hj. destruct (decide (j = a)) as [->|]; [done|]. apply (IH (S a)); [done | lia].
Qed.

(** A group is not empty and its ids are all the same. *)
Lemma group_end_spec ids gs :
  (gs < length ids)%nat ->
  (gs < group_end ids gs <= length ids)%nat /\ forall k, (gs <= k < group_end ids gs)%nat -> ids !! k = ids !! gs.
Proof.
  intros Hgs. unfold group_end. destruct (find_in (S gs) (length ids) _) as [e|] eqn:E.
  - change (default (length ids) (Some e)) with e. pose proof (find_in_some _ _ _ _ E) as [He _]. split; [lia|]. intros k Hk. destruct (decide (k = gs)) as [->|]; [done|].
    pose proof (find_in_first _ _ _ _ k E ltac:(lia)) as Hf. by apply negb_false_iff, bool_decide_eq_true in Hf.
  - change (default (length ids) None) with (length ids). split; [lia|]. intros k Hk. destruct (decide (k = gs)) as [->|]; [done|].
    pose proof (find_in_none _ _ _ k E ltac:(lia)) as Hf. by apply negb_false_iff, bool_decide_eq_true in Hf.
Qed.

Definition answers_at (final : list ServerLookup) (i : nat) : Prop := exists a, final !! i = Some (LookupAnswer a).

(** The servers from [j] to [i] have the same policy id. *)
Definition same_group (ids : list Z) (j i : nat) : Prop := forall k, (j <= k <= i)%nat -> ids !! k = ids !! i.

(** What is known of the outcomes agrees with what they will be, and what is not known will arrive. *)
Record race_ok (ids : list Z) (final : list ServerLookup) (outcomes : list (option ServerLookup)) (gs : nat)
    (arrivals : list (nat * ServerLookup * Z)) : Prop := {
  ra_ids : length ids = length final;
  ra_len : length outcomes = length final;
  ra_known i o : outcomes !! i = Some (Some o) -> final !! i = Some o;
  ra_pending i : outcomes !! i = Some None -> exists o t, (i, o, t) ∈ arrivals;
  ra_true i o t : (i, o, t) ∈ arrivals -> final !! i = Some o;
  ra_done i : (i < gs)%nat -> ~ answers_at final i /\ outcomes !! i <> Some None
}.

Definition race_result (ids : list Z) (final : list ServerLookup) (x : total (ConfiguredDnsAddresses + list (option ServerLookup))) : Prop :=
  match x with
  | Ok (inl a) =>
    exists i, final !! i = Some (LookupAnswer a) /\ forall j, (j < i)%nat -> answers_at final j -> same_group ids j i
  | Ok (inr outcomes) => outcomes = map Some final /\ forall i, ~ answers_at final i
  | _ => False
  end.

Definition latest (now : Z) (arrivals : list (nat * ServerLookup * Z)) : Z := fold_left (fun acc x => Z.max acc (snd x)) arrivals now.

Lemma latest_ge now arrivals : now <= latest now arrivals.
Proof. unfold latest. revert now. induction arrivals as [|x l IH]; intros now; simpl; [done|]. specialize (IH (Z.max now (snd x))). lia. Qed.

Lemma race_step ids final outcomes gs position outcome t arrivals :
  race_ok ids final outcomes gs ((position, outcome, t) :: arrivals) ->
  race_ok ids final (<[position := Some outcome]> outcomes) gs arrivals.
Proof.
  intros [Hi Hl Hk Hp Ht Hd]. assert (final !! position = Some outcome) as Hf by (apply (Ht _ _ t); by left).
  assert (position < length outcomes)%nat as Hpos by (rewrite Hl; by eapply lookup_lt_Some).
  split; [done | by rewrite length_insert | | | |].
  - intros i o. destruct (decide (i = position)) as [->|Hne].
    + rewrite list_lookup_insert_eq by done. by intros [= <-].
    + rewrite list_lookup_insert_ne by done. apply Hk.
  - intros i. destruct (decide (i = position)) as [->|Hne].
    + by rewrite list_lookup_insert_eq.
    + rewrite list_lookup_insert_ne by done. intros (o & u & [E|Hin]%elem_of_cons)%Hp; [simplify_eq | by exists o, u].
  - intros i o u Hin. apply (Ht i o u). by right.
  - intros i Hlt. destruct (Hd i Hlt) as [Ha Hn]. split; [done|]. destruct (decide (i = position)) as [->|Hne].
    + by rewrite list_lookup_insert_eq.
    + by rewrite list_lookup_insert_ne.
Qed.

Lemma lookup_map {T U} (f : T -> U) l i x : l !! i = Some x -> map f l !! i = Some (f x).
Proof. intros Hx. change (map f l) with (f <$> l). rewrite list_lookup_fmap. by rewrite Hx. Qed.

Lemma mjoin_lookup {T} (l : list (option T)) i o : mjoin (l !! i) = Some o <-> l !! i = Some (Some o).
Proof. destruct (l !! i) as [[x|]|]; simpl; naive_solver. Qed.

Lemma race_all ids final outcomes gs arrivals :
  race_ok ids final outcomes gs arrivals -> (length ids <= gs)%nat -> race_result ids final (Ok (inr outcomes)).
Proof.
  intros [Hi Hl Hk Hp Ht Hd] Hg. split.
  - apply list_eq. intros i. destruct (final !! i) as [o|] eqn:Ef.
    + rewrite (lookup_map Some final i o Ef). pose proof (lookup_lt_Some _ _ _ Ef) as Hlt.
      destruct (Hd i ltac:(lia)) as [_ Hn]. rewrite <- Hl in Hlt. apply lookup_lt_is_Some_2 in Hlt as [[x|] Hx]; [|done].
      pose proof (Hk _ _ Hx) as Hx'. rewrite Hx. congruence.
    + apply lookup_ge_None in Ef. rewrite !lookup_ge_None_2; [done|by rewrite length_map | lia].
  - intros i Ha. destruct (Hd i) as [Hn _]; [|done]. destruct Ha as [a Ha]. apply lookup_lt_Some in Ha. lia.
Qed.

Lemma parallel_loop_ok fuel ids final outcomes gs arrivals now :
  race_ok ids final outcomes gs arrivals -> (gs <= length ids)%nat -> (length ids - gs + length arrivals < fuel)%nat ->
  let x := parallel_loop fuel ids outcomes gs arrivals now in
  race_result ids final (fst x) /\ now <= snd x <= latest now arrivals.
Proof.
  revert outcomes gs arrivals now. induction fuel as [|fuel IH]; intros outcomes gs arrivals now Hr Hg Hf; [lia|].
  cbn [parallel_loop]. pose proof (latest_ge now arrivals) as Hge. destruct (Nat.ltb_spec gs (length ids)) as [Hlt|Hge'].
  2: { cbn [fst snd]. split; [|lia]. by apply (race_all ids final outcomes gs arrivals). }
  destruct (group_end_spec ids gs Hlt) as [He Hsame]. pose proof Hr as [Hi Hl Hk Hp Ht Hd].
  destruct (find_in gs (group_end ids gs) _) as [i|] eqn:Ef.
  - apply find_in_some in Ef as [Hin Ha]. destruct (mjoin (outcomes !! i)) as [[a| |]|] eqn:Eo; try done. cbn [fst snd].
    split; [|lia]. exists i. apply mjoin_lookup, Hk in Eo. split; [done|]. intros j Hj Hans k Hkk.
    destruct (decide (j < gs)%nat) as [Hjg|Hjg]; [by destruct (Hd j Hjg)|].
    rewrite (Hsame k), (Hsame i) by lia. done.
  - destruct (forallb _ _) eqn:Eall.
    + apply IH; [|lia|lia]. split; [done..|]. intros k Hkk.
      destruct (decide (k < gs)%nat) as [Hkg|Hkg]; [by apply Hd|].
      rewrite forallb_forall in Eall. specialize (Eall k). rewrite in_seq, bool_decide_eq_true in Eall. specialize (Eall ltac:(lia)).
      destruct (outcomes !! k) as [[o|]|] eqn:Ek; cbn in Eall; [|done..]. split; [|done].
      intros [a Hans]. pose proof (find_in_none _ _ _ k Ef ltac:(lia)) as Hn. cbv beta in Hn. rewrite Ek in Hn. apply Hk in Ek. cbn in Hn.
      rewrite Ek in Hans. injection Hans as ->. done.
    + destruct arrivals as [|[[position outcome] t] arrivals].
      * exfalso. apply not_true_iff_false in Eall. apply Eall, forallb_forall. intros k Hkk%in_seq. apply bool_decide_eq_true.
        destruct (outcomes !! k) as [[o|]|] eqn:Ek; [done| |].
        -- apply Hp in Ek as (? & ? & Hn). by apply elem_of_nil in Hn.
        -- apply lookup_ge_None in Ek. lia.
      * pose proof (race_step _ _ _ _ _ _ _ _ Hr) as Hr'. cbn [length] in Hf.
        destruct (IH (<[position:=Some outcome]> outcomes) gs arrivals (Z.max now t) Hr' Hg ltac:(lia)) as [Hres Htime].
        split; [done|]. unfold latest in *. cbn [fold_left snd]. lia.
Qed.

(** With ids that change from each server to the next, the answer is that of the first server that
    has one. *)
Lemma race_first ids final a i :
  (forall k, (S k < length ids)%nat -> ids !! k <> ids !! S k) -> length ids = length final ->
  final !! i = Some (LookupAnswer a) -> (forall j, (j < i)%nat -> answers_at final j -> same_group ids j i) ->
  forall j, (j < i)%nat -> ~ answers_at final j.
Proof.
  intros Hids Hl Hi Hg j Hj Ha. pose proof (Hg j Hj Ha) as Hs. apply lookup_lt_Some in Hi.
  apply (Hids j); [lia|]. rewrite (Hs j), (Hs (S j)) by lia. done.
Qed.

Section Parallel.
Context `{RegexEngine} `{KeywordEngine} `{W : DnsWorld} `{!DnsWorldLaws} (r : ConfiguredDnsResolver).

(** What one server gives when it is asked at [now], and when *)
Definition server_outcome (ns : NameServerPolicy) (d : str) (requested : DnsQueryStrategy) (now : Z)
    : total ServerLookup * Z :=
  match server_query_strategy r ns requested now with
  | None => (Ok LookupFailed, now)
  | Some _ => query_server_lookup r ns d requested now
  end.

(** The longest any server of a list may take *)
Definition longest_timeout (servers : list NameServerPolicy) : Z :=
  foldr (fun ns acc => Z.max (default (server_timeout r) (policy_timeout ns)) acc) 0 servers.

Lemma server_outcome_ok ns d requested now :
  within now (server_deadline r ns now) (snd (server_outcome ns d requested now))
  /\ lookup_ok (server_gives ns requested) (fst (server_outcome ns d requested now)).
Proof.
  unfold server_outcome. destruct (server_query_strategy r ns requested now); [apply query_server_lookup_ok|].
  split; [apply within_refl | by apply lookup_ok_other].
Qed.

Lemma longest_timeout_nonneg servers : 0 <= longest_timeout servers.
Proof. induction servers; cbn [longest_timeout foldr]; [done|]. fold (longest_timeout servers). lia. Qed.

Definition outcomes_of (servers : list NameServerPolicy) (d : str) (requested : DnsQueryStrategy) (now : Z) (final : list ServerLookup) : Prop :=
  Forall2 (fun ns o => fst (server_outcome ns d requested now) = Ok o) servers final.

(** A server with a family in common with the request *)
Definition compatible (requested : DnsQueryStrategy) (now : Z) (ns : NameServerPolicy) : bool :=
  bool_decide (server_query_strategy r ns requested now <> None).

(** Starting the lookups loses none of them, and leaves those of compatible servers open. *)
Record started (position : nat) (servers : list NameServerPolicy) (requested : DnsQueryStrategy) (now : Z) (final : list ServerLookup)
    (outcomes : list (option ServerLookup)) (arrivals : list (nat * ServerLookup * Z)) : Prop := {
  st_len : length outcomes = length final;
  st_known i o : outcomes !! i = Some (Some o) -> final !! i = Some o;
  st_pending i : outcomes !! i = Some None -> exists o t, ((position + i)%nat, o, t) ∈ arrivals;
  st_true p o t : (p, o, t) ∈ arrivals -> exists i, p = (position + i)%nat /\ final !! i = Some o /\ t <= now + longest_timeout servers;
  st_open : map (fun o => bool_decide (o = None)) outcomes = map (compatible requested now) servers
}.

Lemma start_lookups_ok position servers d requested now :
  exists final outcomes arrivals,
    start_lookups r position servers d requested now = Ok (outcomes, arrivals)
    /\ outcomes_of servers d requested now final /\ started position servers requested now final outcomes arrivals.
Proof.
  revert position. induction servers as [|ns servers IH]; intros position; cbn [start_lookups].
  { exists [], [], []. split_and!; [done | constructor |]. split; cbn; try done; [by intros ?..|]. intros p o t Hin. by apply elem_of_nil in Hin. }
  destruct (IH (S position)) as (final & outcomes & arrivals & -> & Hf & [Hl Hk Hp Ht Hc]). cbn [res_bind].
  destruct (server_outcome_ok ns d requested now) as [Hw [Hs _]].
  pose proof (longest_timeout_nonneg servers) as Hn.
  assert (forall p o t, (p, o, t) ∈ arrivals -> exists i, p = (position + i)%nat /\ (forall x, (x :: final) !! i = Some o) /\ t <= now + longest_timeout (ns :: servers)) as Hrest.
  { intros p o t Hin. destruct (Ht p o t Hin) as (i & -> & Hi & Hti). exists (S i). split_and!; [lia | done|]. cbn [longest_timeout foldr]. fold (longest_timeout servers). lia. }
  unfold server_outcome in Hw, Hs. destruct (server_query_strategy r ns requested now) as [s|] eqn:Es.
  - destruct (query_server_lookup r ns d requested now) as [[o|[]|] t] eqn:Eq; [|done]. cbn [res_bind fst snd] in *.
    exists (o :: final), (None :: outcomes), ((position, o, t) :: arrivals). split_and!; [done| |].
    { constructor; [|done]. unfold server_outcome. by rewrite Es, Eq. }
    split; cbn [length].
    + by rewrite Hl.
    + intros [|i] o'; [done | apply Hk].
    + intros [|i]; [intros _; exists o, t; rewrite Nat.add_0_r; by left|]. intros (o' & t' & Hin)%Hp. exists o', t'. right. by replace (position + S i)%nat with (S position + i)%nat by lia.
    + intros p o' t' [E|Hin]%elem_of_cons.
      * injection E as -> -> ->. exists 0%nat. split_and!; [lia | done|]. unfold within, server_deadline in Hw. cbn [longest_timeout foldr]. fold (longest_timeout servers). lia.
      * destruct (Hrest p o' t' Hin) as (i & -> & Hi & Hti). by exists i.
    + cbn [map]. rewrite Hc. unfold compatible at 2. by rewrite Es.
  - exists (LookupFailed :: final), (Some LookupFailed :: outcomes), arrivals. split_and!; [done| |].
    { constructor; [|done]. unfold server_outcome. by rewrite Es. }
    split; cbn [length].
    + by rewrite Hl.
    + intros [|i] o'; [by intros [= <-] | apply Hk].
    + intros [|i]; [done|]. intros (o' & t' & Hin)%Hp. exists o', t'. by replace (position + S i)%nat with (S position + i)%nat by lia.
    + intros p o' t' Hin. destruct (Hrest p o' t' Hin) as (i & -> & Hi & Hti). by exists i.
    + cbn [map]. rewrite Hc. unfold compatible at 2. by rewrite Es.
Qed.

Lemma latest_le now arrivals b : now <= b -> (forall x, x ∈ arrivals -> snd x <= b) -> latest now arrivals <= b.
Proof.
  unfold latest. revert now. induction arrivals as [|x l IH]; intros now Hn Hx; cbn [fold_left]; [done|].
  apply IH; [|intros y Hy; apply Hx; by right]. pose proof (Hx x ltac:(by left)). lia.
Qed.

(** The race ends the same way whatever the order of arrival. *)
Lemma race_from_start servers d requested now :
  exists final outcomes arrivals,
    start_lookups r 0 servers d requested now = Ok (outcomes, arrivals) /\ outcomes_of servers d requested now final
    /\ map (fun o => bool_decide (o = None)) outcomes = map (compatible requested now) servers
    /\ forall order, order ≡ₚ arrivals ->
         let x := parallel_loop (S (length servers + length arrivals)) (map policy_id servers) outcomes 0 order now in
         race_result (map policy_id servers) final (fst x) /\ now <= snd x <= now + longest_timeout servers.
Proof.
  destruct (start_lookups_ok 0 servers d requested now) as (final & outcomes & arrivals & Es & Hf & [Hl Hk Hp Ht Hc]).
  exists final, outcomes, arrivals. split_and!; [done..|]. intros order Ho.
  pose proof (Forall2_length Hf) as Hlen. pose proof (longest_timeout_nonneg servers).
  destruct (parallel_loop_ok (S (length servers + length arrivals)) (map policy_id servers) final outcomes 0 order now) as [Hr Htm].
  - split; [by rewrite length_map | done | done | | |].
    + intros i (o & t & Hin)%Hp. exists o, t. by rewrite Ho.
    + intros i o t. rewrite Ho. intros (j & -> & Hj & _)%Ht. done.
    + intros i. lia.
  - lia.
  - rewrite length_map, (Permutation_length Ho). lia.
  - split; [done|]. assert (latest now order <= now + longest_timeout servers); [|lia]. apply latest_le; [lia|].
    intros [[p o] t]. rewrite Ho. intros (_ & _ & _ & Hb)%Ht. done.
Qed.

(** The first answer of a list of outcomes *)
Fixpoint first_answer (final : list ServerLookup) : option ConfiguredDnsAddresses :=
  match final with
  | [] => None
  | LookupAnswer a :: _ => Some a
  | _ :: final => first_answer final
  end.

Lemma first_answer_some final i a :
  final !! i = Some (LookupAnswer a) -> (forall j, (j < i)%nat -> ~ answers_at final j) -> first_answer final = Some a.
Proof.
  revert i. induction final as [|o final IH]; intros i; [done|]. destruct i as [|i].
  - by intros [= ->] _.
  - intros Hi Hj. assert (forall b, o <> LookupAnswer b) as Ho.
    { intros b ->. apply (Hj 0%nat); [lia|]. by exists b. }
    destruct o as [b| |]; [by destruct (Ho b)| |]; (apply (IH i); [done|]; intros j Hji [b Hb]; apply (Hj (S j)); [lia|]; by exists b).
Qed.

Lemma first_answer_none final : (forall i, ~ answers_at final i) -> first_answer final = None.
Proof.
  induction final as [|o final IH]; intros Hn; [done|].
  assert (first_answer final = None) as IH' by (apply IH; intros i [b Hb]; apply (Hn (S i)); by exists b).
  destruct o as [b| |]; [|done..]. destruct (Hn 0%nat). by exists b.
Qed.

Lemma existsb_map {T U} (f : T -> U) p l : existsb p (map f l) = existsb (fun x => p (f x)) l.
Proof. induction l as [|x l IH]; cbn [map existsb]; [done|]. by rewrite IH. Qed.

Lemma existsb_open {T} (outcomes : list (option T)) :
  existsb (fun o => bool_decide (o <> None)) outcomes = existsb negb (map (fun o => bool_decide (o = None)) outcomes)
  /\ existsb (fun o => bool_decide (o = None)) outcomes = existsb id (map (fun o => bool_decide (o = None)) outcomes).
Proof. rewrite !existsb_map. split; [|done]. induction outcomes as [|[x|] l IH]; cbn [existsb]; [done | by rewrite IH..]. Qed.

(** No two servers next to each other share a policy id. *)
Definition separate (ids : list Z) : Prop := forall k, (S k < length ids)%nat -> ids !! k <> ids !! S k.

(** C4: asking the servers of a plan at once refines asking each of them alone. Whatever the order in
    which the lookups end, the result is an answer one of the servers gives, and every server before
    it that also answers is of the same run of policy ids; so where the ids of neighbours differ it is
    the first answer in the order of the plan, as in the serial plan. Without an answer the result is
    the last negative one. The lookup ends no later than the slowest server's timeout. *)
Theorem parallel_plan_refines (d : str) (plan : list Z) (requested : DnsQueryStrategy) (now : Z) :
  let servers := plan_servers r plan in
  let '(x, t) := query_configured_servers_parallel r d plan requested now in
  now <= t <= now + longest_timeout servers
  /\ exists final, outcomes_of servers d requested now final
     /\ match x with
        | Ok (ServersAnswer a) =>
          (exists i, final !! i = Some (LookupAnswer a)
             /\ forall j, (j < i)%nat -> answers_at final j -> same_group (map policy_id servers) j i)
          /\ (separate (map policy_id servers) -> first_answer final = Some a)
        | Ok y =>
          first_answer final = None
          /\ y = servers_result (existsb (compatible requested now) servers)
                   (existsb (fun ns => negb (compatible requested now ns)) servers) (last_negative_of (map Some final))
        | _ => False
        end.
Proof.
  cbv zeta. destruct (race_from_start (plan_servers r plan) d requested now) as (final & outcomes & arrivals & Es & Hf & Hopen & Hrace).
  unfold query_configured_servers_parallel. rewrite Es.
  specialize (Hrace _ (merge_sort_Permutation arrival_le arrivals)). cbv zeta in Hrace. destruct Hrace as [Hr Ht].
  destruct (parallel_loop _ _ _ _ _ _) as [[[a|known]|[]|] t]; cbn [fst snd race_result] in *; [| |done].
  - split; [done|]. exists final. split; [done|]. destruct Hr as (i & Hi & Hg). split; [by exists i|].
    intros Hsep. apply (first_answer_some final i); [done|].
    apply (race_first (map policy_id (plan_servers r plan)) final a i); [done | | done..]. rewrite length_map. exact (Forall2_length Hf).
  - split; [done|]. exists final. split; [done|]. destruct Hr as [-> Hn].
    destruct (existsb_open outcomes) as [-> ->]. rewrite Hopen, !existsb_map. cbn [id].
    destruct (servers_result _ _ _) as [a|n|] eqn:Er; [|split; [by apply first_answer_none | done]..].
    unfold servers_result in Er. case_if_in Er; [done|]. by destruct (last_negative_of _).
Qed.

Lemma outcome_server servers d requested now final i o :
  outcomes_of servers d requested now final -> final !! i = Some o ->
  exists ns, ns ∈ servers /\ fst (server_outcome ns d requested now) = Ok o.
Proof.
  intros Hf Hi. destruct (Forall2_lookup_r _ _ _ _ _ Hf Hi) as (ns & Hns & E). exists ns. split; [|done]. by eapply list_elem_of_lookup_2.
Qed.

Lemma parallel_servers_ok d plan requested now :
  let x := query_configured_servers_parallel r d plan requested now in
  now <= snd x <= now + longest_timeout (plan_servers r plan) /\ servers_ok r plan requested (fst x).
Proof.
  cbv zeta. destruct (race_from_start (plan_servers r plan) d requested now) as (final & outcomes & arrivals & Es & Hf & Hopen & Hrace).
  unfold query_configured_servers_parallel. rewrite Es.
  specialize (Hrace _ (merge_sort_Permutation arrival_le arrivals)). cbv zeta in Hrace. destruct Hrace as [Hr Ht].
  destruct (parallel_loop _ _ _ _ _ _) as [[[a|known]|[]|] t]; cbn [fst snd race_result] in *; [| |done].
  2: { split; [done | apply servers_result_ok]. }
  split; [done|]. split; [done|]. intros ? [= <-]. destruct Hr as (i & Hi & _).
  destruct (outcome_server _ _ _ _ _ _ _ Hf Hi) as (ns & Hns & Eo). destruct (server_outcome_ok ns d requested now) as [_ [_ Ha]].
  destruct (Ha a Eo). apply list_elem_of_omap in Hns as (k & Hk & Ek). by exists k, ns.
Qed.

(** ** The whole lookup *)

(** What the configuration promises of an address: a family that was asked for, and that the filters
    of the server it comes from pass *)
Definition resolved_ok (requested : DnsQueryStrategy) (x : ConfiguredLookupResult) : Prop :=
  match x with Resolved l => gives requested l | _ => True end.

Lemma cap_lookup_gives s l cap now : gives s l -> gives s (cap_lookup_ttl l cap now).
Proof. intros Hl. by destruct cap. Qed.

Lemma from_ips_gives s ips port ttl now :
  ips <> [] -> Forall (fun ip => accepts s ip = true) ips -> gives s (from_ips ips port ttl now).
Proof.
  intros Hn Ha. split.
  - unfold from_ips, DnsLookup_new. cbn [socket_addrs]. rewrite keep_new_nil. by destruct ips.
  - apply DnsLookup_new_accepts. change (map ?f ips) with (f <$> ips). by apply list.Forall_fmap.
Qed.

Lemma filter_accepts s ips : Forall (fun ip => accepts s ip = true) (List.filter (accepts s) ips).
Proof. apply list.Forall_forall. intros ip Hip. by apply list_elem_of_In, filter_In in Hip as [_ ?]. Qed.

Lemma filter_nonempty s ips : existsb (accepts s) ips = true -> List.filter (accepts s) ips <> [].
Proof. intros (ip & Hin & Hip)%existsb_exists E. assert (In ip (List.filter (accepts s) ips)) as Hx by by apply filter_In. by rewrite E in Hx. Qed.

Definition lookup_step_ok (requested : DnsQueryStrategy) (now : Z) (x : total ConfiguredLookupResult * Z) : Prop :=
  now <= snd x /\ exists y, fst x = Ok y /\ resolved_ok requested y.

Lemma no_server_ok requested d cap now : lookup_step_ok requested now (Ok (no_server r d cap), now).
Proof. split; [done|]. eexists. split; [reflexivity|]. unfold no_server. by case_bool_decide. Qed.

Lemma ask_servers_ok d port requested cap now : lookup_step_ok requested now (ask_servers r d port requested cap now).
Proof.
  unfold ask_servers, select_indices. rewrite select_plan_eq. set (plan := reference_plan _ _ _ _).
  assert (let x := if parallel_query r then query_configured_servers_parallel r d plan requested now
                   else query_configured_servers r d plan requested now in
          now <= snd x /\ servers_ok r plan requested (fst x)) as Hx.
  { cbv zeta. destruct (parallel_query r).
    - destruct (parallel_servers_ok d plan requested now) as [[? _] ?]. done.
    - destruct (serial_loop_ok r plan d requested None false false now) as [[? _] ?]. done. }
  cbv zeta in Hx. destruct (if parallel_query r then _ else _) as [x t]. cbn [fst snd] in Hx. destruct Hx as [Ht [Hp _]].
  split; [done|]. destruct x as [y|[]|]; [|done]. cbn [res_bind fst].
  eexists. split; [reflexivity|]. destruct y as [a|n|]; cbv zeta; [|done|unfold no_server; by case_bool_decide].
  case_bool_decide as Hn; [done|]. cbn [resolved_ok]. apply cap_lookup_gives, from_ips_gives; [|apply filter_accepts].
  intros E. apply Hn. by rewrite E.
Qed.

Lemma configured_loop_ok turns depth d port requested cap now :
  lookup_step_ok requested now (configured_loop r turns depth d port requested cap now).
Proof.
  revert depth d. induction turns as [|turns IH]; intros depth d; cbn [configured_loop]; [apply no_server_ok|].
  destruct (hi_lookup (hosts r) d) as [[ip|ips|alias|rcode]|]; cbv zeta.
  - split; [done|]. eexists. split; [reflexivity|]. destruct (accepts requested ip) eqn:Ea; [|done]. cbn [negb resolved_ok].
    apply cap_lookup_gives. apply (from_ips_gives requested [ip]); [done|]. by constructor.
  - split; [done|]. eexists. split; [reflexivity|]. destruct (existsb (accepts requested) ips) eqn:Ea; [|done]. cbn [negb resolved_ok].
    apply cap_lookup_gives, from_ips_gives; [by apply filter_nonempty | apply filter_accepts].
  - case_if; [apply no_server_ok|]. case_if; [apply IH | apply ask_servers_ok].
  - split; [done|]. by eexists.
  - apply ask_servers_ok.
Qed.

(** ** The configured resolver as a resolver *)

Definition answer_ok (s : DnsQueryStrategy) (now : Z) (m : lookup_result) (t : Z) : Prop :=
  now <= t /\ m <> Panic /\ forall l, m = Ok l -> gives s l.

Lemma answer_err s now e t : now <= t -> answer_ok s now (Err e) t.
Proof. intros Ht. split_and!; done. Qed.

Lemma timeout_result {A} d (f : task A) now m t :
  timeout d f now = (m, t) -> (forall a u, f now = Some (a, u) -> now <= u) ->
  now <= t /\ t <= Z.max now (now + d) /\ forall a, m = Some a -> f now = Some (a, t).
Proof.
  intros E Hf. pose proof (timeout_at_within (now + d) f now Hf) as Hw. unfold timeout in E. rewrite E in Hw.
  unfold within in Hw. cbn [snd] in Hw. split_and!; [lia..|]. intros a ->. by apply timeout_at_result in E.
Qed.

Lemma ask_fallback_ok d port s now m t : ask_fallback r d port s now = Some (m, t) -> now <= t /\ m <> Panic.
Proof.
  assert (forall m t, resolve_all_with_strategy fallback d port s now = Some (m, t) -> now <= t /\ m <> Panic) as Hf.
  { intros m' t' E. by apply resolve_with_strategy_ok in E as (? & ? & _). }
  unfold ask_fallback. destruct (resolution_timeout r), (system_fallback_timeout r) as [lim|]; try apply Hf.
  destruct (timeout lim _ now) as [[m'|] t'] eqn:E; (apply timeout_result in E as (Ht & _ & Hm); [|by intros ? ? [? _]%Hf]); intros [= <- <-].
  - by apply Hf, Hm.
  - done.
Qed.

Lemma resolution_ok d port s now m t : resolution r d port s now = Some (m, t) -> answer_ok s now m t.
Proof.
  unfold resolution, resolve_configured.
  destruct (configured_loop_ok MAX_DNS_ALIAS_DEPTH 0 (default d (normalize_dns_name d)) port s None now) as [Ht (y & Ey & Hy)].
  destruct (configured_loop _ _ _ _ _ _ _ _) as [x t1]. cbn [fst snd] in *. subst x.
  destruct y as [l|d' cap|d' n|d'].
  - intros [= <- <-]. split_and!; [done..|]. by intros ? [= <-].
  - destruct (ask_fallback r d' port s t1) as [[m2 t2]|] eqn:Ef; [|done]. cbn [mbind option_bind]. intros [= <- <-].
    apply ask_fallback_ok in Ef as [Ht2 Hm2]. split_and!; [lia| |].
    + apply res_bind_no_panic; [done|]. intros l _. apply filter_strategy_safe.
    + intros l. destruct m2 as [l2| |]; [|done..]. apply filter_strategy_gives.
  - intros [= <- <-]. by apply answer_err.
  - intros [= <- <-]. by apply answer_err.
Qed.

Lemma effective_strategy_sub requested now s :
  effective_strategy r requested now = Some s ->
  forall l, gives s l -> gives requested l /\ gives (query_strategy r) l.
Proof.
  unfold effective_strategy. destruct (intersect (query_strategy r) requested) as [s1|] eqn:E1; [|done]. cbn [mbind option_bind].
  intros Hs l Hl. assert (gives s1 l) as Hg1.
  { case_if_in Hs; [|by simplify_eq]. destruct (system_route_strategy r now) as [routes|]; [|done]. cbn [mbind option_bind] in Hs.
    by destruct (gives_intersect _ _ _ l Hs Hl). }
  by destruct (gives_intersect _ _ _ l E1 Hg1).
Qed.

Lemma resolve_for_strategy_ok d port requested now m t :
  resolve_all_for_strategy r d port requested now = Some (m, t) -> answer_ok requested now m t.
Proof.
  unfold resolve_all_for_strategy. destruct (effective_strategy r requested now) as [s|] eqn:Es.
  2: { intros [= <- <-]. by apply answer_err. }
  assert (forall m t, resolution r d port s now = Some (m, t) -> answer_ok requested now m t) as Hr.
  { intros m' t' (Ht & Hm & Hg)%resolution_ok. split_and!; [done..|]. intros l Hl. by destruct (effective_strategy_sub _ _ _ Es l (Hg l Hl)). }
  destruct (resolution_timeout r) as [lim|]; [|apply Hr].
  destruct (timeout lim _ now) as [[m'|] t'] eqn:E; (apply timeout_result in E as (Ht & _ & Hm); [|by intros ? ? (? & _)%Hr]); intros [= <- <-].
  - by apply Hr, Hm.
  - by apply answer_err.
Qed.

#[export] Instance configured_resolver_laws : ResolverLaws (configured_resolver r).
Proof.
  split.
  - intros d port now m t E. by apply (resolve_for_strategy_ok d port UseIp) in E as (? & ? & _).
  - intros d port s now m t E. by apply resolve_for_strategy_ok in E.
Qed.

(** Without a server the lookup goes to the fallback; with one, or with a timeout around the fallback
    or around everything, it ends. *)
Lemma resolution_ends d port s now :
  system_fallback_timeout r <> None \/ policies (name_servers r) <> [] -> resolution_timeout r = None ->
  resolution r d port s now <> None.
Proof.
  intros Hend Hno. unfold resolution, resolve_configured.
  assert (forall turns depth d, forall d' cap t, configured_loop r turns depth d port s None now = (Ok (Fallback d' cap), t) ->
            policies (name_servers r) = []) as Hfb.
  { clear d. assert (forall d d' cap cap', no_server r d cap = Fallback d' cap' -> policies (name_servers r) = []) as Hns
      by (intros ? ? ? ?; unfold no_server; by case_bool_decide).
    assert (forall d d' cap t, ask_servers r d port s None now = (Ok (Fallback d' cap), t) -> policies (name_servers r) = []) as Hask.
    { intros d d' cap t. unfold ask_servers, select_indices. rewrite select_plan_eq.
      destruct (if parallel_query r then _ else _) as [x u]. destruct x as [[a|n|]|[]|]; cbn [res_bind]; cbv zeta; [| |by intros [= E _]; eauto|done].
      - case_if; by intros [=].
      - by intros [=]. }
    induction turns as [|turns IH]; intros depth d d' cap t; cbn [configured_loop]; [by intros [= E _]; eauto|].
    destruct (hi_lookup (hosts r) d) as [[ip|ips|alias|rcode]|]; cbv zeta; try (case_if; by intros [=]); try (by intros [=]); eauto.
    case_if; [by intros [= E _]; eauto|]. case_if; eauto. }
  destruct (configured_loop_ok MAX_DNS_ALIAS_DEPTH 0 (default d (normalize_dns_name d)) port s None now) as [_ (y & Ey & _)].
  destruct (configured_loop _ _ _ _ _ _ _ _) as [x t1] eqn:E. cbn [fst] in Ey. subst x.
  destruct y as [l|d' cap|d' n|d']; try done. apply Hfb in E. destruct Hend as [Hsys|]; [|done].
  unfold ask_fallback. rewrite Hno. destruct (system_fallback_timeout r) as [lim|]; [|done].
  by destruct (timeout lim _ t1) as [[m|] t].
Qed.

(** C5: a lookup through the configured resolver (static hosts, name servers asked one after another
    or at once, fallback) does not panic and ends no earlier than it starts. An answer is not empty
    and has only addresses of the families both the caller and the configuration ask for. With a
    resolution timeout it ends within it, and it can fail to end only where there is no name server,
    no timeout around the fallback, and none around the whole. *)
Theorem configured_lookup_sound (d : str) (port : Z) (requested : DnsQueryStrategy) (now : Z) :
  match resolve_all_for_strategy r d port requested now with
  | Some (m, t) =>
    now <= t /\ m <> Panic
    /\ (forall lim, resolution_timeout r = Some lim -> t <= Z.max now (now + lim))
    /\ forall l, m = Ok l -> gives requested l /\ gives (query_strategy r) l
  | None => resolution_timeout r = None /\ system_fallback_timeout r = None /\ policies (name_servers r) = []
  end.
Proof.
  unfold resolve_all_for_strategy. destruct (effective_strategy r requested now) as [s|] eqn:Es; [|split_and!; [lia | done | lia | done]].
  assert (forall m t, resolution r d port s now = Some (m, t) ->
    now <= t /\ m <> Panic /\ forall l, m = Ok l -> gives requested l /\ gives (query_strategy r) l) as Hr.
  { intros m t (Ht & Hm & Hg)%resolution_ok. split_and!; [done..|]. intros l Hl. by apply (effective_strategy_sub _ _ _ Es l (Hg l Hl)). }
  destruct (resolution_timeout r) as [lim|] eqn:El.
  - destruct (timeout lim _ now) as [[m|] t] eqn:E; (apply timeout_result in E as (Ht & Hle & Hm); [|by intros ? ? (? & _)%Hr]).
    + destruct (Hr m t (Hm m eq_refl)) as (? & ? & ?). split_and!; [done..| |done]. by intros ? [= <-].
    + split_and!; [done..| |done]. by intros ? [= <-].
  - pose proof (resolution_ends d port s now) as Hend. destruct (resolution r d port s now) as [[m t]|]; [|split_and!; [done|..]].
    + destruct (Hr m t eq_refl) as (? & ? & ?). split_and!; done.
    + destruct (system_fallback_timeout r); [|done]. by destruct Hend; [left|..].
    + destruct (policies (name_servers r)); [done|]. by destruct Hend; [right|..].
Qed.

(** every address that a lookup takes from the name servers comes from one server of the plan
    for the name, is of a family that the caller and that server's policy ask for, and passes the
    server's mandatory filters of expected and unexpected addresses. *)
Theorem name_server_answers_filtered (d : str) (port : Z) (requested : DnsQueryStrategy) (cap : option Z) (now t : Z) (l : DnsLookup) :
  ask_servers r d port requested cap now = (Ok (Resolved l), t) ->
  exists i ns,
    i ∈ reference_plan (policies (name_servers r)) (trim_end_dots d) (disable_fallback r) (disable_fallback_if_match r)
    /\ policies (name_servers r) !! Z.to_nat i = Some ns
    /\ Forall (fun a => exists ip, a = canonicalize_socket_addr (mkSocketAddr ip port) /\ server_gives ns requested ip) (socket_addrs l).
Proof.
  unfold ask_servers, select_indices. rewrite select_plan_eq. set (plan := reference_plan _ _ _ _).
  assert (servers_ok r plan requested (fst (if parallel_query r then query_configured_servers_parallel r d plan requested now
                                       else query_configured_servers r d plan requested now))) as Hx.
  { destruct (parallel_query r); [by destruct (parallel_servers_ok d plan requested now) | by destruct (serial_loop_ok r plan d requested None false false now)]. }
  destruct (if parallel_query r then _ else _) as [x u]. cbn [fst] in Hx. destruct Hx as [_ Ha].
  destruct x as [[a|n|]|[]|]; cbn [res_bind]; cbv zeta; [|done| |done].
  2: { unfold no_server. by case_bool_decide. }
  case_bool_decide; [done|]. intros [= <- <-]. destruct (Ha a eq_refl) as (i & ns & Hi & Hns & _ & Hg). exists i, ns. split_and!; [done..|].
  apply list.Forall_forall. intros x Hx.
  assert (x ∈ keep_new [] (map (fun ip => mkSocketAddr ip port) (List.filter (accepts requested) (answer_addresses a)))) as Hk
    by (destruct (age_ttl_cap cap (saturating_sub u now)); exact Hx).
  apply keep_new_spec in Hk as [Hk _]. apply list_elem_of_In in Hk. rewrite map_map, in_map_iff in Hk. destruct Hk as (ip & <- & Hip).
  exists ip. split; [done|]. apply filter_In in Hip as [Hip _]. exact (Forall_In _ _ _ Hg Hip).
Qed.

(** C17: the servers asked for a name are exactly those of the reference plan, whatever their number:
    the policies whose domains match, in order and up to the first final one; then, where falling
    back is allowed, the others that do not opt out of it, again up to the first final one; and the
    first server where that leaves none. No index is out of range and none is listed twice. *)
Theorem name_server_plan (d : str) (df dfm : bool) :
  exists plan, select_indices (name_servers r) d df dfm = Ok plan
    /\ plan = reference_plan (policies (name_servers r)) (trim_end_dots d) df dfm
    /\ NoDup plan /\ Forall (fun i => 0 <= i < len (policies (name_servers r))) plan.
Proof.
  exists (reference_plan (policies (name_servers r)) (trim_end_dots d) df dfm). unfold select_indices. rewrite select_plan_eq. split_and!; [done..| |].
  - apply reference_plan_nodup.
  - apply reference_plan_range.
Qed.
End Parallel.

(** ** The theorems at work *)

Section Sample.
#[local] Existing Instance literal_regex.
#[local] Existing Instance scan_automaton.

(** The server on port 53 answers every query, after a millisecond; the others give nothing. *)
#[local] Instance sample_world : DnsWorld := {|
  exchange srv _ _ _ now :=
    match srv with
    | Socket (mkSocketAddr _ 53) => Some (Ok (response 7 0x8180 0 0 sample_name A sample_answers []), now + 1000000)
    | _ => Some (Err (invalid_dns_response "refused"), now + 1)
    end;
  fallback := system_resolver (fun _ _ now => Some (Ok [mkSocketAddr (V4 1) 443], now));
  route_families _ := mkRouteFamilies true true;
  random_id _ _ := 7;
  random_padding _ := 0
|}.

#[local] Instance sample_world_laws : DnsWorldLaws.
Proof.
  split.
  - intros srv kind meta query now m t. cbn [exchange sample_world].
    destruct srv as [[ip port]|]; repeat case_match; intros [= <- <-]; split; (done || lia).
  - apply system_resolver_laws. intros d port now m t [= <- <-]. split; done.
Qed.

Definition sample_policy (port id : Z) : NameServerPolicy :=
  mkNameServerPolicy (Socket (mkSocketAddr (V4 134744072) port)) None Classic None (mkDms None 0)
    (fb_build fb_default) (fb_build fb_default) false UseIpv4 false false None None id.

Definition sample_resolver (parallel : bool) : ConfiguredDnsResolver :=
  with_parallel_query (with_name_server_policies (without_system_fallback_timeout (ConfiguredDnsResolver_new hi_new []))
                         [sample_policy 54 1; sample_policy 53 2]) parallel.

Definition sample_answer : ConfiguredDnsAddresses := mkDnsAddresses [V4 16909060; V4 84281096] (from_secs 20).

Lemma parallel_plan_refines_witness :
  query_configured_servers_parallel (sample_resolver true) (join_dots sample_name) [0; 1] UseIp 0
    = (Ok (ServersAnswer sample_answer), 1000000)
  /\ 0 <= 1000000 <= 0 + longest_timeout (sample_resolver true) (plan_servers (sample_resolver true) [0; 1]).
Proof.
  assert (query_configured_servers_parallel (sample_resolver true) (join_dots sample_name) [0; 1] UseIp 0
          = (Ok (ServersAnswer sample_answer), 1000000)) as E by (vm_compute; reflexivity).
  split; [exact E|]. pose proof (parallel_plan_refines (sample_resolver true) (join_dots sample_name) [0; 1] UseIp 0) as Hp.
  rewrite E in Hp. exact (proj1 Hp).
Defined.

Definition sample_lookup (t : Z) : DnsLookup :=
  mkDnsLookup [mkSocketAddr (V4 16909060) 443; mkSocketAddr (V4 84281096) 443] (Some (from_secs 20)) t.

Lemma configured_lookup_sound_witness :
  resolve_all_for_strategy (sample_resolver false) (join_dots sample_name) 443 UseIpv4 0 = Some (Ok (sample_lookup 1000001), 1000001)
  /\ gives UseIpv4 (sample_lookup 1000001).
Proof.
  assert (resolve_all_for_strategy (sample_resolver false) (join_dots sample_name) 443 UseIpv4 0
          = Some (Ok (sample_lookup 1000001), 1000001)) as E by (vm_compute; reflexivity).
  split; [exact E|]. pose proof (configured_lookup_sound (sample_resolver false) (join_dots sample_name) 443 UseIpv4 0) as Hp.
  rewrite E in Hp. destruct Hp as (_ & _ & _ & Hg). exact (proj1 (Hg _ eq_refl)).
Defined.

Lemma name_server_answers_filtered_witness :
  exists i ns, policies (name_servers (sample_resolver false)) !! Z.to_nat i = Some ns
    /\ Forall (fun a => exists ip, a = canonicalize_socket_addr (mkSocketAddr ip 443) /\ server_gives ns UseIpv4 ip)
         (socket_addrs (sample_lookup 1000001)).
Proof.
  destruct (name_server_answers_filtered (sample_resolver false) (join_dots sample_name) 443 UseIpv4 None 0 1000001
              (sample_lookup 1000001)) as (i & ns & _ & Hi & Hf); [vm_compute; reflexivity|].
  exists i, ns. split; [exact Hi | exact Hf].
Defined.
End Sample.
