(* ===== verification/DnsCache.v ===== *)
(** The cache over a resolver, [CachingDnsResolver] of [crates/xray-transport/src/dns.rs]: cached
    answers with their expiry, answers served stale while they are refreshed, one lookup in flight
    for each key with the tasks that wait for it, and the eviction of the least recently used.

    The tasks that share the cache are a transition system: each locked section is one step, and so
    are the store of an outcome and the wake-up of the waiters, so that the steps of different tasks
    interleave as the locks let them. A refresh task is polled at least once before it is dropped. *)
From Stdlib Require Import Strings.Byte Strings.String.
From stdpp Require Import gmap.
From S2P Require Import Prelude Net DnsMessage DnsLookup.

(** ** Outcomes *)

Inductive InFlightDnsOutcome :=
| OutcomeResolved (l : DnsLookup)
| OutcomeNeedsDns (d : str)
| OutcomeDns (d : str) (port : Z) (kind : IoKind) (message : string)
| OutcomeNameError (d : str) (port : Z)
| OutcomeNoData (d : str) (port : Z)
| OutcomeRcode (d : str) (port rcode : Z)
| OutcomeNoAddress (d : str) (port : Z)
| OutcomeOther (message : string).

(** The texts of the errors that are not of DNS are their [Display]. *)
Definition from_error (e : TransportError) : InFlightDnsOutcome :=
  match e with
  | NeedsDns d => OutcomeNeedsDns d
  | Dns d port source => OutcomeDns d port (dns_kind source) (dns_message source)
  | DnsNameError d port => OutcomeNameError d port
  | DnsNoData d port => OutcomeNoData d port
  | DnsRcode d port rcode => OutcomeRcode d port rcode
  | NoResolvedAddress d port => OutcomeNoAddress d port
  | OtherTransport text => OutcomeOther text
  end.

(** [from_result]; no outcome where the lookup panics *)
Definition from_result (m : lookup_result) : option InFlightDnsOutcome :=
  match m with
  | Ok l => Some (OutcomeResolved l)
  | Err e => Some (from_error e)
  | Panic => None
  end.

Definition into_result (o : InFlightDnsOutcome) (requested_domain : str) (requested_port : Z) : lookup_result :=
  match o with
  | OutcomeResolved l => Ok l
  | OutcomeNeedsDns d => Err (NeedsDns d)
  | OutcomeDns d port kind message => Err (Dns d port (mkDnsIoError kind message))
  | OutcomeNameError d port => Err (DnsNameError d port)
  | OutcomeNoData d port => Err (DnsNoData d port)
  | OutcomeRcode d port rcode => Err (DnsRcode d port rcode)
  | OutcomeNoAddress d port => Err (NoResolvedAddress d port)
  | OutcomeOther message => Err (Dns requested_domain requested_port (mkDnsIoError OtherKind message))
  end.

(** ** The state of the cache *)

#[export] Instance DnsQueryStrategy_countable : Countable DnsQueryStrategy :=
  inj_countable' (fun s => match s with UseIp => 0%nat | UseIpv4 => 1%nat | UseIpv6 => 2%nat end)
    (fun n => match n with 0%nat => UseIp | 1%nat => UseIpv4 | _ => UseIpv6 end)
    ltac:(by intros []).

Definition Key : Type := str * Z * DnsQueryStrategy.

Record CachedDnsOutcome := mkCached {
  cached_outcome : InFlightDnsOutcome;
  expires_at : Z;
  stale_until : Z;
  last_used : Z
}.

(** A lookup in flight is its address, a number. *)
Record DnsCacheState := mkCacheState {
  resolved : gmap Key CachedDnsOutcome;
  in_flight : gmap Key nat;
  access_sequence : Z
}.

Definition DNS_NEGATIVE_TTL : Z := from_secs 30.
Definition DNS_CACHE_MAX_ENTRIES : nat := 256.

(** [CachingDnsResolver] without its state *)
Record CachingDnsResolver := mkCaching {
  cache_ttl : Z;
  cap_authoritative_ttl : bool;
  negative_ttl : Z;
  stale_ttl : option Z
}.
Definition caching_new : CachingDnsResolver := mkCaching DNS_DEFAULT_TTL false DNS_NEGATIVE_TTL None.
Definition caching_with_ttl (ttl : Z) : CachingDnsResolver := mkCaching ttl true DNS_NEGATIVE_TTL None.
Definition caching_with_stale_ttl (stale : Z) : CachingDnsResolver :=
  mkCaching DNS_DEFAULT_TTL false DNS_NEGATIVE_TTL (if stale =? 0 then None else Some stale).

Definition touch (seq : Z) (e : CachedDnsOutcome) : CachedDnsOutcome :=
  mkCached (cached_outcome e) (expires_at e) (stale_until e) seq.

Definition next_access_sequence (s : DnsCacheState) : Z * DnsCacheState :=
  let seq := (access_sequence s + 1) mod 2 ^ 64 in
  if seq =? 0 then (1, mkCacheState (touch 0 <$> resolved s) (in_flight s) 1)
  else (seq, mkCacheState (resolved s) (in_flight s) seq).

(** [Instant::checked_add], where an instant is a signed count of seconds with nanoseconds *)
Definition instant_max : Z := (2 ^ 63 - 1) * 1000000000 + 999999999.
Definition checked_add (a d : Z) : option Z := if a + d <=? instant_max then Some (a + d) else None.

(** ** A leader ends *)

(** [iter().min_by_key(..)]: the first of the least ones *)
Definition lru_key (m : gmap Key CachedDnsOutcome) : option Key :=
  fst <$> fold_left (fun acc x =>
            match acc with
            | Some y => if last_used (snd x) <? last_used (snd y) then Some x else acc
            | None => Some x
            end) (map_to_list m) None.

(** The time an outcome is kept, and whether it may be served stale *)
Definition outcome_ttl (c : CachingDnsResolver) (o : InFlightDnsOutcome) (now : Z) : option Z * bool :=
  match o with
  | OutcomeResolved l => (ttl ← ttl_now l now; if ttl =? 0 then None else Some ttl, true)
  | OutcomeNameError _ _ | OutcomeNoData _ _ => (if negative_ttl c =? 0 then None else Some (negative_ttl c), false)
  | _ => (None, false)
  end.

Definition make_room (m : gmap Key CachedDnsOutcome) (now : Z) : gmap Key CachedDnsOutcome :=
  let m := if (DNS_CACHE_MAX_ENTRIES <=? size m)%nat then filter (fun x => now < stale_until (snd x)) m else m in
  if (DNS_CACHE_MAX_ENTRIES <=? size m)%nat then match lru_key m with Some k => delete k m | None => m end else m.

Definition cache_outcome (c : CachingDnsResolver) (key : Key) (o : InFlightDnsOutcome) (now : Z) (s : DnsCacheState)
    : DnsCacheState :=
  match outcome_ttl c o now with
  | (Some ttl, allow_stale) =>
    match checked_add now ttl with
    | Some expires =>
      let stale := if allow_stale then default expires (d ← stale_ttl c; checked_add expires d) else expires in
      let '(seq, s) := next_access_sequence (mkCacheState (make_room (resolved s) now) (in_flight s) (access_sequence s)) in
      mkCacheState (<[key := mkCached o expires stale seq]> (resolved s)) (in_flight s) (access_sequence s)
    | None => s
    end
  | (None, _) => s
  end.

Definition still_leader (key : Key) (lookup : nat) (s : DnsCacheState) : bool := bool_decide (in_flight s !! key = Some lookup).

Definition leave_flight (key : Key) (s : DnsCacheState) : DnsCacheState :=
  mkCacheState (resolved s) (delete key (in_flight s)) (access_sequence s).

(** The locked section of [InFlightDnsLeader::finish] *)
Definition finish_locked (c : CachingDnsResolver) (key : Key) (lookup : nat) (o : InFlightDnsOutcome) (now : Z) (s : DnsCacheState)
    : DnsCacheState :=
  if still_leader key lookup s then cache_outcome c key o now (leave_flight key s) else s.

(** The locked section of its [Drop] *)
Definition drop_locked (key : Key) (lookup : nat) (s : DnsCacheState) : DnsCacheState :=
  if still_leader key lookup s then leave_flight key s else s.

(** ** A lookup *)

Definition cache_key (d : str) (port : Z) (s : DnsQueryStrategy) : Key :=
  (default (to_ascii_lowercase d) (normalize_dns_name d), port, s).

(** What the locked section of [resolve_all_with_strategy] decides, with the address [fresh] for a
    new lookup in flight *)
Inductive Entered :=
| EnteredCached (o : InFlightDnsOutcome) (expires : Z) (refresh : option nat)
| EnteredWaiter (lookup : nat)
| EnteredLeader (lookup : nat).

Definition enter_locked (key : Key) (fresh : nat) (now : Z) (s : DnsCacheState) : Entered * DnsCacheState :=
  let '(seq, s) := next_access_sequence s in
  let cached :=
    e ← resolved s !! key;
    if now <? expires_at e then Some (e, false) else if now <? stale_until e then Some (e, true) else None in
  match cached with
  | Some (e, stale) =>
    let s := mkCacheState (<[key := touch seq e]> (resolved s)) (in_flight s) (access_sequence s) in
    if stale && negb (bool_decide (is_Some (in_flight s !! key)))
    then (EnteredCached (cached_outcome e) (expires_at e) (Some fresh),
          mkCacheState (resolved s) (<[key := fresh]> (in_flight s)) (access_sequence s))
    else (EnteredCached (cached_outcome e) (expires_at e) None, s)
  | None =>
    let s := mkCacheState (delete key (resolved s)) (in_flight s) (access_sequence s) in
    match in_flight s !! key with
    | Some lookup => (EnteredWaiter lookup, s)
    | None => (EnteredLeader fresh, mkCacheState (resolved s) (<[key := fresh]> (in_flight s)) (access_sequence s))
    end
  end.

(** What is returned of a cached outcome *)
Definition serve_cached (o : InFlightDnsOutcome) (expires : Z) (d : str) (port now : Z) : lookup_result :=
  into_result (match o with OutcomeResolved l => OutcomeResolved (with_cache_expiry l expires now) | o => o end) d port.

Definition resolve_dns_lookup (inner : DnsResolver) (d : str) (port : Z) (s : DnsQueryStrategy) (ttl : Z) (cap : bool)
    : task lookup_result :=
  fun now =>
    '(m, t) ← match s with
              | UseIp => resolve_all inner d port now
              | UseIpv4 | UseIpv6 => resolve_all_with_strategy inner d port s now
              end;
    Some (let? l := m in
          let? l := ensure_non_empty l d port in
          Ok (if cap then with_ttl_cap l ttl t else with_fallback_ttl l ttl t), t).

(** ** The tasks that share the cache *)

(** A lookup in flight, with the key it was made for *)
Record InFlightDnsLookup := mkInFlight { made_for : Key; lookup_outcome : option InFlightDnsOutcome }.

(** Where a task is: before its locked section; waiting for a lookup in flight, and whether it has
    been notified; a refresh not yet polled; a leader whose lookup has begun, whose outcome is stored,
    and which has left the flight, with what it returns unless it was dropped; at the end. *)
Inductive Phase :=
| Ready
| Waiting (lookup : nat) (woken : bool)
| Spawned (lookup : nat)
| Resolving (lookup : nat) (since : Z)
| Stored (lookup : nat) (o : InFlightDnsOutcome) (m : lookup_result)
| Notifying (lookup : nat) (m : option lookup_result)
| Finished (m : lookup_result)
| Gone.

Record Task := mkTask { t_domain : str; t_port : Z; t_strategy : DnsQueryStrategy; t_phase : Phase }.
Definition with_phase (tk : Task) (p : Phase) : Task := mkTask (t_domain tk) (t_port tk) (t_strategy tk) p.
Definition task_key (tk : Task) : Key := cache_key (t_domain tk) (t_port tk) (t_strategy tk).

Record World := mkWorld {
  cache : DnsCacheState;
  lookups : list InFlightDnsLookup;
  tasks : list Task;
  clock : Z
}.

Inductive Event :=
| Call (d : str) (port : Z) (s : DnsQueryStrategy)
| Enter (t : nat) (now : Z)
| Poll (t : nat)
| Resolve (t : nat)
| Commit (t : nat)
| Notify (t : nat)
| Wake (t : nat)
| Cancel (t : nat)
| Tick (d : Z).

(** [notify_waiters] *)
Definition wake (lookup : nat) (tk : Task) : Task :=
  match t_phase tk with
  | Waiting l _ => if (l =? lookup)%nat then with_phase tk (Waiting l true) else tk
  | _ => tk
  end.

Definition init_cache : DnsCacheState := mkCacheState ∅ ∅ 0.
Definition init (now : Z) : World := mkWorld init_cache [] [] now.

Section Steps.
Context (inner : DnsResolver) (c : CachingDnsResolver).

(** The locked section at an instant read before it, and what follows it at once *)
Definition enter (w : World) (t : nat) (tk : Task) (now : Z) : World :=
  let '(e, s) := enter_locked (task_key tk) (length (lookups w)) now (cache w) in
  let become p := <[t := with_phase tk p]> (tasks w) in
  let created := lookups w ++ [mkInFlight (task_key tk) None] in
  match e with
  | EnteredCached o expires refresh =>
    let tasks := become (Finished (serve_cached o expires (t_domain tk) (t_port tk) (clock w))) in
    match refresh with
    | Some l => mkWorld s created (tasks ++ [with_phase tk (Spawned l)]) (clock w)
    | None => mkWorld s (lookups w) tasks (clock w)
    end
  | EnteredWaiter l => mkWorld s (lookups w) (become (Waiting l false)) (clock w)
  | EnteredLeader l => mkWorld s created (become (Resolving l (clock w))) (clock w)
  end.

(** The leader is dropped, by the end of its task or by a panic of the lookup. *)
Definition abandon (w : World) (t : nat) (tk : Task) (l : nat) : World :=
  mkWorld (drop_locked (task_key tk) l (cache w)) (lookups w) (<[t := with_phase tk (Notifying l None)]> (tasks w)) (clock w).

Definition store_outcome (fs : list InFlightDnsLookup) (l : nat) (o : InFlightDnsOutcome) : list InFlightDnsLookup :=
  alter (fun f => mkInFlight (made_for f) (Some o)) l fs.

Definition set_phase (w : World) (t : nat) (tk : Task) (p : Phase) : World :=
  mkWorld (cache w) (lookups w) (<[t := with_phase tk p]> (tasks w)) (clock w).

Definition task_step (e : Event) (w : World) (t : nat) (tk : Task) : option World :=
  match e, t_phase tk with
  | Enter _ now, Ready => if now <=? clock w then Some (enter w t tk now) else None
  | Poll _, Spawned l => Some (set_phase w t tk (Resolving l (clock w)))
  | Resolve _, Resolving l since =>
    '(m, u) ← resolve_dns_lookup inner (t_domain tk) (t_port tk) (t_strategy tk) (cache_ttl c) (cap_authoritative_ttl c) since;
    if clock w <? u then None
    else
      match from_result m with
      | Some o =>
        Some (mkWorld (cache w) (store_outcome (lookups w) l o) (<[t := with_phase tk (Stored l o m)]> (tasks w)) (clock w))
      | None => Some (abandon w t tk l)
      end
  | Commit _, Stored l o m =>
    Some (mkWorld (finish_locked c (task_key tk) l o (clock w) (cache w)) (lookups w)
            (<[t := with_phase tk (Notifying l (Some m))]> (tasks w)) (clock w))
  | Notify _, Notifying l m =>
    Some (mkWorld (cache w) (lookups w)
            (<[t := with_phase tk (match m with Some m => Finished m | None => Gone end)]> (map (wake l) (tasks w))) (clock w))
  | Wake _, Waiting l true =>
    f ← lookups w !! l;
    Some (set_phase w t tk (match lookup_outcome f with
                            | Some o => Finished (into_result o (t_domain tk) (t_port tk))
                            | None => Ready
                            end))
  | Cancel _, (Ready | Waiting _ _) => Some (set_phase w t tk Gone)
  | Cancel _, Resolving l _ => Some (abandon w t tk l)
  | _, _ => None
  end.

Definition event_task (e : Event) : option nat :=
  match e with
  | Call _ _ _ | Tick _ => None
  | Enter t _ | Poll t | Resolve t | Commit t | Notify t | Wake t | Cancel t => Some t
  end.

Definition step (e : Event) (w : World) : option World :=
  match e with
  | Call d port s => Some (mkWorld (cache w) (lookups w) (tasks w ++ [mkTask d port s Ready]) (clock w))
  | Tick d => if d <? 0 then None else Some (mkWorld (cache w) (lookups w) (tasks w) (clock w + d))
  | e => t ← event_task e; tk ← tasks w !! t; task_step e w t tk
  end.

Fixpoint run (es : list Event) (w : World) : option World :=
  match es with
  | [] => Some w
  | e :: es => w ← step e w; run es w
  end.

Inductive reachable : World -> Prop :=
| reach_init now : reachable (init now)
| reach_step w e w' : reachable w -> step e w = Some w' -> reachable w'.
End Steps.

(** ** The cache keeps its entries in order *)

Definition outcome_ok (s : DnsQueryStrategy) (o : InFlightDnsOutcome) : Prop :=
  match o with OutcomeResolved l => gives s l | _ => True end.

Lemma into_result_ok s o d port :
  outcome_ok s o -> into_result o d port <> Panic /\ forall l, into_result o d port = Ok l -> gives s l.
Proof. destruct o; cbn [into_result outcome_ok]; intros Ho; split; try done. by intros l' [= <-]. Qed.

Lemma serve_cached_ok s o expires d port now :
  outcome_ok s o -> serve_cached o expires d port now <> Panic /\ forall l, serve_cached o expires d port now = Ok l -> gives s l.
Proof. intros Ho. apply into_result_ok. by destruct o. Qed.

Section Entries.
Context (c : CachingDnsResolver).

(** Durations are not negative. *)
Definition config_ok : Prop := 0 <= negative_ttl c /\ forall d, stale_ttl c = Some d -> 0 <= d.

(** Only answers and authoritative negative answers are cached; the negative ones are not served
    stale, and the others at most for the stale time. *)
Definition entry_ok (k : Key) (e : CachedDnsOutcome) : Prop :=
  match cached_outcome e with
  | OutcomeResolved l => gives (snd k) l /\ expires_at e <= stale_until e <= expires_at e + default 0 (stale_ttl c)
  | OutcomeNameError _ _ | OutcomeNoData _ _ => stale_until e = expires_at e
  | _ => False
  end.

Record cache_ok (s : DnsCacheState) : Prop := {
  ca_entry k e : resolved s !! k = Some e -> entry_ok k e /\ last_used e <= access_sequence s;
  ca_size : (size (resolved s) <= DNS_CACHE_MAX_ENTRIES)%nat;
  ca_seq : 0 <= access_sequence s < 2 ^ 64
}.

Lemma cache_ok_init : cache_ok init_cache.
Proof. split; [by intros k e | vm_compute; lia | done]. Qed.

(** The flight says nothing of the entries. *)
Lemma cache_ok_flight s f : cache_ok s -> cache_ok (mkCacheState (resolved s) f (access_sequence s)).
Proof. intros [He Hs Hq]. by split. Qed.

(** Fewer entries are as good. *)
Lemma cache_ok_sub s m : cache_ok s -> m ⊆ resolved s -> cache_ok (mkCacheState m (in_flight s) (access_sequence s)).
Proof.
  intros [He Hs Hq] Hm. split; [|by etrans; [apply map_subseteq_size|]|done].
  intros k e Hk. apply He. by eapply lookup_weaken.
Qed.

Lemma next_sequence_ok s seq s' :
  next_access_sequence s = (seq, s') -> cache_ok s ->
  cache_ok s' /\ in_flight s' = in_flight s /\ seq = access_sequence s'
  /\ size (resolved s') = size (resolved s)
  /\ forall k, touch 0 <$> resolved s' !! k = touch 0 <$> resolved s !! k.
Proof.
  unfold next_access_sequence. cbv zeta. intros E [He Hs Hq].
  destruct (Z.eqb_spec ((access_sequence s + 1) mod 2 ^ 64) 0) as [Ez|Ez]; injection E as <- <-; cbn [resolved in_flight access_sequence].
  - split_and!; [split; cbn [resolved access_sequence] | done | done | by apply map_size_fmap |].
    + intros k e. rewrite lookup_fmap. destruct (resolved s !! k) as [e0|] eqn:Hk; [|done]. intros [= <-].
      destruct (He k e0 Hk) as [Hok _]. split; [exact Hok | done].
    + by rewrite map_size_fmap.
    + done.
    + intros k. rewrite lookup_fmap. by destruct (resolved s !! k).
  - assert (access_sequence s + 1 <> 2 ^ 64) by (by intros E1; rewrite E1 in Ez).
    rewrite Z.mod_small by lia. split_and!; try done. split; cbn [resolved access_sequence]; [|done|lia].
    intros k e Hk. destruct (He k e Hk). split; [done | lia].
Qed.

Lemma cache_ok_insert s k e :
  cache_ok s -> entry_ok k e -> last_used e <= access_sequence s ->
  (is_Some (resolved s !! k) \/ (size (resolved s) < DNS_CACHE_MAX_ENTRIES)%nat) ->
  cache_ok (mkCacheState (<[k := e]> (resolved s)) (in_flight s) (access_sequence s)).
Proof.
  intros [He Hs Hq] Hok Hlu Hroom. split; cbn [resolved access_sequence]; [| |done].
  - intros k' e' [[<- <-]|[_ Hk]]%lookup_insert_Some; [done | by apply He].
  - destruct (resolved s !! k) as [e0|] eqn:Ek.
    + by rewrite map_size_insert_Some by (by rewrite Ek).
    + rewrite map_size_insert_None by done. destruct Hroom as [[? [=]]|]; lia.
Qed.

Lemma touch_entry_ok k seq e e0 : touch 0 e = touch 0 e0 -> entry_ok k e0 -> entry_ok k (touch seq e).
Proof. unfold entry_ok, touch. destruct e, e0; simpl. intros [= -> -> ->]. done. Qed.

(** [min_by_key] gives a least one where there is one. *)
Lemma lru_key_spec m :
  match lru_key m with
  | Some k => exists e, m !! k = Some e /\ forall k' e', m !! k' = Some e' -> last_used e <= last_used e'
  | None => m = ∅
  end.
Proof.
  unfold lru_key. set (f := fun acc x => _).
  assert (forall l acc, match fold_left f l acc with
            | Some x => (acc = Some x \/ x ∈ l) /\ (forall y, acc = Some y \/ y ∈ l -> last_used (snd x) <= last_used (snd y))
            | None => acc = None /\ l = []
            end) as Hf.
  { induction l as [|a l IH]; intros acc; cbn [fold_left].
    - destruct acc as [x|]; [|done]. split; [by left|]. intros y [[= <-]|Hy%elem_of_nil]; done.
    - specialize (IH (f acc a)). destruct (fold_left f l (f acc a)) as [x|].
      2: { destruct IH as [IH _]. unfold f in IH. destruct acc as [y|]; [|done]. by case_if_in IH. }
      destruct IH as [Hx Hmin]. unfold f in Hx, Hmin. destruct acc as [b|].
      + destruct (Z.ltb_spec (last_used (snd a)) (last_used (snd b))) as [Hab|Hab]; (split; [set_solver|]);
          intros y [[= <-]|[->|Hy]%elem_of_cons]; try (apply Hmin; by auto).
        * pose proof (Hmin a ltac:(by left)). lia.
        * pose proof (Hmin b ltac:(by left)). lia.
      + split; [set_solver|]. intros y [?|[->|Hy]%elem_of_cons]; [done|..]; apply Hmin; by auto. }
  specialize (Hf (map_to_list m) None). destruct (fold_left f (map_to_list m) None) as [[k e]|]; cbn.
  - destruct Hf as [[?|Hx] Hmin]; [done|]. exists e. split; [by apply elem_of_map_to_list|].
    intros k' e' Hk'. apply (Hmin (k', e')). right. by apply elem_of_map_to_list.
  - destruct Hf as [_ Hl]. by apply map_to_list_empty_iff.
Qed.

Lemma cache_room_ok m now :
  (size m <= DNS_CACHE_MAX_ENTRIES)%nat -> make_room m now ⊆ m /\ (size (make_room m now) < DNS_CACHE_MAX_ENTRIES)%nat.
Proof.
  intros Hs. unfold make_room. cbv zeta.
  set (m1 := if (DNS_CACHE_MAX_ENTRIES <=? size m)%nat then _ else m).
  assert (m1 ⊆ m) as H1 by (unfold m1; case_if; [apply map_filter_subseteq | done]).
  pose proof (map_subseteq_size _ _ H1) as Hs1.
  destruct (Nat.leb_spec DNS_CACHE_MAX_ENTRIES (size m1)) as [Hge|Hlt]; [|done].
  pose proof (lru_key_spec m1) as Hl. destruct (lru_key m1) as [k|].
  - destruct Hl as (e & Hk & _). split; [by etrans; [apply delete_subseteq|]|].
    rewrite map_size_delete_Some by (by rewrite Hk). assert (0 < DNS_CACHE_MAX_ENTRIES)%nat by (unfold DNS_CACHE_MAX_ENTRIES; lia). lia.
  - rewrite Hl, map_size_empty in Hge. unfold DNS_CACHE_MAX_ENTRIES in Hge. lia.
Qed.

Lemma cache_outcome_ok k o now s :
  config_ok -> cache_ok s -> outcome_ok (snd k) o ->
  cache_ok (cache_outcome c k o now s) /\ in_flight (cache_outcome c k o now s) = in_flight s.
Proof.
  intros [Hneg Hst] Hs Ho. unfold cache_outcome. destruct (outcome_ttl c o now) as [[ttl|] allow] eqn:Et; [|done].
  destruct (checked_add now ttl) as [expires|] eqn:Ee; [|done]. cbv zeta.
  destruct (cache_room_ok (resolved s) now (ca_size s Hs)) as [Hsub Hroom].
  destruct (next_access_sequence _) as [seq s1] eqn:En.
  destruct (next_sequence_ok _ _ _ En (cache_ok_sub s _ Hs Hsub)) as (Hs1 & Hf & -> & Hsize & _). cbn [resolved in_flight] in Hsize, Hf.
  split; [|exact Hf]. apply cache_ok_insert; [done| |done | right; lia].
  unfold entry_ok. cbn [cached_outcome stale_until expires_at]. destruct o; cbn [outcome_ttl] in Et; try done.
  - injection Et as _ <-. split; [done|]. destruct (stale_ttl c) as [d|] eqn:Ed; cbn [mbind option_bind default]; [|unfold default; simpl; lia].
    specialize (Hst d eq_refl). unfold checked_add. case_if; unfold default; simpl; lia.
  - by injection Et as _ <-.
  - by injection Et as _ <-.
Qed.

Lemma finish_locked_ok k l o now s :
  config_ok -> cache_ok s -> outcome_ok (snd k) o ->
  cache_ok (finish_locked c k l o now s)
  /\ in_flight (finish_locked c k l o now s) = if still_leader k l s then delete k (in_flight s) else in_flight s.
Proof.
  intros Hc Hs Ho. unfold finish_locked. case_if; [|done].
  destruct (cache_outcome_ok k o now (leave_flight k s)) as [? ->]; [done | by apply cache_ok_flight | done|]. done.
Qed.

Lemma drop_locked_ok k l s :
  cache_ok s -> cache_ok (drop_locked k l s)
  /\ in_flight (drop_locked k l s) = if still_leader k l s then delete k (in_flight s) else in_flight s.
Proof. intros Hs. unfold drop_locked. case_if; [|done]. split; [by apply cache_ok_flight | done]. Qed.

(** What the locked section decides *)
Definition entered_ok (k : Key) (fresh : nat) (now : Z) (s : DnsCacheState) (e : Entered) (s' : DnsCacheState) : Prop :=
  match e with
  | EnteredCached o expires refresh =>
    (exists e0, resolved s !! k = Some e0 /\ cached_outcome e0 = o /\ expires_at e0 = expires /\ now < stale_until e0
       /\ (expires_at e0 <= now -> exists l, o = OutcomeResolved l))
    /\ outcome_ok (snd k) o
    /\ match refresh with
       | Some l => l = fresh /\ in_flight s !! k = None /\ in_flight s' = <[k := fresh]> (in_flight s)
       | None => in_flight s' = in_flight s
       end
  | EnteredWaiter l => in_flight s !! k = Some l /\ in_flight s' = in_flight s
  | EnteredLeader l => l = fresh /\ in_flight s !! k = None /\ in_flight s' = <[k := fresh]> (in_flight s)
  end.

Lemma touch_eq e e0 : touch 0 e = touch 0 e0 -> cached_outcome e = cached_outcome e0 /\ expires_at e = expires_at e0 /\ stale_until e = stale_until e0.
Proof. destruct e, e0; unfold touch; simpl. by intros [= -> -> ->]. Qed.

Lemma entry_serves k e now :
  entry_ok k e -> now < stale_until e -> outcome_ok (snd k) (cached_outcome e) /\ (expires_at e <= now -> exists l, cached_outcome e = OutcomeResolved l).
Proof.
  unfold entry_ok. intros He Hn. destruct (cached_outcome e) as [l| | | | | | |]; try done; split; try done; [by destruct He | by eauto | lia | lia].
Qed.

Lemma enter_locked_ok k fresh now s :
  cache_ok s -> let '(e, s') := enter_locked k fresh now s in cache_ok s' /\ entered_ok k fresh now s e s'.
Proof.
  intros Hs. unfold enter_locked. destruct (next_access_sequence s) as [seq s1] eqn:En.
  destruct (next_sequence_ok _ _ _ En Hs) as (Hs1 & Hf & -> & _ & Htouch). cbv zeta. specialize (Htouch k).
  assert (cache_ok (mkCacheState (delete k (resolved s1)) (in_flight s1) (access_sequence s1))) as Hdel
    by (apply cache_ok_sub; [done | apply delete_subseteq]).
  set (cached := e ← resolved s1 !! k; _). destruct cached as [[e stale]|] eqn:Ec; subst cached.
  - destruct (resolved s1 !! k) as [e1|] eqn:Ek; [|done]. cbn [mbind option_bind] in Ec.
    destruct (resolved s !! k) as [e0|] eqn:Ek0; [|done]. cbn in Htouch. injection Htouch as Ht.
    assert (e1 = e /\ now < stale_until e /\ (stale = false -> now < expires_at e)) as (-> & Hn & Hfresh).
    { destruct (ca_entry s1 Hs1 k e1 Ek) as [Hok _]. unfold entry_ok in Hok.
      destruct (Z.ltb_spec now (expires_at e1)); [injection Ec as <- <-; split_and!; [done| |done]; destruct (cached_outcome e1); (done || lia)|].
      destruct (Z.ltb_spec now (stale_until e1)); [|done]. by injection Ec as <- <-. }
    destruct (touch_eq e e0) as (Eo & Ee & Eu); [unfold touch; by f_equal|].
    destruct (ca_entry s1 Hs1 k e Ek) as [Hok _]. destruct (entry_serves k e now Hok Hn) as [Ho Hst].
    assert (cache_ok (mkCacheState (<[k := touch (access_sequence s1) e]> (resolved s1)) (in_flight s1) (access_sequence s1))) as Hins.
    { apply cache_ok_insert; [done | by apply (touch_entry_ok k _ e e) | done | left; by rewrite Ek]. }
    assert (exists e0', resolved s !! k = Some e0' /\ cached_outcome e0' = cached_outcome e /\ expires_at e0' = expires_at e /\ now < stale_until e0'
       /\ (expires_at e0' <= now -> exists l, cached_outcome e = OutcomeResolved l)) as Hex.
    { exists e0. rewrite <- Eo, <- Ee, <- Eu. done. }
    cbn [in_flight]. case_if; (split; [first [done | by apply (cache_ok_flight _ _ Hins)]|]); cbn [entered_ok in_flight]; rewrite Hf; (split_and!; try done).
    apply andb_true_iff in Heqb as [_ Hb]. apply negb_true_iff, bool_decide_eq_false in Hb. rewrite Hf in Hb. by apply eq_None_not_Some.
  - cbn [in_flight]. rewrite Hf. destruct (in_flight s !! k) as [l|] eqn:El; (split; [first [by rewrite <- Hf | by apply (cache_ok_flight _ _ Hdel)]|]); done.
Qed.

(** A stale answer is served only while its lookup is in flight. *)
Lemma enter_locked_stale k fresh now s o expires refresh s' :
  cache_ok s -> enter_locked k fresh now s = (EnteredCached o expires refresh, s') -> expires <= now -> is_Some (in_flight s' !! k).
Proof.
  intros Hs. unfold enter_locked. destruct (next_access_sequence s) as [seq s1]. cbv zeta.
  set (cached := e ← resolved s1 !! k; _). destruct cached as [[e stale]|] eqn:Ec; subst cached.
  - destruct (resolved s1 !! k) as [e1|]; [|done]. cbn [mbind option_bind] in Ec. cbn [in_flight].
    case_if_in Ec; [injection Ec as -> <-; cbn [andb]; unbool; intros [= _ <- _ _]; lia|].
    case_if_in Ec; [|done]. injection Ec as -> <-. cbn [andb]. case_if; intros [= _ _ _ <-] _; cbn [in_flight].
    + by rewrite lookup_insert_eq.
    + apply negb_false_iff, bool_decide_eq_true in Heqb1. done.
  - cbn [in_flight]. by destruct (in_flight s1 !! k).
Qed.
End Entries.

(** ** Who leads and who waits *)

Definition leads (p : Phase) : option nat :=
  match p with Spawned l | Resolving l _ | Stored l _ _ => Some l | _ => None end.
Definition owns (p : Phase) : option nat :=
  match p with Spawned l | Resolving l _ | Stored l _ _ | Notifying l _ => Some l | _ => None end.
Definition mentions (p : Phase) : option nat :=
  match p with Spawned l | Resolving l _ | Stored l _ _ | Notifying l _ | Waiting l _ => Some l | _ => None end.
Definition unwoken (p : Phase) : option nat := match p with Waiting l false => Some l | _ => None end.

(** What a function of the phase gives for a task, with the task's key *)
Definition of_task (f : Phase -> option nat) (tk : Task) : option (nat * Key) := l ← f (t_phase tk); Some (l, task_key tk).
Definition at_task (f : Phase -> option nat) (ts : list Task) (i : nat) : option (nat * Key) := tk ← ts !! i; of_task f tk.

Lemma leads_owns tk x : of_task leads tk = Some x -> of_task owns tk = Some x.
Proof. unfold of_task. by destruct (t_phase tk). Qed.
Lemma owns_mentions tk x : of_task owns tk = Some x -> of_task mentions tk = Some x.
Proof. unfold of_task. by destruct (t_phase tk). Qed.
Lemma unwoken_mentions tk x : of_task unwoken tk = Some x -> of_task mentions tk = Some x.
Proof. unfold of_task. destruct (t_phase tk) as [|l []| | | | | |]; done. Qed.

Lemma at_weaken (f g : Phase -> option nat) ts i x :
  (forall tk x, of_task f tk = Some x -> of_task g tk = Some x) -> at_task f ts i = Some x -> at_task g ts i = Some x.
Proof. unfold at_task. intros Hfg. destruct (ts !! i) as [tk|]; [apply Hfg | done]. Qed.

(** [ts'] is [ts] with [tk] as the task [t], old or new. *)
Definition sets (t : nat) (tk : Task) (ts ts' : list Task) : Prop :=
  forall i, ts' !! i = if decide (i = t) then Some tk else ts !! i.

Lemma sets_insert t tk tk0 ts : ts !! t = Some tk0 -> sets t tk ts (<[t := tk]> ts).
Proof.
  intros Ht i. destruct (decide (i = t)) as [->|Hne]; [|by rewrite list_lookup_insert_ne].
  apply list_lookup_insert_eq. by eapply lookup_lt_Some.
Qed.
Lemma sets_snoc tk ts : sets (length ts) tk ts (ts ++ [tk]).
Proof.
  intros i. destruct (decide (i = length ts)) as [->|Hne]; [by rewrite lookup_app_r, Nat.sub_diag by lia|].
  destruct (decide (i < length ts)%nat); [by rewrite lookup_app_l|]. rewrite !lookup_ge_None_2; [done | lia|].
  rewrite length_app. simpl. lia.
Qed.

Lemma at_sets f t tk ts ts' i :
  sets t tk ts ts' -> at_task f ts' i = if decide (i = t) then of_task f tk else at_task f ts i.
Proof. intros Hs. unfold at_task. rewrite (Hs i). by case_decide. Qed.

(** The lookups in flight and their leaders correspond one to one, every lookup has at most one
    task that will notify its waiters, and a task that waits has one. *)
Record flight_ok (ls : list InFlightDnsLookup) (fl : gmap Key nat) (ts : list Task) : Prop := {
  fl_made i l k : at_task mentions ts i = Some (l, k) -> exists f, ls !! l = Some f /\ made_for f = k;
  fl_leads i l k : at_task leads ts i = Some (l, k) -> fl !! k = Some l;
  fl_led k l : fl !! k = Some l -> exists i, at_task leads ts i = Some (l, k);
  fl_unique i j l k1 k2 : at_task owns ts i = Some (l, k1) -> at_task owns ts j = Some (l, k2) -> i = j;
  fl_waiting i l k : at_task unwoken ts i = Some (l, k) -> exists j, at_task owns ts j = Some (l, k)
}.

Lemma flight_made ls fl ts k l : flight_ok ls fl ts -> fl !! k = Some l -> exists f, ls !! l = Some f /\ made_for f = k.
Proof.
  intros [Hm _ Hd _ _] Hk. destruct (Hd k l Hk) as [i Hi]. eapply Hm, at_weaken; [apply owns_mentions|].
  eapply at_weaken; [apply leads_owns | exact Hi].
Qed.

Definition same_keys (ls ls' : list InFlightDnsLookup) : Prop :=
  forall l f, ls !! l = Some f -> exists f', ls' !! l = Some f' /\ made_for f' = made_for f.

(** A task that leads and owns what it did, and waits at most for the lookup in flight for its key *)
Lemma flight_same ls ls' fl ts ts' t tk :
  flight_ok ls fl ts -> same_keys ls ls' -> sets t tk ts ts' ->
  of_task owns tk = at_task owns ts t -> of_task leads tk = at_task leads ts t ->
  (forall l k, of_task mentions tk = Some (l, k) -> at_task mentions ts t = Some (l, k) \/ fl !! k = Some l) ->
  (forall l k, of_task unwoken tk = Some (l, k) -> fl !! k = Some l) ->
  flight_ok ls' fl ts'.
Proof.
  intros Hok Hls Hs Ho Hl Hm Hu. pose proof Hok as [Hmade Hleads Hled Huniq Hwait].
  assert (forall i, at_task owns ts' i = at_task owns ts i) as Eo by (intros i; rewrite (at_sets _ t tk ts ts' i Hs); by case_decide; subst).
  assert (forall i, at_task leads ts' i = at_task leads ts i) as El by (intros i; rewrite (at_sets _ t tk ts ts' i Hs); by case_decide; subst).
  split.
  - intros i l k. rewrite (at_sets _ t tk ts ts' i Hs). intros Hi.
    assert (exists f, ls !! l = Some f /\ made_for f = k) as (f & (f' & Hf' & Ef)%Hls & <-); [|by exists f'].
    case_decide; [|by eapply Hmade]. destruct (Hm l k Hi); [by eapply Hmade | by eapply flight_made].
  - intros i l k. rewrite El. apply Hleads.
  - intros k l Hk. destruct (Hled k l Hk) as [i Hi]. exists i. by rewrite El.
  - intros i j l k1 k2. rewrite !Eo. apply Huniq.
  - intros i l k. rewrite (at_sets _ t tk ts ts' i Hs). intros Hi. setoid_rewrite Eo.
    case_decide; [|by eapply Hwait]. destruct (Hled k l (Hu l k Hi)) as [j Hj]. exists j. eapply at_weaken; [apply leads_owns | exact Hj].
Qed.

(** A new lookup with its leader *)
Lemma flight_lead ls fl ts ts' t tk k :
  flight_ok ls fl ts -> sets t tk ts ts' -> fl !! k = None -> at_task owns ts t = None ->
  of_task leads tk = Some (length ls, k) -> of_task unwoken tk = None ->
  flight_ok (ls ++ [mkInFlight k None]) (<[k := length ls]> fl) ts'.
Proof.
  intros [Hmade Hleads Hled Huniq Hwait] Hs Hk Ht Hl Hu.
  pose proof (leads_owns _ _ Hl) as Ho. pose proof (owns_mentions _ _ Ho) as Hm.
  assert (forall i l k', at_task mentions ts i = Some (l, k') -> l <> length ls) as Hold.
  { intros i l k' (f & Hf & _)%Hmade ->. apply lookup_lt_Some in Hf. lia. }
  assert (forall i x, at_task leads ts i = Some x -> at_task owns ts i = Some x) as Hlo by (intros; eapply at_weaken; [apply leads_owns | done]).
  assert (forall i x, at_task owns ts i = Some x -> at_task mentions ts i = Some x) as Hom by (intros; eapply at_weaken; [apply owns_mentions | done]).
  split.
  - intros i l k'. rewrite (at_sets _ t tk ts ts' i Hs). case_decide.
    + rewrite Hm. intros [= <- <-]. exists (mkInFlight k None). split; [|done]. by rewrite lookup_app_r, Nat.sub_diag by lia.
    + intros (f & Hf & Ef)%Hmade. exists f. split; [by apply lookup_app_l_Some | done].
  - intros i l k'. rewrite (at_sets _ t tk ts ts' i Hs). case_decide.
    + rewrite Hl. intros [= <- <-]. apply lookup_insert_eq.
    + intros Hi%Hleads. rewrite lookup_insert_ne; [done|]. congruence.
  - intros k' l [[<- <-]|[Hne Hk']]%lookup_insert_Some.
    + exists t. rewrite (at_sets _ t tk ts ts' t Hs). by rewrite decide_True.
    + destruct (Hled k' l Hk') as [i Hi]. exists i. rewrite (at_sets _ t tk ts ts' i Hs). rewrite decide_False; [done|].
      intros ->. apply Hlo in Hi. congruence.
  - intros i j l k1 k2. rewrite !(at_sets _ t tk ts ts' _ Hs). repeat case_decide; subst; try done; try apply Huniq.
    + rewrite Ho. intros [= <- <-] Hj. apply Hom in Hj. by apply Hold in Hj.
    + rewrite Ho. intros Hj [= <- <-]. apply Hom in Hj. by apply Hold in Hj.
  - intros i l k'. rewrite (at_sets _ t tk ts ts' i Hs). case_decide; [by rewrite Hu|]. intros (j & Hj)%Hwait. exists j.
    rewrite (at_sets _ t tk ts ts' j Hs). rewrite decide_False; [done|]. intros ->. congruence.
Qed.

(** A leader leaves the flight. *)
Lemma flight_leave ls fl ts ts' t tk l k :
  flight_ok ls fl ts -> sets t tk ts ts' -> at_task leads ts t = Some (l, k) ->
  of_task leads tk = None -> of_task owns tk = Some (l, k) -> of_task unwoken tk = None ->
  flight_ok ls (delete k fl) ts'.
Proof.
  intros [Hmade Hleads Hled Huniq Hwait] Hs Ht Hl Ho Hu. pose proof (owns_mentions _ _ Ho) as Hm.
  assert (forall i x, at_task leads ts i = Some x -> at_task owns ts i = Some x) as Hlo by (intros; eapply at_weaken; [apply leads_owns | done]).
  assert (forall i x, at_task owns ts i = Some x -> at_task mentions ts i = Some x) as Hom by (intros; eapply at_weaken; [apply owns_mentions | done]).
  assert (forall i, at_task owns ts' i = at_task owns ts i) as Eo.
  { intros i. rewrite (at_sets _ t tk ts ts' i Hs). case_decide; [|done]. subst. rewrite Ho. symmetry. by apply Hlo. }
  split.
  - intros i l' k'. rewrite (at_sets _ t tk ts ts' i Hs). case_decide; [|apply Hmade]. rewrite Hm. intros [= <- <-]. eapply Hmade, Hom, Hlo, Ht.
  - intros i l' k'. rewrite (at_sets _ t tk ts ts' i Hs). case_decide as Hi; [by rewrite Hl|]. intros Hi'.
    pose proof (Hleads _ _ _ Hi') as Hf. pose proof (Hleads _ _ _ Ht) as Hf0. rewrite lookup_delete_ne; [done|]. intros ->.
    assert (l' = l) as -> by congruence. apply Hi. by eapply Huniq; apply Hlo.
  - intros k' l' [Hne Hk']%lookup_delete_Some. destruct (Hled k' l' Hk') as [i Hi]. exists i.
    rewrite (at_sets _ t tk ts ts' i Hs), decide_False; [done|]. intros ->. congruence.
  - intros i j l' k1 k2. rewrite !Eo. apply Huniq.
  - intros i l' k'. rewrite (at_sets _ t tk ts ts' i Hs). setoid_rewrite Eo. case_decide; [by rewrite Hu | apply Hwait].
Qed.

Lemma wake_of_task f l tk : (forall l' b b', f (Waiting l' b) = f (Waiting l' b')) -> of_task f (wake l tk) = of_task f tk.
Proof.
  intros Hf. unfold wake, of_task. destruct tk as [d port s p]; cbn [t_phase]. destruct p as [|l' b| | | | | |]; try done.
  case_if; [|done]. cbn [with_phase t_phase]. by rewrite (Hf l' true b).
Qed.

Lemma wake_unwoken l tk x : of_task unwoken (wake l tk) = Some x -> of_task unwoken tk = Some x /\ fst x <> l.
Proof.
  unfold wake, of_task. destruct tk as [d port s p]; cbn [t_phase]. destruct p as [|l' []| | | | | |]; try done.
  - by case_if.
  - destruct (Nat.eqb_spec l' l) as [->|Hl]; [done|]. cbn. by intros [= <-].
Qed.

(** A leader that has left wakes the tasks that wait for it. *)
Lemma flight_notify ls fl ts ts' t tk l k :
  flight_ok ls fl ts -> sets t tk (map (wake l) ts) ts' -> at_task owns ts t = Some (l, k) -> at_task leads ts t = None ->
  of_task mentions tk = None -> flight_ok ls fl ts'.
Proof.
  intros [Hmade Hleads Hled Huniq Hwait] Hs Ht Hn Hm.
  assert (of_task owns tk = None) as Ho by (destruct (of_task owns tk) as [x|] eqn:E; [apply owns_mentions in E; congruence | done]).
  assert (of_task leads tk = None) as Hl by (destruct (of_task leads tk) as [x|] eqn:E; [apply leads_owns in E; congruence | done]).
  assert (of_task unwoken tk = None) as Hu by (destruct (of_task unwoken tk) as [x|] eqn:E; [apply unwoken_mentions in E; congruence | done]).
  assert (forall f i, (forall l' b b', f (Waiting l' b) = f (Waiting l' b')) -> at_task f (map (wake l) ts) i = at_task f ts i) as Ew.
  { intros f i Hf. unfold at_task. change (map (wake l) ts) with (wake l <$> ts). rewrite list_lookup_fmap.
    destruct (ts !! i); [|done]. by apply wake_of_task. }
  assert (forall f i x, (forall l' b b', f (Waiting l' b) = f (Waiting l' b')) -> of_task f tk = None ->
            at_task f ts' i = Some x <-> i <> t /\ at_task f ts i = Some x) as E.
  { intros f i x Hf Hx. rewrite (at_sets _ t tk _ ts' i Hs). case_decide; [rewrite Hx; naive_solver|]. rewrite Ew by done. naive_solver. }
  split.
  - intros i l' k' [_ Hi]%E; [by eapply Hmade | done | done].
  - intros i l' k' [_ Hi]%E; [by eapply Hleads | done | done].
  - intros k' l' Hk'. destruct (Hled k' l' Hk') as [i Hi]. exists i. apply E; [done | done|]. split; [|done]. intros ->. congruence.
  - intros i j l' k1 k2 [_ Hi]%E [_ Hj]%E; [by eapply Huniq | done..].
  - intros i l' k'. rewrite (at_sets _ t tk _ ts' i Hs). case_decide; [by rewrite Hu|].
    unfold at_task at 1. change (map (wake l) ts) with (wake l <$> ts). rewrite list_lookup_fmap.
    destruct (ts !! i) as [x|] eqn:Ex; [|done]. cbn. intros [Hx Hne]%wake_unwoken. cbn [fst] in Hne.
    destruct (Hwait i l' k') as [j Hj]; [unfold at_task; by rewrite Ex|]. exists j. apply E; [done | done|]. split; [|done]. intros ->. congruence.
Qed.

(** ** Every step keeps the invariant *)

Definition result_ok (s : DnsQueryStrategy) (m : lookup_result) : Prop := m <> Panic /\ forall l, m = Ok l -> gives s l.

Lemma from_result_ok s m : result_ok s m -> exists o, from_result m = Some o /\ outcome_ok s o.
Proof.
  intros [Hp Hg]. destruct m as [l|e|]; [|exists (from_error e); split; [done|] |done].
  - exists (OutcomeResolved l). split; [done | by apply Hg].
  - by destruct e.
Qed.

(** The lookup [l] has the outcome of the result [m]. *)
Definition published (ls : list InFlightDnsLookup) (l : nat) (m : lookup_result) : Prop :=
  exists f o, ls !! l = Some f /\ lookup_outcome f = Some o /\ from_result m = Some o.

Definition phase_ok (ls : list InFlightDnsLookup) (now : Z) (tk : Task) : Prop :=
  match t_phase tk with
  | Resolving _ since => since <= now
  | Stored l o m => from_result m = Some o /\ result_ok (t_strategy tk) m /\ published ls l m
  | Notifying l (Some m) => result_ok (t_strategy tk) m /\ published ls l m
  | Finished m => result_ok (t_strategy tk) m
  | _ => True
  end.

Lemma phase_mono ls ls' now now' tk :
  phase_ok ls now tk -> now <= now' ->
  (forall l f, owns (t_phase tk) = Some l -> ls !! l = Some f -> ls' !! l = Some f) -> phase_ok ls' now' tk.
Proof.
  unfold phase_ok. intros Hp Hn Hl. destruct (t_phase tk) as [| | |l since|l o m|l [m|]| |]; try done.
  - lia.
  - destruct Hp as (? & ? & f & o' & Hf & ?). split_and!; [done..|]. exists f, o'. split; [by apply Hl | done].
  - destruct Hp as (? & f & o' & Hf & ?). split; [done|]. exists f, o'. split; [by apply Hl | done].
Qed.

Section Invariant.
Context (inner : DnsResolver) (c : CachingDnsResolver) `{!ResolverLaws inner} (Hconfig : config_ok c).

Record world_ok (w : World) : Prop := {
  wo_cache : cache_ok c (cache w);
  wo_flight : flight_ok (lookups w) (in_flight (cache w)) (tasks w);
  wo_outcome l f o : lookups w !! l = Some f -> lookup_outcome f = Some o -> outcome_ok (snd (made_for f)) o;
  wo_phase i tk : tasks w !! i = Some tk -> phase_ok (lookups w) (clock w) tk
}.

Lemma resolve_dns_lookup_ok d port s ttl cap now m u :
  resolve_dns_lookup inner d port s ttl cap now = Some (m, u) -> now <= u /\ result_ok s m.
Proof.
  unfold resolve_dns_lookup. set (call := match s with UseIp => _ | _ => _ end).
  destruct call as [[m0 u0]|] eqn:E; [|done]. subst call. cbn [mbind option_bind]. intros [= <- <-].
  assert (now <= u0 /\ m0 <> Panic /\ (s <> UseIp -> forall l, m0 = Ok l -> gives s l)) as (Hu & Hp & Hg).
  { destruct s; [apply resolve_all_ok in E; naive_solver | apply resolve_with_strategy_ok in E; naive_solver..]. }
  split; [done|]. destruct m0 as [l|e|]; [|by split|done]. cbn [res_bind].
  destruct (ensure_non_empty l d port) as [l1|e|] eqn:En; [|by split|by apply ensure_non_empty_safe in En].
  apply ensure_non_empty_ok in En as [-> Hn]. cbn [res_bind]. split; [done|].
  assert (gives s l) as Hl.
  { destruct (decide (s = UseIp)) as [->|Hs]; [|by apply Hg]. split; [done|]. by apply list.Forall_true. }
  intros l2 [= <-]. by destruct cap.
Qed.

Lemma phases_set ls ls' now ts ts' t tk :
  (forall i x, ts !! i = Some x -> phase_ok ls now x) -> sets t tk ts ts' -> phase_ok ls' now tk ->
  (forall i x, i <> t -> ts !! i = Some x -> phase_ok ls now x -> phase_ok ls' now x) ->
  forall i x, ts' !! i = Some x -> phase_ok ls' now x.
Proof. intros Hts Hs Hk Ho i x. rewrite (Hs i). case_decide as Hi; [by intros [= <-]|]. intros Hx. by eapply Ho, Hts. Qed.

Lemma outcomes_snoc ls k l f o :
  (forall l f o, ls !! l = Some f -> lookup_outcome f = Some o -> outcome_ok (snd (made_for f)) o) ->
  (ls ++ [mkInFlight k None]) !! l = Some f -> lookup_outcome f = Some o -> outcome_ok (snd (made_for f)) o.
Proof. intros Hls [Hl|[_ Hl]]%lookup_app_Some; [by eapply Hls|]. apply list_lookup_singleton_Some in Hl as [_ <-]. done. Qed.

Lemma phase_snoc ls now tk f : phase_ok ls now tk -> phase_ok (ls ++ [f]) now tk.
Proof. intros Hp. eapply phase_mono; [exact Hp | done|]. intros l f' _ Hl. by apply lookup_app_l_Some. Qed.

Lemma same_keys_refl ls : same_keys ls ls.
Proof. intros l f Hf. by exists f. Qed.

(** A step of one task that is not part of the flight, before and after *)
Lemma bystander_ok w t tk p :
  world_ok w -> tasks w !! t = Some tk -> owns (t_phase tk) = None -> mentions p = None ->
  phase_ok (lookups w) (clock w) (with_phase tk p) -> world_ok (set_phase w t tk p).
Proof.
  intros [Hc Hf Ho Hp] Ht Hown Hm Hok. pose proof (sets_insert t (with_phase tk p) tk _ Ht) as Hs.
  assert (forall f, f p = None -> of_task f (with_phase tk p) = None) as Hn by (intros f Hfp; unfold of_task; cbn [with_phase t_phase]; by rewrite Hfp).
  assert (owns p = None /\ leads p = None /\ unwoken p = None) as (H1 & H2 & H3) by (by destruct p).
  split; cbn [set_phase cache lookups tasks clock]; [done| |done|].
  - apply (flight_same _ _ _ _ _ t (with_phase tk p) Hf (same_keys_refl _) Hs).
    + rewrite Hn by done. unfold at_task, of_task. rewrite Ht. cbn. by rewrite Hown.
    + rewrite Hn by done. unfold at_task, of_task. rewrite Ht. cbn. by destruct (t_phase tk).
    + by rewrite Hn.
    + by rewrite Hn.
  - by eapply phases_set; eauto.
Qed.

(** A leader leaves, with or without a result. *)
Lemma leave_ok w t tk l s m :
  world_ok w -> tasks w !! t = Some tk -> leads (t_phase tk) = Some l -> cache_ok c s ->
  in_flight s = (if still_leader (task_key tk) l (cache w) then delete (task_key tk) (in_flight (cache w)) else in_flight (cache w)) ->
  phase_ok (lookups w) (clock w) (with_phase tk (Notifying l m)) ->
  world_ok (mkWorld s (lookups w) (<[t := with_phase tk (Notifying l m)]> (tasks w)) (clock w)).
Proof.
  intros [Hc Hf Ho Hp] Ht Hl Hs Efl Hok. pose proof (sets_insert t (with_phase tk (Notifying l m)) tk _ Ht) as Hset.
  assert (at_task leads (tasks w) t = Some (l, task_key tk)) as Hlead by (unfold at_task, of_task; rewrite Ht; cbn; by rewrite Hl).
  split; cbn [cache lookups tasks clock]; [done| |done|by eapply phases_set; eauto].
  rewrite Efl. unfold still_leader. rewrite (fl_leads _ _ _ Hf _ _ _ Hlead), bool_decide_true by done.
  by apply (flight_leave _ _ _ _ t (with_phase tk (Notifying l m)) l _ Hf Hset Hlead).
Qed.

Lemma abandon_ok w t tk l :
  world_ok w -> tasks w !! t = Some tk -> leads (t_phase tk) = Some l -> world_ok (abandon w t tk l).
Proof. intros Hw Ht Hl. destruct (drop_locked_ok c (task_key tk) l (cache w) (wo_cache w Hw)). by apply leave_ok. Qed.

Lemma enter_ok w t tk now :
  world_ok w -> tasks w !! t = Some tk -> t_phase tk = Ready -> world_ok (enter w t tk now).
Proof.
  intros Hw Ht Hr. pose proof Hw as [Hc Hf Ho Hp]. unfold enter.
  pose proof (enter_locked_ok c (task_key tk) (length (lookups w)) now (cache w) Hc) as He.
  destruct (enter_locked (task_key tk) (length (lookups w)) now (cache w)) as [e s]. destruct He as [Hs He]. cbv zeta.
  assert (forall f, f Ready = None -> at_task f (tasks w) t = None) as Hready by (intros f Hfr; unfold at_task, of_task; rewrite Ht; cbn; by rewrite Hr, Hfr).
  destruct e as [o expires refresh|l|l]; cbn [entered_ok] in He.
  - destruct He as (_ & Hout & Href). set (m := serve_cached _ _ _ _ _).
    pose proof (sets_insert t (with_phase tk (Finished m)) tk _ Ht) as Hset.
    assert (result_ok (t_strategy tk) m) as Hm by (by apply serve_cached_ok).
    assert (world_ok (set_phase w t tk (Finished m))) as Hset_ok by (by apply bystander_ok; [| |rewrite Hr|..]).
    destruct refresh as [l|].
    + destruct Href as (-> & Hk & Efl). destruct Hset_ok as [_ Hf1 _ Hp1]. cbn [set_phase cache lookups tasks clock] in *.
      pose proof (sets_snoc (with_phase tk (Spawned (length (lookups w)))) (<[t := with_phase tk (Finished m)]> (tasks w))) as Hsn.
      split; cbn [cache lookups tasks clock]; [done| | |].
      * rewrite Efl. eapply flight_lead; [exact Hf1 | exact Hsn | done | | done | done].
        unfold at_task. by rewrite lookup_ge_None_2.
      * intros l f o'. by apply outcomes_snoc.
      * eapply phases_set; [exact Hp1 | exact Hsn | done|]. intros i x _ _. apply phase_snoc.
    + destruct Hset_ok as [_ Hf1 Ho1 Hp1]. split; cbn [cache lookups tasks clock]; [done | by rewrite Href | exact Ho1 | exact Hp1].
  - destruct He as [Hk Efl]. pose proof (sets_insert t (with_phase tk (Waiting l false)) tk _ Ht) as Hset.
    split; cbn [cache lookups tasks clock]; [done| |done|by eapply phases_set; eauto]. rewrite Efl.
    apply (flight_same _ _ _ _ _ t _ Hf (same_keys_refl _) Hset); rewrite ?Hready; try done; cbn; [intros ? ? [= <- <-]; by right | by intros ? ? [= <- <-]].
  - destruct He as (-> & Hk & Efl). pose proof (sets_insert t (with_phase tk (Resolving (length (lookups w)) (clock w))) tk _ Ht) as Hset.
    split; cbn [cache lookups tasks clock]; [done| | |].
    + rewrite Efl. eapply flight_lead; [exact Hf | exact Hset | done | by apply Hready | done | done].
    + intros l f o'. by apply outcomes_snoc.
    + eapply phases_set; [exact Hp | exact Hset | unfold phase_ok; simpl; lia|]. intros i x _ _. apply phase_snoc.
Qed.

(** A leader goes on: it leads the same lookup. *)
Lemma lead_on w ls' t tk p l :
  world_ok w -> tasks w !! t = Some tk -> leads (t_phase tk) = Some l -> leads p = Some l -> same_keys (lookups w) ls' ->
  flight_ok ls' (in_flight (cache w)) (<[t := with_phase tk p]> (tasks w)).
Proof.
  intros [Hc Hf Ho Hp] Ht Hl Hl' Hk. pose proof (sets_insert t (with_phase tk p) tk _ Ht) as Hs.
  assert (of_task leads (with_phase tk p) = Some (l, task_key tk)) as E by (unfold of_task; cbn [with_phase t_phase]; by rewrite Hl').
  assert (of_task leads tk = Some (l, task_key tk)) as E0 by (unfold of_task; by rewrite Hl).
  assert (forall f, at_task f (tasks w) t = of_task f tk) as Eat by (intros f; unfold at_task; by rewrite Ht).
  pose proof (leads_owns _ _ E) as Eo. pose proof (leads_owns _ _ E0) as Eo0.
  apply (flight_same _ _ _ _ _ t _ Hf Hk Hs); rewrite ?Eat; [congruence | congruence | |].
  - intros l' k'. rewrite (owns_mentions _ _ Eo). rewrite (owns_mentions _ _ Eo0). by left.
  - intros l' k'. unfold of_task. cbn [with_phase t_phase]. by destruct p as [|? []| | | | | |].
Qed.

Lemma store_lookup ls l o l' f' :
  store_outcome ls l o !! l' = Some f' ->
  exists f, ls !! l' = Some f /\ made_for f' = made_for f /\ (l' <> l -> f' = f) /\ (l' = l -> lookup_outcome f' = Some o).
Proof.
  unfold store_outcome. destruct (decide (l' = l)) as [->|Hne].
  - rewrite list_lookup_alter_eq. destruct (ls !! l) as [f|]; [|done]. intros [= <-]. by exists f.
  - rewrite list_lookup_alter_ne by done. intros Hf. by exists f'.
Qed.

Lemma store_keys ls l o : same_keys ls (store_outcome ls l o).
Proof.
  intros l' f Hf. unfold store_outcome. destruct (decide (l' = l)) as [->|Hne].
  - rewrite list_lookup_alter_eq, Hf. by eexists.
  - rewrite list_lookup_alter_ne by done. by exists f.
Qed.

Lemma store_world_ok w t tk l since m o :
  world_ok w -> tasks w !! t = Some tk -> t_phase tk = Resolving l since -> result_ok (t_strategy tk) m -> from_result m = Some o ->
  world_ok (mkWorld (cache w) (store_outcome (lookups w) l o) (<[t := with_phase tk (Stored l o m)]> (tasks w)) (clock w)).
Proof.
  intros Hw Ht Hph Hm Ho. pose proof Hw as [Hc Hf Hout Hp].
  assert (forall f, f (t_phase tk) = Some l -> at_task f (tasks w) t = Some (l, task_key tk)) as Hat
    by (intros f Hfl; unfold at_task, of_task; rewrite Ht; cbn; by rewrite Hfl).
  destruct (fl_made _ _ _ Hf t l (task_key tk)) as (f0 & Hf0 & Ek); [apply Hat; by rewrite Hph|].
  split; cbn [cache lookups tasks clock]; [done| | |].
  - apply (lead_on w _ t tk _ l); [done | done | by rewrite Hph | done | apply store_keys].
  - intros l' f' o' (f & Hl' & Em & Hne & Heq)%store_lookup Eo'. rewrite Em. destruct (decide (l' = l)) as [->|Hd].
    + assert (f = f0) as -> by congruence. rewrite (Heq eq_refl) in Eo'. injection Eo' as <-. rewrite Ek.
      destruct (from_result_ok _ _ Hm) as (o1 & E1 & H1). cbn [task_key cache_key snd]. congruence.
    + rewrite (Hne Hd) in Eo'. by eapply Hout.
  - eapply phases_set; [exact Hp | by eapply sets_insert| |].
    + unfold phase_ok. cbn [with_phase t_phase t_strategy]. split_and!; [done..|].
      exists (mkInFlight (made_for f0) (Some o)), o. split_and!; [|done..]. unfold store_outcome. by rewrite list_lookup_alter_eq, Hf0.
    + intros i x Hi Hx Hxp. eapply phase_mono; [exact Hxp | done|]. intros l' f Hown Hl'. unfold store_outcome.
      rewrite list_lookup_alter_ne; [done|]. intros <-. apply Hi. eapply (fl_unique _ _ _ Hf i t l).
      * unfold at_task, of_task. rewrite Hx. cbn. by rewrite Hown.
      * apply Hat. by rewrite Hph.
Qed.

Lemma notify_ok w t tk l m :
  world_ok w -> tasks w !! t = Some tk -> t_phase tk = Notifying l m ->
  world_ok (mkWorld (cache w) (lookups w)
              (<[t := with_phase tk (match m with Some m => Finished m | None => Gone end)]> (map (wake l) (tasks w))) (clock w)).
Proof.
  intros [Hc Hf Ho Hp] Ht Hph. set (p := match m with Some m => Finished m | None => Gone end).
  assert (map (wake l) (tasks w) !! t = Some (wake l tk)) as Htw by (change (map (wake l) (tasks w)) with (wake l <$> tasks w); by rewrite list_lookup_fmap, Ht).
  pose proof (sets_insert t (with_phase tk p) _ _ Htw) as Hs.
  split; cbn [cache lookups tasks clock]; [done| |done|].
  - eapply (flight_notify _ _ _ _ t _ l (task_key tk) Hf Hs).
    + unfold at_task, of_task. rewrite Ht. cbn. by rewrite Hph.
    + unfold at_task, of_task. rewrite Ht. cbn. by rewrite Hph.
    + unfold of_task, p. by destruct m.
  - eapply phases_set; [|exact Hs| |by intros].
    + intros i x. change (map (wake l) (tasks w)) with (wake l <$> tasks w). rewrite list_lookup_fmap.
      destruct (tasks w !! i) as [y|] eqn:Ey; [|done]. intros [= <-]. specialize (Hp i y Ey). unfold wake.
      destruct (t_phase y) eqn:Eph; try exact Hp. by case_if.
    + specialize (Hp t tk Ht). unfold phase_ok in *. rewrite Hph in Hp. unfold p. destruct m as [m|]; [by destruct Hp | done].
Qed.

Lemma task_step_ok e w t tk w' :
  world_ok w -> tasks w !! t = Some tk -> task_step inner c e w t tk = Some w' -> world_ok w'.
Proof.
  intros Hw Ht. unfold task_step. pose proof Hw as [Hc Hf Ho Hp]. pose proof (Hp t tk Ht) as Hpt.
  destruct e as [| | | | | | | |], (t_phase tk) as [|l [|]|l|l since|l o m|l m|m|] eqn:Eph; try done.
  - case_if; [|done]. intros [= <-]. by apply enter_ok.
  - intros [= <-]. split; cbn [set_phase cache lookups tasks clock]; [done| |done|].
    + apply (lead_on w _ t tk _ l); [done | done | by rewrite Eph | done | apply same_keys_refl].
    + eapply phases_set; [exact Hp | by eapply sets_insert | unfold phase_ok; simpl; lia | by intros].
  - destruct (resolve_dns_lookup _ _ _ _ _ _ _) as [[m u]|] eqn:Er; [|done]. cbn [mbind option_bind]. case_if; [done|].
    apply resolve_dns_lookup_ok in Er as [_ Hm]. destruct (from_result m) as [o|] eqn:Eo; intros [= <-].
    + by eapply store_world_ok.
    + apply abandon_ok; [done | done | by rewrite Eph].
  - intros [= <-]. unfold phase_ok in Hpt. rewrite Eph in Hpt. destruct Hpt as (Em & Hm & Hpub).
    destruct (from_result_ok _ _ Hm) as (o1 & E1 & H1). assert (o1 = o) as -> by congruence.
    destruct (finish_locked_ok c (task_key tk) l o (clock w) (cache w)) as [Hfc Hfl]; [done | done | done|].
    apply leave_ok; [done | done | by rewrite Eph | done | done | done].
  - intros [= <-]. by apply notify_ok.
  - destruct (lookups w !! l) as [f|] eqn:El; [|done]. cbn [mbind option_bind]. intros [= <-].
    apply bystander_ok; [done | done | by rewrite Eph | by destruct (lookup_outcome f)|].
    destruct (lookup_outcome f) as [o|] eqn:Eo; [|done]. unfold phase_ok. cbn [with_phase t_phase t_strategy].
    destruct (fl_made _ _ _ Hf t l (task_key tk)) as (f' & Hf' & Ek); [unfold at_task, of_task; rewrite Ht; cbn; by rewrite Eph|].
    assert (f' = f) as -> by congruence. apply into_result_ok. pose proof (Ho l f o El Eo) as Hok. by rewrite Ek in Hok.
  - intros [= <-]. by apply bystander_ok; [done | done | rewrite Eph|..].
  - intros [= <-]. by apply bystander_ok; [done | done | rewrite Eph|..].
  - intros [= <-]. by apply bystander_ok; [done | done | rewrite Eph|..].
  - intros [= <-]. apply abandon_ok; [done | done | by rewrite Eph].
Qed.

Lemma world_step_ok e w w' : world_ok w -> step inner c e w = Some w' -> world_ok w'.
Proof.
  intros Hw. assert (forall t, event_task e = Some t -> (tk ← tasks w !! t; task_step inner c e w t tk) = Some w' -> world_ok w') as Htask.
  { intros t _. destruct (tasks w !! t) as [tk|] eqn:Et; [|done]. cbn [mbind option_bind]. by apply task_step_ok. }
  destruct e as [d port s| | | | | | | |d]; cbn [step event_task mbind option_bind]; try (by eapply Htask).
  - intros [= <-]. destruct Hw as [Hc Hf Ho Hp]. pose proof (sets_snoc (mkTask d port s Ready) (tasks w)) as Hs.
    assert (tasks w !! length (tasks w) = None) as Hn by (by apply lookup_ge_None_2).
    split; cbn [cache lookups tasks clock]; [done| |done|by eapply phases_set; eauto].
    apply (flight_same _ _ _ _ _ _ _ Hf (same_keys_refl _) Hs); unfold at_task; rewrite ?Hn; done.
  - case_if; [done|]. unbool. intros [= <-]. destruct Hw as [Hc Hf Ho Hp]. split; cbn [cache lookups tasks clock]; [done..|].
    intros i tk Hi. eapply phase_mono; [by eapply Hp | lia | done].
Qed.

Lemma reachable_ok w : reachable inner c w -> world_ok w.
Proof.
  induction 1 as [now|w e w' _ IH Hs]; [|by eapply world_step_ok]. split; [apply cache_ok_init| |done|done]. by split.
Qed.

(** ** Waiters are woken *)

Lemma step_task e w t tk : event_task e = Some t -> tasks w !! t = Some tk -> step inner c e w = task_step inner c e w t tk.
Proof. intros He Ht. destruct e; try done; injection He as ->; cbn [step event_task mbind option_bind]; by rewrite Ht. Qed.

Lemma notify_wakes w t j tk tkj l b m :
  world_ok w -> tasks w !! t = Some tk -> t_phase tk = Waiting l b -> tasks w !! j = Some tkj -> t_phase tkj = Notifying l m ->
  exists w' tk' f, run inner c [Notify j; Wake t] w = Some w' /\ tasks w' !! t = Some tk' /\ lookups w !! l = Some f
    /\ t_phase tk' = match lookup_outcome f with Some o => Finished (into_result o (t_domain tk) (t_port tk)) | None => Ready end.
Proof.
  intros Hw Ht Hph Hj Hjp. assert (j <> t) as Hne by (intros ->; congruence).
  destruct (fl_made _ _ _ (wo_flight w Hw) t l (task_key tk)) as (f & Hf & _); [unfold at_task, of_task; rewrite Ht; cbn; by rewrite Hph|].
  cbn [run]. rewrite (step_task (Notify j) w j tkj eq_refl Hj). unfold task_step at 1. rewrite Hjp. cbn [mbind option_bind].
  set (w1 := mkWorld _ _ _ _).
  assert (tasks w1 !! t = Some (with_phase tk (Waiting l true))) as Ht1.
  { unfold w1. cbn [tasks]. rewrite list_lookup_insert_ne by done. change (map (wake l) (tasks w)) with (wake l <$> tasks w).
    rewrite list_lookup_fmap, Ht. cbn. unfold wake. by rewrite Hph, Nat.eqb_refl. }
  rewrite (step_task (Wake t) w1 t _ eq_refl Ht1). unfold task_step. cbn [with_phase t_phase]. assert (lookups w1 !! l = Some f) as -> by exact Hf.
  cbn [mbind option_bind]. eexists _, _, f. split_and!; [reflexivity| |done|].
  - cbn [set_phase tasks]. apply list_lookup_insert_eq. by eapply lookup_lt_Some.
  - done.
Qed.

(** The steps of the task [j], of time and of the wake-up of [t] lead to a world where [t] has its
    result. *)
Definition finishes (w : World) (t j : nat) : Prop :=
  exists es w' tk' m, run inner c es w = Some w' /\ tasks w' !! t = Some tk'
     /\ Forall (fun e => event_task e = Some j \/ e = Wake t \/ exists d, e = Tick d) es /\ t_phase tk' = Finished m.

(** One step of [j] into a phase from which [t] finishes *)
Lemma finishes_step e w w1 t j : step inner c e w = Some w1 -> event_task e = Some j \/ (exists d, e = Tick d) -> finishes w1 t j -> finishes w t j.
Proof.
  intros Hs He (es & w' & tk' & m & Hr & Ht & Hes & Hm). exists (e :: es), w', tk', m. cbn [run]. rewrite Hs. cbn [mbind option_bind].
  split_and!; [done | done | | done]. constructor; [naive_solver | done].
Qed.

Lemma notifying_finishes w t j tk tkj l b m :
  world_ok w -> tasks w !! t = Some tk -> t_phase tk = Waiting l b -> tasks w !! j = Some tkj -> t_phase tkj = Notifying l (Some m) -> finishes w t j.
Proof.
  intros Hw Ht Hph Hj Hjp. destruct (notify_wakes w t j tk tkj l b (Some m)) as (w' & tk' & f & Hr & Ht' & Hf & E); [done..|].
  pose proof (wo_phase w Hw j tkj Hj) as Hp. unfold phase_ok in Hp. rewrite Hjp in Hp. destruct Hp as (_ & f' & o & Hf' & Eo & _).
  assert (f' = f) as -> by congruence. rewrite Eo in E. exists [Notify j; Wake t], w', tk'. eexists. split_and!; [done | done | | exact E].
  rewrite !list.Forall_cons. split_and!; [by left | right; by left | constructor].
Qed.

Lemma stored_finishes w t j tk tkj l b o m :
  world_ok w -> tasks w !! t = Some tk -> t_phase tk = Waiting l b -> tasks w !! j = Some tkj -> t_phase tkj = Stored l o m -> finishes w t j.
Proof.
  intros Hw Ht Hph Hj Hjp. assert (j <> t) as Hne by (intros ->; congruence).
  assert (step inner c (Commit j) w = task_step inner c (Commit j) w j tkj) as Es by (by apply step_task).
  unfold task_step in Es. rewrite Hjp in Es. eapply finishes_step; [exact Es | by left|].
  eapply (notifying_finishes _ t j tk (with_phase tkj (Notifying l (Some m))) l b m); [by eapply world_step_ok | | done | | done]; cbn [tasks].
  - by rewrite list_lookup_insert_ne.
  - apply list_lookup_insert_eq. by eapply lookup_lt_Some.
Qed.

Section Ends.
(** Every lookup of the inner resolver ends. *)
Context (Hends : forall d port s now, resolve_dns_lookup inner d port s (cache_ttl c) (cap_authoritative_ttl c) now <> None).

Lemma resolving_finishes w t j tk tkj l b since :
  world_ok w -> tasks w !! t = Some tk -> t_phase tk = Waiting l b -> tasks w !! j = Some tkj -> t_phase tkj = Resolving l since -> finishes w t j.
Proof.
  intros Hw Ht Hph Hj Hjp. assert (j <> t) as Hne by (intros ->; congruence).
  destruct (resolve_dns_lookup inner (t_domain tkj) (t_port tkj) (t_strategy tkj) (cache_ttl c) (cap_authoritative_ttl c) since)
    as [[m u]|] eqn:Er; [|by apply Hends in Er].
  destruct (resolve_dns_lookup_ok _ _ _ _ _ _ _ _ Er) as [_ Hm]. destruct (from_result_ok _ _ Hm) as (o & Eo & _).
  set (d := Z.max 0 (u - clock w)). assert (step inner c (Tick d) w = Some (mkWorld (cache w) (lookups w) (tasks w) (clock w + d))) as Et.
  { cbn [step]. guard_false by (unfold d; lia). done. }
  eapply finishes_step; [exact Et | right; by exists d|]. set (w1 := mkWorld _ _ _ _) in *. assert (world_ok w1) as Hw1 by (by eapply world_step_ok).
  assert (step inner c (Resolve j) w1 = task_step inner c (Resolve j) w1 j tkj) as Es by (by apply step_task).
  unfold task_step in Es. rewrite Hjp, Er in Es. cbn [mbind option_bind] in Es.
  assert ((clock w1 <? u) = false) as Hck by (apply Z.ltb_ge; unfold w1, d; cbn [clock]; lia). rewrite Hck, Eo in Es.
  eapply finishes_step; [exact Es | by left|].
  eapply (stored_finishes _ t j tk (with_phase tkj (Stored l o m)) l b o m); [by eapply world_step_ok | | done | | done]; cbn [tasks].
  - by rewrite list_lookup_insert_ne.
  - apply list_lookup_insert_eq. by eapply lookup_lt_Some.
Qed.

Lemma spawned_finishes w t j tk tkj l b :
  world_ok w -> tasks w !! t = Some tk -> t_phase tk = Waiting l b -> tasks w !! j = Some tkj -> t_phase tkj = Spawned l -> finishes w t j.
Proof.
  intros Hw Ht Hph Hj Hjp. assert (j <> t) as Hne by (intros ->; congruence).
  assert (step inner c (Poll j) w = task_step inner c (Poll j) w j tkj) as Es by (by apply step_task).
  unfold task_step in Es. rewrite Hjp in Es. eapply finishes_step; [exact Es | by left|].
  eapply (resolving_finishes _ t j tk (with_phase tkj (Resolving l (clock w))) l b (clock w)); [by eapply world_step_ok | | done | | done]; cbn [set_phase tasks].
  - by rewrite list_lookup_insert_ne.
  - apply list_lookup_insert_eq. by eapply lookup_lt_Some.
Qed.

(** C3: no task waits for a lookup that nobody will end. In every reachable state of the cache, for
    every task that waits and has not been notified there is one task that owns the lookup it waits
    for, made for the same key; and whatever the other tasks did before, the steps of that owner and
    the wake-up alone bring the waiting task to a result, or back to its start where the owner had
    been dropped. Every lookup of the inner resolver is taken to end. *)
Theorem dns_waiters_wake (w : World) (t : nat) (tk : Task) (l : nat) :
  reachable inner c w -> tasks w !! t = Some tk -> t_phase tk = Waiting l false ->
  exists j tkj, tasks w !! j = Some tkj /\ owns (t_phase tkj) = Some l /\ task_key tkj = task_key tk
    /\ (finishes w t j
        \/ (t_phase tkj = Notifying l None
            /\ exists w' tk', run inner c [Notify j; Wake t] w = Some w' /\ tasks w' !! t = Some tk'
                 /\ (t_phase tk' = Ready \/ exists m, t_phase tk' = Finished m))).
Proof.
  intros Hr Ht Hph. pose proof (reachable_ok w Hr) as Hw.
  destruct (fl_waiting _ _ _ (wo_flight w Hw) t l (task_key tk)) as [j Hj]; [unfold at_task, of_task; rewrite Ht; cbn; by rewrite Hph|].
  unfold at_task, of_task in Hj. destruct (tasks w !! j) as [tkj|] eqn:Ej; [|done]. cbn [mbind option_bind] in Hj.
  destruct (owns (t_phase tkj)) as [l'|] eqn:Eo; [|done]. cbn [mbind option_bind] in Hj. apply (inj Some), pair_equal_spec in Hj as [-> Ek].
  exists j, tkj. split_and!; [done | done | exact Ek|].
  destruct (t_phase tkj) as [| |l'|l' since|l' o m|l' [m|]| |] eqn:Ep; try done; injection Eo as ->.
  - left. by eapply spawned_finishes.
  - left. by eapply resolving_finishes.
  - left. by eapply stored_finishes.
  - left. by eapply notifying_finishes.
  - right. split; [done|]. destruct (notify_wakes w t j tk tkj l false None) as (w' & tk' & f & Hrun & Ht' & _ & E); [done..|].
    exists w', tk'. split_and!; [done..|]. destruct (lookup_outcome f); eauto.
Qed.
End Ends.

(** C2: at most one lookup of the inner resolver is in flight for each key, whatever the order of the
    locked sections of the tasks: two tasks that lead a lookup for the same key, refreshes in the
    background included, are the same task. And the cache holds at most 256 entries. *)
Theorem dns_single_flight (w : World) :
  reachable inner c w ->
  (size (resolved (cache w)) <= DNS_CACHE_MAX_ENTRIES)%nat
  /\ forall (i j : nat) (tki tkj : Task),
     tasks w !! i = Some tki -> tasks w !! j = Some tkj ->
     leads (t_phase tki) <> None -> leads (t_phase tkj) <> None -> task_key tki = task_key tkj -> i = j.
Proof.
  intros Hr%reachable_ok. split; [by apply (ca_size c _ (wo_cache w Hr))|]. intros i j tki tkj Hi Hj Hli Hlj Hk.
  destruct (leads (t_phase tki)) as [li|] eqn:Ei; [|done]. destruct (leads (t_phase tkj)) as [lj|] eqn:Ej; [|done].
  assert (at_task leads (tasks w) i = Some (li, task_key tki)) as Ai by (unfold at_task, of_task; rewrite Hi; cbn; by rewrite Ei).
  assert (at_task leads (tasks w) j = Some (lj, task_key tkj)) as Aj by (unfold at_task, of_task; rewrite Hj; cbn; by rewrite Ej).
  pose proof (fl_leads _ _ _ (wo_flight w Hr) _ _ _ Ai) as Fi. pose proof (fl_leads _ _ _ (wo_flight w Hr) _ _ _ Aj) as Fj.
  assert (lj = li) as -> by congruence.
  eapply (fl_unique _ _ _ (wo_flight w Hr)); (eapply at_weaken; [apply leads_owns|]); [exact Ai | exact Aj].
Qed.

(** what the cache serves. No task ends with a panic, and every answer it ends with, cached,
    waited for or looked up, is not empty and has only addresses of the families asked for. An
    outcome is served from the cache only before its expiry, or, where it is an answer and a stale
    time is configured, before that time has passed after it, and then a refresh is in flight.
    Negative answers are never served stale. *)
Theorem dns_cache_serves (w : World) :
  reachable inner c w ->
  (forall t tk m, tasks w !! t = Some tk -> t_phase tk = Finished m -> m <> Panic /\ forall l, m = Ok l -> gives (t_strategy tk) l)
  /\ forall k fresh now o expires refresh s,
       enter_locked k fresh now (cache w) = (EnteredCached o expires refresh, s) ->
       now < expires + default 0 (stale_ttl c)
       /\ (expires <= now -> (exists l, o = OutcomeResolved l) /\ is_Some (in_flight s !! k))
       /\ (refresh <> None -> in_flight (cache w) !! k = None).
Proof.
  intros Hr%reachable_ok. split.
  - intros t tk m Ht Hm. pose proof (wo_phase w Hr t tk Ht) as Hp. unfold phase_ok in Hp. by rewrite Hm in Hp.
  - intros k fresh now o expires refresh s E. pose proof (enter_locked_ok c k fresh now (cache w) (wo_cache w Hr)) as Hl.
    pose proof (enter_locked_stale c k fresh now (cache w) o expires refresh s (wo_cache w Hr) E) as Hst.
    rewrite E in Hl. destruct Hl as [_ ((e0 & Hk & <- & <- & Hn & Hs) & _ & Href)].
    split_and!; [|intros He; split; [by apply Hs | by apply Hst]|].
    + destruct (ca_entry c _ (wo_cache w Hr) k e0 Hk) as [He0 _]. unfold entry_ok in He0. destruct Hconfig as [_ Hd].
      assert (0 <= default 0 (stale_ttl c)) by (destruct (stale_ttl c) as [d|]; [by apply Hd | done]).
      destruct (cached_outcome e0); try done; [destruct He0 as [_ He0]|..]; lia.
    + destruct refresh as [l|]; [|done]. by destruct Href as (_ & ? & _).
Qed.
End Invariant.

(** ** The theorems at work *)

Section Sample.
(** A resolver with one address, found after a second *)
Definition sample_inner : DnsResolver :=
  default_resolver (fun _ port now => Some (Ok (mkSocketAddr (V4 16909060) port), now + from_secs 1)).

#[local] Instance sample_inner_laws : ResolverLaws sample_inner.
Proof.
  apply filtered_resolver_ok. intros d port now m t. cbn. intros [= <- <-]. split; [unfold from_secs; lia | done].
Qed.

Definition sample_cache : CachingDnsResolver := caching_with_stale_ttl (from_secs 60).

Lemma sample_config : config_ok sample_cache.
Proof. split; [done|]. by intros d [= <-]. Qed.

(** Two tasks ask for the same name: the first leads, the second waits. *)
Definition sample_calls : list Event :=
  [Call (str_of "a.b") 443 UseIp; Call (str_of "A.B.") 443 UseIp; Enter 0 0; Enter 1 0].
Definition sample_state : World := default (init 0) (run sample_inner sample_cache sample_calls (init 0)).

Lemma run_reachable es w w' : reachable sample_inner sample_cache w -> run sample_inner sample_cache es w = Some w' -> reachable sample_inner sample_cache w'.
Proof.
  revert w. induction es as [|e es IH]; intros w Hw; cbn [run]; [by intros [= <-]|].
  destruct (step sample_inner sample_cache e w) as [w1|] eqn:E; [|done]. apply IH. by eapply reach_step.
Qed.

Lemma sample_reachable : reachable sample_inner sample_cache sample_state.
Proof. apply (run_reachable sample_calls (init 0)); [constructor | vm_compute; reflexivity]. Qed.

Lemma dns_waiters_wake_witness :
  exists j tkj, tasks sample_state !! j = Some tkj /\ owns (t_phase tkj) = Some 0%nat.
Proof.
  destruct (dns_waiters_wake sample_inner sample_cache sample_config ltac:(by intros ? ? []) sample_state 1
              (mkTask (str_of "A.B.") 443 UseIp (Waiting 0 false)) 0) as (j & tkj & Hj & Ho & _);
    [exact sample_reachable | vm_compute; reflexivity | reflexivity|].
  exists j, tkj. split; [exact Hj | exact Ho].
Defined.

Lemma dns_single_flight_witness :
  (size (resolved (cache sample_state)) <= DNS_CACHE_MAX_ENTRIES)%nat
  /\ forall j tkj, tasks sample_state !! j = Some tkj -> leads (t_phase tkj) <> None ->
     task_key (mkTask (str_of "a.b") 443 UseIp (Resolving 0 0)) = task_key tkj -> 0%nat = j.
Proof.
  destruct (dns_single_flight sample_inner sample_cache sample_config sample_state sample_reachable) as [Hs Hf]. split; [exact Hs|].
  intros j tkj Hj Hl Hk. apply (Hf 0%nat j (mkTask (str_of "a.b") 443 UseIp (Resolving 0 0)) tkj);
    [vm_compute; reflexivity | exact Hj | discriminate | exact Hl | exact Hk].
Defined.

(** The answer is cached for its time to live, served stale after it, and a refresh is started. *)
Definition sample_served : list Event :=
  sample_calls ++ [Tick (from_secs 1); Resolve 0; Commit 0; Notify 0; Wake 1; Tick (from_secs 310); Call (str_of "a.b") 443 UseIp].
Definition sample_later : World := default (init 0) (run sample_inner sample_cache sample_served (init 0)).

Lemma dns_cache_serves_witness :
  match enter_locked (cache_key (str_of "a.b") 443 UseIp) 1 (from_secs 311) (cache sample_later) with
  | (EnteredCached (OutcomeResolved l) expires (Some _), s) =>
    socket_addrs l = [mkSocketAddr (V4 16909060) 443] /\ expires = from_secs 301 /\ is_Some (in_flight s !! cache_key (str_of "a.b") 443 UseIp)
  | _ => False
  end.
Proof.
  assert (reachable sample_inner sample_cache sample_later) as Hr
    by (apply (run_reachable sample_served (init 0)); [constructor | vm_compute; reflexivity]).
  pose proof (dns_cache_serves sample_inner sample_cache sample_config sample_later Hr) as [_ Hs].
  specialize (Hs (cache_key (str_of "a.b") 443 UseIp) 1%nat (from_secs 311)).
  destruct (enter_locked (cache_key (str_of "a.b") 443 UseIp) 1 (from_secs 311) (cache sample_later)) as [e s] eqn:E.
  assert (exists l, e = EnteredCached (OutcomeResolved l) (from_secs 301) (Some 1%nat) /\ socket_addrs l = [mkSocketAddr (V4 16909060) 443]) as (l & -> & Hl).
  { assert (e = fst (enter_locked (cache_key (str_of "a.b") 443 UseIp) 1 (from_secs 311) (cache sample_later))) as -> by (by rewrite E).
    eexists. split; vm_compute; reflexivity. }
  destruct (Hs _ _ _ _ eq_refl) as (_ & Hst & _). split; [exact Hl|]. split; [done|]. apply Hst. done.
Defined.
End Sample.

