(* ===== verification/HttpMessage.v ===== *)
(** The HTTP/1 messages of the HTTP inbound: [crates/xray-proxy/src/inbound/http_message.rs] and
    [http.rs]. Reading a request or response head, the header fields, how a body is delimited,
    request targets and authorities, the head that is sent on, and the copying of bodies.

    A reader is the bytes it will still give, after which it ends; a copy gives the bytes it wrote
    and how it ended. IDNA and base64 are the classes [Idna] and [Base64]. *)
From Stdlib Require Import Strings.Byte Strings.String.
From stdpp Require Import gmap sorting.
From S2P Require Import Prelude Net IpText.

(** ** Texts *)

Definition sp : byte := " "%byte.
Definition tab : byte := x09.
Definition cr : byte := x0d.
Definition lf : byte := x0a.

Definition byte_in (s : string) (b : byte) : bool := bool_decide (b ∈ str_of s).
Definition is_digit_byte (b : byte) : bool := (0x30 <=? u8 b) && (u8 b <=? 0x39).
Definition is_lower_byte (b : byte) : bool := (0x61 <=? u8 b) && (u8 b <=? 0x7A).
Definition is_letter_byte (b : byte) : bool := is_ascii_uppercase b || is_lower_byte b.
Definition is_alnum_byte (b : byte) : bool := is_digit_byte b || is_letter_byte b.
Definition ascii_upper (b : byte) : byte := if is_lower_byte b then to_u8 (u8 b - 32) else b.
Definition is_ascii_text (s : str) : bool := forallb (fun b => u8 b <? 0x80) s.

(** [text.split_once(c)], [text.rsplit_once(c)] *)
Fixpoint split_first (c : byte) (s : str) : option (str * str) :=
  match s with
  | [] => None
  | b :: r => if bool_decide (b = c) then Some ([], r) else '(x, y) ← split_first c r; Some (b :: x, y)
  end.
Definition split_last (c : byte) (s : str) : option (str * str) :=
  '(y, x) ← split_first c (reverse s); Some (reverse x, reverse y).

(** The text without one [c] at its end *)
Definition strip_end (c : byte) (s : list byte) : list byte :=
  match reverse s with b :: r => if bool_decide (b = c) then reverse r else s | [] => s end.

(** The text between the first and the last byte that is not [f] *)
Definition trim_by (f : byte -> bool) (s : list byte) : list byte := reverse (drop_while f (reverse (drop_while f s))).

Definition trim_ascii_space (s : list byte) : list byte :=
  trim_by (fun b => bool_decide (b = sp) || bool_decide (b = tab) || bool_decide (b = cr) || bool_decide (b = lf)) s.
Definition trim_blank (s : list byte) : list byte := trim_by (fun b => bool_decide (b = sp) || bool_decide (b = tab)) s.

(** The digits of a number, as [{}] and [{:x}] print them, and their value *)
Definition digit_byte (d : Z) : byte := to_u8 (if d <? 10 then 0x30 + d else 0x57 + d).
Fixpoint show_loop (fuel : nat) (radix n : Z) (acc : str) : str :=
  match fuel with
  | O => acc
  | S fuel =>
    let acc := digit_byte (n mod radix) :: acc in
    if n / radix =? 0 then acc else show_loop fuel radix (n / radix) acc
  end.
Definition show_dec (n : Z) : str := show_loop 64 10 n [].
Definition show_hex (n : Z) : str := show_loop 64 16 n [].

Fixpoint number (radix : Z) (acc : Z) (s : str) : option Z :=
  match s with
  | [] => Some acc
  | b :: r => d ← digit radix b; number radix (acc * radix + d) r
  end.
Definition i64_max : Z := 9223372036854775807.

(** [text.parse::<u64>()] and [u64::from_str_radix(text, 16)] of digits *)
Definition parse_u64 (radix : Z) (s : str) : option Z :=
  if bool_decide (s = []) then None else n ← number radix 0 s; if n <=? u64_max then Some n else None.

(** [text.parse::<i64>()] *)
Definition parse_i64_text (s : str) : option Z :=
  let '(negative, digits) :=
    match s with
    | b :: r => if bool_decide (b = "-"%byte) then (true, r) else if bool_decide (b = "+"%byte) then (false, r) else (false, s)
    | [] => (false, [])
    end in
  if bool_decide (digits = []) then None
  else
    n ← number 10 0 digits;
    if negative : bool then (if n <=? i64_max + 1 then Some (- n) else None) else (if n <=? i64_max then Some n else None).

(** ** Errors and readers *)

Inductive HttpParseError := NotConnect | LineTooLong | Malformed | InvalidAuthority | InvalidPort | HttpIo.
#[export] Instance HttpParseError_eq_dec : EqDecision HttpParseError.
Proof. solve_decision. Defined.

Definition MAX_LINE_LEN : Z := 8192.
Definition MAX_INFORMATIONAL_HEAD : Z := 1024.

(** The loop of [read_line], for lines shorter than [limit] *)
Fixpoint read_line_loop (limit : Z) (line r : list byte) : res HttpParseError (list byte * list byte) :=
  if limit <=? len line then Err LineTooLong
  else
    match r with
    | [] => Err HttpIo
    | b :: r => if bool_decide (b = lf) then Ok (strip_end cr line, r) else read_line_loop limit (line ++ [b]) r
    end.
Definition read_line (limit : Z) (r : list byte) : res HttpParseError (list byte * list byte) := read_line_loop limit [] r.

(** ** Header fields *)

(** RFC 9110 token characters *)
Definition is_token_byte (b : byte) : bool := is_alnum_byte b || byte_in "!#$%&'*+-.^_`|~" b.

(** The loops of [canonical_header_key] *)
Fixpoint canonical_loop (upper : bool) (s : str) : bool :=
  match s with
  | [] => true
  | b :: r => negb ((upper && is_lower_byte b) || (negb upper && is_ascii_uppercase b)) && canonical_loop (bool_decide (b = "-"%byte)) r
  end.
Fixpoint canonicalize_loop (upper : bool) (s : str) : str :=
  match s with
  | [] => []
  | b :: r =>
    let b := if upper then ascii_upper b else ascii_lower b in
    b :: canonicalize_loop (bool_decide (b = "-"%byte)) r
  end.
Definition canonical_header_key (name : str) : str :=
  if negb (forallb is_token_byte name) then name
  else if canonical_loop true name then name
  else canonicalize_loop true name.

(** [HttpHeaders]: the values of each name; [header_iter] gives them in the order of the names. *)
Abbreviation HttpHeaders := (gmap str (list (list byte))).

Definition header_values (h : HttpHeaders) (name : str) : list (list byte) := default [] (h !! canonical_header_key name).
Definition header_add (h : HttpHeaders) (name : str) (value : list byte) : HttpHeaders :=
  let k := canonical_header_key name in <[k := default [] (h !! k) ++ [value]]> h.
Definition header_set (h : HttpHeaders) (name : str) (value : list byte) : HttpHeaders :=
  <[canonical_header_key name := [value]]> h.
Definition header_get (h : HttpHeaders) (name : str) : option (list byte) := head (header_values h name).
Definition header_contains (h : HttpHeaders) (name : str) : bool := bool_decide (is_Some (h !! canonical_header_key name)).
Definition header_remove (h : HttpHeaders) (name : str) : HttpHeaders := delete (canonical_header_key name) h.

(** The update of [last_value_mut] *)
Definition push_last (value : list byte) (vs : list (list byte)) : list (list byte) :=
  match reverse vs with v :: r => reverse ((v ++ value) :: r) | [] => vs end.

(** The order of a [BTreeMap] of strings: by their bytes *)
Fixpoint name_leb (a b : str) : bool :=
  match a, b with
  | [], _ => true
  | _ :: _, [] => false
  | x :: a, y :: b => (u8 x <? u8 y) || ((u8 x =? u8 y) && name_leb a b)
  end.
Definition field_le (a b : str * list (list byte)) : Prop := name_leb (fst a) (fst b) = true.
#[export] Instance field_le_dec : RelDecision field_le.
Proof. intros a b. unfold field_le. apply _. Defined.
Definition header_iter (h : HttpHeaders) : list (str * list (list byte)) := merge_sort field_le (map_to_list h).

(** Line breaks turned to spaces, and trimmed *)
Definition clean_value (v : list byte) : list byte :=
  trim_ascii_space (map (fun b => if bool_decide (b = cr) || bool_decide (b = lf) then sp else b) v).

Definition crlf_bytes : list byte := [cr; lf].
Definition field_line (name : str) (value : list byte) : list byte := name ++ str_of ": " ++ value ++ crlf_bytes.

Definition write_subset (h : HttpHeaders) (exclude : list str) : list byte :=
  concat (map (fun '(name, values) =>
            if bool_decide (name ∈ exclude) then [] else concat (map (fun v => field_line name (clean_value v)) values))
          (header_iter h)).

(** ** Reading a head *)

Inductive HttpBody := BodyNone | BodyLength (n : Z) | BodyChunked | BodyUntilClose.
#[export] Instance HttpBody_eq_dec : EqDecision HttpBody.
Proof. solve_decision. Defined.

Definition http_version (v : str) : option (Z * Z) :=
  match v with
  | [h; t1; t2; p; slash; major; d; minor] =>
    if bool_decide ([h; t1; t2; p; slash] = str_of "HTTP/") && bool_decide (d = dot) && is_digit_byte major && is_digit_byte minor
    then Some (u8 major - 0x30, u8 minor - 0x30) else None
  | _ => None
  end.

(** [Last]: what a continuation line extends *)
Inductive Last := LastNothing | LastField (name : str) | LastAuthorization | LastIgnored.

Record HeaderBlock := mkHeaderBlock {
  block_headers : HttpHeaders;
  block_authorization : option (list byte)
}.

(** A line that continues the one before *)
Definition continue_line (b : HeaderBlock) (last : Last) (rest : list byte) : res HttpParseError HeaderBlock :=
  match last with
  | LastNothing => Err Malformed
  | LastField name => Ok (mkHeaderBlock (alter (push_last (sp :: rest)) name (block_headers b)) (block_authorization b))
  | LastAuthorization =>
    Ok (mkHeaderBlock (block_headers b) ((fun v => v ++ sp :: rest) <$> block_authorization b))
  | LastIgnored => Ok b
  end.

(** Any other line *)
Definition field_turn (keep_authorization : bool) (b : HeaderBlock) (line : list byte) : res HttpParseError (HeaderBlock * Last) :=
  let line := trim_blank line in
  let? (name, value) := ok_or (split_first colon line) Malformed in
  if bool_decide (name = []) || negb (forallb (fun c => is_token_byte c || bool_decide (c = sp)) name) then Err Malformed
  else
    let? name := ok_or (from_utf8 name) Malformed in
    let value := trim_blank value in
    let canonical := canonical_header_key name in
    if keep_authorization && bool_decide (canonical = str_of "Proxy-Authorization") then
      match block_authorization b with
      | None => Ok (mkHeaderBlock (block_headers b) (Some value), LastAuthorization)
      | Some _ => Ok (b, LastIgnored)
      end
    else Ok (mkHeaderBlock (header_add (block_headers b) canonical value) (block_authorization b), LastField canonical).

(** The loop of [read_header_block]; a line takes at least one byte. *)
Fixpoint header_loop (fuel : nat) (limit : Z) (keep_authorization : bool) (b : HeaderBlock) (last : Last) (r : list byte)
    : res HttpParseError (HeaderBlock * list byte) :=
  match fuel with
  | O => Panic
  | S fuel =>
    let? (line, r) := read_line limit r in
    match line with
    | [] => Ok (b, r)
    | c :: _ =>
      if bool_decide (c = sp) || bool_decide (c = tab) then
        let? b := continue_line b last (trim_blank line) in header_loop fuel limit keep_authorization b last r
      else
        let? (b, last) := field_turn keep_authorization b line in header_loop fuel limit keep_authorization b last r
    end
  end.
Definition read_header_block (limit : Z) (keep_authorization : bool) (r : list byte) : res HttpParseError (HeaderBlock * list byte) :=
  header_loop (S (length r)) limit keep_authorization (mkHeaderBlock ∅ None) LastNothing r.

Definition fix_pragma_cache_control (h : HttpHeaders) : HttpHeaders :=
  if bool_decide (header_get h (str_of "Pragma") = Some (str_of "no-cache")) && negb (header_contains h (str_of "Cache-Control"))
  then header_set h (str_of "Cache-Control") (str_of "no-cache") else h.

Definition version_lt (a b : Z * Z) : bool := (fst a <? fst b) || ((fst a =? fst b) && (snd a <? snd b)).

(** [Err] where the encoding is refused; else the headers left, and whether the body is chunked *)
Definition transfer_is_chunked (h : HttpHeaders) (version : Z * Z) : res unit (HttpHeaders * bool) :=
  let values := header_values h (str_of "Transfer-Encoding") in
  if bool_decide (values = []) then Ok (h, false)
  else
    let h := header_remove h (str_of "Transfer-Encoding") in
    if version_lt version (1, 1) then Ok (h, false)
    else
      match values with
      | [value] => if eq_ignore_ascii_case value (str_of "chunked") then Ok (h, true) else Err tt
      | _ => Err tt
      end.

Definition body_allowed (status : Z) : bool := negb (((100 <=? status) && (status <=? 199)) || (status =? 204) || (status =? 304)).

Definition agreed_content_length (h : HttpHeaders) : res unit (HttpHeaders * option (list byte)) :=
  let values := header_values h (str_of "Content-Length") in
  match values with
  | [] => Ok (h, None)
  | first :: _ =>
    let first := trim_ascii_space first in
    if existsb (fun v => negb (bool_decide (trim_ascii_space v = first))) values then Err tt
    else Ok (if (1 <? length values)%nat then header_set h (str_of "Content-Length") first else h, Some first)
  end.

Definition parse_content_length (value : list byte) : res unit Z :=
  if bool_decide (value = []) || negb (forallb is_digit_byte value) then Err tt
  else ok_or (n ← (text ← from_utf8 value; parse_u64 10 text); if n <=? i64_max then Some n else None) tt.

(** The headers left, and the length: -1 for a chunked body or one until the connection closes *)
Definition fix_length (h : HttpHeaders) (response : bool) (status : Z) (request_method : str) (chunked : bool)
    : res unit (HttpHeaders * Z) :=
  let? (h, agreed) := agreed_content_length h in
  let? declared := match agreed with Some v => let? n := parse_content_length v in Ok (Some n) | None => Ok None end in
  if (response && bool_decide (request_method = str_of "HEAD")) || negb (body_allowed status) then Ok (h, 0)
  else if chunked : bool then Ok (header_remove h (str_of "Content-Length"), -1)
  else
    match declared with
    | Some n => if n <=? i64_max then Ok (h, n) else Err tt
    | None => Ok (header_remove h (str_of "Content-Length"), if response then -1 else 0)
    end.

Record HttpRequestHead := mkRequestHead {
  rq_method : str;
  rq_target : str;
  rq_version : Z * Z;
  rq_headers : HttpHeaders;
  rq_authorization : option (list byte);
  rq_body : HttpBody
}.

Definition malformed {A} (m : res unit A) : res HttpParseError A := res_map_err (fun _ => Malformed) m.

(** [read_http_request_head], with the limit of a line *)
Definition read_request_head (limit : Z) (r : list byte) : res HttpParseError (HttpRequestHead * list byte) :=
  let? (line, r) := read_line limit r in
  let? line := ok_or (from_utf8 line) Malformed in
  let? (method, rest) := ok_or (split_first sp line) Malformed in
  let? (target, version) := ok_or (split_first sp rest) Malformed in
  let? version := ok_or (http_version version) Malformed in
  if bool_decide (method = []) || negb (forallb is_token_byte method) || existsb (fun b => (u8 b <? 0x20) || (u8 b =? 0x7f)) target
  then Err Malformed
  else
    let? (block, r) := read_header_block limit true r in
    let h := block_headers block in
    if (1 <? length (header_values h (str_of "Host")))%nat then Err Malformed
    else
      let h := fix_pragma_cache_control h in
      let? (h, chunked) := malformed (transfer_is_chunked h version) in
      let? (h, length) := malformed (fix_length h false 200 method chunked) in
      let body := if chunked : bool then BodyChunked else if length =? 0 then BodyNone else BodyLength (Z.abs length) in
      Ok (mkRequestHead method target version (header_remove h (str_of "Host")) (block_authorization block) body, r).

Definition read_http_request_head (r : list byte) : res HttpParseError (HttpRequestHead * list byte) := read_request_head MAX_LINE_LEN r.

(** ** Authorities *)

Definition low16 (z : Z) : Z := z mod 65536.

Definition http_parse_port (port : str) : res HttpParseError Z :=
  if negb (forallb is_digit_byte port) then Err InvalidPort
  else let? value := ok_or (parse_i64_text port) InvalidPort in Ok (low16 value).

Definition http_parse_host (host : str) (bracketed : bool) : res HttpParseError TargetAddr :=
  let allowed b :=
    negb (u8 b <? 0x80) || is_alnum_byte b || byte_in "-._~!$&'()*+,;=<>" b || bool_decide (b = x22)
    || (bracketed && bool_decide (b = colon)) in
  if bool_decide (host = []) || negb (forallb allowed host) then Err InvalidAuthority
  else Ok (match parse_ip host with Some ip => Ip ip | None => Domain host end).

Definition parse_authority_target (authority : str) (default_port : Z) : res HttpParseError Target :=
  let bracketed := bool_decide (head authority = Some "["%byte) in
  let? (host, port) :=
    match authority with
    | b :: rest =>
      if bool_decide (b = "["%byte) then
        let? (host, rest) := ok_or (split_first "]"%byte rest) InvalidAuthority in
        match rest with
        | [] => Ok (host, None)
        | c :: port => if bool_decide (c = colon) then Ok (host, Some port) else Err InvalidAuthority
        end
      else Ok (match split_last colon authority with Some (host, port) => (host, Some port) | None => (authority, None) end)
    | [] => Ok (authority, None)
    end in
  let? port := match port with None | Some [] => Ok default_port | Some port => http_parse_port port end in
  let? host := http_parse_host host bracketed in
  Ok (mkTarget host port Tcp).

(** [connect_target] *)
Definition connect_target (head : HttpRequestHead) : option (res HttpParseError Target) :=
  if bool_decide (rq_method head = str_of "CONNECT") then Some (parse_authority_target (rq_target head) 80) else None.

Record HttpConnectRequest := mkConnectRequest {
  connect_to : option Target;
  connect_authorization : option (list byte)
}.

Definition parse_http_connect_request (r : list byte) : res HttpParseError (HttpConnectRequest * list byte) :=
  let? (head, r) := read_http_request_head r in
  let? target := match connect_target head with Some m => let? t := m in Ok (Some t) | None => Ok None end in
  Ok (mkConnectRequest target (rq_authorization head), r).

Definition parse_http_connect (r : list byte) : res HttpParseError (Target * list byte) :=
  let? (request, r) := parse_http_connect_request r in
  let? target := ok_or (connect_to request) NotConnect in Ok (target, r).

(** ** Accounts *)

(** The standard padded alphabet of the [base64] crate *)
Class Base64 := base64_decode : list byte -> option (list byte).

Definition strip_text (prefix s : str) : option str := if bool_decide (take (length prefix) s = prefix) then Some (drop (length prefix) s) else None.

Definition decode_http_basic_credentials `{Base64} (value : list byte) : option (list byte * list byte) :=
  encoded ← strip_text (str_of "Basic ") value;
  decoded ← base64_decode encoded;
  split_first colon decoded.

Definition HttpInboundAccounts : Type := list (list byte * list byte).

Fixpoint http_account_insert (accounts : HttpInboundAccounts) (user pass : list byte) : HttpInboundAccounts :=
  match accounts with
  | [] => [(user, pass)]
  | (known, p) :: rest => if bool_decide (known = user) then (known, pass) :: rest else (known, p) :: http_account_insert rest user pass
  end.

(** [basic_user]: the bytes of the name admitted, if there are accounts *)
Definition http_basic_user `{Base64} (accounts : HttpInboundAccounts) (authorization : option (list byte)) : option (option (list byte)) :=
  if bool_decide (accounts = []) then Some None
  else
    '(user, pass) ← (v ← authorization; decode_http_basic_credentials v);
    if fold_left (fun admitted '(known_user, known_pass) => admitted || (bool_decide (known_user = user) && bool_decide (known_pass = pass)))
         accounts false
    then Some (Some user) else None.

(** ** Request targets *)

Inductive PlainHttpError := NoHost | PlainMalformed.

(** [url_scheme]: the scheme and the rest *)
Fixpoint scheme_loop (target seen r : str) : res PlainHttpError (str * str) :=
  match r with
  | [] => Ok ([], target)
  | b :: r =>
    if is_letter_byte b then scheme_loop target (seen ++ [b]) r
    else if (is_digit_byte b || byte_in "+-." b) && negb (bool_decide (seen = [])) then scheme_loop target (seen ++ [b]) r
    else if bool_decide (b = colon) then (if bool_decide (seen = []) then Err PlainMalformed else Ok (seen, r))
    else Ok ([], target)
  end.
Definition url_scheme (target : str) : res PlainHttpError (str * str) := scheme_loop target [] target.

Fixpoint percent_decode (s : str) : option (list byte) :=
  match s with
  | [] => Some []
  | b :: r =>
    if bool_decide (b = "%"%byte) then
      match r with
      | h :: l :: r =>
        high ← digit 16 h; low ← digit 16 l; rest ← percent_decode r; Some (to_u8 (high * 16 + low) :: rest)
      | _ => None
      end
    else rest ← percent_decode r; Some (b :: rest)
  end.

(** [{byte:02X}] *)
Definition hex_upper (d : Z) : byte := to_u8 (if d <? 10 then 0x30 + d else 0x37 + d).
Definition escape_path (path : list byte) : str :=
  concat (map (fun b => if is_alnum_byte b || byte_in "-_.~$&+,/:;=@" b then [b]
                        else ["%"%byte; hex_upper (u8 b / 16); hex_upper (u8 b mod 16)]) path).

Definition valid_encoded_path_byte (b : byte) : bool := is_alnum_byte b || byte_in "-_.~$&+,/:;=@!'()*[]%" b.

Definition escaped_path (raw : str) (decoded : list byte) : str :=
  let escaped := escape_path decoded in
  if bool_decide (escaped = raw) || negb (forallb valid_encoded_path_byte raw) then escaped else raw.

Record RequestUrl := mkRequestUrl {
  url_scheme_text : str;
  url_host : option str;
  url_path : list byte;
  url_request_uri : str
}.

Definition slash : byte := "/"%byte.
Definition question : byte := "?"%byte.

(** The split at the query *)
Definition split_query (rest : str) : str * option str :=
  if bool_decide (list.last rest = Some question) && (length (List.filter (fun b => bool_decide (b = question)) rest) =? 1)%nat
  then (removelast rest, Some [])
  else match split_first question rest with Some (rest, query) => (rest, Some query) | None => (rest, None) end.

(** The authority and the path of what follows the scheme *)
Definition split_authority (scheme rest : str) : option str * str :=
  match strip_text (str_of "//") rest with
  | Some rest =>
    if bool_decide (scheme = []) then (None, slash :: slash :: rest)
    else
      let '(authority, path) := match split_first slash rest with Some (a, p) => (a, slash :: p) | None => (rest, []) end in
      let host := match split_last "@"%byte authority with Some (_, host) => host | None => authority end in
      (if bool_decide (host = []) then None else Some host, path)
  | None => (None, rest)
  end.

Definition RequestUrl_parse (target : str) : res PlainHttpError RequestUrl :=
  if bool_decide (target = []) then Err PlainMalformed
  else if bool_decide (target = str_of "*") then Err NoHost
  else
    let? (scheme, rest) := url_scheme target in
    let '(rest, query) := split_query rest in
    if negb (bool_decide (head rest = Some slash)) then (if bool_decide (scheme = []) then Err PlainMalformed else Err NoHost)
    else
      let '(host, path) := split_authority scheme rest in
      let? decoded := ok_or (percent_decode path) PlainMalformed in
      let uri := escaped_path path decoded in
      let uri := if bool_decide (uri = []) then [slash] else uri in
      let uri := match query with Some q => uri ++ question :: q | None => uri end in
      Ok (mkRequestUrl (to_ascii_lowercase scheme) host decoded uri).

(** ** Requests that are forwarded *)

Definition hop_by_hop : list str :=
  [str_of "Proxy-Connection"; str_of "Proxy-Authenticate"; str_of "Proxy-Authorization"; str_of "TE"; str_of "Trailers";
   str_of "Transfer-Encoding"; str_of "Upgrade"].

Definition remove_all (h : HttpHeaders) (names : list str) : HttpHeaders := fold_left header_remove names h.

(** The names that [Connection] lists *)
Definition connection_names (value : option (list byte)) : list str :=
  match value with Some v => omap (fun name => from_utf8 (trim_ascii_space name)) (split_on ","%byte v) | None => [] end.

Definition remove_hop_by_hop_headers (h : HttpHeaders) : HttpHeaders :=
  let h := remove_all h hop_by_hop in
  let connection := header_get h (str_of "Connection") in
  remove_all (header_remove h (str_of "Connection")) (connection_names connection).

Record PlainHttpRequest := mkPlainRequest {
  pl_method : str;
  pl_destination : Target;
  pl_path : list byte;
  pl_request_uri : str;
  pl_host : str;
  pl_headers : HttpHeaders;
  pl_body : HttpBody;
  pl_keep_alive : bool
}.

Definition PlainHttpRequest_new (head : HttpRequestHead) : res PlainHttpError PlainHttpRequest :=
  let? url := RequestUrl_parse (rq_target head) in
  let h := rq_headers head in
  let keep_alive :=
    match header_get h (str_of "Proxy-Connection") with
    | Some v => eq_ignore_ascii_case (trim_ascii_space v) (str_of "keep-alive")
    | None => false
    end in
  let? host := ok_or (url_host url) NoHost in
  let default_port := if eq_ignore_ascii_case (url_scheme_text url) (str_of "https") then 443 else 80 in
  let? destination := res_map_err (fun _ => PlainMalformed) (parse_authority_target host default_port) in
  let h := remove_hop_by_hop_headers h in
  let h := if bool_decide (default [] (header_get h (str_of "User-Agent")) = []) then header_set h (str_of "User-Agent") [] else h in
  Ok (mkPlainRequest (rq_method head) destination (url_path url) (url_request_uri url) host h (rq_body head) keep_alive).

Definition ascii_uppercase (s : str) : str := map ascii_upper s.

(** [attributes] *)
Definition plain_attributes (r : PlainHttpRequest) : list (str * list byte) :=
  (str_of ":method", ascii_uppercase (pl_method r)) :: (str_of ":path", pl_path r)
  :: map (fun '(name, values) => (name, default [] (head values))) (header_iter (pl_headers r)).

(** [idna::domain_to_ascii] *)
Class Idna := domain_to_ascii : str -> option str.

Definition valid_host_byte (b : byte) : bool := is_alnum_byte b || byte_in "!$&'()*+,-.:;=[]_~%" b.

Definition host_header `{Idna} (host : str) : str :=
  let host :=
    if is_ascii_text host then host
    else
      let '(name, port) :=
        match split_last colon host with
        | Some (name, port) => if forallb is_digit_byte port then (name, Some port) else (host, None)
        | None => (host, None)
        end in
      match domain_to_ascii name with
      | Some name => match port with Some port => name ++ colon :: port | None => name end
      | None => []
      end in
  if forallb valid_host_byte host then host else [].

Definition sends_body (method : str) : bool :=
  bool_decide (method = str_of "POST") || bool_decide (method = str_of "PUT") || bool_decide (method = str_of "PATCH").

(** The lines of a request that say who sends it and how its body is delimited *)
Definition agent_line (h : HttpHeaders) : list byte :=
  match header_get h (str_of "User-Agent") with
  | Some agent => let agent := clean_value agent in if bool_decide (agent = []) then [] else field_line (str_of "User-Agent") agent
  | None => []
  end.
Definition sends_length (r : PlainHttpRequest) : bool :=
  match pl_body r with
  | BodyLength n => (0 <? n) || sends_body (pl_method r)
  | BodyNone => sends_body (pl_method r)
  | BodyChunked | BodyUntilClose => false
  end.
Definition framing_line (r : PlainHttpRequest) : list byte :=
  if sends_length r
  then field_line (str_of "Content-Length") (show_dec (match pl_body r with BodyLength n => n | _ => 0 end))
  else if bool_decide (pl_body r = BodyChunked) then field_line (str_of "Transfer-Encoding") (str_of "chunked") else [].

Definition request_excluded : list str :=
  [str_of "Host"; str_of "User-Agent"; str_of "Content-Length"; str_of "Transfer-Encoding"; str_of "Trailer"].

Definition forwarded_head `{Idna} (r : PlainHttpRequest) : list byte :=
  pl_method r ++ [sp] ++ pl_request_uri r ++ str_of " HTTP/1.1" ++ crlf_bytes
  ++ field_line (str_of "Host") (host_header (pl_host r))
  ++ agent_line (pl_headers r) ++ framing_line r
  ++ write_subset (header_set (pl_headers r) (str_of "Connection") (str_of "close")) request_excluded
  ++ crlf_bytes.

(** ** Responses *)

Record HttpResponseHead := mkResponseHead {
  rs_version : Z * Z;
  rs_status_code : Z;
  rs_status : str;
  rs_headers : HttpHeaders;
  rs_body : HttpBody;
  rs_content_length : Z
}.

Definition keeps_alive (head : HttpResponseHead) : bool := 0 <=? rs_content_length head.

(** [{:03}] *)
Definition show_status (n : Z) : str := [digit_byte (n / 100 mod 10); digit_byte (n / 10 mod 10); digit_byte (n mod 10)].

Definition has_close_token (values : list (list byte)) : bool :=
  existsb (fun token => eq_ignore_ascii_case (trim_blank token) (str_of "close")) (concat (map (split_on ","%byte) values)).

Definition response_excluded : list str := [str_of "Content-Length"; str_of "Transfer-Encoding"; str_of "Trailer"].

(** The headers that go back to the client *)
Definition client_headers (head : HttpResponseHead) : HttpHeaders :=
  let h := remove_hop_by_hop_headers (rs_headers head) in
  if keeps_alive head then
    header_set (header_set (header_set h (str_of "Proxy-Connection") (str_of "keep-alive")) (str_of "Connection") (str_of "keep-alive"))
      (str_of "Keep-Alive") (str_of "timeout=60")
  else h.

Definition response_sends_length (head : HttpResponseHead) (request_method : str) : bool :=
  negb (bool_decide (rs_body head = BodyChunked))
  && ((0 <? rs_content_length head) || ((rs_content_length head =? 0) && sends_body request_method)).

Definition client_head (head : HttpResponseHead) (request_method : str) : list byte :=
  let h := client_headers head in
  let text := default (rs_status head) (strip_text (show_dec (rs_status_code head) ++ [sp]) (rs_status head)) in
  let chunked := bool_decide (rs_body head = BodyChunked) in
  let sends_length := response_sends_length head request_method in
  str_of "HTTP/" ++ show_dec (fst (rs_version head)) ++ [dot] ++ show_dec (snd (rs_version head)) ++ [sp]
  ++ show_status (rs_status_code head) ++ [sp] ++ text ++ crlf_bytes
  ++ (if negb (keeps_alive head) && negb (has_close_token (header_values h (str_of "Connection")))
      then field_line (str_of "Connection") (str_of "close") else [])
  ++ (if sends_length then field_line (str_of "Content-Length") (show_dec (rs_content_length head))
      else if chunked then field_line (str_of "Transfer-Encoding") (str_of "chunked") else [])
  ++ write_subset h response_excluded
  ++ (if (rs_content_length head =? 0) && negb chunked && negb sends_length && body_allowed (rs_status_code head)
      then field_line (str_of "Content-Length") (str_of "0") else [])
  ++ crlf_bytes.

(** [read_until] of at most [n] bytes: what it reads and what is left *)
Fixpoint until_lf (n : nat) (r : list byte) : list byte * list byte :=
  match n, r with
  | S n, b :: r => if bool_decide (b = lf) then ([lf], r) else let '(x, r) := until_lf n r in (b :: x, r)
  | _, _ => ([], r)
  end.

(** [read_raw_line], which appends to [line] *)
Definition read_raw_line (limit : Z) (line r : list byte) : res HttpParseError (list byte * list byte) :=
  let '(x, r) := until_lf (Z.to_nat limit) r in
  if bool_decide (x = []) then Err HttpIo
  else if bool_decide (list.last (line ++ x) = Some lf) then Ok (line ++ x, r) else Err LineTooLong.

(** [read_http_response_head] after the status line [first] *)
Definition read_response_head (limit : Z) (first : list byte) (request_method : str) (r : list byte)
    : res HttpParseError (HttpResponseHead * list byte) :=
  let line := strip_end cr (strip_end lf first) in
  let? line := ok_or (from_utf8 line) Malformed in
  let? (version, status) := ok_or (split_first sp line) Malformed in
  let status := drop_while (fun b => bool_decide (b = sp)) status in
  let code := match split_first sp status with Some (code, _) => code | None => status end in
  let? status_code :=
    ok_or (if (length code =? 3)%nat then n ← parse_i64_text code; if (0 <=? n) && (n <=? u16_max) then Some n else None else None)
      Malformed in
  let? version := ok_or (http_version version) Malformed in
  let? (block, r) := read_header_block limit false r in
  let h := fix_pragma_cache_control (block_headers block) in
  let? (h, chunked) := malformed (transfer_is_chunked h version) in
  let? (h, length) := malformed (fix_length h true status_code request_method chunked) in
  let head := bool_decide (request_method = str_of "HEAD") in
  let? content_length :=
    if head then
      match header_get h (str_of "Content-Length") with
      | Some value =>
        let? n := malformed (parse_content_length (trim_ascii_space value)) in if n <=? i64_max then Ok n else Err Malformed
      | None => Ok (-1)
      end
    else Ok length in
  let body :=
    if chunked && negb head && body_allowed status_code then BodyChunked
    else if length =? 0 then BodyNone else if length =? -1 then BodyUntilClose else BodyLength (Z.abs length) in
  Ok (mkResponseHead version status_code status h body content_length, r).

Record HttpResponse := mkResponse {
  informational : option (list byte);
  response_head : HttpResponseHead
}.

(** The loop that reads an informational head; a line takes at least one byte. *)
Fixpoint informational_loop (fuel : nat) (limit : Z) (raw r : list byte) : res HttpParseError (list byte * list byte) :=
  match fuel with
  | O => Panic
  | S fuel =>
    if bool_decide (drop (length raw - 4) raw = [cr; lf; cr; lf]) then Ok (raw, r)
    else if MAX_INFORMATIONAL_HEAD <? len raw then Err LineTooLong
    else let? (raw, r) := read_raw_line limit raw r in informational_loop fuel limit raw r
  end.

Definition is_informational (first : list byte) : bool :=
  match split_first sp first with Some (_, b :: _) => bool_decide (b = "1"%byte) | _ => false end.

(** [read_http_response], with the limit of a line *)
Definition read_response (limit : Z) (request_method : str) (r : list byte) : res HttpParseError (HttpResponse * list byte) :=
  let? (first, r) := read_raw_line limit [] r in
  if negb (is_informational first) then
    let? (head, r) := read_response_head limit first request_method r in
    Ok (mkResponse None head, r)
  else
    let? (raw, r) := informational_loop (S (length r)) limit first r in
    let? (first, r) := read_raw_line limit [] r in
    let? (head, r) := read_response_head limit first request_method r in
    Ok (mkResponse (Some raw) head, r).

Definition read_http_response (request_method : str) (r : list byte) : res HttpParseError (HttpResponse * list byte) :=
  read_response MAX_LINE_LEN request_method r.

(** ** Bodies *)

(** A copy: what it wrote, and the rest of the reader where it succeeds *)
Definition copying : Type := list byte * res IoError (list byte).

Definition copy_body_length (n : Z) (r : list byte) : copying :=
  if n <=? len r then (take (Z.to_nat n) r, Ok (drop (Z.to_nat n) r)) else (r, Err UnexpectedEof).

(** The size of a chunk, from its line *)
Definition chunk_size (line : list byte) : option Z :=
  let size := trim_blank (match split_first ";"%byte line with Some (size, _) => size | None => line end) in
  if bool_decide (size = []) || (16 <? length size)%nat || negb (forallb (fun b => bool_decide (is_Some (digit 16 b))) size) then None
  else text ← from_utf8 size; parse_u64 16 text.

(** The trailer, up to its blank line *)
Fixpoint skip_trailer (fuel : nat) (limit : Z) (r : list byte) : res HttpParseError (list byte) :=
  match fuel with
  | O => Panic
  | S fuel =>
    let? (line, r) := read_line limit r in
    match line with [] => Ok r | _ => skip_trailer fuel limit r end
  end.

Definition last_chunk : list byte := [x30; cr; lf; cr; lf].

(** The turns of [copy_body_chunked]; a chunk takes at least one byte. *)
Fixpoint chunked_loop (fuel : nat) (limit : Z) (r : list byte) : copying :=
  match fuel with
  | O => ([], Panic)
  | S fuel =>
    match read_line limit r with
    | Ok (line, r) =>
      match chunk_size line with
      | None => ([], Err InvalidData)
      | Some size =>
        if size =? 0 then
          match skip_trailer (S (length r)) limit r with
          | Ok r => (last_chunk, Ok r)
          | Err _ => ([], Err InvalidData)
          | Panic => ([], Panic)
          end
        else
          let head := show_hex size ++ crlf_bytes in
          let '(data, m) := copy_body_length size r in
          match m with
          | Ok r =>
            match read_line limit r with
            | Ok ([], r) => let '(out, m) := chunked_loop fuel limit r in (head ++ data ++ crlf_bytes ++ out, m)
            | Ok _ | Err _ => (head ++ data ++ crlf_bytes, Err InvalidData)
            | Panic => (head ++ data ++ crlf_bytes, Panic)
            end
          | Err e => (head ++ data, Err e)
          | Panic => (head ++ data, Panic)
          end
      end
    | Err _ => ([], Err InvalidData)
    | Panic => ([], Panic)
    end
  end.
Definition copy_body_chunked (limit : Z) (r : list byte) : copying := chunked_loop (S (length r)) limit r.

(** ** An exchange *)

(** The body of a message, copied as it is delimited *)
Definition copy_body (body : HttpBody) (r : list byte) : copying :=
  match body with
  | BodyLength n => copy_body_length n r
  | BodyChunked => copy_body_chunked MAX_LINE_LEN r
  | BodyUntilClose => (r, Ok [])
  | BodyNone => ([], Ok r)
  end.

(** [upload] of [exchange]: a request is never delimited by the end of the connection. *)
Definition upload `{Idna} (request : PlainHttpRequest) (r : list byte) : copying :=
  let '(body, m) := match pl_body request with BodyUntilClose => ([], Ok r) | body => copy_body body r end in
  (forwarded_head request ++ body, m).

Definition HTTP_SERVICE_UNAVAILABLE : list byte :=
  str_of "HTTP/1.1 503 Service Unavailable" ++ crlf_bytes ++ str_of "Connection: close" ++ crlf_bytes
  ++ str_of "Proxy-Connection: close" ++ crlf_bytes ++ str_of "Content-Length: 0" ++ crlf_bytes ++ crlf_bytes.

(** [download]: what the client is sent, and whether its connection is kept *)
Definition download (request_method : str) (r : list byte) : list byte * res IoError bool :=
  match read_http_response request_method r with
  | Ok (response, r) =>
    let head := response_head response in
    let '(body, m) := copy_body (rs_body head) r in
    (default [] (informational response) ++ client_head head request_method ++ body,
     match m with Ok _ => Ok (keeps_alive head) | Err e => Err e | Panic => Panic end)
  | Err _ => (HTTP_SERVICE_UNAVAILABLE, Err InvalidData)
  | Panic => ([], Panic)
  end.
