(* ===== verification/HttpText.v ===== *)
(** What the texts of HTTP messages are made of: splitting and trimming, lines, printed numbers,
    header names and values. *)
From Stdlib Require Import Strings.Byte Strings.String.
From stdpp Require Import gmap sorting.
From S2P Require Import Prelude Net IpText HttpMessage.

(** ** Texts *)

Lemma split_first_at c x y : without c x -> split_first c (x ++ c :: y) = Some (x, y).
Proof. induction 1 as [|b x Hb _ IH]; cbn [app split_first]; [by rewrite bool_decide_true|]. rewrite bool_decide_false by done. by rewrite IH. Qed.

Lemma split_first_inv c s x y : split_first c s = Some (x, y) -> s = x ++ c :: y /\ without c x.
Proof.
  revert x. induction s as [|b s IH]; intros x; cbn [split_first]; [done|]. case_bool_decide as Hb.
  - intros [= <- <-]. subst. split; [done | constructor].
  - destruct (split_first c s) as [[x' y']|]; [|done]. cbn. intros [= <- <-]. destruct (IH x' eq_refl) as [-> Hw]. split; [done | by constructor].
Qed.

Lemma split_first_none c s : without c s -> split_first c s = None.
Proof. induction 1 as [|b s Hb _ IH]; [done|]. cbn [split_first]. rewrite bool_decide_false by done. by rewrite IH. Qed.

Lemma strip_end_snoc c s : strip_end c (s ++ [c]) = s.
Proof. unfold strip_end. rewrite reverse_snoc, bool_decide_true by done. apply reverse_involutive. Qed.

Lemma strip_end_other c s b : b <> c -> strip_end c (s ++ [b]) = s ++ [b].
Proof. intros Hb. unfold strip_end. by rewrite reverse_snoc, bool_decide_false. Qed.

Lemma strip_end_split c s : s = strip_end c s \/ s = strip_end c s ++ [c].
Proof.
  destruct s as [|b s _] using rev_ind; [by left|]. destruct (decide (b = c)) as [->|Hb].
  - right. by rewrite strip_end_snoc.
  - left. by rewrite strip_end_other.
Qed.

(** ** Lines *)

Lemma read_line_loop_app limit line x r :
  without lf x -> len line + len x < limit -> read_line_loop limit line (x ++ lf :: r) = Ok (strip_end cr (line ++ x), r).
Proof.
  intros Hx. revert line. induction Hx as [|b x Hb _ IH]; intros line Hl; cbn [app read_line_loop].
  - rewrite len_nil in Hl. guard_false by lia. by rewrite bool_decide_true, app_nil_r.
  - rewrite len_cons in Hl. pose proof (len_nonneg x). guard_false by lia. rewrite bool_decide_false by done.
    rewrite IH by (rewrite len_app, len_cons, len_nil; lia). by rewrite <- app_assoc.
Qed.

(** A line that ends with a line break is read without it. *)
Lemma read_line_crlf limit x r :
  without lf x -> len x + 1 < limit -> read_line limit (x ++ crlf_bytes ++ r) = Ok (x, r).
Proof.
  intros Hx Hl. unfold read_line, crlf_bytes. change (x ++ [cr; lf] ++ r) with (x ++ [cr] ++ lf :: r). rewrite app_assoc.
  rewrite read_line_loop_app; [by rewrite app_nil_l, strip_end_snoc| |unfold len in *; rewrite length_app; simpl; lia].
  apply list.Forall_app. split; [done|]. by repeat constructor.
Qed.

Lemma read_line_loop_inv limit line r x r' :
  read_line_loop limit line r = Ok (x, r') ->
  exists y, r = y ++ lf :: r' /\ without lf y /\ x = strip_end cr (line ++ y) /\ len line + len y < limit.
Proof.
  revert line. induction r as [|b r IH]; intros line; cbn [read_line_loop]; case_if; try done; unbool.
  case_bool_decide as Hb.
  - intros [= <- <-]. subst. exists []. rewrite app_nil_r, len_nil. split_and!; [done | constructor | done | lia].
  - intros (y & -> & Hy & -> & Hl)%IH. exists (b :: y). rewrite len_app, len_cons, len_nil in Hl. rewrite len_cons, <- app_assoc.
    split_and!; [done | by constructor | done | lia].
Qed.

Lemma read_line_inv limit r x r' :
  read_line limit r = Ok (x, r') -> exists y, r = y ++ lf :: r' /\ without lf y /\ x = strip_end cr y /\ len y < limit.
Proof. intros (y & ? & ? & ? & ?)%read_line_loop_inv. rewrite len_nil in *. by exists y. Qed.

Lemma read_line_without limit r x r' : read_line limit r = Ok (x, r') -> without lf x /\ (length r' < length r)%nat.
Proof.
  intros (y & -> & Hy & -> & _)%read_line_inv. rewrite length_app. simpl. split; [|lia].
  destruct (strip_end_split cr y) as [E|E]; [by rewrite <- E|]. rewrite E in Hy. by apply list.Forall_app in Hy as [? _].
Qed.

Lemma read_line_no_panic limit r : read_line limit r <> Panic.
Proof. unfold read_line. generalize (@nil byte) as line. induction r as [|b r IH]; intros line; cbn [read_line_loop]; repeat case_if; done. Qed.

(** ** Trimming *)

Definition edges (f : byte -> bool) (s : list byte) : Prop :=
  match s with b :: _ => f b = false | [] => True end /\ match reverse s with b :: _ => f b = false | [] => True end.

Lemma drop_while_app {A} (f : A -> bool) a s :
  Forall (fun b => f b = true) a -> match s with b :: _ => f b = false | [] => True end -> drop_while f (a ++ s) = s.
Proof.
  induction 1 as [|b a Hb _ IH]; intros Hs; cbn [app]; [|cbn [drop_while]; rewrite Hb; by apply IH].
  destruct s as [|b s]; [done|]. cbn [drop_while]. by rewrite Hs.
Qed.

Lemma drop_while_cut {A} (f : A -> bool) s :
  exists a, s = a ++ drop_while f s /\ Forall (fun b => f b = true) a
    /\ match drop_while f s with b :: _ => f b = false | [] => True end.
Proof.
  induction s as [|b s (a & E & Ha & Hd)]; [by exists []|]. cbn [drop_while]. destruct (f b) eqn:Ef.
  - exists (b :: a). split_and!; [by rewrite <- app_comm_cons, <- E | by constructor | done].
  - exists []. split_and!; [done | constructor | done].
Qed.

Lemma Forall_reverse {A} (P : A -> Prop) l : Forall P l -> Forall P (reverse l).
Proof. rewrite !list.Forall_forall. intros H x Hx. apply H. by rewrite elem_of_reverse in Hx. Qed.

Lemma trim_by_app f a s b :
  Forall (fun x => f x = true) a -> Forall (fun x => f x = true) b -> edges f s -> trim_by f (a ++ s ++ b) = s.
Proof.
  intros Ha Hb [H1 H2]. unfold trim_by. destruct s as [|c s].
  - cbn [app]. rewrite <- (app_nil_r (a ++ b)), drop_while_app; [done | by apply list.Forall_app | done].
  - rewrite drop_while_app by done. rewrite reverse_app, drop_while_app; [apply reverse_involutive | by apply Forall_reverse | done].
Qed.

Lemma trim_by_cut f s :
  exists a b, s = a ++ trim_by f s ++ b /\ Forall (fun x => f x = true) a /\ Forall (fun x => f x = true) b /\ edges f (trim_by f s).
Proof.
  unfold trim_by. destruct (drop_while_cut f s) as (a & E & Ha & Hd).
  destruct (drop_while_cut f (reverse (drop_while f s))) as (b & E2 & Hb & Hd2).
  set (d := drop_while f s) in *. set (e := drop_while f (reverse d)) in *.
  assert (d = reverse e ++ reverse b) as Ed by (rewrite <- (reverse_involutive d), E2, reverse_app; done).
  exists a, (reverse b). split_and!; [by rewrite <- Ed | done | by apply Forall_reverse|].
  split; [|by rewrite reverse_involutive]. destruct (reverse e) as [|c r] eqn:Er; [done|]. rewrite Ed in Hd. exact Hd.
Qed.

Lemma trim_by_id f s : edges f s -> trim_by f s = s.
Proof. intros Hs. pose proof (trim_by_app f [] s []) as Ht. cbn [app] in Ht. rewrite app_nil_r in Ht. by apply Ht; [constructor..|]. Qed.

Lemma trim_by_Forall (P : byte -> Prop) f s : Forall P s -> Forall P (trim_by f s).
Proof. intros Hs. destruct (trim_by_cut f s) as (a & b & E & _). rewrite E in Hs. apply list.Forall_app in Hs as [_ Hs]. by apply list.Forall_app in Hs as [? _]. Qed.

(** ** Numbers *)

Lemma digit_shown radix d : 0 <= d < radix -> radix <= 16 -> digit radix (digit_byte d) = Some d.
Proof.
  intros Hd Hr. assert (d = 0 \/ d = 1 \/ d = 2 \/ d = 3 \/ d = 4 \/ d = 5 \/ d = 6 \/ d = 7 \/ d = 8 \/ d = 9 \/ d = 10
    \/ d = 11 \/ d = 12 \/ d = 13 \/ d = 14 \/ d = 15) as Hc by lia.
  unfold digit. cbv zeta. repeat destruct Hc as [->|Hc]; try subst d;
    match goal with |- (if ?e <? radix then _ else _) = _ => let v := eval vm_compute in e in change e with v end;
    by rewrite (proj2 (Z.ltb_lt _ _)) by lia.
Qed.

Lemma number_nonneg radix s a n : 0 <= radix -> 0 <= a -> number radix a s = Some n -> 0 <= n.
Proof.
  intros Hr. revert a n. induction s as [|b s IH]; intros a n Ha; cbn [number]; [intros [= <-]; done|].
  destruct (digit radix b) as [d|] eqn:Ed; [|done]. cbn [mbind option_bind]. apply IH.
  unfold digit in Ed. cbv zeta in Ed. repeat case_if_in Ed; unbool; simplify_eq; lia.
Qed.

(** The digits that a number is shown with, before [acc] *)
Lemma show_loop_spec radix fuel n acc :
  2 <= radix <= 16 -> 0 <= n < radix ^ Z.of_nat (S fuel) ->
  exists ds, show_loop (S fuel) radix n acc = ds ++ acc /\ ds <> []
    /\ Forall (fun b => exists d, b = digit_byte d /\ 0 <= d < radix) ds
    /\ (forall k, (0 < k)%nat -> n < radix ^ Z.of_nat k -> (length ds <= k)%nat)
    /\ forall a rest, number radix a (ds ++ rest) = number radix (a * radix ^ len ds + n) rest.
Proof.
  intros Hr. revert n acc. induction fuel as [|fuel IH]; intros n acc Hn; cbn [show_loop]; cbv zeta.
  all: pose proof (Z.mod_pos_bound n radix ltac:(lia)) as Hm; pose proof (Z.div_mod n radix ltac:(lia)) as Hdm;
    pose proof (Z.div_pos n radix ltac:(lia) ltac:(lia)) as Hq.
  all: assert (Hone : n / radix = 0 ->
    exists ds, digit_byte (n mod radix) :: acc = ds ++ acc /\ ds <> []
      /\ Forall (fun b => exists d, b = digit_byte d /\ 0 <= d < radix) ds
      /\ (forall k, (0 < k)%nat -> n < radix ^ Z.of_nat k -> (length ds <= k)%nat)
      /\ forall a rest, number radix a (ds ++ rest) = number radix (a * radix ^ len ds + n) rest)
    by (intros E; exists [digit_byte (n mod radix)]; split_and!; [done | done | repeat constructor; by eexists | simpl; lia |];
        intros a rest; cbn [app number]; rewrite digit_shown by lia; cbn [mbind option_bind];
        f_equal; change (len [digit_byte (n mod radix)]) with 1; lia).
  - assert (n / radix = 0) as E by (apply Z.div_small; simpl in Hn; lia). rewrite E. by apply Hone.
  - destruct (Z.eqb_spec (n / radix) 0) as [E|E]; [by apply Hone|].
    assert (0 <= n / radix < radix ^ Z.of_nat (S fuel)) as Hb.
    { split; [done|]. apply Z.div_lt_upper_bound; [lia|]. rewrite <- Z.pow_succ_r by lia. replace (Z.succ (Z.of_nat (S fuel))) with (Z.of_nat (S (S fuel))) by lia. apply Hn. }
    destruct (IH (n / radix) (digit_byte (n mod radix) :: acc) Hb) as (ds & Es & Hne & Hds & Hlen & Hval).
    change (show_loop (S fuel) radix (n / radix) (digit_byte (n mod radix) :: acc) = ds ++ digit_byte (n mod radix) :: acc) in Es.
    exists (ds ++ [digit_byte (n mod radix)]). split_and!.
    + cbn [show_loop] in Es. rewrite <- app_assoc. exact Es.
    + by destruct ds.
    + apply list.Forall_app. split; [done|]. repeat constructor. by eexists.
    + intros [|[|k]] Hk Hlt; [lia | | ].
      * exfalso. apply E. apply Z.div_small. simpl in Hlt. lia.
      * rewrite length_app. simpl. assert (length ds <= S k)%nat; [|lia]. apply Hlen; [lia|]. apply Z.div_lt_upper_bound; [lia|].
        rewrite <- Z.pow_succ_r by lia. by replace (Z.succ (Z.of_nat (S k))) with (Z.of_nat (S (S k))) by lia.
    + intros a rest. rewrite <- app_assoc, Hval. cbn [app number]. rewrite digit_shown by lia. cbn [mbind option_bind]. f_equal.
      rewrite len_app. change (len [digit_byte (n mod radix)]) with 1. rewrite Z.pow_add_r by (pose proof (len_nonneg ds); lia).
      rewrite Z.pow_1_r. nia.
Qed.

Lemma shown_digits radix ds :
  radix <= 16 -> Forall (fun b => exists d, b = digit_byte d /\ 0 <= d < radix) ds -> Forall (fun b => is_Some (digit radix b)) ds.
Proof. intros Hr Hf. eapply list.Forall_impl; [exact Hf|]. intros b (d & -> & Hd). rewrite digit_shown by done. by eexists. Qed.

Lemma number_bytes b : is_Some (digit 16 b) -> u8 b < 0x80 /\ b <> lf /\ b <> cr /\ b <> sp /\ b <> tab /\ b <> ";"%byte.
Proof. by destruct b; intros [? ?]. Qed.
Lemma decimal_bytes b : is_Some (digit 10 b) -> is_digit_byte b = true.
Proof. by destruct b; intros [? ?]. Qed.
Lemma decimal_hex b : is_Some (digit 10 b) -> is_Some (digit 16 b).
Proof. destruct b; intros [? E]; try done; by eexists. Qed.

Lemma show_parse radix n :
  radix = 10 \/ radix = 16 -> 0 <= n <= u64_max ->
  parse_u64 radix (show_loop 64 radix n []) = Some n
  /\ Forall (fun b => is_Some (digit radix b)) (show_loop 64 radix n []) /\ show_loop 64 radix n [] <> []
  /\ (radix = 16 -> (length (show_loop 64 radix n []) <= 16)%nat).
Proof.
  intros Hr Hn. destruct (show_loop_spec radix 63 n []) as (ds & Es & Hne & Hds & Hlen & Hval); [lia| |].
  { split; [lia|]. apply Z.le_lt_trans with u64_max; [lia|]. destruct Hr as [->| ->]; reflexivity. }
  rewrite app_nil_r in Es. rewrite Es. split_and!.
  - unfold parse_u64. rewrite bool_decide_false by done. specialize (Hval 0 []). rewrite app_nil_r in Hval. rewrite Hval.
    cbn [number mbind option_bind]. guard_true by lia. f_equal; lia.
  - apply shown_digits; [lia | done].
  - done.
  - intros ->. apply Hlen; [lia|]. apply Z.le_lt_trans with u64_max; [lia | reflexivity].
Qed.

(** ** Names *)

Create HintDb http.

Lemma token_upper b : is_token_byte b = true -> is_token_byte (ascii_upper b) = true /\ is_lower_byte (ascii_upper b) = false.
Proof. by destruct b. Qed.
Lemma token_lower b : is_token_byte b = true -> is_token_byte (ascii_lower b) = true /\ is_ascii_uppercase (ascii_lower b) = false.
Proof. by destruct b. Qed.
Lemma token_plain b : is_token_byte b = true -> 0x20 < u8 b < 0x7f /\ b <> sp /\ b <> tab /\ b <> cr /\ b <> lf /\ b <> colon.
Proof. by destruct b. Qed.

Lemma canonicalize_canonical upper s :
  forallb is_token_byte s = true ->
  forallb is_token_byte (canonicalize_loop upper s) = true /\ canonical_loop upper (canonicalize_loop upper s) = true.
Proof.
  revert upper. induction s as [|b s IH]; intros upper; [done|]. cbn [forallb canonicalize_loop canonical_loop]. cbv zeta.
  intros [Hb Hs]%andb_true_iff. destruct (IH (bool_decide ((if upper then ascii_upper b else ascii_lower b) = "-"%byte)) Hs) as [-> ->].
  destruct upper.
  - destruct (token_upper b Hb) as [-> ->]. by rewrite andb_false_r.
  - destruct (token_lower b Hb) as [-> ->]. done.
Qed.

Lemma canonical_idem name : canonical_header_key (canonical_header_key name) = canonical_header_key name.
Proof.
  unfold canonical_header_key. destruct (forallb is_token_byte name) eqn:Et; cbn [negb]; [|by rewrite Et].
  destruct (canonical_loop true name) eqn:Ec; [by rewrite Et, Ec|].
  destruct (canonicalize_canonical true name Et) as [-> ->]. done.
Qed.

Definition name_byte (b : byte) : bool := is_token_byte b || bool_decide (b = sp).

Record name_ok (k : str) : Prop := {
  nm_bytes : forallb name_byte k = true;
  nm_front : exists b r, k = b :: r /\ b <> sp;
  nm_canonical : canonical_header_key k = k
}.

Lemma name_byte_plain b : name_byte b = true -> u8 b < 0x80 /\ b <> tab /\ b <> cr /\ b <> lf /\ b <> colon.
Proof. by destruct b. Qed.

Lemma name_without k c : forallb name_byte k = true -> name_byte c = false -> without c k.
Proof.
  intros Hk Hc. rewrite forallb_forall in Hk. apply list.Forall_forall. intros b Hb ->. apply list_elem_of_In, Hk in Hb. congruence.
Qed.

Lemma canonical_name_ok name :
  forallb name_byte name = true -> (exists b r, name = b :: r /\ b <> sp) -> name_ok (canonical_header_key name).
Proof.
  intros Hb (b & r & -> & Hne). split; [| |apply canonical_idem].
  - unfold canonical_header_key. destruct (forallb is_token_byte (b :: r)) eqn:Et; cbn [negb]; [|done]. case_if; [done|].
    destruct (canonicalize_canonical true _ Et) as [Ht _]. rewrite forallb_forall in *. intros x Hx. unfold name_byte. by rewrite Ht.
  - unfold canonical_header_key. destruct (forallb is_token_byte (b :: r)) eqn:Et; cbn [negb]; [|by exists b, r]. case_if; [by exists b, r|].
    destruct (canonicalize_canonical true _ Et) as [Ht _]. cbn [canonicalize_loop] in *. cbv zeta in *. cbn [forallb] in Ht.
    apply andb_true_iff in Ht as [Ht _]. eexists _, _. split; [reflexivity|]. by apply token_plain in Ht as (_ & ? & _).
Qed.

(** Header fields that can be written; with [keep] the authorization is not among them. *)
Definition headers_ok (keep : bool) (h : HttpHeaders) : Prop :=
  forall k vs, h !! k = Some vs -> name_ok k /\ vs <> [] /\ (keep = true -> k <> str_of "Proxy-Authorization").

Lemma headers_ok_delete keep h k : headers_ok keep h -> headers_ok keep (delete k h).
Proof. intros Hh k' vs [_ Hk]%lookup_delete_Some. by apply Hh. Qed.
Lemma headers_ok_insert keep h k vs :
  headers_ok keep h -> name_ok k -> vs <> [] -> (keep = true -> k <> str_of "Proxy-Authorization") -> headers_ok keep (<[k := vs]> h).
Proof. intros Hh Hk Hv Hpa k' vs' [[<- <-]|[_ Hk']]%lookup_insert_Some; [done | by apply Hh]. Qed.
Lemma headers_ok_remove_all keep h names : headers_ok keep h -> headers_ok keep (remove_all h names).
Proof. revert h. induction names as [|n names IH]; intros h Hh; [done|]. cbn. by apply IH, headers_ok_delete. Qed.
#[export] Hint Resolve headers_ok_delete headers_ok_remove_all : http.

(** The names that the program itself uses *)
Lemma own_name k : forallb name_byte k && bool_decide (canonical_header_key k = k) && negb (bool_decide (head k = Some sp)) && negb (bool_decide (k = [])) = true -> name_ok k.
Proof.
  intros H. unbool. split; [done| |done]. destruct k as [|b r]; [done|]. exists b, r. split; [done|]. by intros ->.
Qed.

(** ** Values *)

Definition is_blank (b : byte) : bool := bool_decide (b = sp) || bool_decide (b = tab).
Definition value_ok (v : list byte) : Prop := edges is_blank v /\ without lf v /\ without cr v.

Lemma clean_value_ok v : value_ok (clean_value v).
Proof.
  unfold clean_value. set (w := map _ v).
  assert (Forall (fun b => b <> lf /\ b <> cr) w) as Hw.
  { apply list.Forall_forall. intros b Hb. apply list_elem_of_In, in_map_iff in Hb as (x & <- & _). case_if; [done|]. unbool. done. }
  destruct (trim_by_cut (fun b => bool_decide (b = sp) || bool_decide (b = tab) || bool_decide (b = cr) || bool_decide (b = lf)) w)
    as (a & b & E & _ & _ & He).
  assert (Forall (fun b => b <> lf /\ b <> cr) (trim_ascii_space w)) as Ht by (by apply trim_by_Forall).
  split; [|split; (eapply list.Forall_impl; [exact Ht | by intros ? []])].
  destruct He as [H1 H2]. unfold trim_ascii_space. split.
  - destruct (trim_by _ w); [done|]. unbool. unfold is_blank. by rewrite !bool_decide_false.
  - destruct (reverse (trim_by _ w)); [done|]. unbool. unfold is_blank. by rewrite !bool_decide_false.
Qed.
