(* ===== verification/HttpFields.v ===== *)
(** Header fields on the wire: a server reads what was written, and what is read can be written. *)
From Stdlib Require Import Strings.Byte Strings.String.
From stdpp Require Import gmap sorting.
From S2P Require Import Prelude Net IpText Utf8 HttpMessage HttpText.

(** ** Reading what is written *)

Lemma edges_nonblank b x y : is_blank b = false -> edges is_blank y -> y <> [] -> edges is_blank (b :: x ++ y).
Proof.
  intros Hb [_ Hy] Hne. split; [done|]. rewrite reverse_cons, reverse_app.
  destruct (reverse y) as [|c r] eqn:E; [|exact Hy]. exfalso. apply Hne. rewrite <- (reverse_involutive y), E. done.
Qed.

Lemma blank_false b : b <> sp -> b <> tab -> is_blank b = false.
Proof. intros. unfold is_blank. by rewrite !bool_decide_false. Qed.

(** A line that the program writes, without its line break, is read as its name and value. *)
Lemma field_turn_written keep b k v :
  name_ok k -> value_ok v -> (keep = true -> k <> str_of "Proxy-Authorization") ->
  field_turn keep b (k ++ str_of ": " ++ v)
  = Ok (mkHeaderBlock (header_add (block_headers b) k v) (block_authorization b), LastField k).
Proof.
  intros Hk [He [_ _]] Hpa. destruct (nm_front k Hk) as (c & r & Ek & Hc). pose proof (nm_bytes k Hk) as Hb.
  assert (name_byte c = true) as Hcb by (rewrite Ek in Hb; by apply andb_true_iff in Hb as [? _]).
  assert (is_blank c = false) as Hcbl by (apply blank_false; [done|]; by apply name_byte_plain in Hcb as (_ & ? & _)).
  set (v' := if bool_decide (v = []) then [] else sp :: v).
  assert (trim_blank (k ++ str_of ": " ++ v) = k ++ colon :: v') as Et.
  { unfold v'. case_bool_decide as Hv; fold is_blank.
    - subst v. rewrite app_nil_r. change (str_of ": ") with ([colon] ++ [sp]). rewrite app_assoc.
      pose proof (trim_by_app is_blank [] (k ++ [colon]) [sp]) as Ht. cbn [app] in Ht. apply Ht; [constructor | by repeat constructor|].
      rewrite Ek. by apply edges_nonblank.
    - change (k ++ str_of ": " ++ v) with (k ++ colon :: sp :: v). apply trim_by_id. rewrite Ek.
      assert ((c :: r) ++ colon :: sp :: v = c :: (r ++ [colon; sp]) ++ v) as -> by (by rewrite <- app_assoc). by apply edges_nonblank. }
  unfold field_turn. rewrite Et. cbv zeta. rewrite split_first_at by (by apply name_without). cbn [ok_or res_bind].
  rewrite bool_decide_false by (by rewrite Ek). assert (forallb (fun c => is_token_byte c || bool_decide (c = sp)) k = true) as -> by exact Hb.
  cbn [orb negb]. unfold from_utf8. rewrite (utf8_ascii k).
  2: { rewrite forallb_forall in Hb. apply list.Forall_forall. intros x Hx%list_elem_of_In%Hb. by apply name_byte_plain in Hx as [? _]. }
  cbn [ok_or res_bind]. rewrite (nm_canonical k Hk).
  assert (trim_blank v' = v) as Ev.
  { unfold v'. case_bool_decide as Hv; [by rewrite Hv|]. pose proof (trim_by_app is_blank [sp] v []) as Ht. rewrite app_nil_r in Ht.
    apply Ht; [by repeat constructor | constructor | done]. }
  rewrite Ev. destruct keep; cbn [andb]; [|done]. rewrite bool_decide_false by (by apply Hpa). done.
Qed.

Definition adds (h : HttpHeaders) (l : list (str * list byte)) : HttpHeaders := fold_left (fun h x => header_add h (fst x) (snd x)) l h.
Definition lines (l : list (str * list byte)) : list byte := concat (map (fun x => field_line (fst x) (snd x)) l).

(** Fields that can be written and read back *)
Definition fields_ok (keep : bool) (l : list (str * list byte)) : Prop :=
  Forall (fun x => name_ok (fst x) /\ value_ok (snd x) /\ (keep = true -> fst x <> str_of "Proxy-Authorization")) l.

Lemma lines_cons x l : lines (x :: l) = field_line (fst x) (snd x) ++ lines l.
Proof. done. Qed.

Lemma header_loop_written keep limit l b last rest fuel :
  fields_ok keep l -> len (lines l) + 2 < limit -> (length l < fuel)%nat ->
  header_loop fuel limit keep b last (lines l ++ crlf_bytes ++ rest)
  = Ok (mkHeaderBlock (adds (block_headers b) l) (block_authorization b), rest).
Proof.
  intros Hl. revert b last fuel. induction Hl as [|[k v] l (Hk & Hv & Hpa) _ IH]; intros b last fuel Hlim Hf;
    (destruct fuel as [|fuel]; [simpl in Hf; lia|]); cbn [header_loop].
  - change (lines [] ++ crlf_bytes ++ rest) with ([] ++ crlf_bytes ++ rest). change (len (lines [])) with 0 in Hlim.
    rewrite read_line_crlf by (first [constructor | rewrite len_nil; lia]). cbn [res_bind]. by destruct b.
  - rewrite lines_cons in *. cbn [fst snd] in *. unfold field_line in *. rewrite <- !app_assoc in *.
    rewrite !len_app in Hlim. change (len crlf_bytes) with 2 in Hlim. pose proof (len_nonneg (lines l)).
    assert (Hlen : len k + (len (str_of ": ") + len v) = len (k ++ str_of ": " ++ v)) by (by rewrite !len_app).
    replace (k ++ str_of ": " ++ v ++ crlf_bytes ++ lines l ++ crlf_bytes ++ rest)
      with ((k ++ str_of ": " ++ v) ++ crlf_bytes ++ lines l ++ crlf_bytes ++ rest) by (by rewrite <- !app_assoc).
    destruct (nm_front k Hk) as (c & r & Ek & Hc). pose proof (nm_bytes k Hk) as Hb.
    rewrite read_line_crlf; [| |lia].
    2: { destruct Hv as (_ & Hlf & _). apply list.Forall_app. split; [by apply name_without|]. apply list.Forall_app. split; [by repeat constructor | done]. }
    cbn [res_bind]. rewrite Ek at 1. cbn [app].
    assert (name_byte c = true) as Hcb by (rewrite Ek in Hb; by apply andb_true_iff in Hb as [? _]).
    apply name_byte_plain in Hcb as (_ & Htab & _). rewrite !bool_decide_false by done. cbn [orb].
    rewrite field_turn_written by done. cbn [res_bind]. pose proof (len_nonneg k). pose proof (len_nonneg v).
    change (len (str_of ": ")) with 2 in *. cbn [length] in Hf. rewrite IH by lia. done.
Qed.

Lemma read_block_written keep limit l rest :
  fields_ok keep l -> len (lines l) + 2 < limit ->
  read_header_block limit keep (lines l ++ crlf_bytes ++ rest) = Ok (mkHeaderBlock (adds ∅ l) None, rest).
Proof.
  intros Hl Hlim. unfold read_header_block. rewrite header_loop_written; [done | done | done|].
  assert (length l <= length (lines l))%nat; [|rewrite length_app; lia].
  clear. induction l as [|x l IH]; [done|]. rewrite lines_cons, length_app. unfold field_line. rewrite !length_app. simpl. lia.
Qed.

(** The values of a name *)
Definition values_of (l : list (str * list byte)) (k : str) : list (list byte) :=
  map snd (List.filter (fun x => bool_decide (fst x = k)) l).

Lemma values_of_app l l' k : values_of (l ++ l') k = values_of l k ++ values_of l' k.
Proof. unfold values_of. by rewrite List.filter_app, map_app. Qed.

(** What the fields of a list become *)
Lemma adds_lookup l h k :
  Forall (fun x => canonical_header_key (fst x) = fst x) l ->
  adds h l !! k = match values_of l k with
                  | [] => h !! k
                  | vs => Some (default [] (h !! k) ++ vs)
                  end.
Proof.
  intros Hl. unfold values_of. revert h. induction Hl as [|[n v] l Hn _ IH]; intros h; [done|]. cbn [adds fold_left fst snd] in *. fold (adds (header_add h n v) l).
  rewrite IH. unfold header_add. cbv zeta. cbn [fst] in Hn. rewrite Hn. cbn [List.filter fst snd map]. case_bool_decide as Hk; cbn [map snd].
  - subst n. rewrite lookup_insert_eq. change (default [] (Some (default [] (h !! k) ++ [v]))) with (default [] (h !! k) ++ [v]).
    destruct (map snd _) as [|w vs]; [done|]. by rewrite <- app_assoc.
  - rewrite lookup_insert_ne by done. done.
Qed.

(** The fields of a map as [write_subset] writes them *)
Definition header_pairs (h : HttpHeaders) (exclude : list str) : list (str * list byte) :=
  concat (map (fun x => if bool_decide (fst x ∈ exclude) then [] else map (fun v => (fst x, clean_value v)) (snd x)) (header_iter h)).

Lemma write_subset_lines h exclude : write_subset h exclude = lines (header_pairs h exclude).
Proof.
  unfold write_subset, lines, header_pairs. induction (header_iter h) as [|[k vs] l IH]; [done|]. cbn [map concat fst snd].
  rewrite map_app, concat_app, IH. f_equal. case_if; [done|]. by rewrite map_map.
Qed.

Lemma header_iter_perm h : header_iter h ≡ₚ map_to_list h.
Proof. apply merge_sort_Permutation. Qed.

Lemma filter_pairs (k n : str) (vs : list (list byte)) :
  map snd (List.filter (fun x => bool_decide (fst x = k)) (map (fun v => (n, clean_value v)) vs))
  = if bool_decide (n = k) then map clean_value vs else [].
Proof. induction vs as [|v vs IH]; cbn [map List.filter fst]; [by case_if|]. case_bool_decide; cbn [map snd]; by rewrite IH. Qed.

Lemma pairs_of_list (exclude : list str) (l : list (str * list (list byte))) k :
  NoDup l.*1 ->
  map snd (List.filter (fun x => bool_decide (fst x = k))
             (concat (map (fun x => if bool_decide (fst x ∈ exclude) then [] else map (fun v => (fst x, clean_value v)) (snd x)) l)))
  = if bool_decide (k ∈ exclude) then [] else map clean_value (default [] ((list_to_map l : HttpHeaders) !! k)).
Proof.
  induction l as [|[n vs] l IH]; intros Hnd; [by case_if|]. cbn [map concat fst snd]. rewrite List.filter_app, map_app.
  assert ((n ∉ l.*1) /\ NoDup l.*1) as [Hn Hl] by (by apply list.NoDup_cons in Hnd). rewrite (IH Hl), list_to_map_cons.
  destruct (decide (n = k)) as [->|Hne].
  - rewrite lookup_insert_eq. case_bool_decide; [done|]. rewrite filter_pairs, bool_decide_true by done.
    rewrite (not_elem_of_list_to_map_1 l k Hn). by rewrite app_nil_r.
  - rewrite lookup_insert_ne by done. destruct (bool_decide (n ∈ exclude)); [done|]. by rewrite filter_pairs, bool_decide_false.
Qed.

Lemma header_pairs_values (h : HttpHeaders) (exclude : list str) (k : str) :
  values_of (header_pairs h exclude) k = if bool_decide (k ∈ exclude) then [] else map clean_value (default [] (h !! k)).
Proof.
  assert (NoDup (header_iter h).*1) as Hnd by (rewrite header_iter_perm; apply NoDup_fst_map_to_list).
  unfold values_of, header_pairs. rewrite pairs_of_list by done. rewrite (list_to_map_proper (header_iter h) (map_to_list h)) by (first [done | apply header_iter_perm]).
  by rewrite list_to_map_to_list.
Qed.

Lemma header_pairs_ok keep h exclude :
  headers_ok keep h -> fields_ok keep (header_pairs h exclude).
Proof.
  intros Hh. apply list.Forall_forall. intros [k v] Hx. unfold header_pairs in Hx. apply list_elem_of_In, in_concat in Hx as (y & Hy & Hx).
  apply in_map_iff in Hy as ([n vs] & <- & Hn). cbn [fst snd] in Hx. case_if_in Hx; [done|]. apply in_map_iff in Hx as (w & [= <- <-] & Hw).
  assert (h !! n = Some vs) as E.
  { apply list_elem_of_In in Hn. rewrite header_iter_perm in Hn. by apply elem_of_map_to_list. }
  cbn [fst snd]. destruct (Hh n vs E) as (Hok & _ & Hpa). split_and!; [done | apply clean_value_ok | done].
Qed.

(** ** What is read *)

Lemma trim_front c r : is_blank c = false -> exists r', trim_blank (c :: r) = c :: r'.
Proof.
  intros Hc. destruct (trim_by_cut is_blank (c :: r)) as (a & z & E & Ha & Hz & _). change (trim_by is_blank (c :: r)) with (trim_blank (c :: r)) in E.
  destruct a as [|x a].
  - cbn [app] in E. destruct (trim_blank (c :: r)) as [|y t]; [|injection E as <- _; by exists t]. cbn [app] in E. subst z.
    apply list.Forall_cons in Hz as [Hz _]. congruence.
  - injection E as <- _. apply list.Forall_cons in Ha as [Ha _]. congruence.
Qed.

Lemma push_last_nonempty v vs : vs <> [] -> push_last v vs <> [].
Proof.
  intros Hv. unfold push_last. destruct (reverse vs) as [|w r] eqn:E; [done|]. intros H. apply (f_equal length) in H.
  rewrite length_reverse in H. done.
Qed.

Lemma continue_line_ok keep b last rest b' : headers_ok keep (block_headers b) -> continue_line b last rest = Ok b' -> headers_ok keep (block_headers b').
Proof.
  intros Hh. destruct last; cbn [continue_line]; [done| | |]; intros [= <-]; try done; cbn [block_headers].
  intros k vs. destruct (decide (k = name)) as [->|Hne].
  - rewrite lookup_alter_eq. destruct (block_headers b !! name) as [ws|] eqn:E; [|done]. intros [= <-].
    destruct (Hh name ws E) as (? & ? & ?). split_and!; [done | by apply push_last_nonempty | done].
  - rewrite lookup_alter_ne by done. apply Hh.
Qed.

Lemma field_turn_ok keep b c r b' last :
  is_blank c = false -> headers_ok keep (block_headers b) -> field_turn keep b (c :: r) = Ok (b', last) ->
  headers_ok keep (block_headers b').
Proof.
  intros Hc Hh. unfold field_turn. destruct (trim_front c r Hc) as [r' ->]. cbv zeta.
  destruct (split_first colon (c :: r')) as [[name value]|] eqn:Es; [|done]. cbn [ok_or res_bind].
  case_if; [done|]. apply orb_false_iff in Heqb0 as [Hne Hb]. apply negb_false_iff in Hb. apply bool_decide_eq_false in Hne.
  destruct (from_utf8 name) as [n|] eqn:Eu; [|done]. cbn [ok_or res_bind].
  assert (n = name) as -> by (unfold from_utf8 in Eu; destruct (utf8_chars name); congruence).
  apply split_first_inv in Es as [Es _]. assert (name_ok (canonical_header_key name)) as Hok.
  { apply canonical_name_ok; [exact Hb|]. destruct name as [|x name]; [done|]. injection Es as <- _. exists c, name. split; [done|].
    intros ->. done. }
  destruct (keep && bool_decide (canonical_header_key name = str_of "Proxy-Authorization")) eqn:Ek.
  - destruct (block_authorization b); by intros [= <- <-].
  - intros [= <- <-]. unfold header_add. rewrite canonical_idem. cbv zeta. cbn [block_headers].
    apply headers_ok_insert; [done | done | by destruct (default [] _)|]. intros ->. by apply bool_decide_eq_false in Ek.
Qed.

Lemma header_loop_ok keep limit fuel b last r b' r' :
  headers_ok keep (block_headers b) -> header_loop fuel limit keep b last r = Ok (b', r') -> headers_ok keep (block_headers b').
Proof.
  revert b last r. induction fuel as [|fuel IH]; intros b last r Hb; [done|]. cbn [header_loop].
  destruct (read_line limit r) as [[[|c line] r1]| |]; [|..|done|done]; cbn [res_bind].
  - by intros [= <- <-].
  - destruct (bool_decide (c = sp) || bool_decide (c = tab)) eqn:Ec.
    + destruct (continue_line b last (trim_blank (c :: line))) as [b1| |] eqn:E; [|done..]. cbn [res_bind]. apply IH. by eapply continue_line_ok.
    + destruct (field_turn keep b (c :: line)) as [[b1 last1]| |] eqn:E; [|done..]. cbn [res_bind]. apply IH. by eapply field_turn_ok.
Qed.

Lemma fix_pragma_ok keep h : headers_ok keep h -> headers_ok keep (fix_pragma_cache_control h).
Proof. intros Hh. unfold fix_pragma_cache_control. case_if; [|done]. apply headers_ok_insert; [done | by apply own_name | done..]. Qed.

Lemma transfer_ok keep h v h' c : headers_ok keep h -> transfer_is_chunked h v = Ok (h', c) -> headers_ok keep h'.
Proof.
  intros Hh. unfold transfer_is_chunked. cbv zeta. case_if; [by intros [= <- <-]|].
  assert (headers_ok keep (header_remove h (str_of "Transfer-Encoding"))) by (by apply headers_ok_delete).
  case_if; [by intros [= <- <-]|]. destruct (header_values h (str_of "Transfer-Encoding")) as [|v0 [|]]; try done.
  case_if; [|done]. by intros [= <- <-].
Qed.

Lemma parse_length_range v n : parse_content_length v = Ok n -> 0 <= n <= i64_max.
Proof.
  unfold parse_content_length. case_if; [done|]. apply orb_false_iff in Heqb as [_ Hd]. apply negb_false_iff in Hd.
  destruct (from_utf8 v) as [t|] eqn:Eu; [|done]. assert (t = v) as -> by (unfold from_utf8 in Eu; destruct (utf8_chars v); congruence).
  cbn [mbind option_bind]. unfold parse_u64. case_if; [done|]. destruct (number 10 0 v) as [m|] eqn:En; [|done]. cbn [mbind option_bind].
  case_if; [|done]. cbn [mbind option_bind]. case_if; [|done]. unbool. intros [= <-]. split; [|done].
  by eapply number_nonneg; [| |exact En].
Qed.

Lemma agreed_ok keep h h' v : headers_ok keep h -> agreed_content_length h = Ok (h', v) -> headers_ok keep h'.
Proof.
  intros Hh. unfold agreed_content_length. cbv zeta. destruct (header_values h (str_of "Content-Length")) as [|f vs]; [by intros [= <- <-]|].
  case_if; [done|]. intros [= <- <-]. case_if; [|done]. apply headers_ok_insert; [done | by apply own_name | done..].
Qed.

Lemma fix_length_ok keep h response status method chunked h' n :
  headers_ok keep h -> fix_length h response status method chunked = Ok (h', n) ->
  headers_ok keep h' /\ -1 <= n <= i64_max /\ (n = -1 -> response = true \/ chunked = true).
Proof.
  intros Hh. unfold fix_length. destruct (agreed_content_length h) as [[h1 agreed]| |] eqn:Ea; [|done..]. cbn [res_bind].
  apply (agreed_ok keep) in Ea; [|done]. set (declared := match agreed with Some v => _ | None => _ end).
  destruct declared as [d| |] eqn:Ed; [|done..]. subst declared. cbn [res_bind].
  assert (headers_ok keep (header_remove h1 (str_of "Content-Length"))) by (by apply headers_ok_delete).
  case_if; [intros [= <- <-]; split_and!; done|]. destruct chunked; [intros [= <- <-]; split_and!; [done | done | done | by right]|].
  destruct d as [d|].
  - case_if; [|done]. unbool. intros [= <- <-]. destruct agreed as [v|]; [|done]. destruct (parse_content_length v) as [m| |] eqn:Em; [|done..].
    cbn [res_bind] in Ed. injection Ed as ->. apply parse_length_range in Em. split_and!; [done | lia | lia | lia].
  - intros [= <- <-]. destruct response; split_and!; try done. by left.
Qed.

(** ** Lengths and values *)

Lemma tight_value v : forallb (fun b => negb (is_blank b || bool_decide (b = lf) || bool_decide (b = cr))) v = true -> value_ok v.
Proof.
  rewrite forallb_forall. intros Hv. assert (forall b, b ∈ v -> is_blank b = false /\ b <> lf /\ b <> cr) as Hb.
  { intros b Hb%list_elem_of_In%Hv. unbool. done. }
  split; [split|split].
  - destruct v as [|b v]; [done|]. apply Hb. constructor.
  - destruct (reverse v) as [|b w] eqn:E; [done|]. apply Hb. rewrite <- elem_of_reverse, E. constructor.
  - apply list.Forall_forall. intros b Hin. by apply Hb.
  - apply list.Forall_forall. intros b Hin. by apply Hb.
Qed.

Lemma shown_parses n :
  0 <= n <= i64_max -> parse_content_length (show_dec n) = Ok n /\ forallb is_digit_byte (show_dec n) = true /\ show_dec n <> [].
Proof.
  intros Hn. destruct (show_parse 10 n) as (Hp & Hd & Hne & _); [by left | unfold i64_max in Hn; unfold u64_max; lia|]. fold (show_dec n) in *.
  assert (forallb is_digit_byte (show_dec n) = true) as Hf.
  { apply forallb_forall. intros b Hb%list_elem_of_In. rewrite list.Forall_forall in Hd. by apply decimal_bytes, Hd. }
  split_and!; [|done..]. unfold parse_content_length. rewrite bool_decide_false, Hf by done. cbn [orb negb]. unfold from_utf8. rewrite utf8_ascii.
  - cbn [mbind option_bind]. rewrite Hp. cbn [mbind option_bind]. by guard_true by lia.
  - eapply list.Forall_impl; [exact Hd|]. intros b Hb. by apply decimal_hex, number_bytes in Hb as [? _].
Qed.

Lemma digits_value v : forallb is_digit_byte v = true -> value_ok v /\ trim_ascii_space v = v.
Proof.
  rewrite forallb_forall. intros Hv. assert (forall b, b ∈ v -> b <> sp /\ b <> tab /\ b <> lf /\ b <> cr) as Hb.
  { intros b Hb%list_elem_of_In%Hv. clear -Hb. by destruct b. }
  split.
  - apply tight_value, forallb_forall. intros b (? & ? & ? & ?)%list_elem_of_In%Hb. unfold is_blank. by rewrite !bool_decide_false.
  - apply trim_by_id. split.
    + destruct v as [|b v]; [done|]. destruct (Hb b) as (? & ? & ? & ?); [constructor|]. by rewrite !bool_decide_false.
    + destruct (reverse v) as [|b w] eqn:E; [done|]. destruct (Hb b) as (? & ? & ? & ?); [rewrite <- elem_of_reverse, E; constructor|].
      by rewrite !bool_decide_false.
Qed.

Lemma shown_value n : 0 <= n <= i64_max -> value_ok (show_dec n).
Proof. intros (_ & Hd & _)%shown_parses. by apply digits_value. Qed.

(** ** Framing headers that are read *)

Lemma fix_pragma_insert h k v :
  k <> str_of "Pragma" -> k <> str_of "Cache-Control" ->
  fix_pragma_cache_control (<[k := v]> h) = <[k := v]> (fix_pragma_cache_control h).
Proof.
  intros H1 H2. unfold fix_pragma_cache_control, header_get, header_values, header_contains, header_set.
  change (canonical_header_key (str_of "Pragma")) with (str_of "Pragma"). change (canonical_header_key (str_of "Cache-Control")) with (str_of "Cache-Control").
  rewrite !lookup_insert_ne by done. case_if; [|done]. by rewrite insert_insert_ne.
Qed.

Lemma fix_pragma_lookup h k : k <> str_of "Cache-Control" -> fix_pragma_cache_control h !! k = h !! k.
Proof. intros Hk. unfold fix_pragma_cache_control. case_if; [|done]. apply lookup_insert_ne. by intros <-. Qed.

(** A request whose length is written, or that has neither a length nor an encoding *)
Lemma fix_length_read h method n :
  0 <= n <= i64_max -> h !! str_of "Content-Length" = Some [show_dec n] -> fix_length h false 200 method false = Ok (h, n).
Proof.
  intros Hn E. destruct (shown_parses n Hn) as (Hp & Hd & _). destruct (digits_value _ Hd) as [_ Ht].
  unfold fix_length, agreed_content_length, header_values. change (canonical_header_key (str_of "Content-Length")) with (str_of "Content-Length").
  rewrite E. change (default [] (Some [show_dec n])) with [show_dec n]. cbv zeta. cbn [existsb length]. rewrite Ht, bool_decide_true by done. cbn [negb orb].
  cbn [res_bind]. rewrite Hp. cbn [res_bind andb orb]. change (body_allowed 200) with true. cbn [negb]. by guard_true by lia.
Qed.

Lemma fix_length_absent h method chunked :
  h !! str_of "Content-Length" = None -> fix_length h false 200 method chunked = Ok (h, if chunked : bool then -1 else 0).
Proof.
  intros E. unfold fix_length, agreed_content_length, header_values. change (canonical_header_key (str_of "Content-Length")) with (str_of "Content-Length").
  rewrite E. cbn [default res_bind andb orb]. change (body_allowed 200) with true. cbn [negb]. unfold header_remove.
  change (canonical_header_key (str_of "Content-Length")) with (str_of "Content-Length"). rewrite delete_id by done. by destruct chunked.
Qed.

(** ** Headers that are removed *)

Lemma remove_all_lookup (h : HttpHeaders) names k :
  remove_all h names !! k = if bool_decide (k ∈ map canonical_header_key names) then None else h !! k.
Proof.
  revert h. induction names as [|n names IH]; intros h; [done|]. cbn [remove_all fold_left map].
  change (fold_left header_remove names (header_remove h n)) with (remove_all (header_remove h n) names). rewrite IH.
  unfold header_remove. destruct (decide (k = canonical_header_key n)) as [->|Hne].
  - rewrite lookup_delete_eq, (bool_decide_true (_ ∈ canonical_header_key n :: _)) by constructor. by case_if.
  - rewrite lookup_delete_ne by done.
    by rewrite (bool_decide_ext (k ∈ canonical_header_key n :: map canonical_header_key names) (k ∈ map canonical_header_key names)) by (rewrite elem_of_cons; naive_solver).
Qed.
