(* ===== verification/HttpRequest.v ===== *)
(** The request that the HTTP inbound forwards: what it holds, the head that is sent for it, and how a
    server reads that head. *)
From Stdlib Require Import Strings.Byte Strings.String.
From stdpp Require Import gmap sorting.
From S2P Require Import Prelude Net IpText Utf8 HttpMessage HttpText HttpFields.

(** ** What a request holds *)

Definition plain_byte (b : byte) : bool := (0x20 <? u8 b) && negb (u8 b =? 0x7f).
Definition text_ok (s : str) : Prop := Forall (fun b => plain_byte b = true) s /\ is_Some (utf8_chars s).

(** What a request head holds *)
Record head_ok (head : HttpRequestHead) : Prop := {
  hd_method : rq_method head <> [] /\ forallb is_token_byte (rq_method head) = true;
  hd_target : text_ok (rq_target head);
  hd_headers : headers_ok true (rq_headers head);
  hd_body : match rq_body head with BodyLength n => 0 < n <= i64_max | BodyUntilClose => False | _ => True end
}.

Lemma from_utf8_inv l s : from_utf8 l = Some s -> s = l /\ is_Some (utf8_chars l).
Proof. unfold from_utf8. destruct (utf8_chars l); intros [= <-]. done. Qed.

Lemma target_text method target version :
  is_Some (utf8_chars (method ++ sp :: target ++ sp :: version)) -> without sp target ->
  existsb (fun b => (u8 b <? 0x20) || (u8 b =? 0x7f)) target = false -> text_ok target.
Proof.
  intros [cs Hu] Hw He. apply utf8_split in Hu as (_ & ts & _ & Hu & _); [|done]. apply utf8_split in Hu as (us & _ & Hu & _ & _); [|done].
  split; [|by rewrite Hu]. apply list.Forall_forall. intros b Hb. unfold without in Hw. rewrite list.Forall_forall in Hw. specialize (Hw b Hb).
  destruct (plain_byte b) eqn:Ep; [done|]. exfalso. enough (existsb (fun b => (u8 b <? 0x20) || (u8 b =? 0x7f)) target = true) by congruence.
  apply existsb_exists. exists b. split; [by apply list_elem_of_In|]. clear -Ep Hw. by destruct b.
Qed.

Lemma read_request_head_ok limit r head rest : read_request_head limit r = Ok (head, rest) -> head_ok head.
Proof.
  unfold read_request_head. destruct (read_line limit r) as [[line r1]| |]; [|done..]. cbn [res_bind].
  destruct (from_utf8 line) as [s|] eqn:Eu; [|done]. apply from_utf8_inv in Eu as [-> Hu]. cbn [ok_or res_bind].
  destruct (split_first sp line) as [[method tv]|] eqn:Em; [|done]. cbn [ok_or res_bind].
  destruct (split_first sp tv) as [[target v]|] eqn:Et; [|done]. cbn [ok_or res_bind].
  apply split_first_inv in Em as [-> _]. apply split_first_inv in Et as [-> Hw].
  destruct (http_version v) as [version|]; [|done]. cbn [ok_or res_bind]. case_if; [done|].
  apply orb_false_iff in Heqb as [[Hne Htok%negb_false_iff]%orb_false_iff Hc]. apply bool_decide_eq_false in Hne.
  unfold read_header_block. destruct (header_loop _ _ _ _ _ r1) as [[block r2]| |] eqn:Eb; [|done..]. cbn [res_bind]. cbv zeta.
  apply header_loop_ok in Eb; [|by intros k vs Hk]. case_if; [done|].
  destruct (transfer_is_chunked _ version) as [[h1 chunked]| |] eqn:E1; [|done..]. cbn [malformed res_map_err res_bind].
  apply (transfer_ok true) in E1; [|by apply fix_pragma_ok].
  destruct (fix_length h1 false 200 method chunked) as [[h2 n]| |] eqn:E2; [|done..]. cbn [malformed res_map_err res_bind].
  apply (fix_length_ok true) in E2 as (Hh & Hn & Hneg); [|done]. intros [= <- <-].
  split; cbn [rq_method rq_target rq_headers rq_body]; [done | by eapply target_text | by apply headers_ok_delete|].
  destruct chunked; [done|]. destruct (Z.eqb_spec n 0); [done|]. assert (n <> -1) by (intros E; destruct (Hneg E); done). lia.
Qed.

(** ** Targets *)

Lemma scheme_loop_rest target seen r scheme rest :
  target = seen ++ r -> scheme_loop target seen r = Ok (scheme, rest) -> exists p, target = p ++ rest.
Proof.
  revert seen. induction r as [|b r IH]; intros seen Ht; cbn [scheme_loop].
  - intros [= _ <-]. by exists [].
  - assert (target = (seen ++ [b]) ++ r) by (by rewrite <- app_assoc). case_if; [by apply IH|]. case_if; [by apply IH|].
    case_if; [case_if; [done|]|]; intros [= <- <-]; [by exists (seen ++ [b]) | by exists []].
Qed.

Lemma removelast_last (s : str) c : list.last s = Some c -> s = removelast s ++ [c].
Proof. intros Hl. apply last_Some in Hl as [l ->]. by rewrite removelast_last. Qed.

Lemma split_query_rest rest path q : split_query rest = (path, Some q) -> rest = path ++ question :: q.
Proof.
  unfold split_query. case_if; [|destruct (split_first question rest) as [[x y]|] eqn:E; [|done]].
  - unbool. intros [= <- <-]. by apply removelast_last.
  - intros [= <- <-]. by apply split_first_inv in E as [? _].
Qed.

Lemma escape_path_plain path : Forall (fun b => plain_byte b = true /\ u8 b < 0x80) (escape_path path).
Proof.
  induction path as [|b path IH]; [constructor|]. unfold escape_path. cbn [map concat]. apply list.Forall_app. split; [|exact IH].
  clear. destruct b; vm_compute; by repeat constructor.
Qed.

Lemma escaped_path_plain raw decoded : Forall (fun b => plain_byte b = true /\ u8 b < 0x80) (escaped_path raw decoded).
Proof.
  unfold escaped_path. cbv zeta. case_if; [apply escape_path_plain|]. apply orb_false_iff in Heqb as [_ Hv%negb_false_iff].
  apply list.Forall_forall. intros b Hb%list_elem_of_In. rewrite forallb_forall in Hv. apply Hv in Hb. clear -Hb. by destruct b.
Qed.

Lemma request_uri_ok target url : text_ok target -> RequestUrl_parse target = Ok url -> text_ok (url_request_uri url).
Proof.
  intros [Ht Hu]. unfold RequestUrl_parse, url_scheme. repeat (case_if; [done|]).
  destruct (scheme_loop target [] target) as [[scheme rest]| |] eqn:Es; [|done..]. cbn [res_bind].
  apply scheme_loop_rest in Es as [p Ep]; [|done]. destruct (split_query rest) as [path query] eqn:Eq. case_if; [case_if; done|].
  destruct (split_authority scheme path) as [host path']. destruct (percent_decode path') as [decoded|]; [|done]. cbn [ok_or res_bind]. cbv zeta.
  intros [= <-]. cbn [url_request_uri]. set (uri := if bool_decide (escaped_path path' decoded = []) then _ else _).
  assert (Forall (fun b => plain_byte b = true /\ u8 b < 0x80) uri) as Huri
    by (unfold uri; case_if; [by repeat constructor | apply escaped_path_plain]).
  assert (Forall (fun b => plain_byte b = true) uri) as Hplain by (eapply list.Forall_impl; [exact Huri | by intros ? []]).
  assert (utf8_chars uri = Some (map u8 uri)) as Hch by (apply utf8_ascii; eapply list.Forall_impl; [exact Huri | by intros ? []]).
  destruct query as [q|]; [|by split; [|rewrite Hch]]. apply split_query_rest in Eq. rewrite Ep, Eq in Hu, Ht. rewrite app_assoc in Hu, Ht.
  apply list.Forall_app in Ht as [_ Ht]. apply list.Forall_cons in Ht as [_ Ht]. destruct Hu as [cs Hu].
  apply utf8_split in Hu as (_ & ts & _ & Hu & _); [|done]. split.
  - apply list.Forall_app. split; [done|]. by constructor.
  - rewrite (utf8_app uri _ _ Hch). change (question :: q) with ([question] ++ q). rewrite (utf8_app [question] [u8 question]) by done. by rewrite Hu.
Qed.

(** What a request to forward holds *)
Record plain_ok (r : PlainHttpRequest) : Prop := {
  pl_method_ok : pl_method r <> [] /\ forallb is_token_byte (pl_method r) = true;
  pl_uri_ok : text_ok (pl_request_uri r);
  pl_headers_ok : headers_ok true (pl_headers r);
  pl_body_ok : match pl_body r with BodyLength n => 0 < n <= i64_max | BodyUntilClose => False | _ => True end
}.

Lemma plain_new_ok head req :
  head_ok head -> PlainHttpRequest_new head = Ok req ->
  plain_ok req /\ pl_method req = rq_method head /\ pl_body req = rq_body head.
Proof.
  intros [Hm Ht Hh Hb]. unfold PlainHttpRequest_new. destruct (RequestUrl_parse (rq_target head)) as [url| |] eqn:Eu; [|done..]. cbn [res_bind]. cbv zeta.
  destruct (url_host url) as [host|]; [|done]. cbn [ok_or res_bind]. destruct (parse_authority_target host _) as [d| |]; [|done..].
  cbn [res_map_err res_bind]. intros <-%Ok_inj. split; [|done]. split; cbn [pl_method pl_request_uri pl_headers pl_body]; [done | by eapply request_uri_ok| |done].
  assert (headers_ok true (remove_hop_by_hop_headers (rq_headers head))) as Hr
    by (unfold remove_hop_by_hop_headers; by apply headers_ok_remove_all, headers_ok_delete, headers_ok_remove_all).
  case_if; [|done]. apply headers_ok_insert; [done | by apply own_name | done..].
Qed.

Lemma body_length_range r : plain_ok r -> 0 <= match pl_body r with BodyLength n => n | _ => 0 end <= i64_max.
Proof. intros [_ _ _ Hb]. destruct (pl_body r); [done | lia | done..]. Qed.

(** ** The head that is sent *)

(** A lookup or a comparison of names that are written out *)
Ltac lookup_step :=
  first [rewrite lookup_insert_eq | rewrite lookup_insert_ne by done | rewrite bool_decide_true by done | rewrite bool_decide_false by done].

Section Request.
Context `{Idna}.

Definition agent_value (h : HttpHeaders) : list byte := clean_value (default [] (header_get h (str_of "User-Agent"))).
Definition agent_fields (h : HttpHeaders) : list (str * list byte) :=
  if bool_decide (agent_value h = []) then [] else [(str_of "User-Agent", agent_value h)].
Definition length_value (r : PlainHttpRequest) : str := show_dec (match pl_body r with BodyLength n => n | _ => 0 end).
Definition framing_fields (r : PlainHttpRequest) : list (str * list byte) :=
  if sends_length r then [(str_of "Content-Length", length_value r)]
  else if bool_decide (pl_body r = BodyChunked) then [(str_of "Transfer-Encoding", str_of "chunked")] else [].
Definition sent_fields (r : PlainHttpRequest) : list (str * list byte) :=
  [(str_of "Host", host_header (pl_host r))] ++ agent_fields (pl_headers r) ++ framing_fields r
  ++ header_pairs (header_set (pl_headers r) (str_of "Connection") (str_of "close")) request_excluded.

Lemma lines_app l l' : lines (l ++ l') = lines l ++ lines l'.
Proof. unfold lines. by rewrite map_app, concat_app. Qed.

Lemma agent_line_fields h : agent_line h = lines (agent_fields h).
Proof.
  unfold agent_line, agent_fields, agent_value. destruct (header_get h (str_of "User-Agent")) as [v|]; [|done]. cbv zeta.
  change (default [] (Some v)) with v. case_if; [done|]. unfold lines. cbn [map concat fst snd]. by rewrite app_nil_r.
Qed.

Lemma framing_line_fields r : framing_line r = lines (framing_fields r).
Proof. unfold framing_line, framing_fields, lines, length_value. case_if; [|case_if; [|done]]; cbn [map concat fst snd]; by rewrite app_nil_r. Qed.

Lemma forwarded_lines r :
  forwarded_head r
  = (pl_method r ++ sp :: pl_request_uri r ++ sp :: str_of "HTTP/1.1") ++ crlf_bytes ++ lines (sent_fields r) ++ crlf_bytes.
Proof.
  unfold forwarded_head, sent_fields. rewrite !lines_app, <- agent_line_fields, <- framing_line_fields, <- write_subset_lines.
  unfold lines. cbn [map concat fst snd]. rewrite app_nil_r, <- !app_assoc. cbn [app]. by rewrite <- !app_assoc.
Qed.

(** The headers that a server reads *)
Definition sent_headers (r : PlainHttpRequest) : HttpHeaders :=
  let h := map clean_value <$> remove_all (header_set (pl_headers r) (str_of "Connection") (str_of "close")) request_excluded in
  let h := if bool_decide (agent_value (pl_headers r) = []) then h else <[str_of "User-Agent" := [agent_value (pl_headers r)]]> h in
  if sends_length r then <[str_of "Content-Length" := [length_value r]]> h else h.

Definition kept_headers (r : PlainHttpRequest) : HttpHeaders :=
  map clean_value <$> remove_all (header_set (pl_headers r) (str_of "Connection") (str_of "close")) request_excluded.

Lemma kept_lookup r k :
  kept_headers r !! k
  = if bool_decide (k ∈ request_excluded) then None
    else map clean_value <$> header_set (pl_headers r) (str_of "Connection") (str_of "close") !! k.
Proof. unfold kept_headers. rewrite lookup_fmap, remove_all_lookup. change (map canonical_header_key request_excluded) with request_excluded. by case_if. Qed.

Lemma values_of_one n v k : values_of [(n, v)] k = if bool_decide (n = k) then [v] else [].
Proof. unfold values_of. cbn [List.filter fst map]. by case_if. Qed.

Lemma chunked_no_length r : pl_body r = BodyChunked -> sends_length r = false.
Proof. unfold sends_length. by intros ->. Qed.

(** The values that were sent under a name *)
Lemma sent_values r k :
  headers_ok true (pl_headers r) ->
  match values_of (sent_fields r) k with [] => None | vs => Some vs end
  = (<[str_of "Host" := [host_header (pl_host r)]]>
      (if bool_decide (pl_body r = BodyChunked) then <[str_of "Transfer-Encoding" := [str_of "chunked"]]> (sent_headers r) else sent_headers r)) !! k.
Proof.
  intros Hh. unfold sent_fields, sent_headers. fold (kept_headers r). cbv zeta. rewrite !values_of_app, header_pairs_values, values_of_one.
  unfold agent_fields, framing_fields. destruct (bool_decide (k ∈ request_excluded)) eqn:Ek.
  - apply bool_decide_eq_true in Ek. assert (kept_headers r !! k = None) as Ekept by (by rewrite kept_lookup, bool_decide_true).
    unfold request_excluded in Ek. repeat (apply elem_of_cons in Ek as [->|Ek]); [..|by apply not_elem_of_nil in Ek].
    all: destruct (bool_decide (pl_body r = BodyChunked)) eqn:Ec; [apply bool_decide_eq_true, chunked_no_length in Ec; rewrite Ec|].
    all: try destruct (sends_length r); destruct (bool_decide (agent_value (pl_headers r) = [])); rewrite ?values_of_one; repeat lookup_step; done.
  - assert (kept_headers r !! k = map clean_value <$> header_set (pl_headers r) (str_of "Connection") (str_of "close") !! k) as Ekept
      by (by rewrite kept_lookup, Ek).
    apply bool_decide_eq_false in Ek. unfold request_excluded in Ek. rewrite !not_elem_of_cons in Ek. destruct Ek as (H1 & H2 & H3 & H4 & _).
    set (hc := header_set (pl_headers r) (str_of "Connection") (str_of "close")) in *.
    assert (match map clean_value (default [] (hc !! k)) with [] => None | vs => Some vs end = kept_headers r !! k) as Hk.
    { rewrite Ekept. destruct (hc !! k) as [[|v vs]|] eqn:E; [|done..]. exfalso.
      assert (headers_ok true hc) as Hc by (apply headers_ok_insert; [done | by apply own_name | done..]). by destruct (Hc k [] E) as (_ & ? & _). }
    rewrite (bool_decide_false (str_of "Host" = k)) by done.
    destruct (bool_decide (pl_body r = BodyChunked)), (sends_length r), (bool_decide (agent_value (pl_headers r) = [])); rewrite ?values_of_one;
      repeat lookup_step; exact Hk.
Qed.

Lemma host_header_ok host : value_ok (host_header host).
Proof. unfold host_header. cbv zeta. case_if; [|by apply tight_value]. apply tight_value. rewrite forallb_forall in *. intros b Hb%Heqb. clear -Hb. by destruct b. Qed.

Lemma sent_fields_ok r : plain_ok r -> fields_ok true (sent_fields r).
Proof.
  intros Hr. pose proof (pl_headers_ok r Hr) as Hh. unfold sent_fields, fields_ok. rewrite !list.Forall_app. split_and!.
  - apply list.Forall_singleton. split_and!; [by apply own_name | apply host_header_ok | done].
  - unfold agent_fields. case_if; [constructor|]. apply list.Forall_singleton. split_and!; [by apply own_name | apply clean_value_ok | done].
  - unfold framing_fields. case_if; [|case_if; [|constructor]]; apply list.Forall_singleton; split_and!; try (by apply own_name); try done; cbn [snd].
    + by apply shown_value, body_length_range.
    + by apply tight_value.
  - apply header_pairs_ok, headers_ok_insert; [done | by apply own_name | done..].
Qed.

Lemma sent_read r : plain_ok r ->
  adds ∅ (sent_fields r)
  = <[str_of "Host" := [host_header (pl_host r)]]>
      (if bool_decide (pl_body r = BodyChunked) then <[str_of "Transfer-Encoding" := [str_of "chunked"]]> (sent_headers r) else sent_headers r).
Proof.
  intros Hr. apply map_eq. intros k. rewrite adds_lookup, lookup_empty.
  - rewrite <- sent_values by (by apply pl_headers_ok). by destruct (values_of (sent_fields r) k).
  - eapply list.Forall_impl; [by apply sent_fields_ok|]. intros x (Hk & _). by apply nm_canonical.
Qed.
End Request.

(** ** The head that is read *)

Lemma token_text s : forallb is_token_byte s = true -> without sp s /\ without lf s /\ utf8_chars s = Some (map u8 s).
Proof.
  rewrite forallb_forall. intros Hs. assert (forall b, b ∈ s -> 0x20 < u8 b < 0x7f /\ b <> sp /\ b <> tab /\ b <> cr /\ b <> lf /\ b <> colon) as Hb
    by (intros b Hb; by apply token_plain, Hs, list_elem_of_In).
  split_and!; [| |apply utf8_ascii]; apply list.Forall_forall; intros b (? & ? & ? & ? & ? & ?)%Hb; done || lia.
Qed.

Lemma plain_without s c : Forall (fun b => plain_byte b = true) s -> plain_byte c = false -> without c s.
Proof. intros Hs Hc. eapply list.Forall_impl; [exact Hs|]. intros b Hb ->. congruence. Qed.

Section Read.
Context `{Idna}.

(** The headers that a server keeps of what is sent *)
Lemma sent_lookup_framing r :
  sent_headers r !! str_of "Host" = None /\ sent_headers r !! str_of "Transfer-Encoding" = None
  /\ sent_headers r !! str_of "Content-Length" = if sends_length r then Some [length_value r] else None.
Proof.
  assert (forall k, k ∈ request_excluded -> kept_headers r !! k = None) as Hk by (intros k Hk; by rewrite kept_lookup, bool_decide_true).
  unfold sent_headers. fold (kept_headers r). cbv zeta.
  destruct (sends_length r), (bool_decide _); split_and!; repeat lookup_step; try done; by apply Hk; by_decision.
Qed.

(** What a server makes of the fields *)
Lemma sent_framing r version :
  plain_ok r -> version_lt version (1, 1) = false ->
  exists h chunked n,
    transfer_is_chunked (fix_pragma_cache_control (adds ∅ (sent_fields r))) version = Ok (h, chunked)
    /\ fix_length h false 200 (pl_method r) chunked = Ok (h, n)
    /\ header_remove h (str_of "Host") = fix_pragma_cache_control (sent_headers r)
    /\ (if chunked : bool then BodyChunked else if n =? 0 then BodyNone else BodyLength (Z.abs n)) = pl_body r.
Proof.
  intros Hr Hv. rewrite sent_read by done. destruct (sent_lookup_framing r) as (H1 & H2 & H3). set (X := fix_pragma_cache_control (sent_headers r)).
  assert (forall k, k <> str_of "Cache-Control" -> X !! k = sent_headers r !! k) as HX by (intros; by apply fix_pragma_lookup).
  set (hosted := <[str_of "Host" := [host_header (pl_host r)]]> X).
  assert (header_remove hosted (str_of "Host") = X) as Hh by (apply delete_insert_id; by rewrite HX).
  assert (hosted !! str_of "Content-Length" = if sends_length r then Some [length_value r] else None) as Hc
    by (unfold hosted; rewrite lookup_insert_ne by done; by rewrite HX).
  pose proof (body_length_range r Hr) as Hl. exists hosted, (bool_decide (pl_body r = BodyChunked)).
  destruct (bool_decide (pl_body r = BodyChunked)) eqn:Eb.
  - apply bool_decide_eq_true in Eb. rewrite chunked_no_length in Hc by done. exists (-1).
    split_and!; [|by apply fix_length_absent | done | done]. rewrite !fix_pragma_insert by done. fold X.
    unfold transfer_is_chunked, header_values. change (canonical_header_key (str_of "Transfer-Encoding")) with (str_of "Transfer-Encoding").
    rewrite lookup_insert_ne, lookup_insert_eq by done. cbv zeta. change (default [] (Some ?x)) with x. rewrite bool_decide_false by done. rewrite Hv.
    change (eq_ignore_ascii_case (str_of "chunked") (str_of "chunked")) with true. do 2 f_equal. unfold header_remove, hosted.
    change (canonical_header_key (str_of "Transfer-Encoding")) with (str_of "Transfer-Encoding").
    rewrite delete_insert_ne by done. by rewrite delete_insert_id by (by rewrite HX).
  - apply bool_decide_eq_false in Eb. exists (match pl_body r with BodyLength n => n | _ => 0 end). rewrite fix_pragma_insert by done. fold X. fold hosted.
    split_and!; [|destruct (sends_length r) eqn:Es; [by apply fix_length_read|]|done|].
    + unfold transfer_is_chunked, header_values. change (canonical_header_key (str_of "Transfer-Encoding")) with (str_of "Transfer-Encoding").
      unfold hosted. rewrite lookup_insert_ne, HX, H2 by done. done.
    + rewrite fix_length_absent by done. do 2 f_equal. pose proof (pl_body_ok r Hr) as Hb. unfold sends_length in Es. destruct (pl_body r) as [|n| |]; try done.
      apply orb_false_iff in Es as [Es _]. unbool. lia.
    + pose proof (pl_body_ok r Hr) as Hb. destruct (pl_body r); try done. guard_false by lia. f_equal. lia.
Qed.

Lemma request_line_read r :
  plain_ok r ->
  let line := pl_method r ++ sp :: pl_request_uri r ++ sp :: str_of "HTTP/1.1" in
  without lf line /\ from_utf8 line = Some line
  /\ split_first sp line = Some (pl_method r, pl_request_uri r ++ sp :: str_of "HTTP/1.1")
  /\ split_first sp (pl_request_uri r ++ sp :: str_of "HTTP/1.1") = Some (pl_request_uri r, str_of "HTTP/1.1")
  /\ existsb (fun b => (u8 b <? 0x20) || (u8 b =? 0x7f)) (pl_request_uri r) = false.
Proof.
  intros [[_ Hm] [Hp [cs Hu]] _ _]. cbv zeta. destruct (token_text _ Hm) as (Hms & Hml & Hmu).
  assert (without sp (pl_request_uri r) /\ without lf (pl_request_uri r)) as [Hus Hul] by (by split; apply plain_without). split_and!.
  - apply list.Forall_app. split; [done|]. constructor; [done|]. apply list.Forall_app. split; [done|]. by_decision.
  - unfold from_utf8. rewrite (utf8_app _ _ _ Hmu). change (sp :: ?l) with ([sp] ++ l) at 1. rewrite (utf8_app [sp] [u8 sp]) by done.
    rewrite (utf8_app _ _ _ Hu). by vm_compute (utf8_chars (sp :: _)).
  - by apply split_first_at.
  - by apply split_first_at.
  - apply not_true_iff_false. intros (b & Hb & Hc)%existsb_exists. apply list_elem_of_In in Hb. rewrite list.Forall_forall in Hp. apply Hp in Hb.
    clear -Hb Hc. by destruct b.
Qed.

(** The head that is sent is read as the request. *)
Lemma forwarded_read limit r rest :
  plain_ok r -> len (forwarded_head r) < limit ->
  read_request_head limit (forwarded_head r ++ rest)
  = Ok (mkRequestHead (pl_method r) (pl_request_uri r) (1, 1) (fix_pragma_cache_control (sent_headers r)) None (pl_body r), rest).
Proof.
  intros Hr. rewrite forwarded_lines. set (line := pl_method r ++ _). intros Hlim. destruct (request_line_read r Hr) as (Hl & Hu & H1 & H2 & Hc).
  fold line in Hl, Hu, H1. rewrite !len_app in Hlim. change (len crlf_bytes) with 2 in Hlim. pose proof (len_nonneg line). pose proof (len_nonneg (lines (sent_fields r))).
  rewrite <- !app_assoc. unfold read_request_head. rewrite read_line_crlf by (done || lia). cbn [res_bind]. rewrite Hu. cbn [ok_or res_bind].
  rewrite H1. cbn [ok_or res_bind]. rewrite H2. cbn [ok_or res_bind]. change (http_version (str_of "HTTP/1.1")) with (Some (1, 1)). cbn [ok_or res_bind].
  destruct (pl_method_ok r Hr) as [Hne Ht]. rewrite bool_decide_false, Ht, Hc by done. cbn [orb negb].
  rewrite read_block_written by (first [by apply sent_fields_ok | lia]). cbn [res_bind block_headers block_authorization]. cbv zeta.
  destruct (sent_framing r (1, 1) Hr eq_refl) as (h & chunked & n & E1 & E2 & E3 & E4).
  assert (header_values (adds ∅ (sent_fields r)) (str_of "Host") = [host_header (pl_host r)]) as ->
    by (rewrite sent_read by done; unfold header_values; change (canonical_header_key (str_of "Host")) with (str_of "Host"); by rewrite lookup_insert_eq).
  change ((1 <? length [host_header (pl_host r)])%nat) with false. rewrite E1. cbn [malformed res_map_err res_bind]. rewrite E2.
  cbn [malformed res_map_err res_bind]. by rewrite E3, E4.
Qed.
End Read.
