(* ===== verification/HttpTarget.v ===== *)
(** What a request target in absolute form says, apart from how [RequestUrl::parse] takes it to pieces,
    and the target and the [Host] that a forwarded request has for it. *)
From Stdlib Require Import Strings.Byte Strings.String.
From stdpp Require Import gmap sorting.
From S2P Require Import Prelude Net IpText Utf8 HttpMessage HttpText HttpFields HttpRequest.

(** ** Targets in absolute form *)

Definition at_sign : byte := "@"%byte.
Definition scheme_byte (b : byte) : bool := is_letter_byte b || is_digit_byte b || byte_in "+-." b.
Definition query_text (query : option str) : str := match query with Some q => question :: q | None => [] end.

(** [scheme://user@host/path?query], where [user] has its at sign and is empty without one; the
    conditions leave one way to take a target to pieces. *)
Record absolute_target (target scheme user host path : str) (query : option str) : Prop := {
  abs_text : target = scheme ++ str_of "://" ++ user ++ host ++ path ++ query_text query;
  abs_scheme : scheme <> [] /\ forallb scheme_byte scheme = true;
  abs_user : user = [] \/ list.last user = Some at_sign;
  abs_host : host <> [] /\ without at_sign host;
  abs_authority : without slash (user ++ host) /\ without question (user ++ host);
  abs_path : (path = [] \/ head path = Some slash) /\ without question path
}.

(** The target in origin form that stands for such a path and query: the same query, and a path
    that means the same bytes, as it was written if all of its bytes may stand in a path. *)
Definition origin_form (path : str) (query : option str) (uri : str) : Prop :=
  let path := if bool_decide (path = []) then [slash] else path in
  exists p,
    uri = p ++ query_text query /\ head p = Some slash /\ without question p
    /\ percent_decode p = percent_decode path /\ (forallb valid_encoded_path_byte path = true -> p = path).

Lemma scheme_loop_parts target seen r scheme rest :
  target = seen ++ r -> forallb scheme_byte seen = true -> scheme_loop target seen r = Ok (scheme, rest) ->
  (scheme = [] /\ rest = target) \/ (scheme <> [] /\ target = scheme ++ colon :: rest /\ forallb scheme_byte scheme = true).
Proof.
  revert seen. induction r as [|b r IH]; intros seen Ht Hs; cbn [scheme_loop]; [intros [= <- <-]; by left|].
  assert (target = (seen ++ [b]) ++ r) as Ht' by (by rewrite <- app_assoc).
  assert (scheme_byte b = true -> forallb scheme_byte (seen ++ [b]) = true) as Hb by (intros Hb; rewrite forallb_app, Hs; simpl; by rewrite Hb).
  destruct (is_letter_byte b) eqn:El; [apply IH; [done | apply Hb; unfold scheme_byte; by rewrite El]|].
  destruct ((is_digit_byte b || byte_in "+-." b) && negb (bool_decide (seen = []))) eqn:Ed.
  { apply andb_true_iff in Ed as [Ed _]. apply IH; [done|]. apply Hb. unfold scheme_byte. by rewrite <- orb_assoc, Ed, orb_true_r. }
  destruct (bool_decide (b = colon)) eqn:Ec; [|intros [= <- <-]; by left]. apply bool_decide_eq_true in Ec as ->.
  destruct (bool_decide (seen = [])) eqn:Es; [done|]. apply bool_decide_eq_false in Es. intros [= <- <-]. right. by split_and!.
Qed.

Lemma split_first_none_inv c s : split_first c s = None -> without c s.
Proof.
  induction s as [|b s IH]; cbn [split_first]; [by constructor|]. case_bool_decide; [done|].
  destruct (split_first c s) as [[? ?]|]; [done|]. intros _. constructor; [done | by apply IH].
Qed.

Lemma split_query_parts rest path query :
  split_query rest = (path, query) -> rest = path ++ query_text query /\ without question path.
Proof.
  unfold split_query. case_if.
  - apply andb_true_iff in Heqb as [Hl%bool_decide_eq_true Hn]. apply Nat.eqb_eq in Hn. intros [= <- <-].
    pose proof (removelast_last rest question Hl) as Er. split; [exact Er|]. rewrite Er, List.filter_app, length_app in Hn.
    set (f := fun b : byte => bool_decide (b = question)) in Hn. change (length (List.filter f [question])) with 1%nat in Hn. assert (length (List.filter f (removelast rest)) = 0%nat) as H0 by lia.
    apply length_zero_iff_nil in H0. apply list.Forall_forall. intros b Hb ->. apply list_elem_of_In in Hb.
    assert (In question (List.filter f (removelast rest))) as Hi by (apply filter_In; split; [done | unfold f; by apply bool_decide_eq_true]).
    by rewrite H0 in Hi.
  - destruct (split_first question rest) as [[x y]|] eqn:E; intros [= <- <-].
    + by apply split_first_inv in E as [-> ?].
    + cbn [query_text]. rewrite app_nil_r. split; [done | by apply split_first_none_inv].
Qed.

Lemma split_last_inv c s x y : split_last c s = Some (x, y) -> s = x ++ c :: y /\ without c y.
Proof.
  unfold split_last. destruct (split_first c (reverse s)) as [[a b]|] eqn:E; [|done]. cbn. intros [= <- <-].
  apply split_first_inv in E as [E Hw]. split; [|by apply Forall_reverse]. apply (f_equal reverse) in E.
  rewrite reverse_involutive, reverse_app, reverse_cons, <- app_assoc in E. exact E.
Qed.

Lemma split_last_none_inv c s : split_last c s = None -> without c s.
Proof.
  unfold split_last. destruct (split_first c (reverse s)) as [[a b]|] eqn:E; [done|]. intros _.
  rewrite <- (reverse_involutive s). by apply Forall_reverse, split_first_none_inv.
Qed.

Lemma strip_text_inv prefix s r : strip_text prefix s = Some r -> s = prefix ++ r.
Proof. unfold strip_text. case_bool_decide as E; [|done]. intros [= <-]. rewrite <- E at 1. by rewrite take_drop. Qed.

(** What follows [scheme:] up to the query *)
Lemma split_authority_parts scheme rest host path :
  split_authority scheme rest = (Some host, path) ->
  scheme <> [] /\ exists user,
    rest = str_of "//" ++ user ++ host ++ path /\ (user = [] \/ list.last user = Some at_sign)
    /\ host <> [] /\ without at_sign host /\ without slash (user ++ host) /\ (path = [] \/ head path = Some slash).
Proof.
  unfold split_authority. destruct (strip_text (str_of "//") rest) as [r|] eqn:Er; [|done]. apply strip_text_inv in Er as ->.
  case_bool_decide as Es; [done|]. intros E. split; [done|].
  destruct (match split_first slash r with Some (a, p) => (a, slash :: p) | None => (r, []) end) as [authority path'] eqn:Ea.
  assert (r = authority ++ path' /\ without slash authority /\ (path' = [] \/ head path' = Some slash)) as (-> & Hs & Hp).
  { destruct (split_first slash r) as [[a p]|] eqn:Ef; injection Ea as <- <-.
    - apply split_first_inv in Ef as [-> Hw]. split_and!; [done..|by right].
    - apply split_first_none_inv in Ef. rewrite app_nil_r. split_and!; [done..|by left]. }
  destruct (split_last at_sign authority) as [[user host']|] eqn:El; unfold at_sign in El; rewrite El in E; case_bool_decide as Eh; try done;
    injection E as <- <-.
  - apply split_last_inv in El as [-> Hw]. exists (user ++ [at_sign]). change (user ++ "@"%byte :: host') with (user ++ [at_sign] ++ host') in *.
    rewrite (app_assoc user) in *. rewrite <- app_assoc. split_and!; try done. right. by rewrite last_snoc.
  - apply split_last_none_inv in El. exists []. split_and!; try done. by left.
Qed.

(** ** Paths *)

Lemma escape_byte_decoded b rest :
  percent_decode ((if is_alnum_byte b || byte_in "-_.~$&+,/:;=@" b then [b] else ["%"%byte; hex_upper (u8 b / 16); hex_upper (u8 b mod 16)]) ++ rest)
  = d ← percent_decode rest; Some (b :: d).
Proof. destruct b; reflexivity. Qed.

Lemma escape_path_decoded path : percent_decode (escape_path path) = Some path.
Proof.
  induction path as [|b path IH]; [done|]. unfold escape_path. cbn [map concat]. fold (escape_path path).
  by rewrite escape_byte_decoded, IH.
Qed.

Lemma escape_path_without path : without question (escape_path path).
Proof.
  induction path as [|b path IH]; [constructor|]. unfold escape_path. cbn [map concat]. apply list.Forall_app. split; [|exact IH].
  clear. destruct b; vm_compute; repeat constructor; by intros [=].
Qed.

Lemma escape_path_front path : escape_path (slash :: path) = slash :: escape_path path.
Proof. done. Qed.

(** The path that is sent *)
Lemma escaped_path_parts path decoded :
  percent_decode path = Some decoded -> without question path -> path = [] \/ head path = Some slash ->
  let p := if bool_decide (escaped_path path decoded = []) then [slash] else escaped_path path decoded in
  forall query, origin_form path query (p ++ query_text query).
Proof.
  intros Hd Hw Hp p query. exists p. split; [done|]. destruct Hp as [->|Hp].
  { injection Hd as <-. change p with [slash]. split_and!; try done. repeat constructor. by intros [=]. }
  destruct path as [|b path]; [done|]. injection Hp as ->. rewrite bool_decide_false by done.
  assert (exists d, decoded = slash :: d) as [d ->].
  { cbn [percent_decode] in Hd. change (bool_decide (slash = "%"%byte)) with false in Hd. cbv iota in Hd.
    destruct (percent_decode path) as [d|]; [|done]. injection Hd as <-. by exists d. }
  assert (p = escaped_path (slash :: path) (slash :: d)) as ->.
  { unfold p. rewrite bool_decide_false; [done|]. unfold escaped_path. cbv zeta. by case_if. }
  unfold escaped_path. cbv zeta. case_if.
  - rewrite escape_path_decoded. split_and!; [done | apply escape_path_without | done|]. intros Hv.
    apply orb_true_iff in Heqb as [?%bool_decide_eq_true|Hn]; [done|]. by rewrite Hv in Hn.
  - by split_and!.
Qed.

(** A target that names a host is in absolute form, and is forwarded in origin form. *)
Lemma parse_absolute target url host :
  RequestUrl_parse target = Ok url -> url_host url = Some host ->
  exists scheme user path query,
    absolute_target target scheme user host path query /\ url_scheme_text url = to_ascii_lowercase scheme
    /\ origin_form path query (url_request_uri url).
Proof.
  unfold RequestUrl_parse, url_scheme. repeat (case_if; [done|]).
  destruct (scheme_loop target [] target) as [[scheme rest]| |] eqn:Es; [|done..]. cbn [res_bind].
  destruct (split_query rest) as [before query] eqn:Eq. case_if; [case_if; done|].
  destruct (split_authority scheme before) as [host' path] eqn:Ea. destruct (percent_decode path) as [decoded|] eqn:Ed; [|done].
  cbn [ok_or res_bind]. cbv zeta. intros [= <-]. cbn [url_host url_scheme_text url_request_uri]. intros ->.
  apply split_authority_parts in Ea as (Hne & user & -> & Hu & Hh & Hat & Hsl & Hp).
  apply split_query_parts in Eq as [-> Hw]. apply scheme_loop_parts in Es as [[? _]|(_ & Ht & Hs)]; [done | | done | done].
  rewrite !(app_assoc user), (app_assoc (str_of "//")) in Hw. apply list.Forall_app in Hw as [Hw Hwp]. apply list.Forall_app in Hw as [_ Hwa].
  exists scheme, user, path, query. split_and!; [|done|].
  - split; try done. rewrite Ht. by rewrite <- !app_assoc.
  - destruct query as [q|]; [by apply (escaped_path_parts path decoded Ed Hwp Hp)|].
    pose proof (escaped_path_parts path decoded Ed Hwp Hp None) as Ho. cbn [query_text] in Ho. by rewrite app_nil_r in Ho.
Qed.

(** ** The host *)

(** The [Host] for a host: the same one where it is ASCII and its bytes may stand there, the IDNA
    form of another one with its port, and an empty one where there is none. *)
Definition host_sent `{Idna} (host value : str) : Prop :=
  if is_ascii_text host then value = (if forallb valid_host_byte host then host else [])
  else exists name port,
    host = name ++ port
    /\ (port = [] -> forall n d, host = n ++ colon :: d -> forallb is_digit_byte d = false)
    /\ (port <> [] -> exists d, port = colon :: d /\ forallb is_digit_byte d = true)
    /\ value = match domain_to_ascii name with
               | Some ascii => if forallb valid_host_byte (ascii ++ port) then ascii ++ port else []
               | None => []
               end.

Lemma digits_without_colon d : forallb is_digit_byte d = true -> without colon d.
Proof. rewrite forallb_forall. intros Hd. apply list.Forall_forall. intros b Hb%list_elem_of_In%Hd. clear -Hb. by destruct b. Qed.

Lemma split_last_at c x y : without c y -> split_last c (x ++ c :: y) = Some (x, y).
Proof.
  intros Hy. unfold split_last. rewrite reverse_app, reverse_cons, <- app_assoc. cbn [app].
  rewrite split_first_at by (by apply Forall_reverse). cbn. by rewrite !reverse_involutive.
Qed.

Lemma host_header_sent `{Idna} host : host_sent host (host_header host).
Proof.
  unfold host_sent, host_header. cbv zeta. destruct (is_ascii_text host); [done|].
  destruct (split_last colon host) as [[name port]|] eqn:El.
  - apply split_last_inv in El as [-> Hw]. destruct (forallb is_digit_byte port) eqn:Ed.
    + exists name, (colon :: port). split_and!; [done | done | by exists port|]. by destruct (domain_to_ascii name).
    + exists (name ++ colon :: port), []. rewrite app_nil_r. split_and!; [done | | done|].
      * intros _ n d E. destruct (forallb is_digit_byte d) eqn:Hd; [|done].
        pose proof (split_last_at colon n d (digits_without_colon d Hd)) as Hn. rewrite <- E, (split_last_at colon name port Hw) in Hn. injection Hn as _ ->. congruence.
      * destruct (domain_to_ascii _) as [a|]; [by rewrite app_nil_r|done].
  - exists host, []. rewrite app_nil_r. split_and!; [done | | done|].
    + intros _ n d E. destruct (forallb is_digit_byte d) eqn:Hd; [|done]. apply digits_without_colon in Hd.
      pose proof (split_last_at colon n d Hd) as Hn. by rewrite <- E, El in Hn.
    + destruct (domain_to_ascii _) as [a|]; [by rewrite app_nil_r|done].
Qed.

(** ** One way to take a target to pieces *)

Lemma cut_unique c x x' y y' :
  without c x -> without c x' -> (y = [] \/ head y = Some c) -> (y' = [] \/ head y' = Some c) -> x ++ y = x' ++ y' -> x = x' /\ y = y'.
Proof.
  intros Hx. revert x'. induction Hx as [|b x Hb Hx IH]; intros x' Hx' Hy Hy' E; destruct x' as [|b' x']; cbn [app] in E.
  - done.
  - apply list.Forall_cons in Hx' as [Hb' _]. subst y. destruct Hy as [?|[= ->]]; done.
  - subst y'. destruct Hy' as [?|[= ->]]; done.
  - injection E as -> E. apply list.Forall_cons in Hx' as [_ Hx']. destruct (IH x' Hx' Hy Hy' E) as [-> ->]. done.
Qed.

Lemma query_text_front query : query_text query = [] \/ head (query_text query) = Some question.
Proof. destruct query; [by right | by left]. Qed.

Lemma user_unique user user' host host' :
  (user = [] \/ list.last user = Some at_sign) -> (user' = [] \/ list.last user' = Some at_sign) ->
  without at_sign host -> without at_sign host' -> user ++ host = user' ++ host' -> user = user' /\ host = host'.
Proof.
  assert (forall u, u = [] \/ list.last u = Some at_sign -> reverse u = [] \/ head (reverse u) = Some at_sign) as Hr.
  { intros u [->|Hu]; [by left|]. right. by rewrite head_reverse. }
  intros Hu Hu' Hh Hh' E. apply (f_equal reverse) in E. rewrite !reverse_app in E.
  apply (cut_unique at_sign) in E as [E1 E2]; [|by apply Forall_reverse..|by apply Hr|by apply Hr].
  by apply (inj reverse) in E1, E2.
Qed.

Lemma absolute_target_unique target scheme user host path query scheme' user' host' path' query' :
  absolute_target target scheme user host path query -> absolute_target target scheme' user' host' path' query' ->
  scheme = scheme' /\ user = user' /\ host = host' /\ path = path' /\ query = query'.
Proof.
  intros [Ht [_ Hs] Hu [_ Hh] [Ha1 Ha2] [Hp Hp']] [Ht' [_ Hs'] Hu' [_ Hh'] [Ha1' Ha2'] [Hpp Hpp']]. rewrite Ht in Ht'. clear Ht.
  assert (forall s, forallb scheme_byte s = true -> without colon s) as Hsc.
  { intros s E. rewrite forallb_forall in E. apply list.Forall_forall. intros b Hb%list_elem_of_In%E. clear -Hb. by destruct b. }
  apply (cut_unique colon) in Ht' as [-> E]; [|by apply Hsc..|by right|by right]. apply app_inj_1 in E as [_ E]; [|done].
  rewrite !app_assoc in E. apply (cut_unique question) in E as [E Eq]; [| |apply list.Forall_app; done|apply query_text_front|apply query_text_front];
    [|by apply list.Forall_app].
  apply (cut_unique slash) in E as [E ->]; [|done..]. apply user_unique in E as [-> ->]; [|done..].
  split_and!; [done..|]. destruct query, query'; simpl in Eq; congruence.
Qed.
