(* ===== verification/HttpBodies.v ===== *)
(** The bodies of HTTP messages: a reference decoder of each way a body is delimited, and the copying
    of a body, which keeps its data and encodes chunks anew. *)
From Stdlib Require Import Strings.Byte Strings.String.
From stdpp Require Import gmap sorting.
From S2P Require Import Prelude Net IpText Utf8 HttpMessage HttpText.

(** ** A reference decoder *)

Definition some_ok {E A} (m : res E A) : option A := match m with Ok a => Some a | _ => None end.

Fixpoint drop_trailer (fuel : nat) (limit : Z) (r : list byte) : option (list byte) :=
  match fuel with
  | O => None
  | S fuel => '(line, r) ← some_ok (read_line limit r); if bool_decide (line = []) then Some r else drop_trailer fuel limit r
  end.

(** The data of a chunked body and what follows it *)
Fixpoint dechunk (fuel : nat) (limit : Z) (r : list byte) : option (list byte * list byte) :=
  match fuel with
  | O => None
  | S fuel =>
    '(line, r) ← some_ok (read_line limit r);
    n ← chunk_size line;
    if n =? 0 then pair [] <$> drop_trailer (S (length r)) limit r
    else if len r <? n then None
    else
      '(line, r') ← some_ok (read_line limit (drop (Z.to_nat n) r));
      if bool_decide (line = []) then '(more, r') ← dechunk fuel limit r'; Some (take (Z.to_nat n) r ++ more, r') else None
  end.

(** The data of a body and what follows it, from a reader of lines shorter than [limit] *)
Definition decode_body (limit : Z) (body : HttpBody) (r : list byte) : option (list byte * list byte) :=
  match body with
  | BodyNone => Some ([], r)
  | BodyLength n => if len r <? n then None else Some (take (Z.to_nat n) r, drop (Z.to_nat n) r)
  | BodyChunked => dechunk (S (length r)) limit r
  | BodyUntilClose => Some (r, [])
  end.

(** ** Enough fuel *)

Lemma drop_trailer_fuel f g limit r :
  (length r < f)%nat -> (length r < g)%nat -> drop_trailer f limit r = drop_trailer g limit r.
Proof.
  revert g r. induction f as [|f IH]; intros g r Hf Hg; [lia|]. destruct g as [|g]; [lia|]. cbn [drop_trailer].
  destruct (read_line limit r) as [[line r1]| |] eqn:El; [|done..]. cbn [some_ok mbind option_bind]. apply read_line_without in El as [_ ?].
  case_if; [done|]. apply IH; lia.
Qed.

Lemma dechunk_fuel f g limit r : (length r < f)%nat -> (length r < g)%nat -> dechunk f limit r = dechunk g limit r.
Proof.
  revert g r. induction f as [|f IH]; intros g r Hf Hg; [lia|]. destruct g as [|g]; [lia|]. cbn [dechunk].
  destruct (read_line limit r) as [[line r1]| |] eqn:El; [|done..]. cbn [some_ok mbind option_bind]. apply read_line_without in El as [_ ?].
  destruct (chunk_size line) as [n|]; [|done]. cbn [mbind option_bind]. repeat (case_if; [done|]).
  destruct (read_line limit (drop _ r1)) as [[l r2]| |] eqn:El2; [|done..]. cbn [some_ok mbind option_bind]. apply read_line_without in El2 as [_ Hl2].
  rewrite length_drop in Hl2. case_if; [|done]. rewrite (IH g r2) by lia. done.
Qed.

(** ** Copying *)

Lemma skip_trailer_decodes f limit r :
  (length r < f)%nat ->
  match skip_trailer f limit r with Ok r' => drop_trailer f limit r = Some r' | Err _ => drop_trailer f limit r = None | Panic => False end.
Proof.
  revert r. induction f as [|f IH]; intros r Hf; [lia|]. cbn [skip_trailer drop_trailer].
  destruct (read_line limit r) as [[line r1]| |] eqn:El; [|done|by apply read_line_no_panic in El]. cbn [res_bind some_ok mbind option_bind].
  apply read_line_without in El as [_ ?]. destruct line; [done|]. apply IH. lia.
Qed.

Lemma chunk_size_range line n : chunk_size line = Some n -> 0 <= n <= u64_max.
Proof.
  unfold chunk_size. cbv zeta. case_if; [done|]. destruct (from_utf8 _) as [t|]; [|done]. cbn [mbind option_bind]. unfold parse_u64. case_if; [done|].
  destruct (number 16 0 t) as [m|] eqn:En; [|done]. cbn [mbind option_bind]. case_if; [|done]. unbool. intros [= <-]. split; [|done].
  by eapply number_nonneg; [| |exact En].
Qed.

(** The line of a chunk is read as its size. *)
Lemma chunk_size_shown n : 0 <= n <= u64_max -> chunk_size (show_hex n) = Some n /\ without lf (show_hex n) /\ (length (show_hex n) <= 16)%nat.
Proof.
  intros Hn. destruct (show_parse 16 n) as (Hp & Hd & Hne & Hlen); [by right | done|]. fold (show_hex n) in *. specialize (Hlen eq_refl).
  assert (forall b, b ∈ show_hex n -> u8 b < 0x80 /\ b <> lf /\ b <> cr /\ b <> sp /\ b <> tab /\ b <> ";"%byte) as Hb.
  { intros b Hb. rewrite list.Forall_forall in Hd. by apply number_bytes, Hd. }
  split_and!; [|apply list.Forall_forall; intros b Hin; by apply Hb | done].
  assert (trim_blank (show_hex n) = show_hex n) as Et.
  { apply trim_by_id. split.
    - destruct (show_hex n) as [|b w]; [done|]. destruct (Hb b) as (_ & _ & _ & ? & ? & _); [constructor|]. by rewrite !bool_decide_false.
    - destruct (reverse (show_hex n)) as [|b w] eqn:E; [done|]. destruct (Hb b) as (_ & _ & _ & ? & ? & _); [rewrite <- elem_of_reverse, E; constructor|].
      by rewrite !bool_decide_false. }
  unfold chunk_size. rewrite split_first_none by (apply list.Forall_forall; intros b Hin; by apply Hb). rewrite Et. cbv zeta.
  rewrite bool_decide_false by done. rewrite (proj2 (Nat.ltb_ge _ _)) by lia.
  assert (forallb (fun b => bool_decide (is_Some (digit 16 b))) (show_hex n) = true) as ->.
  { apply forallb_forall. intros b Hin%list_elem_of_In. rewrite list.Forall_forall in Hd. by apply bool_decide_true, Hd. }
  cbn [orb negb]. unfold from_utf8. rewrite utf8_ascii; [exact Hp|]. apply list.Forall_forall. intros b Hin. by apply Hb.
Qed.

(** Chunks that are written are read back, whatever follows them. *)
Lemma dechunk_last limit next fuel : 2 < limit -> (1 < fuel)%nat -> dechunk fuel limit (last_chunk ++ next) = Some ([], next).
Proof.
  intros Hl Hf. destruct fuel as [|fuel]; [lia|]. cbn [dechunk]. change (last_chunk ++ next) with ([x30] ++ crlf_bytes ++ crlf_bytes ++ next).
  rewrite read_line_crlf by (first [by_decision | change (len [x30]) with 1; lia]). cbn [some_ok mbind option_bind].
  change (chunk_size [x30]) with (Some 0). cbn [mbind option_bind]. rewrite Z.eqb_refl. cbn [drop_trailer].
  change (crlf_bytes ++ next) with ([] ++ crlf_bytes ++ next). rewrite read_line_crlf by (first [constructor | rewrite len_nil; lia]). done.
Qed.

Lemma dechunk_chunk limit data rest fuel :
  17 < limit -> 0 < len data <= u64_max ->
  dechunk (S fuel) limit (show_hex (len data) ++ crlf_bytes ++ data ++ crlf_bytes ++ rest)
  = '(more, r) ← dechunk fuel limit rest; Some (data ++ more, r).
Proof.
  intros Hl Hd. destruct (chunk_size_shown (len data)) as (Hs & Hw & Hlen); [lia|]. cbn [dechunk].
  assert (len (show_hex (len data)) <= 16) by (unfold len at 1; lia). rewrite read_line_crlf by (first [done | lia]). cbn [some_ok mbind option_bind]. rewrite Hs. cbn [mbind option_bind].
  guard_false by lia. pose proof (len_nonneg (crlf_bytes ++ rest)). guard_false by (rewrite len_app; lia).
  assert (Z.to_nat (len data) = length data) as -> by (unfold len; lia). rewrite drop_app_length, take_app_length.
  change (crlf_bytes ++ rest) with ([] ++ crlf_bytes ++ rest). rewrite read_line_crlf by (first [constructor | rewrite len_nil; lia]). done.
Qed.

(** A chunked body is copied just when it can be decoded, to one with the same data. *)
Lemma chunked_loop_decodes fuel limit r :
  (length r < fuel)%nat ->
  let '(out, m) := chunked_loop fuel limit r in
  match dechunk fuel limit r with
  | Some (data, rest) =>
    m = Ok rest /\ forall limit' next, 17 < limit' -> decode_body limit' BodyChunked (out ++ next) = Some (data, next)
  | None => exists e, m = Err e
  end.
Proof.
  revert r. induction fuel as [|fuel IH]; intros r Hf; [lia|]. cbn [chunked_loop dechunk].
  destruct (read_line limit r) as [[line r1]| |] eqn:El; [|by eexists|by apply read_line_no_panic in El]. cbn [some_ok mbind option_bind].
  apply read_line_without in El as [_ ?]. destruct (chunk_size line) as [n|] eqn:Ec; [|by eexists]. cbn [mbind option_bind].
  apply chunk_size_range in Ec. destruct (Z.eqb_spec n 0) as [->|Hn].
  - pose proof (skip_trailer_decodes (S (length r1)) limit r1 ltac:(lia)) as Ht. destruct (skip_trailer (S (length r1)) limit r1) as [r2| |]; [|rewrite Ht; by eexists|done].
    rewrite Ht. split; [done|]. intros limit' next Hl. apply dechunk_last; [lia|]. rewrite length_app. simpl. lia.
  - unfold copy_body_length. destruct (Z.ltb_spec (len r1) n) as [Hlt|Hge]; [guard_false by lia; by eexists|]. guard_true by lia.
    destruct (read_line limit (drop (Z.to_nat n) r1)) as [[l r2]| |] eqn:El2; [|by eexists|by apply read_line_no_panic in El2].
    cbn [some_ok mbind option_bind]. apply read_line_without in El2 as [_ Hl2]. rewrite length_drop in Hl2.
    destruct l as [|c l]; [|by eexists]. rewrite bool_decide_true by done. specialize (IH r2 ltac:(lia)).
    destruct (chunked_loop fuel limit r2) as [out m]. destruct (dechunk fuel limit r2) as [[data rest]|]; [|done].
    destruct IH as [-> IH]. cbn [mbind option_bind]. split; [done|]. intros limit' next Hl. specialize (IH limit' next Hl).
    assert (n = len (take (Z.to_nat n) r1)) as Hn' by (unfold len in *; rewrite length_take; lia). rewrite Hn' at 1. rewrite <- !app_assoc.
    unfold decode_body in *. rewrite dechunk_chunk by lia. rewrite (dechunk_fuel _ (S (length (out ++ next)))); [by rewrite IH| |lia].
    rewrite !length_app. simpl. lia.
Qed.

(** Every body is copied just when it can be decoded, to one with the same data. *)
Lemma copy_body_decodes body r :
  body <> BodyUntilClose ->
  let '(out, m) := copy_body body r in
  match decode_body MAX_LINE_LEN body r with
  | Some (data, rest) => m = Ok rest /\ forall limit next, 17 < limit -> decode_body limit body (out ++ next) = Some (data, next)
  | None => exists e, m = Err e
  end.
Proof.
  intros Hb. destruct body as [|n| |]; [done| | |done]; cbn [copy_body decode_body].
  - unfold copy_body_length. destruct (Z.ltb_spec (len r) n); [guard_false by lia; by eexists|]. guard_true by lia. split; [done|].
    intros limit next _. set (data := take (Z.to_nat n) r).
    assert (Z.to_nat n = length data) as E by (unfold data, len in *; rewrite length_take; lia).
    clearbody data. rewrite (proj2 (Z.ltb_ge _ _)) by (rewrite len_app; unfold len in *; lia). by rewrite E, take_app_length, drop_app_length.
  - unfold copy_body_chunked. pose proof (chunked_loop_decodes (S (length r)) MAX_LINE_LEN r ltac:(lia)) as Hc.
    destruct (chunked_loop _ _ r) as [out m]. exact Hc.
Qed.
