(* ===== verification/HttpRelay.v ===== *)
(** What the HTTP inbound passes on: a server reads the request that was forwarded as the client
    sent it, body included and nothing behind it. *)
From Stdlib Require Import Strings.Byte Strings.String.
From stdpp Require Import gmap sorting.
From S2P Require Import Prelude Net IpText Utf8 HttpMessage HttpText HttpFields HttpRequest HttpTarget HttpBodies.

(** The headers that are for the proxy alone: hop by hop ones, and those that [Connection] names *)
Definition hop_names (h : HttpHeaders) : list str :=
  map canonical_header_key (hop_by_hop ++ str_of "Connection" :: connection_names (header_get h (str_of "Connection"))).

(** The first value of [User-Agent], unless it is empty *)
Definition agent_sent (h : HttpHeaders) : option (list (list byte)) :=
  v ← header_get h (str_of "User-Agent"); if bool_decide (clean_value v = []) then None else Some [clean_value v].

(** The length of a body that has one; one of no bytes has one where the method calls for a body. *)
Definition length_sent (method : str) (body : HttpBody) : option (list (list byte)) :=
  match body with
  | BodyLength n => Some [show_dec n]
  | BodyNone => if sends_body method then Some [str_of "0"] else None
  | BodyChunked | BodyUntilClose => None
  end.

(** The values that a server should read of each header, for the request that a client made *)
Definition header_expected (head : HttpRequestHead) (host : str) (k : str) : option (list (list byte)) :=
  if bool_decide (k = str_of "Host") then Some [host]
  else if bool_decide (k = str_of "Connection") then Some [str_of "close"]
  else if bool_decide (k = str_of "Content-Length") then length_sent (rq_method head) (rq_body head)
  else if bool_decide (k = str_of "Transfer-Encoding") then
    (if bool_decide (rq_body head = BodyChunked) then Some [str_of "chunked"] else None)
  else if bool_decide (k = str_of "Trailer") || bool_decide (k ∈ hop_names (rq_headers head)) then None
  else if bool_decide (k = str_of "User-Agent") then agent_sent (rq_headers head)
  else map clean_value <$> rq_headers head !! k.

(** The header fields of a request as they stand in it, each name with its values *)
Definition request_fields (limit : Z) (r : list byte) : res HttpParseError HttpHeaders :=
  let? (_, r) := read_line limit r in
  let? (block, _) := read_header_block limit true r in
  Ok (block_headers block).

Lemma hop_by_hop_removed h k :
  remove_hop_by_hop_headers h !! k = if bool_decide (k ∈ hop_names h) then None else h !! k.
Proof.
  unfold remove_hop_by_hop_headers, hop_names. cbv zeta.
  assert (header_get (remove_all h hop_by_hop) (str_of "Connection") = header_get h (str_of "Connection")) as ->
    by (unfold header_get, header_values; rewrite remove_all_lookup; by rewrite bool_decide_false by by_decision).
  rewrite map_app, remove_all_lookup. unfold header_remove. cbn [map].
  set (c := canonical_header_key (str_of "Connection")). set (named := map canonical_header_key (connection_names _)).
  destruct (decide (k ∈ named)) as [Hn|Hn].
  { rewrite !bool_decide_true by (first [done | apply elem_of_app; right; by constructor]). done. }
  rewrite (bool_decide_false (k ∈ named)) by done. destruct (decide (k = c)) as [->|Hc].
  { rewrite lookup_delete_eq, bool_decide_true by (apply elem_of_app; right; constructor). done. }
  rewrite lookup_delete_ne, remove_all_lookup by done.
  by rewrite (bool_decide_ext (k ∈ map canonical_header_key hop_by_hop ++ c :: named) (k ∈ map canonical_header_key hop_by_hop))
    by (rewrite elem_of_app, elem_of_cons; naive_solver).
Qed.

Section Relay.
Context `{Idna}.

(** What a request to forward holds of the one that was read *)
Lemma plain_new_inv head req :
  PlainHttpRequest_new head = Ok req ->
  pl_method req = rq_method head /\ pl_body req = rq_body head
  /\ (exists url, RequestUrl_parse (rq_target head) = Ok url /\ url_host url = Some (pl_host req) /\ url_request_uri url = pl_request_uri req
      /\ parse_authority_target (pl_host req) (if eq_ignore_ascii_case (url_scheme_text url) (str_of "https") then 443 else 80)
         = Ok (pl_destination req))
  /\ pl_headers req
     = let h := remove_hop_by_hop_headers (rq_headers head) in
       if bool_decide (default [] (header_get h (str_of "User-Agent")) = []) then <[str_of "User-Agent" := [[]]]> h else h.
Proof.
  unfold PlainHttpRequest_new. destruct (RequestUrl_parse (rq_target head)) as [url| |]; [|done..]. cbn [res_bind]. cbv zeta.
  destruct (url_host url) as [host|] eqn:Eh; [|done]. cbn [ok_or res_bind]. destruct (parse_authority_target host _) as [d| |] eqn:Ed; [|done..].
  cbn [res_map_err res_bind]. intros <-%Ok_inj. split_and!; [done..| |done]. by exists url.
Qed.

Lemma hop_headers_get h name :
  canonical_header_key name = name -> name ∉ hop_names h -> header_get (remove_hop_by_hop_headers h) name = header_get h name.
Proof. intros Hc Hn. unfold header_get, header_values. by rewrite Hc, hop_by_hop_removed, bool_decide_false. Qed.

Lemma plain_new_headers head req k :
  PlainHttpRequest_new head = Ok req -> k <> str_of "User-Agent" ->
  pl_headers req !! k = if bool_decide (k ∈ hop_names (rq_headers head)) then None else rq_headers head !! k.
Proof.
  intros (_ & _ & _ & ->)%plain_new_inv Hk. cbv zeta. rewrite <- hop_by_hop_removed. case_if; [by rewrite lookup_insert_ne|done].
Qed.

(** The agent that is sent, which an absent one and one for the proxy alone leave empty *)
Lemma plain_new_agent head req :
  PlainHttpRequest_new head = Ok req ->
  (if bool_decide (agent_value (pl_headers req) = []) then None else Some [agent_value (pl_headers req)])
  = if bool_decide (str_of "User-Agent" ∈ hop_names (rq_headers head)) then None else agent_sent (rq_headers head).
Proof.
  intros (_ & _ & _ & ->)%plain_new_inv. cbv zeta. set (h := remove_hop_by_hop_headers (rq_headers head)).
  assert (forall h', agent_value h' = clean_value (default [] (header_get h' (str_of "User-Agent")))) as Ha by done.
  assert (agent_value (if bool_decide (default [] (header_get h (str_of "User-Agent")) = []) then <[str_of "User-Agent" := [[]]]> h else h)
    = clean_value (default [] (header_get h (str_of "User-Agent")))) as ->.
  { case_bool_decide as E; [|done]. rewrite Ha, E. unfold header_get, header_values.
    change (canonical_header_key (str_of "User-Agent")) with (str_of "User-Agent"). by rewrite lookup_insert_eq. }
  destruct (decide (str_of "User-Agent" ∈ hop_names (rq_headers head))) as [Hin|Hn].
  - rewrite (bool_decide_true (_ ∈ _)) by done. unfold header_get, header_values.
    change (canonical_header_key (str_of "User-Agent")) with (str_of "User-Agent"). unfold h. rewrite hop_by_hop_removed.
    by rewrite (bool_decide_true (_ ∈ _)).
  - rewrite (bool_decide_false (_ ∈ _)) by done. unfold agent_sent, h. rewrite hop_headers_get by done.
    destruct (header_get (rq_headers head) (str_of "User-Agent")) as [v|]; [|done]. done.
Qed.

(** The headers that are sent are those that should be. *)
Lemma sent_expected head req k :
  head_ok head -> PlainHttpRequest_new head = Ok req ->
  adds ∅ (sent_fields req) !! k = header_expected head (host_header (pl_host req)) k.
Proof.
  intros Hok Hn. destruct (plain_new_ok head req Hok Hn) as (Hreq & Hm & Hb). rewrite sent_read by done. unfold header_expected.
  destruct (decide (k = str_of "Host")) as [->|HH]; [by rewrite lookup_insert_eq|].
  rewrite (bool_decide_false (k = str_of "Host")), lookup_insert_ne by done.
  destruct (sent_lookup_framing req) as (_ & H2 & H3). rewrite <- Hb. 
  destruct (decide (k = str_of "Transfer-Encoding")) as [->|HT].
  { change (bool_decide (str_of "Transfer-Encoding" = str_of "Connection")) with false.
    change (bool_decide (str_of "Transfer-Encoding" = str_of "Content-Length")) with false.
    change (bool_decide (str_of "Transfer-Encoding" = str_of "Transfer-Encoding")) with true. cbv iota. case_if; [by rewrite lookup_insert_eq|done]. }
  assert ((if bool_decide (pl_body req = BodyChunked) then <[str_of "Transfer-Encoding" := [str_of "chunked"]]> (sent_headers req)
    else sent_headers req) !! k = sent_headers req !! k) as -> by (case_if; [by rewrite lookup_insert_ne|done]).
  rewrite (bool_decide_false (k = str_of "Transfer-Encoding")) by done.
  destruct (decide (k = str_of "Content-Length")) as [->|HL].
  { rewrite (bool_decide_false (_ = str_of "Connection")), bool_decide_true, H3, <- Hm by done. unfold length_sent, length_value, sends_length.
    pose proof (pl_body_ok req Hreq) as Hbody. destruct (pl_body req) as [|n| |]; try done. by rewrite (proj2 (Z.ltb_lt 0 n)) by lia. }
  rewrite (bool_decide_false (k = str_of "Content-Length")) by done. unfold sent_headers. fold (kept_headers req). cbv zeta.
  assert (forall (h : HttpHeaders) v, (if sends_length req then <[str_of "Content-Length" := v]> h else h) !! k = h !! k) as Hskip
    by (intros h v; case_if; [by rewrite lookup_insert_ne|done]).
  rewrite Hskip. destruct (decide (k = str_of "User-Agent")) as [->|HU].
  { change (bool_decide (str_of "User-Agent" = str_of "Connection")) with false.
    change (bool_decide (str_of "User-Agent" = str_of "Trailer")) with false.
    change (bool_decide (str_of "User-Agent" = str_of "User-Agent")) with true. cbn [orb]. rewrite <- (plain_new_agent head req Hn). case_if; [|by rewrite lookup_insert_eq]. rewrite kept_lookup. by rewrite bool_decide_true by by_decision. }
  assert (forall (h : HttpHeaders) v, (if bool_decide (agent_value (pl_headers req) = []) then h else <[str_of "User-Agent" := v]> h) !! k = h !! k) as Hskip'
    by (intros h v; case_if; [done|by rewrite lookup_insert_ne]).
  rewrite Hskip', kept_lookup, (bool_decide_false (k = str_of "User-Agent")) by done. unfold header_set.
  change (canonical_header_key (str_of "Connection")) with (str_of "Connection").
  destruct (decide (k = str_of "Connection")) as [->|HC]; [rewrite bool_decide_false by by_decision; by rewrite lookup_insert_eq|].
  rewrite (bool_decide_false (k = str_of "Connection")), lookup_insert_ne, (plain_new_headers head req k Hn) by done.
  destruct (decide (k = str_of "Trailer")) as [->|HR]; [done|]. rewrite (bool_decide_false (k = str_of "Trailer")) by done. cbn [orb].
  rewrite (bool_decide_false (k ∈ request_excluded)); [by case_if|]. unfold request_excluded. rewrite !not_elem_of_cons. split_and!; try assumption. apply not_elem_of_nil.
Qed.

Lemma request_fields_read limit req rest :
  plain_ok req -> len (forwarded_head req) < limit ->
  request_fields limit (forwarded_head req ++ rest) = Ok (adds ∅ (sent_fields req)).
Proof.
  intros Hr. rewrite forwarded_lines. set (line := pl_method req ++ _). intros Hlim. destruct (request_line_read req Hr) as (Hl & _). fold line in Hl.
  rewrite !len_app in Hlim. change (len crlf_bytes) with 2 in Hlim. pose proof (len_nonneg line). pose proof (len_nonneg (lines (sent_fields req))).
  rewrite <- !app_assoc. unfold request_fields. rewrite read_line_crlf by (done || lia). cbn [res_bind].
  rewrite read_block_written by (first [by apply sent_fields_ok | lia]). done.
Qed.

Lemma forwarded_long r : 17 < len (forwarded_head r).
Proof.
  unfold forwarded_head, field_line. rewrite !len_app. change (len (str_of " HTTP/1.1")) with 9. change (len (str_of "Host")) with 4.
  change (len crlf_bytes) with 2. change (len (str_of ": ")) with 2. change (len [sp]) with 1.
  repeat match goal with |- context [len ?l] => pose proof (len_nonneg l); generalize dependent (len l); intros end. lia.
Qed.

(** *** Names that end in a space *)

Lemma canonical_last_space name : list.last (canonical_header_key name) = Some sp -> list.last name = Some sp.
Proof.
  unfold canonical_header_key. destruct (forallb is_token_byte name) eqn:Et; cbn [negb]; [|done]. case_if; [done|].
  destruct (canonicalize_canonical true name Et) as [Ht _]. intros Hl. rewrite forallb_forall in Ht.
  apply last_Some in Hl as [l El]. rewrite El in Ht. by specialize (Ht sp ltac:(apply in_or_app; right; by left)).
Qed.

Lemma trimmed_last_space s : list.last (trim_ascii_space s) <> Some sp.
Proof.
  intros [l El]%last_Some. unfold trim_ascii_space in El. destruct (trim_by_cut (fun b => bool_decide (b = sp) || bool_decide (b = tab)
    || bool_decide (b = cr) || bool_decide (b = lf)) s) as (_ & _ & _ & _ & _ & _ & He). rewrite El, reverse_app in He. done.
Qed.

(** No hop by hop header has such a name, and [Connection] cannot list one. *)
Lemma spaced_not_hop h k : list.last k = Some sp -> k ∉ hop_names h.
Proof.
  intros Hk. unfold hop_names. rewrite map_app, elem_of_app. intros [Hin|Hin].
  - apply list_elem_of_In, in_map_iff in Hin as (n & <- & Hn). apply canonical_last_space in Hk.
    assert (Forall (fun n => list.last n <> Some sp) hop_by_hop) as Hf by by_decision. rewrite list.Forall_forall in Hf.
    by apply (Hf n); [apply list_elem_of_In|].
  - cbn [map] in Hin. apply elem_of_cons in Hin as [->|Hin]; [done|].
    apply list_elem_of_In, in_map_iff in Hin as (n & <- & Hn). apply canonical_last_space in Hk. unfold connection_names in Hn.
    destruct (header_get h (str_of "Connection")) as [v|]; [|done]. apply list_elem_of_In, list_elem_of_omap in Hn as (x & _ & Hx).
    apply from_utf8_inv in Hx as [-> _]. by apply (trimmed_last_space x).
Qed.

Lemma line_sent l k v : v ∈ values_of l k -> exists before after, lines l = before ++ field_line k v ++ after.
Proof.
  unfold values_of. intros Hv. apply list_elem_of_In, in_map_iff in Hv as ([n w] & <- & Hin). apply filter_In in Hin as [Hin Hn].
  cbn [fst] in Hn. apply bool_decide_eq_true in Hn as ->. apply in_split in Hin as (l1 & l2 & ->). exists (lines l1), (lines l2).
  by rewrite lines_app, lines_cons.
Qed.

End Relay.

(** ** A request through the proxy *)

Definition ascii_idna : Idna := fun s => if is_ascii_text s then Some s else None.

Definition sample_request : list byte :=
  str_of "POST http://a.example:8080/x%20y?q=1 HTTP/1.1" ++ crlf_bytes ++ str_of "Host: a.example" ++ crlf_bytes
  ++ str_of "Connection: X-Secret, close" ++ crlf_bytes ++ str_of "X-Secret: s" ++ crlf_bytes
  ++ str_of "Proxy-Authorization: Basic YTpi" ++ crlf_bytes ++ str_of "Transfer-Encoding: chunked" ++ crlf_bytes
  ++ str_of "Content-Length: 3" ++ crlf_bytes ++ str_of "Accept: */*" ++ crlf_bytes ++ crlf_bytes
  ++ str_of "5 ;ext=1" ++ crlf_bytes ++ str_of "hello" ++ crlf_bytes ++ str_of "0" ++ crlf_bytes ++ str_of "X-T: 1" ++ crlf_bytes ++ crlf_bytes
  ++ str_of "GET /next".

Definition ok_of {E A} (d : A) (m : res E A) : A := match m with Ok a => a | _ => d end.
Definition sample_read : HttpRequestHead * list byte :=
  Eval vm_compute in ok_of (mkRequestHead [] [] (0, 0) ∅ None BodyNone, []) (read_http_request_head sample_request).
Definition sample_plain : PlainHttpRequest :=
  Eval vm_compute in ok_of (mkPlainRequest [] (mkTarget (Domain []) 0 Tcp) [] [] [] ∅ BodyNone false) (PlainHttpRequest_new (fst sample_read)).

Lemma sample_absolute :
  absolute_target (rq_target (fst sample_read)) (str_of "http") [] (str_of "a.example:8080") (str_of "/x%20y") (Some (str_of "q=1")).
Proof. split; try done; [by left | split; [done | by_decision] | split; by_decision | split; [by right | by_decision]]. Qed.


(** C39: A header whose name ends in a space, which is not a token, is read and passed on as it came, whatever
    its name is without the space: each of its values has its line in the head that is sent, since no such
    name is hop by hop and [Connection] cannot list one. A server that ignores the space is sent a second
    framing of the body beside the proxy's own, or the credentials that were for the proxy. *)
Theorem http_spaced_names_pass `{Idna} r head rest req k vs v :
  read_http_request_head r = Ok (head, rest) -> PlainHttpRequest_new head = Ok req ->
  list.last k = Some sp -> rq_headers head !! k = Some vs -> v ∈ vs ->
  forallb is_token_byte k = false
  /\ exists before after, forwarded_head req = before ++ field_line k (clean_value v) ++ after
     /\ fst (upload req rest) = forwarded_head req ++ fst (copy_body (rq_body head) rest).
Proof.
  intros Hread Hnew Hk Hvs Hv. pose proof (read_request_head_ok _ _ _ _ Hread) as Hok. destruct (plain_new_ok head req Hok Hnew) as (Hreq & _ & Hb). split.
  { apply not_true_iff_false. rewrite forallb_forall. intros Ht. apply last_Some in Hk as [l ->].
    by specialize (Ht sp ltac:(apply in_or_app; right; by left)). }
  pose proof (sent_expected head req k Hok Hnew) as He. unfold header_expected in He.
  rewrite !(bool_decide_false (k = _)) in He by (intros ->; done). rewrite (bool_decide_false (k ∈ _)) in He by (by apply spaced_not_hop).
  cbn [orb] in He. rewrite Hvs in He. cbn [fmap option_fmap option_map] in He. rewrite adds_lookup, lookup_empty in He
    by (eapply list.Forall_impl; [by apply sent_fields_ok|]; intros x (Hx & _); by apply nm_canonical).
  destruct (line_sent (sent_fields req) k (clean_value v)) as (before & after & El).
  { destruct (values_of (sent_fields req) k) as [|w ws]; [done|]. injection He as He. rewrite He. by apply list_elem_of_fmap_2. }
  assert (fst (upload req rest) = forwarded_head req ++ fst (copy_body (rq_body head) rest)) as Hu.
  { unfold upload. rewrite Hb. pose proof (hd_body head Hok) as Hbody.
    destruct (rq_body head); try done; by destruct (copy_body _ rest). }
  pose proof (forwarded_lines req) as Hf. rewrite El in Hf. set (line := pl_method req ++ _) in Hf.
  exists (line ++ crlf_bytes ++ before), (after ++ crlf_bytes). split; [|exact Hu]. rewrite Hf. by repeat rewrite <- app_assoc.
Qed.

Definition spaced_request : list byte :=
  str_of "POST http://a.example/ HTTP/1.1" ++ crlf_bytes ++ str_of "Host: a.example" ++ crlf_bytes ++ str_of "Content-Length: 5" ++ crlf_bytes
  ++ str_of "Transfer-Encoding : chunked" ++ crlf_bytes ++ str_of "Proxy-Authorization : Basic YTpi" ++ crlf_bytes ++ crlf_bytes ++ str_of "hello".

Definition spaced_read : HttpRequestHead * list byte :=
  Eval vm_compute in ok_of (mkRequestHead [] [] (0, 0) ∅ None BodyNone, []) (read_http_request_head spaced_request).
Definition spaced_plain : PlainHttpRequest :=
  Eval vm_compute in ok_of (mkPlainRequest [] (mkTarget (Domain []) 0 Tcp) [] [] [] ∅ BodyNone false) (PlainHttpRequest_new (fst spaced_read)).

(** A body of five bytes is sent on beside a line that calls it chunked. *)
Lemma http_spaced_names_pass_witness :
  rq_body (fst spaced_read) = BodyLength 5
  /\ exists before after, @forwarded_head ascii_idna spaced_plain = before ++ str_of "Transfer-Encoding : chunked" ++ crlf_bytes ++ after.
Proof.
  split; [reflexivity|].
  destruct (@http_spaced_names_pass ascii_idna spaced_request (fst spaced_read) (snd spaced_read) spaced_plain (str_of "Transfer-Encoding ")
    [str_of "chunked"] (str_of "chunked") ltac:(vm_compute; reflexivity) ltac:(vm_compute; reflexivity) ltac:(reflexivity) ltac:(vm_compute; reflexivity)
    ltac:(by_decision)) as (_ & before & after & E & _).
  exists before, after. rewrite E. reflexivity.
Defined.

(** ** Accounts *)

(** A client is admitted when there are no accounts, or when its credentials are those of one. *)
Lemma http_basic_user_admits `{Base64} accounts authorization user :
  http_basic_user accounts authorization = Some user <->
  (accounts = [] /\ user = None)
  \/ exists v u p, authorization = Some v /\ decode_http_basic_credentials v = Some (u, p) /\ In (u, p) accounts /\ user = Some u.
Proof.
  assert (forall (l : list (list byte * list byte)) (b : bool) (u p : list byte), fold_left (fun (a : bool) '(ku, kp) => a || (bool_decide (ku = u) && bool_decide (kp = p))) l b = true
    <-> b = true \/ In (u, p) l) as Hf.
  { induction l as [|[ku kp] l IH]; intros b u p; [simpl; tauto|]. cbn [fold_left]. rewrite IH, orb_true_iff, andb_true_iff, !bool_decide_eq_true. simpl. naive_solver. }
  unfold http_basic_user. case_bool_decide as Ha; [split; [intros [= <-]; by left | intros [[_ ->]|(v & u & p & _ & _ & Hin & _)]; [done | by subst]]|].
  destruct authorization as [v|]; cbn [mbind option_bind]; [|naive_solver].
  destruct (decode_http_basic_credentials v) as [[u p]|] eqn:Ed; cbn [mbind option_bind]; [|naive_solver].
  destruct (fold_left _ accounts false) eqn:Ef.
  - apply Hf in Ef as [?|Hin]; [done|]. split; [intros [= <-]; right; naive_solver|]. intros [[? _]|(v' & u' & p' & [= <-] & Hd & _ & ->)]; [done|]. congruence.
  - split; [done|]. intros [[? _]|(v' & u' & p' & [= <-] & Hd & Hin & ->)]; [done|]. rewrite Ed in Hd. injection Hd as <- <-.
    rewrite (proj2 (Hf accounts false u p)) in Ef by (by right). done.
Qed.
