(* ===== verification/HttpReply.v ===== *)
(** The response that the HTTP inbound passes back: what a response head holds, the head that the
    client is sent, and how a client reads it. *)
From Stdlib Require Import Strings.Byte Strings.String.
From stdpp Require Import gmap sorting.
From S2P Require Import Prelude Net IpText Utf8 HttpMessage HttpText HttpFields HttpRequest HttpTarget HttpBodies HttpRelay.

(** ** Status lines *)

Lemma number_bound s a n : 0 <= a -> number 10 a s = Some n -> n < (a + 1) * 10 ^ len s.
Proof.
  revert a. induction s as [|b s IH]; intros a Ha; cbn [number]; [intros [= <-]; rewrite len_nil; lia|].
  destruct (digit 10 b) as [d|] eqn:Ed; [|done]. cbn [mbind option_bind]. intros En. assert (0 <= d < 10) as Hd
    by (unfold digit in Ed; cbv zeta in Ed; repeat case_if_in Ed; unbool; simplify_eq; lia).
  apply IH in En; [|lia]. rewrite len_cons, Z.pow_add_r by (first [lia | apply len_nonneg]). pose proof (Z.pow_pos_nonneg 10 (len s) ltac:(lia) (len_nonneg s)). nia.
Qed.

Lemma status_code_range code n :
  length code = 3%nat -> parse_i64_text code = Some n -> 0 <= n -> n <= 999.
Proof.
  intros Hl. unfold parse_i64_text.
  set (p := match code with [] => _ | b :: r => _ end). assert (len (snd p) <= 3) as Hp.
  { unfold p, len. destruct code as [|b r]; [done|]. cbn [length] in Hl. repeat case_if; cbn [snd length]; lia. }
  destruct p as [negative digits]. cbn [snd] in Hp. case_if; [done|]. destruct (number 10 0 digits) as [m|] eqn:En; [|done]. cbn [mbind option_bind].
  pose proof (number_nonneg 10 digits 0 m ltac:(lia) ltac:(lia) En). apply number_bound in En; [|lia].
  assert (10 ^ len digits <= 10 ^ 3) by (apply Z.pow_le_mono_r; lia).
  destruct negative; case_if; try done; intros [= <-] Hn; lia.
Qed.

Lemma http_version_digits v a b : http_version v = Some (a, b) -> 0 <= a <= 9 /\ 0 <= b <= 9.
Proof.
  unfold http_version. do 9 (destruct v as [|? v]; try done). case_if; [|done]. intros [= <- <-]. unbool. unfold is_digit_byte in *. unbool. lia.
Qed.

Lemma show_digit d : 0 <= d <= 9 -> show_dec d = [digit_byte d] /\ is_digit_byte (digit_byte d) = true /\ u8 (digit_byte d) - 0x30 = d.
Proof.
  intros Hd. assert (d = 0 \/ d = 1 \/ d = 2 \/ d = 3 \/ d = 4 \/ d = 5 \/ d = 6 \/ d = 7 \/ d = 8 \/ d = 9) as Hc by lia.
  repeat destruct Hc as [->|Hc]; try subst d; split_and!; reflexivity.
Qed.

Definition version_text (v : Z * Z) : str := str_of "HTTP/" ++ show_dec (fst v) ++ [dot] ++ show_dec (snd v).

Lemma version_read a b : 0 <= a <= 9 -> 0 <= b <= 9 -> http_version (version_text (a, b)) = Some (a, b).
Proof.
  intros Ha Hb. unfold version_text. cbn [fst snd]. destruct (show_digit a Ha) as (-> & Da & Va), (show_digit b Hb) as (-> & Db & Vb).
  cbn [app str_of list_byte_of_string]. unfold http_version. cbn. rewrite Da, Db, Va, Vb. done.
Qed.

Lemma show_status_digits n : 0 <= n <= 999 ->
  Forall (fun b => is_Some (digit 10 b)) (show_status n) /\ parse_i64_text (show_status n) = Some n.
Proof.
  intros Hn. unfold show_status. pose proof (Z.mod_pos_bound (n / 100) 10). pose proof (Z.mod_pos_bound (n / 10) 10). pose proof (Z.mod_pos_bound n 10).
  set (a := n / 100 mod 10) in *. set (b := n / 10 mod 10) in *. set (c := n mod 10) in *.
  assert (digit 10 (digit_byte a) = Some a /\ digit 10 (digit_byte b) = Some b /\ digit 10 (digit_byte c) = Some c) as (Ea & Eb & Ec)
    by (split_and!; apply digit_shown; lia).
  split; [by repeat constructor; rewrite ?Ea, ?Eb, ?Ec|].
  assert (digit_byte a <> "-"%byte /\ digit_byte a <> "+"%byte) as [? ?] by (split; intros E; by rewrite E in Ea).
  unfold parse_i64_text. rewrite !bool_decide_false by done. cbn [number mbind option_bind].
  rewrite Ea. cbn [mbind option_bind]. rewrite Eb. cbn [mbind option_bind]. rewrite Ec. cbn [mbind option_bind].
  assert ((0 * 10 + a) * 10 + b = n / 10 /\ (n / 10) * 10 + c = n) as [-> ->].
  { unfold a, b, c. pose proof (Z.div_mod n 10). pose proof (Z.div_mod (n / 10) 10). rewrite Z.div_div in * by lia. change (10 * 10) with 100 in *.
    assert (n / 100 mod 10 = n / 100) as -> by (apply Z.mod_small; split; [apply Z.div_pos; lia | apply Z.div_lt_upper_bound; lia]). lia. }
  guard_true by (unfold i64_max; lia). done.
Qed.

(** ** Raw lines *)

Lemma until_lf_app n y r : without lf y -> (length y < n)%nat -> until_lf n (y ++ lf :: r) = (y ++ [lf], r).
Proof.
  intros Hy. revert n. induction Hy as [|b y Hb _ IH]; intros n Hn; (destruct n as [|n]; [simpl in Hn; lia|]); cbn [app until_lf].
  - by rewrite bool_decide_true.
  - rewrite bool_decide_false by done. rewrite IH by (simpl in Hn; lia). done.
Qed.

Lemma until_lf_inv n r x r' :
  until_lf n r = (x, r') ->
  r = x ++ r' /\ (without lf x \/ exists y, x = y ++ [lf] /\ without lf y /\ (length y < n)%nat).
Proof.
  revert r x. induction n as [|n IH]; intros r x; cbn [until_lf]; [intros [= <- <-]; split; [done | left; constructor]|].
  destruct r as [|b r]; [intros [= <- <-]; split; [done | left; constructor]|]. case_bool_decide as Hb.
  - intros [= <- <-]. subst b. split; [done|]. right. exists []. split_and!; [done | constructor | simpl; lia].
  - destruct (until_lf n r) as [x1 r1] eqn:E. intros [= <- <-]. destruct (IH r x1 E) as [-> [Hw|(y & -> & Hw & Hl)]]; (split; [done|]).
    + left. by constructor.
    + right. exists (b :: y). split_and!; [done | by constructor | simpl; lia].
Qed.

Lemma read_raw_line_app limit line y r : without lf y -> len y < limit -> read_raw_line limit line (y ++ lf :: r) = Ok (line ++ y ++ [lf], r).
Proof.
  intros Hy Hl. unfold read_raw_line. rewrite until_lf_app by (done || (unfold len in Hl; lia)). rewrite bool_decide_false by (by destruct y).
  rewrite bool_decide_true; [done|]. rewrite app_assoc. by rewrite last_snoc.
Qed.

Lemma read_raw_line_inv limit line r l' r' :
  read_raw_line limit line r = Ok (l', r') -> exists y, l' = line ++ y ++ [lf] /\ r = y ++ lf :: r' /\ without lf y /\ len y < limit.
Proof.
  unfold read_raw_line. destruct (until_lf (Z.to_nat limit) r) as [x r1] eqn:E. case_bool_decide as Hx; [done|]. case_bool_decide as Hl; [|done].
  intros [= <- <-]. apply until_lf_inv in E as [-> [Hw|(y & -> & Hw & Hn)]].
  - exfalso. destruct x as [|b x _] using rev_ind; [done|]. rewrite app_assoc, last_snoc in Hl. injection Hl as ->.
    apply list.Forall_app in Hw as [_ Hw]. by apply list.Forall_cons in Hw as [? _].
  - exists y. rewrite <- app_assoc. split_and!; [done | done | done | unfold len; lia].
Qed.

Lemma read_raw_line_no_panic limit line r : read_raw_line limit line r <> Panic.
Proof. unfold read_raw_line. destruct (until_lf _ r) as [x r1]. repeat case_if; done. Qed.

(** An informational head is read again from its bytes, whatever follows. *)
Lemma informational_again fuel limit raw r raw' r' :
  informational_loop fuel limit raw r = Ok (raw', r') ->
  exists s, raw' = raw ++ s /\ r = s ++ r'
    /\ forall limit' next g, limit <= limit' -> (length s < g)%nat -> informational_loop g limit' raw (s ++ next) = Ok (raw', next).
Proof.
  revert raw r. induction fuel as [|fuel IH]; intros raw r; [done|]. cbn [informational_loop]. case_if.
  { intros [= <- <-]. exists []. rewrite app_nil_r. split_and!; [done..|]. intros limit' next [|g] _ Hg; [lia|]. cbn [informational_loop]. by rewrite Heqb. }
  case_if; [done|]. destruct (read_raw_line limit raw r) as [[raw1 r1]| |] eqn:E; [|done..]. cbn [res_bind].
  apply read_raw_line_inv in E as (y & -> & -> & Hy & Hl). intros (s & -> & -> & Hs)%IH. exists (y ++ lf :: s).
  split_and!; [by rewrite <- !app_assoc | by rewrite <- app_assoc|]. intros limit' next [|g] Hlim Hg; [lia|]. cbn [informational_loop].
  rewrite Heqb, Heqb0. rewrite <- app_assoc. cbn [app]. rewrite read_raw_line_app by (done || lia). cbn [res_bind].
  rewrite Hs; [done | done|]. rewrite length_app in Hg. simpl in Hg. lia.
Qed.

(** ** What a response head holds *)

Record reply_ok (request_method : str) (head : HttpResponseHead) : Prop := {
  rp_version : 0 <= fst (rs_version head) <= 9 /\ 0 <= snd (rs_version head) <= 9;
  rp_code : 0 <= rs_status_code head <= 999;
  rp_status : without lf (rs_status head) /\ is_Some (utf8_chars (rs_status head));
  rp_headers : headers_ok false (rs_headers head);
  rp_body :
    if bool_decide (request_method = str_of "HEAD") then rs_body head = BodyNone /\ -1 <= rs_content_length head <= i64_max
    else if negb (body_allowed (rs_status_code head)) then rs_body head = BodyNone /\ rs_content_length head = 0
    else match rs_body head with
         | BodyNone => rs_content_length head = 0
         | BodyLength n => rs_content_length head = n /\ 0 < n <= i64_max
         | BodyChunked => rs_content_length head = -1 /\ version_lt (rs_version head) (1, 1) = false
         | BodyUntilClose => rs_content_length head = -1
         end
}.

Lemma transfer_version h v h' : transfer_is_chunked h v = Ok (h', true) -> version_lt v (1, 1) = false.
Proof. unfold transfer_is_chunked. cbv zeta. case_if; [done|]. by case_if. Qed.

Lemma fix_length_zero h response status method chunked h' n :
  fix_length h response status method chunked = Ok (h', n) -> (response && bool_decide (method = str_of "HEAD")) || negb (body_allowed status) = true -> n = 0.
Proof.
  unfold fix_length. destruct (agreed_content_length h) as [[h1 agreed]| |]; [|done..]. cbn [res_bind].
  set (declared := match agreed with Some v => _ | None => _ end). destruct declared as [d| |]; [|done..]. cbn [res_bind]. intros E Hc.
  rewrite Hc in E. by injection E.
Qed.

Lemma fix_length_chunked h status method h' n :
  fix_length h true status method true = Ok (h', n) -> bool_decide (method = str_of "HEAD") || negb (body_allowed status) = false -> n = -1.
Proof.
  unfold fix_length. destruct (agreed_content_length h) as [[h1 agreed]| |]; [|done..]. cbn [res_bind].
  set (declared := match agreed with Some v => _ | None => _ end). destruct declared as [d| |]; [|done..]. cbn [res_bind andb]. intros E Hc.
  rewrite Hc in E. by injection E.
Qed.

Lemma utf8_after s x t : u8 x < 0x80 -> is_Some (utf8_chars (s ++ x :: t)) -> is_Some (utf8_chars t).
Proof. intros Hx [cs Hu]. apply utf8_split in Hu as (_ & ts & _ & Hu & _); [by rewrite Hu | done]. Qed.

Lemma utf8_behind a t : Forall (fun b => u8 b < 0x80) a -> is_Some (utf8_chars (a ++ t)) -> is_Some (utf8_chars t).
Proof. intros Ha Hu. rewrite (utf8_app a _ t (utf8_ascii a Ha)) in Hu. by apply fmap_is_Some in Hu. Qed.

Lemma status_text version status :
  without lf (version ++ sp :: status) -> is_Some (utf8_chars (version ++ sp :: status)) ->
  let status' := drop_while (fun b => bool_decide (b = sp)) status in without lf status' /\ is_Some (utf8_chars status').
Proof.
  intros Hw Hu. cbv zeta. destruct (drop_while_cut (fun b => bool_decide (b = sp)) status) as (a & E & Ha & _). rewrite E in Hw, Hu at 1.
  apply list.Forall_app in Hw as [_ Hw]. apply list.Forall_cons in Hw as [_ Hw]. apply list.Forall_app in Hw as [_ Hw]. split; [done|].
  apply utf8_after in Hu; [|done]. eapply utf8_behind; [|exact Hu]. eapply list.Forall_impl; [exact Ha|]. intros b Hb%bool_decide_eq_true. by rewrite Hb.
Qed.

Lemma read_response_head_ok limit y method r head rest :
  without lf y -> read_response_head limit (y ++ [lf]) method r = Ok (head, rest) -> reply_ok method head.
Proof.
  intros Hy. unfold read_response_head. rewrite strip_end_snoc. cbv zeta.
  assert (without lf (strip_end cr y)) as Hw
    by (destruct (strip_end_split cr y) as [E|E]; [by rewrite <- E|]; rewrite E in Hy; by apply list.Forall_app in Hy as [? _]).
  destruct (from_utf8 (strip_end cr y)) as [line|] eqn:Eu; [|done]. apply from_utf8_inv in Eu as [-> Hu]. cbn [ok_or res_bind].
  destruct (split_first sp (strip_end cr y)) as [[version status]|] eqn:Es; [|done]. cbn [ok_or res_bind]. apply split_first_inv in Es as [Es _].
  rewrite Es in Hw, Hu.
  destruct (status_text version status Hw Hu) as [Hst1 Hst2]. set (st := drop_while _ status) in *.
  set (code := match split_first sp st with Some (c, _) => c | None => st end).
  destruct (length code =? 3)%nat eqn:Hl3; [|done]. apply Nat.eqb_eq in Hl3. destruct (parse_i64_text code) as [n|] eqn:En; [|done]. cbn [mbind option_bind].
  destruct ((0 <=? n) && (n <=? u16_max)) eqn:En2; [|done]. cbn [ok_or res_bind]. apply andb_true_iff in En2 as [Hn0 _]. apply Z.leb_le in Hn0.
  pose proof (status_code_range code n Hl3 En Hn0) as Hn9.
  destruct (http_version version) as [[va vb]|] eqn:Ev; [|done]. cbn [ok_or res_bind]. apply http_version_digits in Ev.
  unfold read_header_block. destruct (header_loop _ _ _ _ _ r) as [[block r2]| |] eqn:Eb; [|done..]. cbn [res_bind].
  apply header_loop_ok in Eb; [|by intros k vs Hk].
  destruct (transfer_is_chunked _ (va, vb)) as [[h1 chunked]| |] eqn:E1; [|done..]. cbn [malformed res_map_err res_bind].
  pose proof (transfer_ok false _ _ _ _ (fix_pragma_ok false _ Eb) E1) as Hh1.
  destruct (fix_length h1 true n method chunked) as [[h2 m]| |] eqn:E2; [|done..]. cbn [malformed res_map_err res_bind].
  pose proof (fix_length_ok false _ _ _ _ _ _ _ Hh1 E2) as (Hh2 & Hm & _). pose proof (fix_length_zero _ _ _ _ _ _ _ E2) as Hz.
  cbn [andb] in Hz. destruct (bool_decide (method = str_of "HEAD")) eqn:Ehd.
  - rewrite (Hz eq_refl). rewrite andb_false_r. cbn [negb andb]. set (cl := match header_get h2 _ with Some v => _ | None => _ end).
    destruct cl as [c| |] eqn:Ecl; [|done..]. cbn [res_bind]. intros [= <- <-]. split; cbn [rs_version rs_status_code rs_status rs_headers rs_body rs_content_length fst snd]; [done..|]. rewrite Ehd. split; [done|].
    subst cl. destruct (header_get h2 _) as [v|]; [|by injection Ecl as <-]. destruct (parse_content_length (trim_ascii_space v)) as [c'| |] eqn:Ep; [|done..].
    cbn [malformed res_map_err res_bind] in Ecl. case_if_in Ecl; [|done]. injection Ecl as <-. apply parse_length_range in Ep. lia.
  - cbn [res_bind negb andb]. intros [= <- <-]. split; cbn [rs_version rs_status_code rs_status rs_headers rs_body rs_content_length fst snd]; [done..|]. rewrite Ehd. destruct (body_allowed n) eqn:Eal; cbn [negb].
    + destruct chunked; cbn [andb].
      * split; [by eapply fix_length_chunked; [exact E2|]; rewrite Ehd, Eal | by eapply transfer_version].
      * destruct (Z.eqb_spec m 0); [done|]. destruct (Z.eqb_spec m (-1)); [done|]. lia.
    + rewrite andb_false_r. rewrite (Hz eq_refl). done.
Qed.

(** ** The head that is sent *)

Definition is_chunked (head : HttpResponseHead) : bool := bool_decide (rs_body head = BodyChunked).

(** The length that the client is told *)
Definition client_length (head : HttpResponseHead) (method : str) : option Z :=
  if response_sends_length head method then Some (rs_content_length head)
  else if (rs_content_length head =? 0) && negb (is_chunked head) && body_allowed (rs_status_code head) then Some 0 else None.

Definition close_fields (head : HttpResponseHead) : list (str * list byte) :=
  if negb (keeps_alive head) && negb (has_close_token (header_values (client_headers head) (str_of "Connection")))
  then [(str_of "Connection", str_of "close")] else [].
Definition reply_framing_fields (head : HttpResponseHead) (method : str) : list (str * list byte) :=
  if response_sends_length head method then [(str_of "Content-Length", show_dec (rs_content_length head))]
  else if is_chunked head then [(str_of "Transfer-Encoding", str_of "chunked")] else [].
Definition zero_fields (head : HttpResponseHead) (method : str) : list (str * list byte) :=
  if (rs_content_length head =? 0) && negb (is_chunked head) && negb (response_sends_length head method) && body_allowed (rs_status_code head)
  then [(str_of "Content-Length", str_of "0")] else [].
Definition client_fields (head : HttpResponseHead) (method : str) : list (str * list byte) :=
  close_fields head ++ reply_framing_fields head method ++ header_pairs (client_headers head) response_excluded ++ zero_fields head method.

Definition status_rest (head : HttpResponseHead) : str :=
  default (rs_status head) (strip_text (show_dec (rs_status_code head) ++ [sp]) (rs_status head)).
Definition status_line (head : HttpResponseHead) : str :=
  version_text (rs_version head) ++ sp :: show_status (rs_status_code head) ++ sp :: status_rest head.

Lemma lines_one n v : lines [(n, v)] = field_line n v.
Proof. unfold lines. cbn [map concat fst snd]. by rewrite app_nil_r. Qed.

Lemma client_lines head method :
  client_head head method = status_line head ++ crlf_bytes ++ lines (client_fields head method) ++ crlf_bytes.
Proof.
  unfold client_head, client_fields, status_line, version_text. cbv zeta. rewrite !lines_app, <- write_subset_lines.
  fold (is_chunked head). fold (status_rest head).
  assert (lines (close_fields head) = if negb (keeps_alive head) && negb (has_close_token (header_values (client_headers head) (str_of "Connection")))
    then field_line (str_of "Connection") (str_of "close") else []) as -> by (unfold close_fields; case_if; [apply lines_one | done]).
  assert (lines (reply_framing_fields head method)
    = if response_sends_length head method then field_line (str_of "Content-Length") (show_dec (rs_content_length head))
      else if is_chunked head then field_line (str_of "Transfer-Encoding") (str_of "chunked") else []) as ->
    by (unfold reply_framing_fields; repeat case_if; [apply lines_one..|done]).
  assert (lines (zero_fields head method)
    = if (rs_content_length head =? 0) && negb (is_chunked head) && negb (response_sends_length head method) && body_allowed (rs_status_code head)
      then field_line (str_of "Content-Length") (str_of "0") else []) as -> by (unfold zero_fields; case_if; [apply lines_one | done]).
  rewrite <- !app_assoc. cbn [app]. rewrite <- !app_assoc. done.
Qed.

Lemma client_headers_ok method head : reply_ok method head -> headers_ok false (client_headers head).
Proof.
  intros Hr. pose proof (rp_headers _ _ Hr) as Hh. unfold client_headers. cbv zeta.
  assert (headers_ok false (remove_hop_by_hop_headers (rs_headers head)))
    by (unfold remove_hop_by_hop_headers; by apply headers_ok_remove_all, headers_ok_delete, headers_ok_remove_all).
  case_if; [|done]. repeat (apply headers_ok_insert; [|by apply own_name | done..]). done.
Qed.

Lemma chunked_sends_no_length head method : is_chunked head = true -> response_sends_length head method = false.
Proof. unfold is_chunked, response_sends_length. by intros ->. Qed.

Lemma content_length_range method head : reply_ok method head -> -1 <= rs_content_length head <= i64_max.
Proof.
  intros Hr. pose proof (rp_body _ _ Hr) as Hb. case_if_in Hb; [by destruct Hb|]. case_if_in Hb; [destruct Hb; unfold i64_max; lia|].
  unfold i64_max in *. destruct (rs_body head); lia.
Qed.

Lemma client_length_range method head n : reply_ok method head -> client_length head method = Some n -> 0 <= n <= i64_max.
Proof.
  intros Hr%content_length_range. unfold client_length. case_if; [|by case_if; intros [= <-]]. intros [= <-].
  unfold response_sends_length in Heqb. apply andb_true_iff in Heqb as [_ [Hc|[Hc _]%andb_true_iff]%orb_true_iff]; lia.
Qed.

Lemma client_fields_ok head method : reply_ok method head -> fields_ok false (client_fields head method).
Proof.
  intros Hr. unfold client_fields, fields_ok. rewrite !list.Forall_app. split_and!.
  - unfold close_fields. case_if; [|constructor]. apply list.Forall_singleton. split_and!; [by apply own_name | by apply tight_value | done].
  - unfold reply_framing_fields. case_if; [|case_if; [|constructor]]; apply list.Forall_singleton; split_and!; try (by apply own_name); try done; cbn [snd].
    + apply shown_value. apply (client_length_range method head); [done|]. unfold client_length. by rewrite Heqb.
    + by apply tight_value.
  - by apply header_pairs_ok, (client_headers_ok method).
  - unfold zero_fields. case_if; [|constructor]. apply list.Forall_singleton. split_and!; [by apply own_name | by apply tight_value | done].
Qed.

(** ** The head that is read *)

Lemma client_values head method k :
  reply_ok method head ->
  adds ∅ (client_fields head method) !! k = match values_of (client_fields head method) k with [] => None | vs => Some vs end.
Proof.
  intros Hr. rewrite adds_lookup, lookup_empty.
  - by destruct (values_of (client_fields head method) k).
  - eapply list.Forall_impl; [by apply client_fields_ok|]. intros x (Hk & _). by apply nm_canonical.
Qed.

Lemma client_lookup_encoding head method :
  reply_ok method head ->
  adds ∅ (client_fields head method) !! str_of "Transfer-Encoding" = if is_chunked head then Some [str_of "chunked"] else None.
Proof.
  intros Hr. rewrite client_values by done. unfold client_fields. rewrite !values_of_app, header_pairs_values.
  rewrite (bool_decide_true (str_of "Transfer-Encoding" ∈ response_excluded)) by by_decision. unfold close_fields, reply_framing_fields, zero_fields.
  destruct (is_chunked head) eqn:Ec; [rewrite chunked_sends_no_length by done|];
    repeat match goal with |- context [values_of (if ?b then _ else _) _] => destruct b end; rewrite ?values_of_one; repeat lookup_step; done.
Qed.

Lemma client_lookup_length head method :
  reply_ok method head ->
  adds ∅ (client_fields head method) !! str_of "Content-Length" = (fun n => [show_dec n]) <$> client_length head method.
Proof.
  intros Hr. rewrite client_values by done. unfold client_fields. rewrite !values_of_app, header_pairs_values.
  rewrite (bool_decide_true (str_of "Content-Length" ∈ response_excluded)) by by_decision.
  unfold close_fields, reply_framing_fields, zero_fields, client_length.
  destruct (response_sends_length head method); cbn [negb]; rewrite ?andb_true_r, ?andb_false_r; cbn [andb];
    repeat match goal with |- context [values_of (if ?b then _ else _) _] => destruct b end; rewrite ?values_of_one; repeat lookup_step; done.
Qed.

(** The length that a client should be told: the one that the server sent, and none where there is no
    body and the request called for none *)
Definition length_replied (head : HttpResponseHead) (method : str) : option Z :=
  if 0 <? rs_content_length head then Some (rs_content_length head)
  else if (rs_content_length head =? 0) && (body_allowed (rs_status_code head) || sends_body method) then Some 0 else None.

(** The values that a client should read of each header, for the response that a server made *)
Definition reply_expected (head : HttpResponseHead) (method k : str) : option (list (list byte)) :=
  let kept := keeps_alive head in
  if bool_decide (k = str_of "Content-Length") then (fun n => [show_dec n]) <$> length_replied head method
  else if bool_decide (k = str_of "Transfer-Encoding") then
    (if bool_decide (rs_body head = BodyChunked) then Some [str_of "chunked"] else None)
  else if bool_decide (k = str_of "Trailer") then None
  else if bool_decide (k = str_of "Connection") then Some [if kept then str_of "keep-alive" else str_of "close"]
  else if bool_decide (k = str_of "Proxy-Connection") then (if kept then Some [str_of "keep-alive"] else None)
  else if kept && bool_decide (k = str_of "Keep-Alive") then Some [str_of "timeout=60"]
  else if bool_decide (k ∈ hop_names (rs_headers head)) then None
  else map clean_value <$> rs_headers head !! k.

Lemma client_length_replied method head : reply_ok method head -> client_length head method = length_replied head method.
Proof.
  intros Hr. pose proof (content_length_range method head Hr) as Hc. pose proof (rp_body _ _ Hr) as Hb.
  assert (is_chunked head = true -> rs_content_length head = -1) as Hch.
  { unfold is_chunked. intros Eb%bool_decide_eq_true. rewrite Eb in Hb. case_if_in Hb; [by destruct Hb|]. case_if_in Hb; [by destruct Hb|]. by destruct Hb. }
  unfold client_length, length_replied, response_sends_length. fold (is_chunked head). destruct (is_chunked head).
  - rewrite (Hch eq_refl). done.
  - cbn [negb andb]. rewrite andb_true_r. destruct (0 <? rs_content_length head) eqn:E1; [done|]. cbn [orb].
    destruct (Z.eqb_spec (rs_content_length head) 0) as [->|]; [|done]. cbn [andb].
    by destruct (sends_body method), (body_allowed (rs_status_code head)).
Qed.

(** The headers for the client, but for the three that the proxy sets when it keeps the connection *)
Lemma client_headers_lookup head k :
  client_headers head !! k
  = if keeps_alive head && bool_decide (k = str_of "Keep-Alive") then Some [str_of "timeout=60"]
    else if keeps_alive head && (bool_decide (k = str_of "Connection") || bool_decide (k = str_of "Proxy-Connection"))
         then Some [str_of "keep-alive"]
    else if bool_decide (k ∈ hop_names (rs_headers head)) then None else rs_headers head !! k.
Proof.
  rewrite <- hop_by_hop_removed. unfold client_headers, header_set. cbv zeta. destruct (keeps_alive head); cbn [andb]; [|done].
  change (canonical_header_key (str_of "Proxy-Connection")) with (str_of "Proxy-Connection"). change (canonical_header_key (str_of "Connection")) with (str_of "Connection").
  change (canonical_header_key (str_of "Keep-Alive")) with (str_of "Keep-Alive").
  case_bool_decide as H1; [subst; by rewrite lookup_insert_eq|]. rewrite lookup_insert_ne by done.
  case_bool_decide as H2; [subst; by rewrite lookup_insert_eq|]. rewrite lookup_insert_ne by done. cbn [orb].
  case_bool_decide as H3; [subst; by rewrite lookup_insert_eq|]. by rewrite lookup_insert_ne.
Qed.

Lemma hop_connection h :
  str_of "Connection" ∈ hop_names h /\ str_of "Proxy-Connection" ∈ hop_names h.
Proof. unfold hop_names. rewrite map_app, !elem_of_app. split; [right | left]; [by constructor | by_decision]. Qed.

Lemma kept_values method head k :
  reply_ok method head ->
  match map clean_value (default [] (client_headers head !! k)) with [] => None | vs => Some vs end = map clean_value <$> client_headers head !! k.
Proof.
  intros Hr. destruct (client_headers head !! k) as [[|v vs]|] eqn:E; [|done..]. exfalso. by destruct (client_headers_ok method head Hr k [] E) as (_ & ? & _).
Qed.

(** A connection that is not kept is closed, whatever the server's [Connection] says. *)
Lemma close_fields_eq head : close_fields head = if keeps_alive head then [] else [(str_of "Connection", str_of "close")].
Proof.
  unfold close_fields. destruct (keeps_alive head) eqn:Ek; [done|]. cbn [negb andb]. unfold header_values.
  change (canonical_header_key (str_of "Connection")) with (str_of "Connection"). rewrite client_headers_lookup, Ek. cbn [andb].
  by rewrite bool_decide_true by (apply hop_connection).
Qed.

(** The headers that a client reads are those that it should. *)
Lemma client_expected head method k :
  reply_ok method head -> adds ∅ (client_fields head method) !! k = reply_expected head method k.
Proof.
  intros Hr. unfold reply_expected. cbv zeta.
  destruct (decide (k = str_of "Content-Length")) as [->|H1]; [rewrite bool_decide_true, <- (client_length_replied method) by done; by apply client_lookup_length|].
  rewrite (bool_decide_false (k = str_of "Content-Length")) by done.
  destruct (decide (k = str_of "Transfer-Encoding")) as [->|H2]; [rewrite bool_decide_true by done; by apply client_lookup_encoding|].
  rewrite (bool_decide_false (k = str_of "Transfer-Encoding")) by done.
  rewrite client_values by done. unfold client_fields. rewrite !values_of_app, header_pairs_values, close_fields_eq.
  assert (values_of (reply_framing_fields head method) k = [] /\ values_of (zero_fields head method) k = []) as [-> ->].
  { unfold reply_framing_fields, zero_fields. split; repeat case_if; rewrite ?values_of_one; repeat lookup_step; done. }
  destruct (decide (k = str_of "Trailer")) as [->|H3]; [rewrite !bool_decide_true by by_decision; by destruct (keeps_alive head)|].
  rewrite (bool_decide_false (k = str_of "Trailer")), (bool_decide_false (k ∈ response_excluded)), app_nil_r
    by (first [done | unfold response_excluded; rewrite !not_elem_of_cons; split_and!; [done..|apply not_elem_of_nil]]). cbn [app].
  pose proof (kept_values method head k Hr) as Hv. pose proof (hop_connection (rs_headers head)) as [Hc Hpc]. rewrite client_headers_lookup in *.
  destruct (decide (k = str_of "Connection")) as [->|H4].
  { rewrite (bool_decide_true (str_of "Connection" ∈ _)) in * by done. by destruct (keeps_alive head). }
  rewrite (bool_decide_false (k = str_of "Connection")) in * by done. cbn [orb] in *.
  assert (values_of (if keeps_alive head then [] else [(str_of "Connection", str_of "close")]) k = []) as ->
    by (case_if; [done | rewrite values_of_one; by rewrite bool_decide_false]). cbn [app]. rewrite Hv.
  destruct (decide (k = str_of "Proxy-Connection")) as [->|H5].
  { rewrite (bool_decide_true (str_of "Proxy-Connection" ∈ _)) by done. by destruct (keeps_alive head). }
  rewrite (bool_decide_false (k = str_of "Proxy-Connection")), andb_false_r by done. repeat case_if; done.
Qed.

(** The headers that the proxy writes for itself in a response *)
Definition reply_headers : list str :=
  [str_of "Proxy-Connection"; str_of "Connection"; str_of "Keep-Alive"; str_of "Cache-Control"] ++ response_excluded.

Lemma client_lookup_other head method k :
  reply_ok method head -> k ∉ reply_headers ->
  adds ∅ (client_fields head method) !! k
  = if bool_decide (k ∈ hop_names (rs_headers head)) then None else map clean_value <$> rs_headers head !! k.
Proof.
  intros Hr Hk. rewrite client_expected by done. unfold reply_expected. cbv zeta.
  rewrite !(bool_decide_false (k = _)) by (intros ->; apply Hk; by_decision). by rewrite andb_false_r.
Qed.

Lemma transfer_lookup h v h' c k : transfer_is_chunked h v = Ok (h', c) -> k <> str_of "Transfer-Encoding" -> h' !! k = h !! k.
Proof.
  unfold transfer_is_chunked, header_remove. cbv zeta. change (canonical_header_key (str_of "Transfer-Encoding")) with (str_of "Transfer-Encoding").
  intros E Hk. assert (delete (str_of "Transfer-Encoding") h !! k = h !! k) as Hd by (by rewrite lookup_delete_ne).
  case_if_in E; [by injection E as <- _|]. case_if_in E; [by injection E as <- _|].
  destruct (header_values h (str_of "Transfer-Encoding")) as [|w [|]]; try done. case_if_in E; [|done]. by injection E as <- _.
Qed.

(** The length that a client takes from a response *)
Lemma fix_length_reply h status method chunked o :
  h !! str_of "Content-Length" = (fun n => [show_dec n]) <$> o -> (forall n, o = Some n -> 0 <= n <= i64_max) ->
  exists h', fix_length h true status method chunked
    = Ok (h', if bool_decide (method = str_of "HEAD") || negb (body_allowed status) then 0 else if chunked : bool then -1 else default (-1) o)
    /\ (bool_decide (method = str_of "HEAD") = true -> h' = h) /\ forall k, k <> str_of "Content-Length" -> h' !! k = h !! k.
Proof.
  intros E Ho. unfold fix_length.
  assert (forall k, k <> str_of "Content-Length" -> header_remove h (str_of "Content-Length") !! k = h !! k) as Hr
    by (intros k Hk; unfold header_remove; by rewrite lookup_delete_ne).
  assert (agreed_content_length h = Ok (h, show_dec <$> o)) as ->.
  { unfold agreed_content_length, header_values. change (canonical_header_key (str_of "Content-Length")) with (str_of "Content-Length"). rewrite E.
    destruct o as [n|]; [|done]. cbn [fmap option_fmap option_map]. change (default [] (Some [show_dec n])) with [show_dec n]. cbv zeta. cbn [existsb length].
    destruct (shown_parses n (Ho n eq_refl)) as (_ & Hd & _). destruct (digits_value _ Hd) as [_ Ht]. rewrite Ht. by rewrite bool_decide_true. }
  cbn [res_bind andb]. assert (match show_dec <$> o with Some v => let? n := parse_content_length v in Ok (Some n) | None => Ok None end = Ok o) as ->.
  { destruct o as [n|]; [|done]. cbn [fmap option_fmap option_map]. by rewrite (proj1 (shown_parses n (Ho n eq_refl))). }
  cbn [res_bind]. destruct (bool_decide (method = str_of "HEAD")); cbn [orb]; [by eexists|]. destruct (negb (body_allowed status)); [by eexists|].
  destruct chunked; [by eexists|]. destruct o as [n|]; [|by eexists]. specialize (Ho n eq_refl). guard_true by lia. by eexists.
Qed.

Lemma decimal_text s : Forall (fun b => is_Some (digit 10 b)) s -> without sp s /\ without lf s /\ Forall (fun b => u8 b < 0x80) s.
Proof.
  intros Hs. assert (forall b, b ∈ s -> u8 b < 0x80 /\ b <> lf /\ b <> cr /\ b <> sp /\ b <> tab /\ b <> ";"%byte) as Hb
    by (intros b Hb; rewrite list.Forall_forall in Hs; by apply number_bytes, decimal_hex, Hs).
  split_and!; apply list.Forall_forall; intros b (? & ? & ? & ? & _)%Hb; done.
Qed.

Lemma version_text_plain v :
  0 <= fst v <= 9 -> 0 <= snd v <= 9 ->
  without sp (version_text v) /\ without lf (version_text v) /\ Forall (fun b => u8 b < 0x80) (version_text v).
Proof.
  intros Ha Hb. unfold version_text. destruct (show_digit _ Ha) as (-> & Da & _), (show_digit _ Hb) as (-> & Db & _).
  assert (forall b, is_digit_byte b = true -> b <> sp /\ b <> lf /\ u8 b < 0x80) as Hd by (clear; intros b Hb; by destruct b).
  apply Hd in Da as (? & ? & ?). apply Hd in Db as (? & ? & ?).
  split_and!; repeat first [apply list.Forall_cons; split | apply list.Forall_nil]; done.
Qed.

Lemma status_rest_plain method head : reply_ok method head -> without lf (status_rest head) /\ is_Some (utf8_chars (status_rest head)).
Proof.
  intros Hr. destruct (rp_status _ _ Hr) as [Hw Hu]. unfold status_rest. destruct (strip_text _ (rs_status head)) as [t|] eqn:E; [|done].
  apply strip_text_inv in E. rewrite E in Hw, Hu. change (default (rs_status head) (Some t)) with t.
  apply list.Forall_app in Hw as [_ Hw]. split; [done|]. rewrite <- app_assoc in Hu. by apply utf8_after in Hu.
Qed.

Lemma status_line_read method head :
  reply_ok method head ->
  without lf (status_line head) /\ from_utf8 (status_line head) = Some (status_line head)
  /\ split_first sp (status_line head) = Some (version_text (rs_version head), show_status (rs_status_code head) ++ sp :: status_rest head)
  /\ drop_while (fun b => bool_decide (b = sp)) (show_status (rs_status_code head) ++ sp :: status_rest head)
     = show_status (rs_status_code head) ++ sp :: status_rest head
  /\ split_first sp (show_status (rs_status_code head) ++ sp :: status_rest head) = Some (show_status (rs_status_code head), status_rest head).
Proof.
  intros Hr. destruct (status_rest_plain _ _ Hr) as [Hw [cs Hu]], (rp_version _ _ Hr) as [Ha Hb].
  destruct (version_text_plain _ Ha Hb) as (Hv1 & Hv2 & Hv3). destruct (show_status_digits _ (rp_code _ _ Hr)) as [Hd _].
  destruct (decimal_text _ Hd) as (Hs1 & Hs2 & Hs3). unfold status_line. split_and!.
  - apply list.Forall_app. split; [done|]. constructor; [done|]. apply list.Forall_app. split; [done|]. by constructor.
  - assert (forall t, utf8_chars (sp :: t) = cons 32 <$> utf8_chars t) as Hsp by done.
    unfold from_utf8. by rewrite (utf8_app _ _ _ (utf8_ascii _ Hv3)), Hsp, (utf8_app _ _ _ (utf8_ascii _ Hs3)), Hsp, Hu.
  - by apply split_first_at.
  - unfold show_status in *. cbn [app drop_while]. apply list.Forall_cons in Hs1 as [Hs1 _]. by rewrite bool_decide_false.
  - by apply split_first_at.
Qed.

(** The body that a client expects is the one that the server sent. *)
Lemma reply_body_same method head m :
  reply_ok method head ->
  m = (if bool_decide (method = str_of "HEAD") || negb (body_allowed (rs_status_code head)) then 0
       else if is_chunked head then -1 else default (-1) (client_length head method)) ->
  (if is_chunked head && negb (bool_decide (method = str_of "HEAD")) && body_allowed (rs_status_code head) then BodyChunked
   else if m =? 0 then BodyNone else if m =? -1 then BodyUntilClose else BodyLength (Z.abs m)) = rs_body head.
Proof.
  intros Hr ->. pose proof (rp_body _ _ Hr) as Hb. unfold client_length, response_sends_length, is_chunked. destruct (bool_decide (method = str_of "HEAD")).
  { destruct Hb as [-> _]. by rewrite bool_decide_false. }
  destruct (body_allowed (rs_status_code head)); cbn [negb] in Hb; [|by destruct Hb as [-> _]].
  cbn [negb orb]. destruct (rs_body head) as [|n| |].
  - rewrite Hb. cbn. by destruct (sends_body method).
  - destruct Hb as [-> Hn]. rewrite bool_decide_false by done. rewrite (proj2 (Z.ltb_lt _ _)) by lia. cbn [andb orb negb].
    change (default (-1) (Some n)) with n. guard_false by lia. guard_false by lia. f_equal. lia.
  - by rewrite bool_decide_true.
  - rewrite Hb. by rewrite bool_decide_false.
Qed.

(** A status of three digits is written as it was read. *)
Lemma show_status_dec n : 100 <= n <= 999 -> show_status n = show_dec n.
Proof.
  assert (forallb (fun n => bool_decide (show_status n = show_dec n)) (seqZ 100 900) = true) as Hall by (vm_compute; reflexivity).
  intros Hn. rewrite forallb_forall in Hall. specialize (Hall n). rewrite <- list_elem_of_In, elem_of_seqZ in Hall.
  apply (bool_decide_eq_true_1 (show_status n = show_dec n)), Hall. lia.
Qed.

Lemma status_rest_same head reason :
  100 <= rs_status_code head <= 999 -> rs_status head = show_dec (rs_status_code head) ++ sp :: reason ->
  show_status (rs_status_code head) ++ sp :: status_rest head = rs_status head.
Proof.
  intros Hc E. rewrite show_status_dec by done. unfold status_rest. rewrite E. unfold strip_text.
  assert (take (length (show_dec (rs_status_code head) ++ [sp])) (show_dec (rs_status_code head) ++ sp :: reason) = show_dec (rs_status_code head) ++ [sp]
    /\ drop (length (show_dec (rs_status_code head) ++ [sp])) (show_dec (rs_status_code head) ++ sp :: reason) = reason) as [Et Ed].
  { change (sp :: reason) with ([sp] ++ reason). rewrite app_assoc. by rewrite take_app_length, drop_app_length. }
  rewrite Et, Ed. by rewrite bool_decide_true.
Qed.

(** [got] is what the client reads of [head]. *)
Record reply_relayed (head got : HttpResponseHead) : Prop := {
  rr_version : rs_version got = rs_version head;
  rr_status : rs_status_code got = rs_status_code head;
  rr_reason : forall reason, 100 <= rs_status_code head -> rs_status head = show_dec (rs_status_code head) ++ sp :: reason -> rs_status got = rs_status head;
  rr_body : rs_body got = rs_body head;
  rr_headers : forall k, k ∉ reply_headers ->
    rs_headers got !! k = if bool_decide (k ∈ hop_names (rs_headers head)) then None else map clean_value <$> rs_headers head !! k
}.

(** The fields that are sent, as a client takes them *)
Lemma reply_fields_read method head :
  reply_ok method head ->
  exists h1 h2 m,
    transfer_is_chunked (fix_pragma_cache_control (adds ∅ (client_fields head method))) (rs_version head) = Ok (h1, is_chunked head)
    /\ fix_length h1 true (rs_status_code head) method (is_chunked head) = Ok (h2, m)
    /\ (if is_chunked head && negb (bool_decide (method = str_of "HEAD")) && body_allowed (rs_status_code head) then BodyChunked
        else if m =? 0 then BodyNone else if m =? -1 then BodyUntilClose else BodyLength (Z.abs m)) = rs_body head
    /\ (bool_decide (method = str_of "HEAD") = true ->
        h2 !! str_of "Content-Length" = (fun n => [show_dec n]) <$> client_length head method)
    /\ forall k, k ∉ reply_headers ->
       h2 !! k = if bool_decide (k ∈ hop_names (rs_headers head)) then None else map clean_value <$> rs_headers head !! k.
Proof.
  intros Hr. set (h0 := fix_pragma_cache_control _).
  assert (forall k, k <> str_of "Cache-Control" -> h0 !! k = adds ∅ (client_fields head method) !! k) as H0 by (intros; by apply fix_pragma_lookup).
  assert (exists h1, transfer_is_chunked h0 (rs_version head) = Ok (h1, is_chunked head)) as [h1 E1].
  { unfold transfer_is_chunked, header_values. change (canonical_header_key (str_of "Transfer-Encoding")) with (str_of "Transfer-Encoding").
    rewrite H0, client_lookup_encoding by done. cbv zeta. destruct (is_chunked head) eqn:Ec; [|by eexists]. change (default [] (Some ?x)) with x.
    rewrite bool_decide_false by done. pose proof (rp_body _ _ Hr) as Hb. unfold is_chunked in Ec. apply bool_decide_eq_true in Ec. rewrite Ec in Hb.
    case_if_in Hb; [by destruct Hb|]. case_if_in Hb; [by destruct Hb|]. destruct Hb as [_ ->]. by eexists. }
  pose proof (fun k => transfer_lookup _ _ _ _ k E1) as H1.
  destruct (fix_length_reply h1 (rs_status_code head) method (is_chunked head) (client_length head method)) as (h2 & E2 & Hhead & H2).
  { rewrite H1, H0 by done. by apply client_lookup_length. }
  { intros n. by apply client_length_range. }
  eexists h1, h2, _. split; [done|]. split; [exact E2|]. split; [by apply reply_body_same|]. split.
  - intros ->%Hhead. rewrite H1, H0 by done. by apply client_lookup_length.
  - intros k Hk. assert (k <> str_of "Content-Length" /\ k <> str_of "Transfer-Encoding" /\ k <> str_of "Cache-Control") as (? & ? & ?)
      by (split_and!; intros ->; apply Hk; by_decision).
    rewrite H2, H1, H0 by done. by apply client_lookup_other.
Qed.

Lemma client_first_line limit line fields rest :
  without lf line -> len line + 1 < limit ->
  read_raw_line limit [] ((line ++ crlf_bytes ++ fields ++ crlf_bytes) ++ rest) = Ok (line ++ crlf_bytes, fields ++ crlf_bytes ++ rest).
Proof.
  intros Hw Hl. rewrite <- !app_assoc. pose proof (read_raw_line_app limit [] (line ++ [cr]) (fields ++ crlf_bytes ++ rest)) as Hx.
  rewrite <- !app_assoc in Hx. cbn [app] in Hx. apply Hx; [|rewrite len_app; change (len [cr]) with 1; lia].
  apply list.Forall_app. split; [done|]. by repeat constructor.
Qed.

(** The length that a client reads of a response to [HEAD] *)
Lemma reply_length_read (h : HttpHeaders) o :
  (forall n, o = Some n -> 0 <= n <= i64_max) -> h !! str_of "Content-Length" = (fun n => [show_dec n]) <$> o ->
  exists c, match header_get h (str_of "Content-Length") with
            | Some value => let? n := malformed (parse_content_length (trim_ascii_space value)) in if n <=? i64_max then Ok n else Err Malformed
            | None => Ok (-1)
            end = Ok c.
Proof.
  intros Ho E. unfold header_get, header_values. change (canonical_header_key (str_of "Content-Length")) with (str_of "Content-Length"). rewrite E.
  destruct o as [n|]; [|by eexists]. cbn [fmap option_fmap option_map]. change (head (default [] (Some [show_dec n]))) with (Some (show_dec n)).
  destruct (shown_parses n (Ho n eq_refl)) as (Hp & Hd & _). destruct (digits_value _ Hd) as [_ ->]. rewrite Hp. cbn [malformed res_map_err res_bind].
  specialize (Ho n eq_refl). guard_true by lia. by eexists.
Qed.

Lemma client_head_read limit method head rest :
  reply_ok method head -> len (client_head head method) < limit ->
  exists got,
    read_raw_line limit [] (client_head head method ++ rest)
      = Ok (status_line head ++ crlf_bytes, lines (client_fields head method) ++ crlf_bytes ++ rest)
    /\ read_response_head limit (status_line head ++ crlf_bytes) method (lines (client_fields head method) ++ crlf_bytes ++ rest) = Ok (got, rest)
    /\ reply_relayed head got.
Proof.
  intros Hr. rewrite client_lines, !len_app. change (len crlf_bytes) with 2. intros Hl. pose proof (len_nonneg (status_line head)).
  pose proof (len_nonneg (lines (client_fields head method))). destruct (status_line_read _ _ Hr) as (Hw & Hu & H1 & H2 & H3).
  destruct (reply_fields_read _ _ Hr) as (h1 & h2 & m & E1 & E2 & Ebody & Ehead & Eh).
  destruct (show_status_digits _ (rp_code _ _ Hr)) as [_ Hcode]. destruct (rp_version _ _ Hr) as [Hva Hvb].
  assert (strip_end cr (strip_end lf (status_line head ++ crlf_bytes)) = status_line head) as Est.
  { change crlf_bytes with ([cr] ++ [lf]). by rewrite app_assoc, !strip_end_snoc. }
  assert (exists c, (if bool_decide (method = str_of "HEAD") then
    match header_get h2 (str_of "Content-Length") with
    | Some value => let? n := malformed (parse_content_length (trim_ascii_space value)) in if n <=? i64_max then Ok n else Err Malformed
    | None => Ok (-1)
    end else Ok m) = Ok c) as [c Ec].
  { case_if; [|by eexists]. apply (reply_length_read h2 (client_length head method)); [intros n; by apply client_length_range | by apply Ehead]. }
  destruct (rs_version head) as [va vb] eqn:Ev. eexists. split; [by apply client_first_line; [|lia]|]. unfold read_response_head. rewrite Est. cbv zeta. rewrite Hu. cbn [ok_or res_bind]. rewrite H1. cbn [ok_or res_bind].
  rewrite H2, H3. change (length (show_status (rs_status_code head)) =? 3)%nat with true. cbv iota. rewrite Hcode. cbn [mbind option_bind].
  pose proof (rp_code _ _ Hr) as Hc. rewrite (proj2 (Z.leb_le 0 _)) by lia. rewrite (proj2 (Z.leb_le _ u16_max)) by (unfold u16_max; lia). cbn [andb ok_or res_bind].
  rewrite version_read by done. cbn [ok_or res_bind].
  rewrite read_block_written by (first [by apply client_fields_ok | lia]). cbn [res_bind block_headers].
  rewrite E1. cbn [malformed res_map_err res_bind]. rewrite E2. cbn [malformed res_map_err res_bind].
  rewrite Ec. cbn [res_bind]. split; [reflexivity|]. split; try done. cbn [rs_status]. intros reason Hc1 Hreason. apply (status_rest_same head reason); [lia | done].
Qed.

(** ** Responses through the proxy *)

Lemma reply_not_informational method head :
  reply_ok method head -> ~ (100 <= rs_status_code head <= 199) -> is_informational (status_line head ++ crlf_bytes) = false.
Proof.
  intros Hr Hc. destruct (rp_version _ _ Hr) as [Ha Hb]. destruct (version_text_plain _ Ha Hb) as (Hv & _ & _). unfold is_informational, status_line.
  rewrite <- app_assoc. cbn [app]. rewrite split_first_at by done. unfold show_status. cbn [app]. apply bool_decide_eq_false. intros E.
  pose proof (rp_code _ _ Hr) as Hcode. assert (rs_status_code head / 100 mod 10 = rs_status_code head / 100) as Em
    by (apply Z.mod_small; split; [apply Z.div_pos; lia | apply Z.div_lt_upper_bound; lia]).
  assert (0 <= rs_status_code head / 100 < 10) as Hd by (split; [apply Z.div_pos; lia | apply Z.div_lt_upper_bound; lia]).
  rewrite Em in E. pose proof (digit_shown 10 (rs_status_code head / 100) ltac:(lia) ltac:(lia)) as Hs. rewrite E in Hs. change (digit 10 "1"%byte) with (Some 1) in Hs.
  injection Hs as Hs. pose proof (Z.div_mod (rs_status_code head) 100 ltac:(lia)). pose proof (Z.mod_pos_bound (rs_status_code head) 100 ltac:(lia)). lia.
Qed.

(** What is read: maybe an informational head, then the head *)
Lemma read_response_ok limit method r response rest :
  read_response limit method r = Ok (response, rest) ->
  reply_ok method (response_head response)
  /\ match informational response with
     | None => True
     | Some raw => exists first s, raw = first ++ s /\ is_informational first = true
         /\ forall limit' next, limit <= limit' ->
              read_raw_line limit' [] (raw ++ next) = Ok (first, s ++ next)
              /\ informational_loop (S (length (s ++ next))) limit' first (s ++ next) = Ok (raw, next)
     end.
Proof.
  unfold read_response. destruct (read_raw_line limit [] r) as [[first r1]| |] eqn:E1; [|done..]. cbn [res_bind].
  apply read_raw_line_inv in E1 as (y & -> & -> & Hy & Hl). cbn [app]. destruct (is_informational (y ++ [lf])) eqn:Ei; cbn [negb].
  - destruct (informational_loop _ _ _ r1) as [[raw r2]| |] eqn:Eloop; [|done..]. cbn [res_bind].
    destruct (read_raw_line limit [] r2) as [[first2 r3]| |] eqn:E3; [|done..]. cbn [res_bind].
    destruct (read_response_head limit first2 method r3) as [[head r4]| |] eqn:E4; [|done..]. cbn [res_bind]. intros [= <- <-]. cbn [response_head informational].
    apply read_raw_line_inv in E3 as (z & -> & -> & Hz & _). split; [by eapply read_response_head_ok|].
    apply informational_again in Eloop as (s & -> & -> & Hs). exists (y ++ [lf]), s. split_and!; [done..|]. intros limit' next Hlim. split.
    + rewrite <- !app_assoc. cbn [app]. rewrite read_raw_line_app by (done || lia). done.
    + apply Hs; [done|]. rewrite length_app. lia.
  - destruct (read_response_head limit (y ++ [lf]) method r1) as [[head r4]| |] eqn:E4; [|done..]. cbn [res_bind]. intros [= <- <-].
    split; [by eapply read_response_head_ok | done].
Qed.

Lemma kept_not_until_close method head : reply_ok method head -> keeps_alive head = true -> rs_body head <> BodyUntilClose.
Proof.
  intros Hr Hk Hb. pose proof (rp_body _ _ Hr) as H. rewrite Hb in H. unfold keeps_alive in Hk. apply Z.leb_le in Hk.
  case_if_in H; [by destruct H|]. case_if_in H; [by destruct H|]. lia.
Qed.

(** A copy that ends with the connection, or that can be decoded *)
Lemma copy_reply_decodes body r :
  let '(out, m) := copy_body body r in
  match decode_body MAX_LINE_LEN body r with
  | Some (data, rest) => m = Ok rest /\ forall limit next, 17 < limit -> (body = BodyUntilClose -> next = []) -> decode_body limit body (out ++ next) = Some (data, next)
  | None => exists e, m = Err e
  end.
Proof.
  destruct (decide (body = BodyUntilClose)) as [->|Hb].
  - cbn [copy_body decode_body]. split; [done|]. intros limit next _ ->; [|done]. by rewrite app_nil_r.
  - pose proof (copy_body_decodes body r Hb) as Hc. destruct (copy_body body r) as [out m].
    destruct (decode_body MAX_LINE_LEN body r) as [[data rest]|]; [|done]. destruct Hc as [-> Hc]. split; [done|]. intros. by apply Hc.
Qed.

(** A head that is sent with a status from 100 to 199 looks informational. *)
Lemma reply_informational method head :
  reply_ok method head -> 100 <= rs_status_code head <= 199 -> is_informational (status_line head ++ crlf_bytes) = true.
Proof.
  intros Hr Hc. destruct (rp_version _ _ Hr) as [Ha Hb]. destruct (version_text_plain _ Ha Hb) as (Hv & _ & _). unfold is_informational, status_line.
  rewrite <- app_assoc. cbn [app]. rewrite split_first_at by done. unfold show_status. cbn [app]. apply bool_decide_eq_true.
  assert (rs_status_code head / 100 = 1) as ->; [|done].
  pose proof (Z.div_mod (rs_status_code head) 100 ltac:(lia)). pose proof (Z.mod_pos_bound (rs_status_code head) 100 ltac:(lia)). lia.
Qed.

(** The header fields of a response as they stand in it, each name with its values *)
Definition response_fields (limit : Z) (r : list byte) : res HttpParseError HttpHeaders :=
  let? (_, r) := read_raw_line limit [] r in
  let? (block, _) := read_header_block limit false r in
  Ok (block_headers block).

Lemma response_fields_read limit method head rest :
  reply_ok method head -> len (client_head head method) < limit ->
  response_fields limit (client_head head method ++ rest) = Ok (adds ∅ (client_fields head method)).
Proof.
  intros Hr Hl. destruct (client_head_read limit method head rest Hr Hl) as (got & E & _). unfold response_fields. rewrite E. cbn [res_bind].
  rewrite client_lines, !len_app in Hl. change (len crlf_bytes) with 2 in Hl. pose proof (len_nonneg (status_line head)).
  rewrite read_block_written by (first [by apply client_fields_ok | lia]). done.
Qed.


Definition sample_response : list byte :=
  str_of "HTTP/1.1 100 Continue" ++ crlf_bytes ++ crlf_bytes
  ++ str_of "HTTP/1.1 200 OK" ++ crlf_bytes ++ str_of "Connection: Keep-Alive, X-Hop" ++ crlf_bytes ++ str_of "X-Hop: 1" ++ crlf_bytes
  ++ str_of "Content-Length: 5" ++ crlf_bytes ++ str_of "Server: s" ++ crlf_bytes ++ crlf_bytes ++ str_of "helloHTTP/1.1".
Definition sample_answer : HttpResponse * list byte :=
  Eval vm_compute in ok_of (mkResponse None (mkResponseHead (0, 0) 0 [] ∅ BodyNone 0), []) (read_http_response (str_of "GET") sample_response).


(** The head that is not seen to be informational, and what the client is sent for it *)
Example unseen_informational :
  let r := str_of "HTTP/1.1  100 Continue" ++ crlf_bytes ++ crlf_bytes in
  match read_http_response (str_of "GET") r with
  | Ok (response, _) => informational response = None /\ rs_status_code (response_head response) = 100
  | _ => False
  end
  /\ take 21 (fst (download (str_of "GET") r)) = str_of "HTTP/1.1 100 Continue".
Proof. vm_compute. done. Qed.
